(* ===== verification/_CoqProject ===== *)
-Q . S2P
Prelude.v
Graph.v
Text.v
Globs.v
Cron.v
Values.v
JsonText.v
Protection.v
Loosening.v
Governance.v
Cel.v
Schema.v
Oci.v
Params.v
Scopes.v
Render.v
Ir.v
Approvals.v
RunCreate.v
Policies.v
PolicyStore.v
EnvironmentRules.v
Identity.v
Auth.v
StepUp.v
Refusals.v
Ops.v
Guard.v
OpTable.v
Calls.v
Webauthn.v
Confirm.v
GuardRun.v
Ceremony.v
Requests.v
Admin.v
Events.v
Standing.v
Domain.v
Meta.v
Store.v
Retention.v
Outbox.v
Commits.v
Gates.v
Program.v
Transitions.v
StepAdmit.v
LaunchSpec.v
Logic.v
Cancel.v
Plan.v
Rerun.v
Verdicts.v
Backend.v
Scheduler.v
Settle.v
Races.v
Launch.v
Launches.v
Drain.v
Teardowns.v
Tick.v
ForgeEvent.v
Libraries.v
ForgeToken.v
Admission.v
Creation.v
