(* ===== verification/Prelude.v ===== *)
(** * Scarab CI: a verification of the durable engine and of the cores around it

    Scarab CI (src/README.md, src/crates/) is a CI server that runs Pipelines
    as durable, event-sourced Runs on a pluggable executor, with Environments
    that govern what may be deployed, Policies written in CEL, passkey
    step-ups for dangerous changes, and roles bound to organisations. This
    development is a shallow embedding of its decision-making cores: the
    definitions are translated from the Rust under src/crates/ and keep its
    names, its order of checks and its branches; adapters that only move bytes
    (SQL, HTTP, Kubernetes, WebAssembly, disks) are left out.

    ** Conventions

    A Rust [String] is a [string] of its UTF-8 bytes, a byte buffer of the
    WebAuthn code is a [list ascii]. [i64] timestamps are [Z]; unsigned
    counters are [N], with the saturating and checked operations written out
    where the source has them. A [BTreeMap] is a [gmap] read in key order
    ([Values.btree_list]); a [HashMap] is a [gmap], and where the order it is
    iterated in could be seen that order is a parameter. [Result] and [Option]
    are sums; [?] is bind. A method that takes [state.lock()] once is one
    function of the state. Async code that makes several calls is a [Program]
    (below). Executable definitions throughout; examples evaluate them.

    ** The parts

    Foundations.
    - this file: [Result], the state-and-error notations, list, option, map
      and string lemmas, the hint databases;
    - [Graph]: Kahn's algorithm, shared by pipeline and policy code;
    - [Text]: [str] methods, a bounded [while] loop; [Values]: JSON values and
      their compact text; [JsonText]: that this text is read one way.

    Pipelines (scarab-pipeline).
    - [Cron] (cron.rs): parsing a schedule, searching its next fire;
    - [Cel] (cel.rs): expressions, [${{ .. }}] templates; [Scopes] (scope.rs,
      event.rs): what a template reads and how far it is from outside;
    - [Oci] (oci.rs): image references; [Params] (params.rs): typed
      parameters; [Render] (render.rs): the renderer behind launch and preview;
    - [Ir] (lib.rs): the compiled Pipeline and its dependency cycles.

    Governance (scarab-project, scarab-policy, scarab-server).
    - [Globs]: the two wildcard matchers; [Protection]
      (environment_governance.rs): rules, overlays, admission, migration;
      [Loosening] (step_up_loosening.rs): which edits loosen; [Governance]
      (testkit store, org_environments.rs): the store and the PUT routes;
    - [Schema], [RunCreate] (schema.rs, run_create.rs, gate_resolve.rs,
      step_admit.rs): typed inputs of the three checkpoints; [Policies]
      (policy.rs, ir.rs, evaluate.rs, store.rs): compiling and evaluating
      Policies; [PolicyStore]: versions and the decision log; [Approvals]
      (approval_gate.rs), [EnvironmentRules] (environment_rules.rs): the gate
      an Environment adds, its release, the re-check at launch; [StepAdmit]
      (secret_executor.rs): admission of a launch that carries authority.

    Identity and step-up (scarab-identity, scarab-webauthn, scarab-server).
    - [Identity] (lib.rs, testkit): roles, bindings, tokens, sessions, pinned
      logins; [Auth] (server lib.rs): from a request to a caller to a verdict;
    - [StepUp] (step_up.rs, testkit): passkeys, challenges, confirmations,
      requests, the event log; [Refusals] (step_up/mod.rs): the limiter;
      [Ops], [OpTable] (ops.rs, routes.rs): governed operations and what a
      confirmation shows; [Guard] (guard.rs): how the guard reads a request;
      [Webauthn] (scarab-webauthn): the two ceremonies;
    - [Calls]: programs over the four step-up stores, their traces and the
      logic for them; [Confirm] (step_up/mod.rs, requests.rs): the decision
      and the request a machine raises; [GuardRun] (guard.rs): the middleware;
      [Ceremony] (ceremony.rs): enrolling, removing and using a passkey;
      [Requests] (requests.rs): confirming a raised request and its replay;
      [Admin] (admin.rs): resets; [Events] (events.rs): reading the log;
      [Standing]: all of these interleaved.

    The engine (scarab-engine, and the in-memory [Db] of scarab-testkit).
    - [Domain] (lib.rs): statuses and their state machines; [Meta], [Store],
      [Retention]: the store, one Rust method one operation; [Outbox],
      [Commits], [Races]: what its compare-and-sets promise;
    - [Gates], [Verdicts] (scheduler.rs, pure part): gate waits and decisions;
      [Plan]: what a rerun executes;
    - [Program], [Logic]: programs over the store among other servers, and
      what survives the others' calls; [Backend]: the executor class;
    - [Transitions], [Cancel], [Rerun], [Scheduler], [Settle], [LaunchSpec],
      [Launch], [Launches], [Drain], [Teardowns], [Tick]: the scheduler's
      methods as programs, composed as the code composes them.

    From a trigger to a Run (scarab-forge, scarab-policy, scarab-server).
    - [ForgeEvent] (scarab-forge lib.rs): what is read off a trigger event;
      [Libraries] (testkit and server libraries.rs): the library store and the
      yank check; [ForgeToken] (forge_token.rs): which Steps may hold a forge
      credential, and the executor that mints and revokes them;
    - [Admission] (server lib.rs): one event and one Pipeline checked against
      the Environment, the libraries, the forge and the Policies, in the
      code's order; [Creation] (server lib.rs): the writes that make an
      admitted Run, as a program over the store of [Store].

    ** Interleaving and crashes

    A [Program] makes one store call at a time. Its world is the store, the
    clock and a list of interferences: what every other server did before the
    next call, any sequence of store operations. It may be dropped at any
    call: a crash, a cancelled request or a lost claim. A theorem about every
    world is a theorem about every interleaving. Governance handlers use the
    same idea with their own store (other requests between two calls). A
    step-up handler is a tree of calls ([Calls.Prog]); its traces let the
    stores become anything between two calls and let every store call fail
    ([Calls.runs], [Calls.wp]), and [Standing.interleave] runs any number of
    handlers on one shared state.

    ** What the theorems show

    - Governance: a PUT without a fresh confirmation never loosens, whatever
      runs between its reads and its write, for grants that list no digest
      twice (a finding shows why); an overlay only tightens; Policies
      compose by narrowing and a rule that cannot be evaluated denies; a Step
      that uses an Environment's authority is launched only behind the
      approvals the Environment requires now; the decision input is the
      Pipeline's own, typed as declared.
    - Identity and step-up: a caller acts within the roles its session was
      opened with or bindings grant it now, and its token's scope, a replay
      within what its requester still holds; a confirmed action, a challenge
      and a request are put once while kept and spent once; a suspected
      passkey's use is refused; a verified assertion is signed by the stored
      key over this challenge, origin and relying party, and what
      registration accepts can be verified later; the limiter loses no
      refusal; an action digest is of one request; what a confirmation shows
      hides secrets and shows every character. With step-up enforced no crown
      jewel's handler runs unconfirmed; a machine's request runs once, for the
      human it was raised for, and as the credential sent it; once the
      requests that race have finished, no window or action confirmation is
      left of a passkey that is gone or flagged; pages of the log are the log.
    - Engine: the store's histories grow only by legal transitions; a
      replica that lost its lease writes nothing; an effect is enqueued once
      and delivered to one drain at a time; a cancel and a rerun enqueue, in
      the commits that stop them, messages naming exactly the attempts they
      stop; a unit that was launched is supervised or has its teardown; a Run's
      transition posts the state and the life it came to; teardown intents are
      retired only when the unit is gone; a rerun executes its plan, whose
      consumed Workspaces exist; a launch runs an admitted image and no text
      from outside in a command. What a message is and where it went is stated
      with [Commits.posts] and [Store.enqueue_all]: which rows the outbox is
      left with, given those it had.
    - Runs: an admitted Run's Environment exists, admits the Project, its ref
      and its gates, and its Policies allowed it; a creation that succeeds
      stores exactly what was admitted and one that fails is never scheduled; a
      Step's stored spec holds no privilege its Environment did not grant; a
      forge token is admitted only where the forge and the Environment bear
      it; a long-lived one goes only to a library trusted at the launch, and
      the revocation of a minted one is asked when its unit ends.

    ** Fuel and bounds

    A loop that is not structural takes fuel, and a lemma or a theorem shows it
    enough. [cancel_step] tries 8 times and a re-arm as often as the source
    does (these are the source's own bounds); Kahn's rounds, the gate bits and
    the rerun's widening take one turn a node; a cron field of steps sets at
    most 64 bits and the fire search takes at most 2^22 turns
    (a theorem of [Cron]); a template is scanned with its own length; the
    glob loops take 2^(|pattern| + |text|) turns; the walks over needs take
    two turns an edge and one more; a free suffix is among one more candidate
    than there are steps, a free principal id among one more than there are
    principals; a chain of merges is followed 16 times (the source's bound);
    a skipped CBOR item is 9 levels deep (the source's 8 and the item itself).

    ** Parameters

    Code outside src/ is an argument: the executor ([Backend.Executor]), the
    CEL crate ([Cel.Cel], with [CelLaws] where a proof needs that a value
    depends on what the expression reads), the handlers and the router the
    guard and the replay call ([Calls.RunHandler], [Calls.RunRouter], which may
    do anything), the KEK's sealer, HMAC, standard base64 and serde's readers
    ([Confirm], [Ceremony], [GuardRun]), the http crate's request builder
    ([Requests]), [f64] text ([Params.Floats]),
    character tables, the calendar (with the laws of the Gregorian calendar),
    RFC 3339 (its round trip), SHA-256, lower-casing, URL parsing, minicbor
    (with the laws of a decoder that consumes what it reads), ring's verifier,
    the clientDataJSON parser and base64, the [uuid] crate
    ([Admission.UuidPort]), serde's writers ([Creation.SpecCodec]). Each class with laws has a concrete
    instance in its file, which the witnesses use. Inside the repository, what
    a component only calls through a port is an argument too: the ports of
    [Auth] and of [Policies], the snapshot oracle of [Plan], the answers of one
    admission ([Admission.AdmissionReads]) and of one launch
    ([ForgeToken.LaunchAnswers]).

    ** Findings

    Behaviours the model showed that the code or its comments do not mean:
    [Settle.refused_teardown_orphans_service] (a service whose teardown the
    executor refuses keeps its instance), [Races.rerun_lost_to_settlement] (a
    rerun served between the two steps of a settlement is lost),
    [Verdicts.live_rerun_bills_nothing] (a rerun of a Run still running
    stops its budget's clock), [Standing.failed_revoke_leaves_window] (a
    passkey flagged as a clone keeps the window it signed when the revoke
    fails), [Governance.duplicate_digest_hole] (a grant that
    lists a digest twice hides a loosening), and comments that say more than
    the code does in [Cron] (leap days around 2100),
    [Governance.star_meets_star], [StepUp.same_count_recorded_twice] and
    [Transitions.second_suspension_posts_nothing] (a Run that comes back to a
    status in one life posts it once). [Store.create_step_run_resets]: the
    in-memory store, unlike the Postgres one, lets a step be created over an
    existing row; [Store.db_step] has no such call, and no caller makes one.

    ** Not modelled, and why

    YAML parsing and expansion of Pipelines (serde; planned), the type checker
    of expressions (over the CEL crate's syntax tree), the operator's grant of
    a role, the HTTP routes beyond those above (response shapes over modelled operations), the Postgres
    adapters (SQL; the store they implement is modelled from the in-memory one
    the same contract tests run on), executors, object storage, the forges'
    HTTP clients, the workspace daemon, plugin runtimes and the command line (I/O), log and
    metric loops, and the user interface. *)

From Stdlib Require Export Ascii.
From stdpp Require Export base gmap strings list sorting pretty.
From Stdlib Require Export ZArith NArith Lia.

(** ** Fallible and stateful code *)

(** A Rust [Result<A, E>]. *)
Inductive Result (E A : Type) : Type :=
| Ok (a : A)
| Err (e : E).
Arguments Ok {E A} a.
Arguments Err {E A} e.

#[export] Instance result_ret {E} : MRet (Result E) := fun A a => Ok a.
#[export] Instance result_bind {E} : MBind (Result E) :=
  fun A B f r => match r with Ok a => f a | Err e => Err e end.
#[export] Instance result_fmap {E} : FMap (Result E) :=
  fun A B f r => match r with Ok a => Ok (f a) | Err e => Err e end.

Definition is_ok {E A} (r : Result E A) : bool :=
  match r with Ok _ => true | Err _ => false end.

Definition map_err {E F A} (f : E -> F) (r : Result E A) : Result F A :=
  match r with Ok a => Ok a | Err e => Err (f e) end.

#[export] Instance result_eq_dec {E A} `{EqDecision E, EqDecision A} : EqDecision (Result E A).
Proof. solve_decision. Defined.

(** Rust's [serde_json::Value]. A number that is not an integer is kept as
    its text: no modelled code computes with one. *)
#[warnings="-register-all"]
Inductive Json : Type :=
| JNull
| JBool (b : bool)
| JInt (z : Z)
| JFloat (text : string)
| JStr (s : string)
| JArr (l : list Json)
| JObj (m : list (string * Json)).

(** [Value::get] on an object, [None] on anything else. *)
Definition json_get (v : Json) (k : string) : option Json :=
  match v with
  | JObj m => snd <$> List.find (fun p => String.eqb p.1 k) m
  | _ => None
  end.
Definition json_as_str (v : Json) : option string :=
  match v with JStr s => Some s | _ => None end.
Definition json_as_i64 (v : Json) : option Z :=
  match v with
  | JInt z => if decide (-(2^63) <= z < 2^63)%Z then Some z else None
  | _ => None
  end.
Definition json_as_bool (v : Json) : option bool :=
  match v with JBool b => Some b | _ => None end.
Definition json_as_array (v : Json) : option (list Json) :=
  match v with JArr l => Some l | _ => None end.

(** ** Machine integers *)

Definition i64_min : Z := (-(2^63))%Z.
Definition i64_max : Z := (2^63 - 1)%Z.
Definition u64_max : N := (2^64 - 1)%N.
Definition in_i64 (z : Z) : Prop := (i64_min <= z <= i64_max)%Z.

(** [i64::saturating_add] and [saturating_mul]. *)
Definition clamp_i64 (z : Z) : Z := Z.max i64_min (Z.min i64_max z).
Definition sat_add (a b : Z) : Z := clamp_i64 (a + b).
Definition sat_mul (a b : Z) : Z := clamp_i64 (a * b).
(** [x as u64]-style truncation of an unsigned value to [w] bits. *)
Definition wrap_u (w : N) (n : N) : N := (n mod 2 ^ w)%N.

Lemma clamp_i64_in z : in_i64 (clamp_i64 z).
Proof. unfold in_i64, clamp_i64, i64_min, i64_max. lia. Qed.

Lemma clamp_i64_id z : in_i64 z -> clamp_i64 z = z.
Proof. unfold in_i64, clamp_i64. lia. Qed.

Lemma clamp_i64_mono a b : (a <= b)%Z -> (clamp_i64 a <= clamp_i64 b)%Z.
Proof. unfold clamp_i64. lia. Qed.

(** ** Strings: Rust's byte order, joins and unsigned decimal *)

Definition str_le (a b : string) : Prop := String.leb a b = true.
#[export] Instance str_le_dec : RelDecision str_le.
Proof. intros a b. unfold str_le. apply _. Defined.

Lemma ascii_compare_lt_trans a b c :
  Ascii.compare a b = Lt -> Ascii.compare b c = Lt -> Ascii.compare a c = Lt.
Proof. unfold Ascii.compare. rewrite !N.compare_lt_iff. lia. Qed.

Lemma ascii_compare_eq a b : Ascii.compare a b = Eq <-> a = b.
Proof.
  split; [apply Ascii.compare_eq_iff|].
  intros ->. unfold Ascii.compare. apply N.compare_refl.
Qed.

Lemma string_compare_lt_trans a b c :
  String.compare a b = Lt -> String.compare b c = Lt -> String.compare a c = Lt.
Proof.
  revert b c; induction a as [|x a IH]; intros [|y b] [|z c]; simpl; try congruence.
  destruct (Ascii.compare x y) eqn:Hxy; try congruence;
  destruct (Ascii.compare y z) eqn:Hyz; try congruence; intros H1 H2.
  - apply ascii_compare_eq in Hxy as ->. rewrite Hyz. eauto.
  - apply ascii_compare_eq in Hxy as ->. by rewrite Hyz.
  - apply ascii_compare_eq in Hyz as <-. by rewrite Hxy.
  - by rewrite (ascii_compare_lt_trans _ _ _ Hxy Hyz).
Qed.

#[export] Instance str_le_trans : Transitive str_le.
Proof.
  intros a b c. unfold str_le, String.leb.
  destruct (String.compare a b) eqn:Hab; try congruence;
  destruct (String.compare b c) eqn:Hbc; try congruence; intros _ _.
  - apply String.compare_eq_iff in Hab as ->. by rewrite Hbc.
  - apply String.compare_eq_iff in Hab as ->. by rewrite Hbc.
  - apply String.compare_eq_iff in Hbc as <-. by rewrite Hab.
  - by rewrite (string_compare_lt_trans _ _ _ Hab Hbc).
Qed.

#[export] Instance str_le_total : Total str_le.
Proof.
  intros a b. unfold str_le. destruct (String.leb_total a b); auto.
Qed.

#[export] Instance str_le_antisymm : AntiSymm (=) str_le.
Proof. intros a b Ha Hb. by apply String.leb_antisym. Qed.

(** [slice.join(sep)]. *)
Fixpoint join (sep : string) (l : list string) : string :=
  match l with
  | [] => ""
  | [x] => x
  | x :: l' => x +:+ sep +:+ join sep l'
  end.

(** [Vec::dedup]: adjacent repeats removed. *)
Fixpoint dedup_adjacent (l : list string) : list string :=
  match l with
  | x :: ((y :: _) as l') => if String.eqb x y then dedup_adjacent l' else x :: dedup_adjacent l'
  | l => l
  end.

Lemma elem_of_dedup_adjacent x l : x ∈ dedup_adjacent l <-> x ∈ l.
Proof.
  induction l as [|y [|z l] IH]; [done..|].
  change (dedup_adjacent (y :: z :: l)) with (if String.eqb y z then dedup_adjacent (z :: l) else y :: dedup_adjacent (z :: l)).
  destruct (String.eqb_spec y z) as [->|].
  - rewrite IH. rewrite !elem_of_cons. tauto.
  - rewrite elem_of_cons, IH, (elem_of_cons (z :: l) x y). done.
Qed.
Lemma dedup_adjacent_nil l : dedup_adjacent l = [] -> l = [].
Proof.
  induction l as [|x [|y l] IH]; [done..|].
  change (dedup_adjacent (x :: y :: l)) with (if String.eqb x y then dedup_adjacent (y :: l) else x :: dedup_adjacent (y :: l)).
  destruct (String.eqb x y); [|done]. intros H. by apply IH in H.
Qed.

(** Decimal digits of an ASCII string as a number, most significant first. *)
Definition digit_of (c : Ascii.ascii) : option N :=
  let n := Ascii.N_of_ascii c in
  if decide (48 <= n <= 57)%N then Some (n - 48)%N else None.

Fixpoint parse_digits (acc : N) (s : string) : option N :=
  match s with
  | EmptyString => Some acc
  | String c s' => d ← digit_of c; parse_digits (acc * 10 + d)%N s'
  end.

(** [str::parse::<u64>()]: an optional [+], at least one digit, no overflow. *)
Definition parse_u64 (s : string) : option N :=
  let body := match s with String "+"%char r => r | _ => s end in
  match body with
  | EmptyString => None
  | _ => n ← parse_digits 0 body; if decide (n <= u64_max)%N then Some n else None
  end.

(** [str::strip_prefix] of one character, [str::starts_with]. *)
Definition strip_char (c : Ascii.ascii) (s : string) : option string :=
  match s with String d r => if Ascii.eqb c d then Some r else None | _ => None end.
Definition starts_with (p s : string) : bool := String.prefix p s.

(** ** Tactics of the development *)

(** Case on the scrutinee of some [match] of the goal or of [H]. *)
Ltac case_goal :=
  match goal with
  | |- context [match ?x with _ => _ end] => destruct x eqn:?
  end.
Ltac case_in H :=
  match type of H with
  | context [match ?x with _ => _ end] => destruct x eqn:?
  end.

(** Open existentials and conjunctions, substitute and discharge the
    contradictory branches. *)
Ltac crush :=
  repeat match goal with
  | H : ex _ |- _ => destruct H
  | H : _ /\ _ |- _ => destruct H
  | H : Ok _ = Ok _ |- _ => injection H as H
  | H : Err _ = Err _ |- _ => injection H as H
  | H : Ok _ = Err _ |- _ => discriminate H
  | H : Err _ = Ok _ |- _ => discriminate H
  end; simplify_eq/=; try done.

(** ** Lists *)

Lemma existsb_bool_decide {A} (P : A -> Prop) `{!forall x, Decision (P x)} (l : list A) :
  existsb (fun x => bool_decide (P x)) l = true <-> exists x, x ∈ l /\ P x.
Proof.
  rewrite existsb_exists. split; intros (x & Hx & Hp).
  - exists x. split; [by apply list_elem_of_In|]. by apply bool_decide_eq_true in Hp.
  - exists x. split; [by apply list_elem_of_In|]. by apply bool_decide_eq_true.
Qed.

Lemma omap_length_total {A B} (f : A -> option B) (l : list A) :
  (forall x, x ∈ l -> is_Some (f x)) -> length (omap f l) = length l.
Proof.
  induction l as [|x l IH]; intros H; [done|]. cbn.
  destruct (H x) as [y ->]; [left|]. cbn. f_equal. apply IH. intros z Hz. apply H. by right.
Qed.

(** ** Strings without a separator split uniquely *)

Fixpoint has_char (c : ascii) (s : string) : bool :=
  match s with
  | EmptyString => false
  | String d s' => Ascii.eqb c d || has_char c s'
  end.

Lemma string_app_cons d a b : String d a +:+ b = String d (a +:+ b).
Proof. done. Qed.
Lemma string_app_nil_l (a : string) : "" +:+ a = a.
Proof. done. Qed.
Lemma string_app_assoc (a b c : string) : (a +:+ b) +:+ c = a +:+ (b +:+ c).
Proof. induction a as [|d a IH]; [done|]. by rewrite !string_app_cons, IH. Qed.
Lemma string_app_nil_r (a : string) : a +:+ "" = a.
Proof. induction a as [|d a IH]; [done|]. by rewrite string_app_cons, IH. Qed.

Lemma has_char_app c a b : has_char c (a +:+ b) = has_char c a || has_char c b.
Proof.
  induction a as [|d a IH]; [done|]. rewrite string_app_cons. cbn. by rewrite IH, orb_assoc.
Qed.

(** A prefix that does not contain [c] is determined by what precedes the
    first [c]. *)
Lemma split_at_char c a a' r r' :
  has_char c a = false -> has_char c a' = false ->
  a +:+ String c r = a' +:+ String c r' -> a = a' /\ r = r'.
Proof.
  revert a'; induction a as [|d a IH]; intros [|d' a'];
    rewrite ?string_app_cons, ?string_app_nil_l; cbn; intros H H' E.
  - by injection E.
  - injection E as <- _. by rewrite Ascii.eqb_refl in H'.
  - injection E as -> _. by rewrite Ascii.eqb_refl in H.
  - apply orb_false_iff in H as [_ H]. apply orb_false_iff in H' as [_ H'].
    injection E as -> E. by destruct (IH _ H H' E) as [-> ->].
Qed.

Lemma no_char_split c a a' r' :
  has_char c a = false -> a <> a' +:+ String c r'.
Proof.
  intros H ->. rewrite has_char_app in H. apply orb_false_iff in H as [_ H].
  cbn in H. by rewrite Ascii.eqb_refl in H.
Qed.

(** ** Unsigned decimals round-trip through [{n}] and [parse::<u64>] *)

Lemma digit_of_pretty d : (d < 10)%N -> digit_of (pretty_N_char d) = Some d.
Proof.
  intros H.
  assert (d = 0 \/ d = 1 \/ d = 2 \/ d = 3 \/ d = 4 \/ d = 5 \/ d = 6 \/ d = 7 \/ d = 8 \/ d = 9)%N
    as Hd by lia.
  by repeat (destruct Hd as [->|Hd]; [done|]); subst.
Qed.

Lemma parse_digits_pretty_go x s acc :
  exists k, parse_digits acc (pretty_N_go x s) = parse_digits (acc * k + x)%N s.
Proof.
  revert s acc. induction (N.lt_wf_0 x) as [x _ IH]; intros s acc.
  destruct (decide (0 < x)%N) as [Hx|Hx].
  - rewrite pretty_N_go_step by done.
    destruct (IH (x `div` 10)%N) with (s := String (pretty_N_char (x `mod` 10)) s) (acc := acc)
      as [k ->]. { apply N.div_lt; lia. }
    exists (k * 10)%N. cbn [parse_digits].
    rewrite digit_of_pretty by (apply N.mod_lt; lia). cbn. f_equal.
    pose proof (N.div_mod x 10). lia.
  - assert (x = 0%N) as -> by lia. rewrite pretty_N_go_0. exists 1%N. f_equal. lia.
Qed.

Lemma parse_digits_pretty (n : N) : parse_digits 0 (pretty n) = Some n.
Proof.
  unfold pretty, pretty_N. case_decide as H; [by subst|].
  destruct (parse_digits_pretty_go n "" 0) as [k ->]. cbn. f_equal.
Qed.

Lemma pretty_go_head (x : N) s :
  (exists d r, (d < 10)%N /\ pretty_N_go x s = String (pretty_N_char d) r) \/ pretty_N_go x s = s.
Proof.
  revert s. induction (N.lt_wf_0 x) as [x _ IH]; intros s.
  destruct (decide (0 < x)%N) as [Hx|Hx].
  - rewrite pretty_N_go_step by done. left.
    destruct (IH (x `div` 10)%N) with (s := String (pretty_N_char (x `mod` 10)) s)
      as [(d & r & Hd & ->)| ->]; [apply N.div_lt; lia|eauto|].
    exists (x `mod` 10)%N, s. split; [apply N.mod_lt; lia|done].
  - right. assert (x = 0%N) as -> by lia. apply pretty_N_go_0.
Qed.

Lemma pretty_head (n : N) : exists d r, (d < 10)%N /\ pretty n = String (pretty_N_char d) r.
Proof.
  unfold pretty, pretty_N. case_decide as H; [by exists 0%N, ""|].
  destruct (pretty_go_head n "") as [?|E]; [done|].
  exfalso. rewrite pretty_N_go_step in E by lia.
  destruct (pretty_go_head (n `div` 10)%N (String (pretty_N_char (n `mod` 10)) ""))
    as [(d & r & _ & E')|E']; rewrite E' in E; done.
Qed.

Lemma pretty_N_char_not_plus d : (d < 10)%N -> pretty_N_char d <> "+"%char.
Proof.
  intros H E. apply digit_of_pretty in H. rewrite E in H. done.
Qed.

Lemma parse_u64_pretty (n : N) : (n <= u64_max)%N -> parse_u64 (pretty n) = Some n.
Proof.
  intros Hn. pose proof (parse_digits_pretty n) as HP.
  destruct (pretty_head n) as (d & r & Hd & E). rewrite E in *. unfold parse_u64.
  pose proof (pretty_N_char_not_plus d Hd) as Hp.
  assert (match String (pretty_N_char d) r with String "+"%char r0 => r0
          | _ => String (pretty_N_char d) r end = String (pretty_N_char d) r) as ->.
  { revert Hp. clear. destruct (pretty_N_char d) as [[] [] [] [] [] [] [] []]; done. }
  rewrite HP. cbn. by rewrite decide_True.
Qed.

Lemma parse_digits_no_colon s acc n : parse_digits acc s = Some n -> has_char ":" s = false.
Proof.
  revert acc; induction s as [|c s IH]; intros acc; [done|]. cbn [parse_digits].
  change (has_char ":" (String c s)) with (Ascii.eqb ":"%char c || has_char ":" s).
  destruct (digit_of c) as [d|] eqn:E; cbn [mbind option_bind]; [|done].
  intros H. rewrite (IH _ H), orb_false_r.
  destruct (Ascii.eqb_spec ":"%char c) as [<-|]; [|done]. vm_compute in E. done.
Qed.

Lemma string_app_inj_len (a a' r r' : string) :
  String.length a = String.length a' -> a +:+ r = a' +:+ r' -> a = a' /\ r = r'.
Proof.
  revert a'; induction a as [|c a IH]; intros [|c' a']; rewrite ?string_app_cons, ?string_app_nil_l;
    cbn; intros L E; try discriminate; [done|].
  injection E as -> E. injection L as L. by destruct (IH _ L E) as [-> ->].
Qed.
