(* ===== verification/Graph.v ===== *)
(** * Removing the nodes of a dependency graph in order (Kahn's algorithm)

    What the pipeline crate's cycle search and the policy crate's search for
    upstream gates share: a node becomes ready when the last of its needs is
    removed. Nodes are of any type with decidable equality, and the number of
    needs each still waits for is kept in any map from nodes to numbers. *)

From S2P Require Import Prelude.

(** ** Counting *)

Section Occurs.
Context {K : Type} `{EqDecision K}.

Definition occurs (x : K) (l : list K) : nat := length (filter (fun y => y = x) l).
Lemma occurs_app x l k : occurs x (l ++ k) = occurs x l + occurs x k.
Proof. unfold occurs. by rewrite filter_app, length_app. Qed.
Lemma occurs_pos x l : 0 < occurs x l <-> x ∈ l.
Proof.
  unfold occurs. split.
  - intros H. destruct (filter _ l) as [|y l'] eqn:E; [cbn in H; lia|].
    assert (y ∈ filter (fun y => y = x) l) as Hy by (rewrite E; left). by apply list_elem_of_filter in Hy as [-> Hy].
  - intros H. assert (x ∈ filter (fun y => y = x) l) as Hx by (by apply list_elem_of_filter).
    destruct (filter _ l); [by apply not_elem_of_nil in Hx|cbn; lia].
Qed.
Lemma occurs_cons x y l : occurs x (y :: l) = (if decide (y = x) then 1 else 0) + occurs x l.
Proof. unfold occurs. destruct (decide (y = x)); [by rewrite filter_cons_True|by rewrite filter_cons_False]. Qed.

(** Over distinct nodes, the counts sum to at most the length. *)
Lemma occurs_sum (keys l : list K) : NoDup keys -> foldr (fun x n => occurs x l + n) 0 keys <= length l.
Proof.
  revert l; induction keys as [|k keys IH]; intros l Hn; cbn [foldr]; [lia|].
  apply NoDup_cons in Hn as [Hk Hn]. specialize (IH (filter (fun y => y <> k) l) Hn).
  assert (foldr (fun x n => occurs x (filter (fun y => y <> k) l) + n) 0 keys = foldr (fun x n => occurs x l + n) 0 keys) as E.
  { clear IH Hn. induction keys as [|x keys IH]; [done|]. cbn [foldr]. rewrite not_elem_of_cons in Hk. destruct Hk as [Hxk Hk].
    rewrite (IH Hk). f_equal. unfold occurs. rewrite list_filter_filter. f_equal. apply list_filter_iff. naive_solver. }
  rewrite E in IH. clear E. assert (length l = occurs k l + length (filter (fun y => y <> k) l)) as ->; [|lia].
  clear. unfold occurs. induction l as [|y l IH]; [done|]. destruct (decide (y = k)) as [->|Hne].
  - rewrite (filter_cons_True _ k), (filter_cons_False _ k) by naive_solver. cbn. lia.
  - rewrite (filter_cons_False _ y), (filter_cons_True _ y) by done. cbn. lia.
Qed.
End Occurs.

(** ** Relaxing the nodes that need the one removed *)

(** [*d -= 1; if *d == 0 { queue.push(dep) }]: the end the queue is popped at
    is the head of the list. *)
Definition relax {K M} `{Lookup K nat M, Insert K nat M} (acc : M * list K) (dep : K) : M * list K :=
  match acc.1 !! dep with
  | Some (S d) => (<[dep := d]> acc.1, if d =? 0 then dep :: acc.2 else acc.2)
  | _ => acc
  end.

Section Topological.
Context {K : Type} {dec : EqDecision K} {M : Type} {look : Lookup K nat M} {ins : Insert K nat M}.
Hypothesis insert_look : forall (m : M) x d e y, m !! x = Some d -> <[x := e]> m !! y = if decide (x = y) then Some e else m !! y.

Lemma relax_spec D (m : M) q :
  (forall x, x ∈ D -> exists d, m !! x = Some d /\ occurs x D <= d) ->
  exists pushed, (foldl relax (m, q) D).2 = pushed ++ q /\ NoDup pushed /\
    (forall x, (foldl relax (m, q) D).1 !! x = (fun d => d - occurs x D) <$> m !! x) /\
    (forall x, x ∈ pushed <-> x ∈ D /\ m !! x = Some (occurs x D)).
Proof.
  revert m q; induction D as [|y D IH]; intros m q H.
  { exists []. split_and!; [done|constructor| |].
    - intros x. cbn. destruct (m !! x); [|done]. cbn. f_equal. unfold occurs. cbn. lia.
    - intros x. split; [intros Hx; by apply not_elem_of_nil in Hx|intros [Hx _]; by apply not_elem_of_nil in Hx]. }
  destruct (H y) as (d & Hd & Hle); [left|]. rewrite occurs_cons, decide_True in Hle by done.
  destruct d as [|d]; [lia|]. cbn [foldl].
  assert (relax (m, q) y = (<[y := d]> m, if d =? 0 then y :: q else q)) as -> by (unfold relax; cbn [fst snd]; by rewrite Hd).
  set (q' := if d =? 0 then y :: q else q).
  destruct (IH (<[y := d]> m) q') as (pushed & E1 & E2 & E3 & E4).
  { intros x Hx. rewrite (insert_look _ _ _ _ _ Hd). case_decide as Hxy.
    - subst x. exists d. split; [done|lia].
    - destruct (H x) as (e & He & Hl); [by right|]. exists e. split; [done|].
      rewrite occurs_cons, decide_False in Hl by done. lia. }
  assert (forall x, (foldl relax (<[y:=d]> m, q') D).1 !! x = (fun e => e - occurs x (y :: D)) <$> m !! x) as E3'.
  { intros x. rewrite E3, occurs_cons, (insert_look _ _ _ _ _ Hd). destruct (decide (y = x)) as [<-|Hne]; [|done].
    by rewrite Hd. }
  assert (forall x, x <> y -> x ∈ pushed <-> x ∈ y :: D /\ m !! x = Some (occurs x (y :: D))) as Hother.
  { intros x Hne. rewrite E4, (insert_look _ _ _ _ _ Hd), elem_of_cons, occurs_cons, !decide_False by done.
    change (0 + occurs x D) with (occurs x D). naive_solver. }
  unfold q' in *. destruct (Nat.eqb_spec d 0) as [->|Hd0].
  - assert (y ∉ D) as HyD. { intros Hy%occurs_pos. lia. }
    assert (y ∉ pushed) as Hyp. { rewrite E4. intros [? _]. done. }
    exists (pushed ++ [y]). rewrite E1, <- app_assoc. split_and!; [done| |done|].
    + apply NoDup_app. split_and!; [done| |apply NoDup_singleton]. intros x Hx ->%list_elem_of_singleton. done.
    + intros x. rewrite elem_of_app, list_elem_of_singleton. destruct (decide (x = y)) as [->|Hne].
      * split; [|by right]. intros _. split; [left|]. rewrite Hd, occurs_cons, decide_True by done. f_equal. lia.
      * rewrite <- (Hother x Hne). naive_solver.
  - exists pushed. split_and!; [done|done|done|]. intros x. destruct (decide (x = y)) as [->|Hne]; [|by apply Hother].
    rewrite E4, (insert_look _ _ _ _ _ Hd), Hd, occurs_cons, !decide_True, elem_of_cons by done. split.
    + intros [Hy [= ->]]. split; [by left|]. done.
    + intros [_ [= E]]. split; [|f_equal; lia]. apply occurs_pos. lia.
Qed.

(** ** The invariant *)

Context (keys : list K) (needs dependents : K -> list K).
Hypothesis Hkeys : forall x, x ∉ keys -> needs x = [].
Hypothesis Hdependents : forall node x, occurs x (dependents node) = occurs node (needs x).

(** The latest first: everything a node needs comes before it. *)
Fixpoint topological (order : list K) : Prop :=
  match order with
  | [] => True
  | x :: rest => (forall n, n ∈ needs x -> n ∈ rest) /\ topological rest
  end.
Lemma topological_closed l a b : topological l -> b ∈ l -> a ∈ needs b -> a ∈ l.
Proof.
  clear. induction l as [|w l IH]; intros Ho Hb Ha; [by apply not_elem_of_nil in Hb|]. destruct Ho as [Hw Ho].
  apply elem_of_cons in Hb as [->|Hb]; right; auto.
Qed.

(** The needs of [x] not yet removed. *)
Definition waiting (x : K) (removed : list K) : nat := length (filter (fun n => n ∉ removed) (needs x)).
Lemma waiting_nil x : waiting x [] = length (needs x).
Proof.
  unfold waiting. f_equal. clear. induction (needs x) as [|y l IH]; [done|].
  rewrite filter_cons_True by apply not_elem_of_nil. by rewrite IH.
Qed.
Lemma waiting_zero x removed : waiting x removed = 0 <-> forall n, n ∈ needs x -> n ∈ removed.
Proof.
  unfold waiting. split.
  - intros H n Hn. destruct (decide (n ∈ removed)) as [|Hr]; [done|].
    assert (n ∈ filter (fun n => n ∉ removed) (needs x)) as Hf by (by apply list_elem_of_filter).
    destruct (filter _ _); [by apply not_elem_of_nil in Hf|done].
  - intros H. destruct (filter _ _) as [|n l] eqn:E; [done|].
    assert (n ∈ filter (fun n => n ∉ removed) (needs x)) as Hf by (rewrite E; left).
    apply list_elem_of_filter in Hf as [Hr Hn]. by destruct (Hr (H n Hn)).
Qed.
Lemma waiting_cons x node removed :
  node ∉ removed -> waiting x removed = waiting x (node :: removed) + occurs node (needs x).
Proof.
  intros Hn. unfold waiting. induction (needs x) as [|y l IH]; [done|]. rewrite occurs_cons.
  destruct (decide (y = node)) as [->|Hne].
  - rewrite (filter_cons_True _ node) by done. rewrite (filter_cons_False _ node); [cbn; lia|].
    rewrite elem_of_cons. naive_solver.
  - destruct (decide (y ∈ removed)).
    + rewrite !filter_cons_False; [lia|rewrite elem_of_cons; naive_solver|naive_solver].
    + rewrite !filter_cons_True; [cbn; lia|rewrite elem_of_cons; naive_solver|naive_solver].
Qed.

(** What the loop keeps; [removed] lists the nodes popped, latest first. *)
Record removal_inv (queue : list K) (m : M) (removed : list K) : Prop := {
  ri_nodup : NoDup (queue ++ removed);
  ri_keys : forall x, x ∈ queue ++ removed -> x ∈ keys;
  ri_degree : forall x, m !! x = if decide (x ∈ keys) then Some (waiting x removed) else None;
  ri_zero : forall x, x ∈ keys -> waiting x removed = 0 -> x ∈ queue ++ removed;
  ri_ready : forall x, x ∈ queue -> waiting x removed = 0;
  ri_order : topological removed;
}.

Lemma removal_start queue m :
  NoDup queue -> (forall x, x ∈ queue <-> x ∈ keys /\ length (needs x) = 0) ->
  (forall x, m !! x = if decide (x ∈ keys) then Some (length (needs x)) else None) -> removal_inv queue m [].
Proof.
  intros Hn Hq Hm. split; rewrite ?app_nil_r; try done.
  - intros x Hx. by apply Hq.
  - intros x. by rewrite waiting_nil.
  - intros x Hx H0. apply Hq. by rewrite waiting_nil in H0.
  - intros x Hx. rewrite waiting_nil. by apply Hq.
Qed.

Lemma removal_turn node queue m removed m' q' :
  removal_inv (node :: queue) m removed ->
  foldl relax (m, queue) (dependents node) = (m', q') ->
  removal_inv q' m' (node :: removed).
Proof.
  intros [K2 K3 K4 K5 K6 K7] Hrelax. cbn [app] in K2, K3, K5.
  assert ((node ∉ queue) /\ (node ∉ removed)) as [Hnq Hnr].
  { apply NoDup_cons in K2 as [H _]. rewrite elem_of_app in H. tauto. }
  assert (forall x, 0 < occurs x (dependents node) -> x ∈ keys) as Hdep.
  { intros x Hx. rewrite Hdependents in Hx. apply dec_stable. intros Hk. rewrite (Hkeys x Hk) in Hx. cbn in Hx. lia. }
  destruct (relax_spec (dependents node) m queue) as (pushed & E1 & E2 & E3 & E4).
  { intros x Hx. pose proof (proj2 (occurs_pos x _) Hx) as Hp. exists (waiting x removed).
    rewrite K4, decide_True by (by apply Hdep). split; [done|]. rewrite Hdependents, (waiting_cons x node) by done. lia. }
  rewrite Hrelax in E1, E3. cbn [fst snd] in *. subst q'.
  assert (forall x, x ∈ keys -> waiting x (node :: removed) = 0 -> waiting x removed <> 0 -> x ∈ pushed) as Hnew.
  { intros x Hx H0 Hne. apply E4. rewrite (waiting_cons x node) in Hne by done.
    split; [apply occurs_pos; rewrite Hdependents; lia|]. rewrite K4, decide_True by done. f_equal.
    rewrite Hdependents, (waiting_cons x node) by done. lia. }
  assert (forall x, x ∈ pushed -> x ∈ keys /\ waiting x (node :: removed) = 0 /\ waiting x removed <> 0) as Hold.
  { intros x [Hx Hm]%E4. pose proof (proj2 (occurs_pos x _) Hx) as Hp. pose proof (Hdep x Hp) as Hid.
    rewrite K4, decide_True in Hm by done. injection Hm as Hm. rewrite Hdependents in Hm, Hp.
    rewrite (waiting_cons x node) in Hm by done. rewrite (waiting_cons x node removed) by done. split_and!; [done|lia|lia]. }
  assert (forall x, waiting x removed = 0 -> waiting x (node :: removed) = 0) as Hmono.
  { intros x. rewrite (waiting_cons x node) by done. lia. }
  split.
  - apply NoDup_cons in K2 as [_ K2]. rewrite <- app_assoc. apply NoDup_app. split_and!; [done| |].
    + intros x Hx%Hold. destruct Hx as (Hid & _ & Hw). rewrite elem_of_app, elem_of_cons.
      assert (x ∉ node :: queue) as Hq by (intros Hq; by apply Hw, K6). rewrite elem_of_cons in Hq.
      intros [?|[?|Hr]]; [tauto|tauto|]. apply Hw, waiting_zero. intros n Hn. by apply (topological_closed removed n x).
    + apply NoDup_Permutation_proper with (node :: queue ++ removed); [solve_Permutation|]. apply NoDup_cons.
      split; [rewrite elem_of_app; tauto|done].
  - intros x. rewrite !elem_of_app, elem_of_cons. intros [[Hx|Hx]|[->|Hx]].
    + by apply Hold.
    + apply K3. right. rewrite elem_of_app. by left.
    + apply K3. left.
    + apply K3. right. rewrite elem_of_app. by right.
  - intros x. rewrite E3, K4. case_decide; [|done]. cbn. f_equal. rewrite Hdependents, (waiting_cons x node) by done. lia.
  - intros x Hx H0. rewrite !elem_of_app, elem_of_cons. destruct (decide (waiting x removed = 0)) as [Hz|Hz].
    + specialize (K5 x Hx Hz). rewrite elem_of_cons, elem_of_app in K5. tauto.
    + left. left. by apply Hnew.
  - intros x [Hx|Hx]%elem_of_app; [by apply Hold|]. apply Hmono, K6. by right.
  - split; [|done]. apply waiting_zero, K6. left.
Qed.

Lemma removed_length queue m removed : removal_inv queue m removed -> length removed <= length keys.
Proof.
  intros [K2 K3 _ _ _ _]. apply submseteq_length, NoDup_submseteq.
  - by apply NoDup_app in K2 as (_ & _ & ?).
  - intros x Hx. apply K3. apply elem_of_app. by right.
Qed.

(** Once nothing is ready, whatever can be ordered was removed. *)
Lemma drained_order m removed order :
  removal_inv [] m removed -> topological order -> (forall x, x ∈ order -> x ∈ keys) ->
  forall x, x ∈ order -> x ∈ removed.
Proof.
  intros [_ _ _ K5 _ _]. cbn in K5. induction order as [|x l IH]; intros Ho Hin y Hy; [by apply not_elem_of_nil in Hy|].
  destruct Ho as [H1 H2].
  assert (forall z, z ∈ l -> z ∈ removed) as Hr by (apply IH; [done|intros z Hz; apply Hin; by right]).
  apply elem_of_cons in Hy as [->|Hy]; [|by apply Hr]. apply K5; [apply Hin; left|]. apply waiting_zero. auto.
Qed.
End Topological.
