(* ===== verification/Text.v ===== *)
(** * Rust strings

    The [str] functions the pipeline and policy crates use, on a string as its
    UTF-8 bytes. A [char] is a lead byte with the continuation bytes after it.
    Also a loop combinator for the [while] loops that are not structural. *)

From S2P Require Import Prelude.

(** ** Characters *)

Definition byte_of (c : ascii) : N := N_of_ascii c.
Definition is_continuation (c : ascii) : bool := (128 <=? byte_of c)%N && (byte_of c <? 192)%N.

(** [s.chars()]. *)
Fixpoint chars (s : string) : list string :=
  match s with
  | EmptyString => []
  | String c s' =>
      match chars s' with
      | (String d r as ch) :: l =>
          if is_continuation d then String c ch :: l else String c "" :: ch :: l
      | l => String c "" :: l
      end
  end.
Fixpoint concat_chars (l : list string) : string :=
  match l with [] => "" | x :: l' => x +:+ concat_chars l' end.

(** [char::is_whitespace]: Unicode's White_Space. *)
Definition is_whitespace (ch : string) : bool :=
  bool_decide (map byte_of (String.list_ascii_of_string ch) ∈
    ([[9]; [10]; [11]; [12]; [13]; [32]; [194; 133]; [194; 160]; [225; 154; 128];
      [226; 128; 128]; [226; 128; 129]; [226; 128; 130]; [226; 128; 131]; [226; 128; 132];
      [226; 128; 133]; [226; 128; 134]; [226; 128; 135]; [226; 128; 136]; [226; 128; 137];
      [226; 128; 138]; [226; 128; 168]; [226; 128; 169]; [226; 128; 175]; [226; 129; 159];
      [227; 128; 128]]%N)).

Fixpoint drop_while {A} (p : A -> bool) (l : list A) : list A :=
  match l with
  | [] => []
  | x :: l' => if p x then drop_while p l' else l
  end.

(** [s.trim()]. *)
Definition trim (s : string) : string :=
  concat_chars (reverse (drop_while is_whitespace (reverse (drop_while is_whitespace (chars s))))).

(** [s.split_whitespace()]: the non-empty runs between whitespace. *)
Fixpoint words (l : list string) (cur : string) : list string :=
  let flush rest := if String.eqb cur "" then rest else cur :: rest in
  match l with
  | [] => flush []
  | ch :: l' => if is_whitespace ch then flush (words l' "") else words l' (cur +:+ ch)
  end.
Definition split_whitespace (s : string) : list string := words (chars s) "".

(** ** Bytes *)

Fixpoint map_bytes (f : ascii -> ascii) (s : string) : string :=
  match s with EmptyString => "" | String c s' => String (f c) (map_bytes f s') end.
Fixpoint all_bytes (p : ascii -> bool) (s : string) : bool :=
  match s with EmptyString => true | String c s' => p c && all_bytes p s' end.

Definition in_range (lo hi : N) (c : ascii) : bool := (lo <=? byte_of c)%N && (byte_of c <=? hi)%N.
Definition is_digit : ascii -> bool := in_range 48 57.
Definition is_lower : ascii -> bool := in_range 97 122.
Definition is_upper : ascii -> bool := in_range 65 90.
Definition is_alphanumeric (c : ascii) : bool := is_digit c || is_lower c || is_upper c.
Definition is_hexdigit (c : ascii) : bool := is_digit c || in_range 97 102 c || in_range 65 70 c.
(** [is_ascii_graphic]. *)
Definition is_graphic : ascii -> bool := in_range 33 126.

Definition lower_byte (c : ascii) : ascii := if is_upper c then ascii_of_N (byte_of c + 32) else c.
Definition upper_byte (c : ascii) : ascii := if is_lower c then ascii_of_N (byte_of c - 32) else c.
Definition to_ascii_lowercase : string -> string := map_bytes lower_byte.

(** ** Searching and splitting *)

(** [s.split(c)]: at least one piece. *)
Fixpoint split (c : ascii) (s : string) : list string :=
  match s with
  | EmptyString => [""]
  | String d s' =>
      if Ascii.eqb c d then "" :: split c s'
      else match split c s' with
           | x :: l => String d x :: l
           | [] => [String d ""]
           end
  end.

(** [s.split_once(c)]. *)
Fixpoint split_once (c : ascii) (s : string) : option (string * string) :=
  match s with
  | EmptyString => None
  | String d s' =>
      if Ascii.eqb c d then Some ("", s')
      else match split_once c s' with
           | Some (a, b) => Some (String d a, b)
           | None => None
           end
  end.

(** [s.find(pat)]: the byte offset of the first occurrence. *)
Fixpoint find_str (pat s : string) : option nat :=
  if String.prefix pat s then Some 0
  else match s with
       | EmptyString => None
       | String _ s' => S <$> find_str pat s'
       end.
Definition contains (pat s : string) : bool := bool_decide (is_Some (find_str pat s)).
(** [s.rfind(c)]: the byte offset of the last occurrence. *)
Fixpoint rfind (c : ascii) (s : string) : option nat :=
  match s with
  | EmptyString => None
  | String d s' => match rfind c s' with
                   | Some i => Some (S i)
                   | None => if Ascii.eqb c d then Some 0 else None
                   end
  end.
(** [&s[i..]] and [&s[..i]]. *)
Fixpoint drop_str (n : nat) (s : string) : string :=
  match n, s with
  | S n', String _ s' => drop_str n' s'
  | _, _ => s
  end.
Fixpoint take_str (n : nat) (s : string) : string :=
  match n, s with
  | S n', String c s' => String c (take_str n' s')
  | _, _ => ""
  end.
(** [&s[a..b]]. *)
Definition slice (s : string) (a b : nat) : string := take_str (b - a) (drop_str a s).

(** [str::parse::<u32>()] and [::<i64>()]. *)
Definition unsigned_body (s : string) : string :=
  match s with String c r => if Ascii.eqb c "+" then r else s | _ => s end.
Definition parse_unsigned (bound : N) (s : string) : option N :=
  match unsigned_body s with
  | EmptyString => None
  | body => n ← parse_digits 0 body; if decide (n <= bound)%N then Some n else None
  end.
Definition u32_max : N := (2^32 - 1)%N.
Definition parse_u32 : string -> option N := parse_unsigned u32_max.
Definition parse_i64 (s : string) : option Z :=
  match s with
  | String "-"%char (String _ _ as r) =>
      n ← parse_digits 0 r; if decide (n <= 2^63)%N then Some (- Z.of_N n)%Z else None
  | _ => Z.of_N <$> parse_unsigned (Z.to_N i64_max) s
  end.

(** ** Loops

    [loop n] runs up to [2^n] steps of a body that either goes on from a new
    state or leaves with a result. *)

Fixpoint loop {S R} (n : nat) (body : S -> S + R) (s : S) : S + R :=
  match n with
  | 0 => body s
  | S n' => match loop n' body s with
            | inl s' => loop n' body s'
            | inr r => inr r
            end
  end.

(** A body that decreases a measure below [2^n] leaves the loop, and what it
    leaves with satisfies what the invariant promises. *)
Lemma loop_ind {S R} (body : S -> S + R) (I : S -> Prop) (Q : R -> Prop) (mu : S -> Z) :
  (forall s, I s -> match body s with
                    | inl s' => I s' /\ (0 <= mu s' < mu s)%Z
                    | inr r => Q r
                    end) ->
  forall n s, I s ->
    match loop n body s with
    | inl s' => I s' /\ (0 <= mu s' <= mu s - 2 ^ Z.of_nat n)%Z
    | inr r => Q r
    end.
Proof.
  intros H. induction n as [|n IH]; intros s Hs; cbn [loop].
  - specialize (H s Hs). destruct (body s); [|done]. destruct H. split; [done|]. cbn. lia.
  - pose proof (IH s Hs) as H1. destruct (loop n body s) as [s1|]; [|done]. destruct H1 as [H1 H2].
    pose proof (IH s1 H1) as H3. destruct (loop n body s1) as [s2|]; [|done]. destruct H3 as [H3 H4].
    split; [done|]. rewrite Nat2Z.inj_succ, Z.pow_succ_r by lia. lia.
Qed.

Lemma loop_leaves {S R} (body : S -> S + R) (I : S -> Prop) (Q : R -> Prop) (mu : S -> Z) n s :
  (forall s, I s -> match body s with
                    | inl s' => I s' /\ (0 <= mu s' < mu s)%Z
                    | inr r => Q r
                    end) ->
  I s -> (mu s < 2 ^ Z.of_nat n)%Z -> exists r, loop n body s = inr r /\ Q r.
Proof.
  intros H Hs Hn. pose proof (loop_ind body I Q mu H n s Hs) as HL.
  destruct (loop n body s); [lia|eauto].
Qed.

(** ** Lemmas *)

Lemma concat_chars_chars s : concat_chars (chars s) = s.
Proof.
  induction s as [|c s IH]; [done|]. cbn. destruct (chars s) as [|[|d r] l] eqn:E; cbn in *.
  - by rewrite <- IH.
  - by rewrite <- IH.
  - destruct (is_continuation d); cbn in *; by rewrite <- IH.
Qed.

Lemma take_drop_str n s : take_str n s +:+ drop_str n s = s.
Proof.
  revert s; induction n as [|n IH]; intros [|c s]; cbn; try done.
  rewrite string_app_cons. by rewrite IH.
Qed.

Lemma drop_drop_str a b s : drop_str a (drop_str b s) = drop_str (b + a) s.
Proof.
  revert s; induction b as [|b IH]; intros s; [done|]. destruct s as [|c s]; [by destruct a|apply IH].
Qed.

Lemma split_once_spec c s a b :
  split_once c s = Some (a, b) -> s = a +:+ String c b /\ has_char c a = false.
Proof.
  revert a b; induction s as [|d s IH]; intros a b; cbn; [done|].
  destruct (Ascii.eqb_spec c d) as [->|Hd]; [by intros [= <- <-]|].
  destruct (split_once c s) as [[a' b']|]; [|done]. intros [= <- <-].
  destruct (IH a' b' eq_refl) as [-> Ha]. split; [by rewrite string_app_cons|]. cbn.
  by rewrite (proj2 (Ascii.eqb_neq c d) Hd).
Qed.

Lemma split_once_None c s : split_once c s = None <-> has_char c s = false.
Proof.
  induction s as [|d s IH]; cbn; [done|]. destruct (Ascii.eqb_spec c d) as [->|Hd]; [done|].
  destruct (split_once c s) as [[]|]; cbn; naive_solver.
Qed.

Lemma split_nonempty c s : split c s <> [].
Proof.
  destruct s as [|d s]; cbn; [done|]. destruct (Ascii.eqb c d); [done|]. by destruct (split c s).
Qed.

(** Splitting on a separator is undone by joining with it. *)
Lemma join_split c s : join (String c "") (split c s) = s.
Proof.
  induction s as [|d s IH]; [done|]. cbn [split]. destruct (Ascii.eqb_spec c d) as [<-|Hd].
  - destruct (split c s) as [|x l] eqn:E; [by destruct (split_nonempty c s)|].
    change (join (String c "") ("" :: x :: l)) with ("" +:+ String c "" +:+ join (String c "") (x :: l)).
    rewrite IH. done.
  - destruct (split c s) as [|x l] eqn:E; [by destruct (split_nonempty c s)|].
    destruct l as [|y l]; cbn in *; by rewrite <- IH.
Qed.

Lemma split_no_sep c s x : x ∈ split c s -> has_char c x = false.
Proof.
  revert x; induction s as [|d s IH]; intros x; cbn [split].
  { by intros ->%list_elem_of_singleton. }
  destruct (Ascii.eqb_spec c d) as [<-|Hd].
  - intros [->|H]%elem_of_cons; [done|by apply IH].
  - destruct (split c s) as [|y l] eqn:E; [by destruct (split_nonempty c s)|].
    intros [->|H]%elem_of_cons; [|apply IH; by right]. cbn. rewrite (proj2 (Ascii.eqb_neq c d) Hd).
    cbn. apply IH. left.
Qed.

Lemma prefix_spec p s : String.prefix p s = true <-> exists r, s = p +:+ r.
Proof.
  revert s; induction p as [|c p IH]; intros s; cbn [String.prefix].
  { split; [intros _; by exists s|by destruct s]. }
  destruct s as [|d s]; [split; [done|by intros [r H]]|].
  cbn [String.prefix]. destruct (ascii_dec c d) as [->|Hd].
  - rewrite IH. split; intros [r H]; exists r; rewrite ?string_app_cons in *; congruence.
  - split; [done|]. intros [r H]. rewrite string_app_cons in H. congruence.
Qed.

Lemma find_str_spec pat s n :
  find_str pat s = Some n ->
  s = take_str n s +:+ pat +:+ drop_str (n + String.length pat) s.
Proof.
  revert n; induction s as [|c s IH]; intros n; cbn [find_str].
  - destruct (String.prefix pat "") eqn:E; [|done]. intros [= <-].
    apply prefix_spec in E as [r E]. destruct pat; done.
  - destruct (String.prefix pat (String c s)) eqn:E.
    + intros [= <-]. apply prefix_spec in E as [r E]. rewrite E. cbn [Nat.add take_str].
      rewrite string_app_nil_l. f_equal. clear. induction pat as [|d p IH]; [done|]. apply IH.
    + destruct (find_str pat s) as [m|]; [|done]. intros [= <-]. cbn.
      rewrite string_app_cons. f_equal. by apply IH.
Qed.

(** ** Length-prefixed fields *)

(** ["{len}:{s}\n"]. *)
Definition framed (s : string) : string :=
  pretty (N.of_nat (String.length s)) +:+ ":" +:+ s +:+ String "010"%char "".
Lemma framed_split a a' r r' : framed a +:+ r = framed a' +:+ r' -> a = a' /\ r = r'.
Proof.
  unfold framed. rewrite !string_app_assoc, !string_app_cons, !string_app_nil_l. intros E.
  apply split_at_char in E as [E1 E2]; [|eapply parse_digits_no_colon, parse_digits_pretty..].
  assert (String.length a = String.length a') as L.
  { pose proof (parse_digits_pretty (N.of_nat (String.length a))) as P.
    rewrite E1, parse_digits_pretty in P. injection P as P. lia. }
  apply (string_app_inj_len _ _ _ _ L) in E2 as [-> E2]. split; [done|]. by injection E2.
Qed.

Lemma framed_nonempty a r : framed a +:+ r <> "".
Proof.
  unfold framed. destruct (pretty_head (N.of_nat (String.length a))) as (d & s & _ & ->).
  by rewrite !string_app_cons.
Qed.
