(* ===== verification/Globs.v ===== *)
(** * Glob patterns (scarab-project/src/lib.rs, scarab-policy/src/policy.rs)

    The two wildcard matchers of the governance code, each a two-pointer loop
    that backtracks to the last [*], against one declarative reading of a
    pattern. The Policy matcher decides that reading; the project matcher
    decides it on every text without a [*]. *)

From S2P Require Import Prelude Text.

(** ** What a pattern means *)

Definition STAR : string := "*".

(** [*] stands for any run of characters, any other character for itself. *)
Inductive Glob : list string -> list string -> Prop :=
| Glob_nil : Glob [] []
| Glob_char c p t : Glob p t -> Glob (c :: p) (c :: t)
| Glob_star p t u : Glob p u -> Glob (STAR :: p) (t ++ u).

Definition glob_lang (pattern text : string) : Prop := Glob (chars pattern) (chars text).

(** ** scarab-project's [glob_match] *)

Record Cursor := mkCursor { c_pi : nat; c_ti : nat; c_star : option nat; c_mark : nat }.

(** One turn of the [while ti < t.len()]: [inr None] is [return false],
    [inr (Some pi)] the end of the loop. *)
Definition glob_turn (p t : list string) (s : Cursor) : Cursor + option nat :=
  let '(mkCursor pi ti star mark) := s in
  match t !! ti with
  | None => inr (Some pi)
  | Some c =>
      if bool_decide (p !! pi = Some c) then inl (mkCursor (S pi) (S ti) star mark)
      else if bool_decide (p !! pi = Some STAR) then inl (mkCursor (S pi) ti (Some pi) ti)
      else match star with
           | Some s => inl (mkCursor (S s) (S mark) star (S mark))
           | None => inr None
           end
  end.

(** The trailing [while pi < p.len() && p[pi] == '*'] and its [pi == p.len()]. *)
Definition only_stars (p : list string) : bool := forallb (fun c => bool_decide (c = STAR)) p.

(** Turns enough for the loop, as a power of two. *)
Definition glob_depth (p t : list string) : nat := length p + length t.

Definition glob_match (pattern text : string) : bool :=
  let p := chars pattern in
  let t := chars text in
  match loop (glob_depth p t) (glob_turn p t) (mkCursor 0 0 None 0) with
  | inr (Some pi) => only_stars (drop pi p)
  | _ => false
  end.

(** ** scarab-policy's [glob_matches] and [pattern_matches] *)

Definition globs_turn (g v : list string) (s : nat * nat * option (nat * nat)) :
    (nat * nat * option (nat * nat)) + option nat :=
  let '(gi, vi, star) := s in
  match v !! vi with
  | None => inr (Some gi)
  | Some c =>
      if bool_decide (g !! gi = Some STAR) then inl (S gi, vi, Some (gi, vi))
      else if bool_decide (g !! gi = Some c) then inl (S gi, S vi, star)
      else match star with
           | Some (sg, sv) => inl (S sg, S sv, Some (sg, S sv))
           | None => inr None
           end
  end.

Definition glob_matches (glob value : string) : bool :=
  let g := chars glob in
  let v := chars value in
  match loop (glob_depth g v) (globs_turn g v) (0, 0, None) with
  | inr (Some gi) => only_stars (drop gi g)
  | _ => false
  end.

(** [str::strip_suffix('*')]. *)
Definition strip_star (s : string) : option string :=
  match reverse (chars s) with
  | c :: l => if String.eqb c STAR then Some (concat_chars (reverse l)) else None
  | [] => None
  end.

(** Equal, or a prefix match when the pattern ends in [*]. *)
Definition pattern_matches (pattern value : string) : bool :=
  match strip_star pattern with
  | Some prefix => starts_with prefix value
  | None => String.eqb pattern value
  end.

(** ** The declarative reading *)

Lemma glob_star_inv p t : Glob (STAR :: p) t -> exists n, Glob p (drop n t) /\ n <= length t.
Proof.
  inversion 1 as [|c p' t' Ht|p' a u Hu]; subst.
  - exists 1. split; [done|cbn; lia].
  - exists (length a). rewrite drop_app_length. split; [done|]. rewrite length_app. lia.
Qed.

Lemma glob_char_inv c p t : c <> STAR -> Glob (c :: p) t -> exists u, t = c :: u /\ Glob p u.
Proof. inversion 2; subst; [eauto|done]. Qed.

Lemma glob_nil_inv t : Glob [] t -> t = [].
Proof. by inversion 1. Qed.

Lemma glob_star_drop p t n : Glob p (drop n t) -> Glob (STAR :: p) t.
Proof. intros H. rewrite <- (take_drop n t). by apply Glob_star. Qed.

Lemma glob_only_stars p : Glob p [] <-> only_stars p = true.
Proof.
  unfold only_stars. induction p as [|c p IH]; cbn; [split; [done|constructor]|].
  rewrite andb_true_iff, bool_decide_eq_true. split.
  - inversion 1 as [| |p' a u Hu Hp E]; subst. apply app_eq_nil in E as [-> ->]. by apply IH in Hu.
  - intros [-> H%IH]. by apply (glob_star_drop _ [] 0).
Qed.

(** A pattern read as text: each of its [*] is consumed by a [*] of the other. *)
Lemma glob_trans p q t : Glob p q -> Glob q t -> Glob p t.
Proof.
  intros H; revert t; induction H as [|c p q H IH|p a u H IH]; intros t Ht.
  - done.
  - destruct (decide (c = STAR)) as [->|Hc].
    + apply glob_star_inv in Ht as (n & Ht & _). eapply glob_star_drop. by apply IH.
    + apply glob_char_inv in Ht as (v & -> & Ht); [|done]. constructor. by apply IH.
  - assert (exists n, Glob u (drop n t)) as [n Hn].
    { revert t Ht. induction a as [|c a IHa]; intros t Ht; [by exists 0|]. cbn in Ht.
      destruct (decide (c = STAR)) as [->|Hc].
      - apply glob_star_inv in Ht as (n & Ht & _). destruct (IHa _ Ht) as [m Hm].
        exists (n + m). by rewrite <- drop_drop.
      - apply glob_char_inv in Ht as (v & -> & Ht); [|done].
        destruct (IHa _ Ht) as [m Hm]. by exists (S m). }
    eapply glob_star_drop. by apply IH.
Qed.

Lemma glob_refl p : Glob p p.
Proof. induction p; by constructor. Qed.

(** Literals in front of a pattern are the front of the text. *)
Lemma glob_literals lits p t :
  STAR ∉ lits -> Glob (lits ++ p) t -> exists u, t = lits ++ u /\ Glob p u.
Proof.
  revert t; induction lits as [|c l IH]; intros t Hs H; [by exists t|].
  apply not_elem_of_cons in Hs as [Hc Hs].
  apply glob_char_inv in H as (u & -> & H); [|done].
  destruct (IH _ Hs H) as (v & -> & Hv). by exists v.
Qed.

(** ** Both loops keep these invariants *)

Section Loops.
Context (p t : list string).

Record Sound (s : Cursor) : Prop := {
  sd_pi : c_pi s <= length p;
  sd_ti : c_ti s <= length t;
  sd_mark : c_mark s <= c_ti s;
  sd_star : forall k, c_star s = Some k -> S k <= length p;
  sd_here : Glob (drop (c_pi s) p) (drop (c_ti s) t) -> Glob p t;
  sd_back : forall k m, c_star s = Some k -> c_mark s <= m -> Glob (drop (S k) p) (drop m t) -> Glob p t;
}.

Record Complete (s : Cursor) : Prop := {
  cp_lits : forall k, c_star s = Some k -> exists lits, (STAR ∉ lits) /\
    drop (S k) p = lits ++ drop (c_pi s) p /\ drop (c_mark s) t = lits ++ drop (c_ti s) t;
  cp_match : Glob p t -> Glob (drop (c_pi s) p) (drop (c_ti s) t) \/
    exists k m, c_star s = Some k /\ c_mark s < m <= length t /\ Glob (drop (S k) p) (drop m t);
}.

Definition glob_left (s : Cursor) : Z :=
  (Z.of_nat (length t - c_mark s) * Z.of_nat (length p + 1) + Z.of_nat (length p - c_pi s))%Z.

Lemma sound_start : Sound (mkCursor 0 0 None 0).
Proof. split; cbn; [lia..|done|done|done]. Qed.
Lemma complete_start : Complete (mkCursor 0 0 None 0).
Proof. split; cbn; [done|]. by left. Qed.

Lemma advance_sound c pi ti star mark :
  p !! pi = Some c -> t !! ti = Some c -> Sound (mkCursor pi ti star mark) ->
  Sound (mkCursor (S pi) (S ti) star mark) /\
  (0 <= glob_left (mkCursor (S pi) (S ti) star mark) < glob_left (mkCursor pi ti star mark))%Z.
Proof.
  intros Hp Ht [H1 H2 H3 H4 H5 H6]. cbn in *.
  pose proof (lookup_lt_Some _ _ _ Hp). pose proof (lookup_lt_Some _ _ _ Ht).
  split; [split; cbn; [lia..|done| |done]|unfold glob_left; cbn [c_mark c_pi]; nia].
  intros H7. apply H5. rewrite (drop_S _ _ _ Hp), (drop_S _ _ _ Ht). by constructor.
Qed.

Lemma advance_complete c pi ti star mark :
  p !! pi = Some c -> t !! ti = Some c -> c <> STAR ->
  Complete (mkCursor pi ti star mark) -> Complete (mkCursor (S pi) (S ti) star mark).
Proof.
  intros Hp Ht Hc [H1 H2]. cbn in *. rewrite (drop_S _ _ _ Hp), (drop_S _ _ _ Ht) in H2. split; cbn.
  - intros k Hk. destruct (H1 k Hk) as (lits & Hl & E1 & E2). exists (lits ++ [c]).
    rewrite E1, E2, (drop_S _ _ _ Hp), (drop_S _ _ _ Ht), <- !app_assoc. split_and!; [|done|done].
    rewrite elem_of_app, list_elem_of_singleton. naive_solver.
  - intros [H|H]%H2; [|by right]. left. apply glob_char_inv in H as (u & E & H); [|done].
    by injection E as <-.
Qed.

Lemma star_sound pi ti star mark :
  p !! pi = Some STAR -> ti < length t -> Sound (mkCursor pi ti star mark) ->
  Sound (mkCursor (S pi) ti (Some pi) ti) /\
  (0 <= glob_left (mkCursor (S pi) ti (Some pi) ti) < glob_left (mkCursor pi ti star mark))%Z.
Proof.
  intros Hp Ht [H1 H2 H3 H4 H5 H6]. cbn in *. pose proof (lookup_lt_Some _ _ _ Hp).
  rewrite (drop_S _ _ _ Hp) in H5.
  split; [split; cbn; [lia..|intros k [= <-]; lia| |]|].
  - intros H7. apply H5. by apply (glob_star_drop _ _ 0).
  - intros k m [= <-] Hm H7. apply H5. apply (glob_star_drop _ _ (m - ti)).
    rewrite drop_drop. by replace (ti + (m - ti)) with m by lia.
  - unfold glob_left. cbn [c_mark c_pi]. split; [nia|].
    assert (Z.of_nat (length t - ti) <= Z.of_nat (length t - mark))%Z by lia. nia.
Qed.

Lemma star_complete pi ti star mark :
  p !! pi = Some STAR -> ti <= length t ->
  Complete (mkCursor pi ti star mark) -> Complete (mkCursor (S pi) ti (Some pi) ti).
Proof.
  intros Hp Hti [H1 H2]. cbn in *. rewrite (drop_S _ _ _ Hp) in H1, H2. split; cbn.
  { intros k [= <-]. exists []. split_and!; [apply not_elem_of_nil|done|done]. }
  intros H. assert (exists n, Glob (drop (S pi) p) (drop (ti + n) t) /\ ti + n <= length t) as (n & Hn & Hl).
  { destruct (H2 H) as [Hg|(k & m & Hk & Hm & Hg)].
    - apply glob_star_inv in Hg as (n & Hg & Hn). rewrite drop_drop in Hg. rewrite length_drop in Hn.
      exists n. split; [done|lia].
    - destruct (H1 k Hk) as (lits & Hlits & E1 & E2). rewrite E1 in Hg.
      apply glob_literals in Hg as (u & Eu & Hg); [|done].
      apply glob_star_inv in Hg as (n & Hg & Hn).
      assert (length (drop mark t) = length (lits ++ drop ti t)) as El by by rewrite E2.
      assert (length (drop m t) = length (lits ++ u)) as Em by by rewrite Eu.
      rewrite length_app, !length_drop in El. rewrite length_app, length_drop in Em.
      exists (m + length lits + n - ti).
      replace (ti + (m + length lits + n - ti)) with (m + length lits + n) by lia.
      split; [|lia]. rewrite <- !drop_drop, Eu, drop_app_length. done. }
  destruct n as [|n]; [left; by rewrite Nat.add_0_r in Hn|].
  right. exists pi, (ti + S n). split_and!; [done|lia|lia|done].
Qed.

Lemma backtrack_sound k pi ti mark :
  ti < length t -> Sound (mkCursor pi ti (Some k) mark) ->
  Sound (mkCursor (S k) (S mark) (Some k) (S mark)) /\
  (0 <= glob_left (mkCursor (S k) (S mark) (Some k) (S mark)) < glob_left (mkCursor pi ti (Some k) mark))%Z.
Proof.
  intros Ht [H1 H2 H3 H4 H5 H6]. cbn in *. pose proof (H4 k eq_refl).
  split; [split; cbn; [lia..|done| |]|].
  - intros H7. by apply (H6 k (S mark)); [|lia|].
  - intros k' m [= <-] Hm. apply H6; [done|lia].
  - unfold glob_left. cbn [c_mark c_pi]. split; [nia|].
    replace (Z.of_nat (length t - mark)) with (Z.of_nat (length t - S mark) + 1)%Z by lia. nia.
Qed.

Lemma mismatch_no_glob c pi ti :
  t !! ti = Some c -> p !! pi <> Some STAR -> p !! pi <> Some c ->
  ~ Glob (drop pi p) (drop ti t).
Proof.
  intros Ht Hs Hc H. rewrite (drop_S _ _ _ Ht) in H. destruct (p !! pi) as [d|] eqn:Hp.
  - rewrite (drop_S _ _ _ Hp) in H. apply glob_char_inv in H as (u & E & _); congruence.
  - apply lookup_ge_None in Hp. rewrite drop_ge in H by done. by apply glob_nil_inv in H.
Qed.

Lemma backtrack_complete c k pi ti mark :
  t !! ti = Some c -> p !! pi <> Some STAR -> p !! pi <> Some c -> mark <= ti ->
  Complete (mkCursor pi ti (Some k) mark) -> Complete (mkCursor (S k) (S mark) (Some k) (S mark)).
Proof.
  intros Ht Hs Hc Hm [H1 H2]. cbn in *. split; cbn.
  { intros k' [= <-]. exists []. split_and!; [apply not_elem_of_nil|done|done]. }
  intros [H|(k' & m & Hk & Hr & H)]%H2; [by apply (mismatch_no_glob c) in H|]. injection Hk as <-.
  destruct (decide (m = S mark)) as [->|]; [by left|]. right. exists k, m. split_and!; [done|lia|lia|done].
Qed.

(** The end of the text: what the loop leaves decides. *)
Lemma finish_sound pi ti star mark :
  t !! ti = None -> Sound (mkCursor pi ti star mark) -> only_stars (drop pi p) = true -> Glob p t.
Proof.
  intros Ht [] H. apply lookup_ge_None in Ht. cbn in *.
  apply sd_here0. rewrite (drop_ge t) by done. by apply glob_only_stars.
Qed.

Lemma finish_complete pi ti star mark :
  t !! ti = None -> Complete (mkCursor pi ti star mark) -> Glob p t -> only_stars (drop pi p) = true.
Proof.
  intros Ht [H1 H2] H. apply lookup_ge_None in Ht. cbn in *.
  rewrite (drop_ge t ti) in H1, H2 by done.
  destruct (H2 H) as [Hg|(k & m & Hk & Hm & Hg)]; [by apply glob_only_stars|].
  destruct (H1 k Hk) as (lits & Hl & E1 & E2). rewrite E1 in Hg.
  apply glob_literals in Hg as (u & Eu & _); [|done].
  apply (f_equal length) in E2, Eu. rewrite app_nil_r, length_drop in E2.
  rewrite length_app, length_drop in Eu. lia.
Qed.

Lemma fail_complete c pi ti mark :
  t !! ti = Some c -> p !! pi <> Some STAR -> p !! pi <> Some c ->
  Complete (mkCursor pi ti None mark) -> ~ Glob p t.
Proof.
  intros Ht Hs Hc [H1 H2] H. cbn in *.
  destruct (H2 H) as [Hg|(k & m & Hk & _)]; [|done]. by apply (mismatch_no_glob c) in Hg.
Qed.

(** The start's measure fits the turns the loops are given. *)
Lemma glob_depth_enough : (glob_left (mkCursor 0 0 None 0) < 2 ^ Z.of_nat (glob_depth p t))%Z.
Proof.
  unfold glob_left, glob_depth. cbn [c_mark c_pi]. rewrite !Nat.sub_0_r, (Nat2Z.inj_add (length p) (length t)), Z.pow_add_r by lia.
  assert (forall n, Z.of_nat n + 1 <= 2 ^ Z.of_nat n)%Z as Hp.
  { intros n. pose proof (Z.pow_gt_lin_r 2 (Z.of_nat n)). lia. }
  pose proof (Hp (length p)). pose proof (Hp (length t)).
  pose proof (Nat2Z.is_nonneg (length p)). pose proof (Nat2Z.is_nonneg (length t)). nia.
Qed.
End Loops.

(** What a loop's outcome says of the text. *)
Definition glob_verdict (p t : list string) (complete : Prop) (r : option nat) : Prop :=
  match r with
  | Some pi => (only_stars (drop pi p) = true -> Glob p t) /\
               (complete -> Glob p t -> only_stars (drop pi p) = true)
  | None => complete -> ~ Glob p t
  end.

Lemma glob_loop_spec p t :
  exists r, loop (glob_depth p t) (glob_turn p t) (mkCursor 0 0 None 0) = inr r /\
            glob_verdict p t (STAR ∉ t) r.
Proof.
  apply (loop_leaves _ (fun s => Sound p t s /\ (STAR ∉ t -> Complete p t s)) _ (glob_left p t)).
  3: { apply glob_depth_enough. }
  2: { split; [apply sound_start|intros _; apply complete_start]. }
  intros [pi ti star mark] [HS HC]. cbn [glob_turn].
  destruct (t !! ti) as [c|] eqn:Ht.
  2: { cbn. split; [by apply (finish_sound p t pi ti star mark)|].
       intros Hn. by apply (finish_complete p t pi ti star mark), HC. }
  pose proof (lookup_lt_Some _ _ _ Ht).
  case_bool_decide as Hc; [|case_bool_decide as Hs].
  - destruct (advance_sound p t c pi ti star mark Hc Ht HS) as [H1 H2]. split; [split|]; [done| |done].
    intros Hn. apply (advance_complete p t c); [done|done| |by apply HC].
    intros ->. apply Hn. by apply list_elem_of_lookup_2 in Ht.
  - destruct (star_sound p t pi ti star mark Hs) as [H1 H2]; [done|done|]. split; [split|]; [done| |done].
    intros Hn. apply (star_complete p t pi ti star mark); [done|lia|by apply HC].
  - destruct star as [k|].
    + destruct (backtrack_sound p t k pi ti mark) as [H1 H2]; [done|done|]. split; [split|]; [done| |done].
      intros Hn. apply (backtrack_complete p t c k pi ti mark); [done..| |by apply HC]. apply HS.
    + cbn. intros Hn. by apply (fail_complete p t c pi ti mark), HC.
Qed.

(** The project matcher's [true] is always right; its [false] is right on a
    text without a [*]. *)
Lemma glob_match_sound pattern text : glob_match pattern text = true -> glob_lang pattern text.
Proof.
  unfold glob_match, glob_lang. destruct (glob_loop_spec (chars pattern) (chars text)) as (r & -> & H).
  destruct r as [pi|]; [|done]. apply H.
Qed.
Lemma glob_match_complete pattern text :
  STAR ∉ chars text -> glob_lang pattern text -> glob_match pattern text = true.
Proof.
  unfold glob_match, glob_lang. destruct (glob_loop_spec (chars pattern) (chars text)) as (r & -> & H).
  destruct r as [pi|]; cbn in H; [|tauto]. intros Hn Hg. by apply H.
Qed.

(** The Policy matcher keeps the same cursor: its star and mark in one pair. *)
Definition of_pair (s : nat * nat * option (nat * nat)) : Cursor :=
  mkCursor s.1.1 s.1.2 (fst <$> s.2) (default 0 (snd <$> s.2)).

Lemma globs_loop_spec g v :
  exists r, loop (glob_depth g v) (globs_turn g v) (0, 0, None) = inr r /\ glob_verdict g v True r.
Proof.
  apply (loop_leaves _ (fun s => Sound g v (of_pair s) /\ Complete g v (of_pair s)) _
    (fun s => glob_left g v (of_pair s))).
  3: { apply glob_depth_enough. }
  2: { split; [apply sound_start|apply complete_start]. }
  intros [[gi vi] star] [HS HC]. cbn [globs_turn]. unfold of_pair in *. cbn [fst snd] in *.
  destruct (v !! vi) as [c|] eqn:Ht.
  2: { cbn. split; [by eapply finish_sound|]. intros _. by eapply finish_complete. }
  pose proof (lookup_lt_Some _ _ _ Ht).
  case_bool_decide as Hs; [|case_bool_decide as Hc].
  - destruct (star_sound g v _ _ _ _ Hs H HS) as [H1 H2]. split; [split|]; [done| |done].
    apply (star_complete g v gi vi (fst <$> star) (default 0 (snd <$> star))); [done|lia|done].
  - destruct (advance_sound g v c _ _ _ _ Hc Ht HS) as [H1 H2]. split; [split|]; [done| |done].
    apply (advance_complete g v c); [done..|congruence|done].
  - destruct star as [[k sv]|].
    + destruct (backtrack_sound g v k gi vi sv) as [H1 H2]; [done|done|]. split; [split|]; [done| |done].
      apply (backtrack_complete g v c k gi vi sv); [done..| |done]. apply HS.
    + cbn. intros _. by eapply fail_complete.
Qed.

Lemma glob_matches_spec glob value : glob_matches glob value = true <-> glob_lang glob value.
Proof.
  unfold glob_matches, glob_lang. destruct (globs_loop_spec (chars glob) (chars value)) as (r & -> & H).
  destruct r as [pi|]; cbn in H; [|split; [done|tauto]]. split; [apply H|]. by apply H.
Qed.
