(* ===== verification/Cron.v ===== *)
(** * Cron schedules (scarab-pipeline/src/cron.rs)

    Parsing an [on: cron:] schedule into the set of values each field allows,
    and the search for its next fire. The calendar (chrono's [NaiveDate]) is
    third-party code: a class of operations with the laws of the proleptic
    Gregorian calendar that the search relies on, and one concrete instance. *)

From S2P Require Import Prelude Text.

(** ** The schedule *)

(** The bit sets are the machine words the code keeps. *)
Record Schedule := mkSchedule {
  sc_minutes : N;
  sc_hours : N;
  sc_days_of_month : N;
  sc_months : N;
  sc_days_of_week : N;
  sc_dom_any : bool;
  sc_dow_any : bool;
}.
#[export] Instance Schedule_eq_dec : EqDecision Schedule.
Proof. solve_decision. Defined.

Record Field := mkField { fd_name : string; fd_min : N; fd_max : N; fd_names : list string }.

Definition MINUTE : Field := mkField "minute" 0 59 [].
Definition HOUR : Field := mkField "hour" 0 23 [].
Definition DAY_OF_MONTH : Field := mkField "day of month" 1 31 [].
Definition MONTH : Field := mkField "month" 1 12
  ["jan"; "feb"; "mar"; "apr"; "may"; "jun"; "jul"; "aug"; "sep"; "oct"; "nov"; "dec"].
Definition DAY_OF_WEEK : Field := mkField "day of week" 0 7 ["sun"; "mon"; "tue"; "wed"; "thu"; "fri"; "sat"].
Definition SEARCH_YEARS : Z := 5.
Definition MIN_INTERVAL_MINUTES : N := 5.

(** [bits & (1 << v) != 0]. *)
Definition has_bit (bits v : N) : bool := negb (N.land bits (N.shiftl 1 v) =? 0)%N.

(** ** Parsing one field *)

Fixpoint position (n : string) (l : list string) : option N :=
  match l with
  | [] => None
  | x :: l' => if String.eqb x n then Some 0%N else N.succ <$> position n l'
  end.

(** One value: a number in range, or one of the field's names. *)
Definition value (text : string) (field : Field) : Result string N :=
  match position (to_ascii_lowercase text) (fd_names field) with
  | Some i => Ok (i + (if (fd_min field =? 1)%N then 1 else 0))%N
  | None =>
      match parse_u32 text with
      | None => Err (fd_name field +:+ ": `" +:+ text +:+ "` is not a number"
                     +:+ match fd_names field with [] => "" | _ => " or a name" end)
      | Some v =>
          if ((v <? fd_min field) || (fd_max field <? v))%N
          then Err (fd_name field +:+ ": `" +:+ pretty v +:+ "` is outside "
                    +:+ pretty (fd_min field) +:+ "-" +:+ pretty (fd_max field))
          else Ok v
      end
  end.

(** The walk [v, v + step, ..] up to [hi], setting each bit. A field has at
    most 60 values, so 64 steps always reach past [hi]. *)
Fixpoint walk (fuel : nat) (bits v step hi : N) : N :=
  match fuel with
  | 0 => bits
  | S fuel' =>
      if (v <=? hi)%N then
        let bits := N.lor bits (N.shiftl 1 v) in
        if (v + step <=? u32_max)%N then walk fuel' bits (v + step)%N step hi else bits
      else bits
  end.

(** One entry of a field's list: its range and its step. *)
Definition entry_step (part : string) (field : Field) : Result string (string * N) :=
  match split_once "/" part with
  | Some (r, s) =>
      match parse_u32 s with
      | None => Err (fd_name field +:+ ": step `" +:+ s +:+ "` is not a number")
      | Some step =>
          if (step =? 0)%N then Err (fd_name field +:+ ": a step must be at least 1")
          else if (fd_max field <? step)%N
               then Err (fd_name field +:+ ": step `" +:+ pretty step +:+ "` is larger than "
                         +:+ pretty (fd_max field))
               else Ok (r, step)
      end
  | None => Ok (part, 1%N)
  end.
Definition entry_range (part range : string) (field : Field) : Result string (N * N) :=
  if String.eqb range "*" then Ok (fd_min field, fd_max field)
  else match split_once "-" range with
       | Some (a, b) =>
           lo ← value a field;
           hi ← value b field;
           if (hi <? lo)%N then Err (fd_name field +:+ ": range `" +:+ range +:+ "` runs backwards")
           else Ok (lo, hi)
       | None =>
           v ← value range field;
           Ok (if has_char "/" part then (v, fd_max field) else (v, v))
       end.

(** The loop over the list's entries. *)
Fixpoint parse_parts (text : string) (field : Field) (parts : list string) (bits : N) : Result string N :=
  match parts with
  | [] => Ok bits
  | part :: rest =>
      if String.eqb part "" then Err (fd_name field +:+ ": `" +:+ text +:+ "` has an empty list entry")
      else
        rs ← entry_step part field;
        lohi ← entry_range part rs.1 field;
        parse_parts text field rest (walk 64 bits lohi.1 rs.2 lohi.2)
  end.
Definition parse_field (text : string) (field : Field) : Result string N :=
  parse_parts text field (split "," text) 0.

(** ** The calendar *)

(** chrono's [NaiveDateTime]: a day, counted from 1970-01-01, and the
    milliseconds into it. *)
Record DateTime := mkDateTime { dt_day : Z; dt_ms : Z }.

Class Calendar := {
  (** [NaiveDate::MIN] and [MAX]. *)
  cal_min : Z;
  cal_max : Z;
  (** [Datelike]: the year, month and day of a day number. *)
  cal_ymd : Z -> Z * Z * Z;
  (** [weekday().num_days_from_sunday()]. *)
  cal_weekday : Z -> Z;
  (** [NaiveDate::from_ymd_opt]. *)
  cal_from_ymd : Z -> Z -> Z -> option Z;
}.

Definition DAY_MS : Z := 86400000.
Definition HOUR_MS : Z := 3600000.
Definition MINUTE_MS : Z := 60000.

Section WithCalendar.
Context {Cal : Calendar}.

Definition year_of (day : Z) : Z := (cal_ymd day).1.1.
Definition month_of (day : Z) : Z := (cal_ymd day).1.2.
Definition day_of (day : Z) : Z := (cal_ymd day).2.
Definition hour_of (t : DateTime) : Z := (dt_ms t / HOUR_MS)%Z.
Definition minute_of (t : DateTime) : Z := (dt_ms t mod HOUR_MS / MINUTE_MS)%Z.
Definition day_in_range (day : Z) : bool := ((cal_min <=? day) && (day <=? cal_max))%Z.

(** [DateTime::from_timestamp_millis] and [timestamp_millis]. *)
Definition from_timestamp_millis (ms : Z) : option DateTime :=
  if day_in_range (ms / DAY_MS) then Some (mkDateTime (ms / DAY_MS) (ms mod DAY_MS)) else None.
Definition timestamp_millis (t : DateTime) : Z := (dt_day t * DAY_MS + dt_ms t)%Z.

(** [t + Duration]: past [NaiveDateTime::MAX] it panics ([None]). *)
Definition add_ms (t : DateTime) (d : Z) : option DateTime := from_timestamp_millis (timestamp_millis t + d).

(** [t.with_second(0)?.with_nanosecond(0)?] and [t.with_minute(0)?] of a whole
    minute: both always exist. *)
Definition with_second_0 (t : DateTime) : DateTime := mkDateTime (dt_day t) (dt_ms t - dt_ms t mod MINUTE_MS).
Definition with_minute_0 (t : DateTime) : DateTime := mkDateTime (dt_day t) (dt_ms t - dt_ms t mod HOUR_MS).
(** [t.date().succ_opt()?.and_hms_opt(0, 0, 0)?]. *)
Definition next_day (t : DateTime) : option DateTime :=
  if day_in_range (dt_day t + 1) then Some (mkDateTime (dt_day t + 1) 0) else None.

Definition first_of_next_month (t : DateTime) : option DateTime :=
  let '(y, m) := if (month_of (dt_day t) =? 12)%Z then (year_of (dt_day t) + 1, 1)%Z
                 else (year_of (dt_day t), month_of (dt_day t) + 1)%Z in
  (fun d => mkDateTime d 0) <$> cal_from_ymd y m 1.

(** ** The next fire *)

Definition month_matches (s : Schedule) (month : Z) : bool := has_bit (sc_months s) (Z.to_N month).
Definition day_matches (s : Schedule) (day : Z) : bool :=
  let dom := has_bit (sc_days_of_month s) (Z.to_N (day_of day)) in
  let dow := has_bit (sc_days_of_week s) (Z.to_N (cal_weekday day)) in
  if sc_dom_any s || sc_dow_any s then dom && dow else dom || dow.

(** Why a search stops without an answer: an addition past the calendar's end
    panics. The search's loop needs no more than [2^22] steps. *)
Inductive Stop : Set := AddOverflow | OutOfFuel.

Definition search_step (s : Schedule) (limit_year : Z) (t : DateTime)
  : DateTime + Result Stop (option Z) :=
  let advance (t' : option DateTime) := match t' with Some t' => inl t' | None => inr (Ok None) end in
  let plus (t' : DateTime) d := match add_ms t' d with Some t' => inl t' | None => inr (Err AddOverflow) end in
  if negb (year_of (dt_day t) <=? limit_year)%Z then inr (Ok None)
  else if negb (month_matches s (month_of (dt_day t))) then advance (first_of_next_month t)
  else if negb (day_matches s (dt_day t)) then advance (next_day t)
  else if negb (has_bit (sc_hours s) (Z.to_N (hour_of t))) then plus (with_minute_0 t) HOUR_MS
  else if negb (has_bit (sc_minutes s) (Z.to_N (minute_of t))) then plus t MINUTE_MS
  else inr (Ok (Some (timestamp_millis t))).

Definition next_after (s : Schedule) (after_ms : Z) : Result Stop (option Z) :=
  match from_timestamp_millis after_ms with
  | None => Ok None
  | Some after =>
      match add_ms (with_second_0 after) MINUTE_MS with
      | None => Err AddOverflow
      | Some t =>
          match loop 22 (search_step s (year_of (dt_day t) + SEARCH_YEARS)) t with
          | inr r => r
          | inl _ => Err OutOfFuel
          end
      end
  end.

(** ** Parsing a schedule *)

(** The macros, over the lower-cased text; [None] for one that is not known. *)
Definition expand (expr : string) : option string :=
  let lower := to_ascii_lowercase expr in
  if bool_decide (lower ∈ ["@yearly"; "@annually"]) then Some "0 0 1 1 *"
  else if String.eqb lower "@monthly" then Some "0 0 1 * *"
  else if String.eqb lower "@weekly" then Some "0 0 * * 0"
  else if bool_decide (lower ∈ ["@daily"; "@midnight"]) then Some "0 0 * * *"
  else if String.eqb lower "@hourly" then Some "0 * * * *"
  else if starts_with "@" lower then None
  else Some expr.

(** Day 7 folded onto day 0 (Sunday). *)
Definition fold_sunday (bits : N) : N :=
  if has_bit bits 7 then N.lor (N.clearbit bits 7) 1 else bits.

Definition parse_fields (expr : string) : Result string Schedule :=
  let expr := trim expr in
  match expand expr with
  | None => Err ("`" +:+ expr +:+ "` is not a schedule this server knows; use five fields or one of "
                 +:+ "@yearly, @monthly, @weekly, @daily, @hourly")
  | Some expanded =>
      let fields := split_whitespace expanded in
      match fields with
      | [f0; f1; f2; f3; f4] =>
          minutes ← parse_field f0 MINUTE;
          hours ← parse_field f1 HOUR;
          days_of_month ← parse_field f2 DAY_OF_MONTH;
          months ← parse_field f3 MONTH;
          days_of_week ← parse_field f4 DAY_OF_WEEK;
          let schedule := mkSchedule minutes (wrap_u 32 hours) (wrap_u 32 days_of_month) (wrap_u 16 months)
            (wrap_u 8 (fold_sunday days_of_week)) (starts_with "*" f2) (starts_with "*" f4) in
          match next_after schedule 0 with
          | Ok None => Err ("`" +:+ expr +:+ "` names no date that exists, so it never fires")
          | _ => Ok schedule
          end
      | _ => Err ("`" +:+ expr +:+ "` has " +:+ pretty (length fields)
                  +:+ " fields; a schedule has five: minute hour day-of-month month "
                  +:+ "day-of-week (UTC)")
      end
  end.

(** The fires of one matching day, in minutes. *)
Definition range_n (n : nat) : list N := N.of_nat <$> seq 0 n.
Definition day_fires (s : Schedule) : list N :=
  h ← List.filter (has_bit (sc_hours s)) (range_n 24);
  (fun m => h * 60 + m)%N <$> List.filter (has_bit (sc_minutes s)) (range_n 60).
Fixpoint windows (l : list N) : list N :=
  match l with
  | [] => []
  | a :: l' => match l' with
               | [] => []
               | b :: _ => (b - a)%N :: windows l'
               end
  end.
Definition min_gap_minutes (s : Schedule) : N :=
  let fires := day_fires s in
  match head fires, last fires with
  | Some first, Some last => foldr N.min (first + 24 * 60 - last)%N (windows fires)
  | _, _ => u32_max
  end.

Definition parse (expr : string) : Result string Schedule :=
  schedule ← parse_fields expr;
  let gap := min_gap_minutes schedule in
  if (gap <? MIN_INTERVAL_MINUTES)%N then
    Err ("`" +:+ trim expr +:+ "` can fire " +:+ pretty gap +:+ " minute" +:+ (if (gap =? 1)%N then "" else "s")
         +:+ " apart; schedules fire at most every " +:+ pretty MIN_INTERVAL_MINUTES +:+ " minutes")
  else Ok schedule.
End WithCalendar.

(** * Theorems *)

(** ** The calendar's laws *)

Class CalendarLaws `(Cal : Calendar) : Prop := {
  cal_from_ymd_spec y m d n :
    cal_from_ymd y m d = Some n <-> (cal_min <= n <= cal_max)%Z /\ cal_ymd n = (y, m, d);
  cal_months n : (cal_min <= n <= cal_max)%Z -> (1 <= month_of n <= 12)%Z;
  cal_days n : (cal_min <= n <= cal_max)%Z -> (1 <= day_of n <= 31)%Z;
  (** The next day is the next of its month, or the first of the next month. *)
  cal_succ n : (cal_min <= n < cal_max)%Z ->
    cal_ymd (n + 1) = (year_of n, month_of n, day_of n + 1)%Z
    \/ cal_ymd (n + 1) = (if (month_of n =? 12)%Z then (year_of n + 1, 1, 1)%Z else (year_of n, month_of n + 1, 1)%Z);
}.

(** ** When a schedule fires *)

(** [ms] is a whole minute that every field matches. *)
Definition fires `{Calendar} (s : Schedule) (ms : Z) : Prop :=
  (ms mod MINUTE_MS = 0)%Z /\ day_in_range (ms / DAY_MS) = true
  /\ month_matches s (month_of (ms / DAY_MS)) = true /\ day_matches s (ms / DAY_MS) = true
  /\ has_bit (sc_hours s) (Z.to_N (ms mod DAY_MS / HOUR_MS)) = true
  /\ has_bit (sc_minutes s) (Z.to_N (ms mod HOUR_MS / MINUTE_MS)) = true.

Ltac ms := unfold DAY_MS, HOUR_MS, MINUTE_MS in *; Z.to_euclidean_division_equations; lia.

Section Search.
Context `{Laws : CalendarLaws}.

(** Months counted from year 0, and days keyed by month and day of month. *)
Definition month_index (day : Z) : Z := (year_of day * 12 + month_of day)%Z.
Definition day_key (day : Z) : Z := (month_index day * 32 + day_of day)%Z.

Lemma ymd_eta n : cal_ymd n = (year_of n, month_of n, day_of n).
Proof. unfold year_of, month_of, day_of. by destruct (cal_ymd n) as [[]]. Qed.

Lemma day_in_range_spec n : day_in_range n = true <-> (cal_min <= n <= cal_max)%Z.
Proof. unfold day_in_range. lia. Qed.

Lemma succ_key n : (cal_min <= n < cal_max)%Z ->
  (month_index (n + 1) = month_index n /\ day_of (n + 1) = day_of n + 1
   \/ month_index (n + 1) = month_index n + 1 /\ day_of (n + 1) = 1)%Z.
Proof.
  intros Hn. unfold month_index. destruct (cal_succ n Hn) as [E|E]; rewrite ymd_eta in E.
  - injection E as -> -> ->. left. lia.
  - destruct (Z.eqb_spec (month_of n) 12) as [E12|_]; injection E as -> -> ->; right; lia.
Qed.

Lemma key_mono n k : (0 <= k)%Z -> (cal_min <= n)%Z -> (n + k <= cal_max)%Z ->
  (day_key n + k <= day_key (n + k))%Z /\ (month_index n <= month_index (n + k))%Z.
Proof.
  intros Hk. pattern k. apply natlike_ind; [rewrite Z.add_0_r; lia| |done]. clear k Hk.
  intros k Hk IH H1 H2. destruct IH as [IH1 IH2]; [lia..|]. rewrite <- ?Z.add_1_r, ?Z.add_assoc in *.
  pose proof (succ_key (n + k)) as Hs.
  pose proof (cal_days (n + k)). unfold day_key in *.
  destruct Hs as [[-> ->]|[-> ->]]; lia.
Qed.

Lemma key_le n n' : (cal_min <= n)%Z -> (n <= n')%Z -> (n' <= cal_max)%Z ->
  (day_key n + (n' - n) <= day_key n')%Z /\ (month_index n <= month_index n')%Z.
Proof. intros. replace n' with (n + (n' - n))%Z by lia. replace (n + (n' - n) - n)%Z with (n' - n)%Z by lia. apply key_mono; lia. Qed.

(** A month index determines its month. *)
Lemma same_month n n' : (cal_min <= n <= cal_max)%Z -> (cal_min <= n' <= cal_max)%Z ->
  month_index n = month_index n' -> year_of n = year_of n' /\ month_of n = month_of n'.
Proof. intros H H' E. unfold month_index in E. pose proof (cal_months n H). pose proof (cal_months n' H'). lia. Qed.

(** The month after [n]'s. *)
Definition next_month (n : Z) : Z * Z :=
  if (month_of n =? 12)%Z then (year_of n + 1, 1)%Z else (year_of n, month_of n + 1)%Z.

Lemma first_of_next_month_spec t :
  (cal_min <= dt_day t <= cal_max)%Z ->
  match first_of_next_month t with
  | Some t' => dt_ms t' = 0%Z /\ (dt_day t < dt_day t' <= cal_max)%Z
      /\ month_index (dt_day t') = (month_index (dt_day t) + 1)%Z
      /\ forall n, (dt_day t <= n < dt_day t')%Z -> month_of n = month_of (dt_day t)
  | None => forall n, (dt_day t <= n <= cal_max)%Z -> month_of n = month_of (dt_day t)
  end.
Proof.
  intros Ht. set (n0 := dt_day t) in *. pose proof (cal_months n0 Ht) as Hm. pose proof (cal_days n0 Ht) as Hd.
  unfold first_of_next_month. fold n0. fold (next_month n0).
  destruct (next_month n0) as [y m] eqn:Enm.
  assert (forall n, (cal_min <= n <= cal_max)%Z -> cal_ymd n = (y, m, 1)%Z <->
    month_index n = (month_index n0 + 1)%Z /\ day_of n = 1%Z) as Hk.
  { intros n Hn. pose proof (cal_months n Hn). rewrite ymd_eta. unfold month_index, next_month in *.
    destruct (Z.eqb_spec (month_of n0) 12); injection Enm as <- <-; split.
    - intros [= ? ? ?]. lia.
    - intros [H1 H2]. f_equal; [f_equal|]; lia.
    - intros [= ? ? ?]. lia.
    - intros [H1 H2]. f_equal; [f_equal|]; lia. }
  destruct (cal_from_ymd y m 1) as [n1|] eqn:E; cbn.
  - apply cal_from_ymd_spec in E as [Hn1 E]. apply Hk in E as [E1 E2]; [|done]. split; [done|].
    assert (n0 < n1)%Z as Hlt.
    { destruct (Z.lt_ge_cases n0 n1) as [|Hge]; [done|]. pose proof (key_le n1 n0). lia. }
    split; [lia|]. split; [done|]. intros n Hn. apply same_month; [lia..|].
    pose proof (key_le n0 n). pose proof (key_le n n1). pose proof (cal_days n).
    unfold day_key in *. lia.
  - intros n Hn. apply same_month; [lia..|].
    replace n with (n0 + (n - n0))%Z in * by lia. set (k := (n - n0)%Z) in *.
    assert (0 <= k)%Z as Hk0 by lia. clearbody k. revert Hn. pattern k. apply natlike_ind; [|clear k Hk0|done].
    { by rewrite Z.add_0_r. }
    intros k Hk0 IH Hn. rewrite <- ?Z.add_1_r, ?Z.add_assoc in *.
    destruct (succ_key (n0 + k)) as [[-> _]|[E1 E2]]; [lia|apply IH; lia|].
    exfalso. rewrite IH in E1 by lia. assert (cal_from_ymd y m 1 = Some (n0 + k + 1)%Z) as E3; [|congruence].
    apply cal_from_ymd_spec. split; [lia|]. apply Hk; [lia|done].
Qed.

(** *** The search *)

Section OneSearch.
Context (s : Schedule) (after limit : Z).

(** A whole minute after [after] that no fire precedes. *)
Record searching (t : DateTime) : Prop := {
  sg_day : (cal_min <= dt_day t <= cal_max)%Z;
  sg_ms : (0 <= dt_ms t < DAY_MS)%Z;
  sg_minute : (dt_ms t mod MINUTE_MS = 0)%Z;
  sg_after : (after < timestamp_millis t)%Z;
  sg_none : forall u, (after < u < timestamp_millis t)%Z -> ~ fires s u;
  sg_limit : (month_index (dt_day t) <= limit * 12 + 13)%Z;
}.

Definition remaining (t : DateTime) : Z :=
  (((limit * 12 + 13) * 32 + 40 - day_key (dt_day t)) * 1440 - dt_ms t / MINUTE_MS)%Z.

Definition search_result (r : Result Stop (option Z)) : Prop :=
  match r with
  | Ok (Some t) => (after < t)%Z /\ fires s t /\ forall u, (after < u < t)%Z -> ~ fires s u
  | Ok None => forall u, (after < u)%Z -> fires s u -> (limit < year_of (u / DAY_MS))%Z
  | Err AddOverflow => forall u, (after < u)%Z -> ~ fires s u
  | Err OutOfFuel => False
  end.

Lemma timestamp_day t : (0 <= dt_ms t < DAY_MS)%Z ->
  (timestamp_millis t / DAY_MS = dt_day t)%Z /\ (timestamp_millis t mod DAY_MS = dt_ms t)%Z.
Proof. unfold timestamp_millis. ms. Qed.

(** Going on from a later [t'] that no fire precedes. *)
Lemma skip_to t t' :
  searching t -> (year_of (dt_day t) <= limit)%Z ->
  (dt_day t = dt_day t' /\ dt_ms t < dt_ms t'
   \/ dt_day t < dt_day t' /\ month_index (dt_day t') <= month_index (dt_day t) + 1)%Z ->
  (dt_day t' <= cal_max)%Z -> (0 <= dt_ms t' < DAY_MS)%Z -> (dt_ms t' mod MINUTE_MS = 0)%Z ->
  (forall u, (timestamp_millis t <= u < timestamp_millis t')%Z -> ~ fires s u) ->
  searching t' /\ (0 <= remaining t' < remaining t)%Z.
Proof.
  intros [H1 H2 H3 H4 H5 H6] Hy Hlt Hmax Hms Hmin Hno.
  assert (dt_day t <= dt_day t')%Z by lia.
  destruct (key_le (dt_day t) (dt_day t')) as [Hkey _]; [lia..|].
  pose proof (cal_months (dt_day t) H1). pose proof (cal_days (dt_day t')).
  assert (month_index (dt_day t') <= limit * 12 + 13)%Z as Hlim.
  { destruct Hlt as [[<- _]|[_ Hlt]]; [done|]. unfold month_index in Hlt at 2. lia. }
  assert (timestamp_millis t < timestamp_millis t')%Z as Htt by (unfold timestamp_millis; ms).
  split; [split; try done; try lia|].
  - intros u Hu. destruct (Z.lt_ge_cases u (timestamp_millis t)); [apply H5|apply Hno]; lia.
  - assert (day_key (dt_day t') <= (limit * 12 + 13) * 32 + 31)%Z by (unfold day_key; lia).
    unfold remaining. destruct Hlt as [[E Hlt]|[Hlt _]]; [rewrite <- E in *|]; ms.
Qed.

(** A minute no later than another is on a day no later, in a year no later. *)
Lemma later_year t u : (cal_min <= dt_day t)%Z -> (0 <= dt_ms t < DAY_MS)%Z ->
  (timestamp_millis t <= u)%Z -> (u / DAY_MS <= cal_max)%Z ->
  (dt_day t <= u / DAY_MS)%Z /\ (year_of (dt_day t) <= year_of (u / DAY_MS))%Z.
Proof.
  intros H1 H2 H3 H4. assert (dt_day t <= u / DAY_MS)%Z as Hd by (unfold timestamp_millis in *; ms).
  split; [done|]. destruct (key_le (dt_day t) (u / DAY_MS)) as [_ Hm]; [done..|].
  pose proof (cal_months (dt_day t)). pose proof (cal_months (u / DAY_MS)). unfold month_index in Hm. lia.
Qed.

(** The hour or the minute [t] is in does not match. *)
Lemma plus_ok t b d :
  searching t -> (year_of (dt_day t) <= limit)%Z ->
  dt_day b = dt_day t -> (0 <= dt_ms b <= dt_ms t)%Z -> (dt_ms t < dt_ms b + d <= DAY_MS)%Z ->
  ((dt_ms b + d) mod MINUTE_MS = 0)%Z ->
  (forall u, (timestamp_millis t <= u < timestamp_millis b + d)%Z -> ~ fires s u) ->
  match add_ms b d with
  | Some t' => searching t' /\ (0 <= remaining t' < remaining t)%Z
  | None => search_result (Err AddOverflow)
  end.
Proof.
  intros Ht Hy Eb Hb Hd Hmin Hno. pose proof Ht as [H1 H2 H3 H4 H5 H6]. unfold add_ms, from_timestamp_millis.
  set (v := (timestamp_millis b + d)%Z) in *.
  assert ((v / DAY_MS = dt_day t /\ v mod DAY_MS = dt_ms b + d
    \/ v / DAY_MS = dt_day t + 1 /\ v mod DAY_MS = 0 /\ dt_ms b + d = DAY_MS)%Z) as Hv.
  { unfold v, timestamp_millis. rewrite Eb. ms. }
  assert (v = v / DAY_MS * DAY_MS + v mod DAY_MS)%Z as Ev by ms.
  destruct (day_in_range (v / DAY_MS)) eqn:Er.
  - apply day_in_range_spec in Er. pose proof (succ_key (dt_day t)).
    apply skip_to; unfold timestamp_millis; cbn [dt_day dt_ms]; rewrite <- ?Ev; try done.
    + destruct Hv as [[Ea Eb2]|(Ea & Eb2 & E)]; rewrite Ea, ?Eb2 in *; [left|right]; lia.
    + lia.
    + ms.
    + destruct Hv as [[_ ->]|(_ & -> & _)]; [done|reflexivity].
  - apply not_true_iff_false in Er. rewrite day_in_range_spec in Er. cbn. intros u Hu Hf.
    destruct (Z.lt_ge_cases u (timestamp_millis t)); [by apply (H5 u)|].
    apply (Hno u); [|done]. split; [done|]. destruct Hf as (_ & Hr & _). apply day_in_range_spec in Hr. ms.
Qed.

Lemma search_step_ok t :
  searching t ->
  match search_step s limit t with
  | inl t' => searching t' /\ (0 <= remaining t' < remaining t)%Z
  | inr r => search_result r
  end.
Proof.
  intros Ht. pose proof Ht as [H1 H2 H3 H4 H5 H6]. destruct (timestamp_day t H2) as [Et1 Et2].
  (* No fire from [t] on is no fire after [after]. *)
  assert (forall (P : Z -> Prop), (forall u, (timestamp_millis t <= u)%Z -> fires s u -> P u) ->
    forall u, (after < u)%Z -> fires s u -> P u) as Hfrom.
  { intros P HP u Hu Hf. destruct (Z.lt_ge_cases u (timestamp_millis t)); [by destruct (H5 u)|by apply HP]. }
  unfold search_step. destruct (Z.leb_spec (year_of (dt_day t)) limit) as [Hy|Hy]; cbn [negb].
  2:{ cbn. apply Hfrom. intros u Hu (_ & Hr & _). apply day_in_range_spec in Hr.
      destruct (later_year t u); [lia..|]. lia. }
  destruct (month_matches s (month_of (dt_day t))) eqn:Em; cbn [negb].
  2:{ pose proof (first_of_next_month_spec t H1) as Hf. destruct (first_of_next_month t) as [t'|].
      - destruct Hf as (E0 & Hlt & Hi & Hsame). apply skip_to; rewrite ?E0; try done; try lia.
        intros u Hu (_ & _ & Hm & _). rewrite Hsame in Hm; [congruence|].
        unfold timestamp_millis in *. ms.
      - cbn. apply Hfrom. intros u Hu (_ & Hr & Hm & _). apply day_in_range_spec in Hr.
        destruct (later_year t u); [lia..|]. rewrite Hf in Hm by lia. congruence. }
  destruct (day_matches s (dt_day t)) eqn:Ed; cbn [negb].
  2:{ unfold next_day. destruct (day_in_range (dt_day t + 1)) eqn:Er.
      - apply day_in_range_spec in Er. pose proof (succ_key (dt_day t)).
        apply skip_to; cbn [dt_day dt_ms]; try done; try lia.
        intros u Hu (_ & _ & _ & Hd & _). replace (u / DAY_MS)%Z with (dt_day t) in Hd; [congruence|].
        unfold timestamp_millis in Hu. cbn [dt_day dt_ms] in Hu. ms.
      - cbn. apply Hfrom. intros u Hu (_ & Hr & _ & Hd & _). apply day_in_range_spec in Hr.
        apply not_true_iff_false in Er. rewrite day_in_range_spec in Er.
        destruct (later_year t u); [lia..|]. replace (u / DAY_MS)%Z with (dt_day t) in Hd by lia. congruence. }
  destruct (has_bit (sc_hours s) (Z.to_N (hour_of t))) eqn:Eh; cbn [negb].
  2:{ pose proof (plus_ok t (with_minute_0 t) HOUR_MS Ht Hy eq_refl) as Hp.
      assert (with_minute_0 t = mkDateTime (dt_day t) (dt_ms t - dt_ms t mod HOUR_MS)) as Eb by done.
      destruct (add_ms (with_minute_0 t) HOUR_MS); apply Hp; rewrite ?Eb; cbn [dt_ms];
        try solve [ms]; (intros u Hu (_ & _ & _ & _ & Hh & _);
        replace (u mod DAY_MS / HOUR_MS)%Z with (hour_of t) in Hh; [congruence|];
        unfold timestamp_millis in Hu; cbn [dt_day dt_ms] in Hu; unfold hour_of; ms). }
  destruct (has_bit (sc_minutes s) (Z.to_N (minute_of t))) eqn:En; cbn [negb].
  2:{ pose proof (plus_ok t t MINUTE_MS Ht Hy eq_refl) as Hp.
      destruct (add_ms t MINUTE_MS); apply Hp; try solve [ms];
        (intros u Hu (Hu0 & _ & _ & _ & _ & Hn);
        replace (u mod HOUR_MS / MINUTE_MS)%Z with (minute_of t) in Hn; [congruence|];
        unfold timestamp_millis in Hu; unfold minute_of; ms). }
  cbn. split; [done|]. split; [|done]. unfold fires. rewrite Et1, Et2.
  split_and!; try done; [unfold timestamp_millis; ms|by apply day_in_range_spec|].
  unfold minute_of in En. replace (timestamp_millis t mod HOUR_MS)%Z with (dt_ms t mod HOUR_MS)%Z; [done|].
  unfold timestamp_millis. ms.
Qed.
End OneSearch.

(** The next fire is the least one. Whatever the schedule's bit sets and
    the time, [next_after] ends within its bound; a time it gives is strictly
    later, a whole minute that every field matches, and no matching minute
    lies between; when it gives none the time is outside the calendar, or no
    minute matches for [SEARCH_YEARS] years past the year of the next minute;
    it panics only where no minute matches up to the calendar's end. *)
Theorem next_after_least s after :
  match next_after s after with
  | Ok (Some t) => (after < t)%Z /\ fires s t /\ forall u, (after < u < t)%Z -> ~ fires s u
  | Ok None => day_in_range (after / DAY_MS) = false
      \/ forall u, (after < u)%Z -> fires s u ->
           (year_of ((after - after mod MINUTE_MS + MINUTE_MS) / DAY_MS) + SEARCH_YEARS < year_of (u / DAY_MS))%Z
  | Err AddOverflow => forall u, (after < u)%Z -> ~ fires s u
  | Err OutOfFuel => False
  end.
Proof.
  unfold next_after, from_timestamp_millis at 1. destruct (day_in_range (after / DAY_MS)) eqn:Er; [|by left].
  apply day_in_range_spec in Er. set (first := (after - after mod MINUTE_MS + MINUTE_MS)%Z).
  replace (add_ms _ _) with (from_timestamp_millis first).
  2:{ unfold add_ms, with_second_0, timestamp_millis, first. cbn [dt_day dt_ms]. f_equal. ms. }
  assert (forall u, (after < u < first)%Z -> ~ fires s u) as Hno.
  { intros u Hu (H & _). unfold first in Hu. ms. }
  unfold from_timestamp_millis. destruct (day_in_range (first / DAY_MS)) eqn:Ef; cycle 1.
  { intros u Hu Hf. destruct (Z.lt_ge_cases u first); [by apply (Hno u)|].
    destruct Hf as (_ & Hr & _). apply day_in_range_spec in Hr.
    apply not_true_iff_false in Ef. rewrite day_in_range_spec in Ef. unfold first in *. ms. }
  apply day_in_range_spec in Ef. set (t0 := mkDateTime _ _). set (limit := (year_of (dt_day t0) + SEARCH_YEARS)%Z).
  assert (timestamp_millis t0 = first) as Et0 by (unfold timestamp_millis; cbn; ms).
  pose proof (cal_months (dt_day t0) Ef) as Hm. pose proof (cal_days (dt_day t0) Ef) as Hd.
  destruct (loop_leaves (search_step s limit) (searching s after limit) (search_result s after limit)
    (remaining limit) 22 t0) as (r & -> & Hr).
  - apply search_step_ok.
  - split; rewrite ?Et0; try done; cbn [dt_ms t0]; try solve [unfold first; ms].
    unfold month_index, limit, SEARCH_YEARS. lia.
  - change (2 ^ Z.of_nat 22)%Z with 4194304%Z.
    unfold remaining, day_key, month_index, limit, SEARCH_YEARS. cbn [dt_ms t0]. ms.
  - destruct r as [[t|]|[]]; [exact Hr|right; exact Hr|exact Hr|destruct Hr].
Qed.
End Search.

(** ** The five-minute floor *)

Lemma has_bit_filter_spec (p : N -> bool) l x : x ∈ List.filter p l <-> x ∈ l /\ p x = true.
Proof. rewrite !list_elem_of_In. apply filter_In. Qed.

Lemma elem_of_range_n n x : x ∈ range_n n <-> (x < N.of_nat n)%N.
Proof.
  unfold range_n. rewrite list_elem_of_fmap. split.
  - intros (y & -> & Hy). apply elem_of_seq in Hy. lia.
  - intros Hx. exists (N.to_nat x). rewrite N2Nat.id. split; [done|]. apply elem_of_seq. lia.
Qed.

Ltac nz := zify; Z.to_euclidean_division_equations; lia.

Lemma divmod_60 h m : (m < 60)%N -> ((h * 60 + m) / 60 = h /\ (h * 60 + m) mod 60 = m)%N.
Proof. intros H. nz. Qed.

Lemma elem_of_day_fires s m :
  m ∈ day_fires s <-> (m < 1440)%N /\ has_bit (sc_hours s) (m / 60) = true /\ has_bit (sc_minutes s) (m mod 60) = true.
Proof.
  unfold day_fires. rewrite list_elem_of_bind. setoid_rewrite list_elem_of_fmap.
  setoid_rewrite has_bit_filter_spec. setoid_rewrite elem_of_range_n.
  change (N.of_nat 60) with 60%N. change (N.of_nat 24) with 24%N. split.
  - intros (h & (m' & -> & Hm & Em) & Hh & Eh). destruct (divmod_60 h m' Hm) as [-> ->].
    split_and!; [lia|done..].
  - intros (Hm & Eh & Em). exists (m / 60)%N. split; [|split; [nz|done]].
    exists (m mod 60)%N. split; [nz|]. split; [nz|done].
Qed.

Lemma filter_sorted (p : N -> bool) l : StronglySorted N.lt l -> StronglySorted N.lt (List.filter p l).
Proof.
  induction 1 as [|x l Hl IH Hx]; cbn; [constructor|]. destruct (p x); [|done]. constructor; [done|].
  apply Forall_forall. intros y [Hy _]%has_bit_filter_spec. by eapply Forall_forall in Hx.
Qed.
Lemma range_60_sorted : StronglySorted N.lt (range_n 60).
Proof. apply (bool_decide_unpack _). by vm_compute. Qed.
Lemma range_24_sorted : StronglySorted N.lt (range_n 24).
Proof. apply (bool_decide_unpack _). by vm_compute. Qed.

(** The day's fires ascend. *)
Lemma day_fires_sorted s : StronglySorted N.lt (day_fires s).
Proof.
  unfold day_fires. set (ms := List.filter _ (range_n 60)).
  assert (StronglySorted N.lt ms) as Hm by apply filter_sorted, range_60_sorted.
  assert (forall m, m ∈ ms -> (m < 60)%N) as H60.
  { intros m [H _]%has_bit_filter_spec. by apply elem_of_range_n in H. }
  pose proof (filter_sorted (has_bit (sc_hours s)) _ range_24_sorted) as Hh. clearbody ms.
  induction Hh as [|h l Hl IH Hx]; cbn; [constructor|]. apply StronglySorted_app_2; [| |done].
  - intros x1 x2 (m1 & -> & H1)%list_elem_of_fmap (h2 & (m2 & -> & H2)%list_elem_of_fmap & Hh2)%list_elem_of_bind.
    eapply Forall_forall in Hx; [|exact Hh2]. apply H60 in H1. lia.
  - clear -Hm. induction Hm as [|m l Hl IH Hx]; cbn; constructor; [done|].
    apply Forall_forall. intros y (m' & -> & Hm')%list_elem_of_fmap. eapply Forall_forall in Hx; [|done]. lia.
Qed.

Lemma foldr_min_le d l : (foldr N.min d l <= d)%N /\ forall x, x ∈ l -> (foldr N.min d l <= x)%N.
Proof.
  induction l as [|y l [IH1 IH2]]; cbn; [split; [lia|by intros ? ?%not_elem_of_nil]|].
  split; [lia|]. intros x [->|Hx%IH2]%elem_of_cons; lia.
Qed.

(** Two values of an ascending list are no closer than some neighbours. *)
Lemma windows_least l a b : StronglySorted N.lt l -> a ∈ l -> b ∈ l -> (a < b)%N ->
  exists w, w ∈ windows l /\ (w <= b - a)%N.
Proof.
  intros Hl. revert a b. induction Hl as [|x l Hl IH Hx]; intros a b; [by intros ?%not_elem_of_nil|].
  rewrite Forall_forall in Hx. intros Ha Hb Hab. destruct l as [|y l].
  { apply list_elem_of_singleton in Ha, Hb. lia. }
  change (windows (x :: y :: l)) with ((y - x)%N :: windows (y :: l)).
  apply elem_of_cons in Ha as [->|Ha].
  - apply elem_of_cons in Hb as [->|Hb]; [lia|]. exists (y - x)%N. split; [left|].
    apply elem_of_cons in Hb as [->|Hb]; [lia|]. inversion Hl as [|? ? _ Hy]; subst.
    eapply Forall_forall in Hy; [|exact Hb]. lia.
  - apply elem_of_cons in Hb as [->|Hb]; [specialize (Hx a Ha); lia|].
    destruct (IH a b Ha Hb Hab) as (w & Hw & ?). exists w. split; [by right|done].
Qed.

Lemma sorted_ends l x : StronglySorted N.lt l -> x ∈ l ->
  exists first last_, head l = Some first /\ last l = Some last_ /\ (first <= x <= last_)%N.
Proof.
  intros Hs. revert x. induction Hs as [|y l Hl IH Hy]; intros x; [by intros ?%not_elem_of_nil|].
  rewrite Forall_forall in Hy. intros Hx. destruct l as [|z l].
  - apply list_elem_of_singleton in Hx as ->. exists y, y. cbn. split_and!; try done; lia.
  - assert (y < z)%N by (apply Hy; left). destruct (decide (x = y)) as [->|Hn].
    + destruct (IH z) as (f & la & [= <-] & El & ?); [left|]. exists y, la. rewrite last_cons_cons.
      split_and!; try done; lia.
    + apply elem_of_cons in Hx as [?|Hx]; [done|]. destruct (IH x) as (f & la & [= <-] & El & ?); [done|].
      exists y, la. rewrite last_cons_cons. split_and!; try done; lia.
Qed.

Lemma min_gap_le s a b : a ∈ day_fires s -> b ∈ day_fires s ->
  ((a < b)%N -> (min_gap_minutes s <= b - a)%N) /\ (min_gap_minutes s <= b + 1440 - a)%N.
Proof.
  intros Ha Hb. pose proof (day_fires_sorted s) as Hs.
  destruct (sorted_ends _ a Hs Ha) as (f & la & Ef & El & Hfa).
  destruct (sorted_ends _ b Hs Hb) as (f' & la' & Ef' & El' & Hfb). simplify_eq.
  unfold min_gap_minutes. rewrite Ef, El.
  destruct (foldr_min_le (f + 24 * 60 - la) (windows (day_fires s))) as [H1 H2]. split; [|lia].
  intros Hab. destruct (windows_least _ a b Hs Ha Hb Hab) as (w & Hw & ?). specialize (H2 w Hw). lia.
Qed.

Lemma fires_minute `{Calendar} s t :
  fires s t -> exists m, m ∈ day_fires s /\ t = (t / DAY_MS * DAY_MS + Z.of_N m * MINUTE_MS)%Z.
Proof.
  intros (H1 & _ & _ & _ & Hh & Hm). exists (Z.to_N (t mod DAY_MS / MINUTE_MS)). split; [|ms].
  rewrite elem_of_day_fires. split_and!; [ms|..].
  - replace (Z.to_N (t mod DAY_MS / MINUTE_MS) / 60)%N with (Z.to_N (t mod DAY_MS / HOUR_MS)); [done|unfold DAY_MS, HOUR_MS, MINUTE_MS in *; nz].
  - replace (Z.to_N (t mod DAY_MS / MINUTE_MS) mod 60)%N with (Z.to_N (t mod HOUR_MS / MINUTE_MS)); [done|unfold DAY_MS, HOUR_MS, MINUTE_MS in *; nz].
Qed.

(** A schedule that parses never fires twice within five minutes, whatever
    the calendar, across hours and across midnight. *)
Theorem parsed_fires_apart `{Calendar} expr s t u :
  parse expr = Ok s -> fires s t -> fires s u -> (t < u)%Z ->
  (t + Z.of_N MIN_INTERVAL_MINUTES * MINUTE_MS <= u)%Z.
Proof.
  unfold parse. destruct (parse_fields expr) as [s'|]; [|done]. cbn.
  destruct (N.ltb_spec (min_gap_minutes s') MIN_INTERVAL_MINUTES) as [|Hg]; [done|]. intros [= ->].
  intros (a & Ha & Et)%fires_minute (b & Hb & Eu)%fires_minute Htu.
  destruct (min_gap_le s a b Ha Hb) as [G1 G2]. unfold MIN_INTERVAL_MINUTES in *.
  apply elem_of_day_fires in Ha as [Ha _], Hb as [Hb _].
  destruct (Z.lt_trichotomy (t / DAY_MS) (u / DAY_MS)) as [Hd|[Hd|Hd]].
  - rewrite Et, Eu. unfold DAY_MS, MINUTE_MS in *. lia.
  - rewrite Hd in Et. assert (a < b)%N by (unfold MINUTE_MS in *; lia). specialize (G1 ltac:(done)).
    unfold MINUTE_MS in *. lia.
  - ms.
Qed.

(** ** The Gregorian calendar

    A concrete instance, for the witnesses: eras of 400 years, each year
    counted from March so that a leap day comes last. *)

Definition year_start (y : Z) : Z := (365 * y + y / 4 - y / 100 + y / 400)%Z.
Definition era_year (doe : Z) : Z :=
  let g := (doe / 366)%Z in if (year_start (g + 1) <=? doe)%Z then (g + 1)%Z else g.
Definition month_day (doy : Z) : Z * Z :=
  let mp := ((5 * doy + 2) / 153)%Z in
  (if (mp <? 10)%Z then mp + 3 else mp - 9, doy - (153 * mp + 2) / 5 + 1)%Z.
Definition gregorian_ymd (n : Z) : Z * Z * Z :=
  let era := ((n + 719468) / 146097)%Z in
  let doe := ((n + 719468) mod 146097)%Z in
  let y := era_year doe in
  let '(m, d) := month_day (doe - year_start y)%Z in
  ((if (m <=? 2)%Z then era * 400 + y + 1 else era * 400 + y)%Z, m, d).
Definition gregorian_day (y m d : Z) : Z :=
  let y := (if (m <=? 2)%Z then y - 1 else y)%Z in
  let mp := (if (m <=? 2)%Z then m + 9 else m - 3)%Z in
  let yoe := (y mod 400)%Z in
  (y / 400 * 146097 + year_start yoe + ((153 * mp + 2) / 5 + d - 1) - 719468)%Z.

#[export] Instance gregorian : Calendar := {|
  cal_min := gregorian_day (-262143) 1 1; cal_max := gregorian_day 262142 12 31;
  cal_ymd := gregorian_ymd; cal_weekday n := ((n + 4) mod 7)%Z;
  cal_from_ymd y m d :=
    let n := gregorian_day y m d in
    if ((gregorian_day (-262143) 1 1 <=? n) && (n <=? gregorian_day 262142 12 31))%Z
       && bool_decide (gregorian_ymd n = (y, m, d))
    then Some n else None |}.

(** The days of one year: [month_day] counts up, month by month, and
    determines the day of the year. *)
Definition month_day_ok (doy : Z) : bool :=
  let '(m, d) := month_day doy in let '(m', d') := month_day (doy + 1) in
  let mp := (if m <=? 2 then m + 9 else m - 3)%Z in
  ((1 <=? m) && (m <=? 12) && (1 <=? d) && (d <=? 31) && ((153 * mp + 2) / 5 + d - 1 =? doy)
   && (((m' =? m) && (d' =? d + 1)) || ((m' =? (if m =? 12 then 1 else m + 1)) && (d' =? 1))
       || (365 <=? doy))
   && (negb (m <=? 2) || (m' <=? 2) || (365 <=? doy)))%Z.
Lemma month_day_checked : forallb (fun n => month_day_ok (Z.of_nat n)) (seq 0 366) = true.
Proof. vm_compute. reflexivity. Qed.
Lemma month_day_spec doy : (0 <= doy <= 365)%Z -> month_day_ok doy = true.
Proof.
  intros H. replace doy with (Z.of_nat (Z.to_nat doy)) by lia.
  pose proof month_day_checked as Hc. rewrite forallb_forall in Hc. apply Hc.
  apply in_seq. lia.
Qed.

Lemma year_start_mono y y' : (0 <= y <= y')%Z -> (year_start y <= year_start y')%Z.
Proof. unfold year_start. ms. Qed.
Lemma year_start_succ y : (0 <= y)%Z -> (year_start y + 365 <= year_start (y + 1) <= year_start y + 366)%Z.
Proof. unfold year_start. ms. Qed.

Lemma era_year_spec doe : (0 <= doe < 146097)%Z ->
  (0 <= era_year doe < 400)%Z /\ (year_start (era_year doe) <= doe < year_start (era_year doe + 1))%Z.
Proof.
  intros H. unfold era_year. cbv zeta. set (g := (doe / 366)%Z).
  assert (0 <= g <= 399 /\ 366 * g <= doe < 366 * g + 366)%Z as [Hg Hd] by (unfold g; ms). clearbody g.
  destruct (Z.leb_spec (year_start (g + 1)) doe); unfold year_start in *; ms.
Qed.

(** The date of a day given by its era, its year there and its day of that
    year. *)
Definition era_date (era y doy : Z) : Z * Z * Z :=
  let '(m, d) := month_day doy in ((if (m <=? 2)%Z then era * 400 + y + 1 else era * 400 + y)%Z, m, d).
Lemma gregorian_of era y doy :
  (0 <= y < 400)%Z -> (0 <= doy)%Z -> (year_start y + doy < year_start (y + 1))%Z ->
  gregorian_ymd (era * 146097 + year_start y + doy - 719468) = era_date era y doy.
Proof.
  intros Hy Hd Hlt. pose proof (year_start_mono (y + 1) 400) as Hb. change (year_start 400) with 146097%Z in Hb.
  assert (0 <= year_start y)%Z as H0 by (change 0%Z with (year_start 0); apply year_start_mono; lia).
  unfold gregorian_ymd. cbv zeta.
  replace ((era * 146097 + year_start y + doy - 719468 + 719468) / 146097)%Z with era by ms.
  replace ((era * 146097 + year_start y + doy - 719468 + 719468) mod 146097)%Z with (year_start y + doy)%Z by ms.
  destruct (era_year_spec (year_start y + doy)) as [H1 H2]; [lia|].
  assert (era_year (year_start y + doy) = y) as ->.
  { destruct (Z.lt_trichotomy (era_year (year_start y + doy)) y) as [Hl|[->|Hl]]; [|done|].
    - pose proof (year_start_mono (era_year (year_start y + doy) + 1) y). lia.
    - pose proof (year_start_mono (y + 1) (era_year (year_start y + doy))). lia. }
  replace (year_start y + doy - year_start y)%Z with doy by lia. reflexivity.
Qed.
Lemma gregorian_parts n : exists era y doy,
  (0 <= y < 400)%Z /\ (0 <= doy <= 365)%Z /\ (year_start y + doy < year_start (y + 1))%Z
  /\ n = (era * 146097 + year_start y + doy - 719468)%Z.
Proof.
  set (doe := ((n + 719468) mod 146097)%Z). assert (0 <= doe < 146097)%Z as Hd by (unfold doe; ms).
  destruct (era_year_spec doe Hd) as [H1 H2]. pose proof (year_start_succ (era_year doe)).
  exists ((n + 719468) / 146097)%Z, (era_year doe), (doe - year_start (era_year doe))%Z.
  split_and!; try lia. unfold doe. ms.
Qed.

Lemma month_day_cases doy : (0 <= doy <= 365)%Z ->
  exists m d, month_day doy = (m, d) /\ (1 <= m <= 12)%Z /\ (1 <= d <= 31)%Z
    /\ ((153 * (if m <=? 2 then m + 9 else m - 3) + 2) / 5 + d - 1 = doy)%Z
    /\ (doy < 365 -> month_day (doy + 1) = (m, d + 1) \/
         month_day (doy + 1) = (if m =? 12 then 1 else m + 1, 1) /\ m <> 2)%Z.
Proof.
  intros H. pose proof (month_day_spec doy H) as Hc. unfold month_day_ok in Hc.
  destruct (month_day doy) as [m d], (month_day (doy + 1)) as [m' d'] eqn:E. exists m, d.
  rewrite !andb_true_iff, !orb_true_iff, !andb_true_iff in Hc. split; [done|]. split; [lia|]. split; [lia|].
  split; [destruct (m <=? 2)%Z; lia|]. intros Hlt.
  destruct Hc as [[_ [[Hs|Hs]|Hs]] Hc]; [|..]; [left|right|lia].
  - f_equal; lia.
  - destruct (Z.eqb_spec m 12); (split; [f_equal; lia|]); lia.
Qed.

#[export] Instance gregorian_laws : CalendarLaws gregorian.
Proof.
  split.
  - intros y m d n. cbn [cal_from_ymd cal_min cal_max cal_ymd gregorian]. cbv zeta. split.
    + destruct (_ && _) eqn:E; [|done]. intros [= <-]. rewrite !andb_true_iff in E.
      destruct E as [[E1 E2] E3%bool_decide_eq_true]. split; [lia|done].
    + intros [Hr E]. enough (gregorian_day y m d = n) as ->.
      { rewrite bool_decide_eq_true_2 by done. by rewrite (proj2 (Z.leb_le _ _) (proj1 Hr)), (proj2 (Z.leb_le _ _) (proj2 Hr)). }
      destruct (gregorian_parts n) as (era & y' & doy & Hy & Hd & Hlt & ->).
      rewrite gregorian_of in E by (done || lia). unfold era_date in E.
      destruct (month_day_cases doy Hd) as (m' & d' & E' & Hm & _ & Hdoy & _). rewrite E' in E.
      injection E as <- <- <-. unfold gregorian_day. cbv zeta.
      destruct (m' <=? 2)%Z; [replace (era * 400 + y' + 1 - 1)%Z with (era * 400 + y')%Z by lia|];
      (replace ((era * 400 + y') / 400)%Z with era by ms);
      (replace ((era * 400 + y') mod 400)%Z with y' by ms); lia.
  - intros n _. unfold month_of. cbn [cal_ymd gregorian].
    destruct (gregorian_parts n) as (era & y & doy & Hy & Hd & Hlt & ->). rewrite gregorian_of by (done || lia).
    unfold era_date. destruct (month_day_cases doy Hd) as (m & d & -> & Hm & _). done.
  - intros n _. unfold day_of. cbn [cal_ymd gregorian].
    destruct (gregorian_parts n) as (era & y & doy & Hy & Hd & Hlt & ->). rewrite gregorian_of by (done || lia).
    unfold era_date. destruct (month_day_cases doy Hd) as (m & d & -> & _ & Hm & _). done.
  - intros n _. unfold year_of, month_of, day_of. cbn [cal_ymd gregorian].
    destruct (gregorian_parts n) as (era & y & doy & Hy & Hd & Hlt & ->). rewrite gregorian_of by (done || lia).
    unfold era_date. destruct (month_day_cases doy Hd) as (m & d & -> & Hm & Hdr & Hdoy & Hs).
    cbn [fst snd]. destruct (Z.lt_ge_cases (year_start y + doy + 1) (year_start (y + 1))) as [Hn|Hn].
    + pose proof (year_start_succ y). replace (era * 146097 + year_start y + doy - 719468 + 1)%Z
        with (era * 146097 + year_start y + (doy + 1) - 719468)%Z by lia.
      rewrite gregorian_of by lia. unfold era_date.
      destruct Hs as [->|[-> Hm2]]; [lia|by left|right].
      destruct (Z.eqb_spec m 12) as [->|H12]; [done|].
      destruct (Z.leb_spec m 2), (Z.leb_spec (m + 1) 2); try done; lia.
    + right. pose proof (year_start_succ y) as Hsu.
      assert (doy = 364 \/ doy = 365)%Z as Hlast by lia.
      assert (m = 2)%Z as -> by (revert Hdoy; destruct (Z.leb_spec m 2); ms).
      cbn [Z.leb Z.eqb Z.compare Pos.compare Pos.compare_cont Pos.eqb].
      destruct (decide (y = 399)%Z) as [->|Hy9].
      * replace (era * 146097 + year_start 399 + doy - 719468 + 1)%Z
          with ((era + 1) * 146097 + year_start 0 + 0 - 719468)%Z
          by (change (year_start (399 + 1)) with 146097%Z in *; change (year_start 0) with 0%Z; lia).
        rewrite gregorian_of by (vm_compute; intuition congruence). unfold era_date. change (month_day 0) with (3, 1)%Z. cbn. f_equal. f_equal. lia.
      * replace (era * 146097 + year_start y + doy - 719468 + 1)%Z
          with (era * 146097 + year_start (y + 1) + 0 - 719468)%Z by lia.
        pose proof (year_start_succ (y + 1)). rewrite gregorian_of by lia. unfold era_date. change (month_day 0) with (3, 1)%Z. cbn. f_equal. f_equal. lia.
Qed.

(** ** Concrete schedules *)

(** Unix milliseconds of a UTC time. *)
Definition at_utc (y m d h mi : Z) : Z := (gregorian_day y m d * DAY_MS + h * HOUR_MS + mi * MINUTE_MS)%Z.

Definition leap_day : Schedule := mkSchedule 1 1 (2 ^ 29) (2 ^ 2) 127 false true.

Lemma next_after_least_witness :
  parse "0 0 29 2 *" = Ok leap_day
  /\ next_after leap_day (at_utc 2026 11 3 10 7) = Ok (Some (at_utc 2028 2 29 0 0))
  /\ (forall u, (at_utc 2026 11 3 10 7 < u < at_utc 2028 2 29 0 0)%Z -> ~ fires leap_day u).
Proof.
  assert (next_after leap_day (at_utc 2026 11 3 10 7) = Ok (Some (at_utc 2028 2 29 0 0))) as E
    by (vm_compute; reflexivity).
  split; [vm_compute; reflexivity|]. split; [exact E|].
  pose proof (next_after_least leap_day (at_utc 2026 11 3 10 7)) as H. rewrite E in H. apply H.
Defined.

(** Five fields, lists, ranges, steps, names, the macros, and what is refused. *)
Lemma parsed_fires_apart_witness :
  let s := mkSchedule (2 ^ 5 + 2 ^ 10) (wrap_u 32 (2 ^ 18 - 2 ^ 9)) (2 ^ 32 - 2) (2 ^ 13 - 2) (2 ^ 6 - 2) true false in
  parse "5,10 9-17 * * mon-fri" = Ok s
  /\ is_ok (parse "2,58 0,23 * * *") = false /\ is_ok (parse "*/2 * * * *") = false
  /\ fires s (at_utc 2026 11 3 9 5) /\ fires s (at_utc 2026 11 3 9 10)
  /\ (at_utc 2026 11 3 9 5 + 5 * MINUTE_MS <= at_utc 2026 11 3 9 10)%Z.
Proof.
  cbn zeta. set (s := mkSchedule _ _ _ _ _ _ _).
  assert (parse "5,10 9-17 * * mon-fri" = Ok s) as Hp by (vm_compute; reflexivity).
  assert (fires s (at_utc 2026 11 3 9 5)) as H1 by (repeat split; vm_compute; reflexivity).
  assert (fires s (at_utc 2026 11 3 9 10)) as H2 by (repeat split; vm_compute; reflexivity).
  do 2 (split; [first [exact Hp|vm_compute; reflexivity]|]). split; [vm_compute; reflexivity|].
  split; [exact H1|]. split; [exact H2|].
  apply (parsed_fires_apart "5,10 9-17 * * mon-fri" s); [exact Hp|exact H1|exact H2|vm_compute; reflexivity].
Defined.

(** The search's five years miss the leap days of a century year's turn, and a
    leap day on a given weekday: a schedule parsed earlier stops firing in
    2096 though 2104-02-29 is one of its days, and one whose first day since
    1970 is 1976-02-29 is refused as naming no date that exists. *)
Lemma leap_days_missed :
  next_after leap_day (at_utc 2096 3 1 0 0) = Ok None /\ fires leap_day (at_utc 2104 2 29 0 0)
  /\ parse "0 0 29 2 */3" = Err "`0 0 29 2 */3` names no date that exists, so it never fires"
  /\ fires (mkSchedule 1 1 (2 ^ 29) (2 ^ 2) (2 ^ 0 + 2 ^ 3 + 2 ^ 6) false true) (at_utc 1976 2 29 0 0).
Proof. repeat split; vm_compute; reflexivity. Qed.
