(* ===== verification/Values.v ===== *)
(** * JSON values as the pipeline crate handles them

    A [BTreeMap<String, T>] and a [serde_json::Map] are a [gmap] read in key
    order; [Value]'s [Display] is its compact JSON. *)

From S2P Require Import Prelude Text.

(** ** Maps in key order *)

(** [map.iter()]. *)
Definition btree_list {A} (m : gmap string A) : list (string * A) :=
  omap (fun k => pair k <$> m !! k) (merge_sort str_le (elements (dom m))).
Definition json_object (m : gmap string Json) : Json := JObj (btree_list m).
(** [Value::as_object]. *)
Definition json_as_object (v : Json) : option (list (string * Json)) :=
  match v with JObj m => Some m | _ => None end.

(** [serde_json::Map::insert]: insertion into an object kept as an ordered list of fields. *)
Definition object_insert (m : list (string * Json)) (k : string) (v : Json) : list (string * Json) :=
  btree_list (<[k := v]> (list_to_map m)).

(** ** Compact JSON *)

Definition hex_char (n : N) : ascii := ascii_of_N (if (n <? 10)%N then 48 + n else 87 + n).
(** One byte of a JSON string literal: serde_json escapes the quote, the
    backslash and the control characters. *)
Definition json_escape (c : ascii) : string :=
  let n := byte_of c in
  if (n =? 34)%N then String (ascii_of_N 92) (String (ascii_of_N 34) "")
  else if (n =? 92)%N then String (ascii_of_N 92) (String (ascii_of_N 92) "")
  else if (n =? 8)%N then String (ascii_of_N 92) "b"
  else if (n =? 9)%N then String (ascii_of_N 92) "t"
  else if (n =? 10)%N then String (ascii_of_N 92) "n"
  else if (n =? 12)%N then String (ascii_of_N 92) "f"
  else if (n =? 13)%N then String (ascii_of_N 92) "r"
  else if (n <? 32)%N
       then String (ascii_of_N 92) ("u00" +:+ String (hex_char (n / 16)) (String (hex_char (n mod 16)) ""))
  else String c "".
Fixpoint json_string_body (s : string) : string :=
  match s with EmptyString => "" | String c s' => json_escape c +:+ json_string_body s' end.
Definition quote : string := String (ascii_of_N 34) "".
Definition json_string (s : string) : string := quote +:+ json_string_body s +:+ quote.

(** [Value::to_string]. *)
Fixpoint json_text (v : Json) : string :=
  match v with
  | JNull => "null"
  | JBool b => if b then "true" else "false"
  | JInt z => pretty z
  | JFloat t => t
  | JStr s => json_string s
  | JArr l => "[" +:+ join "," (map json_text l) +:+ "]"
  | JObj m => "{" +:+ join "," (map (fun p => json_string p.1 +:+ ":" +:+ json_text p.2) m) +:+ "}"
  end.

(** A value as text: a string verbatim, anything else its compact JSON. *)
Definition text_of (v : Json) : string := match v with JStr s => s | _ => json_text v end.

(** ** Lemmas *)

Lemma btree_list_keys {A} (m : gmap string A) : (btree_list m).*1 = merge_sort str_le (elements (dom m)).
Proof.
  unfold btree_list. assert (forall l, (forall k, k ∈ l -> k ∈ dom m) ->
    (omap (fun k => pair k <$> m !! k) l).*1 = l) as H.
  { induction l as [|k l IH]; intros Hl; [done|]. cbn.
    destruct (m !! k) eqn:E; [|exfalso; apply (not_elem_of_dom m k); [done|apply Hl; left]].
    cbn. f_equal. apply IH. intros x Hx. apply Hl. by right. }
  apply H. intros k Hk. rewrite merge_sort_Permutation in Hk. by apply elem_of_elements in Hk.
Qed.

Lemma elem_of_btree_list {A} (m : gmap string A) k v : (k, v) ∈ btree_list m <-> m !! k = Some v.
Proof.
  unfold btree_list. rewrite list_elem_of_omap. split.
  - intros (x & _ & H). destruct (m !! x) eqn:E; [|done]. by injection H as <- <-.
  - intros H. exists k. rewrite H. split; [|done]. rewrite merge_sort_Permutation.
    apply elem_of_elements, elem_of_dom. by exists v.
Qed.

Lemma btree_list_nodup {A} (m : gmap string A) : NoDup (btree_list m).*1.
Proof. rewrite btree_list_keys, merge_sort_Permutation. apply NoDup_elements. Qed.

Lemma find_assoc {A} (l : list (string * A)) k :
  NoDup l.*1 -> forall v, (k, v) ∈ l -> snd <$> List.find (fun p => String.eqb p.1 k) l = Some v.
Proof.
  induction l as [|[k' v'] l IH]; cbn; intros Hn v Hv; [by apply not_elem_of_nil in Hv|].
  apply NoDup_cons in Hn as [Hk Hn]. apply elem_of_cons in Hv as [[= <- <-]|Hv].
  - by rewrite String.eqb_refl.
  - destruct (String.eqb_spec k' k) as [->|]; [|by apply IH].
    exfalso. apply Hk. apply list_elem_of_fmap. by exists (k, v).
Qed.

Lemma json_get_object (m : gmap string Json) k : json_get (json_object m) k = m !! k.
Proof.
  cbn. destruct (m !! k) as [v|] eqn:E.
  - apply find_assoc; [apply btree_list_nodup|]. by apply elem_of_btree_list.
  - destruct (List.find _ _) as [[k' v]|] eqn:F; [|done]. apply find_some in F as [F1 F2].
    apply String.eqb_eq in F2. cbn in F2. subst k'.
    apply list_elem_of_In, elem_of_btree_list in F1. congruence.
Qed.

Lemma json_get_list_to_map (m : list (string * Json)) k : json_get (JObj m) k = (list_to_map m : gmap string Json) !! k.
Proof.
  cbn. induction m as [|[k' v] m IH]; [done|]. cbn. destruct (String.eqb_spec k' k) as [->|]; [by rewrite lookup_insert_eq|].
  by rewrite lookup_insert_ne.
Qed.
Lemma json_get_insert m k v k' : json_get (JObj (object_insert m k v)) k' = if String.eqb k' k then Some v else json_get (JObj m) k'.
Proof.
  unfold object_insert. change (JObj (btree_list ?M)) with (json_object M). rewrite json_get_object, json_get_list_to_map.
  destruct (String.eqb_spec k' k) as [->|]; [by rewrite lookup_insert_eq|by rewrite lookup_insert_ne].
Qed.

(** ** Induction over JSON *)

Lemma json_induction (P : Json -> Prop) :
  P JNull -> (forall b, P (JBool b)) -> (forall z, P (JInt z)) -> (forall t, P (JFloat t)) -> (forall s, P (JStr s)) ->
  (forall l, (forall v, v ∈ l -> P v) -> P (JArr l)) ->
  (forall m, (forall k v, (k, v) ∈ m -> P v) -> P (JObj m)) -> forall v, P v.
Proof.
  intros Hn Hb Hz Hf Hs Ha Ho. fix IH 1. intros [|b|z|t|s|l|m]; [done|apply Hb|apply Hz|apply Hf|apply Hs| |].
  - apply Ha. induction l as [|v l IHl]; [intros v Hv; by destruct (not_elem_of_nil v)|].
    intros w Hw. apply elem_of_cons in Hw as [->|Hw]; [apply IH|by apply IHl].
  - apply Ho. induction m as [|[k v] m IHm]; [intros k v Hv; by destruct (not_elem_of_nil (k, v))|].
    intros k' w Hw. apply elem_of_cons in Hw as [[= -> ->]|Hw]; [apply IH|by eapply IHm].
Qed.

(** ** Reading and showing values *)

(** [Value::as_u64]. *)
Definition value_u64 (v : Json) : option N :=
  match v with
  | JInt z => if decide (0 <= z < 2^64)%Z then Some (Z.to_N z) else None
  | _ => None
  end.

(** Rust's Unicode tables, for the characters outside ASCII: how
    [escape_debug] shows one (given whether it is the first of its text), and
    its [to_uppercase]. *)
Class CharTables := {
  debug_char : bool -> string -> string;
  upper_char : string -> string;
}.

(** [str::escape_debug]. *)

Definition escape_ascii (c : ascii) : string :=
  let n := byte_of c in
  let back d := String (ascii_of_N 92) d in
  if (n =? 0)%N then back "0"
  else if (n =? 9)%N then back "t"
  else if (n =? 10)%N then back "n"
  else if (n =? 13)%N then back "r"
  else if ((n =? 34) || (n =? 39) || (n =? 92))%N then back (String c "")
  else if ((n <? 32) || (n =? 127))%N
       then back ("u{" +:+ (if (n <? 16)%N then String (hex_char n) ""
                            else String (hex_char (n / 16)) (String (hex_char (n mod 16)) "")) +:+ "}")
  else String c "".
Fixpoint escape_chars `{CharTables} (first : bool) (l : list string) : string :=
  match l with
  | [] => ""
  | ch :: l' => match ch with String c "" => escape_ascii c | _ => debug_char first ch end
                +:+ escape_chars false l'
  end.
Definition escape_debug `{CharTables} (s : string) : string := escape_chars true (chars s).

(** [str::to_uppercase]. *)
Definition to_uppercase `{CharTables} (s : string) : string :=
  concat_chars (map (fun ch => match ch with String c "" => String (upper_byte c) "" | _ => upper_char ch end) (chars s)).
