(* ===== verification/JsonText.v ===== *)
(** * Compact JSON is read one way

    Two JSON values printed by [json_text] and followed by the same kind of
    text are the same value: the printer's output can be cut in one place and
    decoded one way. This is what lets a digest of a body's text stand for
    the body. *)

From S2P Require Import Prelude Text Values.

(** ** Strings *)

Definition hex_value (c : ascii) : N := let n := byte_of c in (if n <? 58 then n - 48 else n - 87)%N.
(** One byte back from an escaped body. *)
Definition json_unescape (s : string) : option (ascii * string) :=
  match s with
  | String c r =>
      if (byte_of c =? 92)%N then
        match r with
        | String d r =>
            let n := byte_of d in
            if (n =? 98)%N then Some (ascii_of_N 8, r) else if (n =? 116)%N then Some (ascii_of_N 9, r)
            else if (n =? 110)%N then Some (ascii_of_N 10, r) else if (n =? 102)%N then Some (ascii_of_N 12, r)
            else if (n =? 114)%N then Some (ascii_of_N 13, r)
            else if (n =? 117)%N then
              match r with String _ (String _ (String h (String l r))) => Some (ascii_of_N (16 * hex_value h + hex_value l), r) | _ => None end
            else Some (d, r)
        | EmptyString => None
        end
      else Some (c, r)
  | EmptyString => None
  end.
Lemma json_unescape_escape c x : json_unescape (json_escape c +:+ x) = Some (c, x).
Proof. by destruct c as [[] [] [] [] [] [] [] []]. Qed.
Lemma json_escape_head c : exists d e, json_escape c = String d e /\ byte_of d <> 34%N.
Proof. destruct c as [[] [] [] [] [] [] [] []]; (eexists _, _; split; [reflexivity|by vm_compute]). Qed.
Lemma json_body_split s s' r r' :
  json_string_body s +:+ quote +:+ r = json_string_body s' +:+ quote +:+ r' -> s = s' /\ r = r'.
Proof.
  assert (forall c s r r', quote +:+ r <> json_string_body (String c s) +:+ r') as Hne.
  { intros c s0 r0 r0'. cbn [json_string_body]. destruct (json_escape_head c) as (d & e & -> & Hd). cbn. intros [= <-]. by apply Hd. }
  revert s'; induction s as [|c s IH]; intros [|c' s']; cbn [json_string_body]; rewrite ?string_app_nil_l.
  - intros E. split; [done|]. by injection E.
  - intros E. by apply Hne in E.
  - intros E. symmetry in E. by apply Hne in E.
  - rewrite !string_app_assoc. intros E. apply (f_equal json_unescape) in E. rewrite !json_unescape_escape in E.
    injection E as -> E. by apply IH in E as [-> ->].
Qed.
Lemma json_string_split s s' r r' : json_string s +:+ r = json_string s' +:+ r' -> s = s' /\ r = r'.
Proof. unfold json_string. rewrite !string_app_assoc. intros E. injection E as E. by apply json_body_split in E. Qed.

(** ** Numbers *)

Definition num_char (c : ascii) : bool := is_digit c || existsb (Ascii.eqb c) ["+"; "-"; "."; "e"; "E"]%char.
Definition float_char (c : ascii) : bool := existsb (Ascii.eqb c) ["."; "e"; "E"]%char.
Fixpoint has_float_char (s : string) : bool := match s with EmptyString => false | String c s' => float_char c || has_float_char s' end.
(** A number as serde_json prints a float: it can not be taken for an integer. *)
Definition float_text (t : string) : bool := all_bytes num_char t && has_float_char t.
Fixpoint floats_ok (v : Json) : bool :=
  match v with JFloat t => float_text t | JArr l => forallb floats_ok l | JObj m => forallb (fun p => floats_ok p.2) m | _ => true end.
(** What may follow a value: nothing, or a byte no number goes on with. *)
Definition stops (r : string) : Prop := match r with EmptyString => True | String c _ => num_char c = false end.

Lemma num_text_split a a' r r' : all_bytes num_char a = true -> all_bytes num_char a' = true -> stops r -> stops r' ->
  a +:+ r = a' +:+ r' -> a = a' /\ r = r'.
Proof.
  revert a'; induction a as [|c a IH]; intros [|c' a'] Ha Ha' Hr Hr'; rewrite ?string_app_nil_l, ?string_app_cons; cbn in Ha, Ha'.
  - done.
  - intros ->. apply andb_true_iff in Ha' as [Hc _]. cbn in Hr. congruence.
  - intros <-. apply andb_true_iff in Ha as [Hc _]. cbn in Hr'. congruence.
  - apply andb_true_iff in Ha as [_ Ha], Ha' as [_ Ha']. intros [= -> E]. by destruct (IH a' Ha Ha' Hr Hr' E) as [-> ->].
Qed.
Lemma parse_digits_digits s acc n : parse_digits acc s = Some n -> all_bytes is_digit s = true.
Proof.
  revert acc; induction s as [|c s IH]; intros acc; [done|]. cbn [parse_digits all_bytes]. destruct (digit_of c) as [d|] eqn:E; [|done]. cbn [mbind option_bind].
  intros H. rewrite (IH _ H), andb_true_r. revert E. unfold digit_of, is_digit, in_range, byte_of. destruct (decide _) as [Hc|]; [|done]. intros _. apply andb_true_iff. split; apply N.leb_le; lia.
Qed.
Lemma all_bytes_weaken (p q : ascii -> bool) s : (forall c, p c = true -> q c = true) -> all_bytes p s = true -> all_bytes q s = true.
Proof. intros H. induction s as [|c s IH]; [done|]. cbn. intros [Hc Hs]%andb_true_iff. by rewrite (H _ Hc), IH. Qed.
Lemma digits_no_float s : all_bytes is_digit s = true -> has_float_char s = false.
Proof.
  induction s as [|c s IH]; [done|]. cbn. intros [Hc Hs]%andb_true_iff. rewrite (IH Hs), orb_false_r.
  revert Hc. destruct c as [[] [] [] [] [] [] [] []]; by vm_compute.
Qed.
(** An integer's text: number bytes, none of them a float's. *)
Lemma pretty_Z_text (z : Z) : all_bytes num_char (pretty z) = true /\ has_float_char (pretty z) = false.
Proof.
  assert (forall n : N, all_bytes is_digit (pretty n) = true) as Hn by (intros n; eapply parse_digits_digits, parse_digits_pretty).
  assert (forall n : N, all_bytes num_char (pretty n) = true) as Hm.
  { intros n. eapply all_bytes_weaken, Hn. intros c Hc. unfold num_char. by rewrite Hc. }
  destruct z as [|p|p].
  - split; [by vm_compute|by vm_compute].
  - change (pretty (Zpos p)) with (pretty (Npos p)). split; [apply Hm|apply digits_no_float, Hn].
  - change (pretty (Zneg p)) with (String "-" (pretty (Npos p))). cbn. split; [apply Hm|apply digits_no_float, Hn].
Qed.
Lemma pretty_Z_nonempty (z : Z) : exists c s, pretty z = String c s /\ num_char c = true.
Proof.
  destruct (pretty_Z_text z) as [Hn _]. destruct (pretty z) as [|c s] eqn:E.
  - exfalso. destruct z as [|p|p]; [done| |done]. change (pretty (Zpos p)) with (pretty (Npos p)) in E. destruct (pretty_head (Npos p)) as (d & r & _ & H). rewrite E in H. done.
  - exists c, s. split; [done|]. cbn in Hn. by apply andb_true_iff in Hn as [? _].
Qed.
Lemma float_text_nonempty t : float_text t = true -> exists c s, t = String c s /\ num_char c = true.
Proof. unfold float_text. destruct t as [|c s]; cbn; [done|]. intros [[Hc _]%andb_true_iff _]%andb_true_iff. by exists c, s. Qed.

(** ** Lists *)

Section items.
Context {A : Type} (show : A -> string) (ok : A -> bool).
Hypothesis shown : forall a, ok a = true -> exists c s, show a = String c s /\ c <> "]"%char /\ c <> "}"%char.
(** Each item of [l] is cut off in one place. *)
Definition cut_one (a : A) : Prop := forall b r r', ok b = true -> stops r -> stops r' -> show a +:+ r = show b +:+ r' -> a = b /\ r = r'.

Lemma items_split close l l' r r' : close = "]"%char \/ close = "}"%char ->
  Forall cut_one l -> forallb ok l = true -> forallb ok l' = true ->
  join "," (map show l) +:+ String close r = join "," (map show l') +:+ String close r' -> l = l' /\ r = r'.
Proof.
  intros Hclose. assert (forall r, stops (String close r)) as Hs by (intros ?; by destruct Hclose as [-> | ->]).
  assert (close <> ","%char) as Hcomma by (by destruct Hclose as [-> | ->]).
  assert (forall a s l0 r0, ok a = true -> String close s <> join "," (map show (a :: l0)) +:+ r0) as Hne.
  { intros a s l0 r0 Ha. destruct (shown a Ha) as (c & t & E & H1 & H2). destruct l0; cbn; rewrite E; intros [= <-]; destruct Hclose as [-> | ->]; done. }
  revert l'; induction l as [|a l IH]; intros [|a' l'] Hl Ho Ho' E; cbn [forallb] in Ho, Ho'.
  - split; [done|]. by injection E.
  - apply andb_true_iff in Ho' as [Ha' _]. by apply Hne in E.
  - apply andb_true_iff in Ho as [Ha _]. symmetry in E. by apply Hne in E.
  - apply andb_true_iff in Ho as [Ha Ho], Ho' as [Ha' Ho']. apply Forall_cons in Hl as [Hc Hl].
    destruct l as [|b l], l' as [|b' l']; cbn [map join] in E; rewrite ?string_app_assoc in E;
      apply (Hc _ _ _ Ha') in E as [-> E]; try apply Hs; try done; rewrite ?string_app_cons, ?string_app_nil_l in E.
    + split; [done|]. by injection E.
    + injection E as E _. by destruct Hcomma.
    + injection E as E _. by destruct Hcomma.
    + injection E as E. destruct (IH (b' :: l') Hl Ho Ho' E) as [-> ->]. done.
Qed.
End items.

(** ** Values *)

Lemma json_text_head v : floats_ok v = true -> exists c s, json_text v = String c s /\ c <> "]"%char /\ c <> "}"%char.
Proof.
  assert (forall c : ascii, num_char c = true -> c <> "]"%char /\ c <> "}"%char) as Hn by (intros c Hc; split; intros ->; by vm_compute in Hc).
  destruct v as [|[]|z|t|s|l|m]; cbn; intros Hf; try (eexists _, _; split; [reflexivity|done]).
  - destruct (pretty_Z_nonempty z) as (c & s & -> & Hc). eauto.
  - destruct (float_text_nonempty t Hf) as (c & s & -> & Hc). eauto.
Qed.
(** Which kind of value a first byte starts. *)
Definition head_kind (c : ascii) : N := if num_char c then 0 else byte_of c.
Definition text_kind (v : Json) : N :=
  match v with JNull => 110 | JBool true => 116 | JBool false => 102 | JInt _ | JFloat _ => 0 | JStr _ => 34 | JArr _ => 91 | JObj _ => 123 end.
Lemma json_text_kind v : floats_ok v = true -> exists c s, json_text v = String c s /\ head_kind c = text_kind v.
Proof.
  destruct v as [|[]|z|t|s|l|m]; cbn; intros Hf; try (eexists _, _; split; [reflexivity|done]).
  - destruct (pretty_Z_nonempty z) as (c & s & -> & Hc). exists c, s. split; [done|]. unfold head_kind. by rewrite Hc.
  - destruct (float_text_nonempty t Hf) as (c & s & -> & Hc). exists c, s. split; [done|]. unfold head_kind. by rewrite Hc.
Qed.
Definition pair_text (p : string * Json) : string := json_string p.1 +:+ ":" +:+ json_text p.2.
Definition number_text (v : Json) : string := match v with JInt z => pretty z | JFloat t => t | _ => "" end.
Lemma number_split v w r r' : text_kind v = 0%N -> text_kind w = 0%N -> floats_ok v = true -> floats_ok w = true -> stops r -> stops r' ->
  json_text v +:+ r = json_text w +:+ r' -> v = w /\ r = r'.
Proof.
  assert (forall v, text_kind v = 0%N -> floats_ok v = true -> all_bytes num_char (json_text v) = true /\
    has_float_char (json_text v) = match v with JFloat _ => true | _ => false end) as Hnum.
  { intros [|[]|z|t|s|l|m] Hk Hf; try done; [apply (pretty_Z_text z)|by apply andb_true_iff in Hf]. }
  intros Hv Hw Hfv Hfw Hr Hr' E. destruct (Hnum v Hv Hfv) as [Nv Fv], (Hnum w Hw Hfw) as [Nw Fw].
  apply (num_text_split _ _ _ _ Nv Nw Hr Hr') in E as [E ->]. split; [|done]. rewrite E in Fv.
  destruct v as [|[]|z|t|s|l|m], w as [|[]|z'|t'|s'|l'|m']; try done; cbn in E; try congruence. f_equal. by apply (inj pretty) in E.
Qed.

(** The text of a value is cut off in one place and read one way. *)
Lemma json_text_split v w r r' : floats_ok v = true -> floats_ok w = true -> stops r -> stops r' ->
  json_text v +:+ r = json_text w +:+ r' -> v = w /\ r = r'.
Proof.
  revert w r r'. induction v as [|b|z|t|s|l IH|m IH] using json_induction; intros w r r' Hv Hw Hr Hr' E.
  all: destruct (json_text_kind _ Hv) as (c & x & Ev & Kv), (json_text_kind w Hw) as (c' & x' & Ew & Kw);
    assert (text_kind w = text_kind _) as K by (rewrite <- Kv, <- Kw; rewrite Ev, Ew, !string_app_cons in E; injection E as -> _; reflexivity);
    clear c x Ev Kv c' x' Ew Kw.
  - destruct w as [|[]| | | | |]; try done. split; [done|]. by injection E.
  - destruct b, w as [|[]| | | | |]; try done; (split; [done|]; by injection E).
  - by apply number_split.
  - by apply number_split.
  - destruct w as [|[]| | |s'| |]; try done. cbn [json_text] in E. by apply json_string_split in E as [-> ->].
  - destruct w as [|[]| | | |l'|]; try done. cbn [json_text] in E. rewrite !string_app_assoc in E. injection E as E.
    apply (items_split json_text floats_ok json_text_head "]") in E as [-> ->]; [done|by left| |done|done].
    apply Forall_forall. intros v Hin b r0 r0' Hb H1 H2. apply IH; [done| |done..]. cbn in Hv. apply (proj1 (forallb_forall floats_ok l) Hv), list_elem_of_In, Hin.
  - destruct w as [|[]| | | | |m']; try done. cbn [json_text] in E. rewrite !string_app_assoc in E. injection E as E.
    apply (items_split pair_text (fun p => floats_ok p.2)) with (close := "}"%char) in E as [-> ->]; [done| |by right| |done|done].
    + intros [k v] _. unfold pair_text, json_string. eexists _, _. split; [reflexivity|done].
    + apply Forall_forall. intros [k v] Hin [k' v'] r0 r0' Hb H1 H2. unfold pair_text. cbn [fst snd]. rewrite !string_app_assoc. intros E'.
      apply json_string_split in E' as [-> E']. rewrite !string_app_cons, !string_app_nil_l in E'. injection E' as E'.
      apply (IH k' v Hin) in E' as [-> ->]; [done| |done..]. cbn in Hv. apply (proj1 (forallb_forall _ m) Hv (k', v)), list_elem_of_In, Hin.
Qed.
Lemma json_text_inj v w : floats_ok v = true -> floats_ok w = true -> json_text v = json_text w -> v = w.
Proof. intros Hv Hw E. apply (json_text_split v w "" ""); [done..|]. by rewrite E. Qed.
