(* ===== verification/Protection.v ===== *)
(** * Environment governance (scarab-project/src/environment_governance.rs, lib.rs)

    The rules an Environment's admin sets, the Project overlay that tightens
    them, eligibility, the privilege grant, the fold into the rules admission
    enforces, and the migration from the per-Project rules. *)

From S2P Require Import Prelude Text Values Globs.

Definition ticked (s : string) : string := "`" +:+ s +:+ "`".

(** ** Errors *)

Inductive OrgEnvironmentError : Type :=
| OeInvalid (m : string)
| OeNotFound (org environment : string)
| OeInUse (m : string)
| OeConflict (m : string)
| OePreconditionFailed (m : string)
| OeStore (m : string).

Definition changed_concurrently : OrgEnvironmentError := OeConflict "changed concurrently; reload and retry".
Definition already_exists (org name : string) : OrgEnvironmentError :=
  OeConflict ("org `" +:+ org +:+ "` already has an environment `" +:+ name +:+ "`").

(** ** The rules an admin sets *)

Definition DEFAULT_MAX_APPROVAL_AGE_S : N := 24 * 60 * 60.

Inductive MissingGateMode : Set := MgAdd | MgRefuse.
Definition mode_as_str (m : MissingGateMode) : string := match m with MgAdd => "add" | MgRefuse => "refuse" end.
Definition mode_parse (s : string) : option MissingGateMode :=
  if String.eqb s "add" then Some MgAdd else if String.eqb s "refuse" then Some MgRefuse else None.

Record ApprovalGateRules := mkGateRules {
  ag_missing_gate : MissingGateMode;
  ag_added_gate_expiry_s : option N;
  ag_required_approvals : option N;
  ag_max_approval_age_s : N;
}.
Definition default_gate_rules : ApprovalGateRules := mkGateRules MgAdd None None DEFAULT_MAX_APPROVAL_AGE_S.

Definition approval_gate_validate (r : ApprovalGateRules) (approvers : list string) : Result OrgEnvironmentError unit :=
  let rest :=
    if decide (ag_added_gate_expiry_s r = Some 0%N) then Err (OeInvalid "the added gate's expiry must be at least 1 second")
    else if (ag_max_approval_age_s r =? 0)%N then Err (OeInvalid "the maximum approval age must be at least 1 second")
    else Ok tt in
  match ag_required_approvals r with
  | Some n =>
      if (n =? 0)%N then Err (OeInvalid "required approvals must be at least 1")
      else if (N.of_nat (length approvers) <? n)%N
           then Err (OeInvalid ("required approvals is " +:+ pretty n +:+ ", but the baseline lists "
                                +:+ pretty (N.of_nat (length approvers)) +:+ " approver(s)"))
      else rest
  | None => rest
  end.

Record EnvironmentProtectionRules := mkRules {
  pr_approvers : list string;
  pr_allowed_refs : list string;
  pr_wait_timer_s : N;
  pr_require_reason : bool;
  pr_approval_gate : ApprovalGateRules;
}.
(** [Default]: the permissive rule set. *)
Definition permissive_rules : EnvironmentProtectionRules := mkRules [] [] 0 false default_gate_rules.

#[export] Instance MissingGateMode_eq_dec : EqDecision MissingGateMode.
Proof. solve_decision. Defined.
#[export] Instance ApprovalGateRules_eq_dec : EqDecision ApprovalGateRules.
Proof. solve_decision. Defined.
#[export] Instance EnvironmentProtectionRules_eq_dec : EqDecision EnvironmentProtectionRules.
Proof. solve_decision. Defined.

Record EnvironmentProjectOverlay := mkOverlay {
  ov_org : string;
  ov_environment : string;
  ov_project : string;
  ov_rules : EnvironmentProtectionRules;
}.

(** ** Eligibility *)

Inductive EnvironmentProjectEligibility : Set :=
| AllProjects
| Projects (patterns : list string).
#[export] Instance Eligibility_eq_dec : EqDecision EnvironmentProjectEligibility.
Proof. solve_decision. Defined.
(** [Default]: no eligible Project. *)
Definition no_project : EnvironmentProjectEligibility := Projects [].

Definition eligibility_admits (e : EnvironmentProjectEligibility) (project : string) : bool :=
  match e with
  | AllProjects => true
  | Projects patterns => existsb (fun p => glob_match p project) patterns
  end.

(** [char::is_control]: Unicode's Cc. *)
Definition is_control (ch : string) : bool :=
  match map byte_of (String.list_ascii_of_string ch) with
  | [b] => (b <? 32)%N || (b =? 127)%N
  | [b; c] => (b =? 194)%N && (c <? 160)%N
  | _ => false
  end.

Section WithTables.
Context {T : CharTables}.

Fixpoint validate_patterns (seen : list string) (patterns : list string) : Result OrgEnvironmentError unit :=
  match patterns with
  | [] => Ok tt
  | p :: l =>
      if String.eqb p "" then Err (OeInvalid "an eligible project pattern must not be empty")
      else if existsb is_control (chars p)
      then Err (OeInvalid ("eligible project pattern `" +:+ escape_debug p +:+ "` must not contain control characters"))
      else if decide (p ∈ seen) then Err (OeInvalid ("eligible project pattern `" +:+ p +:+ "` is listed twice"))
      else validate_patterns (p :: seen) l
  end.
Definition eligibility_validate (e : EnvironmentProjectEligibility) : Result OrgEnvironmentError unit :=
  match e with AllProjects => Ok tt | Projects patterns => validate_patterns [] patterns end.

(** ** The OrgEnvironment and its names (org_environment.rs) *)

Definition MAX_ORG_ENVIRONMENT_DESCRIPTION_CHARS : nat := 1000.
Definition MAX_ORG_ENVIRONMENT_DISPLAY_NAME_CHARS : nat := 200.
Definition DUPLICATE_DISPLAY_NAME_SUFFIX : string := " (copy)".

Record OrgEnvironment := mkOrgEnvironment {
  oe_org : string;
  oe_name : string;
  oe_display_name : option string;
  oe_description : string;
  oe_protection : EnvironmentProtectionRules;
  oe_eligibility : EnvironmentProjectEligibility;
  oe_created_at : Z;
  oe_updated_at : Z;
  oe_updated_by : string;
}.

(** Bidi and zero-width characters, by their UTF-8 bytes. *)
Definition is_invisible_format_char (ch : string) : bool :=
  match map byte_of (String.list_ascii_of_string ch) with
  | [b; c] => ((b =? 194) && (c =? 173))%N || ((b =? 216) && (c =? 156))%N
  | [b; c; d] =>
      let between lo hi := ((lo <=? d) && (d <=? hi))%N in
      ((b =? 225) && (c =? 160) && (d =? 142))%N
      || ((b =? 226) && (c =? 128))%N && (between 139 143 || between 170 174)%N
      || ((b =? 226) && (c =? 129))%N && (between 160 164 || between 166 175)%N
      || ((b =? 239) && (c =? 187) && (d =? 191))%N
  | _ => false
  end.

Definition validate_org_environment_display_name (display_name : string) : Result OrgEnvironmentError unit :=
  if String.eqb (trim display_name) ""
  then Err (OeInvalid "display name must not be blank; leave it out to show the name")
  else if existsb is_control (chars display_name)
  then Err (OeInvalid "display name must not contain control characters")
  else if existsb is_invisible_format_char (chars display_name)
  then Err (OeInvalid "display name must not contain invisible bidi or zero-width characters")
  else if decide (MAX_ORG_ENVIRONMENT_DISPLAY_NAME_CHARS < length (chars display_name))
  then Err (OeInvalid ("display name is longer than " +:+ pretty MAX_ORG_ENVIRONMENT_DISPLAY_NAME_CHARS +:+ " characters"))
  else Ok tt.

Definition validate_org_environment_name (name : string) : Result OrgEnvironmentError unit :=
  if String.eqb name "" then Err (OeInvalid "environment name must not be empty")
  else if String.eqb name "." || String.eqb name ".."
  then Err (OeInvalid ("environment name must not be `" +:+ name +:+ "`"))
  else if existsb is_control (chars name)
  then Err (OeInvalid ("environment name `" +:+ escape_debug name +:+ "` must not contain control characters"))
  else Ok tt.

(** [OrgEnvironment::validate]. *)
Definition org_environment_validate (e : OrgEnvironment) : Result OrgEnvironmentError unit :=
  _ ← validate_org_environment_name (oe_name e);
  _ ← match oe_display_name e with Some d => validate_org_environment_display_name d | None => Ok tt end;
  if decide (MAX_ORG_ENVIRONMENT_DESCRIPTION_CHARS < length (chars (oe_description e)))
  then Err (OeInvalid ("description is longer than " +:+ pretty MAX_ORG_ENVIRONMENT_DESCRIPTION_CHARS +:+ " characters"))
  else eligibility_validate (oe_eligibility e).
End WithTables.

Definition shown_name (e : OrgEnvironment) : string := default (oe_name e) (oe_display_name e).
Definition normalize_display_name (d : option string) : option string :=
  d ← d; let t := trim d in if String.eqb t "" then None else Some t.
Definition duplicate_display_name (source : OrgEnvironment) : string :=
  let room := MAX_ORG_ENVIRONMENT_DISPLAY_NAME_CHARS - length (chars DUPLICATE_DISPLAY_NAME_SUFFIX) in
  concat_chars (take room (chars (shown_name source))) +:+ DUPLICATE_DISPLAY_NAME_SUFFIX.

(** ** Privileges *)

Record ImageGrant := mkImageGrant {
  ig_image_digest : string;
  ig_privileged : bool;
  ig_capabilities : list string;
}.
#[export] Instance ImageGrant_eq_dec : EqDecision ImageGrant.
Proof. solve_decision. Defined.

Record GrantRequest := mkGrantRequest {
  gr_run_as_root : bool;
  gr_add_capabilities : list string;
  gr_privileged : bool;
}.
Record AdmittedGrants := mkAdmitted {
  ad_run_as_root : bool;
  ad_add_capabilities : list string;
  ad_privileged : bool;
}.

(** [image.rsplit_once('@')], kept when the part after it is a [sha256:] digest. *)
Definition image_digest (image : string) : option string :=
  i ← rfind "@" image;
  let d := drop_str (S i) image in
  if starts_with "sha256:" d then Some d else None.

Definition is_nil {A} (l : list A) : bool := match l with [] => true | _ => false end.

(** The capabilities the entry grants, and a violation for each it does not. *)
Definition admit_capabilities (entry : ImageGrant) (caps : list string) : list string * list string :=
  foldl (fun acc cap =>
    if bool_decide (cap ∈ ig_capabilities entry) then (acc.1 ++ [cap], acc.2)
    else (acc.1, acc.2 ++ ["capability `" +:+ cap +:+ "` is not granted to this image digest"])) ([], []) caps.

Definition admit_grants_against_whitelist (whitelist : list ImageGrant) (req : GrantRequest)
    (image : string) (locked_out : bool) : Result (list string) AdmittedGrants :=
  if negb (gr_privileged req || negb (is_nil (gr_add_capabilities req)))
  then Ok (mkAdmitted (gr_run_as_root req) [] false)
  else if locked_out
  then Err ["fork-PR run is locked out of governed grants (add-capabilities/privileged)"]
  else match image_digest image with
  | None => Err ["image `" +:+ image +:+ "` requests a governed grant but is not pinned to a digest (repo@sha256:…)"]
  | Some d =>
      match List.find (fun g => String.eqb (ig_image_digest g) d) whitelist with
      | None => Err ["image digest `" +:+ d +:+ "` is not whitelisted for governed grants in this environment"]
      | Some entry =>
          let priv := gr_privileged req && ig_privileged entry in
          let '(caps, missing) := admit_capabilities entry (gr_add_capabilities req) in
          let violations := (if gr_privileged req && negb (ig_privileged entry)
                             then ["`privileged` is not granted to this image digest"] else []) ++ missing in
          if is_nil violations then Ok (mkAdmitted (gr_run_as_root req) caps priv) else Err violations
      end
  end.

Record EnvironmentProjectPrivilegeGrant := mkPrivilegeGrant {
  pg_org : string;
  pg_environment : string;
  pg_project : string;
  pg_privileged_images : list ImageGrant;
  pg_permit_k8s_overlay : bool;
}.

Definition admit_grants (grant : option EnvironmentProjectPrivilegeGrant) (req : GrantRequest)
    (image : string) (locked_out : bool) : Result (list string) AdmittedGrants :=
  admit_grants_against_whitelist (from_option pg_privileged_images [] grant) req image locked_out.
Definition permits_k8s_overlay (grant : option EnvironmentProjectPrivilegeGrant) : bool :=
  from_option pg_permit_k8s_overlay false grant.

(** ** The rules admission enforces *)

(** One list of globs per source layer. *)
Definition AllowedRefConstraint : Type := list (list string).
Definition layer_allows (git_ref : string) (layer : list string) : bool :=
  is_nil layer || existsb (fun p => glob_match p git_ref) layer.
Definition refs_allow (c : AllowedRefConstraint) (git_ref : string) : bool := forallb (layer_allows git_ref) c.
Definition refs_unrestricted (c : AllowedRefConstraint) : bool := forallb is_nil c.

Record EffectiveProtection := mkEffective {
  ep_approvers : list string;
  ep_baseline_approvers : list string;
  ep_overlay_approvers : list string;
  ep_allowed_refs : AllowedRefConstraint;
  ep_wait_timer_s : N;
  ep_require_reason : bool;
  ep_approval_gate : ApprovalGateRules;
}.

(** [if !approvers.contains(a) { approvers.push(a) }]. *)
Definition push_new (acc : list string) (a : string) : list string :=
  if bool_decide (a ∈ acc) then acc else acc ++ [a].

Definition effective_protection (baseline : EnvironmentProtectionRules)
    (overlay : option EnvironmentProjectOverlay) : EffectiveProtection :=
  let rules := ov_rules <$> overlay in
  mkEffective
    (foldl push_new [] (pr_approvers baseline ++ from_option pr_approvers [] rules))
    (pr_approvers baseline)
    (from_option pr_approvers [] rules)
    (pr_allowed_refs baseline :: option_list (pr_allowed_refs <$> rules))
    (match rules with None => pr_wait_timer_s baseline | Some o => N.max (pr_wait_timer_s baseline) (pr_wait_timer_s o) end)
    (match rules with None => pr_require_reason baseline | Some o => pr_require_reason baseline || pr_require_reason o end)
    (pr_approval_gate baseline).

Definition ref_allowed (p : EffectiveProtection) (git_ref : string) : bool := refs_allow (ep_allowed_refs p) git_ref.
(** An event with no symbolic ref is admitted only where refs are unrestricted. *)
Definition admits_protection_ref (p : EffectiveProtection) (protection_ref : option string) : bool :=
  match protection_ref with
  | Some git_ref => ref_allowed p git_ref
  | None => refs_unrestricted (ep_allowed_refs p)
  end.

Definition missing_approval (who : string) : string := "missing required approval from `" +:+ who +:+ "`".
Definition unapproved (approvals approvers : list string) : list string :=
  filter (fun a => a ∉ approvals) approvers.
Definition approved (approvals approvers : list string) : list string :=
  filter (fun a => a ∈ approvals) approvers.

(** What [approvals] still lack: every approver without a count; with one, that
    many of the baseline's and every one of the overlay's. *)
Definition approval_violations (p : EffectiveProtection) (approvals : list string) : list string :=
  match ag_required_approvals (ep_approval_gate p) with
  | None => map missing_approval (unapproved approvals (ep_approvers p))
  | Some n =>
      let have := length (approved approvals (ep_baseline_approvers p)) in
      let need := N.to_nat (N.min n (N.of_nat (length (ep_baseline_approvers p)))) in
      map missing_approval (unapproved approvals (ep_overlay_approvers p)) ++
      (if have <? need
       then ["needs " +:+ pretty need +:+ " approval(s) from "
             +:+ join ", " (map ticked (ep_baseline_approvers p)) +:+ "; has " +:+ pretty have]
       else [])
  end.

Definition ref_violation (git_ref : string) : string := "ref `" +:+ git_ref +:+ "` is not allowed to deploy here".
Definition or_violations (v : list string) : Result (list string) unit := if is_nil v then Ok tt else Err v.

(** [EffectiveProtection::admits]. *)
Definition admits (p : EffectiveProtection) (git_ref : string) (approvals : list string) : Result (list string) unit :=
  or_violations ((if ref_allowed p git_ref then [] else [ref_violation git_ref]) ++ approval_violations p approvals).

Definition effective_wait_timer_s (p : EffectiveProtection) : N :=
  if is_nil (ep_approvers p) then 0%N else ep_wait_timer_s p.
(** The approver set a release records. *)
Definition approver_set (p : EffectiveProtection) : list string * option N :=
  (merge_sort str_le (ep_approvers p), ag_required_approvals (ep_approval_gate p)).
Definition reason_rule (require_reason is_human_dispatch has_reason : bool) : Result (list string) unit :=
  if require_reason && is_human_dispatch && negb has_reason
  then Err ["a reason is required to dispatch a run into this environment"] else Ok tt.
Definition admits_reason (p : EffectiveProtection) : bool -> bool -> Result (list string) unit :=
  reason_rule (ep_require_reason p).

(** ** The legacy per-Project rules and their migration *)

Record ProtectionRules := mkLegacy {
  lr_approvers : list string;
  lr_wait_timer : N;
  lr_allowed_refs : list string;
  lr_concurrency : N;
  lr_secret_scope : Json;
  lr_oidc_subject : string;
  lr_privileged_images : list ImageGrant;
  lr_permit_k8s_overlay : bool;
  lr_require_reason : bool;
}.
Record Environment := mkEnvironment { en_name : string; en_protection : ProtectionRules }.

Definition legacy_ref_allowed (r : ProtectionRules) (git_ref : string) : bool := layer_allows git_ref (lr_allowed_refs r).
(** [ProtectionRules::admits]. *)
Definition legacy_admits (r : ProtectionRules) (git_ref : string) (approvals : list string) : Result (list string) unit :=
  or_violations ((if legacy_ref_allowed r git_ref then [] else [ref_violation git_ref])
                 ++ map missing_approval (unapproved approvals (lr_approvers r))).
Definition legacy_admits_reason (r : ProtectionRules) : bool -> bool -> Result (list string) unit :=
  reason_rule (lr_require_reason r).
Definition legacy_admit_grants (r : ProtectionRules) : GrantRequest -> string -> bool -> Result (list string) AdmittedGrants :=
  admit_grants_against_whitelist (lr_privileged_images r).

Definition migrate_legacy_environment (org project : string) (legacy : Environment) :
    EnvironmentProjectOverlay * option EnvironmentProjectPrivilegeGrant :=
  let old := en_protection legacy in
  (mkOverlay org (en_name legacy) project
     (mkRules (lr_approvers old) (lr_allowed_refs old) (lr_wait_timer old) (lr_require_reason old) default_gate_rules),
   if negb (is_nil (lr_privileged_images old)) || lr_permit_k8s_overlay old
   then Some (mkPrivilegeGrant org (en_name legacy) project (lr_privileged_images old) (lr_permit_k8s_overlay old))
   else None).

(** ** What admission reads together *)

Record DeployGovernance := mkGovernance {
  dg_environment : OrgEnvironment;
  dg_eligible : bool;
  dg_overlay : option EnvironmentProjectOverlay;
  dg_privilege_grant : option EnvironmentProjectPrivilegeGrant;
}.
Definition governance_new (environment : OrgEnvironment) (project : string)
    (overlay : option EnvironmentProjectOverlay) (grant : option EnvironmentProjectPrivilegeGrant) : DeployGovernance :=
  mkGovernance environment (eligibility_admits (oe_eligibility environment) project) overlay grant.
Definition governance_protection (g : DeployGovernance) : EffectiveProtection :=
  effective_protection (oe_protection (dg_environment g)) (dg_overlay g).

Record EnvironmentProjectRecord := mkProjectRecord {
  er_project : string;
  er_eligible : bool;
  er_overlay : option EnvironmentProjectOverlay;
  er_privilege_grant : option EnvironmentProjectPrivilegeGrant;
}.
(** [records.entry(project).or_insert_with(..)]. *)
Definition record_entry (environment : OrgEnvironment) (records : gmap string EnvironmentProjectRecord)
    (project : string) : EnvironmentProjectRecord :=
  default (mkProjectRecord project (eligibility_admits (oe_eligibility environment) project) None None)
          (records !! project).
Definition collect_records (environment : OrgEnvironment) (overlays : list EnvironmentProjectOverlay)
    (grants : list EnvironmentProjectPrivilegeGrant) : list EnvironmentProjectRecord :=
  let with_overlays := foldl (fun m o =>
    let r := record_entry environment m (ov_project o) in
    <[ov_project o := mkProjectRecord (er_project r) (er_eligible r) (Some o) (er_privilege_grant r)]> m)
    (∅ : gmap string EnvironmentProjectRecord) overlays in
  let with_grants := foldl (fun m g =>
    let r := record_entry environment m (pg_project g) in
    <[pg_project g := mkProjectRecord (er_project r) (er_eligible r) (er_overlay r) (Some g)]> m) with_overlays grants in
  snd <$> btree_list with_grants.

(** ** The migration's split report *)

Record EnvironmentMigrationAcknowledgement := mkAck { ak_at : Z; ak_by : string }.
Record EnvironmentMigrationReportProject := mkReportProject {
  rp_project : string;
  rp_legacy : option ProtectionRules;
  rp_overlay : option EnvironmentProjectOverlay;
}.
Inductive LegacyRuleField : Set := LfApprovers | LfAllowedRefs | LfWaitTimer | LfRequireReason | LfPrivilegedImages | LfPermitK8sOverlay.
Definition legacy_field_as_str (f : LegacyRuleField) : string :=
  match f with
  | LfApprovers => "approvers" | LfAllowedRefs => "allowed_refs" | LfWaitTimer => "wait_timer"
  | LfRequireReason => "require_reason" | LfPrivilegedImages => "privileged_images"
  | LfPermitK8sOverlay => "permit_k8s_overlay"
  end.
Record EnvironmentMigrationReport := mkReport {
  mr_org : string;
  mr_environment : string;
  mr_merged_projects : list string;
  mr_referenced_only : bool;
  mr_referencing_projects : list string;
  mr_created_at : Z;
  mr_acknowledged : option EnvironmentMigrationAcknowledgement;
  mr_baseline : option EnvironmentProtectionRules;
  mr_projects : list EnvironmentMigrationReportProject;
}.

(** Lists compared as sets. *)
Definition same_set (a b : list string) : bool := bool_decide (list_to_set a =@{gset string} list_to_set b).
Definition caps_of (g : ImageGrant) : list string := merge_sort str_le (elements (list_to_set (ig_capabilities g) : gset string)).
Definition same_whitelist (a b : list ImageGrant) : bool :=
  let key g := (ig_image_digest g, ig_privileged g, caps_of g) in
  bool_decide (list_to_set (map key a) =@{gset (string * bool * list string)} list_to_set (map key b)).

Definition differing_legacy_rules (r : EnvironmentMigrationReport) : list LegacyRuleField :=
  match omap rp_legacy (mr_projects r) with
  | [] => []
  | first :: rest =>
      let differs (same : ProtectionRules -> bool) := existsb (fun r => negb (same r)) rest in
      (if differs (fun r => same_set (lr_approvers r) (lr_approvers first)) then [LfApprovers] else []) ++
      (if differs (fun r => same_set (lr_allowed_refs r) (lr_allowed_refs first)) then [LfAllowedRefs] else []) ++
      (if differs (fun r => lr_wait_timer r =? lr_wait_timer first)%N then [LfWaitTimer] else []) ++
      (if differs (fun r => Bool.eqb (lr_require_reason r) (lr_require_reason first)) then [LfRequireReason] else []) ++
      (if differs (fun r => same_whitelist (lr_privileged_images r) (lr_privileged_images first)) then [LfPrivilegedImages] else []) ++
      (if differs (fun r => Bool.eqb (lr_permit_k8s_overlay r) (lr_permit_k8s_overlay first)) then [LfPermitK8sOverlay] else [])
  end.
Definition permissive_baseline (r : EnvironmentMigrationReport) : bool :=
  match mr_baseline r with Some b => bool_decide (b = permissive_rules) | None => false end.
