(* ===== verification/Loosening.v ===== *)
(** * Which governance edits loosen (scarab-project/src/step_up_loosening.rs)

    The rules that decide whether a governance write needs a step-up, and that
    they are sound: an edit they find nothing in admits no more than before. *)

From S2P Require Import Prelude Text Values Globs Protection.

(** ** The judges *)

(** A [Loosening] is its words. *)
Definition Loosening : Type := string.

Definition glob_subsumes (outer inner : string) : bool := String.eqb outer inner || glob_match outer inner.
Definition covered (old : list string) (pattern : string) : bool := existsb (fun o => glob_subsumes o pattern) old.

(** [None] requires every approver of its own list. *)
Definition required (r : EnvironmentProtectionRules) : N :=
  from_option id (N.of_nat (length (pr_approvers r))) (ag_required_approvals (pr_approval_gate r)).

Definition approval_gate_loosenings (old new : EnvironmentProtectionRules) : list Loosening :=
  let o := pr_approval_gate old in
  let n := pr_approval_gate new in
  (if bool_decide (ag_required_approvals o <> ag_required_approvals n) && (required new <? required old)%N
   then ["lowers the approvals an approval gate needs from " +:+ pretty (required old) +:+ " to " +:+ pretty (required new)]
   else []) ++
  (match ag_required_approvals n with
   | Some count => map (fun a => "adds approver `" +:+ a +:+ "`, and only " +:+ pretty count +:+ " of the approvers must approve")
                       (filter (fun a => a ∉ pr_approvers old) (pr_approvers new))
   | None => []
   end) ++
  (if (ag_max_approval_age_s o <? ag_max_approval_age_s n)%N
   then ["raises the maximum approval age from " +:+ pretty (ag_max_approval_age_s o) +:+ " s to "
         +:+ pretty (ag_max_approval_age_s n) +:+ " s"]
   else []) ++
  match ag_added_gate_expiry_s o, ag_added_gate_expiry_s n with
  | Some _, None => ["removes the added gate's expiry"]
  | Some a, Some b =>
      if (a <? b)%N then ["lengthens the added gate's expiry from " +:+ pretty a +:+ " s to " +:+ pretty b +:+ " s"] else []
  | _, _ => []
  end.

Definition protection_loosenings (old new : EnvironmentProtectionRules) : list Loosening :=
  map (fun a => "removes approver `" +:+ a +:+ "`") (filter (fun a => a ∉ pr_approvers new) (pr_approvers old)) ++
  (if is_nil (pr_allowed_refs old) then []
   else if is_nil (pr_allowed_refs new) then ["allows any ref"]
   else map (fun g => "widens allowed refs: `" +:+ g +:+ "`")
            (filter (fun g => covered (pr_allowed_refs old) g = false) (pr_allowed_refs new))) ++
  (if (pr_wait_timer_s new <? pr_wait_timer_s old)%N
   then ["shortens the wait timer from " +:+ pretty (pr_wait_timer_s old) +:+ " s to " +:+ pretty (pr_wait_timer_s new) +:+ " s"]
   else []) ++
  (if pr_require_reason old && negb (pr_require_reason new) then ["no longer requires a reason"] else []) ++
  approval_gate_loosenings old new.

Definition overlay_loosenings (old : option EnvironmentProjectOverlay) (new : EnvironmentProjectOverlay) : list Loosening :=
  protection_loosenings (from_option ov_rules permissive_rules old) (ov_rules new).

Definition eligibility_loosenings (old new : EnvironmentProjectEligibility) : list Loosening :=
  match old, new with
  | AllProjects, _ => []
  | Projects _, AllProjects => ["admits every project"]
  | Projects p, Projects q =>
      map (fun g => "admits projects matching `" +:+ g +:+ "`") (filter (fun g => covered p g = false) q)
  end.

(** What one entry of the new whitelist grants that the old one did not. *)
Definition image_loosenings (old_images : list ImageGrant) (image : ImageGrant) : list Loosening :=
  let digest := ig_image_digest image in
  match filter (fun o => ig_image_digest o = digest) old_images with
  | [] => ["grants image `" +:+ digest +:+ "`"]
  | before =>
      (if ig_privileged image && negb (existsb ig_privileged before)
       then ["lets image `" +:+ digest +:+ "` run privileged"] else []) ++
      map (fun cap => "lets image `" +:+ digest +:+ "` add capability `" +:+ cap +:+ "`")
          (filter (fun cap => existsb (fun o => bool_decide (cap ∈ ig_capabilities o)) before = false) (ig_capabilities image))
  end.

Definition privilege_grant_loosenings (old : option EnvironmentProjectPrivilegeGrant)
    (new : EnvironmentProjectPrivilegeGrant) : list Loosening :=
  let old_images := from_option pg_privileged_images [] old in
  dedup_adjacent
    (flat_map (image_loosenings old_images) (pg_privileged_images new) ++
     (if pg_permit_k8s_overlay new && negb (from_option pg_permit_k8s_overlay false old)
      then ["permits a raw k8s_overlay"] else [])).

(** ** What the rules admit *)

Lemma is_nil_spec {A} (l : list A) : is_nil l = true <-> l = [].
Proof. by destruct l. Qed.
Lemma or_violations_ok v : or_violations v = Ok tt <-> v = [].
Proof. unfold or_violations. by destruct v. Qed.

Lemma elem_of_pushed acc l x : x ∈ foldl push_new acc l <-> x ∈ acc \/ x ∈ l.
Proof.
  revert acc; induction l as [|y l IH]; intros acc; cbn [foldl].
  { rewrite elem_of_nil. tauto. }
  rewrite IH, elem_of_cons. unfold push_new. case_bool_decide; [naive_solver|].
  rewrite elem_of_app, list_elem_of_singleton. tauto.
Qed.
Lemma elem_of_effective_approvers b o x :
  x ∈ ep_approvers (effective_protection b o) <->
  x ∈ pr_approvers b \/ x ∈ from_option pr_approvers [] (ov_rules <$> o).
Proof. cbn. rewrite elem_of_pushed, elem_of_nil, elem_of_app. tauto. Qed.

Lemma unapproved_nil approvals l : unapproved approvals l = [] <-> forall x, x ∈ l -> x ∈ approvals.
Proof.
  unfold unapproved. split.
  - intros H x Hx. destruct (decide (x ∈ approvals)); [done|].
    assert (x ∈ filter (fun a => a ∉ approvals) l) as Hf by (by apply list_elem_of_filter).
    rewrite H in Hf. by apply not_elem_of_nil in Hf.
  - intros H. apply elem_of_nil_inv. intros x [Hn Hx]%list_elem_of_filter. auto.
Qed.

(** The approvals suffice: every approver, or the count and the overlay's. *)
Definition enough (p : EffectiveProtection) (approvals : list string) : Prop :=
  match ag_required_approvals (ep_approval_gate p) with
  | None => forall x, x ∈ ep_approvers p -> x ∈ approvals
  | Some n => (forall x, x ∈ ep_overlay_approvers p -> x ∈ approvals) /\
              N.to_nat (N.min n (N.of_nat (length (ep_baseline_approvers p))))
                <= length (approved approvals (ep_baseline_approvers p))
  end.

Lemma approval_violations_nil p approvals : approval_violations p approvals = [] <-> enough p approvals.
Proof.
  unfold approval_violations, enough. destruct (ag_required_approvals _) as [n|].
  - split.
    + intros [H1 H2]%app_eq_nil. apply map_eq_nil in H1. rewrite unapproved_nil in H1. split; [done|].
      destruct (_ <? _) eqn:E; [done|]. by apply Nat.ltb_ge in E.
    + intros [H1 H2]. apply unapproved_nil in H1 as ->. apply Nat.ltb_ge in H2 as ->. done.
  - rewrite <- unapproved_nil. split; [apply map_eq_nil|by intros ->].
Qed.

Lemma admits_ok p git_ref approvals :
  admits p git_ref approvals = Ok tt <-> ref_allowed p git_ref = true /\ enough p approvals.
Proof.
  unfold admits. rewrite or_violations_ok, <- approval_violations_nil.
  destruct (ref_allowed p git_ref); cbn; naive_solver.
Qed.

Lemma layer_allows_spec git_ref layer :
  layer_allows git_ref layer = true <-> layer = [] \/ exists p, p ∈ layer /\ glob_match p git_ref = true.
Proof.
  unfold layer_allows. rewrite orb_true_iff, is_nil_spec, existsb_exists. apply or_iff_compat_l.
  split; intros (x & Hx & H); exists x; (split; [by apply list_elem_of_In|done]).
Qed.

(** Two layers, the second absent without an overlay. *)
Lemma effective_ref_allowed b o git_ref :
  ref_allowed (effective_protection b o) git_ref =
  layer_allows git_ref (pr_allowed_refs b) && layer_allows git_ref (from_option pr_allowed_refs [] (ov_rules <$> o)).
Proof. unfold ref_allowed, refs_allow. destruct o; cbn; by rewrite ?andb_true_r. Qed.
Lemma effective_unrestricted b o :
  refs_unrestricted (ep_allowed_refs (effective_protection b o)) =
  is_nil (pr_allowed_refs b) && is_nil (from_option pr_allowed_refs [] (ov_rules <$> o)).
Proof. unfold refs_unrestricted. destruct o; cbn; by rewrite ?andb_true_r. Qed.

(** ** An edit with nothing found tightens *)

(** A ref as the forges send them: no [*], which git forbids. *)
Definition plain_ref (git_ref : string) : Prop := STAR ∉ chars git_ref.

(** An added gate that expires still does, no later. *)
Definition expires_no_later (strict loose : option N) : Prop :=
  forall a, loose = Some a -> exists b, strict = Some b /\ (b <= a)%N.
#[export] Instance expires_no_later_preorder : PreOrder expires_no_later.
Proof.
  split; [intros o a ->; by exists a|]. intros x y z H1 H2 a Ha. destruct (H2 a Ha) as (b & Hb & ?).
  destruct (H1 b Hb) as (c & ? & ?). exists c. split; [done|lia].
Qed.

(** [loose] admits whatever [strict] does. *)
Record AtLeastAsStrict (strict loose : EffectiveProtection) : Prop := {
  st_admits : forall git_ref approvals, plain_ref git_ref ->
    admits strict git_ref approvals = Ok tt -> admits loose git_ref approvals = Ok tt;
  st_ref : forall r, (forall git_ref, r = Some git_ref -> plain_ref git_ref) ->
    admits_protection_ref strict r = true -> admits_protection_ref loose r = true;
  st_reason : forall human reason,
    admits_reason strict human reason = Ok tt -> admits_reason loose human reason = Ok tt;
  st_timer : (effective_wait_timer_s loose <= effective_wait_timer_s strict)%N;
  st_age : (ag_max_approval_age_s (ep_approval_gate strict) <= ag_max_approval_age_s (ep_approval_gate loose))%N;
  st_expiry : expires_no_later (ag_added_gate_expiry_s (ep_approval_gate strict)) (ag_added_gate_expiry_s (ep_approval_gate loose));
}.

(** What the shared part of the judges promises of two rule sets. *)
Record Tightens (old new : EnvironmentProtectionRules) : Prop := {
  tg_approvers : forall x, x ∈ pr_approvers old -> x ∈ pr_approvers new;
  tg_refs : forall r, plain_ref r -> layer_allows r (pr_allowed_refs new) = true -> layer_allows r (pr_allowed_refs old) = true;
  tg_any : pr_allowed_refs new = [] -> pr_allowed_refs old = [];
  tg_timer : (pr_wait_timer_s old <= pr_wait_timer_s new)%N;
  tg_reason : pr_require_reason old = true -> pr_require_reason new = true;
}.

(** And of the approval-gate settings. *)
Record GateTightens (old new : EnvironmentProtectionRules) : Prop := {
  gt_required : ag_required_approvals (pr_approval_gate old) <> ag_required_approvals (pr_approval_gate new) ->
    (required old <= required new)%N;
  gt_added : is_Some (ag_required_approvals (pr_approval_gate new)) ->
    forall x, x ∈ pr_approvers new -> x ∈ pr_approvers old;
  gt_age : (ag_max_approval_age_s (pr_approval_gate new) <= ag_max_approval_age_s (pr_approval_gate old))%N;
  gt_expiry : expires_no_later (ag_added_gate_expiry_s (pr_approval_gate new)) (ag_added_gate_expiry_s (pr_approval_gate old));
}.

Lemma filter_nil_forall {A} (P : A -> Prop) {dec : forall x, Decision (P x)} (l : list A) :
  filter P l = [] -> forall x, x ∈ l -> ~ P x.
Proof.
  intros H x Hx Hp. apply (not_elem_of_nil x). rewrite <- H. by apply list_elem_of_filter.
Qed.

Lemma glob_subsumes_sound outer inner text :
  STAR ∉ chars text -> glob_subsumes outer inner = true -> glob_match inner text = true -> glob_match outer text = true.
Proof.
  unfold glob_subsumes. intros Ht [->%String.eqb_eq|Ho]%orb_true_iff Hi; [done|].
  apply glob_match_complete; [done|].
  apply (glob_trans _ (chars inner)); [by apply glob_match_sound|by apply glob_match_sound].
Qed.

Lemma covered_sound old g text :
  STAR ∉ chars text -> covered old g = true -> glob_match g text = true ->
  exists p, p ∈ old /\ glob_match p text = true.
Proof.
  intros Ht (p & Hp & Hs)%existsb_exists Hg. exists p. split; [by apply list_elem_of_In|].
  by apply (glob_subsumes_sound p g).
Qed.

Lemma protection_loosenings_nil old new :
  protection_loosenings old new = [] -> Tightens old new /\ GateTightens old new.
Proof.
  intros [H1 [H2 [H3 [H4 H5]%app_eq_nil]%app_eq_nil]%app_eq_nil]%app_eq_nil.
  apply map_eq_nil in H1. pose proof (filter_nil_forall _ _ H1) as Ha. cbn in Ha.
  split.
  - split.
    + intros x Hx. destruct (decide (x ∈ pr_approvers new)) as [|Hn]; [done|]. by destruct (Ha x Hx).
    + intros r Hr. rewrite !layer_allows_spec. destruct (pr_allowed_refs old) as [|g0 go]; [by left|].
      destruct (pr_allowed_refs new) as [|g1 gn]; [done|]. cbn [is_nil] in H2. apply map_eq_nil in H2.
      intros [?|(p & Hp & Hm)]; [done|]. right.
      apply (covered_sound _ p); [done| |done].
      pose proof (filter_nil_forall _ _ H2 p Hp) as Hc. cbn beta in Hc. by destruct (covered (g0 :: go) p).
    + intros Hn. rewrite Hn in H2. by destruct (pr_allowed_refs old).
    + apply N.ltb_ge. by destruct (pr_wait_timer_s new <? pr_wait_timer_s old)%N.
    + destruct (pr_require_reason old), (pr_require_reason new); done.
  - apply app_eq_nil in H5 as [G1 [G2 [G3 G4]%app_eq_nil]%app_eq_nil]. split.
    + intros Hne. destruct (required new <? required old)%N eqn:E; [|by apply N.ltb_ge in E]. exfalso.
      rewrite bool_decide_eq_true_2 in G1 by done. done.
    + intros [n Hn] x Hx. rewrite Hn in G2. apply map_eq_nil in G2.
      destruct (decide (x ∈ pr_approvers old)) as [|Hn']; [done|].
      by destruct (filter_nil_forall _ _ G2 x Hx).
    + apply N.ltb_ge. by destruct (ag_max_approval_age_s _ <? _)%N.
    + intros a Hx. rewrite Hx in G4. destruct (ag_added_gate_expiry_s (pr_approval_gate new)) as [b|]; [|done].
      exists b. split; [done|]. apply N.ltb_ge. by destruct (a <? b)%N.
Qed.

(** ** Counting approvals *)

Lemma approved_length_le approvals (l k : list string) :
  NoDup l -> (forall x, x ∈ l -> x ∈ k) -> length (approved approvals l) <= length (approved approvals k).
Proof.
  intros Hn H. apply submseteq_length, NoDup_submseteq; [by apply NoDup_filter|].
  intros x [Ha Hx]%list_elem_of_filter. apply list_elem_of_filter. auto.
Qed.
Lemma approved_all approvals l :
  (forall x, x ∈ l -> x ∈ approvals) <-> length (approved approvals l) = length l.
Proof.
  unfold approved. split.
  - intros H. f_equal. induction l as [|x l IH]; [done|]. rewrite filter_cons_True by (apply H; left).
    f_equal. apply IH. intros y Hy. apply H. by right.
  - induction l as [|x l IH]; intros H y Hy; [by apply not_elem_of_nil in Hy|].
    destruct (decide (x ∈ approvals)) as [Hx|Hx].
    + rewrite filter_cons_True in H by done. cbn in H. apply elem_of_cons in Hy as [->|Hy]; [done|]. auto.
    + rewrite filter_cons_False in H by done. pose proof (length_filter (fun a => a ∈ approvals) l). cbn in H. lia.
Qed.

(** ** Soundness *)

Definition rules_of (o : option EnvironmentProjectOverlay) : EnvironmentProtectionRules :=
  from_option ov_rules permissive_rules o.
Lemma overlay_approvers_of o : from_option pr_approvers [] (ov_rules <$> o) = pr_approvers (rules_of o).
Proof. by destruct o. Qed.
Lemma overlay_refs_of o : from_option pr_allowed_refs [] (ov_rules <$> o) = pr_allowed_refs (rules_of o).
Proof. by destruct o. Qed.
Lemma effective_timer b o :
  ep_wait_timer_s (effective_protection b o) = N.max (pr_wait_timer_s b) (pr_wait_timer_s (rules_of o)).
Proof. destruct o; cbn; lia. Qed.
Lemma effective_reason b o :
  ep_require_reason (effective_protection b o) = pr_require_reason b || pr_require_reason (rules_of o).
Proof. destruct o; cbn; [done|]. by rewrite orb_false_r. Qed.
Lemma permissive_tightens r : Tightens permissive_rules r.
Proof. split; cbn; [intros x H; by apply not_elem_of_nil in H|done|done|lia|done]. Qed.
Lemma tightens_refl r : Tightens r r.
Proof. split; auto; lia. Qed.

Lemma enough_of_baseline old new ov approvals :
  NoDup (pr_approvers new) -> Tightens old new -> GateTightens old new ->
  enough (effective_protection new ov) approvals -> enough (effective_protection old ov) approvals.
Proof.
  intros Hnd HT HG. unfold enough.
  set (olds := pr_approvers old). set (news := pr_approvers new).
  assert (forall x, x ∈ olds -> x ∈ news) as Hsub by apply HT.
  cbn [ep_approval_gate effective_protection ep_overlay_approvers ep_baseline_approvers]. fold olds news.
  destruct (ag_required_approvals (pr_approval_gate new)) as [n|] eqn:En.
  - assert (forall x, x ∈ news -> x ∈ olds) as Hback by (by apply HG; rewrite En).
    intros [Ho Hc]. pose proof (approved_length_le approvals news olds Hnd Hback) as Hle.
    assert (length news <= length olds) as Hlen by (by apply submseteq_length, NoDup_submseteq).
    assert (length news <= length (approved approvals news) -> forall x, x ∈ olds -> x ∈ approvals) as Hall.
    { intros Hl x Hx. revert x Hx. assert (forall x, x ∈ news -> x ∈ approvals) as Hn; [|auto].
      apply approved_all. pose proof (length_filter (fun a => a ∈ approvals) news). unfold approved in *. lia. }
    destruct (ag_required_approvals (pr_approval_gate old)) as [m|] eqn:Em.
    + split; [done|]. destruct (decide (n < N.of_nat (length news))%N).
      * destruct (decide (m = n)) as [->|Hne]; [lia|].
        assert (required old <= required new)%N as Hr by (apply HG; rewrite En, Em; congruence).
        unfold required in Hr. rewrite En, Em in Hr. cbn in Hr. lia.
      * rewrite (proj1 (approved_all approvals olds)); [lia|]. apply Hall. lia.
    + intros x Hx%elem_of_effective_approvers. destruct Hx as [Hx|Hx]; [|by apply Ho].
      assert (required old <= required new)%N as Hr by (apply HG; rewrite En, Em; congruence).
      unfold required in Hr. rewrite En, Em in Hr. cbn in Hr. fold olds in Hr. apply Hall; [lia|done].
  - intros Hn. assert (forall x, x ∈ olds -> x ∈ approvals) as Hall.
    { intros x Hx. apply Hn, elem_of_effective_approvers. left. by apply Hsub. }
    destruct (ag_required_approvals (pr_approval_gate old)) as [m|].
    + split; [intros x Hx; apply Hn, elem_of_effective_approvers; by right|].
      rewrite (proj1 (approved_all approvals olds) Hall). lia.
    + intros x [Hx|Hx]%elem_of_effective_approvers; [by apply Hall|].
      apply Hn, elem_of_effective_approvers. by right.
Qed.

Lemma enough_of_overlay b o n approvals :
  Tightens (rules_of o) (ov_rules n) ->
  enough (effective_protection b (Some n)) approvals -> enough (effective_protection b o) approvals.
Proof.
  intros HT. unfold enough. cbn [ep_approval_gate effective_protection].
  destruct (ag_required_approvals _) as [m|].
  - intros [H1 H2]. split; [|done]. intros x Hx. cbn in Hx. rewrite overlay_approvers_of in Hx. apply H1. cbn. by apply HT.
  - intros H x Hx. apply H. apply elem_of_effective_approvers in Hx. apply elem_of_effective_approvers.
    rewrite overlay_approvers_of in *. destruct Hx as [|Hx]; [by left|]. right. cbn. by apply HT.
Qed.

(** Two layers against two, each tightened or kept. *)
Lemma layers_stricter b b' o o' :
  Tightens b b' -> Tightens (rules_of o) (rules_of o') ->
  (ag_max_approval_age_s (pr_approval_gate b') <= ag_max_approval_age_s (pr_approval_gate b))%N ->
  expires_no_later (ag_added_gate_expiry_s (pr_approval_gate b')) (ag_added_gate_expiry_s (pr_approval_gate b)) ->
  (forall approvals, enough (effective_protection b' o') approvals -> enough (effective_protection b o) approvals) ->
  AtLeastAsStrict (effective_protection b' o') (effective_protection b o).
Proof.
  intros H1 H2 Hage Hexp Hen.
  assert (forall r, plain_ref r -> ref_allowed (effective_protection b' o') r = true ->
                    ref_allowed (effective_protection b o) r = true) as Hrefs.
  { intros r Hr. rewrite !effective_ref_allowed, !overlay_refs_of, !andb_true_iff.
    intros [Ha Hb]. split; [by apply H1|by apply H2]. }
  split.
  - intros r approvals Hr. rewrite !admits_ok. intros [Ha Hb]. split; [by apply Hrefs|by apply Hen].
  - intros [r|] Hr; cbn [admits_protection_ref]; [by apply Hrefs, Hr|].
    rewrite !effective_unrestricted, !overlay_refs_of, !andb_true_iff, !is_nil_spec.
    intros [Ha Hb]. split; [by apply H1|by apply H2].
  - intros human reason. unfold admits_reason, reason_rule. rewrite !effective_reason.
    pose proof (tg_reason _ _ H1). pose proof (tg_reason _ _ H2).
    destruct (pr_require_reason b), (pr_require_reason (rules_of o)); cbn; auto;
      rewrite ?orb_true_r; intros; simplify_eq/=; auto.
    all: by destruct (pr_require_reason b'), (pr_require_reason (rules_of o')); naive_solver.
  - unfold effective_wait_timer_s. rewrite !effective_timer.
    pose proof (tg_timer _ _ H1). pose proof (tg_timer _ _ H2).
    destruct (is_nil (ep_approvers (effective_protection b o))) eqn:E1; [lia|].
    destruct (is_nil (ep_approvers (effective_protection b' o'))) eqn:E2; [|lia].
    apply is_nil_spec in E2. exfalso. destruct (ep_approvers (effective_protection b o)) as [|x l] eqn:E; [done|].
    assert (x ∈ ep_approvers (effective_protection b o)) as Hx by (rewrite E; left).
    apply (not_elem_of_nil x). rewrite <- E2. apply elem_of_effective_approvers in Hx.
    apply elem_of_effective_approvers. rewrite overlay_approvers_of in *.
    destruct Hx as [Hx|Hx]; [left; by apply H1|right; by apply H2].
  - done.
  - done.
Qed.

(** The judge of a baseline edit, whatever overlay the Project holds. *)
Lemma baseline_judge_sound old new ov :
  NoDup (pr_approvers new) -> protection_loosenings old new = [] ->
  AtLeastAsStrict (effective_protection new ov) (effective_protection old ov).
Proof.
  intros Hn [HT HG]%protection_loosenings_nil. apply layers_stricter; [done|apply tightens_refl|apply HG|apply HG|].
  intros approvals. by apply enough_of_baseline.
Qed.
(** The judge of an overlay edit, over any baseline. *)
Lemma overlay_judge_sound b o n :
  overlay_loosenings o n = [] -> AtLeastAsStrict (effective_protection b (Some n)) (effective_protection b o).
Proof.
  intros [HT _]%protection_loosenings_nil. apply layers_stricter; [apply tightens_refl|done|lia|reflexivity|].
  intros approvals. by apply enough_of_overlay.
Qed.
Lemma overlay_tightens b o : AtLeastAsStrict (effective_protection b (Some o)) (effective_protection b None).
Proof.
  pose proof (permissive_tightens (ov_rules o)) as HT.
  apply layers_stricter; [apply tightens_refl|done|lia|reflexivity|]. intros approvals. by apply enough_of_overlay.
Qed.

Lemma eligibility_judge_sound old new project :
  STAR ∉ chars project -> eligibility_loosenings old new = [] ->
  eligibility_admits new project = true -> eligibility_admits old project = true.
Proof.
  intros Hp. destruct old as [|p], new as [|q]; cbn; try done. intros H%map_eq_nil.
  rewrite !existsb_exists. intros (g & Hg & Hm).
  pose proof (filter_nil_forall _ _ H g) as Hc. cbn beta in Hc.
  assert (covered p g = true) as Hcov.
  { destruct (covered p g); [done|]. exfalso. apply Hc; [by apply list_elem_of_In|done]. }
  destruct (covered_sound p g project Hp Hcov Hm) as (o & Ho & Hom). exists o.
  split; [by apply list_elem_of_In|done].
Qed.

(** ** Privileges *)

Lemma admit_capabilities_spec entry caps :
  admit_capabilities entry caps =
    (filter (fun c => c ∈ ig_capabilities entry) caps,
     map (fun cap => "capability `" +:+ cap +:+ "` is not granted to this image digest")
         (filter (fun c => c ∉ ig_capabilities entry) caps)).
Proof.
  unfold admit_capabilities.
  set (f := fun acc cap => _).
  assert (forall acc, foldl f acc caps =
    (acc.1 ++ filter (fun c => c ∈ ig_capabilities entry) caps,
     acc.2 ++ map (fun cap => "capability `" +:+ cap +:+ "` is not granted to this image digest")
         (filter (fun c => c ∉ ig_capabilities entry) caps))) as H; [|apply H].
  induction caps as [|c l IH]; intros [a b]; cbn [foldl]; [by rewrite !app_nil_r|].
  rewrite IH. unfold f. cbn [fst snd]. case_bool_decide as Hc.
  - rewrite (filter_cons_True _ c), (filter_cons_False _ c) by tauto. cbn. by rewrite <- app_assoc.
  - rewrite (filter_cons_False _ c), (filter_cons_True _ c) by tauto. cbn. by rewrite <- app_assoc.
Qed.

(** A whitelist admits exactly a request its entry for the image's digest
    covers; what it grants is what was asked. *)
Definition entry_covers (req : GrantRequest) (entry : ImageGrant) : Prop :=
  (gr_privileged req = true -> ig_privileged entry = true) /\
  (forall c, c ∈ gr_add_capabilities req -> c ∈ ig_capabilities entry).
Definition governed (req : GrantRequest) : Prop := gr_privileged req = true \/ gr_add_capabilities req <> [].
Definition entry_for (whitelist : list ImageGrant) (image : string) : option ImageGrant :=
  d ← image_digest image; List.find (fun g => String.eqb (ig_image_digest g) d) whitelist.

Lemma filter_all {A} (P : A -> Prop) {dec : forall x, Decision (P x)} (l : list A) :
  (forall x, x ∈ l -> P x) -> filter P l = l.
Proof.
  induction l as [|x l IH]; intros H; [done|]. rewrite filter_cons_True by (apply H; left).
  f_equal. apply IH. intros y Hy. apply H. by right.
Qed.
Lemma filter_none {A} (P : A -> Prop) {dec : forall x, Decision (P x)} (l : list A) :
  (forall x, x ∈ l -> ~ P x) -> filter P l = [].
Proof. intros H. apply elem_of_nil_inv. intros x [Hp Hx]%list_elem_of_filter. by destruct (H x Hx). Qed.

Lemma admit_grants_spec whitelist req image locked_out a :
  admit_grants_against_whitelist whitelist req image locked_out = Ok a <->
  a = mkAdmitted (gr_run_as_root req) (gr_add_capabilities req) (gr_privileged req) /\
  (governed req -> locked_out = false /\ exists entry, entry_for whitelist image = Some entry /\ entry_covers req entry).
Proof.
  unfold admit_grants_against_whitelist, governed, entry_for, entry_covers. destruct req as [root caps priv]. cbn -[admit_capabilities].
  destruct (negb (priv || negb (is_nil caps))) eqn:Eg.
  { destruct priv; [done|]. destruct caps; [|done]. split; [intros [= <-]|intros [-> _]]; [|done].
    split; [done|]. intros [|]; done. }
  assert (priv = true \/ caps <> []) as Hg by (destruct priv, caps; naive_solver).
  destruct locked_out; [split; [done|intros [_ H]; by destruct (H Hg)]|].
  destruct (image_digest image) as [d|]; cbn -[admit_capabilities]; [|split; [done|intros [_ H]; destruct (H Hg) as [_ (?&?&_)]; done]].
  destruct (List.find _ whitelist) as [e|]; cbn -[admit_capabilities]; [|split; [done|intros [_ H]; destruct (H Hg) as [_ (?&?&_)]; done]].
  rewrite admit_capabilities_spec. split.
  - case_match eqn:En; [|done]. apply is_nil_spec, app_eq_nil in En as [E1 E2%map_eq_nil].
    assert (forall c, c ∈ caps -> c ∈ ig_capabilities e) as Hc.
    { intros c Hc. destruct (decide (c ∈ ig_capabilities e)) as [|Hn]; [done|].
      destruct (filter_nil_forall _ _ E2 c Hc). done. }
    assert (priv = true -> ig_privileged e = true) as Hp by (destruct priv, (ig_privileged e); done).
    intros [= <-]. rewrite filter_all by done. split.
    + f_equal. destruct priv; [by rewrite Hp|done].
    + intros _. split; [done|]. exists e. auto.
  - intros [-> H]. destruct (H Hg) as [_ (e' & [= <-] & Hp & Hc)].
    rewrite (filter_none (fun c => c ∉ _)) by (intros x Hx Hn; auto).
    rewrite filter_all by done. cbn. destruct priv; [|done]. by rewrite Hp.
Qed.

Lemma find_filter_unique (l : list ImageGrant) (d : string) e :
  NoDup (map ig_image_digest l) -> e ∈ l -> ig_image_digest e = d ->
  List.find (fun g => String.eqb (ig_image_digest g) d) l = Some e /\ filter (fun o => ig_image_digest o = d) l = [e].
Proof.
  induction l as [|x l IH]; intros Hn He Hd; [by apply not_elem_of_nil in He|].
  cbn in Hn. apply NoDup_cons in Hn as [Hx Hn]. cbn [List.find]. apply elem_of_cons in He as [<-|He].
  - rewrite (proj2 (String.eqb_eq _ _)) by done. rewrite filter_cons_True by done. split; [done|]. f_equal.
    apply filter_none. intros y Hy Hyd. apply Hx. apply list_elem_of_fmap. exists y. split; [congruence|done].
  - assert (ig_image_digest x <> d) as Hxd.
    { intros E. apply Hx. apply list_elem_of_fmap. exists e. split; [congruence|done]. }
    rewrite (proj2 (String.eqb_neq _ _)) by done. rewrite filter_cons_False by done. by apply IH.
Qed.

(** The judge of a privilege edit, where the stored whitelist lists each digest
    once. *)
Lemma privilege_judge_sound old new req image locked_out a :
  NoDup (map ig_image_digest (from_option pg_privileged_images [] old)) ->
  privilege_grant_loosenings old new = [] ->
  admit_grants (Some new) req image locked_out = Ok a -> admit_grants old req image locked_out = Ok a.
Proof.
  intros Hnd H. unfold admit_grants. rewrite !admit_grants_spec. intros [-> Hg]. split; [done|].
  intros G. destruct (Hg G) as [Hl (e & He & Hp & Hc)]. split; [done|]. clear Hg.
  unfold privilege_grant_loosenings in H. apply dedup_adjacent_nil, app_eq_nil in H as [H _].
  unfold entry_for in *. destruct (image_digest image) as [d|]; [|done]. cbn in *.
  apply find_some in He as [Hin Hd%String.eqb_eq].
  set (olds := from_option pg_privileged_images [] old) in *.
  assert (image_loosenings olds e = []) as Hi.
  { destruct (image_loosenings olds e) as [|x l] eqn:E; [done|].
    assert (x ∈ flat_map (image_loosenings olds) (pg_privileged_images new)) as Hx.
    { apply list_elem_of_In, in_flat_map. exists e. split; [done|]. rewrite E. by left. }
    rewrite H in Hx. by apply not_elem_of_nil in Hx. }
  unfold image_loosenings in Hi. rewrite Hd in Hi.
  destruct (filter (fun o => ig_image_digest o = d) olds) as [|o l] eqn:Ef; [done|].
  assert (o ∈ filter (fun o => ig_image_digest o = d) olds) as Ho by (rewrite Ef; left).
  apply list_elem_of_filter in Ho as [Hod Hoin].
  destruct (find_filter_unique olds d o Hnd Hoin Hod) as [Hf Hone].
  rewrite Ef in Hone. injection Hone as ->.
  apply app_eq_nil in Hi as [H1 H2%map_eq_nil]. exists o. split; [done|]. split.
  - intros Hpr. rewrite Hp in H1 by done. cbn in H1. destruct (ig_privileged o); done.
  - intros c Hcr. pose proof (filter_nil_forall _ _ H2 c (Hc c Hcr)) as Hx. cbn in Hx.
    rewrite orb_false_r in Hx. by apply not_false_is_true, bool_decide_eq_true in Hx.
Qed.
