(* ===== verification/Governance.v ===== *)
(** * The governance store and the writes that change it
    (scarab-testkit/src/environment_governance.rs, scarab-server/src/org_environments.rs)

    The store's operations, one lock each, and the PUT handlers: read what is
    stored, judge whether the write loosens it, ask for a step-up if it does,
    and write only if what was judged is still stored. Other requests run
    between a handler's calls. A request arrives here already authorized for
    its scope; [Auth] models that. *)

From S2P Require Import Prelude Text Values Globs Protection Loosening.

(** ** The store *)

Definition EnvironmentKey : Type := string * string.
(** (org, environment, project). *)
Definition ProjectKey : Type := string * string * string.

Record ReportLine := mkLine {
  ln_referenced_only : bool;
  ln_referencing_projects : list string;
  ln_acknowledged : option EnvironmentMigrationAcknowledgement;
}.

Record GovState := mkGov {
  gv_environments : gmap EnvironmentKey OrgEnvironment;
  gv_overlays : gmap ProjectKey EnvironmentProjectOverlay;
  gv_grants : gmap ProjectKey EnvironmentProjectPrivilegeGrant;
  gv_legacy : gmap ProjectKey ProtectionRules;
  gv_reports : gmap EnvironmentKey ReportLine;
  gv_claims : gset EnvironmentKey;
}.
Definition gov_empty : GovState := mkGov ∅ ∅ ∅ ∅ ∅ ∅.
Definition set_environments f s := mkGov (f (gv_environments s)) (gv_overlays s) (gv_grants s) (gv_legacy s) (gv_reports s) (gv_claims s).
Definition set_overlays f s := mkGov (gv_environments s) (f (gv_overlays s)) (gv_grants s) (gv_legacy s) (gv_reports s) (gv_claims s).
Definition set_grants f s := mkGov (gv_environments s) (gv_overlays s) (f (gv_grants s)) (gv_legacy s) (gv_reports s) (gv_claims s).
Definition set_legacy f s := mkGov (gv_environments s) (gv_overlays s) (gv_grants s) (f (gv_legacy s)) (gv_reports s) (gv_claims s).
Definition set_reports f s := mkGov (gv_environments s) (gv_overlays s) (gv_grants s) (gv_legacy s) (f (gv_reports s)) (gv_claims s).
Definition set_claims f s := mkGov (gv_environments s) (gv_overlays s) (gv_grants s) (gv_legacy s) (gv_reports s) (f (gv_claims s)).

Definition GovOp (A : Type) : Type := GovState -> Result OrgEnvironmentError A * GovState.
Definition not_found (org environment : string) : OrgEnvironmentError := OeNotFound org environment.

(** Eligibility as stored: patterns sorted and deduplicated. *)
Definition sorted_eligibility (e : EnvironmentProjectEligibility) : EnvironmentProjectEligibility :=
  match e with
  | Projects p => Projects (dedup_adjacent (merge_sort str_le p))
  | AllProjects => AllProjects
  end.

Definition new_environment (org name : string) (eligibility : EnvironmentProjectEligibility) : OrgEnvironment :=
  mkOrgEnvironment org name None "" permissive_rules eligibility 0 0 "testkit".

Definition governance (s : GovState) (env : OrgEnvironment) (project : string) : DeployGovernance :=
  let key := (oe_org env, oe_name env, project) in
  governance_new env project (gv_overlays s !! key) (gv_grants s !! key).

Definition org_environment (org environment : string) : GovOp (option OrgEnvironment) :=
  fun s => (Ok (gv_environments s !! (org, environment)), s).
Definition deploy_governance (org project environment : string) : GovOp (option DeployGovernance) :=
  fun s => (Ok ((fun env => governance s env project) <$> gv_environments s !! (org, environment)), s).

(** The keys of an org, by environment name: a [BTreeMap]'s order. *)
Definition names_in {V} (org : string) (m : gmap EnvironmentKey V) : list string :=
  merge_sort str_le (map (fun p => p.1.2) (filter (fun p => p.1.1 = org) (map_to_list m))).
(** The projects of an environment, by name. *)
Definition projects_in {V} (org environment : string) (m : gmap ProjectKey V) : list string :=
  merge_sort str_le (map (fun p => p.1.2) (filter (fun p => p.1.1 = (org, environment)) (map_to_list m))).

Definition project_environment_governance (org project : string) : GovOp (list DeployGovernance) :=
  fun s => (Ok (filter (fun g => dg_eligible g = true \/ is_Some (dg_overlay g) \/ is_Some (dg_privilege_grant g))
                  (omap (fun name => (fun env => governance s env project) <$> gv_environments s !! (org, name))
                        (names_in org (gv_environments s)))), s).

Definition with_protection (p : EnvironmentProtectionRules) (by_ : string) (at_ : Z) (e : OrgEnvironment) : OrgEnvironment :=
  mkOrgEnvironment (oe_org e) (oe_name e) (oe_display_name e) (oe_description e) p (oe_eligibility e) (oe_created_at e) at_ by_.
Definition with_eligibility (el : EnvironmentProjectEligibility) (by_ : string) (at_ : Z) (e : OrgEnvironment) : OrgEnvironment :=
  mkOrgEnvironment (oe_org e) (oe_name e) (oe_display_name e) (oe_description e) (oe_protection e) el (oe_created_at e) at_ by_.

Definition put_environment_protection_expecting (org environment : string) (protection : EnvironmentProtectionRules)
    (expected : option EnvironmentProtectionRules) (updated_by : string) (updated_at : Z) : GovOp OrgEnvironment :=
  fun s => match gv_environments s !! (org, environment) with
  | None => (Err (not_found org environment), s)
  | Some env =>
      if from_option (fun e => bool_decide (e <> oe_protection env)) false expected then (Err changed_concurrently, s)
      else let env' := with_protection protection updated_by updated_at env in
           (Ok env', set_environments <[(org, environment) := env']> s)
  end.

Definition overlay_key (o : EnvironmentProjectOverlay) : ProjectKey := (ov_org o, ov_environment o, ov_project o).
Definition grant_key (g : EnvironmentProjectPrivilegeGrant) : ProjectKey := (pg_org g, pg_environment g, pg_project g).

(** An overlay stores no approval gate settings. *)
Definition without_gate_rules (o : EnvironmentProjectOverlay) : EnvironmentProjectOverlay :=
  let r := ov_rules o in
  mkOverlay (ov_org o) (ov_environment o) (ov_project o)
    (mkRules (pr_approvers r) (pr_allowed_refs r) (pr_wait_timer_s r) (pr_require_reason r) default_gate_rules).

Definition put_environment_project_overlay_expecting (overlay : EnvironmentProjectOverlay)
    (expected : option (option EnvironmentProjectOverlay)) : GovOp unit :=
  fun s => if negb (bool_decide (is_Some (gv_environments s !! (ov_org overlay, ov_environment overlay))))
  then (Err (not_found (ov_org overlay) (ov_environment overlay)), s)
  else let key := overlay_key overlay in
       if from_option (fun e => bool_decide (ov_rules <$> gv_overlays s !! key <> ov_rules <$> e)) false expected
       then (Err changed_concurrently, s)
       else (Ok tt, set_overlays <[key := without_gate_rules overlay]> s).

Definition delete_environment_project_overlay (org environment project : string) : GovOp bool :=
  fun s => (Ok (bool_decide (is_Some (gv_overlays s !! (org, environment, project)))),
            set_overlays (delete (org, environment, project)) s).

Definition grant_content (g : EnvironmentProjectPrivilegeGrant) : list ImageGrant * bool :=
  (pg_privileged_images g, pg_permit_k8s_overlay g).
Definition put_environment_project_privilege_grant_expecting (grant : EnvironmentProjectPrivilegeGrant)
    (expected : option (option EnvironmentProjectPrivilegeGrant)) : GovOp unit :=
  fun s => if negb (bool_decide (is_Some (gv_environments s !! (pg_org grant, pg_environment grant))))
  then (Err (not_found (pg_org grant) (pg_environment grant)), s)
  else let key := grant_key grant in
       if from_option (fun e => bool_decide (grant_content <$> gv_grants s !! key <> grant_content <$> e)) false expected
       then (Err changed_concurrently, s)
       else (Ok tt, set_grants <[key := grant]> s).

Definition delete_environment_project_privilege_grant (org environment project : string) : GovOp bool :=
  fun s => (Ok (bool_decide (is_Some (gv_grants s !! (org, environment, project)))),
            set_grants (delete (org, environment, project)) s).

(** [false] when another holds the claim; dropping it releases it. *)
Definition claim_environment_name (org name : string) : GovOp bool :=
  fun s => if decide ((org, name) ∈ gv_claims s) then (Ok false, s) else (Ok true, set_claims (union {[ (org, name) ]}) s).
Definition drop_claim (org name : string) (s : GovState) : GovState := set_claims (fun c => c ∖ {[ (org, name) ]}) s.

Section WithTables.
Context {T : CharTables}.

Definition put_environment_eligibility_expecting (org environment : string) (eligibility : EnvironmentProjectEligibility)
    (expected : option EnvironmentProjectEligibility) (updated_by : string) (updated_at : Z) : GovOp OrgEnvironment :=
  fun s => match eligibility_validate eligibility with
  | Err e => (Err e, s)
  | Ok _ => match gv_environments s !! (org, environment) with
      | None => (Err (not_found org environment), s)
      | Some env =>
          if from_option (fun e => bool_decide (sorted_eligibility e <> sorted_eligibility (oe_eligibility env))) false expected
          then (Err changed_concurrently, s)
          else let env' := with_eligibility (sorted_eligibility eligibility) updated_by updated_at env in
               (Ok env', set_environments <[(org, environment) := env']> s)
      end
  end.

(** The copies of one environment's rows under another name. *)
Definition copy_rows {V} (key_of : V -> ProjectKey) (org from : string) (rename : V -> V) (m : gmap ProjectKey V) : gmap ProjectKey V :=
  foldl (fun m' project => match m !! (org, from, project) with
                           | Some v => <[key_of (rename v) := rename v]> m'
                           | None => m'
                           end) m (projects_in org from m).
Definition overlay_renamed (to_ : string) (o : EnvironmentProjectOverlay) : EnvironmentProjectOverlay :=
  mkOverlay (ov_org o) to_ (ov_project o) (ov_rules o).
Definition grant_renamed (to_ : string) (g : EnvironmentProjectPrivilegeGrant) : EnvironmentProjectPrivilegeGrant :=
  mkPrivilegeGrant (pg_org g) to_ (pg_project g) (pg_privileged_images g) (pg_permit_k8s_overlay g).

Definition duplicate_environment (org from to_ : string) (display_name : option string) (updated_by : string)
    (updated_at : Z) : GovOp OrgEnvironment :=
  fun s => match gv_environments s !! (org, from) with
  | None => (Err (not_found org from), s)
  | Some source =>
      let copy := mkOrgEnvironment (oe_org source) to_ display_name (oe_description source) (oe_protection source)
                    (oe_eligibility source) updated_at updated_at updated_by in
      match org_environment_validate copy with
      | Err e => (Err e, s)
      | Ok _ =>
          if bool_decide (is_Some (gv_environments s !! (org, to_))) then (Err (already_exists org to_), s)
          else (Ok copy, set_environments <[(org, to_) := copy]>
                           (set_grants (copy_rows grant_key org from (grant_renamed to_))
                             (set_overlays (copy_rows overlay_key org from (overlay_renamed to_)) s)))
      end
  end.
End WithTables.

Definition environment_projects (org environment : string) : GovOp (list EnvironmentProjectRecord) :=
  fun s => match gv_environments s !! (org, environment) with
  | None => (Err (not_found org environment), s)
  | Some env =>
      (Ok (collect_records env
             (omap (fun p => gv_overlays s !! (org, environment, p)) (projects_in org environment (gv_overlays s)))
             (omap (fun p => gv_grants s !! (org, environment, p)) (projects_in org environment (gv_grants s)))), s)
  end.

Definition report (s : GovState) (org name : string) (line : ReportLine) : EnvironmentMigrationReport :=
  let merged := projects_in org name (gv_legacy s) in
  let names := dedup_adjacent (merge_sort str_le (merged ++ ln_referencing_projects line)) in
  mkReport org name merged (ln_referenced_only line) (ln_referencing_projects line) 0 (ln_acknowledged line)
    (oe_protection <$> gv_environments s !! (org, name))
    (map (fun p => mkReportProject p (gv_legacy s !! (org, name, p)) (gv_overlays s !! (org, name, p))) names).
Definition environment_migration_report (org : string) : GovOp (list EnvironmentMigrationReport) :=
  fun s => (Ok (omap (fun name => report s org name <$> gv_reports s !! (org, name)) (names_in org (gv_reports s))), s).
(** The first acknowledgement stands. *)
Definition acknowledge_environment_migration_report (org environment by_ : string) (at_ : Z) : GovOp (option EnvironmentMigrationReport) :=
  fun s => match gv_reports s !! (org, environment) with
  | None => (Ok None, s)
  | Some line =>
      let line' := mkLine (ln_referenced_only line) (ln_referencing_projects line)
                     (Some (default (mkAck at_ by_) (ln_acknowledged line))) in
      let s' := set_reports <[(org, environment) := line']> s in
      (Ok (Some (report s' org environment line')), s')
  end.

(** ** What the migration writes *)

Definition with_environment (org name : string) (e : EnvironmentProjectEligibility) (s : GovState) : GovState :=
  set_environments <[(org, name) := new_environment org name e]> s.

Definition with_migrated_legacy_environment (org project : string) (legacy : Environment) (s : GovState) : GovState :=
  let name := en_name legacy in
  let env := default (new_environment org name no_project) (gv_environments s !! (org, name)) in
  let eligibility := match oe_eligibility env with
    | Projects l => Projects (if bool_decide (project ∈ l) then l else merge_sort str_le (l ++ [project]))
    | AllProjects => AllProjects
    end in
  let env' := mkOrgEnvironment (oe_org env) (oe_name env) (oe_display_name env) (oe_description env) (oe_protection env)
                eligibility (oe_created_at env) (oe_updated_at env) (oe_updated_by env) in
  let '(overlay, grant) := migrate_legacy_environment org project legacy in
  let key := (org, name, project) in
  set_grants (fun m => match grant with Some g => <[key := g]> m | None => delete key m end)
    (set_overlays <[key := overlay]> (set_legacy <[key := en_protection legacy]>
      (set_environments <[(org, name) := env']> s))).

Definition with_migration_report (org name : string) (referenced_only : bool) (referencing : list string) (s : GovState) : GovState :=
  set_reports <[(org, name) := mkLine referenced_only referencing None]> s.
Definition remove_environment (org name : string) (s : GovState) : GovState :=
  mkGov (delete (org, name) (gv_environments s)) (filter (fun p => p.1.1 <> (org, name)) (gv_overlays s))
    (filter (fun p => p.1.1 <> (org, name)) (gv_grants s)) (gv_legacy s) (gv_reports s) (gv_claims s).

(** ** Handlers *)

Inductive ApiError : Type :=
| AeNotFound
| AeBadRequest (m : string)
| AeConflict (m : string)
| AePreconditionFailed (m : string)
| AeDb (m : string)
| AeStepUpRequired (changes : list string)
| AeOther (m : string).

Definition org_environment_api_error (e : OrgEnvironmentError) : ApiError :=
  match e with
  | OeInvalid m => AeBadRequest m
  | OeNotFound _ _ => AeNotFound
  | OeInUse m => AeConflict m
  | OeConflict m => AeConflict m
  | OePreconditionFailed m => AePreconditionFailed m
  | OeStore m => AeDb m
  end.

(** A handler runs with the rest of the server: before each of its own store
    calls the next of these changes, by other requests, happens. *)
Definition Others : Type := list (GovState -> GovState).
Definition Handler (A : Type) : Type := GovState * Others -> Result ApiError A * (GovState * Others).

Definition h_ret {A} (a : A) : Handler A := fun w => (Ok a, w).
Definition h_fail {A} (e : ApiError) : Handler A := fun w => (Err e, w).
Definition h_of {A} (r : Result ApiError A) : Handler A := fun w => (r, w).
Definition h_bind {A B} (m : Handler A) (f : A -> Handler B) : Handler B :=
  fun w => match m w with (Ok a, w') => f a w' | (Err e, w') => (Err e, w') end.
(** One store call, its error as the API's. *)
Definition h_call {A} (op : GovOp A) : Handler A :=
  fun '(s, others) =>
    let '(s, others) := match others with [] => (s, []) | f :: l => (f s, l) end in
    let '(r, s') := op s in (map_err org_environment_api_error r, (s', others)).
Notation "'do*' x := m 'in' k" := (h_bind m (fun x => k)) (at level 10, x pattern, m at level 100, k at level 200).

Record GateBody := mkGateBody {
  gb_missing_gate_mode : MissingGateMode;
  gb_added_gate_expiry_s : option N;
  gb_required_approvals : option N;
  gb_max_approval_age_s : option N;
}.
Record RulesBody := mkRulesBody {
  rb_approvers : list string;
  rb_allowed_refs : list string;
  rb_wait_timer_s : N;
  rb_require_reason : bool;
}.

Definition is_hex_digest (hex : string) : bool := negb (String.eqb hex "") && all_bytes is_hexdigit hex.
(** [s.strip_prefix("sha256:")], the empty string when it is not one. *)
Definition digest_hex (d : string) : string := if starts_with "sha256:" d then drop_str 7 d else "".

Definition refuse_wait_timer_without_approvers (wait_timer_s : N) (approvers : list string) : Result ApiError unit :=
  if (0 <? wait_timer_s)%N && is_nil approvers
  then Err (AeBadRequest ("a wait timer needs approvers: it is a minimum wait on the Environment's approval "
    +:+ "gate, and an Environment with no approvers has none; add an approver or set the wait timer to 0"))
  else Ok tt.

Section Requests.
Context {T : CharTables}.
(** Who a typed subject names (the identity store's Principals). *)
Context (resolve_typed_subject : string -> Result ApiError string).
(** The step-up guard's answer for this request: whether a human confirmed
    these changes ([GuardCtx::require]). *)
Context (guard_require : list string -> Result ApiError unit).

Fixpoint resolve_approvers (resolved : list string) (approvers : list string) : Result ApiError (list string) :=
  match approvers with
  | [] => Ok resolved
  | a :: l =>
      if String.eqb (trim a) "" then Err (AeBadRequest "an approver must not be empty")
      else principal ← resolve_typed_subject a; resolve_approvers (push_new resolved principal) l
  end.

Definition checked_rules_with_gate (b : RulesBody) (gate : ApprovalGateRules) : Result ApiError EnvironmentProtectionRules :=
  if existsb (fun r => String.eqb (trim r) "") (rb_allowed_refs b)
  then Err (AeBadRequest "an allowed ref must not be empty")
  else resolved ← resolve_approvers [] (rb_approvers b);
       _ ← map_err org_environment_api_error (approval_gate_validate gate resolved);
       Ok (mkRules resolved (rb_allowed_refs b) (rb_wait_timer_s b) (rb_require_reason b) gate).
Definition checked_rules (b : RulesBody) : Result ApiError EnvironmentProtectionRules :=
  checked_rules_with_gate b default_gate_rules.

Definition step_up_unless_tightening (loosenings : list Loosening) : Result ApiError unit :=
  if is_nil loosenings then Ok tt else guard_require loosenings.

Definition stored_environment (org env : string) : Handler OrgEnvironment :=
  do* e := h_call (org_environment org env) in
  match e with Some e => h_ret e | None => h_fail AeNotFound end.
Definition stored_governance (org project env : string) : Handler DeployGovernance :=
  do* g := h_call (deploy_governance org project env) in
  match g with Some g => h_ret g | None => h_fail AeNotFound end.

Definition put_environment_protection (org env : string) (b : RulesBody) (g : GateBody) (by_ : string) (at_ : Z) : Handler OrgEnvironment :=
  do* rules := h_of (checked_rules_with_gate b
                 (mkGateRules (gb_missing_gate_mode g) (gb_added_gate_expiry_s g) (gb_required_approvals g)
                    (default DEFAULT_MAX_APPROVAL_AGE_S (gb_max_approval_age_s g)))) in
  do* _ := h_of (refuse_wait_timer_without_approvers (pr_wait_timer_s rules) (pr_approvers rules)) in
  do* current := stored_environment org env in
  do* _ := h_of (step_up_unless_tightening (protection_loosenings (oe_protection current) rules)) in
  h_call (put_environment_protection_expecting org env rules (Some (oe_protection current)) by_ at_).

Definition put_environment_eligibility (org env : string) (all_projects : bool) (projects : list string)
    (by_ : string) (at_ : Z) : Handler OrgEnvironment :=
  do* eligibility := h_of (match all_projects, is_nil projects with
    | true, true => Ok AllProjects
    | true, false => Err (AeBadRequest "`projects` must be empty when `all_projects` is true")
    | false, _ => Ok (Projects projects)
    end) in
  do* _ := h_of (map_err org_environment_api_error (eligibility_validate eligibility)) in
  do* current := stored_environment org env in
  do* _ := h_of (step_up_unless_tightening (eligibility_loosenings (oe_eligibility current) eligibility)) in
  h_call (put_environment_eligibility_expecting org env eligibility (Some (oe_eligibility current)) by_ at_).

Definition put_environment_project_overlay (org env project : string) (b : RulesBody) : Handler EnvironmentProjectOverlay :=
  do* governance := stored_governance org project env in
  if negb (dg_eligible governance) && bool_decide (dg_overlay governance = None)
  then h_fail (AeConflict ("`" +:+ project +:+ "` is not eligible for environment `" +:+ env +:+ "`, so it has nothing to "
    +:+ "tighten; an org admin must make `" +:+ project +:+ "` eligible for `" +:+ env +:+ "` first"))
  else
  do* rules := h_of (checked_rules b) in
  let effective := pr_approvers (oe_protection (dg_environment governance)) ++ pr_approvers rules in
  do* _ := h_of (refuse_wait_timer_without_approvers (pr_wait_timer_s rules) effective) in
  let overlay := mkOverlay org env project rules in
  do* _ := h_of (step_up_unless_tightening (overlay_loosenings (dg_overlay governance) overlay)) in
  do* _ := h_call (put_environment_project_overlay_expecting overlay (Some (dg_overlay governance))) in
  h_ret overlay.

Fixpoint checked_images (acc images : list ImageGrant) : Result ApiError (list ImageGrant) :=
  match images with
  | [] => Ok acc
  | g :: l =>
      let d := ig_image_digest g in
      if negb (is_hex_digest (digest_hex d))
      then Err (AeBadRequest ("`" +:+ d +:+ "` is not an image digest; write it as `sha256:<hex>`"))
      else if existsb (fun p => String.eqb (ig_image_digest p) d) acc
      then Err (AeBadRequest ("`" +:+ d +:+ "` is listed twice"))
      else checked_images (acc ++ [g]) l
  end.

Definition put_environment_project_privilege_grant (org env project : string) (images : list ImageGrant)
    (permit : bool) : Handler EnvironmentProjectPrivilegeGrant :=
  do* privileged_images := h_of (checked_images [] images) in
  do* governance := stored_governance org project env in
  let old := dg_privilege_grant governance in
  let grant := mkPrivilegeGrant org env project privileged_images permit in
  do* _ := h_of (step_up_unless_tightening (privilege_grant_loosenings old grant)) in
  do* _ := h_call (put_environment_project_privilege_grant_expecting grant (Some old)) in
  h_ret grant.

(** Withdrawing a grant is exempt from step-up: it tightens. *)
Definition delete_environment_project_privilege_grant_h (org env project : string) : Handler unit :=
  do* was := h_call (delete_environment_project_privilege_grant org env project) in
  if was then h_ret tt else h_fail AeNotFound.
Definition delete_environment_project_overlay_h (org env project : string) : Handler unit :=
  do* was := h_call (delete_environment_project_overlay org env project) in
  if was then h_ret tt else h_fail AeNotFound.
End Requests.

(** ** Invariants and what tightening a store means *)

Record gov_ok (s : GovState) : Prop := {
  go_keyed : forall k e, gv_environments s !! k = Some e -> (oe_org e, oe_name e) = k;
  go_digests : forall k g, gv_grants s !! k = Some g -> NoDup (map ig_image_digest (pg_privileged_images g));
}.

Definition governance_at (s : GovState) (org environment project : string) : option DeployGovernance :=
  (fun env => governance s env project) <$> gv_environments s !! (org, environment).

(** [g'] admits no Deploy Run, approval set or privilege that [g] does not. *)
Record GovernanceTightens (project : string) (g g' : DeployGovernance) : Prop := {
  gn_eligible : STAR ∉ chars project -> dg_eligible g' = true -> dg_eligible g = true;
  gn_rules : AtLeastAsStrict (governance_protection g') (governance_protection g);
  gn_grants : forall req image locked_out a,
    admit_grants (dg_privilege_grant g') req image locked_out = Ok a ->
    admit_grants (dg_privilege_grant g) req image locked_out = Ok a;
  gn_overlay : permits_k8s_overlay (dg_privilege_grant g') = true -> permits_k8s_overlay (dg_privilege_grant g) = true;
}.

(** From a well-formed store, everything is at least as strict after as before. *)
Definition Stricter (s s' : GovState) : Prop :=
  gov_ok s -> gov_ok s' /\ forall org environment project,
    option_Forall2 (GovernanceTightens project) (governance_at s org environment project)
                                                (governance_at s' org environment project).

#[export] Instance at_least_preorder : PreOrder AtLeastAsStrict.
Proof.
  split.
  - intros p. split; auto; try lia; reflexivity.
  - intros p q r [A1 A2 A3 A4 A5 A6] [B1 B2 B3 B4 B5 B6]. split; auto; try lia; by etrans.
Qed.
#[export] Instance governance_tightens_refl project : Reflexive (GovernanceTightens project).
Proof. intros g. split; auto. reflexivity. Qed.
Lemma governance_tightens_trans project a b c :
  GovernanceTightens project a b -> GovernanceTightens project b c -> GovernanceTightens project a c.
Proof. intros [A1 A2 A3 A4] [B1 B2 B3 B4]. split; auto. by transitivity (governance_protection b). Qed.

#[export] Instance stricter_preorder : PreOrder Stricter.
Proof.
  split.
  - intros s H. split; [done|]. intros o e p. destruct (governance_at s o e p); constructor. reflexivity.
  - intros a b c Hab Hbc Ha. destruct (Hab Ha) as [Hb H1]. destruct (Hbc Hb) as [Hc H2].
    split; [done|]. intros o e p. specialize (H1 o e p). specialize (H2 o e p).
    destruct H1 as [g g' H1|]; inversion H2; subst; constructor.
    by eapply governance_tightens_trans.
Qed.

(** A change of one environment's row, its name kept. *)
Lemma environment_change_strict s org environment env env' :
  gv_environments s !! (org, environment) = Some env ->
  (oe_org env', oe_name env') = (oe_org env, oe_name env) ->
  (gov_ok s -> forall project, GovernanceTightens project (governance s env project) (governance s env' project)) ->
  Stricter s (set_environments <[(org, environment) := env']> s).
Proof.
  intros He Hk Ht Hok. destruct Hok as [H1 H2]. split.
  - split; [|done]. intros k e. cbn. intros [[<- <-]|[Hne He']]%lookup_insert_Some; [|by apply H1].
    rewrite Hk. by apply H1.
  - intros o n p. unfold governance_at. cbn [gv_environments set_environments].
    destruct (decide ((org, environment) = (o, n))) as [<-|Hne].
    + rewrite lookup_insert_eq, He. constructor. by apply Ht.
    + rewrite lookup_insert_ne by done. destruct (gv_environments s !! (o, n)) as [e|]; constructor.
      change (governance (set_environments _ s) e p) with (governance s e p). reflexivity.
Qed.

(** A change of one Project's row. *)
Lemma project_change_strict s (f : GovState -> GovState) org environment project :
  gv_environments (f s) = gv_environments s ->
  (gov_ok s -> forall k g, gv_grants (f s) !! k = Some g -> NoDup (map ig_image_digest (pg_privileged_images g))) ->
  (forall k, k <> (org, environment, project) ->
     gv_overlays (f s) !! k = gv_overlays s !! k /\ gv_grants (f s) !! k = gv_grants s !! k) ->
  (gov_ok s -> forall env, oe_org env = org -> oe_name env = environment ->
     GovernanceTightens project (governance s env project) (governance (f s) env project)) ->
  Stricter s (f s).
Proof.
  intros He Hg Hk Ht Hok. split; [split; [rewrite He; apply Hok|by apply Hg]|].
  intros o n p. unfold governance_at. rewrite He.
  destruct (gv_environments s !! (o, n)) as [e|] eqn:E; constructor.
  destruct (decide ((oe_org e, oe_name e, p) = (org, environment, project))) as [Heq|Hne].
  - injection Heq as <- <- <-. by apply Ht.
  - destruct (Hk _ Hne) as [Ho Hgr]. unfold governance. rewrite Ho, Hgr. reflexivity.
Qed.

(** ** The conditional writes tighten what they were judged against *)

Lemma put_protection_strict org env rules cur by_ at_ s :
  NoDup (pr_approvers rules) -> protection_loosenings cur rules = [] ->
  Stricter s (put_environment_protection_expecting org env rules (Some cur) by_ at_ s).2.
Proof.
  intros Hn Hl. unfold put_environment_protection_expecting.
  destruct (gv_environments s !! (org, env)) as [e|] eqn:E; [|reflexivity]. cbn [from_option].
  case_bool_decide as Hc; [reflexivity|]. subst cur.
  apply (environment_change_strict _ _ _ e); [done|done|]. intros _ project. split; cbn; try done.
  unfold governance_protection. cbn. by apply baseline_judge_sound.
Qed.

Lemma sorted_eligibility_admits e project : eligibility_admits (sorted_eligibility e) project = eligibility_admits e project.
Proof.
  destruct e as [|p]; [done|]. cbn. apply eq_true_iff_eq. rewrite !existsb_exists.
  split; intros (x & Hx & Hm); exists x; (split; [|done]); apply list_elem_of_In in Hx; apply list_elem_of_In.
  - by rewrite elem_of_dedup_adjacent, merge_sort_Permutation in Hx.
  - by rewrite elem_of_dedup_adjacent, merge_sort_Permutation.
Qed.

Lemma put_eligibility_strict `{CharTables} org env eligibility cur by_ at_ s :
  eligibility_loosenings cur eligibility = [] ->
  Stricter s (put_environment_eligibility_expecting org env eligibility (Some cur) by_ at_ s).2.
Proof.
  intros Hl. unfold put_environment_eligibility_expecting.
  destruct (eligibility_validate eligibility); [|reflexivity].
  destruct (gv_environments s !! (org, env)) as [e|] eqn:E; [|reflexivity]. cbn [from_option].
  case_bool_decide as Hc; [reflexivity|].
  apply (environment_change_strict _ _ _ e); [done|done|]. intros _ project. split; cbn; try done.
  intros Hp Ha. rewrite sorted_eligibility_admits in Ha.
  apply (eligibility_judge_sound cur) in Ha; [|done|done].
  rewrite <- sorted_eligibility_admits, Hc, sorted_eligibility_admits in Ha. done.
Qed.

(** Effective rules read an overlay by its rules, gate settings apart. *)
Lemma effective_overlay_rules b o o' :
  ov_rules <$> o = ov_rules <$> o' -> effective_protection b o = effective_protection b o'.
Proof. unfold effective_protection. by intros ->. Qed.
Lemma effective_without_gate b o :
  effective_protection b (Some (without_gate_rules o)) = effective_protection b (Some o).
Proof. done. Qed.

Lemma put_overlay_strict overlay cur s :
  overlay_loosenings cur overlay = [] ->
  Stricter s (put_environment_project_overlay_expecting overlay (Some cur) s).2.
Proof.
  intros Hl. unfold put_environment_project_overlay_expecting. destruct (negb _); [reflexivity|]. cbn [from_option].
  case_bool_decide as Hc; [reflexivity|].
  apply (project_change_strict s (fun s => set_overlays _ s) (ov_org overlay) (ov_environment overlay) (ov_project overlay)).
  - done.
  - intros Hok. apply Hok.
  - intros k Hk. split; [|done]. cbn. by rewrite lookup_insert_ne.
  - intros _ env Ho Hn. unfold governance. cbn. rewrite Ho, Hn.
    fold (overlay_key overlay). rewrite lookup_insert_eq. split; cbn; try done.
    unfold governance_protection. cbn. rewrite effective_without_gate, (effective_overlay_rules _ (gv_overlays s !! overlay_key overlay) cur) by done.
    by apply overlay_judge_sound.
Qed.

Lemma grant_content_eq g g' : grant_content <$> g = grant_content <$> g' ->
  from_option pg_privileged_images [] g = from_option pg_privileged_images [] g' /\
  from_option pg_permit_k8s_overlay false g = from_option pg_permit_k8s_overlay false g'.
Proof. destruct g, g'; cbn; try done. by intros [= -> ->]. Qed.

Lemma admit_grants_content g g' :
  from_option pg_privileged_images [] g = from_option pg_privileged_images [] g' ->
  forall req image lo, admit_grants g req image lo = admit_grants g' req image lo.
Proof. unfold admit_grants. by intros ->. Qed.

Lemma permits_judge_sound old new :
  privilege_grant_loosenings old new = [] ->
  permits_k8s_overlay (Some new) = true -> permits_k8s_overlay old = true.
Proof.
  unfold privilege_grant_loosenings, permits_k8s_overlay. cbn. intros [_ H]%dedup_adjacent_nil%app_eq_nil Hp.
  rewrite Hp in H. by destruct (from_option pg_permit_k8s_overlay false old).
Qed.

Lemma put_grant_strict grant cur s :
  NoDup (map ig_image_digest (pg_privileged_images grant)) -> privilege_grant_loosenings cur grant = [] ->
  Stricter s (put_environment_project_privilege_grant_expecting grant (Some cur) s).2.
Proof.
  intros Hn Hl. unfold put_environment_project_privilege_grant_expecting. destruct (negb _); [reflexivity|].
  cbn [from_option]. case_bool_decide as Hc; [reflexivity|].
  apply grant_content_eq in Hc as [Hi Hp].
  apply (project_change_strict s (fun s => set_grants _ s) (pg_org grant) (pg_environment grant) (pg_project grant)).
  - done.
  - intros [_ Hd] k g. cbn. intros [[_ <-]|[_ Hg]]%lookup_insert_Some; [done|by apply (Hd k)].
  - intros k Hk. split; [done|]. cbn. by rewrite lookup_insert_ne.
  - intros [_ Hd] env Ho He. unfold governance. cbn. rewrite Ho, He.
    fold (grant_key grant). rewrite lookup_insert_eq. split; cbn.
    + done.
    + reflexivity.
    + intros req image lo a Ha. refine (eq_trans (admit_grants_content _ _ Hi req image lo) _).
      apply (privilege_judge_sound cur grant); [|done|done].
      rewrite <- Hi. destruct (gv_grants s !! grant_key grant) as [g|] eqn:Eg; [by apply (Hd _ g Eg)|constructor].
    + intros Hperm. refine (eq_trans Hp _). by apply (permits_judge_sound cur grant).
Qed.

Lemma delete_grant_strict org env project s :
  Stricter s (delete_environment_project_privilege_grant org env project s).2.
Proof.
  apply (project_change_strict s (fun s => set_grants _ s) org env project).
  - done.
  - intros [_ Hd] k g. cbn. intros [_ Hg]%lookup_delete_Some. by apply (Hd k).
  - intros k Hk. split; [done|]. cbn. by rewrite lookup_delete_ne.
  - intros _ e Ho He. unfold governance. cbn. rewrite Ho, He, lookup_delete_eq. split; cbn; [done|reflexivity| |done].
    intros req image lo a. unfold admit_grants. rewrite !admit_grants_spec. intros [-> H]. split; [done|].
    intros G. destruct (H G) as (_ & e' & He' & _). unfold entry_for in He'. by destruct (image_digest image).
Qed.

(** ** Handlers without a step-up only tighten *)

Section Unconfirmed.
Context (Rel : relation GovState) `{!PreOrder Rel}.

(** Every change the other requests still make is one [Rel] allows. *)
Definition others_keep (o : Others) : Prop := Forall (fun f => forall s, Rel s (f s)) o.
Definition keeps {A} (m : Handler A) : Prop :=
  forall s o, others_keep o -> Rel s (m (s, o)).2.1 /\ others_keep (m (s, o)).2.2.

Lemma keeps_of {A} (r : Result ApiError A) : keeps (h_of r).
Proof. intros s o H. split; [reflexivity|done]. Qed.
Lemma keeps_ret {A} (a : A) : keeps (h_ret a).
Proof. intros s o H. split; [reflexivity|done]. Qed.
Lemma keeps_fail {A} e : keeps (h_fail (A := A) e).
Proof. intros s o H. split; [reflexivity|done]. Qed.
Lemma keeps_bind {A B} (m : Handler A) (f : A -> Handler B) :
  keeps m -> (forall a, keeps (f a)) -> keeps (h_bind m f).
Proof.
  intros Hm Hf s o H. unfold h_bind. destruct (Hm s o H) as [H1 H2].
  destruct (m (s, o)) as [[a|e] [s' o']]; cbn in *; [|done].
  destruct (Hf a s' o' H2) as [H3 H4]. split; [by transitivity s'|done].
Qed.
(** A pure check: what follows may rely on its having passed. *)
Lemma keeps_check {A B} (r : Result ApiError A) (f : A -> Handler B) :
  (forall a, r = Ok a -> keeps (f a)) -> keeps (h_bind (h_of r) f).
Proof.
  intros Hf s o H. unfold h_bind, h_of. destruct r as [a|e]; [by apply Hf|]. split; [reflexivity|done].
Qed.
Lemma keeps_call {A} (op : GovOp A) : (forall s, Rel s (op s).2) -> keeps (h_call op).
Proof.
  intros Hop s o H. unfold h_call. destruct o as [|f o].
  - specialize (Hop s). destruct (op s) as [r s']. done.
  - apply Forall_cons in H as [Hf Ho]. specialize (Hop (f s)). destruct (op (f s)) as [r s']. cbn in *.
    split; [by transitivity (f s)|done].
Qed.
End Unconfirmed.

Lemma push_new_nodup acc a : NoDup acc -> NoDup (push_new acc a).
Proof.
  unfold push_new. case_bool_decide; [done|]. intros Hn. apply NoDup_app. split_and!; [done| |apply NoDup_singleton].
  intros x Hx ->%list_elem_of_singleton. done.
Qed.
Lemma resolve_approvers_nodup resolve acc l r :
  NoDup acc -> resolve_approvers resolve acc l = Ok r -> NoDup r.
Proof.
  revert acc; induction l as [|a l IH]; intros acc Hn; cbn; [by intros [= <-]|].
  destruct (String.eqb (trim a) ""); [done|]. destruct (resolve a) as [p|]; [|done]. cbn.
  apply IH. by apply push_new_nodup.
Qed.
Lemma checked_rules_nodup resolve b g r :
  checked_rules_with_gate resolve b g = Ok r -> NoDup (pr_approvers r).
Proof.
  unfold checked_rules_with_gate. destruct (existsb _ _); [done|].
  destruct (resolve_approvers resolve [] (rb_approvers b)) as [l|] eqn:E; [|done]. cbn.
  destruct (map_err _ _) as [u|]; [|done]. intros [= <-]. cbn.
  by apply (resolve_approvers_nodup resolve [] (rb_approvers b)); [constructor|].
Qed.
Lemma checked_images_nodup acc images r :
  NoDup (map ig_image_digest acc) -> checked_images acc images = Ok r -> NoDup (map ig_image_digest r).
Proof.
  revert acc; induction images as [|g l IH]; intros acc Hn; cbn [checked_images]; [by intros [= <-]|].
  destruct (negb _); [done|]. destruct (existsb _ acc) eqn:E; [done|]. apply IH.
  rewrite map_app. apply NoDup_app. split_and!; [done| |apply NoDup_singleton].
  intros x Hx ->%list_elem_of_singleton. apply list_elem_of_fmap in Hx as (p & Hp & Hin).
  assert (existsb (fun p => String.eqb (ig_image_digest p) (ig_image_digest g)) acc = true) as Ht; [|congruence].
  apply existsb_exists. exists p. split; [by apply list_elem_of_In|]. by apply String.eqb_eq.
Qed.

(** The governance requests a server takes. Deleting an overlay is a crown
    jewel: its route's guard asks before the handler runs. *)
Inductive GovRequest : Type :=
| PutProtection (org env : string) (b : RulesBody) (g : GateBody) (by_ : string) (at_ : Z)
| PutEligibility (org env : string) (all_projects : bool) (projects : list string) (by_ : string) (at_ : Z)
| PutOverlay (org env project : string) (b : RulesBody)
| DeleteOverlay (org env project : string)
| PutGrant (org env project : string) (images : list ImageGrant) (permit : bool)
| DeleteGrant (org env project : string).

Section Serve.
Context {T : CharTables} (resolve : string -> Result ApiError string) (guard : list string -> Result ApiError unit).

Definition handle (r : GovRequest) : Handler unit :=
  match r with
  | PutProtection org env b g by_ at_ => do* _ := put_environment_protection resolve guard org env b g by_ at_ in h_ret tt
  | PutEligibility org env all l by_ at_ => do* _ := put_environment_eligibility guard org env all l by_ at_ in h_ret tt
  | PutOverlay org env p b => do* _ := put_environment_project_overlay resolve guard org env p b in h_ret tt
  | DeleteOverlay org env p => do* _ := h_of (guard ["Delete a project's Environment overlay"]) in delete_environment_project_overlay_h org env p
  | PutGrant org env p images permit => do* _ := put_environment_project_privilege_grant guard org env p images permit in h_ret tt
  | DeleteGrant org env p => delete_environment_project_privilege_grant_h org env p
  end.

Lemma step_up_ok l : (forall m, is_ok (guard m) = false) -> step_up_unless_tightening guard l = Ok tt -> l = [].
Proof.
  intros Hg. unfold step_up_unless_tightening. destruct l as [|x l]; [done|]. cbn.
  specialize (Hg (x :: l)). by destruct (guard (x :: l)).
Qed.

Lemma handle_keeps (Rel : relation GovState) `{!PreOrder Rel} r :
  (forall a b, Stricter a b -> Rel a b) -> (forall m, is_ok (guard m) = false) -> keeps Rel (handle r).
Proof.
  intros HRel Hg.
  assert (forall A (op : GovOp A), (forall s, Stricter s (op s).2) -> keeps Rel (h_call op)) as Hcall.
  { intros A op Hop. apply keeps_call; [done|]. auto. }
  assert (forall A (f : option A -> Handler A) (op : GovOp (option A)), (forall s, (op s).2 = s) ->
            (forall a, keeps Rel (f a)) -> keeps Rel (h_bind (h_call op) f)) as Hread.
  { intros A f op Hop Hf. apply keeps_bind; [done| |done]. apply Hcall. intros s. rewrite Hop. reflexivity. }
  assert (forall A (e : option A) err, keeps Rel (match e with Some a => h_ret a | None => h_fail err end)) as Hopt.
  { intros A [a|] err; [by apply keeps_ret|by apply keeps_fail]. }
  destruct r; cbn [handle].
  - apply keeps_bind; [done| |intros; by apply keeps_ret]. apply keeps_check; [done|]. intros rules Hr.
    apply keeps_check; [done|]. intros [] _. apply keeps_bind; [done|by apply Hread|]. intros cur.
    apply keeps_check; [done|]. intros [] Hl%step_up_ok; [|done]. apply Hcall. intros s.
    apply put_protection_strict; [|done]. by eapply checked_rules_nodup.
  - apply keeps_bind; [done| |intros; by apply keeps_ret]. apply keeps_check; [done|]. intros e _.
    apply keeps_check; [done|]. intros [] _. apply keeps_bind; [done|by apply Hread|]. intros cur.
    apply keeps_check; [done|]. intros [] Hl%step_up_ok; [|done]. apply Hcall. intros s. by apply put_eligibility_strict.
  - apply keeps_bind; [done| |intros; by apply keeps_ret]. apply keeps_bind; [done|by apply Hread|]. intros g.
    case_match; [by apply keeps_fail|]. apply keeps_check; [done|]. intros rules _.
    apply keeps_check; [done|]. intros [] _. apply keeps_check; [done|]. intros [] Hl%step_up_ok; [|done].
    apply keeps_bind; [done| |intros; by apply keeps_ret]. apply Hcall. intros s. by apply put_overlay_strict.
  - apply keeps_check; [done|]. intros [] H. match goal with H : guard ?m = _ |- _ => specialize (Hg m); rewrite H in Hg end. done.
  - apply keeps_bind; [done| |intros; by apply keeps_ret]. apply keeps_check; [done|]. intros l Hi.
    apply keeps_bind; [done|by apply Hread|]. intros g. apply keeps_check; [done|]. intros [] Hl%step_up_ok; [|done].
    apply keeps_bind; [done| |intros; by apply keeps_ret]. apply Hcall. intros s. apply put_grant_strict; [|done].
    by apply (checked_images_nodup [] images); [constructor|].
  - apply keeps_bind; [done|apply Hcall; intros s; apply delete_grant_strict|]. intros [|]; [by apply keeps_ret|by apply keeps_fail].
Qed.
End Serve.

(** ** What every request keeps *)

(** Rows under their own names, and no grant that lists a digest twice: no
    request breaks it, whether or not a human confirmed it. *)
Definition OkKept (s s' : GovState) : Prop := gov_ok s -> gov_ok s'.
#[export] Instance ok_kept_preorder : PreOrder OkKept.
Proof. split; [intros s H; exact H|intros a b c H1 H2 H; apply H2, H1, H]. Qed.

Lemma ok_of_environment s org env e e' : gv_environments s !! (org, env) = Some e ->
  (oe_org e', oe_name e') = (oe_org e, oe_name e) -> OkKept s (set_environments <[(org, env) := e']> s).
Proof.
  intros He Hk [H1 H2]. split; [|done]. intros k x. cbn.
  intros [[<- <-]|[_ Hx]]%lookup_insert_Some; [rewrite Hk|]; by apply H1.
Qed.
Section Requests.
Context {T : CharTables} (resolve : string -> Result ApiError string) (guard : list string -> Result ApiError unit).

Lemma handle_ok_kept r : keeps OkKept (handle resolve guard r).
Proof.
  pose proof ok_kept_preorder as HP.
  assert (forall A (op : GovOp A), (forall s, OkKept s (op s).2) -> keeps OkKept (h_call op)) as Hcall by (intros; by apply keeps_call).
  assert (forall A B (f : A -> Handler B) (op : GovOp A), (forall s, OkKept s (op s).2) ->
            (forall a, keeps OkKept (f a)) -> keeps OkKept (h_bind (h_call op) f)) as Hread.
  { intros. apply keeps_bind; [done| |done]. by apply Hcall. }
  assert (forall A (e : option A) err, keeps OkKept (match e with Some a => h_ret a | None => h_fail err end)) as Hopt.
  { intros A [a|] err; [by apply keeps_ret|by apply keeps_fail]. }
  destruct r; cbn [handle].
  - apply keeps_bind; [done| |intros; by apply keeps_ret]. apply keeps_check; [done|]. intros rules _.
    apply keeps_check; [done|]. intros [] _. apply keeps_bind; [done|apply Hread; [by intros s|intros a; apply Hopt]|]. intros cur.
    apply keeps_check; [done|]. intros [] _. apply Hcall. intros s. unfold put_environment_protection_expecting.
    destruct (gv_environments s !! _) as [e|] eqn:E; [|done]. case_match; [done|]. by apply (ok_of_environment s org env e).
  - apply keeps_bind; [done| |intros; by apply keeps_ret]. apply keeps_check; [done|]. intros el _.
    apply keeps_check; [done|]. intros [] _. apply keeps_bind; [done|apply Hread; [by intros s|intros a; apply Hopt]|]. intros cur.
    apply keeps_check; [done|]. intros [] _. apply Hcall. intros s. unfold put_environment_eligibility_expecting.
    destruct (eligibility_validate _); [|done].
    destruct (gv_environments s !! _) as [e|] eqn:E; [|done]. case_match; [done|]. by apply (ok_of_environment s org env e).
  - apply keeps_bind; [done| |intros; by apply keeps_ret]. apply keeps_bind; [done|apply Hread; [by intros s|intros a; apply Hopt]|]. intros g.
    case_match; [by apply keeps_fail|]. apply keeps_check; [done|]. intros rules _. apply keeps_check; [done|]. intros [] _.
    apply keeps_check; [done|]. intros [] _. apply Hread; [|intros; by apply keeps_ret]. intros s.
    unfold put_environment_project_overlay_expecting. case_match; [done|]. case_match; [done|]. by intros [].
  - apply keeps_check; [done|]. intros [] _. apply Hread; [by intros s []|]. intros [|]; [by apply keeps_ret|by apply keeps_fail].
  - apply keeps_bind; [done| |intros; by apply keeps_ret]. apply keeps_check; [done|]. intros l Hl.
    apply keeps_bind; [done|apply Hread; [by intros s|intros a; apply Hopt]|]. intros g. apply keeps_check; [done|]. intros [] _.
    apply Hread; [|intros; by apply keeps_ret]. intros s. unfold put_environment_project_privilege_grant_expecting.
    case_match; [done|]. case_match; [done|]. intros [Hk Hd]. split; [done|]. intros k x. cbn.
    intros [[_ <-]|[_ Hx]]%lookup_insert_Some; [|by apply (Hd k)]. cbn. by apply (checked_images_nodup [] images); [constructor|].
  - apply Hread; [|intros [|]; [by apply keeps_ret|by apply keeps_fail]]. intros s [Hk Hd]. split; [done|]. intros k x. cbn.
    intros [_ Hx]%lookup_delete_Some. by apply (Hd k).
Qed.
End Requests.

(** ** Theorems *)

(** C1: A governance request no human confirms never loosens: in a store where
    no grant lists one image digest twice ([gov_ok], which every request,
    confirmed or not, keeps: [requests_keep_gov_ok]), each Environment and
    Project afterwards admits no ref, approval set, reason, wait, approval
    age, added gate's expiry, image privilege or raw overlay that it did not
    admit before (of refs and Projects without a `*` in their text). Whatever
    other requests do between its store calls, its own effect is such a
    tightening: for any preorder the others stay within that contains
    [Stricter], the whole request stays within it. With only unconfirmed
    requests running, every Environment is in the end at least as strict as at
    the start, even when two edits judged against the same stored rules race.
    A grant that lists a digest twice is outside it ([duplicate_digest_hole]). *)
Theorem unconfirmed_never_loosens `{CharTables} resolve guard (Rel : relation GovState) r s others
    (HP : PreOrder Rel)
    (Hrel : forall a b, Stricter a b -> Rel a b)
    (Hno : forall m, is_ok (guard m) = false)
    (Hothers : others_keep Rel others) :
  Rel s (handle resolve guard r (s, others)).2.1.
Proof. by apply (handle_keeps resolve guard Rel r Hrel Hno). Qed.

(** Every request keeps a store well-formed, among others that do. *)
Lemma requests_keep_gov_ok `{CharTables} resolve guard r s others :
  Forall (fun f => forall s, gov_ok s -> gov_ok (f s)) others -> gov_ok s -> gov_ok (handle resolve guard r (s, others)).2.1.
Proof. intros Ho. by apply (handle_ok_kept resolve guard r). Qed.

Definition open_gate : GateBody := mkGateBody MgAdd None None None.
Definition ann_and_bob : EnvironmentProtectionRules := mkRules ["ann"; "bob"] ["refs/heads/*"] 0 false default_gate_rules.
Definition prod_gov : GovState :=
  set_environments <[("acme", "prod") := with_protection ann_and_bob "ann" 1 (new_environment "acme" "prod" AllProjects)]> gov_empty.

Definition plain_tables : CharTables := {| debug_char _ ch := ch; upper_char ch := ch |}.
(** Adding an approver and a timer, no human at hand. *)
Definition tighten_prod : GovState * Others -> Result ApiError unit * (GovState * Others) :=
  @handle plain_tables Ok (fun m => Err (AeStepUpRequired m))
    (PutProtection "acme" "prod" (mkRulesBody ["ann"; "bob"; "dan"] ["refs/heads/main"] 60 true) open_gate "dan" 3).
(** Another request that adds an approver of its own. *)
Definition add_cho (s : GovState) : GovState :=
  (put_environment_protection_expecting "acme" "prod"
     (mkRules ["ann"; "bob"; "cho"] ["refs/heads/*"] 0 false default_gate_rules) (Some ann_and_bob) "cho" 2 s).2.

(** Alone the edit is stored; racing [add_cho] between its read and its write,
    it answers Conflict and [cho] stays. *)
Lemma unconfirmed_never_loosens_witness :
  (tighten_prod (prod_gov, [])).1 = Ok tt /\
  (tighten_prod (prod_gov, [id; add_cho])).1 = Err (AeConflict "changed concurrently; reload and retry") /\
  Stricter prod_gov (tighten_prod (prod_gov, [id; add_cho])).2.1.
Proof.
  split_and!; [vm_compute; reflexivity|vm_compute; reflexivity|].
  unfold tighten_prod. apply unconfirmed_never_loosens; [apply _|done|done|].
  constructor; [intros s; reflexivity|constructor; [|constructor]].
  intros s. apply put_protection_strict; [|vm_compute; reflexivity]. cbn [pr_approvers]. by apply (bool_decide_unpack _).
Defined.

Lemma pushed_nodup acc l : NoDup (acc ++ l) -> foldl push_new acc l = acc ++ l.
Proof.
  revert acc; induction l as [|x l IH]; intros acc Hn; cbn [foldl]; [by rewrite app_nil_r|].
  assert (push_new acc x = acc ++ [x]) as ->.
  { unfold push_new. rewrite bool_decide_eq_false_2; [done|]. intros Hx.
    apply NoDup_app in Hn as (_ & Hd & _). apply (Hd x Hx). left. }
  rewrite IH; rewrite <- app_assoc; done.
Qed.

Lemma permissive_refs o git_ref :
  ref_allowed (effective_protection permissive_rules (Some o)) git_ref = layer_allows git_ref (pr_allowed_refs (ov_rules o)).
Proof. by rewrite effective_ref_allowed. Qed.

Lemma is_ok_or_violations v : is_ok (or_violations v) = is_nil v.
Proof. unfold or_violations. by destruct v. Qed.
Lemma unapproved_same approvals l k :
  (forall x, x ∈ l <-> x ∈ k) -> is_nil (unapproved approvals l) = is_nil (unapproved approvals k).
Proof.
  intros H. apply eq_true_iff_eq. rewrite !is_nil_spec, !unapproved_nil. split; intros Ha x Hx; apply Ha; by apply H.
Qed.
Lemma is_nil_map {A B} (f : A -> B) l : is_nil (map f l) = is_nil l.
Proof. by destruct l. Qed.
Lemma is_nil_app {A} (l k : list A) : is_nil (l ++ k) = is_nil l && is_nil k.
Proof. by destruct l. Qed.

(** Over the permissive baseline, the migrated overlay decides as the old rules
    did, in the same words when no approver was listed twice. *)
Lemma migrated_admits old o git_ref approvals :
  ov_rules o = mkRules (lr_approvers old) (lr_allowed_refs old) (lr_wait_timer old) (lr_require_reason old) default_gate_rules ->
  is_ok (admits (effective_protection permissive_rules (Some o)) git_ref approvals) = is_ok (legacy_admits old git_ref approvals) /\
  (NoDup (lr_approvers old) ->
   admits (effective_protection permissive_rules (Some o)) git_ref approvals = legacy_admits old git_ref approvals).
Proof.
  intros Ho. unfold admits, legacy_admits. rewrite permissive_refs, Ho. cbn [pr_allowed_refs].
  unfold legacy_ref_allowed, approval_violations. cbn [effective_protection ep_approval_gate pr_approval_gate permissive_rules
    default_gate_rules ag_required_approvals ep_approvers pr_approvers fmap option_fmap option_map from_option].
  rewrite Ho. cbn [pr_approvers app]. split.
  - rewrite !is_ok_or_violations, !is_nil_app, !is_nil_map. f_equal. apply unapproved_same.
    intros x. rewrite elem_of_pushed, elem_of_nil. tauto.
  - intros Hn. by rewrite (pushed_nodup []).
Qed.

(** Migrating a Project's per-repository Environment changes no decision.
    Where the org Environment of that name is new or still has the permissive
    baseline, the Project is eligible after the migration and its Runs there are
    admitted, asked for a reason, granted privileges and allowed a raw overlay
    exactly as its old rules decided; a blocked Run reads the same words unless
    an approver was listed twice. *)
Theorem migration_decides_identically org project legacy s
    (Hfresh : from_option (fun e => oe_protection e = permissive_rules /\ (oe_org e, oe_name e) = (org, en_name legacy)) True
                (gv_environments s !! (org, en_name legacy)))
    (Hplain : STAR ∉ chars project) :
  let old := en_protection legacy in
  exists g, governance_at (with_migrated_legacy_environment org project legacy s) org (en_name legacy) project = Some g /\
    dg_eligible g = true /\
    (forall git_ref approvals,
       is_ok (admits (governance_protection g) git_ref approvals) = is_ok (legacy_admits old git_ref approvals) /\
       (NoDup (lr_approvers old) -> admits (governance_protection g) git_ref approvals = legacy_admits old git_ref approvals)) /\
    (forall human reason, admits_reason (governance_protection g) human reason = legacy_admits_reason old human reason) /\
    (forall req image locked_out, admit_grants (dg_privilege_grant g) req image locked_out
                                  = legacy_admit_grants old req image locked_out) /\
    permits_k8s_overlay (dg_privilege_grant g) = lr_permit_k8s_overlay old.
Proof.
  cbv zeta. unfold governance_at, with_migrated_legacy_environment, migrate_legacy_environment.
  set (env := default (new_environment org (en_name legacy) no_project) (gv_environments s !! (org, en_name legacy))).
  assert (oe_protection env = permissive_rules /\ oe_org env = org /\ oe_name env = en_name legacy) as (Hp & Hoo & Hon).
  { unfold env. destruct (gv_environments s !! (org, en_name legacy)) as [e|]; cbn in *; [|done].
    destruct Hfresh as [-> [= -> ->]]. done. }
  set (grant := if negb (is_nil (lr_privileged_images (en_protection legacy))) || lr_permit_k8s_overlay (en_protection legacy)
                then Some (mkPrivilegeGrant org (en_name legacy) project (lr_privileged_images (en_protection legacy))
                             (lr_permit_k8s_overlay (en_protection legacy))) else None).
  cbn [gv_environments set_grants set_overlays set_legacy set_environments].
  rewrite lookup_insert_eq. cbn [fmap option_fmap option_map]. eexists. split; [reflexivity|].
  unfold governance. cbn [oe_org oe_name gv_overlays gv_grants set_grants set_overlays set_legacy set_environments].
  rewrite Hoo, Hon, lookup_insert_eq.
  assert (forall k, (match grant with Some g => <[k := g]> (gv_grants s) | None => delete k (gv_grants s) end) !! k = grant) as Hgr.
  { intros k. destruct grant; [by rewrite lookup_insert_eq|by rewrite lookup_delete_eq]. }
  rewrite Hgr. unfold governance_new, governance_protection. cbn [dg_environment dg_eligible dg_overlay dg_privilege_grant oe_protection oe_eligibility].
  rewrite Hp. split_and!.
  - destruct (oe_eligibility env) as [|l]; [done|]. cbn. apply existsb_exists. exists project.
    split; [|apply glob_match_complete; [done|apply glob_refl]]. apply list_elem_of_In. case_bool_decide; [done|].
    rewrite merge_sort_Permutation. apply elem_of_app. right. by apply list_elem_of_singleton.
  - intros git_ref approvals. by apply migrated_admits.
  - intros human reason. done.
  - intros req image lo. unfold legacy_admit_grants, admit_grants, grant.
    by destruct (lr_privileged_images (en_protection legacy)), (lr_permit_k8s_overlay (en_protection legacy)).
  - unfold permits_k8s_overlay, grant.
    destruct (is_nil _), (lr_permit_k8s_overlay (en_protection legacy)) eqn:E; cbn; by rewrite ?E.
Qed.

Definition legacy_prod : Environment :=
  mkEnvironment "prod" (mkLegacy ["ann"; "bob"] 0 ["refs/heads/main"] 1 JNull "" [mkImageGrant "sha256:aa" true []] false true).
Lemma migration_decides_identically_witness :
  exists g, governance_at (with_migrated_legacy_environment "acme" "shop" legacy_prod gov_empty) "acme" "prod" "shop" = Some g /\
    dg_eligible g = true /\
    admits (governance_protection g) "refs/heads/dev" ["ann"]
      = Err ["ref `refs/heads/dev` is not allowed to deploy here"; "missing required approval from `bob`"].
Proof.
  destruct (migration_decides_identically "acme" "shop" legacy_prod gov_empty) as (g & Hg & He & Ha & _).
  - exact I.
  - apply (bool_decide_unpack _). vm_compute. exact I.
  - exists g. split; [exact Hg|]. split; [exact He|]. rewrite (proj2 (Ha _ _)); [vm_compute; reflexivity|].
    apply (bool_decide_unpack _). vm_compute. exact I.
Defined.

(** A Project overlay can only tighten: whatever the baseline and the
    overlay say, every deploy, ref, reason and approval the two admit together
    the baseline alone admits, the wait timer is no shorter, and the longest age
    of an approval no longer. *)
Theorem overlay_only_tightens b o :
  AtLeastAsStrict (effective_protection b (Some o)) (effective_protection b None).
Proof. apply overlay_tightens. Qed.

(** ** Duplicating an Environment *)

Record rows_keyed (s : GovState) : Prop := {
  rk_environments : forall k e, gv_environments s !! k = Some e -> (oe_org e, oe_name e) = k;
  rk_overlays : forall k o, gv_overlays s !! k = Some o -> overlay_key o = k;
  rk_grants : forall k g, gv_grants s !! k = Some g -> grant_key g = k;
}.

Section CopyRows.
Context {V} (key_of : V -> ProjectKey) (rename : V -> V) (org from to_ : string).
Context (m : gmap ProjectKey V).
Hypothesis Hkey : forall p v, m !! (org, from, p) = Some v -> key_of (rename v) = (org, to_, p).

Lemma copy_rows_other k : k.1 <> (org, to_) -> copy_rows key_of org from rename m !! k = m !! k.
Proof.
  intros Hk. unfold copy_rows. set (f := fun m' project => _).
  assert (forall l m', foldl f m' l !! k = m' !! k) as H; [|apply H].
  induction l as [|p l IH]; intros m'; [done|]. cbn [foldl]. rewrite IH. unfold f.
  destruct (m !! (org, from, p)) as [v|] eqn:E; [|done]. rewrite (Hkey p v E), lookup_insert_ne; [done|].
  intros <-. by apply Hk.
Qed.

Lemma elem_of_projects_in p : p ∈ projects_in org from m <-> is_Some (m !! (org, from, p)).
Proof.
  unfold projects_in. rewrite merge_sort_Permutation, list_elem_of_fmap. split.
  - intros ([[[o e] q] v] & -> & [He Hin]%list_elem_of_filter). cbn in *. injection He as -> ->.
    apply elem_of_map_to_list in Hin. by exists v.
  - intros [v Hv]. exists (org, from, p, v). split; [done|]. apply list_elem_of_filter.
    split; [done|]. by apply elem_of_map_to_list.
Qed.

Lemma copy_rows_new p : copy_rows key_of org from rename m !! (org, to_, p) =
  match m !! (org, from, p) with Some v => Some (rename v) | None => m !! (org, to_, p) end.
Proof.
  unfold copy_rows. set (f := fun m' project => _).
  assert (forall l m', foldl f m' l !! (org, to_, p) =
    if decide (p ∈ l) then match m !! (org, from, p) with Some v => Some (rename v) | None => m' !! (org, to_, p) end
    else m' !! (org, to_, p)) as H.
  { induction l as [|q l IH]; intros m'; [done|]. cbn [foldl]. rewrite IH.
    destruct (decide (p = q)) as [<-|Hne].
    - rewrite (decide_True (P := p ∈ p :: l)) by left. unfold f.
      destruct (m !! (org, from, p)) as [v|] eqn:E; [|by case_decide].
      rewrite (Hkey p v E), lookup_insert_eq. by case_decide.
    - assert (f m' q !! (org, to_, p) = m' !! (org, to_, p)) as ->.
      { unfold f. destruct (m !! (org, from, q)) as [v|] eqn:E; [|done].
        rewrite (Hkey q v E), lookup_insert_ne by congruence. done. }
      destruct (decide (p ∈ l)) as [Hin|Hin].
      + rewrite decide_True by (by right). done.
      + rewrite decide_False; [done|]. rewrite elem_of_cons. tauto. }
  rewrite H. case_decide as Hin; [done|]. destruct (m !! (org, from, p)) as [v|] eqn:E; [|done].
  exfalso. apply Hin. apply elem_of_projects_in. by exists v.
Qed.
End CopyRows.

(** A duplicated Environment governs exactly as its source: when the copy is
    made, every Project is as eligible, held to the same effective rules and
    granted the same privileges there as in the source, and no other
    Environment's governance changes. *)
Theorem duplicate_governs_alike `{CharTables} s org from to_ display_name by_ at_ copy s'
    (Hrows : rows_keyed s)
    (Hleft : forall p, gv_overlays s !! (org, to_, p) = None /\ gv_grants s !! (org, to_, p) = None)
    (Hdup : duplicate_environment org from to_ display_name by_ at_ s = (Ok copy, s')) :
  (forall project, exists g g',
     governance_at s org from project = Some g /\ governance_at s' org to_ project = Some g' /\
     dg_eligible g' = dg_eligible g /\ governance_protection g' = governance_protection g /\
     (forall req image lo, admit_grants (dg_privilege_grant g') req image lo = admit_grants (dg_privilege_grant g) req image lo) /\
     permits_k8s_overlay (dg_privilege_grant g') = permits_k8s_overlay (dg_privilege_grant g)) /\
  (forall o e project, (o, e) <> (org, to_) -> governance_at s' o e project = governance_at s o e project).
Proof.
  unfold duplicate_environment in Hdup. destruct (gv_environments s !! (org, from)) as [source|] eqn:Es; [|done].
  set (c := mkOrgEnvironment _ _ _ _ _ _ _ _ _) in Hdup.
  destruct (org_environment_validate c); [|done]. case_bool_decide as Hfree; [done|]. injection Hdup as <- <-.
  pose proof (rk_environments s Hrows _ _ Es) as [= Hso Hsn].
  assert (forall p v, gv_overlays s !! (org, from, p) = Some v -> overlay_key (overlay_renamed to_ v) = (org, to_, p)) as Ko.
  { intros p v Hv. apply (rk_overlays s Hrows) in Hv. by destruct v; injection Hv as -> _ ->. }
  assert (forall p v, gv_grants s !! (org, from, p) = Some v -> grant_key (grant_renamed to_ v) = (org, to_, p)) as Kg.
  { intros p v Hv. apply (rk_grants s Hrows) in Hv. by destruct v; injection Hv as -> _ ->. }
  split.
  - intros p. destruct (Hleft p) as [Lo Lg]. unfold governance_at. rewrite Es. cbn [gv_environments set_environments].
    rewrite lookup_insert_eq. do 2 eexists. split; [reflexivity|]. split; [reflexivity|].
    unfold governance. cbn [gv_overlays gv_grants set_environments set_grants set_overlays].
    change (oe_org c) with (oe_org source). change (oe_name c) with to_. rewrite Hso, Hsn.
    rewrite (copy_rows_new _ _ _ _ _ _ Ko), (copy_rows_new _ _ _ _ _ _ Kg), Lo, Lg.
    split_and!; [done| | |].
    + unfold governance_protection. cbn. by destruct (gv_overlays s !! (org, from, p)).
    + intros. cbn. by destruct (gv_grants s !! (org, from, p)).
    + cbn. by destruct (gv_grants s !! (org, from, p)).
  - intros o e p Hne. unfold governance_at. cbn [gv_environments set_environments set_grants set_overlays]. rewrite lookup_insert_ne by done.
    destruct (gv_environments s !! (o, e)) as [env|] eqn:E; [|done]. cbn. f_equal.
    unfold governance. pose proof (rk_environments s Hrows _ _ E) as [= -> ->].
    cbn [gv_overlays gv_grants set_environments set_grants set_overlays].
    by rewrite (copy_rows_other _ _ _ _ to_), (copy_rows_other _ _ _ _ to_).
Qed.

(** A digest stored twice (a migrated whitelist keeps its repeats): the judge
    reads the union of its entries, admission the first, so a rewrite that
    grants [privileged] is judged no loosening. *)
Example duplicate_digest_hole :
  let old := mkPrivilegeGrant "acme" "prod" "shop" [mkImageGrant "sha256:aa" false []; mkImageGrant "sha256:aa" true []] false in
  let new := mkPrivilegeGrant "acme" "prod" "shop" [mkImageGrant "sha256:aa" true []] false in
  let req := mkGrantRequest false [] true in
  privilege_grant_loosenings (Some old) new = [] /\
  is_ok (admit_grants (Some old) req "img@sha256:aa" false) = false /\
  is_ok (admit_grants (Some new) req "img@sha256:aa" false) = true.
Proof. vm_compute. done. Qed.

(** [*] is matched as itself first, so a [*] of the pattern that meets a [*] of
    the text is not a wildcard there. *)
Example star_meets_star : glob_match "*" "*x" = false /\ glob_lang "*" "*x" /\ glob_matches "*" "*x" = true.
Proof.
  split; [vm_compute; reflexivity|]. split; [|vm_compute; reflexivity].
  apply glob_matches_spec. vm_compute. reflexivity.
Qed.

Definition shop_overlay : EnvironmentProjectOverlay :=
  mkOverlay "acme" "prod" "shop" (mkRules ["eve"] ["refs/tags/*"] 0 false default_gate_rules).
Definition shop_gov : GovState := set_overlays (fun _ => {[ ("acme", "prod", "shop") := shop_overlay ]}) prod_gov.
Definition stage_copy : Result OrgEnvironmentError OrgEnvironment * GovState :=
  @duplicate_environment plain_tables "acme" "prod" "stage" (Some "Staging") "ann" 9 shop_gov.

Lemma duplicate_governs_alike_witness :
  exists copy s', stage_copy = (Ok copy, s') /\
  exists g g', governance_at shop_gov "acme" "prod" "shop" = Some g /\
    governance_at s' "acme" "stage" "shop" = Some g' /\
    governance_protection g' = governance_protection g /\
    ep_approvers (governance_protection g') = ["ann"; "bob"; "eve"].
Proof.
  destruct (@duplicate_governs_alike plain_tables shop_gov "acme" "prod" "stage" (Some "Staging") "ann" 9
              (match stage_copy.1 with Ok c => c | Err _ => new_environment "" "" AllProjects end) stage_copy.2) as [H _].
  - split; cbn.
    + intros k e [[<- <-]|[_ H]]%lookup_insert_Some; [done|by rewrite lookup_empty in H].
    + intros k o [<- <-]%lookup_singleton_Some. done.
    + intros k g. by rewrite lookup_empty.
  - intros p. split; cbn; [|by rewrite lookup_empty]. rewrite lookup_singleton_ne; congruence.
  - vm_compute. reflexivity.
  - destruct (H "shop") as (g & g' & H1 & H2 & _ & H3 & _). do 2 eexists. split; [vm_compute; reflexivity|].
    exists g, g'. split; [exact H1|]. split; [exact H2|]. split; [exact H3|].
    rewrite H3. injection H1 as <-. vm_compute. reflexivity.
Defined.
