(* ===== verification/Cel.v ===== *)
(** * CEL expressions and [${{ .. }}] templates (scarab-pipeline/src/cel.rs)

    The parser and the evaluator are the [cel] crate's: a class of operations
    over its syntax tree, with the one law the callers rely on (the value of an
    expression depends only on what it reads) as a separate class. Around them,
    from the source: the size limits, the reads of an expression, and the
    templates. *)

From S2P Require Import Prelude Text Values.

(** ** Errors *)

Inductive PipelineError : Type :=
| PeParse (e : string)
| PeValidation (es : list string)
| PeCel (e : string)
| PeParam (e : string).
Definition newline : string := String (ascii_of_N 10) "".
(** [{e}]. *)
Definition show_pipeline_error (e : PipelineError) : string :=
  match e with
  | PeParse e => "yaml parse error: " +:+ e
  | PeValidation es => "pipeline validation failed:" +:+ newline +:+ "  - " +:+ join (newline +:+ "  - ") es
  | PeCel e => "cel error: " +:+ e
  | PeParam e => e
  end.

(** ** The crate's syntax tree and values *)

Inductive CelLiteral : Type := LString (s : string) | LOther.

#[warnings="-register-all"]
Inductive CelExpr : Type :=
| EIdent (name : string)
| ESelect (operand : CelExpr) (field : string)
| ECall (func_name : string) (target : option CelExpr) (args : list CelExpr)
| EComprehension (iter_range accu_init loop_cond loop_step result : CelExpr)
| EList (elements : list CelExpr)
| EMap (entries : list CelEntry)
| EStruct (entries : list CelEntry)
| ELiteral (l : CelLiteral)
| EUnspecified
with CelEntry : Type :=
| StructField (value : CelExpr)
| MapEntry (key value : CelExpr).

#[warnings="-register-all"]
Inductive CelValue : Type :=
| VNull
| VBool (b : bool)
| VInt (z : Z)
| VUInt (z : Z)
| VFloat (text : string)
| VString (s : string)
(** Unix milliseconds. *)
| VTimestamp (ms : Z)
| VList (l : list CelValue)
| VMap (m : list (string * CelValue)).

(** What running the crate on its own thread gives: a value, an error with its
    text, or a panic. *)
Inductive CelRun (A : Type) : Type := CelOk (a : A) | CelErr (e : string) | CelPanic.
Arguments CelOk {A} a.
Arguments CelErr {A} e.
Arguments CelPanic {A}.

(** A [Context]: the variables bound in it. *)
Definition CelContext := gmap string CelValue.

Class Cel := {
  (** [Program::compile]. *)
  cel_compile : string -> CelRun CelExpr;
  (** [program.execute(&context)] and [value.json()]. *)
  cel_execute : CelExpr -> CelContext -> CelRun Json;
  (** [operators::INDEX]. *)
  cel_index : string;
}.

(** ** Limits *)

Definition MAX_EXPRESSION_BYTES : nat := 4096.
Definition MAX_EXPRESSION_NESTING : nat := 64.

(** The last char boundary at or before byte [n]. *)
Fixpoint boundary (n : nat) (s : string) : nat :=
  match n with
  | 0 => 0
  | S n' => match String.get n s with
            | Some c => if is_continuation c then boundary n' s else n
            | None => n
            end
  end.
Definition ellipsis : string := String (ascii_of_N 226) (String (ascii_of_N 128) (String (ascii_of_N 166) "")).
Definition shown (expr : string) : string :=
  if String.length expr <=? 80 then expr else take_str (boundary 80 expr) expr +:+ ellipsis.

Definition is_char (c : ascii) (o : option ascii) : bool :=
  match o with Some d => Ascii.eqb c d | None => false end.
Definition one_of (cs : string) (o : option ascii) : bool :=
  match o with Some d => has_char d cs | None => false end.

(** How many of the letters before [open] are a literal's prefix. *)
Definition prefix_start (s : string) (open : nat) : nat :=
  let back p := match p with S p' => if one_of "rRbB" (String.get p' s) then p' else p | 0 => 0 end in
  let p := back open in if p =? open then open else back p.
Definition word_byte (o : option ascii) : bool :=
  match o with Some c => is_alphanumeric c || Ascii.eqb c "_" | None => false end.

(** The loop of [skip_string], from byte [i]. *)
Fixpoint skip_from (fuel : nat) (s : string) (q : ascii) (raw triple : bool) (i : nat) : nat :=
  match fuel with
  | 0 => String.length s
  | S fuel' =>
      match String.get i s with
      | None => String.length s
      | Some c =>
          if Ascii.eqb c (ascii_of_N 92) && negb raw then skip_from fuel' s q raw triple (i + 2)
          else if Ascii.eqb c q && (negb triple || (is_char q (String.get (i + 1) s) && is_char q (String.get (i + 2) s)))
               then i + (if triple then 3 else 1)
          else if negb triple && (Ascii.eqb c (ascii_of_N 10) || Ascii.eqb c (ascii_of_N 13)) then i
          else skip_from fuel' s q raw triple (i + 1)
      end
  end.
Definition skip_string (s : string) (open : nat) (q : ascii) : nat :=
  let p := prefix_start s open in
  let prefix_ok := match p with 0 => true | S p' => negb (word_byte (String.get p' s)) end in
  let raw := prefix_ok && (has_char "r" (slice s p open) || has_char "R" (slice s p open)) in
  let triple := is_char q (String.get (open + 1) s) && is_char q (String.get (open + 2) s) in
  skip_from (S (String.length s)) s q raw triple (open + (if triple then 3 else 1)).

(** The end of a [//] comment. *)
Fixpoint skip_comment (fuel : nat) (s : string) (i : nat) : nat :=
  match fuel with
  | 0 => i
  | S fuel' => match String.get i s with
               | Some c => if Ascii.eqb c (ascii_of_N 10) then i else skip_comment fuel' s (i + 1)
               | None => i
               end
  end.

Fixpoint nesting_from (fuel : nat) (s : string) (i depth max : nat) : nat :=
  match fuel with
  | 0 => max
  | S fuel' =>
      match String.get i s with
      | None => max
      | Some c =>
          if one_of "([{" (Some c) then nesting_from fuel' s (i + 1) (S depth) (Nat.max max (S depth))
          else if one_of ")]}" (Some c) then nesting_from fuel' s (i + 1) (pred depth) max
          else if Ascii.eqb c "/" && is_char "/" (String.get (i + 1) s)
               then nesting_from fuel' s (skip_comment (String.length s) s i) depth max
          else if Ascii.eqb c (ascii_of_N 39) || Ascii.eqb c (ascii_of_N 34)
               then nesting_from fuel' s (skip_string s i c) depth max
          else nesting_from fuel' s (i + 1) depth max
      end
  end.
(** Every step moves on by a byte or more. *)
Definition max_nesting (expr : string) : nat := nesting_from (S (String.length expr)) expr 0 0 0.

Definition check_limits (expr : string) : Result PipelineError unit :=
  if MAX_EXPRESSION_BYTES <? String.length expr then
    Err (PeCel ("`" +:+ shown expr +:+ "`: expression is " +:+ pretty (String.length expr)
      +:+ " bytes; the limit is " +:+ pretty MAX_EXPRESSION_BYTES +:+ " bytes"))
  else if MAX_EXPRESSION_NESTING <? max_nesting expr then
    Err (PeCel ("`" +:+ shown expr +:+ "`: brackets nest " +:+ pretty (max_nesting expr)
      +:+ " deep; the limit is " +:+ pretty MAX_EXPRESSION_NESTING))
  else Ok tt.

(** ** Parsing and evaluating *)

Section WithCel.
Context {C : Cel}.

(** The thread's result: an error is shown after the expression, a panic is a
    malformed expression. *)
Definition joined {A} (expr : string) (r : CelRun A) : Result PipelineError A :=
  match r with
  | CelOk a => Ok a
  | CelErr e => Err (PeCel ("`" +:+ shown expr +:+ "`: " +:+ e))
  | CelPanic => Err (PeCel ("`" +:+ shown expr +:+ "`: malformed expression"))
  end.
Definition with_program {A} (expr : string) (f : CelExpr -> Result PipelineError A) : Result PipelineError A :=
  check_limits expr ≫= fun _ => joined expr (cel_compile expr) ≫= f.

Definition check (expr : string) : Result PipelineError unit := with_program expr (fun _ => Ok tt).

(** A JSON value as CEL sees it. *)
Fixpoint to_cel (v : Json) : CelValue :=
  match v with
  | JNull => VNull
  | JBool b => VBool b
  | JInt z => if decide (-(2^63) <= z < 2^63)%Z then VInt z
              else if decide (0 <= z < 2^64)%Z then VUInt z else VFloat (pretty z)
  | JFloat t => VFloat t
  | JStr s => VString s
  | JArr l => VList (map to_cel l)
  | JObj m => VMap (map (fun p => (p.1, to_cel p.2)) m)
  end.
(** Each key of a JSON object becomes a variable. *)
Definition context_of (ctx : Json) (expr : string) : Result PipelineError CelContext :=
  match ctx with
  | JObj m => Ok (list_to_map (map (fun p => (p.1, to_cel p.2)) m))
  | JNull => Ok ∅
  | _ => Err (PeCel ("`" +:+ shown expr +:+ "`: context must be a JSON object"))
  end.

Definition eval (expr : string) (ctx : Json) : Result PipelineError Json :=
  with_program expr (fun program =>
    context ← context_of ctx expr;
    joined expr (cel_execute program context)).
Definition eval_bool (expr : string) (ctx : Json) : Result PipelineError bool :=
  v ← eval expr ctx;
  match v with
  | JBool b => Ok b
  | other => Err (PeCel ("`" +:+ shown expr +:+ "`: expected a boolean, got `" +:+ json_text other +:+ "`"))
  end.

(** ** Reads *)

Record Read := mkRead { rd_var : string; rd_first : option string; rd_second : option string }.

(** [name.trim_start_matches('.')]. *)
Fixpoint trim_dots (s : string) : string :=
  match s with
  | String c s' => if Ascii.eqb c "." then trim_dots s' else s
  | EmptyString => ""
  end.

(** The reads of an identifier under the members [keys] selected from it, the
    innermost first. *)
Definition ident_read (name : string) (keys : list (option string)) : Read :=
  let first := match keys with k :: _ => k | [] => None end in
  let second := match first, keys with Some _, _ :: k :: _ => k | _, _ => None end in
  mkRead (trim_dots name) first second.

(** [read_walk] of [e] under [keys]: the members selected from it so far, and
    the reads of their computed keys, which come last. *)
Fixpoint walk_reads (e : CelExpr) (keys : list (option string)) (computed : list Read) : list Read :=
  let all (l : list CelExpr) := List.flat_map (fun x => walk_reads x [] []) l in
  let entry (x : CelEntry) := match x with
    | StructField v => walk_reads v [] []
    | MapEntry k v => walk_reads k [] [] ++ walk_reads v [] []
    end in
  match e with
  | EIdent name => ident_read name keys :: computed
  | ESelect operand field => walk_reads operand (Some field :: keys) computed
  | ECall f None ([a; b] as args) =>
      if String.eqb f cel_index then
        match b with
        | ELiteral (LString s) => walk_reads a (Some s :: keys) computed
        | _ => walk_reads a (None :: keys) (computed ++ walk_reads b [] [])
        end
      else all args ++ computed
  | ECall _ target args =>
      match target with Some t => walk_reads t [] [] | None => [] end ++ all args ++ computed
  | EComprehension r i c s v =>
      walk_reads r [] [] ++ walk_reads i [] [] ++ walk_reads c [] [] ++ walk_reads s [] []
      ++ walk_reads v [] [] ++ computed
  | EList l => all l ++ computed
  | EMap l | EStruct l => List.flat_map entry l ++ computed
  | ELiteral _ | EUnspecified => computed
  end.
Definition expr_reads (e : CelExpr) : list Read := walk_reads e [] [].
Definition reads (expr : string) : Result PipelineError (list Read) :=
  with_program expr (fun program => Ok (expr_reads program)).

(** The variable and constant members of a selection chain and nothing else. *)
Fixpoint path_of (e : CelExpr) (keys : list (option string)) : option (list string) :=
  match e with
  | EIdent name => (fun ks => trim_dots name :: ks) <$> mapM id keys
  | ESelect operand field => path_of operand (Some field :: keys)
  | ECall f None [a; b] =>
      if String.eqb f cel_index then
        match b with
        | ELiteral (LString s) => path_of a (Some s :: keys)
        | _ => path_of a (None :: keys)
        end
      else None
  | _ => None
  end.
Definition path (expr : string) : option (list string) :=
  match with_program expr (fun program => Ok (path_of program [])) with
  | Ok p => p
  | Err _ => None
  end.

(** ** Templates *)

(** The byte ranges of a whole [${{ .. }}] and of the text inside it. *)
Record Interpolation := mkInterp { in_outer : nat * nat; in_inner : nat * nat }.

(** The loop of [scan_interpolations] from byte [at_]. A hole is five bytes or
    more, so the template's length bounds the loop. *)
Fixpoint scan_from (fuel : nat) (template : string) (at_ : nat) : list Interpolation * option nat :=
  match fuel with
  | 0 => ([], None)
  | S fuel' =>
      match find_str "${{" (drop_str at_ template) with
      | None => ([], None)
      | Some rel =>
          let start := at_ + rel in
          match find_str "}}" (drop_str (start + 3) template) with
          | None => ([], Some start)
          | Some len =>
              let stop := start + 3 + len in
              let '(found, unterminated) := scan_from fuel' template (stop + 2) in
              (mkInterp (start, stop + 2) (start + 3, stop) :: found, unterminated)
          end
      end
  end.
Definition scan_interpolations (template : string) : list Interpolation * option nat :=
  scan_from (S (String.length template)) template 0.

(** The expression inside a hole, and the hole as written. *)
Definition hole_expr (template : string) (i : Interpolation) : string :=
  trim (slice template (in_inner i).1 (in_inner i).2).
Definition hole_text (template : string) (i : Interpolation) : string :=
  slice template (in_outer i).1 (in_outer i).2.

(** The loop the renderers share: the text before each hole, then what [f]
    puts in its place; and where the last hole ended. *)
Fixpoint fill {E} (template : string) (at_ : nat) (found : list Interpolation)
    (f : Interpolation -> Result E string) : Result E (string * nat) :=
  match found with
  | [] => Ok ("", at_)
  | i :: found' =>
      text ← f i;
      rest ← fill template (in_outer i).2 found' f;
      Ok (slice template at_ (in_outer i).1 +:+ text +:+ rest.1, rest.2)
  end.

Definition unterminated_error (template : string) : PipelineError :=
  PeCel ("unterminated `${{` in `" +:+ template +:+ "`").

Definition interpolate (template : string) (ctx : Json) : Result PipelineError string :=
  let '(found, unterminated) := scan_interpolations template in
  out ← fill template 0 found (fun i => v ← eval (hole_expr template i) ctx; Ok (text_of v));
  match unterminated with
  | Some _ => Err (unterminated_error template)
  | None => Ok (out.1 +:+ drop_str out.2 template)
  end.

Definition interpolations (template : string) : Result PipelineError (list string) :=
  match scan_interpolations template with
  | (_, Some _) => Err (unterminated_error template)
  | (found, None) => Ok (map (hole_expr template) found)
  end.

Fixpoint check_all (exprs : list string) : Result PipelineError unit :=
  match exprs with
  | [] => Ok tt
  | e :: rest => check e ≫= fun _ => check_all rest
  end.
Definition check_interpolation (template : string) : Result PipelineError unit :=
  interpolations template ≫= check_all.
End WithCel.

(** * Theorems *)

(** ** What an expression's value depends on *)

(** The member [k] of a map value. *)
Definition member {A} (k : string) (m : list (string * A)) : option A :=
  snd <$> List.find (fun p => String.eqb p.1 k) m.

(** Two contexts give a read the same answer: the whole variable is the same,
    or it is a map in both and the first member selected from it is. *)
Definition same_read (r : Read) (c1 c2 : CelContext) : Prop :=
  c1 !! rd_var r = c2 !! rd_var r
  \/ exists f m1 m2, rd_first r = Some f /\ c1 !! rd_var r = Some (VMap m1) /\ c2 !! rd_var r = Some (VMap m2)
       /\ member f m1 = member f m2.

(** The evaluator reads nothing but what [expr_reads] lists: over contexts that
    agree on those reads, two evaluations that give a value give the same. *)
Class CelLaws `(C : Cel) : Prop := {
  cel_execute_reads e c1 c2 v1 v2 :
    (forall r, r ∈ expr_reads e -> same_read r c1 c2) ->
    cel_execute e c1 = CelOk v1 -> cel_execute e c2 = CelOk v2 -> v1 = v2;
}.

(** The same for the JSON objects the renderers hand over. *)
Definition same_json (r : Read) (c1 c2 : gmap string Json) : Prop :=
  c1 !! rd_var r = c2 !! rd_var r
  \/ exists f (m1 m2 : gmap string Json), rd_first r = Some f /\ c1 !! rd_var r = Some (json_object m1)
       /\ c2 !! rd_var r = Some (json_object m2) /\ m1 !! f = m2 !! f.

Lemma member_btree (m : gmap string Json) k :
  member k (map (fun p => (p.1, to_cel p.2)) (btree_list m)) = to_cel <$> m !! k.
Proof.
  rewrite <- json_get_object. unfold member, json_object, json_get.
  induction (btree_list m) as [|[k' v] l IH]; [done|]. cbn. destruct (String.eqb k' k); [done|apply IH].
Qed.

Lemma context_lookup (ctx : gmap string Json) k :
  (list_to_map (map (fun p => (p.1, to_cel p.2)) (btree_list ctx)) : CelContext) !! k = to_cel <$> ctx !! k.
Proof.
  destruct (ctx !! k) as [v|] eqn:E.
  - apply elem_of_list_to_map_1.
    + rewrite map_map. cbn. apply btree_list_nodup.
    + apply list_elem_of_fmap. exists (k, v). split; [done|]. by apply elem_of_btree_list.
  - apply not_elem_of_list_to_map_1. intros ([k' v'] & -> & H)%list_elem_of_fmap.
    apply list_elem_of_fmap in H as ([k2 v2] & [= -> ->] & H). apply elem_of_btree_list in H. cbn in E. congruence.
Qed.

Section Laws.
Context `{Laws : CelLaws}.

Lemma same_json_read r c1 c2 (d1 d2 : CelContext) :
  (forall k, d1 !! k = to_cel <$> c1 !! k) -> (forall k, d2 !! k = to_cel <$> c2 !! k) ->
  same_json r c1 c2 -> same_read r d1 d2.
Proof.
  intros H1 H2 [E|(f & m1 & m2 & Ef & E1 & E2 & Em)].
  - left. by rewrite H1, H2, E.
  - right. exists f, (map (fun p => (p.1, to_cel p.2)) (btree_list m1)), (map (fun p => (p.1, to_cel p.2)) (btree_list m2)).
    rewrite H1, H2, E1, E2. split_and!; try done. by rewrite !member_btree, Em.
Qed.

Lemma eval_same expr c1 c2 rs v1 v2 :
  reads expr = Ok rs -> (forall r, r ∈ rs -> same_json r c1 c2) ->
  eval expr (json_object c1) = Ok v1 -> eval expr (json_object c2) = Ok v2 -> v1 = v2.
Proof.
  unfold reads, eval, with_program. destruct (check_limits expr) as [[]|]; [cbn|done].
  destruct (joined expr (cel_compile expr)) as [e|]; [cbn|done]. intros [= <-] Hr.
  set (d1 := list_to_map _). set (d2 := list_to_map _). intros Hv1 Hv2. apply (cel_execute_reads e d1 d2).
  - intros r Hr'. eapply same_json_read; [apply context_lookup..|]. by apply Hr.
  - by destruct (cel_execute e d1); simplify_eq/=.
  - by destruct (cel_execute e d2); simplify_eq/=.
Qed.
End Laws.

(** ** Templates *)

Lemma slice_drop s a b : a <= b -> slice s a b +:+ drop_str b s = drop_str a s.
Proof.
  intros H. unfold slice. rewrite <- (take_drop_str (b - a) (drop_str a s)) at 2.
  rewrite drop_drop_str. do 2 f_equal. lia.
Qed.

(** A hole is written [${{], then text without [}}], then [}}]; the text since
    [at_] has no [${{]. *)
Definition hole_ok (template : string) (at_ : nat) (i : Interpolation) : Prop :=
  at_ <= (in_outer i).1 /\ (in_outer i).1 + 5 <= (in_outer i).2
  /\ in_inner i = ((in_outer i).1 + 3, (in_outer i).2 - 2)
  /\ hole_text template i = "${{" +:+ slice template (in_inner i).1 (in_inner i).2 +:+ "}}"
  /\ find_str "${{" (drop_str at_ template) = Some ((in_outer i).1 - at_).
Fixpoint holes_ok (template : string) (at_ : nat) (found : list Interpolation) : Prop :=
  match found with
  | [] => True
  | i :: found' => hole_ok template at_ i /\ holes_ok template (in_outer i).2 found'
  end.

Lemma find_str_prefix pat s n : find_str pat s = Some n ->
  exists r, drop_str n s = pat +:+ r /\ n + String.length pat <= String.length s.
Proof.
  revert n; induction s as [|c s IH]; intros n; cbn [find_str].
  - destruct (String.prefix pat "") eqn:E; [|done]. intros [= <-]. apply prefix_spec in E as [r E].
    exists r. split; [done|]. destruct pat; [cbn; lia|done].
  - destruct (String.prefix pat (String c s)) eqn:E.
    + intros [= <-]. apply prefix_spec in E as [r E]. exists r. split; [done|]. rewrite E.
      clear. induction pat as [|d p IH]; cbn; [lia|]. apply le_n_S. apply IH.
    + destruct (find_str pat s) as [m|]; [|done]. intros [= <-]. destruct (IH m eq_refl) as (r & H1 & H2).
      exists r. cbn. split; [done|lia].
Qed.

Lemma take_str_app a b : take_str (String.length a) (a +:+ b) = a.
Proof. induction a as [|c a IH]; [by destruct b|]. rewrite string_app_cons. cbn. by rewrite IH. Qed.
Lemma drop_str_app a b : drop_str (String.length a) (a +:+ b) = b.
Proof. induction a as [|c a IH]; [done|]. rewrite string_app_cons. apply IH. Qed.
Lemma length_drop_str n s : String.length (drop_str n s) = String.length s - n.
Proof. revert s; induction n as [|n IH]; intros [|c s]; cbn; done. Qed.
Lemma length_take_str n s : n <= String.length s -> String.length (take_str n s) = n.
Proof. revert s; induction n as [|n IH]; intros [|c s]; cbn; intros; try lia. rewrite IH; lia. Qed.

Lemma scan_from_ok fuel template at_ found u :
  scan_from fuel template at_ = (found, u) -> holes_ok template at_ found.
Proof.
  revert at_ found u; induction fuel as [|fuel IH]; intros at_ found u; cbn [scan_from]; [by intros [= <- <-]|].
  destruct (find_str "${{" (drop_str at_ template)) as [rel|] eqn:E1; [|by intros [= <- <-]].
  destruct (find_str "}}" (drop_str (at_ + rel + 3) template)) as [len|] eqn:E2; [|by intros [= <- <-]].
  destruct (scan_from fuel template _) as [found' u'] eqn:E3. intros [= <- <-]. cbn [holes_ok].
  split; [|by eapply IH]. unfold hole_ok. cbn [in_outer in_inner fst snd].
  replace (at_ + rel - at_) with rel by lia. split_and!; try lia; [by f_equal; lia| |done].
  apply find_str_prefix in E1 as (r1 & D1 & _), E2 as (r2 & D2 & L2).
  rewrite drop_drop_str in D1. rewrite drop_drop_str in D2. rewrite length_drop_str in L2.
  set (start := at_ + rel) in *. unfold hole_text, slice. cbn [in_outer in_inner fst snd].
  replace (start + 3 + len + 2 - start) with (String.length "${{" + (len + String.length "}}")) by (cbn; lia).
  replace (start + 3 + len - (start + 3)) with len by lia.
  assert (drop_str start template = "${{" +:+ drop_str (start + 3) template) as Es.
  { rewrite D1. f_equal. rewrite <- (drop_drop_str 3 start), D1. done. }
  assert (drop_str (start + 3) template = take_str len (drop_str (start + 3) template) +:+ "}}" +:+ r2) as Ei.
  { rewrite <- (take_drop_str len (drop_str (start + 3) template)) at 1. rewrite drop_drop_str. by rewrite D2. }
  rewrite Es. clear Es. set (inner := take_str len (drop_str (start + 3) template)) in *.
  assert (String.length inner = len) as Hl by (apply length_take_str; rewrite length_drop_str; lia).
  rewrite Ei, <- Hl.
  replace ("${{" +:+ inner +:+ "}}" +:+ r2) with (("${{" +:+ inner +:+ "}}") +:+ r2) by (by rewrite !string_app_assoc).
  replace (String.length "${{" + (String.length inner + String.length "}}")) with (String.length ("${{" +:+ inner +:+ "}}")).
  - apply take_str_app.
  - clear. assert (forall a b, String.length (a +:+ b) = String.length a + String.length b) as H.
    { induction a as [|c a IH]; intros b; [done|]. rewrite string_app_cons. cbn. by rewrite IH. }
    by rewrite !H.
Qed.

(** The template with [texts] in place of its holes. *)
Fixpoint weave (template : string) (at_ : nat) (found : list Interpolation) (texts : list string) : string :=
  match found, texts with
  | i :: found', t :: texts' => slice template at_ (in_outer i).1 +:+ t +:+ weave template (in_outer i).2 found' texts'
  | _, _ => drop_str at_ template
  end.

Lemma fill_weave {E} template at_ found (f : Interpolation -> Result E string) out :
  fill template at_ found f = Ok out ->
  exists texts, Forall2 (fun i t => f i = Ok t) found texts
    /\ out.1 +:+ drop_str out.2 template = weave template at_ found texts.
Proof.
  revert at_ out; induction found as [|i found IH]; intros at_ out; cbn [fill].
  - intros [= <-]. exists []. split; [constructor|done].
  - destruct (f i) as [t|] eqn:Ef; [|done]. cbn. destruct (fill template _ found f) as [rest|] eqn:Er; [|done].
    cbn. intros [= <-]. destruct (IH _ _ Er) as (texts & H1 & H2). exists (t :: texts).
    split; [by constructor|]. cbn. by rewrite !string_app_assoc, H2.
Qed.

Lemma weave_holes template at_ found :
  holes_ok template at_ found -> weave template at_ found (map (hole_text template) found) = drop_str at_ template.
Proof.
  revert at_; induction found as [|i found IH]; intros at_; cbn [holes_ok]; [done|]. intros [Hi Hf]. cbn [map weave].
  rewrite IH by done. destruct Hi as (H1 & H2 & _). unfold hole_text.
  rewrite slice_drop by lia. by apply slice_drop.
Qed.

(** How a scan that ended at [at_] left the tail: no [${{] in it, or one with no
    [}}] after it. *)
Definition tail_ok (template : string) (at_ : nat) (u : option nat) : Prop :=
  match u with
  | None => find_str "${{" (drop_str at_ template) = None
  | Some s => at_ <= s /\ find_str "${{" (drop_str at_ template) = Some (s - at_)
              /\ find_str "}}" (drop_str (s + 3) template) = None
  end.
Definition last_end (at_ : nat) (found : list Interpolation) : nat :=
  match last found with Some i => (in_outer i).2 | None => at_ end.

Lemma scan_from_tail fuel template at_ found u :
  String.length template - at_ < fuel ->
  scan_from fuel template at_ = (found, u) -> tail_ok template (last_end at_ found) u.
Proof.
  revert at_ found u; induction fuel as [|fuel IH]; intros at_ found u Hf; [lia|]. cbn [scan_from].
  destruct (find_str "${{" (drop_str at_ template)) as [rel|] eqn:E1; [|by intros [= <- <-]].
  destruct (find_str "}}" (drop_str (at_ + rel + 3) template)) as [len|] eqn:E2.
  - destruct (scan_from fuel template _) as [found' u'] eqn:E3. intros [= <- <-].
    apply find_str_prefix in E2 as (_ & _ & L2). rewrite length_drop_str in L2. cbn in L2.
    apply IH in E3; [|lia]. unfold last_end in *. destruct found' as [|j found']; [done|].
    rewrite last_cons_cons. destruct (last (j :: found')) eqn:El; [done|]. by apply last_None in El.
  - intros [= <- <-]. cbn. replace (at_ + rel - at_) with rel by lia. split_and!; [lia|done..].
Qed.

(** Scanning a template loses nothing and misses nothing. Putting each hole
    back as written gives the template; each hole is [${{], the text up to the
    first [}}], then [}}]; the text before it has no earlier [${{]; and after the
    last hole there is no [${{], or only one that no [}}] closes, which is
    reported. *)
Theorem scan_roundtrip template :
  let '(found, unterminated) := scan_interpolations template in
  weave template 0 found (map (hole_text template) found) = template
  /\ holes_ok template 0 found
  /\ tail_ok template (last_end 0 found) unterminated.
Proof.
  unfold scan_interpolations. destruct (scan_from _ template 0) as [found u] eqn:E.
  pose proof (scan_from_ok _ _ _ _ _ E) as Hok. split; [by apply weave_holes|]. split; [done|].
  eapply scan_from_tail; [|exact E]. lia.
Qed.

Lemma scan_holes template found u : scan_interpolations template = (found, u) -> holes_ok template 0 found.
Proof. apply scan_from_ok. Qed.

(** *** Occurrences *)

Lemma str_prefix_app pat r : String.prefix pat (pat +:+ r) = true.
Proof. apply prefix_spec. by exists r. Qed.
Lemma find_str_app pat a r : is_Some (find_str pat (a +:+ pat +:+ r)).
Proof.
  induction a as [|c a IH].
  - rewrite string_app_nil_l. destruct (pat +:+ r) as [|d s] eqn:E.
    + cbn. destruct pat; [by eexists|done].
    + cbn [find_str]. rewrite <- E, str_prefix_app. by eexists.
  - rewrite string_app_cons. cbn [find_str]. destruct (String.prefix _ _); [by eexists|].
    destruct IH as [n ->]. by eexists.
Qed.
Lemma contains_spec pat s : contains pat s = true <-> exists a r, s = a +:+ pat +:+ r.
Proof.
  unfold contains. rewrite bool_decide_eq_true. split.
  - intros [n Hn]. exists (take_str n s), (drop_str (n + String.length pat) s). by apply find_str_spec.
  - intros (a & r & ->). apply find_str_app.
Qed.
Lemma contains_app_l pat a b : contains pat a = true -> contains pat (a +:+ b) = true.
Proof. rewrite !contains_spec. intros (x & r & ->). exists x, (r +:+ b). by rewrite !string_app_assoc. Qed.
Lemma contains_app_r pat a b : contains pat b = true -> contains pat (a +:+ b) = true.
Proof. rewrite !contains_spec. intros (x & r & ->). exists (a +:+ x), r. by rewrite !string_app_assoc. Qed.

Lemma weave_contains pat template at_ found texts t :
  length found = length texts -> t ∈ texts -> contains pat t = true ->
  contains pat (weave template at_ found texts) = true.
Proof.
  revert at_ texts; induction found as [|i found IH]; intros at_ [|t' texts] Hl Ht Hc; try done;
    [by apply not_elem_of_nil in Ht|]. cbn [weave]. apply contains_app_r.
  apply elem_of_cons in Ht as [->|Ht]; [by apply contains_app_l|]. apply contains_app_r.
  apply IH; [by injection Hl|done..].
Qed.

(** A template without [${{] has no holes. *)
Lemma no_holes template : contains "${{" template = false -> scan_interpolations template = ([], None).
Proof.
  intros H. unfold scan_interpolations. cbn [scan_from]. change (drop_str 0 template) with template.
  unfold contains in H. apply bool_decide_eq_false in H.
  destruct (find_str "${{" template) eqn:E; [|done]. exfalso. apply H. by eexists.
Qed.
Lemma hole_text_marked template found u i :
  scan_interpolations template = (found, u) -> i ∈ found -> contains "${{" (hole_text template i) = true.
Proof.
  intros H%scan_holes Hi. revert H. generalize 0 at 1. induction found as [|j found IH]; intros at_ H;
    [by apply not_elem_of_nil in Hi|]. destruct H as [Hj Hf].
  apply elem_of_cons in Hi as [->|Hi]; [|by eapply IH]. destruct Hj as (_ & _ & _ & E & _). rewrite E.
  apply contains_spec. by eexists "", _.
Qed.
Lemma open_tail_marked template found s :
  scan_interpolations template = (found, Some s) -> forall texts, length found = length texts ->
  contains "${{" (weave template 0 found texts) = true.
Proof.
  intros H texts Hl. apply scan_from_tail in H as (_ & Hf & _); [|lia]. revert texts Hl Hf. unfold last_end. generalize 0 as at_.
  induction found as [|i found IH]; intros at_ [|t texts] Hl Hf; try done.
  - cbn in *. apply contains_spec. apply find_str_spec in Hf. eauto.
  - cbn [weave]. do 2 apply contains_app_r. apply IH; [by injection Hl|].
    destruct found as [|j found]; [done|]. rewrite last_cons_cons in Hf.
    by destruct (last (j :: found)) eqn:El; [|apply last_None in El].
Qed.

(** ** A concrete evaluator

    Dotted paths of identifiers, for the witnesses. *)

Fixpoint from_cel (v : CelValue) : Json :=
  match v with
  | VNull => JNull
  | VBool b => JBool b
  | VInt z | VUInt z => JInt z
  | VFloat t => JFloat t
  | VString s => JStr s
  | VTimestamp ms => JInt ms
  | VList l => JArr (map from_cel l)
  | VMap m => JObj (map (fun p => (p.1, from_cel p.2)) m)
  end.
Fixpoint select_path (v : CelValue) (ks : list string) : option CelValue :=
  match ks with
  | [] => Some v
  | k :: ks' => match v with
                | VMap m => w ← member k m; select_path w ks'
                | _ => None
                end
  end.
Definition dotted_ident (s : string) : bool := negb (String.eqb s "") && all_bytes (fun c => is_alphanumeric c || Ascii.eqb c "_") s.
Definition dotted_cel : Cel := {|
  cel_compile expr :=
    match split "." expr with
    | x :: ks => if forallb dotted_ident (x :: ks) then CelOk (foldl ESelect (EIdent x) ks) else CelErr "syntax error"
    | [] => CelErr "syntax error"
    end;
  cel_execute e ctx :=
    match path_of (C := {| cel_compile _ := CelPanic; cel_execute _ _ := CelPanic; cel_index := "_[_]" |}) e [] with
    | Some (x :: ks) => match v ← ctx !! x; select_path v ks with
                        | Some v => CelOk (from_cel v)
                        | None => CelErr "no such key"
                        end
    | _ => CelErr "unsupported expression"
    end;
  cel_index := "_[_]" |}.

Lemma mapM_id_Some {A} (keys : list (option A)) ks : mapM id keys = Some ks -> keys = map Some ks.
Proof. intros H%mapM_Some_1. induction H as [|k x keys ks Hk _ IH]; [done|]. cbn in *. by rewrite Hk, IH. Qed.

(** A path's own read is among the reads. *)
Lemma path_read `{C : Cel} e : forall keys computed x ks,
  path_of e keys = Some (x :: ks) ->
  exists r, r ∈ walk_reads e keys computed /\ rd_var r = x /\ rd_first r = head ks.
Proof.
  revert e. fix IH 1. intros [name|op f|f [t|] args| | | | | |] keys computed x ks H; cbn [path_of] in H; try discriminate H.
  - destruct (mapM id keys) as [ks'|] eqn:E; [|done]. injection H as <- <-. apply mapM_id_Some in E as ->.
    exists (ident_read name (map Some ks')). split; [left|]. split; [done|]. by destruct ks'.
  - cbn [walk_reads]. by apply IH.
  - destruct args as [|a [|b [|]]]; try discriminate H. cbn [walk_reads].
    destruct (String.eqb f cel_index); [|discriminate H].
    destruct b as [| | | | | | |[s|]|]; by apply IH.
Qed.

Lemma select_same (c1 c2 : CelContext) r ks :
  same_read r c1 c2 -> rd_first r = head ks ->
  (v ← c1 !! rd_var r; select_path v ks) = (v ← c2 !! rd_var r; select_path v ks) \/ ks = [].
Proof.
  intros [->|(f & m1 & m2 & Ef & E1 & E2 & Em)] Hf; [by left|]. destruct ks as [|k ks]; [by right|left].
  rewrite Ef in Hf. injection Hf as ->. rewrite E1, E2. cbn. by rewrite Em.
Qed.

Lemma dotted_laws : CelLaws dotted_cel.
Proof.
  split. intros e c1 c2 v1 v2 Hs. cbn [cel_execute dotted_cel].
  match goal with |- context [path_of (C:=?X) e []] => set (D := X); change (path_of (C:=D) e []) with (path_of (C:=dotted_cel) e []) end.
  destruct (path_of e []) as [[|x ks]|] eqn:Ep; try done.
  destruct (path_read e [] [] x ks Ep) as (r & Hr & <- & Hf).
  specialize (Hs r Hr). pose proof Hs as Hs'. destruct (select_same c1 c2 r ks Hs Hf) as [->| ->].
  - intros E1 E2. destruct (c2 !! rd_var r ≫= _); congruence.
  - destruct Hs' as [->|(f & m1 & m2 & Ef & _)]; [|by rewrite Ef in Hf].
    intros E1 E2. destruct (c2 !! rd_var r ≫= _); congruence.
Qed.
