(* ===== verification/Schema.v ===== *)
(** * The typed input schema of a PolicyCheckpoint (scarab-policy/src/schema.rs,
    and [bind] and [to_value] of eval.rs)

    A checkpoint's input is declared once, as a [PolicyType]: its schema, the
    caps on its lists and strings, and the CEL values a rule is given are all
    read off that declaration. *)

From S2P Require Import Prelude Text Values Cel.

(** ** Types *)

Inductive Ty : Type :=
| TyBool | TyInt | TyUint | TyDouble | TyString | TyBytes | TyNull | TyTimestamp | TyDuration
| TyEnum (name : string)
| TyList (elem : Ty) (cap : N)
| TyMap (key value : Ty) (cap : N)
| TyStruct (name : string)
| TyDyn.
Fixpoint show_ty (t : Ty) : string :=
  match t with
  | TyBool => "bool" | TyInt => "int" | TyUint => "uint" | TyDouble => "double" | TyString => "string"
  | TyBytes => "bytes" | TyNull => "null" | TyTimestamp => "timestamp" | TyDuration => "duration"
  | TyEnum name => name +:+ " (a string)"
  | TyList elem _ => "list<" +:+ show_ty elem +:+ ">"
  | TyMap k v _ => "map<" +:+ show_ty k +:+ ", " +:+ show_ty v +:+ ">"
  | TyStruct name => name
  | TyDyn => "dyn"
  end.

Record Field := mkField { fd_name : string; fd_ty : Ty; fd_optional : bool; fd_max_len : N }.
Definition MAX_STRING_LEN : N := 1024.
Definition MAX_FREE_TEXT_LEN : N := 4096.
Record StructDecl := mkStructDecl { sd_name : string; sd_fields : list Field }.
Record EnumDecl := mkEnumDecl { ed_name : string; ed_variants : list string }.

(** ** Declarations *)

Record Registry := mkRegistry { rg_structs : gmap string (option StructDecl); rg_enums : gmap string EnumDecl }.

(** [PolicyType]: [OPTIONAL], [MAX_LEN] and [policy_type]. *)
Record PolicyType := mkPolicyType {
  pt_optional : bool;
  pt_max_len : N;
  policy_type : Registry -> Ty * Registry;
}.
Definition primitive (t : Ty) : PolicyType := mkPolicyType false MAX_STRING_LEN (fun reg => (t, reg)).
Definition p_string := primitive TyString.
Definition p_bool := primitive TyBool.
Definition p_u64 := primitive TyUint.
Definition p_timestamp := primitive TyTimestamp.
Definition p_free_text : PolicyType := mkPolicyType false MAX_FREE_TEXT_LEN (fun reg => (TyString, reg)).
Definition p_option (t : PolicyType) : PolicyType := mkPolicyType true (pt_max_len t) (policy_type t).
Definition p_capped (t : PolicyType) (n : N) : PolicyType :=
  mkPolicyType false (pt_max_len t) (fun reg => let (e, reg') := policy_type t reg in (TyList e n, reg')).

(** The fields of a [policy_struct!], in order. *)
Fixpoint declare_fields (fields : list (string * PolicyType)) (reg : Registry) : list Field * Registry :=
  match fields with
  | [] => ([], reg)
  | (name, t) :: rest =>
      let (ty, reg1) := policy_type t reg in
      let (l, reg2) := declare_fields rest reg1 in
      (mkField name ty (pt_optional t) (pt_max_len t) :: l, reg2)
  end.
Definition struct_type (name : string) (fields : list (string * PolicyType)) (reg : Registry) : Ty * Registry :=
  match rg_structs reg !! name with
  | Some _ => (TyStruct name, reg)
  | None =>
      let reg1 := mkRegistry (<[name := None]> (rg_structs reg)) (rg_enums reg) in
      let (l, reg2) := declare_fields fields reg1 in
      (TyStruct name, mkRegistry (<[name := Some (mkStructDecl name l)]> (rg_structs reg2)) (rg_enums reg2))
  end.
Definition enum_type (name : string) (variants : list string) (reg : Registry) : Ty * Registry :=
  (TyEnum name, match rg_enums reg !! name with
                | Some _ => reg
                | None => mkRegistry (rg_structs reg) (<[name := mkEnumDecl name variants]> (rg_enums reg))
                end).
(** [policy_struct!] and [policy_enum!]. *)
Definition p_struct (name : string) (fields : list (string * PolicyType)) : PolicyType :=
  mkPolicyType false MAX_STRING_LEN (struct_type name fields).
Definition p_enum (name : string) (variants : list string) : PolicyType :=
  mkPolicyType false MAX_STRING_LEN (enum_type name variants).

(** ** The schema of a checkpoint *)

Record Schema := mkSchema {
  sc_checkpoint : string;
  sc_version : N;
  sc_variables : list Field;
  sc_structs : gmap string StructDecl;
  sc_enums : gmap string EnumDecl;
}.
(** [None] where the code panics: a root that is not a struct, or a struct
    that was never defined. *)
Definition for_root (root : PolicyType) (checkpoint : string) (version : N) : option Schema :=
  let (ty, reg) := policy_type root (mkRegistry ∅ ∅) in
  match ty with
  | TyStruct name =>
      if bool_decide (map_Forall (fun _ d => d <> None) (rg_structs reg)) then
        let structs := omap (M := gmap string) id (rg_structs reg) in
        (fun decl => mkSchema checkpoint version (sd_fields decl) structs (rg_enums reg)) <$> structs !! name
      else None
  | _ => None
  end.
(** A name that is not declared makes the code panic; the lookups here give an
    empty declaration, and [closed_schema] rules that out. *)
Definition struct_decl (sc : Schema) (name : string) : StructDecl := default (mkStructDecl name []) (sc_structs sc !! name).
Definition enum_decl (sc : Schema) (name : string) : EnumDecl := default (mkEnumDecl name []) (sc_enums sc !! name).

Fixpoint ty_declared (sc : Schema) (t : Ty) : bool :=
  match t with
  | TyEnum n => bool_decide (is_Some (sc_enums sc !! n))
  | TyStruct n => bool_decide (is_Some (sc_structs sc !! n))
  | TyList e _ => ty_declared sc e
  | TyMap k v _ => ty_declared sc k && ty_declared sc v
  | _ => true
  end.
Definition closed_schema (sc : Schema) : bool :=
  forallb (fun f => ty_declared sc (fd_ty f)) (sc_variables sc)
  && forallb (fun d => forallb (fun f => ty_declared sc (fd_ty f)) (sd_fields d)) (map snd (map_to_list (sc_structs sc))).

(** ** The caps of an input *)

Record StringTooLong := mkStringTooLong { tl_path : string; tl_len : N; tl_max : N }.
Record ListTooLong := mkListTooLong { ll_path : string; ll_len : N; ll_cap : N }.
Inductive OverCap : Type := OcString (e : StringTooLong) | OcList (e : ListTooLong).

Definition str_len (s : string) : N := N.of_nat (String.length s).

(** [for (i, item) in items.iter().enumerate()], stopping at the first error. *)
Definition walk_items {E} (walk : Json -> string -> Result E unit) (path : string) : N -> list Json -> Result E unit :=
  fix go i l := match l with
                | [] => Ok tt
                | v :: l' => match walk v (path +:+ "[" +:+ pretty i +:+ "]") with Ok _ => go (i + 1)%N l' | Err e => Err e end
                end.
Fixpoint walk_fields {E} (walk : Field -> Result E unit) (l : list Field) : Result E unit :=
  match l with
  | [] => Ok tt
  | f :: l' => match walk f with Ok _ => walk_fields walk l' | Err e => Err e end
  end.
(** [obj.get(name).map(f)]. *)
Definition with_field {A} (f : Json -> A) (name : string) : list (string * Json) -> option A :=
  fix go l := match l with
              | [] => None
              | (k, v) :: l' => if String.eqb k name then Some (f v) else go l'
              end.

Fixpoint walk_strings (sc : Schema) (lists : bool) (v : Json) (ty : Ty) (max_len : N) (path : string) : Result OverCap unit :=
  match v with
  | JStr s => if (max_len <? str_len s)%N then Err (OcString (mkStringTooLong path (str_len s) max_len)) else Ok tt
  | JArr items =>
      match ty with
      | TyList elem cap =>
          if lists && (cap <? N.of_nat (length items))%N
          then Err (OcList (mkListTooLong path (N.of_nat (length items)) cap))
          else walk_items (fun item p => walk_strings sc lists item elem max_len p) path 0 items
      | _ => Ok tt
      end
  | JObj obj =>
      match ty with
      | TyStruct name =>
          walk_fields (fun f => default (Ok tt)
            (with_field (fun fv => walk_strings sc lists fv (fd_ty f) (fd_max_len f) (path +:+ "." +:+ fd_name f)) (fd_name f) obj))
            (sd_fields (struct_decl sc name))
      | _ => Ok tt
      end
  | _ => Ok tt
  end.
Definition walk_input (sc : Schema) (input : Json) (lists : bool) : Result OverCap unit :=
  walk_fields (fun var => match json_get input (fd_name var) with
                          | Some v => walk_strings sc lists v (fd_ty var) (fd_max_len var) (fd_name var)
                          | None => Ok tt
                          end) (sc_variables sc).
Definition check_caps (sc : Schema) (input : Json) : Result OverCap unit := walk_input sc input true.
(** [unreachable!] for a list error: [None]. *)
Definition check_string_lengths (sc : Schema) (input : Json) : option (Result StringTooLong unit) :=
  match walk_input sc input false with
  | Ok _ => Some (Ok tt)
  | Err (OcString e) => Some (Err e)
  | Err (OcList _) => None
  end.

(** ** Binding an input as CEL variables *)

(** chrono's RFC 3339 reader and writer, a time being Unix milliseconds. *)
Class Rfc3339 := {
  parse_rfc3339 : string -> Result string Z;
  show_rfc3339 : Z -> string;
}.

Section Bind.
Context {R : Rfc3339}.

Definition value_items (to_value : Json -> Result string CelValue) : N -> list Json -> Result string (list CelValue) :=
  fix go i l := match l with
                | [] => Ok []
                | v :: l' => match to_value v with
                             | Err e => Err ("[" +:+ pretty i +:+ "]" +:+ e)
                             | Ok x => match go (i + 1)%N l' with Ok xs => Ok (x :: xs) | Err e => Err e end
                             end
                end.
(** One field of a struct: absent, or its value. *)
Definition value_field (found : option (Json * Result string CelValue)) (f : Field) : Result string (option CelValue) :=
  match found with
  | None | Some (JNull, _) => if fd_optional f then Ok None else Err ("." +:+ fd_name f +:+ ": required")
  | Some (_, Ok v) => Ok (Some v)
  | Some (_, Err e) => Err ("." +:+ fd_name f +:+ e)
  end.
Fixpoint value_fields (field : Field -> Result string (option CelValue)) (l : list Field) : Result string (list (string * CelValue)) :=
  match l with
  | [] => Ok []
  | f :: l' =>
      match field f with
      | Err e => Err e
      | Ok v => match value_fields field l' with
                | Err e => Err e
                | Ok m => Ok (match v with Some v => (fd_name f, v) :: m | None => m end)
                end
      end
  end.

Definition mismatch (ty : Ty) (v : Json) : string := ": expected " +:+ show_ty ty +:+ ", got " +:+ json_text v.

(** [to_value]. A JSON number read as a double keeps its text. *)
Fixpoint to_value (sc : Schema) (json : Json) (ty : Ty) (max_len : N) : Result string CelValue :=
  match json with
  | JStr s =>
      if (max_len <? str_len s)%N
      then Err (": " +:+ pretty (str_len s) +:+ " bytes, more than the " +:+ pretty max_len +:+ " a Policy input string may hold")
      else match ty with
           | TyString => Ok (VString s)
           | TyTimestamp => match parse_rfc3339 s with Ok t => Ok (VTimestamp t) | Err e => Err (": " +:+ e) end
           | TyEnum name =>
               if bool_decide (s ∈ ed_variants (enum_decl sc name)) then Ok (VString s)
               else Err (": " +:+ quote +:+ s +:+ quote +:+ " is not a " +:+ name)
           | _ => Err (mismatch ty json)
           end
  | JBool b => match ty with TyBool => Ok (VBool b) | _ => Err (mismatch ty json) end
  | JInt z =>
      match ty with
      | TyInt => if bool_decide (in_i64 z) then Ok (VInt z) else Err (mismatch ty json)
      | TyUint => if bool_decide (0 <= z < 2^64)%Z then Ok (VUInt z) else Err (mismatch ty json)
      | TyDouble => Ok (VFloat (json_text json))
      | _ => Err (mismatch ty json)
      end
  | JFloat t => match ty with TyDouble => Ok (VFloat t) | _ => Err (mismatch ty json) end
  | JArr items =>
      match ty with
      | TyList elem cap =>
          if (cap <? N.of_nat (length items))%N
          then Err (": " +:+ pretty (length items) +:+ " items, above the cap of " +:+ pretty cap)
          else match value_items (fun item => to_value sc item elem max_len) 0 items with
               | Ok l => Ok (VList l)
               | Err e => Err e
               end
      | _ => Err (mismatch ty json)
      end
  | JObj obj =>
      match ty with
      | TyStruct name =>
          match value_fields (fun f => value_field (with_field (fun v => (v, to_value sc v (fd_ty f) (fd_max_len f))) (fd_name f) obj) f)
                  (sd_fields (struct_decl sc name)) with
          | Ok m => Ok (VMap m)
          | Err e => Err e
          end
      | _ => Err (mismatch ty json)
      end
  | JNull => Err (mismatch ty json)
  end.

Definition bind_var (sc : Schema) (input : Json) (var : Field) : Result string CelValue :=
  match json_get input (fd_name var) with
  | None | Some JNull => if fd_optional var then Ok VNull else Err ("`" +:+ fd_name var +:+ "` is required")
  | Some v => match to_value sc v (fd_ty var) (fd_max_len var) with Ok x => Ok x | Err e => Err (fd_name var +:+ e) end
  end.
Fixpoint bind_vars (sc : Schema) (input : Json) (vars : list Field) (context : gmap string CelValue) : Result string (gmap string CelValue) :=
  match vars with
  | [] => Ok context
  | var :: l => match bind_var sc input var with
                | Ok v => bind_vars sc input l (<[fd_name var := v]> context)
                | Err e => Err e
                end
  end.
(** [bind]. The context's [matches] function holds no state a rule can see. *)
Definition bind_input (sc : Schema) (input : Json) : Result string (gmap string CelValue) :=
  match input with
  | JObj _ => bind_vars sc input (sc_variables sc) ∅
  | _ => Err "the input is not a struct"
  end.
End Bind.

Lemma with_field_some {A} (f : Json -> A) name obj a :
  with_field f name obj = Some a -> exists v, (name, v) ∈ obj /\ a = f v /\ json_get (JObj obj) name = Some v.
Proof.
  cbn. induction obj as [|[k v] obj IH]; cbn; [done|]. destruct (String.eqb_spec k name) as [->|Hk].
  - intros [= <-]. exists v. split_and!; [left|done..].
  - intros (w & Hw & Ha & Hg)%IH. exists w. split_and!; [by right|done..].
Qed.
Lemma with_field_get {A} (f : Json -> A) name obj :
  with_field f name obj = f <$> json_get (JObj obj) name.
Proof. cbn. induction obj as [|[k v] obj IH]; cbn; [done|]. by destruct (String.eqb k name). Qed.

(** ** Typed values *)

#[warnings="-register-all"]
Inductive has_type (sc : Schema) : Ty -> N -> CelValue -> Prop :=
| ht_bool max b : has_type sc TyBool max (VBool b)
| ht_int max z : in_i64 z -> has_type sc TyInt max (VInt z)
| ht_uint max z : (0 <= z < 2^64)%Z -> has_type sc TyUint max (VUInt z)
| ht_double max t : has_type sc TyDouble max (VFloat t)
| ht_string max s : (str_len s <= max)%N -> has_type sc TyString max (VString s)
| ht_timestamp max t : has_type sc TyTimestamp max (VTimestamp t)
| ht_enum max name s : s ∈ ed_variants (enum_decl sc name) -> has_type sc (TyEnum name) max (VString s)
| ht_list elem cap max l :
    (N.of_nat (length l) <= cap)%N -> (forall v, v ∈ l -> has_type sc elem max v) -> has_type sc (TyList elem cap) max (VList l)
| ht_struct name max m :
    (forall k v, (k, v) ∈ m -> exists f, f ∈ sd_fields (struct_decl sc name) /\ fd_name f = k
                                         /\ has_type sc (fd_ty f) (fd_max_len f) v) ->
    (forall f, f ∈ sd_fields (struct_decl sc name) -> fd_optional f = false -> fd_name f ∈ m.*1) ->
    has_type sc (TyStruct name) max (VMap m).

Section Typing.
Context {R : Rfc3339} (sc : Schema).

Lemma value_items_ok f i l vs :
  value_items f i l = Ok vs -> length vs = length l /\ forall x, x ∈ vs -> exists v, v ∈ l /\ f v = Ok x.
Proof.
  revert i vs; induction l as [|v l IH]; intros i vs; cbn; [intros [= <-]; split; [done|by intros x ?%not_elem_of_nil]|].
  destruct (f v) as [x|] eqn:Ef; [|done]. fold (value_items f). destruct (value_items f (i + 1) l) as [xs|] eqn:El; [|done].
  intros [= <-]. apply IH in El as [Hl Hx]. split; [cbn; lia|]. intros y [->|Hy]%elem_of_cons.
  - exists v. split; [left|done].
  - destruct (Hx y Hy) as (w & Hw & Hfw). exists w. split; [by right|done].
Qed.
Lemma value_fields_ok field l m :
  value_fields field l = Ok m ->
  (forall k v, (k, v) ∈ m -> exists f, f ∈ l /\ fd_name f = k /\ field f = Ok (Some v)) /\
  (forall f, f ∈ l -> field f = Ok None \/ exists v, field f = Ok (Some v) /\ (fd_name f, v) ∈ m).
Proof.
  revert m; induction l as [|f l IH]; intros m; cbn.
  { intros [= <-]. split; [by intros k v ?%not_elem_of_nil|by intros f ?%not_elem_of_nil]. }
  destruct (field f) as [o|] eqn:Ef; [|done]. destruct (value_fields field l) as [m'|] eqn:El; [|done].
  intros [= <-]. destruct (IH m' eq_refl) as [H1 H2]. split.
  - intros k v Hk. destruct o as [w|].
    + apply elem_of_cons in Hk as [[= -> ->]|Hk]; [exists f; split; [left|done]|].
      destruct (H1 k v Hk) as (g & Hg & Hr). exists g. split; [by right|done].
    + destruct (H1 k v Hk) as (g & Hg & Hr). exists g. split; [by right|done].
  - intros g [->|Hg]%elem_of_cons.
    + destruct o as [w|]; [right; exists w; split; [done|left]|by left].
    + destruct (H2 g Hg) as [?|(v & Hv & Hm)]; [by left|]. right. exists v. split; [done|]. destruct o; [by right|done].
Qed.

Lemma to_value_typed v : forall ty max x, to_value sc v ty max = Ok x -> has_type sc ty max x.
Proof.
  induction v as [|b|z|t|s|l IH|m IH] using json_induction; intros ty max x; cbn [to_value].
  - done.
  - destruct ty; try done. intros [= <-]. constructor.
  - destruct ty; try done; try (case_bool_decide; [|done]); intros [= <-]; by constructor.
  - destruct ty; try done. intros [= <-]. constructor.
  - destruct (N.ltb_spec max (str_len s)) as [|Hl]; [done|]. destruct ty; try done.
    + intros [= <-]. by constructor.
    + destruct (parse_rfc3339 s); [|done]. intros [= <-]. constructor.
    + case_bool_decide; [|done]. intros [= <-]. by constructor.
  - destruct ty as [| | | | | | | | | |elem cap| | |]; try done.
    destruct (N.ltb_spec cap (N.of_nat (length l))) as [|Hc]; [done|].
    destruct (value_items _ 0 l) as [vs|] eqn:Ev; [|done]. intros [= <-]. apply value_items_ok in Ev as [Hl Hv].
    constructor; [lia|]. intros y Hy. destruct (Hv y Hy) as (w & Hw & Hf). by eapply IH.
  - destruct ty as [| | | | | | | | | | | |name|]; try done.
    destruct (value_fields _ _) as [vs|] eqn:Ev; [|done]. intros [= <-]. apply value_fields_ok in Ev as [H1 H2].
    assert (forall f v, value_field (with_field (fun v => (v, to_value sc v (fd_ty f) (fd_max_len f))) (fd_name f) m) f = Ok (Some v) ->
      has_type sc (fd_ty f) (fd_max_len f) v) as Hfield.
    { intros f v. unfold value_field. destruct (with_field _ _ m) as [[j r]|] eqn:Ew; [|by destruct (fd_optional f)].
      apply with_field_some in Ew as (w & Hw & [= -> ->] & _).
      destruct w; try (by destruct (fd_optional f)); destruct (to_value sc _ _ _) eqn:Et; try done; intros [= <-]; by eapply IH. }
    constructor.
    + intros k v Hk. destruct (H1 k v Hk) as (f & Hf & He & Hv). exists f. split_and!; [done..|by apply Hfield].
    + intros f Hf Ho. destruct (H2 f Hf) as [Hn|(v & _ & Hm)]; [|apply list_elem_of_fmap; by exists (fd_name f, v)].
      exfalso. revert Hn. unfold value_field. rewrite Ho. destruct (with_field _ _ m) as [[[] []]|]; done.
Qed.

Lemma bind_vars_lookup input vars context context' name :
  bind_vars sc input vars context = Ok context' ->
  (name ∉ map fd_name vars -> context' !! name = context !! name) /\
  (forall var, var ∈ vars -> NoDup (map fd_name vars) -> exists v, bind_var sc input var = Ok v /\ context' !! fd_name var = Some v) /\
  dom context' = dom context ∪ list_to_set (map fd_name vars).
Proof.
  revert context name; induction vars as [|var l IH]; intros context name; cbn [bind_vars map list_to_set].
  { intros [= <-]. split_and!; [done|by intros v ?%not_elem_of_nil|set_solver]. }
  destruct (bind_var sc input var) as [v|] eqn:Ev; [|done]. intros H. split_and!.
  - intros [Hne Hn]%not_elem_of_cons. destruct (IH _ name H) as [Hk _]. rewrite Hk by done. apply lookup_insert_ne; congruence.
  - intros w [->|Hw]%elem_of_cons [Hn Hd]%NoDup_cons.
    + exists v. split; [done|]. destruct (IH _ (fd_name var) H) as [Hk _]. rewrite Hk by done. apply lookup_insert_eq.
    + destruct (IH _ name H) as [_ [Hk _]]. by apply Hk.
  - destruct (IH _ name H) as [_ [_ Hd]]. rewrite Hd, dom_insert_L. set_solver.
Qed.

(** *** Binding refuses every input over a cap *)

Lemma walk_items_ok {E} (walk : Json -> string -> Result E unit) path i l :
  (forall v p, v ∈ l -> walk v p = Ok tt) -> walk_items walk path i l = Ok tt.
Proof.
  revert i; induction l as [|v l IH]; intros i H; [done|]. cbn. fold (walk_items walk path). rewrite H by left.
  apply IH. intros w p Hw. apply H. by right.
Qed.
Lemma walk_fields_ok {E} (walk : Field -> Result E unit) l :
  (forall f, f ∈ l -> walk f = Ok tt) -> walk_fields walk l = Ok tt.
Proof.
  induction l as [|f l IH]; intros H; [done|]. cbn. rewrite H by left. apply IH. intros g Hg. apply H. by right.
Qed.
Lemma value_items_each f i l vs : value_items f i l = Ok vs -> forall v, v ∈ l -> exists x, f v = Ok x.
Proof.
  revert i vs; induction l as [|v l IH]; intros i vs; cbn; [by intros _ v ?%not_elem_of_nil|].
  destruct (f v) as [x|] eqn:Ef; [|done]. fold (value_items f). destruct (value_items f (i + 1) l) as [xs|] eqn:El; [|done].
  intros _ w [->|Hw]%elem_of_cons; [by exists x|by eapply IH].
Qed.

Lemma to_value_within_caps lists v : forall ty max x path,
  to_value sc v ty max = Ok x -> walk_strings sc lists v ty max path = Ok tt.
Proof.
  induction v as [|b|z|t|s|l IH|m IH] using json_induction; intros ty max x path; cbn [to_value walk_strings]; try done.
  - by destruct (max <? str_len s)%N.
  - destruct ty as [| | | | | | | | | |elem cap| | |]; try done.
    destruct (cap <? N.of_nat (length l))%N; [done|]. rewrite andb_false_r.
    destruct (value_items _ 0 l) as [vs|] eqn:Ev; [|done]. intros _. apply walk_items_ok. intros v p Hv.
    destruct (value_items_each _ _ _ _ Ev v Hv) as (y & Hy). by eapply IH.
  - destruct ty as [| | | | | | | | | | | |name|]; try done.
    destruct (value_fields _ _) as [vs|] eqn:Ev; [|done]. intros _. apply value_fields_ok in Ev as [_ H2].
    apply walk_fields_ok. intros f Hf. destruct (with_field _ (fd_name f) m) as [r|] eqn:Ew; [|done]. cbn [default].
    apply with_field_some in Ew as (v & Hv & -> & Hg). specialize (H2 f Hf).
    rewrite with_field_get, Hg in H2. cbn in H2.
    destruct v as [| | | | | |]; try (destruct (to_value sc _ _ _) eqn:Et; [by eapply IH|];
      destruct H2 as [?|(? & ? & _)]; discriminate). done.
Qed.
End Typing.

(** C34: an input that binds gives every variable of the checkpoint's schema
    and nothing else, each either null where the schema lets it be absent or a
    value of exactly its declared type, with every list within its cap, every
    string within its length and every enum one of its names; so an input over
    any cap never reaches a rule. *)
Theorem bound_input_typed {R : Rfc3339} sc input context :
  NoDup (map fd_name (sc_variables sc)) -> bind_input sc input = Ok context ->
  dom context = list_to_set (map fd_name (sc_variables sc)) /\
  (forall var, var ∈ sc_variables sc -> exists v, context !! fd_name var = Some v /\
     ((v = VNull /\ fd_optional var = true /\ (json_get input (fd_name var) = None \/ json_get input (fd_name var) = Some JNull))
      \/ has_type sc (fd_ty var) (fd_max_len var) v)) /\
  check_caps sc input = Ok tt.
Proof.
  intros Hn Hb. assert (bind_vars sc input (sc_variables sc) ∅ = Ok context) as H by (by destruct input).
  assert (forall var, var ∈ sc_variables sc -> exists v, bind_var sc input var = Ok v /\ context !! fd_name var = Some v) as Hv.
  { intros var Hvar. destruct (bind_vars_lookup _ _ _ _ _ "" H) as (_ & Hl & _). by apply Hl. }
  split_and!.
  - destruct (bind_vars_lookup _ _ _ _ _ "" H) as (_ & _ & ->). by rewrite dom_empty_L, union_empty_l_L.
  - intros var Hvar. destruct (Hv var Hvar) as (v & Hbv & Hc). exists v. split; [done|]. unfold bind_var in Hbv.
    destruct (json_get input (fd_name var)) as [[]|] eqn:Eg;
      try (destruct (fd_optional var) eqn:Eo; [injection Hbv as <-; left; tauto|done]);
      right; destruct (to_value sc _ _ _) eqn:Et; try done; injection Hbv as <-; by apply to_value_typed in Et.
  - apply walk_fields_ok. intros var Hvar. destruct (Hv var Hvar) as (v & Hbv & _). unfold bind_var in Hbv.
    destruct (json_get input (fd_name var)) as [[]|] eqn:Eg; try done;
      destruct (to_value sc _ _ _) eqn:Et; try done; by eapply to_value_within_caps.
Qed.

Definition some_clock : Rfc3339 := {| parse_rfc3339 _ := Ok 0%Z; show_rfc3339 _ := "1970-01-01T00:00:00Z" |}.
Definition no_schema : Schema := mkSchema "" 0 [] ∅ ∅.
Definition small_schema : Schema :=
  default no_schema (for_root (p_struct "Root" [("tags", p_capped p_string 2); ("actor", p_option p_string)]) "run.create" 1).
Definition small_input : Json := JObj [("tags", JArr [JStr "a"; JStr "b"])].
Lemma bound_input_typed_witness :
  is_ok (bind_input (R := some_clock) small_schema small_input) = true /\ check_caps small_schema small_input = Ok tt.
Proof.
  split; [vm_compute; reflexivity|]. destruct (bind_input (R := some_clock) small_schema small_input) as [context|] eqn:E.
  - refine (proj2 (proj2 (bound_input_typed (R := some_clock) small_schema small_input context _ E))).
    apply (bool_decide_unpack _). vm_compute. exact I.
  - assert (is_ok (bind_input (R := some_clock) small_schema small_input) = true) as H by (vm_compute; reflexivity).
    rewrite E in H. discriminate H.
Defined.

(** ** What binds *)

(** A JSON value of the shape a type asks for, strings of any length. *)
#[warnings="-register-all"]
Inductive shaped {R : Rfc3339} (sc : Schema) : Ty -> Json -> Prop :=
| sh_bool b : shaped sc TyBool (JBool b)
| sh_uint z : (0 <= z < 2^64)%Z -> shaped sc TyUint (JInt z)
| sh_string s : shaped sc TyString (JStr s)
| sh_enum name s : s ∈ ed_variants (enum_decl sc name) -> shaped sc (TyEnum name) (JStr s)
| sh_timestamp s t : parse_rfc3339 s = Ok t -> shaped sc TyTimestamp (JStr s)
| sh_list elem cap l :
    (N.of_nat (length l) <= cap)%N -> (forall v, v ∈ l -> shaped sc elem v) -> shaped sc (TyList elem cap) (JArr l)
| sh_struct name m :
    (forall f, f ∈ sd_fields (struct_decl sc name) ->
       (json_get (JObj m) (fd_name f) = Some JNull /\ fd_optional f = true)
       \/ exists v, json_get (JObj m) (fd_name f) = Some v /\ shaped sc (fd_ty f) v) ->
    shaped sc (TyStruct name) (JObj m).

Section Binds.
Context {R : Rfc3339} (sc : Schema).

Lemma walk_items_each {E} (walk : Json -> string -> Result E unit) path i l :
  walk_items walk path i l = Ok tt -> forall v, v ∈ l -> exists p, walk v p = Ok tt.
Proof.
  revert i; induction l as [|v l IH]; intros i; cbn; [by intros _ v ?%not_elem_of_nil|].
  destruct (walk v _) as [[]|] eqn:Ev; [|done]. fold (walk_items walk path). intros H w [->|Hw]%elem_of_cons; [by eexists|by eapply IH].
Qed.
Lemma walk_fields_each {E} (walk : Field -> Result E unit) l : walk_fields walk l = Ok tt -> forall f, f ∈ l -> walk f = Ok tt.
Proof.
  induction l as [|f l IH]; cbn; [by intros _ f ?%not_elem_of_nil|]. destruct (walk f) as [[]|] eqn:Ef; [|done].
  intros H g [->|Hg]%elem_of_cons; [done|by apply IH].
Qed.
Lemma value_items_all f i l : (forall v, v ∈ l -> exists x, f v = Ok x) -> exists xs, value_items f i l = Ok xs.
Proof.
  revert i; induction l as [|v l IH]; intros i H; [by eexists|]. cbn. fold (value_items f).
  destruct (H v) as [x ->]; [left|]. destruct (IH (i + 1)%N) as [xs ->]; [intros w Hw; apply H; by right|]. by eexists.
Qed.
Lemma value_fields_all field l : (forall f, f ∈ l -> exists v, field f = Ok v) -> exists m, value_fields field l = Ok m.
Proof.
  induction l as [|f l IH]; intros H; [by eexists|]. cbn. destruct (H f) as [v ->]; [left|].
  destruct IH as [m ->]; [intros g Hg; apply H; by right|]. by eexists.
Qed.

Lemma json_get_elem m k v : json_get (JObj m) k = Some v -> (k, v) ∈ m.
Proof.
  cbn. destruct (List.find _ m) as [[k' w]|] eqn:Ef; [|done]. intros [= ->].
  apply find_some in Ef as [Hi%list_elem_of_In He%String.eqb_eq]. cbn in He. by subst.
Qed.
(** A value of the right shape binds once its strings are short enough. *)
Lemma shaped_binds v : forall ty max path,
  shaped sc ty v -> walk_strings sc false v ty max path = Ok tt -> exists x, to_value sc v ty max = Ok x.
Proof.
  induction v as [|b|z|t|s|l IH|m IH] using json_induction; intros ty max path Hs; cbn [walk_strings to_value].
  - inversion Hs.
  - inversion Hs; subst. by eexists.
  - inversion Hs; subst. intros _. rewrite bool_decide_eq_true_2 by done. by eexists.
  - inversion Hs.
  - destruct (max <? str_len s)%N; [done|]. intros _. inversion Hs as [| |?|name ? Hin|? t Ht| |]; subst.
    + by eexists.
    + rewrite bool_decide_eq_true_2 by done. by eexists.
    + rewrite Ht. by eexists.
  - inversion Hs as [| | | | |elem cap ? Hc Hl|]; subst. rewrite andb_false_l.
    intros Hw. destruct (N.ltb_spec cap (N.of_nat (length l))) as [Hlt|_]; [lia|].
    destruct (value_items_all (fun item => to_value sc item elem max) 0 l) as [xs ->]; [|by eexists].
    intros v Hv. destruct (walk_items_each _ _ _ _ Hw v Hv) as [p Hp]. by eapply IH; [|apply Hl|].
  - inversion Hs as [| | | | | |name ? Hm]; subst. intros Hw.
    match goal with |- context [value_fields ?g ?l] => destruct (value_fields_all g l) as [xs ->]; [|by eexists] end.
    intros f Hf. unfold value_field. rewrite with_field_get.
    pose proof (walk_fields_each _ _ Hw f Hf) as Hwf. cbv beta in Hwf. rewrite with_field_get in Hwf.
    destruct (Hm f Hf) as [[Hg Ho]|(v & Hg & Hv)]; rewrite Hg in Hwf |- *.
    + cbn. rewrite Ho. by eexists.
    + cbn in Hwf |- *. assert (exists x, to_value sc v (fd_ty f) (fd_max_len f) = Ok x) as [x Hx].
      { by eapply (IH (fd_name f)); [apply json_get_elem|..]. }
      destruct v; [by inversion Hv|..]; rewrite Hx; by eexists.
Qed.

Lemma shaped_input_binds input :
  (exists m, input = JObj m) ->
  (forall var, var ∈ sc_variables sc ->
     (json_get input (fd_name var) = Some JNull /\ fd_optional var = true)
     \/ exists v, json_get input (fd_name var) = Some v /\ shaped sc (fd_ty var) v) ->
  walk_input sc input false = Ok tt -> is_ok (bind_input sc input) = true.
Proof.
  intros [m ->] Hv Hw. unfold walk_input in Hw. cbn [bind_input].
  assert (forall l context, (forall var, var ∈ l -> is_ok (bind_var sc (JObj m) var) = true) -> is_ok (bind_vars sc (JObj m) l context) = true) as H.
  { induction l as [|var l IH]; intros context Hl; [done|]. cbn [bind_vars].
    pose proof (Hl var (list_elem_of_here _ _)) as Hvar. destruct (bind_var sc (JObj m) var); [|done].
    apply IH. intros w Hin. apply Hl. by right. }
  apply H. intros var Hvar. pose proof (walk_fields_each _ _ Hw var Hvar) as Hwv. cbv beta in Hwv.
  unfold bind_var. destruct (Hv var Hvar) as [[Hg Ho]|(v & Hg & Hs)]; rewrite Hg in Hwv |- *; [by rewrite Ho|].
  destruct (shaped_binds v _ _ _ Hs Hwv) as [x Hx]. destruct v; [by inversion Hs|..]; by rewrite Hx.
Qed.
End Binds.
