(* ===== verification/Oci.v ===== *)
(** * OCI image references (scarab-pipeline/src/oci.rs) *)

From S2P Require Import Prelude Text.

Definition MAX_NAME : nat := 255.
Definition first_byte (p : ascii -> bool) (s : string) : bool :=
  match s with String c _ => p c | EmptyString => false end.
Definition last_byte (p : ascii -> bool) (s : string) : bool :=
  match String.get (pred (String.length s)) s with Some c => p c | None => false end.

Definition path_alnum (c : ascii) : bool := is_lower c || is_digit c.
Definition separator_ok (sep : string) : bool :=
  bool_decide (sep ∈ ["."; "_"; "__"]) || all_bytes (Ascii.eqb "-") sep.
(** The loop over a component's bytes: [sep] is the run of separators before
    the next one. *)
Fixpoint separators_ok (sep p : string) : bool :=
  match p with
  | EmptyString => separator_ok sep
  | String c p' =>
      if path_alnum c then separator_ok sep && separators_ok "" p'
      else separators_ok (sep +:+ String c "") p'
  end.
Definition is_path_component (p : string) : bool :=
  first_byte path_alnum p && last_byte path_alnum p && separators_ok "" p.

Definition is_port (p : string) : bool :=
  negb (String.eqb p "") && (String.length p <=? 5) && all_bytes is_digit p.

Definition is_label (l : string) : bool :=
  first_byte is_alphanumeric l && last_byte is_alphanumeric l
  && all_bytes (fun c => is_alphanumeric c || Ascii.eqb c "-") l.
Definition is_host (h : string) : bool :=
  match strip_char "[" h with
  | Some rest =>
      match split_once "]" rest with
      | Some (addr, after) =>
          if String.eqb addr "" || negb (all_bytes (fun c => is_hexdigit c || Ascii.eqb c ":") addr) then false
          else if String.eqb after "" then true
          else match strip_char ":" after with Some port => is_port port | None => false end
      | None => false
      end
  | None =>
      let '(host, port) := match split_once ":" h with
                           | Some (host, port) => (host, Some port)
                           | None => (h, None)
                           end in
      match port with Some p => is_port p | None => true end
      && negb (String.eqb host "") && forallb is_label (split "." host)
  end.

Definition tag_word (c : ascii) : bool := is_alphanumeric c || Ascii.eqb c "_".
Definition is_tag (t : string) : bool :=
  (String.length t <=? 128) && first_byte tag_word t
  && all_bytes (fun c => tag_word c || Ascii.eqb c "." || Ascii.eqb c "-") t.

(** [split] at any of several characters. *)
Fixpoint split_any (cs : string) (s : string) : list string :=
  match s with
  | EmptyString => [""]
  | String d s' =>
      if has_char d cs then "" :: split_any cs s'
      else match split_any cs s' with x :: l => String d x :: l | [] => [String d ""] end
  end.
Definition is_digest (d : string) : bool :=
  match split_once ":" d with
  | None => false
  | Some (algorithm, encoded) =>
      forallb (fun part => negb (String.eqb part "") && all_bytes path_alnum part) (split_any "+._-" algorithm)
      && negb (String.eqb encoded "")
      && all_bytes (fun c => is_alphanumeric c || has_char c "=_-") encoded
  end.

Definition is_image_reference (image : string) : bool :=
  let '(rest, digest) := match split_once "@" image with
                         | Some (rest, digest) => (rest, Some digest)
                         | None => (image, None)
                         end in
  if match digest with Some d => negb (is_digest d) | None => false end then false
  else
    let last_slash := match rfind "/" rest with Some i => S i | None => 0 end in
    let '(name, tag) := match rfind ":" (drop_str last_slash rest) with
                        | Some i => (take_str (last_slash + i) rest, Some (drop_str (last_slash + i + 1) rest))
                        | None => (rest, None)
                        end in
    if match tag with Some t => negb (is_tag t) | None => false end then false
    else if String.eqb name "" || (MAX_NAME <? String.length name) then false
    else
      let parts := split "/" name in
      match parts with
      | first :: (_ :: _) as more =>
          if has_char "." first || has_char ":" first || String.eqb first "localhost"
             || negb (all_bytes (fun c => negb (is_upper c)) first)
          then is_host first && forallb is_path_component more
          else forallb is_path_component parts
      | _ => forallb is_path_component parts
      end.

(** * Theorems *)

#[local] Arguments Ascii.eqb : simpl never.

(** The bytes an image reference is made of: nothing a shell or a container
    runtime reads as more than one word, an option or a quote. *)
Definition reference_byte (c : ascii) : bool := is_alphanumeric c || has_char c ".:/@_-+=[]".

Lemma all_bytes_app p a b : all_bytes p (a +:+ b) = all_bytes p a && all_bytes p b.
Proof.
  induction a as [|c a IH]; [done|]. rewrite string_app_cons. cbn. by rewrite IH, andb_assoc.
Qed.
Lemma all_bytes_impl (p q : ascii -> bool) s :
  (forall c, p c = true -> q c = true) -> all_bytes p s = true -> all_bytes q s = true.
Proof.
  intros H. induction s as [|c s IH]; [done|]. cbn. rewrite !andb_true_iff. intros [H1 H2]. auto.
Qed.

Lemma all_bytes_has p s c : all_bytes p s = true -> has_char c s = true -> p c = true.
Proof.
  induction s as [|d s IH]; cbn; [done|]. rewrite andb_true_iff, orb_true_iff. intros [Hd Hs].
  intros [->%Ascii.eqb_eq|H]; auto.
Qed.
Lemma all_bytes_join p sep l :
  all_bytes p sep = true -> (forall x, x ∈ l -> all_bytes p x = true) -> all_bytes p (join sep l) = true.
Proof.
  intros Hs. induction l as [|x l IH]; intros H; [done|]. destruct l as [|y l]; [apply H; left|].
  change (join sep (x :: y :: l)) with (x +:+ sep +:+ join sep (y :: l)).
  rewrite !all_bytes_app, Hs, (H x) by left. apply IH. intros z Hz. apply H. by right.
Qed.

Lemma first_byte_join p sep c x l : first_byte p (join sep (String c x :: l)) = p c.
Proof. by destruct l. Qed.

Ltac byte_class := unfold reference_byte, path_alnum, is_alphanumeric, tag_word; cbn [has_char];
  rewrite ?orb_true_iff; tauto.

Lemma separators_bytes sep p :
  separators_ok sep p = true -> all_bytes reference_byte (sep +:+ p) = true.
Proof.
  assert (forall s, separator_ok s = true -> all_bytes reference_byte s = true) as Hsep.
  { intros s. unfold separator_ok. rewrite orb_true_iff, bool_decide_eq_true. intros [H|H].
    - set_unfold in H. destruct H as [->|[->|[->|[]]]]; reflexivity.
    - revert H. apply all_bytes_impl. intros c <-%Ascii.eqb_eq. reflexivity. }
  revert sep; induction p as [|c p IH]; intros sep; cbn [separators_ok].
  - rewrite string_app_nil_r. apply Hsep.
  - rewrite all_bytes_app. cbn. destruct (path_alnum c) eqn:Ec.
    + intros [H1 H2]%andb_true_iff. rewrite (Hsep _ H1). apply IH in H2. rewrite string_app_nil_l in H2. rewrite H2.
      assert (reference_byte c = true) as -> by (revert Ec; byte_class). done.
    + intros H%IH. rewrite !all_bytes_app in H. cbn in H. rewrite !andb_true_iff in *. tauto.
Qed.
Lemma path_component_bytes p : is_path_component p = true -> all_bytes reference_byte p = true.
Proof. unfold is_path_component. rewrite !andb_true_iff. intros [_ H]. by apply (separators_bytes "" p). Qed.

Lemma split_any_bytes p cs s :
  forallb (all_bytes p) (split_any cs s) = true -> all_bytes (fun c => p c || has_char c cs) s = true.
Proof.
  induction s as [|d s IH]; [done|]. cbn [split_any all_bytes]. destruct (has_char d cs) eqn:Ed.
  - cbn. intros H. rewrite orb_true_r. by apply IH.
  - destruct (split_any cs s) as [|x l]; cbn in *; rewrite ?andb_true_iff in *.
    + intros [[-> _] _]. by rewrite IH.
    + intros [[-> Hx] Hl]. by rewrite IH.
Qed.

Lemma port_bytes p : is_port p = true -> all_bytes reference_byte p = true.
Proof. unfold is_port. rewrite !andb_true_iff. intros [_ H]. revert H. apply all_bytes_impl. intros c. byte_class. Qed.

Lemma host_bytes h : is_host h = true -> all_bytes reference_byte h = true.
Proof.
  assert (forall c (s : string), Ascii.eqb c ":" = true \/ is_hexdigit c = true -> reference_byte c = true) as Hx.
  { intros c _ [->%Ascii.eqb_eq|H]; [done|]. revert H. unfold is_hexdigit, in_range.
    unfold reference_byte, is_alphanumeric, is_digit, is_lower, is_upper, in_range.
    rewrite !orb_true_iff, !andb_true_iff, !N.leb_le. intros [[?|?]|?]; left; lia. }
  unfold is_host. destruct h as [|c h]; [done|]. unfold strip_char.
  destruct (Ascii.eqb_spec "[" c) as [<-|Hc].
  - destruct (split_once "]" h) as [[addr after]|] eqn:E; [|done].
    destruct (String.eqb addr "" || _) eqn:Ea; [done|]. apply split_once_spec in E as [-> _].
    apply orb_false_iff in Ea as [_ Ea%negb_false_iff].
    assert (all_bytes reference_byte addr = true) as Ha.
    { revert Ea. apply all_bytes_impl. intros d. rewrite orb_true_iff. intros [?|?]; apply (Hx d ""); auto. }
    cbn. rewrite all_bytes_app, Ha. cbn. destruct (String.eqb_spec after "") as [->|Hn]; [done|].
    destruct after as [|d port]; [done|]. cbn. destruct (Ascii.eqb_spec ":" d) as [<-|]; [|done].
    intros Hp%port_bytes. cbn. by rewrite Hp.
  - assert (forall l, forallb is_label (split "." l) = true -> all_bytes reference_byte l = true) as Hl.
    { intros l Hl. rewrite <- (join_split "." l). apply all_bytes_join; [done|]. intros x Hx'.
      rewrite forallb_forall in Hl. specialize (Hl x). rewrite <- list_elem_of_In in Hl. specialize (Hl Hx').
      unfold is_label in Hl. rewrite !andb_true_iff in Hl. destruct Hl as [_ Hl]. revert Hl.
      apply all_bytes_impl. intros d. rewrite orb_true_iff. intros [H| ->%Ascii.eqb_eq]; [revert H; byte_class|done]. }
    set (s := String c h). destruct (split_once ":" s) as [[host port]|] eqn:E.
    + rewrite !andb_true_iff. intros [[Hp%port_bytes _] Hh%Hl]. apply split_once_spec in E as [-> _].
      rewrite all_bytes_app, Hh. cbn. by rewrite Hp.
    + rewrite !andb_true_iff. intros [_ Hh]. by apply Hl.
Qed.

Lemma host_head h c : is_host (String c h) = true -> c <> "-"%char.
Proof.
  intros H ->. assert (forall l, forallb is_label (split "." (String "-" l)) = false) as Hl.
  { intros l. cbn [split]. change (Ascii.eqb "." "-") with false. cbn iota.
    by destruct (split "." l). }
  unfold is_host in H. change (strip_char "[" (String "-" h)) with (@None string) in H. cbn iota in H.
  cbn [split_once] in H. change (Ascii.eqb ":" "-") with false in H. cbn iota in H.
  destruct (split_once ":" h) as [[host port]|]; rewrite !Hl, ?andb_false_r in H; done.
Qed.

(** An image reference is not empty, does not start with a dash, and holds no
    byte but letters, digits and the punctuation of the grammar. *)
Lemma image_reference_safe image :
  is_image_reference image = true ->
  all_bytes reference_byte image = true /\ first_byte (fun c => negb (Ascii.eqb c "-")) image = true.
Proof.
  unfold is_image_reference.
  destruct (match split_once "@" image with Some (rest, digest) => (rest, Some digest) | None => (image, None) end)
    as [rest digest] eqn:Ei.
  destruct (match digest with Some d => negb (is_digest d) | None => false end) eqn:Ed; [done|].
  destruct (match rfind _ (drop_str _ rest) with Some i => _ | None => (rest, None) end) as [name tag] eqn:En.
  destruct (match tag with Some t => negb (is_tag t) | None => false end) eqn:Et; [done|].
  destruct (String.eqb_spec name "") as [|Hne]; [done|]. cbn [orb].
  destruct (MAX_NAME <? String.length name); [done|]. intros Hparts.
  (* The name: a host and path components. *)
  assert (all_bytes reference_byte name = true /\ first_byte (fun c => negb (Ascii.eqb c "-")) name = true) as [Hname Hhead].
  { assert (forall p, p ∈ split "/" name -> is_path_component p = true \/ is_host p = true) as Hp.
    { intros p Hp. destruct (split "/" name) as [|first [|second more]]; [by apply not_elem_of_nil in Hp|..].
      - apply list_elem_of_singleton in Hp as ->. cbn in Hparts. rewrite andb_true_iff in Hparts. tauto.
      - destruct (_ || negb (all_bytes _ first)); [rewrite andb_true_iff in Hparts; destruct Hparts as [Hf Hparts];
          apply elem_of_cons in Hp as [->|Hp]; [by right|]|];
        (left; rewrite forallb_forall in Hparts; apply Hparts; by apply list_elem_of_In). }
    rewrite <- (join_split "/" name). split.
    - apply all_bytes_join; [done|]. intros p [H|H]%Hp; [by apply path_component_bytes|by apply host_bytes].
    - destruct (split "/" name) as [|x l] eqn:Es; [by destruct (split_nonempty "/" name)|].
      destruct (Hp x) as [Hx|Hx]; [left|..].
      + unfold is_path_component in Hx. rewrite !andb_true_iff in Hx. destruct Hx as [[Hx _] _].
        destruct x as [|c x]; [done|]. rewrite first_byte_join. apply negb_true_iff, Ascii.eqb_neq.
        intros ->. discriminate Hx.
      + destruct x as [|c x]; [done|]. rewrite first_byte_join. apply negb_true_iff, Ascii.eqb_neq.
        by apply (host_head x). }
  (* The tag. *)
  assert (all_bytes reference_byte rest = true /\ first_byte (fun c => negb (Ascii.eqb c "-")) rest = true) as [Hrest Hrh].
  { destruct (rfind _ (drop_str _ rest)) as [i|] eqn:Er; injection En as <- <-; [|done].
    set (k := _ + i) in *. apply negb_false_iff in Et. unfold is_tag in Et. rewrite !andb_true_iff in Et.
    destruct Et as [_ Et]. assert (all_bytes reference_byte (drop_str (k + 1) rest) = true) as Htag.
    { revert Et. apply all_bytes_impl. intros c. rewrite !orb_true_iff.
      intros [[H| ->%Ascii.eqb_eq]| ->%Ascii.eqb_eq]; [revert H; unfold tag_word; rewrite orb_true_iff; intros [H| ->%Ascii.eqb_eq]; [revert H; byte_class|done]|done..]. }
    assert (exists c, drop_str k rest = String c (drop_str (k + 1) rest) /\ c = ":"%char) as (c & Ek & ->).
    { assert (forall s j, rfind ":" s = Some j -> drop_str j s = String ":" (drop_str (j + 1) s)) as Hr.
      { induction s as [|d s IH]; intros j; cbn [rfind]; [done|]. destruct (rfind ":" s) as [j'|] eqn:Ej.
        - intros [= <-]. cbn. by apply IH.
        - destruct (Ascii.eqb_spec ":" d) as [<-|]; [|done]. by intros [= <-]. }
      eexists. split; [|reflexivity]. unfold k. rewrite <- drop_drop_str. rewrite (Hr _ _ Er).
      rewrite drop_drop_str. by rewrite Nat.add_assoc. }
    rewrite <- (take_drop_str k rest), Ek, all_bytes_app. cbn. rewrite Hname, Htag. split; [done|].
    destruct (take_str k rest) as [|d r]; [done|exact Hhead]. }
  destruct (split_once "@" image) as [[r d]|] eqn:Es; injection Ei as <- <-; [|done].
  apply split_once_spec in Es as [-> _]. apply negb_false_iff in Ed. unfold is_digest in Ed.
  destruct (split_once ":" d) as [[algorithm encoded]|] eqn:Eg; [|done].
  apply split_once_spec in Eg as [-> _]. rewrite !andb_true_iff in Ed. destruct Ed as [[Ha _] He].
  assert (all_bytes reference_byte algorithm = true) as Halg.
  { assert (forallb (all_bytes path_alnum) (split_any "+._-" algorithm) = true) as Hs.
    { rewrite forallb_forall in Ha |- *. intros x Hx. specialize (Ha x Hx). by apply andb_true_iff in Ha as [_ ?]. }
    apply split_any_bytes in Hs. revert Hs. apply all_bytes_impl. intros c. rewrite orb_true_iff.
    intros [H|H]; [revert H; byte_class|]. unfold reference_byte. cbn in *. rewrite !orb_true_iff in *. tauto. }
  assert (all_bytes reference_byte encoded = true) as Henc.
  { revert He. apply all_bytes_impl. intros c. unfold reference_byte. cbn. rewrite !orb_true_iff. tauto. }
  split; [|destruct r; [done|exact Hrh]].
  rewrite all_bytes_app, Hrest. cbn [all_bytes]. rewrite all_bytes_app, Halg. cbn [all_bytes]. by rewrite Henc.
Qed.
