(* ===== verification/Params.v ===== *)
(** * Launch parameters (scarab-pipeline/src/params.rs)

    Converting a raw value to its declared type, and resolving a caller's
    values against a declared interface. Reading a text as a binary64 number,
    and writing one, is Rust's [f64]: a class, since only the text is kept. *)

From S2P Require Import Prelude Text Values Cel.

Class Floats := {
  (** [text.parse::<f64>()]: [None] when it does not parse, [Some None] when it
      is not finite, else the number as serde_json writes it. *)
  parse_f64 : string -> option (option string);
}.

(** ** Declarations *)

Inductive ParamType : Set := PtString | PtBoolean | PtNumber | PtChoice.
#[export] Instance ParamType_eq_dec : EqDecision ParamType.
Proof. solve_decision. Defined.

Record ParamSpec := mkParam {
  pm_name : string;
  pm_type : ParamType;
  pm_required : bool;
  pm_default : option Json;
  pm_options : option (list string);
  pm_validate : option string;
  pm_description : option string;
}.

(** A declared output: its name and type. *)
Record OutputSpec := mkOutput { ou_name : string; ou_type : ParamType; ou_description : option string }.

Definition param_err {A} (msg : string) : Result PipelineError A := Err (PeParam msg).

Section WithPorts.
Context {C : Cel} {F : Floats}.

Definition coerce (raw : Json) (ty : ParamType) : Result PipelineError Json :=
  match ty with
  | PtString =>
      match raw with
      | JStr s => Ok (JStr s)
      | JInt _ | JFloat _ => Ok (JStr (json_text raw))
      | other => param_err ("cannot coerce " +:+ json_text other +:+ " to a string")
      end
  | PtNumber =>
      match raw with
      | JInt _ | JFloat _ => Ok raw
      | JStr s =>
          match parse_i64 (trim s) with
          | Some i => Ok (JInt i)
          | None => match parse_f64 (trim s) with
                    | Some (Some f) => Ok (JFloat f)
                    | Some None => param_err ("`" +:+ s +:+ "` is not a finite number")
                    | None => param_err ("`" +:+ s +:+ "` is not a number")
                    end
          end
      | other => param_err ("cannot coerce " +:+ json_text other +:+ " to a number")
      end
  | PtBoolean =>
      match raw with
      | JBool _ => Ok raw
      | JStr s =>
          let t := to_ascii_lowercase (trim s) in
          if bool_decide (t ∈ ["true"; "yes"]) then Ok (JBool true)
          else if bool_decide (t ∈ ["false"; "no"]) then Ok (JBool false)
          else param_err ("`" +:+ s +:+ "` is not a boolean")
      | other => param_err ("cannot coerce " +:+ json_text other +:+ " to a boolean")
      end
  | PtChoice =>
      match raw with
      | JStr s => Ok (JStr s)
      | other => param_err ("a choice value must be a string, got " +:+ json_text other)
      end
  end.

(** [choice ∈ options]. *)
Definition check_choice (spec : ParamSpec) (coerced : Json) : Result PipelineError unit :=
  if decide (pm_type spec = PtChoice) then
    let opts := default [] (pm_options spec) in
    match coerced with
    | JStr s =>
        if bool_decide (s ∈ opts) then Ok tt
        else param_err ("`" +:+ s +:+ "` is not one of the allowed choices [" +:+ join ", " opts +:+ "]")
    | _ => Ok tt
    end
  else Ok tt.
Definition check_validate (spec : ParamSpec) (coerced : Json) : Result PipelineError unit :=
  match pm_validate spec with
  | Some expr =>
      b ← eval_bool expr (JObj [("value", coerced)]);
      if (b : bool) then Ok tt else param_err ("failed validation `" +:+ expr +:+ "`")
  | None => Ok tt
  end.
Definition resolve_one (spec : ParamSpec) (raw : Json) : Result PipelineError Json :=
  coerced ← coerce raw (pm_type spec);
  check_choice spec coerced ≫= fun _ =>
  check_validate spec coerced ≫= fun _ => Ok coerced.

(** One declared parameter: the values resolved so far and the errors. *)
Definition resolve_param (supplied : gmap string Json) (acc : gmap string Json * list string) (p : ParamSpec)
  : gmap string Json * list string :=
  let put (raw : Json) (label : string) :=
    match resolve_one p raw with
    | Ok v => (<[pm_name p := v]> acc.1, acc.2)
    | Err e => (acc.1, acc.2 ++ ["`" +:+ pm_name p +:+ label +:+ show_pipeline_error e])
    end in
  match supplied !! pm_name p with
  | Some raw => put raw "`: "
  | None =>
      match pm_default p with
      | Some def => put def "` (default): "
      | None => if pm_required p
                then (acc.1, acc.2 ++ ["`" +:+ pm_name p +:+ "`: required parameter not supplied"])
                else acc
      end
  end.
Definition unknown_params (inputs : list ParamSpec) (supplied : gmap string Json) : list string :=
  omap (fun k => if existsb (fun p => String.eqb (pm_name p) k) inputs then None
                 else Some ("`" +:+ k +:+ "`: unknown parameter")) (btree_list supplied).*1.
(** [iface.inputs] is all that is read of the interface. *)
Definition resolve_params (inputs : list ParamSpec) (supplied : gmap string Json)
  : Result PipelineError (gmap string Json) :=
  let '(resolved, errors) := foldl (resolve_param supplied) (∅, unknown_params inputs supplied) inputs in
  match errors with
  | [] => Ok resolved
  | _ => Err (PeValidation errors)
  end.

(** ** The checks of a list of declarations *)

(** [is_identifier]: env-safe. *)
Definition is_identifier (s : string) : bool :=
  match s with
  | String c r => (is_lower c || is_upper c || Ascii.eqb c "_")
                  && all_bytes (fun c => is_alphanumeric c || Ascii.eqb c "_") r
  | EmptyString => false
  end.

Definition spec_shape_errors (label : string) (p : ParamSpec) : list string :=
  let name := pm_name p in
  (if pm_required p && bool_decide (is_Some (pm_default p))
   then [label +:+ ": parameter `" +:+ name +:+ "` is `required` but also declares a `default` (remove one)"] else [])
  ++ (if negb (pm_required p) && bool_decide (pm_default p = None)
      then [label +:+ ": optional parameter `" +:+ name +:+ "` must declare a `default`"] else []).

Definition spec_default_errors (label : string) (p : ParamSpec) : list string :=
  let name := pm_name p in
  if decide (pm_type p = PtChoice) then
    match pm_options p with
    | None | Some [] => [label +:+ ": choice parameter `" +:+ name +:+ "` must declare a non-empty `options` list"]
    | Some opts =>
        match pm_default p with
        | None => []
        | Some (JStr s) =>
            if bool_decide (s ∈ opts) then []
            else [label +:+ ": parameter `" +:+ name +:+ "` default `" +:+ s +:+ "` is not one of its options ["
                  +:+ join ", " opts +:+ "]"]
        | Some _ => [label +:+ ": choice parameter `" +:+ name +:+ "` default must be a string"]
        end
    end
  else
    match pm_default p with
    | Some def => match coerce def (pm_type p) with
                  | Ok _ => []
                  | Err e => [label +:+ ": parameter `" +:+ name +:+ "` default " +:+ show_pipeline_error e]
                  end
    | None => []
    end.

Definition spec_validate_errors (label : string) (p : ParamSpec) : list string :=
  let name := pm_name p in
  match pm_validate p with
  | None => []
  | Some expr =>
      match check expr with
      | Err e => [label +:+ ": parameter `" +:+ name +:+ "` validate " +:+ show_pipeline_error e]
      | Ok _ =>
          match (fun d => coerce d (pm_type p)) <$> pm_default p with
          | Some (Ok def) =>
              match eval_bool expr (JObj [("value", def)]) with
              | Ok true => []
              | Ok false => [label +:+ ": parameter `" +:+ name +:+ "` default " +:+ json_text def
                             +:+ " fails its own validate `" +:+ expr +:+ "`"]
              | Err e => [label +:+ ": parameter `" +:+ name +:+ "` default " +:+ json_text def
                          +:+ ": validate " +:+ show_pipeline_error e]
              end
          | _ => []
          end
      end
  end.

(** The diagnostics pushed for [specs], and the names seen. *)
Fixpoint param_diagnostics (label : string) (seen : list string) (specs : list ParamSpec) : list string :=
  match specs with
  | [] => []
  | p :: rest =>
      (if is_identifier (pm_name p) then []
       else [label +:+ ": parameter `" +:+ pm_name p +:+ "` is not a valid identifier (must be env-safe)"])
      ++ (if bool_decide (pm_name p ∈ seen) then [label +:+ ": duplicate parameter `" +:+ pm_name p +:+ "`"] else [])
      ++ spec_shape_errors label p ++ spec_default_errors label p ++ spec_validate_errors label p
      ++ param_diagnostics label (pm_name p :: seen) rest
  end.
Definition validate_param_specs (specs : list ParamSpec) (label : string) (diagnostics : list string) : list string :=
  diagnostics ++ param_diagnostics label [] specs.

(** * Theorems *)

(** What a resolved value satisfies. *)
Definition typed (p : ParamSpec) (v : Json) : Prop :=
  match pm_type p with
  | PtString => exists s, v = JStr s
  | PtBoolean => exists b, v = JBool b
  | PtNumber => (exists z, v = JInt z) \/ exists t, v = JFloat t
  | PtChoice => exists s, v = JStr s /\ s ∈ default [] (pm_options p)
  end
  /\ forall expr, pm_validate p = Some expr -> eval_bool expr (JObj [("value", v)]) = Ok true.

Lemma resolve_one_typed p raw v : resolve_one p raw = Ok v -> typed p v.
Proof.
  unfold resolve_one. destruct (coerce raw (pm_type p)) as [c|] eqn:Ec; [|done]. cbn.
  destruct (check_choice p c) as [[]|] eqn:Eo; [|done]. cbn.
  destruct (check_validate p c) as [[]|] eqn:Ev; [|done]. cbn. intros [= <-].
  unfold typed, coerce, check_choice, check_validate in *. split.
  - destruct (pm_type p) eqn:Et; destruct raw; try done; cbn in *; simplify_eq; eauto.
    + by repeat case_bool_decide; simplify_eq; eauto.
    + repeat case_match; simplify_eq; eauto.
    + eexists. split; [done|]. by case_bool_decide.
  - intros expr E. rewrite E in Ev. cbn in Ev. destruct (eval_bool expr _) as [[]|]; done.
Qed.

Lemma resolve_param_step supplied acc p :
  resolve_param supplied acc p = acc /\ (supplied !! pm_name p = None /\ pm_default p = None /\ pm_required p = false)
  \/ (exists v, resolve_param supplied acc p = (<[pm_name p := v]> acc.1, acc.2) /\ typed p v
      /\ exists raw, resolve_one p raw = Ok v /\ (supplied !! pm_name p = Some raw
                     \/ supplied !! pm_name p = None /\ pm_default p = Some raw))
  \/ exists e, resolve_param supplied acc p = (acc.1, acc.2 ++ [e]).
Proof.
  unfold resolve_param. destruct (supplied !! pm_name p) as [raw|] eqn:Es.
  - destruct (resolve_one p raw) eqn:E; [right; left|right; right; eauto].
    eexists. split; [done|]. split; [by eapply resolve_one_typed|]. exists raw. auto.
  - destruct (pm_default p) as [def|] eqn:Ed.
    + destruct (resolve_one p def) eqn:E; [right; left|right; right; eauto].
      eexists. split; [done|]. split; [by eapply resolve_one_typed|]. exists def. auto.
    + destruct (pm_required p); [right; right; eauto|left; done].
Qed.

Lemma resolve_fold supplied inputs acc :
  NoDup (map pm_name inputs) ->
  let r := foldl (resolve_param supplied) acc inputs in
  (exists es, r.2 = acc.2 ++ es)
  /\ (forall k, k ∉ map pm_name inputs -> r.1 !! k = acc.1 !! k)
  /\ (r.2 = [] -> forall p, p ∈ inputs -> match r.1 !! pm_name p with
        | Some v => typed p v /\ (exists raw, resolve_one p raw = Ok v /\ (supplied !! pm_name p = Some raw
                     \/ supplied !! pm_name p = None /\ pm_default p = Some raw)) \/ acc.1 !! pm_name p = Some v
                       /\ supplied !! pm_name p = None /\ pm_default p = None /\ pm_required p = false
        | None => supplied !! pm_name p = None /\ pm_default p = None /\ pm_required p = false
        end).
Proof.
  intros Hn. revert acc. induction inputs as [|p inputs IH]; intros acc; cbn [foldl].
  { split; [exists []; by rewrite app_nil_r|]. split; [done|]. by intros _ p ?%not_elem_of_nil. }
  change (map pm_name (p :: inputs)) with (pm_name p :: map pm_name inputs) in *.
  apply NoDup_cons in Hn as [Hp Hn]. specialize (IH Hn (resolve_param supplied acc p)).
  pose proof (resolve_param_step supplied acc p) as Hs.
  set (acc' := resolve_param supplied acc p) in *. set (r := foldl _ acc' inputs) in *.
  destruct IH as ([es E1] & E2 & E3). clearbody r. cbv zeta.
  assert (forall k, k <> pm_name p -> acc'.1 !! k = acc.1 !! k) as Hother.
  { intros k Hk. destruct Hs as [[-> _]|[(v & -> & _)|[err ->]]]; cbn; [done| |done]. by rewrite lookup_insert_ne. }
  split; [|split].
  - destruct Hs as [[E _]|[(v & E & _)|[err E]]]; rewrite E in E1; cbn in E1; [by eexists|by eexists|].
    exists (err :: es). by rewrite E1, <- app_assoc.
  - intros k [Hk1 Hk2]%not_elem_of_cons. rewrite (E2 k Hk2). by apply Hother.
  - intros Hnil q [->|Hq]%elem_of_cons.
    + rewrite (E2 _ Hp). destruct Hs as [[-> Hz]|[(v & -> & Hv & Hr)|[err E]]].
      * destruct (acc.1 !! pm_name p) eqn:Ea; [by right|done].
      * cbn. rewrite lookup_insert_eq. by left.
      * rewrite E in E1. cbn in E1. rewrite Hnil in E1. by destruct acc.2.
    + specialize (E3 Hnil q Hq). rewrite Hother in E3; [exact E3|].
      intros E. apply Hp. rewrite <- E. by apply list_elem_of_fmap_2.
Qed.

(** What [resolve_params] promises: every declared parameter that has a value
    has one of its type that passes its checks, from the caller's value or its
    default; nothing undeclared gets through. *)
Lemma resolve_params_spec inputs supplied resolved :
  NoDup (map pm_name inputs) -> resolve_params inputs supplied = Ok resolved ->
  (forall p, p ∈ inputs -> match resolved !! pm_name p with
     | Some v => typed p v /\ exists raw, resolve_one p raw = Ok v /\ (supplied !! pm_name p = Some raw
                     \/ supplied !! pm_name p = None /\ pm_default p = Some raw)
     | None => supplied !! pm_name p = None /\ pm_default p = None /\ pm_required p = false
     end)
  /\ (forall k v, resolved !! k = Some v \/ supplied !! k = Some v -> k ∈ map pm_name inputs).
Proof.
  intros Hn H. unfold resolve_params in H.
  destruct (resolve_fold supplied inputs (∅, unknown_params inputs supplied) Hn) as ([es E1] & E2 & E3).
  destruct (foldl _ _ inputs) as [res errs]. cbn in *. destruct errs as [|]; [|done]. injection H as ->.
  symmetry in E1. apply app_nil in E1 as [E1 ->]. split.
  - intros p Hp. specialize (E3 eq_refl p Hp). destruct (resolved !! pm_name p); [|done].
    destruct E3 as [E3|[E3 _]]; [done|by rewrite lookup_empty in E3].
  - intros k v [H|H]; destruct (decide (k ∈ map pm_name inputs)) as [|Hk]; try done; exfalso.
    + rewrite (E2 k Hk), lookup_empty in H. done.
    + assert (existsb (fun p => String.eqb (pm_name p) k) inputs = false) as Hf.
      { apply not_true_iff_false. intros (p & Hp & He%String.eqb_eq)%existsb_exists.
        apply Hk. rewrite <- He. apply list_elem_of_fmap_2. by apply list_elem_of_In. }
      assert (exists e, e ∈ unknown_params inputs supplied) as [e He]; [|rewrite E1 in He; by apply not_elem_of_nil in He].
      eexists. unfold unknown_params. apply list_elem_of_omap. exists k.
      rewrite Hf. split; [|reflexivity]. apply list_elem_of_fmap. exists (k, v). split; [done|].
      by apply elem_of_btree_list.
Qed.
End WithPorts.
