(* ===== verification/Scopes.v ===== *)
(** * Scopes and sources (scarab-pipeline/src/scope.rs, event.rs)

    What a Step's templates read, and how far from outside the Pipeline each
    value comes: the decision the command boundary is drawn on. *)

From S2P Require Import Prelude Text Values Cel Params.

(** ** The trigger event's fields *)

Definition READABLE : list string :=
  ["kind"; "sha"; "number"; "issue"; "fork"; "run"; "repo.clone_url"; "repo.owner"; "repo.name"; "ref"; "branch"; "tag"].
Definition FIXED : list string := ["sha"; "number"; "issue"; "fork"; "kind"].
Definition TRIGGER_KINDS : list string :=
  ["push"; "pull_request"; "tag"; "release"; "comment"; "cron"; "manual"; "api"; "upstream"].

Definition is_command_sha (s : string) : bool :=
  ((String.length s =? 40) || (String.length s =? 64)) && all_bytes (fun c => is_digit c || in_range 97 102 c) s.

Definition unreadable (field : string) : option string :=
  if String.eqb field "actor" then Some "a forge login, which a template could not use safely (a GitHub bot's ends in `[bot]`, a shell glob)"
  else if String.eqb field "actor_id" then Some "a forge account id, which is not trigger data a Step needs"
  else if String.eqb field "body" then Some "free text that anyone who can comment writes"
  else if String.eqb field "schedule" then Some "it comes from the Pipeline itself"
  else if bool_decide (field ∈ ["message"; "title"; "base"; "reason"])
       then Some "it is provenance shown on the Run page, not trigger data (ADR-0057)"
  else None.

(** The [event] field a read names; [None] for a read of another variable. *)
Definition field_of (r : Read) : Result string (option string) :=
  if negb (String.eqb (rd_var r) "event") then Ok None
  else match rd_first r with
  | None => Err "reads `event` whole; read one field, such as `event.sha`"
  | Some first =>
      field ← (if String.eqb first "repo" then
                 match rd_second r with
                 | Some second => Ok ("repo." +:+ second)
                 | None => Err ("reads `event.repo` whole; read `event.repo.owner`, `event.repo.name` or "
                                +:+ "`event.repo.clone_url`")
                 end
               else Ok first);
      if bool_decide (field ∈ READABLE) then Ok (Some field)
      else Err (match unreadable field with
                | Some why => "reads `event." +:+ field +:+ "`, which a template may not read: " +:+ why
                | None => "reads `event." +:+ field +:+ "`, which is not a field a template may read (it may read: "
                          +:+ join ", " (map (fun f => "`event." +:+ f +:+ "`") READABLE) +:+ ")"
                end)
  end.

Section WithCel.
Context {C : Cel}.

(** The fields and the refusals of one template's reads, in order. *)
Definition template_reads (text : string) : list string * list string :=
  foldl (fun acc i =>
    match reads (hole_expr text i) with
    | Err _ => acc
    | Ok rs => foldl (fun acc r => match field_of r with
                                   | Ok (Some f) => (acc.1 ++ [f], acc.2)
                                   | Ok None => acc
                                   | Err e => (acc.1, acc.2 ++ [e])
                                   end) acc rs
    end) ([], []) (scan_interpolations text).1.
End WithCel.

(** [plain]: a name of allowed characters that does not start with a dash. *)
Definition plain (s : string) (allowed : ascii -> bool) : bool :=
  negb (String.eqb s "") && negb (starts_with "-" s) && all_bytes allowed s.

Definition max_len (field : string) : option N :=
  if String.eqb field "kind" then Some 32%N
  else if String.eqb field "run" then Some 64%N
  else if bool_decide (field ∈ ["repo.owner"; "repo.name"]) then Some 100%N
  else if bool_decide (field ∈ ["ref"; "branch"; "tag"]) then Some 255%N
  else if String.eqb field "repo.clone_url" then Some 2048%N
  else None.

Definition name_byte (extra : string) (c : ascii) : bool := is_alphanumeric c || has_char c extra.

Section WithTables.
Context {T : CharTables}.

Definition shown_value (v : Json) : string :=
  match v with
  | JStr s => if 80 <? String.length s
              then "`" +:+ escape_debug (concat_chars (take 40 (chars s))) +:+ ellipsis +:+ "`"
              else "`" +:+ escape_debug s +:+ "`"
  | other => "`" +:+ json_text other +:+ "`"
  end.

(** The rule of one field (past its length). *)
Definition check_field (field : string) (v : Json) : Result string unit :=
  let shown := shown_value v in
  if String.eqb field "kind" then
    match v with
    | JStr s => if plain s (fun c => is_lower c || Ascii.eqb c "_") then Ok tt else Err ("the trigger kind " +:+ shown)
    | _ => Err ("the trigger kind " +:+ shown)
    end
  else if String.eqb field "sha" then
    let refused := "the commit " +:+ shown +:+ ", which is not 40 or 64 lower-case hex characters" in
    match v with JStr s => if is_command_sha s then Ok tt else Err refused | _ => Err refused end
  else if bool_decide (field ∈ ["number"; "issue"]) then
    match value_u64 v with Some _ => Ok tt | None => Err (shown +:+ ", which is not a whole number") end
  else if String.eqb field "fork" then
    match v with JBool _ => Ok tt | _ => Err (shown +:+ ", which is not true or false") end
  else if String.eqb field "run" then
    match v with
    | JStr s => if plain s (name_byte "-") then Ok tt else Err (shown +:+ ", which is not a Run id")
    | _ => Err (shown +:+ ", which is not a Run id")
    end
  else if bool_decide (field ∈ ["repo.owner"; "repo.name"]) then
    let refused := shown +:+ ", which may hold only letters, digits, `.`, `_` and `-`, may not start "
                   +:+ "with `-`, and may not be `.` or `..`" in
    match v with
    | JStr s => if plain s (name_byte "._-") && negb (String.eqb s ".") && negb (String.eqb s "..")
                then Ok tt else Err refused
    | _ => Err refused
    end
  else if String.eqb field "repo.clone_url" then
    let refused := shown +:+ ", which is not an http(s) URL without credentials" in
    match v with
    | JStr s => if (starts_with "https://" s || starts_with "http://" s) && negb (has_char "@" s)
                   && all_bytes is_graphic s
                then Ok tt else Err refused
    | _ => Err refused
    end
  else if bool_decide (field ∈ ["ref"; "branch"; "tag"]) then
    match v with
    | JStr s =>
        if plain s (name_byte "._/@-") && negb (contains ".." s) && negb (contains "//" s) then Ok tt
        else
          let why :=
            if String.eqb s "" then "is empty"
            else if starts_with "-" s then "starts with `-`"
            else if contains ".." s then "contains `..`"
            else if contains "//" s then "contains `//`"
            else "contains `" +:+
                 match List.find (fun ch => negb (all_bytes (name_byte "._/@-") ch)) (chars s) with
                 | Some ch => escape_debug ch
                 | None => ""
                 end +:+ "`" in
          Err (shown +:+ ", which " +:+ why)
    | _ => Err (shown +:+ ", which is not text")
    end
  else Err ("`event." +:+ field +:+ "`, which a template may not read").

Definition check_value (field : string) (v : Json) : Result string unit :=
  match v with
  | JStr s =>
      match max_len field with
      | Some m => if (m <? N.of_nat (String.length s))%N
                  then Err (shown_value v +:+ ", which is " +:+ pretty (String.length s)
                            +:+ " bytes long (at most " +:+ pretty m +:+ ")")
                  else check_field field v
      | None => check_field field v
      end
  | _ => check_field field v
  end.

(** The value of a field: [repo.owner] is [fields.repo.owner]. *)
Definition get_field (fields : gmap string Json) (field : string) : option Json :=
  match split_once "." field with
  | Some (outer, inner) => v ← fields !! outer; m ← json_as_object v; json_get (JObj m) inner
  | None => fields !! field
  end.

Definition put_field (out : gmap string Json) (field : string) (v : Json) : gmap string Json :=
  match split_once "." field with
  | Some (outer, inner) =>
      match default (JObj []) (out !! outer) with
      | JObj m => <[outer := JObj (object_insert m inner v)]> out
      | other => <[outer := other]> out
      end
  | None => <[field := v]> out
  end.

(** One field of [READABLE]: what is stored so far, and the refusals. *)
Definition fact_step (fields : gmap string Json) (kind : string) (reads : gset string)
    (acc : gmap string Json * list string) (field : string) : gmap string Json * list string :=
  match get_field fields field with
  | Some v =>
      match check_value field v with
      | Ok _ => (put_field acc.1 field v, acc.2)
      | Err why => if bool_decide (field ∈ reads)
                   then (acc.1, acc.2 ++ ["`${{ event." +:+ field +:+ " }}` does not accept " +:+ why])
                   else acc
      end
  | None => if bool_decide (field ∈ reads)
            then (acc.1, acc.2 ++ ["the Pipeline reads `${{ event." +:+ field +:+ " }}`, which a `" +:+ kind
                                   +:+ "` trigger does not have"])
            else acc
  end.
Definition facts (fields : gmap string Json) (kind : string) (reads : gset string)
  : Result (list string) (gmap string Json) :=
  let '(out, refusals) := foldl (fact_step fields kind reads) (∅, []) READABLE in
  match refusals with [] => Ok out | _ => Err refusals end.
End WithTables.

(** ** Scopes *)

Inductive OutputSource : Type :=
| OsStep (id : string)
| OsInvoke (exposed : gmap string string).
Inductive BoundValue : Type :=
| BvLiteral (v : Json)
| BvTemplate (t : string).
Record Binding := mkBinding { bg_param : option ParamSpec; bg_value : BoundValue }.
Inductive ScopeInputs : Type :=
| SiRun
| SiBound (bindings : gmap string Binding).

#[warnings="-register-all"]
Inductive Scope : Type := mkScope
  (inputs : ScopeInputs)
  (outputs : gmap string OutputSource)
  (matrix : gmap string string)
  (caller : option Scope).
Definition sc_inputs (s : Scope) : ScopeInputs := let 'mkScope i _ _ _ := s in i.
Definition sc_outputs (s : Scope) : gmap string OutputSource := let 'mkScope _ o _ _ := s in o.
Definition sc_matrix (s : Scope) : gmap string string := let 'mkScope _ _ m _ := s in m.
Definition sc_caller (s : Scope) : option Scope := let 'mkScope _ _ _ c := s in c.

Definition binding_literal (v : Json) : Binding := mkBinding None (BvLiteral v).
Definition binding_template (t : string) (param : ParamSpec) : Binding :=
  mkBinding (Some (mkParam (pm_name param) (pm_type param) true None (pm_options param) (pm_validate param) None))
    (BvTemplate t).

Definition scope_run : Scope := mkScope SiRun ∅ ∅ None.
Fixpoint chain (s : Scope) : list Scope :=
  s :: match s with mkScope _ _ _ (Some c) => chain c | _ => [] end.
Definition scope_at (s : Scope) (hops : nat) : option Scope := chain s !! hops.

(** ** Sources *)

(** Ordered: [Pipeline], then [Fixed], then [Free]. *)
Inductive Source : Set := SrcPipeline | SrcFixed | SrcFree.
#[export] Instance Source_eq_dec : EqDecision Source.
Proof. solve_decision. Defined.
Definition source_max (a b : Source) : Source :=
  match a, b with
  | SrcFree, _ | _, SrcFree => SrcFree
  | SrcFixed, _ | _, SrcFixed => SrcFixed
  | _, _ => SrcPipeline
  end.
(** [.max().unwrap_or(Source::Pipeline)]. *)
Definition furthest (l : list Source) : Source := foldr source_max SrcPipeline l.

Inductive Shape : Type := ShChoice (options : list string) | ShSha | ShWhole | ShBool | ShKind.

Record Input := mkInput { in_source : Source; in_options : option (list string) }.
Definition input_outside (param : ParamSpec) : Input :=
  match pm_type param with
  | PtChoice => mkInput SrcFixed (Some (default [] (pm_options param)))
  | PtBoolean | PtNumber => mkInput SrcFixed None
  | PtString => mkInput SrcFree None
  end.

Record InputSources := mkSources { is_inputs : gmap string Input; is_whole : Source }.

Section Sources.
Context {C : Cel}.

Definition source_of_input (srcs : InputSources) (name : string) : Source :=
  match is_inputs srcs !! name with Some i => in_source i | None => SrcFree end.

Definition source_of_read (srcs : InputSources) (r : Read) : Source :=
  if String.eqb (rd_var r) "matrix" then SrcPipeline
  else if String.eqb (rd_var r) "inputs" then
    match rd_first r with Some name => source_of_input srcs name | None => is_whole srcs end
  else if String.eqb (rd_var r) "event" then
    match rd_first r, rd_second r with
    | Some field, None => if bool_decide (field ∈ FIXED) then SrcFixed else SrcFree
    | _, _ => SrcFree
    end
  else SrcFree.

Definition of_expr (srcs : InputSources) (expr : string) : Source :=
  match reads expr with
  | Err _ => SrcFree
  | Ok rs => furthest (map (source_of_read srcs) rs)
  end.

Definition of_template (srcs : InputSources) (template : string) : Source :=
  let '(found, unterminated) := scan_interpolations template in
  match unterminated with
  | Some _ => SrcFree
  | None => furthest (map (fun i => of_expr srcs (hole_expr template i)) found)
  end.

Definition shape_of (srcs : InputSources) (expr : string) : option Shape :=
  match path expr with
  | Some [var; name] =>
      if String.eqb var "inputs" then
        i ← is_inputs srcs !! name; ShChoice <$> in_options i
      else if String.eqb var "event" then
        if String.eqb name "sha" then Some ShSha
        else if bool_decide (name ∈ ["number"; "issue"]) then Some ShWhole
        else if String.eqb name "fork" then Some ShBool
        else if String.eqb name "kind" then Some ShKind
        else None
      else None
  | _ => None
  end.

(** One binding, given the caller's sources. *)
Definition binding_input (caller : option InputSources) (b : Binding) : Input :=
  let read := match bg_value b with
              | BvLiteral _ => SrcPipeline
              | BvTemplate t => match caller with Some c => of_template c t | None => SrcFree end
              end in
  match read, bg_param b with
  | SrcPipeline, _ => mkInput SrcPipeline None
  | _, Some param => input_outside param
  | _, None => mkInput SrcFree None
  end.

(** [collect] into a map: a later entry replaces an earlier one. *)
Definition run_sources (declared : list ParamSpec) : InputSources :=
  mkSources (list_to_map (reverse (map (fun p => (pm_name p, input_outside p)) declared))) SrcFree.

(** [InputSources::of] a scope, its callers first. *)
Fixpoint scope_sources (declared : list ParamSpec) (scope : Scope) : InputSources :=
  match scope with
  | mkScope inputs _ _ caller =>
      let caller := match caller with Some c => Some (scope_sources declared c) | None => None end in
      match inputs with
      | SiRun => run_sources declared
      | SiBound bindings =>
          let inputs := binding_input caller <$> bindings in
          mkSources inputs (furthest (map (fun kv => in_source kv.2) (btree_list inputs)))
      end
  end.
Definition input_sources (scope : option Scope) (declared : list ParamSpec) : InputSources :=
  match scope with
  | None => run_sources declared
  | Some s => scope_sources declared s
  end.
End Sources.

(** * Theorems *)

(** ** The furthest source *)

Lemma furthest_cons a l : furthest (a :: l) = source_max a (furthest l).
Proof. done. Qed.

Lemma furthest_pipeline l : furthest l = SrcPipeline <-> forall s, s ∈ l -> s = SrcPipeline.
Proof.
  induction l as [|a l IH]; [split; [by intros _ s ?%not_elem_of_nil|done]|]. rewrite furthest_cons. split.
  - intros H s Hs. destruct a, (furthest l); try discriminate H.
    apply elem_of_cons in Hs as [->|Hs]; [done|]. by apply IH.
  - intros H. rewrite (H a) by left. assert (furthest l = SrcPipeline) as -> by (apply IH; intros; apply H; by right). done.
Qed.
Lemma furthest_not_free l : furthest l <> SrcFree <-> forall s, s ∈ l -> s <> SrcFree.
Proof.
  induction l as [|a l IH]; [split; [by intros _ s ?%not_elem_of_nil|done]|]. rewrite furthest_cons. split.
  - intros H s Hs. assert (a <> SrcFree /\ furthest l <> SrcFree) as [Ha Hl] by (by destruct a, (furthest l)).
    apply elem_of_cons in Hs as [->|Hs]; [done|]. by apply IH.
  - intros H. assert (furthest l <> SrcFree) as Hl by (apply IH; intros; apply H; by right).
    assert (a <> SrcFree) by (apply H; left). by destruct a, (furthest l).
Qed.
