(* ===== verification/Render.v ===== *)
(** * Rendering a Step's templates (scarab-pipeline/src/render.rs)

    One renderer turns a Step's image, command and environment into text: at
    launch, with the Run's stored facts, and before it, as a preview of what is
    already known. *)

From S2P Require Import Prelude Text Values Cel Oci Params Scopes.

(** ** Facts *)

Definition Results : Type := gmap string (gmap string Json).

Inductive Facts : Type :=
| FLaunch (params : gmap string Json) (declared : list ParamSpec) (results : Results) (event : gmap string Json)
| FPreview (params : gmap string Json) (declared : list ParamSpec) (event : gmap string Json).

Record Templates := mkTemplates { tp_image : string; tp_command : list string; tp_env : list (string * string) }.
Record Rendered := mkRendered { rn_image : string; rn_command : list string; rn_env : list (string * string) }.

Inductive Mode : Set := MLaunch | MGuard | MPreview.
#[export] Instance Mode_eq_dec : EqDecision Mode.
Proof. solve_decision. Defined.

(** Which names of a scope have a value. *)
Record Known := mkKnown { kn_inputs : option (gset string); kn_outputs : bool }.
Record Bound := mkBound { bd_ctx : gmap string Json; bd_known : Known; bd_inputs : gmap string Json }.

Section WithPorts.
Context {C : Cel} {F : Floats} {T : CharTables}.

Definition covers_read (known : Known) (r : Read) : bool :=
  if bool_decide (rd_var r ∈ ["matrix"; "event"]) then true
  else if String.eqb (rd_var r) "outputs" then kn_outputs known
  else if String.eqb (rd_var r) "inputs" then
    match kn_inputs known, rd_first r with
    | None, _ => true
    | Some have, Some name => bool_decide (name ∈ have)
    | Some _, None => false
    end
  else false.
Definition covers (known : Known) (expr : string) : bool :=
  match reads expr with
  | Err _ => false
  | Ok rs => forallb (covers_read known) rs
  end.
Definition covers_template (known : Known) (template : string) : bool :=
  let '(found, unterminated) := scan_interpolations template in
  bool_decide (unterminated = None) && forallb (fun i => covers known (hole_expr template i)) found.

(** The expression of a template that is exactly one hole. *)
Definition exact (template : string) : option string :=
  match scan_interpolations template with
  | ([only], None) => if bool_decide (in_outer only = (0, String.length template))
                      then Some (hole_expr template only) else None
  | _ => None
  end.

(** ** A scope's values *)

Definition coordinate (m : gmap string string) : Json := json_object (JStr <$> m).

(** A Step written in the Pipeline file. *)
Definition bind_run (matrix_values : gmap string string) (params event : gmap string Json)
    (results : option Results) : Bound :=
  let outputs := omap (fun r : gmap string Json => if decide (r = ∅) then None else Some (json_object r))
                   (default ∅ results) in
  mkBound (<["matrix" := coordinate matrix_values]> (<["inputs" := json_object params]>
            (<["outputs" := json_object outputs]> {["event" := json_object event]})))
    (mkKnown None (bool_decide (is_Some results))) params.

Definition from_caller (name : string) (e : string) : string :=
  "input `" +:+ name +:+ "` (from the caller's `with:`)" +:+ e.
(** A caller's template, rendered in the caller's scope and converted to the
    input's type. *)
Definition bound_value (caller : Bound) (name template : string) (param : option ParamSpec) : Result string Json :=
  let ctx := json_object (bd_ctx caller) in
  let fails e := from_caller name (": " +:+ show_pipeline_error e) in
  raw ← map_err fails (match exact template with
                       | Some expr => eval expr ctx
                       | None => text ← interpolate template ctx; Ok (JStr text)
                       end);
  match param with
  | None => Err (from_caller name " has no declared type")
  | Some param => map_err fails (resolve_one param raw)
  end.

(** The loop over a scope's bindings. *)
Fixpoint bind_values (mode : Mode) (caller : option Bound) (l : list (string * Binding)) (values : gmap string Json)
  : Result string (gmap string Json) :=
  match l with
  | [] => Ok values
  | (name, binding) :: rest =>
      match bg_value binding with
      | BvLiteral v => bind_values mode caller rest (<[name := v]> values)
      | BvTemplate template =>
          match caller with
          | None => bind_values mode caller rest values
          | Some c =>
              if negb (bool_decide (mode = MLaunch)) && negb (covers_template (bd_known c) template)
              then bind_values mode caller rest values
              else match bound_value c name template (bg_param binding) with
                   | Ok v => bind_values mode caller rest (<[name := v]> values)
                   | Err e => if decide (mode = MPreview) then bind_values mode caller rest values else Err e
                   end
          end
      end
  end.

Definition is_template (b : Binding) : bool :=
  match bg_value b with BvTemplate _ => true | BvLiteral _ => false end.
Definition scope_outputs (outputs : gmap string OutputSource) (results : Results) : gmap string Json :=
  omap (fun source => match source with
    | OsStep id => json_object <$> results !! id
    | OsInvoke exposed => Some (json_object (omap (fun id : string * string => r ← results !! id.2; r !! id.1)
                                              (map_imap (fun out id => Some (out, id)) exposed)))
    end) outputs.

Fixpoint bind_scope (params event : gmap string Json) (results : option Results) (mode : Mode) (scope : Scope)
  : Result string Bound :=
  match scope with
  | mkScope inputs outputs matrix caller =>
      ik ← match inputs with
           | SiRun => Ok (params, None)
           | SiBound bindings =>
               let l := btree_list bindings in
               let bound := match caller with
                            | Some c => Some (bind_scope params event results mode c)
                            | None => None
                            end in
               caller ← (if negb (existsb (fun kv => is_template kv.2) l) then Ok None
                         else if decide (mode = MPreview)
                              then Ok (match bound with Some (Ok b) => Some b | _ => None end)
                              else match bound with
                                   | None => Err "a caller's `with:` value has no caller scope to render in"
                                   | Some b => b' ← b; Ok (Some b')
                                   end);
               values ← bind_values mode caller l ∅;
               Ok (values, Some (dom values))
           end;
      let ctx := {["event" := json_object event]} in
      let ctx := match results with
                 | Some results => <["outputs" := json_object (scope_outputs outputs results)]> ctx
                 | None => ctx
                 end in
      Ok (mkBound (<["matrix" := coordinate matrix]> (<["inputs" := json_object ik.1]> ctx))
            (mkKnown ik.2 (bool_decide (is_Some results))) ik.1)
  end.

Definition bind (scope : option Scope) (matrix_values : gmap string string) (params event : gmap string Json)
    (results : option Results) (mode : Mode) : Result string Bound :=
  match scope with
  | None => Ok (bind_run matrix_values params event results)
  | Some s => bind_scope params event results mode s
  end.

(** ** Commands *)

Definition is_decimal (text : string) : bool :=
  let digits s := negb (String.eqb s "") && all_bytes is_digit s in
  match split_once "." text with
  | Some (whole, frac) => digits whole && digits frac
  | None => digits text
  end.

Definition shown_kind (v : Json) : string :=
  match v with
  | JStr s => "the text `" +:+ escape_debug s +:+ "`"
  | JInt _ | JFloat _ => "the number `" +:+ json_text v +:+ "`"
  | JBool _ => "`" +:+ json_text v +:+ "`"
  | JNull => "null"
  | JArr _ => "a list"
  | JObj _ => "a map"
  end.

(** A value with no shape of its own, or a choice's. *)
Definition unshaped_text (v : Json) (options : option (list string)) : Result string string :=
  match v with
  | JBool _ => Ok (json_text v)
  | JInt _ | JFloat _ =>
      if is_decimal (json_text v) then Ok (json_text v)
      else Err ("the number `" +:+ json_text v +:+ "`, which is not a non-negative decimal number")
  | JStr s =>
      if bool_decide (s ∈ default [] options) then Ok s
      else Err "text that is not one of a `choice` input's listed values"
  | JNull => Err "null"
  | JArr _ => Err "a list"
  | JObj _ => Err "a map"
  end.
(** The text of a fixed-type value from outside, or what it is instead. *)
Definition fixed_text (v : Json) (shape : option Shape) : Result string string :=
  match shape with
  | Some ShSha =>
      let refused := shown_kind v +:+ ", which is not a commit SHA (40 or 64 lower-case hex characters)" in
      match v with JStr s => if is_command_sha s then Ok s else Err refused | _ => Err refused end
  | Some ShWhole =>
      match value_u64 v with
      | Some _ => Ok (json_text v)
      | None => Err (shown_kind v +:+ ", which is not a whole number")
      end
  | Some ShBool =>
      match v with JBool _ => Ok (json_text v) | _ => Err (shown_kind v +:+ ", which is not true or false") end
  | Some ShKind =>
      let refused := shown_kind v +:+ ", which is not a trigger kind" in
      match v with JStr s => if bool_decide (s ∈ TRIGGER_KINDS) then Ok s else Err refused | _ => Err refused end
  | Some (ShChoice options) => unshaped_text v (Some options)
  | None => unshaped_text v None
  end.

Definition free_text (index : nat) (shown : string) : string :=
  "`command[" +:+ pretty index +:+ "]`: `" +:+ shown +:+ "` reads a value from outside the Pipeline (a Run "
  +:+ "parameter, a Step's results, an event field, or a library input bound to one) that is "
  +:+ "not of a fixed shape (a `choice`, boolean or number input, or `event.sha`, "
  +:+ "`event.number`, `event.issue`, `event.fork` or `event.kind`), and Scarab puts no such "
  +:+ "value into a command; pass it in `env:` (`env: [[VALUE, " +:+ quote +:+ shown +:+ quote
  +:+ "]]`) and read it from the environment (`" +:+ quote +:+ "$VALUE" +:+ quote +:+ "` in a shell script)".
Definition not_fixed (index : nat) (shown what : string) : string :=
  "`command[" +:+ pretty index +:+ "]`: `" +:+ shown +:+ "` reads a value from outside the Pipeline and renders to "
  +:+ what +:+ "; a command takes only a listed `choice` value, `true`/`false`, a "
  +:+ "non-negative decimal number, a commit SHA or a trigger kind from outside; pass it in "
  +:+ "`env:` (`env: [[VALUE, " +:+ quote +:+ shown +:+ quote +:+ "]]`) and read it from the environment".

(** What one hole of an argument becomes. *)
Definition argument_hole (sources : InputSources) (value : string -> Result string (option Json))
    (index : nat) (template : string) (i : Interpolation) : Result string string :=
  let expr := hole_expr template i in
  let shown := hole_text template i in
  let source := of_expr sources expr in
  if decide (source = SrcFree) then Err (free_text index shown)
  else
    v ← value expr;
    match v with
    | Some v => if decide (source = SrcFixed) then map_err (not_fixed index shown) (fixed_text v (shape_of sources expr))
                else Ok (text_of v)
    | None => Ok shown
    end.
Definition argument (sources : InputSources) (strict : bool) (value : string -> Result string (option Json))
    (index : nat) (template : string) : Result string string :=
  let '(found, unterminated) := scan_interpolations template in
  arg ← fill template 0 found (argument_hole sources value index template);
  if strict && bool_decide (is_Some unterminated) then Err (show_pipeline_error (unterminated_error template))
  else Ok (arg.1 +:+ drop_str arg.2 template).
Fixpoint arguments_from (index : nat) (command : list string) (sources : InputSources) (strict : bool)
    (value : string -> Result string (option Json)) : Result string (list string) :=
  match command with
  | [] => Ok []
  | template :: rest =>
      arg ← argument sources strict value index template;
      args ← arguments_from (S index) rest sources strict value;
      Ok (arg :: args)
  end.
Definition arguments (command : list string) (sources : InputSources) (strict : bool)
    (value : string -> Result string (option Json)) : Result string (list string) :=
  arguments_from 0 command sources strict value.

(** ** Rendering *)

(** A template as far as it is known. *)
Definition known_value (ctx : gmap string Json) (known : Known) (expr : string) : option Json :=
  if covers known expr then match eval expr (json_object ctx) with Ok v => Some v | Err _ => None end else None.
Definition preview (template : string) (ctx : gmap string Json) (known : Known) : string :=
  let '(found, _) := scan_interpolations template in
  match fill (E:=unit) template 0 found (fun i =>
          Ok (match known_value ctx known (hole_expr template i) with
              | Some v => text_of v
              | None => hole_text template i
              end)) with
  | Ok out => out.1 +:+ drop_str out.2 template
  | Err _ => template
  end.

Fixpoint render_env (one : string -> Result string string) (env : list (string * string))
  : Result string (list (string * string)) :=
  match env with
  | [] => Ok []
  | (k, v) :: rest =>
      v ← one v;
      rest ← render_env one rest;
      Ok ((k, v) :: rest)
  end.
Definition param_env (inputs : gmap string Json) : list (string * string) :=
  map (fun kv => ("SCARAB_PARAM_" +:+ to_uppercase kv.1, text_of kv.2)) (btree_list inputs).

Definition render (templates : Templates) (scope : option Scope) (matrix_values : gmap string string) (facts : Facts)
  : Result string Rendered :=
  match facts with
  | FLaunch params declared results event =>
      bound ← bind scope matrix_values params event (Some results) MLaunch;
      let ctx := json_object (bd_ctx bound) in
      let one t := map_err show_pipeline_error (interpolate t ctx) in
      image ← one (tp_image templates);
      if negb (String.eqb image "") && negb (is_image_reference image)
      then Err ("image `" +:+ escape_debug image +:+ "` is not an OCI image reference")
      else
        command ← arguments (tp_command templates) (input_sources scope declared) true
                    (fun expr => map_err show_pipeline_error (Some <$> eval expr ctx));
        env ← render_env one (tp_env templates);
        Ok (mkRendered image command (param_env (bd_inputs bound) ++ env))
  | FPreview params declared event =>
      let bound := bind scope matrix_values params event None MPreview in
      let one t := match bound with Ok b => preview t (bd_ctx b) (bd_known b) | Err _ => t end in
      command ← arguments (tp_command templates) (input_sources scope declared) false
                  (fun expr => Ok (match bound with
                                   | Ok b => known_value (bd_ctx b) (bd_known b) expr
                                   | Err _ => None
                                   end));
      let image := one (tp_image templates) in
      let image := if negb (String.eqb image "") && negb (is_image_reference image)
                   then tp_image templates else image in
      Ok (mkRendered image command (map (fun kv => (kv.1, one kv.2)) (tp_env templates)))
  end.

Definition preview_image (image : string) (scope : option Scope) (matrix_values : gmap string string)
    (params event : gmap string Json) : string :=
  match render (mkTemplates image [] []) scope matrix_values (FPreview params [] event) with
  | Ok r => rn_image r
  | Err _ => image
  end.

(** The inputs of a plugin gate. *)
Definition render_inputs (scope : Scope) (params : gmap string Json) (results : Results) (event : gmap string Json)
  : Result string (gmap string Json) :=
  bound ← bind (Some scope) ∅ params event (Some results) MLaunch;
  Ok (bd_inputs bound).

(** A guard of a library Step, at Run creation. *)
Definition guard_holds (expr : string) (scope : Scope) (params : gmap string Json) : Result PipelineError bool :=
  bound ← map_err PeCel (bind (Some scope) ∅ params ∅ None MGuard);
  eval_bool expr (json_object (delete "outputs" (bd_ctx bound))).

(** * Theorems *)

Context {CL : CelLaws C}.

(** ** Templates over contexts that agree *)

(** Two contexts agree on what [expr] reads. *)
Definition agree_on (expr : string) (c1 c2 : gmap string Json) : Prop :=
  exists rs, reads expr = Ok rs /\ forall r, r ∈ rs -> same_json r c1 c2.

Lemma eval_agree expr c1 c2 v1 v2 :
  agree_on expr c1 c2 -> eval expr (json_object c1) = Ok v1 -> eval expr (json_object c2) = Ok v2 -> v1 = v2.
Proof. intros (rs & Hr & Hs). by apply (eval_same expr c1 c2 rs). Qed.

Lemma interpolate_agree template c1 c2 t1 t2 :
  (forall i, i ∈ (scan_interpolations template).1 -> agree_on (hole_expr template i) c1 c2) ->
  interpolate template (json_object c1) = Ok t1 -> interpolate template (json_object c2) = Ok t2 -> t1 = t2.
Proof.
  unfold interpolate. destruct (scan_interpolations template) as [found u]. cbn [fst]. intros Ha.
  destruct (fill template 0 found _) as [o1|] eqn:E1; [cbn|done].
  destruct (fill template 0 found (fun i => v ← eval (hole_expr template i) (json_object c2); Ok (text_of v)))
    as [o2|] eqn:E2; [cbn|done].
  destruct u; [done|]. intros [= <-] [= <-].
  destruct (fill_weave _ _ _ _ _ E1) as (x1 & F1 & ->), (fill_weave _ _ _ _ _ E2) as (x2 & F2 & ->). f_equal.
  clear E1 E2. revert x1 x2 F1 F2. induction found as [|i found IH]; intros x1 x2 F1 F2.
  - by inversion F1; inversion F2.
  - inversion F1 as [|? y1 ? x1' G1 F1']; inversion F2 as [|? y2 ? x2' G2 F2']; subst. f_equal.
    + destruct (eval (hole_expr template i) (json_object c1)) as [v1|] eqn:V1; [|done].
      destruct (eval (hole_expr template i) (json_object c2)) as [v2|] eqn:V2; [|done]. simplify_eq/=.
      f_equal. eapply eval_agree; [apply Ha; left|done..].
    + apply IH; [|done..]. intros j Hj. apply Ha. by right.
Qed.

Lemma bound_value_agree c1 c2 name template param v1 v2 :
  (forall i, i ∈ (scan_interpolations template).1 -> agree_on (hole_expr template i) (bd_ctx c1) (bd_ctx c2)) ->
  bound_value c1 name template param = Ok v1 -> bound_value c2 name template param = Ok v2 -> v1 = v2.
Proof.
  intros Ha. unfold bound_value.
  assert (forall x1 x2,
    match exact template with
    | Some expr => eval expr (json_object (bd_ctx c1))
    | None => text ← interpolate template (json_object (bd_ctx c1)); Ok (JStr text)
    end = Ok x1 ->
    match exact template with
    | Some expr => eval expr (json_object (bd_ctx c2))
    | None => text ← interpolate template (json_object (bd_ctx c2)); Ok (JStr text)
    end = Ok x2 -> x1 = x2) as Hraw.
  { intros x1 x2. destruct (exact template) as [expr|] eqn:Ex.
    - unfold exact in Ex. destruct (scan_interpolations template) as [[|i [|]] [|]]; try done.
      case_bool_decide; [|done]. injection Ex as <-. apply eval_agree. apply Ha. left.
    - destruct (interpolate template (json_object (bd_ctx c1))) as [t1|] eqn:E1; [cbn|done].
      destruct (interpolate template (json_object (bd_ctx c2))) as [t2|] eqn:E2; [cbn|done].
      intros [= <-] [= <-]. f_equal. by eapply interpolate_agree. }
  destruct (match exact template with Some expr => eval expr (json_object (bd_ctx c1)) | None => _ end) as [x1|]; [cbn|done].
  destruct (match exact template with Some expr => eval expr (json_object (bd_ctx c2)) | None => _ end) as [x2|]; [cbn|done].
  rewrite (Hraw x1 x2) by done. by destruct param as [p|]; [destruct (resolve_one p x2)|]; cbn; intros; simplify_eq.
Qed.

(** ** What a launch binds *)

Lemma bind_values_other mode caller l values out name :
  bind_values mode caller l values = Ok out -> name ∉ l.*1 -> out !! name = values !! name.
Proof.
  revert values; induction l as [|[n b] l IH]; intros values; cbn [bind_values]; [by intros [= ->]|].
  intros H [Hn Hl]%not_elem_of_cons. cbn in Hn.
  assert (forall vs, bind_values mode caller l vs = Ok out -> vs !! name = values !! name -> out !! name = values !! name)
    as Hgo by (intros vs Hvs <-; by apply IH).
  repeat case_match; try done; (eapply Hgo; [exact H|]); rewrite ?lookup_insert_ne by done; done.
Qed.

(** Each binding of a launch's scope has its value: the literal, or the caller's
    template rendered. *)
Lemma bind_values_launch caller l values out name b :
  NoDup l.*1 -> bind_values MLaunch caller l values = Ok out -> (name, b) ∈ l -> values !! name = None ->
  match bg_value b with
  | BvLiteral v => out !! name = Some v
  | BvTemplate t => match caller with
                    | Some c => exists v, bound_value c name t (bg_param b) = Ok v /\ out !! name = Some v
                    | None => out !! name = None
                    end
  end.
Proof.
  revert values; induction l as [|[n b'] l IH]; intros values Hn H Hin Hv; [by apply not_elem_of_nil in Hin|].
  apply NoDup_cons in Hn as [Hnl Hn]. cbn in Hnl.
  apply elem_of_cons in Hin as [[= <- <-]|Hin].
  - cbn [bind_values] in H. destruct (bg_value b) as [v|t].
    + rewrite (bind_values_other _ _ _ _ _ _ H Hnl). apply lookup_insert_eq.
    + destruct caller as [c|]; [|by rewrite (bind_values_other _ _ _ _ _ _ H Hnl)].
      rewrite bool_decide_eq_true_2 in H by done. cbn [negb andb] in H.
      destruct (bound_value c name t (bg_param b)) as [v|e]; [|by destruct (decide _)].
      exists v. split; [done|]. rewrite (bind_values_other _ _ _ _ _ _ H Hnl). apply lookup_insert_eq.
  - assert (n <> name) as Hne by (intros ->; apply Hnl; apply list_elem_of_fmap; by exists (name, b)).
    assert (exists vs, bind_values MLaunch caller l vs = Ok out /\ vs !! name = None) as (vs & Hb & Hvs).
    { cbn [bind_values] in H. repeat case_match; try done; eexists; (split; [exact H|]); rewrite ?lookup_insert_ne by done; done. }
    by apply (IH vs).
Qed.
Lemma scope_ind_caller (P : Scope -> Prop) :
  (forall i o m c, (forall s, c = Some s -> P s) -> P (mkScope i o m c)) -> forall s, P s.
Proof.
  intros H. fix IH 1. intros [i o m c]. apply H. destruct c as [c|]; intros s Hs; [|discriminate Hs].
  injection Hs as <-. apply IH.
Qed.

(** What a scope's values are, at launch. *)
Lemma bind_scope_launch params event results inputs outputs matrix caller b :
  bind_scope params event (Some results) MLaunch (mkScope inputs outputs matrix caller) = Ok b ->
  bd_ctx b !! "matrix" = Some (coordinate matrix)
  /\ bd_ctx b !! "inputs" = Some (json_object (bd_inputs b))
  /\ bd_ctx b !! "event" = Some (json_object event)
  /\ match inputs with
     | SiRun => bd_inputs b = params
     | SiBound bindings =>
         exists cb, bind_values MLaunch cb (btree_list bindings) ∅ = Ok (bd_inputs b)
           /\ if existsb (fun kv => is_template kv.2) (btree_list bindings)
              then exists c b', caller = Some c /\ bind_scope params event (Some results) MLaunch c = Ok b' /\ cb = Some b'
              else cb = None
     end.
Proof.
  cbn [bind_scope]. set (ik := match inputs with SiRun => _ | SiBound _ => _ end). intros H.
  destruct ik as [[vals kn]|] eqn:Eik; [|done]. cbn in H. injection H as <-. cbn [bd_ctx bd_inputs fst].
  split; [by rewrite lookup_insert_eq|]. split; [by rewrite lookup_insert_ne, lookup_insert_eq by done|].
  split; [by rewrite !lookup_insert_ne, lookup_singleton_eq by done|].
  unfold ik in Eik. destruct inputs as [|bindings]; [by injection Eik as <- _|].
  destruct (existsb _ _); cbn [negb] in Eik.
  - rewrite decide_False in Eik by done. destruct caller as [c|]; [|done].
    destruct (bind_scope params event (Some results) MLaunch c) as [b'|] eqn:Ec; [|done]. cbn in Eik.
    destruct (bind_values _ _ _ _) as [vs|] eqn:Ev; [|done]. injection Eik as <- _.
    exists (Some b'). split; [done|]. by exists c, b'.
  - cbn in Eik. destruct (bind_values _ _ _ _) as [vs|] eqn:Ev; [|done]. injection Eik as <- _. by exists None.
Qed.

Lemma of_expr_agree srcs expr c1 c2 :
  of_expr srcs expr = SrcPipeline -> (forall r, source_of_read srcs r = SrcPipeline -> same_json r c1 c2) ->
  agree_on expr c1 c2.
Proof.
  unfold of_expr. intros H Hs. destruct (reads expr) as [rs|] eqn:E; [|done]. exists rs. split; [done|].
  intros r Hr. apply Hs. apply (proj1 (furthest_pipeline _) H). by apply list_elem_of_fmap_2.
Qed.
Lemma of_template_agree srcs template c1 c2 :
  of_template srcs template = SrcPipeline -> (forall r, source_of_read srcs r = SrcPipeline -> same_json r c1 c2) ->
  forall i, i ∈ (scan_interpolations template).1 -> agree_on (hole_expr template i) c1 c2.
Proof.
  unfold of_template. intros H Hs i Hi. destruct (scan_interpolations template) as [found [u|]]; [done|].
  eapply of_expr_agree; [|done]. apply (proj1 (furthest_pipeline _) H).
  apply list_elem_of_fmap. by exists i.
Qed.

(** Whatever the launch parameters, the results and the event are, a read whose
    source is the Pipeline finds the same value. *)
Definition pipeline_agree (srcs : InputSources) (b1 b2 : Bound) : Prop :=
  forall r, source_of_read srcs r = SrcPipeline -> same_json r (bd_ctx b1) (bd_ctx b2).

(** The context of a scope, once its pipeline-sourced inputs are known to agree. *)
Lemma pipeline_agree_intro srcs m b1 b2 :
  bd_ctx b1 !! "matrix" = Some (coordinate m) -> bd_ctx b2 !! "matrix" = Some (coordinate m) ->
  bd_ctx b1 !! "inputs" = Some (json_object (bd_inputs b1)) ->
  bd_ctx b2 !! "inputs" = Some (json_object (bd_inputs b2)) ->
  (forall name, source_of_input srcs name = SrcPipeline -> bd_inputs b1 !! name = bd_inputs b2 !! name) ->
  (is_whole srcs = SrcPipeline -> bd_inputs b1 = bd_inputs b2) ->
  pipeline_agree srcs b1 b2.
Proof.
  intros M1 M2 I1 I2 Hin Hw r. unfold source_of_read.
  destruct (String.eqb_spec (rd_var r) "matrix") as [E|_]; [left; by rewrite E, M1, M2|].
  destruct (String.eqb_spec (rd_var r) "inputs") as [E|_].
  - destruct (rd_first r) as [f|] eqn:Ef; intros H.
    + right. exists f, (bd_inputs b1), (bd_inputs b2). rewrite E. split_and!; try done. by apply Hin.
    + left. by rewrite E, I1, I2, (Hw H).
  - destruct (String.eqb_spec (rd_var r) "event"); [|done].
    destruct (rd_first r), (rd_second r); try done. by case_bool_decide.
Qed.

Lemma run_sources_outside declared name : source_of_input (run_sources declared) name <> SrcPipeline.
Proof.
  unfold source_of_input, run_sources. cbn. destruct (list_to_map _ !! name) as [i|] eqn:E; [|done].
  apply elem_of_list_to_map_2, elem_of_reverse, list_elem_of_fmap in E as (p & [= _ ->] & _).
  unfold input_outside. by destruct (pm_type p).
Qed.

Lemma binding_input_pipeline cs b :
  in_source (binding_input cs b) = SrcPipeline ->
  match bg_value b with
  | BvLiteral _ => True
  | BvTemplate t => exists c, cs = Some c /\ of_template c t = SrcPipeline
  end.
Proof.
  unfold binding_input. destruct (bg_value b) as [|t]; [done|]. destruct cs as [c|].
  - destruct (of_template c t) eqn:E; [eauto|..]; destruct (bg_param b) as [p|]; cbn; try done;
      unfold input_outside; by destruct (pm_type p).
  - destruct (bg_param b) as [p|]; cbn; [|done]. unfold input_outside. by destruct (pm_type p).
Qed.

Lemma existsb_template (bindings : gmap string Binding) name b t :
  bindings !! name = Some b -> bg_value b = BvTemplate t ->
  existsb (fun kv => is_template kv.2) (btree_list bindings) = true.
Proof.
  intros H E. apply existsb_exists. exists (name, b). split; [by apply list_elem_of_In, elem_of_btree_list|].
  cbn. unfold is_template. by rewrite E.
Qed.

Lemma scope_agree declared s :
  forall p1 r1 e1 p2 r2 e2 b1 b2,
  bind_scope p1 e1 (Some r1) MLaunch s = Ok b1 -> bind_scope p2 e2 (Some r2) MLaunch s = Ok b2 ->
  pipeline_agree (scope_sources declared s) b1 b2.
Proof.
  induction s as [inputs outputs matrix caller IH] using scope_ind_caller. intros p1 r1 e1 p2 r2 e2 b1 b2 H1 H2.
  apply bind_scope_launch in H1 as (M1 & I1 & _ & V1), H2 as (M2 & I2 & _ & V2).
  destruct inputs as [|bindings].
  { apply (pipeline_agree_intro _ matrix); [done..| |]; [|done]. intros name Hn. by apply run_sources_outside in Hn. }
  destruct V1 as (cb1 & V1 & C1), V2 as (cb2 & V2 & C2).
  set (cs := match caller with Some c => Some (scope_sources declared c) | None => None end).
  assert (forall name b, bindings !! name = Some b -> in_source (binding_input cs b) = SrcPipeline ->
    bd_inputs b1 !! name = bd_inputs b2 !! name) as Hb.
  { intros name b Hname Hs. apply binding_input_pipeline in Hs. pose proof Hname as Hin.
    apply elem_of_btree_list in Hin. pose proof (btree_list_nodup bindings) as Hnd.
    pose proof (bind_values_launch _ _ _ _ _ _ Hnd V1 Hin (lookup_empty _)) as L1.
    pose proof (bind_values_launch _ _ _ _ _ _ Hnd V2 Hin (lookup_empty _)) as L2.
    destruct (bg_value b) as [v|t] eqn:Ev; [by rewrite L1, L2|]. destruct Hs as (c & Ec & Ht).
    rewrite (existsb_template _ _ _ _ Hname Ev) in C1, C2.
    destruct C1 as (c1 & b1' & -> & B1 & ->), C2 as (c2 & b2' & [= <-] & B2 & ->). injection Ec as <-.
    destruct L1 as (v1 & W1 & ->), L2 as (v2 & W2 & ->). f_equal.
    eapply bound_value_agree; [|exact W1|exact W2]. eapply of_template_agree; [exact Ht|].
    exact (IH c1 eq_refl _ _ _ _ _ _ _ _ B1 B2). }
  apply (pipeline_agree_intro _ matrix); [done..| |].
  - intros name Hn. unfold source_of_input in Hn. cbn in Hn. fold cs in Hn. rewrite lookup_fmap in Hn.
    destruct (bindings !! name) as [b|] eqn:Eb; [|done]. by apply (Hb name b).
  - cbn. fold cs. intros Hw. apply map_eq. intros name. destruct (bindings !! name) as [b|] eqn:Eb.
    + apply (Hb name b Eb). apply (proj1 (furthest_pipeline _) Hw). apply list_elem_of_fmap.
      exists (name, binding_input cs b). split; [done|]. apply elem_of_btree_list. by rewrite lookup_fmap, Eb.
    + assert (name ∉ (btree_list bindings).*1) as Hnot.
      { intros ([n b] & -> & H)%list_elem_of_fmap. apply elem_of_btree_list in H. cbn in Eb. congruence. }
      by rewrite (bind_values_other _ _ _ _ _ _ V1 Hnot), (bind_values_other _ _ _ _ _ _ V2 Hnot).
Qed.

Lemma bind_agree declared scope m p1 r1 e1 p2 r2 e2 b1 b2 :
  bind scope m p1 e1 (Some r1) MLaunch = Ok b1 -> bind scope m p2 e2 (Some r2) MLaunch = Ok b2 ->
  pipeline_agree (input_sources scope declared) b1 b2.
Proof.
  destruct scope as [s|]; cbn [bind input_sources]; [apply scope_agree|]. intros [= <-] [= <-].
  apply (pipeline_agree_intro _ m); try done. intros name Hn. by apply run_sources_outside in Hn.
Qed.

(** ** The command boundary *)

(** The texts a value from outside may render to in a command. *)
Definition fixed_shape (srcs : InputSources) (expr text : string) : Prop :=
  text = "true" \/ text = "false" \/ is_decimal text = true
  \/ match shape_of srcs expr with
     | Some ShSha => is_command_sha text = true
     | Some ShKind => text ∈ TRIGGER_KINDS
     | Some (ShChoice options) => text ∈ options
     | _ => False
     end.

Lemma pretty_go_digits x s : all_bytes is_digit s = true -> all_bytes is_digit (pretty_N_go x s) = true.
Proof.
  revert s. induction (N.lt_wf_0 x) as [x _ IH]; intros s Hs.
  destruct (decide (0 < x)%N) as [Hx|Hx].
  - rewrite pretty_N_go_step by done. apply IH; [apply N.div_lt; lia|]. cbn [all_bytes]. rewrite Hs, andb_true_r.
    pose proof (N.mod_lt x 10). generalize dependent (x mod 10)%N. intros d Hd.
    assert (d = 0 \/ d = 1 \/ d = 2 \/ d = 3 \/ d = 4 \/ d = 5 \/ d = 6 \/ d = 7 \/ d = 8 \/ d = 9)%N as Hc by lia.
    by repeat (destruct Hc as [->|Hc]; [done|]); subst.
  - assert (x = 0%N) as -> by lia. by rewrite pretty_N_go_0.
Qed.
Lemma pretty_decimal (n : N) : is_decimal (pretty n) = true.
Proof.
  assert (all_bytes is_digit (pretty n) = true) as Hd.
  { unfold pretty, pretty_N. case_decide; [done|]. by apply pretty_go_digits. }
  unfold is_decimal. destruct (pretty_head n) as (d & r & _ & E).
  assert (split_once "." (pretty n) = None) as ->.
  { apply split_once_None. revert Hd. generalize (pretty n). clear. induction s as [|c s IH]; [done|].
    cbn [all_bytes has_char]. intros [Hc Hs]%andb_true_iff. rewrite (IH Hs), orb_false_r. apply Ascii.eqb_neq. by intros <-. }
  by rewrite Hd, E.
Qed.

Lemma fixed_text_shape srcs expr v text :
  fixed_text v (shape_of srcs expr) = Ok text -> fixed_shape srcs expr text.
Proof.
  unfold fixed_shape.
  assert (forall o t, unshaped_text v o = Ok t -> t = "true" \/ t = "false" \/ is_decimal t = true \/ t ∈ default [] o) as Hu.
  { intros o t. unfold unshaped_text. destruct v as [|b|z|f|s|l|l]; try done.
    - intros [= <-]. destruct b; auto.
    - destruct (is_decimal _) eqn:E; [|done]. intros [= <-]. auto.
    - destruct (is_decimal _) eqn:E; [|done]. intros [= <-]. auto.
    - case_bool_decide; [|done]. intros [= <-]. auto. }
  destruct (shape_of srcs expr) as [[o| | | |]|]; cbn [fixed_text].
  - intros H%Hu. naive_solver.
  - destruct v; try done. destruct (is_command_sha s) eqn:E; [|done]. intros [= <-]. auto.
  - unfold value_u64. destruct v as [| |z| | | |]; try done. destruct (decide _) as [Hz|]; [|done].
    intros [= <-]. right. right. left. cbn. destruct z as [|p|p]; [done| |lia]. apply (pretty_decimal (Npos p)).
  - destruct v as [|[]| | | | |]; try done; intros [= <-]; auto.
  - destruct v; try done. case_bool_decide; [|done]. intros [= <-]. auto.
  - intros H%Hu. cbn in H. destruct H as [?|[?|[?|H]]]; auto. by apply not_elem_of_nil in H.
Qed.
(** One hole of an argument, in two launches. *)
Definition same_hole (srcs : InputSources) (template : string) (i : Interpolation) (t : string * string) : Prop :=
  match of_expr srcs (hole_expr template i) with
  | SrcPipeline => t.1 = t.2
  | SrcFixed => fixed_shape srcs (hole_expr template i) t.1 /\ fixed_shape srcs (hole_expr template i) t.2
  | SrcFree => False
  end.
Definition same_argument (srcs : InputSources) (template a1 a2 : string) : Prop :=
  exists texts : list (string * string),
    Forall2 (same_hole srcs template) (scan_interpolations template).1 texts
    /\ a1 = weave template 0 (scan_interpolations template).1 texts.*1
    /\ a2 = weave template 0 (scan_interpolations template).1 texts.*2.

Definition launch_value (ctx : gmap string Json) (expr : string) : Result string (option Json) :=
  map_err show_pipeline_error (Some <$> eval expr (json_object ctx)).

(** What a hole of a launch's argument renders to. *)
Lemma argument_hole_launch srcs ctx index template i t :
  argument_hole srcs (launch_value ctx) index template i = Ok t ->
  match of_expr srcs (hole_expr template i) with
  | SrcPipeline => exists v, eval (hole_expr template i) (json_object ctx) = Ok v /\ t = text_of v
  | SrcFixed => fixed_shape srcs (hole_expr template i) t
  | SrcFree => False
  end.
Proof.
  unfold argument_hole, launch_value. destruct (of_expr srcs _) eqn:Es; [..|done].
  - rewrite decide_False by done. destruct (eval _ _) as [v|]; [|done]. cbn.
    rewrite decide_False by done. intros [= <-]. by exists v.
  - rewrite decide_False by done. destruct (eval _ _) as [v|]; [|done]. cbn. rewrite decide_True by done.
    destruct (fixed_text v _) as [x|] eqn:Ef; [|done]. intros [= <-]. by eapply fixed_text_shape.
Qed.

Lemma argument_weave srcs strict value index template a :
  argument srcs strict value index template = Ok a ->
  exists texts, Forall2 (fun i t => argument_hole srcs value index template i = Ok t) (scan_interpolations template).1 texts
    /\ a = weave template 0 (scan_interpolations template).1 texts.
Proof.
  unfold argument. destruct (scan_interpolations template) as [found u]. cbn [fst].
  destruct (fill template 0 found _) as [out|] eqn:E; [cbn|done]. destruct (strict && _); [done|]. intros [= <-].
  destruct (fill_weave _ _ _ _ _ E) as (texts & H1 & H2). by exists texts.
Qed.

Lemma argument_same srcs b1 b2 index template a1 a2 :
  pipeline_agree srcs b1 b2 ->
  argument srcs true (launch_value (bd_ctx b1)) index template = Ok a1 ->
  argument srcs true (launch_value (bd_ctx b2)) index template = Ok a2 -> same_argument srcs template a1 a2.
Proof.
  intros Ha (x1 & F1 & ->)%argument_weave (x2 & F2 & ->)%argument_weave.
  exists (zip x1 x2). pose proof (Forall2_length _ _ _ F1) as L1. pose proof (Forall2_length _ _ _ F2) as L2.
  rewrite fst_zip, snd_zip by lia. split; [|done]. clear L1 L2.
  revert x1 x2 F1 F2. induction (scan_interpolations template).1 as [|i found IH]; intros x1 x2 F1 F2.
  - inversion F1; inversion F2; constructor.
  - inversion F1 as [|? y1 ? x1' G1 F1']; inversion F2 as [|? y2 ? x2' G2 F2']; subst. constructor; [|by apply IH].
    apply argument_hole_launch in G1, G2. unfold same_hole.
    destruct (of_expr srcs (hole_expr template i)) eqn:Es; [|done|done].
    destruct G1 as (v1 & E1 & ->), G2 as (v2 & E2 & ->). cbn. f_equal.
    eapply eval_agree; [|exact E1|exact E2]. by eapply of_expr_agree.
Qed.

Lemma arguments_same srcs b1 b2 index command c1 c2 :
  pipeline_agree srcs b1 b2 ->
  arguments_from index command srcs true (launch_value (bd_ctx b1)) = Ok c1 ->
  arguments_from index command srcs true (launch_value (bd_ctx b2)) = Ok c2 ->
  Forall3 (same_argument srcs) command c1 c2.
Proof.
  intros Ha. revert index c1 c2; induction command as [|t command IH]; intros index c1 c2; cbn [arguments_from].
  { intros [= <-] [= <-]. constructor. }
  destruct (argument _ _ (launch_value (bd_ctx b1)) _ _) as [a1|] eqn:A1; [cbn|done].
  destruct (arguments_from _ _ _ _ (launch_value (bd_ctx b1))) as [r1|] eqn:R1; [cbn|done]. intros [= <-].
  destruct (argument _ _ (launch_value (bd_ctx b2)) _ _) as [a2|] eqn:A2; [cbn|done].
  destruct (arguments_from _ _ _ _ (launch_value (bd_ctx b2))) as [r2|] eqn:R2; [cbn|done]. intros [= <-].
  constructor; [by eapply argument_same|by eapply IH].
Qed.

(** A launch that renders. *)
Lemma render_launch templates scope m params declared results event r :
  render templates scope m (FLaunch params declared results event) = Ok r ->
  exists b, bind scope m params event (Some results) MLaunch = Ok b
    /\ interpolate (tp_image templates) (json_object (bd_ctx b)) = Ok (rn_image r)
    /\ (rn_image r = "" \/ is_image_reference (rn_image r) = true)
    /\ arguments (tp_command templates) (input_sources scope declared) true (launch_value (bd_ctx b)) = Ok (rn_command r).
Proof.
  cbn [render]. destruct (bind scope m params event (Some results) MLaunch) as [b|]; [cbn|done].
  destruct (interpolate (tp_image templates) _) as [image|] eqn:Ei; [cbn|done].
  destruct (negb (String.eqb image "") && negb (is_image_reference image)) eqn:Eo; [done|].
  fold (launch_value (bd_ctx b)).
  destruct (arguments _ _ _ _) as [command|] eqn:Ea; [cbn|done].
  destruct (render_env _ _) as [env|]; [cbn|done]. intros [= <-]. exists b. cbn. split_and!; try done.
  destruct (String.eqb_spec image ""); [by left|]. right. by destruct (is_image_reference image).
Qed.

(** C19: The command boundary. Take two launches of one Step whose Pipeline is
    the same (its templates, its scope, its matrix coordinate, the declared
    inputs) and whose values from outside differ in any way: the launch
    parameters, every Step's results, the event. If both render, their commands
    have the same arguments, each written from the same template, and a hole
    differs only where its expression reads a value of a fixed type: there each
    launch has [true], [false], a non-negative decimal, or (an expression that
    is that one read) a commit SHA, a trigger kind or one of the choices the
    Pipeline lists. No hole of a rendered command reads free text from
    outside. *)
Theorem command_boundary templates scope m declared p1 r1 e1 p2 r2 e2 o1 o2 :
  render templates scope m (FLaunch p1 declared r1 e1) = Ok o1 ->
  render templates scope m (FLaunch p2 declared r2 e2) = Ok o2 ->
  Forall3 (same_argument (input_sources scope declared)) (tp_command templates) (rn_command o1) (rn_command o2).
Proof.
  intros (b1 & B1 & _ & _ & A1)%render_launch (b2 & B2 & _ & _ & A2)%render_launch.
  eapply arguments_same; [|exact A1|exact A2]. by eapply bind_agree.
Qed.

(** ** The preview *)

(** What a preview knows is what the launch finds. *)
Definition preview_agree (bp bl : Bound) : Prop :=
  forall r, covers_read (bd_known bp) r = true -> same_json r (bd_ctx bp) (bd_ctx bl).

Lemma preview_agree_intro m event bp bl :
  bd_ctx bp !! "matrix" = Some (coordinate m) -> bd_ctx bl !! "matrix" = Some (coordinate m) ->
  bd_ctx bp !! "event" = Some (json_object event) -> bd_ctx bl !! "event" = Some (json_object event) ->
  bd_ctx bp !! "inputs" = Some (json_object (bd_inputs bp)) ->
  bd_ctx bl !! "inputs" = Some (json_object (bd_inputs bl)) ->
  kn_outputs (bd_known bp) = false ->
  match kn_inputs (bd_known bp) with
  | None => bd_inputs bp = bd_inputs bl
  | Some have => forall name, name ∈ have -> bd_inputs bp !! name = bd_inputs bl !! name
  end ->
  preview_agree bp bl.
Proof.
  intros M1 M2 E1 E2 I1 I2 Ho Hi r. unfold covers_read. case_bool_decide as Hv.
  { intros _. left. apply elem_of_cons in Hv as [E| E%list_elem_of_singleton]; rewrite E; congruence. }
  rewrite Ho. destruct (String.eqb_spec (rd_var r) "outputs"); [done|].
  destruct (String.eqb_spec (rd_var r) "inputs") as [E|]; [|done].
  destruct (kn_inputs (bd_known bp)) as [have|]; [|intros _; left; by rewrite E, I1, I2, Hi].
  destruct (rd_first r) as [f|] eqn:Ef; [|done]. case_bool_decide as Hf; [|done]. intros _.
  right. exists f, (bd_inputs bp), (bd_inputs bl). rewrite E. split_and!; try done. by apply Hi.
Qed.

Lemma covers_agree bp bl expr :
  preview_agree bp bl -> covers (bd_known bp) expr = true -> agree_on expr (bd_ctx bp) (bd_ctx bl).
Proof.
  intros Ha. unfold covers. destruct (reads expr) as [rs|] eqn:E; [|done]. intros H. exists rs. split; [done|].
  intros r Hr. apply Ha. rewrite forallb_forall in H. apply H. by apply list_elem_of_In.
Qed.

Lemma bind_scope_preview params event inputs outputs matrix caller b :
  bind_scope params event None MPreview (mkScope inputs outputs matrix caller) = Ok b ->
  bd_ctx b !! "matrix" = Some (coordinate matrix)
  /\ bd_ctx b !! "inputs" = Some (json_object (bd_inputs b))
  /\ bd_ctx b !! "event" = Some (json_object event)
  /\ kn_outputs (bd_known b) = false
  /\ match inputs with
     | SiRun => bd_inputs b = params /\ kn_inputs (bd_known b) = None
     | SiBound bindings =>
         kn_inputs (bd_known b) = Some (dom (bd_inputs b))
         /\ exists cb, bind_values MPreview cb (btree_list bindings) ∅ = Ok (bd_inputs b)
              /\ forall b', cb = Some b' -> exists c, caller = Some c /\ bind_scope params event None MPreview c = Ok b'
     end.
Proof.
  cbn [bind_scope]. set (ik := match inputs with SiRun => _ | SiBound _ => _ end). intros H.
  destruct ik as [[vals kn]|] eqn:Eik; [|done]. cbn in H. injection H as <-. cbn [bd_ctx bd_inputs bd_known kn_inputs kn_outputs fst snd].
  split; [by rewrite lookup_insert_eq|]. split; [by rewrite lookup_insert_ne, lookup_insert_eq by done|].
  split; [by rewrite !lookup_insert_ne, lookup_singleton_eq by done|]. split; [done|].
  unfold ik in Eik. destruct inputs as [|bindings]; [by injection Eik as <- <-|].
  destruct (existsb _ _); cbn [negb] in Eik.
  - rewrite decide_True in Eik by done. cbn in Eik. destruct (bind_values _ _ _ _) as [vs|] eqn:Ev; [|done].
    injection Eik as <- <-. split; [done|]. eexists. split; [exact Ev|]. intros b' Hb'.
    destruct caller as [c|]; [|done]. exists c. split; [done|].
    by destruct (bind_scope params event None MPreview c); simplify_eq.
  - cbn in Eik. destruct (bind_values _ _ _ _) as [vs|] eqn:Ev; [|done].
    injection Eik as <- <-. split; [done|]. exists None. by split.
Qed.

(** A value a preview binds is a literal, or a covered template's. *)
Lemma bind_values_preview caller l values out name v :
  NoDup l.*1 -> bind_values MPreview caller l values = Ok out -> out !! name = Some v -> values !! name = None ->
  exists b, (name, b) ∈ l /\ match bg_value b with
    | BvLiteral v' => v' = v
    | BvTemplate t => exists c, caller = Some c /\ covers_template (bd_known c) t = true
                                /\ bound_value c name t (bg_param b) = Ok v
    end.
Proof.
  revert values; induction l as [|[n b] l IH]; intros values Hn H Ho Hv; cbn [bind_values] in H.
  { injection H as ->. congruence. }
  apply NoDup_cons in Hn as [Hnl Hn]. cbn in Hnl.
  assert (forall vs, bind_values MPreview caller l vs = Ok out -> vs !! name = None ->
    exists b', (name, b') ∈ (n, b) :: l /\ match bg_value b' with
      | BvLiteral v' => v' = v
      | BvTemplate t => exists c, caller = Some c /\ covers_template (bd_known c) t = true
                                  /\ bound_value c name t (bg_param b') = Ok v
      end) as Hgo.
  { intros vs H1 H2. destruct (IH vs Hn H1 Ho H2) as (b' & Hb' & ?). exists b'. split; [by right|done]. }
  destruct (decide (n = name)) as [->|Hne].
  - destruct (bg_value b) as [w|t] eqn:Eb.
    + rewrite (bind_values_other _ _ _ _ _ _ H Hnl), lookup_insert_eq in Ho. injection Ho as ->.
      exists b. split; [left|]. by rewrite Eb.
    + destruct caller as [c|]; [|by apply (Hgo values)].
      destruct (covers_template (bd_known c) t) eqn:Ec; cbn in H; [|by apply (Hgo values)].
      destruct (bound_value c name t (bg_param b)) as [w|] eqn:Ew; [|by apply (Hgo values)].
      rewrite (bind_values_other _ _ _ _ _ _ H Hnl), lookup_insert_eq in Ho. injection Ho as ->.
      exists b. split; [left|]. rewrite Eb. by exists c.
  - repeat case_match; try done; (eapply Hgo; [exact H|]); rewrite ?lookup_insert_ne by done; done.
Qed.

Lemma scope_preview_agree s :
  forall params results event bp bl,
  bind_scope params event None MPreview s = Ok bp -> bind_scope params event (Some results) MLaunch s = Ok bl ->
  preview_agree bp bl.
Proof.
  induction s as [inputs outputs matrix caller IH] using scope_ind_caller. intros params results event bp bl H1 H2.
  apply bind_scope_preview in H1 as (M1 & I1 & E1 & O1 & V1). apply bind_scope_launch in H2 as (M2 & I2 & E2 & V2).
  apply (preview_agree_intro matrix event); try done. destruct inputs as [|bindings].
  { destruct V1 as [-> ->]. by rewrite V2. }
  destruct V1 as (-> & cb1 & V1 & C1), V2 as (cb2 & V2 & C2).
  intros name [v Hv]%elem_of_dom. rewrite Hv. pose proof (btree_list_nodup bindings) as Hnd.
  destruct (bind_values_preview _ _ _ _ _ _ Hnd V1 Hv (lookup_empty _)) as (b & Hin & Hb).
  pose proof (bind_values_launch _ _ _ _ _ _ Hnd V2 Hin (lookup_empty _)) as L2.
  apply elem_of_btree_list in Hin. destruct (bg_value b) as [w|t] eqn:Eb; [by rewrite L2, Hb|].
  destruct Hb as (c1 & Ec1 & Hcov & W1). rewrite (existsb_template _ _ _ _ Hin Eb) in C2.
  destruct (C1 c1 Ec1) as (c & -> & B1), C2 as (c' & b2' & [= <-] & B2 & ->). destruct L2 as (v2 & W2 & ->).
  f_equal. eapply bound_value_agree; [|exact W1|exact W2].
  intros i Hi. apply covers_agree; [by eapply (IH c)|]. unfold covers_template in Hcov.
  destruct (scan_interpolations t) as [found u]. apply andb_true_iff in Hcov as [_ Hcov].
  rewrite forallb_forall in Hcov. apply Hcov. by apply list_elem_of_In.
Qed.

Lemma bind_preview_agree scope m params results event bp bl :
  bind scope m params event None MPreview = Ok bp -> bind scope m params event (Some results) MLaunch = Ok bl ->
  preview_agree bp bl.
Proof.
  destruct scope as [s|]; cbn [bind]; [apply scope_preview_agree|]. intros [= <-] [= <-].
  by apply (preview_agree_intro m event).
Qed.

Lemma fill_total template at_ found (g : Interpolation -> string) :
  exists out, fill (E:=unit) template at_ found (fun i => Ok (g i)) = Ok out
    /\ out.1 +:+ drop_str out.2 template = weave template at_ found (map g found).
Proof.
  revert at_; induction found as [|i found IH]; intros at_; cbn [fill map weave]; [eauto|].
  destruct (IH (in_outer i).2) as (out & E & H). cbn. rewrite E. cbn. eexists. split; [done|]. cbn.
  by rewrite !string_app_assoc, H.
Qed.

Lemma preview_weave template ctx known :
  preview template ctx known = weave template 0 (scan_interpolations template).1
    (map (fun i => match known_value ctx known (hole_expr template i) with
                   | Some v => text_of v
                   | None => hole_text template i
                   end) (scan_interpolations template).1).
Proof.
  unfold preview. destruct (scan_interpolations template) as [found u]. cbn [fst].
  match goal with |- context [map ?g found] => destruct (fill_total template 0 found g) as (out & E & H) end.
  cbn beta in E. rewrite E. exact H.
Qed.

(** A preview with no hole left is what the launch renders. *)
Lemma preview_complete template bp bl t :
  preview_agree bp bl -> interpolate template (json_object (bd_ctx bl)) = Ok t ->
  contains "${{" (preview template (bd_ctx bp) (bd_known bp)) = false ->
  t = preview template (bd_ctx bp) (bd_known bp).
Proof.
  intros Ha Ht Hc. rewrite preview_weave in *. unfold interpolate in Ht.
  destruct (scan_interpolations template) as [found u] eqn:Es. cbn [fst] in *.
  destruct (fill template 0 found _) as [out|] eqn:Ef; [cbn in Ht|done]. destruct u; [done|]. injection Ht as <-.
  destruct (fill_weave _ _ _ _ _ Ef) as (texts & Hx & ->). f_equal.
  match type of Hc with context [map ?h found] => set (g := h) in * end.
  assert (forall i, i ∈ found -> exists v, known_value (bd_ctx bp) (bd_known bp) (hole_expr template i) = Some v) as Hk.
  { intros i Hi. destruct (known_value _ _ (hole_expr template i)) as [v|] eqn:E; [eauto|exfalso].
    apply not_true_iff_false in Hc. apply Hc.
    apply (weave_contains _ _ _ _ _ (g i)); [by rewrite length_map|by apply list_elem_of_fmap_2|].
    unfold g. rewrite E. by eapply hole_text_marked. }
  clear Hc Ef Es. revert texts Hx. induction found as [|i found IH]; intros texts Hx; inversion Hx as [|? y ? ys G Hx']; subst; [done|].
  cbn [map]. f_equal; [|apply IH; [intros j Hj; apply Hk; by right|done]].
  destruct (eval (hole_expr template i) (json_object (bd_ctx bl))) as [v2|] eqn:E2; [|done]. cbn in G. injection G as <-.
  destruct (Hk i) as [v1 E1]; [left|]. unfold g. rewrite E1. f_equal. unfold known_value in E1.
  destruct (covers _ _) eqn:Ecov; [|done]. destruct (eval _ (json_object (bd_ctx bp))) as [w|] eqn:Ew; [|done].
  injection E1 as <-. symmetry. eapply eval_agree; [|exact Ew|exact E2]. by apply covers_agree.
Qed.

Lemma preview_image_eq image scope m params event :
  preview_image image scope m params event =
  let known := match bind scope m params event None MPreview with
               | Ok b => preview image (bd_ctx b) (bd_known b)
               | Err _ => image
               end in
  if negb (String.eqb known "") && negb (is_image_reference known) then image else known.
Proof. reflexivity. Qed.

(** What is previewed is what renders: an image previewed with no [${{] left
    in it is the image of any launch that renders, whatever the results. *)
Lemma previewed_image templates scope m params declared results event r :
  render templates scope m (FLaunch params declared results event) = Ok r ->
  let image := preview_image (tp_image templates) scope m params event in
  contains "${{" image = false ->
  rn_image r = image
  /\ (image = "" \/ all_bytes reference_byte image = true /\ first_byte (fun c => negb (Ascii.eqb c "-")) image = true).
Proof.
  intros (bl & Bl & Ht & Hok & _)%render_launch. cbv zeta. intros Hc.
  assert (rn_image r = preview_image (tp_image templates) scope m params event) as E.
  { rewrite preview_image_eq in *. cbv zeta in *.
    assert (forall t, contains "${{" t = false -> interpolate t (json_object (bd_ctx bl)) = Ok (rn_image r) -> rn_image r = t) as Hplain.
    { intros t Hn. unfold interpolate. rewrite (no_holes t Hn). by intros [= <-]. }
    destruct (bind scope m params event None MPreview) as [bp|] eqn:Bp.
    - destruct (negb _ && negb _); [by apply Hplain|]. eapply preview_complete; [|done..].
      by eapply bind_preview_agree.
    - by destruct (negb _ && negb _); apply Hplain. }
  split; [done|]. rewrite <- E. destruct Hok as [?|?]; [by left|right; by apply image_reference_safe].
Qed.

End WithPorts.

(** ** A library Step, concretely *)

#[local] Existing Instance dotted_cel.
Definition no_floats : Floats := {| parse_f64 _ := None |}.
Definition ascii_tables : CharTables := {| debug_char _ ch := ch; upper_char ch := ch |}.

Definition region_param : ParamSpec := mkParam "region" PtChoice true None (Some ["eu"; "us"]) None None.
Definition note_param : ParamSpec := mkParam "note" PtString true None None None None.
(** A library whose [target] is the caller's [inputs.region] and whose [mode]
    the caller wrote. *)
Definition library_scope : Scope :=
  mkScope (SiBound {["target" := binding_template "${{ inputs.region }}" region_param;
                     "mode" := binding_literal (JStr "fast")]})
    ∅ {["os" := "linux"]} (Some scope_run).
Definition library_step : Templates :=
  mkTemplates "ghcr.io/acme/deploy:${{ inputs.target }}"
    ["deploy"; "--to=${{ inputs.target }}-${{ matrix.os }}"; "--mode=${{ inputs.mode }}"; "${{ event.sha }}"]
    [("NOTE", "run of ${{ inputs.target }}")].
Definition sha_a : string := "aaaaaaaaaaaaaaaaaaaaaaaaaaaaaaaaaaaaaaaa".
Definition sha_b : string := "0123456789abcdef0123456789abcdef01234567".
Definition region_params (region : string) : gmap string Json := {["region" := JStr region; "note" := JStr "${{ x }}; rm"]}.
Definition sha_event (sha : string) : gmap string Json := {["sha" := JStr sha]}.

Lemma command_boundary_witness :
  let launch region sha := @render dotted_cel no_floats ascii_tables library_step (Some library_scope) ∅
    (FLaunch (region_params region) [region_param; note_param] ∅ (sha_event sha)) in
  let srcs := input_sources (Some library_scope) [region_param; note_param] in
  rn_command <$> launch "eu" sha_a = Ok ["deploy"; "--to=eu-linux"; "--mode=fast"; sha_a]
  /\ rn_command <$> launch "us" sha_b = Ok ["deploy"; "--to=us-linux"; "--mode=fast"; sha_b]
  /\ rn_env <$> launch "eu" sha_a = Ok [("SCARAB_PARAM_MODE", "fast"); ("SCARAB_PARAM_TARGET", "eu"); ("NOTE", "run of eu")]
  /\ is_ok (@render dotted_cel no_floats ascii_tables (mkTemplates "" ["echo"; "${{ inputs.note }}"] []) None ∅
       (FLaunch (region_params "eu") [region_param; note_param] ∅ ∅)) = false
  /\ Forall3 (same_argument srcs) (tp_command library_step)
       ["deploy"; "--to=eu-linux"; "--mode=fast"; sha_a] ["deploy"; "--to=us-linux"; "--mode=fast"; sha_b].
Proof.
  cbv zeta. set (srcs := input_sources _ _).
  split; [vm_compute; reflexivity|]. split; [vm_compute; reflexivity|].
  split; [vm_compute; reflexivity|]. split; [vm_compute; reflexivity|].
  set (facts region sha := FLaunch (region_params region) [region_param; note_param] ∅ (sha_event sha)).
  destruct (@render dotted_cel no_floats ascii_tables library_step (Some library_scope) ∅ (facts "eu" sha_a)) as [o1|] eqn:E1;
    [|vm_compute in E1; discriminate E1].
  destruct (@render dotted_cel no_floats ascii_tables library_step (Some library_scope) ∅ (facts "us" sha_b)) as [o2|] eqn:E2;
    [|vm_compute in E2; discriminate E2].
  pose proof (@command_boundary dotted_cel no_floats ascii_tables dotted_laws library_step (Some library_scope) ∅
    [region_param; note_param] (region_params "eu") ∅ (sha_event sha_a) (region_params "us") ∅ (sha_event sha_b) o1 o2 E1 E2) as H.
  assert (rn_command o1 = ["deploy"; "--to=eu-linux"; "--mode=fast"; sha_a]) as C1
    by (vm_compute in E1; injection E1 as <-; vm_compute; reflexivity).
  assert (rn_command o2 = ["deploy"; "--to=us-linux"; "--mode=fast"; sha_b]) as C2
    by (vm_compute in E2; injection E2 as <-; vm_compute; reflexivity).
  rewrite C1, C2 in H. exact H.
Defined.
