(* ===== verification/Ir.v ===== *)
(** * The Pipeline IR (scarab-pipeline/src/lib.rs)

    The data an authored and a compiled Pipeline are made of, what is read off
    it (deploy marks, triggers, guards, profiles), and the search for a
    dependency cycle. *)

From S2P Require Import Prelude Graph Text Values Cel Oci Params Scopes Render.

(** ** Data *)

Inductive PipelineKind : Set := KindLibrary.
Record Interface := mkInterface { if_inputs : list ParamSpec; if_outputs : list OutputSpec }.
Definition interface_empty : Interface := mkInterface [] [].
Definition interface_is_empty (i : Interface) : bool :=
  match if_inputs i, if_outputs i with [], [] => true | _, _ => false end.
Definition output_names (i : Interface) : list string := map ou_name (if_outputs i).

Record Concurrency := mkConcurrency { cy_group : string; cy_policy : string }.
Record TriggerFilter := mkTrigger {
  tf_when : option string;
  tf_schedule : list string;
  tf_pipeline : option string;
  tf_status : list string;
}.

Record HttpReady := mkHttpReady { hr_port : N; hr_path : string }.
Record ReadyProbe := mkReadyProbe { rp_tcp : option N; rp_exec : list string; rp_http : option HttpReady }.
Definition b2n (b : bool) : nat := if b then 1 else 0.
Definition is_nil {A} (l : list A) : bool := match l with [] => true | _ => false end.
Definition is_some {A} (o : option A) : bool := match o with Some _ => true | None => false end.
Definition forms_set (p : ReadyProbe) : nat :=
  b2n (is_some (rp_tcp p)) + b2n (negb (is_nil (rp_exec p))) + b2n (is_some (rp_http p)).

Record ServiceSpec := mkService {
  sv_image : string;
  sv_command : list string;
  sv_args : list string;
  sv_env : gmap string string;
  sv_ports : list N;
  sv_ready : option ReadyProbe;
  sv_run_as_user : option N;
  sv_run_as_root : bool;
}.
Record SharedServiceSpec := mkShared { sh_name : string; sh_spec : ServiceSpec }.

Inductive ForgeToken : Set := FtRead | FtWrite.
#[export] Instance ForgeToken_eq_dec : EqDecision ForgeToken.
Proof. solve_decision. Defined.
Definition forge_token_as_str (t : ForgeToken) : string := match t with FtRead => "read" | FtWrite => "write" end.

Record SecretRef := mkSecret { sr_name : string; sr_env : bool }.
Record CacheSpec := mkCache { ca_dirs : list string; ca_key : list string }.
Record BuildSpec := mkBuild { bu_context : string; bu_dockerfile : string; bu_image : string; bu_push : bool }.
Inductive RetryOn : Set := OnFailure.
Record Retry := mkRetry { rt_on : RetryOn; rt_max : N }.
Record Matrix := mkMatrix { mx_dimensions : gmap string (list string); mx_exclude : list string }.
Record Resources := mkResources { rs_cpu_millis : option N; rs_memory_mib : option N }.
Record StepSecurity := mkSecurity { se_run_as_root : bool; se_add_capabilities : list string; se_privileged : bool }.
Definition is_baseline (s : StepSecurity) : bool :=
  negb (se_run_as_root s) && negb (se_privileged s) && is_nil (se_add_capabilities s).

Inductive OriginKind : Set := OkFile | OkLibrary | OkPlugin | OkEnvironment.
#[export] Instance OriginKind_eq_dec : EqDecision OriginKind.
Proof. solve_decision. Defined.
Record OriginEntry := mkOrigin {
  og_kind : OriginKind;
  og_name : string;
  og_source : option string;
  og_content_hash : string;
}.
Record PluginGateSpec := mkPluginGate { pt_installation : string; pt_gate : string; pt_outputs : list OutputSpec }.
Definition plugin_gate_releaser (p : PluginGateSpec) : string := "plugin:" +:+ pt_installation p.
Record Guard := mkGuard { gd_caller_hops : nat; gd_when : string }.

Record StepSpec := mkStep {
  st_id : string;
  st_image : string;
  st_gate : option string;
  st_deployment : option Json;
  st_clone : option Json;
  st_forge_token : option ForgeToken;
  st_build : option BuildSpec;
  st_invoke : option string;
  st_with : gmap string string;
  st_gate_after : option N;
  st_gate_expires_after : option N;
  st_artifacts : list string;
  st_deploy : bool;
  st_command : list string;
  st_env : list (string * string);
  st_secrets : list SecretRef;
  st_security : option StepSecurity;
  st_needs : list string;
  st_inputs : option (list string);
  st_outputs : option (list string);
  st_cache : option CacheSpec;
  st_timeout : option N;
  st_retry : option Retry;
  st_matrix : option Matrix;
  st_when : option string;
  st_placement_profiles : list string;
  st_resources : Resources;
  st_k8s_overlay : option Json;
  st_matrix_values : gmap string string;
  st_services : list ServiceSpec;
  st_uses : list string;
  st_results : list string;
  st_deployment_requests : option Json;
  st_origin : list OriginEntry;
  st_scope : option Scope;
  st_guards : list Guard;
  st_plugin_gate : option PluginGateSpec;
  st_environment_approval_gate : option bool;
}.

(** A Step written [{ id, image }], every other field at its default. *)
Definition plain_step (id image : string) : StepSpec :=
  mkStep id image None None None None None None ∅ None None [] false [] [] [] None [] None None None None None None None
    [] (mkResources None None) None ∅ [] [] [] None [] None [] None None.
(** A gate written [{ id, gate }]. *)
Definition bare_gate (id kind : string) : StepSpec :=
  mkStep id "" (Some kind) None None None None None ∅ None None [] false [] [] [] None [] None None None None None None None
    [] (mkResources None None) None ∅ [] [] [] None [] None [] None None.

(** Field updates ([step.field = ..]). *)
Definition set_id v s := mkStep v (st_image s) (st_gate s) (st_deployment s) (st_clone s) (st_forge_token s) (st_build s) (st_invoke s) (st_with s) (st_gate_after s) (st_gate_expires_after s) (st_artifacts s) (st_deploy s) (st_command s) (st_env s) (st_secrets s) (st_security s) (st_needs s) (st_inputs s) (st_outputs s) (st_cache s) (st_timeout s) (st_retry s) (st_matrix s) (st_when s) (st_placement_profiles s) (st_resources s) (st_k8s_overlay s) (st_matrix_values s) (st_services s) (st_uses s) (st_results s) (st_deployment_requests s) (st_origin s) (st_scope s) (st_guards s) (st_plugin_gate s) (st_environment_approval_gate s).
Definition set_needs v s := mkStep (st_id s) (st_image s) (st_gate s) (st_deployment s) (st_clone s) (st_forge_token s) (st_build s) (st_invoke s) (st_with s) (st_gate_after s) (st_gate_expires_after s) (st_artifacts s) (st_deploy s) (st_command s) (st_env s) (st_secrets s) (st_security s) v (st_inputs s) (st_outputs s) (st_cache s) (st_timeout s) (st_retry s) (st_matrix s) (st_when s) (st_placement_profiles s) (st_resources s) (st_k8s_overlay s) (st_matrix_values s) (st_services s) (st_uses s) (st_results s) (st_deployment_requests s) (st_origin s) (st_scope s) (st_guards s) (st_plugin_gate s) (st_environment_approval_gate s).
Definition set_gate_expires_after v s := mkStep (st_id s) (st_image s) (st_gate s) (st_deployment s) (st_clone s) (st_forge_token s) (st_build s) (st_invoke s) (st_with s) (st_gate_after s) v (st_artifacts s) (st_deploy s) (st_command s) (st_env s) (st_secrets s) (st_security s) (st_needs s) (st_inputs s) (st_outputs s) (st_cache s) (st_timeout s) (st_retry s) (st_matrix s) (st_when s) (st_placement_profiles s) (st_resources s) (st_k8s_overlay s) (st_matrix_values s) (st_services s) (st_uses s) (st_results s) (st_deployment_requests s) (st_origin s) (st_scope s) (st_guards s) (st_plugin_gate s) (st_environment_approval_gate s).
Definition set_origin v s := mkStep (st_id s) (st_image s) (st_gate s) (st_deployment s) (st_clone s) (st_forge_token s) (st_build s) (st_invoke s) (st_with s) (st_gate_after s) (st_gate_expires_after s) (st_artifacts s) (st_deploy s) (st_command s) (st_env s) (st_secrets s) (st_security s) (st_needs s) (st_inputs s) (st_outputs s) (st_cache s) (st_timeout s) (st_retry s) (st_matrix s) (st_when s) (st_placement_profiles s) (st_resources s) (st_k8s_overlay s) (st_matrix_values s) (st_services s) (st_uses s) (st_results s) (st_deployment_requests s) v (st_scope s) (st_guards s) (st_plugin_gate s) (st_environment_approval_gate s).
Definition set_environment_approval_gate v s := mkStep (st_id s) (st_image s) (st_gate s) (st_deployment s) (st_clone s) (st_forge_token s) (st_build s) (st_invoke s) (st_with s) (st_gate_after s) (st_gate_expires_after s) (st_artifacts s) (st_deploy s) (st_command s) (st_env s) (st_secrets s) (st_security s) (st_needs s) (st_inputs s) (st_outputs s) (st_cache s) (st_timeout s) (st_retry s) (st_matrix s) (st_when s) (st_placement_profiles s) (st_resources s) (st_k8s_overlay s) (st_matrix_values s) (st_services s) (st_uses s) (st_results s) (st_deployment_requests s) (st_origin s) (st_scope s) (st_guards s) (st_plugin_gate s) v.
Definition set_with v s := mkStep (st_id s) (st_image s) (st_gate s) (st_deployment s) (st_clone s) (st_forge_token s) (st_build s) (st_invoke s) v (st_gate_after s) (st_gate_expires_after s) (st_artifacts s) (st_deploy s) (st_command s) (st_env s) (st_secrets s) (st_security s) (st_needs s) (st_inputs s) (st_outputs s) (st_cache s) (st_timeout s) (st_retry s) (st_matrix s) (st_when s) (st_placement_profiles s) (st_resources s) (st_k8s_overlay s) (st_matrix_values s) (st_services s) (st_uses s) (st_results s) (st_deployment_requests s) (st_origin s) (st_scope s) (st_guards s) (st_plugin_gate s) (st_environment_approval_gate s).
Definition set_matrix v s := mkStep (st_id s) (st_image s) (st_gate s) (st_deployment s) (st_clone s) (st_forge_token s) (st_build s) (st_invoke s) (st_with s) (st_gate_after s) (st_gate_expires_after s) (st_artifacts s) (st_deploy s) (st_command s) (st_env s) (st_secrets s) (st_security s) (st_needs s) (st_inputs s) (st_outputs s) (st_cache s) (st_timeout s) (st_retry s) v (st_when s) (st_placement_profiles s) (st_resources s) (st_k8s_overlay s) (st_matrix_values s) (st_services s) (st_uses s) (st_results s) (st_deployment_requests s) (st_origin s) (st_scope s) (st_guards s) (st_plugin_gate s) (st_environment_approval_gate s).
Definition set_matrix_values v s := mkStep (st_id s) (st_image s) (st_gate s) (st_deployment s) (st_clone s) (st_forge_token s) (st_build s) (st_invoke s) (st_with s) (st_gate_after s) (st_gate_expires_after s) (st_artifacts s) (st_deploy s) (st_command s) (st_env s) (st_secrets s) (st_security s) (st_needs s) (st_inputs s) (st_outputs s) (st_cache s) (st_timeout s) (st_retry s) (st_matrix s) (st_when s) (st_placement_profiles s) (st_resources s) (st_k8s_overlay s) v (st_services s) (st_uses s) (st_results s) (st_deployment_requests s) (st_origin s) (st_scope s) (st_guards s) (st_plugin_gate s) (st_environment_approval_gate s).
Definition set_command v s := mkStep (st_id s) (st_image s) (st_gate s) (st_deployment s) (st_clone s) (st_forge_token s) (st_build s) (st_invoke s) (st_with s) (st_gate_after s) (st_gate_expires_after s) (st_artifacts s) (st_deploy s) v (st_env s) (st_secrets s) (st_security s) (st_needs s) (st_inputs s) (st_outputs s) (st_cache s) (st_timeout s) (st_retry s) (st_matrix s) (st_when s) (st_placement_profiles s) (st_resources s) (st_k8s_overlay s) (st_matrix_values s) (st_services s) (st_uses s) (st_results s) (st_deployment_requests s) (st_origin s) (st_scope s) (st_guards s) (st_plugin_gate s) (st_environment_approval_gate s).
Definition set_env v s := mkStep (st_id s) (st_image s) (st_gate s) (st_deployment s) (st_clone s) (st_forge_token s) (st_build s) (st_invoke s) (st_with s) (st_gate_after s) (st_gate_expires_after s) (st_artifacts s) (st_deploy s) (st_command s) v (st_secrets s) (st_security s) (st_needs s) (st_inputs s) (st_outputs s) (st_cache s) (st_timeout s) (st_retry s) (st_matrix s) (st_when s) (st_placement_profiles s) (st_resources s) (st_k8s_overlay s) (st_matrix_values s) (st_services s) (st_uses s) (st_results s) (st_deployment_requests s) (st_origin s) (st_scope s) (st_guards s) (st_plugin_gate s) (st_environment_approval_gate s).
Definition set_image v s := mkStep (st_id s) v (st_gate s) (st_deployment s) (st_clone s) (st_forge_token s) (st_build s) (st_invoke s) (st_with s) (st_gate_after s) (st_gate_expires_after s) (st_artifacts s) (st_deploy s) (st_command s) (st_env s) (st_secrets s) (st_security s) (st_needs s) (st_inputs s) (st_outputs s) (st_cache s) (st_timeout s) (st_retry s) (st_matrix s) (st_when s) (st_placement_profiles s) (st_resources s) (st_k8s_overlay s) (st_matrix_values s) (st_services s) (st_uses s) (st_results s) (st_deployment_requests s) (st_origin s) (st_scope s) (st_guards s) (st_plugin_gate s) (st_environment_approval_gate s).
Definition set_when v s := mkStep (st_id s) (st_image s) (st_gate s) (st_deployment s) (st_clone s) (st_forge_token s) (st_build s) (st_invoke s) (st_with s) (st_gate_after s) (st_gate_expires_after s) (st_artifacts s) (st_deploy s) (st_command s) (st_env s) (st_secrets s) (st_security s) (st_needs s) (st_inputs s) (st_outputs s) (st_cache s) (st_timeout s) (st_retry s) (st_matrix s) v (st_placement_profiles s) (st_resources s) (st_k8s_overlay s) (st_matrix_values s) (st_services s) (st_uses s) (st_results s) (st_deployment_requests s) (st_origin s) (st_scope s) (st_guards s) (st_plugin_gate s) (st_environment_approval_gate s).
Definition set_secrets v s := mkStep (st_id s) (st_image s) (st_gate s) (st_deployment s) (st_clone s) (st_forge_token s) (st_build s) (st_invoke s) (st_with s) (st_gate_after s) (st_gate_expires_after s) (st_artifacts s) (st_deploy s) (st_command s) (st_env s) v (st_security s) (st_needs s) (st_inputs s) (st_outputs s) (st_cache s) (st_timeout s) (st_retry s) (st_matrix s) (st_when s) (st_placement_profiles s) (st_resources s) (st_k8s_overlay s) (st_matrix_values s) (st_services s) (st_uses s) (st_results s) (st_deployment_requests s) (st_origin s) (st_scope s) (st_guards s) (st_plugin_gate s) (st_environment_approval_gate s).
Definition set_invoke v s := mkStep (st_id s) (st_image s) (st_gate s) (st_deployment s) (st_clone s) (st_forge_token s) (st_build s) v (st_with s) (st_gate_after s) (st_gate_expires_after s) (st_artifacts s) (st_deploy s) (st_command s) (st_env s) (st_secrets s) (st_security s) (st_needs s) (st_inputs s) (st_outputs s) (st_cache s) (st_timeout s) (st_retry s) (st_matrix s) (st_when s) (st_placement_profiles s) (st_resources s) (st_k8s_overlay s) (st_matrix_values s) (st_services s) (st_uses s) (st_results s) (st_deployment_requests s) (st_origin s) (st_scope s) (st_guards s) (st_plugin_gate s) (st_environment_approval_gate s).
Definition set_inputs v s := mkStep (st_id s) (st_image s) (st_gate s) (st_deployment s) (st_clone s) (st_forge_token s) (st_build s) (st_invoke s) (st_with s) (st_gate_after s) (st_gate_expires_after s) (st_artifacts s) (st_deploy s) (st_command s) (st_env s) (st_secrets s) (st_security s) (st_needs s) v (st_outputs s) (st_cache s) (st_timeout s) (st_retry s) (st_matrix s) (st_when s) (st_placement_profiles s) (st_resources s) (st_k8s_overlay s) (st_matrix_values s) (st_services s) (st_uses s) (st_results s) (st_deployment_requests s) (st_origin s) (st_scope s) (st_guards s) (st_plugin_gate s) (st_environment_approval_gate s).
Definition set_deploy v s := mkStep (st_id s) (st_image s) (st_gate s) (st_deployment s) (st_clone s) (st_forge_token s) (st_build s) (st_invoke s) (st_with s) (st_gate_after s) (st_gate_expires_after s) (st_artifacts s) v (st_command s) (st_env s) (st_secrets s) (st_security s) (st_needs s) (st_inputs s) (st_outputs s) (st_cache s) (st_timeout s) (st_retry s) (st_matrix s) (st_when s) (st_placement_profiles s) (st_resources s) (st_k8s_overlay s) (st_matrix_values s) (st_services s) (st_uses s) (st_results s) (st_deployment_requests s) (st_origin s) (st_scope s) (st_guards s) (st_plugin_gate s) (st_environment_approval_gate s).
Definition set_scope v s := mkStep (st_id s) (st_image s) (st_gate s) (st_deployment s) (st_clone s) (st_forge_token s) (st_build s) (st_invoke s) (st_with s) (st_gate_after s) (st_gate_expires_after s) (st_artifacts s) (st_deploy s) (st_command s) (st_env s) (st_secrets s) (st_security s) (st_needs s) (st_inputs s) (st_outputs s) (st_cache s) (st_timeout s) (st_retry s) (st_matrix s) (st_when s) (st_placement_profiles s) (st_resources s) (st_k8s_overlay s) (st_matrix_values s) (st_services s) (st_uses s) (st_results s) (st_deployment_requests s) (st_origin s) v (st_guards s) (st_plugin_gate s) (st_environment_approval_gate s).
Definition set_guards v s := mkStep (st_id s) (st_image s) (st_gate s) (st_deployment s) (st_clone s) (st_forge_token s) (st_build s) (st_invoke s) (st_with s) (st_gate_after s) (st_gate_expires_after s) (st_artifacts s) (st_deploy s) (st_command s) (st_env s) (st_secrets s) (st_security s) (st_needs s) (st_inputs s) (st_outputs s) (st_cache s) (st_timeout s) (st_retry s) (st_matrix s) (st_when s) (st_placement_profiles s) (st_resources s) (st_k8s_overlay s) (st_matrix_values s) (st_services s) (st_uses s) (st_results s) (st_deployment_requests s) (st_origin s) (st_scope s) v (st_plugin_gate s) (st_environment_approval_gate s).
Definition set_plugin_gate v s := mkStep (st_id s) (st_image s) (st_gate s) (st_deployment s) (st_clone s) (st_forge_token s) (st_build s) (st_invoke s) (st_with s) (st_gate_after s) (st_gate_expires_after s) (st_artifacts s) (st_deploy s) (st_command s) (st_env s) (st_secrets s) (st_security s) (st_needs s) (st_inputs s) (st_outputs s) (st_cache s) (st_timeout s) (st_retry s) (st_matrix s) (st_when s) (st_placement_profiles s) (st_resources s) (st_k8s_overlay s) (st_matrix_values s) (st_services s) (st_uses s) (st_results s) (st_deployment_requests s) (st_origin s) (st_scope s) (st_guards s) v (st_environment_approval_gate s).
Definition set_outputs v s := mkStep (st_id s) (st_image s) (st_gate s) (st_deployment s) (st_clone s) (st_forge_token s) (st_build s) (st_invoke s) (st_with s) (st_gate_after s) (st_gate_expires_after s) (st_artifacts s) (st_deploy s) (st_command s) (st_env s) (st_secrets s) (st_security s) (st_needs s) (st_inputs s) v (st_cache s) (st_timeout s) (st_retry s) (st_matrix s) (st_when s) (st_placement_profiles s) (st_resources s) (st_k8s_overlay s) (st_matrix_values s) (st_services s) (st_uses s) (st_results s) (st_deployment_requests s) (st_origin s) (st_scope s) (st_guards s) (st_plugin_gate s) (st_environment_approval_gate s).
Definition set_gate v s := mkStep (st_id s) (st_image s) v (st_deployment s) (st_clone s) (st_forge_token s) (st_build s) (st_invoke s) (st_with s) (st_gate_after s) (st_gate_expires_after s) (st_artifacts s) (st_deploy s) (st_command s) (st_env s) (st_secrets s) (st_security s) (st_needs s) (st_inputs s) (st_outputs s) (st_cache s) (st_timeout s) (st_retry s) (st_matrix s) (st_when s) (st_placement_profiles s) (st_resources s) (st_k8s_overlay s) (st_matrix_values s) (st_services s) (st_uses s) (st_results s) (st_deployment_requests s) (st_origin s) (st_scope s) (st_guards s) (st_plugin_gate s) (st_environment_approval_gate s).
Definition set_results v s := mkStep (st_id s) (st_image s) (st_gate s) (st_deployment s) (st_clone s) (st_forge_token s) (st_build s) (st_invoke s) (st_with s) (st_gate_after s) (st_gate_expires_after s) (st_artifacts s) (st_deploy s) (st_command s) (st_env s) (st_secrets s) (st_security s) (st_needs s) (st_inputs s) (st_outputs s) (st_cache s) (st_timeout s) (st_retry s) (st_matrix s) (st_when s) (st_placement_profiles s) (st_resources s) (st_k8s_overlay s) (st_matrix_values s) (st_services s) (st_uses s) v (st_deployment_requests s) (st_origin s) (st_scope s) (st_guards s) (st_plugin_gate s) (st_environment_approval_gate s).

Record PipelineIr := mkIr {
  ir_version : N;
  ir_kind : option PipelineKind;
  ir_name : option string;
  ir_triggers : gmap string TriggerFilter;
  ir_concurrency : option Concurrency;
  ir_environment : option string;
  ir_deploy : bool;
  ir_retention_profile : option string;
  ir_interface : Interface;
  ir_budget : option N;
  ir_services : list SharedServiceSpec;
  ir_steps : list StepSpec;
}.
Definition set_steps (l : list StepSpec) (ir : PipelineIr) : PipelineIr :=
  mkIr (ir_version ir) (ir_kind ir) (ir_name ir) (ir_triggers ir) (ir_concurrency ir) (ir_environment ir) (ir_deploy ir)
    (ir_retention_profile ir) (ir_interface ir) (ir_budget ir) (ir_services ir) l.
(** A Pipeline of these Steps and nothing else. *)
Definition pipeline_of (l : list StepSpec) : PipelineIr :=
  mkIr 1 None None ∅ None None false None interface_empty None [] l.

(** ** What is read off it *)

Definition is_deploy (ir : PipelineIr) : bool := ir_deploy ir || existsb st_deploy (ir_steps ir).
Definition deploy_steps (ir : PipelineIr) : list string := map st_id (filter (fun s => st_deploy s = true) (ir_steps ir)).

Definition is_gate (s : StepSpec) : bool := is_some (st_gate s).
Definition is_build (s : StepSpec) : bool := is_some (st_build s).
Definition is_invoke (s : StepSpec) : bool := is_some (st_invoke s).
Definition is_manual_gate (s : StepSpec) : bool := bool_decide (st_gate s = Some "manual").
Definition counts_as_environment_approval_gate (s : StepSpec) : bool :=
  is_manual_gate s && bool_decide (st_environment_approval_gate s <> Some false).

Definition SCARAB_SET_ENV : list string :=
  ["SCARAB_RUN"; "SCARAB_STEP"; "SCARAB_ATTEMPT"; "SCARAB_RESULTS"; "SCARAB_RESULTS_URL"; "SCARAB_RESULTS_TOKEN";
   "SCARAB_ARTIFACTS"; "SCARAB_OIDC_TOKEN_FILE"; "SCARAB_CACHE_ROOTS"; "SCARAB_SECRETS"].
Definition SCARAB_SET_ENV_PREFIXES : list string := ["SCARAB_PARAM_"; "SCARAB_WORKSPACE_"; "SCARAB_SNAPSHOT_"].
Definition scarab_sets_env (name : string) : bool :=
  bool_decide (name ∈ SCARAB_SET_ENV) || existsb (fun p => starts_with p name) SCARAB_SET_ENV_PREFIXES.
Definition templated_env_name_ok (name : string) : bool :=
  starts_with "SCARAB_" name &&
  let rest := drop_str 7 name in
  negb (String.eqb rest "") && all_bytes (fun b => is_upper b || is_digit b || Ascii.eqb b "_") rest.

Definition RESERVED_SECRET_FILES : list string := ["forge-token"; "forge-username"].
Definition is_secret_file_name (name : string) : bool :=
  negb (String.eqb name "") && (String.length name <=? 253) && negb (starts_with "." name)
  && all_bytes (fun b => is_alphanumeric b || has_char b "-_.") name.
Definition is_env_var_name (name : string) : bool :=
  match name with
  | EmptyString => false
  | String b r => (is_lower b || is_upper b || Ascii.eqb b "_") && all_bytes (fun b => is_alphanumeric b || Ascii.eqb b "_") r
  end.

(** ** Operator profiles *)

Section Profiles.
Context {P : Type} (profile_name : P -> string) (is_default : P -> bool).
Definition profile_named (registry : list P) (name : string) : option P :=
  List.find (fun p => String.eqb (profile_name p) name) registry.
Definition default_profile (registry : list P) : option P := List.find is_default registry.
Fixpoint check_profiles (kind : string) (seen : list string) (registry : list P) : Result string unit :=
  match registry with
  | [] => Ok tt
  | p :: l =>
      if String.eqb (trim (profile_name p)) "" then Err (kind +:+ " registry contains an empty profile name")
      else if bool_decide (profile_name p ∈ seen)
      then Err (kind +:+ " registry names `" +:+ profile_name p +:+ "` more than once")
      else check_profiles kind (profile_name p :: seen) l
  end.
Definition validate_profile_registry (registry : list P) (kind : string) : Result string unit :=
  _ ← check_profiles kind [] registry;
  let defaults := length (filter (fun p => is_default p = true) registry) in
  if 1 <? defaults
  then Err (kind +:+ " registry marks " +:+ pretty defaults +:+ " profiles as `default` — at most one")
  else Ok tt.
End Profiles.

(** ** Triggers and guards *)

Definition upstream_follows (filter : TriggerFilter) : option (string * list string) :=
  match tf_pipeline filter with
  | None => None
  | Some p =>
      let pipeline := trim p in
      if String.eqb pipeline "" then None
      else Some (pipeline, if is_nil (tf_status filter) then ["succeeded"] else map trim (tf_status filter))
  end.
Definition cron_schedules (ir : PipelineIr) : list string := from_option tf_schedule [] (ir_triggers ir !! "cron").

Section WithPorts.
Context {C : Cel} {F : Floats} {T : CharTables}.

Definition event_str (ctx : Json) (field : string) : option string :=
  match json_get ctx "event" with
  | Some e => match json_get e field with Some v => json_as_str v | None => None end
  | None => None
  end.

Definition matches_trigger (ir : PipelineIr) (kind : string) (ctx : Json) : Result PipelineError bool :=
  match ir_triggers ir !! kind with
  | None => Ok false
  | Some filter =>
      let follows :=
        if String.eqb kind "upstream" then
          match upstream_follows filter with
          | None => false
          | Some (pipeline, statuses) =>
              bool_decide (event_str ctx "pipeline" = Some pipeline) &&
              match event_str ctx "status" with Some s => bool_decide (s ∈ statuses) | None => false end
          end
        else true in
      if negb follows then Ok false
      else match tf_when filter with None => Ok true | Some expr => eval_bool expr ctx end
  end.

(** Whether every guard holds, outermost first; [ctx] is the trigger context. *)
Fixpoint guards_hold_each (s : StepSpec) (guards : list Guard) (ctx : Json) (params : gmap string Json) : Result PipelineError bool :=
  match guards with
  | [] => Ok true
  | g :: l =>
      match st_scope s ≫= fun sc => scope_at sc (gd_caller_hops g) with
      | None => Err (PeCel ("step `" +:+ st_id s +:+ "`: a `when:` has no scope to be read in"))
      | Some scope =>
          match (match sc_inputs scope with
                 | SiRun => eval_bool (gd_when g) ctx
                 | SiBound _ => map_err (fun e => PeCel ("step `" +:+ st_id s +:+ "`: " +:+ show_pipeline_error e))
                                  (guard_holds (gd_when g) scope params)
                 end) with
          | Ok true => guards_hold_each s l ctx params
          | Ok false => Ok false
          | Err e => Err e
          end
      end
  end.
Definition guards_hold (s : StepSpec) (ctx : Json) (params : gmap string Json) : Result PipelineError bool :=
  guards_hold_each s (reverse (st_guards s)) ctx params.

Definition included (s : StepSpec) (ctx : Json) (params : gmap string Json) : Result PipelineError bool :=
  if is_nil (st_origin s)
  then match st_when s with Some expr => eval_bool expr ctx | None => Ok true end
  else guards_hold s ctx params.
Fixpoint excluded_among (steps : list StepSpec) (ctx : Json) (params : gmap string Json) : Result PipelineError (list string) :=
  match steps with
  | [] => Ok []
  | s :: l =>
      match included s ctx params with
      | Err e => Err e
      | Ok include =>
          rest ← excluded_among l ctx params;
          Ok (if include then rest else st_id s :: rest)
      end
  end.
Definition excluded_steps_with_params (ir : PipelineIr) (ctx : Json) (params : gmap string Json) : Result PipelineError (list string) :=
  excluded_among (ir_steps ir) ctx params.
Definition excluded_steps (ir : PipelineIr) (ctx : Json) : Result PipelineError (list string) :=
  excluded_steps_with_params ir ctx ∅.
End WithPorts.

(** ** The search for a dependency cycle *)

Record Kahn := mkKahn { kn_queue : list string; kn_indegree : gmap string nat; kn_removed : nat }.

(** [indegree.get_mut(..).unwrap() += 1] for each need of each Step. *)
Definition indegree0 (steps : list StepSpec) : gmap string nat :=
  foldl (fun m s => foldl (fun m (_ : string) => alter S (st_id s) m) m (st_needs s))
    (list_to_map (map (fun s => (st_id s, 0)) steps)) steps.
(** The Steps that need [node], once per mention. *)
Definition dependents (steps : list StepSpec) (node : string) : list string :=
  flat_map (fun s => map (fun _ => st_id s) (filter (fun n => n = node) (st_needs s))) steps.
Definition of_degree (p : nat -> bool) (m : gmap string nat) : list string :=
  omap (fun kv => if p kv.2 then Some kv.1 else None) (btree_list m).

(** The queue is popped at the end it is pushed on. *)
Definition kahn_start (steps : list StepSpec) : Kahn :=
  mkKahn (reverse (of_degree (Nat.eqb 0) (indegree0 steps))) (indegree0 steps) 0.
Fixpoint kahn (fuel : nat) (steps : list StepSpec) (k : Kahn) : Kahn :=
  match fuel, kn_queue k with
  | S fuel', node :: queue =>
      let '(m, q) := foldl relax (kn_indegree k, queue) (dependents steps node) in
      kahn fuel' steps (mkKahn q m (S (kn_removed k)))
  | _, _ => k
  end.
Definition find_cycle (steps : list StepSpec) : option (list string) :=
  let k := kahn (S (length steps)) steps (kahn_start steps) in
  if kn_removed k =? length steps then None
  else Some (of_degree (Nat.ltb 0) (kn_indegree k)).

(** ** What a cycle-free Pipeline is *)

Definition ids (steps : list StepSpec) : list string := map st_id steps.
Definition needs_of (steps : list StepSpec) (id : string) : list string :=
  from_option st_needs [] (List.find (fun s => String.eqb (st_id s) id) steps).

(** The latest first: everything a Step needs comes before it. *)
Definition in_order (steps : list StepSpec) : list string -> Prop := topological (needs_of steps).

Section FindCycle.
Context (steps : list StepSpec).
Hypothesis Hids : NoDup (ids steps).
Hypothesis Hneeds : forall s n, s ∈ steps -> n ∈ st_needs s -> n ∈ ids steps.

Lemma needs_of_step s : s ∈ steps -> needs_of steps (st_id s) = st_needs s.
Proof.
  unfold needs_of. clear Hneeds. unfold ids in Hids. induction steps as [|s' l IH]; intros Hs; [by apply not_elem_of_nil in Hs|].
  cbn in Hids. apply NoDup_cons in Hids as [Hn Hl]. cbn [List.find].
  destruct (String.eqb_spec (st_id s') (st_id s)) as [E|E].
  - apply elem_of_cons in Hs as [->|Hs]; [done|]. exfalso. apply Hn. rewrite E. by apply list_elem_of_fmap_2.
  - apply elem_of_cons in Hs as [->|Hs]; [done|]. by apply IH.
Qed.
Lemma elem_of_ids x : x ∈ ids steps <-> exists s, s ∈ steps /\ st_id s = x.
Proof. unfold ids. rewrite list_elem_of_fmap. naive_solver. Qed.

Lemma occurs_dependents node l x :
  NoDup (ids l) ->
  occurs x (flat_map (fun s => map (fun _ => st_id s) (filter (fun n => n = node) (st_needs s))) l)
  = occurs node (from_option st_needs [] (List.find (fun s => String.eqb (st_id s) x) l)).
Proof.
  assert (forall (y : string) (k : list string), occurs x (map (fun _ => y) k) = if decide (y = x) then length k else 0) as Hmap.
  { intros y k. induction k as [|z k IH]; [by destruct (decide (y = x))|]. cbn [map]. rewrite occurs_cons, IH.
    by destruct (decide (y = x)). }
  induction l as [|s l IH]; intros Hn; [done|]. cbn in Hn. apply NoDup_cons in Hn as [Hs Hn].
  cbn [flat_map List.find]. rewrite occurs_app, Hmap, IH by done.
  destruct (String.eqb_spec (st_id s) x) as [<-|E].
  - rewrite decide_True by done. cbn [from_option].
    assert (List.find (fun s' => String.eqb (st_id s') (st_id s)) l = None) as ->; [|unfold occurs; cbn; lia].
    destruct (List.find _ l) as [s'|] eqn:Ef; [|done]. apply find_some in Ef as [Hin He%String.eqb_eq].
    exfalso. apply Hs. rewrite <- He. apply list_elem_of_fmap_2. by apply list_elem_of_In.
  - by rewrite decide_False.
Qed.

Lemma indegree0_spec x : indegree0 steps !! x = if decide (x ∈ ids steps) then Some (length (needs_of steps x)) else None.
Proof.
  unfold indegree0. set (m0 := list_to_map _).
  assert (forall k (m : gmap string nat) i, foldl (fun m (_ : string) => alter S i m) m k !! x
            = if decide (i = x) then (fun d => length k + d) <$> m !! x else m !! x) as Hin.
  { induction k as [|n k IH]; intros m i; cbn [foldl length].
    - destruct (decide (i = x)); [|done]. by destruct (m !! x).
    - rewrite IH. destruct (decide (i = x)) as [->|].
      + rewrite lookup_alter_eq. destruct (m !! x); [|done]. cbn. f_equal. lia.
      + by rewrite lookup_alter_ne. }
  assert (forall l (m : gmap string nat), NoDup (ids l) -> foldl (fun m s => foldl (fun m (_ : string) => alter S (st_id s) m) m (st_needs s)) m l !! x
            = (fun d => length (from_option st_needs [] (List.find (fun s => String.eqb (st_id s) x) l)) + d) <$> m !! x) as Hout.
  { induction l as [|s l IH]; intros m Hn; cbn [foldl List.find].
    - by destruct (m !! x).
    - cbn in Hn. apply NoDup_cons in Hn as [Hs Hn]. rewrite IH, Hin by done.
      destruct (String.eqb_spec (st_id s) x) as [E|E].
      + rewrite decide_True by done. destruct (List.find _ l) as [s'|] eqn:Ef.
        * apply find_some in Ef as [Hi He%String.eqb_eq]. exfalso. apply Hs. rewrite E, <- He.
          apply list_elem_of_fmap_2. by apply list_elem_of_In.
        * by destruct (m !! x).
      + by rewrite decide_False. }
  rewrite Hout by done. fold (needs_of steps x).
  assert (m0 !! x = if decide (x ∈ ids steps) then Some 0 else None) as ->; [|case_decide; cbn; [f_equal; lia|done]].
  unfold m0, ids. clear. induction steps as [|s l IH]; [done|]. cbn [map list_to_map].
  cbn. destruct (decide (st_id s = x)) as [->|E].
  - rewrite lookup_insert_eq, decide_True by left. done.
  - rewrite lookup_insert_ne by done. rewrite IH. destruct (decide (x ∈ map st_id l)) as [Hx|Hx].
    + by rewrite decide_True by (by right).
    + rewrite decide_False; [done|]. rewrite elem_of_cons. naive_solver.
Qed.

Lemma elem_of_degree p m x : x ∈ of_degree p m <-> exists d, m !! x = Some d /\ p d = true.
Proof.
  unfold of_degree. rewrite list_elem_of_omap. split.
  - intros ([k d] & Hk & H). cbn in H. destruct (p d) eqn:E; [|done]. injection H as ->.
    apply elem_of_btree_list in Hk. by exists d.
  - intros (d & Hd & Hp). exists (x, d). split; [by apply elem_of_btree_list|]. cbn. by rewrite Hp.
Qed.
Lemma of_degree_nodup p m : NoDup (of_degree p m).
Proof.
  unfold of_degree. pose proof (btree_list_nodup m) as H.
  induction (btree_list m) as [|[k d] l IH]; [constructor|]. cbn in *. apply NoDup_cons in H as [Hk H].
  destruct (p d); [|by apply IH]. apply NoDup_cons. split; [|by apply IH].
  intros ([k' d'] & Hin & E)%list_elem_of_omap. cbn in E. destruct (p d'); [|done]. injection E as ->.
  apply Hk. apply list_elem_of_fmap. by exists (k, d').
Qed.

Lemma gmap_insert_look (m : gmap string nat) x d e y :
  m !! x = Some d -> <[x := e]> m !! y = if decide (x = y) then Some e else m !! y.
Proof. intros _. case_decide as H; [subst; by rewrite lookup_insert_eq|by rewrite lookup_insert_ne]. Qed.
Lemma needs_stranger x : x ∉ ids steps -> needs_of steps x = [].
Proof.
  intros Hx. unfold needs_of. destruct (List.find _ steps) as [s|] eqn:Ef; [|done].
  apply find_some in Ef as [Hs%list_elem_of_In He%String.eqb_eq]. destruct Hx. apply elem_of_ids. by exists s.
Qed.

(** The loop's invariant: which Steps were removed, latest first. *)
Definition kahn_inv (k : Kahn) (removed : list string) : Prop :=
  removal_inv (ids steps) (needs_of steps) (kn_queue k) (kn_indegree k) removed /\ kn_removed k = length removed.

Lemma kahn_start_inv : kahn_inv (kahn_start steps) [].
Proof.
  split; [|done]. apply removal_start.
  - cbn. rewrite reverse_Permutation. apply of_degree_nodup.
  - intros x. cbn. rewrite elem_of_reverse, elem_of_degree. setoid_rewrite indegree0_spec. case_decide as Hx; split.
    + intros (d & [= <-] & E). split; [done|]. by destruct (length _).
    + intros [_ E]. exists (length (needs_of steps x)). split; [done|]. by rewrite E.
    + by intros (d & ? & _).
    + by intros [? _].
  - apply indegree0_spec.
Qed.

Lemma kahn_drains fuel k removed :
  kahn_inv k removed -> length (ids steps) < fuel + length removed ->
  exists removed', kahn_inv (kahn fuel steps k) removed' /\ kn_queue (kahn fuel steps k) = [].
Proof.
  revert k removed; induction fuel as [|fuel IH]; intros k removed HI Hf.
  { pose proof (removed_length _ _ _ _ _ (proj1 HI)). lia. }
  destruct k as [[|node queue] m n]; [by exists removed|]. cbn [kahn kn_queue kn_indegree kn_removed].
  destruct (foldl relax (m, queue) (dependents steps node)) as [m' q'] eqn:E.
  apply (IH _ (node :: removed)); [|cbn; lia]. destruct HI as [HI Hc]. cbn in HI, Hc. split; [|cbn; by rewrite Hc].
  eapply (removal_turn gmap_insert_look); [apply needs_stranger| |exact HI|exact E].
  intros node' x. by apply occurs_dependents.
Qed.

Lemma find_cycle_stop : exists k removed,
  kahn_inv k removed /\ kn_queue k = [] /\
  find_cycle steps = if length removed =? length steps then None else Some (of_degree (Nat.ltb 0) (kn_indegree k)).
Proof.
  destruct (kahn_drains (S (length steps)) _ _ kahn_start_inv) as (removed & HI & Hq).
  { unfold ids. rewrite length_map. cbn. lia. }
  exists (kahn (S (length steps)) steps (kahn_start steps)), removed. split; [done|]. split; [done|].
  unfold find_cycle. by rewrite (proj2 HI).
Qed.

(** No cycle is reported exactly when the Steps can be put in an order in which
    each comes after everything it needs. *)
Lemma find_cycle_none_iff : find_cycle steps = None <-> exists order, order ≡ₚ ids steps /\ in_order steps order.
Proof.
  destruct find_cycle_stop as (k & removed & [HI _] & Hq & ->).
  assert (length steps = length (ids steps)) as Hl by (unfold ids; by rewrite length_map).
  rewrite Hq in HI. pose proof HI as [K2 K3 _ _ _ K7]. cbn [app] in *.
  destruct (Nat.eqb_spec (length removed) (length steps)) as [E|E]; split; try done.
  - intros _. exists removed. split; [|done].
    apply submseteq_length_Permutation; [by apply NoDup_submseteq|lia].
  - intros (order & Hperm & Ho). exfalso. apply E.
    assert (length (ids steps) <= length removed); [|pose proof (removed_length _ _ _ _ _ HI); lia].
    apply submseteq_length, NoDup_submseteq; [done|]. intros x Hx.
    apply (drained_order _ _ _ _ order HI Ho); [intros y; by rewrite Hperm|by rewrite Hperm].
Qed.

(** The Steps reported: each needs another of them. *)
Lemma find_cycle_some l :
  find_cycle steps = Some l -> l <> [] /\ forall x, x ∈ l -> x ∈ ids steps /\ exists n, n ∈ needs_of steps x /\ n ∈ l.
Proof.
  destruct find_cycle_stop as (k & removed & [HI _] & Hq & ->).
  rewrite Hq in HI. pose proof HI as [K2 K3 K4 K5 _ K7]. cbn [app] in *.
  destruct (Nat.eqb_spec (length removed) (length steps)) as [E|E]; [done|]. intros [= <-].
  assert (forall x, x ∈ of_degree (Nat.ltb 0) (kn_indegree k) <-> x ∈ ids steps /\ x ∉ removed) as Hin.
  { intros x. rewrite elem_of_degree. setoid_rewrite K4. case_decide as Hx.
    - split.
      + intros (d & [= <-] & Hd%Nat.ltb_lt). split; [done|]. intros Hr.
        assert (waiting (needs_of steps) x removed = 0); [|lia]. apply waiting_zero. intros n Hn. by eapply topological_closed.
      + intros [_ Hr]. exists (waiting (needs_of steps) x removed). split; [done|]. apply Nat.ltb_lt.
        destruct (waiting (needs_of steps) x removed) eqn:Ew; [|lia]. by destruct (Hr (K5 x Hx Ew)).
    - split; [by intros (d & ? & _)|by intros [? _]]. }
  split.
  - intros Hnil. apply E. pose proof (removed_length _ _ _ _ _ HI) as Hle.
    assert (length steps = length (ids steps)) as Hl by (unfold ids; by rewrite length_map).
    assert (length (ids steps) <= length removed); [|lia]. apply submseteq_length, NoDup_submseteq; [done|].
    intros x Hx. destruct (decide (x ∈ removed)) as [|Hr]; [done|].
    exfalso. apply (not_elem_of_nil x). rewrite <- Hnil. by apply Hin.
  - intros x [Hx Hr]%Hin. split; [done|].
    destruct (decide (Forall (fun n => n ∈ removed) (needs_of steps x))) as [Hall|Hnot].
    + exfalso. apply Hr. apply K5; [done|]. apply waiting_zero. by apply Forall_forall.
    + apply not_Forall_Exists in Hnot; [|apply _]. apply Exists_exists in Hnot as (n & Hn & Hnr). exists n.
      split; [done|]. apply Hin. split; [|done]. apply elem_of_ids in Hx as (s & Hs & <-).
      rewrite needs_of_step in Hn by done. by apply (Hneeds s).
Qed.
End FindCycle.

(** ** Theorems *)

(** The compiler's cycle search is exact. On Steps with distinct ids that
    need only each other it reports nothing exactly when the Steps can be put in
    an order in which each comes after everything it needs; and each Step it
    does report needs another one it reports, so no such order can run any of
    them. *)
Theorem find_cycle_exact steps
    (Hids : NoDup (ids steps))
    (Hneeds : forall s n, s ∈ steps -> n ∈ st_needs s -> n ∈ ids steps) :
  (find_cycle steps = None <-> exists order, order ≡ₚ ids steps /\ in_order steps order) /\
  (forall l, find_cycle steps = Some l ->
     l <> [] /\ forall x, x ∈ l -> x ∈ ids steps /\ exists n, n ∈ needs_of steps x /\ n ∈ l).
Proof. split; [by apply find_cycle_none_iff|intros l; by apply find_cycle_some]. Qed.

Definition needing (id : string) (needs : list string) : StepSpec := set_needs needs (plain_step id "alpine").
Lemma find_cycle_exact_witness :
  let steps := [needing "deploy" ["test"; "lint"]; needing "build" []; needing "test" ["build"]; needing "lint" ["deploy"; "build"]] in
  find_cycle steps = Some ["deploy"; "lint"] /\
  exists n, n ∈ needs_of steps "lint" /\ n ∈ ["deploy"; "lint"].
Proof.
  intros steps. assert (find_cycle steps = Some ["deploy"; "lint"]) as E by (vm_compute; reflexivity).
  split; [exact E|].
  destruct (find_cycle_exact steps) as [_ H].
  - apply (bool_decide_unpack _). vm_compute. exact I.
  - assert (Forall (fun s => Forall (fun n => n ∈ ids steps) (st_needs s)) steps) as Hf
      by (apply (bool_decide_unpack _); vm_compute; exact I).
    intros s n Hs Hn. rewrite Forall_forall in Hf. specialize (Hf s Hs). rewrite Forall_forall in Hf. by apply Hf.
  - destruct (H _ E) as [_ Hl]. destruct (Hl "lint") as [_ Hn]; [right; left|exact Hn].
Defined.
