(* ===== verification/Approvals.v ===== *)
(** * The Environment approval gate (scarab-policy/src/approval_gate.rs)

    Which Steps of a Pipeline use the Environment's authority, which of them
    have no manual gate upstream, and the one gate the Environment adds in
    front of the earliest of those. *)

From S2P Require Import Prelude Graph Text Values Cel Params Scopes Render Ir.

(** ** Walks over the dependency graph *)

(** [while let Some(id) = stack.pop() { if seen.insert(id) { .. } }]: the top of
    the stack is the head of the list. *)
Fixpoint walk (next : string -> list string) (fuel : nat) (stack : list string) (seen : gset string) : gset string :=
  match fuel, stack with
  | S fuel', id :: stack' =>
      if decide (id ∈ seen) then walk next fuel' stack' seen
      else walk next fuel' (reverse (next id) ++ stack') ({[id]} ∪ seen)
  | _, _ => seen
  end.

(** The number of needs, which bounds every walk. *)
Definition edges (ir : PipelineIr) : nat := foldr (fun s n => length (st_needs s) + n) 0 (ir_steps ir).

(** The Steps by id, the last of one id winning. *)
Definition by_id (ir : PipelineIr) (id : string) : option StepSpec :=
  List.find (fun s => String.eqb (st_id s) id) (reverse (ir_steps ir)).
Definition upstream_of (ir : PipelineIr) (id : string) : list string := from_option st_needs [] (by_id ir id).
(** The Steps that need [id], once per mention. *)
Definition needed_by (ir : PipelineIr) (id : string) : list string := dependents (ir_steps ir) id.

Fixpoint gate_walk (ir : PipelineIr) (fuel : nat) (stack : list string) (seen : gset string) : bool :=
  match fuel, stack with
  | S fuel', id :: stack' =>
      if decide (id ∈ seen) then gate_walk ir fuel' stack' seen
      else match by_id ir id with
           | None => gate_walk ir fuel' stack' ({[id]} ∪ seen)
           | Some s => if is_manual_gate s then true
                       else gate_walk ir fuel' (reverse (st_needs s) ++ stack') ({[id]} ∪ seen)
           end
  | _, _ => false
  end.
Definition manual_gate_upstream (ir : PipelineIr) (step : string) : bool :=
  gate_walk ir (S (edges ir + edges ir)) (reverse (upstream_of ir step)) ∅.
Definition upstream (ir : PipelineIr) (step : string) : gset string :=
  walk (upstream_of ir) (S (edges ir + edges ir)) (reverse (upstream_of ir step)) ∅.
Definition downstream (ir : PipelineIr) (step : string) : gset string :=
  walk (needed_by ir) (S (edges ir + edges ir)) (reverse (needed_by ir step)) ∅.

(** The approval gates upstream of a Step, in Pipeline order. *)
Definition upstream_approval_gates (ir : PipelineIr) (step : string) : list StepSpec :=
  let seen := upstream ir step in
  filter (fun s => counts_as_environment_approval_gate s = true) (filter (fun s => st_id s ∈ seen) (ir_steps ir)).

(** ** Authority (run_create.rs) *)

Definition uses_environment_authority (ir : PipelineIr) (s : StepSpec) : bool :=
  if is_gate s then false
  else negb (is_nil (st_secrets s))
       || match st_security s with Some se => se_privileged se || negb (is_nil (se_add_capabilities se)) | None => false end
       || is_some (st_k8s_overlay s)
       || st_deploy s
       || ir_deploy ir
       || bool_decide (st_forge_token s = Some FtWrite).

Record PluginGate := mkPluginGateRef { pr_gate : string; pr_plugin : string }.
Definition plugin_gates (ir : PipelineIr) : list PluginGate :=
  flat_map (fun s => map (fun o => mkPluginGateRef (st_id s) (og_name o)) (filter (fun o => og_kind o = OkPlugin) (st_origin s)))
    (filter (fun s => is_gate s = true) (ir_steps ir)).

(** ** Which gates are approval gates, which Steps lack one *)

Definition environment_approval_gates (ir : PipelineIr) : list string :=
  map st_id (filter (fun g =>
    existsb (fun d => match by_id ir d with Some s => uses_environment_authority ir s | None => false end)
            (elements (downstream ir (st_id g))) = true)
    (filter (fun g => is_manual_gate g = true) (ir_steps ir))).
Definition mark_environment_approval_gates (ir : PipelineIr) : PipelineIr :=
  let approval := environment_approval_gates ir in
  set_steps (map (fun s => if is_manual_gate s
                           then set_environment_approval_gate (Some (bool_decide (st_id s ∈ approval))) s else s) (ir_steps ir)) ir.

(** The Steps that never start. *)
Definition dead_steps (ir : PipelineIr) (excluded : list string) : gset string :=
  foldl (fun dead s => {[st_id s]} ∪ downstream ir (st_id s) ∪ dead) ∅ (filter (fun s => st_id s ∈ excluded) (ir_steps ir)).

Definition steps_missing_approval_gate (ir : PipelineIr) (excluded : list string) : list string :=
  let dead := dead_steps ir excluded in
  map st_id (filter (fun s => manual_gate_upstream ir (st_id s) = false)
    (filter (fun s => st_id s ∉ dead) (filter (fun s => uses_environment_authority ir s = true) (ir_steps ir)))).

Definition ADDED_GATE_ID : string := "environment-approval".
Definition taken (ir : PipelineIr) (id : string) : bool := existsb (fun s => String.eqb (st_id s) id) (ir_steps ir).
Fixpoint free_suffix (ir : PipelineIr) (fuel : nat) (n : N) : string :=
  let id := ADDED_GATE_ID +:+ "-" +:+ pretty n in
  match fuel with
  | 0 => id
  | S fuel' => if taken ir id then free_suffix ir fuel' (n + 1) else id
  end.
Definition added_gate_id (ir : PipelineIr) : string :=
  if taken ir ADDED_GATE_ID then free_suffix ir (length (ir_steps ir)) 2 else ADDED_GATE_ID.

Record AddedGate := mkAdded { ad_id : string; ad_fronts : list string }.

Definition push_all (acc l : list string) : list string :=
  foldl (fun acc n => if bool_decide (n ∈ acc) then acc else acc ++ [n]) acc l.
Fixpoint position {A} (p : A -> bool) (l : list A) : option nat :=
  match l with
  | [] => None
  | x :: l' => if p x then Some 0 else S <$> position p l'
  end.
Definition insert_at {A} (n : nat) (x : A) (l : list A) : list A := take n l ++ x :: drop n l.

Definition added_gate (id environment : string) (expires_after : option N) (needs : list string) : StepSpec :=
  set_environment_approval_gate (Some true)
    (set_origin [mkOrigin OkEnvironment environment None ""]
      (set_needs needs (set_gate_expires_after expires_after (bare_gate id "manual")))).

(** The Steps the gate goes in front of, and what it needs. *)
Definition gate_fronts (ir : PipelineIr) (missing : list string) : list string :=
  let behind_another := filter (fun d => d ∈ missing) (flat_map (fun m => elements (downstream ir m)) missing) in
  filter (fun m => m ∉ behind_another) missing.
Definition gate_needs (ir : PipelineIr) (fronts : list string) : list string :=
  foldl (fun acc s => push_all acc (st_needs s)) [] (filter (fun s => st_id s ∈ fronts) (ir_steps ir)).

Definition add_environment_approval_gate (ir : PipelineIr) (environment : string) (expires_after : option N)
    (excluded : list string) : PipelineIr * option AddedGate :=
  let missing := steps_missing_approval_gate ir excluded in
  if is_nil missing then (ir, None)
  else
    let fronts := gate_fronts ir missing in
    let needs := gate_needs ir fronts in
    let id := added_gate_id ir in
    let at_ := default (length (ir_steps ir)) (position (fun s => bool_decide (st_id s ∈ fronts)) (ir_steps ir)) in
    let steps := map (fun s => if bool_decide (st_id s ∈ fronts) then set_needs (st_needs s ++ [id]) s else s) (ir_steps ir) in
    (set_steps (insert_at at_ (added_gate id environment expires_after needs) steps) ir, Some (mkAdded id fronts)).

(** ** Reachability *)

(** Nodes met from [start] by following [next]. *)
Inductive reach (next : string -> list string) (start : list string) : string -> Prop :=
| reach_start x : x ∈ start -> reach next start x
| reach_next x y : reach next start x -> y ∈ next x -> reach next start y.

Section Walk.
Context (next : string -> list string).
(** The nodes something follows, and how many edges that is. *)
Context (nodes : list string).
Hypothesis Hnodes : forall x, x ∉ nodes -> next x = [].

Definition out_degree (seen : gset string) : nat :=
  foldr (fun x n => (if decide (x ∈ seen) then 0 else length (next x)) + n) 0 nodes.

Lemma out_degree_seen x seen :
  x ∉ seen -> length (next x) + out_degree ({[x]} ∪ seen) <= out_degree seen.
Proof.
  intros Hx. destruct (decide (x ∈ nodes)) as [Hin|Hin].
  - assert (forall l : list string, foldr (fun y n => (if decide (y ∈ {[x]} ∪ seen) then 0 else length (next y)) + n) 0 l
            <= foldr (fun y n => (if decide (y ∈ seen) then 0 else length (next y)) + n) 0 l) as Hle.
    { induction l as [|y l IH]; cbn [foldr]; [done|]. repeat case_decide; try lia; set_solver. }
    unfold out_degree. clear Hnodes. induction nodes as [|y l IH]; [by apply not_elem_of_nil in Hin|]. cbn [foldr].
    destruct (decide (y = x)) as [->|Hne].
    + rewrite (decide_True (P := x ∈ {[x]} ∪ seen)) by set_solver. rewrite (decide_False (P := x ∈ seen)) by done.
      specialize (Hle l). lia.
    + assert (x ∈ l) as Hl by (apply elem_of_cons in Hin as [->|?]; done). clear Hin.
      assert (length (next x) + foldr (fun y n => (if decide (y ∈ {[x]} ∪ seen) then 0 else length (next y)) + n) 0 l
              <= foldr (fun y n => (if decide (y ∈ seen) then 0 else length (next y)) + n) 0 l) as H by (by apply IH).
      repeat case_decide; try lia; set_solver.
  - rewrite (Hnodes x Hin). cbn. unfold out_degree. clear. induction nodes as [|y l IH]; cbn [foldr]; [done|].
    repeat case_decide; try lia; set_solver.
Qed.

(** With fuel enough the walk meets exactly what can be reached. *)
Lemma walk_spec fuel stack seen x :
  length stack + out_degree seen <= fuel ->
  (forall y z, y ∈ seen -> z ∈ next y -> z ∈ seen \/ z ∈ stack) ->
  x ∈ walk next fuel stack seen <-> x ∈ seen \/ reach next stack x.
Proof.
  revert stack seen; induction fuel as [|fuel IH]; intros stack seen Hf Hc.
  { destruct stack; [|cbn in Hf; lia]. cbn. split; [by left|]. intros [?|H]; [done|].
    exfalso. clear -H. induction H as [y Hy|]; [by apply not_elem_of_nil in Hy|done]. }
  destruct stack as [|id stack]; cbn [walk].
  { split; [by left|]. intros [?|H]; [done|]. exfalso. clear -H. induction H as [y Hy|]; [by apply not_elem_of_nil in Hy|done]. }
  cbn in Hf. case_decide as Hid.
  - rewrite IH; [|lia|]; clear IH.
    + split; (intros [H|H]; [by left|]).
      * right. induction H as [y Hy|]; [apply reach_start; by right|eauto using reach].
      * induction H as [y Hy|y z Hy IHy Hz].
        -- apply elem_of_cons in Hy as [->|Hy]; [by left|right; by apply reach_start].
        -- destruct IHy as [Hs|Hr]; [|right; eauto using reach].
           destruct (Hc y z Hs Hz) as [?|Hz']; [by left|]. apply elem_of_cons in Hz' as [->|?]; [by left|].
           right. by apply reach_start.
    + intros y z Hy Hz. destruct (Hc y z Hy Hz) as [?|Hz']; [by left|].
      apply elem_of_cons in Hz' as [->|?]; [by left|by right].
  - pose proof (out_degree_seen id seen Hid) as Hd.
    rewrite IH; clear IH.
    + split.
      * intros [H|H]; [apply elem_of_union in H as [H|H]; [right; apply reach_start; apply elem_of_singleton in H as ->; left|by left]|].
        right. induction H as [y Hy|]; [|eauto using reach]. rewrite elem_of_app, elem_of_reverse in Hy.
        destruct Hy as [Hy|Hy]; [|apply reach_start; by right]. eapply reach_next; [apply reach_start; left|done].
      * intros [H|H]; [left; set_solver|]. induction H as [y Hy|y z Hy IHy Hz].
        -- apply elem_of_cons in Hy as [->|Hy]; [left; set_solver|]. right. apply reach_start. apply elem_of_app. by right.
        -- destruct IHy as [Hs|Hr]; [|right; eauto using reach].
           apply elem_of_union in Hs as [->%elem_of_singleton|Hs].
           ++ right. apply reach_start. rewrite elem_of_app, elem_of_reverse. by left.
           ++ destruct (Hc y z Hs Hz) as [?|Hz']; [left; set_solver|].
              apply elem_of_cons in Hz' as [->|?]; [left; set_solver|].
              right. apply reach_start. apply elem_of_app. by right.
    + rewrite length_app, length_reverse. lia.
    + intros y z [->%elem_of_singleton|Hy]%elem_of_union Hz.
      * right. rewrite elem_of_app, elem_of_reverse. by left.
      * destruct (Hc y z Hy Hz) as [?|Hz']; [left; set_solver|].
        apply elem_of_cons in Hz' as [->|?]; [left; set_solver|]. right. apply elem_of_app. by right.
Qed.
End Walk.

(** ** What comes before what *)

(** [a] is needed by [b], at once or through others. *)
Definition before (steps : list StepSpec) : string -> string -> Prop := tc (fun a b => a ∈ needs_of steps b).

(** What [validate] ensures of a compiled Pipeline's graph. *)
Record well_formed (ir : PipelineIr) : Prop := {
  wf_ids : NoDup (ids (ir_steps ir));
  wf_needs : forall s n, s ∈ ir_steps ir -> n ∈ st_needs s -> n ∈ ids (ir_steps ir);
  wf_acyclic : exists order, order ≡ₚ ids (ir_steps ir) /\ in_order (ir_steps ir) order;
}.

Section Graph.
Context (ir : PipelineIr).
Hypothesis Hids : NoDup (ids (ir_steps ir)).
Hypothesis Hneeds : forall s n, s ∈ ir_steps ir -> n ∈ st_needs s -> n ∈ ids (ir_steps ir).

Lemma by_id_spec x s : by_id ir x = Some s <-> s ∈ ir_steps ir /\ st_id s = x.
Proof.
  unfold by_id. split.
  - intros [Hs%list_elem_of_In He%String.eqb_eq]%find_some. split; [by rewrite elem_of_reverse in Hs|done].
  - intros [Hs He]. destruct (List.find _ _) as [s'|] eqn:Ef.
    + apply find_some in Ef as [Hs'%list_elem_of_In He'%String.eqb_eq]. rewrite elem_of_reverse in Hs'. f_equal.
      unfold ids in Hids. clear Hneeds. induction (ir_steps ir) as [|y l IH]; [by apply not_elem_of_nil in Hs|].
      cbn in Hids. apply NoDup_cons in Hids as [Hn Hl].
      apply elem_of_cons in Hs as [->|Hs]; apply elem_of_cons in Hs' as [->|Hs']; [done| | |by apply IH].
      * exfalso. apply Hn. rewrite He, <- He'. by apply list_elem_of_fmap_2.
      * exfalso. apply Hn. rewrite He', <- He. by apply list_elem_of_fmap_2.
    + pose proof (find_none _ _ Ef s) as H. cbv beta in H. rewrite He, String.eqb_refl in H.
      discriminate H. by rewrite <- list_elem_of_In, elem_of_reverse.
Qed.
Lemma upstream_of_needs x : upstream_of ir x = needs_of (ir_steps ir) x.
Proof.
  unfold upstream_of. destruct (by_id ir x) as [s|] eqn:E.
  - apply by_id_spec in E as [Hs <-]. by rewrite needs_of_step.
  - unfold needs_of. destruct (List.find _ _) as [s|] eqn:Ef; [|done].
    apply find_some in Ef as [Hs%list_elem_of_In He%String.eqb_eq].
    rewrite (proj2 (by_id_spec x s)) in E; done.
Qed.
Lemma needs_closed x n : n ∈ needs_of (ir_steps ir) x -> n ∈ ids (ir_steps ir).
Proof.
  rewrite <- upstream_of_needs. unfold upstream_of. destruct (by_id ir x) as [s|] eqn:E; [|by intros ?%not_elem_of_nil].
  apply by_id_spec in E as [Hs _]. by apply Hneeds.
Qed.
Lemma needs_of_stranger x : x ∉ ids (ir_steps ir) -> needs_of (ir_steps ir) x = [].
Proof.
  intros Hx. rewrite <- upstream_of_needs. unfold upstream_of. destruct (by_id ir x) as [s|] eqn:E; [|done].
  apply by_id_spec in E as [Hs <-]. destruct Hx. by apply list_elem_of_fmap_2.
Qed.
Lemma elem_of_needed_by x y : y ∈ needed_by ir x <-> x ∈ needs_of (ir_steps ir) y.
Proof.
  unfold needed_by, dependents, needs_of. by rewrite <- !occurs_pos, occurs_dependents by done.
Qed.
Lemma needed_by_stranger x : x ∉ ids (ir_steps ir) -> needed_by ir x = [].
Proof.
  intros Hx. destruct (needed_by ir x) as [|y l] eqn:E; [done|]. exfalso. apply Hx.
  apply (needs_closed y). apply elem_of_needed_by. rewrite E. left.
Qed.

(** *** The fuel is enough *)

Lemma upstream_edges seen : out_degree (upstream_of ir) (ids (ir_steps ir)) seen <= edges ir.
Proof.
  unfold out_degree, edges, ids.
  assert (forall l, (forall s, s ∈ l -> upstream_of ir (st_id s) = st_needs s) ->
    foldr (fun x n => (if decide (x ∈ seen) then 0 else length (upstream_of ir x)) + n) 0 (map st_id l)
      <= foldr (fun s n => length (st_needs s) + n) 0 l) as H.
  { induction l as [|s l IH]; intros Hl; cbn [map foldr]; [done|]. rewrite (Hl s) by left.
    pose proof (IH (fun s' Hs' => Hl s' (list_elem_of_further s' s l Hs'))). case_decide; lia. }
  apply H. intros s Hs. rewrite upstream_of_needs. by apply needs_of_step.
Qed.

Lemma dependents_edges seen : out_degree (needed_by ir) (ids (ir_steps ir)) seen <= edges ir.
Proof.
  unfold out_degree, edges, needed_by, dependents.
  assert (forall keys l, NoDup keys ->
    foldr (fun x n => (if decide (x ∈ seen) then 0 else
      length (flat_map (fun s => map (fun _ => st_id s) (filter (fun n => n = x) (st_needs s))) l)) + n) 0 keys
    <= foldr (fun s n => length (st_needs s) + n) 0 l) as H; [|by apply H].
  intros keys l Hn. induction l as [|s l IH].
  - cbn. induction keys as [|k keys IHk]; cbn [foldr]; [done|]. apply NoDup_cons in Hn as [_ Hn].
    specialize (IHk Hn). case_decide; lia.
  - cbn [foldr flat_map]. pose proof (occurs_sum keys (st_needs s) Hn) as Hs.
    assert (forall keys, foldr (fun x n => (if decide (x ∈ seen) then 0 else
      length (map (fun _ => st_id s) (filter (fun n => n = x) (st_needs s)) ++
        flat_map (fun s => map (fun _ => st_id s) (filter (fun n => n = x) (st_needs s))) l)) + n) 0 keys
      <= foldr (fun x n => occurs x (st_needs s) + n) 0 keys +
         foldr (fun x n => (if decide (x ∈ seen) then 0 else
           length (flat_map (fun s => map (fun _ => st_id s) (filter (fun n => n = x) (st_needs s))) l)) + n) 0 keys) as Hk.
    { clear. induction keys as [|k keys IH]; cbn [foldr]; [done|]. case_decide; [lia|].
      rewrite length_app, length_map. unfold occurs at 1. lia. }
    specialize (Hk keys). lia.
Qed.
Lemma degree_le next (x : string) : (forall seen, out_degree next (ids (ir_steps ir)) seen <= edges ir) ->
  (forall y, y ∉ ids (ir_steps ir) -> next y = []) -> length (next x) <= edges ir.
Proof.
  intros He Hn. pose proof (out_degree_seen next (ids (ir_steps ir)) Hn x ∅) as H. specialize (He ∅).
  rewrite union_empty_r_L in H. specialize (H (not_elem_of_empty x)). lia.
Qed.

Lemma walk_from next x y :
  (forall seen, out_degree next (ids (ir_steps ir)) seen <= edges ir) ->
  (forall z, z ∉ ids (ir_steps ir) -> next z = []) ->
  y ∈ walk next (S (edges ir + edges ir)) (reverse (next x)) ∅ <-> reach next (next x) y.
Proof.
  intros He Hn. rewrite (walk_spec next (ids (ir_steps ir)) Hn).
  - assert (reach next (reverse (next x)) y <-> reach next (next x) y) as ->; [|set_solver].
    split; (induction 1 as [z Hz|]; [apply reach_start; by rewrite elem_of_reverse in *|eauto using reach]).
  - rewrite length_reverse. pose proof (degree_le next x He Hn). specialize (He ∅). lia.
  - intros z w Hz. by apply not_elem_of_empty in Hz.
Qed.

Lemma upstream_spec x y : y ∈ upstream ir x <-> before (ir_steps ir) y x.
Proof.
  unfold upstream. rewrite walk_from.
  - split.
    + induction 1 as [z Hz|z w Hz IH Hw]; rewrite upstream_of_needs in *.
      * by apply tc_once.
      * eapply tc_l; [exact Hw|exact IH].
    + intros H. unfold before in H. induction H as [x' y' Hxy|x' y' z' Hxy H IH].
      * apply reach_start. by rewrite upstream_of_needs.
      * eapply reach_next; [apply IH|]. by rewrite upstream_of_needs.
  - apply upstream_edges.
  - intros z Hz. rewrite upstream_of_needs. by apply needs_of_stranger.
Qed.
Lemma downstream_spec x y : y ∈ downstream ir x <-> before (ir_steps ir) x y.
Proof.
  unfold downstream. rewrite walk_from.
  - split.
    + induction 1 as [z Hz|z w Hz IH Hw]; rewrite elem_of_needed_by in *.
      * by apply tc_once.
      * eapply tc_r; [exact IH|exact Hw].
    + revert y. apply tc_ind_r.
      * intros z Hz. apply reach_start. by rewrite elem_of_needed_by.
      * intros y z _ Hz IH. eapply reach_next; [exact IH|]. by rewrite elem_of_needed_by.
  - apply dependents_edges.
  - apply needed_by_stranger.
Qed.
End Graph.

Lemma before_in_order steps x rest y : in_order steps (x :: rest) -> before steps y x -> y ∈ rest.
Proof.
  intros Ho H. unfold before in H. induction H as [y x Hyx|y z x Hyz H IH]; [by apply (proj1 Ho)|].
  specialize (IH Ho). destruct Ho as [_ Ho].
  clear -IH Hyz Ho. induction rest as [|w rest IHr]; [by apply not_elem_of_nil in IH|].
  destruct Ho as [Hw Ho]. apply elem_of_cons in IH as [->|Hz]; right; auto.
Qed.
(** *** The manual gate upstream *)

Definition manual_gate (ir : PipelineIr) (x : string) : Prop :=
  exists g, g ∈ ir_steps ir /\ st_id g = x /\ is_manual_gate g = true.

Lemma walk_seen next fuel stack seen : seen ⊆ walk next fuel stack seen.
Proof.
  revert stack seen; induction fuel as [|fuel IH]; intros [|id stack] seen; cbn; try done.
  case_decide; [apply IH|]. etrans; [|apply IH]. set_solver.
Qed.
Lemma gate_walk_walk ir fuel stack seen :
  (forall x s, x ∈ seen -> by_id ir x = Some s -> is_manual_gate s = false) ->
  gate_walk ir fuel stack seen = true
  <-> exists x s, x ∈ walk (upstream_of ir) fuel stack seen /\ by_id ir x = Some s /\ is_manual_gate s = true.
Proof.
  revert stack seen; induction fuel as [|fuel IH]; intros [|id stack] seen Hs; cbn [gate_walk walk];
    try (split; [done|intros (x & s & Hx & Hb & Hg); by rewrite (Hs x s Hx Hb) in Hg]).
  case_decide as Hid; [by apply IH|]. unfold upstream_of at 2. destruct (by_id ir id) as [s|] eqn:Eb; cbn [from_option].
  - destruct (is_manual_gate s) eqn:Eg.
    + split; [|done]. intros _. exists id, s. split; [|done]. apply walk_seen. set_solver.
    + apply IH. intros x s' [->%elem_of_singleton|Hx]%elem_of_union Hb; [by simplify_eq|by eapply Hs].
  - apply IH. intros x s' [->%elem_of_singleton|Hx]%elem_of_union Hb; [by simplify_eq|by eapply Hs].
Qed.
Lemma manual_gate_upstream_spec ir x :
  well_formed ir -> manual_gate_upstream ir x = true <-> exists g, manual_gate ir g /\ before (ir_steps ir) g x.
Proof.
  intros [Hids Hneeds _]. unfold manual_gate_upstream. rewrite gate_walk_walk by (intros ? ? H; by apply not_elem_of_empty in H).
  fold (upstream ir x). split.
  - intros (g & s & Hg & Hb & Hm). apply (by_id_spec ir Hids) in Hb as [Hs He]. exists g. split; [by exists s|].
    by apply upstream_spec in Hg.
  - intros (g & (s & Hs & He & Hm) & Hb). exists g, s. split; [by apply upstream_spec|]. split; [|done].
    by apply (by_id_spec ir Hids).
Qed.

(** *** Dead Steps, missing Steps *)

Lemma dead_steps_spec ir excluded x :
  well_formed ir ->
  x ∈ dead_steps ir excluded <-> exists e, e ∈ excluded /\ e ∈ ids (ir_steps ir) /\ (x = e \/ before (ir_steps ir) e x).
Proof.
  intros [Hids Hneeds _]. unfold dead_steps.
  assert (forall l acc, x ∈ foldl (fun dead s => {[st_id s]} ∪ downstream ir (st_id s) ∪ dead) acc l
    <-> x ∈ acc \/ exists s, s ∈ l /\ (x = st_id s \/ before (ir_steps ir) (st_id s) x)) as H.
  { induction l as [|s l IH]; intros acc; cbn [foldl].
    - split; [by left|]. intros [?|(s & Hs & _)]; [done|by apply not_elem_of_nil in Hs].
    - rewrite IH, !elem_of_union, elem_of_singleton, (downstream_spec ir Hids Hneeds). setoid_rewrite elem_of_cons. naive_solver. }
  rewrite H. split.
  - intros [Hx|(s & Hs & Hx)]; [by apply not_elem_of_empty in Hx|]. apply list_elem_of_filter in Hs as [He Hs].
    exists (st_id s). split_and!; [done|by apply list_elem_of_fmap_2|done].
  - intros (e & He & Hi & Hx). right. apply elem_of_ids in Hi as (s & Hs & <-). exists s.
    split; [by apply list_elem_of_filter|done].
Qed.
Lemma steps_missing_spec ir excluded x :
  x ∈ steps_missing_approval_gate ir excluded
  <-> exists s, s ∈ ir_steps ir /\ st_id s = x /\ uses_environment_authority ir s = true
        /\ (x ∉ dead_steps ir excluded) /\ manual_gate_upstream ir x = false.
Proof.
  unfold steps_missing_approval_gate. rewrite list_elem_of_fmap. setoid_rewrite list_elem_of_filter.
  setoid_rewrite list_elem_of_filter. setoid_rewrite list_elem_of_filter. naive_solver.
Qed.

(** *** The gate's id is free *)

Lemma taken_spec ir id : taken ir id = true <-> id ∈ ids (ir_steps ir).
Proof.
  unfold taken. rewrite existsb_exists, elem_of_ids. setoid_rewrite String.eqb_eq. setoid_rewrite <- list_elem_of_In. done.
Qed.
Definition suffixed (n : N) : string := ADDED_GATE_ID +:+ "-" +:+ pretty n.
Lemma suffixed_inj n m : suffixed n = suffixed m -> n = m.
Proof. unfold suffixed. intros H. apply (inj (String.append _)) in H. apply (inj (String.append _)) in H. by apply (inj (pretty (A:=N))). Qed.
Lemma free_suffix_taken ir fuel n i :
  taken ir (free_suffix ir fuel n) = true -> i <= fuel -> taken ir (suffixed (n + N.of_nat i)) = true.
Proof.
  revert n i; induction fuel as [|fuel IH]; intros n i Ht Hi; cbn [free_suffix] in Ht.
  - by replace (n + N.of_nat i)%N with n by lia.
  - destruct i as [|i].
    + replace (n + N.of_nat 0)%N with n by lia. unfold suffixed. by destruct (taken ir (ADDED_GATE_ID +:+ "-" +:+ pretty n)) eqn:E; [|congruence].
    + replace (n + N.of_nat (S i))%N with (n + 1 + N.of_nat i)%N by lia. apply IH; [|lia].
      by destruct (taken ir (ADDED_GATE_ID +:+ "-" +:+ pretty n)) eqn:E; [|congruence].
Qed.
Lemma added_gate_id_fresh ir : added_gate_id ir ∉ ids (ir_steps ir).
Proof.
  unfold added_gate_id. destruct (taken ir ADDED_GATE_ID) eqn:E0; [|intros Ht%taken_spec; congruence].
  intros Ht%taken_spec.
  assert (map (fun i => suffixed (2 + N.of_nat i)) (seq 0 (S (length (ir_steps ir)))) ⊆ ids (ir_steps ir)) as Hsub.
  { intros x (i & -> & Hi)%list_elem_of_fmap. apply elem_of_seq in Hi. apply taken_spec. eapply free_suffix_taken; [exact Ht|lia]. }
  assert (NoDup (map (fun i => suffixed (2 + N.of_nat i)) (seq 0 (S (length (ir_steps ir)))))) as Hnd.
  { apply NoDup_fmap_2_strong; [|apply NoDup_seq]. intros i j _ _ H%suffixed_inj. lia. }
  pose proof (submseteq_length _ _ (NoDup_submseteq _ _ Hnd Hsub)) as Hl.
  unfold ids in Hl. rewrite !length_map, length_seq in Hl. lia.
Qed.

(** *** What the gate needs *)

Lemma push_all_spec acc l x : x ∈ push_all acc l <-> x ∈ acc \/ x ∈ l.
Proof.
  unfold push_all. revert acc; induction l as [|y l IH]; intros acc; cbn [foldl]; [set_solver|].
  rewrite IH. case_bool_decide; set_solver.
Qed.
Lemma gate_needs_spec ir fronts n :
  n ∈ gate_needs ir fronts <-> exists s, s ∈ ir_steps ir /\ st_id s ∈ fronts /\ n ∈ st_needs s.
Proof.
  unfold gate_needs.
  assert (forall l acc, n ∈ foldl (fun acc s => push_all acc (st_needs s)) acc l
    <-> n ∈ acc \/ exists s, s ∈ l /\ n ∈ st_needs s) as H.
  { induction l as [|s l IH]; intros acc; cbn [foldl]; [set_solver|]. rewrite IH, push_all_spec. set_solver. }
  rewrite H. setoid_rewrite list_elem_of_filter. set_solver.
Qed.
Lemma push_all_nodup acc l : NoDup acc -> NoDup (push_all acc l).
Proof.
  unfold push_all. revert acc; induction l as [|y l IH]; intros acc H; cbn [foldl]; [done|]. apply IH.
  case_bool_decide; [done|]. apply NoDup_app. split_and!; [done|set_solver|apply NoDup_singleton].
Qed.

(** *** The Pipeline with the gate *)

Section Added.
Context (ir : PipelineIr) (environment : string) (expires_after : option N) (excluded : list string).
Hypothesis Hwf : well_formed ir.
Abbreviation missing := (steps_missing_approval_gate ir excluded).
Abbreviation fronts := (gate_fronts ir missing).
Abbreviation gid := (added_gate_id ir).
Abbreviation gate := (added_gate gid environment expires_after (gate_needs ir fronts)).
Let steps := ir_steps ir.
Definition with_gate_need (s : StepSpec) : StepSpec :=
  if bool_decide (st_id s ∈ fronts) then set_needs (st_needs s ++ [gid]) s else s.
Let steps' := insert_at (default (length steps) (position (fun s => bool_decide (st_id s ∈ fronts)) steps))
                gate (map with_gate_need steps).

Lemma elem_of_insert_at {A} n (x y : A) l : y ∈ insert_at n x l <-> y = x \/ y ∈ l.
Proof. unfold insert_at. rewrite elem_of_app, elem_of_cons. rewrite <- (take_drop n l) at 3. rewrite elem_of_app. tauto. Qed.
Lemma insert_at_perm {A} n (x : A) l : insert_at n x l ≡ₚ x :: l.
Proof. unfold insert_at. rewrite <- Permutation_middle. by rewrite take_drop. Qed.

Lemma with_gate_need_id s : st_id (with_gate_need s) = st_id s.
Proof. unfold with_gate_need. by case_bool_decide. Qed.
Lemma added_ids : ids steps' ≡ₚ gid :: ids steps.
Proof.
  unfold ids, steps'. rewrite insert_at_perm. cbn [map]. f_equiv.
  assert (map st_id (map with_gate_need steps) = map st_id steps) as ->; [|done].
  rewrite map_map. apply map_ext. apply with_gate_need_id.
Qed.
Lemma added_nodup : NoDup (ids steps').
Proof. rewrite added_ids. apply NoDup_cons. split; [apply added_gate_id_fresh|apply Hwf]. Qed.
Lemma elem_of_steps' s' : s' ∈ steps' <-> s' = gate \/ exists s, s ∈ steps /\ s' = with_gate_need s.
Proof. unfold steps'. rewrite elem_of_insert_at, list_elem_of_fmap. naive_solver. Qed.

Lemma needs_gate : needs_of steps' gid = gate_needs ir fronts.
Proof. apply (needs_of_step steps' added_nodup gate). apply elem_of_steps'. by left. Qed.
Lemma needs_front x : x ∈ ids steps -> needs_of steps' x = needs_of steps x ++ (if bool_decide (x ∈ fronts) then [gid] else []).
Proof.
  intros (s & Hs & <-)%elem_of_ids. rewrite <- (with_gate_need_id s), (needs_of_step steps' added_nodup).
  - rewrite with_gate_need_id, (needs_of_step steps (wf_ids ir Hwf)) by done. unfold with_gate_need.
    case_bool_decide; [done|]. by rewrite app_nil_r.
  - apply elem_of_steps'. right. eauto.
Qed.

(** *** The fronts *)

Lemma behind_another x :
  x ∈ filter (fun d => d ∈ missing) (flat_map (fun m => elements (downstream ir m)) missing)
  <-> x ∈ missing /\ exists m, m ∈ missing /\ before steps m x.
Proof.
  rewrite list_elem_of_filter, (list_elem_of_In (flat_map _ _)), in_flat_map.
  setoid_rewrite <- list_elem_of_In. setoid_rewrite elem_of_elements.
  by setoid_rewrite (downstream_spec ir (wf_ids ir Hwf) (wf_needs ir Hwf)).
Qed.
Lemma elem_of_fronts x :
  x ∈ fronts <-> x ∈ missing /\ (forall m, m ∈ missing -> ~ before steps m x).
Proof. unfold gate_fronts. rewrite list_elem_of_filter, behind_another. naive_solver. Qed.
Lemma missing_ids x : x ∈ missing -> x ∈ ids steps.
Proof. intros (s & Hs & <- & _)%steps_missing_spec. by apply list_elem_of_fmap_2. Qed.

(** Every Step that lacks a gate is a front or behind one. *)
Lemma missing_behind_front m : m ∈ missing -> exists f, f ∈ fronts /\ (m = f \/ before steps f m).
Proof.
  intros Hm. pose proof (missing_ids m Hm) as Hi. destruct (wf_acyclic ir Hwf) as (order & Hp & Ho). fold steps in Hp, Ho.
  assert (m ∈ order) as Hin by (by rewrite Hp). clear Hp Hi. revert m Hm Hin.
  induction order as [|x rest IH]; intros m Hm Hin; [by apply not_elem_of_nil in Hin|].
  apply elem_of_cons in Hin as [->|Hin]; [|by apply IH; [apply Ho|..]].
  destruct (decide (x ∈ filter (fun d => d ∈ missing) (flat_map (fun m => elements (downstream ir m)) missing))) as [Hb|Hb].
  - apply behind_another in Hb as [_ (m & Hm' & Hb)]. destruct (IH (proj2 Ho) m Hm') as (f & Hf & Hfm).
    { by eapply before_in_order. }
    exists f. split; [done|]. right. destruct Hfm as [->|Hfm]; [done|]. by eapply tc_transitive.
  - exists x. split; [|by left]. by apply list_elem_of_filter.
Qed.

(** *** The new order *)

(** At a front or behind one. *)
Definition behind (x : string) : Prop := x ∈ fronts \/ exists f, f ∈ fronts /\ before steps f x.
Definition behindb (x : string) : bool :=
  bool_decide (x ∈ fronts) || existsb (fun f => bool_decide (x ∈ downstream ir f)) fronts.
Lemma behindb_spec x : behindb x = true <-> behind x.
Proof.
  unfold behindb, behind. rewrite orb_true_iff, bool_decide_eq_true, existsb_exists.
  setoid_rewrite bool_decide_eq_true. setoid_rewrite <- list_elem_of_In.
  by setoid_rewrite (downstream_spec ir (wf_ids ir Hwf) (wf_needs ir Hwf)).
Qed.
Lemma gate_need_ids n : n ∈ gate_needs ir fronts -> n ∈ ids steps.
Proof. intros (s & Hs & _ & Hn)%gate_needs_spec. by apply (wf_needs ir Hwf s). Qed.
Lemma front_needs f n : f ∈ fronts -> n ∈ needs_of steps f -> n ∈ gate_needs ir fronts.
Proof.
  intros Hf Hn. pose proof Hf as [Hm _]%elem_of_fronts. apply missing_ids, elem_of_ids in Hm as (s & Hs & <-).
  rewrite (needs_of_step steps (wf_ids ir Hwf)) in Hn by done. apply gate_needs_spec. by exists s.
Qed.
(** The gate needs nothing at or behind a front. *)
Lemma gate_need_not_behind n : n ∈ gate_needs ir fronts -> ~ behind n.
Proof.
  intros (s & Hs & Hf & Hn)%gate_needs_spec Hb.
  assert (before steps n (st_id s)) as Hns.
  { apply tc_once. by rewrite (needs_of_step steps (wf_ids ir Hwf)). }
  apply elem_of_fronts in Hf as [_ Hf]. destruct Hb as [Hb|(f & Hb & Hfn)].
  - apply elem_of_fronts in Hb as [Hb _]. by apply (Hf n).
  - apply elem_of_fronts in Hb as [Hb _]. apply (Hf f Hb). by eapply tc_transitive.
Qed.
Lemma behind_front_needs x n : n ∈ needs_of steps x -> behind n -> behind x.
Proof.
  intros Hn [Hb|(f & Hf & Hb)]; right.
  - exists n. split; [done|]. by apply tc_once.
  - exists f. split; [done|]. eapply tc_r; [exact Hb|exact Hn].
Qed.

Lemma in_order_split order :
  in_order steps order -> (forall x, x ∈ order -> x ∈ ids steps) ->
  (forall n, n ∈ gate_needs ir fronts -> n ∈ order) ->
  in_order steps' (filter (fun x => behindb x = true) order ++ gid :: filter (fun x => behindb x = false) order).
Proof.
  intros Ho Hi Hg.
  assert (forall l, in_order steps l -> (forall x, x ∈ l -> x ∈ ids steps) -> in_order steps' (filter (fun x => behindb x = false) l)) as HU.
  { induction l as [|x l IH]; intros Hl Hx; [done|]. destruct Hl as [Hxn Hl].
    specialize (IH Hl (fun y Hy => Hx y (list_elem_of_further y x l Hy))). rewrite filter_cons. case_decide as Hb; [|done].
    split; [|done]. intros n Hn. rewrite needs_front in Hn by (apply Hx; left).
    assert (x ∉ fronts) as Hf. { intros Hf. rewrite (proj2 (behindb_spec x)) in Hb; [done|by left]. }
    rewrite bool_decide_eq_false_2, app_nil_r in Hn by done. apply list_elem_of_filter. split; [|by apply Hxn].
    apply not_true_iff_false. rewrite behindb_spec. intros Hbn. apply (behind_front_needs x n Hn) in Hbn.
    rewrite (proj2 (behindb_spec x) Hbn) in Hb. done. }
  assert (in_order steps' (gid :: filter (fun x => behindb x = false) order)) as HG.
  { split; [|by apply HU]. intros n. rewrite needs_gate. intros Hn. apply list_elem_of_filter. split; [|by apply Hg].
    apply not_true_iff_false. rewrite behindb_spec. by apply gate_need_not_behind. }
  assert (forall l k, in_order steps l -> (forall x, x ∈ l -> x ∈ ids steps) -> in_order steps' (gid :: k) ->
    (forall x, x ∈ l -> behindb x = false -> x ∈ k) ->
    in_order steps' (filter (fun x => behindb x = true) l ++ gid :: k)) as HD; [|by apply HD; [..|intros; apply list_elem_of_filter]].
  clear HU HG Hg. induction l as [|x l IH]; intros k Hl Hx Hk Hc; [done|]. destruct Hl as [Hxn Hl].
  specialize (IH k Hl (fun y Hy => Hx y (list_elem_of_further y x l Hy)) Hk
                 (fun y Hy => Hc y (list_elem_of_further y x l Hy))).
  rewrite filter_cons. case_decide as Hb; [|done]. split; [|done]. intros n Hn.
  rewrite needs_front in Hn by (apply Hx; left). rewrite elem_of_app, elem_of_cons.
  apply elem_of_app in Hn as [Hn|Hn].
  - specialize (Hxn n Hn). destruct (behindb n) eqn:En; [left; by apply list_elem_of_filter|].
    right; right. apply Hc; [by right|done].
  - case_bool_decide; [|by apply not_elem_of_nil in Hn]. apply list_elem_of_singleton in Hn as ->. by right; left.
Qed.

(** *** The Pipeline that results *)

Let ir' := set_steps steps' ir.

Lemma added_well_formed : well_formed ir'.
Proof.
  destruct (wf_acyclic ir Hwf) as (order & Hp & Ho). fold steps in Hp, Ho. split.
  - apply added_nodup.
  - intros s' n Hs' Hn. change (n ∈ ids steps'). rewrite added_ids, elem_of_cons.
    apply elem_of_steps' in Hs' as [->|(s & Hs & ->)]; [right; by apply gate_need_ids|].
    unfold with_gate_need in Hn. case_bool_decide; [|right; by apply (wf_needs ir Hwf s)].
    apply elem_of_app in Hn as [Hn|Hn]; [right; by apply (wf_needs ir Hwf s)|]. apply list_elem_of_singleton in Hn. by left.
  - exists (filter (fun x => behindb x = true) order ++ gid :: filter (fun x => behindb x = false) order). split.
    + change (ids (ir_steps ir')) with (ids steps'). rewrite added_ids, <- Permutation_middle. f_equiv. rewrite <- Hp. clear.
      induction order as [|x l IH]; [done|]. rewrite !filter_cons. destruct (behindb x); repeat case_decide; try done; cbn.
      * by rewrite IH.
      * by rewrite <- Permutation_middle, IH.
    + apply in_order_split; [done|intros x; by rewrite Hp|]. intros n Hn. rewrite Hp. by apply gate_need_ids.
Qed.

Lemma needs_kept x n : x ∈ ids steps -> n ∈ needs_of steps x -> n ∈ needs_of steps' x.
Proof. intros Hx Hn. rewrite needs_front by done. apply elem_of_app. by left. Qed.
Lemma before_kept a b : before steps a b -> before steps' a b.
Proof.
  intros H. unfold before in *. induction H as [a b Hab|a b c Hab H IH].
  - apply tc_once. apply needs_kept; [|done]. apply dec_stable. intros Hb.
    rewrite (needs_of_stranger ir (wf_ids ir Hwf)) in Hab by done. by apply not_elem_of_nil in Hab.
  - eapply tc_l; [|exact IH]. apply needs_kept; [|done]. apply dec_stable. intros Hb.
    rewrite (needs_of_stranger ir (wf_ids ir Hwf)) in Hab by done. by apply not_elem_of_nil in Hab.
Qed.
Lemma gate_in_front f : f ∈ fronts -> gid ∈ needs_of steps' f.
Proof.
  intros Hf. rewrite needs_front by (by apply missing_ids, (proj1 (elem_of_fronts f) Hf)).
  rewrite bool_decide_eq_true_2 by done. apply elem_of_app. right. left.
Qed.
Lemma gate_before_missing m : m ∈ missing -> before steps' gid m.
Proof.
  intros Hm. destruct (missing_behind_front m Hm) as (f & Hf & Hb).
  assert (before steps' gid f) as Hg.
  { apply tc_once. by apply gate_in_front. }
  destruct Hb as [->|Hb]; [done|]. eapply tc_transitive; [exact Hg|by apply before_kept].
Qed.
Lemma gate_not_dead : (forall e, e ∈ excluded -> e ∈ ids steps) -> gid ∉ dead_steps ir' excluded.
Proof.
  intros Hex Hd. apply (dead_steps_spec ir' excluded gid added_well_formed) in Hd as (e & He & _ & Hd).
  assert (before steps' e gid) as Hb.
  { destruct Hd as [<-|Hd]; [|done]. exfalso. apply Hex in He. revert He. apply added_gate_id_fresh. }
  clear Hd.
  assert (forall a b, before steps' a b -> b ∈ ids steps -> ~ behind b -> before steps a b) as Hold.
  { intros a b H. unfold before in *. induction H as [a b Hab|a b c Hab H IH]; intros Hi Hn.
    - apply tc_once. rewrite needs_front, bool_decide_eq_false_2, app_nil_r in Hab; [done|intros ?; apply Hn; by left|done].
    - specialize (IH Hi Hn). eapply tc_l; [|exact IH].
      assert (~ behind b) as Hnb.
      { intros Hbb. apply Hn. clear -IH Hbb Hwf. induction IH as [b c Hbc|b c d Hbc H IH]; [by eapply behind_front_needs|].
        apply IH. by eapply behind_front_needs. }
      assert (b ∈ ids steps) as Hib.
      { clear -IH Hwf. destruct IH as [b c Hbc|b c d Hbc _];
          by eapply (needs_closed ir (wf_ids ir Hwf) (wf_needs ir Hwf)). }
      rewrite needs_front, bool_decide_eq_false_2, app_nil_r in Hab; [done|intros ?; apply Hnb; by left|done]. }
  assert (exists n, n ∈ gate_needs ir fronts /\ (e = n \/ before steps e n)) as (n & Hn & Hen).
  { unfold before in Hb. apply tc_nsteps in Hb as (k & Hk & Hb). destruct k as [|k]; [lia|].
    apply nsteps_inv_r in Hb as (n & Hb & Hn). rewrite needs_gate in Hn. exists n. split; [done|].
    destruct k as [|k]; [left; by inversion Hb|]. right. apply Hold; [|by apply gate_need_ids|by apply gate_need_not_behind].
    apply tc_nsteps. exists (S k). split; [lia|done]. }
  apply gate_needs_spec in Hn as (s & Hs & Hf & Hn). apply elem_of_fronts in Hf as [Hm _].
  pose proof Hm as (s' & _ & _ & _ & Hnd & _)%steps_missing_spec. apply Hnd.
  apply (dead_steps_spec ir excluded _ Hwf). exists e. split_and!; [done|by apply Hex|]. right.
  assert (before steps n (st_id s)) as Hns by (apply tc_once; by rewrite (needs_of_step steps (wf_ids ir Hwf))).
  destruct Hen as [->|Hen]; [done|by eapply tc_transitive].
Qed.
Lemma dead_kept x : x ∈ dead_steps ir excluded -> x ∈ dead_steps ir' excluded.
Proof.
  rewrite (dead_steps_spec ir excluded x Hwf), (dead_steps_spec ir' excluded x added_well_formed).
  intros (e & He & Hi & Hd). exists e. split_and!; [done| |destruct Hd as [?|Hd]; [by left|right; by apply before_kept]].
  change (e ∈ ids steps'). rewrite added_ids. by right.
Qed.
Lemma none_missing : steps_missing_approval_gate ir' excluded = [].
Proof.
  apply elem_of_nil_inv. intros x (s' & Hs' & <- & Hu & Hd & Hg)%steps_missing_spec.
  assert (forall g, manual_gate ir' g -> ~ before steps' g (st_id s')) as Hno.
  { intros g Hm Hb. rewrite (proj2 (manual_gate_upstream_spec ir' (st_id s') added_well_formed)) in Hg; [done|by exists g]. }
  apply elem_of_steps' in Hs' as [->|(s & Hs & ->)]; [by cbn in Hu|].
  assert (uses_environment_authority ir s = true) as Hu'.
  { revert Hu. unfold with_gate_need. by case_bool_decide. }
  assert (exists g, manual_gate ir' g /\ before steps' g (st_id (with_gate_need s))) as (g & Hmg & Hb); [|by apply (Hno g)].
  rewrite with_gate_need_id in *. destruct (manual_gate_upstream ir (st_id s)) eqn:Em.
  - apply (manual_gate_upstream_spec ir (st_id s) Hwf) in Em as (g & (sg & Hsg & <- & Hmg) & Hb).
    exists (st_id sg). split; [|by apply before_kept]. exists (with_gate_need sg).
    split_and!; [apply elem_of_steps'; right; eauto|apply with_gate_need_id|].
    unfold with_gate_need. by case_bool_decide.
  - exists gid. split.
    + exists gate. split_and!; [apply elem_of_steps'; by left|done|done].
    + apply gate_before_missing, steps_missing_spec. exists s. split_and!; [done..| |done].
      intros Hx. by apply Hd, dead_kept.
Qed.
End Added.

(** ** What the gate ensures *)

Lemma well_formed_checked ir :
  NoDup (ids (ir_steps ir)) -> Forall (fun s => Forall (fun n => n ∈ ids (ir_steps ir)) (st_needs s)) (ir_steps ir) ->
  find_cycle (ir_steps ir) = None -> well_formed ir.
Proof.
  intros Hd Hn Hc.
  assert (forall s n, s ∈ ir_steps ir -> n ∈ st_needs s -> n ∈ ids (ir_steps ir)) as Hn'.
  { intros s n Hs Hsn. rewrite Forall_forall in Hn. specialize (Hn s Hs). rewrite Forall_forall in Hn. by apply Hn. }
  split; [done..|]. by apply find_cycle_none_iff.
Qed.

Lemma add_gate_spec ir environment expires_after excluded ir' added :
  well_formed ir -> (forall e, e ∈ excluded -> e ∈ ids (ir_steps ir)) ->
  add_environment_approval_gate ir environment expires_after excluded = (ir', added) ->
  well_formed ir' /\
  (forall s, s ∈ ir_steps ir' -> uses_environment_authority ir' s = true -> st_id s ∉ dead_steps ir' excluded ->
     exists g, manual_gate ir' g /\ before (ir_steps ir') g (st_id s)) /\
  (forall a b, before (ir_steps ir) a b -> before (ir_steps ir') a b) /\
  match added with
  | None => ir' = ir
  | Some a =>
      ids (ir_steps ir') ≡ₚ ad_id a :: ids (ir_steps ir) /\ manual_gate ir' (ad_id a)
      /\ (ad_id a ∉ dead_steps ir' excluded)
      /\ (forall f, f ∈ ad_fronts a -> ad_id a ∈ needs_of (ir_steps ir') f)
  end.
Proof.
  intros Hwf Hex. unfold add_environment_approval_gate.
  assert (forall p, well_formed p -> steps_missing_approval_gate p excluded = [] ->
    forall s, s ∈ ir_steps p -> uses_environment_authority p s = true -> st_id s ∉ dead_steps p excluded ->
      exists g, manual_gate p g /\ before (ir_steps p) g (st_id s)) as Hcov.
  { intros p Hp Hm s Hs Hu Hd. apply manual_gate_upstream_spec; [done|].
    destruct (manual_gate_upstream p (st_id s)) eqn:Eg; [done|]. exfalso.
    apply (not_elem_of_nil (st_id s)). rewrite <- Hm. apply steps_missing_spec. eauto 10. }
  destruct (is_nil (steps_missing_approval_gate ir excluded)) eqn:En; intros [= <- <-].
  - split_and!; try done. apply Hcov; [done|]. by destruct (steps_missing_approval_gate ir excluded).
  - pose proof (added_well_formed ir environment expires_after excluded Hwf) as Hwf'.
    split_and!; [exact Hwf'|apply Hcov; [exact Hwf'|by apply none_missing]|by apply before_kept|by apply added_ids| | |].
    + eexists. split_and!; [apply elem_of_insert_at; by left|done|done].
    + by apply gate_not_dead.
    + intros f Hf. by apply gate_in_front.
Qed.

(** After the Environment's approval gate is added to a validated
    Pipeline, every Step that uses the Environment's authority and can start
    has a manual gate before it, the added gate can itself be reached, the
    graph is still one a Run can be planned from, and no dependency, Step or
    gate of the Pipeline is lost; with nothing missing the Pipeline is left
    as it was. *)
Theorem authority_behind_a_gate ir environment expires_after excluded ir' added :
  well_formed ir -> (forall e, e ∈ excluded -> e ∈ ids (ir_steps ir)) ->
  add_environment_approval_gate ir environment expires_after excluded = (ir', added) ->
  well_formed ir' /\
  (forall s, s ∈ ir_steps ir' -> uses_environment_authority ir' s = true -> st_id s ∉ dead_steps ir' excluded ->
     exists g, manual_gate ir' g /\ before (ir_steps ir') g (st_id s)) /\
  (forall a b, before (ir_steps ir) a b -> before (ir_steps ir') a b) /\
  match added with
  | None => ir' = ir
  | Some a =>
      ids (ir_steps ir') ≡ₚ ad_id a :: ids (ir_steps ir) /\ manual_gate ir' (ad_id a)
      /\ (ad_id a ∉ dead_steps ir' excluded)
      /\ (forall f, f ∈ ad_fronts a -> ad_id a ∈ needs_of (ir_steps ir') f)
  end.
Proof. apply add_gate_spec. Qed.

Definition with_token (s : StepSpec) : StepSpec := set_secrets [mkSecret "token" true] s.
Lemma authority_behind_a_gate_witness :
  let ir := pipeline_of [needing "build" []; with_token (needing "publish" ["build"]);
                         with_token (needing "announce" ["publish"]); with_token (needing "docs" [])] in
  let ir' := (add_environment_approval_gate ir "prod" None []).1 in
  (add_environment_approval_gate ir "prod" None []).2 = Some (mkAdded "environment-approval" ["publish"; "docs"]) /\
  needs_of (ir_steps ir') "environment-approval" = ["build"] /\
  exists g, manual_gate ir' g /\ before (ir_steps ir') g "announce".
Proof.
  intros ir ir'. split; [vm_compute; reflexivity|]. split; [vm_compute; reflexivity|].
  destruct (authority_behind_a_gate ir "prod" None [] ir' (Some (mkAdded "environment-approval" ["publish"; "docs"])))
    as (_ & H & _).
  - apply well_formed_checked; [apply (bool_decide_unpack _); vm_compute; exact I..|vm_compute; reflexivity].
  - intros e He. by apply not_elem_of_nil in He.
  - vm_compute; reflexivity.
  - apply (H (with_token (needing "announce" ["publish"]))); [|reflexivity|].
    + apply (list_elem_of_lookup_2 _ 3). vm_compute. reflexivity.
    + apply (bool_decide_unpack _). vm_compute. exact I.
Defined.
