(* ===== verification/RunCreate.v ===== *)
(** * The inputs of the three PolicyCheckpoints (scarab-policy/src/run_create.rs,
    gate_resolve.rs and step_admit.rs)

    The declared inputs with their schemas, and the [run.create] input built
    from a compiled Pipeline: every Step with the gates upstream of it, found
    with one bit per gate in one pass over the dependency graph. *)

From S2P Require Import Prelude Graph Text Values Cel Params Scopes Render Ir Approvals Schema.

Definition RUN_CREATE_SCHEMA_VERSION : N := 1.
Definition MAX_STEPS : N := 512.
Definition MAX_GATES : N := 32.
(** [scarab_pipeline::MAX_INVOKE_DEPTH]. *)
Definition MAX_ORIGIN : N := 8.
Definition MAX_UPSTREAM_GATES : N := MAX_GATES.
Definition MAX_GRANTS : N := 16.
Definition MAX_SECRETS : N := 32.
Definition MAX_PLACEMENT_PROFILES : N := 8.

(** ** The data *)

Inductive TriggerKind : Set :=
  TkPush | TkPullRequest | TkTag | TkRelease | TkComment | TkCron | TkManual | TkApi | TkUpstream.
#[export] Instance TriggerKind_eq_dec : EqDecision TriggerKind.
Proof. solve_decision. Defined.
Definition trigger_kind_wire (k : TriggerKind) : string :=
  match k with
  | TkPush => "push" | TkPullRequest => "pull_request" | TkTag => "tag" | TkRelease => "release"
  | TkComment => "comment" | TkCron => "cron" | TkManual => "manual" | TkApi => "api" | TkUpstream => "upstream"
  end.
Definition trigger_kinds : list TriggerKind :=
  [TkPush; TkPullRequest; TkTag; TkRelease; TkComment; TkCron; TkManual; TkApi; TkUpstream].
Definition origin_kind_wire (k : OriginKind) : string :=
  match k with OkFile => "file" | OkLibrary => "library" | OkPlugin => "plugin" | OkEnvironment => "environment" end.
Inductive GateKind : Set := GkManual | GkTimer | GkExternal | GkPlugin.
Definition gate_kind_wire (k : GateKind) : string :=
  match k with GkManual => "manual" | GkTimer => "timer" | GkExternal => "external" | GkPlugin => "plugin" end.

Record Trigger := mkTrigger {
  tr_kind : TriggerKind;
  tr_ref : option string;
  tr_sha : option string;
  tr_fork : bool;
  tr_actor : option string;
  tr_principal : option string;
  tr_reason : option string;
}.
Record PipelineInput := mkPipelineInput { pi_name : string; pi_environment : option string; pi_deploy : bool }.
Record Origin := mkOriginInput { oi_kind : OriginKind; oi_name : string; oi_source : option string; oi_content_hash : string }.
Record UpstreamGate := mkUpstreamGate { ug_id : string; ug_kind : GateKind }.
Record Step := mkStepInput {
  si_id : string;
  si_image : string;
  si_digest : option string;
  si_grants : list string;
  si_k8s_overlay : bool;
  si_secrets : list string;
  si_placement_profiles : list string;
  si_deploy : bool;
  si_forge_token : option ForgeToken;
  si_uses_environment_authority : bool;
  si_origin : list Origin;
  si_upstream_gates : list UpstreamGate;
}.
Record Gate := mkGateInput { gi_id : string; gi_kind : GateKind; gi_origin : list Origin; gi_dependents : list string }.
(** [time] is in Unix milliseconds. *)
Record RunCreateInput := mkRunCreateInput {
  ri_org : string;
  ri_project : string;
  ri_trigger : Trigger;
  ri_pipeline : PipelineInput;
  ri_steps : list Step;
  ri_gates : list Gate;
  ri_principal : option string;
  ri_time : Z;
}.

(** ** The schemas *)

Definition p_trigger_kind := p_enum "TriggerKind" (map trigger_kind_wire trigger_kinds).
Definition p_origin_kind := p_enum "OriginKind" ["file"; "library"; "plugin"; "environment"].
Definition p_gate_kind := p_enum "GateKind" ["manual"; "timer"; "external"; "plugin"].
Definition p_forge_token := p_enum "ForgeToken" ["read"; "write"].
Definition p_org := p_struct "Org" [("name", p_string)].
Definition p_project := p_struct "Project" [("name", p_string)].
Definition p_trigger := p_struct "Trigger"
  [("kind", p_trigger_kind); ("ref", p_option p_string); ("sha", p_option p_string); ("fork", p_bool);
   ("actor", p_option p_string); ("principal", p_option p_string); ("reason", p_option p_free_text)].
Definition p_pipeline := p_struct "Pipeline" [("name", p_string); ("environment", p_option p_string); ("deploy", p_bool)].
Definition p_origin := p_struct "Origin"
  [("kind", p_origin_kind); ("name", p_string); ("source", p_option p_string); ("content_hash", p_string)].
Definition p_upstream_gate := p_struct "UpstreamGate" [("id", p_string); ("kind", p_gate_kind)].
Definition p_step := p_struct "Step"
  [("id", p_string); ("image", p_string); ("digest", p_option p_string); ("grants", p_capped p_string MAX_GRANTS);
   ("k8s_overlay", p_bool); ("secrets", p_capped p_string MAX_SECRETS);
   ("placement_profiles", p_capped p_string MAX_PLACEMENT_PROFILES); ("deploy", p_bool);
   ("forge_token", p_option p_forge_token); ("uses_environment_authority", p_bool);
   ("origin", p_capped p_origin MAX_ORIGIN); ("upstream_gates", p_capped p_upstream_gate MAX_UPSTREAM_GATES)].
Definition p_gate := p_struct "Gate"
  [("id", p_string); ("kind", p_gate_kind); ("origin", p_capped p_origin MAX_ORIGIN);
   ("dependents", p_capped p_string MAX_STEPS)].
Definition p_run_create := p_struct "RunCreateInput"
  [("org", p_org); ("project", p_project); ("trigger", p_trigger); ("pipeline", p_pipeline);
   ("steps", p_capped p_step MAX_STEPS); ("gates", p_capped p_gate MAX_GATES);
   ("principal", p_option p_string); ("time", p_timestamp)].
Definition run_create_schema : Schema :=
  default no_schema (for_root p_run_create "run.create" RUN_CREATE_SCHEMA_VERSION).

(** *** gate.resolve *)

Definition GATE_RESOLVE_SCHEMA_VERSION : N := 1.
Definition MAX_APPROVALS : N := 64.
Definition p_gate_resolve := p_struct "GateResolveInput"
  [("org", p_org); ("project", p_project);
   ("gate", p_struct "GateUnderResolve"
      [("id", p_string); ("kind", p_gate_kind); ("origin", p_capped p_origin MAX_ORIGIN);
       ("environment_approval_gate", p_bool); ("dependents", p_capped p_string MAX_STEPS)]);
   ("verdict", p_enum "Verdict" ["release"]);
   ("actor", p_struct "Actor" [("principal", p_string)]);
   ("approvals", p_capped p_string MAX_APPROVALS);
   ("run", p_struct "GateRun" [("id", p_string); ("ref", p_option p_string); ("environment", p_option p_string)]);
   ("time", p_timestamp)].
Definition gate_resolve_schema : Schema :=
  default no_schema (for_root p_gate_resolve "gate.resolve" GATE_RESOLVE_SCHEMA_VERSION).

(** *** step.admit *)

Definition STEP_ADMIT_SCHEMA_VERSION : N := 1.
Definition MAX_APPROVERS : N := 64.
Definition p_step_admit := p_struct "StepAdmitInput"
  [("org", p_org); ("project", p_project);
   ("step", p_struct "AdmittedStep"
      [("id", p_string); ("image", p_string); ("deploy", p_bool); ("secrets", p_capped p_string MAX_SECRETS);
       ("forge_token", p_option p_forge_token); ("uses_environment_authority", p_bool);
       ("origin", p_capped p_origin MAX_ORIGIN)]);
   ("attempt", p_u64);
   ("run", p_struct "AdmittedRun" [("id", p_string); ("ref", p_option p_string); ("environment", p_option p_string)]);
   ("environment", p_option (p_struct "EnvironmentNow"
      [("has_approvers", p_bool); ("ref_allowed", p_bool); ("max_approval_age_s", p_u64)]));
   ("approvals", p_capped (p_struct "UpstreamApproval"
      [("gate", p_string); ("released_at", p_option p_timestamp); ("approvers", p_capped p_string MAX_APPROVERS);
       ("required", p_option p_u64)]) MAX_GATES);
   ("time", p_timestamp)].
Definition step_admit_schema : Schema :=
  default no_schema (for_root p_step_admit "step.admit" STEP_ADMIT_SCHEMA_VERSION).

Example schemas_closed :
  forallb closed_schema [run_create_schema; gate_resolve_schema; step_admit_schema] = true
  /\ map (fun sc => length (sc_variables sc)) [run_create_schema; gate_resolve_schema; step_admit_schema] = [8; 8; 8].
Proof. vm_compute. split; reflexivity. Qed.

(** ** Building the input *)

Record RunCreateFacts := mkFacts {
  rf_org : string;
  rf_project : string;
  rf_trigger : Trigger;
  rf_pipeline_path : string;
  rf_environment : option string;
  rf_principal : option string;
  rf_time : Z;
  rf_params : gmap string Json;
  rf_event : gmap string Json;
}.

(** [capped]: the list, or [CapExceeded]'s message. *)
Definition cap_message (owner : string) (len : N) (noun : string) (cap : N) : string :=
  owner +:+ " has " +:+ pretty len +:+ " " +:+ noun +:+ ", more than the " +:+ pretty cap
  +:+ " a run.create Policy can check, so the Run is refused".
Definition capped {A} (cap : N) (items : list A) (owner noun : string) : Result string (list A) :=
  let len := N.of_nat (length items) in
  if (len <=? cap)%N then Ok items else Err (cap_message owner len noun cap).

Definition origin_of (chain : list OriginEntry) (owner : string) : Result string (list Origin) :=
  capped MAX_ORIGIN (map (fun o => mkOriginInput (og_kind o) (og_name o) (og_source o) (og_content_hash o)) chain)
    owner "links in its origin chain".
Definition gate_kind (s : StepSpec) : Result string GateKind :=
  match st_gate s with
  | Some "manual" => Ok GkManual
  | Some "timer" => Ok GkTimer
  | Some "external" => Ok GkExternal
  | Some "plugin" => Ok GkPlugin
  | other => Err ("gate `" +:+ st_id s +:+ "` has kind "
                  +:+ match other with Some g => "Some(" +:+ quote +:+ g +:+ quote +:+ ")" | None => "None" end
                  +:+ ", which a run.create Policy cannot check, so the Run is refused")
  end.
Definition has_plugin_gate (ir : PipelineIr) : bool :=
  existsb (fun s => is_gate s && existsb (fun o => bool_decide (og_kind o = OkPlugin)) (st_origin s)) (ir_steps ir).

Definition gate_steps (ir : PipelineIr) : list StepSpec := filter (fun s => is_gate s = true) (ir_steps ir).
Definition check_run_caps (ir : PipelineIr) : Result string unit :=
  let gate_count := N.of_nat (length (gate_steps ir)) in
  let step_count := (N.of_nat (length (ir_steps ir)) - gate_count)%N in
  if (MAX_STEPS <? step_count)%N then Err (cap_message "the Run" step_count "Steps" MAX_STEPS)
  else if (MAX_GATES <? gate_count)%N then Err (cap_message "the Run" gate_count "gates" MAX_GATES)
  else Ok tt.

(** *** The gates upstream of each Step *)

(** [index]: the position of an id, the last Step of one id winning. *)
Definition index (steps : list StepSpec) : gmap string nat :=
  foldl (fun m p => <[st_id p.2 := p.1]> m) ∅ (imap pair steps).
(** [1u64 << bit] for each gate; there are at most 32. *)
Fixpoint gate_bits (i : nat) (bit : N) (steps : list StepSpec) : gmap nat N :=
  match steps with
  | [] => ∅
  | s :: l => if is_gate s then <[i := N.shiftl 1 bit]> (gate_bits (S i) (bit + 1) l) else gate_bits (S i) bit l
  end.
Definition needs_at (steps : list StepSpec) : list (list nat) :=
  map (fun s => omap (fun n => index steps !! n) (st_needs s)) steps.
(** The Steps needing [n], once per mention, in Pipeline order. *)
Definition needed_by_at (needs : list (list nat)) (n : nat) : list nat :=
  concat (imap (fun i ns => map (fun _ => i) (filter (fun m => m = n) ns)) needs).

Record Bits := mkBits { bt_ready : list nat; bt_waiting : list nat; bt_upstream : list N }.
(** One turn of [while let Some(i) = ready.pop()]: the end of the vector is the
    head of the list. *)
Definition bits_turn (needs : list (list nat)) (bits : gmap nat N) (b : Bits) : Bits + list N :=
  match bt_ready b with
  | [] => inr (bt_upstream b)
  | i :: ready =>
      let mine := foldl (fun acc n => N.lor (N.lor acc (nth n (bt_upstream b) 0%N)) (default 0%N (bits !! n))) 0%N (nth i needs []) in
      let '(waiting, ready') := foldl relax (bt_waiting b, ready) (needed_by_at needs i) in
      inl (mkBits ready' waiting (<[i := mine]> (bt_upstream b)))
  end.
Definition bits_start (needs : list (list nat)) : Bits :=
  mkBits (reverse (filter (fun i => length (nth i needs []) = 0) (seq 0 (length needs))))
    (map length needs) (replicate (length needs) 0%N).
Fixpoint bits_loop (fuel : nat) (needs : list (list nat)) (bits : gmap nat N) (b : Bits) : option (list N) :=
  match bits_turn needs bits b with
  | inr l => Some l
  | inl b' => match fuel with 0 => None | S fuel' => bits_loop fuel' needs bits b' end
  end.
Definition upstream_gates_of (ir : PipelineIr) : option (list N) :=
  bits_loop (length (ir_steps ir)) (needs_at (ir_steps ir)) (gate_bits 0 0 (ir_steps ir)) (bits_start (needs_at (ir_steps ir))).

(** *** The input *)

Fixpoint traverse {A B E} (f : A -> Result E B) (l : list A) : Result E (list B) :=
  match l with
  | [] => Ok []
  | x :: l' => match f x with
               | Err e => Err e
               | Ok y => match traverse f l' with Ok ys => Ok (y :: ys) | Err e => Err e end
               end
  end.
Fixpoint rsplit_once (c : ascii) (s : string) : option (string * string) :=
  match s with
  | EmptyString => None
  | String d r =>
      match rsplit_once c r with
      | Some (a, b) => Some (String d a, b)
      | None => if Ascii.eqb d c then Some ("", r) else None
      end
  end.
Definition grants_of (s : StepSpec) : list string :=
  match st_security s with
  | None => []
  | Some sec => (if se_run_as_root sec then ["run-as-root"] else []) ++ (if se_privileged sec then ["privileged"] else [])
                ++ map (fun c => "add-capabilities:" +:+ c) (se_add_capabilities sec)
  end.
Definition digest_of (image : string) : option string :=
  if contains "${{" image then None
  else match rsplit_once "@" image with
       | Some (_, d) => if String.eqb d "" then None else Some d
       | None => None
       end.

Section WithPorts.
Context {C : Cel} {F : Floats} {T : CharTables}.

(** The gates, by position, whose bit the Step at [i] has. *)
Definition has_bit (up : list N) (i : nat) (bit : N) : bool := negb (N.land (nth i up 0%N) bit =? 0)%N.

Inductive StepOrGate : Type := IsStep (s : Step) | IsGate (g : Gate).
Definition input_item (ir : PipelineIr) (facts : RunCreateFacts) (up : list N) (p : nat * StepSpec) : Result string StepOrGate :=
  let '(i, s) := p in
  let bits := gate_bits 0 0 (ir_steps ir) in
  let what := "Step `" +:+ st_id s +:+ "`" in
  let gate_what := "gate `" +:+ st_id s +:+ "`" in
  if is_gate s then
    kind ← gate_kind s;
    origin ← origin_of (st_origin s) gate_what;
    dependents ← capped MAX_STEPS
      (map (fun q => st_id q.2)
         (filter (fun q => is_gate q.2 = false /\ has_bit up q.1 (default 0%N (bits !! i)) = true) (imap pair (ir_steps ir))))
      gate_what "dependent Steps";
    Ok (IsGate (mkGateInput (st_id s) kind origin dependents))
  else
    upstream ← traverse (fun q => kind ← gate_kind q.2; Ok (mkUpstreamGate (st_id q.2) kind))
      (filter (fun q => match bits !! q.1 with Some bit => has_bit up i bit | None => false end = true) (imap pair (ir_steps ir)));
    let image := preview_image (st_image s) (st_scope s) (st_matrix_values s) (rf_params facts) (rf_event facts) in
    grants ← capped MAX_GRANTS (grants_of s) what "grants";
    secrets ← capped MAX_SECRETS (map sr_name (st_secrets s)) what "secrets";
    profiles ← capped MAX_PLACEMENT_PROFILES (st_placement_profiles s) what "placement profiles";
    origin ← origin_of (st_origin s) what;
    upstream' ← capped MAX_UPSTREAM_GATES upstream what "gates upstream of it";
    Ok (IsStep (mkStepInput (st_id s) image (digest_of image) grants (is_some (st_k8s_overlay s)) secrets profiles
                  (st_deploy s || ir_deploy ir) (st_forge_token s) (uses_environment_authority ir s) origin upstream')).

(** [None] only if the fuel of the bit pass ran out. *)
Definition input_from_pipeline (ir : PipelineIr) (facts : RunCreateFacts) : option (Result string RunCreateInput) :=
  match check_run_caps ir with
  | Err e => Some (Err e)
  | Ok _ =>
      up ← upstream_gates_of ir;
      Some (items ← traverse (input_item ir facts up) (imap pair (ir_steps ir));
            steps ← capped MAX_STEPS (omap (fun x => match x with IsStep s => Some s | IsGate _ => None end) items) "the Run" "Steps";
            gates ← capped MAX_GATES (omap (fun x => match x with IsGate g => Some g | IsStep _ => None end) items) "the Run" "gates";
            Ok (mkRunCreateInput (rf_org facts) (rf_project facts) (rf_trigger facts)
                  (mkPipelineInput (default (rf_pipeline_path facts) (ir_name ir)) (rf_environment facts) (ir_deploy ir))
                  steps gates (rf_principal facts) (rf_time facts)))
  end.
End WithPorts.

(** ** The bit pass finds the gates before each Step *)

Lemma imap_pair_lookup {A} (l : list A) i x : (i, x) ∈ imap pair l <-> l !! i = Some x.
Proof. rewrite elem_of_lookup_imap. split; [by intros (j & y & [= -> ->] & H)|intros H; by exists i, x]. Qed.

Lemma index_spec steps x i :
  NoDup (ids steps) -> index steps !! x = Some i <-> exists s, steps !! i = Some s /\ st_id s = x.
Proof.
  intros Hn. unfold index.
  assert (forall (l : list (nat * StepSpec)) (m : gmap string nat), NoDup (map (fun p => st_id p.2) l) ->
    foldl (fun m p => <[st_id p.2 := p.1]> m) m l !! x = Some i
    <-> (exists s, (i, s) ∈ l /\ st_id s = x) \/ (x ∉ map (fun p => st_id p.2) l) /\ m !! x = Some i) as H.
  { induction l as [|[j s] l IH]; intros m Hl; cbn [foldl map].
    - split; [intros H; right; split; [apply not_elem_of_nil|done]|intros [(s & Hs & _)|[_ H]]; [by apply not_elem_of_nil in Hs|done]].
    - cbn in Hl. apply NoDup_cons in Hl as [Hs Hl]. rewrite (IH _ Hl). cbn [fst snd].
      destruct (decide (st_id s = x)) as [<-|Hne].
      + rewrite lookup_insert_eq. split.
        * intros [(s' & Hs' & He)|[_ [= ->]]].
          -- exfalso. apply Hs. rewrite <- He. apply list_elem_of_fmap. by exists (i, s').
          -- left. exists s. split; [left|done].
        * intros [(s' & Hs' & He)|[Hx _]]; [|exfalso; apply Hx; left].
          apply elem_of_cons in Hs' as [[= -> ->]|Hs']; [by right|]. left. by exists s'.
      + rewrite lookup_insert_ne by done. split.
        * intros [(s' & Hs' & He)|[Hx Hm]]; [left; exists s'; split; [by right|done]|right; split; [|done]].
          rewrite elem_of_cons. naive_solver.
        * intros [(s' & Hs' & He)|[Hx Hm]].
          -- apply elem_of_cons in Hs' as [[= -> ->]|Hs']; [done|]. left. by exists s'.
          -- right. split; [|done]. rewrite elem_of_cons in Hx. naive_solver. }
  rewrite H.
  - setoid_rewrite imap_pair_lookup. split; [intros [?|[_ Hc]]; [done|by rewrite lookup_empty in Hc]|by left].
  - assert (map (fun p => st_id p.2) (imap pair steps) = ids steps) as ->; [|done].
    unfold ids. rewrite fmap_imap. by apply imap_const.
Qed.

Lemma needed_by_occurs needs n x : occurs x (needed_by_at needs n) = occurs n (nth x needs []).
Proof.
  unfold needed_by_at.
  assert (forall (l : list (list nat)) k, occurs x (concat (imap (fun i ns => map (fun _ => k + i) (filter (fun m => m = n) ns)) l))
    = if decide (k <= x) then occurs n (nth (x - k) l []) else 0) as H.
  { assert (forall (y : nat) (l : list nat), occurs x (map (fun _ => y) l) = if decide (y = x) then length l else 0) as Hmap.
    { intros y l. induction l as [|z l IH]; [by destruct (decide (y = x))|]. cbn [map]. rewrite occurs_cons, IH.
      by destruct (decide (y = x)). }
    induction l as [|ns l IH]; intros k; cbn [imap concat].
    - case_decide; [|done]. by destruct (x - k).
    - rewrite occurs_app, Hmap. specialize (IH (S k)).
      assert (imap ((fun i ns => map (fun _ => k + i) (filter (fun m => m = n) ns)) ∘ S) l
        = imap (fun i ns => map (fun _ => S k + i) (filter (fun m => m = n) ns)) l) as ->.
      { apply imap_ext. intros i y _. cbn. by replace (k + S i) with (S (k + i)) by lia. }
      rewrite IH. destruct (decide (k + 0 = x)) as [Hk|Hk].
      + rewrite decide_False, decide_True by lia. replace (x - k) with 0 by lia. unfold occurs. cbn. lia.
      + destruct (decide (S k <= x)) as [Hle|Hle].
        * rewrite decide_True by lia. by replace (x - k) with (S (x - S k)) by lia.
        * by rewrite decide_False by lia. }
  specialize (H needs 0). rewrite decide_True in H by lia. replace (x - 0) with x in H by lia. exact H.
Qed.

Lemma gate_bits_some i bit l j v :
  gate_bits i bit l !! j = Some v ->
  i <= j /\ (exists b, v = N.shiftl 1 b /\ (bit <= b)%N) /\ exists s, l !! (j - i) = Some s /\ is_gate s = true.
Proof.
  revert i bit; induction l as [|s l IH]; intros i bit; cbn [gate_bits]; [done|].
  assert (forall bit', gate_bits (S i) bit' l !! j = Some v -> (bit <= bit')%N ->
    i <= j /\ (exists b, v = N.shiftl 1 b /\ (bit <= b)%N) /\ exists s', (s :: l) !! (j - i) = Some s' /\ is_gate s' = true) as Hrest.
  { intros bit' H Hle. apply IH in H as (Hj & (b & -> & Hb) & s' & Hs' & Hg). split_and!; [lia|exists b; split; [done|lia]|].
    exists s'. replace (j - i) with (S (j - S i)) by lia. done. }
  destruct (is_gate s) eqn:Eg; [|intros H; apply (Hrest bit H); lia].
  destruct (decide (i = j)) as [->|Hne].
  - rewrite lookup_insert_eq. intros [= <-]. split_and!; [lia|by exists bit|]. exists s. by replace (j - j) with 0 by lia.
  - rewrite lookup_insert_ne by done. intros H. apply (Hrest (bit + 1)%N H). lia.
Qed.
Lemma gate_bits_gate i bit l j s : l !! j = Some s -> is_gate s = true -> is_Some (gate_bits i bit l !! (i + j)).
Proof.
  revert i bit j; induction l as [|s' l IH]; intros i bit j; cbn [gate_bits]; [done|].
  destruct j as [|j]; cbn [lookup list_lookup].
  - intros [= ->] Hg. rewrite Hg. replace (i + 0) with i by lia. rewrite lookup_insert_eq. done.
  - intros Hj Hg. replace (i + S j) with (S i + j) by lia. destruct (is_gate s'); [|by apply IH].
    rewrite lookup_insert_ne by lia. by apply IH.
Qed.
Lemma gate_bits_inj i bit l j k v : gate_bits i bit l !! j = Some v -> gate_bits i bit l !! k = Some v -> j = k.
Proof.
  revert i bit; induction l as [|s l IH]; intros i bit; cbn [gate_bits]; [done|]. destruct (is_gate s); [|apply IH].
  assert (forall k, gate_bits (S i) (bit + 1) l !! k = Some (N.shiftl 1 bit) -> False) as Hno.
  { intros k' (_ & (b & Hb & Hle) & _)%gate_bits_some. rewrite !N.shiftl_1_l in Hb. apply N.pow_inj_r in Hb; lia. }
  destruct (decide (i = j)) as [<-|Hj], (decide (i = k)) as [<-|Hk];
    rewrite ?lookup_insert_eq, ?lookup_insert_ne by done; intros H1 H2; try done.
  - injection H1 as <-. by destruct (Hno k).
  - injection H2 as <-. by destruct (Hno j).
  - by eapply IH.
Qed.
Lemma has_bit_testbit up i b : has_bit up i (N.shiftl 1 b) = N.testbit (nth i up 0%N) b.
Proof.
  unfold has_bit. destruct (N.testbit (nth i up 0%N) b) eqn:E.
  - apply negb_true_iff, N.eqb_neq. intros H. apply (f_equal (fun n => N.testbit n b)) in H.
    rewrite N.land_spec, E, N.shiftl_1_l, N.pow2_bits_true in H. done.
  - apply negb_false_iff, N.eqb_eq. apply N.bits_inj. intros k. rewrite N.land_spec, N.bits_0, N.shiftl_1_l.
    destruct (decide (k = b)) as [->|Hne]; [by rewrite E|]. rewrite N.pow2_bits_false by done. apply andb_false_r.
Qed.

(** *** The loop, on any graph of positions *)

Section Pass.
Context (needs : list (list nat)) (bits : gmap nat N).
Let keys := seq 0 (length needs).
Let nd (i : nat) : list nat := nth i needs [].

Lemma nd_stranger i : i ∉ keys -> nd i = [].
Proof. intros Hi. apply nth_overflow. unfold keys in Hi. rewrite elem_of_seq in Hi. lia. Qed.
Lemma list_insert_look (m : list nat) x d e y : m !! x = Some d -> <[x := e]> m !! y = if decide (x = y) then Some e else m !! y.
Proof.
  intros H%lookup_lt_Some. case_decide as Hxy; [subst; by rewrite list_lookup_insert_eq|by rewrite list_lookup_insert_ne].
Qed.

(** What a Step's bits are once those of its needs are known. *)
Definition bits_of (up : list N) (i : nat) : N :=
  foldl (fun acc n => N.lor (N.lor acc (nth n up 0%N)) (default 0%N (bits !! n))) 0%N (nd i).
Lemma bits_of_ext up up' i : (forall n, n ∈ nd i -> nth n up 0%N = nth n up' 0%N) -> bits_of up i = bits_of up' i.
Proof.
  unfold bits_of. intros H.
  assert (forall l acc, (forall n, n ∈ l -> nth n up 0%N = nth n up' 0%N) ->
    foldl (fun acc n => N.lor (N.lor acc (nth n up 0%N)) (default 0%N (bits !! n))) acc l
    = foldl (fun acc n => N.lor (N.lor acc (nth n up' 0%N)) (default 0%N (bits !! n))) acc l) as Hl; [|by apply Hl].
  clear. induction l as [|n l IH]; intros acc H; [done|]. cbn [foldl].
  rewrite (H n) by left. apply IH. intros k Hk. apply H. by right.
Qed.
Lemma bits_of_testbit up i b :
  N.testbit (bits_of up i) b = true
  <-> exists n, n ∈ nd i /\ (N.testbit (nth n up 0%N) b = true \/ N.testbit (default 0%N (bits !! n)) b = true).
Proof.
  unfold bits_of.
  assert (forall l acc, N.testbit (foldl (fun acc n => N.lor (N.lor acc (nth n up 0%N)) (default 0%N (bits !! n))) acc l) b = true
    <-> N.testbit acc b = true \/ exists n, n ∈ l /\ (N.testbit (nth n up 0%N) b = true \/ N.testbit (default 0%N (bits !! n)) b = true)) as H.
  { induction l as [|n l IH]; intros acc; cbn [foldl].
    - split; [by left|intros [?|(n & Hn & _)]; [done|by apply not_elem_of_nil in Hn]].
    - rewrite IH, !N.lor_spec, !orb_true_iff. split.
      + intros [[[Ha|Hu]|Hd]|(k & Hk & Hor)]; [by left|right; exists n; split; [left|by left]|right; exists n; split; [left|by right]|].
        right. exists k. split; [by right|done].
      + intros [Ha|(k & [->|Hk]%elem_of_cons & Hor)]; [tauto|tauto|]. right. by exists k. }
  rewrite H, N.bits_0. split; [intros [Hf|Hx]; [discriminate Hf|exact Hx]|by right].
Qed.

Record pass_inv (b : Bits) (removed : list nat) : Prop := {
  pi_removal : removal_inv keys nd (bt_ready b) (bt_waiting b) removed;
  pi_length : length (bt_upstream b) = length needs;
  pi_bits : forall i, i ∈ removed -> nth i (bt_upstream b) 0%N = bits_of (bt_upstream b) i;
}.

Lemma pass_start : pass_inv (bits_start needs) [].
Proof.
  split; cbn [bits_start bt_ready bt_waiting bt_upstream].
  - apply removal_start.
    + rewrite reverse_Permutation. apply NoDup_filter, NoDup_seq.
    + intros x. rewrite elem_of_reverse, list_elem_of_filter. unfold keys, nd. tauto.
    + intros x. rewrite list_lookup_fmap. unfold keys, nd. case_decide as Hx; rewrite elem_of_seq in Hx.
      * destruct (lookup_lt_is_Some_2 needs x) as [l Hl]; [lia|]. rewrite Hl. cbn. by rewrite (nth_lookup_Some _ _ _ _ Hl).
      * rewrite lookup_ge_None_2 by lia. done.
  - by rewrite length_replicate.
  - intros i Hi. by apply not_elem_of_nil in Hi.
Qed.
Lemma pass_turn b b' removed i ready :
  pass_inv b removed -> bt_ready b = i :: ready -> bits_turn needs bits b = inl b' -> pass_inv b' (i :: removed).
Proof.
  intros [HR Hl Hb] Er. unfold bits_turn. rewrite Er. fold (nd i).
  change (foldl _ 0%N (nd i)) with (bits_of (bt_upstream b) i).
  destruct (foldl relax (bt_waiting b, ready) (needed_by_at needs i)) as [w q] eqn:E. intros [= <-].
  rewrite Er in HR. pose proof HR as [K2 _ _ _ K6 _].
  assert (i ∉ removed) as Hir. { apply NoDup_cons in K2 as [H _]. rewrite elem_of_app in H. tauto. }
  assert (i < length needs) as Hi.
  { assert (i ∈ keys) as H by (apply (ri_keys _ _ _ _ _ HR); left). unfold keys in H. rewrite elem_of_seq in H. lia. }
  assert (forall n, n ∈ nd i -> n ∈ removed) as Hn.
  { apply (waiting_zero nd). apply K6. left. }
  assert (forall n, n ∈ removed -> nth n (<[i := bits_of (bt_upstream b) i]> (bt_upstream b)) 0%N = nth n (bt_upstream b) 0%N) as Hsame.
  { intros n Hnr. rewrite !nth_lookup. rewrite list_lookup_insert_ne; [done|]. intros ->. done. }
  split; cbn [bt_ready bt_waiting bt_upstream].
  - eapply (removal_turn list_insert_look); [apply nd_stranger|apply needed_by_occurs|exact HR|exact E].
  - by rewrite length_insert.
  - intros j [->|Hj]%elem_of_cons.
    + rewrite nth_lookup, list_lookup_insert_eq by lia. cbn. apply bits_of_ext. intros n Hnn. symmetry. by apply Hsame, Hn.
    + rewrite Hsame, (Hb j Hj) by done. apply bits_of_ext. intros n Hnn. symmetry. apply Hsame.
      by apply (topological_closed nd removed n j (ri_order _ _ _ _ _ HR)).
Qed.
Lemma pass_drains fuel b removed :
  pass_inv b removed -> length needs <= fuel + length removed ->
  exists b' removed', bits_loop fuel needs bits b = Some (bt_upstream b') /\ pass_inv b' removed' /\ bt_ready b' = [].
Proof.
  revert b removed; induction fuel as [|fuel IH]; intros b removed HI Hf.
  - destruct (bt_ready b) as [|i ready] eqn:Er.
    + exists b, removed. cbn. unfold bits_turn. by rewrite Er.
    + exfalso. destruct (bits_turn needs bits b) as [b'|] eqn:Et.
      * pose proof (pass_turn _ _ _ _ _ HI Er Et) as HI'. pose proof (removed_length _ _ _ _ _ (pi_removal _ _ HI')) as H.
        unfold keys in H. rewrite length_seq in H. cbn in H. lia.
      * unfold bits_turn in Et. rewrite Er in Et. by destruct (foldl relax _ _).
  - cbn [bits_loop]. destruct (bits_turn needs bits b) as [b'|l] eqn:Et.
    + destruct (bt_ready b) as [|i ready] eqn:Er; [unfold bits_turn in Et; by rewrite Er in Et|].
      apply (IH b' (i :: removed)); [by eapply pass_turn|cbn; lia].
    + unfold bits_turn in Et. destruct (bt_ready b) as [|i ready] eqn:Er.
      * injection Et as <-. by exists b, removed.
      * by destruct (foldl relax _ _).
Qed.

(** On a graph that can be ordered every position gets its bits. *)
Lemma pass_result order :
  topological nd order -> (forall i, i < length needs -> i ∈ order) -> (forall i, i ∈ order -> i < length needs) ->
  exists up, bits_loop (length needs) needs bits (bits_start needs) = Some up /\
    forall i, i < length needs -> nth i up 0%N = bits_of up i.
Proof.
  intros Ho Hall Hin. destruct (pass_drains (length needs) _ _ pass_start) as (b & removed & E & HI & Hr); [lia|].
  exists (bt_upstream b). split; [done|]. intros i Hi. apply (pi_bits _ _ HI).
  pose proof (pi_removal _ _ HI) as HR. rewrite Hr in HR. apply (drained_order _ _ _ _ order HR Ho); [|by apply Hall].
  intros x Hx. unfold keys. rewrite elem_of_seq. apply Hin in Hx. lia.
Qed.
End Pass.

(** *** On a Pipeline *)

Section Upstream.
Context (ir : PipelineIr).
Hypothesis Hwf : well_formed ir.
Let steps := ir_steps ir.
Let bits := gate_bits 0 0 steps.

Lemma elem_of_needs_at i n s :
  steps !! i = Some s -> n ∈ nth i (needs_at steps) [] <-> exists s', steps !! n = Some s' /\ st_id s' ∈ st_needs s.
Proof.
  intros Hi. unfold needs_at. rewrite (nth_lookup_Some _ _ _ (omap (fun n => index steps !! n) (st_needs s))).
  - rewrite list_elem_of_omap. setoid_rewrite index_spec; [|apply Hwf]. naive_solver.
  - by rewrite list_lookup_fmap, Hi.
Qed.
Lemma position_of x : x ∈ ids steps -> exists i s, steps !! i = Some s /\ st_id s = x.
Proof. intros (s & Hs & He)%elem_of_ids. apply list_elem_of_lookup_1 in Hs as [i Hi]. by exists i, s. Qed.
Lemma position_unique i j s s' : steps !! i = Some s -> steps !! j = Some s' -> st_id s = st_id s' -> i = j.
Proof.
  intros Hi Hj He. apply (NoDup_lookup (ids steps) i j (st_id s) (wf_ids ir Hwf)).
  - unfold ids. by rewrite list_lookup_fmap, Hi.
  - unfold ids. by rewrite list_lookup_fmap, Hj, He.
Qed.

Lemma position_order : exists order,
  topological (fun i => nth i (needs_at steps) []) order /\ (forall i, i ∈ order <-> i < length steps).
Proof.
  destruct (wf_acyclic ir Hwf) as (order & Hp & Ho). fold steps in Hp, Ho. exists (omap (fun x => index steps !! x) order). split.
  - assert (forall x, x ∈ order -> x ∈ ids steps) as Hin by (intros x; by rewrite Hp). clear Hp.
    induction order as [|x rest IH]; [done|]. destruct Ho as [Hx Ho].
    specialize (IH Ho (fun y Hy => Hin y (list_elem_of_further y x rest Hy))). cbn [omap list_omap].
    destruct (index steps !! x) as [i|] eqn:Ei; [|exact IH]. split; [|exact IH]. intros n Hn.
    apply index_spec in Ei as (s & Hs & <-); [|apply Hwf].
    apply (elem_of_needs_at i n s Hs) in Hn as (s' & Hs' & Hn). apply list_elem_of_omap. exists (st_id s'). split.
    + apply Hx. rewrite needs_of_step; [done|apply Hwf|]. by eapply list_elem_of_lookup_2.
    + apply index_spec; [apply Hwf|]. by exists s'.
  - intros i. rewrite list_elem_of_omap. setoid_rewrite Hp. split.
    + intros (x & _ & Hi). apply index_spec in Hi as (s & Hs & _); [|apply Hwf]. by eapply lookup_lt_Some.
    + intros Hi. destruct (lookup_lt_is_Some_2 steps i Hi) as [s Hs]. exists (st_id s). split.
      * apply list_elem_of_fmap_2. by eapply list_elem_of_lookup_2.
      * apply index_spec; [apply Hwf|]. by exists s.
Qed.

Lemma gate_bit_testbit n j b : bits !! j = Some (N.shiftl 1 b) -> N.testbit (default 0%N (bits !! n)) b = true <-> n = j.
Proof.
  intros Hj. split; [|intros ->; rewrite Hj; cbn [from_option id]; by rewrite N.shiftl_1_l, N.pow2_bits_true].
  destruct (bits !! n) as [v|] eqn:En; cbn [from_option id]; [|by rewrite N.bits_0].
  pose proof En as (_ & (b' & -> & _) & _)%gate_bits_some. rewrite N.shiftl_1_l, N.pow2_bits_eqb. intros ->%N.eqb_eq.
  by eapply gate_bits_inj.
Qed.

Lemma upstream_bits : exists up, upstream_gates_of ir = Some up /\
  forall i j s g bit, steps !! i = Some s -> steps !! j = Some g -> bits !! j = Some bit ->
    has_bit up i bit = true <-> before steps (st_id g) (st_id s).
Proof.
  destruct position_order as (order & Ho & Hin).
  assert (length (needs_at steps) = length steps) as Hl by (unfold needs_at; by rewrite length_map).
  destruct (pass_result (needs_at steps) bits order Ho) as (up & Eu & Hup); [intros i; rewrite Hl; apply Hin..|].
  exists up. split; [unfold upstream_gates_of; fold steps; by rewrite <- Hl|]. rewrite Hl in Hup.
  intros i j s g bit Hi Hj Hb. pose proof Hb as (_ & (b & -> & _) & _)%gate_bits_some. rewrite has_bit_testbit.
  assert (forall k, k < length steps -> N.testbit (nth k up 0%N) b = true
    <-> exists n, n ∈ nth k (needs_at steps) [] /\ (N.testbit (nth n up 0%N) b = true \/ n = j)) as Hstep.
  { intros k Hk. rewrite (Hup k Hk) at 1. rewrite bits_of_testbit. setoid_rewrite (gate_bit_testbit _ j b Hb). done. }
  split.
  - assert (i ∈ order) as Hio by (apply Hin; by eapply lookup_lt_Some). clear Hin. revert i s Hi Hio.
    induction order as [|x rest IH]; intros i s Hi Hio Ht; [by apply not_elem_of_nil in Hio|]. destruct Ho as [Hx Ho].
    apply elem_of_cons in Hio as [->|Hio]; [|by apply (IH Ho i s)].
    apply Hstep in Ht as (n & Hn & Ht); [|by eapply lookup_lt_Some]. pose proof (Hx n Hn) as Hnr.
    apply (elem_of_needs_at x n s Hi) in Hn as (s' & Hs' & Hn).
    assert (st_id s' ∈ needs_of steps (st_id s)) as Hneed.
    { rewrite needs_of_step; [done|apply Hwf|]. by eapply list_elem_of_lookup_2. }
    destruct Ht as [Ht| ->].
    + eapply tc_r; [by apply (IH Ho n s')|exact Hneed].
    + apply tc_once. rewrite Hj in Hs'. by injection Hs' as ->.
  - assert (forall z, before steps (st_id g) z -> forall k sz, steps !! k = Some sz -> st_id sz = z -> N.testbit (nth k up 0%N) b = true) as H.
    { refine (tc_ind_r (fun z => forall k sz, steps !! k = Some sz -> st_id sz = z -> N.testbit (nth k up 0%N) b = true) (st_id g) _ _).
      - intros z Hz k sz Hk <-. apply Hstep; [by eapply lookup_lt_Some|]. exists j. split; [|by right].
        apply (elem_of_needs_at k j sz Hk). exists g. split; [done|].
        rewrite needs_of_step in Hz; [done|apply Hwf|]. by eapply list_elem_of_lookup_2.
      - intros y z _ Hyz IH k sz Hk <-. apply Hstep; [by eapply lookup_lt_Some|].
        rewrite needs_of_step in Hyz; [|apply Hwf|by eapply list_elem_of_lookup_2].
        destruct (position_of y) as (n & sn & Hn & <-).
        { apply (wf_needs ir Hwf sz); [by eapply list_elem_of_lookup_2|done]. }
        exists n. split; [|left; by eapply IH]. apply (elem_of_needs_at k n sz Hk). by exists sn. }
    intros Hbf. by eapply H.
Qed.
End Upstream.

(** *** In the input *)

Lemma traverse_ok {A B E} (f : A -> Result E B) l ys : traverse f l = Ok ys -> Forall2 (fun x y => f x = Ok y) l ys.
Proof.
  revert ys; induction l as [|x l IH]; intros ys; cbn [traverse]; [by intros [= <-]|].
  destruct (f x) as [y|] eqn:Ef; [|done]. destruct (traverse f l) as [ys'|]; [|done]. intros [= <-]. constructor; [done|by apply IH].
Qed.
Lemma capped_ok {A} cap (l l' : list A) owner noun :
  capped cap l owner noun = Ok l' -> l' = l /\ (N.of_nat (length l) <= cap)%N.
Proof. unfold capped. destruct (N.leb_spec (N.of_nat (length l)) cap); [by intros [= <-]|done]. Qed.
Lemma filter_positions (P : nat * StepSpec -> Prop) {decP : forall p, Decision (P p)} (Q : StepSpec -> Prop) {decQ : forall s, Decision (Q s)} (l : list (nat * StepSpec)) :
  (forall p, p ∈ l -> P p <-> Q p.2) -> map snd (filter P l) = filter Q (map snd l).
Proof.
  induction l as [|p l IH]; intros H; [done|]. cbn [map]. rewrite !filter_cons.
  assert (map snd (filter P l) = filter Q (map snd l)) as E by (apply IH; intros q Hq; apply H; by right).
  pose proof (H p (list_elem_of_here _ _)) as Hp. destruct (decide (P p)), (decide (Q p.2)); try tauto. cbn. by rewrite E.
Qed.
Lemma map_snd_imap {A} (l : list A) : map snd (imap pair l) = l.
Proof. rewrite fmap_imap. trans (imap (const id) l); [by apply imap_ext|rewrite imap_const; apply list_fmap_id]. Qed.

(** Run one more step of a monadic definition that succeeds. *)
Ltac bind_ok E := lazymatch goal with |- mbind _ ?r = Ok _ -> _ => destruct r eqn:E; cbn [mbind result_bind]; [|done] end.

Section Exact.
Context {C : Cel} {F : Floats} {T : CharTables}.
Context (ir : PipelineIr) (facts : RunCreateFacts) (up : list N).
Hypothesis Hwf : well_formed ir.
Let steps := ir_steps ir.
Hypothesis Hup : forall i j s g bit, steps !! i = Some s -> steps !! j = Some g -> gate_bits 0 0 steps !! j = Some bit ->
    has_bit up i bit = true <-> before steps (st_id g) (st_id s).

Definition gates_upstream (s : StepSpec) : list StepSpec :=
  filter (fun g => is_gate g = true /\ st_id g ∈ upstream ir (st_id s)) steps.
Definition steps_downstream (g : StepSpec) : list StepSpec :=
  filter (fun s => is_gate s = false /\ st_id s ∈ downstream ir (st_id g)) steps.

Lemma upstream_before x y : y ∈ upstream ir x <-> before steps y x.
Proof. apply upstream_spec; apply Hwf. Qed.
Lemma downstream_before x y : y ∈ downstream ir x <-> before steps x y.
Proof. apply downstream_spec; apply Hwf. Qed.

Lemma item_step i s x :
  steps !! i = Some s -> input_item ir facts up (i, s) = Ok (IsStep x) ->
  is_gate s = false /\ si_id x = st_id s /\ map ug_id (si_upstream_gates x) = map st_id (gates_upstream s).
Proof.
  intros Hi. unfold input_item. fold steps. destruct (is_gate s) eqn:Eg; [bind_ok E1; bind_ok E2; by bind_ok E3|].
  bind_ok E1. bind_ok E2. bind_ok E3. bind_ok E4. bind_ok E5. bind_ok E6. intros [= <-]. split_and!; [done..|]. cbn [si_upstream_gates].
  apply capped_ok in E6 as [-> _]. apply traverse_ok in E1.
  trans (map (fun q : nat * StepSpec => st_id q.2)
    (filter (fun q => match gate_bits 0 0 steps !! q.1 with Some bit => has_bit up i bit | None => false end = true) (imap pair steps))).
  - clear -E1. induction E1 as [|q y l k Hq _ IH]; [done|]. cbn [map]. f_equal; [|exact IH].
    destruct (gate_kind q.2); [|done]. by injection Hq as <-.
  - unfold gates_upstream. rewrite <- (map_snd_imap steps) at 2. rewrite <- (filter_positions (fun q => match gate_bits 0 0 steps !! q.1 with Some bit => has_bit up i bit | None => false end = true)).
    + by rewrite map_map.
    + intros [j g] Hj%imap_pair_lookup. cbn [fst snd]. rewrite upstream_before.
      destruct (gate_bits 0 0 steps !! j) as [bit|] eqn:Eb.
      * rewrite (Hup i j s g bit Hi Hj Eb). split; [|tauto]. intros Hb. split; [|done].
        pose proof Eb as (_ & _ & g' & Hg' & Hgg)%gate_bits_some. rewrite Nat.sub_0_r, Hj in Hg'. by injection Hg' as ->.
      * split; [done|]. intros [Hg _]. destruct (gate_bits_gate 0 0 steps j g Hj Hg) as [b Hb]. cbn in Hb. congruence.
Qed.
Lemma item_gate i s x :
  steps !! i = Some s -> input_item ir facts up (i, s) = Ok (IsGate x) ->
  is_gate s = true /\ gi_id x = st_id s /\ gi_dependents x = map st_id (steps_downstream s).
Proof.
  intros Hi. unfold input_item. fold steps. destruct (is_gate s) eqn:Eg;
    [|bind_ok E1; bind_ok E2; bind_ok E3; bind_ok E4; bind_ok E5; by bind_ok E6].
  bind_ok E1. bind_ok E2. bind_ok E3. intros [= <-]. split_and!; [done..|]. cbn [gi_dependents].
  apply capped_ok in E3 as [-> _]. unfold steps_downstream. rewrite <- (map_snd_imap steps) at 2.
  destruct (gate_bits_gate 0 0 steps i s Hi Eg) as [bit Hb]. cbn [Nat.add] in Hb. rewrite Hb. cbn [from_option id].
  rewrite <- (filter_positions (fun q => is_gate q.2 = false /\ has_bit up q.1 bit = true)).
  - by rewrite map_map.
  - intros [j s'] Hj%imap_pair_lookup. cbn [fst snd]. by rewrite downstream_before, (Hup j i s' s bit Hj Hi Hb).
Qed.

Lemma items_spec items :
  traverse (input_item ir facts up) (imap pair steps) = Ok items ->
  map (fun x => (si_id x, map ug_id (si_upstream_gates x))) (omap (fun x => match x with IsStep s => Some s | IsGate _ => None end) items)
    = map (fun s => (st_id s, map st_id (gates_upstream s))) (filter (fun s => is_gate s = false) steps)
  /\ map (fun x => (gi_id x, gi_dependents x)) (omap (fun x => match x with IsGate g => Some g | IsStep _ => None end) items)
    = map (fun g => (st_id g, map st_id (steps_downstream g))) (filter (fun s => is_gate s = true) steps).
Proof.
  intros H%traverse_ok.
  assert (forall l, (forall p, p ∈ l -> steps !! p.1 = Some p.2) -> Forall2 (fun x y => input_item ir facts up x = Ok y) l items ->
    map (fun x => (si_id x, map ug_id (si_upstream_gates x))) (omap (fun x => match x with IsStep s => Some s | IsGate _ => None end) items)
      = map (fun s => (st_id s, map st_id (gates_upstream s))) (filter (fun s => is_gate s = false) (map snd l))
    /\ map (fun x => (gi_id x, gi_dependents x)) (omap (fun x => match x with IsGate g => Some g | IsStep _ => None end) items)
      = map (fun g => (st_id g, map st_id (steps_downstream g))) (filter (fun s => is_gate s = true) (map snd l))) as Hl.
  { clear H. intros l Hin H. induction H as [|[i s] y l k Hy _ IH]; [done|].
    destruct IH as [IH1 IH2]; [intros p Hp; apply Hin; by right|].
    pose proof (Hin (i, s) (list_elem_of_here _ _)) as Hi. cbn [fst snd] in Hi. cbn [map snd]. rewrite !filter_cons.
    destruct y as [x|x]; cbn [omap list_omap].
    - destruct (item_step i s x Hi Hy) as (Hg & Hid & Hu). rewrite Hg, decide_True, decide_False by done.
      split; [|exact IH2]. cbn [map]. by rewrite Hid, Hu, IH1.
    - destruct (item_gate i s x Hi Hy) as (Hg & Hid & Hu). rewrite Hg, decide_False, decide_True by done.
      split; [exact IH1|]. cbn [map]. by rewrite Hid, Hu, IH2. }
  specialize (Hl (imap pair steps)). rewrite map_snd_imap in Hl. apply Hl; [|exact H]. intros [i s] Hp%imap_pair_lookup. done.
Qed.
End Exact.

(** C30: the [run.create] input names, for every Step, exactly the gates that
    must release before it can start, and for every gate exactly the Steps it
    holds: the one pass with a bit per gate finds what the graph walks of the
    approval gate find, in Pipeline order, it never runs out of turns, and no
    Step or gate of the Pipeline is missing from the input. *)
Theorem input_gates_exact {C : Cel} {F : Floats} {T : CharTables} ir facts :
  well_formed ir ->
  exists r, input_from_pipeline ir facts = Some r /\
  forall input, r = Ok input ->
    map (fun s => (si_id s, map ug_id (si_upstream_gates s))) (ri_steps input)
      = map (fun s => (st_id s, map st_id (filter (fun g => is_gate g = true /\ st_id g ∈ upstream ir (st_id s)) (ir_steps ir))))
          (filter (fun s => is_gate s = false) (ir_steps ir)) /\
    map (fun g => (gi_id g, gi_dependents g)) (ri_gates input)
      = map (fun g => (st_id g, map st_id (filter (fun s => is_gate s = false /\ st_id s ∈ downstream ir (st_id g)) (ir_steps ir))))
          (filter (fun s => is_gate s = true) (ir_steps ir)).
Proof.
  intros Hwf. destruct (upstream_bits ir Hwf) as (up & Eu & Hup). unfold input_from_pipeline.
  destruct (check_run_caps ir); [|by eexists]. rewrite Eu. cbn [mbind option_bind]. eexists. split; [done|]. intros input.
  destruct (traverse _ _) as [items|] eqn:Et; [|done]. cbn [mbind result_bind].
  destruct (items_spec ir facts up Hwf Hup items Et) as [H1 H2].
  destruct (capped MAX_STEPS _ _ _) as [ss|] eqn:E1; [|done]. cbn [mbind result_bind].
  destruct (capped MAX_GATES _ _ _) as [gs|] eqn:E2; [|done]. cbn [mbind result_bind]. intros [= <-].
  apply capped_ok in E1 as [-> _]. apply capped_ok in E2 as [-> _]. split; [exact H1|exact H2].
Qed.

(** ** The input as a decision records it *)

Section Json.
Context {R : Rfc3339}.

Definition opt_json (s : option string) : Json := match s with Some s => JStr s | None => JNull end.
Definition strs_json (l : list string) : Json := JArr (map JStr l).
Definition trigger_json (t : Trigger) : Json :=
  JObj [("kind", JStr (trigger_kind_wire (tr_kind t))); ("ref", opt_json (tr_ref t)); ("sha", opt_json (tr_sha t));
        ("fork", JBool (tr_fork t)); ("actor", opt_json (tr_actor t)); ("principal", opt_json (tr_principal t));
        ("reason", opt_json (tr_reason t))].
Definition pipeline_json (p : PipelineInput) : Json :=
  JObj [("name", JStr (pi_name p)); ("environment", opt_json (pi_environment p)); ("deploy", JBool (pi_deploy p))].
Definition origin_json (o : Origin) : Json :=
  JObj [("kind", JStr (origin_kind_wire (oi_kind o))); ("name", JStr (oi_name o)); ("source", opt_json (oi_source o));
        ("content_hash", JStr (oi_content_hash o))].
Definition upstream_gate_json (g : UpstreamGate) : Json :=
  JObj [("id", JStr (ug_id g)); ("kind", JStr (gate_kind_wire (ug_kind g)))].
Definition step_json (s : Step) : Json :=
  JObj [("id", JStr (si_id s)); ("image", JStr (si_image s)); ("digest", opt_json (si_digest s));
        ("grants", strs_json (si_grants s)); ("k8s_overlay", JBool (si_k8s_overlay s)); ("secrets", strs_json (si_secrets s));
        ("placement_profiles", strs_json (si_placement_profiles s)); ("deploy", JBool (si_deploy s));
        ("forge_token", opt_json (forge_token_as_str <$> si_forge_token s));
        ("uses_environment_authority", JBool (si_uses_environment_authority s));
        ("origin", JArr (map origin_json (si_origin s)));
        ("upstream_gates", JArr (map upstream_gate_json (si_upstream_gates s)))].
Definition gate_json (g : Gate) : Json :=
  JObj [("id", JStr (gi_id g)); ("kind", JStr (gate_kind_wire (gi_kind g))); ("origin", JArr (map origin_json (gi_origin g)));
        ("dependents", strs_json (gi_dependents g))].
Definition named_json (name : string) : Json := JObj [("name", JStr name)].
Definition input_json (i : RunCreateInput) : Json :=
  JObj [("org", named_json (ri_org i)); ("project", named_json (ri_project i)); ("trigger", trigger_json (ri_trigger i));
        ("pipeline", pipeline_json (ri_pipeline i)); ("steps", JArr (map step_json (ri_steps i)));
        ("gates", JArr (map gate_json (ri_gates i))); ("principal", opt_json (ri_principal i));
        ("time", JStr (show_rfc3339 (ri_time i)))].

Context {C : Cel} {F : Floats} {T : CharTables}.

Definition too_long_message (e : StringTooLong) : string :=
  "`" +:+ tl_path e +:+ "` is " +:+ pretty (tl_len e) +:+ " bytes, more than the " +:+ pretty (tl_max e)
  +:+ " a run.create Policy can check, so the Run is refused".
Definition input_value (ir : PipelineIr) (facts : RunCreateFacts) : option (Result string Json) :=
  r ← input_from_pipeline ir facts;
  match r with
  | Err e => Some (Err e)
  | Ok input =>
      let value := input_json input in
      checked ← check_string_lengths run_create_schema value;
      Some (match checked with Ok _ => Ok value | Err e => Err (too_long_message e) end)
  end.

(** *** What is built binds *)

(** A time written by chrono is one it reads back. *)
Class Rfc3339Laws : Prop := { rfc3339_roundtrip t : parse_rfc3339 (show_rfc3339 t) = Ok t }.
Context {RL : Rfc3339Laws}.

(** The lists within their caps, as [Capped] keeps them. *)
Record step_capped (s : Step) : Prop := {
  cs_grants : (N.of_nat (length (si_grants s)) <= MAX_GRANTS)%N;
  cs_secrets : (N.of_nat (length (si_secrets s)) <= MAX_SECRETS)%N;
  cs_profiles : (N.of_nat (length (si_placement_profiles s)) <= MAX_PLACEMENT_PROFILES)%N;
  cs_origin : (N.of_nat (length (si_origin s)) <= MAX_ORIGIN)%N;
  cs_upstream : (N.of_nat (length (si_upstream_gates s)) <= MAX_UPSTREAM_GATES)%N;
}.
Record gate_capped (g : Gate) : Prop := {
  cg_origin : (N.of_nat (length (gi_origin g)) <= MAX_ORIGIN)%N;
  cg_dependents : (N.of_nat (length (gi_dependents g)) <= MAX_STEPS)%N;
}.

Abbreviation sc := run_create_schema.
(** One goal per declared field. *)
Ltac each_field name := constructor; let f := fresh "f" in let Hf := fresh "Hf" in intros f Hf;
  let l := eval vm_compute in (sd_fields (struct_decl sc name)) in
  assert (sd_fields (struct_decl sc name) = l) as E by (vm_compute; reflexivity); rewrite E in Hf; clear E;
  repeat (apply elem_of_cons in Hf as [->|Hf]; [|]); [..|by apply not_elem_of_nil in Hf]; cbn [fd_name fd_optional fd_ty].
Ltac present := right; eexists; split; [reflexivity|].
Ltac plain := present; first [apply sh_string|apply sh_bool].

Lemma shaped_opt m k o :
  json_get (JObj m) k = Some (opt_json o) ->
  (json_get (JObj m) k = Some JNull /\ true = true) \/ exists v, json_get (JObj m) k = Some v /\ shaped sc TyString v.
Proof. intros ->. destruct o; [right; eexists; split; [done|constructor]|by left]. Qed.
Lemma shaped_strs cap l : (N.of_nat (length l) <= cap)%N -> shaped sc (TyList TyString cap) (strs_json l).
Proof. intros H. constructor; [by rewrite length_map|]. intros v (s & -> & _)%list_elem_of_fmap. constructor. Qed.
Lemma shaped_list {A} (f : A -> Json) elem cap (l : list A) :
  (N.of_nat (length l) <= cap)%N -> (forall x, x ∈ l -> shaped sc elem (f x)) -> shaped sc (TyList elem cap) (JArr (map f l)).
Proof. intros H Hx. constructor; [by rewrite length_map|]. intros v (x & -> & Hin)%list_elem_of_fmap. by apply Hx. Qed.
Lemma shaped_enum name s : bool_decide (s ∈ ed_variants (enum_decl sc name)) = true -> shaped sc (TyEnum name) (JStr s).
Proof. intros H%bool_decide_eq_true. by constructor. Qed.

Lemma shaped_origin o : shaped sc (TyStruct "Origin") (origin_json o).
Proof.
  each_field "Origin"; try plain.
  - present. apply shaped_enum. destruct (oi_kind o); vm_compute; reflexivity.
  - by apply (shaped_opt _ _ (oi_source o)).
Qed.
Lemma shaped_upstream_gate g : shaped sc (TyStruct "UpstreamGate") (upstream_gate_json g).
Proof.
  each_field "UpstreamGate"; [plain|present]. apply shaped_enum. destruct (ug_kind g); vm_compute; reflexivity.
Qed.
Lemma shaped_step s : step_capped s -> shaped sc (TyStruct "Step") (step_json s).
Proof.
  intros [H1 H2 H3 H4 H5]. each_field "Step".
  1,2,5,8,10: plain.
  - by apply (shaped_opt _ _ (si_digest s)).
  - present. by apply shaped_strs.
  - present. by apply shaped_strs.
  - present. by apply shaped_strs.
  - destruct (si_forge_token s) as [t|]; [|left; split; reflexivity].
    present. apply shaped_enum. destruct t; vm_compute; reflexivity.
  - present. apply shaped_list; [done|]. intros o _. apply shaped_origin.
  - present. apply shaped_list; [done|]. intros o _. apply shaped_upstream_gate.
Qed.
Lemma shaped_gate g : gate_capped g -> shaped sc (TyStruct "Gate") (gate_json g).
Proof.
  intros [H1 H2]. each_field "Gate"; [plain|present..].
  - apply shaped_enum. destruct (gi_kind g); vm_compute; reflexivity.
  - apply shaped_list; [done|]. intros o _. apply shaped_origin.
  - by apply shaped_strs.
Qed.
Lemma shaped_named name struct : struct ∈ ["Org"; "Project"] -> shaped sc (TyStruct struct) (named_json name).
Proof.
  intros Hs. repeat (apply elem_of_cons in Hs as [->|Hs]; [|]); [..|by apply not_elem_of_nil in Hs].
  - each_field "Org"; plain.
  - each_field "Project"; plain.
Qed.
Lemma shaped_trigger t : shaped sc (TyStruct "Trigger") (trigger_json t).
Proof.
  each_field "Trigger".
  - present. apply shaped_enum. destruct (tr_kind t); vm_compute; reflexivity.
  - by apply (shaped_opt _ _ (tr_ref t)).
  - by apply (shaped_opt _ _ (tr_sha t)).
  - plain.
  - by apply (shaped_opt _ _ (tr_actor t)).
  - by apply (shaped_opt _ _ (tr_principal t)).
  - by apply (shaped_opt _ _ (tr_reason t)).
Qed.
Lemma shaped_pipeline p : shaped sc (TyStruct "Pipeline") (pipeline_json p).
Proof.
  each_field "Pipeline"; [plain|by apply (shaped_opt _ _ (pi_environment p))|plain].
Qed.

Lemma input_item_capped ir facts up p x : input_item ir facts up p = Ok x ->
  match x with IsStep s => step_capped s | IsGate g => gate_capped g end.
Proof.
  destruct p as [i s]. unfold input_item. destruct (is_gate s).
  - bind_ok E1. bind_ok E2. bind_ok E3. intros [= <-]. apply capped_ok in E2 as [-> H2], E3 as [-> H3]. by split.
  - bind_ok E1. bind_ok E2. bind_ok E3. bind_ok E4. bind_ok E5. bind_ok E6. intros [= <-].
    apply capped_ok in E2 as [-> H2], E3 as [-> H3], E4 as [-> H4], E5 as [-> H5], E6 as [-> H6]. by split.
Qed.
Lemma input_capped ir facts input : input_from_pipeline ir facts = Some (Ok input) ->
  (N.of_nat (length (ri_steps input)) <= MAX_STEPS)%N /\ (N.of_nat (length (ri_gates input)) <= MAX_GATES)%N
  /\ (forall s, s ∈ ri_steps input -> step_capped s) /\ (forall g, g ∈ ri_gates input -> gate_capped g).
Proof.
  unfold input_from_pipeline. destruct (check_run_caps ir); [|done]. destruct (upstream_gates_of ir) as [up|]; [|done].
  cbn [mbind option_bind]. intros [= H]. revert H. bind_ok Et. bind_ok E1. bind_ok E2. intros [= <-]. cbn [ri_steps ri_gates].
  apply capped_ok in E1 as [-> H1], E2 as [-> H2]. apply traverse_ok in Et. split_and!; [done..| |].
  - intros s (x & Hx & Es)%list_elem_of_omap. destruct x as [s'|]; [injection Es as <-|done].
    apply list_elem_of_lookup_1 in Hx as [i Hi]. destruct (Forall2_lookup_r _ _ _ _ _ Et Hi) as (p & _ & Hp).
    by apply input_item_capped in Hp.
  - intros g (x & Hx & Es)%list_elem_of_omap. destruct x as [|g']; [done|injection Es as <-].
    apply list_elem_of_lookup_1 in Hx as [i Hi]. destruct (Forall2_lookup_r _ _ _ _ _ Et Hi) as (p & _ & Hp).
    by apply input_item_capped in Hp.
Qed.

(** Without list caps the walk reports no list. *)
Lemma strings_only v : forall sc' ty max path e, walk_strings sc' false v ty max path = Err (OcList e) -> False.
Proof.
  induction v as [|b|z|t|s|l IH|m IH] using json_induction; intros sc' ty max path e; cbn [walk_strings]; try done.
  - by destruct (max <? str_len s)%N.
  - destruct ty as [| | | | | | | | | |elem cap| | |]; try done. rewrite andb_false_l. generalize 0%N at 1.
    induction l as [|v l IHl]; intros i; [done|]. cbn.
    destruct (walk_strings sc' false v elem max _) as [|[e'|e']] eqn:Ev; [|done|intros _; apply (IH v (list_elem_of_here _ _) _ _ _ _ _ Ev)].
    apply IHl. intros w Hw. apply IH. by right.
  - destruct ty as [| | | | | | | | | | | |name|]; try done. induction (sd_fields _) as [|f fs IHf]; [done|]. cbn [walk_fields].
    destruct (with_field _ (fd_name f) m) as [r|] eqn:Ew; cbn [from_option id]; [|exact IHf].
    apply with_field_some in Ew as (v & Hv & -> & _).
    destruct (walk_strings sc' false v _ _ _) as [|[e'|e']] eqn:Ev; [exact IHf|done|intros _; apply (IH _ _ Hv _ _ _ _ _ Ev)].
Qed.
Lemma strings_checked sc' input : exists r, check_string_lengths sc' input = Some r.
Proof.
  unfold check_string_lengths. destruct (walk_input sc' input false) as [|[e|e]] eqn:E; [by eexists..|]. exfalso. revert E.
  unfold walk_input. induction (sc_variables sc') as [|var l IH]; [done|]. cbn [walk_fields].
  destruct (json_get input (fd_name var)) as [v|]; [|exact IH].
  destruct (walk_strings sc' false v _ _ _) as [|[e'|e']] eqn:Ev; [exact IH|done|intros _; apply (strings_only _ _ _ _ _ _ Ev)].
Qed.

Lemma built_shape input :
  (N.of_nat (length (ri_steps input)) <= MAX_STEPS)%N -> (N.of_nat (length (ri_gates input)) <= MAX_GATES)%N ->
  (forall s, s ∈ ri_steps input -> step_capped s) -> (forall g, g ∈ ri_gates input -> gate_capped g) ->
  forall var, var ∈ sc_variables sc ->
     (json_get (input_json input) (fd_name var) = Some JNull /\ fd_optional var = true)
     \/ exists v, json_get (input_json input) (fd_name var) = Some v /\ shaped sc (fd_ty var) v.
Proof.
  intros H1 H2 H3 H4 f Hf.
  let l := eval vm_compute in (sc_variables sc) in
  assert (sc_variables sc = l) as E by (vm_compute; reflexivity); rewrite E in Hf; clear E.
  repeat (apply elem_of_cons in Hf as [->|Hf]; [|]); [..|by apply not_elem_of_nil in Hf]; cbn [fd_name fd_optional fd_ty].
  - present. apply shaped_named. left.
  - present. apply shaped_named. right; left.
  - present. apply shaped_trigger.
  - present. apply shaped_pipeline.
  - present. apply shaped_list; [done|]. intros s Hs. by apply shaped_step, H3.
  - present. apply shaped_list; [done|]. intros g Hg. by apply shaped_gate, H4.
  - by apply (shaped_opt _ _ (ri_principal input)).
  - present. apply (sh_timestamp _ _ (ri_time input)). apply rfc3339_roundtrip.
Qed.
End Json.

(** Whatever Pipeline Run creation builds an input from, the result is
    either a refusal that names the cap it breaks or an input that binds: no
    Policy ever sees, and no audit ever records, an input the schema its rules
    were checked against does not fit. *)
Theorem built_input_binds {R : Rfc3339} {RL : Rfc3339Laws} {C : Cel} {F : Floats} {T : CharTables} ir facts :
  well_formed ir ->
  exists r, input_value ir facts = Some r /\ forall value, r = Ok value -> is_ok (bind_input run_create_schema value) = true.
Proof.
  intros Hwf. unfold input_value. destruct (upstream_bits ir Hwf) as (up & Eu & _).
  destruct (input_from_pipeline ir facts) as [[input|e]|] eqn:Ei; cbn [mbind option_bind].
  - destruct (strings_checked run_create_schema (input_json input)) as [r Er]. rewrite Er. cbn [mbind option_bind].
    eexists. split; [done|]. intros value. destruct r as [[]|e]; [intros [= <-]|done].
    apply input_capped in Ei as (H1 & H2 & H3 & H4). apply shaped_input_binds; [by eexists|by apply built_shape|].
    revert Er. unfold check_string_lengths. by destruct (walk_input _ _ _) as [[]|[]].
  - eexists. split; [done|]. done.
  - exfalso. revert Ei. unfold input_from_pipeline. destruct (check_run_caps ir); [|done]. by rewrite Eu.
Qed.

(** ** Witnesses *)

(** A clock that counts in strokes. *)
Fixpoint strokes (n : nat) : string := match n with 0 => "" | S n' => String "|" (strokes n') end.
Definition stroke_clock : Rfc3339 := {|
  parse_rfc3339 s := match s with
                     | String "-" r => Ok (- Z.of_nat (String.length r))%Z
                     | _ => Ok (Z.of_nat (String.length s))
                     end;
  show_rfc3339 t := if bool_decide (t < 0)%Z then String "-" (strokes (Z.to_nat (- t))) else strokes (Z.to_nat t);
|}.
Lemma strokes_length n : String.length (strokes n) = n.
Proof. induction n as [|n IH]; [done|]. cbn. by rewrite IH. Qed.
Lemma stroke_clock_laws : Rfc3339Laws (R := stroke_clock).
Proof.
  split. intros t. cbn. case_bool_decide as Ht.
  - f_equal. rewrite strokes_length. lia.
  - destruct (Z.to_nat t) as [|n] eqn:E; cbn; f_equal; [lia|]. rewrite strokes_length. lia.
Qed.

Definition guarded_pipeline : PipelineIr :=
  pipeline_of [needing "build" []; set_needs ["build"] (bare_gate "approve" "manual");
               with_token (needing "publish" ["approve"]); needing "announce" ["publish"]].
Lemma guarded_well_formed : well_formed guarded_pipeline.
Proof. apply well_formed_checked; [apply (bool_decide_unpack _); vm_compute; exact I..|vm_compute; reflexivity]. Qed.
Definition some_facts : RunCreateFacts :=
  mkFacts "acme" "shop" (mkTrigger TkPush (Some "refs/heads/main") None false None None None) ".scarab/deploy.yaml" None None 0 ∅ ∅.

Lemma input_gates_exact_witness :
  exists input, input_from_pipeline (C := dotted_cel) (F := no_floats) (T := ascii_tables) guarded_pipeline some_facts = Some (Ok input) /\
    map (fun g => (gi_id g, gi_dependents g)) (ri_gates input) = [("approve", ["publish"; "announce"])].
Proof.
  destruct (input_gates_exact (C := dotted_cel) (F := no_floats) (T := ascii_tables) guarded_pipeline some_facts guarded_well_formed)
    as (r & Er & H).
  destruct r as [input|e]; [exists input|exfalso].
  - split; [exact Er|]. destruct (H input eq_refl) as [_ Hg]. rewrite Hg. vm_compute. reflexivity.
  - assert (match input_from_pipeline (C := dotted_cel) (F := no_floats) (T := ascii_tables) guarded_pipeline some_facts with
            | Some (Ok _) => true | _ => false end = true) as Hv by (vm_compute; reflexivity).
    rewrite Er in Hv. discriminate Hv.
Defined.

Lemma built_input_binds_witness :
  exists value, input_value (R := stroke_clock) (C := dotted_cel) (F := no_floats) (T := ascii_tables) guarded_pipeline some_facts = Some (Ok value) /\
    is_ok (bind_input (R := stroke_clock) run_create_schema value) = true.
Proof.
  destruct (built_input_binds (R := stroke_clock) (RL := stroke_clock_laws) (C := dotted_cel) (F := no_floats) (T := ascii_tables)
              guarded_pipeline some_facts guarded_well_formed) as (r & Er & H).
  destruct r as [value|e]; [exists value; split; [exact Er|exact (H value eq_refl)]|exfalso].
  assert (match input_value (R := stroke_clock) (C := dotted_cel) (F := no_floats) (T := ascii_tables) guarded_pipeline some_facts with
          | Some (Ok _) => true | _ => false end = true) as Hv by (vm_compute; reflexivity).
  rewrite Er in Hv. discriminate Hv.
Defined.
