(* ===== verification/Policies.v ===== *)
(** * Policies and their decisions (scarab-policy/src/policy.rs, ir.rs,
    evaluate.rs, store.rs and [evaluate_when] of eval.rs)

    What an admin authors, what it is compiled to, and how every Policy that
    fits a consultation is evaluated and combined into one decision. The CEL
    type checker is a parameter, and so are the [cel] and [sha2] crates. *)

From S2P Require Import Prelude Graph Text Globs Values Cel Params Scopes Render Ir Approvals Schema RunCreate.

(** ** Authored Policies *)

Inductive Checkpoint : Set := RunCreate | StepAdmit | GateResolve.
#[export] Instance Checkpoint_eq_dec : EqDecision Checkpoint.
Proof. solve_decision. Defined.
Definition checkpoint_as_str (c : Checkpoint) : string :=
  match c with RunCreate => "run.create" | StepAdmit => "step.admit" | GateResolve => "gate.resolve" end.
Definition checkpoints : list Checkpoint := [RunCreate; StepAdmit; GateResolve].
Definition parse_checkpoint (s : string) : option Checkpoint := List.find (fun c => String.eqb (checkpoint_as_str c) s) checkpoints.
Definition is_consulted (c : Checkpoint) : bool := match c with RunCreate | GateResolve | StepAdmit => true end.

Inductive Effect : Type := Deny | RequireApproval (principals : list string) (count : N) | RequireStepUp.
#[export] Instance Effect_eq_dec : EqDecision Effect.
Proof. solve_decision. Defined.
Definition effect_name (e : Effect) : string :=
  match e with Deny => "deny" | RequireApproval _ _ => "require_approval" | RequireStepUp => "require_step_up" end.
Definition checkpoint_allows (c : Checkpoint) (e : Effect) : bool :=
  match e with Deny => true | _ => bool_decide (c = GateResolve) end.

Inductive Mode : Set := Enforce | Audit.
#[export] Instance Mode_eq_dec : EqDecision Mode.
Proof. solve_decision. Defined.
Record Match := mkMatch {
  mt_projects : list string;
  mt_except_projects : list string;
  mt_environments : list string;
  mt_trigger_kinds : list TriggerKind;
}.
Record Rule := mkRule { ru_when : string; ru_effect : Effect; ru_message : string }.
Inductive TypedSetting : Type :=
| LibrariesAllowed (sources : list string)
| LibrariesBlocked (sources : list string)
| PluginsAllowed (installations : list string).
Definition setting_name (s : TypedSetting) : string :=
  match s with LibrariesAllowed _ => "libraries_allowed" | LibrariesBlocked _ => "libraries_blocked" | PluginsAllowed _ => "plugins_allowed" end.
Inductive Body : Type := BodyRules (rules : list Rule) | BodySetting (s : TypedSetting).
Record Policy := mkPolicy {
  po_name : string;
  po_checkpoint : Checkpoint;
  po_match : Match;
  po_mode : Mode;
  po_body : Body;
}.
Definition is_typed_setting (p : Policy) : bool := match po_body p with BodySetting _ => true | BodyRules _ => false end.

(** *** On the wire *)

Record PolicyWire := mkWire {
  pw_kind : option string;
  pw_name : string;
  pw_checkpoint : Checkpoint;
  pw_match : Match;
  pw_mode : Mode;
  pw_rules : option (list Rule);
  pw_setting : option TypedSetting;
}.
Definition policy_of_wire (w : PolicyWire) : Result string Policy :=
  match pw_kind w with
  | Some kind => if String.eqb kind "policy" then Ok tt else Err ("`kind` is `" +:+ kind +:+ "`; a Policy's kind is `policy`")
  | None => Ok tt
  end ≫= fun _ =>
  match pw_rules w, pw_setting w with
  | Some rules, None => Ok (BodyRules rules)
  | None, Some s => Ok (BodySetting s)
  | Some _, Some _ => Err "a Policy has `rules` or a `setting`, not both"
  | None, None => Err "a Policy needs `rules` or a `setting`"
  end ≫= fun body =>
  Ok (mkPolicy (pw_name w) (pw_checkpoint w) (pw_match w) (pw_mode w) body).
Definition wire_of_policy (p : Policy) : PolicyWire :=
  mkWire None (po_name p) (po_checkpoint p) (po_match p) (po_mode p)
    (match po_body p with BodyRules r => Some r | BodySetting _ => None end)
    (match po_body p with BodyRules _ => None | BodySetting s => Some s end).

Definition effect_json (e : Effect) : Json :=
  match e with
  | Deny => JStr "deny"
  | RequireApproval principals count =>
      JObj [("require_approval", JObj [("principals", strs_json principals); ("count", JInt (Z.of_N count))])]
  | RequireStepUp => JStr "require_step_up"
  end.
Definition rule_json (r : Rule) : Json :=
  JObj [("when", JStr (ru_when r)); ("effect", effect_json (ru_effect r)); ("message", JStr (ru_message r))].
Definition setting_json (s : TypedSetting) : Json :=
  match s with
  | LibrariesAllowed l => JObj [("libraries_allowed", JObj [("sources", strs_json l)])]
  | LibrariesBlocked l => JObj [("libraries_blocked", JObj [("sources", strs_json l)])]
  | PluginsAllowed l => JObj [("plugins_allowed", JObj [("installations", strs_json l)])]
  end.
Definition match_json (m : Match) : Json :=
  JObj [("projects", strs_json (mt_projects m)); ("except_projects", strs_json (mt_except_projects m));
        ("environments", strs_json (mt_environments m));
        ("trigger_kinds", JArr (map (fun k => JStr (trigger_kind_wire k)) (mt_trigger_kinds m)))].
Definition mode_wire (m : Mode) : string := match m with Enforce => "enforce" | Audit => "audit" end.
Definition policy_json (p : Policy) : Json :=
  let w := wire_of_policy p in
  JObj ([("name", JStr (pw_name w)); ("checkpoint", JStr (checkpoint_as_str (pw_checkpoint w)));
         ("match", match_json (pw_match w)); ("mode", JStr (mode_wire (pw_mode w)))]
        ++ match pw_rules w with Some r => [("rules", JArr (map rule_json r))] | None => [] end
        ++ match pw_setting w with Some s => [("setting", setting_json s)] | None => [] end).

Fixpoint canonical_json (v : Json) : string :=
  match v with
  | JObj m =>
      let entries : gmap string string := list_to_map (map (fun p => (p.1, canonical_json p.2)) m) in
      "{" +:+ join "," (map (fun p => json_string p.1 +:+ ":" +:+ p.2) (btree_list entries)) +:+ "}"
  | JArr l => "[" +:+ join "," (map canonical_json l) +:+ "]"
  | scalar => json_text scalar
  end.
Definition policy_canonical_json (p : Policy) : string := canonical_json (policy_json p).

(** ** The compiled form *)

Record Diagnostic := mkDiagnostic { dg_at : string; dg_line : N; dg_column : N; dg_expr : string; dg_message : string }.
Definition diagnostic_at (at_ message : string) : Diagnostic := mkDiagnostic at_ 0 0 "" message.
Definition show_diagnostic (d : Diagnostic) : string :=
  (if String.eqb (dg_at d) "" then "" else dg_at d +:+ ": ")
  +:+ (if (dg_line d =? 0)%N then dg_message d
       else pretty (dg_line d) +:+ ":" +:+ pretty (dg_column d) +:+ ": `" +:+ dg_expr d +:+ "`: " +:+ dg_message d).
Definition located (at_ : string) (d : Diagnostic) : Diagnostic :=
  mkDiagnostic at_ (dg_line d) (dg_column d) (dg_expr d) (dg_message d).

Inductive Level : Set := LOrg | LProject.
#[export] Instance Level_eq_dec : EqDecision Level.
Proof. solve_decision. Defined.
Record CelPredicate := mkCelPredicate { cp_source : string; cp_cost : N; cp_warnings : list Diagnostic; cp_reads : list string }.
Inductive Predicate : Type := PCel (c : CelPredicate) | PTyped (t : TypedSetting).
Record RuleIr := mkRuleIr { rl_predicate : Predicate; rl_effect : Effect; rl_message : string }.
Record PolicyIr := mkPolicyIr {
  pl_policy_id : string;
  pl_version : N;
  pl_content_hash : string;
  pl_name : string;
  pl_level : Level;
  pl_checkpoint : Checkpoint;
  pl_match : Match;
  pl_mode : Mode;
  pl_rules : list RuleIr;
}.
Definition with_identity (id : string) (version : N) (p : PolicyIr) : PolicyIr :=
  mkPolicyIr id version (pl_content_hash p) (pl_name p) (pl_level p) (pl_checkpoint p) (pl_match p) (pl_mode p) (pl_rules p).
Definition warnings (p : PolicyIr) : list Diagnostic :=
  flat_map (fun r => match rl_predicate r with PCel c => cp_warnings c | PTyped _ => [] end) (pl_rules p).

Definition schema_for (c : Checkpoint) (version : N) : option Schema :=
  match c with
  | RunCreate => if (version =? RUN_CREATE_SCHEMA_VERSION)%N then Some run_create_schema else None
  | GateResolve => if (version =? GATE_RESOLVE_SCHEMA_VERSION)%N then Some gate_resolve_schema else None
  | StepAdmit => if (version =? STEP_ADMIT_SCHEMA_VERSION)%N then Some step_admit_schema else None
  end.
Definition schema_version (c : Checkpoint) : option N :=
  match c with
  | RunCreate => Some RUN_CREATE_SCHEMA_VERSION
  | GateResolve => Some GATE_RESOLVE_SCHEMA_VERSION
  | StepAdmit => Some STEP_ADMIT_SCHEMA_VERSION
  end.

(** *** Validation *)

Definition MAX_NAME_LEN : nat := 100.
Definition MAX_RULES : nat := 32.
Definition MAX_LIST : nat := 256.
Definition MAX_TEXT_LEN : N := 1024.

Definition validate_name (name : string) : list Diagnostic :=
  if String.eqb name "" || (MAX_NAME_LEN <? String.length name)
     || negb (all_bytes (fun c => is_alphanumeric c || has_char c "-_.") name)
  then [diagnostic_at "name" ("`" +:+ name +:+ "`: a Policy name is 1 to " +:+ pretty MAX_NAME_LEN +:+ " letters, digits, `-`, `_` or `.`")]
  else [].
Definition validate_text (text at_ what : string) : list Diagnostic :=
  if String.eqb (trim text) "" then [diagnostic_at at_ (what +:+ " cannot be empty")]
  else if (MAX_TEXT_LEN <? str_len text)%N then [diagnostic_at at_ (what +:+ " is at most " +:+ pretty MAX_TEXT_LEN +:+ " bytes")]
  else [].
Definition indexed (at_ : string) (i : nat) : string := at_ +:+ "[" +:+ pretty i +:+ "]".
Definition validate_list (l : list string) (at_ : string) : list Diagnostic :=
  (if MAX_LIST <? length l
   then [diagnostic_at at_ ("at most " +:+ pretty MAX_LIST +:+ " entries; this has " +:+ pretty (length l))] else [])
  ++ concat (imap (fun i item => validate_text item (indexed at_ i) "an entry") l).
Definition validate_match (m : Match) : list Diagnostic :=
  validate_list (mt_projects m) "match.projects" ++ validate_list (mt_except_projects m) "match.except_projects"
  ++ validate_list (mt_environments m) "match.environments"
  ++ (if MAX_LIST <? length (mt_trigger_kinds m)
      then [diagnostic_at "match.trigger_kinds" ("at most " +:+ pretty MAX_LIST +:+ " entries")] else []).

(** [p.find('*').is_some_and(|w| w != p.len() - 1)]. *)
Definition star_inside (p : string) : bool :=
  match find_str "*" p with Some w => negb (w =? String.length p - 1) | None => false end.
Definition compile_setting (s : TypedSetting) : RuleIr * list Diagnostic :=
  let '(field, l) := match s with
                     | LibrariesAllowed l | LibrariesBlocked l => ("sources", l)
                     | PluginsAllowed l => ("installations", l)
                     end in
  let at_ := "setting." +:+ setting_name s +:+ "." +:+ field in
  let exact := String.eqb field "installations" in
  let patterns := concat (imap (fun i p =>
    if star_inside p || (exact && has_char "*" p)
    then [diagnostic_at (indexed at_ i)
            (if exact then "`" +:+ p +:+ "`: an installation is named exactly, with no `*`"
             else "`" +:+ p +:+ "`: a pattern is an exact name or a prefix ending in `*`")]
    else []) l) in
  (mkRuleIr (PTyped s) Deny
     (match s with
      | LibrariesAllowed _ => "This Run uses a library that is not allowed here."
      | LibrariesBlocked _ => "This Run uses a blocked library."
      | PluginsAllowed _ => "This Run has a gate from a plugin that is not allowed here."
      end),
   validate_list l at_ ++ patterns).

Record Checked := mkChecked { ck_source : string; ck_cost : N; ck_warnings : list Diagnostic; ck_reads : list string }.

(** The type checker ([check.rs]), the hash, and the [cel] crate's parser and
    evaluator for rules; a panic of either ends the evaluation thread. *)
Class PolicyPorts := {
  sha256_hex : string -> string;
  Patterns : Type;
  no_patterns : Patterns;
  check_in : Schema -> string -> Patterns -> Result (list Diagnostic) Checked * Patterns;
  rule_parse : string -> Result string CelExpr;
  rule_resolve : CelExpr -> gmap string CelValue -> CelRun CelValue;
  show_value : CelValue -> string;
}.

Section Engine.
Context {P : PolicyPorts} {R : Rfc3339}.

Definition content_hash (p : Policy) : string := sha256_hex (policy_canonical_json p).

Definition effect_findings (c : Checkpoint) (e : Effect) (at_ : string) : list Diagnostic :=
  if checkpoint_allows c e && bool_decide (e <> Deny)
  then [diagnostic_at (at_ +:+ ".effect")
          ("`" +:+ effect_name e +:+ "` is not built yet at `" +:+ checkpoint_as_str c +:+ "`; only `deny` is evaluated")]
  else if negb (checkpoint_allows c e)
  then [diagnostic_at (at_ +:+ ".effect")
          ("`" +:+ effect_name e +:+ "` is not allowed at `" +:+ checkpoint_as_str c +:+ "`, which allows `deny` only")]
  else [].
Fixpoint compile_rules (c : Checkpoint) (schema : Schema) (i : nat) (rules : list Rule) (patterns : Patterns)
  : list RuleIr * list Diagnostic :=
  match rules with
  | [] => ([], [])
  | rule :: rest =>
      let at_ := indexed "rules" i in
      let found := effect_findings c (ru_effect rule) at_ ++ validate_text (ru_message rule) (at_ +:+ ".message") "a message" in
      let '(checked, patterns') := check_in schema (ru_when rule) patterns in
      let '(out, errors) := compile_rules c schema (S i) rest patterns' in
      match checked with
      | Ok k => (mkRuleIr (PCel (mkCelPredicate (ck_source k) (ck_cost k) (map (located (at_ +:+ ".when")) (ck_warnings k)) (ck_reads k)))
                   (ru_effect rule) (ru_message rule) :: out, found ++ errors)
      | Err ds => (out, found ++ map (located (at_ +:+ ".when")) ds ++ errors)
      end
  end.
Definition compile_body (p : Policy) (level : Level) (schema : Schema) : list RuleIr * list Diagnostic :=
  match po_body p with
  | BodyRules rules =>
      if bool_decide (level = LProject)
      then ([], [diagnostic_at "rules" "Project admins write typed settings only (ADR-0075 §7); use `setting`, or write CEL rules at the org level"])
      else
        let counts := (if is_nil rules then [diagnostic_at "rules" "a Policy needs at least one rule"] else [])
          ++ (if MAX_RULES <? length rules
              then [diagnostic_at "rules" ("a Policy has at most " +:+ pretty MAX_RULES +:+ " rules; this one has " +:+ pretty (length rules))]
              else []) in
        let '(out, errors) := compile_rules (po_checkpoint p) schema 0 rules no_patterns in
        (out, counts ++ errors)
  | BodySetting s =>
      let '(r, errors) := compile_setting s in
      ([r], (if bool_decide (po_checkpoint p <> RunCreate)
             then [diagnostic_at "checkpoint" ("`" +:+ setting_name s +:+ "` compiles to `run.create`, not `" +:+ checkpoint_as_str (po_checkpoint p) +:+ "`")]
             else []) ++ errors)
  end.
Definition compile (p : Policy) (level : Level) : Result (list Diagnostic) PolicyIr :=
  let first := validate_name (po_name p) ++ validate_match (po_match p) in
  if negb (is_consulted (po_checkpoint p)) then
    Err (first ++ [diagnostic_at "checkpoint" ("checkpoint `" +:+ checkpoint_as_str (po_checkpoint p) +:+ "` is not yet supported")])
  else
    let triggers := if bool_decide (po_checkpoint p <> RunCreate) && negb (is_nil (mt_trigger_kinds (po_match p)))
      then [diagnostic_at "match.trigger_kinds" ("`trigger_kinds` is matched at `run.create` only, not at `" +:+ checkpoint_as_str (po_checkpoint p) +:+ "`")]
      else [] in
    let schema := default no_schema (schema_version (po_checkpoint p) ≫= schema_for (po_checkpoint p)) in
    let '(rules, errors) := compile_body p level schema in
    let all := first ++ triggers ++ errors in
    if is_nil all then Ok (mkPolicyIr "" 0 (content_hash p) (po_name p) level (po_checkpoint p) (po_match p) (po_mode p) rules)
    else Err all.

(** ** Stored Policies *)

Inductive PolicyScope : Type := ScopeOrg (org : string) | ScopeProject (org project : string).
Definition scope_level (s : PolicyScope) : Level := match s with ScopeOrg _ => LOrg | ScopeProject _ _ => LProject end.
Definition scope_org (s : PolicyScope) : string := match s with ScopeOrg o | ScopeProject o _ => o end.
Definition scope_project (s : PolicyScope) : option string := match s with ScopeOrg _ => None | ScopeProject _ p => Some p end.
Record StoredPolicy := mkStored {
  sp_id : string;
  sp_scope : PolicyScope;
  sp_name : string;
  sp_version : N;
  sp_body : Policy;
  sp_content_hash : string;
  sp_created_at : Z;
  sp_updated_at : Z;
  sp_deleted : bool;
}.
Definition stored_compile (p : StoredPolicy) : Result (list Diagnostic) PolicyIr :=
  ir ← compile (sp_body p) (scope_level (sp_scope p));
  Ok (with_identity (sp_id p) (sp_version p) ir).

(** ** Consultations *)

Record MatchContext := mkMatchContext { mc_project : string; mc_environment : option string; mc_trigger_kind : TriggerKind }.
Definition any_glob (globs : list string) (v : string) : bool := existsb (fun g => glob_matches g v) globs.
Definition matches (m : Match) (ctx : MatchContext) : bool :=
  (is_nil (mt_projects m) || any_glob (mt_projects m) (mc_project ctx))
  && negb (any_glob (mt_except_projects m) (mc_project ctx))
  && (is_nil (mt_environments m) || match mc_environment ctx with Some e => any_glob (mt_environments m) e | None => false end)
  && (is_nil (mt_trigger_kinds m) || bool_decide (mc_trigger_kind ctx ∈ mt_trigger_kinds m)).

Inductive PolicyOutcome : Type :=
| NotMatched
| Passed
| Denied (messages : list string)
| WouldDeny (messages : list string)
| OutError (message : string)
| GateAdded (gate : string) (fronts : list string)
| Requires (messages : list string).
Record PolicyResult := mkResult {
  pr_policy_id : string;
  pr_version : N;
  pr_name : string;
  pr_level : Level;
  pr_mode : Mode;
  pr_outcome : PolicyOutcome;
}.
Inductive DecisionOutcome : Type := Allow | DoDeny (messages : list string).
Record PolicyDecision := mkDecision {
  de_checkpoint : Checkpoint;
  de_schema_version : N;
  de_input : Json;
  de_policy_set_digest : string;
  de_results : list PolicyResult;
  de_outcome : DecisionOutcome;
}.
Definition is_denied (d : PolicyDecision) : bool := match de_outcome d with DoDeny _ => true | Allow => false end.
Definition decision_messages (d : PolicyDecision) : list string := match de_outcome d with DoDeny m => m | Allow => [] end.
Definition enforced (l : list PolicyResult) : list PolicyResult := filter (fun r => pr_mode r = Enforce) l.
Definition unmet_requirements (d : PolicyDecision) : list string :=
  flat_map (fun r => match pr_outcome r with Requires m => m | _ => [] end) (enforced (de_results d)).
Definition attributed_messages (d : PolicyDecision) : list string :=
  flat_map (fun r => match pr_outcome r with
                     | Denied m => map (fun m => "policy `" +:+ pr_name r +:+ "`: " +:+ m) m
                     | OutError m => ["policy `" +:+ pr_name r +:+ "`: " +:+ m]
                     | _ => []
                     end) (enforced (de_results d)).
Definition not_matched (o : PolicyOutcome) : bool := match o with NotMatched => true | _ => false end.
Definition any_matched (d : PolicyDecision) : bool := existsb (fun r => negb (not_matched (pr_outcome r))) (de_results d).

Definition policy_set_digest (c : Checkpoint) (policies : list PolicyIr) : string :=
  sha256_hex (join newline (merge_sort str_le
    (map (fun p => pl_policy_id p +:+ "@" +:+ pretty (pl_version p) +:+ ":" +:+ pl_content_hash p)
       (filter (fun p => pl_checkpoint p = c) policies)))).
Definition result_of (p : PolicyIr) (o : PolicyOutcome) : PolicyResult :=
  mkResult (pl_policy_id p) (pl_version p) (pl_name p) (pl_level p) (pl_mode p) o.

(** Any enforced deny or error denies, with every such message. *)
Definition objection (r : PolicyResult) : list string :=
  match pr_mode r, pr_outcome r with
  | Enforce, Denied m => m
  | Enforce, OutError m => [m]
  | _, _ => []
  end.
Definition combine (results : list PolicyResult) : DecisionOutcome :=
  let messages := flat_map objection results in
  if is_nil messages then Allow else DoDeny messages.

(** ** One rule *)

Definition MAX_TYPED_MESSAGES : nat := 10.
Record OriginRef := mkOriginRef { or_kind : string; or_name : string; or_source : option string }.
Definition origin_key (o : OriginRef) : string := default (or_name o) (or_source o).
Definition describe (o : OriginRef) : string :=
  if String.eqb (or_kind o) "file" then "file `" +:+ or_name o +:+ "`"
  else if String.eqb (or_kind o) "plugin" then "plugin `" +:+ or_name o +:+ "`"
  else "library `" +:+ origin_key o +:+ "`".
Record Unit := mkUnit { un_what : string; un_id : string; un_origins : list OriginRef }.

Fixpoint traverse_i {A B} (f : nat -> A -> Result string B) (i : nat) (l : list A) : Result string (list B) :=
  match l with
  | [] => Ok []
  | x :: l' => match f i x with
               | Err e => Err e
               | Ok y => match traverse_i f (S i) l' with Ok ys => Ok (y :: ys) | Err e => Err e end
               end
  end.
Definition str_field (v : Json) (f : string) : option string := json_get v f ≫= json_as_str.
Definition ok_or {A} (o : option A) (e : string) : Result string A := match o with Some a => Ok a | None => Err e end.
Definition origin_ref (at_ : string) (j : nat) (o : Json) : Result string OriginRef :=
  kind ← ok_or (str_field o "kind") ("`" +:+ indexed (at_ +:+ ".origin") j +:+ "` has no kind");
  name ← ok_or (str_field o "name") ("`" +:+ indexed (at_ +:+ ".origin") j +:+ "` has no name");
  Ok (mkOriginRef kind name (str_field o "source")).
Definition unit_of (list_name what : string) (i : nat) (item : Json) : Result string Unit :=
  let at_ := indexed list_name i in
  id ← ok_or (str_field item "id") ("`" +:+ at_ +:+ "` has no id");
  origins ← match json_get item "origin" with
            | None | Some JNull => Ok []
            | Some (JArr chain) => traverse_i (origin_ref at_) 0 chain
            | Some _ => Err ("`" +:+ at_ +:+ ".origin` is not a list")
            end;
  Ok (mkUnit what id origins).
Definition units_in (input : Json) (list_name what : string) : Result string (list Unit) :=
  items ← ok_or (json_get input list_name ≫= json_as_array) ("the input has no `" +:+ list_name +:+ "` list");
  traverse_i (unit_of list_name what) 0 items.
Definition units (input : Json) : Result string (list Unit) :=
  steps ← units_in input "steps" "Step";
  gates ← units_in input "gates" "Gate";
  Ok (steps ++ gates).

Definition capped_messages (messages : list string) (more : nat -> string) : list string :=
  if MAX_TYPED_MESSAGES <? length messages
  then take MAX_TYPED_MESSAGES messages ++ [more (length messages - MAX_TYPED_MESSAGES)]
  else messages.
Definition offends (t : TypedSetting) (what : string) (o : OriginRef) : bool :=
  match t with
  | LibrariesAllowed sources =>
      (String.eqb (or_kind o) "library" || String.eqb (or_kind o) "file")
      && negb (existsb (fun p => pattern_matches p (origin_key o)) sources)
  | LibrariesBlocked sources => existsb (fun p => pattern_matches p (origin_key o)) sources
  | PluginsAllowed installations =>
      String.eqb what "Gate" && String.eqb (or_kind o) "plugin" && negb (existsb (fun n => String.eqb n (or_name o)) installations)
  end.
Definition typed_why (t : TypedSetting) : string :=
  match t with
  | LibrariesAllowed _ => "which is not in the libraries allowed here"
  | LibrariesBlocked _ => "which is blocked here"
  | PluginsAllowed _ => "which is not in the plugins whose gates may run here"
  end.
Definition typed (t : TypedSetting) (input : Json) : Result string (list string) :=
  us ← units input;
  let messages := omap (fun u => (fun o => un_what u +:+ " `" +:+ un_id u +:+ "` comes from " +:+ describe o +:+ ", " +:+ typed_why t +:+ ".")
                                 <$> List.find (offends t (un_what u)) (un_origins u)) us in
  Ok (capped_messages messages (fun n => "…and " +:+ pretty n +:+ " more Steps or gates.")).

(** *** CEL *)

Definition MATCHES_FN : string := "@scarab.matches".
(** Each [x.matches(pattern)] call renamed. *)
Fixpoint route_matches (e : CelExpr) : CelExpr :=
  match e with
  | ECall f target args =>
      ECall (if String.eqb f "matches" && is_some target && (length args =? 1) then MATCHES_FN else f)
        (match target with Some t => Some (route_matches t) | None => None end) (map route_matches args)
  | ESelect operand field => ESelect (route_matches operand) field
  | EComprehension r a l s x => EComprehension (route_matches r) (route_matches a) (route_matches l) (route_matches s) (route_matches x)
  | EList es => EList (map route_matches es)
  | EMap es => EMap (map route_entry es)
  | EStruct es => EStruct (map route_entry es)
  | ELiteral _ | EIdent _ | EUnspecified => e
  end
with route_entry (e : CelEntry) : CelEntry :=
  match e with
  | MapEntry k v => MapEntry (route_matches k) (route_matches v)
  | StructField v => StructField (route_matches v)
  end.

Definition MAX_SOURCE_LEN : nat := 4096.
Definition MAX_DEPTH : nat := 64.
(** [check_limits]: the message it refuses with. *)
Definition rule_limits (source : string) : Result string unit :=
  if MAX_SOURCE_LEN <? String.length source
  then Err ("a rule is at most " +:+ pretty MAX_SOURCE_LEN +:+ " bytes; this one is " +:+ pretty (String.length source))
  else if MAX_DEPTH <? max_nesting source
  then Err ("brackets nest " +:+ pretty (max_nesting source) +:+ " deep; the limit is " +:+ pretty MAX_DEPTH)
  else Ok tt.
Definition evaluate_when (source : string) (context : gmap string CelValue) : CelRun bool :=
  match rule_limits source with
  | Err e => CelErr e
  | Ok _ =>
      match rule_parse source with
      | Err e => CelErr e
      | Ok expr =>
          match rule_resolve (route_matches expr) context with
          | CelOk (VBool b) => CelOk b
          | CelOk other => CelErr ("`when` returned " +:+ show_value other +:+ ", not a bool")
          | CelErr e => CelErr e
          | CelPanic => CelPanic
          end
      end
  end.

(** ** Every Policy *)

Definition cel_context (c : Checkpoint) (version : N) (input : Json) : Result string (gmap string CelValue) :=
  schema ← ok_or (schema_for c version)
    ("no input schema for " +:+ checkpoint_as_str c +:+ " version " +:+ pretty version);
  map_err (fun e => "input does not match the schema: " +:+ e) (bind_input schema input).
(** The deny messages of one rule. *)
Definition rule_hit (c : Checkpoint) (version : N) (input : Json) (rule : RuleIr) : CelRun (list string) :=
  match cel_context c version input with
  | Err e => CelErr e
  | Ok context =>
      match rl_predicate rule with
      | PCel k => match evaluate_when (cp_source k) context with
                  | CelOk b => CelOk (if b then [rl_message rule] else [])
                  | CelErr e => CelErr e
                  | CelPanic => CelPanic
                  end
      | PTyped t => match typed t input with Ok m => CelOk m | Err e => CelErr e end
      end
  end.
(** The denies and the errors of a Policy's rules; [None] when the thread
    panicked. *)
Fixpoint run_rules (c : Checkpoint) (version : N) (input : Json) (i : nat) (rules : list RuleIr) : option (list string * list string) :=
  match rules with
  | [] => Some ([], [])
  | rule :: rest =>
      if negb (checkpoint_allows c (rl_effect rule)) || bool_decide (rl_effect rule <> Deny) then
        '(denies, errors) ← run_rules c version input (S i) rest;
        Some (denies, ("rule " +:+ pretty i +:+ ": `" +:+ effect_name (rl_effect rule) +:+ "` is not evaluated at " +:+ checkpoint_as_str c) :: errors)
      else
        match rule_hit c version input rule with
        | CelOk m => '(denies, errors) ← run_rules c version input (S i) rest; Some (m ++ denies, errors)
        | CelErr e => '(denies, errors) ← run_rules c version input (S i) rest;
                      Some (denies, (rl_message rule +:+ " (the rule could not be evaluated, so it denies: " +:+ e +:+ ")") :: errors)
        | CelPanic => None
        end
  end.
Definition rules_outcome (mode : Mode) (denies errors : list string) : PolicyOutcome :=
  if negb (is_nil errors) then OutError (join "; " (errors ++ denies))
  else if is_nil denies then Passed
  else match mode with Audit => WouldDeny denies | Enforce => Denied denies end.
Fixpoint evaluate_all (c : Checkpoint) (version : N) (input : Json) (ctx : MatchContext) (policies : list PolicyIr) : option (list PolicyResult) :=
  match policies with
  | [] => Some []
  | p :: rest =>
      if negb (matches (pl_match p) ctx)
      then rs ← evaluate_all c version input ctx rest; Some (result_of p NotMatched :: rs)
      else
        '(denies, errors) ← run_rules c version input 0 (pl_rules p);
        rs ← evaluate_all c version input ctx rest;
        Some (result_of p (rules_outcome (pl_mode p) denies errors) :: rs)
  end.

(** [thread] is why the evaluation thread could not be started, when it could
    not ([on_cel_stack]). *)
Definition on_cel_stack {A} (thread : option string) (f : option A) : Result string A :=
  match thread, f with
  | Some e, _ => Err ("cannot start the policy thread: " +:+ e)
  | None, Some a => Ok a
  | None, None => Err "the policy thread panicked"
  end.
Definition matched_as (ctx : MatchContext) (o : PolicyOutcome) (p : PolicyIr) : PolicyResult :=
  result_of p (if matches (pl_match p) ctx then o else NotMatched).
Definition evaluate (thread : option string) (c : Checkpoint) (version : N) (input : Json) (ctx : MatchContext) (policies : list PolicyIr) : PolicyDecision :=
  let at_ := filter (fun p => pl_checkpoint p = c) policies in
  let results := match on_cel_stack thread (evaluate_all c version input ctx at_) with
                 | Ok rs => rs
                 | Err e => map (fun p => matched_as ctx (OutError ("policy `" +:+ pl_name p +:+ "` could not be evaluated: " +:+ e)) p) at_
                 end in
  mkDecision c version input (policy_set_digest c policies) results (combine results).

(** *** The closed default for plugins *)

Definition PLUGINS_DEFAULT_ID : string := "builtin:plugins_allowed".
Definition listed_plugins (ctx : MatchContext) (policies : list PolicyIr) : list string :=
  flat_map (fun p => flat_map (fun r => match rl_predicate r with PTyped (PluginsAllowed l) => l | _ => [] end) (pl_rules p))
    (filter (fun p => pl_level p = LOrg /\ pl_mode p = Enforce /\ matches (pl_match p) ctx = true) policies).
Definition unlisted_message (g : PluginGate) : string :=
  "Gate `" +:+ pr_gate g +:+ "` comes from plugin `" +:+ pr_plugin g
  +:+ "`, which no org-level plugins_allowed setting lists; no plugin's gates run until an org admin lists the plugin.".
Definition plugin_default (gates : Result string (list PluginGate)) (unbuilt : option string) (ctx : MatchContext)
    (policies : list PolicyIr) : option PolicyResult :=
  let listed := listed_plugins ctx policies in
  match gates with
  | Ok [] => None
  | Err e => Some (mkResult PLUGINS_DEFAULT_ID 0 "plugins-allowed-default" LOrg Enforce
                     (OutError ("the plugin default could not be evaluated, so it denies: " +:+ e)))
  | Ok gates =>
      let messages := capped_messages (dedup_adjacent (map unlisted_message (filter (fun g => pr_plugin g ∉ listed) gates)))
                        (fun n => "…and " +:+ pretty n +:+ " more from unlisted plugins.") in
      Some (mkResult PLUGINS_DEFAULT_ID 0 "plugins-allowed-default" LOrg Enforce
              (if is_nil messages then Passed
               else Denied (messages ++ match unbuilt with
                                        | Some reason => ["The Run's input could not be built either, so no Policy checked it: " +:+ reason]
                                        | None => []
                                        end)))
  end.
Definition plugins_closed_default (input : Json) (ctx : MatchContext) (policies : list PolicyIr) : option PolicyResult :=
  match units input with
  | Err e => match json_get input "gates" ≫= json_as_array with
             | Some [] => None
             | _ => plugin_default (Err e) None ctx policies
             end
  | Ok us =>
      plugin_default (Ok (flat_map (fun u => map (fun o => mkPluginGateRef (un_id u) (or_name o))
                                               (filter (fun o => or_kind o = "plugin") (un_origins u)))
                            (filter (fun u => un_what u = "Gate") us))) None ctx policies
  end.

(** *** As admission consults *)

Definition no_longer_compiles (p : StoredPolicy) (ds : list Diagnostic) : string :=
  "version " +:+ pretty (sp_version p) +:+ " of this policy no longer compiles, so it denies: " +:+ join "; " (map show_diagnostic ds).
Definition stub (c : Checkpoint) (p : StoredPolicy) : PolicyIr :=
  mkPolicyIr (sp_id p) (sp_version p) (sp_content_hash p) (sp_name p) (scope_level (sp_scope p)) c
    (po_match (sp_body p)) (po_mode (sp_body p)) [].
(** The results of the compiled Policies put back in the stored order. *)
Fixpoint merge_results (c : Checkpoint) (ctx : MatchContext) (compiled : list (StoredPolicy * Result string PolicyIr))
    (evaluated : list PolicyResult) : list PolicyResult * list PolicyIr :=
  match compiled with
  | [] => ([], [])
  | (p, Ok ir) :: rest =>
      let '(rs, ds) := merge_results c ctx rest (tail evaluated) in
      (match evaluated with r :: _ => r :: rs | [] => rs end, ir :: ds)
  | (p, Err message) :: rest =>
      let '(rs, ds) := merge_results c ctx rest evaluated in
      (matched_as ctx (OutError message) (stub c p) :: rs, stub c p :: ds)
  end.
Definition evaluate_with_builtins (thread : option string) (c : Checkpoint) (version : N) (input : Result string Json)
    (plugin_gates : option (list PluginGate)) (ctx : MatchContext) (stored : list StoredPolicy) (builtins : list PolicyResult) : PolicyDecision :=
  let compiled := map (fun p => (p, map_err (no_longer_compiles p) (stored_compile p)))
                    (filter (fun p => po_checkpoint (sp_body p) = c) stored) in
  let irs := omap (fun x => match x.2 with Ok ir => Some ir | Err _ => None end) compiled in
  let evaluated := match input with
                   | Ok v => de_results (evaluate thread c version v ctx irs)
                   | Err reason => map (matched_as ctx (OutError reason)) irs
                   end in
  let '(merged, digest_set) := merge_results c ctx compiled evaluated in
  let default_result :=
    if bool_decide (c = RunCreate) then
      match plugin_gates, input with
      | Some gates, _ => plugin_default (Ok gates) (match input with Err e => Some e | Ok _ => None end) ctx digest_set
      | None, Ok v => plugins_closed_default v ctx digest_set
      | None, Err _ => None
      end
    else None in
  let results := builtins ++ merged ++ match default_result with Some r => [r] | None => [] end in
  mkDecision c version (match input with Ok v => v | Err _ => JNull end) (policy_set_digest c digest_set) results (combine results).
Definition evaluate_stored (thread : option string) (c : Checkpoint) (version : N) (input : Result string Json)
    (plugin_gates : option (list PluginGate)) (ctx : MatchContext) (stored : list StoredPolicy) : PolicyDecision :=
  evaluate_with_builtins thread c version input plugin_gates ctx stored [].

(** ** What compiling keeps and ensures *)

Lemma compile_ok p level ir : compile p level = Ok ir ->
  validate_name (po_name p) = [] /\ validate_match (po_match p) = [] /\
  (po_checkpoint p <> RunCreate -> mt_trigger_kinds (po_match p) = []) /\
  exists rules, compile_body p level (default no_schema (schema_version (po_checkpoint p) ≫= schema_for (po_checkpoint p))) = (rules, []) /\
    ir = mkPolicyIr "" 0 (content_hash p) (po_name p) level (po_checkpoint p) (po_match p) (po_mode p) rules.
Proof.
  unfold compile. destruct (is_consulted (po_checkpoint p)); [|done]. cbn [negb].
  destruct (compile_body p level _) as [rules errors] eqn:Eb.
  destruct (is_nil _) eqn:En; [|done]. intros [= <-].
  assert ((validate_name (po_name p) ++ validate_match (po_match p)) ++
    (if bool_decide (po_checkpoint p <> RunCreate) && negb (is_nil (mt_trigger_kinds (po_match p)))
     then [diagnostic_at "match.trigger_kinds" ("`trigger_kinds` is matched at `run.create` only, not at `" +:+ checkpoint_as_str (po_checkpoint p) +:+ "`")]
     else []) ++ errors = []) as H by (by destruct (_ ++ _ ++ errors)).
  apply app_eq_nil in H as [[H1 H2]%app_eq_nil [H3 ->]%app_eq_nil]. split_and!; [done..| |by eexists].
  intros Hc. rewrite bool_decide_eq_true_2 in H3 by done. by destruct (mt_trigger_kinds (po_match p)).
Qed.
Lemma stored_compile_ok p ir : stored_compile p = Ok ir ->
  pl_mode ir = po_mode (sp_body p) /\ pl_match ir = po_match (sp_body p) /\ pl_level ir = scope_level (sp_scope p)
  /\ pl_checkpoint ir = po_checkpoint (sp_body p).
Proof.
  unfold stored_compile. destruct (compile _ _) as [ir0|] eqn:E; [|done]. cbn [mbind result_bind]. intros [= <-].
  apply compile_ok in E as (_ & _ & _ & rules & _ & ->). done.
Qed.

Lemma compile_rules_effects c schema i rules patterns out :
  compile_rules c schema i rules patterns = (out, []) ->
  length out <= length rules /\ forall r, r ∈ out -> rl_effect r = Deny /\ exists k, rl_predicate r = PCel k.
Proof.
  revert i patterns out; induction rules as [|rule rest IH]; intros i patterns out; cbn [compile_rules].
  { intros [= <-]. split; [done|by intros r ?%not_elem_of_nil]. }
  destruct (check_in schema (ru_when rule) patterns) as [checked patterns'].
  destruct (compile_rules c schema (S i) rest patterns') as [out' errors] eqn:Er.
  destruct checked as [k|ds]; intros [= <- H].
  - apply app_eq_nil in H as [[He _]%app_eq_nil ->]. destruct (IH _ _ _ Er) as [Hl Hr]. split; [cbn; lia|].
    intros r [->|Hin]%elem_of_cons; [|by apply Hr]. cbn. split; [|by eexists]. unfold effect_findings in He.
    destruct (decide (ru_effect rule = Deny)) as [|Hd]; [done|]. rewrite bool_decide_eq_true_2, andb_true_r in He by done.
    by destruct (checkpoint_allows c (ru_effect rule)).
  - apply app_eq_nil in H as [_ [_ ->]%app_eq_nil]. destruct (IH _ _ _ Er) as [Hl Hr]. split; [cbn; lia|done].
Qed.

(** A setting's patterns are exact names, or prefixes ending in [*]. *)
Definition setting_list (s : TypedSetting) : list string :=
  match s with LibrariesAllowed l | LibrariesBlocked l | PluginsAllowed l => l end.
Lemma imap_concat_nil {A B} (f : nat -> A -> list B) l : concat (imap f l) = [] -> forall i x, l !! i = Some x -> f i x = [].
Proof.
  revert f; induction l as [|y l IH]; intros f; [done|]. cbn. intros [Hy Hl]%app_eq_nil [|i] x; cbn; [by intros [= <-]|].
  apply (IH (f ∘ S) Hl).
Qed.
Lemma validate_list_nil l at_ : validate_list l at_ = [] ->
  length l <= MAX_LIST /\ forall x, x ∈ l -> trim x <> "" /\ (str_len x <= MAX_TEXT_LEN)%N.
Proof.
  unfold validate_list. intros [Hl Hx]%app_eq_nil. split; [by destruct (Nat.ltb_spec MAX_LIST (length l))|].
  intros x [i Hi]%list_elem_of_lookup_1. pose proof (imap_concat_nil _ _ Hx i x Hi) as H. cbv beta in H. unfold validate_text in H.
  destruct (String.eqb_spec (trim x) ""); [done|]. by destruct (N.ltb_spec MAX_TEXT_LEN (str_len x)).
Qed.
Lemma compile_setting_nil s : (compile_setting s).2 = [] ->
  length (setting_list s) <= MAX_LIST /\
  forall x, x ∈ setting_list s -> star_inside x = false /\ match s with PluginsAllowed _ => has_char "*" x = false | _ => True end.
Proof.
  assert (forall (l : list string) at_ exact msg, validate_list l at_ ++ concat (imap (fun i p => if star_inside p || (exact && has_char "*" p)
      then [diagnostic_at (indexed at_ i) (msg p)] else []) l) = [] ->
    length l <= MAX_LIST /\ forall x, x ∈ l -> star_inside x = false /\ (exact && has_char "*" x) = false) as H.
  { intros l at_ exact msg [[Hv _]%validate_list_nil Hp]%app_eq_nil. split; [done|]. intros x [i Hi]%list_elem_of_lookup_1.
    pose proof (imap_concat_nil _ _ Hp i x Hi) as Hx. cbv beta in Hx.
    destruct (star_inside x || (exact && has_char "*" x)) eqn:Es; [done|]. by apply orb_false_iff in Es. }
  destruct s as [l|l|l]; cbn [compile_setting setting_list snd]; intros [Hl Hx]%H; (split; [exact Hl|]); intros x Hin;
    destruct (Hx x Hin) as [H1 H2]; (split; [exact H1|done]).
Qed.

Lemma forallb_false {A} (f : A -> bool) l : forallb f l = false <-> exists x, x ∈ l /\ f x = false.
Proof.
  induction l as [|x l IH]; cbn [forallb]; [split; [done|by intros (x & Hx%not_elem_of_nil & _)]|].
  rewrite andb_false_iff, IH. setoid_rewrite elem_of_cons. naive_solver.
Qed.

(** ** What each rule says *)

(** The rule neither denies nor fails. *)
Definition quiet (c : Checkpoint) (version : N) (input : Json) (rule : RuleIr) : bool :=
  checkpoint_allows c (rl_effect rule) && bool_decide (rl_effect rule = Deny)
  && match rule_hit c version input rule with CelOk [] => true | _ => false end.
Lemma run_rules_quiet c version input i rules d e :
  run_rules c version input i rules = Some (d, e) -> d = [] /\ e = [] <-> forallb (quiet c version input) rules = true.
Proof.
  revert i d e; induction rules as [|rule rest IH]; intros i d e; cbn [run_rules forallb].
  { intros [= <- <-]. done. }
  unfold quiet at 1.
  destruct (run_rules c version input (S i) rest) as [[d' e']|] eqn:Er; [|destruct (_ || _); [done|by destruct (rule_hit _ _ _ _)]].
  specialize (IH _ _ _ Er). cbn [mbind option_bind].
  destruct (checkpoint_allows c (rl_effect rule)); cbn [negb orb andb]; [|intros [= <- <-]; naive_solver].
  destruct (decide (rl_effect rule = Deny)) as [Hd|Hd].
  - rewrite bool_decide_eq_false_2 by (by intros Hn). rewrite (bool_decide_eq_true_2 (rl_effect rule = Deny)) by done. cbn [andb].
    destruct (rule_hit c version input rule) as [[|m ms]|err|]; [| | |done]; intros [= <- <-]; cbn [app].
    + exact IH.
    + naive_solver.
    + naive_solver.
  - rewrite bool_decide_eq_true_2 by done. rewrite (bool_decide_eq_false_2 (rl_effect rule = Deny)) by done.
    intros [= <- <-]. naive_solver.
Qed.
Lemma rules_outcome_objects p d e :
  objection (result_of p (rules_outcome (pl_mode p) d e)) <> [] <-> pl_mode p = Enforce /\ ~ (d = [] /\ e = []).
Proof.
  unfold objection, rules_outcome. cbn [pr_mode pr_outcome result_of]. destruct (pl_mode p), e, d; cbn; naive_solver.
Qed.

(** ** The decision *)

Lemma combine_denies results : (match combine results with DoDeny _ => true | Allow => false end) = true
  <-> exists r, r ∈ results /\ objection r <> [].
Proof.
  unfold combine. destruct (flat_map objection results) as [|m ms] eqn:E; cbn [is_nil]; split; try done.
  - intros (r & Hr & Ho). exfalso. apply Ho. destruct (objection r) as [|m ms] eqn:Em; [done|].
    assert (m ∈ flat_map objection results) as Hm; [|rewrite E in Hm; by apply not_elem_of_nil in Hm].
    apply list_elem_of_In, in_flat_map. exists r. split; [by apply list_elem_of_In|]. rewrite Em. by left.
  - intros _. assert (m ∈ flat_map objection results) as Hm by (rewrite E; left).
    apply list_elem_of_In, in_flat_map in Hm as (r & Hr & Hm). exists r. split; [by apply list_elem_of_In|].
    intros Hn. by rewrite Hn in Hm.
Qed.

(** What the evaluation gives each compiled Policy, one by one. *)
Definition policy_rules (c : Checkpoint) (version : N) (input : Json) (ctx : MatchContext) (p : PolicyIr) : option PolicyOutcome :=
  if matches (pl_match p) ctx
  then '(d, e) ← run_rules c version input 0 (pl_rules p); Some (rules_outcome (pl_mode p) d e)
  else Some NotMatched.
Lemma evaluate_all_spec c version input ctx policies :
  match evaluate_all c version input ctx policies with
  | Some rs => rs = map (fun p => result_of p (default NotMatched (policy_rules c version input ctx p))) policies
               /\ forall p, p ∈ policies -> policy_rules c version input ctx p <> None
  | None => exists p, p ∈ policies /\ policy_rules c version input ctx p = None
  end.
Proof.
  induction policies as [|p rest IH]; cbn [evaluate_all map]; [split; [done|by intros p ?%not_elem_of_nil]|].
  assert (match policy_rules c version input ctx p with
    | Some o => match evaluate_all c version input ctx rest with
                | Some rs => Some (result_of p o :: rs) | None => None end
    | None => None end = evaluate_all c version input ctx (p :: rest)) as E.
  { cbn [evaluate_all]. unfold policy_rules. destruct (matches (pl_match p) ctx); cbn [negb].
    - destruct (run_rules c version input 0 (pl_rules p)) as [[d e]|]; cbn [mbind option_bind]; [|done].
      by destruct (evaluate_all c version input ctx rest).
    - by destruct (evaluate_all c version input ctx rest). }
  cbn [evaluate_all] in E. rewrite <- E. clear E. destruct (policy_rules c version input ctx p) as [o|] eqn:Ep.
  - destruct (evaluate_all c version input ctx rest) as [rs|].
    + destruct IH as [-> IH]. split; [done|]. intros q [->|Hq]%elem_of_cons; [by rewrite Ep|by apply IH].
    + destruct IH as (q & Hq & Hn). exists q. split; [by right|done].
  - exists p. split; [left|done].
Qed.

(** The evaluation thread gives no result: it did not start, or a rule of a
    Policy consulted panicked on it. *)
Definition compiled_at (c : Checkpoint) (stored : list StoredPolicy) (p : StoredPolicy) (ir : PolicyIr) : Prop :=
  p ∈ stored /\ po_checkpoint (sp_body p) = c /\ stored_compile p = Ok ir.
Definition thread_lost (thread : option string) (c : Checkpoint) (version : N) (input : Json) (ctx : MatchContext) (stored : list StoredPolicy) : Prop :=
  thread <> None \/ exists p ir, compiled_at c stored p ir /\ policy_rules c version input ctx ir = None.
(** A stored Policy that denies the consultation. *)
Definition objects (thread : option string) (c : Checkpoint) (version : N) (input : Result string Json) (ctx : MatchContext)
    (stored : list StoredPolicy) (p : StoredPolicy) : Prop :=
  p ∈ stored /\ po_checkpoint (sp_body p) = c /\ po_mode (sp_body p) = Enforce /\ matches (po_match (sp_body p)) ctx = true /\
  match stored_compile p, input with
  | Ok ir, Ok v => thread_lost thread c version v ctx stored \/ forallb (quiet c version v) (pl_rules ir) = false
  | _, _ => True
  end.
(** The plugins some org-level, enforced [plugins_allowed] setting that fits
    lists. *)
Definition lists_plugin (c : Checkpoint) (ctx : MatchContext) (stored : list StoredPolicy) (plugin : string) : Prop :=
  exists p ir r l, compiled_at c stored p ir /\ scope_level (sp_scope p) = LOrg /\ po_mode (sp_body p) = Enforce
    /\ matches (po_match (sp_body p)) ctx = true /\ r ∈ pl_rules ir /\ rl_predicate r = PTyped (PluginsAllowed l) /\ plugin ∈ l.

Lemma merge_results_map c ctx (f : PolicyIr -> PolicyResult) compiled :
  merge_results c ctx compiled (map f (omap (fun x => match x.2 with Ok ir => Some ir | Err _ => None end) compiled))
  = (map (fun x : StoredPolicy * Result string PolicyIr => match x.2 with Ok ir => f ir | Err m => matched_as ctx (OutError m) (stub c x.1) end) compiled,
     map (fun x : StoredPolicy * Result string PolicyIr => match x.2 with Ok ir => ir | Err _ => stub c x.1 end) compiled).
Proof.
  induction compiled as [|[p [ir|m]] rest IH]; [done|..]; cbn [omap list_omap map merge_results snd fst tail].
  - by rewrite IH.
  - by rewrite IH.
Qed.

(** How each compiled Policy comes out. *)
Definition outcome_at (thread : option string) (c : Checkpoint) (version : N) (input : Result string Json) (ctx : MatchContext)
    (irs : list PolicyIr) (p : PolicyIr) : PolicyResult :=
  match input with
  | Err reason => matched_as ctx (OutError reason) p
  | Ok v => match on_cel_stack thread (evaluate_all c version v ctx irs) with
            | Ok _ => result_of p (default NotMatched (policy_rules c version v ctx p))
            | Err e => matched_as ctx (OutError ("policy `" +:+ pl_name p +:+ "` could not be evaluated: " +:+ e)) p
            end
  end.
Lemma evaluated_map thread c version input ctx irs :
  (forall p, p ∈ irs -> pl_checkpoint p = c) ->
  match input with
  | Ok v => de_results (evaluate thread c version v ctx irs)
  | Err reason => map (matched_as ctx (OutError reason)) irs
  end = map (outcome_at thread c version input ctx irs) irs.
Proof.
  intros Hc. destruct input as [v|reason]; [|done]. unfold evaluate. cbn [de_results].
  assert (filter (fun p => pl_checkpoint p = c) irs = irs) as ->.
  { clear -Hc. induction irs as [|p l IH]; [done|]. rewrite filter_cons_True by (apply Hc; left). f_equal. apply IH.
    intros q Hq. apply Hc. by right. }
  unfold outcome_at. destruct thread as [e|]; [done|]. cbn [on_cel_stack].
  pose proof (evaluate_all_spec c version v ctx irs) as H. destruct (evaluate_all c version v ctx irs) as [rs|]; [|done].
  by destruct H as [-> _].
Qed.

Lemma matched_as_objects ctx o p :
  objection (matched_as ctx (OutError o) p) <> [] <-> pl_mode p = Enforce /\ matches (pl_match p) ctx = true.
Proof.
  unfold matched_as, objection. cbn [pr_mode pr_outcome result_of]. destruct (pl_mode p), (matches (pl_match p) ctx); naive_solver.
Qed.
Lemma policy_rules_objects c version v ctx p :
  policy_rules c version v ctx p <> None ->
  objection (result_of p (default NotMatched (policy_rules c version v ctx p))) <> []
  <-> pl_mode p = Enforce /\ matches (pl_match p) ctx = true /\ forallb (quiet c version v) (pl_rules p) = false.
Proof.
  unfold policy_rules. destruct (matches (pl_match p) ctx) eqn:Em.
  - destruct (run_rules c version v 0 (pl_rules p)) as [[d e]|] eqn:Er; cbn [mbind option_bind from_option id]; [|done]. intros _.
    rewrite rules_outcome_objects, (run_rules_quiet _ _ _ _ _ _ _ Er), not_true_iff_false. tauto.
  - intros _. cbn [from_option id]. unfold objection. cbn. destruct (pl_mode p); naive_solver.
Qed.

Section Decision.
Context (thread : option string) (c : Checkpoint) (version : N) (ctx : MatchContext) (stored : list StoredPolicy).
Abbreviation compiled := (map (fun p => (p, map_err (no_longer_compiles p) (stored_compile p)))
                    (filter (fun p => po_checkpoint (sp_body p) = c) stored)).
Abbreviation irs := (omap (fun x : StoredPolicy * Result string PolicyIr => match x.2 with Ok ir => Some ir | Err _ => None end) compiled).

Lemma elem_of_irs ir : ir ∈ irs <-> exists p, compiled_at c stored p ir.
Proof.
  rewrite list_elem_of_omap. setoid_rewrite list_elem_of_fmap. setoid_rewrite list_elem_of_filter. unfold compiled_at. split.
  - intros ([p r] & (q & [= -> ->] & Hc & Hq) & Hr). cbn in Hr. exists q. destruct (stored_compile q); [|done].
    by injection Hr as ->.
  - intros (p & Hp & Hc & Hk). exists (p, Ok ir). split; [|done]. exists p. by rewrite Hk.
Qed.
Lemma irs_checkpoint ir : ir ∈ irs -> pl_checkpoint ir = c.
Proof. intros (p & _ & <- & Hk)%elem_of_irs. by apply stored_compile_ok in Hk as (_ & _ & _ & ->). Qed.
Lemma lost_spec v : thread_lost thread c version v ctx stored <-> is_ok (on_cel_stack thread (evaluate_all c version v ctx irs)) = false.
Proof.
  unfold thread_lost. destruct thread as [e|]; cbn [on_cel_stack]; [split; [done|by left]|].
  pose proof (evaluate_all_spec c version v ctx irs) as H. destruct (evaluate_all c version v ctx irs) as [rs|].
  - split; [|done]. destruct H as [_ H]. intros [?|(p & ir & Hp & Hn)]; [done|]. exfalso. apply (H ir); [|done].
    apply elem_of_irs. by exists p.
  - destruct H as (ir & [p Hp]%elem_of_irs & Hn). split; [done|]. right. by exists p, ir.
Qed.

Lemma stored_objects input p :
  p ∈ stored -> po_checkpoint (sp_body p) = c ->
  objection (match map_err (no_longer_compiles p) (stored_compile p) with
             | Ok ir => outcome_at thread c version input ctx irs ir
             | Err m => matched_as ctx (OutError m) (stub c p)
             end) <> []
  <-> objects thread c version input ctx stored p.
Proof.
  intros Hp Hc. unfold objects. destruct (stored_compile p) as [ir|ds] eqn:Ek; cbn [map_err].
  - pose proof (stored_compile_ok p ir Ek) as (Hm & Hma & _ & _). unfold outcome_at. destruct input as [v|reason].
    + pose proof (lost_spec v) as Hl. pose proof (evaluate_all_spec c version v ctx irs) as Hs.
      unfold on_cel_stack in *. destruct thread as [e|].
      * rewrite matched_as_objects, Hm, Hma. rewrite Hl. naive_solver.
      * destruct (evaluate_all c version v ctx irs) as [rs|].
        -- destruct Hs as [_ Hs]. rewrite policy_rules_objects, Hm, Hma.
           2:{ apply Hs, elem_of_irs. by exists p. }
           rewrite Hl. naive_solver.
        -- rewrite matched_as_objects, Hm, Hma, Hl. naive_solver.
    + rewrite matched_as_objects, Hm, Hma. naive_solver.
  - rewrite matched_as_objects. cbn. naive_solver.
Qed.

Lemma listed_spec plugin :
  plugin ∈ listed_plugins ctx (map (fun x : StoredPolicy * Result string PolicyIr => match x.2 with Ok ir => ir | Err _ => stub c x.1 end) compiled)
  <-> lists_plugin c ctx stored plugin.
Proof.
  unfold listed_plugins, lists_plugin. rewrite list_elem_of_In, in_flat_map. setoid_rewrite in_flat_map. split.
  - intros (ir & Hir & r & Hr & Hpl). apply list_elem_of_In, list_elem_of_filter in Hir as [(Hl & Hm & Hma) Hir].
    apply list_elem_of_fmap in Hir as ([q rr] & -> & Hq). apply list_elem_of_fmap in Hq as (p & [= -> ->] & Hq).
    apply list_elem_of_filter in Hq as [Hc Hq]. cbn [fst snd] in *.
    destruct (stored_compile p) as [ir|] eqn:Ek; cbn [map_err] in *; [|done].
    pose proof (stored_compile_ok p ir Ek) as (Em & Ema & El & _). rewrite Em, Ema, El in *.
    destruct (rl_predicate r) as [|[]] eqn:Er; try done.
    exists p, ir, r, installations. split_and!; try done; [by apply list_elem_of_In|by apply list_elem_of_In].
  - intros (p & ir & r & l & (Hp & Hc & Hk) & Hl & Hm & Hma & Hr & Er & Hpl).
    pose proof (stored_compile_ok p ir Hk) as (Em & Ema & El & _). exists ir. split.
    + apply list_elem_of_In, list_elem_of_filter. rewrite Em, Ema, El. split; [done|].
      apply list_elem_of_fmap. exists (p, Ok ir). split; [done|]. apply list_elem_of_fmap. exists p. rewrite Hk.
      split; [done|]. by apply list_elem_of_filter.
    + exists r. split; [by apply list_elem_of_In|]. rewrite Er. by apply list_elem_of_In.
Qed.
Lemma plugin_default_objects gates unbuilt digest_set :
  (exists r, plugin_default (Ok gates) unbuilt ctx digest_set = Some r /\ objection r <> [])
  <-> exists g, g ∈ gates /\ pr_plugin g ∉ listed_plugins ctx digest_set.
Proof.
  unfold plugin_default. destruct gates as [|g0 gs] eqn:Eg.
  { split; [by intros (r & ? & _)|intros (g & Hg & _); by apply not_elem_of_nil in Hg]. }
  rewrite <- Eg. set (ms := dedup_adjacent _).
  assert (capped_messages ms (fun n => "…and " +:+ pretty n +:+ " more from unlisted plugins.") = [] <-> ms = []) as Hc.
  { unfold capped_messages. destruct (MAX_TYPED_MESSAGES <? length ms) eqn:El; [|done].
    destruct ms; [done|]. by destruct MAX_TYPED_MESSAGES. }
  assert (ms = [] <-> forall g, g ∈ gates -> pr_plugin g ∈ listed_plugins ctx digest_set) as Hms.
  { unfold ms. split.
    - intros H%dedup_adjacent_nil g Hg. apply dec_stable. intros Hn.
      assert (unlisted_message g ∈ map unlisted_message (filter (fun g => pr_plugin g ∉ listed_plugins ctx digest_set) gates)) as Hin.
      { apply list_elem_of_fmap_2, list_elem_of_filter. done. }
      rewrite H in Hin. by apply not_elem_of_nil in Hin.
    - intros H. assert (filter (fun g => pr_plugin g ∉ listed_plugins ctx digest_set) gates = []) as ->; [|done].
      apply elem_of_nil_inv. intros g [Hn Hg]%list_elem_of_filter. by apply Hn, H. }
  split.
  - intros (r & [= <-] & Ho). destruct (decide (Exists (fun g => pr_plugin g ∉ listed_plugins ctx digest_set) gates)) as [He|Hn].
    + apply Exists_exists in He as (g & Hg & Hl). by exists g.
    + exfalso. apply Ho. unfold objection. cbn [pr_mode pr_outcome].
      rewrite (proj2 Hc); [done|]. apply Hms. intros g Hg. apply dec_stable. intros Hgl. apply Hn, Exists_exists. by exists g.
  - intros (g & Hg & Hl). eexists. split; [done|]. unfold objection. cbn [pr_mode pr_outcome].
    destruct (capped_messages _ _) as [|m l] eqn:Ecap; [|done]. exfalso. apply Hl. by apply (proj1 Hms (proj1 Hc eq_refl)).
Qed.

(** The objections to a consultation, one by one. *)
Lemma decision_denies input gates builtins :
  is_denied (evaluate_with_builtins thread c version input (Some gates) ctx stored builtins) = true
  <-> (exists r, r ∈ builtins /\ objection r <> [])
      \/ (exists p, objects thread c version input ctx stored p)
      \/ (c = RunCreate /\ exists g, g ∈ gates /\ ~ lists_plugin c ctx stored (pr_plugin g)).
Proof.
  unfold evaluate_with_builtins. rewrite (evaluated_map thread c version input ctx irs irs_checkpoint), merge_results_map.
  unfold is_denied. cbn [de_outcome]. rewrite combine_denies.
  setoid_rewrite elem_of_app. setoid_rewrite elem_of_app.
  assert ((exists r, r ∈ map (fun x : StoredPolicy * Result string PolicyIr => match x.2 with Ok ir => outcome_at thread c version input ctx irs ir
      | Err m => matched_as ctx (OutError m) (stub c x.1) end) compiled /\ objection r <> [])
    <-> exists p, objects thread c version input ctx stored p) as Hs.
  { split.
    - intros (r & Hr & Ho). apply list_elem_of_fmap in Hr as ([q rr] & -> & Hq). apply list_elem_of_fmap in Hq as (p & [= -> ->] & Hq).
      apply list_elem_of_filter in Hq as [Hc Hq]. exists p. by apply (stored_objects input p Hq Hc).
    - intros (p & Ho). pose proof Ho as (Hp & Hc & _). apply (stored_objects input p Hp Hc) in Ho. eexists. split; [|exact Ho].
      apply list_elem_of_fmap. exists (p, map_err (no_longer_compiles p) (stored_compile p)). split; [done|].
      apply list_elem_of_fmap. exists p. split; [done|]. by apply list_elem_of_filter. }
  setoid_rewrite <- listed_spec. rewrite <- (plugin_default_objects gates (match input with Err e => Some e | Ok _ => None end)), <- Hs.
  destruct (decide (c = RunCreate)) as [Hc|Hc].
  - rewrite bool_decide_eq_true_2 by done.
    destruct (plugin_default (Ok gates) _ ctx _) as [r0|]; split.
    + intros (r & [Hr|[Hr|Hr]] & Ho); [left; eauto|right; left; eauto|right; right; split; [done|]].
      apply list_elem_of_singleton in Hr as ->. eauto.
    + intros [(r & Hr & Ho)|[(r & Hr & Ho)|(_ & r & [= <-] & Ho)]]; eauto.
      exists r0. split; [|done]. right; right. by apply list_elem_of_singleton.
    + intros (r & [Hr|[Hr|Hr]] & Ho); [left; eauto|right; left; eauto|]. by apply not_elem_of_nil in Hr.
    + intros [(r & Hr & Ho)|[(r & Hr & Ho)|(_ & r & ? & Ho)]]; eauto. done.
  - rewrite bool_decide_eq_false_2 by done. split.
    + intros (r & [Hr|[Hr|Hr]] & Ho); [left; eauto|right; left; eauto|]. by apply not_elem_of_nil in Hr.
    + intros [(r & Hr & Ho)|[(r & Hr & Ho)|(? & _)]]; eauto. done.
Qed.
End Decision.
End Engine.

(** ** Theorems *)

(** C12: the engine fails closed, and exactly so. A consultation is denied
    when, and only when, a built-in rule denies it, or an enforced stored
    Policy at the checkpoint whose [match] fits has a rule that denies, cannot
    be evaluated, no longer compiles, has no input to read or lost its
    evaluation thread, or (at [run.create]) a gate comes from a plugin no
    enforced org-level setting lists. *)
Theorem decision_fails_closed {P : PolicyPorts} {R : Rfc3339} thread c version input gates ctx stored builtins :
  is_denied (evaluate_with_builtins thread c version input (Some gates) ctx stored builtins) = true
  <-> (exists r, r ∈ builtins /\ pr_mode r = Enforce /\
         ((exists m, pr_outcome r = OutError m) \/ exists m, m <> [] /\ pr_outcome r = Denied m))
      \/ (exists p, p ∈ stored /\ po_checkpoint (sp_body p) = c /\ po_mode (sp_body p) = Enforce
            /\ matches (po_match (sp_body p)) ctx = true /\
            match stored_compile p, input with
            | Ok ir, Ok v => thread_lost thread c version v ctx stored
                             \/ exists rule, rule ∈ pl_rules ir /\ quiet c version v rule = false
            | _, _ => True
            end)
      \/ (c = RunCreate /\ exists g, g ∈ gates /\ ~ lists_plugin c ctx stored (pr_plugin g)).
Proof.
  rewrite decision_denies. unfold objects. split; (intros [H|[H|H]]; [left|right; left|right; right; exact H]).
  - destruct H as (r & Hr & Ho). exists r. split; [done|]. unfold objection in Ho.
    destruct (pr_mode r); [|done]. split; [done|]. destruct (pr_outcome r) as [| |m| |m| |]; try done; [right|left]; by eexists.
  - destruct H as (p & H). exists p. destruct (stored_compile p) as [ir|]; [|done]. destruct input as [v|]; [|done].
    by rewrite forallb_false in H.
  - destruct H as (r & Hr & Hm & Ho). exists r. split; [done|]. unfold objection. rewrite Hm.
    by destruct Ho as [[m ->]|(m & Hne & ->)].
  - destruct H as (p & H). exists p. destruct (stored_compile p) as [ir|]; [|done]. destruct input as [v|]; [|done].
    by rewrite forallb_false.
Qed.

(** C28: a Project can only narrow what its org allows, and a Policy in audit
    mode decides nothing. Adding Policies that are a Project's or in audit mode
    to those stored never turns a denial into an allow; adding only Policies in
    audit mode, none of whose rules kills the evaluation thread, leaves every
    decision as it was. *)
Theorem layers_only_narrow {P : PolicyPorts} {R : Rfc3339} thread c version input gates ctx stored stored' builtins :
  (forall p, p ∈ stored -> p ∈ stored') ->
  (forall p, p ∈ stored' -> p ∈ stored \/ scope_level (sp_scope p) = LProject \/ po_mode (sp_body p) = Audit) ->
  (is_denied (evaluate_with_builtins thread c version input (Some gates) ctx stored builtins) = true ->
   is_denied (evaluate_with_builtins thread c version input (Some gates) ctx stored' builtins) = true)
  /\ ((forall p, p ∈ stored' -> p ∈ stored \/ po_mode (sp_body p) = Audit) ->
      (forall p ir v, input = Ok v -> compiled_at c stored' p ir -> po_mode (sp_body p) = Audit -> policy_rules c version v ctx ir <> None) ->
      is_denied (evaluate_with_builtins thread c version input (Some gates) ctx stored' builtins)
      = is_denied (evaluate_with_builtins thread c version input (Some gates) ctx stored builtins)).
Proof.
  intros Hsub Hnew.
  assert (forall p ir, compiled_at c stored p ir -> compiled_at c stored' p ir) as Hc.
  { intros p ir (Hp & H). split; [by apply Hsub|done]. }
  assert (forall plugin, lists_plugin c ctx stored plugin <-> lists_plugin c ctx stored' plugin) as Hlist.
  { intros plugin. split; intros (p & ir & r & l & Hp & Hl & Hm & H); exists p, ir, r, l; (split; [|exact (conj Hl (conj Hm H))]).
    - by apply Hc.
    - destruct Hp as (Hp & Hp'). split; [|done]. destruct (Hnew p Hp) as [?|[?|?]]; [done|congruence..]. }
  assert (forall p, objects thread c version input ctx stored p -> objects thread c version input ctx stored' p) as Hobj.
  { intros p (Hp & Hck & Hm & Hma & Hrest). split_and!; [by apply Hsub|done..|].
    destruct (stored_compile p), input; try done. destruct Hrest as [[?|(q & ir & Hq & Hn)]|?]; [left; by left| |by right].
    left. right. exists q, ir. split; [by apply Hc|done]. }
  split.
  - rewrite !decision_denies. intros [H|[(p & H)|(Hcc & g & Hg & Hn)]]; [by left|right; left; exists p; by apply Hobj|].
    right; right. split; [done|]. exists g. split; [done|]. by rewrite <- Hlist.
  - intros Haudit Hsafe. apply eq_true_iff_eq. rewrite !decision_denies. setoid_rewrite Hlist.
    assert ((exists p, objects thread c version input ctx stored' p) <-> exists p, objects thread c version input ctx stored p) as ->; [|done].
    split; intros (p & Hpo); exists p; [|by apply Hobj]. destruct Hpo as (Hp & Hck & Hm & Hma & Hrest).
    destruct (Haudit p Hp) as [Hps|Ha]; [|congruence]. split_and!; [done..|].
    destruct (stored_compile p) as [ir|]; [|done]. destruct input as [v|]; [|done].
    destruct Hrest as [[?|(q & ir' & Hq & Hn)]|?]; [left; by left| |by right]. left. right. exists q, ir'. split; [|done].
    destruct Hq as (Hq & Hq'). split; [|done]. destruct (Haudit q Hq) as [?|Haq]; [done|].
    exfalso. by apply (Hsafe q ir' v eq_refl).
Qed.

(** What compiles is within the engine's bounds. A compiled Policy has a
    legal name, at most 32 rules each of which denies (the only effect the
    evaluator applies), lists of at most 256 entries none of them blank, and
    selects on triggers only at [run.create]; a Project's is one typed setting,
    evaluated at [run.create], whose patterns are exact names or prefixes. *)
Theorem compiled_policy_bounded {P : PolicyPorts} p level ir :
  compile p level = Ok ir ->
  (pl_name ir = po_name p /\ pl_mode ir = po_mode p /\ pl_match ir = po_match p /\ pl_checkpoint ir = po_checkpoint p /\ pl_level ir = level) /\
  (po_name p <> "" /\ String.length (po_name p) <= MAX_NAME_LEN) /\
  (forall l, l ∈ [mt_projects (po_match p); mt_except_projects (po_match p); mt_environments (po_match p)] ->
     length l <= MAX_LIST /\ forall x, x ∈ l -> trim x <> "" /\ (str_len x <= MAX_TEXT_LEN)%N) /\
  (po_checkpoint p <> RunCreate -> mt_trigger_kinds (po_match p) = []) /\
  length (pl_rules ir) <= MAX_RULES /\ (forall r, r ∈ pl_rules ir -> rl_effect r = Deny) /\
  match po_body p with
  | BodyRules rules => level = LOrg /\ rules <> []
  | BodySetting s =>
      po_checkpoint p = RunCreate /\ (exists r, pl_rules ir = [r] /\ rl_predicate r = PTyped s) /\
      forall x, x ∈ setting_list s -> star_inside x = false
  end.
Proof.
  intros H. apply compile_ok in H as (Hn & Hm & Ht & rules & Hb & ->). cbn [pl_name pl_mode pl_match pl_checkpoint pl_level pl_rules].
  assert (po_name p <> "" /\ String.length (po_name p) <= MAX_NAME_LEN) as Hname.
  { unfold validate_name in Hn. destruct (String.eqb_spec (po_name p) ""); [done|]. cbn [orb] in Hn.
    split; [done|]. by destruct (Nat.ltb_spec MAX_NAME_LEN (String.length (po_name p))). }
  assert (forall l, l ∈ [mt_projects (po_match p); mt_except_projects (po_match p); mt_environments (po_match p)] ->
     length l <= MAX_LIST /\ forall x, x ∈ l -> trim x <> "" /\ (str_len x <= MAX_TEXT_LEN)%N) as Hlists.
  { unfold validate_match in Hm. apply app_eq_nil in Hm as [H1 [H2 [H3 _]%app_eq_nil]%app_eq_nil]. intros l Hl.
    repeat (apply elem_of_cons in Hl as [->|Hl]; [by eapply validate_list_nil|]). by apply not_elem_of_nil in Hl. }
  unfold compile_body in Hb. destruct (po_body p) as [rs|s].
  - destruct (decide (level = LProject)) as [->|Hl]; [done|]. rewrite bool_decide_eq_false_2 in Hb by done.
    destruct (compile_rules _ _ 0 rs no_patterns) as [out errors] eqn:Er. injection Hb as <- Hb.
    apply app_eq_nil in Hb as [[Hne Hmax]%app_eq_nil ->]. apply compile_rules_effects in Er as [Hlen Heff].
    assert (length rs <= MAX_RULES) as Hrs by (by destruct (Nat.ltb_spec MAX_RULES (length rs))).
    split_and!; try done; try tauto; [lia|intros r Hr; by apply Heff|by destruct level|by intros ->].
  - destruct (compile_setting s) as [r errors] eqn:Es. injection Hb as <- Hb. apply app_eq_nil in Hb as [Hck ->].
    pose proof (compile_setting_nil s) as Hset. rewrite Es in Hset. destruct (Hset eq_refl) as [_ Hx].
    assert (rl_effect r = Deny /\ rl_predicate r = PTyped s) as [He Hp] by (destruct s; cbn in Es; by injection Es as <- _).
    assert (po_checkpoint p = RunCreate) as Hc.
    { destruct (decide (po_checkpoint p = RunCreate)) as [|Hne]; [done|]. by rewrite bool_decide_eq_true_2 in Hck. }
    split_and!; try done; try tauto; [cbn; unfold MAX_RULES; lia|intros r' ->%list_elem_of_singleton; done|by exists r|].
    intros x Hin. by apply Hx.
Qed.

(** ** Witnesses *)

(** An engine whose rules are the identifiers [true] and [false]. *)
Definition plain_ports : PolicyPorts := {|
  sha256_hex s := s;
  Patterns := unit;
  no_patterns := tt;
  check_in _ source _ := (Ok (mkChecked source 1 [] []), tt);
  rule_parse source := Ok (EIdent source);
  rule_resolve e _ := match e with EIdent "true" => CelOk (VBool true) | EIdent "false" => CelOk (VBool false) | _ => CelErr "unknown" end;
  show_value _ := "?";
|}.
Definition every : Match := mkMatch [] [] [] [].
Definition allowing (plugin : string) : Policy := mkPolicy "plugins" RunCreate every Enforce (BodySetting (PluginsAllowed [plugin])).
Definition stored_at (scope : PolicyScope) (p : Policy) : StoredPolicy := mkStored (po_name p) scope (po_name p) 1 p "" 0 0 false.
Definition push_context : MatchContext := mkMatchContext "shop" None TkPush.

Lemma compiled_policy_bounded_witness :
  exists ir, compile (P := plain_ports) (allowing "argocd") LProject = Ok ir /\ (forall r, r ∈ pl_rules ir -> rl_effect r = Deny).
Proof.
  destruct (compile (P := plain_ports) (allowing "argocd") LProject) as [ir|ds] eqn:E.
  - exists ir. split; [reflexivity|].
    destruct (compiled_policy_bounded (P := plain_ports) (allowing "argocd") LProject ir E) as (_ & _ & _ & _ & _ & H & _). exact H.
  - exfalso. assert (is_ok (compile (P := plain_ports) (allowing "argocd") LProject) = true) as Hv by (vm_compute; reflexivity).
    rewrite E in Hv. discriminate Hv.
Defined.

(** A Project cannot list a plugin its org does not. *)
Lemma layers_only_narrow_witness :
  let gates := [mkPluginGateRef "sync" "argocd"] in
  let decide stored := is_denied (evaluate_with_builtins (P := plain_ports) (R := some_clock) None RunCreate 1 (Err "over a cap") (Some gates) push_context stored []) in
  decide [] = true /\ decide [stored_at (ScopeProject "acme" "shop") (allowing "argocd")] = true.
Proof.
  intros gates decide. split; [vm_compute; reflexivity|]. unfold decide.
  refine (proj1 (layers_only_narrow (P := plain_ports) (R := some_clock) None RunCreate 1 (Err "over a cap") gates push_context
    [] [stored_at (ScopeProject "acme" "shop") (allowing "argocd")] [] _ _) _).
  - intros p Hp. by apply not_elem_of_nil in Hp.
  - intros p ->%list_elem_of_singleton. right; left. reflexivity.
  - vm_compute. reflexivity.
Defined.
