(* ===== verification/PolicyStore.v ===== *)
(** * The policy store (scarab-policy/src/store.rs, scarab-testkit/src/policies.rs)

    Policies with their versions, written under optimistic concurrency, and
    the log of decisions. Every operation is one lock. *)

From S2P Require Import Prelude Text Globs Values Protection Cel Params Scopes Render Ir Approvals Schema RunCreate Policies.

#[export] Instance PolicyScope_eq_dec : EqDecision PolicyScope.
Proof. solve_decision. Defined.

Record PolicyVersion := mkVersion {
  pv_policy_id : string;
  pv_version : N;
  pv_body : Policy;
  pv_content_hash : string;
  pv_author : string;
  pv_reason : string;
  pv_step_up_ref : option string;
  pv_deleted : bool;
  pv_at : Z;
}.
Record NewPolicy := mkNewPolicy {
  np_id : string;
  np_scope : PolicyScope;
  np_body : Policy;
  np_author : string;
  np_reason : string;
  np_at : Z;
}.
Record PolicyChange := mkChange { ch_author : string; ch_reason : string; ch_step_up_ref : option string; ch_at : Z }.
Record DecisionRecord := mkDecisionRecord {
  dr_id : string;
  dr_org : string;
  dr_project : option string;
  dr_run_id : option string;
  dr_step_id : option string;
  dr_attempt : option N;
  dr_decision : PolicyDecision;
  dr_at : Z;
}.
Record DecisionCursor := mkCursorAt { dc_at : Z; dc_id : string }.
Inductive PolicyStoreError : Type := PsNotFound | PsConflict | PsNameTaken (name : string) | PsInvalid (m : string) | PsStore (m : string).

Definition MAX_DECISION_PAGE : nat := 200.
Definition decision_page_limit (limit : nat) : nat := if limit =? 0 then MAX_DECISION_PAGE else Nat.min limit MAX_DECISION_PAGE.

Record PolicyState := mkPolicyState {
  ps_policies : gmap string StoredPolicy;
  ps_versions : gmap string (list PolicyVersion);
  ps_decisions : list DecisionRecord;
}.
Definition no_policies : PolicyState := mkPolicyState ∅ ∅ [].
Definition policy_values (st : PolicyState) : list StoredPolicy := map snd (btree_list (ps_policies st)).

(** ** Orders *)

(** [(a.0, a.1).cmp(&(b.0, b.1))], the first component compared by [le]. *)
Definition lex_le {A} {EA : EqDecision A} (le : A -> A -> bool) (a b : A * string) : bool :=
  if bool_decide (a.1 = b.1) then String.leb a.2 b.2 else le a.1 b.1.
Definition bool_le (a b : bool) : bool := implb a b.
Definition opt_le (a b : option string) : bool :=
  match a, b with None, _ => true | Some _, None => false | Some x, Some y => String.leb x y end.
Definition before_by {A B} (key : A -> B) (le : B -> B -> bool) (x y : A) : Prop := le (key x) (key y) = true.
#[export] Instance before_by_dec {A B} (key : A -> B) le : RelDecision (before_by key le).
Proof. intros x y. unfold before_by. apply _. Defined.
Definition sort_on {A B} (key : A -> B) (le : B -> B -> bool) (l : list A) : list A := merge_sort (before_by key le) l.

Section Store.
Context {P : PolicyPorts}.

Definition PolicyOp (A : Type) : Type := PolicyState -> Result PolicyStoreError A * PolicyState.

Definition name_taken (st : PolicyState) (scope : PolicyScope) (name : string) (except : option string) : bool :=
  existsb (fun p => negb (sp_deleted p) && bool_decide (sp_scope p = scope) && String.eqb (sp_name p) name
                    && bool_decide (Some (sp_id p) <> except)) (policy_values st).

(** The row a write replaces and the version it adds. *)
Definition updated_row (current : StoredPolicy) (body : Policy) (deleted : bool) (at_ : Z) : StoredPolicy :=
  mkStored (sp_id current) (sp_scope current) (po_name body) (sp_version current + 1) body (content_hash body)
    (sp_created_at current) at_ deleted.
Definition written_version (id : string) (version : N) (body : Policy) (change : PolicyChange) (deleted : bool) : PolicyVersion :=
  mkVersion id version body (content_hash body) (ch_author change) (ch_reason change) (ch_step_up_ref change) deleted (ch_at change).

Definition write_version (id : string) (expected_version : N) (body : option Policy) (change : PolicyChange) : PolicyOp StoredPolicy :=
  fun st => match ps_policies st !! id with
  | Some current =>
      if sp_deleted current then (Err PsNotFound, st)
      else if negb (sp_version current =? expected_version)%N then (Err PsConflict, st)
      else
        let deleted := negb (is_some body) in
        let new_body := default (sp_body current) body in
        if negb deleted && name_taken st (sp_scope current) (po_name new_body) (Some id)
        then (Err (PsNameTaken (po_name new_body)), st)
        else
          let updated := updated_row current new_body deleted (ch_at change) in
          (Ok updated,
           mkPolicyState (<[id := updated]> (ps_policies st))
             (<[id := default [] (ps_versions st !! id) ++ [written_version id (sp_version updated) new_body change deleted]]> (ps_versions st))
             (ps_decisions st))
  | None => (Err PsNotFound, st)
  end.

Definition first_version (new : NewPolicy) : PolicyVersion :=
  mkVersion (np_id new) 1 (np_body new) (content_hash (np_body new)) (np_author new) (np_reason new) None false (np_at new).
Definition create (new : NewPolicy) : PolicyOp StoredPolicy :=
  fun st =>
    if is_some (ps_policies st !! np_id new) then (Err PsConflict, st)
    else if name_taken st (np_scope new) (po_name (np_body new)) None then (Err (PsNameTaken (po_name (np_body new))), st)
    else
      let stored := mkStored (np_id new) (np_scope new) (po_name (np_body new)) 1 (np_body new) (content_hash (np_body new))
                      (np_at new) (np_at new) false in
      (Ok stored,
       mkPolicyState (<[np_id new := stored]> (ps_policies st)) (<[np_id new := [first_version new]]> (ps_versions st)) (ps_decisions st)).
Definition update (id : string) (expected_version : N) (body : Policy) (change : PolicyChange) : PolicyOp StoredPolicy :=
  write_version id expected_version (Some body) change.
Definition delete_policy (id : string) (expected_version : N) (change : PolicyChange) : PolicyOp StoredPolicy :=
  write_version id expected_version None change.

Definition get (id : string) : PolicyOp (option StoredPolicy) := fun st => (Ok (ps_policies st !! id), st).
Definition list_policies (scope : PolicyScope) : PolicyOp (list StoredPolicy) :=
  fun st => (Ok (sort_on sp_name String.leb (filter (fun p => sp_deleted p = false /\ sp_scope p = scope) (policy_values st))), st).
Definition list_in_org (org : string) : PolicyOp (list StoredPolicy) :=
  fun st => (Ok (sort_on (fun p => (scope_project (sp_scope p), sp_name p)) (lex_le opt_le)
                   (filter (fun p => sp_deleted p = false /\ scope_org (sp_scope p) = org) (policy_values st))), st).
Definition versions (id : string) : PolicyOp (list PolicyVersion) := fun st => (Ok (default [] (ps_versions st !! id)), st).
Definition version (id : string) (v : N) : PolicyOp (option PolicyVersion) :=
  fun st => (Ok (vs ← ps_versions st !! id; List.find (fun x => (pv_version x =? v)%N) vs), st).
Definition effective (org : string) (project : option string) (c : Checkpoint) : PolicyOp (list StoredPolicy) :=
  fun st => (Ok (sort_on (fun p => (is_some (scope_project (sp_scope p)), sp_name p)) (lex_le bool_le)
                   (filter (fun p => sp_deleted p = false /\ scope_org (sp_scope p) = org /\ po_checkpoint (sp_body p) = c
                                     /\ (scope_project (sp_scope p) = None \/ scope_project (sp_scope p) = project))
                      (policy_values st))), st).

(** ** Decisions *)

Definition is_step_admit (r : DecisionRecord) : bool := bool_decide (de_checkpoint (dr_decision r) = StepAdmit).
(** The same Attempt's; a missing part is equal to nothing. *)
Definition same_attempt (d r : DecisionRecord) : bool :=
  bool_decide (dr_run_id d = dr_run_id r) && bool_decide (dr_step_id d = dr_step_id r) && bool_decide (dr_attempt d = dr_attempt r)
  && is_some (dr_run_id r) && is_some (dr_step_id r) && is_some (dr_attempt r).
Definition record_decision (r : DecisionRecord) : PolicyOp string :=
  fun st =>
    if existsb (fun d => String.eqb (dr_id d) (dr_id r) || (is_step_admit r && is_step_admit d && same_attempt d r)) (ps_decisions st)
    then (Err PsConflict, st)
    else (Ok (dr_id r), mkPolicyState (ps_policies st) (ps_versions st) (ps_decisions st ++ [r])).
Definition decision (id : string) : PolicyOp (option DecisionRecord) :=
  fun st => (Ok (List.find (fun d => String.eqb (dr_id d) id) (ps_decisions st)), st).

(** [(at, id)], earlier first. *)
Definition at_le (a b : Z * string) : bool := if (a.1 =? b.1)%Z then String.leb a.2 b.2 else (a.1 <? b.1)%Z.
Definition decisions_for_run (run_id : string) : PolicyOp (list DecisionRecord) :=
  fun st => (Ok (sort_on (fun d => (dr_at d, dr_id d)) at_le (filter (fun d => dr_run_id d = Some run_id) (ps_decisions st))), st).
Definition older (before : option DecisionCursor) (d : DecisionRecord) : bool :=
  match before with None => true | Some c => negb (at_le (dc_at c, dc_id c) (dr_at d, dr_id d)) end.
Definition org_decisions (org : string) (limit : nat) (before : option DecisionCursor) : PolicyOp (list DecisionRecord) :=
  fun st => (Ok (take (decision_page_limit limit)
                   (sort_on (fun d => (dr_at d, dr_id d)) (fun a b => at_le b a)
                      (filter (fun d => older before d = true) (filter (fun d => dr_org d = org) (ps_decisions st))))), st).

(** ** Requests *)

Inductive PolicyRequest : Type :=
| PrCreate (new : NewPolicy)
| PrUpdate (id : string) (expected : N) (body : Policy) (change : PolicyChange)
| PrDelete (id : string) (expected : N) (change : PolicyChange)
| PrRecord (record : DecisionRecord).
Definition serve (st : PolicyState) (r : PolicyRequest) : PolicyState :=
  match r with
  | PrCreate new => (create new st).2
  | PrUpdate id v body change => (update id v body change st).2
  | PrDelete id v change => (delete_policy id v change st).2
  | PrRecord record => (record_decision record st).2
  end.
Definition served (requests : list PolicyRequest) (st : PolicyState) : PolicyState := foldl serve st requests.

(** The versions [1..n], oldest first, the last one's body the current one,
    none but the last a delete. *)
Record versions_of (p : StoredPolicy) (vs : list PolicyVersion) : Prop := {
  vo_count : N.of_nat (length vs) = sp_version p;
  vo_numbers : forall i v, vs !! i = Some v -> pv_version v = (N.of_nat i + 1)%N /\ pv_policy_id v = sp_id p
                 /\ pv_content_hash v = content_hash (pv_body v) /\ (pv_deleted v = true -> S i = length vs);
  vo_last : exists v, last vs = Some v /\ pv_body v = sp_body p /\ pv_deleted v = sp_deleted p;
}.
Definition live (p : StoredPolicy) : Prop := sp_deleted p = false.
Record store_inv (st : PolicyState) : Prop := {
  si_rows : forall id p, ps_policies st !! id = Some p ->
    sp_id p = id /\ sp_name p = po_name (sp_body p) /\ sp_content_hash p = content_hash (sp_body p)
    /\ exists vs, ps_versions st !! id = Some vs /\ versions_of p vs;
  si_names : forall i j p q, ps_policies st !! i = Some p -> ps_policies st !! j = Some q -> live p -> live q ->
    sp_scope p = sp_scope q -> sp_name p = sp_name q -> i = j;
  si_versions : forall id vs, ps_versions st !! id = Some vs -> is_Some (ps_policies st !! id);
  si_ids : NoDup (map dr_id (ps_decisions st));
  si_attempts : forall i j d r, ps_decisions st !! i = Some d -> ps_decisions st !! j = Some r ->
    is_step_admit d = true -> is_step_admit r = true -> same_attempt d r = true -> i = j;
}.
(** Nothing written is rewritten. *)
Record extends (st st' : PolicyState) : Prop := {
  ex_versions : forall id vs, ps_versions st !! id = Some vs -> exists more, ps_versions st' !! id = Some (vs ++ more);
  ex_decisions : exists more, ps_decisions st' = ps_decisions st ++ more;
  ex_current : forall id p, ps_policies st !! id = Some p -> exists p', ps_policies st' !! id = Some p' /\ (sp_version p <= sp_version p')%N;
}.
#[export] Instance extends_preorder : PreOrder extends.
Proof.
  split.
  - intros st. split; [intros id vs H; exists []; by rewrite app_nil_r|exists []; by rewrite app_nil_r|intros id p H; exists p; split; [done|lia]].
  - intros a b c [A1 [l A2] A3] [B1 [k B2] B3]. split.
    + intros id vs (more & H)%A1. apply B1 in H as (more' & H). exists (more ++ more'). by rewrite H, app_assoc.
    + exists (l ++ k). by rewrite B2, A2, app_assoc.
    + intros id p (q & H & ?)%A3. apply B3 in H as (q' & H & ?). exists q'. split; [done|lia].
Qed.

Lemma policy_values_spec st p : p ∈ policy_values st <-> exists id, ps_policies st !! id = Some p.
Proof.
  unfold policy_values. rewrite list_elem_of_fmap. split.
  - intros ([id q] & -> & H). exists id. by apply elem_of_btree_list in H.
  - intros (id & H). exists (id, p). split; [done|]. by apply elem_of_btree_list.
Qed.
Lemma name_free st scope name except :
  store_inv st -> name_taken st scope name except = false ->
  forall id p, ps_policies st !! id = Some p -> live p -> sp_scope p = scope -> sp_name p = name -> Some id = except.
Proof.
  intros Hinv Hn id p Hp Hl Hs Hm. destruct (si_rows st Hinv id p Hp) as (Hid & _).
  apply dec_stable. intros Hne. assert (name_taken st scope name except = true) as Ht; [|congruence].
  apply existsb_exists. exists p. split; [apply list_elem_of_In, policy_values_spec; by exists id|].
  rewrite Hl, Hs, Hm, Hid, String.eqb_refl, !bool_decide_eq_true_2 by done. done.
Qed.

(** Writing one row: its versions grow by one, its name is free. *)
Lemma row_written st id p v vs :
  store_inv st -> (forall vs', ps_versions st !! id = Some vs' -> vs' = vs) ->
  sp_id p = id -> sp_name p = po_name (sp_body p) -> sp_content_hash p = content_hash (sp_body p) ->
  versions_of p (vs ++ [v]) ->
  (live p -> forall j q, ps_policies st !! j = Some q -> live q -> sp_scope q = sp_scope p -> sp_name q = sp_name p -> j = id) ->
  (forall q, ps_policies st !! id = Some q -> (sp_version q <= sp_version p)%N) ->
  let st' := mkPolicyState (<[id := p]> (ps_policies st)) (<[id := vs ++ [v]]> (ps_versions st)) (ps_decisions st) in
  store_inv st' /\ extends st st'.
Proof.
  intros [H1 H2 H3 H4 H5] Hvs Hid Hn Hh Hv Hfree Hver st'. split.
  - split; cbn [ps_policies ps_versions ps_decisions st']; [| | |done|done].
    + intros i q. destruct (decide (i = id)) as [->|Hi].
      * rewrite !lookup_insert_eq. intros [= <-]. split_and!; [done..|]. by eexists.
      * rewrite !lookup_insert_ne by done. apply H1.
    + intros i j q r. destruct (decide (i = id)) as [->|Hi], (decide (j = id)) as [->|Hj]; [done| | |];
        rewrite ?lookup_insert_eq, ?lookup_insert_ne by done.
      * intros [= <-] Hr Hlp Hlr Hs Hnm. symmetry. by apply (Hfree Hlp j r).
      * intros Hq [= <-] Hlq Hlp Hs Hnm. by apply (Hfree Hlp i q).
      * apply H2.
    + intros i ws. destruct (decide (i = id)) as [->|Hi]; [intros _; rewrite lookup_insert_eq; by eexists|]. rewrite !lookup_insert_ne by done. apply H3.
  - split; cbn [ps_policies ps_versions ps_decisions st'].
    + intros i ws. destruct (decide (i = id)) as [->|Hi]; [|rewrite lookup_insert_ne by done; intros H; exists []; by rewrite app_nil_r].
      intros H. rewrite lookup_insert_eq. apply Hvs in H as ->. by exists [v].
    + exists []. by rewrite app_nil_r.
    + intros i q. destruct (decide (i = id)) as [->|Hi]; [rewrite lookup_insert_eq; eauto|rewrite lookup_insert_ne by done; intros; exists q; split; [done|lia]].
Qed.

Lemma write_version_kept id v body change st :
  store_inv st -> store_inv (write_version id v body change st).2 /\ extends st (write_version id v body change st).2.
Proof.
  intros Hinv. unfold write_version. destruct (ps_policies st !! id) as [cur|] eqn:Ec; [|done].
  destruct (sp_deleted cur) eqn:Ed; [done|]. destruct (negb _); [done|].
  destruct (negb (negb (is_some body)) && _) eqn:Et; [done|]. cbn [snd].
  destruct (si_rows st Hinv id cur Ec) as (Hid & Hn & Hh & vs & Evs & [Hc Hnum (lv & Hlast & Hb & Hdel)]).
  rewrite Evs. change (default [] (Some vs)) with vs. apply row_written; try done.
  - intros vs' Hvs'. congruence.
  - split; cbn [sp_version sp_id sp_body sp_deleted updated_row].
    + rewrite length_app. cbn [length]. lia.
    + intros i x. rewrite lookup_snoc_Some, length_app. intros [[Hi Hx]|[-> <-]].
      * destruct (Hnum i x Hx) as (? & ? & ? & Hd). split_and!; [congruence..|done|]. intros Hxd.
        exfalso. specialize (Hd Hxd). rewrite last_lookup in Hlast. replace (pred (length vs)) with i in Hlast by lia.
        congruence.
      * cbn. split_and!; [rewrite <- Hc; lia|done|done|lia].
    + rewrite last_snoc. by eexists.
  - intros Hl j q Hj Hlq Hs Hm. unfold live in Hl. cbn in Hl, Hs, Hm. rewrite Hl in Et. cbn in Et.
    pose proof (name_free st _ _ _ Hinv Et j q Hj Hlq Hs Hm) as [= ?]. done.
  - intros q Hq. assert (q = cur) as -> by congruence. cbn. lia.
Qed.
Lemma create_kept new st : store_inv st -> store_inv (create new st).2 /\ extends st (create new st).2.
Proof.
  intros Hinv. unfold create. destruct (is_some (ps_policies st !! np_id new)) eqn:En; [done|].
  destruct (name_taken _ _ _ _) eqn:Et; [done|]. cbn [snd].
  assert (ps_versions st !! np_id new = None) as Hv.
  { destruct (ps_versions st !! np_id new) eqn:E; [|done]. apply (si_versions st Hinv) in E as [? E]. by rewrite E in En. }
  assert (ps_policies st !! np_id new = None) as Hp by (by destruct (ps_policies st !! np_id new)).
  apply (row_written st _ _ (first_version new) []); try done.
  - intros vs' Hvs'. congruence.
  - split; cbn.
    + done.
    + intros [|[|]] x; [|done..]. by intros [= <-].
    + by eexists.
  - intros _ j q Hj Hl Hs Hm. by pose proof (name_free st _ _ _ Hinv Et j q Hj Hl Hs Hm).
  - intros q Hq. congruence.
Qed.
Lemma record_kept r st : store_inv st -> store_inv (record_decision r st).2 /\ extends st (record_decision r st).2.
Proof.
  intros Hinv. unfold record_decision. destruct (existsb _ _) eqn:Ee; [done|]. cbn [snd].
  assert (forall d, d ∈ ps_decisions st -> dr_id d <> dr_id r /\ ~ (is_step_admit r = true /\ is_step_admit d = true /\ same_attempt d r = true)) as Hno.
  { intros d Hd. apply list_elem_of_In in Hd. apply Is_true_false in Ee. split; intros H; apply Ee, Is_true_true, existsb_exists; exists d; (split; [done|]).
    - by rewrite H, String.eqb_refl.
    - destruct H as (-> & -> & ->). apply orb_true_r. }
  assert (forall d, same_attempt r d = same_attempt d r) as Hsym.
  { intros d. unfold same_attempt. repeat case_bool_decide; subst; try congruence; cbn; congruence. }
  destruct Hinv as [H1 H2 H3 H4 H5]. split; split; cbn [ps_policies ps_versions ps_decisions]; try done.
  - rewrite map_app. apply NoDup_app. split; [done|]. split; [|apply NoDup_singleton].
    intros x (d & -> & Hd)%list_elem_of_fmap Hx. apply list_elem_of_singleton in Hx. by destruct (Hno d Hd).
  - intros i j d e. rewrite !lookup_snoc_Some. intros [[Hi Hd]|[-> <-]] [[Hj He]|[-> <-]] Ad Ae Hs; [by eapply H5| | |done]; exfalso.
    + apply (Hno d); [by eapply list_elem_of_lookup_2|done].
    + rewrite Hsym in Hs. apply (Hno e); [by eapply list_elem_of_lookup_2|done].
  - intros id vs H. exists []. by rewrite app_nil_r.
  - by eexists.
  - intros id p H. exists p. split; [done|lia].
Qed.

Lemma serve_kept r st : store_inv st -> store_inv (serve st r) /\ extends st (serve st r).
Proof. destruct r; [apply create_kept|apply write_version_kept|apply write_version_kept|apply record_kept]. Qed.
Lemma served_kept requests st : store_inv st -> store_inv (served requests st) /\ extends st (served requests st).
Proof.
  revert st. induction requests as [|r l IH]; intros st H; [done|]. cbn. destruct (serve_kept r st H) as [H1 H2].
  destruct (IH _ H1) as [H3 H4]. split; [done|]. by transitivity (serve st r).
Qed.
Lemma no_policies_inv : store_inv no_policies.
Proof. split; cbn; [intros ?? []%lookup_empty_Some|intros ???? []%lookup_empty_Some|intros ?? []%lookup_empty_Some|apply NoDup_nil_2|by intros ????]. Qed.

Lemma write_version_stale id v body change st :
  (forall p, ps_policies st !! id = Some p -> (v < sp_version p)%N) ->
  exists e, write_version id v body change st = (Err e, st) /\ (e = PsNotFound \/ e = PsConflict).
Proof.
  intros H. unfold write_version. destruct (ps_policies st !! id) as [p|] eqn:Ep; [|by eexists; split; [|left]].
  destruct (sp_deleted p); [by eexists; split; [|left]|]. specialize (H p eq_refl).
  destruct (N.eqb_spec (sp_version p) v) as [Hv|_]; [lia|]. by eexists; split; [|right].
Qed.
Lemma write_version_ok id v body change st p st' :
  write_version id v body change st = (Ok p, st') ->
  exists current, ps_policies st !! id = Some current /\ live current /\ sp_version current = v
    /\ ps_policies st' !! id = Some p /\ sp_version p = (v + 1)%N.
Proof.
  unfold write_version. destruct (ps_policies st !! id) as [cur|]; [|done]. destruct (sp_deleted cur) eqn:Ed; [done|].
  destruct (N.eqb_spec (sp_version cur) v) as [Hv|]; [|done]. cbn [negb]. destruct (_ && _); [done|]. intros [= <- <-].
  exists cur. cbn. by rewrite lookup_insert_eq, Hv.
Qed.
End Store.

(** ** Theorems *)

(** Nothing the policy store was told is lost or told twice. After any
    requests on an empty store every Policy's versions are numbered 1 to n
    with their own content hash, the last is what is stored and only a last
    one deletes; no two live Policies of a scope share a name; no two
    decisions share an id and no two [step.admit] decisions an Attempt; and
    whatever is asked next, the history only grows at its end. *)
Theorem policy_history_kept {P : PolicyPorts} requests more :
  let st := served requests no_policies in
  store_inv st /\ extends st (served more st).
Proof. cbv zeta. destruct (served_kept requests no_policies no_policies_inv) as [H _]. split; [done|]. by apply served_kept. Qed.

(** A Policy is changed only as it was read. Of two updates or deletes
    that name the same version, whatever the store is asked between them, once
    one succeeds the other changes nothing and is told of a conflict, or that
    the Policy is gone. *)
Theorem one_write_per_version {P : PolicyPorts} requests between id v body change body' change' p st1 :
  let st := served requests no_policies in
  write_version id v body change st = (Ok p, st1) ->
  let st2 := served between st1 in
  exists e, write_version id v body' change' st2 = (Err e, st2) /\ (e = PsNotFound \/ e = PsConflict).
Proof.
  intros st H1 st2. destruct (served_kept requests no_policies no_policies_inv) as [Hinv _]. fold st in Hinv.
  pose proof (write_version_kept id v body change st Hinv) as [Hinv1 _]. rewrite H1 in Hinv1.
  destruct (served_kept between st1 Hinv1) as [_ Hext]. apply write_version_ok in H1 as (cur & _ & _ & _ & Hp & Hv).
  apply write_version_stale. intros q Hq. destruct (ex_current _ _ Hext id p Hp) as (q' & Hq' & Hle).
  assert (q' = q) as -> by (unfold st2 in Hq; congruence). lia.
Qed.

(** A consultation evaluates the live Policies at its checkpoint of its
    org and its own Project, and no others: another Project's or another
    org's Policy is never among them. *)
Theorem effective_exact {P : PolicyPorts} org project c st :
  exists l, effective org project c st = (Ok l, st) /\
    forall p, p ∈ l <-> (exists id, ps_policies st !! id = Some p) /\ live p /\ scope_org (sp_scope p) = org
      /\ po_checkpoint (sp_body p) = c /\ (scope_project (sp_scope p) = None \/ scope_project (sp_scope p) = project).
Proof.
  eexists. split; [reflexivity|]. intros p. unfold sort_on. rewrite merge_sort_Permutation, list_elem_of_filter, policy_values_spec.
  unfold live. naive_solver.
Qed.

(** ** Witnesses *)

Definition first_policy : NewPolicy := mkNewPolicy "p1" (ScopeOrg "acme") (allowing "lint") "ann" "first" 1.
Definition a_change : PolicyChange := mkChange "bo" "edit" None 2.
Lemma one_write_per_version_witness :
  let st := served (P := plain_ports) [PrCreate first_policy] no_policies in
  let st1 := (write_version (P := plain_ports) "p1" 1 (Some (allowing "scan")) a_change st).2 in
  exists e, write_version (P := plain_ports) "p1" 1 None a_change st1 = (Err e, st1) /\ (e = PsNotFound \/ e = PsConflict).
Proof.
  cbv zeta.
  destruct (write_version (P := plain_ports) "p1" 1 (Some (allowing "scan")) a_change
              (served (P := plain_ports) [PrCreate first_policy] no_policies)) as [[p|e] st1] eqn:E.
  - exact (one_write_per_version (P := plain_ports) [PrCreate first_policy] [] "p1" 1 (Some (allowing "scan")) a_change None a_change p st1 E).
  - assert (is_ok (write_version (P := plain_ports) "p1" 1 (Some (allowing "scan")) a_change
              (served (P := plain_ports) [PrCreate first_policy] no_policies)).1 = true) as Hv by (vm_compute; reflexivity).
    rewrite E in Hv. discriminate Hv.
Defined.
