(* ===== verification/EnvironmentRules.v ===== *)
(** * The Environment's approval-gate rules as built-in rules of the engine
    (scarab-policy/src/environment_rules.rs)

    The gate requirement at [run.create], the release rules of a gate at
    [gate.resolve] and the launch-time re-check at [step.admit]. *)

From S2P Require Import Prelude Graph Text Globs Values Protection Loosening Cel Params Scopes Render Ir Approvals Schema RunCreate Policies.

Definition GATE_REQUIREMENT_ID : string := "builtin:environment_approval_gate".
Definition GATE_RELEASE_ID : string := "builtin:environment_approval_release".
Definition LAUNCH_RECHECK_ID : string := "builtin:environment_approval_recheck".
Definition builtin (id name : string) (o : PolicyOutcome) : PolicyResult := mkResult id 0 name LOrg Enforce o.

(** ** run.create: the gate requirement *)

Record GateRequirement := mkRequirement {
  gr_ir : Ir.PipelineIr;
  gr_result : option PolicyResult;
  gr_refusal : option string;
}.
Definition quoted_ids (l : list string) : string := join ", " (map ticked l).
Definition missing_refusal (environment : string) (missing fronts needs : list string) : string :=
  "environment `" +:+ environment +:+ "` has approvers, and these Steps use its authority with no `gate: manual` upstream: "
  +:+ quoted_ids missing +:+ ". It refuses such a Run rather than add a gate: add `- { id: approve, gate: manual, needs: ["
  +:+ join ", " needs +:+ "] }` and put `approve` in the `needs` of " +:+ quoted_ids fronts.
Definition gate_requirement (ir : Ir.PipelineIr) (environment : string) (protection : option EffectiveProtection)
    (excluded : list string) : GateRequirement :=
  match protection with
  | Some p =>
      if is_nil (ep_approvers p) then mkRequirement (mark_environment_approval_gates ir) None None
      else
        let result o := Some (builtin GATE_REQUIREMENT_ID "environment-approval-gate" o) in
        match add_environment_approval_gate ir environment (ag_added_gate_expiry_s (ep_approval_gate p)) excluded with
        | (_, None) => mkRequirement (mark_environment_approval_gates ir) (result Passed) None
        | (with_gate, Some added) =>
            if bool_decide (ag_missing_gate (ep_approval_gate p) = MgRefuse) then
              let needs := from_option st_needs [] (List.find (fun s => String.eqb (st_id s) (ad_id added)) (ir_steps with_gate)) in
              let refusal := missing_refusal environment (steps_missing_approval_gate ir excluded) (ad_fronts added) needs in
              mkRequirement (mark_environment_approval_gates ir) (result (Denied [refusal])) (Some refusal)
            else mkRequirement (mark_environment_approval_gates with_gate) (result (GateAdded (ad_id added) (ad_fronts added))) None
        end
  | None => mkRequirement (mark_environment_approval_gates ir) None None
  end.

(** ** gate.resolve: the release rules *)

Record GateReleaseFacts := mkReleaseFacts {
  gf_git_ref : string;
  gf_protection : EffectiveProtection;
  gf_approvals : list string;
  gf_wait_began_ms : Z;
  gf_now_ms : Z;
}.
Record ApprovalMet := mkMet { am_approvers : list string; am_required : option N; am_release_at : Z }.
Record GateRelease := mkRelease { gl_result : PolicyResult; gl_met : option ApprovalMet }.
Definition gate_release (f : GateReleaseFacts) : GateRelease :=
  let release := builtin GATE_RELEASE_ID "environment-approval-release" in
  match admits (gf_protection f) (gf_git_ref f) (gf_approvals f) with
  | Err violations => mkRelease (release (Requires violations)) None
  | Ok _ =>
      let timer_s := effective_wait_timer_s (gf_protection f) in
      let release_at := sat_add (gf_wait_began_ms f) (sat_mul (Z.of_N timer_s) 1000) in
      let '(approvers, required) := approver_set (gf_protection f) in
      mkRelease
        (release (if (gf_now_ms f <? release_at)%Z
                  then Requires ["the approvals are in; the wait timer of " +:+ pretty timer_s +:+ " s runs for "
                                 +:+ pretty ((release_at - gf_now_ms f + 999) `quot` 1000)%Z +:+ " s more"]
                  else Passed))
        (Some (mkMet approvers required release_at))
  end.

(** ** step.admit: the launch-time re-check *)

Record UpstreamGateFacts := mkUpstreamFacts {
  uf_gate : string;
  uf_released_at : option Z;
  uf_met : option (list string * option N);
}.
Record LaunchFacts := mkLaunchFacts {
  lf_environment : string;
  lf_git_ref : string;
  lf_protection : EffectiveProtection;
  lf_step : string;
  lf_uses_authority : option bool;
  lf_approval_gates : list UpstreamGateFacts;
  lf_now_ms : Z;
}.
Record LaunchCheck := mkLaunchCheck {
  lc_result : option PolicyResult;
  lc_refusal : option string;
  lc_before_approval : bool;
}.
(** [i64::saturating_sub]. *)
Definition sat_sub (a b : Z) : Z := clamp_i64 (a - b).
Definition max_age_ms (p : EffectiveProtection) : Z := (Z.of_N (ag_max_approval_age_s (ep_approval_gate p)) * 1000)%Z.
(** Why this gate does not admit the Step; [None] when it does. *)
Definition unqualified (f : LaunchFacts) (g : UpstreamGateFacts) : option string :=
  let p := lf_protection f in
  match uf_released_at g with
  | None => Some ("Environment approval gate `" +:+ uf_gate g +:+ "` upstream of step `" +:+ lf_step f +:+ "` has not released")
  | Some released =>
      let age_ms := sat_sub (lf_now_ms f) released in
      if (max_age_ms p <? age_ms)%Z
      then Some ("Environment approval gate `" +:+ uf_gate g +:+ "` released " +:+ pretty (age_ms `quot` 1000)%Z
                 +:+ " s ago, longer than environment `" +:+ lf_environment f +:+ "`'s maximum approval age of "
                 +:+ pretty (ag_max_approval_age_s (ep_approval_gate p)) +:+ " s; rerun the gate to ask the approvers again")
      else if match uf_met g with Some m => bool_decide (m <> approver_set p) | None => false end
      then Some ("environment `" +:+ lf_environment f +:+ "`'s approvers changed since Environment approval gate `"
                 +:+ uf_gate g +:+ "` released; rerun the gate to ask the approvers again")
      else None
  end.
(** The gates from the latest; the first reason is kept. *)
Fixpoint first_refusal (f : LaunchFacts) (gates : list UpstreamGateFacts) (acc : option string) : option string :=
  match gates with
  | [] => acc
  | g :: l => match unqualified f g with
              | None => None
              | Some why => first_refusal f l (Some (default why acc))
              end
  end.
Definition refusal (f : LaunchFacts) : option string :=
  let env := lf_environment f in
  if is_nil (lf_approval_gates f) then
    Some ("step `" +:+ lf_step f +:+ "` uses environment `" +:+ env +:+ "`'s authority, and no Environment approval gate is upstream of it: the Run was created before `"
          +:+ env +:+ "` had approvers, or no `gate: manual` guards the step; start a new Run so `" +:+ env +:+ "` can add its gate")
  else if negb (ref_allowed (lf_protection f) (lf_git_ref f)) then
    Some ("ref `" +:+ lf_git_ref f +:+ "` is no longer allowed to deploy to environment `" +:+ env +:+ "`")
  else first_refusal f (reverse (lf_approval_gates f)) None.
Definition launch_recheck (f : LaunchFacts) : LaunchCheck :=
  if is_nil (ep_approvers (lf_protection f)) then mkLaunchCheck None None false
  else
    let unqualified := refusal f in
    let r := if bool_decide (lf_uses_authority f = Some true) then unqualified else None in
    mkLaunchCheck
      (Some (builtin LAUNCH_RECHECK_ID "environment-approval-recheck" (match r with None => Passed | Some r => Denied [r] end)))
      r (is_some unqualified).

(** ** Marking the gates *)

Section Marking.
Context (f : StepSpec -> StepSpec).
Hypothesis Hid : forall s, st_id (f s) = st_id s.
Hypothesis Hneeds : forall s, st_needs (f s) = st_needs s.

Lemma ids_map l : ids (map f l) = ids l.
Proof. unfold ids. rewrite map_map. by apply map_ext. Qed.
Lemma needs_of_map l x : needs_of (map f l) x = needs_of l x.
Proof.
  unfold needs_of. induction l as [|s l IH]; [done|]. cbn [map List.find]. rewrite Hid.
  destruct (String.eqb (st_id s) x); [cbn; by rewrite Hneeds|exact IH].
Qed.
Lemma before_map l a b : before (map f l) a b <-> before l a b.
Proof.
  unfold before. split; (induction 1 as [x y H|x y z H _ IH]; [apply tc_once; by rewrite needs_of_map in *|eapply tc_l; [|exact IH]; by rewrite needs_of_map in *]).
Qed.
Lemma topological_map l order : topological (needs_of (map f l)) order <-> topological (needs_of l) order.
Proof. induction order as [|x rest IH]; [done|]. cbn [topological]. rewrite IH. by setoid_rewrite needs_of_map. Qed.
Lemma well_formed_map ir : well_formed ir -> well_formed (set_steps (map f (ir_steps ir)) ir).
Proof.
  intros [H1 H2 (order & Hp & Ho)]. split; cbn [ir_steps set_steps].
  - by rewrite ids_map.
  - intros s n (s' & -> & Hs)%list_elem_of_fmap Hn. rewrite Hneeds in Hn. rewrite ids_map. by apply (H2 s').
  - exists order. rewrite ids_map. split; [done|]. by apply topological_map.
Qed.
End Marking.

Definition marked (approval : list string) (s : StepSpec) : StepSpec :=
  if is_manual_gate s then set_environment_approval_gate (Some (bool_decide (st_id s ∈ approval))) s else s.
Lemma marked_id approval s : st_id (marked approval s) = st_id s.
Proof. unfold marked. by destruct (is_manual_gate s). Qed.
Lemma marked_needs approval s : st_needs (marked approval s) = st_needs s.
Proof. unfold marked. by destruct (is_manual_gate s). Qed.
Lemma mark_well_formed ir : well_formed ir -> well_formed (mark_environment_approval_gates ir).
Proof. intros H. by apply (well_formed_map (marked (environment_approval_gates ir)) (marked_id _) (marked_needs _)). Qed.
Lemma mark_before ir a b : before (ir_steps (mark_environment_approval_gates ir)) a b <-> before (ir_steps ir) a b.
Proof. by apply (before_map (marked (environment_approval_gates ir)) (marked_id _) (marked_needs _)). Qed.
Lemma mark_authority ir s : uses_environment_authority (mark_environment_approval_gates ir) (marked (environment_approval_gates ir) s) = uses_environment_authority ir s.
Proof. unfold marked. by destruct (is_manual_gate s). Qed.

(** A manual gate before a Step that uses the authority is marked. *)
Lemma marked_gate ir g s :
  well_formed ir -> g ∈ ir_steps ir -> is_manual_gate g = true -> s ∈ ir_steps ir -> uses_environment_authority ir s = true ->
  before (ir_steps ir) (st_id g) (st_id s) -> st_id g ∈ environment_approval_gates ir.
Proof.
  intros Hwf Hg Hm Hs Hu Hb. unfold environment_approval_gates. apply list_elem_of_fmap. exists g. split; [done|].
  apply list_elem_of_filter. split; [|by apply list_elem_of_filter]. apply existsb_exists. exists (st_id s). split.
  - apply list_elem_of_In, elem_of_elements. by apply (downstream_spec ir (wf_ids ir Hwf) (wf_needs ir Hwf)).
  - by rewrite (proj2 (by_id_spec ir (wf_ids ir Hwf) (st_id s) s)).
Qed.
Lemma mark_upstream ir s :
  well_formed ir -> s ∈ ir_steps ir -> uses_environment_authority ir s = true ->
  (exists g, manual_gate ir g /\ before (ir_steps ir) g (st_id s)) ->
  upstream_approval_gates (mark_environment_approval_gates ir) (st_id s) <> [].
Proof.
  intros Hwf Hs Hu (g & (sg & Hsg & <- & Hm) & Hb) He. pose proof (mark_well_formed ir Hwf) as Hwf'.
  apply (not_elem_of_nil (marked (environment_approval_gates ir) sg)). rewrite <- He. unfold upstream_approval_gates.
  apply list_elem_of_filter. split.
  - unfold counts_as_environment_approval_gate, marked. rewrite Hm. cbn [is_manual_gate st_gate set_environment_approval_gate].
    unfold is_manual_gate in *. cbn. rewrite Hm. cbn. apply bool_decide_eq_true.
    rewrite bool_decide_eq_true_2; [done|]. by apply (marked_gate ir sg s).
  - apply list_elem_of_filter. split; [|by apply list_elem_of_fmap_2]. rewrite marked_id.
    apply upstream_spec; [apply Hwf'..|]. by apply mark_before.
Qed.
Lemma upstream_approval_gates_spec ir x g :
  well_formed ir -> g ∈ upstream_approval_gates ir x ->
  g ∈ ir_steps ir /\ is_manual_gate g = true /\ before (ir_steps ir) (st_id g) x.
Proof.
  intros Hwf [Hc [Hu Hg]%list_elem_of_filter]%list_elem_of_filter. split; [done|].
  unfold counts_as_environment_approval_gate in Hc. apply andb_true_iff in Hc as [Hm _]. split; [done|].
  by apply upstream_spec in Hu; [|apply Hwf..].
Qed.

(** ** Theorems *)

Lemma mark_dead ir excluded x :
  well_formed ir -> x ∈ dead_steps (mark_environment_approval_gates ir) excluded <-> x ∈ dead_steps ir excluded.
Proof.
  intros Hwf. rewrite (dead_steps_spec ir excluded x Hwf), (dead_steps_spec _ excluded x (mark_well_formed ir Hwf)).
  assert (ids (ir_steps (mark_environment_approval_gates ir)) = ids (ir_steps ir)) as ->.
  { by apply (ids_map (marked (environment_approval_gates ir)) (marked_id _)). }
  split; intros (e & He & Hi & H); exists e; (split_and!; [done..|]); (destruct H as [?|H]; [by left|right]); by apply mark_before.
Qed.
Lemma mark_covers ir excluded :
  well_formed ir ->
  (forall s, s ∈ ir_steps ir -> uses_environment_authority ir s = true -> st_id s ∉ dead_steps ir excluded ->
     exists g, manual_gate ir g /\ before (ir_steps ir) g (st_id s)) ->
  forall s, s ∈ ir_steps (mark_environment_approval_gates ir) -> uses_environment_authority (mark_environment_approval_gates ir) s = true ->
    st_id s ∉ dead_steps (mark_environment_approval_gates ir) excluded ->
    upstream_approval_gates (mark_environment_approval_gates ir) (st_id s) <> [].
Proof.
  intros Hwf H s' Hs' Hu Hd. rewrite mark_dead in Hd by done.
  apply list_elem_of_fmap in Hs' as (s & -> & Hs). fold (marked (environment_approval_gates ir) s) in *.
  rewrite mark_authority in Hu. rewrite marked_id in *. apply mark_upstream; auto.
Qed.

(** The Pipeline a Run that is not refused is stored as. *)
Definition gated (ir : PipelineIr) (excluded : list string) : Prop :=
  well_formed ir /\
  forall s, s ∈ ir_steps ir -> uses_environment_authority ir s = true -> st_id s ∉ dead_steps ir excluded ->
    upstream_approval_gates ir (st_id s) <> [] /\
    forall g, g ∈ upstream_approval_gates ir (st_id s) -> is_manual_gate g = true /\ before (ir_steps ir) (st_id g) (st_id s).
Lemma mark_gated ir excluded : well_formed ir ->
  (forall s, s ∈ ir_steps ir -> uses_environment_authority ir s = true -> st_id s ∉ dead_steps ir excluded ->
     exists g, manual_gate ir g /\ before (ir_steps ir) g (st_id s)) ->
  gated (mark_environment_approval_gates ir) excluded.
Proof.
  intros Hwf Hcov. split; [by apply mark_well_formed|]. intros s Hs Hu Hd. split; [by eapply mark_covers|].
  intros g Hg. by apply (upstream_approval_gates_spec _ _ _ (mark_well_formed _ Hwf)) in Hg as (_ & ? & ?).
Qed.
Lemma requirement_met ir environment p excluded :
  well_formed ir -> (forall e, e ∈ excluded -> e ∈ ids (ir_steps ir)) -> ep_approvers p <> [] ->
  gr_refusal (gate_requirement ir environment (Some p) excluded) = None ->
  gated (gr_ir (gate_requirement ir environment (Some p) excluded)) excluded.
Proof.
  intros Hwf Hex Hp. unfold gate_requirement. destruct (is_nil (ep_approvers p)) eqn:En; [by destruct (ep_approvers p)|].
  destruct (add_environment_approval_gate ir environment (ag_added_gate_expiry_s (ep_approval_gate p)) excluded) as [ir' added] eqn:Ea.
  pose proof (add_gate_spec ir environment _ excluded ir' added Hwf Hex Ea) as (Hwf' & Hcov & _ & Hadded).
  destruct added as [a|]; [case_bool_decide|subst ir']; cbn [gr_refusal gr_ir]; intros; [done|by apply mark_gated..].
Qed.

(** C13: the gate requirement is met or the Run is refused. With approvers on
    the Environment, a Run that is not refused is stored as a well-formed
    Pipeline in which every Step that uses the Environment's authority and can
    start has an Environment approval gate upstream; it is refused only in
    missing-gate mode [refuse], with some such Step ungated, and then the
    rule's result denies. *)
Theorem requirement_met_or_refused ir environment p excluded :
  well_formed ir -> (forall e, e ∈ excluded -> e ∈ ids (ir_steps ir)) -> ep_approvers p <> [] ->
  let r := gate_requirement ir environment (Some p) excluded in
  (gr_refusal r = None ->
     well_formed (gr_ir r) /\
     forall s, s ∈ ir_steps (gr_ir r) -> uses_environment_authority (gr_ir r) s = true -> st_id s ∉ dead_steps (gr_ir r) excluded ->
       upstream_approval_gates (gr_ir r) (st_id s) <> [] /\
       forall g, g ∈ upstream_approval_gates (gr_ir r) (st_id s) -> is_manual_gate g = true /\ before (ir_steps (gr_ir r)) (st_id g) (st_id s)) /\
  (gr_refusal r <> None <-> ag_missing_gate (ep_approval_gate p) = MgRefuse /\ steps_missing_approval_gate ir excluded <> []) /\
  (forall why, gr_refusal r = Some why -> exists o, gr_result r = Some o /\ objection o = [why]).
Proof.
  intros Hwf Hex Hp r. pose proof (requirement_met ir environment p excluded Hwf Hex Hp) as Hmet. fold r in Hmet. split; [exact Hmet|]. clear Hmet.
  assert (snd (add_environment_approval_gate ir environment (ag_added_gate_expiry_s (ep_approval_gate p)) excluded) = None
          <-> steps_missing_approval_gate ir excluded = []) as Hnone.
  { unfold add_environment_approval_gate. by destruct (steps_missing_approval_gate ir excluded). }
  unfold gate_requirement in r. destruct (is_nil (ep_approvers p)) eqn:En; [by destruct (ep_approvers p)|].
  destruct (add_environment_approval_gate ir environment (ag_added_gate_expiry_s (ep_approval_gate p)) excluded) as [ir' added] eqn:Ea.
  pose proof (add_gate_spec ir environment _ excluded ir' added Hwf Hex Ea) as (Hwf' & Hcov & _ & Hadded).
  cbn [snd] in Hnone. subst r. destruct added as [a|]; [|subst ir'].
  - assert (steps_missing_approval_gate ir excluded <> []) as Hne by (intros H; by apply Hnone in H).
    case_bool_decide as Hm; cbn [gr_refusal gr_result gr_ir].
    + split; [done|]. intros why [= <-]. by eexists.
    + split; [split; [done|by intros [? _]]|done].
  - cbn [gr_refusal gr_result gr_ir]. split; [|done]. split; [done|]. intros [_ H]. exfalso. by apply H, Hnone.
Qed.

Lemma admitted p git_ref approvals : (exists u, admits p git_ref approvals = Ok u) <-> ref_allowed p git_ref = true /\ enough p approvals.
Proof. rewrite <- admits_ok. split; [by intros [[] ?]|eauto]. Qed.

(** C29: an Environment approval gate releases exactly when it may: the Run's
    ref is allowed, the approvals of the gate's current wait are the quorum
    the Environment asks for, and its wait timer has run out, counted from
    the start of that wait. The approver set recorded, against which every
    launch behind the gate is compared, is recorded exactly when ref and
    quorum are met, timer or no timer. *)
Theorem gate_release_exact f :
  let p := gf_protection f in
  let release_at := sat_add (gf_wait_began_ms f) (sat_mul (Z.of_N (effective_wait_timer_s p)) 1000) in
  let met := ref_allowed p (gf_git_ref f) = true /\ enough p (gf_approvals f) in
  (pr_outcome (gl_result (gate_release f)) = Passed <-> met /\ (release_at <= gf_now_ms f)%Z) /\
  (gl_met (gate_release f) = Some (mkMet (approver_set p).1 (approver_set p).2 release_at) <-> met) /\
  (gl_met (gate_release f) = None <-> ~ met) /\
  objection (gl_result (gate_release f)) = [].
Proof.
  cbv zeta. rewrite <- admitted. unfold gate_release.
  destruct (admits (gf_protection f) (gf_git_ref f) (gf_approvals f)) as [u|violations].
  - destruct (approver_set (gf_protection f)) as [approvers required]. cbn [gl_result gl_met pr_outcome builtin fst snd].
    destruct (Z.ltb_spec (gf_now_ms f) (sat_add (gf_wait_began_ms f) (sat_mul (Z.of_N (effective_wait_timer_s (gf_protection f))) 1000))).
    + split_and!; [split; [done|lia]|split; [by eexists|done]|split; [done|intros Hn; destruct Hn; by eexists]|done].
    + split_and!; [split; [intros _; split; [by eexists|lia]|done]|split; [by eexists|done]|split; [done|intros Hn; destruct Hn; by eexists]|done].
  - cbn. split_and!; [split; [done|by intros [[? ?] _]]|split; [done|by intros [? ?]]|split; [by intros _ [? ?]|done]|done].
Qed.

(** What makes one gate admit a launch behind it. *)
Definition gate_admits (f : LaunchFacts) (g : UpstreamGateFacts) : Prop :=
  exists released, uf_released_at g = Some released
    /\ (sat_sub (lf_now_ms f) released <= max_age_ms (lf_protection f))%Z
    /\ (uf_met g = None \/ uf_met g = Some (approver_set (lf_protection f))).
Lemma unqualified_spec f g : unqualified f g = None <-> gate_admits f g.
Proof.
  unfold unqualified, gate_admits. destruct (uf_released_at g) as [released|]; [|by split; [|intros (? & ? & _)]].
  destruct (Z.ltb_spec (max_age_ms (lf_protection f)) (sat_sub (lf_now_ms f) released)) as [Hl|Hl].
  - split; [done|]. intros (? & [= <-] & ? & _). lia.
  - destruct (uf_met g) as [m|].
    + case_bool_decide as Hm; (split; [|]); [done| |intros _|done].
      * by intros (? & _ & _ & [?|[= ->]]).
      * exists released. split_and!; [done..|right]. by rewrite Hm.
    + split; [intros _; exists released; split_and!; [done..|by left]|done].
Qed.
Lemma first_refusal_none f gates acc : first_refusal f gates (Some acc) = None <-> exists g, g ∈ gates /\ gate_admits f g.
Proof.
  revert acc. induction gates as [|g l IH]; intros acc; cbn [first_refusal].
  - split; [done|]. by intros (g & Hg%not_elem_of_nil & _).
  - setoid_rewrite elem_of_cons. destruct (unqualified f g) as [why|] eqn:E.
    + rewrite IH. split; [intros (x & Hx & H); exists x; auto|]. intros (x & [->|Hx] & H); [|eauto].
      apply unqualified_spec in H. congruence.
    + split; [intros _; exists g; split; [by left|by apply unqualified_spec]|done].
Qed.
Lemma first_refusal_keeps f gates acc r : first_refusal f gates (Some acc) = Some r -> r = acc.
Proof.
  revert acc. induction gates as [|g l IH]; intros acc; cbn [first_refusal]; [by intros [= ->]|].
  by destruct (unqualified f g); [apply IH|].
Qed.
Lemma refusal_none f :
  refusal f = None <-> ref_allowed (lf_protection f) (lf_git_ref f) = true /\ exists g, g ∈ lf_approval_gates f /\ gate_admits f g.
Proof.
  unfold refusal. destruct (lf_approval_gates f) as [|g l] eqn:El; cbn [is_nil].
  - split; [done|]. by intros (_ & x & Hx%not_elem_of_nil & _).
  - destruct (ref_allowed (lf_protection f) (lf_git_ref f)); cbn [negb]; [|by split; [|intros [? _]]].
    assert (forall x, x ∈ g :: l <-> x ∈ reverse (g :: l)) as Hr by (intros x; by rewrite elem_of_reverse).
    setoid_rewrite Hr. destruct (reverse (g :: l)) as [|g' l'] eqn:Er.
    { by apply (f_equal length) in Er; rewrite length_reverse in Er. }
    cbn [first_refusal]. setoid_rewrite elem_of_cons. destruct (unqualified f g') as [why|] eqn:E.
    + rewrite first_refusal_none. split; [intros (x & Hx & H); split; [done|]; exists x; auto|].
      intros (_ & x & [->|Hx] & H); [|eauto]. apply unqualified_spec in H. congruence.
    + split; [intros _; split; [done|]; exists g'; split; [by left|by apply unqualified_spec]|done].
Qed.

(** When the re-check counts a launch as approved, and when it refuses it. *)
Lemma launch_recheck_approves f :
  let c := launch_recheck f in
  let admitted := ref_allowed (lf_protection f) (lf_git_ref f) = true /\ exists g, g ∈ lf_approval_gates f /\ gate_admits f g in
  (lc_before_approval c = false <-> ep_approvers (lf_protection f) = [] \/ admitted) /\
  (lc_refusal c <> None <-> lc_before_approval c = true /\ lf_uses_authority f = Some true).
Proof.
  cbv zeta. unfold launch_recheck. destruct (ep_approvers (lf_protection f)) as [|a approvers]; cbn [is_nil].
  { cbn. split; [naive_solver|by split; [|intros [? _]]]. }
  cbn [lc_before_approval lc_refusal]. pose proof (refusal_none f) as Hn. split.
  - rewrite <- Hn. destruct (refusal f); cbn; split; try done; [by intros [|]|by right].
  - case_bool_decide as Hu; [|by split; [|intros [_ ?]]]. destruct (refusal f); cbn; split; try done. by intros [? _].
Qed.

(** The launch-time re-check is exact. In an Environment with approvers
    a Step's launch counts as approved if and only if the Run's ref is still
    allowed and some Environment approval gate upstream has released, no
    longer ago than the maximum approval age, and against the approver set
    the Environment has now (or none recorded). The Step is refused exactly
    when it is not and the Step uses the Environment's authority, the rule's
    result then denies, and with every gate lacking the reason is the one of
    the latest in the Pipeline. *)
Theorem launch_recheck_exact f :
  let c := launch_recheck f in
  let admitted := ref_allowed (lf_protection f) (lf_git_ref f) = true /\ exists g, g ∈ lf_approval_gates f /\ gate_admits f g in
  (lc_before_approval c = false <-> ep_approvers (lf_protection f) = [] \/ admitted) /\
  (lc_refusal c <> None <-> lc_before_approval c = true /\ lf_uses_authority f = Some true) /\
  (forall r, lc_refusal c = Some r -> exists o, lc_result c = Some o /\ objection o = [r]) /\
  (forall gates latest r, lf_approval_gates f = gates ++ [latest] -> lc_refusal c = Some r ->
     ref_allowed (lf_protection f) (lf_git_ref f) = true -> unqualified f latest = Some r).
Proof.
  cbv zeta. destruct (launch_recheck_approves f) as [Hb Hr]. split; [exact Hb|]. split; [exact Hr|]. clear Hb Hr.
  unfold launch_recheck. destruct (ep_approvers (lf_protection f)) as [|a approvers]; cbn [is_nil]; [by cbn|].
  cbn [lc_before_approval lc_refusal lc_result]. split.
  - intros r ->. by eexists.
  - intros gates latest r Hl. case_bool_decide as Hu; [|done]. intros Hr Ha. revert Hr. unfold refusal. rewrite Hl, Ha.
    destruct (is_nil (gates ++ [latest])) eqn:En; [by destruct gates|]. cbn [negb]. rewrite reverse_snoc. cbn [first_refusal].
    destruct (unqualified f latest) as [why|]; [|done]. cbn [from_option id]. by intros ->%first_refusal_keeps.
Qed.

(** ** Witness *)

Definition two_approvers (mode : MissingGateMode) : EffectiveProtection :=
  mkEffective ["ana"; "bo"] ["ana"; "bo"] [] [] 0 false (mkGateRules mode None (Some 1%N) 60).
Lemma requirement_met_or_refused_witness :
  let added := gate_requirement guarded_pipeline "prod" (Some (two_approvers MgAdd)) [] in
  let ungated := pipeline_of [needing "build" []; with_token (needing "publish" ["build"])] in
  gr_refusal added = None /\ map st_id (upstream_approval_gates (gr_ir added) "publish") = ["approve"] /\
  (exists why, gr_refusal (gate_requirement ungated "prod" (Some (two_approvers MgRefuse)) []) = Some why).
Proof.
  assert (forall e : string, e ∈ [] -> e ∈ ids (ir_steps guarded_pipeline)) as He by (intros e H; apply elem_of_nil in H; destruct H).
  destruct (requirement_met_or_refused guarded_pipeline "prod" (two_approvers MgAdd) [] guarded_well_formed He ltac:(discriminate)) as (_ & H & _).
  split; [|split; [vm_compute; reflexivity|eexists; vm_compute; reflexivity]].
  destruct (gr_refusal (gate_requirement guarded_pipeline "prod" (Some (two_approvers MgAdd)) [])) eqn:E; [|reflexivity].
  destruct (proj1 H ltac:(discriminate)) as [Hm _]. discriminate Hm.
Defined.
