(* ===== verification/Identity.v ===== *)
(** * Identity and role bindings (scarab-identity/src/lib.rs, scarab-testkit/src/lib.rs)

    Roles, scopes and bindings; sessions and issued API tokens; Principals
    and the provider identities pinned to them; and the in-memory stores of
    bindings, tokens, sessions and identities. The stores' faults are not
    injected, so their operations are total. [sha2] is a parameter. *)

From S2P Require Import Prelude Text Values.

(** ** Roles and scopes *)

Inductive Role : Type := Viewer | Member | Admin | Owner.
Inductive Action : Type := Read | Write | Administer.
#[export] Instance Role_eq_dec : EqDecision Role.
Proof. solve_decision. Defined.
#[export] Instance Action_eq_dec : EqDecision Action.
Proof. solve_decision. Defined.

Definition role_rank (r : Role) : N := match r with Viewer => 0 | Member => 1 | Admin => 2 | Owner => 3 end.
Definition role_le (a b : Role) : bool := (role_rank a <=? role_rank b)%N.
(** [Ord::max], [Ord::min], and [Option]'s own order under [max]. *)
Definition role_max (a b : Role) : Role := if role_le a b then b else a.
Definition role_min (a b : Role) : Role := if role_le a b then a else b.
Definition opt_max (a b : option Role) : option Role :=
  match a, b with
  | Some x, Some y => Some (role_max x y)
  | None, y => y
  | x, None => x
  end.
(** [iter.max()]. *)
Definition max_role_of (l : list Role) : option Role := foldr (fun r acc => opt_max (Some r) acc) None l.

Definition allows (r : Role) (a : Action) : bool :=
  match a with Read => true | Write => role_le Member r | Administer => role_le Admin r end.

Record Principal := mkPrincipal { pn_subject : string; pn_display_name : option string; pn_roles : list Role }.
Definition principal_can (p : Principal) (a : Action) : bool := existsb (fun r => allows r a) (pn_roles p).

Inductive Scope : Type := Org (org : string) | Project (org name : string).
#[export] Instance Scope_eq_dec : EqDecision Scope.
Proof. solve_decision. Defined.
Definition scope_org (s : Scope) : string := match s with Org o | Project o _ => o end.

Record Binding := mkBinding { bn_subject : string; bn_scope : Scope; bn_role : Role }.
Inductive BindingOrigin : Type := Native | Import.
#[export] Instance BindingOrigin_eq_dec : EqDecision BindingOrigin.
Proof. solve_decision. Defined.

(** *** [Rbac]: a flat list of bindings *)

Definition rbac_binds (bindings : list Binding) (subject : string) (scope : Scope) : list Role :=
  omap (fun b => if String.eqb (bn_subject b) subject
                    && bool_decide (bn_scope b = scope \/ bn_scope b = Org (scope_org scope))
                 then Some (bn_role b) else None) bindings.
Definition rbac_role_of (bindings : list Binding) (subject : string) (scope : Scope) : option Role :=
  max_role_of (rbac_binds bindings subject scope).
Definition rbac_can (bindings : list Binding) (subject : string) (scope : Scope) (a : Action) : bool :=
  match rbac_role_of bindings subject scope with Some r => allows r a | None => false end.

(** ** Errors *)

Inductive IdentityError : Type := IeAuthFailed | IeIssuance (m : string) | IeDenied | IeConflict (m : string).

(** ** The binding store

    [(subject, org, project)] to [(role, origin)]: an empty project is the
    Org's own scope, no role is a native tombstone. *)

Definition RbacKey : Type := string * string * string.
Record RbacState := mkRbac {
  rb_rows : gmap RbacKey (option Role * BindingOrigin);
  rb_via : gmap RbacKey string;
}.
Definition no_bindings : RbacState := mkRbac ∅ ∅.

Definition rbac_key (subject : string) (scope : Scope) : RbacKey :=
  match scope with Org org => (subject, org, "") | Project org name => (subject, org, name) end.
Definition is_native (st : RbacState) (k : RbacKey) : bool :=
  match rb_rows st !! k with Some (_, Native) => true | _ => false end.

Definition grant (b : Binding) (origin : BindingOrigin) (st : RbacState) : RbacState :=
  let key := rbac_key (bn_subject b) (bn_scope b) in
  match origin with
  | Native => mkRbac (<[key := (Some (bn_role b), Native)]> (rb_rows st)) (rb_via st)
  | Import => if is_native st key then st
              else mkRbac (<[key := (Some (bn_role b), Import)]> (rb_rows st)) (rb_via st)
  end.
Definition revoke (subject : string) (scope : Scope) (st : RbacState) : RbacState :=
  mkRbac (<[rbac_key subject scope := (None, Native)]> (rb_rows st)) (rb_via st).
Definition row_role (st : RbacState) (k : RbacKey) : option Role := rb_rows st !! k ≫= fst.
Definition role_of (subject : string) (scope : Scope) (st : RbacState) : option Role :=
  opt_max (row_role st (rbac_key subject scope)) (row_role st (rbac_key subject (Org (scope_org scope)))).
Definition max_role (subject : string) (st : RbacState) : option Role :=
  max_role_of (omap (fun kv => if String.eqb kv.1.1.1 subject then kv.2.1 else None) (map_to_list (rb_rows st))).
Definition binding_at (kv : RbacKey * (option Role * BindingOrigin)) : option Binding :=
  match kv with
  | ((subject, o, p), (Some role, _)) => Some (mkBinding subject (if String.eqb p "" then Org o else Project o p) role)
  | _ => None
  end.
Definition by_subject (a b : Binding) : Prop := str_le (bn_subject a) (bn_subject b).
#[export] Instance by_subject_dec : RelDecision by_subject := fun a b => str_le_dec _ _.
Definition bindings (org : string) (st : RbacState) : list Binding :=
  merge_sort by_subject (omap (fun kv => if String.eqb kv.1.1.2 org then binding_at kv else None) (map_to_list (rb_rows st))).
Definition orgs_of (subject : string) (st : RbacState) : list string :=
  merge_sort str_le (elements (list_to_set (omap (fun kv : RbacKey * (option Role * BindingOrigin) =>
    if String.eqb kv.1.1.1 subject && bool_decide (is_Some kv.2.1) then Some kv.1.1.2 else None)
    (map_to_list (rb_rows st))) : gset string)).

Definition seed (scope : Scope) (via : string) (st : RbacState) (s : string * Role) : RbacState :=
  let key := rbac_key s.1 scope in
  if is_native st key then st
  else mkRbac (<[key := (Some s.2, Import)]> (rb_rows st)) (<[key := via]> (rb_via st)).
(** The rows [prune] deletes: this scope's imports through [via], or with no
    recorded provider, whose subject was not listed. *)
Definition prunable (scope : Scope) (via : string) (seeds : list (string * Role)) (st : RbacState)
    (k : RbacKey) (row : option Role * BindingOrigin) : bool :=
  let '(_, org, project) := rbac_key "" scope in
  String.eqb k.1.2 org && String.eqb k.2 project && bool_decide (row.2 = Import)
  && match rb_via st !! k with None => true | Some v => String.eqb v via end
  && negb (existsb (fun keep => String.eqb keep.1 k.1.1) seeds).
Definition remove_rows (doomed : list RbacKey) (st : RbacState) : RbacState :=
  foldl (fun st k => mkRbac (delete k (rb_rows st)) (delete k (rb_via st))) st doomed.
Definition keys_where (p : RbacKey -> option Role * BindingOrigin -> bool) (st : RbacState) : list RbacKey :=
  omap (fun kv => if p kv.1 kv.2 then Some kv.1 else None) (map_to_list (rb_rows st)).
Definition import_seeds (scope : Scope) (via : string) (seeds : list (string * Role)) (prune : bool) (st : RbacState) : N * RbacState :=
  let st := foldl (seed scope via) st seeds in
  if prune
  then let doomed := keys_where (prunable scope via seeds st) st in (N.of_nat (length doomed), remove_rows doomed st)
  else (0%N, st).
Definition drop_imports (subject via : string) (st : RbacState) : N * RbacState :=
  let doomed := keys_where (fun k row => String.eqb k.1.1 subject && bool_decide (row.2 = Import)
                                         && bool_decide (rb_via st !! k = Some via)) st in
  (N.of_nat (length doomed), remove_rows doomed st).

(** What a forge import may do to the store. *)
Inductive ImportOp : Type :=
| ImportGrant (b : Binding)
| ImportSeeds (scope : Scope) (via : string) (seeds : list (string * Role)) (prune : bool)
| DropImports (subject via : string).
Definition import_op (st : RbacState) (o : ImportOp) : RbacState :=
  match o with
  | ImportGrant b => grant b Import st
  | ImportSeeds scope via seeds prune => (import_seeds scope via seeds prune st).2
  | DropImports subject via => (drop_imports subject via st).2
  end.

(** ** Sessions and issued API tokens *)

(** [Sha256::digest] of a text, as its 32 bytes. *)
Class Sha256 := sha256 : string -> list ascii.

Section Digests.
Context {H : Sha256}.

(** [{byte:02x}] of each byte. *)
Definition hex_byte (c : ascii) : string :=
  String (hex_char (byte_of c / 16)) (String (hex_char (byte_of c mod 16)) "").
Definition api_token_hash (plaintext : string) : string := concat_chars (map hex_byte (sha256 plaintext)).
Definition session_id_hash (id : string) : string := api_token_hash id.
Definition csrf_hash (token : string) : string := api_token_hash token.

Record Session := mkSession {
  se_id : string;
  se_principal : Principal;
  se_expires_at : Z;
  se_csrf_hash : string;
  se_created_at : Z;
  se_login_kind : string;
}.
Definition FRESH_LOGIN_MS : Z := 5 * 60 * 1000.
Definition LOGIN_KIND_BROWSER : string := "browser".
Definition LOGIN_KIND_API : string := "api".

(** [ct_eq]: equal lengths, and the bytes' differences all zero. *)
Fixpoint xor_all (a b : string) (acc : N) : N :=
  match a, b with
  | String x a', String y b' => xor_all a' b' (N.lor acc (N.lxor (byte_of x) (byte_of y)))
  | _, _ => acc
  end.
Definition ct_eq (a b : string) : bool := (String.length a =? String.length b) && (xor_all a b 0 =? 0)%N.

Definition csrf_matches (s : Session) (presented : option string) : bool :=
  match presented with
  | None => false
  | Some t => negb (String.eqb (se_csrf_hash s) "") && ct_eq (csrf_hash t) (se_csrf_hash s)
  end.
Definition session_is_valid (s : Session) (now_ms : Z) : bool := (now_ms <? se_expires_at s)%Z.
Definition fresh_login_until (s : Session) : option Z :=
  if String.eqb (se_login_kind s) LOGIN_KIND_BROWSER && (0 <? se_created_at s)%Z
  then Some (se_created_at s + FRESH_LOGIN_MS)%Z else None.

Definition API_TOKEN_PREFIX : string := "scarab_pat_".
Definition MAX_API_TOKEN_DAYS : N := 365.

Record ApiToken := mkApiToken {
  at_id : string;
  at_name : string;
  at_owner_subject : string;
  at_scope : Scope;
  at_role : Role;
  at_expires_at : Z;
  at_created_by : string;
  at_created_at : Z;
  at_last_used_at : option Z;
  at_use_count : N;
  at_revoked_at : option Z;
}.
Definition token_is_live (t : ApiToken) (now_ms : Z) : bool :=
  bool_decide (at_revoked_at t = None) && (now_ms <? at_expires_at t)%Z.
Definition covers (t : ApiToken) (scope : Scope) : bool :=
  match at_scope t with
  | Org org => String.eqb (scope_org scope) org
  | Project org name => match scope with Project o n => String.eqb o org && String.eqb n name | Org _ => false end
  end.
Definition effective_role (t : ApiToken) (live : option Role) : option Role :=
  (fun l => role_min l (at_role t)) <$> live.

(** *** The session store: keyed by the id's hash, the id never held *)

Definition Sessions : Type := gmap string Session.
Definition with_id (id : string) (s : Session) : Session :=
  mkSession id (se_principal s) (se_expires_at s) (se_csrf_hash s) (se_created_at s) (se_login_kind s).
Definition put_session (s : Session) (m : Sessions) : Sessions := <[session_id_hash (se_id s) := with_id "" s]> m.
Definition get_session (id : string) (m : Sessions) : option Session := with_id id <$> m !! session_id_hash id.
Definition delete_session (id : string) (m : Sessions) : Sessions := delete (session_id_hash id) m.

(** *** The token store: keyed by the plaintext's hash *)

Definition Tokens : Type := gmap string ApiToken.
Definition put_token (t : ApiToken) (hash : string) (m : Tokens) : Tokens := <[hash := t]> m.
Definition by_hash (hash : string) (m : Tokens) : option ApiToken := m !! hash.
Definition find_token (id : string) (m : Tokens) : option (string * ApiToken) :=
  List.find (fun kv => String.eqb (at_id kv.2) id) (btree_list m).
Definition by_id (id : string) (m : Tokens) : option ApiToken := snd <$> find_token id m.
Definition newest_first (a b : ApiToken) : Prop :=
  (at_created_at b < at_created_at a)%Z \/ at_created_at a = at_created_at b /\ str_le (at_id a) (at_id b).
#[export] Instance newest_first_dec : RelDecision newest_first.
Proof. intros a b. unfold newest_first. apply _. Defined.
Definition list_tokens (org : string) (m : Tokens) : list ApiToken :=
  merge_sort newest_first (List.filter (fun t => String.eqb (scope_org (at_scope t)) org) (map snd (btree_list m))).
Definition list_owned (owner : string) (m : Tokens) : list ApiToken :=
  merge_sort newest_first (List.filter (fun t => String.eqb (at_owner_subject t) owner) (map snd (btree_list m))).
Definition with_revoked (now_ms : Z) (t : ApiToken) : ApiToken :=
  mkApiToken (at_id t) (at_name t) (at_owner_subject t) (at_scope t) (at_role t) (at_expires_at t) (at_created_by t)
    (at_created_at t) (at_last_used_at t) (at_use_count t) (Some now_ms).
Definition revoke_token (id : string) (now_ms : Z) (m : Tokens) : bool * Tokens :=
  match find_token id m with
  | None => (false, m)
  | Some (k, t) => if bool_decide (is_Some (at_revoked_at t)) then (false, m) else (true, <[k := with_revoked now_ms t]> m)
  end.
(** [u64::saturating_add]. *)
Definition sat_add_u64 (a b : N) : N := N.min u64_max (a + b).
Definition touched (now_ms : Z) (uses : N) (t : ApiToken) : ApiToken :=
  mkApiToken (at_id t) (at_name t) (at_owner_subject t) (at_scope t) (at_role t) (at_expires_at t) (at_created_by t)
    (at_created_at t)
    (match at_last_used_at t with Some prev => if (prev <? now_ms)%Z then Some now_ms else Some prev | None => Some now_ms end)
    (sat_add_u64 (at_use_count t) uses) (at_revoked_at t).
Definition touch (id : string) (now_ms : Z) (uses : N) (m : Tokens) : Tokens :=
  match find_token id m with
  | None => m
  | Some (k, t) => <[k := touched now_ms uses t]> m
  end.

End Digests.

(** ** Principals and provider identities *)

Record ProviderIdentity := mkProviderIdentity {
  pi_provider : string;
  pi_external_id : string;
  pi_handle : string;
  pi_email : option string;
  pi_email_verified : bool;
  pi_display_name : option string;
}.
Record PrincipalRecord := mkPrincipalRecord {
  pc_id : string;
  pc_display_name : option string;
  pc_created_at : Z;
  pc_claimed_at : option Z;
  pc_merged_into : option string;
}.
Inductive LinkOutcome : Type :=
| Attached | AlreadyLinked
| Merged (from : string) (moved_passkeys : list string)
| PasskeysWouldMove (from : string) (passkeys : N).

Definition is_clean_byte (c : ascii) : bool := is_alphanumeric c || existsb (Ascii.eqb c) ["."; "_"; "@"; "+"; "-"]%char.
Definition is_clean_handle (s : string) : bool := negb (String.eqb s "") && all_bytes is_clean_byte s.

(** [s.replace('~', "%7E")]. *)
Fixpoint escape_tilde (s : string) : string :=
  match s with
  | EmptyString => ""
  | String c s' => (if Ascii.eqb c "~" then "%7E" else String c "") +:+ escape_tilde s'
  end.
Definition base_principal_id (identity : ProviderIdentity) (unqualified : option string) : string :=
  let qualified :=
    if is_clean_handle (pi_handle identity) then pi_provider identity +:+ ":" +:+ pi_handle identity
    else pi_provider identity +:+ ":" +:+ escape_tilde (pi_external_id identity) in
  match unqualified with
  | Some legacy => if negb (String.eqb legacy "") && negb (has_char ":" legacy || has_char "~" legacy) then legacy else qualified
  | None => qualified
  end.
Definition principal_id_candidate (base : string) (n : N) : string :=
  if (n <=? 1)%N then base else base +:+ "~" +:+ pretty n.

Record IdentitiesState := mkIdentities {
  id_principals : gmap string PrincipalRecord;
  id_identities : gmap (string * string) (string * ProviderIdentity);
}.
Definition no_identities : IdentitiesState := mkIdentities ∅ ∅.
Definition identity_key (i : ProviderIdentity) : string * string := (pi_provider i, pi_external_id i).
Definition with_handle (handle : string) (i : ProviderIdentity) : ProviderIdentity :=
  mkProviderIdentity (pi_provider i) (pi_external_id i) handle (pi_email i) (pi_email_verified i) (pi_display_name i).
Definition claimed (i : ProviderIdentity) (now_ms : Z) (p : PrincipalRecord) : PrincipalRecord :=
  mkPrincipalRecord (pc_id p) (match pi_display_name i with Some d => Some d | None => pc_display_name p end)
    (pc_created_at p) (Some (default now_ms (pc_claimed_at p))) (pc_merged_into p).

(** [(1..).map(candidate).find(free)], the first [fuel] candidates. *)
Fixpoint free_id (fuel : nat) (base : string) (n : N) (taken : gmap string PrincipalRecord) : option string :=
  match fuel with
  | 0 => None
  | S fuel' =>
      let c := principal_id_candidate base n in
      match taken !! c with None => Some c | Some _ => free_id fuel' base (n + 1) taken end
  end.
Definition pin_or_mint (i : ProviderIdentity) (base_id : string) (now_ms : Z) (claim : bool) (st : IdentitiesState)
    : option string * IdentitiesState :=
  match id_identities st !! identity_key i with
  | Some (id, held) =>
      let refreshed := if claim then i else with_handle (pi_handle i) held in
      (Some id, mkIdentities (if claim then alter (claimed i now_ms) id (id_principals st) else id_principals st)
                  (<[identity_key i := (id, refreshed)]> (id_identities st)))
  | None =>
      match free_id (S (size (id_principals st))) base_id 1 (id_principals st) with
      | None => (None, st)
      | Some id =>
          (Some id, mkIdentities
             (<[id := mkPrincipalRecord id (pi_display_name i) now_ms (if claim then Some now_ms else None) None]> (id_principals st))
             (<[identity_key i := (id, i)]> (id_identities st)))
      end
  end.
Definition sign_in (i : ProviderIdentity) (base_id : string) (now_ms : Z) := pin_or_mint i base_id now_ms true.
Definition pin (i : ProviderIdentity) (base_id : string) (now_ms : Z) := pin_or_mint i base_id now_ms false.
Definition pinned (provider external_id : string) (st : IdentitiesState) : option string := fst <$> id_identities st !! (provider, external_id).
Definition principal (id : string) (st : IdentitiesState) : option PrincipalRecord := id_principals st !! id.
Definition held_by (p : string) (st : IdentitiesState) : list ((string * string) * (string * ProviderIdentity)) :=
  List.filter (fun kv => String.eqb kv.2.1 p) (map_to_list (id_identities st)).
Definition link (who : string) (i : ProviderIdentity) (st : IdentitiesState) : Result IdentityError LinkOutcome * IdentitiesState :=
  let holder := fst <$> id_identities st !! identity_key i in
  if bool_decide (holder = Some who) then (Ok AlreadyLinked, st)
  else match List.find (fun kv => String.eqb kv.1.1 (pi_provider i)) (held_by who st) with
       | Some (_, (_, held)) =>
           (Err (IeConflict ("you already have a " +:+ pi_provider i +:+ " account linked (`" +:+ pi_handle held
                             +:+ "`) — unlink it first")), st)
       | None =>
           match holder with
           | None => (Ok Attached, mkIdentities (id_principals st) (<[identity_key i := (who, i)]> (id_identities st)))
           | Some from =>
               if 1 <? length (held_by from st)
               then (Err (IeConflict ("that " +:+ pi_provider i +:+ " account belongs to `" +:+ from
                                      +:+ "`, which also signs in another way")), st)
               else (Err (IeIssuance ("merging Principals needs the Postgres adapter (one transaction across "
                                      +:+ "bindings, approvers, tokens and sessions)")), st)
           end
       end.
Definition unlink (who provider : string) (st : IdentitiesState) : Result IdentityError unit * IdentitiesState :=
  let mine := held_by who st in
  match List.find (fun kv => String.eqb kv.1.1 provider) mine with
  | None => (Err (IeConflict ("no " +:+ provider +:+ " account is linked")), st)
  | Some (key, _) =>
      if length mine =? 1
      then (Err (IeConflict (provider +:+ " is your only way to sign in — link another account first")), st)
      else (Ok tt, mkIdentities (id_principals st) (delete key (id_identities st)))
  end.
Definition by_provider (a b : ProviderIdentity) : Prop := str_le (pi_provider a) (pi_provider b).
#[export] Instance by_provider_dec : RelDecision by_provider := fun a b => str_le_dec _ _.
Definition identities_of (id : string) (st : IdentitiesState) : list ProviderIdentity :=
  merge_sort by_provider (map (fun kv => kv.2.2) (held_by id st)).

(** *** Merges *)

Definition folded_into (target : string) (p : PrincipalRecord) : bool := bool_decide (pc_merged_into p = Some target).
(** The [for] of one turn: a Principal folded into [target] and not yet found
    is found, and searched from in turn. *)
Definition alias_found (target : string) (s : list string * list string) (p : PrincipalRecord) : list string * list string :=
  if folded_into target p && negb (bool_decide (pc_id p ∈ s.1)) then (s.1 ++ [pc_id p], pc_id p :: s.2) else s.
(** One turn of [while let Some(target) = frontier.pop()]: the state is the
    answer so far and the frontier, last pushed first. *)
Definition alias_turn (st : IdentitiesState) (s : list string * list string) : (list string * list string) + list string :=
  match s.2 with
  | [] => inr (merge_sort str_le s.1)
  | target :: frontier => inl (foldl (alias_found target) (s.1, frontier) (map snd (btree_list (id_principals st))))
  end.
Definition alias_turns (st : IdentitiesState) : nat := S (size (id_principals st)).
Definition aliases_of (id : string) (st : IdentitiesState) : list string :=
  match loop (alias_turns st) (alias_turn st) ([], [id]) with inr out => out | inl (out, _) => out end.

Inductive Resolved : Type := RsNone | RsLive (id : string) | RsEndless.
Fixpoint follow_merges (n : nat) (st : IdentitiesState) (id : string) : Resolved :=
  match n with
  | 0 => RsEndless
  | S n' =>
      match principal id st with
      | None => RsNone
      | Some p => match pc_merged_into p with Some next => follow_merges n' st next | None => RsLive id end
      end
  end.
Definition MERGE_CHAIN : nat := 16.
Definition resolve_principal (st : IdentitiesState) (subject : string) : Result IdentityError (option string) :=
  match follow_merges MERGE_CHAIN st subject with
  | RsNone => Ok None
  | RsLive id => Ok (Some id)
  | RsEndless => Err (IeIssuance ("principal `" +:+ subject +:+ "` has a merge chain that does not end"))
  end.

(** ** Lemmas: roles *)

Lemma role_le_refl r : role_le r r = true.
Proof. by destruct r. Qed.
Lemma allows_mono a b act : role_le a b = true -> allows a act = true -> allows b act = true.
Proof. by destruct a, b, act. Qed.
Lemma role_min_allows a b act : allows (role_min a b) act = allows a act && allows b act.
Proof. by destruct a, b, act. Qed.

#[export] Instance opt_max_assoc : Assoc (=) opt_max.
Proof. intros [[]|] [[]|] [[]|]; done. Qed.
#[export] Instance opt_max_comm : Comm (=) opt_max.
Proof. intros [[]|] [[]|]; done. Qed.
Lemma opt_max_none_r r : opt_max r None = r.
Proof. by destruct r. Qed.
Lemma max_role_of_cons r l : max_role_of (r :: l) = opt_max (Some r) (max_role_of l).
Proof. done. Qed.
Lemma max_role_of_app l k : max_role_of (l ++ k) = opt_max (max_role_of l) (max_role_of k).
Proof.
  induction l as [|r l IH]; [done|]. rewrite <- app_comm_cons, !max_role_of_cons, IH. by rewrite (assoc opt_max).
Qed.
#[export] Instance max_role_of_perm : Proper ((≡ₚ) ==> (=)) max_role_of.
Proof.
  intros l k. induction 1 as [|r l k _ IH|x y l|l k m _ IH1 _ IH2]; [done| |..].
  - by rewrite !max_role_of_cons, IH.
  - rewrite !max_role_of_cons. rewrite !(assoc opt_max). f_equal. by rewrite (comm opt_max).
  - congruence.
Qed.
(** The highest role of a list allows what one of them allows. *)
Lemma max_role_allows l act :
  match max_role_of l with Some r => allows r act | None => false end = existsb (fun r => allows r act) l.
Proof.
  induction l as [|r l IH]; [done|]. rewrite max_role_of_cons. cbn [existsb]. rewrite <- IH.
  destruct (max_role_of l) as [m|]; cbn; [|by rewrite orb_false_r]. by destruct r, m, act.
Qed.

(** ** Lemmas: bindings *)

Lemma is_native_spec st k : is_native st k = true <-> exists r, rb_rows st !! k = Some (r, Native).
Proof.
  unfold is_native. destruct (rb_rows st !! k) as [[r []]|]; (split; [intros H|intros [r' H]]); try done; eauto.
Qed.
(** An insertion guarded by [is_native] leaves the native rows. *)
Lemma insert_keeps_native st k k' row via r :
  is_native st k = false -> rb_rows st !! k' = Some (r, Native) -> rb_rows (mkRbac (<[k := row]> (rb_rows st)) via) !! k' = Some (r, Native).
Proof.
  intros Hn Hk. cbn. rewrite lookup_insert_ne; [done|]. intros ->.
  assert (is_native st k' = true) by (apply is_native_spec; eauto). congruence.
Qed.
Lemma lookup_remove_rows doomed st k : rb_rows (remove_rows doomed st) !! k = if bool_decide (k ∈ doomed) then None else rb_rows st !! k.
Proof.
  unfold remove_rows. revert st; induction doomed as [|d doomed IH]; intros st; [done|]. cbn [foldl]. rewrite IH. cbn.
  destruct (decide (k = d)) as [->|Hne].
  - rewrite lookup_delete_eq. rewrite (bool_decide_eq_true_2 (d ∈ d :: doomed)) by left. by destruct (bool_decide _).
  - rewrite lookup_delete_ne by done. apply f_equal with (f := fun b : bool => if b then None else rb_rows st !! k).
    apply bool_decide_ext. rewrite elem_of_cons. naive_solver.
Qed.
Lemma elem_of_keys_where p st k : k ∈ keys_where p st <-> exists row, rb_rows st !! k = Some row /\ p k row = true.
Proof.
  unfold keys_where. rewrite list_elem_of_omap. split.
  - intros ([k' row] & H & E). apply elem_of_map_to_list in H. cbn in E. destruct (p k' row) eqn:Ep; [|done]. injection E as ->. eauto.
  - intros (row & H & Ep). exists (k, row). split; [by apply elem_of_map_to_list|]. cbn. by rewrite Ep.
Qed.
(** Rows only an import owns are removed. *)
Lemma remove_keeps_native p st k r :
  (forall k row, p k row = true -> row.2 = Import) ->
  rb_rows st !! k = Some (r, Native) -> rb_rows (remove_rows (keys_where p st) st) !! k = Some (r, Native).
Proof.
  intros Hp Hk. rewrite lookup_remove_rows. case_bool_decide as Hd; [|done].
  apply elem_of_keys_where in Hd as (row & Hrow & E). apply Hp in E. rewrite Hk in Hrow. injection Hrow as <-. done.
Qed.
Lemma seeds_keep_native scope via seeds st k r :
  rb_rows st !! k = Some (r, Native) -> rb_rows (foldl (seed scope via) st seeds) !! k = Some (r, Native).
Proof.
  revert st; induction seeds as [|s seeds IH]; intros st Hk; [done|]. cbn [foldl]. apply IH.
  unfold seed. destruct (is_native st (rbac_key s.1 scope)) eqn:En; [done|]. by apply insert_keeps_native.
Qed.
Lemma import_op_keeps_native st o k r : rb_rows st !! k = Some (r, Native) -> rb_rows (import_op st o) !! k = Some (r, Native).
Proof.
  intros Hk. destruct o as [b|scope via seeds prune|subject via]; cbn [import_op].
  - unfold grant. destruct (is_native st _) eqn:En; [done|]. by apply insert_keeps_native.
  - unfold import_seeds. apply (seeds_keep_native scope via seeds) in Hk. destruct prune; [|done]. cbn [snd].
    apply remove_keeps_native; [|done]. intros k' row. unfold prunable. destruct (rbac_key "" scope) as [[? ?] ?].
    rewrite !andb_true_iff. intros [[[_ H] _] _]. by apply bool_decide_eq_true in H.
  - unfold drop_imports. cbn [snd]. apply remove_keeps_native; [|done]. intros k' row.
    rewrite !andb_true_iff. intros [[_ H] _]. by apply bool_decide_eq_true in H.
Qed.

(** A native grant or revoke is authoritative. No sequence of forge
    imports — seeding a scope, pruning it, or dropping a provider's imports —
    changes the row: a native grant keeps its role, and a revoked subject
    stays without one. *)
Theorem imports_never_override_native st ops subject scope :
  (forall role, rb_rows (grant (mkBinding subject scope role) Native st) !! rbac_key subject scope
     = rb_rows (foldl import_op (grant (mkBinding subject scope role) Native st) ops) !! rbac_key subject scope) /\
  rb_rows (foldl import_op (revoke subject scope st) ops) !! rbac_key subject scope = Some (None, Native).
Proof.
  assert (forall st k r, rb_rows st !! k = Some (r, Native) -> rb_rows (foldl import_op st ops) !! k = Some (r, Native)) as H.
  { clear. induction ops as [|o ops IH]; intros st k r Hk; [done|]. cbn [foldl]. by apply IH, import_op_keeps_native. }
  split.
  - intros role. symmetry. rewrite (H _ _ (Some role)); cbn; by rewrite lookup_insert_eq.
  - apply H. cbn. by rewrite lookup_insert_eq.
Qed.

(** *** The store's [role_of] is [Rbac]'s, on its own bindings *)

(** The roles of the rows at one of two keys. *)
Lemma max_role_at m (k1 k2 : RbacKey) :
  max_role_of (omap (fun kv : RbacKey * (option Role * BindingOrigin) => if bool_decide (kv.1 = k1 \/ kv.1 = k2) then kv.2.1 else None) (map_to_list m))
  = opt_max (m !! k1 ≫= fst) (m !! k2 ≫= fst).
Proof.
  induction m as [|i [r o] m Hi IH] using map_ind; [by rewrite map_to_list_empty|].
  rewrite (omap_Permutation _ _ _ (map_to_list_insert m i (r, o) Hi)). cbn [omap list_omap fst snd].
  case_bool_decide as Hk.
  - transitivity (opt_max r (opt_max (m !! k1 ≫= fst) (m !! k2 ≫= fst))); [rewrite <- IH; by destruct r|].
    destruct (decide (k1 = i)) as [<-|H1], (decide (k2 = k1)) as [->|H2].
    + rewrite lookup_insert_eq, Hi. cbn. by destruct r as [[]|].
    + rewrite lookup_insert_eq, lookup_insert_ne, Hi by done. done.
    + naive_solver.
    + destruct Hk as [->| ->]; [done|]. rewrite lookup_insert_ne, lookup_insert_eq, Hi by done. cbn.
      by rewrite opt_max_none_r, (comm opt_max).
  - rewrite IH, !lookup_insert_ne by naive_solver. done.
Qed.

(** A store's [role_of] decides as [Rbac::role_of] does on the bindings
    the store lists for the scope's Org: the highest role bound at the scope
    or, by inheritance, at its Org. *)
Theorem role_of_is_rbac_role_of st subject scope :
  role_of subject scope st = rbac_role_of (bindings (scope_org scope) st) subject scope.
Proof.
  unfold role_of, row_role. rewrite <- max_role_at. unfold rbac_role_of, rbac_binds, bindings.
  rewrite (omap_Permutation _ _ _ (merge_sort_Permutation by_subject _)).
  f_equal. induction (map_to_list (rb_rows st)) as [|[[[s o] p] [r og]] l IH]; [done|].
  cbn [omap list_omap fst snd]. rewrite IH. clear IH.
  assert (forall D, @bool_decide ((s, o, p) = rbac_key subject scope \/ (s, o, p) = rbac_key subject (Org (scope_org scope))) D
          = (String.eqb s subject && String.eqb o (scope_org scope)
             && bool_decide ((if String.eqb p "" then Org o else Project o p) = scope \/ p = ""))) as Ek.
  { intros D. apply eq_true_iff_eq. rewrite !andb_true_iff, !String.eqb_eq, !bool_decide_eq_true.
    destruct scope as [so|so sn]; cbn; destruct (String.eqb_spec p "") as [->|Hp]; naive_solver. }
  rewrite Ek. clear Ek. destruct (String.eqb_spec o (scope_org scope)) as [->|]; [|by rewrite andb_false_r].
  rewrite andb_true_r. destruct r as [r|]; [|by destruct (_ && _)]. cbn.
  assert (bool_decide ((if String.eqb p "" then Org (scope_org scope) else Project (scope_org scope) p) = scope \/ p = "")
          = bool_decide ((if String.eqb p "" then Org (scope_org scope) else Project (scope_org scope) p) = scope
                         \/ (if String.eqb p "" then Org (scope_org scope) else Project (scope_org scope) p) = Org (scope_org scope))) as ->.
  { apply bool_decide_ext. destruct (String.eqb_spec p "") as [->|Hp]; naive_solver. }
  by destruct (_ && _).
Qed.

(** ** Lemmas: identities *)

Lemma candidate_inj base n k : (1 <= n)%N -> (1 <= k)%N -> principal_id_candidate base n = principal_id_candidate base k -> n = k.
Proof.
  unfold principal_id_candidate. intros Hn Hk.
  assert (forall x, base <> base +:+ "~" +:+ x) as Hne.
  { intros x H. rewrite <- (string_app_nil_r base) in H at 1. by apply (inj (String.append base)) in H. }
  destruct (N.leb_spec n 1), (N.leb_spec k 1); intros E; [lia|by destruct (Hne _ E)|by destruct (Hne _ (eq_sym E))|].
  apply (inj (String.append base)), (inj (String.append "~")) in E. exact (inj pretty _ _ E).
Qed.
Lemma free_id_free fuel base n taken c : free_id fuel base n taken = Some c -> taken !! c = None.
Proof. revert n; induction fuel as [|f IH]; intros n; cbn; [done|]. destruct (taken !! principal_id_candidate base n) eqn:E; [apply IH|]. by intros [= <-]. Qed.
Lemma free_id_taken fuel base n taken :
  free_id fuel base n taken = None ->
  forall k, (n <= k < n + N.of_nat fuel)%N -> principal_id_candidate base k ∈ dom taken.
Proof.
  revert n; induction fuel as [|f IH]; intros n; cbn; [lia|].
  destruct (taken !! principal_id_candidate base n) eqn:E; [|done]. intros H k Hk. destruct (decide (k = n)) as [->|]; [by apply elem_of_dom_2 in E|].
  apply (IH _ H). lia.
Qed.
(** Some candidate among the first [size + 1] is free. *)
Lemma free_id_found base taken : is_Some (free_id (S (size taken)) base 1 taken).
Proof.
  apply not_eq_None_Some. intros H.
  set (cs := map (fun k => principal_id_candidate base (N.of_nat k)) (seq 1 (S (size taken)))).
  assert (NoDup cs) as Hnd.
  { apply NoDup_fmap_2_strong; [|apply NoDup_seq]. intros x y Hx%elem_of_seq Hy%elem_of_seq E.
    apply candidate_inj in E; lia. }
  assert (list_to_set cs ⊆ dom taken) as Hsub.
  { intros c Hc. apply elem_of_list_to_set, list_elem_of_fmap in Hc as (k & -> & Hk%elem_of_seq).
    apply (free_id_taken _ _ _ _ H). lia. }
  apply subseteq_size in Hsub. rewrite size_list_to_set, size_dom in Hsub by done.
  unfold cs in Hsub. rewrite length_map, length_seq in Hsub. lia.
Qed.

(** What every reachable store keeps: a record is under its own id, and an
    identity is pinned to a Principal that was minted. *)
Record id_inv (st : IdentitiesState) : Prop := {
  idi_own : forall k p, id_principals st !! k = Some p -> pc_id p = k;
  idi_minted : forall key id i, id_identities st !! key = Some (id, i) -> is_Some (id_principals st !! id);
}.
Inductive IdentityOp : Type :=
| OpSignIn (i : ProviderIdentity) (base_id : string) (now_ms : Z)
| OpPin (i : ProviderIdentity) (base_id : string) (now_ms : Z)
| OpLink (who : string) (i : ProviderIdentity)
| OpUnlink (who provider : string).
Definition identity_op (st : IdentitiesState) (o : IdentityOp) : IdentitiesState :=
  match o with
  | OpSignIn i base now => (sign_in i base now st).2
  | OpPin i base now => (pin i base now st).2
  | OpLink who i => (link who i st).2
  | OpUnlink who provider => (unlink who provider st).2
  end.
(** A link is asked for by a Principal that signed in. *)
Definition may_ask (st : IdentitiesState) (o : IdentityOp) : Prop :=
  match o with OpLink who _ => is_Some (id_principals st !! who) | _ => True end.
Inductive reachable : IdentitiesState -> Prop :=
| reach_empty : reachable no_identities
| reach_op st o : reachable st -> may_ask st o -> reachable (identity_op st o).

Lemma pin_or_mint_known i base now claim st id held :
  id_identities st !! identity_key i = Some (id, held) ->
  exists refreshed f, pin_or_mint i base now claim st
    = (Some id, mkIdentities (alter f id (id_principals st)) (<[identity_key i := (id, refreshed)]> (id_identities st)))
    /\ forall p, pc_id (f p) = pc_id p /\ pc_merged_into (f p) = pc_merged_into p.
Proof.
  intros H. unfold pin_or_mint. rewrite H. exists (if claim then i else with_handle (pi_handle i) held), (if claim then claimed i now else fun p => p).
  destruct claim; [done|]. split; [|done]. assert (alter (fun p => p) id (id_principals st) = id_principals st) as ->; [|done].
  apply map_eq. intros k. destruct (decide (k = id)) as [->|].
  - rewrite lookup_alter_eq. by destruct (id_principals st !! id).
  - by rewrite lookup_alter_ne.
Qed.
Lemma pin_or_mint_new i base now claim st :
  id_identities st !! identity_key i = None ->
  exists id p, pin_or_mint i base now claim st
    = (Some id, mkIdentities (<[id := p]> (id_principals st)) (<[identity_key i := (id, i)]> (id_identities st)))
    /\ id_principals st !! id = None /\ pc_id p = id /\ pc_merged_into p = None.
Proof.
  intros H. unfold pin_or_mint. rewrite H. destruct (free_id_found base (id_principals st)) as [id E]. rewrite E.
  exists id. eexists. split; [reflexivity|]. by apply free_id_free in E.
Qed.
Lemma alter_some_iff (f : PrincipalRecord -> PrincipalRecord) id k (m : gmap string PrincipalRecord) : is_Some (alter f id m !! k) <-> is_Some (m !! k).
Proof.
  destruct (decide (k = id)) as [->|]; [|by rewrite lookup_alter_ne]. rewrite lookup_alter_eq. by destruct (m !! id).
Qed.
Lemma pin_or_mint_inv i base now claim st : id_inv st -> id_inv (pin_or_mint i base now claim st).2.
Proof.
  intros [Ho Hm]. destruct (id_identities st !! identity_key i) as [[id held]|] eqn:E.
  - destruct (pin_or_mint_known i base now claim st id held E) as (r & f & -> & Hf). split; cbn.
    + intros k p. destruct (decide (k = id)) as [->|]; [|rewrite lookup_alter_ne by done; apply Ho].
      rewrite lookup_alter_eq. destruct (id_principals st !! id) eqn:Ep; [|done]. cbn. intros [= <-]. destruct (Hf p0) as [-> _]. by apply Ho.
    + intros key id' i' H. apply alter_some_iff. apply lookup_insert_Some in H as [[<- [= <- _]]|[_ H]]; eauto.
  - destruct (pin_or_mint_new i base now claim st E) as (id & p & -> & Hnew & Hp & _). split; cbn.
    + intros k q H. apply lookup_insert_Some in H as [[<- <-]|[_ H]]; [done|by apply Ho].
    + intros key id' i' H. apply lookup_insert_is_Some'. apply lookup_insert_Some in H as [[<- [= <- _]]|[_ H]]; [by left|right; eauto].
Qed.
Lemma link_effect who i st : (link who i st).2 = st \/
  (link who i st).2 = mkIdentities (id_principals st) (<[identity_key i := (who, i)]> (id_identities st)) /\ id_identities st !! identity_key i = None.
Proof.
  unfold link. case_bool_decide; [by left|]. destruct (List.find _ _) as [[? [? ?]]|]; [by left|].
  destruct (id_identities st !! identity_key i) as [[from ?]|]; cbn [fmap option_fmap option_map fst].
  - left. by destruct (1 <? length (held_by from st)).
  - by right.
Qed.
Lemma unlink_effect who provider st : (unlink who provider st).2 = st \/
  exists key, (unlink who provider st).2 = mkIdentities (id_principals st) (delete key (id_identities st)).
Proof.
  unfold unlink. destruct (List.find _ _) as [[key ?]|]; [|by left]. destruct (length (held_by who st) =? 1); [by left|]. right. by exists key.
Qed.
Lemma reachable_inv st : reachable st -> id_inv st.
Proof.
  induction 1 as [|st o _ IH Hask]; [by split; intros *; rewrite ?lookup_empty|].
  destruct o as [i base now|i base now|who i|who provider]; cbn [identity_op].
  - by apply pin_or_mint_inv.
  - by apply pin_or_mint_inv.
  - destruct (link_effect who i st) as [->|[-> _]]; [done|]. destruct IH as [Ho Hm]. split; [done|]. cbn.
    intros key id i' H. apply lookup_insert_Some in H as [[<- [= <- _]]|[_ H]]; [done|eauto].
  - destruct (unlink_effect who provider st) as [->|(key & ->)]; [done|]. destruct IH as [Ho Hm]. split; [done|]. cbn.
    intros key' id i' [_ H]%lookup_delete_Some. eauto.
Qed.

(** C31: signing in never inherits another's authority. A sign-in always
    answers, pins the identity to the answered Principal and touches no other
    identity. An identity seen before gets its own Principal back; one never
    seen gets a Principal that did not exist, and so that no other identity
    is pinned to, whatever handle or base id it presents. A minted id is
    never freed. *)
Theorem sign_in_inherits_nothing st i base now :
  reachable st ->
  let st' := (sign_in i base now st).2 in
  exists id, (sign_in i base now st).1 = Some id /\
    pinned (pi_provider i) (pi_external_id i) st' = Some id /\
    (forall q, pinned (pi_provider i) (pi_external_id i) st = Some q -> id = q) /\
    (pinned (pi_provider i) (pi_external_id i) st = None -> principal id st = None /\ held_by id st = []) /\
    (forall key, key <> identity_key i -> id_identities st' !! key = id_identities st !! key) /\
    (forall k, is_Some (principal k st) -> is_Some (principal k st')).
Proof.
  intros Hr. apply reachable_inv in Hr as [_ Hm]. unfold sign_in, pinned, principal.
  fold (identity_key i). destruct (id_identities st !! identity_key i) as [[id held]|] eqn:E.
  - destruct (pin_or_mint_known i base now true st id held E) as (r & f & -> & _). exists id. cbn [fst snd id_principals id_identities].
    rewrite lookup_insert_eq. split_and!; [done|done|by intros q [= <-]|done|by intros key Hk; rewrite lookup_insert_ne|].
    intros k Hk. by apply alter_some_iff.
  - destruct (pin_or_mint_new i base now true st E) as (id & p & -> & Hnew & _ & _). exists id. cbn [fst snd id_principals id_identities].
    rewrite lookup_insert_eq. split_and!; [done|done|done| |by intros key Hk; rewrite lookup_insert_ne|].
    + intros _. split; [done|]. destruct (held_by id st) as [|[key [id' i']] l] eqn:Eh; [done|]. exfalso.
      assert ((key, (id', i')) ∈ held_by id st) as Hin by (rewrite Eh; left).
      apply list_elem_of_In, filter_In in Hin as [Hin Hid]. cbn in Hid. apply String.eqb_eq in Hid as ->.
      apply list_elem_of_In, elem_of_map_to_list, Hm in Hin. rewrite Hnew in Hin. by apply is_Some_None in Hin.
    + intros k Hk. apply lookup_insert_is_Some'. by right.
Qed.

Definition amy_identity : ProviderIdentity := mkProviderIdentity "gh" "1" "amy" None false None.
Definition other_amy : ProviderIdentity := mkProviderIdentity "gh" "2" "amy" None false None.
Lemma sign_in_inherits_nothing_witness :
  let st := identity_op no_identities (OpSignIn amy_identity "gh:amy" 1) in
  principal "gh:amy" st <> None /\ exists id, (sign_in other_amy "gh:amy" 2 st).1 = Some id /\ id <> "gh:amy" /\ principal id st = None.
Proof.
  cbv zeta. split; [vm_compute; discriminate|].
  destruct (sign_in_inherits_nothing (identity_op no_identities (OpSignIn amy_identity "gh:amy" 1)) other_amy "gh:amy" 2
              (reach_op _ (OpSignIn amy_identity "gh:amy" 1) reach_empty I)) as (id & H1 & _ & _ & H2 & _).
  exists id. split; [exact H1|]. assert (principal id (identity_op no_identities (OpSignIn amy_identity "gh:amy" 1)) = None) as H by (apply H2; vm_compute; reflexivity).
  split; [|exact H]. intros ->. vm_compute in H. discriminate H.
Defined.

(** *** Merges *)

(** [x] is folded straight into [y]. *)
Definition folds (st : IdentitiesState) (x y : string) : Prop :=
  exists p, id_principals st !! x = Some p /\ pc_merged_into p = Some y.
Definition records (st : IdentitiesState) : list PrincipalRecord := map snd (btree_list (id_principals st)).

Lemma elem_of_records st p : p ∈ records st <-> exists k, id_principals st !! k = Some p.
Proof.
  unfold records. rewrite list_elem_of_fmap. split.
  - intros ([k q] & -> & H). exists k. by apply elem_of_btree_list in H.
  - intros (k & H). exists (k, p). split; [done|]. by apply elem_of_btree_list.
Qed.

Record alias_inv (st : IdentitiesState) (id : string) (out frontier : list string) : Prop := {
  al_sound : forall x, x ∈ out -> tc (folds st) x id;
  al_nodup : NoDup out;
  al_known : forall x, x ∈ out -> is_Some (id_principals st !! x);
  al_front : forall x, x ∈ frontier -> x = id \/ x ∈ out;
  al_done : forall x y, (y = id \/ y ∈ out) -> y ∉ frontier -> folds st x y -> x ∈ out;
}.
(** What the [for] over the records adds for one target. *)
Lemma alias_found_spec st (Hown : forall k p, id_principals st !! k = Some p -> pc_id p = k) target l out frontier out' frontier' :
  (forall p, p ∈ l -> exists k, id_principals st !! k = Some p) ->
  foldl (alias_found target) (out, frontier) l = (out', frontier') ->
  exists found, out' = out ++ found /\ frontier' = reverse found ++ frontier /\ NoDup found /\
    (forall x, x ∈ found -> (x ∉ out) /\ folds st x target) /\
    (forall p, p ∈ l -> pc_merged_into p = Some target -> pc_id p ∈ out').
Proof.
  revert out frontier; induction l as [|p l IH]; intros out frontier Hl H.
  { injection H as <- <-. exists []. rewrite app_nil_r. split_and!; [done|done|constructor|by intros x ?%not_elem_of_nil|by intros p ?%not_elem_of_nil]. }
  cbn [foldl] in H. destruct (Hl p) as [k Hk]; [by left|]. assert (pc_id p = k) as Hid by (by apply Hown). subst k.
  unfold alias_found at 2 in H. unfold folded_into in H. case_bool_decide as Hm; cbn [fst snd negb andb] in H.
  - case_bool_decide as Ho; cbn [negb] in H.
    + destruct (IH out frontier) as (found & -> & -> & Hnd & Hf & Hall); [intros q Hq; apply Hl; by right|done|].
      exists found. split_and!; try done. intros q [->|Hq]%elem_of_cons; [|by apply Hall]. intros _. apply elem_of_app. by left.
    + destruct (IH (out ++ [pc_id p]) (pc_id p :: frontier)) as (found & -> & -> & Hnd & Hf & Hall); [intros q Hq; apply Hl; by right|done|].
      exists (pc_id p :: found). rewrite <- app_assoc. split_and!; [done|by rewrite reverse_cons, <- app_assoc| | |].
      * constructor; [|done]. intros Hin%Hf. apply (proj1 Hin). apply elem_of_app. right. by left.
      * intros x [->|Hx]%elem_of_cons; [by split; [|exists p]|]. apply Hf in Hx as [Hx ?]. split; [|done]. intros ?. apply Hx. apply elem_of_app. by left.
      * intros q [->|Hq]%elem_of_cons Hmq; [|rewrite app_assoc; by apply Hall]. apply elem_of_app. right. by left.
  - destruct (IH out frontier) as (found & -> & -> & Hnd & Hf & Hall); [intros q Hq; apply Hl; by right|done|].
    exists found. split_and!; try done. intros q [->|Hq]%elem_of_cons; [done|by apply Hall].
Qed.
Lemma alias_out_bounded st id out frontier : alias_inv st id out frontier -> length out <= size (id_principals st).
Proof.
  intros [_ Hnd Hk _ _]. rewrite <- size_dom, <- (size_list_to_set (C := gset string)) by done. apply subseteq_size.
  intros x Hx%elem_of_list_to_set. by apply elem_of_dom, Hk.
Qed.
Lemma alias_turn_step st id (Hown : forall k p, id_principals st !! k = Some p -> pc_id p = k) s :
  alias_inv st id s.1 s.2 ->
  match alias_turn st s with
  | inl s' => alias_inv st id s'.1 s'.2 /\
      (0 <= 2 * (Z.of_nat (size (id_principals st)) - Z.of_nat (length s'.1)) + Z.of_nat (length s'.2)
         < 2 * (Z.of_nat (size (id_principals st)) - Z.of_nat (length s.1)) + Z.of_nat (length s.2))%Z
  | inr out => forall x, x ∈ out <-> tc (folds st) x id
  end.
Proof.
  destruct s as [out [|target frontier]]; unfold alias_turn; cbn [fst snd]; intros Hinv; pose proof Hinv as [Hs Hnd Hk Hf Hd].
  - intros x. rewrite (merge_sort_Permutation str_le out). split; [apply Hs|].
    assert (forall y, tc (folds st) x y -> y = id -> x ∈ out) as H; [|by intros; eapply H].
    clear Hs. induction 1 as [x y Hxy|x y z Hxy _ IH]; intros ->; eapply Hd; try done; [by left|by apply not_elem_of_nil|right; by apply IH|by apply not_elem_of_nil].
  - fold (records st). destruct (foldl (alias_found target) (out, frontier) (records st)) as [out' frontier'] eqn:E.
    apply (alias_found_spec st Hown) in E as (found & -> & -> & Hndf & Hfound & Hall); [|intros p; apply elem_of_records].
    assert (forall x, x ∈ found -> tc (folds st) x id) as Hsf.
    { intros x Hx. apply Hfound in Hx as [_ Hx]. destruct (Hf target) as [->|Ht]; [by left|by apply tc_once|]. eapply tc_l; [done|by apply Hs]. }
    assert (alias_inv st id (out ++ found) (reverse found ++ frontier)) as Hinv'.
    { split.
      - intros x [Hx|Hx]%elem_of_app; [by apply Hs|by apply Hsf].
      - apply NoDup_app. split_and!; [done| |done]. intros x Hx Hx'. by apply Hfound in Hx' as [? _].
      - intros x [Hx|Hx]%elem_of_app; [by apply Hk|]. apply Hfound in Hx as [_ (p & Hp & _)]. by exists p.
      - intros x Hx. rewrite elem_of_app, elem_of_reverse in Hx. rewrite elem_of_app. destruct Hx as [Hx|Hx]; [by right; right|].
        destruct (Hf x) as [->|Hx']; [by right|by left|by right; left].
      - intros x y Hy Hnf Hxy. destruct (decide (y = target)) as [->|Hne].
        + destruct Hxy as (p & Hp & Hm). rewrite <- (Hown _ _ Hp). apply Hall; [apply elem_of_records; eauto|done].
        + rewrite elem_of_app, elem_of_reverse in Hnf. apply elem_of_app. left. apply (Hd x y); [|rewrite elem_of_cons; tauto|done].
          destruct Hy as [->|[Hy|Hy]%elem_of_app]; [by left|by right|tauto]. }
    split; [done|]. apply alias_out_bounded in Hinv'. cbn [fst snd]. rewrite !length_app, length_reverse in *. cbn [length]. lia.
Qed.
Lemma alias_fuel n : (2 * Z.of_nat n + 1 < 2 ^ Z.of_nat (S n))%Z.
Proof. induction n as [|n IH]; [done|]. rewrite (Nat2Z.inj_succ (S n)), Z.pow_succ_r by lia. lia. Qed.

(** [aliases_of] answers exactly the Principals folded into [id], in any
    number of merges. The search over the frontier ends within the turns it
    is given, on a cycle of merges too. *)
Theorem aliases_of_exact st id :
  (forall k p, id_principals st !! k = Some p -> pc_id p = k) ->
  (exists out, loop (alias_turns st) (alias_turn st) ([], [id]) = inr out) /\
  forall x, x ∈ aliases_of id st <-> tc (folds st) x id.
Proof.
  intros Hown.
  destruct (loop_leaves (alias_turn st) (fun s => alias_inv st id s.1 s.2) (fun out => forall x, x ∈ out <-> tc (folds st) x id)
    (fun s => 2 * (Z.of_nat (size (id_principals st)) - Z.of_nat (length s.1)) + Z.of_nat (length s.2))%Z (alias_turns st) ([], [id]))
    as (out & Hout & H).
  - intros s Hs. by apply alias_turn_step.
  - split; cbn; [by intros x ?%not_elem_of_nil|constructor|by intros x ?%not_elem_of_nil|intros x ?%list_elem_of_singleton; by left|].
    intros x y [->|Hy%not_elem_of_nil] Hn; [|done]. destruct Hn. by left.
  - cbn [fst snd length]. pose proof (alias_fuel (size (id_principals st))). unfold alias_turns. lia.
  - unfold aliases_of. rewrite Hout. split; [by eexists|done].
Qed.

Definition record_of (id : string) (into : option string) : PrincipalRecord := mkPrincipalRecord id None 0 None into.
Definition chained : IdentitiesState :=
  mkIdentities (list_to_map [("a", record_of "a" (Some "b")); ("b", record_of "b" (Some "c")); ("c", record_of "c" None); ("d", record_of "d" (Some "d"))]) ∅.
Lemma aliases_of_exact_witness :
  aliases_of "c" chained = ["a"; "b"] /\ aliases_of "d" chained = ["d"] /\ tc (folds chained) "a" "c".
Proof.
  assert (forall k p, id_principals chained !! k = Some p -> pc_id p = k) as Hown.
  { intros k p H. unfold chained in H. cbn [id_principals] in H. apply elem_of_list_to_map_2 in H.
    repeat (apply elem_of_cons in H as [H|H]; [injection H as -> ->; reflexivity|]). by apply not_elem_of_nil in H. }
  split; [vm_compute; reflexivity|]. split; [vm_compute; reflexivity|].
  apply (aliases_of_exact chained "c" Hown). vm_compute. left.
Defined.
