(* ===== verification/Auth.v ===== *)
(** * Authentication and authorization (scarab-server/src/lib.rs)

    Who a request's caller is — a session, an issued API token or the
    requester of a replayed confirmation request — and what it may do in a
    scope, decided from a session's own roles and those bound now; minting and
    revoking tokens. What the stores answer is a parameter, so every failure
    of theirs is a case. *)

From S2P Require Import Prelude Text Values Identity.

Inductive AuthVia : Type := Bearer | Cookie.
#[export] Instance AuthVia_eq_dec : EqDecision AuthVia.
Proof. solve_decision. Defined.

Record SessionFacts := mkSessionFacts { sf_id : string; sf_id_hash : string; sf_fresh_login_until : option Z }.
Record Caller := mkCaller {
  ca_principal : Principal;
  ca_grant : option ApiToken;
  ca_via : option AuthVia;
  ca_session : option SessionFacts;
}.
Definition dev_insecure_owner (p : Principal) : Caller := mkCaller p None None None.
Definition is_browser_session (c : Caller) : bool :=
  bool_decide (ca_grant c = None) && bool_decide (ca_via c = Some Cookie) && bool_decide (is_Some (ca_session c)).
Definition event_label (c : Caller) : string :=
  match ca_grant c, ca_via c with
  | Some token, _ => "api_token:" +:+ at_id token
  | None, Some Cookie => "session:cookie"
  | None, Some Bearer => "session:bearer"
  | None, None => "dev:insecure"
  end.
Definition may_globally (c : Caller) (a : Action) : bool := bool_decide (ca_grant c = None) && principal_can (ca_principal c) a.

(** The variants of the server's [ApiError] these handlers answer with. *)
Inductive ApiError : Type := AeNotFound | AeUnauthorized | AeForbidden | AeBadRequest (m : string) | AeDb (m : string).

(** [IdentityError]'s text. *)
Definition show_identity_error (e : IdentityError) : string :=
  match e with
  | IeAuthFailed => "authentication failed"
  | IeIssuance m => "token issuance failed: " +:+ m
  | IeDenied => "access denied"
  | IeConflict m => m
  end.

(** ** What the process has wired, and what its stores answer *)

Record RbacPort := mkRbacPort {
  rp_role_of : string -> Scope -> Result IdentityError (option Role);
  rp_max_role : string -> Result IdentityError (option Role);
  rp_orgs_of : string -> Result IdentityError (list string);
}.
Record TokenPort := mkTokenPort {
  tp_by_hash : string -> Result IdentityError (option ApiToken);
  tp_by_id : string -> Result IdentityError (option ApiToken);
  tp_list : string -> Result IdentityError (list ApiToken);
  tp_put : ApiToken -> string -> Result IdentityError unit;
  tp_revoke : string -> Z -> Result IdentityError bool;
}.
Record AppState := mkAppState {
  st_sessions : option (string -> Result IdentityError (option Session));
  st_api_tokens : option TokenPort;
  st_rbac : option RbacPort;
  st_aliases : option (string -> Result IdentityError (list string));
  st_owners : list (list string);
  st_record_org : string -> option string;
  st_now : Z;
}.

(** Calls by API token counted and not yet written, whether this request's
    has been counted, and the batches written. *)
Record UsesState := mkUses {
  us_pending : gmap string (N * Z);
  us_counted : bool;
  us_written : list (string * Z * N);
}.
Definition record_use_of (id : string) (now_ms : Z) (u : UsesState) : UsesState :=
  let '(uses, last) := default (0%N, now_ms) (us_pending u !! id) in
  mkUses (<[id := (sat_add_u64 uses 1, Z.max last now_ms)]> (us_pending u)) (us_counted u) (us_written u).
Definition take_uses (id : string) (u : UsesState) : option (N * Z) * UsesState :=
  (us_pending u !! id, mkUses (delete id (us_pending u)) (us_counted u) (us_written u)).
Definition first_token_use_of_request (u : UsesState) : bool * UsesState :=
  (negb (us_counted u), mkUses (us_pending u) true (us_written u)).
Definition write_uses (id : string) (last : Z) (uses : N) (u : UsesState) : UsesState :=
  mkUses (us_pending u) (us_counted u) (us_written u ++ [(id, last, uses)]).
Definition flush_api_token_uses (st : AppState) (u : UsesState) : UsesState :=
  match st_api_tokens st with
  | None => u
  | Some _ => mkUses ∅ (us_counted u) (us_written u ++ map (fun kv => (kv.1, kv.2.2, kv.2.1)) (btree_list (us_pending u)))
  end.
Definition API_TOKEN_TOUCH_INTERVAL_MS : Z := 60000.
Definition count_use (token : ApiToken) (now : Z) (u : UsesState) : UsesState :=
  let '(first, u) := first_token_use_of_request u in
  if first
  then let u := record_use_of (at_id token) now u in
       if match at_last_used_at token with None => true | Some prev => (API_TOKEN_TOUCH_INTERVAL_MS <=? now - prev)%Z end
       then let '(taken, u) := take_uses (at_id token) u in
            match taken with Some (uses, last) => write_uses (at_id token) last uses u | None => u end
       else u
  else u.

(** ** Credentials *)

(** [headers.get(name).and_then(|v| v.to_str().ok())]. *)
Definition HeaderMap : Type := string -> option string.
Definition strip_prefix (p s : string) : option string := if starts_with p s then Some (drop_str (String.length p) s) else None.
Definition cookie_value (headers : HeaderMap) (name : string) : option string :=
  cookie ← headers "cookie"; head (omap (fun p => strip_prefix (name +:+ "=") (trim p)) (split ";" cookie)).
Definition session_id (headers : HeaderMap) : option (string * AuthVia) :=
  match headers "authorization" ≫= strip_prefix "Bearer " with
  | Some tok => Some (tok, Bearer)
  | None => (fun v => (v, Cookie)) <$> cookie_value headers "scarab_session"
  end.

(** Who raised the request being replayed, and the authority it runs under
    (step_up/requests.rs). *)
Inductive ReplayRequester : Type := ReplayToken (id : string) | ReplaySession (id : string).
Record ReplayAuthority := mkReplay {
  ra_request_id : string;
  ra_confirmation_id : string;
  ra_op_id : string;
  ra_digest : string;
  ra_changes : list string;
  ra_requester : ReplayRequester;
  ra_for_human : string;
  ra_role_cap : option Role;
}.

Section Requests.
Context {H : Sha256} (st : AppState).

Definition bootstrap_owner_role (owners : list string) (subject : string) : option Role :=
  if existsb (String.eqb subject) owners then Some Owner else None.
Definition token_owner_roles (subject : string) : list Role :=
  let ids := subject :: match st_aliases st with
                        | Some aliases_of => match aliases_of subject with Ok l => l | Err _ => [] end
                        | None => []
                        end in
  option_list (max_role_of (concat (map (fun owners => omap (bootstrap_owner_role owners) ids) (st_owners st)))).

Definition live_role_in (p : Principal) (scope : Scope) : Result ApiError (option Role) :=
  let global := max_role_of (pn_roles p) in
  match st_rbac st with
  | None => Ok global
  | Some rbac =>
      match rp_role_of rbac (pn_subject p) scope with
      | Err _ => Err AeForbidden
      | Ok bound => Ok (max_role_of (option_list global ++ option_list bound))
      end
  end.
Definition role_in (c : Caller) (scope : Scope) : Result ApiError (option Role) :=
  live ← live_role_in (ca_principal c) scope;
  match ca_grant c with
  | None => Ok live
  | Some token => if covers token scope then Ok (effective_role token live) else Ok None
  end.
Definition may (c : Caller) (a : Action) (scope : Scope) : Result ApiError bool :=
  role ← role_in c scope; Ok match role with Some r => allows r a | None => false end.

Definition token_principal (token : ApiToken) : Principal :=
  mkPrincipal (at_owner_subject token) (Some ("API token “" +:+ at_name token +:+ "”")) (token_owner_roles (at_owner_subject token)).
Definition authenticate_api_token (plaintext : string) (via : AuthVia) (u : UsesState) : Result ApiError Caller * UsesState :=
  match via with
  | Cookie => (Err AeUnauthorized, u)
  | Bearer =>
      match st_api_tokens st with
      | None => (Err AeUnauthorized, u)
      | Some store =>
          match tp_by_hash store (api_token_hash plaintext) with
          | Ok (Some token) =>
              if negb (token_is_live token (st_now st)) then (Err AeUnauthorized, u)
              else (Ok (mkCaller (token_principal token) (Some token) (Some Bearer) None), count_use token (st_now st) u)
          | _ => (Err AeUnauthorized, u)
          end
      end
  end.
Definition facts_of (s : Session) : SessionFacts := mkSessionFacts (se_id s) (session_id_hash (se_id s)) (fresh_login_until s).

(** The caller a replay runs as: the requester, re-checked now. *)
Definition replay_caller (a : ReplayAuthority) : Result ApiError Caller :=
  match ra_requester a with
  | ReplayToken id =>
      match st_api_tokens st with
      | None => Err AeUnauthorized
      | Some store =>
          match tp_by_id store id with
          | Ok (Some token) =>
              if negb (token_is_live token (st_now st)) || negb (String.eqb (at_owner_subject token) (ra_for_human a)) then Err AeUnauthorized
              else Ok (mkCaller (token_principal token) (Some token) (Some Bearer) None)
          | _ => Err AeUnauthorized
          end
      end
  | ReplaySession sid =>
      match st_sessions st with
      | None => Err AeUnauthorized
      | Some sessions =>
          match sessions sid with
          | Ok (Some session) =>
              if negb (session_is_valid session (st_now st)) || negb (String.eqb (pn_subject (se_principal session)) (ra_for_human a)) then Err AeUnauthorized
              else let roles := List.filter (fun r => match ra_role_cap a with Some cap => role_le r cap | None => false end) (token_owner_roles (ra_for_human a)) in
                   Ok (mkCaller (mkPrincipal (pn_subject (se_principal session)) (pn_display_name (se_principal session)) roles)
                         None (Some Bearer) (Some (mkSessionFacts sid (session_id_hash (se_id session)) None)))
          | _ => Err AeUnauthorized
          end
      end
  end.

Definition anonymous_owner : Caller := dev_insecure_owner (mkPrincipal "anonymous" None [Owner]).
Definition authenticate_session (sessions : string -> Result IdentityError (option Session)) (headers : HeaderMap) (action : Action)
    (sid : string) (via : AuthVia) : Result ApiError Caller :=
  match sessions sid with
  | Ok (Some session) =>
      if negb (session_is_valid session (st_now st)) then Err AeUnauthorized
      else if negb (bool_decide (action = Read)) && bool_decide (via = Cookie) && negb (csrf_matches session (headers "x-csrf-token"))
      then Err AeForbidden
      else Ok (mkCaller (se_principal session) None (Some via) (Some (facts_of session)))
  | _ => Err AeUnauthorized
  end.
Definition authenticate (replay : option ReplayAuthority) (headers : HeaderMap) (action : Action) (u : UsesState) : Result ApiError Caller * UsesState :=
  match replay with
  | Some authority => (replay_caller authority, u)
  | None =>
      match st_sessions st with
      | None => (Ok anonymous_owner, u)
      | Some sessions =>
          match session_id headers with
          | None => (Err AeUnauthorized, u)
          | Some (sid, via) =>
              if starts_with API_TOKEN_PREFIX sid then authenticate_api_token sid via u
              else (authenticate_session sessions headers action sid via, u)
          end
      end
  end.
Definition authorize_scoped (replay : option ReplayAuthority) (headers : HeaderMap) (action : Action) (scope : option Scope) (u : UsesState)
    : Result ApiError Principal * UsesState :=
  let '(caller, u) := authenticate replay headers action u in
  (caller ← caller;
   if may_globally caller action then Ok (ca_principal caller)
   else match scope with
        | None => Err AeForbidden
        | Some scope => allowed ← may caller action scope; if (allowed : bool) then Ok (ca_principal caller) else Err AeForbidden
        end, u).
Definition authorize (replay : option ReplayAuthority) (headers : HeaderMap) (action : Action) (u : UsesState) : Result ApiError Principal * UsesState :=
  authorize_scoped replay headers action None u.

(** ** Issuing and revoking tokens *)

Definition role_name (r : Role) : string := match r with Viewer => "viewer" | Member => "member" | Admin => "admin" | Owner => "owner" end.
Definition parse_role (s : string) : Result ApiError Role :=
  if String.eqb s "viewer" then Ok Viewer else if String.eqb s "member" then Ok Member
  else if String.eqb s "admin" then Ok Admin else if String.eqb s "owner" then Ok Owner
  else Err (AeBadRequest ("unknown role `" +:+ s +:+ "` (want viewer|member|admin|owner)")).

Record MintTokenRequest := mkMint { mt_name : string; mt_project : option string; mt_role : string; mt_expires_in_days : N }.
Definition MS_PER_DAY : Z := 24 * 60 * 60 * 1000.
Definition token_scope (org : string) (project : option string) : Scope :=
  match project with Some p => if String.eqb p "" then Org org else Project org p | None => Org org end.
(** Who may mint what: the [match] on the role the owner holds in the scope. *)
Definition mint_allowed (caller : Caller) (role : Role) (held : option Role) : Result ApiError unit :=
  match held with
  | Some h =>
      if role_le role h then Ok tt
      else Err (AeBadRequest ("cannot mint a `" +:+ role_name role +:+ "` token: you hold `" +:+ role_name h
                              +:+ "` in this scope, and a token may not exceed its minter"))
  | None =>
      if may_globally caller Administer
      then Err (AeBadRequest "cannot mint a token here: you hold no role binding in this scope — grant yourself one on the org or project first (PUT /v1/orgs/{org}/bindings)")
      else Err AeForbidden
  end.
(** [Uuid::new_v4] and the random half of the plaintext are drawn by the
    caller of the model. *)
Definition mint_personal_token (uuid secret : string) (replay : option ReplayAuthority) (headers : HeaderMap) (org : string) (req : MintTokenRequest) (u : UsesState)
    : Result ApiError (string * ApiToken) * UsesState :=
  match st_api_tokens st with
  | None => (Err AeNotFound, u)
  | Some store =>
      let scope := token_scope org (mt_project req) in
      let '(caller, u) := authenticate replay headers Write u in
      (caller ← caller;
       if bool_decide (is_Some (ca_grant caller)) then Err AeForbidden
       else
         let name := trim (mt_name req) in
         if String.eqb name "" then Err (AeBadRequest "token `name` must not be empty")
         else if (mt_expires_in_days req =? 0)%N || (MAX_API_TOKEN_DAYS <? mt_expires_in_days req)%N
         then Err (AeBadRequest ("`expires_in_days` must be 1..=" +:+ pretty MAX_API_TOKEN_DAYS
                                 +:+ " — a token with no expiry is the one shape this credential must never take"))
         else
           role ← parse_role (mt_role req);
           let subject := pn_subject (ca_principal caller) in
           held ← live_role_in (mkPrincipal subject None (token_owner_roles subject)) scope;
           _ ← mint_allowed caller role held;
           let plaintext := API_TOKEN_PREFIX +:+ secret in
           let token := mkApiToken uuid name subject scope role (st_now st + Z.of_N (mt_expires_in_days req) * MS_PER_DAY)%Z
                          subject (st_now st) None 0 None in
           match st_record_org st (scope_org scope) with
           | Some e => Err (AeDb e)
           | None => match tp_put store token (api_token_hash plaintext) with
                     | Err e => Err (AeBadRequest (show_identity_error e))
                     | Ok _ => Ok (plaintext, token)
                     end
           end, u)
  end.
Definition mint_own_api_token (uuid secret : string) (replay : option ReplayAuthority) (headers : HeaderMap) (org : string) (req : MintTokenRequest) (u : UsesState) :=
  if String.eqb (trim org) "" then (Err (AeBadRequest "token `org` must not be empty"), u)
  else mint_personal_token uuid secret replay headers org req u.

Definition revoke_api_token (replay : option ReplayAuthority) (headers : HeaderMap) (org id : string) (u : UsesState) : Result ApiError unit * UsesState :=
  match st_api_tokens st with
  | None => (Err AeNotFound, u)
  | Some store =>
      let '(p, u) := authorize_scoped replay headers Administer (Some (Org org)) u in
      (_ ← p;
       match tp_list store org with
       | Err e => Err (AeBadRequest (show_identity_error e))
       | Ok tokens =>
           if negb (existsb (fun t => String.eqb (at_id t) id) tokens) then Err AeNotFound
           else match tp_revoke store id (st_now st) with
                | Err e => Err (AeBadRequest (show_identity_error e))
                | Ok true => Ok tt
                | Ok false => Err AeNotFound
                end
       end, u)
  end.

(** ** The step-up guard's coarse role checks (step_up/guard.rs) *)

Definition holds_role_in (caller : Caller) (org : string) : bool :=
  existsb (fun r => negb (role_le r Viewer)) (pn_roles (ca_principal caller))
  || match st_rbac st with
     | None => false
     | Some rbac => match rp_orgs_of rbac (pn_subject (ca_principal caller)) with Ok orgs => existsb (String.eqb org) orgs | Err _ => false end
     end.
Definition reaches_min_role (caller : Caller) (min_role : option Role) : bool :=
  match min_role with
  | None => true
  | Some min =>
      let global := max_role_of (pn_roles (ca_principal caller)) in
      let reached bound :=
        let live := max_role_of (option_list global ++ option_list bound) in
        let effective := match ca_grant caller with Some token => effective_role token live | None => live end in
        match effective with Some r => role_le min r | None => false end in
      match st_rbac st with
      | None => reached None
      | Some rbac => match rp_max_role rbac (pn_subject (ca_principal caller)) with Ok r => reached r | Err _ => true end
      end
  end.
End Requests.

(** ** Lemmas *)

Section Lemmas.
Context {H : Sha256} (st : AppState).

Lemma max_role_of_two a b act :
  match max_role_of (option_list a ++ option_list b) with Some r => allows r act | None => false end
  = match a with Some r => allows r act | None => false end || match b with Some r => allows r act | None => false end.
Proof. destruct a as [[]|], b as [[]|], act; done. Qed.

(** A role bound to the Principal in the scope, as the store answers now,
    allows the action. *)
Definition bound_now (p : Principal) (a : Action) (scope : Scope) : Prop :=
  exists rbac r, st_rbac st = Some rbac /\ rp_role_of rbac (pn_subject p) scope = Ok (Some r) /\ allows r a = true.
(** What a role decision rests on: a global role, or one bound in the scope. *)
Definition holds (p : Principal) (a : Action) (scope : Scope) : Prop :=
  principal_can p a = true \/ bound_now p a scope.
Lemma live_role_holds p scope a r : live_role_in st p scope = Ok (Some r) -> allows r a = true -> holds p a scope.
Proof.
  unfold live_role_in, holds, bound_now, principal_can. rewrite <- max_role_allows. destruct (st_rbac st) as [rbac|].
  - destruct (rp_role_of rbac (pn_subject p) scope) as [bound|] eqn:E; [|done]. intros [= Hm] Ha.
    pose proof (max_role_of_two (max_role_of (pn_roles p)) bound a) as Ht. rewrite Hm, Ha in Ht. symmetry in Ht.
    apply orb_true_iff in Ht as [Ht|Ht]; [by left|]. right. destruct bound as [b|]; [|done]. by exists rbac, b.
  - intros [= ->] Ha. by left.
Qed.
Lemma may_granted c a scope token :
  ca_grant c = Some token -> may st c a scope = Ok true ->
  covers token scope = true /\ allows (at_role token) a = true /\ holds (ca_principal c) a scope.
Proof.
  unfold may, role_in. intros Hg. rewrite Hg. destruct (live_role_in st (ca_principal c) scope) as [live|] eqn:E; [|done].
  cbn [mbind result_bind]. destruct (covers token scope); [|done]. intros [= Hm]. split; [done|].
  destruct live as [l|]; [|done]. cbn in Hm. rewrite role_min_allows in Hm. apply andb_true_iff in Hm as [H1 H2]. split; [done|].
  by eapply live_role_holds.
Qed.
Lemma may_plain c a scope : ca_grant c = None -> may st c a scope = Ok true -> holds (ca_principal c) a scope.
Proof.
  unfold may, role_in. intros Hg. rewrite Hg. destruct (live_role_in st (ca_principal c) scope) as [[l|]|] eqn:E; cbn; [|done..].
  intros [= Hm]. by eapply live_role_holds.
Qed.

Lemma xor_all_mono a b acc : (xor_all a b acc = 0 -> acc = 0)%N.
Proof.
  revert b acc; induction a as [|x a IH]; intros [|y b] acc; cbn; try done. intros E%IH. by apply N.lor_eq_0_iff in E as [-> _].
Qed.
Lemma xor_all_zero a b : String.length a = String.length b -> (xor_all a b 0 = 0)%N -> a = b.
Proof.
  revert b; induction a as [|x a IH]; intros [|y b]; cbn; try done. intros [= Hl] E.
  pose proof (xor_all_mono _ _ _ E) as E0. apply N.lxor_eq in E0. rewrite E0, N.lxor_nilpotent in E.
  f_equal; [|by apply IH]. unfold byte_of in E0. by rewrite <- (ascii_N_embedding x), <- (ascii_N_embedding y), E0.
Qed.
Lemma ct_eq_spec a b : ct_eq a b = true -> a = b.
Proof. unfold ct_eq. intros [Hl E]%andb_true_iff. apply xor_all_zero; [by apply Nat.eqb_eq|by apply N.eqb_eq]. Qed.
Lemma csrf_matches_spec s presented : csrf_matches s presented = true -> exists t, presented = Some t /\ csrf_hash t = se_csrf_hash s.
Proof. unfold csrf_matches. destruct presented as [t|]; [|done]. intros [_ E%ct_eq_spec]%andb_true_iff. by exists t. Qed.

Lemma strip_prefix_spec p s r : strip_prefix p s = Some r -> s = p +:+ r.
Proof.
  unfold strip_prefix, starts_with. destruct (String.prefix p s) eqn:E; [|done]. intros [= <-].
  apply prefix_spec in E as (r & ->). f_equal. induction p as [|c p IH]; [done|]. cbn. apply IH.
Qed.

(** ** What an authenticated caller presented *)

(** A live session, with its CSRF token on a browser's mutation. *)
Definition session_presented (sessions : string -> Result IdentityError (option Session)) (headers : HeaderMap) (action : Action) (c : Caller) : Prop :=
  exists sid via s, session_id headers = Some (sid, via) /\ sessions sid = Ok (Some s) /\ (st_now st < se_expires_at s)%Z /\
    (action <> Read -> via = Cookie -> exists t, headers "x-csrf-token" = Some t /\ csrf_hash t = se_csrf_hash s) /\
    c = mkCaller (se_principal s) None (Some via) (Some (facts_of s)).
(** A live token, as a Bearer. *)
Definition token_presented (headers : HeaderMap) (c : Caller) : Prop :=
  exists secret store token, headers "authorization" = Some ("Bearer " +:+ secret) /\ st_api_tokens st = Some store /\
    tp_by_hash store (api_token_hash secret) = Ok (Some token) /\ at_revoked_at token = None /\ (st_now st < at_expires_at token)%Z /\
    c = mkCaller (token_principal st token) (Some token) (Some Bearer) None.

Lemma token_is_live_spec t now : token_is_live t now = true -> at_revoked_at t = None /\ (now < at_expires_at t)%Z.
Proof. unfold token_is_live. intros [Hr%bool_decide_eq_true He%Z.ltb_lt]%andb_true_iff. done. Qed.
Lemma bearer_of headers sid : session_id headers = Some (sid, Bearer) -> headers "authorization" = Some ("Bearer " +:+ sid).
Proof.
  unfold session_id. destruct (headers "authorization") as [auth|]; cbn; [|by destruct (cookie_value _ _)].
  destruct (strip_prefix "Bearer " auth) as [tok|] eqn:E; [|by destruct (cookie_value _ _)]. intros [= ->]. by apply strip_prefix_spec in E as ->.
Qed.
Lemma authenticated sessions headers action u c u' :
  st_sessions st = Some sessions -> authenticate st None headers action u = (Ok c, u') ->
  session_presented sessions headers action c \/ token_presented headers c.
Proof.
  unfold authenticate. intros Hs. rewrite Hs. destruct (session_id headers) as [[sid via]|] eqn:Esid; [|done].
  destruct (starts_with API_TOKEN_PREFIX sid).
  - unfold authenticate_api_token. destruct via; [|done]. destruct (st_api_tokens st) as [store|] eqn:Et; [|done].
    destruct (tp_by_hash store (api_token_hash sid)) as [[token|]|] eqn:Eh; [|done..].
    destruct (token_is_live token (st_now st)) eqn:El; [|done]. cbn [negb]. intros [= <- <-]. right.
    apply token_is_live_spec in El as [? ?]. apply bearer_of in Esid. by exists sid, store, token.
  - unfold authenticate_session. destruct (sessions sid) as [[s|]|] eqn:Es; [|done..].
    destruct (session_is_valid s (st_now st)) eqn:Ev; [|done]. cbn [negb].
    destruct (negb (bool_decide (action = Read)) && bool_decide (via = Cookie) && negb (csrf_matches s (headers "x-csrf-token"))) eqn:Ec; [done|].
    intros [= <- <-]. left. exists sid, via, s. split_and!; try done; [by apply Z.ltb_lt|].
    intros Ha ->. rewrite (bool_decide_eq_false_2 _ Ha), bool_decide_eq_true_2 in Ec by done. cbn in Ec. apply negb_false_iff in Ec. by apply csrf_matches_spec.
Qed.

(** C9: no request is served beyond the authority its caller presented. With
    a session store wired, a request that is authorized came with a live
    session (and, for a browser's mutation, that session's CSRF token), and
    the action is allowed by a global role of the Principal the session was
    opened for (the session keeps those of its login until it ends) or by a
    role bound to that Principal in the scope now; or it came with a live API
    token presented as a Bearer, for a scope the token covers, allowed by the
    token's ceiling and by a role its owner holds now, from the owners list or
    bound in the scope. A token is never authorized outside a scope. *)
Theorem authorized_within_authority sessions headers action scope u p u' :
  st_sessions st = Some sessions ->
  authorize_scoped st None headers action scope u = (Ok p, u') ->
  (exists c, session_presented sessions headers action c /\ ca_principal c = p /\
     (principal_can p action = true \/ exists sc, scope = Some sc /\ bound_now p action sc)) \/
  (exists c token sc, token_presented headers c /\ ca_grant c = Some token /\ ca_principal c = p /\
     pn_subject p = at_owner_subject token /\ pn_roles p = token_owner_roles st (at_owner_subject token) /\
     scope = Some sc /\ covers token sc = true /\ allows (at_role token) action = true /\ holds p action sc).
Proof.
  unfold authorize_scoped. intros Hs. destruct (authenticate st None headers action u) as [[c|] u1] eqn:Ea; [|done].
  cbn [mbind result_bind]. intros [= Hp _]. apply (authenticated _ _ _ _ _ _ Hs) in Ea as [Hc|Hc].
  - left. exists c. split; [done|]. pose proof Hc as (sid & via & s & _ & _ & _ & _ & Heq).
    assert (ca_grant c = None) as Hg by (by rewrite Heq). unfold may_globally in Hp. rewrite Hg in Hp. cbn [andb] in Hp. rewrite bool_decide_eq_true_2 in Hp by done. cbn [andb] in Hp.
    destruct (principal_can (ca_principal c) action) eqn:Ep; [by injection Hp as <-; split; [|left]|].
    destruct scope as [sc|]; [|done]. destruct (may st c action sc) as [[]|] eqn:Em; cbn [mbind result_bind] in Hp; [|done..].
    injection Hp as <-. split; [done|]. right. exists sc. split; [done|]. apply may_plain in Em as [Em|Em]; [congruence|done|done].
  - right. pose proof Hc as (secret & store & token & _ & _ & _ & _ & _ & Heq).
    assert (ca_grant c = Some token) as Hg by (by rewrite Heq). unfold may_globally in Hp. rewrite Hg in Hp. cbn [andb] in Hp. rewrite bool_decide_eq_false_2 in Hp by done. cbn [andb] in Hp.
    destruct scope as [sc|]; [|done]. destruct (may st c action sc) as [[]|] eqn:Em; cbn [mbind result_bind] in Hp; [|done..].
    injection Hp as <-. exists c, token, sc. apply (may_granted c action sc token Hg) in Em as (? & ? & ?).
    rewrite Heq. cbn. rewrite Heq in *. split_and!; done.
Qed.

(** C18: a replayed confirmation request runs with no more than its requester
    has now. It runs as the human it was raised for, never as a browser
    session; a token must still be live and theirs, and keeps its scope and
    ceiling; a session must still be live, and its global roles are the
    human's own of now, each at most what the session held when it asked. *)
Theorem replay_never_wider a c :
  replay_caller st a = Ok c ->
  pn_subject (ca_principal c) = ra_for_human a /\ is_browser_session c = false /\
  match ra_requester a with
  | ReplayToken id => exists store token, st_api_tokens st = Some store /\ tp_by_id store id = Ok (Some token) /\
      ca_grant c = Some token /\ at_revoked_at token = None /\ (st_now st < at_expires_at token)%Z
  | ReplaySession sid => exists sessions s, st_sessions st = Some sessions /\ sessions sid = Ok (Some s) /\ (st_now st < se_expires_at s)%Z /\
      forall r, r ∈ pn_roles (ca_principal c) -> r ∈ token_owner_roles st (ra_for_human a) /\ exists cap, ra_role_cap a = Some cap /\ role_le r cap = true
  end.
Proof.
  unfold replay_caller. destruct (ra_requester a) as [id|sid].
  - destruct (st_api_tokens st) as [store|]; [|done]. destruct (tp_by_id store id) as [[token|]|] eqn:Et; [|done..].
    destruct (token_is_live token (st_now st)) eqn:El; [|done]. destruct (String.eqb_spec (at_owner_subject token) (ra_for_human a)) as [Ho|]; [|done].
    intros [= <-]. apply token_is_live_spec in El as [? ?]. cbn. split_and!; [done|done|]. by exists store, token.
  - destruct (st_sessions st) as [sessions|]; [|done]. destruct (sessions sid) as [[s|]|] eqn:Es; [|done..].
    destruct (session_is_valid s (st_now st)) eqn:Ev; [|done]. destruct (String.eqb_spec (pn_subject (se_principal s)) (ra_for_human a)) as [Ho|]; [|done].
    intros [= <-]. cbn. split_and!; [done|done|]. exists sessions, s. split_and!; [done|done|by apply Z.ltb_lt|].
    intros r Hr%list_elem_of_In%filter_In. destruct Hr as [Hr Hc]. split; [by apply list_elem_of_In|]. destruct (ra_role_cap a) as [cap|]; [by exists cap|done].
Qed.

(** Minting issues at most what the minter holds. A minted token was
    asked for over a live session — a token mints none — belongs to that
    session's subject, expires between a day and 365 days from now, and
    carries a role at or below the one its owner can re-derive in its scope
    now, so what it may do at once is exactly its ceiling. *)
Theorem minted_token_bounded sessions uuid secret headers org req u plaintext token u' :
  st_sessions st = Some sessions ->
  mint_personal_token st uuid secret None headers org req u = (Ok (plaintext, token), u') ->
  (exists c, session_presented sessions headers Write c /\ at_owner_subject token = pn_subject (ca_principal c)) /\
  at_scope token = token_scope org (mt_project req) /\
  (st_now st + MS_PER_DAY <= at_expires_at token <= st_now st + 365 * MS_PER_DAY)%Z /\
  exists held, live_role_in st (mkPrincipal (at_owner_subject token) None (token_owner_roles st (at_owner_subject token))) (at_scope token) = Ok (Some held)
    /\ effective_role token (Some held) = Some (at_role token).
Proof.
  unfold mint_personal_token. intros Hs. destruct (st_api_tokens st) as [store|]; [|done].
  destruct (authenticate st None headers Write u) as [[c|] u1] eqn:Ea; [|done]. cbn [mbind result_bind].
  apply (authenticated _ _ _ _ _ _ Hs) in Ea as [Hc|(? & ? & ? & _ & _ & _ & _ & _ & ->)]; [|done].
  case_bool_decide; [done|]. destruct (String.eqb _ ""); [done|].
  destruct (N.eqb_spec (mt_expires_in_days req) 0) as [|Hd0]; [done|]. destruct (N.ltb_spec MAX_API_TOKEN_DAYS (mt_expires_in_days req)) as [|Hd]; [done|].
  cbn [orb]. destruct (parse_role (mt_role req)) as [role|]; [|done]. cbn [mbind result_bind].
  destruct (live_role_in st _ _) as [[held|]|] eqn:El; cbn [mbind result_bind mint_allowed]; [|by destruct (may_globally c Administer)|done].
  destruct (role_le role held) eqn:Er; cbn [mbind result_bind]; [|done]. destruct (st_record_org st _); [done|].
  destruct (tp_put store _ _); [|done]. intros [= <- <- <-]. cbn. split_and!.
  - by exists c.
  - done.
  - unfold MS_PER_DAY. lia.
  - unfold MS_PER_DAY, MAX_API_TOKEN_DAYS in *. lia.
  - exists held. split; [done|]. cbn. f_equal. revert Er. by destruct role, held.
Qed.
End Lemmas.

(** ** Witnesses *)

Definition plain_digests : Sha256 := fun s => String.list_ascii_of_string s.
Definition amy : Principal := mkPrincipal "amy" None [].
Definition amy_session : Session := mkSession "" amy 1000 "" 1 LOGIN_KIND_BROWSER.
Definition ci_token : ApiToken := mkApiToken "t1" "ci" "amy" (Project "acme" "shop") Member 900 "amy" 1 None 0 None.
Definition one_session : string -> Result IdentityError (option Session) :=
  fun sid => Ok (if String.eqb sid "s1" then Some (with_id "s1" amy_session) else None).
Definition shop_ports (role : Role) : AppState :=
  mkAppState (Some one_session)
    (Some (mkTokenPort (fun h => Ok (if String.eqb h (@api_token_hash plain_digests "scarab_pat_x") then Some ci_token else None))
             (fun id => Ok (if String.eqb id "t1" then Some ci_token else None)) (fun _ => Ok [ci_token]) (fun _ _ => Ok tt) (fun _ _ => Ok true)))
    (Some (mkRbacPort (fun s scope => Ok (role_of s scope (grant (mkBinding "amy" (Org "acme") role) Native no_bindings)))
             (fun _ => Ok (Some role)) (fun _ => Ok ["acme"])))
    None [] (fun _ => None) 10.
Definition as_token : HeaderMap := fun name => if String.eqb name "authorization" then Some "Bearer scarab_pat_x" else None.
Definition as_cli : HeaderMap := fun name => if String.eqb name "authorization" then Some "Bearer s1" else None.
Definition no_uses : UsesState := mkUses ∅ false [].

Lemma authorized_within_authority_witness :
  let run role scope := (@authorize_scoped plain_digests (shop_ports role) None as_token Write scope no_uses).1 in
  (exists p, run Owner (Some (Project "acme" "shop")) = Ok p /\
     ((exists c, ca_principal c = p /\ ca_grant c = None) \/
      (exists c token, ca_principal c = p /\ ca_grant c = Some token /\ covers token (Project "acme" "shop") = true))) /\
  run Owner (Some (Project "acme" "web")) = Err AeForbidden /\ run Owner None = Err AeForbidden /\
  run Viewer (Some (Project "acme" "shop")) = Err AeForbidden.
Proof.
  cbv zeta.
  assert (exists p u, @authorize_scoped plain_digests (shop_ports Owner) None as_token Write (Some (Project "acme" "shop")) no_uses = (Ok p, u)) as (p & u & E)
    by (do 2 eexists; vm_compute; reflexivity).
  split; [exists p; split; [by rewrite E|]|].
  { destruct (@authorized_within_authority plain_digests (shop_ports Owner) one_session as_token Write (Some (Project "acme" "shop")) no_uses p u eq_refl E)
      as [(c & (sid & via & s & _ & _ & _ & _ & Heq) & Hp & _)|(c & token & sc & _ & Hg & Hp & _ & _ & [= <-] & Hc & _)].
    - left. exists c. split; [exact Hp|by rewrite Heq].
    - right. by exists c, token. }
  split; [vm_compute; reflexivity|]. split; vm_compute; reflexivity.
Defined.

Lemma replay_never_wider_witness :
  exists c, @replay_caller plain_digests (shop_ports Owner) (mkReplay "r1" "c1" "secret.put" "" [] (ReplayToken "t1") "amy" None) = Ok c /\
    pn_subject (ca_principal c) = "amy".
Proof.
  assert (exists c, @replay_caller plain_digests (shop_ports Owner) (mkReplay "r1" "c1" "secret.put" "" [] (ReplayToken "t1") "amy" None) = Ok c) as (c & E)
    by (eexists; vm_compute; reflexivity).
  exists c. split; [exact E|]. apply (@replay_never_wider plain_digests (shop_ports Owner) _ _ E).
Defined.

Lemma minted_token_bounded_witness :
  let req role := mkMint "ci" (Some "shop") role 30 in
  let mint via role := (@mint_personal_token plain_digests (shop_ports Admin) "u1" "x" None via "acme" (req role) no_uses).1 in
  (exists plaintext token, mint as_cli "member" = Ok (plaintext, token) /\ at_scope token = Project "acme" "shop") /\
  is_ok (mint as_cli "owner") = false /\ mint as_token "member" = Err AeForbidden.
Proof.
  cbv zeta.
  assert (exists pl tk u, @mint_personal_token plain_digests (shop_ports Admin) "u1" "x" None as_cli "acme" (mkMint "ci" (Some "shop") "member" 30) no_uses = (Ok (pl, tk), u))
    as (pl & tk & u & E) by (do 3 eexists; vm_compute; reflexivity).
  pose proof (@minted_token_bounded plain_digests (shop_ports Admin) one_session _ _ _ _ _ _ _ _ _ eq_refl E) as (_ & Hsc & _).
  split; [exists pl, tk; split; [by rewrite E|exact Hsc]|]. split; vm_compute; reflexivity.
Defined.
