(* ===== verification/StepUp.v ===== *)
(** * Step-up stores (scarab-identity/src/step_up.rs, scarab-testkit/src/step_up.rs)

    Passkeys, WebAuthn challenges, StepUpConfirmations, confirmation requests
    and the OrgSecurityEventLog, as the in-memory stores keep them. Each
    operation is one lock. The two injected faults, a revoke by passkey that
    fails and an event log that cannot be appended to, are kept. *)

From S2P Require Import Prelude Text Values Identity.

Definition STEP_UP_WINDOW_MS : Z := 5 * 60 * 1000.
Definition WEBAUTHN_CHALLENGE_TTL_MS : Z := 2 * 60 * 1000.
Definition STEP_UP_REQUEST_TTL_MS : Z := 5 * 60 * 1000.
Definition MAX_PENDING_STEP_UP_REQUESTS : N := 10.
Definition MAX_PENDING_STEP_UP_REQUESTS_PER_HUMAN : N := 20.
Record StepUpRequestPendingCaps := mkCaps { per_requester : N; per_human : N }.
Definition DEFAULT_CAPS : StepUpRequestPendingCaps := mkCaps MAX_PENDING_STEP_UP_REQUESTS MAX_PENDING_STEP_UP_REQUESTS_PER_HUMAN.

(** ** Passkeys *)

Record Passkey := mkPasskey {
  pk_id : string;
  pk_principal : string;
  pk_credential_id : string;
  pk_public_key_cose : string;
  pk_alg : Z;
  pk_sign_count : N;
  pk_label : string;
  pk_transports : list string;
  pk_aaguid : option string;
  pk_backup_eligible : bool;
  pk_backup_state : bool;
  pk_created_at : Z;
  pk_created_session_hash : string;
  pk_last_used_at : option Z;
  pk_clone_suspected_at : option Z;
  pk_user_handle : option string;
}.
Inductive PasskeyUse : Type := Recorded | CloneSuspected | NotFound.

Record PasskeysState := mkPasskeys { ps_passkeys : gmap string Passkey; ps_handles : gmap string string }.
Definition no_passkeys : PasskeysState := mkPasskeys ∅ ∅.

Definition oldest_first (a b : Passkey) : Prop :=
  (pk_created_at a < pk_created_at b)%Z \/ pk_created_at a = pk_created_at b /\ str_le (pk_id a) (pk_id b).
#[export] Instance oldest_first_dec : RelDecision oldest_first.
Proof. intros a b. unfold oldest_first. apply _. Defined.
Definition passkeys (st : PasskeysState) : list Passkey := map snd (btree_list (ps_passkeys st)).
Definition list_passkeys (principal : string) (st : PasskeysState) : list Passkey :=
  merge_sort oldest_first (List.filter (fun p => String.eqb (pk_principal p) principal) (passkeys st)).
Definition get_by_credential (credential_id : string) (st : PasskeysState) : option Passkey :=
  List.find (fun p => String.eqb (pk_credential_id p) credential_id) (passkeys st).
Definition user_handle (principal fresh : string) (st : PasskeysState) : string * PasskeysState :=
  match ps_handles st !! principal with
  | Some h => (h, st)
  | None => (fresh, mkPasskeys (ps_passkeys st) (<[principal := fresh]> (ps_handles st)))
  end.
Definition insert_passkey (p : Passkey) (st : PasskeysState) : Result IdentityError unit * PasskeysState :=
  if bool_decide (is_Some (ps_passkeys st !! pk_id p)) || existsb (fun q => String.eqb (pk_credential_id q) (pk_credential_id p)) (passkeys st)
  then (Err (IeConflict "this passkey is already registered"), st)
  else (Ok tt, mkPasskeys (<[pk_id p := p]> (ps_passkeys st)) (ps_handles st)).

Definition used (new_count : N) (backup_state : bool) (now_ms : Z) (p : Passkey) : Passkey :=
  mkPasskey (pk_id p) (pk_principal p) (pk_credential_id p) (pk_public_key_cose p) (pk_alg p) (N.max (pk_sign_count p) new_count)
    (pk_label p) (pk_transports p) (pk_aaguid p) (pk_backup_eligible p) backup_state (pk_created_at p) (pk_created_session_hash p)
    (Some now_ms) (pk_clone_suspected_at p) (pk_user_handle p).
(** [clone_suspected_at.get_or_insert(now)]. *)
Definition flagged (now_ms : Z) (p : Passkey) : Passkey :=
  mkPasskey (pk_id p) (pk_principal p) (pk_credential_id p) (pk_public_key_cose p) (pk_alg p) (pk_sign_count p)
    (pk_label p) (pk_transports p) (pk_aaguid p) (pk_backup_eligible p) (pk_backup_state p) (pk_created_at p) (pk_created_session_hash p)
    (pk_last_used_at p) (Some (default now_ms (pk_clone_suspected_at p))) (pk_user_handle p).
Definition set_passkey (p : Passkey) (id : string) (st : PasskeysState) : PasskeysState := mkPasskeys (<[id := p]> (ps_passkeys st)) (ps_handles st).
Definition accepts_count (p : Passkey) (read_count new_count : N) : bool :=
  let forward := (pk_sign_count p <? new_count)%N || (new_count =? 0)%N && (pk_sign_count p =? 0)%N in
  let lost_race := (read_count <? new_count)%N && negb (pk_sign_count p =? new_count)%N in
  bool_decide (pk_clone_suspected_at p = None) && (forward || lost_race || pk_backup_eligible p).
Definition record_use (id : string) (read_count new_count : N) (backup_state : bool) (now_ms : Z) (st : PasskeysState) : PasskeyUse * PasskeysState :=
  match ps_passkeys st !! id with
  | None => (NotFound, st)
  | Some p =>
      if accepts_count p read_count new_count then (Recorded, set_passkey (used new_count backup_state now_ms p) id st)
      else (CloneSuspected, set_passkey (flagged now_ms p) id st)
  end.
Definition mark_clone (id : string) (now_ms : Z) (st : PasskeysState) : bool * PasskeysState :=
  match ps_passkeys st !! id with
  | None => (false, st)
  | Some p => (true, set_passkey (flagged now_ms p) id st)
  end.
Definition remove_passkey (principal id : string) (st : PasskeysState) : bool * PasskeysState :=
  match ps_passkeys st !! id with
  | Some p => if String.eqb (pk_principal p) principal then (true, mkPasskeys (delete id (ps_passkeys st)) (ps_handles st)) else (false, st)
  | None => (false, st)
  end.
Definition remove_all (principal : string) (st : PasskeysState) : N * PasskeysState :=
  let kept := filter (fun kv : string * Passkey => pk_principal kv.2 <> principal) (ps_passkeys st) in
  (N.of_nat (size (ps_passkeys st) - size kept), mkPasskeys kept (ps_handles st)).
Definition principals_with_passkeys (subjects : list string) (st : PasskeysState) : gset string :=
  list_to_set (omap (fun p => if bool_decide (pk_clone_suspected_at p = None) && existsb (String.eqb (pk_principal p)) subjects
                              then Some (pk_principal p) else None) (passkeys st)).

(** ** Challenges *)

Inductive ChallengePurpose : Type := PurposeRegister | PurposeWindow | PurposeAction | PurposeRequest.
#[export] Instance ChallengePurpose_eq_dec : EqDecision ChallengePurpose.
Proof. solve_decision. Defined.
Definition purpose_as_str (p : ChallengePurpose) : string :=
  match p with PurposeRegister => "register" | PurposeWindow => "window" | PurposeAction => "action" | PurposeRequest => "request" end.
Definition parse_purpose (s : string) : option ChallengePurpose :=
  if String.eqb s "register" then Some PurposeRegister else if String.eqb s "window" then Some PurposeWindow
  else if String.eqb s "action" then Some PurposeAction else if String.eqb s "request" then Some PurposeRequest else None.

Record WebauthnChallenge := mkChallenge {
  wc_id : string;
  wc_principal : string;
  wc_session_hash : string;
  wc_purpose : ChallengePurpose;
  wc_nonce : string;
  wc_action_digest : option string;
  wc_request_id : option string;
  wc_label : option string;
  wc_summary : option Json;
  wc_created_at : Z;
  wc_expires_at : Z;
  wc_consumed_at : option Z;
}.
Abbreviation Challenges := (gmap string WebauthnChallenge).
Definition put_challenge (c : WebauthnChallenge) (m : Challenges) : Result IdentityError unit * Challenges :=
  if bool_decide (is_Some (m !! wc_id c)) then (Err (IeConflict ("challenge `" +:+ wc_id c +:+ "` already exists")), m)
  else (Ok tt, <[wc_id c := c]> m).
Definition challenge_consumed (now_ms : Z) (c : WebauthnChallenge) : WebauthnChallenge :=
  mkChallenge (wc_id c) (wc_principal c) (wc_session_hash c) (wc_purpose c) (wc_nonce c) (wc_action_digest c) (wc_request_id c)
    (wc_label c) (wc_summary c) (wc_created_at c) (wc_expires_at c) (Some now_ms).
Definition consume_challenge (id session_hash : string) (now_ms : Z) (m : Challenges) : option WebauthnChallenge * Challenges :=
  match m !! id with
  | None => (None, m)
  | Some c =>
      if negb (String.eqb (wc_session_hash c) session_hash) || bool_decide (is_Some (wc_consumed_at c)) || (wc_expires_at c <=? now_ms)%Z
      then (None, m)
      else let c' := challenge_consumed now_ms c in (Some c', <[id := c']> m)
  end.
Definition reap_expired (now_ms : Z) (m : Challenges) : N * Challenges :=
  let kept := filter (fun kv : string * WebauthnChallenge => (now_ms < wc_expires_at kv.2)%Z) m in
  (N.of_nat (size m - size kept), kept).

(** ** Confirmations *)

Inductive ConfirmationKind : Type := KindWindow | KindAction | KindRequest.
#[export] Instance ConfirmationKind_eq_dec : EqDecision ConfirmationKind.
Proof. solve_decision. Defined.
Definition kind_as_str (k : ConfirmationKind) : string := match k with KindWindow => "window" | KindAction => "action" | KindRequest => "request" end.
Definition parse_kind (s : string) : option ConfirmationKind :=
  if String.eqb s "window" then Some KindWindow else if String.eqb s "action" then Some KindAction
  else if String.eqb s "request" then Some KindRequest else None.

Record StepUpConfirmation := mkConfirmation {
  cf_id : string;
  cf_principal : string;
  cf_session_hash : string;
  cf_passkey_id : string;
  cf_kind : ConfirmationKind;
  cf_action_digest : option string;
  cf_request_id : option string;
  cf_confirmed_at : Z;
  cf_expires_at : Z;
  cf_consumed_at : option Z;
}.

(** ** Requests *)

Inductive StepUpRequester : Type := ByApiToken (id : string) | ByBearerSession (session_hash : string).
#[export] Instance StepUpRequester_eq_dec : EqDecision StepUpRequester.
Proof. solve_decision. Defined.
Definition requester_via (r : StepUpRequester) : string := match r with ByApiToken _ => "api_token" | ByBearerSession _ => "bearer_session" end.
Inductive RequestState : Type := RsPending | RsExecuting | RsExecuted | RsFailed.
#[export] Instance RequestState_eq_dec : EqDecision RequestState.
Proof. solve_decision. Defined.
Definition state_as_str (s : RequestState) : string :=
  match s with RsPending => "pending" | RsExecuting => "executing" | RsExecuted => "executed" | RsFailed => "failed" end.
Definition parse_state (s : string) : option RequestState :=
  if String.eqb s "pending" then Some RsPending else if String.eqb s "executing" then Some RsExecuting
  else if String.eqb s "executed" then Some RsExecuted else if String.eqb s "failed" then Some RsFailed else None.
Definition is_terminal (s : RequestState) : bool := match s with RsExecuted | RsFailed => true | _ => false end.

Record StepUpRequest := mkRequest {
  rq_id : string;
  rq_org : option string;
  rq_op : string;
  rq_method : string;
  rq_path : string;
  rq_query : string;
  rq_sealed : option string;
  rq_action_digest : string;
  rq_summary : Json;
  rq_for_human : string;
  rq_requester : StepUpRequester;
  rq_session_role_cap : option Role;
  rq_created_at : Z;
  rq_expires_at : Z;
  rq_state : RequestState;
  rq_confirmed_by : option string;
  rq_confirmed_at : option Z;
  rq_confirmation_id : option string;
  rq_executed_at : option Z;
  rq_result_status : option Z;
  rq_result_summary : option string;
}.
Definition is_expired (r : StepUpRequest) (now_ms : Z) : bool := bool_decide (rq_state r = RsPending) && (rq_expires_at r <=? now_ms)%Z.
Definition state_label (r : StepUpRequest) (now_ms : Z) : string := if is_expired r now_ms then "expired" else state_as_str (rq_state r).
Inductive StepUpRequestRaiseOutcome : Type := Raised | RequesterFull (pending : N) | HumanFull (pending : N).
Inductive BeginExecution : Type := Begun (r : StepUpRequest) | BeNotFound | BeExpired | NotPending (s : RequestState).

Record StepUpState := mkStepUp {
  su_confirmations : list StepUpConfirmation;
  su_requests : gmap string StepUpRequest;
  su_failing_passkey_revokes : bool;
}.
Definition no_step_ups : StepUpState := mkStepUp [] ∅ false.
Definition set_confirmations (l : list StepUpConfirmation) (st : StepUpState) : StepUpState := mkStepUp l (su_requests st) (su_failing_passkey_revokes st).
Definition set_requests (m : gmap string StepUpRequest) (st : StepUpState) : StepUpState := mkStepUp (su_confirmations st) m (su_failing_passkey_revokes st).

Definition put_confirmation (c : StepUpConfirmation) (st : StepUpState) : Result IdentityError unit * StepUpState :=
  if existsb (fun d => String.eqb (cf_id d) (cf_id c)) (su_confirmations st)
  then (Err (IeConflict ("confirmation `" +:+ cf_id c +:+ "` already exists")), st)
  else (Ok tt, set_confirmations (su_confirmations st ++ [c]) st).

(** [Iterator::max_by] keeps the last of equals, [min_by] the first; [le a b]
    is [a.cmp(b) != Greater]. *)
Definition max_by {A} (le : A -> A -> bool) (l : list A) : option A :=
  foldl (fun acc x => match acc with Some a => if le a x then Some x else Some a | None => Some x end) None l.
Definition min_by {A} (le : A -> A -> bool) (l : list A) : option A :=
  foldl (fun acc x => match acc with Some a => if le a x then Some a else Some x | None => Some x end) None l.

Definition is_live_window (session_hash principal : string) (now_ms : Z) (c : StepUpConfirmation) : bool :=
  bool_decide (cf_kind c = KindWindow) && String.eqb (cf_session_hash c) session_hash && String.eqb (cf_principal c) principal
  && (now_ms <? cf_expires_at c)%Z.
Definition later_window (a b : StepUpConfirmation) : bool :=
  if (cf_expires_at a =? cf_expires_at b)%Z then String.leb (cf_id b) (cf_id a) else (cf_expires_at a <? cf_expires_at b)%Z.
Definition live_window (session_hash principal : string) (now_ms : Z) (st : StepUpState) : option (string * Z) :=
  (fun c => (cf_id c, cf_expires_at c)) <$> max_by later_window (List.filter (is_live_window session_hash principal now_ms) (su_confirmations st)).
Definition window_expiry (session_hash principal : string) (now_ms : Z) (st : StepUpState) : option Z :=
  max_by Z.leb (map cf_expires_at (List.filter (is_live_window session_hash principal now_ms) (su_confirmations st))).
Definition has_window (session_hash principal : string) (now_ms : Z) (st : StepUpState) : bool :=
  bool_decide (is_Some (window_expiry session_hash principal now_ms st)).

Definition is_live_action (session_hash principal digest : string) (now_ms : Z) (c : StepUpConfirmation) : bool :=
  bool_decide (cf_kind c = KindAction) && String.eqb (cf_session_hash c) session_hash && String.eqb (cf_principal c) principal
  && bool_decide (cf_action_digest c = Some digest) && bool_decide (cf_consumed_at c = None) && (now_ms <? cf_expires_at c)%Z.
Definition earlier_action (a b : StepUpConfirmation) : bool :=
  if (cf_confirmed_at a =? cf_confirmed_at b)%Z then String.leb (cf_id a) (cf_id b) else (cf_confirmed_at a <? cf_confirmed_at b)%Z.
Definition confirmation_consumed (now_ms : Z) (c : StepUpConfirmation) : StepUpConfirmation :=
  mkConfirmation (cf_id c) (cf_principal c) (cf_session_hash c) (cf_passkey_id c) (cf_kind c) (cf_action_digest c) (cf_request_id c)
    (cf_confirmed_at c) (cf_expires_at c) (Some now_ms).
Definition consume_action (session_hash principal digest : string) (now_ms : Z) (st : StepUpState) : option string * StepUpState :=
  match min_by earlier_action (List.filter (is_live_action session_hash principal digest now_ms) (su_confirmations st)) with
  | None => (None, st)
  | Some pick =>
      (Some (cf_id pick),
       set_confirmations (map (fun c => if String.eqb (cf_id c) (cf_id pick) then confirmation_consumed now_ms c else c) (su_confirmations st)) st)
  end.

(** Standing step-up authority: a window, or an action not yet consumed. *)
Definition is_standing (c : StepUpConfirmation) : bool :=
  bool_decide (cf_kind c = KindWindow) || bool_decide (cf_kind c = KindAction) && bool_decide (cf_consumed_at c = None).
Definition retain_confirmations (p : StepUpConfirmation -> bool) (st : StepUpState) : N * StepUpState :=
  let kept := List.filter p (su_confirmations st) in
  (N.of_nat (length (su_confirmations st) - length kept), set_confirmations kept st).
Definition delete_windows_for (principal : string) (st : StepUpState) : N * StepUpState :=
  retain_confirmations (fun c => negb (String.eqb (cf_principal c) principal && is_standing c)) st.
Definition delete_for_passkey (passkey_id : string) (st : StepUpState) : Result IdentityError N * StepUpState :=
  if su_failing_passkey_revokes st then (Err (IeConflict "the step-up store is unreachable (injected)"), st)
  else let '(n, st) := retain_confirmations (fun c => negb (String.eqb (cf_passkey_id c) passkey_id && is_standing c)) st in (Ok n, st).

Definition is_pending_at (now_ms : Z) (r : StepUpRequest) : Prop := rq_state r = RsPending /\ (now_ms < rq_expires_at r)%Z.
#[export] Instance is_pending_at_dec now r : Decision (is_pending_at now r).
Proof. unfold is_pending_at. apply _. Defined.
Definition count_requests (p : StepUpRequest -> Prop) `{!forall r, Decision (p r)} (st : StepUpState) : N :=
  N.of_nat (size (filter (fun kv : string * StepUpRequest => p kv.2) (su_requests st))).
Definition pending_count (requester : StepUpRequester) (now_ms : Z) (st : StepUpState) : N :=
  count_requests (fun r => rq_requester r = requester /\ is_pending_at now_ms r) st.
Definition pending_for_human (human : string) (now_ms : Z) (st : StepUpState) : N :=
  count_requests (fun r => rq_for_human r = human /\ is_pending_at now_ms r) st.
Definition pending_in_org (org : string) (now_ms : Z) (st : StepUpState) : N :=
  count_requests (fun r => rq_org r = Some org /\ is_pending_at now_ms r) st.

Definition raise_request (r : StepUpRequest) (caps : StepUpRequestPendingCaps) (now_ms : Z) (st : StepUpState)
    : Result IdentityError StepUpRequestRaiseOutcome * StepUpState :=
  let by_requester := pending_count (rq_requester r) now_ms st in
  if (per_requester caps <=? by_requester)%N then (Ok (RequesterFull by_requester), st)
  else
    let for_human := pending_for_human (rq_for_human r) now_ms st in
    if (per_human caps <=? for_human)%N then (Ok (HumanFull for_human), st)
    else if bool_decide (is_Some (su_requests st !! rq_id r)) then (Err (IeConflict ("request `" +:+ rq_id r +:+ "` already exists")), st)
    else (Ok Raised, set_requests (<[rq_id r := r]> (su_requests st)) st).
Definition get_request (id : string) (st : StepUpState) : option StepUpRequest := su_requests st !! id.

Definition executing (by_ confirmation_id : string) (now_ms : Z) (r : StepUpRequest) : StepUpRequest :=
  mkRequest (rq_id r) (rq_org r) (rq_op r) (rq_method r) (rq_path r) (rq_query r) (rq_sealed r) (rq_action_digest r) (rq_summary r)
    (rq_for_human r) (rq_requester r) (rq_session_role_cap r) (rq_created_at r) (rq_expires_at r) RsExecuting
    (Some by_) (Some now_ms) (Some confirmation_id) (rq_executed_at r) (rq_result_status r) (rq_result_summary r).
Definition begin_execution (id confirmed_by confirmation_id : string) (now_ms : Z) (st : StepUpState) : BeginExecution * StepUpState :=
  match su_requests st !! id with
  | None => (BeNotFound, st)
  | Some r =>
      if negb (bool_decide (rq_state r = RsPending)) then (NotPending (rq_state r), st)
      else if (rq_expires_at r <=? now_ms)%Z then (BeExpired, st)
      else let r' := executing confirmed_by confirmation_id now_ms r in (Begun r', set_requests (<[id := r']> (su_requests st)) st)
  end.
Definition unsealed (r : StepUpRequest) : StepUpRequest :=
  mkRequest (rq_id r) (rq_org r) (rq_op r) (rq_method r) (rq_path r) (rq_query r) None (rq_action_digest r) (rq_summary r)
    (rq_for_human r) (rq_requester r) (rq_session_role_cap r) (rq_created_at r) (rq_expires_at r) (rq_state r)
    (rq_confirmed_by r) (rq_confirmed_at r) (rq_confirmation_id r) (rq_executed_at r) (rq_result_status r) (rq_result_summary r).
Definition finished (state : RequestState) (status : option Z) (summary : option string) (now_ms : Z) (r : StepUpRequest) : StepUpRequest :=
  mkRequest (rq_id r) (rq_org r) (rq_op r) (rq_method r) (rq_path r) (rq_query r) None (rq_action_digest r) (rq_summary r)
    (rq_for_human r) (rq_requester r) (rq_session_role_cap r) (rq_created_at r) (rq_expires_at r) state
    (rq_confirmed_by r) (rq_confirmed_at r) (rq_confirmation_id r) (Some now_ms) status summary.
Definition finish_request (id : string) (state : RequestState) (status : option Z) (summary : option string) (now_ms : Z) (st : StepUpState)
    : Result IdentityError bool * StepUpState :=
  if negb (is_terminal state)
  then (Err (IeConflict ("a step-up request can only finish as executed or failed, not " +:+ state_as_str state)), st)
  else match su_requests st !! id with
       | None => (Ok false, st)
       | Some r =>
           if negb (bool_decide (rq_state r = RsExecuting)) then (Ok false, st)
           else (Ok true, set_requests (<[id := finished state status summary now_ms r]> (su_requests st)) st)
       end.

Definition before (t : option Z) (limit : Z) : bool := match t with Some t => (t <? limit)%Z | None => false end.
Definition reap_body (now_ms : Z) (r : StepUpRequest) : StepUpRequest :=
  let stuck := (now_ms - STEP_UP_REQUEST_TTL_MS)%Z in
  let expired := bool_decide (rq_state r = RsPending) && (rq_expires_at r <=? now_ms)%Z in
  let left_executing := bool_decide (rq_state r = RsExecuting) && match rq_confirmed_at r with Some t => (t <=? stuck)%Z | None => false end in
  if expired || left_executing then unsealed r else r.
Definition kept_request (older_than_ms : Z) (r : StepUpRequest) : bool :=
  let settled_long_ago := is_terminal (rq_state r) && before (rq_executed_at r) older_than_ms in
  let expired_long_ago := bool_decide (rq_state r = RsPending) && (rq_expires_at r <? older_than_ms)%Z in
  let stuck_long_ago := bool_decide (rq_state r = RsExecuting) && before (rq_confirmed_at r) older_than_ms in
  negb (settled_long_ago || expired_long_ago || stuck_long_ago).
Definition reap (now_ms older_than_ms : Z) (st : StepUpState) : N * StepUpState :=
  let confirmations := List.filter (fun c => (now_ms <? cf_expires_at c)%Z) (su_confirmations st) in
  let requests := filter (fun kv : string * StepUpRequest => kept_request older_than_ms kv.2 = true) (reap_body now_ms <$> su_requests st) in
  (N.of_nat (length (su_confirmations st) + size (su_requests st) - length confirmations - size requests),
   mkStepUp confirmations requests (su_failing_passkey_revokes st)).

(** ** The OrgSecurityEventLog *)

Record SecurityEvent := mkEvent {
  sv_seq : Z;
  sv_id : string;
  sv_org : option string;
  sv_at : Z;
  sv_kind : string;
  sv_subject : string;
  sv_caller : string;
  sv_op : option string;
  sv_target : option string;
  sv_confirmation_id : option string;
  sv_request_id : option string;
  sv_passkey_id : option string;
  sv_session_hash : option string;
  sv_detail : Json;
}.
Definition ORG_VISIBLE_ORGLESS : list string :=
  ["step_up.confirmed"; "passkey.enrolled"; "passkey.removed"; "passkey.reset"; "passkey.break_glass_reset";
   "passkey.clone_suspected"; "passkey.counter_regressed"; "passkey.moved_on_merge"].
Record SecurityEventFilter := mkFilter {
  ef_org : option string;
  ef_subject : option string;
  ef_kinds : list string;
  ef_from_at : option Z;
  ef_to_at : option Z;
  ef_target_contains : option string;
  ef_before_seq : option Z;
  ef_limit : N;
}.
(** The log, and the injected fault that makes every append fail. *)
Record EventLog := mkEventLog { el_events : list SecurityEvent; el_failing : bool }.
Definition with_seq (seq : Z) (e : SecurityEvent) : SecurityEvent :=
  mkEvent seq (sv_id e) (sv_org e) (sv_at e) (sv_kind e) (sv_subject e) (sv_caller e) (sv_op e) (sv_target e) (sv_confirmation_id e)
    (sv_request_id e) (sv_passkey_id e) (sv_session_hash e) (sv_detail e).
Definition append_event (e : SecurityEvent) (log : EventLog) : Result IdentityError Z * EventLog :=
  if el_failing log then (Err (IeConflict "the security event log is unreachable (injected)"), log)
  else if existsb (fun d => String.eqb (sv_id d) (sv_id e)) (el_events log)
  then (Err (IeConflict ("security event `" +:+ sv_id e +:+ "` already exists")), log)
  else let seq := (Z.of_nat (length (el_events log)) + 1)%Z in
       (Ok seq, mkEventLog (el_events log ++ [with_seq seq e]) (el_failing log)).

(** [str::to_lowercase], by Unicode's tables. *)
Class Lowercase := to_lowercase : string -> string.
Definition in_org_view `{Lowercase} (members : gset string) (f : SecurityEventFilter) (e : SecurityEvent) : bool :=
  match ef_org f with
  | None => true
  | Some org =>
      bool_decide (sv_org e = Some org)
      || bool_decide (sv_org e = None) && existsb (String.eqb (sv_kind e)) ORG_VISIBLE_ORGLESS && bool_decide (sv_subject e ∈ members)
  end.
Definition in_filter `{Lowercase} (members : gset string) (f : SecurityEventFilter) (e : SecurityEvent) : bool :=
  in_org_view members f e
  && match ef_subject f with Some s => String.eqb (sv_subject e) s | None => true end
  && (bool_decide (ef_kinds f = []) || existsb (String.eqb (sv_kind e)) (ef_kinds f))
  && match ef_before_seq f with Some b => (sv_seq e <? b)%Z | None => true end
  && match ef_from_at f with Some t => (t <=? sv_at e)%Z | None => true end
  && match ef_to_at f with Some t => (sv_at e <? t)%Z | None => true end
  && match ef_target_contains f with
     | None => true
     | Some t => (bool_decide (ef_org f = None) || bool_decide (is_Some (sv_org e)))
                 && contains (to_lowercase t) (to_lowercase (default "" (sv_target e)))
     end.
(** [members]: who holds a live binding in the filter's Org. *)
Definition list_events `{Lowercase} (members : gset string) (f : SecurityEventFilter) (log : EventLog) : list SecurityEvent :=
  take (N.to_nat (N.max 1 (ef_limit f))) (List.filter (in_filter members f) (reverse (el_events log))).

(** ** Sequences of operations *)

Inductive ChallengeOp : Type :=
| PutChallenge (c : WebauthnChallenge)
| ConsumeChallenge (id session_hash : string) (now_ms : Z)
| ReapExpired (now_ms : Z).
Inductive StepUpOp : Type :=
| PutConfirmation (c : StepUpConfirmation)
| ConsumeAction (session_hash principal digest : string) (now_ms : Z)
| DeleteWindowsFor (principal : string)
| DeleteForPasskey (passkey_id : string)
| RaiseRequest (r : StepUpRequest) (caps : StepUpRequestPendingCaps) (now_ms : Z)
| BeginExecutionOf (id confirmed_by confirmation_id : string) (now_ms : Z)
| FinishRequest (id : string) (state : RequestState) (status : option Z) (summary : option string) (now_ms : Z)
| Reap (now_ms older_than_ms : Z).
(** What an operation did that may be done once: a row made, or spent. *)
Inductive Done : Type := Made (id : string) | Spent (id : string).
#[export] Instance Done_eq_dec : EqDecision Done.
Proof. solve_decision. Defined.

Definition challenge_op (m : Challenges) (o : ChallengeOp) : list Done * Challenges :=
  match o with
  | PutChallenge c => let '(r, m) := put_challenge c m in (if is_ok r then [Made (wc_id c)] else [], m)
  | ConsumeChallenge id session_hash now => let '(r, m) := consume_challenge id session_hash now m in (match r with Some _ => [Spent id] | None => [] end, m)
  | ReapExpired now => ([], (reap_expired now m).2)
  end.
(** Confirmations and requests, each with its own history. *)
Definition step_up_op (st : StepUpState) (o : StepUpOp) : (list Done * list Done) * StepUpState :=
  match o with
  | PutConfirmation c => let '(r, st) := put_confirmation c st in ((if is_ok r then [Made (cf_id c)] else [], []), st)
  | ConsumeAction sh p d now => let '(r, st) := consume_action sh p d now st in ((match r with Some id => [Spent id] | None => [] end, []), st)
  | DeleteWindowsFor p => (([], []), (delete_windows_for p st).2)
  | DeleteForPasskey k => (([], []), (delete_for_passkey k st).2)
  | RaiseRequest r caps now => let '(o, st) := raise_request r caps now st in (([], match o with Ok Raised => [Made (rq_id r)] | _ => [] end), st)
  | BeginExecutionOf id by_ cid now => let '(r, st) := begin_execution id by_ cid now st in (([], match r with Begun _ => [Spent id] | _ => [] end), st)
  | FinishRequest id s status summary now => (([], []), (finish_request id s status summary now st).2)
  | Reap now older => (([], []), (reap now older st).2)
  end.
Fixpoint challenge_run (m : Challenges) (l : list ChallengeOp) : list Done * Challenges :=
  match l with
  | [] => ([], m)
  | o :: l => let '(d, m) := challenge_op m o in let '(ds, m) := challenge_run m l in (d ++ ds, m)
  end.
Fixpoint step_up_run (st : StepUpState) (l : list StepUpOp) : (list Done * list Done) * StepUpState :=
  match l with
  | [] => (([], []), st)
  | o :: l => let '((c, r), st) := step_up_op st o in let '((cs, rs), st) := step_up_run st l in ((c ++ cs, r ++ rs), st)
  end.
Definition count (d : Done) (l : list Done) : nat := length (List.filter (fun e => bool_decide (e = d)) l).

(** ** Lemmas: counting *)

Lemma count_app d l k : count d (l ++ k) = count d l + count d k.
Proof. unfold count. by rewrite List.filter_app, length_app. Qed.
Lemma count_one d e : count d [e] = if bool_decide (e = d) then 1 else 0.
Proof. unfold count. cbn. by destruct (bool_decide (e = d)). Qed.
Lemma count_made_spent id id' : count (Made id) [Spent id'] = 0 /\ count (Spent id) [Made id'] = 0.
Proof. rewrite !count_one. split; by rewrite bool_decide_eq_false_2. Qed.

(** A step that spends only what it takes from [live], over a run. *)
Definition spends {S} (live : S -> string -> nat) (d : list Done) (s s' : S) : Prop :=
  forall id, count (Spent id) d + live s' id <= count (Made id) d + live s id.
Lemma spends_refl {S} (live : S -> string -> nat) s s' : (forall id, live s' id <= live s id) -> spends live [] s s'.
Proof. intros Hl id. specialize (Hl id). unfold count. cbn. lia. Qed.
Lemma spends_app {S} (live : S -> string -> nat) d e s s1 s2 : spends live d s s1 -> spends live e s1 s2 -> spends live (d ++ e) s s2.
Proof. intros H1 H2 id. specialize (H1 id). specialize (H2 id). rewrite !count_app. lia. Qed.

(** ** Challenges are answered once *)

Definition challenge_live (m : Challenges) (id : string) : nat :=
  match m !! id with Some c => if bool_decide (wc_consumed_at c = None) then 1 else 0 | None => 0 end.
Lemma consume_challenge_some id sh now m c m' :
  consume_challenge id sh now m = (Some c, m') <->
  exists c0, m !! id = Some c0 /\ wc_session_hash c0 = sh /\ wc_consumed_at c0 = None /\ (now < wc_expires_at c0)%Z /\
    c = challenge_consumed now c0 /\ m' = <[id := c]> m.
Proof.
  unfold consume_challenge. destruct (m !! id) as [c0|]; [|by split; [|intros (? & ? & _)]].
  destruct (String.eqb_spec (wc_session_hash c0) sh) as [Hs|Hs]; cbn [negb orb]; [|split; [done|]; by intros (? & [= <-] & ? & _)].
  case_bool_decide as Hc; cbn [orb]; [split; [done|]; intros (? & [= <-] & _ & Hn & _); rewrite Hn in Hc; by apply is_Some_None in Hc|].
  destruct (Z.leb_spec (wc_expires_at c0) now) as [He|He].
  - split; [done|]. intros (? & [= <-] & _ & _ & ? & _). lia.
  - split; [|by intros (? & [= <-] & _ & _ & _ & -> & ->)]. intros [= <- <-]. exists c0. split_and!; try done. by destruct (wc_consumed_at c0); [destruct Hc|].
Qed.
Lemma challenge_op_spends m o : let '(d, m') := challenge_op m o in spends challenge_live d m m'.
Proof.
  destruct o as [c|id sh now|now]; cbn [challenge_op].
  - unfold put_challenge. case_bool_decide as Hc; cbn [is_ok]; [by apply spends_refl|].
    intros id. rewrite (proj2 (count_made_spent id (wc_id c))), count_one. unfold challenge_live.
    destruct (decide (id = wc_id c)) as [->|Hne].
    + rewrite lookup_insert_eq, (bool_decide_eq_true_2 (Made (wc_id c) = Made (wc_id c))) by done. destruct (bool_decide _); lia.
    + rewrite lookup_insert_ne by done. lia.
  - destruct (consume_challenge id sh now m) as [[c|] m'] eqn:E.
    + apply consume_challenge_some in E as (c0 & Hm & _ & Hn & _ & -> & ->). intros id'. rewrite (proj1 (count_made_spent id' id)), count_one. unfold challenge_live.
      destruct (decide (id' = id)) as [->|Hne].
      * rewrite lookup_insert_eq, Hm, Hn, !bool_decide_eq_true_2 by done. done.
      * rewrite lookup_insert_ne, bool_decide_eq_false_2 by congruence. lia.
    + assert (m' = m) as ->; [|by apply spends_refl]. revert E. unfold consume_challenge. destruct (m !! id) as [c|]; [|congruence]. destruct (_ || _); congruence.
  - apply spends_refl. intros id. unfold challenge_live, reap_expired. cbn [snd]. rewrite map_lookup_filter.
    destruct (m !! id) as [c|]; cbn; [|lia]. case_guard; cbn; [|lia]. destruct (bool_decide _); lia.
Qed.
Lemma challenge_run_spends l m : spends challenge_live (challenge_run m l).1 m (challenge_run m l).2.
Proof.
  revert m; induction l as [|o l IH]; intros m; cbn [challenge_run]; [by apply spends_refl|].
  pose proof (challenge_op_spends m o) as Ho. destruct (challenge_op m o) as [d m1]. specialize (IH m1). destruct (challenge_run m1 l) as [ds m2].
  by eapply spends_app.
Qed.

(** ** Confirmations are consumed once, requests begun once *)

Definition is_unused (id : string) (c : StepUpConfirmation) : bool := String.eqb (cf_id c) id && bool_decide (cf_consumed_at c = None).
Definition confirmation_live (st : StepUpState) (id : string) : nat := length (List.filter (is_unused id) (su_confirmations st)).
Definition request_live (st : StepUpState) (id : string) : nat :=
  match su_requests st !! id with Some r => if bool_decide (rq_state r = RsPending) then 1 else 0 | None => 0 end.

Lemma filter_filter_le {A} (p q : A -> bool) l : length (List.filter p (List.filter q l)) <= length (List.filter p l).
Proof. induction l as [|x l IH]; cbn; [lia|]. destruct (q x); cbn; destruct (p x); cbn; lia. Qed.
Lemma min_by_in {A} (le : A -> A -> bool) l x : min_by le l = Some x -> x ∈ l.
Proof.
  unfold min_by. assert (forall acc, foldl (fun acc x => match acc with Some a => if le a x then Some a else Some x | None => Some x end) acc l = Some x -> acc = Some x \/ x ∈ l) as H.
  { induction l as [|y l IH]; intros acc; cbn [foldl]; [by left|]. intros [H|H]%IH; [|by right; right].
    destruct acc as [a|]; [destruct (le a y)|]; [by left|injection H as ->; right; by left..]. }
  intros [?|?]%H; done.
Qed.
Lemma is_live_action_spec sh p d now c :
  is_live_action sh p d now c = true <->
  cf_kind c = KindAction /\ cf_session_hash c = sh /\ cf_principal c = p /\ cf_action_digest c = Some d /\ cf_consumed_at c = None /\ (now < cf_expires_at c)%Z.
Proof. unfold is_live_action. rewrite !andb_true_iff, !bool_decide_eq_true, !String.eqb_eq, Z.ltb_lt. tauto. Qed.
Lemma consume_action_some sh p d now st id st' :
  consume_action sh p d now st = (Some id, st') ->
  exists c, c ∈ su_confirmations st /\ cf_id c = id /\ is_live_action sh p d now c = true /\
    st' = set_confirmations (map (fun c => if String.eqb (cf_id c) id then confirmation_consumed now c else c) (su_confirmations st)) st.
Proof.
  unfold consume_action. destruct (min_by _ _) as [c|] eqn:E; [|done]. intros [= <- <-].
  apply min_by_in, list_elem_of_In, filter_In in E as [Hin Hl]. exists c. split_and!; [by apply list_elem_of_In|done|done|done].
Qed.
Lemma consume_action_none sh p d now st st' : consume_action sh p d now st = (None, st') -> st' = st.
Proof. unfold consume_action. destruct (min_by _ _); [done|congruence]. Qed.
Lemma live_after_consume now id id' l :
  length (List.filter (is_unused id') (map (fun c => if String.eqb (cf_id c) id then confirmation_consumed now c else c) l))
  = if String.eqb id' id then 0 else length (List.filter (is_unused id') l).
Proof.
  induction l as [|c l IH]; cbn; [by destruct (String.eqb id' id)|]. destruct (String.eqb_spec (cf_id c) id) as [<-|Hne].
  - unfold is_unused at 1. cbn. rewrite andb_false_r, IH. destruct (String.eqb_spec id' (cf_id c)) as [->|Hn]; [done|].
    unfold is_unused at 2. destruct (String.eqb_spec (cf_id c) id'); [congruence|done].
  - destruct (String.eqb_spec id' id) as [->|]; [|destruct (is_unused id' c); cbn; by rewrite IH].
    unfold is_unused at 1. destruct (String.eqb_spec (cf_id c) id); [congruence|]. cbn. by rewrite IH.
Qed.
Lemma retain_live p st id : confirmation_live (retain_confirmations p st).2 id <= confirmation_live st id.
Proof. apply filter_filter_le. Qed.
Lemma delete_for_passkey_effect k st :
  (delete_for_passkey k st).2 = st \/
  (delete_for_passkey k st).2 = set_confirmations (List.filter (fun c => negb (String.eqb (cf_passkey_id c) k && is_standing c)) (su_confirmations st)) st.
Proof. unfold delete_for_passkey. destruct (su_failing_passkey_revokes st); [by left|]. by right. Qed.

Lemma raise_request_cases r caps now st :
  (exists o, raise_request r caps now st = (o, st) /\ o <> Ok Raised) \/
  (raise_request r caps now st = (Ok Raised, set_requests (<[rq_id r := r]> (su_requests st)) st) /\ su_requests st !! rq_id r = None /\
   (pending_count (rq_requester r) now st < per_requester caps)%N /\ (pending_for_human (rq_for_human r) now st < per_human caps)%N).
Proof.
  unfold raise_request. destruct (N.leb_spec (per_requester caps) (pending_count (rq_requester r) now st)); [by left; eexists|].
  destruct (N.leb_spec (per_human caps) (pending_for_human (rq_for_human r) now st)); [by left; eexists|].
  case_bool_decide as Hn; [by left; eexists|]. right. split_and!; try done. by apply eq_None_not_Some.
Qed.
Lemma begin_execution_cases id by_ cid now st :
  (exists b, begin_execution id by_ cid now st = (b, st) /\ forall r, b <> Begun r) \/
  (exists r, begin_execution id by_ cid now st = (Begun (executing by_ cid now r), set_requests (<[id := executing by_ cid now r]> (su_requests st)) st) /\
   su_requests st !! id = Some r /\ rq_state r = RsPending /\ (now < rq_expires_at r)%Z).
Proof.
  unfold begin_execution. destruct (su_requests st !! id) as [r|]; [|by left; eexists].
  case_bool_decide as Hp; cbn [negb]; [|by left; eexists].
  destruct (Z.leb_spec (rq_expires_at r) now); [by left; eexists|]. right. by exists r.
Qed.
Lemma finish_request_cases id s status summary now st :
  (finish_request id s status summary now st).2 = st \/
  (exists r, (finish_request id s status summary now st).2 = set_requests (<[id := finished s status summary now r]> (su_requests st)) st /\
   su_requests st !! id = Some r /\ rq_state r = RsExecuting /\ is_terminal s = true).
Proof.
  unfold finish_request. destruct (is_terminal s); cbn [negb]; [|by left]. destruct (su_requests st !! id) as [r|]; [|by left].
  case_bool_decide as Hp; cbn [negb]; [|by left]. right. by exists r.
Qed.

Lemma step_up_op_confirmations st o : let '((d, _), st') := step_up_op st o in spends confirmation_live d st st'.
Proof.
  destruct o as [c|sh p d now|p|k|r caps now|id by_ cid now|id s status summary now|now older]; cbn [step_up_op].
  - unfold put_confirmation. destruct (existsb _ (su_confirmations st)) eqn:E; cbn [is_ok]; [by apply spends_refl|].
    intros id. rewrite (proj2 (count_made_spent id (cf_id c))), count_one. unfold confirmation_live. cbn. rewrite List.filter_app, length_app. cbn.
    unfold is_unused at 2. destruct (String.eqb_spec (cf_id c) id) as [->|Hne].
    + rewrite (bool_decide_eq_true_2 (Made id = Made id)) by done. destruct (_ && _); cbn; lia.
    + cbn. lia.
  - destruct (consume_action sh p d now st) as [[id|] st'] eqn:E.
    + apply consume_action_some in E as (c & Hc & <- & Hl & ->). intros id'. rewrite (proj1 (count_made_spent id' (cf_id c))), count_one.
      unfold confirmation_live. cbn [su_confirmations set_confirmations]. rewrite live_after_consume.
      destruct (String.eqb_spec id' (cf_id c)) as [->|Hne]; [|rewrite bool_decide_eq_false_2 by congruence; lia].
      rewrite bool_decide_eq_true_2 by done. apply is_live_action_spec in Hl as (_ & _ & _ & _ & Hn & _).
      enough (0 < length (List.filter (is_unused (cf_id c)) (su_confirmations st))) by lia.
      destruct (List.filter _ _) as [|x l] eqn:Ef; [|cbn; lia]. exfalso. apply (in_nil (a := c)). rewrite <- Ef. apply filter_In.
      split; [by apply list_elem_of_In|]. unfold is_unused. by rewrite String.eqb_refl, bool_decide_eq_true_2.
    + apply consume_action_none in E as ->. by apply spends_refl.
  - apply spends_refl. intros id. apply retain_live.
  - apply spends_refl. intros id. destruct (delete_for_passkey_effect k st) as [->| ->]; [done|]. apply filter_filter_le.
  - destruct (raise_request_cases r caps now st) as [(o & -> & _)|(-> & _)]; by apply spends_refl.
  - destruct (begin_execution_cases id by_ cid now st) as [(b & -> & _)|(r & -> & _)]; by apply spends_refl.
  - destruct (finish_request_cases id s status summary now st) as [->|(r & -> & _)]; by apply spends_refl.
  - apply spends_refl. intros id. apply filter_filter_le.
Qed.

Lemma reap_lookup now older st id :
  su_requests (reap now older st).2 !! id = match su_requests st !! id with Some r => if kept_request older (reap_body now r) then Some (reap_body now r) else None | None => None end.
Proof.
  unfold reap. cbn. rewrite map_lookup_filter, lookup_fmap. destruct (su_requests st !! id) as [r|]; cbn; [|done].
  destruct (kept_request older (reap_body now r)) eqn:E; case_guard as Hg; cbn in *; done.
Qed.
Lemma reap_body_same now r :
  rq_state (reap_body now r) = rq_state r /\ rq_expires_at (reap_body now r) = rq_expires_at r /\ rq_requester (reap_body now r) = rq_requester r /\
  rq_for_human (reap_body now r) = rq_for_human r /\ (rq_sealed (reap_body now r) = rq_sealed r \/ rq_sealed (reap_body now r) = None).
Proof. unfold reap_body. destruct (_ || _); cbn; split_and!; auto. Qed.
Lemma request_live_ext st st' : (forall id, su_requests st' !! id = su_requests st !! id) -> forall id, request_live st' id <= request_live st id.
Proof. intros Hs id. unfold request_live. by rewrite Hs. Qed.
Lemma step_up_op_requests st o : let '((_, d), st') := step_up_op st o in spends request_live d st st'.
Proof.
  destruct o as [c|sh p d now|p|k|r caps now|id by_ cid now|id s status summary now|now older]; cbn [step_up_op].
  - unfold put_confirmation. destruct (existsb _ (su_confirmations st)); by apply spends_refl.
  - unfold consume_action. destruct (min_by _ _); by apply spends_refl.
  - by apply spends_refl.
  - apply spends_refl. destruct (delete_for_passkey_effect k st) as [->| ->]; by apply request_live_ext.
  - destruct (raise_request_cases r caps now st) as [(o & -> & Ho)|(-> & Hn & _)].
    + assert (match o with Ok Raised => [Made (rq_id r)] | _ => [] end = []) as -> by (by destruct o as [[]|]). by apply spends_refl.
    + intros id. rewrite (proj2 (count_made_spent id (rq_id r))), count_one. unfold request_live. cbn. destruct (decide (id = rq_id r)) as [->|Hne].
      * rewrite lookup_insert_eq, (bool_decide_eq_true_2 (Made (rq_id r) = Made (rq_id r))) by done. destruct (bool_decide _); lia.
      * rewrite lookup_insert_ne by done. lia.
  - destruct (begin_execution_cases id by_ cid now st) as [(b & -> & Hb)|(r & -> & Hr & Hp & _)].
    + assert (match b with Begun _ => [Spent id] | _ => [] end = []) as -> by (destruct b; [by destruct (Hb r)|done..]). by apply spends_refl.
    + intros id'. rewrite (proj1 (count_made_spent id' id)), count_one. unfold request_live. cbn. destruct (decide (id' = id)) as [->|Hne].
      * rewrite lookup_insert_eq, Hr, Hp. cbn. rewrite !bool_decide_eq_true_2 by done. done.
      * rewrite lookup_insert_ne, bool_decide_eq_false_2 by congruence. lia.
  - apply spends_refl. intros id'. destruct (finish_request_cases id s status summary now st) as [->|(r & -> & Hr & Hx & Ht)]; [done|].
    unfold request_live. cbn. destruct (decide (id' = id)) as [->|Hne]; [|by rewrite lookup_insert_ne].
    rewrite lookup_insert_eq. cbn. rewrite (bool_decide_eq_false_2 (s = RsPending)) by (by destruct s). lia.
  - apply spends_refl. intros id. unfold request_live. rewrite reap_lookup. destruct (su_requests st !! id) as [r|]; [|done].
    destruct (kept_request _ _); [|lia]. by rewrite (proj1 (reap_body_same now r)).
Qed.
Lemma step_up_run_spends l st :
  let '((cs, rs), st') := step_up_run st l in spends confirmation_live cs st st' /\ spends request_live rs st st'.
Proof.
  revert st; induction l as [|o l IH]; intros st; cbn [step_up_run]; [by split; apply spends_refl|].
  pose proof (step_up_op_confirmations st o) as Hc. pose proof (step_up_op_requests st o) as Hr.
  destruct (step_up_op st o) as [[c r] st1]. specialize (IH st1). destruct (step_up_run st1 l) as [[cs rs] st2]. destruct IH.
  split; by eapply spends_app.
Qed.

(** ** The life of one id *)

(** An id is kept or not, and what is kept is spent or not. One operation
    leaves it as it is, removes it, makes it where there was none, or spends
    what was unspent; there is nothing else. *)
Inductive Life : Type := Absent | Unspent | SpentKept.
Inductive life_step (id : string) : Life -> list Done -> Life -> Prop :=
| ls_kept l d : Made id ∉ d -> Spent id ∉ d -> life_step id l d l
| ls_removed l d : Made id ∉ d -> Spent id ∉ d -> life_step id l d Absent
| ls_made l : l <> Absent -> life_step id Absent [Made id] l
| ls_spent : life_step id Unspent [Spent id] SpentKept.

Definition life_of (spent : bool) : Life := if spent then SpentKept else Unspent.
Definition challenge_life (m : Challenges) (id : string) : Life :=
  match m !! id with Some c => life_of (bool_decide (is_Some (wc_consumed_at c))) | None => Absent end.
Definition confirmation_life (st : StepUpState) (id : string) : Life :=
  match List.find (fun c => String.eqb (cf_id c) id) (su_confirmations st) with
  | Some c => life_of (bool_decide (is_Some (cf_consumed_at c)))
  | None => Absent
  end.
Definition request_life (st : StepUpState) (id : string) : Life :=
  match su_requests st !! id with Some r => life_of (negb (bool_decide (rq_state r = RsPending))) | None => Absent end.

Lemma life_of_kept b : life_of b <> Absent.
Proof. by destruct b. Qed.
Lemma life_quiet id l l' : l' = l \/ l' = Absent -> life_step id l [] l'.
Proof. intros [->| ->]; [apply ls_kept|apply ls_removed]; apply not_elem_of_nil. Qed.
(** An operation on one id is none of another's. *)
Lemma life_other id id' l e : id <> id' -> e = Made id' \/ e = Spent id' -> life_step id l [e] l.
Proof. intros Hne He. apply ls_kept; rewrite list_elem_of_singleton; intros E; destruct He; congruence. Qed.

Lemma challenge_op_life m o id : let '(d, m') := challenge_op m o in life_step id (challenge_life m id) d (challenge_life m' id).
Proof.
  destruct o as [c|id0 sh now|now]; cbn [challenge_op]; unfold challenge_life.
  - unfold put_challenge. case_bool_decide as Hc; cbn [is_ok]; [by apply life_quiet; left|].
    destruct (decide (id = wc_id c)) as [->|Hne]; [|rewrite lookup_insert_ne by done; apply (life_other _ (wc_id c)); auto].
    rewrite lookup_insert_eq. apply eq_None_not_Some in Hc. rewrite Hc. apply ls_made, life_of_kept.
  - destruct (consume_challenge id0 sh now m) as [[c|] m'] eqn:E.
    + apply consume_challenge_some in E as (c0 & Hm & _ & Hn & _ & -> & ->).
      destruct (decide (id = id0)) as [->|Hne]; [|rewrite lookup_insert_ne by done; apply (life_other _ id0); auto].
      rewrite lookup_insert_eq, Hm, Hn. apply ls_spent.
    + assert (m' = m) as ->; [|by apply life_quiet; left]. revert E. unfold consume_challenge.
      destruct (m !! id0) as [c|]; [|congruence]. destruct (_ || _); congruence.
  - apply life_quiet. unfold reap_expired. cbn [snd]. rewrite map_lookup_filter. destruct (m !! id) as [c|]; cbn; [|by left].
    case_guard; cbn; auto.
Qed.

Lemma request_op_life st o id : let '((_, d), st') := step_up_op st o in life_step id (request_life st id) d (request_life st' id).
Proof.
  destruct o as [c|sh p d now|p|k|r caps now|id0 by_ cid now|id0 s status summary now|now older]; cbn [step_up_op]; unfold request_life.
  - unfold put_confirmation. destruct (existsb _ (su_confirmations st)); by apply life_quiet; left.
  - unfold consume_action. destruct (min_by _ _); by apply life_quiet; left.
  - by apply life_quiet; left.
  - apply life_quiet; left. by destruct (delete_for_passkey_effect k st) as [->| ->].
  - destruct (raise_request_cases r caps now st) as [(o & -> & Ho)|(-> & Hn & _)].
    + assert (match o with Ok Raised => [Made (rq_id r)] | _ => [] end = []) as -> by (by destruct o as [[]|]). by apply life_quiet; left.
    + cbn. destruct (decide (id = rq_id r)) as [->|Hne]; [|rewrite lookup_insert_ne by done; apply (life_other _ (rq_id r)); auto].
      rewrite lookup_insert_eq, Hn. apply ls_made, life_of_kept.
  - destruct (begin_execution_cases id0 by_ cid now st) as [(b & -> & Hb)|(r & -> & Hr & Hp & _)].
    + assert (match b with Begun _ => [Spent id0] | _ => [] end = []) as -> by (destruct b; [by destruct (Hb r)|done..]). by apply life_quiet; left.
    + cbn. destruct (decide (id = id0)) as [->|Hne]; [|rewrite lookup_insert_ne by done; apply (life_other _ id0); auto].
      rewrite lookup_insert_eq, Hr, Hp. apply ls_spent.
  - apply life_quiet. destruct (finish_request_cases id0 s status summary now st) as [->|(r & -> & Hr & Hx & Ht)]; [by left|]. left.
    cbn. destruct (decide (id = id0)) as [->|Hne]; [|by rewrite lookup_insert_ne].
    rewrite lookup_insert_eq, Hr, Hx. cbn. by destruct s.
  - apply life_quiet. rewrite reap_lookup. destruct (su_requests st !! id) as [r|]; [|by left].
    destruct (kept_request _ _); [|by right]. left. by rewrite (proj1 (reap_body_same now r)).
Qed.

(** No two confirmations are kept under one id. *)
Definition ids_unique (st : StepUpState) : Prop := NoDup (map cf_id (su_confirmations st)).
Lemma nodup_filter_ids (p : StepUpConfirmation -> bool) l : NoDup (map cf_id l) -> NoDup (map cf_id (List.filter p l)).
Proof.
  induction l as [|c l IH]; cbn; [done|]. intros [Hc Hl]%NoDup_cons. destruct (p c); cbn; [|by apply IH].
  apply NoDup_cons. split; [|by apply IH]. intros (d & Hd & Hin)%list_elem_of_fmap. apply list_elem_of_In, filter_In in Hin as [Hin _].
  apply Hc, list_elem_of_fmap. exists d. split; [done|by apply list_elem_of_In].
Qed.
Lemma step_up_op_unique st o : ids_unique st -> ids_unique (step_up_op st o).2.
Proof.
  intros Hu. destruct o as [c|sh p d now|p|k|r caps now|id by_ cid now|id s status summary now|now older]; cbn [step_up_op].
  - unfold put_confirmation. destruct (existsb _ (su_confirmations st)) eqn:E; cbn [snd]; [done|]. unfold ids_unique. cbn. rewrite map_app.
    apply NoDup_app. split_and!; [done| |apply NoDup_singleton]. intros x (d & -> & Hd)%list_elem_of_fmap Hx%list_elem_of_singleton.
    assert (existsb (fun d => String.eqb (cf_id d) (cf_id c)) (su_confirmations st) = true) as Ht; [|congruence].
    apply existsb_exists. exists d. split; [by apply list_elem_of_In|by apply String.eqb_eq].
  - unfold consume_action. destruct (min_by _ _) as [c|]; cbn [snd]; [|done]. unfold ids_unique. cbn. rewrite map_map.
    erewrite map_ext; [exact Hu|]. intros x. by destruct (String.eqb _ _).
  - by apply nodup_filter_ids.
  - destruct (delete_for_passkey_effect k st) as [->| ->]; [done|]. by apply nodup_filter_ids.
  - by destruct (raise_request_cases r caps now st) as [(o & -> & _)|(-> & _)].
  - by destruct (begin_execution_cases id by_ cid now st) as [(b & -> & _)|(r & -> & _)].
  - by destruct (finish_request_cases id s status summary now st) as [->|(r & -> & _)].
  - by apply nodup_filter_ids.
Qed.
Lemma step_up_run_unique l st : ids_unique st -> ids_unique (step_up_run st l).2.
Proof.
  revert st; induction l as [|o l IH]; intros st Hu; cbn [step_up_run]; [done|].
  pose proof (step_up_op_unique st o Hu) as H1. destruct (step_up_op st o) as [[c r] st1]. specialize (IH st1 H1).
  by destruct (step_up_run st1 l) as [[cs rs] st2].
Qed.

Definition by_cf_id (id : string) (c : StepUpConfirmation) : bool := String.eqb (cf_id c) id.
Lemma find_none_ids id l : List.find (by_cf_id id) l = None <-> id ∉ map cf_id l.
Proof.
  induction l as [|c l IH]; cbn; [split; [intros _; apply not_elem_of_nil|done]|]. rewrite not_elem_of_cons. unfold by_cf_id at 1.
  destruct (String.eqb_spec (cf_id c) id) as [->|Hne]; [split; [done|]; by intros [? _]|]. rewrite IH. split; [|by intros [_ ?]]. by split; [congruence|].
Qed.
Lemma find_kept p id l : NoDup (map cf_id l) ->
  List.find (by_cf_id id) (List.filter p l) = List.find (by_cf_id id) l \/ List.find (by_cf_id id) (List.filter p l) = None.
Proof.
  induction l as [|c l IH]; cbn; [by left|]. intros [Hc Hl]%NoDup_cons. destruct (p c); cbn; destruct (by_cf_id id c) eqn:E; auto.
  apply String.eqb_eq in E as <-. right. apply find_none_ids. intros Hin. apply Hc. apply list_elem_of_fmap in Hin as (d & Hd & Hin).
  apply list_elem_of_In, filter_In in Hin as [Hin _]. apply list_elem_of_fmap. exists d. split; [done|by apply list_elem_of_In].
Qed.
Lemma find_mapped id (f : StepUpConfirmation -> StepUpConfirmation) l : (forall c, cf_id (f c) = cf_id c) ->
  List.find (by_cf_id id) (map f l) = f <$> List.find (by_cf_id id) l.
Proof. intros Hf. induction l as [|c l IH]; cbn; [done|]. unfold by_cf_id at 1 3. rewrite Hf. by destruct (String.eqb _ _). Qed.
Lemma find_member c l : NoDup (map cf_id l) -> c ∈ l -> List.find (by_cf_id (cf_id c)) l = Some c.
Proof.
  induction l as [|d l IH]; intros Hd Hc; [by apply elem_of_nil in Hc|]. cbn in *. apply NoDup_cons in Hd as [Hn Hd].
  apply elem_of_cons in Hc as [->|Hc]; [by unfold by_cf_id; rewrite String.eqb_refl|]. unfold by_cf_id at 1.
  destruct (String.eqb_spec (cf_id d) (cf_id c)) as [E|]; [|by apply IH]. exfalso. apply Hn. rewrite E. apply list_elem_of_fmap. by exists c.
Qed.
Lemma life_of_filtered p st id : ids_unique st ->
  confirmation_life (set_confirmations (List.filter p (su_confirmations st)) st) id = confirmation_life st id
  \/ confirmation_life (set_confirmations (List.filter p (su_confirmations st)) st) id = Absent.
Proof. intros Hu. unfold confirmation_life. cbn. fold (by_cf_id id). destruct (find_kept p id _ Hu) as [->| ->]; auto. Qed.

Lemma confirmation_op_life st o id : ids_unique st ->
  let '((d, _), st') := step_up_op st o in life_step id (confirmation_life st id) d (confirmation_life st' id).
Proof.
  intros Hu. destruct o as [c|sh p d now|p|k|r caps now|id0 by_ cid now|id0 s status summary now|now older]; cbn [step_up_op].
  - unfold put_confirmation. destruct (existsb _ (su_confirmations st)) eqn:E; cbn [is_ok]; [by apply life_quiet; left|].
    assert (cf_id c ∉ map cf_id (su_confirmations st)) as Hn.
    { intros (x & Hx & Hin)%list_elem_of_fmap. apply not_true_iff_false in E. apply E, existsb_exists. exists x.
      split; [by apply list_elem_of_In|by apply String.eqb_eq]. }
    assert (forall l, List.find (by_cf_id id) (l ++ [c]) = match List.find (by_cf_id id) l with Some x => Some x | None => if by_cf_id id c then Some c else None end) as Hf.
    { induction l as [|x l IH]; cbn; [done|]. by destruct (by_cf_id id x). }
    unfold confirmation_life. cbn. fold (by_cf_id id). rewrite Hf. destruct (decide (id = cf_id c)) as [->|Hne].
    + rewrite (proj2 (find_none_ids _ _) Hn). unfold by_cf_id. rewrite String.eqb_refl. apply ls_made, life_of_kept.
    + destruct (List.find _ _); [apply (life_other _ (cf_id c)); auto|]. unfold by_cf_id.
      destruct (String.eqb_spec (cf_id c) id); [congruence|]. apply (life_other _ (cf_id c)); auto.
  - destruct (consume_action sh p d now st) as [[i|] st'] eqn:E; [|apply consume_action_none in E as ->; by apply life_quiet; left].
    apply consume_action_some in E as (c & Hc & <- & Hl & ->). apply is_live_action_spec in Hl as (_ & _ & _ & _ & Hn & _).
    unfold confirmation_life. cbn. fold (by_cf_id id). rewrite find_mapped by (intros x; by destruct (String.eqb _ _)).
    destruct (decide (id = cf_id c)) as [->|Hne].
    + rewrite (find_member c) by done. cbn. rewrite String.eqb_refl, Hn. apply ls_spent.
    + destruct (List.find (by_cf_id id) (su_confirmations st)) as [x|] eqn:Ef; cbn; [|apply (life_other _ (cf_id c)); auto].
      apply find_some in Ef as [_ Hx%String.eqb_eq]. rewrite Hx. destruct (String.eqb_spec id (cf_id c)); [done|]. apply (life_other _ (cf_id c)); auto.
  - apply life_quiet. by apply life_of_filtered.
  - apply life_quiet. destruct (delete_for_passkey_effect k st) as [->| ->]; [by left|]. by apply life_of_filtered.
  - destruct (raise_request_cases r caps now st) as [(o & -> & _)|(-> & _)]; by apply life_quiet; left.
  - destruct (begin_execution_cases id0 by_ cid now st) as [(b & -> & _)|(r & -> & _)]; by apply life_quiet; left.
  - apply life_quiet; left. by destruct (finish_request_cases id0 s status summary now st) as [->|(r & -> & _)].
  - apply life_quiet. exact (life_of_filtered (fun c => (now <? cf_expires_at c)%Z) st id Hu).
Qed.

(** C10: every step-up is made once while its id is kept, and spent at most
    once. Over any sequence of operations from empty stores, and for every
    id, the next operation leaves the row of a challenge, a confirmation or a
    confirmation request as spent as it is, removes it, makes it where none
    is kept, or spends (answers, consumes, begins) one that was kept unspent:
    a put of a kept id is refused, and what was spent is neither spent nor
    made again until it is removed. So each is spent at most as often as it
    was made. *)
Theorem step_up_spent_once challenge_ops challenge_next ops next id :
  let '(history, m) := challenge_run ∅ challenge_ops in
  let '(d, m') := challenge_op m challenge_next in
  let '((confirmations, requests), st) := step_up_run no_step_ups ops in
  let '((dc, dr), st') := step_up_op st next in
  life_step id (challenge_life m id) d (challenge_life m' id)
  /\ life_step id (confirmation_life st id) dc (confirmation_life st' id)
  /\ life_step id (request_life st id) dr (request_life st' id)
  /\ count (Spent id) history <= count (Made id) history
  /\ count (Spent id) confirmations <= count (Made id) confirmations
  /\ count (Spent id) requests <= count (Made id) requests.
Proof.
  pose proof (challenge_run_spends challenge_ops ∅ id) as Hc. pose proof (step_up_run_spends ops no_step_ups) as Hs.
  pose proof (step_up_run_unique ops no_step_ups NoDup_nil_2) as Hu.
  destruct (challenge_run ∅ challenge_ops) as [history m]. pose proof (challenge_op_life m challenge_next id) as Lc.
  destruct (challenge_op m challenge_next) as [d m'].
  destruct (step_up_run no_step_ups ops) as [[cs rs] st]. destruct Hs as [H1 H2]. specialize (H1 id). specialize (H2 id).
  pose proof (confirmation_op_life st next id Hu) as Lf. pose proof (request_op_life st next id) as Lr.
  destruct (step_up_op st next) as [[dc dr] st']. unfold challenge_live at 2 in Hc. rewrite lookup_empty in Hc.
  unfold confirmation_live at 2 in H1. unfold request_live at 2 in H2. cbn in H1, H2. rewrite lookup_empty in H2. cbn [fst] in *.
  split_and!; try done; lia.
Qed.

(** A request raised, begun and raised again under its id: the second raise is
    refused, and so is a second beginning. *)
Definition one_request : StepUpRequest :=
  mkRequest "r" None "secret.put" "PUT" "/x" "" None "d" JNull "amy" (ByApiToken "t1") None 1 100 RsPending None None None None None None.
Definition one_action : StepUpConfirmation := mkConfirmation "c" "amy" "s" "k1" KindAction (Some "d") None 1 100 None.
Definition spending : list StepUpOp :=
  [RaiseRequest one_request DEFAULT_CAPS 1; BeginExecutionOf "r" "amy" "c" 2; RaiseRequest one_request DEFAULT_CAPS 3;
   BeginExecutionOf "r" "amy" "c" 4; PutConfirmation one_action; ConsumeAction "s" "amy" "d" 5; PutConfirmation one_action].
Lemma step_up_spent_once_witness :
  (step_up_run no_step_ups spending).1 = ([Made "c"; Spent "c"], [Made "r"; Spent "r"])
  /\ life_step "c" SpentKept (step_up_op (step_up_run no_step_ups spending).2 (ConsumeAction "s" "amy" "d" 6)).1.1 SpentKept.
Proof.
  pose proof (step_up_spent_once [] (ReapExpired 0) spending (ConsumeAction "s" "amy" "d" 6) "c") as (_ & H & _).
  split; [vm_compute; reflexivity|exact H].
Defined.

(** ** Requests: caps and life *)

Lemma count_requests_mono (p q : StepUpRequest -> Prop) `{!forall r, Decision (p r), !forall r, Decision (q r)} st st' :
  (forall id r, su_requests st !! id = Some r -> p r -> exists r', su_requests st' !! id = Some r' /\ q r') ->
  (count_requests p st <= count_requests q st')%N.
Proof.
  intros Hm. unfold count_requests. rewrite <- !size_dom. enough (dom (filter (fun kv : string * StepUpRequest => p kv.2) (su_requests st)) ⊆
    dom (filter (fun kv : string * StepUpRequest => q kv.2) (su_requests st'))) as Hs by (apply subseteq_size in Hs; lia).
  intros id [r Hr]%elem_of_dom. apply map_lookup_filter_Some in Hr as [Hr Hp]. destruct (Hm _ _ Hr Hp) as (r' & Hr' & Hq).
  apply elem_of_dom. exists r'. by apply map_lookup_filter_Some.
Qed.
Lemma count_requests_insert (p : StepUpRequest -> Prop) `{!forall r, Decision (p r)} r st :
  (count_requests p (set_requests (<[rq_id r := r]> (su_requests st)) st) <= (if decide (p r) then 1 else 0) + count_requests p st)%N.
Proof.
  unfold count_requests. cbn. destruct (decide (p r)) as [Hp|Hp].
  - rewrite map_filter_insert_True, map_size_insert by done. destruct (_ !! _); cbn; lia.
  - rewrite map_filter_insert_False, map_filter_delete, map_size_delete by done. destruct (_ !! _); cbn; lia.
Qed.

(** When an operation acts, for those that look at a request's expiry. *)
Definition op_time (o : StepUpOp) : option Z :=
  match o with
  | RaiseRequest _ _ now | BeginExecutionOf _ _ _ now | FinishRequest _ _ _ _ now | Reap now _ => Some now
  | PutConfirmation _ | ConsumeAction _ _ _ _ | DeleteWindowsFor _ | DeleteForPasskey _ => None
  end.
(** A clock that never goes back, from [t]. *)
Fixpoint clock_runs (t : Z) (l : list StepUpOp) : Prop :=
  match l with
  | [] => True
  | o :: l => match op_time o with Some now => (t <= now)%Z /\ clock_runs now l | None => clock_runs t l end
  end.
Fixpoint last_time (t : Z) (l : list StepUpOp) : Z :=
  match l with [] => t | o :: l => last_time (default t (op_time o)) l end.
Definition raises_within (caps : StepUpRequestPendingCaps) (o : StepUpOp) : Prop :=
  match o with RaiseRequest _ c _ => c = caps | _ => True end.
Definition within_caps (caps : StepUpRequestPendingCaps) (t : Z) (st : StepUpState) : Prop :=
  forall now, (t <= now)%Z ->
    (forall requester, pending_count requester now st <= per_requester caps)%N /\ (forall human, pending_for_human human now st <= per_human caps)%N.

(** What a request keeps of its row over any operation: who asked, of whom,
    until when; and it never becomes pending again. *)
Definition same_request (r r' : StepUpRequest) : Prop :=
  rq_requester r' = rq_requester r /\ rq_for_human r' = rq_for_human r /\ rq_expires_at r' = rq_expires_at r /\
  (rq_state r' = RsPending -> rq_state r = RsPending).
Lemma pending_mono st st' now now' :
  (now <= now')%Z -> (forall id r', su_requests st' !! id = Some r' -> exists r, su_requests st !! id = Some r /\ same_request r r') ->
  (forall requester, pending_count requester now' st' <= pending_count requester now st)%N /\
  (forall human, pending_for_human human now' st' <= pending_for_human human now st)%N.
Proof.
  intros Ht Hs. split; intros x; apply count_requests_mono; intros id r' Hr' (Hx & Hp & He); destruct (Hs _ _ Hr') as (r & Hr & H1 & H2 & H3 & H4);
    exists r; unfold is_pending_at; (split; [done|split_and!; [congruence|auto|lia]]).
Qed.
Lemma within_caps_mono caps t now st st' :
  (t <= now)%Z -> (forall id r', su_requests st' !! id = Some r' -> exists r, su_requests st !! id = Some r /\ same_request r r') ->
  within_caps caps t st -> within_caps caps now st'.
Proof.
  intros Ht Hs Hw n Hn. destruct (pending_mono st st' n n (Z.le_refl n) Hs) as [H1 H2]. destruct (Hw n) as [W1 W2]; [lia|].
  split; intros x; [specialize (H1 x); specialize (W1 x)|specialize (H2 x); specialize (W2 x)]; lia.
Qed.
Lemma same_requests_insert st id r r' :
  su_requests st !! id = Some r -> same_request r r' ->
  forall id' r0, (<[id := r']> (su_requests st)) !! id' = Some r0 -> exists r1, su_requests st !! id' = Some r1 /\ same_request r1 r0.
Proof.
  intros Hr Hs id' r0. destruct (decide (id' = id)) as [->|Hne]; [rewrite lookup_insert_eq; intros [= <-]; eauto|].
  rewrite lookup_insert_ne by done. intros H0. exists r0. by split.
Qed.
Lemma step_up_op_same_requests st o :
  (forall r caps now, o <> RaiseRequest r caps now) ->
  forall id r', su_requests (step_up_op st o).2 !! id = Some r' -> exists r, su_requests st !! id = Some r /\ same_request r r'.
Proof.
  intros Ho id r'. assert (su_requests st !! id = Some r' -> exists r, su_requests st !! id = Some r /\ same_request r r') as Hsame by (exists r'; by split).
  destruct o as [c|sh p d now|p|k|r caps now|i by_ cid now|i s status summary now|now older]; cbn [step_up_op].
  - unfold put_confirmation. by destruct (existsb _ (su_confirmations st)).
  - unfold consume_action. by destruct (min_by _ _).
  - done.
  - by destruct (delete_for_passkey_effect k st) as [H|H]; cbn [snd] in *; rewrite H.
  - by destruct (Ho r caps now).
  - destruct (begin_execution_cases i by_ cid now st) as [(b & -> & _)|(r & -> & Hr & Hp & _)]; [done|]. by apply (same_requests_insert st i r).
  - cbn [snd]. destruct (finish_request_cases i s status summary now st) as [->|(r & -> & Hr & Hx & Ht)]; [done|].
    apply (same_requests_insert st i r); [done|]. split_and!; try done. cbn. by intros ->.
  - cbn [snd]. rewrite reap_lookup. destruct (su_requests st !! id) as [r|]; [|done]. destruct (kept_request _ _); [|done].
    intros [= <-]. exists r. split; [done|]. destruct (reap_body_same now r) as (H1 & H2 & H3 & H4 & _). unfold same_request. by rewrite H1, H2, H3, H4.
Qed.
Lemma step_up_op_within_caps caps t st o :
  raises_within caps o -> (forall now, op_time o = Some now -> (t <= now)%Z) -> within_caps caps t st ->
  within_caps caps (default t (op_time o)) (step_up_op st o).2.
Proof.
  intros Hc Ht Hw. assert ((exists r c now, o = RaiseRequest r c now) \/ forall r c now, o <> RaiseRequest r c now) as [(r & c & now & ->)|Hn] by (destruct o; eauto; by right).
  - cbn [op_time default from_option id step_up_op] in *. specialize (Ht now eq_refl). cbn in Hc. subst c.
    destruct (raise_request_cases r caps now st) as [(a & -> & _)|(-> & _ & H1 & H2)].
    + apply (within_caps_mono caps t now st st Ht); [|done]. intros id r'. exists r'. by split.
    + intros n Hn. destruct (Hw n) as [W1 W2]; [lia|]. cbn [snd].
      destruct (pending_mono st st now n Hn) as [M1 M2]; [intros id r'; exists r'; by split|].
      split; intros x.
      * unfold pending_count in *. etrans; [apply count_requests_insert|]. specialize (W1 x). specialize (M1 x).
        destruct (decide _) as [[<- _]|]; lia.
      * unfold pending_for_human in *. etrans; [apply count_requests_insert|]. specialize (W2 x). specialize (M2 x).
        destruct (decide _) as [[<- _]|]; lia.
  - apply (within_caps_mono caps t _ st); [destruct (op_time o); cbn; [by apply Ht|lia]| |done].
    by apply step_up_op_same_requests.
Qed.
Lemma step_up_run_cons st o l : (step_up_run st (o :: l)).2 = (step_up_run (step_up_op st o).2 l).2.
Proof. cbn. destruct (step_up_op st o) as [[c r] st1]. cbn. by destruct (step_up_run st1 l) as [[cs rs] st2]. Qed.

(** C33: a requester never has more confirmation requests waiting than its cap
    (ten), nor a human more waiting on them than theirs (twenty). Over any
    sequence of operations from an empty store whose clock never goes back and
    whose raises all use the same caps, the requests pending at the last
    operation's time or any time after it are within both caps. *)
Theorem pending_requests_capped caps t l :
  clock_runs t l -> Forall (raises_within caps) l -> within_caps caps (last_time t l) (step_up_run no_step_ups l).2.
Proof.
  assert (within_caps caps t no_step_ups) as H0 by (intros n _; split; intros x; unfold pending_count, pending_for_human, count_requests; cbn; rewrite map_filter_empty, map_size_empty; lia).
  revert H0. generalize no_step_ups as st. revert t. induction l as [|o l IH]; intros t st Hw Hk Hc; [done|].
  rewrite step_up_run_cons. cbn [last_time]. apply Forall_cons in Hc as [Hc Hl]. cbn [clock_runs] in Hk.
  apply IH; [apply step_up_op_within_caps| |]; try done; destruct (op_time o); cbn; try done; [|by destruct Hk].
  intros ? [= <-]. by destruct Hk.
Qed.
Definition request_of (id : string) : StepUpRequest :=
  mkRequest id (Some "shop") "role.grant" "POST" "/api/bindings" "" (Some "sealed") "digest" JNull "ann" (ByApiToken "t1") None 0
    STEP_UP_REQUEST_TTL_MS RsPending None None None None None None.
Definition full_requester : list StepUpOp := map (fun id => RaiseRequest (request_of id) DEFAULT_CAPS 1) ["a"; "b"; "c"; "d"; "e"; "f"; "g"; "h"; "i"; "j"; "k"].
Lemma pending_requests_capped_witness :
  within_caps DEFAULT_CAPS (last_time 0 full_requester) (step_up_run no_step_ups full_requester).2 /\
  pending_count (ByApiToken "t1") 2 (step_up_run no_step_ups full_requester).2 = 10%N.
Proof.
  split; [|by vm_compute].
  apply pending_requests_capped; [cbn; split_and!; done|unfold full_requester; repeat (constructor; [reflexivity|]); constructor].
Defined.

(** A request as the store may hold it: pending and never touched, begun
    before it expired and stamped with who and which confirmation, or
    finished and its body gone. *)
Definition begun_stamps (r : StepUpRequest) : Prop :=
  is_Some (rq_confirmed_by r) /\ is_Some (rq_confirmation_id r) /\ exists t, rq_confirmed_at r = Some t /\ (t < rq_expires_at r)%Z.
Definition well_formed_request (r : StepUpRequest) : Prop :=
  match rq_state r with
  | RsPending => rq_confirmed_by r = None /\ rq_confirmed_at r = None /\ rq_confirmation_id r = None /\ rq_executed_at r = None /\
                 rq_result_status r = None /\ rq_result_summary r = None
  | RsExecuting => begun_stamps r /\ rq_executed_at r = None /\ rq_result_status r = None /\ rq_result_summary r = None
  | RsExecuted | RsFailed => begun_stamps r /\ is_Some (rq_executed_at r) /\ rq_sealed r = None
  end.
Definition well_formed_requests (st : StepUpState) : Prop := map_Forall (fun id r => rq_id r = id /\ well_formed_request r) (su_requests st).
Definition raises_new (o : StepUpOp) : Prop :=
  match o with RaiseRequest r _ _ => rq_state r = RsPending /\ well_formed_request r | _ => True end.
Lemma reap_body_well_formed now r : well_formed_request r -> well_formed_request (reap_body now r).
Proof. unfold reap_body. destruct (_ || _); [|done]. unfold well_formed_request, unsealed, begun_stamps. cbn. by destruct (rq_state r); intuition. Qed.
Lemma step_up_op_well_formed st o : raises_new o -> well_formed_requests st -> well_formed_requests (step_up_op st o).2.
Proof.
  unfold well_formed_requests. intros Hr Hw. destruct o as [c|sh p d now|p|k|r caps now|i by_ cid now|i s status summary now|now older]; cbn [step_up_op].
  - unfold put_confirmation. by destruct (existsb _ (su_confirmations st)).
  - unfold consume_action. by destruct (min_by _ _).
  - done.
  - by destruct (delete_for_passkey_effect k st) as [H|H]; cbn [snd] in *; rewrite H.
  - destruct (raise_request_cases r caps now st) as [(a & -> & _)|(-> & _)]; [done|]. apply map_Forall_insert_2; [|done]. by destruct Hr.
  - destruct (begin_execution_cases i by_ cid now st) as [(b & -> & _)|(r & -> & Hi & Hp & He)]; [done|]. apply map_Forall_insert_2; [|done].
    destruct (Hw _ _ Hi) as [Hid Hwr]. split; [done|]. unfold well_formed_request in *. rewrite Hp in Hwr. cbn. destruct Hwr as (_ & _ & _ & ? & ? & ?).
    split_and!; try done. cbn. split_and!; [done|done|]. by exists now.
  - cbn [snd]. destruct (finish_request_cases i s status summary now st) as [->|(r & -> & Hi & Hx & Ht)]; [done|]. apply map_Forall_insert_2; [|done].
    destruct (Hw _ _ Hi) as [Hid Hwr]. split; [done|]. unfold well_formed_request in *. rewrite Hx in Hwr. cbn. destruct Hwr as (? & _). by destruct s.
  - cbn [snd]. intros id r. rewrite reap_lookup. destruct (su_requests st !! id) as [r0|] eqn:Hi; [|done]. destruct (kept_request _ _); [|done].
    intros [= <-]. destruct (Hw _ _ Hi) as [Hid Hwr]. split; [|by apply reap_body_well_formed]. unfold reap_body. by destruct (_ || _).
Qed.

(** A confirmation request's life is Pending, Executing, then Executed or
    Failed. Over any sequence of operations whose raises bring in new pending
    rows, every row the store holds is one of: pending and unstamped; begun by
    a named principal under a named confirmation before it expired; or
    finished, with the time it finished and its sealed body gone. *)
Theorem requests_well_formed l : Forall raises_new l -> well_formed_requests (step_up_run no_step_ups l).2.
Proof.
  assert (well_formed_requests no_step_ups) as H0 by apply map_Forall_empty. revert H0. generalize no_step_ups as st.
  induction l as [|o l IH]; intros st Hw Hl; [done|]. apply Forall_cons in Hl as [Ho Hl]. rewrite step_up_run_cons. apply IH; [|done].
  by apply step_up_op_well_formed.
Qed.
Definition executed_request : list StepUpOp :=
  [RaiseRequest (request_of "a") DEFAULT_CAPS 1; BeginExecutionOf "a" "ann" "c1" 2; FinishRequest "a" RsExecuted (Some 200%Z) None 3].
Lemma requests_well_formed_witness :
  well_formed_requests (step_up_run no_step_ups executed_request).2 /\
  (rq_state <$> su_requests (step_up_run no_step_ups executed_request).2 !! "a") = Some RsExecuted.
Proof. split; [|by vm_compute]. apply requests_well_formed. unfold executed_request. repeat (constructor; [cbn; split_and!; reflexivity|]).
  constructor; [done|]. constructor; [done|]. constructor. Defined.

(** ** Passkeys *)

Inductive PasskeyOp : Type :=
| InsertPasskey (p : Passkey)
| RecordUse (id : string) (read_count new_count : N) (backup_state : bool) (now_ms : Z)
| MarkClone (id : string) (now_ms : Z)
| RemovePasskey (principal id : string)
| RemoveAll (principal : string).
(** Which passkey's use was accepted, if one's was. *)
Definition passkey_op (st : PasskeysState) (o : PasskeyOp) : option string * PasskeysState :=
  match o with
  | InsertPasskey p => (None, (insert_passkey p st).2)
  | RecordUse id read new_ bs now => let '(u, st) := record_use id read new_ bs now st in (match u with Recorded => Some id | _ => None end, st)
  | MarkClone id now => (None, (mark_clone id now st).2)
  | RemovePasskey principal id => (None, (remove_passkey principal id st).2)
  | RemoveAll principal => (None, (remove_all principal st).2)
  end.
Fixpoint passkey_run (st : PasskeysState) (l : list PasskeyOp) : list string * PasskeysState :=
  match l with
  | [] => ([], st)
  | o :: l => let '(a, st) := passkey_op st o in let '(accepted, st) := passkey_run st l in (option_list a ++ accepted, st)
  end.
Definition removes (id principal : string) (o : PasskeyOp) : bool :=
  match o with RemovePasskey p i => String.eqb i id && String.eqb principal p | RemoveAll p => String.eqb principal p | _ => false end.

Definition suspected (id principal : string) (t : Z) (count : N) (st : PasskeysState) : Prop :=
  exists p, ps_passkeys st !! id = Some p /\ pk_principal p = principal /\ pk_clone_suspected_at p = Some t /\ pk_sign_count p = count.
Lemma accepts_count_suspected p read new_ t : pk_clone_suspected_at p = Some t -> accepts_count p read new_ = false.
Proof. intros Hp. unfold accepts_count. by rewrite Hp, bool_decide_eq_false_2. Qed.
Lemma suspected_flagged id principal t n st p now :
  suspected id principal t n st -> ps_passkeys st !! id = Some p -> suspected id principal t n (set_passkey (flagged now p) id st).
Proof.
  intros (p0 & H0 & H1 & H2 & H3) Hp. rewrite Hp in H0. injection H0 as ->. exists (flagged now p0). split; [apply lookup_insert_eq|].
  split_and!; try done. cbn. by rewrite H2.
Qed.
Lemma suspected_other id id' principal t n st p : id' <> id -> suspected id principal t n st -> suspected id principal t n (set_passkey p id' st).
Proof. intros Hne (p0 & H0 & H). exists p0. split; [|done]. cbn. by rewrite lookup_insert_ne. Qed.
Lemma passkey_op_suspected id principal t n st o :
  removes id principal o = false -> suspected id principal t n st -> (passkey_op st o).1 <> Some id /\ suspected id principal t n (passkey_op st o).2.
Proof.
  intros Hr Hs. destruct o as [p|i read new_ bs now|i now|q i|q]; cbn [passkey_op removes] in *.
  - split; [done|]. unfold insert_passkey. destruct (_ || _) eqn:E; [done|]. apply orb_false_iff in E as [E _]. apply bool_decide_eq_false in E.
    destruct Hs as (p0 & H0 & H). exists p0. split; [|done]. cbn. rewrite lookup_insert_ne; [done|]. intros He. rewrite He in E. by destruct E; exists p0.
  - unfold record_use. destruct (ps_passkeys st !! i) as [p|] eqn:Hp; [|done]. destruct (decide (i = id)) as [->|Hne].
    + assert (accepts_count p read new_ = false) as ->; [|split; [done|by apply suspected_flagged]].
      destruct Hs as (p0 & H0 & _ & H2 & _). rewrite Hp in H0. injection H0 as ->. by eapply accepts_count_suspected.
    + destruct (accepts_count _ _ _); split; cbn; [congruence| |congruence|]; by apply suspected_other.
  - split; [done|]. unfold mark_clone. destruct (ps_passkeys st !! i) as [p|] eqn:Hp; [|done]. cbn [snd]. destruct (decide (i = id)) as [->|Hne]; [by apply suspected_flagged|].
    by apply suspected_other.
  - split; [done|]. unfold remove_passkey. destruct (ps_passkeys st !! i) as [p|] eqn:Hp; [|done]. destruct (String.eqb_spec (pk_principal p) q) as [<-|]; [|done].
    destruct Hs as (p0 & H0 & H1 & H). exists p0. split; [|done]. cbn. rewrite lookup_delete_ne; [done|]. intros ->. rewrite Hp in H0. injection H0 as ->.
    rewrite H1, !String.eqb_refl in Hr. done.
  - split; [done|]. destruct Hs as (p0 & H0 & H1 & H). exists p0. split; [|done]. cbn. apply map_lookup_filter_Some. split; [done|]. cbn. intros He.
    rewrite <- He, H1, String.eqb_refl in Hr. done.
Qed.

(** A passkey suspected of being cloned is never accepted again. From a
    store that holds it flagged, over any sequence of operations that does not
    remove it, no use of it is recorded, and its row keeps the time it was
    first flagged and the counter it had. *)
Theorem suspected_passkey_refused id principal t n st l :
  suspected id principal t n st -> Forall (fun o => removes id principal o = false) l ->
  (id ∉ (passkey_run st l).1) /\ suspected id principal t n (passkey_run st l).2.
Proof.
  revert st; induction l as [|o l IH]; intros st Hs Hl; cbn [passkey_run]; [split; [apply not_elem_of_nil|done]|].
  apply Forall_cons in Hl as [Ho Hl]. destruct (passkey_op_suspected id principal t n st o Ho Hs) as [Ha Hs'].
  destruct (passkey_op st o) as [a st1]. destruct (IH st1 Hs' Hl) as [Hi Hs'']. destruct (passkey_run st1 l) as [accepted st2]. split; [|done].
  cbn. rewrite elem_of_app. intros [Hin|?]; [|done]. destruct a as [a|]; cbn in Hin; [|by apply not_elem_of_nil in Hin].
  apply list_elem_of_singleton in Hin as ->. by apply Ha.
Qed.
Definition ann_passkey : Passkey := mkPasskey "k1" "ann" "cred1" "" (-7) 4 "laptop" [] None false false 0 "s1" None None None.
Definition after_enrolment : PasskeysState := (passkey_run no_passkeys [InsertPasskey ann_passkey; RecordUse "k1" 4 5 false 1; RecordUse "k1" 5 5 false 2]).2.
Lemma suspected_passkey_refused_witness :
  ~ ("k1" ∈ (passkey_run after_enrolment [RecordUse "k1" 5 9 false 3; InsertPasskey ann_passkey; MarkClone "k1" 4; RecordUse "k1" 5 10 false 5]).1).
Proof.
  apply (suspected_passkey_refused "k1" "ann" 2 5); [|repeat (constructor; [reflexivity|]); constructor].
  eexists. split; [vm_compute; reflexivity|]. split_and!; reflexivity.
Defined.

(** A count is compared with the stored one, not with the counts already
    accepted: of three uses read from counts 4, 5 and 4, the third is accepted
    with the count the first one had. *)
Example same_count_recorded_twice :
  (passkey_run no_passkeys [InsertPasskey ann_passkey; RecordUse "k1" 4 5 false 1; RecordUse "k1" 5 6 false 2; RecordUse "k1" 4 5 false 3]).1
  = ["k1"; "k1"; "k1"].
Proof. vm_compute. reflexivity. Qed.
