(* ===== verification/Refusals.v ===== *)
(** * The refusal limiter (scarab-server/src/step_up/mod.rs)

    [step_up.refused] events, coalesced before they reach the append-only
    OrgSecurityEventLog: at most [REFUSALS_PER_WINDOW] of one key a window,
    the rest counted and written, by target, when the window closes. The
    limiter's map is a hash map, so the order in which closed windows are
    flushed is a parameter. Counters are far from their widths and kept as
    [N]. *)

From S2P Require Import Prelude Text Values StepUp.

Definition REFUSAL_WINDOW_MS : Z := 60 * 1000.
Definition REFUSALS_PER_WINDOW : N := 5.
Definition MAX_REFUSAL_KEYS : nat := N.to_nat 10000.
Definition MAX_SUPPRESSED_TARGETS : nat := 5.
Definition REFUSAL_CLOCK_SKEW_MS : Z := 1000.

(** (org, subject, caller, operation, [detail.reason], [detail.probed_by]). *)
Abbreviation StepUpRefusalKey := (string * string * string * string * string * string)%type.
Definition detail_str (e : SecurityEvent) (k : string) : string := default "" (json_get (sv_detail e) k ≫= json_as_str).
Definition refusal_key (e : SecurityEvent) : StepUpRefusalKey :=
  (default "" (sv_org e), sv_subject e, sv_caller e, default "" (sv_op e), detail_str e "reason", detail_str e "probed_by").

Record SuppressedRefusals := mkSuppressed { sr_newest : SecurityEvent; sr_count : N }.
Record StepUpRefusalBucket := mkBucket {
  rb_window_start : Z;
  rb_recorded : N;
  rb_suppressed : list SuppressedRefusals;
  rb_other_targets : N;
}.
Record StepUpRefusalLimiterState := mkLimiter { rl_buckets : gmap StepUpRefusalKey StepUpRefusalBucket; rl_last_sweep : Z }.
Definition new_bucket (window_start : Z) : StepUpRefusalBucket := mkBucket window_start 0 [] 0.
Definition new_limiter : StepUpRefusalLimiterState := mkLimiter ∅ 0.

Definition with_detail (d : Json) (e : SecurityEvent) : SecurityEvent :=
  mkEvent (sv_seq e) (sv_id e) (sv_org e) (sv_at e) (sv_kind e) (sv_subject e) (sv_caller e) (sv_op e) (sv_target e) (sv_confirmation_id e)
    (sv_request_id e) (sv_passkey_id e) (sv_session_hash e) d.
Definition insert_detail (e : SecurityEvent) (key : string) (n : N) : SecurityEvent :=
  match json_as_object (sv_detail e) with
  | Some d => with_detail (JObj (object_insert d key (JInt (Z.of_N n)))) e
  | None => e
  end.

(** The entry of [event]'s target, counted up. *)
Fixpoint count_up (event : SecurityEvent) (l : list SuppressedRefusals) : option (list SuppressedRefusals) :=
  match l with
  | [] => None
  | s :: l =>
      if bool_decide (sv_target (sr_newest s) = sv_target event) then Some (mkSuppressed event (sr_count s + 1) :: l)
      else cons s <$> count_up event l
  end.
Definition suppress (event : SecurityEvent) (b : StepUpRefusalBucket) : StepUpRefusalBucket :=
  match count_up event (rb_suppressed b) with
  | Some l => mkBucket (rb_window_start b) (rb_recorded b) l (rb_other_targets b)
  | None =>
      if decide (length (rb_suppressed b) < MAX_SUPPRESSED_TARGETS)
      then mkBucket (rb_window_start b) (rb_recorded b) (rb_suppressed b ++ [mkSuppressed event 1]) (rb_other_targets b)
      else mkBucket (rb_window_start b) (rb_recorded b) (rb_suppressed b) (rb_other_targets b + 1)
  end.

(** One target's row, carrying how many others of that target it stands for. *)
Definition suppressed_row (s : SuppressedRefusals) : SecurityEvent :=
  if (1 <? sr_count s)%N then insert_detail (sr_newest s) "suppressed_before" (sr_count s - 1) else sr_newest s.
Definition rides_on (carrier : option SecurityEvent) (s : SuppressedRefusals) : bool :=
  match carrier with Some c => bool_decide (sv_target c = sv_target (sr_newest s)) | None => false end.
Definition drain_step (acc : list SecurityEvent * option SecurityEvent) (s : SuppressedRefusals) : list SecurityEvent * option SecurityEvent :=
  if rides_on acc.2 s then (acc.1, (fun c => insert_detail c "suppressed_before" (sr_count s)) <$> acc.2)
  else (acc.1 ++ [suppressed_row s], acc.2).
(** The refusals past the cap ride on the last row, or on the carrier. *)
Definition note_other_targets (other : N) (rows : list SecurityEvent) (carrier : option SecurityEvent)
    : list SecurityEvent * option SecurityEvent :=
  if (other =? 0)%N then (rows, carrier)
  else match last rows with
       | Some e => (removelast rows ++ [insert_detail e "suppressed_other_targets" other], carrier)
       | None => (rows, (fun c => insert_detail c "suppressed_other_targets" other) <$> carrier)
       end.
Definition drain (carrier : option SecurityEvent) (b : StepUpRefusalBucket)
    : (list SecurityEvent * option SecurityEvent) * StepUpRefusalBucket :=
  let '(rows, carrier) := foldl drain_step ([], carrier) (rb_suppressed b) in
  (note_other_targets (rb_other_targets b) rows carrier, mkBucket (rb_window_start b) (rb_recorded b) [] 0).

Definition window_closed (start now : Z) : bool :=
  (REFUSAL_CLOCK_SKEW_MS <? start - now)%Z || (REFUSAL_WINDOW_MS <=? now - start)%Z.

Section limiter.
(** The entries of a hash map, in the order it yields them. *)
Context (entries : gmap StepUpRefusalKey StepUpRefusalBucket -> list (StepUpRefusalKey * StepUpRefusalBucket)).

Definition stays (key : StepUpRefusalKey) (now : Z) (kv : StepUpRefusalKey * StepUpRefusalBucket) : bool :=
  bool_decide (kv.1 = key) || negb (window_closed (rb_window_start kv.2) now).
Definition sweep (key : StepUpRefusalKey) (now : Z) (st : StepUpRefusalLimiterState) : list SecurityEvent * StepUpRefusalLimiterState :=
  let dropped := List.filter (fun kv => negb (stays key now kv)) (entries (rl_buckets st)) in
  (concat (map (fun kv => (drain None kv.2).1.1) dropped),
   mkLimiter (filter (fun kv => stays key now kv = true) (rl_buckets st)) now).

(** This key's bucket, a new window opened if its own has closed. *)
Definition reopened (now : Z) (b : StepUpRefusalBucket) : StepUpRefusalBucket :=
  if window_closed (rb_window_start b) now then mkBucket now 0 (rb_suppressed b) (rb_other_targets b) else b.
Definition admit_to_bucket (event : SecurityEvent) (b : StepUpRefusalBucket) : list SecurityEvent * StepUpRefusalBucket :=
  if (rb_recorded b <? REFUSALS_PER_WINDOW)%N then
    let '((rows, carrier), b) := drain (Some event) (mkBucket (rb_window_start b) (rb_recorded b + 1) (rb_suppressed b) (rb_other_targets b)) in
    (rows ++ option_list carrier, b)
  else ([], suppress event b).
(** A new key, and as many keys as may be coalesced at once. *)
Definition limiter_full (key : StepUpRefusalKey) (st : StepUpRefusalLimiterState) : bool :=
  bool_decide (rl_buckets st !! key = None) && bool_decide (MAX_REFUSAL_KEYS <= size (rl_buckets st)).
Definition admit_refusal (event : SecurityEvent) (st : StepUpRefusalLimiterState) : list SecurityEvent * StepUpRefusalLimiterState :=
  let now := sv_at event in
  let key := refusal_key event in
  let '(out, st) := if limiter_full key st || window_closed (rl_last_sweep st) now then sweep key now st else ([], st) in
  if limiter_full key st then (out ++ [event], st)
  else
    let b := reopened now (default (new_bucket now) (rl_buckets st !! key)) in
    let '(rows, b) := admit_to_bucket event b in
    (out ++ rows, mkLimiter (<[key := b]> (rl_buckets st)) (rl_last_sweep st)).

Fixpoint admit_all (l : list SecurityEvent) (st : StepUpRefusalLimiterState) : list SecurityEvent * StepUpRefusalLimiterState :=
  match l with
  | [] => ([], st)
  | e :: l => let '(out, st) := admit_refusal e st in let '(rest, st) := admit_all l st in (out ++ rest, st)
  end.
End limiter.

(** ** What a row stands for *)

Definition detail_count (e : SecurityEvent) (k : string) : nat :=
  match json_get (sv_detail e) k with Some (JInt z) => Z.to_nat z | _ => 0 end.
(** How many refusals a row of the log stands for: itself, and those it says
    it carries. *)
Definition weight (e : SecurityEvent) : nat := 1 + detail_count e "suppressed_before" + detail_count e "suppressed_other_targets".
Definition total_weight (l : list SecurityEvent) : nat := sum_list_with weight l.
(** A refusal as its caller makes it: its detail an object that carries no
    count yet. *)
Definition plain_refusal (e : SecurityEvent) : Prop :=
  (exists d, sv_detail e = JObj d) /\ json_get (sv_detail e) "suppressed_before" = None /\ json_get (sv_detail e) "suppressed_other_targets" = None.
Definition pending_of (b : StepUpRefusalBucket) : nat :=
  sum_list_with (fun s => N.to_nat (sr_count s)) (rb_suppressed b) + N.to_nat (rb_other_targets b).
Definition total_pending (m : gmap StepUpRefusalKey StepUpRefusalBucket) : nat := sum_list_with (fun kv => pending_of kv.2) (map_to_list m).

(** What a bucket may hold, under its key. *)
Record bucket_ok (key : StepUpRefusalKey) (b : StepUpRefusalBucket) : Prop := {
  bo_plain : Forall (fun s => plain_refusal (sr_newest s) /\ refusal_key (sr_newest s) = key /\ (1 <= sr_count s)%N) (rb_suppressed b);
  bo_targets : NoDup (map (fun s => sv_target (sr_newest s)) (rb_suppressed b));
  bo_length : length (rb_suppressed b) <= MAX_SUPPRESSED_TARGETS;
  bo_other : (0 < rb_other_targets b)%N -> rb_suppressed b <> [];
}.
Definition limiter_ok (st : StepUpRefusalLimiterState) : Prop := map_Forall bucket_ok (rl_buckets st).

Lemma insert_detail_get e k n d k' :
  sv_detail e = JObj d -> json_get (sv_detail (insert_detail e k n)) k' = if String.eqb k' k then Some (JInt (Z.of_N n)) else json_get (sv_detail e) k'.
Proof. intros Hd. unfold insert_detail. rewrite Hd. cbn [json_as_object sv_detail with_detail]. apply json_get_insert. Qed.
Lemma insert_detail_object e k n : (exists d, sv_detail e = JObj d) -> exists d, sv_detail (insert_detail e k n) = JObj d.
Proof. intros [d Hd]. unfold insert_detail. rewrite Hd. by eexists. Qed.
Lemma insert_detail_same e k n : sv_org (insert_detail e k n) = sv_org e /\ sv_subject (insert_detail e k n) = sv_subject e /\
  sv_caller (insert_detail e k n) = sv_caller e /\ sv_op (insert_detail e k n) = sv_op e /\ sv_target (insert_detail e k n) = sv_target e /\
  sv_at (insert_detail e k n) = sv_at e.
Proof. unfold insert_detail. by destruct (json_as_object _). Qed.
(** The counts are not among what a refusal is coalesced by. *)
Lemma insert_detail_key e k n : k <> "reason" -> k <> "probed_by" -> refusal_key (insert_detail e k n) = refusal_key e.
Proof.
  intros H1 H2. unfold refusal_key, detail_str. destruct (insert_detail_same e k n) as (-> & -> & -> & -> & _).
  unfold insert_detail. destruct (json_as_object (sv_detail e)) as [d|] eqn:Hd; [|done]. assert (sv_detail e = JObj d) as -> by (destruct (sv_detail e); naive_solver).
  cbn [sv_detail with_detail]. rewrite !json_get_insert. by destruct (String.eqb_spec "reason" k), (String.eqb_spec "probed_by" k).
Qed.
Lemma insert_before_weight e n :
  (exists d, sv_detail e = JObj d) -> json_get (sv_detail e) "suppressed_before" = None -> weight (insert_detail e "suppressed_before" n) = weight e + N.to_nat n.
Proof. intros [d Hd] Hn. unfold weight, detail_count. rewrite !(insert_detail_get _ _ _ d) by done. rewrite Hn. cbn. lia. Qed.
Lemma insert_other_weight e n :
  (exists d, sv_detail e = JObj d) -> json_get (sv_detail e) "suppressed_other_targets" = None ->
  weight (insert_detail e "suppressed_other_targets" n) = weight e + N.to_nat n.
Proof. intros [d Hd] Hn. unfold weight, detail_count. rewrite !(insert_detail_get _ _ _ d) by done. rewrite Hn. cbn. lia. Qed.
Lemma plain_weight e : plain_refusal e -> weight e = 1.
Proof. intros (_ & H1 & H2). unfold weight, detail_count. by rewrite H1, H2. Qed.

Lemma total_weight_app l k : total_weight (l ++ k) = total_weight l + total_weight k.
Proof. apply sum_list_with_app. Qed.
Lemma total_weight_one e : total_weight [e] = weight e.
Proof. apply Nat.add_0_r. Qed.
Lemma option_list_some {A} (x : A) : option_list (Some x) = [x].
Proof. done. Qed.
Definition sum_counts (l : list SuppressedRefusals) : nat := sum_list_with (fun s => N.to_nat (sr_count s)) l.
Lemma sum_counts_cons s l : sum_counts (s :: l) = N.to_nat (sr_count s) + sum_counts l.
Proof. done. Qed.
(** An event a count may still be put on. *)
Definition open_row (key : StepUpRefusalKey) (e : SecurityEvent) : Prop :=
  (exists d, sv_detail e = JObj d) /\ json_get (sv_detail e) "suppressed_other_targets" = None /\ refusal_key e = key.
Definition ok_entry (key : StepUpRefusalKey) (s : SuppressedRefusals) : Prop :=
  plain_refusal (sr_newest s) /\ refusal_key (sr_newest s) = key /\ (1 <= sr_count s)%N.
Lemma insert_before_open key e n : open_row key e -> open_row key (insert_detail e "suppressed_before" n).
Proof.
  intros ([d Hd] & Ho & Hk). split_and!; [eapply insert_detail_object; eauto| |by rewrite insert_detail_key].
  by rewrite (insert_detail_get _ _ _ d).
Qed.
Lemma suppressed_row_spec key s : ok_entry key s -> weight (suppressed_row s) = N.to_nat (sr_count s) /\ open_row key (suppressed_row s).
Proof.
  intros (Hp & Hk & Hc). pose proof (plain_weight _ Hp) as Hw. destruct Hp as (Hd & H1 & H2). assert (open_row key (sr_newest s)) as Ho by done.
  unfold suppressed_row. destruct (N.ltb_spec 1 (sr_count s)).
  - rewrite insert_before_weight by done. split; [lia|by apply insert_before_open].
  - split; [lia|done].
Qed.

Lemma drain_step_row rows c s : rides_on c s = false -> drain_step (rows, c) s = (rows ++ [suppressed_row s], c).
Proof. intros H. unfold drain_step. cbn [fst snd]. by rewrite H. Qed.
Lemma drain_step_ride rows c s : rides_on (Some c) s = true -> drain_step (rows, Some c) s = (rows, Some (insert_detail c "suppressed_before" (sr_count s))).
Proof. intros H. unfold drain_step. cbn [fst snd]. by rewrite H. Qed.

(** A drained bucket's rows, and what rides on the carrier. *)
Lemma drain_fold key ck l rows c :
  Forall (ok_entry key) l -> NoDup (map (fun s => sv_target (sr_newest s)) l) -> Forall (open_row key) rows ->
  (forall c0, c = Some c0 -> open_row ck c0 /\
     (json_get (sv_detail c0) "suppressed_before" = None \/ Forall (fun s => sv_target (sr_newest s) <> sv_target c0) l)) ->
  let '(rows', c') := foldl drain_step (rows, c) l in
  total_weight (rows' ++ option_list c') = total_weight (rows ++ option_list c) + sum_counts l /\
  Forall (open_row key) rows' /\ length rows <= length rows' <= length rows + length l /\ (l <> [] -> rows' <> [] \/ is_Some c') /\
  (is_Some c' <-> is_Some c) /\ (forall c0, c' = Some c0 -> open_row ck c0).
Proof.
  revert rows c; induction l as [|s l IH]; intros rows c Hl Hn Hr Hc; cbn [foldl].
  { unfold sum_counts. cbn. split_and!; try done; [lia..|]. intros c0 H. by destruct (Hc c0 H). }
  apply Forall_cons in Hl as [Hs Hl]. apply NoDup_cons in Hn as [Hin Hn]. destruct (suppressed_row_spec key s Hs) as [Hw Ho].
  destruct (rides_on c s) eqn:Er.
  - destruct c as [c0|]; [|done]. rewrite drain_step_ride by done. cbn in Er. apply bool_decide_eq_true in Er. destruct (Hc c0 eq_refl) as [Hco [Hb|Hf]]; [|by apply Forall_cons in Hf as [[] _]].
    specialize (IH rows (Some (insert_detail c0 "suppressed_before" (sr_count s))) Hl Hn Hr).
    assert (open_row ck (insert_detail c0 "suppressed_before" (sr_count s))) as Hco' by by apply insert_before_open.
    destruct (foldl drain_step _ l) as [rows' c']. destruct IH as (I1 & I2 & I3 & I4 & I5 & I6).
    { intros ? [= <-]. split; [done|right]. destruct (insert_detail_same c0 "suppressed_before" (sr_count s)) as (_ & _ & _ & _ & -> & _).
      rewrite Er. apply Forall_forall. intros s' Hs' He. apply Hin. rewrite <- He. apply list_elem_of_fmap. by exists s'. }
    split_and!; try done; [|cbn; lia..| |].
    + rewrite I1, !total_weight_app. rewrite (option_list_some c0), option_list_some, !total_weight_one, sum_counts_cons, insert_before_weight; [lia|by destruct Hco|done].
    + intros _. right. apply I5. by eexists.
    + rewrite I5. split; intros _; by eexists.
  - specialize (IH (rows ++ [suppressed_row s]) c Hl Hn). rewrite drain_step_row by done.
    destruct (foldl drain_step _ l) as [rows' c']. destruct IH as (I1 & I2 & I3 & I4 & I5 & I6).
    + apply Forall_app. split; [done|by apply Forall_singleton].
    + intros c0 ->. destruct (Hc c0 eq_refl) as [? [?|[_ Hf]%Forall_cons]]; split; auto.
    + rewrite length_app in I3. cbn in I3. split_and!; try done; [|cbn; lia..|].
      * rewrite I1, !total_weight_app, total_weight_one, sum_counts_cons, Hw. lia.
      * intros _. left. intros ->. cbn in I3. lia.
Qed.

Lemma bucket_entries key b : bucket_ok key b -> Forall (ok_entry key) (rb_suppressed b).
Proof. intros Hb. eapply Forall_impl; [apply (bo_plain _ _ Hb)|]. done. Qed.
Lemma insert_other_open_key key e n : open_row key e -> refusal_key (insert_detail e "suppressed_other_targets" n) = key.
Proof. intros (_ & _ & Hk). by rewrite insert_detail_key. Qed.

(** Draining a bucket loses no refusal, writes a row of the bucket's key per
    target at most, and leaves the carrier under its own key. *)
Lemma drain_spec key b carrier :
  bucket_ok key b -> (forall c, carrier = Some c -> plain_refusal c) ->
  let '((rows, carrier'), b') := drain carrier b in
  total_weight (rows ++ option_list carrier') = pending_of b + length (option_list carrier) /\
  Forall (fun e => refusal_key e = key) rows /\ length rows <= length (rb_suppressed b) /\
  refusal_key <$> carrier' = refusal_key <$> carrier /\
  b' = mkBucket (rb_window_start b) (rb_recorded b) [] 0.
Proof.
  intros Hb Hc. unfold drain.
  assert (forall ck, (forall c0, carrier = Some c0 -> refusal_key c0 = ck) -> forall c0, carrier = Some c0 -> open_row ck c0 /\
    (json_get (sv_detail c0) "suppressed_before" = None \/ Forall (fun s => sv_target (sr_newest s) <> sv_target c0) (rb_suppressed b))) as Hopen.
  { intros ck Hck c0 H. destruct (Hc _ H) as (? & ? & ?). repeat split; auto. }
  assert (total_weight (option_list carrier) = length (option_list carrier)) as Hlen.
  { destruct carrier as [c|]; [|done]. by rewrite option_list_some, total_weight_one, (plain_weight _ (Hc c eq_refl)). }
  assert (exists ck, forall c0, carrier = Some c0 -> refusal_key c0 = ck) as [ck Hck].
  { destruct carrier as [c|]; [exists (refusal_key c); by intros ? [= ->]|by exists key]. }
  pose proof (drain_fold key ck (rb_suppressed b) [] carrier (bucket_entries _ _ Hb) (bo_targets _ _ Hb) (Forall_nil_2 _) (Hopen ck Hck)) as Hf.
  destruct (foldl drain_step ([], carrier) (rb_suppressed b)) as [rows c']. destruct Hf as (H1 & H2 & H3 & H4 & H5 & H6).
  rewrite app_nil_l, Hlen in H1.
  assert (refusal_key <$> c' = refusal_key <$> carrier) as Hkc.
  { destruct c' as [c'|], carrier as [c|]; [|by destruct (proj1 H5 ltac:(by eexists))|by destruct (proj2 H5 ltac:(by eexists))|done].
    cbn. by rewrite (Hck c eq_refl), (proj2 (proj2 (H6 c' eq_refl))). }
  assert (Forall (fun e => refusal_key e = key) rows) as Hrk by (eapply Forall_impl; [exact H2|]; by intros e (_ & _ & ?)).
  unfold note_other_targets, pending_of. change (sum_list_with _ (rb_suppressed b)) with (sum_counts (rb_suppressed b)).
  destruct (N.eqb_spec (rb_other_targets b) 0) as [Hz|Hz].
  { rewrite Hz. split_and!; [lia|done|cbn in H3; lia|done|done]. }
  destruct rows as [|e rows _] using rev_ind.
  - destruct c' as [c'|]; [|by destruct (H4 (bo_other _ _ Hb ltac:(lia))) as [?|[? ?]]]. cbn [last fmap option_fmap option_map].
    destruct (H6 c' eq_refl) as (Hd & Ho & Hk). cbn [app] in *. rewrite option_list_some, total_weight_one, insert_other_weight in * by done.
    split_and!; [lia|done|cbn; lia| |done]. rewrite <- Hkc. cbn. by rewrite insert_detail_key.
  - rewrite last_snoc, removelast_last. apply Forall_app in H2 as [_ He]. apply (proj1 (Forall_singleton (open_row key) e)) in He. apply Forall_app in Hrk as [Hrk _].
    pose proof He as (Hd & Ho & _). rewrite !total_weight_app, total_weight_one in *. rewrite insert_other_weight by done.
    rewrite !length_app in *. split_and!; [lia| |cbn in *; lia|done|done].
    apply Forall_app. split; [done|]. apply Forall_singleton. by apply insert_other_open_key.
Qed.

Lemma count_up_spec key e l :
  Forall (ok_entry key) l -> plain_refusal e -> refusal_key e = key ->
  match count_up e l with
  | Some l' => Forall (ok_entry key) l' /\ map (fun s => sv_target (sr_newest s)) l' = map (fun s => sv_target (sr_newest s)) l /\
               sum_counts l' = S (sum_counts l)
  | None => sv_target e ∉ map (fun s => sv_target (sr_newest s)) l
  end.
Proof.
  intros Hl He Hk. induction Hl as [|s l Hs Hl IH]; cbn [count_up]; [apply not_elem_of_nil|].
  case_bool_decide as Ht.
  - split_and!; [constructor; [|done]; split_and!; try done; cbn; lia|cbn; by rewrite Ht|]. rewrite !sum_counts_cons. cbn. lia.
  - destruct (count_up e l) as [l'|]; cbn [fmap option_fmap option_map].
    + destruct IH as (I1 & I2 & I3). split_and!; [by constructor|cbn; by rewrite I2|]. rewrite !sum_counts_cons. lia.
    + cbn [map]. rewrite not_elem_of_cons. split; [congruence|done].
Qed.
Lemma suppress_spec key e b :
  bucket_ok key b -> plain_refusal e -> refusal_key e = key ->
  bucket_ok key (suppress e b) /\ pending_of (suppress e b) = S (pending_of b) /\
  rb_window_start (suppress e b) = rb_window_start b /\ rb_recorded (suppress e b) = rb_recorded b.
Proof.
  intros Hb He Hk. pose proof (count_up_spec key e (rb_suppressed b) (bucket_entries _ _ Hb) He Hk) as Hc. unfold suppress.
  destruct (count_up e (rb_suppressed b)) as [l'|].
  - destruct Hc as (H1 & H2 & H3). assert (length l' = length (rb_suppressed b)) as Hlen by (rewrite <- (length_map (fun s => sv_target (sr_newest s)) l'), H2; apply length_map).
    split_and!; [|unfold pending_of, sum_counts in *; cbn; lia|done|done]. split; cbn; [done|rewrite H2; apply Hb|rewrite Hlen; apply Hb|].
    intros Ho%(bo_other _ _ Hb) ->. cbn in Hlen. by destruct (rb_suppressed b).
  - destruct (decide _) as [Hlt|Hge]; split_and!; try done.
    + split; cbn [rb_suppressed rb_other_targets].
      * apply Forall_app. split; [apply Hb|]. apply Forall_singleton. cbn. split_and!; try done; lia.
      * rewrite map_app. apply NoDup_app. split_and!; [apply Hb|by intros x Hx ->%list_elem_of_singleton|apply NoDup_singleton].
      * rewrite length_app. cbn. lia.
      * intros _. by destruct (rb_suppressed b).
    + unfold pending_of. cbn. rewrite sum_list_with_app. cbn. lia.
    + split; cbn; [apply Hb..|]. intros _ He0. rewrite He0 in Hge. cbn in Hge. unfold MAX_SUPPRESSED_TARGETS in Hge. lia.
    + unfold pending_of. cbn. lia.
Qed.

(** How many more rows a bucket may write while its window is open. *)
Definition budget (b : StepUpRefusalBucket) : nat :=
  if (rb_recorded b <? REFUSALS_PER_WINDOW)%N then N.to_nat (REFUSALS_PER_WINDOW - rb_recorded b) + length (rb_suppressed b) else 0.
Lemma admit_to_bucket_spec key e b :
  bucket_ok key b -> plain_refusal e -> refusal_key e = key ->
  let '(rows, b') := admit_to_bucket e b in
  total_weight rows + pending_of b' = S (pending_of b) /\ bucket_ok key b' /\ Forall (fun e => refusal_key e = key) rows /\
  rb_window_start b' = rb_window_start b /\ length rows + budget b' <= budget b.
Proof.
  intros Hb He Hk. unfold admit_to_bucket, budget. destruct (N.ltb_spec (rb_recorded b) REFUSALS_PER_WINDOW) as [Hr|Hr].
  - set (b1 := mkBucket (rb_window_start b) (rb_recorded b + 1) (rb_suppressed b) (rb_other_targets b)).
    assert (bucket_ok key b1) as Hb1 by (split; apply Hb).
    pose proof (drain_spec key b1 (Some e) Hb1) as Hd. destruct (drain (Some e) b1) as [[rows c'] b'].
    destruct Hd as (H1 & H2 & H3 & H4 & ->); [by intros ? [= <-]|]. rewrite H1. change (pending_of b1) with (pending_of b). cbn [length option_list from_option].
    destruct c' as [c'|]; [|done]. change (Some (refusal_key c') = Some (refusal_key e)) in H4. apply (inj Some) in H4.
    split_and!; try done.
    + unfold pending_of at 2. cbn. lia.
    + split; cbn; [done|apply NoDup_nil_2|unfold MAX_SUPPRESSED_TARGETS; lia|lia].
    + apply Forall_app. split; [done|]. apply Forall_singleton. congruence.
    + rewrite length_app. cbn in *. destruct (N.ltb_spec (rb_recorded b + 1) REFUSALS_PER_WINDOW); lia.
  - destruct (suppress_spec key e b Hb He Hk) as (H1 & H2 & H3 & H4). split_and!; try done. rewrite H4. destruct (N.ltb_spec (rb_recorded b) REFUSALS_PER_WINDOW); cbn; lia.
Qed.

(** ** The map of buckets *)

Lemma total_pending_insert m k b : m !! k = None -> total_pending (<[k := b]> m) = pending_of b + total_pending m.
Proof. intros Hk. unfold total_pending. by rewrite map_to_list_insert. Qed.
Lemma total_pending_delete m k b : m !! k = Some b -> total_pending m = pending_of b + total_pending (delete k m).
Proof. intros Hk. rewrite <- (insert_delete_id m k b Hk) at 1. apply total_pending_insert, lookup_delete_eq. Qed.
Lemma total_pending_set m k b : total_pending (<[k := b]> m) + pending_of (default (new_bucket 0) (m !! k)) = pending_of b + total_pending m.
Proof.
  destruct (m !! k) as [b0|] eqn:E; cbn [default from_option id].
  - rewrite <- insert_delete_eq, total_pending_insert by apply lookup_delete_eq. rewrite (total_pending_delete m k b0 E). lia.
  - rewrite total_pending_insert by done. unfold pending_of at 2. cbn. lia.
Qed.
Lemma sum_concat_weight (l : list (StepUpRefusalKey * StepUpRefusalBucket)) :
  Forall (fun kv => bucket_ok kv.1 kv.2) l -> total_weight (concat (map (fun kv => (drain None kv.2).1.1) l)) = sum_list_with (fun kv => pending_of kv.2) l.
Proof.
  induction 1 as [|[k b] l Hb Hl IH]; [done|]. cbn [map concat]. rewrite total_weight_app, IH. cbn [fst snd] in *.
  pose proof (drain_spec k b None Hb) as Hd. destruct (drain None b) as [[rows c'] b']. destruct Hd as (H1 & _ & _ & H4 & _); [done|].
  destruct c'; [done|]. change (option_list None) with (@nil SecurityEvent) in H1. rewrite app_nil_r in H1. cbn [sum_list_with snd fst] in *. rewrite H1. cbn. lia.
Qed.
Lemma sum_split {A} (p : A -> bool) f (l : list A) :
  sum_list_with f (List.filter p l) + sum_list_with f (List.filter (fun x => negb (p x)) l) = sum_list_with f l.
Proof. induction l as [|x l IH]; cbn; [done|]. destruct (p x); cbn; lia. Qed.
Lemma map_to_list_filter_perm (p : StepUpRefusalKey * StepUpRefusalBucket -> bool) m :
  map_to_list (filter (fun kv => p kv = true) m) ≡ₚ List.filter p (map_to_list m).
Proof.
  apply NoDup_Permutation; [apply NoDup_map_to_list| |].
  - apply NoDup_ListNoDup, List.NoDup_filter, NoDup_ListNoDup, NoDup_map_to_list.
  - intros [k b]. rewrite elem_of_map_to_list, map_lookup_filter_Some, list_elem_of_In, filter_In, <- list_elem_of_In, elem_of_map_to_list. done.
Qed.

Lemma list_filter_perm {A} (p : A -> bool) l k : l ≡ₚ k -> List.filter p l ≡ₚ List.filter p k.
Proof.
  induction 1 as [|x l k _ IH|x y l|l k m _ IH1 _ IH2]; cbn; [done| |destruct (p x), (p y); try done; apply Permutation_swap|by transitivity (List.filter p k)].
  destruct (p x); by rewrite IH.
Qed.

Section conservation.
Context (entries : gmap StepUpRefusalKey StepUpRefusalBucket -> list (StepUpRefusalKey * StepUpRefusalBucket)).
Context (entries_all : forall m, entries m ≡ₚ map_to_list m).

Lemma entries_ok (m : gmap StepUpRefusalKey StepUpRefusalBucket) p : map_Forall bucket_ok m -> Forall (fun kv => bucket_ok kv.1 kv.2) (List.filter p (entries m)).
Proof.
  intros Hm. apply Forall_forall. intros [k b] [Hin _]%list_elem_of_In%filter_In. apply list_elem_of_In in Hin. rewrite entries_all in Hin.
  apply elem_of_map_to_list in Hin. by apply Hm.
Qed.
Lemma sweep_spec key now st :
  limiter_ok st ->
  let '(out, st') := sweep entries key now st in
  total_weight out + total_pending (rl_buckets st') = total_pending (rl_buckets st) /\ limiter_ok st' /\
  Forall (fun e => exists b, rl_buckets st !! refusal_key e = Some b /\ stays key now (refusal_key e, b) = false) out /\
  (forall k, rl_buckets st' !! k = match rl_buckets st !! k with Some b => if stays key now (k, b) then Some b else None | None => None end).
Proof.
  intros Hst. unfold sweep. cbn [rl_buckets]. split_and!.
  - rewrite sum_concat_weight by by apply entries_ok. unfold total_pending. rewrite map_to_list_filter_perm.
    rewrite <- (sum_split (stays key now) (fun kv => pending_of kv.2) (map_to_list (rl_buckets st))), Nat.add_comm. f_equal.
    apply sum_list_with_Permutation_proper, list_filter_perm, entries_all.
  - intros k b [Hk _]%map_lookup_filter_Some. by apply Hst.
  - apply Forall_forall. intros e (rows & Hr & He)%list_elem_of_In%in_concat. apply list_elem_of_In in He, Hr.
    apply list_elem_of_fmap in Hr as ([k b] & -> & Hkv).
    pose proof (entries_ok _ (fun kv => negb (stays key now kv)) Hst) as Hok. rewrite Forall_forall in Hok. pose proof (Hok _ Hkv) as Hb. cbn [fst snd] in *.
    apply list_elem_of_In, filter_In in Hkv as [Hin Hs]. apply list_elem_of_In in Hin. rewrite entries_all in Hin. apply elem_of_map_to_list in Hin.
    pose proof (drain_spec k b None Hb) as Hd. destruct (drain None b) as [[rows c'] b']. destruct Hd as (_ & H2 & _); [done|].
    rewrite Forall_forall in H2. rewrite (H2 e He). exists b. split; [done|]. by apply negb_true_iff.
  - intros k. rewrite map_lookup_filter. destruct (rl_buckets st !! k) as [b|]; cbn; [|done]. destruct (stays key now (k, b)) eqn:E; by case_guard.
Qed.

Lemma reopened_ok key now st :
  limiter_ok st -> let b := default (new_bucket now) (rl_buckets st !! key) in
  bucket_ok key (reopened now b) /\ pending_of (reopened now b) = pending_of (default (new_bucket 0) (rl_buckets st !! key)).
Proof.
  intros Hst. cbv zeta. unfold reopened. destruct (rl_buckets st !! key) as [b0|] eqn:E; cbn [default from_option id].
  - pose proof (Hst _ _ E) as H0. destruct (window_closed _ _); [|done]. split; [|done]. split; apply H0.
  - assert (bucket_ok key (new_bucket now)) as Hn by (split; cbn; [constructor|constructor|unfold MAX_SUPPRESSED_TARGETS; lia|lia]).
    destruct (window_closed _ _); (split; [exact Hn|done]).
Qed.
Lemma admit_spec e st :
  limiter_ok st -> plain_refusal e ->
  let '(out, st') := admit_refusal entries e st in
  total_weight out + total_pending (rl_buckets st') = S (total_pending (rl_buckets st)) /\ limiter_ok st'.
Proof.
  intros Hst He. unfold admit_refusal.
  set (swept := if _ || _ then _ else _).
  assert (total_weight swept.1 + total_pending (rl_buckets swept.2) = total_pending (rl_buckets st) /\ limiter_ok swept.2) as [H1 H2].
  { unfold swept. destruct (_ || _); [|done]. pose proof (sweep_spec (refusal_key e) (sv_at e) st Hst) as Hs. by destruct (sweep _ _ _ _), Hs as (? & ? & _). }
  destruct swept as [out st1]. cbn [fst snd] in *. destruct (limiter_full _ st1).
  { rewrite total_weight_app, total_weight_one, (plain_weight _ He). split; [lia|done]. }
  set (b := reopened _ _).
  destruct (reopened_ok (refusal_key e) (sv_at e) st1 H2) as [Hb Hp]. fold b in Hb, Hp.
  pose proof (admit_to_bucket_spec _ e b Hb He eq_refl) as Ha. destruct (admit_to_bucket e b) as [rows b']. destruct Ha as (A1 & A2 & _).
  cbn [rl_buckets]. pose proof (total_pending_set (rl_buckets st1) (refusal_key e) b'). rewrite total_weight_app. split; [lia|].
  by apply map_Forall_insert_2.
Qed.
Lemma admit_all_spec l st :
  limiter_ok st -> Forall plain_refusal l ->
  let '(out, st') := admit_all entries l st in
  total_weight out + total_pending (rl_buckets st') = total_pending (rl_buckets st) + length l /\ limiter_ok st'.
Proof.
  revert st; induction l as [|e l IH]; intros st Hst Hl; cbn [admit_all]; [cbn; split; [lia|done]|]. apply Forall_cons in Hl as [He Hl].
  pose proof (admit_spec e st Hst He) as Ha. destruct (admit_refusal entries e st) as [out st1]. destruct Ha as [A1 A2]. specialize (IH st1 A2 Hl).
  destruct (admit_all entries l st1) as [rest st2]. destruct IH as [I1 I2]. rewrite total_weight_app. cbn. split; [lia|done].
Qed.
Lemma new_limiter_ok : limiter_ok new_limiter.
Proof. apply map_Forall_empty. Qed.

Definition rows_of (key : StepUpRefusalKey) (out : list SecurityEvent) : nat := length (List.filter (fun e => bool_decide (refusal_key e = key)) out).
Lemma rows_of_app key l k : rows_of key (l ++ k) = rows_of key l + rows_of key k.
Proof. unfold rows_of. by rewrite List.filter_app, length_app. Qed.
Lemma rows_of_le key l : rows_of key l <= length l.
Proof. unfold rows_of. induction l as [|e l IH]; cbn; [lia|]. destruct (bool_decide _); cbn; lia. Qed.
Lemma rows_of_none key l : Forall (fun e => refusal_key e <> key) l -> rows_of key l = 0.
Proof. unfold rows_of. induction 1 as [|e l He _ IH]; [done|]. cbn [List.filter]. rewrite bool_decide_eq_false_2 by done. done. Qed.

(** The bucket of an open window stays, and its budget pays for its rows. *)
Lemma admit_rate key b e st :
  limiter_ok st -> plain_refusal e -> rl_buckets st !! key = Some b -> window_closed (rb_window_start b) (sv_at e) = false ->
  let '(out, st') := admit_refusal entries e st in
  exists b', rl_buckets st' !! key = Some b' /\ rb_window_start b' = rb_window_start b /\ rows_of key out + budget b' <= budget b.
Proof.
  intros Hst He Hk Hw. unfold admit_refusal. set (swept := if _ || _ then _ else _).
  assert (limiter_ok swept.2 /\ rl_buckets swept.2 !! key = Some b /\ rows_of key swept.1 = 0) as (H1 & H2 & H3).
  { unfold swept. destruct (_ || _); [|done]. pose proof (sweep_spec (refusal_key e) (sv_at e) st Hst) as Hs. destruct (sweep _ _ _ _) as [out st'].
    assert (stays (refusal_key e) (sv_at e) (key, b) = true) as Hstay by (unfold stays; cbn [snd]; rewrite Hw; apply orb_true_r).
    destruct Hs as (_ & S2 & S3 & S4). split_and!; [done|cbn; by rewrite S4, Hk, Hstay|]. apply rows_of_none. eapply Forall_impl; [exact S3|].
    intros e' (b' & Hb' & Hc) Hke. rewrite Hke in *. congruence. }
  destruct swept as [out st1]. cbn [fst snd] in *. destruct (limiter_full (refusal_key e) st1) eqn:Hf.
  { unfold limiter_full in Hf. apply andb_true_iff in Hf as [Hf%bool_decide_eq_true _]. exists b.
    rewrite rows_of_app, H3, (rows_of_none key [e]) by (apply Forall_singleton; congruence). done. }
  set (b1 := reopened _ _). destruct (reopened_ok (refusal_key e) (sv_at e) st1 H1) as [Hb1 _]. fold b1 in Hb1.
  pose proof (admit_to_bucket_spec _ e b1 Hb1 He eq_refl) as Ha. destruct (admit_to_bucket e b1) as [rows b1'].
  destruct Ha as (_ & _ & A3 & A4 & A5). cbn [rl_buckets]. rewrite rows_of_app, H3. cbn [Nat.add]. destruct (decide (refusal_key e = key)) as [Hke|Hne].
  - assert (b1 = b) as Hb by (unfold b1, reopened; by rewrite Hke, H2; cbn; rewrite Hw). rewrite Hb in *. rewrite Hke, lookup_insert_eq.
    exists b1'. pose proof (rows_of_le key rows). split_and!; [done|done|lia].
  - rewrite lookup_insert_ne by done. exists b. rewrite (rows_of_none key rows); [done|]. eapply Forall_impl; [exact A3|]. congruence.
Qed.
Lemma admit_all_rate l key b st :
  limiter_ok st -> Forall plain_refusal l -> rl_buckets st !! key = Some b ->
  Forall (fun e => window_closed (rb_window_start b) (sv_at e) = false) l ->
  rows_of key (admit_all entries l st).1 <= budget b.
Proof.
  revert b st; induction l as [|e l IH]; intros b st Hst Hl Hk Hw; cbn [admit_all]; [unfold rows_of; cbn; lia|].
  apply Forall_cons in Hl as [He Hl]. apply Forall_cons in Hw as [Hwe Hw].
  pose proof (admit_rate key b e st Hst He Hk Hwe) as Ha. pose proof (admit_spec e st Hst He) as Hs. destruct (admit_refusal entries e st) as [out st1].
  destruct Ha as (b' & A1 & A2 & A3), Hs as [_ Hs]. rewrite <- A2 in Hw. specialize (IH b' st1 Hs Hl A1 Hw).
  destruct (admit_all entries l st1) as [rest st2]. cbn [fst] in *. rewrite rows_of_app. lia.
Qed.
End conservation.

Definition refusal_by (subject : string) (target : string) (at_ : Z) : SecurityEvent :=
  mkEvent 0 "" (Some "acme") at_ "step_up.refused" subject "session:cookie" (Some "secret.put") (Some target) None None None None
    (JObj [("mode", JStr "window"); ("reason", JStr "not confirmed")]).

(** The refusals of one key cannot grow the log without bound. After any
    history, while the window of a key's bucket is open, however many refusals
    come in, of that key and of others, at most ten rows of that key are
    written: five of the window, and one for each of the at most five targets
    its previous window suppressed. *)
Theorem refusals_rate_limited entries history l key b :
  (forall m, entries m ≡ₚ map_to_list m) -> Forall plain_refusal history -> Forall plain_refusal l ->
  let st := (admit_all entries history new_limiter).2 in
  rl_buckets st !! key = Some b -> Forall (fun e => window_closed (rb_window_start b) (sv_at e) = false) l ->
  rows_of key (admit_all entries l st).1 <= N.to_nat REFUSALS_PER_WINDOW + MAX_SUPPRESSED_TARGETS.
Proof.
  intros He Hh Hl st Hk Hw. pose proof (admit_all_spec entries He history new_limiter new_limiter_ok Hh) as H.
  assert (limiter_ok st) as Hst by (unfold st; by destruct (admit_all entries history new_limiter), H). clear H.
  etrans; [by apply (admit_all_rate entries He l key b st)|]. pose proof (bo_length _ _ (Hst _ _ Hk)). unfold budget. destruct (_ <? _)%N; lia.
Qed.
Definition amys_key : StepUpRefusalKey := ("acme", "amy", "session:cookie", "secret.put", "not confirmed", "").
Definition amys_refusals (n : nat) (at_ : Z) : list SecurityEvent := List.repeat (refusal_by "amy" "d" at_) n.
Lemma amys_plain n at_ : Forall plain_refusal (amys_refusals n at_).
Proof. induction n as [|n IH]; [constructor|]. constructor; [|exact IH]. split; [by eexists|done]. Qed.
Lemma refusals_rate_limited_witness :
  rows_of amys_key (admit_all map_to_list (amys_refusals 20 50) (admit_all map_to_list (amys_refusals 3 0) new_limiter).2).1 <= 10.
Proof.
  apply (refusals_rate_limited map_to_list (amys_refusals 3 0) (amys_refusals 20 50) amys_key (mkBucket 0 3 [] 0)).
  - intros m. reflexivity.
  - apply amys_plain.
  - apply amys_plain.
  - vm_compute. reflexivity.
  - unfold amys_refusals. repeat constructor.
Defined.

(** No refusal is lost. Over any sequence of refusals, whatever order the
    hash map yields closed windows in and however the clock moves, every
    refusal is counted exactly once: by a row it is, by a row written for the
    log that says it carries it, or by a bucket still holding it. *)
Theorem refusals_conserved entries l :
  (forall m, entries m ≡ₚ map_to_list m) -> Forall plain_refusal l ->
  let '(out, st) := admit_all entries l new_limiter in
  total_weight out + total_pending (rl_buckets st) = length l.
Proof.
  intros He Hl. pose proof (admit_all_spec entries He l new_limiter new_limiter_ok Hl) as H.
  destruct (admit_all entries l new_limiter) as [out st]. destruct H as [-> _]. reflexivity.
Qed.
Definition decoys : list SecurityEvent :=
  map (fun t => refusal_by "amy" t 1) ["d"; "d"; "d"; "d"; "d"; "prod"; "d"; "d"; "a"; "b"; "c"; "x"; "y"] ++ [refusal_by "bob" "z" 60002; refusal_by "amy" "d" 60003].
Lemma refusals_conserved_witness :
  let '(out, st) := admit_all map_to_list decoys new_limiter in
  total_weight out + total_pending (rl_buckets st) = 15 /\ map sv_target (skipn 5 out) = map Some ["prod"; "d"; "a"; "b"; "c"; "z"; "d"].
Proof.
  pose proof (refusals_conserved map_to_list decoys) as H. assert (Forall plain_refusal decoys) as Hd.
  { unfold decoys. cbn [map app]. repeat (constructor; [split; [eexists; reflexivity|split; reflexivity]|]). constructor. }
  specialize (H (fun m => reflexivity _) Hd). revert H. destruct (admit_all map_to_list decoys new_limiter) as [out st] eqn:E. intros H.
  split; [exact H|]. assert (map sv_target (skipn 5 (admit_all map_to_list decoys new_limiter).1) = map Some ["prod"; "d"; "a"; "b"; "c"; "z"; "d"]) as Hm by (vm_compute; reflexivity).
  rewrite E in Hm. exact Hm.
Defined.
