(* ===== verification/Ops.v ===== *)
(** * Governed operations (scarab-server/src/step_up/ops.rs)

    How a route is governed, what an operation says of itself, and the
    summary a human is asked to confirm: redacted, flattened, every character
    visible. [reqwest::Url::parse] is a parameter. *)

From S2P Require Import Prelude Text Values Protection Identity.

Inductive Mode : Type := Window | AlwaysAsk.
#[export] Instance Mode_eq_dec : EqDecision Mode.
Proof. solve_decision. Defined.
Definition mode_as_str (m : Mode) : string := match m with Window => "window" | AlwaysAsk => "action" end.

Inductive Class_ : Type :=
| ReadClass
| CrownJewel (m : Mode)
| Conditional (m : Mode) (rule : string)
| Ceremony
| Exempt (why : string)
| NotGoverned (why : string).
Definition class_code (c : Class_) : string :=
  match c with
  | ReadClass => "READ" | CrownJewel Window => "CJ-W" | CrownJewel AlwaysAsk => "CJ-A" | Conditional Window _ => "COND-W"
  | Conditional AlwaysAsk _ => "COND-A" | Ceremony => "CER" | Exempt _ => "EX" | NotGoverned _ => "NG"
  end.
Definition class_mode (c : Class_) : option Mode := match c with CrownJewel m | Conditional m _ => Some m | _ => None end.

Inductive OrgOf : Type := OrgPath (name : string) | OrgBody (pointer : string) | OrgQuery (name : string) | OrgRun | OrgConnection | OrgNone.
Inductive ProjectOf : Type := ProjectNone | ProjectPath (name : string) | ProjectBody (pointer : string) | ProjectQuery (name : string).
Inductive StepUpMachineUse : Type := Requestable | BrowserOnly | NotByToken.
#[export] Instance StepUpMachineUse_eq_dec : EqDecision StepUpMachineUse.
Proof. solve_decision. Defined.

Record OpInput := mkOpInput {
  oi_method : string;
  oi_path : string;
  oi_params : list (string * string);
  oi_query : list (string * string);
  oi_body : Json;
}.
Record OpSummary := mkOpSummary { os_operation : string; os_target : string; os_changes : list string }.
(** The [describe] functions an operation may name. *)
Inductive Describe : Type := DescribeGeneric | DescribeLibraryInstall | DescribeLibraryUnyank.
Record Op := mkOp {
  op_id : string;
  op_label : string;
  op_class : Class_;
  op_adr : string;
  op_min_role : option Role;
  op_org_of : OrgOf;
  op_project_of : ProjectOf;
  op_redact : list string;
  op_target : list string;
  op_describe : Describe;
  op_machine : StepUpMachineUse;
  op_max_request_body : N;
}.
Definition DEFAULT_MAX_REQUEST_BODY : N := 64 * 1024.
Definition with_machine (m : StepUpMachineUse) (o : Op) : Op :=
  mkOp (op_id o) (op_label o) (op_class o) (op_adr o) (op_min_role o) (op_org_of o) (op_project_of o) (op_redact o) (op_target o)
    (op_describe o) m (op_max_request_body o).
Definition browser_only : Op -> Op := with_machine BrowserOnly.
Definition not_by_token : Op -> Op := with_machine NotByToken.
Definition in_project (project : ProjectOf) (o : Op) : Op :=
  mkOp (op_id o) (op_label o) (op_class o) (op_adr o) (op_min_role o) (op_org_of o) project (op_redact o) (op_target o)
    (op_describe o) (op_machine o) (op_max_request_body o).
Definition describe_with (d : Describe) (o : Op) : Op :=
  mkOp (op_id o) (op_label o) (op_class o) (op_adr o) (op_min_role o) (op_org_of o) (op_project_of o) (op_redact o) (op_target o)
    d (op_machine o) (op_max_request_body o).
Definition max_request_body (bytes : N) (o : Op) : Op :=
  mkOp (op_id o) (op_label o) (op_class o) (op_adr o) (op_min_role o) (op_org_of o) (op_project_of o) (op_redact o) (op_target o)
    (op_describe o) (op_machine o) bytes.
(** The [const fn op] every operation is declared with. *)
Definition op (id label : string) (class : Class_) (adr : string) (min_role : option Role) (org_of : OrgOf)
    (redact target : list string) : Op :=
  mkOp id label class adr min_role org_of ProjectNone redact target DescribeGeneric Requestable DEFAULT_MAX_REQUEST_BODY.

(** ** JSON pointers (RFC 6901), as [serde_json::Value::pointer] reads them *)

(** [s.replace("~1", "/")] and [s.replace("~0", "~")]. *)
Fixpoint replace_tilde (c r : ascii) (s : string) : string :=
  match s with
  | String d (String e s'' as s') => if Ascii.eqb d "~" && Ascii.eqb e c then String r (replace_tilde c r s'') else String d (replace_tilde c r s')
  | s => s
  end.
Definition pointer_tokens (ptr : string) : option (list string) :=
  match ptr with
  | EmptyString => Some []
  | String c r => if Ascii.eqb c "/" then Some (map (fun t => replace_tilde "0" "~" (replace_tilde "1" "/" t)) (split "/" r)) else None
  end.
Definition parse_index (t : string) : option nat :=
  match t with
  | String "+" _ => None
  | String "0" (String _ _) => None
  | _ => N.to_nat <$> parse_u64 t
  end.
(** Which member of an object or an array a token names. *)
Fixpoint key_position (k : string) (m : list (string * Json)) : option nat :=
  match m with [] => None | (k', _) :: m => if String.eqb k' k then Some 0 else S <$> key_position k m end.
Fixpoint at_path (path : list string) (v : Json) : option Json :=
  match path with
  | [] => Some v
  | t :: path =>
      match v with
      | JObj m => json_get v t ≫= at_path path
      | JArr l => parse_index t ≫= fun i => nth_error l i ≫= at_path path
      | _ => None
      end
  end.
Definition pointer (v : Json) (ptr : string) : option Json := tokens ← pointer_tokens ptr; at_path tokens v.
Fixpoint update_nth {A} (f : A -> option A) (i : nat) (l : list A) : option (list A) :=
  match i, l with
  | 0, x :: l => (fun y => y :: l) <$> f x
  | S i, x :: l => cons x <$> update_nth f i l
  | _, [] => None
  end.
(** [if let Some(v) = out.pointer_mut(ptr) { *v = w }]: [None] when nothing
    is there. *)
Fixpoint set_path (path : list string) (w v : Json) : option Json :=
  match path with
  | [] => Some w
  | t :: path =>
      match v with
      | JObj m => i ← key_position t m; JObj <$> update_nth (fun kv => pair kv.1 <$> set_path path w kv.2) i m
      | JArr l => i ← parse_index t; JArr <$> update_nth (set_path path w) i l
      | _ => None
      end
  end.
Definition HIDDEN : string := "(hidden)".
Definition hide (v : Json) (ptr : string) : Json := default v (tokens ← pointer_tokens ptr; set_path tokens (JStr HIDDEN) v).
Definition redact (body : Json) (pointers : list string) : Json := foldl hide body pointers.

(** ** Characters a human cannot see *)

(** A [char] as a number. *)
Definition code_point (ch : string) : N :=
  match map byte_of (String.list_ascii_of_string ch) with
  | [a] => a
  | [a; b] => (a - 192) * 64 + (b - 128)
  | [a; b; c] => (a - 224) * 4096 + (b - 128) * 64 + (c - 128)
  | [a; b; c; d] => (a - 240) * 262144 + (b - 128) * 4096 + (c - 128) * 64 + (d - 128)
  | _ => 0
  end%N.
Definition INVISIBLE : list (N * N) :=
  [(0x00AD, 0x00AD); (0x034F, 0x034F); (0x0600, 0x0605); (0x061C, 0x061C); (0x06DD, 0x06DD); (0x070F, 0x070F); (0x0890, 0x0891);
   (0x08E2, 0x08E2); (0x115F, 0x1160); (0x17B4, 0x17B5); (0x180B, 0x180F); (0x200B, 0x200F); (0x2028, 0x202E); (0x2060, 0x206F);
   (0x3164, 0x3164); (0xFE00, 0xFE0F); (0xFEFF, 0xFEFF); (0xFFA0, 0xFFA0); (0xFFF0, 0xFFFB); (0x110BD, 0x110BD); (0x110CD, 0x110CD);
   (0x13430, 0x1343F); (0x1BCA0, 0x1BCA3); (0x1D173, 0x1D17A); (0xE0000, 0xE0FFF)]%N.
Definition is_invisible (ch : string) : bool :=
  is_control ch || existsb (fun r => (r.1 <=? code_point ch)%N && (code_point ch <=? r.2)%N) INVISIBLE.

Definition upper_hex (n : N) : ascii := ascii_of_N (if (n <? 10)%N then 48 + n else 55 + n).
(** [{:04X}] of a code point. *)
Definition hex_digit_at (n : N) (i : N) : ascii := upper_hex ((n / 16 ^ i) mod 16).
Definition hex_04 (n : N) : string :=
  let tail := String (hex_digit_at n 3) (String (hex_digit_at n 2) (String (hex_digit_at n 1) (String (hex_digit_at n 0) ""))) in
  if (n <? 16 ^ 4)%N then tail
  else if (n <? 16 ^ 5)%N then String (hex_digit_at n 4) tail
  else String (hex_digit_at n 5) (String (hex_digit_at n 4) tail).
Definition BACKSLASH : ascii := ascii_of_N 92.
Definition escape_char (ch : string) : string :=
  if String.eqb ch (String BACKSLASH "") then String BACKSLASH (String BACKSLASH "")
  else if is_invisible ch then String BACKSLASH ("u{" +:+ hex_04 (code_point ch) +:+ "}")
  else ch.
Definition escape_invisible (s : string) : string := concat_chars (map escape_char (chars s)).

(** ** Summaries *)

Definition MAX_CHANGE_VALUE : nat := N.to_nat 200.
Definition CHANGE_VALUE_END : nat := 96.
Definition long_value (v : string) : string :=
  let cs := chars v in
  let n := length cs in
  if decide (n <= MAX_CHANGE_VALUE) then escape_invisible v
  else escape_invisible (concat_chars (take CHANGE_VALUE_END cs)) +:+ "…" +:+ escape_invisible (concat_chars (drop (n - CHANGE_VALUE_END) cs))
       +:+ " (" +:+ pretty (N.of_nat (String.length v)) +:+ " bytes)".

Definition key_char (c : ascii) : bool := is_alphanumeric c || Ascii.eqb c "_" || Ascii.eqb c "-".
Fixpoint escape_quotes (s : string) : string :=
  match s with
  | EmptyString => ""
  | String c s' => if (byte_of c =? 34)%N then String BACKSLASH (String c (escape_quotes s')) else String c (escape_quotes s')
  end.
Definition render_key (k : string) : string :=
  if negb (String.eqb k "") && all_bytes key_char k then k else quote +:+ escape_quotes (escape_invisible k) +:+ quote.

(** What [url.rs] reads of a URL. *)
Record Url := mkUrl { url_scheme : string; url_host_str : option string; url_username : string; url_has_password : bool; url_text : string }.
Class UrlParser := parse_url : string -> option Url.

Definition ends_authority (c : ascii) : bool := Ascii.eqb c "/" || Ascii.eqb c "?" || Ascii.eqb c "#".
Fixpoint take_until (p : ascii -> bool) (s : string) : string :=
  match s with EmptyString => "" | String c s' => if p c then "" else String c (take_until p s') end.
Definition url_host (url : string) : string * bool :=
  let rest := match find_str "://" url with Some i => drop_str (i + 3) url | None => url end in
  let authority := take_until ends_authority rest in
  let '(host_port, userinfo) := match rfind "@" authority with Some i => (drop_str (S i) authority, true) | None => (authority, false) end in
  let host :=
    if starts_with "[" host_port
    then match find_str "]" host_port with Some i => take_str (S i) host_port | None => host_port end
    else take_until (Ascii.eqb ":") host_port in
  (host, userinfo).
(** [s.get(..8).unwrap_or(s)]. *)
Definition first_8_bytes (s : string) : string :=
  if String.length s <? 8 then s
  else match drop_str 8 s with String c _ => if is_continuation c then s else take_str 8 s | EmptyString => s end.

Section summaries.
Context {U : UrlParser}.

Definition http_url (trimmed : string) : option Url :=
  url ← parse_url trimmed;
  if String.eqb (url_scheme url) "http" || String.eqb (url_scheme url) "https" then Some url else None.
(** The line(s) for one string value. *)
Definition leaf_lines (key v : string) : list string :=
  let trimmed := trim v in
  match http_url trimmed with
  | Some url =>
      let host := default "" (url_host_str url) in
      let notes := (if negb (String.eqb (url_username url) "") || url_has_password url then ["URL carries userinfo"] else [])
                ++ (if existsb (starts_with "xn--") (split "." host) then ["internationalized host: check every character"] else []) in
      let note := match notes with [] => "" | _ => " (" +:+ join "; " notes +:+ ")" end in
      [key +:+ " = " +:+ escape_invisible (url_text url); key +:+ " host = " +:+ escape_invisible host +:+ note]
  | None =>
      let lower := to_ascii_lowercase (first_8_bytes trimmed) in
      if starts_with "http://" lower || starts_with "https://" lower then
        let '(host, userinfo) := url_host trimmed in
        [key +:+ " = " +:+ escape_invisible v; key +:+ " host = " +:+ escape_invisible host +:+ (if userinfo then " (URL carries userinfo)" else "")]
      else [key +:+ " = " +:+ long_value v]
  end.
(** Entries in key order, each already rendered. *)
Definition in_key_order (entries : list (string * list string)) : list string := concat (map snd (btree_list (list_to_map entries))).
(** The lines of the value under [key]; a nested object's under [key.]. *)
Fixpoint value_lines (key : string) (v : Json) : list string :=
  match v with
  | JObj ((_ :: _) as m) => in_key_order (map (fun kv => (kv.1, value_lines (key +:+ "." +:+ render_key kv.1) kv.2)) m)
  | JStr s => leaf_lines key s
  | other => [key +:+ " = " +:+ long_value (json_text other)]
  end.
Definition flatten (m : list (string * Json)) : list string := in_key_order (map (fun kv => (kv.1, value_lines (render_key kv.1) kv.2)) m).

Definition oi_param (i : OpInput) (name : string) : option string := snd <$> List.find (fun kv => String.eqb kv.1 name) (oi_params i).
Definition oi_query_value (i : OpInput) (name : string) : option string := snd <$> List.find (fun kv => String.eqb kv.1 name) (oi_query i).
Definition oi_body_str (i : OpInput) (ptr : string) : option string :=
  match pointer (oi_body i) ptr with
  | Some (JStr s) => if String.eqb s "" then None else Some s
  | Some ((JInt _ | JFloat _) as n) => Some (json_text n)
  | Some (JBool b) => Some (if b then "true" else "false")
  | _ => None
  end.
Definition strip_prefix (p s : string) : option string := if starts_with p s then Some (drop_str (String.length p) s) else None.
Definition oi_source (i : OpInput) (source : string) : option string :=
  match strip_prefix "path:" source, strip_prefix "query:" source, strip_prefix "body:" source with
  | Some name, _, _ => oi_param i name
  | None, Some name, _ => v ← oi_query_value i name; if String.eqb v "" then None else Some v
  | None, None, Some ptr => oi_body_str i ptr
  | None, None, None => None
  end.
Definition describe_generic (o : Op) (i : OpInput) : OpSummary :=
  let target := omap (oi_source i) (op_target o) in
  let changes := match oi_body i with JObj m => flatten m | _ => [] end in
  let named := omap (strip_prefix "query:") (op_target o) in
  let query := concat (map (fun kv => if existsb (String.eqb kv.1) named then [] else leaf_lines ("?" +:+ render_key kv.1) kv.2) (oi_query i)) in
  mkOpSummary (op_label o) (escape_invisible (join "/" target)) (changes ++ query).

Definition short_hash (h : string) : string := concat_chars (take 12 (chars h)).
Definition describe_library_install (o : Op) (i : OpInput) : OpSummary :=
  let generic := describe_generic o i in
  match oi_param i "org", oi_param i "publisher", oi_param i "name" with
  | Some org, Some publisher, Some name =>
      let new_ := default "" (oi_body_str i "/content_hash") in
      let version := match oi_body_str i "/replaces" with
                     | Some old => "version = " +:+ short_hash old +:+ " → " +:+ short_hash new_
                     | None => "version = " +:+ short_hash new_ +:+ " (nothing installed before)"
                     end in
      mkOpSummary (os_operation generic) (escape_invisible ("lib:" +:+ publisher +:+ "/" +:+ name +:+ " in " +:+ org))
        (escape_invisible version :: os_changes generic)
  | _, _, _ => generic
  end.
Definition describe_library_unyank (o : Op) (i : OpInput) : OpSummary :=
  let generic := describe_generic o i in
  match oi_param i "org", oi_param i "hash" with
  | Some org, Some hash =>
      mkOpSummary (os_operation generic) (escape_invisible ("version " +:+ short_hash hash +:+ " in " +:+ org))
        [escape_invisible ("content_hash = " +:+ hash)]
  | _, _ => generic
  end.
Definition op_summary (o : Op) (i : OpInput) : OpSummary :=
  match op_describe o with
  | DescribeGeneric => describe_generic o i
  | DescribeLibraryInstall => describe_library_install o i
  | DescribeLibraryUnyank => describe_library_unyank o i
  end.
End summaries.

(** No URL is a URL: the fallback for a value that reads like one. *)
Definition no_urls : UrlParser := fun _ => None.
Example summary_of_a_secret :
  op_summary (U := no_urls) (op "secret.put" "Write a secret" (CrownJewel Window) "" (Some Admin) (OrgBody "/org") ["/value"] ["body:/org"; "body:/repo"; "body:/environment"; "body:/name"])
    (mkOpInput "POST" "/v1/secrets" [] []
       (redact (JObj [("org", JStr "acme"); ("repo", JStr "web"); ("name", JStr "DB_PASSWORD"); ("value", JStr "hunter2"); ("a.b", JObj [("z", JInt 1); ("c", JBool true)])]) ["/value"]))
  = mkOpSummary "Write a secret" "acme/web/DB_PASSWORD"
      [quote +:+ "a.b" +:+ quote +:+ ".c = true"; quote +:+ "a.b" +:+ quote +:+ ".z = 1"; "name = DB_PASSWORD"; "org = acme"; "repo = web"; "value = (hidden)"].
Proof. vm_compute. reflexivity. Qed.
Example userinfo_shown :
  leaf_lines (U := no_urls) "base_url" "HTTPS://hooks.acme@evil.example:8443/x" =
  ["base_url = HTTPS://hooks.acme@evil.example:8443/x"; "base_url host = evil.example (URL carries userinfo)"].
Proof. vm_compute. reflexivity. Qed.
Example bidi_escaped : escape_invisible ("a" +:+ String (ascii_of_N 27) (String (ascii_of_N 226) (String (ascii_of_N 128) (String (ascii_of_N 174) (String BACKSLASH "b")))))
  = "a" +:+ String BACKSLASH ("u{001B}" +:+ String BACKSLASH ("u{202E}" +:+ String BACKSLASH (String BACKSLASH "b"))).
Proof. vm_compute. reflexivity. Qed.

(** ** Characters one by one *)

(** One character: a lead byte and its continuation bytes. *)
Definition is_char (ch : string) : bool :=
  match ch with String c r => negb (is_continuation c) && all_bytes is_continuation r | EmptyString => false end.
Definition starts_char (s : string) : bool := match s with String c _ => negb (is_continuation c) | EmptyString => true end.
Lemma chars_continuation r s : all_bytes is_continuation r = true -> starts_char s = true ->
  forall c, chars (String c (r +:+ s)) = String c r :: chars s.
Proof.
  revert s; induction r as [|d r IH]; intros s Hr Hs c.
  - rewrite string_app_nil_l. cbn [chars]. destruct s as [|d s]; [done|]. cbn [starts_char] in Hs. apply negb_true_iff in Hs.
    assert (exists d' r l, chars (String d s) = String d' r :: l /\ d' = d) as (d' & r & l & -> & ->).
    { cbn [chars]. destruct (chars s) as [|[|e r] l]; eauto. destruct (is_continuation e); eauto. }
    by rewrite Hs.
  - cbn [all_bytes] in Hr. apply andb_true_iff in Hr as [Hd Hr]. rewrite string_app_cons.
    specialize (IH s Hr Hs d). change (chars (String c (String d (r +:+ s)))) with
      (match chars (String d (r +:+ s)) with
       | (String d' r' as ch) :: l => if is_continuation d' then String c ch :: l else String c "" :: ch :: l
       | l => String c "" :: l end). rewrite IH. by rewrite Hd.
Qed.
Lemma chars_cons ch s : is_char ch = true -> starts_char s = true -> chars (ch +:+ s) = ch :: chars s.
Proof.
  destruct ch as [|c r]; [done|]. cbn [is_char]. intros [_ Hr]%andb_true_iff Hs. rewrite string_app_cons. by apply chars_continuation.
Qed.
Lemma chars_concat l : Forall (fun ch => is_char ch = true) l -> chars (concat_chars l) = l.
Proof.
  induction 1 as [|ch l Hch Hl IH]; [done|]. cbn [concat_chars]. rewrite chars_cons, IH; [done..|].
  destruct Hl as [|[|c r] l Hx _]; [done..|]. cbn in *. by apply andb_true_iff in Hx as [? _].
Qed.
Lemma concat_chars_app l k : concat_chars (l ++ k) = concat_chars l +:+ concat_chars k.
Proof. induction l as [|x l IH]; [done|]. cbn. by rewrite IH, string_app_assoc. Qed.

(** ** UTF-8 *)

Definition encode_utf8 (n : N) : string :=
  let b (x : N) : ascii := ascii_of_N x in
  if (n <? 0x80)%N then String (b n) ""
  else if (n <? 0x800)%N then String (b (192 + n / 64)%N) (String (b (128 + n mod 64)%N) "")
  else if (n <? 0x10000)%N then String (b (224 + n / 4096)%N) (String (b (128 + n / 64 mod 64)%N) (String (b (128 + n mod 64)%N) ""))
  else String (b (240 + n / 262144)%N) (String (b (128 + n / 4096 mod 64)%N) (String (b (128 + n / 64 mod 64)%N) (String (b (128 + n mod 64)%N) ""))).
(** What every Rust [str] is. *)
Definition utf8 (s : string) : Prop := Forall (fun ch => ch = encode_utf8 (code_point ch) /\ (code_point ch < 0x110000)%N) (chars s).

Lemma byte_of_N n : (n < 256)%N -> byte_of (ascii_of_N n) = n.
Proof. intros H. unfold byte_of. by apply N_ascii_embedding. Qed.
Lemma encode_is_char n : (n < 0x110000)%N -> is_char (encode_utf8 n) = true.
Proof.
  intros Hn. assert (forall x, (128 <= x < 192)%N -> is_continuation (ascii_of_N x) = true) as Hc.
  { intros x Hx. unfold is_continuation. rewrite byte_of_N by lia. apply andb_true_iff. rewrite N.leb_le, N.ltb_lt. lia. }
  assert (forall x, (x < 256)%N -> (x < 128 \/ 192 <= x)%N -> is_continuation (ascii_of_N x) = false) as Hl.
  { intros x Hx Hr. unfold is_continuation. rewrite byte_of_N by lia. apply andb_false_iff. rewrite N.leb_gt, N.ltb_ge. lia. }
  pose proof (fun m => N.mod_lt m 64 ltac:(done)) as Hm. pose proof (Hm n). pose proof (Hm (n / 64)%N). pose proof (Hm (n / 4096)%N). clear Hm.
  assert (n / 262144 < 16)%N by (apply N.Div0.div_lt_upper_bound; lia). assert (n / 4096 < 16 \/ 0x10000 <= n)%N by (destruct (N.lt_ge_cases n 0x10000); [left; apply N.Div0.div_lt_upper_bound; lia|by right]).
  assert (n / 64 < 32 \/ 0x800 <= n)%N by (destruct (N.lt_ge_cases n 0x800); [left; apply N.Div0.div_lt_upper_bound; lia|by right]).
  unfold encode_utf8. generalize dependent (n mod 64)%N. generalize dependent (n / 64 mod 64)%N. generalize dependent (n / 4096 mod 64)%N.
  generalize dependent (n / 64)%N. generalize dependent (n / 4096)%N. generalize dependent (n / 262144)%N. intros.
  destruct (N.ltb_spec n 0x80); [|destruct (N.ltb_spec n 0x800); [|destruct (N.ltb_spec n 0x10000)]];
    cbn [is_char all_bytes]; rewrite Hl by lia; rewrite ?Hc by lia; done.
Qed.

Lemma utf8_chars s : utf8 s -> Forall (fun ch => is_char ch = true) (chars s).
Proof. intros Hs. eapply Forall_impl; [exact Hs|]. intros ch [Hch Hn]. rewrite Hch. by apply encode_is_char. Qed.

(** ** Escaping *)

Lemma upper_hex_value d : (d < 16)%N -> byte_of (upper_hex d) = (if (d <? 10)%N then 48 + d else 55 + d)%N.
Proof. intros Hd. unfold upper_hex. rewrite byte_of_N; destruct (N.ltb_spec d 10); lia. Qed.
Lemma upper_hex_inj d e : (d < 16)%N -> (e < 16)%N -> upper_hex d = upper_hex e -> d = e.
Proof.
  intros Hd He H. apply (f_equal byte_of) in H. rewrite !upper_hex_value in H by done.
  destruct (N.ltb_spec d 10), (N.ltb_spec e 10); lia.
Qed.
Lemma hex_digit_lt n i : ((n / 16 ^ i) mod 16 < 16)%N.
Proof. by apply N.mod_lt. Qed.
Lemma hex_04_inj n m : (n < 0x110000)%N -> (m < 0x110000)%N -> hex_04 n = hex_04 m -> n = m.
Proof.
  intros Hn Hm. unfold hex_04, hex_digit_at. pose proof (hex_digit_lt n) as Bn. pose proof (hex_digit_lt m) as Bm.
  assert (forall i, upper_hex ((n / 16 ^ i) mod 16) = upper_hex ((m / 16 ^ i) mod 16) -> ((n / 16 ^ i) mod 16 = (m / 16 ^ i) mod 16)%N) as Hd by (intros i; by apply upper_hex_inj).
  assert (forall k, k = n \/ k = m -> (k = k / 16 ^ 0 mod 16 + 16 * (k / 16 ^ 1 mod 16) + 256 * (k / 16 ^ 2 mod 16) + 4096 * (k / 16 ^ 3 mod 16)
    + 65536 * (k / 16 ^ 4 mod 16) + 1048576 * (k / 16 ^ 5 mod 16) /\ (k < 16 ^ 4 -> k / 16 ^ 4 mod 16 = 0) /\ (k < 16 ^ 5 -> k / 16 ^ 5 mod 16 = 0)))%N as Hv.
  { intros k Hk. assert (k < 0x110000)%N by (destruct Hk as [->| ->]; done). clear -H.
    change (16 ^ 0)%N with 1%N; change (16 ^ 1)%N with 16%N; change (16 ^ 2)%N with 256%N; change (16 ^ 3)%N with 4096%N; change (16 ^ 4)%N with 65536%N; change (16 ^ 5)%N with 1048576%N.
    assert (exists z, k = Z.to_N z /\ 0 <= z < 1114112)%Z as (z & -> & Hz) by (exists (Z.of_N k); lia).
    zify. Z.to_euclidean_division_equations. lia. }
  destruct (Hv n (or_introl eq_refl)) as (Vn & Zn4 & Zn5). destruct (Hv m (or_intror eq_refl)) as (Vm & Zm4 & Zm5). clear Hv.
  assert (16 ^ 4 < 16 ^ 5)%N as H45 by done.
  destruct (N.ltb_spec n (16 ^ 4)) as [?|?], (N.ltb_spec m (16 ^ 4)) as [?|?], (N.ltb_spec n (16 ^ 5)) as [?|?], (N.ltb_spec m (16 ^ 5)) as [?|?]; try lia;
    intros E; injection E; intros; try discriminate;
    repeat match goal with H : upper_hex _ = upper_hex _ |- _ => apply Hd in H end; rewrite Vn, Vm;
    rewrite ?Zn4, ?Zn5, ?Zm4, ?Zm5 by (done || lia); congruence.
Qed.

(** An ASCII string as characters. *)
Fixpoint ascii_chars (s : string) : list string := match s with EmptyString => [] | String c s' => String c "" :: ascii_chars s' end.
Definition plain_byte (c : ascii) : bool := in_range 32 126 c.
Lemma concat_ascii_chars s : concat_chars (ascii_chars s) = s.
Proof. induction s as [|c s IH]; [done|]. cbn. by rewrite IH. Qed.
Lemma ascii_chars_inj s t : ascii_chars s = ascii_chars t -> s = t.
Proof. intros H. by rewrite <- (concat_ascii_chars s), <- (concat_ascii_chars t), H. Qed.
Lemma plain_byte_char c : plain_byte c = true -> is_char (String c "") = true /\ is_invisible (String c "") = false.
Proof. destruct c as [[][][][][][][][]]; vm_compute; done. Qed.
Lemma plain_chars s : all_bytes plain_byte s = true -> Forall (fun ch => is_char ch = true /\ is_invisible ch = false) (ascii_chars s).
Proof.
  induction s as [|c s IH]; cbn; [constructor|]. intros [Hc Hs]%andb_true_iff. constructor; [by apply plain_byte_char|by apply IH].
Qed.
Lemma upper_hex_plain d : (d < 16)%N -> plain_byte (upper_hex d) = true /\ Ascii.eqb "}" (upper_hex d) = false.
Proof.
  intros Hd. assert (byte_of (upper_hex d) <> byte_of "}") as Hne by (rewrite upper_hex_value by done; cbn; destruct (N.ltb_spec d 10); lia).
  split; [|apply Ascii.eqb_neq; congruence].
  unfold plain_byte, in_range. rewrite upper_hex_value by done. apply andb_true_iff. rewrite !N.leb_le. destruct (N.ltb_spec d 10); lia.
Qed.
Lemma hex_04_plain n : all_bytes plain_byte (hex_04 n) = true /\ has_char "}" (hex_04 n) = false.
Proof.
  unfold hex_04. assert (forall i, plain_byte (hex_digit_at n i) = true /\ Ascii.eqb "}" (hex_digit_at n i) = false) as Hd by (intros i; apply upper_hex_plain, hex_digit_lt).
  assert (forall i, plain_byte (hex_digit_at n i) = true) as H1 by apply Hd. assert (forall i, Ascii.eqb "}" (hex_digit_at n i) = false) as H2 by apply Hd.
  destruct (_ <? _)%N; [|destruct (_ <? _)%N]; cbn [all_bytes has_char]; by rewrite !H1, !H2.
Qed.

(** The characters one character is shown as. *)
Definition escape_text (ch : string) : string := String BACKSLASH ("u{" +:+ hex_04 (code_point ch) +:+ "}").
Definition shown_as (ch : string) : list string :=
  if String.eqb ch (String BACKSLASH "") then [String BACKSLASH ""; String BACKSLASH ""]
  else if is_invisible ch then ascii_chars (escape_text ch)
  else [ch].
Lemma shown_concat ch : concat_chars (shown_as ch) = escape_char ch.
Proof.
  unfold shown_as, escape_char. destruct (String.eqb_spec ch (String BACKSLASH "")); [done|]. destruct (is_invisible ch); [apply concat_ascii_chars|].
  cbn. apply string_app_nil_r.
Qed.
Lemma escape_text_plain ch : all_bytes plain_byte (escape_text ch) = true.
Proof.
  unfold escape_text. assert (forall a b, all_bytes plain_byte (a +:+ b) = all_bytes plain_byte a && all_bytes plain_byte b) as Ha.
  { induction a as [|c a IH]; intros b; [done|]. rewrite string_app_cons. cbn [all_bytes]. by rewrite IH, andb_assoc. }
  cbn [all_bytes]. rewrite !Ha, (proj1 (hex_04_plain _)). done.
Qed.
Lemma shown_chars ch : is_char ch = true -> Forall (fun ch => is_char ch = true /\ is_invisible ch = false) (shown_as ch).
Proof.
  intros Hch. unfold shown_as. destruct (String.eqb_spec ch (String BACKSLASH "")); [repeat constructor|].
  destruct (is_invisible ch) eqn:Hi; [apply plain_chars, escape_text_plain|]. by repeat constructor.
Qed.
Lemma escape_as_shown s : utf8 s -> chars (escape_invisible s) = concat (map shown_as (chars s)).
Proof.
  intros Hs%utf8_chars. unfold escape_invisible. assert (concat_chars (map escape_char (chars s)) = concat_chars (concat (map shown_as (chars s)))) as ->.
  { induction (chars s) as [|ch l IH]; [done|]. cbn. rewrite concat_chars_app, shown_concat. apply Forall_cons in Hs as [_ Hs]. by rewrite IH. }
  apply chars_concat. induction Hs as [|ch l Hch Hl IH]; [constructor|]. cbn. apply Forall_app. split; [|done].
  eapply Forall_impl; [by apply shown_chars|]. by intros ? [? _].
Qed.

(** No character's showing is the start of another's. *)
Lemma ascii_chars_app a b : ascii_chars (a +:+ b) = ascii_chars a ++ ascii_chars b.
Proof. induction a as [|c a IH]; [done|]. rewrite string_app_cons. cbn. by rewrite IH. Qed.
Lemma split_at_brace a b r r' :
  has_char "}" a = false -> has_char "}" b = false -> ascii_chars a ++ "}" :: r = ascii_chars b ++ "}" :: r' -> a = b /\ r = r'.
Proof.
  revert b; induction a as [|c a IH]; intros [|d b] Ha Hb; cbn [ascii_chars app]; intros E; cbn [has_char] in *.
  - by injection E.
  - injection E as <- _. by rewrite Ascii.eqb_refl in Hb.
  - injection E as -> _. by rewrite Ascii.eqb_refl in Ha.
  - apply orb_false_iff in Ha as [_ Ha]. apply orb_false_iff in Hb as [_ Hb]. injection E as -> E. by destruct (IH b Ha Hb E) as [-> ->].
Qed.
Definition utf8_char (ch : string) : Prop := ch = encode_utf8 (code_point ch) /\ (code_point ch < 0x110000)%N.
Lemma shown_prefix_free a b r r' : utf8_char a -> utf8_char b -> shown_as a ++ r = shown_as b ++ r' -> a = b /\ r = r'.
Proof.
  intros [Ha Hna] [Hb Hnb]. unfold shown_as.
  assert (forall ch, ascii_chars (escape_text ch) = String BACKSLASH "" :: "u" :: "{" :: ascii_chars (hex_04 (code_point ch)) ++ ["}"]) as Ht.
  { intros ch. unfold escape_text. cbn [ascii_chars]. by rewrite !ascii_chars_app. }
  destruct (String.eqb_spec a (String BACKSLASH "")) as [->|Hab], (String.eqb_spec b (String BACKSLASH "")) as [->|Hbb].
  - intros E. by injection E as ->.
  - destruct (is_invisible b); rewrite ?Ht; cbn [app]; intros E; injection E; intros; [discriminate|congruence].
  - destruct (is_invisible a); rewrite ?Ht; cbn [app]; intros E; injection E; intros; [discriminate|congruence].
  - destruct (is_invisible a), (is_invisible b); rewrite ?Ht; cbn [app]; intros E; [|injection E; intros; (congruence || by split)..].
    injection E as E. rewrite <- !app_assoc in E. cbn [app] in E. apply split_at_brace in E as [E ->]; [|by apply hex_04_plain..].
    apply hex_04_inj in E; [|done..]. split; [|done]. by rewrite Ha, Hb, E.
Qed.

Lemma shown_nonempty ch : shown_as ch <> [].
Proof. unfold shown_as, escape_text. destruct (String.eqb ch (String BACKSLASH "")), (is_invisible ch); done. Qed.
Lemma shown_all_inj l k : Forall utf8_char l -> Forall utf8_char k -> concat (map shown_as l) = concat (map shown_as k) -> l = k.
Proof.
  intros Hl; revert k; induction Hl as [|a l Ha Hl IH]; intros k Hk; destruct Hk as [|b k Hb Hk]; cbn; intros E; [done| | |].
  - by destruct (shown_as b) eqn:Eb; [apply shown_nonempty in Eb|].
  - by destruct (shown_as a) eqn:Ea; [apply shown_nonempty in Ea|].
  - apply shown_prefix_free in E as [-> E]; [|done..]. by rewrite (IH k Hk E).
Qed.

(** What a human is shown is what would run. Escaping leaves no character
    that is invisible, a control, or rearranges the text around it, and two
    different texts are never shown alike. *)
Theorem escape_invisible_faithful s :
  utf8 s ->
  Forall (fun ch => is_invisible ch = false) (chars (escape_invisible s)) /\
  (forall t, utf8 t -> escape_invisible t = escape_invisible s -> t = s).
Proof.
  intros Hs. rewrite escape_as_shown by done. split.
  - pose proof (utf8_chars s Hs) as Hc. induction Hc as [|ch l Hch Hl IH]; [constructor|]. cbn. apply Forall_app. split; [|done].
    eapply Forall_impl; [by apply shown_chars|]. by intros ? [_ ?].
  - intros t Ht E. apply (f_equal chars) in E. rewrite !escape_as_shown in E by done. rewrite <- (concat_chars_chars t), <- (concat_chars_chars s). f_equal.
    by apply shown_all_inj.
Qed.
Lemma escape_invisible_faithful_witness :
  Forall (fun ch => is_invisible ch = false) (chars (escape_invisible (String (ascii_of_N 27) "[31m"))) /\
  escape_invisible (String BACKSLASH "u{001B}[31m") <> escape_invisible (String (ascii_of_N 27) "[31m").
Proof.
  destruct (escape_invisible_faithful (String (ascii_of_N 27) "[31m")) as [H1 H2]; [repeat (constructor; [split; reflexivity|]); constructor|].
  split; [exact H1|]. intros E. apply H2 in E; [discriminate E|]. repeat (constructor; [split; reflexivity|]). constructor.
Defined.

(** ** Redaction *)

(** Two bodies that differ, if at all, in what stands at one path of both. *)
Inductive agree_except : list string -> Json -> Json -> Prop :=
| agree_here v w : agree_except [] v w
| agree_field k p a b v w : Forall (fun kv : string * Json => kv.1 <> k) a -> agree_except p v w ->
    agree_except (k :: p) (JObj (a ++ (k, v) :: b)) (JObj (a ++ (k, w) :: b))
| agree_item t p a b v w : parse_index t = Some (length a) -> agree_except p v w ->
    agree_except (t :: p) (JArr (a ++ v :: b)) (JArr (a ++ w :: b)).

Lemma update_nth_mid {A} (f : A -> option A) a x b : update_nth f (length a) (a ++ x :: b) = (fun y => a ++ y :: b) <$> f x.
Proof. induction a as [|z a IH]; cbn; [by destruct (f x)|]. rewrite IH. by destruct (f x). Qed.
Lemma update_nth_other {A} (f : A -> option A) i a b :
  i <> length a ->
  (forall x, update_nth f i (a ++ x :: b) = None) \/
  exists a' b', Forall2 (fun x y => x = y \/ f x = Some y) a a' /\ forall x, update_nth f i (a ++ x :: b) = Some (a' ++ x :: b').
Proof.
  revert i; induction a as [|z a IH]; intros [|i] Hi; cbn in *; [done| | |].
  - destruct (update_nth f i b) as [b'|]; [right; exists [], b'; by split; [constructor|]|by left].
  - destruct (f z) as [z'|] eqn:Hz; [right|by left]. exists (z' :: a), b. split; [|done]. constructor; [by right|]. apply Forall_Forall2_diag, Forall_true. by left.
  - destruct (IH i ltac:(lia)) as [H|(a' & b' & Ha & H)]; [left; intros x; by rewrite H|right]. exists (z :: a'), b'.
    split; [constructor; [by left|done]|]. intros x. by rewrite H.
Qed.
Lemma key_position_here k a v b : Forall (fun kv : string * Json => kv.1 <> k) a -> key_position k (a ++ (k, v) :: b) = Some (length a).
Proof.
  induction 1 as [|[k' x] a Hne _ IH]; cbn; [by rewrite String.eqb_refl|]. destruct (String.eqb_spec k' k); [done|]. by rewrite IH.
Qed.
Lemma key_position_keys k m m' : map fst m = map fst m' -> key_position k m = key_position k m'.
Proof.
  revert m'; induction m as [|[k1 x] m IH]; intros [|[k2 y] m'] E; try done. cbn in *. injection E as -> E. by rewrite (IH m' E).
Qed.
Lemma key_position_at k t a v b i : key_position t (a ++ (k, v) :: b) = Some i -> t <> k -> i <> length a.
Proof.
  revert i; induction a as [|[k' x] a IH]; cbn; intros i.
  - destruct (String.eqb_spec k t); [congruence|]. destruct (key_position t b); [|done]. intros [= <-] _. done.
  - destruct (String.eqb_spec k' t); [by intros [= <-]|]. destruct (key_position t (a ++ (k, v) :: b)) as [j|]; [|done]. cbn. intros [= <-] Hne.
    specialize (IH j eq_refl Hne). lia.
Qed.

Lemma set_path_agree p v w h : agree_except p v w -> exists x, set_path p h v = Some x /\ set_path p h w = Some x.
Proof.
  induction 1 as [v w|k p a b v w Ha _ (x & Hv & Hw)|t p a b v w Ht _ (x & Hv & Hw)]; cbn [set_path]; [by exists h| |].
  - rewrite !key_position_here by done. cbn [mbind option_bind]. rewrite !update_nth_mid. cbn [snd fst]. rewrite Hv, Hw. by eexists.
  - rewrite Ht. cbn [mbind option_bind]. rewrite !update_nth_mid, Hv, Hw. by eexists.
Qed.
Definition set_or (q : list string) (h v : Json) : Json := default v (set_path q h v).
Lemma set_or_agree p q h v w : agree_except p v w -> set_or q h v = set_or q h w \/ agree_except p (set_or q h v) (set_or q h w).
Proof.
  intros H; revert q; induction H as [v w|k p a b v w Ha H IH|t p a b v w Ht H IH]; intros q; [right; constructor| |];
    (destruct q as [|s q]; [by left|]); unfold set_or; cbn [set_path].
  - destruct (decide (s = k)) as [->|Hne].
    + rewrite !key_position_here by done. cbn [mbind option_bind]. rewrite !update_nth_mid. cbn [fst snd].
      assert (forall x, default (JObj (a ++ (k, x) :: b)) (JObj <$> ((fun y => a ++ y :: b) <$> (pair k <$> set_path q h x))) = JObj (a ++ (k, set_or q h x) :: b)) as Hx
        by (intros x; unfold set_or; by destruct (set_path q h x)).
      rewrite !Hx. destruct (IH q) as [->|?]; [by left|right; by constructor].
    + rewrite (key_position_keys s (a ++ (k, w) :: b) (a ++ (k, v) :: b)) by (rewrite !map_app; done).
      destruct (key_position s (a ++ (k, v) :: b)) as [i|] eqn:Hi; cbn [mbind option_bind]; [|right; by constructor].
      apply key_position_at in Hi; [|done]. destruct (update_nth_other (fun kv => pair kv.1 <$> set_path q h kv.2) i a b Hi) as [Hu|(a' & b' & Ha' & Hu)];
        rewrite !Hu; cbn; [right; by constructor|]. right. constructor; [|done].
      clear -Ha Ha'. induction Ha' as [|[k1 x] [k2 y] a a' Hxy _ IH]; [constructor|]. apply Forall_cons in Ha as [Hk Ha]. constructor; [|by apply IH].
      cbn in *. destruct Hxy as [[= <- _]|Hxy]; [done|]. destruct (set_path q h x); [|done]. cbn in Hxy. by injection Hxy as <- _.
  - destruct (parse_index s) as [i|]; cbn [mbind option_bind]; [|right; by constructor]. destruct (decide (i = length a)) as [->|Hi].
    + rewrite !update_nth_mid.
      assert (forall x, default (JArr (a ++ x :: b)) (JArr <$> ((fun y => a ++ y :: b) <$> set_path q h x)) = JArr (a ++ set_or q h x :: b)) as Hx
        by (intros x; unfold set_or; by destruct (set_path q h x)).
      rewrite !Hx. destruct (IH q) as [->|?]; [by left|right; by constructor].
    + destruct (update_nth_other (set_path q h) i a b Hi) as [Hu|(a' & b' & Ha' & Hu)]; rewrite !Hu; cbn; [right; by constructor|].
      right. constructor; [|done]. by rewrite <- (Forall2_length _ _ _ Ha').
Qed.
Lemma hide_is_set_or v ptr : hide v ptr = match pointer_tokens ptr with Some q => set_or q (JStr HIDDEN) v | None => v end.
Proof. unfold hide, set_or. by destruct (pointer_tokens ptr). Qed.
Lemma redact_agree l v w p ptr : ptr ∈ l -> pointer_tokens ptr = Some p -> agree_except p v w -> redact v l = redact w l.
Proof.
  unfold redact. revert v w; induction l as [|q l IH]; intros v w Hin Hp Ha; [by apply not_elem_of_nil in Hin|]. cbn [foldl]. rewrite !hide_is_set_or.
  destruct (decide (ptr = q)) as [<-|Hne].
  - rewrite Hp. unfold set_or. destruct (set_path_agree p v w (JStr HIDDEN) Ha) as (x & -> & ->). done.
  - apply elem_of_cons in Hin as [?|Hin]; [done|]. destruct (pointer_tokens q) as [q'|]; [|by apply IH].
    destruct (set_or_agree p q' (JStr HIDDEN) v w Ha) as [->|Ha']; [done|by apply IH].
Qed.

(** A redacted field never reaches the summary. Whatever stands at a
    pointer an operation redacts, the summary its human and the event log see
    is the same: two requests that differ only there are described alike. *)
Theorem redacted_never_shown `{UrlParser} (o : Op) (ptr : string) (path : list string) (body body' : Json) method uri params query :
  ptr ∈ op_redact o -> pointer_tokens ptr = Some path -> agree_except path body body' ->
  op_summary o (mkOpInput method uri params query (redact body (op_redact o))) =
  op_summary o (mkOpInput method uri params query (redact body' (op_redact o))).
Proof. intros Hin Hp Ha. by rewrite (redact_agree (op_redact o) body body' path ptr). Qed.
Definition secret_body (value : string) : Json := JObj [("org", JStr "acme"); ("name", JStr "KEY"); ("value", JStr value)].
Definition secret_op : Op := op "secret.put" "Write a secret" (CrownJewel Window) "" (Some Admin) (OrgBody "/org") ["/value"] ["body:/org"; "body:/name"].
Lemma redacted_never_shown_witness :
  op_summary (U := no_urls) secret_op (mkOpInput "POST" "/v1/secrets" [] [] (redact (secret_body "hunter2") ["/value"])) =
  op_summary (U := no_urls) secret_op (mkOpInput "POST" "/v1/secrets" [] [] (redact (secret_body "other") ["/value"])).
Proof.
  apply (@redacted_never_shown no_urls secret_op "/value" ["value"]); [left|reflexivity|].
  apply (agree_field "value" [] [("org", JStr "acme"); ("name", JStr "KEY")] []); [repeat (constructor; [discriminate|]); constructor|constructor].
Defined.
