(* ===== verification/Guard.v ===== *)
(** * What the step-up guard reads of a request (scarab-server/src/step_up/guard.rs)

    A governed request is read once, before its handler runs: its path
    parameters and query, decoded; the summary its human is shown; and the
    canonical form its action digest is computed over. *)

From S2P Require Import Prelude Text Values JsonText Identity Ops.

Definition GUARD_BODY_LIMIT : N := 2 * 1024 * 1024.

(** ** Percent-decoding *)

(** [u8::from_str_radix(_, 16)], of one hex digit. *)
Definition hex_digit_value (c : ascii) : N :=
  let n := byte_of c in (if n <? 58 then n - 48 else if n <? 91 then n - 55 else n - 87)%N.
Fixpoint percent_bytes (plus_is_space : bool) (s : string) : string :=
  match s with
  | EmptyString => ""
  | String c s' =>
      if Ascii.eqb c "+" && plus_is_space then String " " (percent_bytes plus_is_space s')
      else if Ascii.eqb c "%" then
        match s' with
        | String h (String l r) =>
            if is_hexdigit h && is_hexdigit l then String (ascii_of_N (16 * hex_digit_value h + hex_digit_value l)) (percent_bytes plus_is_space r)
            else String c (percent_bytes plus_is_space s')
        | _ => String c (percent_bytes plus_is_space s')
        end
      else String c (percent_bytes plus_is_space s')
  end.

(** [String::from_utf8_lossy]: the longest valid start of a character that is
    not one becomes U+FFFD. *)
Definition REPLACEMENT : string := String (ascii_of_N 0xEF) (String (ascii_of_N 0xBF) (String (ascii_of_N 0xBD) "")).
Definition byte_at (i : nat) (s : string) : N := default 0%N (byte_of <$> String.get i s).
Definition in_bytes (lo hi n : N) : bool := (lo <=? n)%N && (n <=? hi)%N.
Definition continues (i : nat) (s : string) : bool := in_bytes 0x80 0xBF (byte_at i s).
(** Which second bytes may follow a lead byte of a three- or four-byte
    character. *)
Definition second_ok (lead second : N) : bool :=
  if (lead =? 0xE0)%N then in_bytes 0xA0 0xBF second
  else if (lead =? 0xED)%N then in_bytes 0x80 0x9F second
  else if (lead =? 0xF0)%N then in_bytes 0x90 0xBF second
  else if (lead =? 0xF4)%N then in_bytes 0x80 0x8F second
  else in_bytes 0x80 0xBF second.
(** The first chunk of a non-empty text: what it becomes, how long it was. *)
Definition utf8_chunk (s : string) : string * nat :=
  let lead := byte_at 0 s in
  if (lead <? 0x80)%N then (take_str 1 s, 1)
  else if in_bytes 0xC2 0xDF lead then if continues 1 s then (take_str 2 s, 2) else (REPLACEMENT, 1)
  else if in_bytes 0xE0 0xEF lead then
    if negb (second_ok lead (byte_at 1 s)) then (REPLACEMENT, 1)
    else if continues 2 s then (take_str 3 s, 3) else (REPLACEMENT, 2)
  else if in_bytes 0xF0 0xF4 lead then
    if negb (second_ok lead (byte_at 1 s)) then (REPLACEMENT, 1)
    else if negb (continues 2 s) then (REPLACEMENT, 2)
    else if continues 3 s then (take_str 4 s, 4) else (REPLACEMENT, 3)
  else (REPLACEMENT, 1).
(** [skip] bytes of the chunk before are left. *)
Fixpoint lossy_from (skip : nat) (s : string) : string :=
  match s with
  | EmptyString => ""
  | String _ s' => match skip with S skip => lossy_from skip s' | 0 => let '(out, n) := utf8_chunk s in out +:+ lossy_from (n - 1) s' end
  end.
Definition from_utf8_lossy : string -> string := lossy_from 0.
Definition percent_decode (s : string) (plus_is_space : bool) : string := from_utf8_lossy (percent_bytes plus_is_space s).

(** ** Path parameters and query *)

Fixpoint trim_start_slashes (s : string) : string :=
  match s with String c s' => if Ascii.eqb c "/" then trim_start_slashes s' else s | EmptyString => "" end.
Definition strip_brace (s : string) : option string :=
  match String.length s with
  | 0 => None
  | S n => if String.eqb (drop_str n s) "}" then Some (take_str n s) else None
  end.
(** The name a pattern segment binds: [{*name}], [{name}]. *)
Definition wildcard_name (p : string) : option string := strip_prefix "{*" p ≫= strip_brace.
Definition param_name (p : string) : option string := strip_prefix "{" p ≫= strip_brace.
Fixpoint match_segments (pattern segs : list string) : list (string * string) :=
  match pattern with
  | [] => []
  | p :: pattern =>
      match wildcard_name p with
      | Some name => [(name, percent_decode (join "/" segs) false)]
      | None =>
          let rest := match_segments pattern (tail segs) in
          match param_name p with Some name => (name, percent_decode (default "" (head segs)) false) :: rest | None => rest end
      end
  end.
Definition path_params (pattern path : string) : list (string * string) :=
  match_segments (split "/" (trim_start_slashes pattern)) (split "/" (trim_start_slashes path)).

(** [(String, String)]'s order. *)
Definition pair_le (a b : string * string) : Prop := a.1 <> b.1 /\ str_le a.1 b.1 \/ a.1 = b.1 /\ str_le a.2 b.2.
#[export] Instance pair_le_dec : RelDecision pair_le.
Proof. intros a b. unfold pair_le. apply _. Defined.
Definition query_pair (p : string) : string * string :=
  let '(k, v) := default (p, "") (split_once "=" p) in (percent_decode k true, percent_decode v true).
Definition query_pairs (raw : string) : list (string * string) :=
  map query_pair (List.filter (fun p => negb (String.eqb p "")) (split "&" raw)).
Definition sorted_query (raw : string) : list (string * string) := merge_sort pair_le (query_pairs raw).

(** ** The canonical form *)

(** Every object's keys sorted. *)
Fixpoint sort_json (v : Json) : Json :=
  match v with
  | JObj m => JObj (btree_list (list_to_map (map (fun p => (p.1, sort_json p.2)) m)))
  | JArr l => JArr (map sort_json l)
  | v => v
  end.
Definition canonical_json (v : Json) : string := json_text (sort_json v).
Definition canonical_field (tag bytes : string) : string := tag +:+ ":" +:+ framed bytes.
Definition canonical_query (query : list (string * string)) : string :=
  concat_chars (map (fun p => canonical_field "qk" p.1 +:+ canonical_field "qv" p.2) query).
Definition CANONICAL_HEADER : string := "scarab-step-up-canonical/v1" +:+ String (ascii_of_N 10) "".
Definition canonical_form (method path : string) (query : list (string * string)) (raw_body : string) (json : option Json) : string :=
  CANONICAL_HEADER +:+ canonical_field "method" method +:+ canonical_field "path" path +:+ canonical_query query +:+
  match json with Some v => canonical_field "json" (canonical_json v) | None => canonical_field "raw" raw_body end.

Example path_params_follow :
  path_params "/v1/orgs/{org}/plugins/{name}" "/v1/orgs/acme/plugins/argo%20c+d" = [("org", "acme"); ("name", "argo c+d")] /\
  path_params "/v1/runs/{id}/artifacts/{*name}" "/v1/runs/r1/artifacts/a/b.txt" = [("id", "r1"); ("name", "a/b.txt")].
Proof. by vm_compute. Qed.
Example percent_decodes :
  percent_decode "a%2Fb+c" true = "a/b c" /\ percent_decode "100%" true = "100%" /\ percent_decode "%zz" true = "%zz" /\ percent_decode "%+1" true = "% 1".
Proof. by vm_compute. Qed.
(** A lead byte and half a character after it are one replacement. *)
Example lossy_decodes : percent_decode "%E2%82%28%FF" true = REPLACEMENT +:+ "(" +:+ REPLACEMENT.
Proof. by vm_compute. Qed.

(** ** Query order *)

#[export] Instance pair_le_trans : Transitive pair_le.
Proof.
  intros a b c [[H1 H2]|[H1 H2]] [[H3 H4]|[H3 H4]]; unfold pair_le.
  - left. split; [|by etrans]. intros E. apply H1. rewrite <- E in H4. by apply (anti_symm str_le).
  - left. rewrite <- H3. done.
  - left. rewrite H1. done.
  - right. split; [congruence|by etrans].
Qed.
#[export] Instance pair_le_total : Total pair_le.
Proof.
  intros a b. unfold pair_le. destruct (decide (a.1 = b.1)) as [E|E].
  - destruct (total str_le a.2 b.2); [left|right]; by right.
  - destruct (total str_le a.1 b.1); [left|right]; left; split; congruence.
Qed.
#[export] Instance pair_le_antisymm : AntiSymm (=) pair_le.
Proof.
  intros [a1 a2] [b1 b2] [[H1 H2]|[H1 H2]] [[H3 H4]|[H3 H4]]; cbn in *; try congruence.
  - destruct H1. by apply (anti_symm str_le).
  - f_equal; [done|]. by apply (anti_symm str_le).
Qed.
Lemma sorted_query_perm raw raw' : sorted_query raw = sorted_query raw' <-> query_pairs raw ≡ₚ query_pairs raw'.
Proof.
  unfold sorted_query. split.
  - intros E. rewrite <- (merge_sort_Permutation pair_le (query_pairs raw)), E. apply merge_sort_Permutation.
  - intros E. apply (StronglySorted_unique pair_le); [apply (StronglySorted_merge_sort pair_le)..|].
    by rewrite !merge_sort_Permutation.
Qed.

(** ** Bodies up to the order of keys *)

(** The same value, whatever order its objects' members are written in. *)
#[warnings="-register-all"]
Inductive same_body : Json -> Json -> Prop :=
| same_plain v : (match v with JArr _ | JObj _ => False | _ => True end) -> same_body v v
| same_array l l' : Forall2 same_body l l' -> same_body (JArr l) (JArr l')
| same_object m m' :
    (forall k, is_Some (json_get (JObj m) k) <-> is_Some (json_get (JObj m') k)) ->
    (forall k v v', json_get (JObj m) k = Some v -> json_get (JObj m') k = Some v' -> same_body v v') ->
    same_body (JObj m) (JObj m').
Lemma btree_list_inj {A} (m m' : gmap string A) : btree_list m = btree_list m' -> m = m'.
Proof.
  intros E. apply map_eq. intros k. apply option_eq. intros v. by rewrite <- !elem_of_btree_list, E.
Qed.
Lemma sorted_member m k : (list_to_map (map (fun p : string * Json => (p.1, sort_json p.2)) m) : gmap string Json) !! k = sort_json <$> json_get (JObj m) k.
Proof.
  rewrite json_get_list_to_map. induction m as [|[k' v] m IH]; [done|]. cbn [map fst snd]. rewrite !list_to_map_cons.
  destruct (decide (k' = k)) as [->|Hne]; [by rewrite !lookup_insert_eq|]. by rewrite !(lookup_insert_ne _ _ _ _ Hne).
Qed.
Lemma member_in m k v : json_get (JObj m) k = Some v -> (k, v) ∈ m.
Proof.
  cbn. destruct (List.find _ m) as [[k' v']|] eqn:E; [|done]. cbn. intros [= <-]. apply find_some in E as [E Hk]. apply String.eqb_eq in Hk. cbn in Hk. subst k'. by apply list_elem_of_In.
Qed.
Lemma sort_json_same v w : sort_json v = sort_json w <-> same_body v w.
Proof.
  split.
  - revert w; induction v as [|b|z|t|s|l IH|m IH] using json_induction; intros [|b'|z'|t'|s'|l'|m'] E; cbn [sort_json] in E; try discriminate; try (injection E as <-; by constructor).
    + by constructor.
    + constructor. injection E as E. revert l' E. induction l as [|v l IHl]; intros [|v' l'] E; try discriminate; constructor.
      * injection E as E _. apply IH; [left|done].
      * injection E as _ E. apply IHl; [|done]. intros x Hx. apply IH. by right.
    + injection E as E. apply btree_list_inj in E. assert (forall k, sort_json <$> json_get (JObj m) k = sort_json <$> json_get (JObj m') k) as Hk by (intros k; by rewrite <- !sorted_member, E).
      constructor.
      * intros k. specialize (Hk k). destruct (json_get (JObj m) k), (json_get (JObj m') k); try discriminate; [|done]. split; eauto.
      * intros k v v' Hv Hv'. specialize (Hk k). rewrite Hv, Hv' in Hk. injection Hk as Hk. apply (IH k); [by apply member_in|done].
  - revert w; induction v as [|b|z|t|s|l IH|m IH] using json_induction; intros w Hs; inversion Hs as [v Hv|l1 l' Hl|m1 m' Hi Hv]; subst; try done.
    + cbn. f_equal. clear Hs. induction Hl as [|v v' l l' H _ IHl]; [done|]. cbn. f_equal; [apply IH; [left|done]|].
      apply IHl. intros x Hx. apply IH. by right.
    + cbn. f_equal. f_equal. apply map_eq. intros k. rewrite !sorted_member. destruct (Hi k) as [H1 H2].
      destruct (json_get (JObj m) k) as [v|] eqn:E, (json_get (JObj m') k) as [v'|] eqn:E'; cbn; [|by destruct (H1 (mk_is_Some _ _ eq_refl))|by destruct (H2 (mk_is_Some _ _ eq_refl))|done].
      f_equal. apply (IH k); [by apply member_in|]. by eapply Hv.
Qed.
Lemma floats_ok_sort v : floats_ok v = true -> floats_ok (sort_json v) = true.
Proof.
  induction v as [|b|z|t|s|l IH|m IH] using json_induction; cbn; intros H; try done.
  - apply forallb_forall. intros x Hx. apply in_map_iff in Hx as (v & <- & Hv). apply IH; [by apply list_elem_of_In|]. by apply (proj1 (forallb_forall _ _) H).
  - apply forallb_forall. intros [k x] Hx. apply list_elem_of_In, elem_of_btree_list, elem_of_list_to_map_2, list_elem_of_In, in_map_iff in Hx as ([k' v] & [= <- <-] & Hv).
    cbn. apply (IH k'); [by apply list_elem_of_In|]. by apply (proj1 (forallb_forall _ _) H (k', v)).
Qed.
Lemma canonical_json_same v w : floats_ok v = true -> floats_ok w = true -> canonical_json v = canonical_json w <-> same_body v w.
Proof.
  intros Hv Hw. rewrite <- sort_json_same. unfold canonical_json. split; [|by intros ->]. intros E.
  apply json_text_inj in E; [done|by apply floats_ok_sort..].
Qed.

(** ** The canonical form is read one way *)

Lemma string_app_cancel (a r r' : string) : a +:+ r = a +:+ r' -> r = r'.
Proof. induction a as [|c a IH]; [done|]. rewrite !string_app_cons. intros [= E]. by apply IH. Qed.
Lemma field_split tag a a' r r' : canonical_field tag a +:+ r = canonical_field tag a' +:+ r' -> a = a' /\ r = r'.
Proof. unfold canonical_field. rewrite !string_app_assoc. intros E%string_app_cancel%string_app_cancel. by apply framed_split in E. Qed.
(** What is written after the query. *)
Definition body_field (raw : string) (json : option Json) : string :=
  match json with Some v => canonical_field "json" (canonical_json v) | None => canonical_field "raw" raw end.
Lemma query_split q q' raw raw' j j' :
  canonical_query q +:+ body_field raw j = canonical_query q' +:+ body_field raw' j' -> q = q' /\ body_field raw j = body_field raw' j'.
Proof.
  assert (forall p q raw j x, body_field raw j <> canonical_query (p :: q) +:+ x) as Hne.
  { intros p q0 raw0 [v|] x; unfold canonical_query; cbn; by intros [=]. }
  revert q'; induction q as [|[k v] q IH]; intros [|[k' v'] q'] E.
  - done.
  - change (canonical_query [] +:+ ?x) with x in E. by apply Hne in E.
  - change (canonical_query [] +:+ ?x) with x in E. symmetry in E. by apply Hne in E.
  - unfold canonical_query in E. cbn [map concat_chars fst snd] in E. rewrite !string_app_assoc in E.
    apply field_split in E as [-> E]. apply field_split in E as [-> E]. by apply IH in E as [-> ->].
Qed.
Lemma body_field_inj raw raw' j j' : body_field raw j = body_field raw' j' ->
  match j, j' with Some v, Some w => canonical_json v = canonical_json w | None, None => raw = raw' | _, _ => False end.
Proof.
  destruct j as [v|], j' as [w|]; cbn [body_field]; try (by intros [=]).
  - intros E. rewrite <- (string_app_nil_r (canonical_field _ _)), <- (string_app_nil_r (canonical_field "json" (canonical_json w))) in E. by apply field_split in E as [? _].
  - intros E. rewrite <- (string_app_nil_r (canonical_field _ _)), <- (string_app_nil_r (canonical_field "raw" raw')) in E. by apply field_split in E as [? _].
Qed.

(** C32: an action digest is of one request. Two requests have the same
    canonical form exactly when they have the same method and path, the same
    decoded query pairs in whatever order they were written, and the same
    body: the same JSON up to the order of its objects' keys, or the same raw
    bytes. So what a human confirmed, by its digest, is what runs, and a
    client that merely writes the query or the keys in another order is not
    asked again. *)
Theorem canonical_form_binds method method' path path' query query' raw raw' json json' :
  from_option floats_ok true json = true -> from_option floats_ok true json' = true ->
  canonical_form method path (sorted_query query) raw json = canonical_form method' path' (sorted_query query') raw' json' <->
  method = method' /\ path = path' /\ query_pairs query ≡ₚ query_pairs query' /\
  match json, json' with Some v, Some w => same_body v w | None, None => raw = raw' | _, _ => False end.
Proof.
  intros Hj Hj'. rewrite <- sorted_query_perm. change (canonical_form ?m ?p ?q ?r ?j) with
    (CANONICAL_HEADER +:+ canonical_field "method" m +:+ canonical_field "path" p +:+ canonical_query q +:+ body_field r j). split.
  - intros E%string_app_cancel. apply field_split in E as [-> E]. apply field_split in E as [-> E]. apply query_split in E as [-> E].
    split_and!; [done..|]. apply body_field_inj in E. destruct json as [v|], json' as [w|]; try done. by apply canonical_json_same in E.
  - intros (-> & -> & -> & Hb). do 4 f_equal. destruct json as [v|], json' as [w|]; try done; [|by rewrite Hb].
    cbn [body_field]. f_equal. by apply canonical_json_same.
Qed.
Lemma canonical_form_binds_witness :
  let body k := JObj k in
  canonical_form "PUT" "/v1/secrets" (sorted_query "org=acme&name=X") "" (Some (body [("b", JInt 1); ("a", JFloat "1.5")]))
  = canonical_form "PUT" "/v1/secrets" (sorted_query "name=%58&org=acme") "" (Some (body [("a", JFloat "1.5"); ("b", JInt 1)])).
Proof.
  cbv zeta. apply canonical_form_binds; [reflexivity|reflexivity|]. split; [reflexivity|]. split; [reflexivity|]. split; [apply perm_swap|].
  apply sort_json_same. vm_compute. reflexivity.
Defined.
