(* ===== verification/OpTable.v ===== *)
(** * Every governed operation and every route (scarab-server/src/step_up/ops.rs, routes.rs)

    The operations as the source declares them, one definition each, and the
    route table the step-up guard consults. *)

From S2P Require Import Prelude Text Identity Ops.

Definition ADMIN : option Role := Some Admin.
Definition MEMBER : option Role := Some Member.
Definition VIEWER : option Role := Some Viewer.
Definition ANYONE : option Role := None.
Definition W : Mode := Window.
Definition A : Mode := AlwaysAsk.


Definition READ : Op :=
  op "read" "Read" ReadClass "reads are never governed" ANYONE OrgNone [] [].
Definition AUTH_LOGIN : Op :=
  op "auth.login" "Log in" (NotGoverned "authentication; a login never counts as a step-up") "§1" ANYONE OrgNone ["/credential"; "/code_verifier"] [].
Definition AUTH_LOGOUT : Op :=
  op "auth.logout" "Log out" (NotGoverned "ends the session") "-" ANYONE OrgNone [] [].
Definition RUN_CREATE : Op :=
  op "run.create" "Create a run" (NotGoverned "dispatching a run is off the list") "§3 not on the list" MEMBER OrgNone [] [].
Definition STEP_RERUN : Op :=
  op "step.rerun" "Rerun a step" (NotGoverned "a run write") "§3 not on the list" MEMBER OrgRun [] ["path:id"; "path:step"].
Definition STEP_RETRY : Op :=
  op "step.retry" "Retry a step" (NotGoverned "re-asks its gates, never releases one") "§3 not on the list" MEMBER OrgRun [] ["path:id"; "path:step"].
Definition SNAPSHOTS_PIN : Op :=
  op "run.snapshots_pin" "Pin a run's snapshots" (NotGoverned "extends retention") "§3 not on the list" MEMBER OrgRun [] ["path:id"].
Definition GATE_RELEASE : Op :=
  op "gate.release_external" "Release an external or plugin gate" (NotGoverned "the external-gate HMAC token is the approval (ADR-0034), or a plugin's scarab-api token answers a gate that names it (ADR-0076 §7); a machine, no session") "§5" ANYONE OrgRun [] ["path:id"; "path:step"].
Definition STEP_RESULTS : Op :=
  op "step.results_ingest" "Ingest step results" (NotGoverned "the sidecar's fence token (ADR-0042)") "-" ANYONE OrgRun [] ["path:id"; "path:step"].
Definition ENV_LEGACY_PUT : Op :=
  op "environment.legacy_put" "Write a per-repo environment" (NotGoverned "retired, always 410 (ADR-0071)") "-" ANYONE (OrgPath "org") [] [].
Definition ENV_LEGACY_DELETE : Op :=
  op "environment.legacy_delete" "Delete a per-repo environment" (NotGoverned "retired, always 410 (ADR-0071)") "-" ANYONE (OrgPath "org") [] [].
Definition MIGRATION_ACK : Op :=
  op "environment.migration_report_ack" "Acknowledge an environment migration report" (NotGoverned "an acknowledgement record; no governance change") "-" ADMIN (OrgPath "org") [] ["path:org"; "path:env"].
Definition CONNECTION_RESYNC : Op :=
  op "connection.resync" "Resync a forge connection" (CrownJewel W) "§3 ForgeConnection edits (AMBIG)" ADMIN OrgConnection [] ["path:id"].
Definition CONNECTION_WEBHOOK : Op :=
  op "connection.webhook_register" "Register a repo webhook" (NotGoverned "idempotent re-registration for an already-bound repo") "§3 ForgeConnection edits (AMBIG)" ADMIN OrgConnection [] ["path:id"; "path:owner"; "path:name"].
Definition SECRET_CELL_SILENCE : Op :=
  op "secret_matrix.silence" "Silence a secret-matrix cell" (NotGoverned "an advisory annotation") "-" ADMIN (OrgPath "org") [] ["path:org"; "path:repo"].
Definition SECRET_CELL_UNSILENCE : Op :=
  op "secret_matrix.unsilence" "Unsilence a secret-matrix cell" (NotGoverned "an advisory annotation") "-" ADMIN (OrgPath "org") [] ["path:org"; "path:repo"].
Definition DISPATCH : Op :=
  op "repo.dispatch" "Dispatch a pipeline" (NotGoverned "dispatching a Deploy Run is off the list; its Environment governs it") "§3 not on the list" MEMBER (OrgPath "org") [] ["path:org"; "path:repo"].
Definition WEBHOOK_GITHUB : Op :=
  op "webhook.github" "GitHub webhook delivery" (NotGoverned "an HMAC-verified machine delivery") "-" ANYONE OrgNone [] [].
Definition WEBHOOK_FORGEJO : Op :=
  op "webhook.forgejo" "Forgejo webhook delivery" (NotGoverned "an HMAC-verified machine delivery") "-" ANYONE OrgNone [] [].
Definition TOKEN_REVOKE : Op :=
  op "token.revoke" "Revoke an API token" (Exempt "revocation tightens") "§3 not on the list" ADMIN (OrgPath "org") [] ["path:org"; "path:id"].
Definition TOKEN_REVOKE_OWN : Op :=
  not_by_token (op "token.revoke_own" "Revoke one of your API tokens" (Exempt "revocation tightens") "§3 not on the list" ANYONE OrgNone [] ["path:id"]).
Definition RUN_CANCEL : Op :=
  op "run.cancel" "Cancel a run" (Exempt "cancelling a Run") "§3 not on the list" MEMBER OrgRun [] ["path:id"].
Definition GATE_REJECT : Op :=
  op "gate.reject" "Reject a gate" (Exempt "a reject can only fail a Gate, never release one") "§3 not on the list" MEMBER OrgRun [] ["path:id"; "path:step"].
Definition PRIVILEGE_GRANT_DELETE : Op :=
  op "environment.privilege_grant.delete" "Withdraw a privilege grant" (Exempt "withdrawing a grant tightens") "§3 not on the list" ADMIN (OrgPath "org") [] ["path:org"; "path:env"; "path:project"].
Definition PLUGIN_UNINSTALL : Op :=
  op "plugin.uninstall" "Uninstall a plugin" (Exempt "uninstall") "§3 not on the list" ADMIN (OrgPath "org") [] ["path:org"; "path:name"].
Definition PLUGIN_KILL : Op :=
  op "plugin.kill" "Kill a plugin" (Exempt "the kill switch") "§3 not on the list" ADMIN (OrgPath "org") [] ["path:org"; "path:name"].
Definition PLUGIN_CONNECTION_DELETE : Op :=
  op "plugin_connection.delete" "Remove a plugin connection" (Exempt "removes an outbound channel") "§3 not on the list" ADMIN (OrgPath "org") [] ["path:org"; "path:name"; "path:slot"].
Definition PLUGIN_STORAGE_DELETE : Op :=
  op "plugin.storage.delete" "Stop mounting a plugin's storage" (Exempt "the plugin loses access to the claim; the claim and its data stay") "§3 not on the list" ADMIN (OrgPath "org") [] ["path:org"; "path:name"].
Definition IDENTITY_LINK : Op :=
  browser_only (op "identity.link" "Link a login identity" (CrownJewel W) "§3 identity links" ANYONE OrgNone [] ["body:/provider"]).
Definition IDENTITY_UNLINK : Op :=
  browser_only (op "identity.unlink" "Unlink a login identity" (CrownJewel W) "§3 identity links (AMBIG)" ANYONE OrgNone [] ["path:provider"]).
Definition BINDING_PUT : Op :=
  op "binding.put" "Change a role binding" (CrownJewel W) "§3 role changes" ADMIN (OrgPath "org") [] ["path:org"; "body:/project"; "body:/subject"].
Definition BINDING_DELETE : Op :=
  op "binding.delete" "Revoke a role binding" (CrownJewel W) "§3 role changes (AMBIG: a revoke is a lock-out vector)" ADMIN (OrgPath "org") [] ["path:org"; "query:project"; "query:subject"].
Definition BINDINGS_IMPORT : Op :=
  in_project (ProjectPath "repo") (op "binding.import" "Import role bindings from the forge" (CrownJewel W) "§3 role changes" ADMIN (OrgPath "org") [] ["path:org"; "path:repo"]).
Definition SECRET_PUT : Op :=
  max_request_body (256 * 1024)%N (in_project (ProjectBody "/repo") (op "secret.put" "Write a secret" (CrownJewel W) "§3 secret writes" ADMIN (OrgBody "/org") ["/value"] ["body:/org"; "body:/repo"; "body:/environment"; "body:/name"])).
Definition SECRET_DELETE : Op :=
  in_project (ProjectQuery "repo") (op "secret.delete" "Delete a secret" (CrownJewel W) "§3 secret writes; irreversible destruction" ADMIN (OrgQuery "org") [] ["query:org"; "query:repo"; "query:environment"; "query:name"]).
Definition ENVIRONMENT_DELETE : Op :=
  op "environment.delete" "Delete an Environment" (CrownJewel W) "§3 irreversible destruction" ADMIN (OrgPath "org") [] ["path:org"; "path:env"].
Definition ENVIRONMENT_DUPLICATE : Op :=
  op "environment.duplicate" "Duplicate an Environment" (CrownJewel W) "§3 secret writes; EnvironmentProjectEligibility (copies both)" ADMIN (OrgPath "org") [] ["path:org"; "path:env"].
Definition OVERLAY_DELETE : Op :=
  in_project (ProjectPath "project") (op "environment.overlay.delete" "Delete a project's Environment overlay" (CrownJewel W) "§3 Environment loosening (back to the baseline)" ADMIN (OrgPath "org") [] ["path:org"; "path:env"; "path:project"]).
Definition PLUGIN_ENABLE : Op :=
  op "plugin.enable" "Re-enable a killed plugin" (CrownJewel W) "§3 plugin install (AMBIG: the inverse of the kill switch)" ADMIN (OrgPath "org") [] ["path:org"; "path:name"].
Definition CONNECTION_CREATE : Op :=
  op "connection.create" "Add a forge connection" (CrownJewel W) "§3 ForgeConnection edits" ADMIN (OrgBody "/org") ["/credential"] ["body:/org"; "body:/kind"; "body:/base_url"].
Definition CONNECTION_DELETE : Op :=
  op "connection.delete" "Delete a forge connection" (CrownJewel W) "§3 ForgeConnection edits; Project deletion" ADMIN OrgConnection [] ["path:id"].
Definition CONNECTION_ASSIGN_ORG : Op :=
  not_by_token (op "connection.assign_org" "Assign a forge connection to an org" (CrownJewel W) "§3 ForgeConnection edits" ADMIN (OrgBody "/org") [] ["path:id"; "body:/org"]).
Definition CONNECTION_BIND_REPO : Op :=
  op "connection.bind_repo" "Bind a repository" (CrownJewel W) "§3 ForgeConnection edits (AMBIG)" ADMIN OrgConnection [] ["path:id"; "body:/owner"; "body:/name"].
Definition CONNECTION_UNBIND_REPO : Op :=
  op "connection.unbind_repo" "Unbind a repository (delete its Project)" (CrownJewel W) "§3 irreversible destruction (Project)" ADMIN OrgConnection [] ["path:id"; "path:owner"; "path:name"].
Definition STEP_ATTACH : Op :=
  browser_only (op "step.attach" "Open a shell in a running step's Pod" (CrownJewel W) "§3 a shell into a step Pod (git-bug 606102b)" ADMIN OrgRun [] ["path:id"; "path:step"]).
Definition STEP_DEBUG_POD : Op :=
  browser_only (op "step.debug_pod" "Open a shell in a fresh Pod of a step" (CrownJewel W) "§3 a shell into a step Pod (git-bug 606102b)" ADMIN OrgRun [] ["path:id"; "path:step"]).
Definition SNAPSHOTS_UNPIN : Op :=
  op "run.snapshots_unpin" "Unpin a run's snapshots" (CrownJewel W) "§3 shortening retention (git-bug 9bbaa1d)" MEMBER OrgRun [] ["path:id"].
Definition TOKEN_MINT : Op :=
  not_by_token (op "token.mint" "Create an API token" (CrownJewel A) "§3/§4 API token creation" VIEWER (OrgPath "org") [] ["path:org"; "body:/project"; "body:/name"]).
Definition TOKEN_MINT_OWN : Op :=
  not_by_token (op "token.mint_own" "Create a personal API token" (CrownJewel A) "§3/§4 API token creation" VIEWER (OrgBody "/org") [] ["body:/org"; "body:/project"; "body:/name"]).
Definition PLUGIN_INSTALL : Op :=
  op "plugin.install" "Install a plugin" (CrownJewel A) "§3/§4 plugin install" ADMIN (OrgPath "org") [] ["path:org"; "body:/name"].
Definition PLUGIN_CONNECTION_PUT : Op :=
  op "plugin_connection.put" "Set a plugin connection" (CrownJewel A) "§3/§4 PluginConnection create/edit and its destination" ADMIN (OrgPath "org") ["/credential"] ["path:org"; "path:name"; "path:slot"].
Definition IDENTITY_LINK_MOVING_PASSKEYS : Op :=
  browser_only (op "identity.link_moving_passkeys" "Link a login identity and take its Principal's passkeys" (CrownJewel A) "§3 identity links; §2 adding a passkey" ANYONE OrgNone [] ["body:/provider"]).
Definition PASSKEY_REMOVE : Op :=
  op "passkey.remove" "Remove a passkey" (CrownJewel A) "§2/§4 passkey removal" ANYONE OrgNone [] ["path:id"].
Definition PASSKEY_RESET : Op :=
  op "passkey.reset" "Reset a member's passkeys" (CrownJewel A) "§2/§4 passkey reset (an Owner's; the operator break-glass has no route)" (Some Owner) (OrgPath "org") [] ["path:org"; "path:subject"].
Definition GATE_APPROVE : Op :=
  op "gate.approve" "Approve a gate" (Conditional W "the run's Environment has approvers") "§3 approvals on Gates of Environments with approvers" MEMBER OrgRun [] ["path:id"; "path:step"].
Definition ENVIRONMENT_PUT : Op :=
  op "environment.put" "Write an Environment" (NotGoverned "a name, a display name and a description; the deployment sources it once governed (E3) went with ADR-0074") "§3 not on the list" ADMIN (OrgPath "org") [] ["path:org"; "path:env"].
Definition ELIGIBILITY_PUT : Op :=
  op "environment.eligibility.put" "Change an Environment's eligible projects" (Conditional W "E2: widens eligibility") "§3 EnvironmentProjectEligibility" ADMIN (OrgPath "org") [] ["path:org"; "path:env"].
Definition PROTECTION_PUT : Op :=
  op "environment.protection.put" "Change an Environment's protection rules" (Conditional W "E1: loosens the protection rules") "§3 protection rules" ADMIN (OrgPath "org") [] ["path:org"; "path:env"].
Definition OVERLAY_PUT : Op :=
  in_project (ProjectPath "project") (op "environment.overlay.put" "Change a project's Environment overlay" (Conditional W "E1 (+ gate deadline): loosens the overlay") "§3 protection rules (overlay)" ADMIN (OrgPath "org") [] ["path:org"; "path:env"; "path:project"]).
Definition PRIVILEGE_GRANT_PUT : Op :=
  op "environment.privilege_grant.put" "Change a project's privilege grant" (Conditional W "E4: widens the privilege whitelist") "§3 privilege whitelist" ADMIN (OrgPath "org") [] ["path:org"; "path:env"; "path:project"].
Definition PLUGIN_STORAGE_PUT : Op :=
  op "plugin.storage.put" "Set a plugin's storage" (Conditional W "moves existing storage to another claim or mount path; adding storage to an installation that has none is exempt") "§3 ADR-0074 §7 plugin storage (AMBIG: closest to a plugin upgrade)" ADMIN (OrgPath "org") [] ["path:org"; "path:name"; "body:/claim"].
Definition PASSKEY_ADD : Op :=
  browser_only (op "passkey.add" "Add a passkey" (Conditional A "a later passkey is always-ask; the first needs a fresh browser login instead") "§2/§4 passkey add after the first" ANYONE OrgNone [] ["body:/label"]).
Definition PASSKEY_REGISTRATION : Op :=
  op "passkey.registration" "Finish enrolling a passkey" Ceremony "§2 (consumes the challenge minted under the passkey.add rule)" ANYONE OrgNone [] [].
Definition STEP_UP_OPTIONS : Op :=
  op "step_up.options" "Begin a step-up" Ceremony "§4" ANYONE OrgNone [] [].
Definition STEP_UP_CONFIRM : Op :=
  op "step_up.confirm" "Confirm a step-up" Ceremony "§4" ANYONE OrgNone [] [].
Definition STEP_UP_REQUEST_OPTIONS : Op :=
  op "step_up.request_options" "Begin confirming a step-up request" Ceremony "§6 (only the request's own human, in a browser)" ANYONE OrgNone [] [].
Definition STEP_UP_REQUEST_CONFIRM : Op :=
  op "step_up.request_confirm" "Confirm a step-up request" Ceremony "§6 (only the request's own human, in a browser; the replay is guarded as the op itself)" ANYONE OrgNone [] [].
Definition POLICY_CREATE : Op :=
  op "policy.create" "Add an org Policy" (Exempt "adding a Policy tightens") "ADR-0075 §10" ADMIN (OrgPath "org") [] ["path:org"; "body:/policy/name"].
Definition POLICY_UPDATE : Op :=
  op "policy.update" "Change an org Policy" (Conditional W "ADR-0075 §10: any change to an enforced Policy; none to an audit-mode one") "ADR-0075 §10" ADMIN (OrgPath "org") [] ["path:org"; "path:id"].
Definition POLICY_DELETE : Op :=
  op "policy.delete" "Delete an org Policy" (Conditional W "ADR-0075 §10: deleting an enforced Policy; not an audit-mode one") "ADR-0075 §10" ADMIN (OrgPath "org") [] ["path:org"; "path:id"].
Definition PROJECT_POLICY_CREATE : Op :=
  in_project (ProjectPath "project") (op "project_policy.create" "Add a Project typed setting" (Exempt "adding a Policy tightens") "ADR-0075 §10" ADMIN (OrgPath "org") [] ["path:org"; "path:project"; "body:/policy/name"]).
Definition PROJECT_POLICY_UPDATE : Op :=
  in_project (ProjectPath "project") (op "project_policy.update" "Change a Project typed setting" (Conditional W "ADR-0075 §10: any change to an enforced Policy; none to an audit-mode one") "ADR-0075 §10" ADMIN (OrgPath "org") [] ["path:org"; "path:project"; "path:id"]).
Definition PROJECT_POLICY_DELETE : Op :=
  in_project (ProjectPath "project") (op "project_policy.delete" "Delete a Project typed setting" (Conditional W "ADR-0075 §10: deleting an enforced Policy; not an audit-mode one") "ADR-0075 §10" ADMIN (OrgPath "org") [] ["path:org"; "path:project"; "path:id"]).
Definition POLICY_TEST : Op :=
  op "policy.test" "Test Policies" (NotGoverned "evaluates without enforcing or recording") "ADR-0075 §9" ANYONE (OrgPath "org") [] ["path:org"].
Definition LIBRARY_FETCH : Op :=
  op "library.fetch" "Fetch a library version to review" (NotGoverned "stores a version for review; installs nothing") "ADR-0076 §4" ADMIN (OrgPath "org") [] ["path:org"; "body:/source"].
Definition LIBRARY_INSTALL : Op :=
  describe_with DescribeLibraryInstall (op "library.install" "Install or upgrade a library" (CrownJewel W) "ADR-0076 §4: installing and upgrading loosen" ADMIN (OrgPath "org") [] ["path:org"; "path:publisher"; "path:name"; "body:/content_hash"]).
Definition LIBRARY_REMOVE : Op :=
  op "library.remove" "Remove a library" (Exempt "removing a library tightens") "ADR-0076 §4" ADMIN (OrgPath "org") [] ["path:org"; "path:publisher"; "path:name"].
Definition LIBRARY_YANK : Op :=
  op "library.yank" "Yank a library version" (Exempt "yanking tightens") "ADR-0076 §6" ADMIN (OrgPath "org") [] ["path:org"; "body:/content_hash"].
Definition LIBRARY_UNYANK : Op :=
  describe_with DescribeLibraryUnyank (op "library.unyank" "Lift a library yank" (CrownJewel W) "ADR-0076 §6: un-yanking loosens" ADMIN (OrgPath "org") [] ["path:org"; "path:hash"]).
Definition LIBRARY_DEFAULTS_RETRY : Op :=
  op "library.defaults_retry" "Install the first-party libraries" (CrownJewel W) "ADR-0076 §5: installing loosens" ADMIN (OrgPath "org") [] ["path:org"; "body:/mirror"].
Definition LIBRARY_TRUST : Op :=
  op "library.trust" "Trust a library source with forge credentials" (CrownJewel W) "ADR-0076 §9: trusting a source loosens" ADMIN (OrgPath "org") [] ["path:org"; "body:/source"].
Definition LIBRARY_UNTRUST : Op :=
  op "library.untrust" "Stop trusting a library source" (Exempt "removing trust tightens") "ADR-0076 §9" ADMIN (OrgPath "org") [] ["path:org"].

(** ** The route table (scarab-server/src/routes.rs) *)

Inductive Method : Type := GET | HEAD | OPTIONS | POST | PUT | DELETE | OtherMethod (name : string).
#[export] Instance Method_eq_dec : EqDecision Method.
Proof. solve_decision. Defined.
Record RouteEntry := mkRoute { re_method : Method; re_path : string; re_op : Op }.
(** [Routes]' builders: a GET is a [READ] unless it names its operation. *)
Definition get_ (path : string) : RouteEntry := mkRoute GET path READ.
Definition get_governed (path : string) (o : Op) : RouteEntry := mkRoute GET path o.
Definition post (path : string) (o : Op) : RouteEntry := mkRoute POST path o.
Definition put (path : string) (o : Op) : RouteEntry := mkRoute PUT path o.
Definition delete_ (path : string) (o : Op) : RouteEntry := mkRoute DELETE path o.

Definition route_table : list RouteEntry :=
  [ get_ "/healthz";
    get_ "/readyz";
    get_ "/metrics";
    get_ "/openapi.json";
    get_ "/.well-known/jwks.json";
    get_ "/.well-known/openid-configuration";
    post "/v1/auth/login" AUTH_LOGIN;
    get_ "/v1/auth/login";
    get_ "/v1/auth/callback";
    get_ "/v1/auth/providers";
    post "/v1/auth/logout" AUTH_LOGOUT;
    get_ "/v1/me";
    post "/v1/me/identities/link" IDENTITY_LINK;
    post "/v1/me/identities/link-moving-passkeys" IDENTITY_LINK_MOVING_PASSKEYS;
    delete_ "/v1/me/identities/{provider}" IDENTITY_UNLINK;
    get_ "/v1/me/security";
    post "/v1/me/passkeys/registration/options" PASSKEY_ADD;
    post "/v1/me/passkeys/registration" PASSKEY_REGISTRATION;
    delete_ "/v1/me/passkeys/{id}" PASSKEY_REMOVE;
    post "/v1/me/step-up/options" STEP_UP_OPTIONS;
    post "/v1/me/step-up" STEP_UP_CONFIRM;
    get_ "/v1/me/security/events";
    get_ "/v1/me/tokens";
    post "/v1/me/tokens" TOKEN_MINT_OWN;
    delete_ "/v1/me/tokens/{id}" TOKEN_REVOKE_OWN;
    get_ "/v1/security/events";
    get_ "/v1/orgs/{org}/security/events";
    get_ "/v1/orgs/{org}/security/summary";
    post "/v1/orgs/{org}/members/{subject}/passkeys/reset" PASSKEY_RESET;
    get_ "/v1/step-up/requests/{id}";
    post "/v1/step-up/requests/{id}/options" STEP_UP_REQUEST_OPTIONS;
    post "/v1/step-up/requests/{id}/confirm" STEP_UP_REQUEST_CONFIRM;
    get_ "/v1/orgs/{org}/bindings";
    put "/v1/orgs/{org}/bindings" BINDING_PUT;
    delete_ "/v1/orgs/{org}/bindings" BINDING_DELETE;
    get_ "/v1/orgs/{org}/principals";
    get_ "/v1/orgs/{org}/tokens";
    post "/v1/orgs/{org}/tokens" TOKEN_MINT;
    delete_ "/v1/orgs/{org}/tokens/{id}" TOKEN_REVOKE;
    post "/v1/repos/{org}/{repo}/bindings/import" BINDINGS_IMPORT;
    get_ "/v1/repos";
    get_ "/v1/repos/{org}/{repo}/runs";
    get_ "/v1/repos/{org}/{repo}/refused-runs";
    get_ "/v1/repos/{org}/{repo}/schedules";
    post "/v1/runs" RUN_CREATE;
    get_ "/v1/runs";
    get_ "/v1/runs/{id}";
    get_ "/v1/runs/{id}/events";
    get_ "/v1/runs/{id}/logs";
    post "/v1/runs/{id}/steps/{step}/rerun" STEP_RERUN;
    post "/v1/runs/{id}/steps/{step}/restart" STEP_RERUN;
    post "/v1/runs/{id}/steps/{step}/retry" STEP_RETRY;
    get_ "/v1/runs/{id}/steps/{step}/rerun-plan";
    get_ "/v1/runs/{id}/steps/{step}/origin";
    post "/v1/runs/{id}/snapshots-pin" SNAPSHOTS_PIN;
    delete_ "/v1/runs/{id}/snapshots-pin" SNAPSHOTS_UNPIN;
    post "/v1/runs/{id}/cancel" RUN_CANCEL;
    get_ "/v1/runs/{id}/artifacts";
    get_ "/v1/runs/{id}/artifacts/{*name}";
    get_ "/v1/runs/{id}/steps/{step}/logs";
    get_ "/v1/runs/{id}/services";
    get_ "/v1/runs/{id}/services/{service}/logs";
    get_governed "/v1/runs/{id}/steps/{step}/attach" STEP_ATTACH;
    get_governed "/v1/runs/{id}/steps/{step}/debug-pod" STEP_DEBUG_POD;
    get_ "/v1/runs/{id}/steps/{step}/workspace";
    get_ "/v1/runs/{id}/steps/{step}/workspace/file";
    post "/v1/runs/{id}/gates/{step}/approve" GATE_APPROVE;
    post "/v1/runs/{id}/gates/{step}/reject" GATE_REJECT;
    post "/v1/runs/{id}/gates/{step}/release" GATE_RELEASE;
    get_ "/v1/runs/{id}/steps/{step}/results";
    post "/v1/runs/{id}/steps/{step}/results" STEP_RESULTS;
    get_ "/v1/runs/{id}/steps/{step}/consumed";
    post "/v1/secrets" SECRET_PUT;
    get_ "/v1/secrets";
    delete_ "/v1/secrets" SECRET_DELETE;
    get_ "/v1/repos/{org}/{repo}/environments";
    put "/v1/repos/{org}/{repo}/environments/{name}" ENV_LEGACY_PUT;
    get_ "/v1/repos/{org}/{repo}/environments/{name}";
    delete_ "/v1/repos/{org}/{repo}/environments/{name}" ENV_LEGACY_DELETE;
    get_ "/v1/repos/{org}/{repo}/environments/{name}/deployments";
    get_ "/v1/orgs/{org}/environments";
    put "/v1/orgs/{org}/environments/{env}" ENVIRONMENT_PUT;
    get_ "/v1/orgs/{org}/environments/{env}";
    delete_ "/v1/orgs/{org}/environments/{env}" ENVIRONMENT_DELETE;
    post "/v1/orgs/{org}/environments/{env}/duplicate" ENVIRONMENT_DUPLICATE;
    put "/v1/orgs/{org}/environments/{env}/eligibility" ELIGIBILITY_PUT;
    get_ "/v1/orgs/{org}/environments/{env}/eligibility";
    put "/v1/orgs/{org}/environments/{env}/protection" PROTECTION_PUT;
    get_ "/v1/orgs/{org}/environments/{env}/protection";
    get_ "/v1/orgs/{org}/environments/{env}/projects";
    put "/v1/orgs/{org}/environments/{env}/projects/{project}/overlay" OVERLAY_PUT;
    get_ "/v1/orgs/{org}/environments/{env}/projects/{project}/overlay";
    delete_ "/v1/orgs/{org}/environments/{env}/projects/{project}/overlay" OVERLAY_DELETE;
    put "/v1/orgs/{org}/environments/{env}/projects/{project}/privilege-grant" PRIVILEGE_GRANT_PUT;
    get_ "/v1/orgs/{org}/environments/{env}/projects/{project}/privilege-grant";
    delete_ "/v1/orgs/{org}/environments/{env}/projects/{project}/privilege-grant" PRIVILEGE_GRANT_DELETE;
    get_ "/v1/orgs/{org}/environment-migration-report";
    post "/v1/orgs/{org}/environment-migration-report/{env}/acknowledge" MIGRATION_ACK;
    get_ "/v1/orgs/{org}/policies";
    post "/v1/orgs/{org}/policies" POLICY_CREATE;
    get_ "/v1/orgs/{org}/policies/{id}";
    put "/v1/orgs/{org}/policies/{id}" POLICY_UPDATE;
    delete_ "/v1/orgs/{org}/policies/{id}" POLICY_DELETE;
    get_ "/v1/orgs/{org}/policies/{id}/versions";
    get_ "/v1/orgs/{org}/projects/{project}/policies";
    post "/v1/orgs/{org}/projects/{project}/policies" PROJECT_POLICY_CREATE;
    get_ "/v1/orgs/{org}/projects/{project}/policies/{id}";
    put "/v1/orgs/{org}/projects/{project}/policies/{id}" PROJECT_POLICY_UPDATE;
    delete_ "/v1/orgs/{org}/projects/{project}/policies/{id}" PROJECT_POLICY_DELETE;
    get_ "/v1/orgs/{org}/projects/{project}/policies/{id}/versions";
    post "/v1/orgs/{org}/policy-test" POLICY_TEST;
    get_ "/v1/orgs/{org}/policy-decisions";
    get_ "/v1/runs/{id}/policy-decisions";
    get_ "/v1/orgs/{org}/libraries";
    get_ "/v1/orgs/{org}/library-yanks/{hash}/impact";
    post "/v1/orgs/{org}/libraries/fetch" LIBRARY_FETCH;
    put "/v1/orgs/{org}/libraries/{publisher}/{name}" LIBRARY_INSTALL;
    delete_ "/v1/orgs/{org}/libraries/{publisher}/{name}" LIBRARY_REMOVE;
    post "/v1/orgs/{org}/library-yanks" LIBRARY_YANK;
    delete_ "/v1/orgs/{org}/library-yanks/{hash}" LIBRARY_UNYANK;
    post "/v1/orgs/{org}/library-defaults/retry" LIBRARY_DEFAULTS_RETRY;
    post "/v1/orgs/{org}/library-trust" LIBRARY_TRUST;
    delete_ "/v1/orgs/{org}/library-trust" LIBRARY_UNTRUST;
    get_ "/v1/orgs/{org}/plugin-catalog";
    get_ "/v1/orgs/{org}/plugins";
    get_ "/v1/orgs/{org}/gates";
    post "/v1/orgs/{org}/plugins" PLUGIN_INSTALL;
    get_ "/v1/orgs/{org}/plugins/{name}";
    delete_ "/v1/orgs/{org}/plugins/{name}" PLUGIN_UNINSTALL;
    post "/v1/orgs/{org}/plugins/{name}/kill" PLUGIN_KILL;
    post "/v1/orgs/{org}/plugins/{name}/enable" PLUGIN_ENABLE;
    put "/v1/orgs/{org}/plugins/{name}/storage" PLUGIN_STORAGE_PUT;
    delete_ "/v1/orgs/{org}/plugins/{name}/storage" PLUGIN_STORAGE_DELETE;
    get_ "/v1/orgs/{org}/plugins/{name}/connections";
    put "/v1/orgs/{org}/plugins/{name}/connections/{slot}" PLUGIN_CONNECTION_PUT;
    delete_ "/v1/orgs/{org}/plugins/{name}/connections/{slot}" PLUGIN_CONNECTION_DELETE;
    get_ "/v1/connections";
    post "/v1/connections" CONNECTION_CREATE;
    delete_ "/v1/connections/{id}" CONNECTION_DELETE;
    put "/v1/connections/{id}/org" CONNECTION_ASSIGN_ORG;
    post "/v1/connections/{id}/resync" CONNECTION_RESYNC;
    get_ "/v1/connections/{id}/preflight";
    get_ "/v1/connections/{id}/available-repos";
    post "/v1/connections/{id}/repos" CONNECTION_BIND_REPO;
    delete_ "/v1/connections/{id}/repos/{owner}/{name}" CONNECTION_UNBIND_REPO;
    post "/v1/connections/{id}/repos/{owner}/{name}/webhook" CONNECTION_WEBHOOK;
    get_ "/v1/repos/{org}/{repo}/secrets/matrix";
    put "/v1/repos/{org}/{repo}/secrets/matrix/silenced" SECRET_CELL_SILENCE;
    delete_ "/v1/repos/{org}/{repo}/secrets/matrix/silenced" SECRET_CELL_UNSILENCE;
    get_ "/v1/repos/{org}/{repo}/refs";
    get_ "/v1/repos/{org}/{repo}/pipelines";
    get_ "/v1/repos/{org}/{repo}/pipelines/{name}/interface";
    post "/v1/repos/{org}/{repo}/dispatch" DISPATCH;
    post "/webhooks/github" WEBHOOK_GITHUB;
    post "/webhooks/forgejo" WEBHOOK_FORGEJO].

(** ** What the tables promise each other *)

(** The parameters a route's pattern binds: its [{name}] segments. *)
Definition path_names (pattern : string) : list string :=
  omap (fun seg => match seg with
                   | String "{" name => Some (take_until (Ascii.eqb "}") (default name (strip_prefix "*" name)))
                   | _ => None
                   end) (split "/" pattern).
(** The parameters an operation reads from its route's path. *)
Definition named_params (o : Op) : list string :=
  (match op_org_of o with OrgPath n => [n] | OrgRun | OrgConnection => ["id"] | _ => [] end) ++
  (match op_project_of o with ProjectPath n => [n] | _ => [] end) ++ omap (strip_prefix "path:") (op_target o).
Definition params_bound (e : RouteEntry) : bool := forallb (fun n => existsb (String.eqb n) (path_names (re_path e))) (named_params (re_op e)).
Definition reads (e : RouteEntry) : bool := match op_class (re_op e) with ReadClass => true | _ => false end.
Definition jewel (e : RouteEntry) : bool := match op_class (re_op e) with CrownJewel _ => true | _ => false end.
Definition class_fits (e : RouteEntry) : bool :=
  match re_method e with GET => reads e || jewel e | POST | PUT | DELETE => negb (reads e) | _ => false end.
Lemma entry_fits (P : RouteEntry -> bool) : forallb P route_table = true -> forall e, e ∈ route_table -> P e = true.
Proof. intros H e He. apply list_elem_of_In in He. exact (proj1 (forallb_forall P route_table) H e He). Qed.

(** Every route is governed, and by an operation that fits it. Whatever
    route the server has, its operation reads only path parameters the
    route's pattern binds (so the organisation, the project and the targets
    an operation names are there to be read); a GET is a read or a crown
    jewel, and nothing that writes is served as a read; and no method and
    path are routed twice. *)
Theorem route_table_governed :
  (forall e, e ∈ route_table -> forall n, n ∈ named_params (re_op e) -> n ∈ path_names (re_path e)) /\
  (forall e, e ∈ route_table -> class_fits e = true) /\
  NoDup (map (fun e => (re_method e, re_path e)) route_table).
Proof.
  split_and!.
  - intros e He n Hn. assert (params_bound e = true) as Hb by (revert e He Hn; intros e He _; apply entry_fits; [by vm_compute|done]).
    unfold params_bound in Hb. apply list_elem_of_In in Hn. apply list_elem_of_In. apply (proj1 (forallb_forall _ _) Hb), existsb_exists in Hn as (m & Hm & <-%String.eqb_eq). done.
  - apply entry_fits. by vm_compute.
  - apply (bool_decide_unpack (NoDup (map (fun e => (re_method e, re_path e)) route_table))). by vm_compute.
Qed.
