(* ===== verification/Calls.v ===== *)
(** * Step-up code as programs over the step-up stores

    The guard, the ceremonies and the replay of requests
    (scarab-server/src/step_up/) are sequences of awaited calls: on the four
    step-up stores, on the clock and the random generator, and on the rest of
    the server. A program is a tree of such calls; what it does is the set of
    its traces, each call with the state of the stores before and after. Between
    two calls the stores are anything: whatever other requests did. *)

From S2P Require Import Prelude Text Values Identity Auth StepUp Refusals Ops.

(** ** The state the calls share *)

Record Shared := mkShared {
  sh_passkeys : PasskeysState;
  sh_challenges : Challenges;
  sh_step_ups : StepUpState;
  sh_events : EventLog;
  sh_limiter : StepUpRefusalLimiterState;
}.
Definition empty_stores : Shared := mkShared no_passkeys ∅ no_step_ups (mkEventLog [] false) new_limiter.
Definition set_passkeys (p : PasskeysState) (s : Shared) : Shared := mkShared p (sh_challenges s) (sh_step_ups s) (sh_events s) (sh_limiter s).
Definition set_challenges (c : Challenges) (s : Shared) : Shared := mkShared (sh_passkeys s) c (sh_step_ups s) (sh_events s) (sh_limiter s).
Definition set_step_ups (u : StepUpState) (s : Shared) : Shared := mkShared (sh_passkeys s) (sh_challenges s) u (sh_events s) (sh_limiter s).
Definition set_events (l : EventLog) (s : Shared) : Shared := mkShared (sh_passkeys s) (sh_challenges s) (sh_step_ups s) l (sh_limiter s).
Definition set_limiter (l : StepUpRefusalLimiterState) (s : Shared) : Shared := mkShared (sh_passkeys s) (sh_challenges s) (sh_step_ups s) (sh_events s) l.

(** What the rest of the server answers, at one moment: the authentication
    ports of [Auth], and lookups of Runs, connections, Principals and URLs. *)
Record Server := mkServer {
  srv_state : AppState;
  srv_run_scope : string -> option Scope;
  srv_connections : option (string -> Result IdentityError (option (option string)));
  srv_resolve : option (string -> Result IdentityError (option string));
  srv_identities : option (string -> Result IdentityError (list ProviderIdentity));
  srv_providers : list (string * list string);
  srv_bindings : option (string -> Result IdentityError (list Binding));
  srv_ui_url : string;
  srv_fresh_login_url : string -> string;
}.

(** ** Requests and answers *)

Record Request := mkHttp {
  hr_method : string;
  hr_matched : option string;
  hr_path : string;
  hr_query : option string;
  hr_headers : HeaderMap;
  hr_body : option string;
}.
Inductive Ticket : Type := Unresolved | ExemptTicket (why : string) | Authorised (confirmation : option string).
#[export] Instance Ticket_eq_dec : EqDecision Ticket.
Proof. solve_decision. Defined.

(** What a guarded request's handler is told of its confirmation. *)
Record HandlerCtx := mkHandlerCtx { hc_op : string; hc_ticket : Ticket }.

(** ** Calls *)

Inductive Call : Type :=
| Now
| RandomBytes (n : nat)
| RandomId
| AskServer
| ListPasskeys (principal : string)
| GetByCredential (credential_id : string)
| UserHandle (principal fresh : string)
| InsertPasskey (p : Passkey)
| RecordUse (id : string) (read_count new_count : N) (backup_state : bool) (now_ms : Z)
| MarkClone (id : string) (now_ms : Z)
| RemovePasskey (principal id : string)
| RemoveAll (principal : string)
| PrincipalsWithPasskeys (subjects : list string)
| StoreChallenge (c : WebauthnChallenge)
| TakeChallenge (id session_hash : string) (now_ms : Z)
| StoreConfirmation (c : StepUpConfirmation)
| LiveWindow (session_hash principal : string) (now_ms : Z)
| WindowExpiry (session_hash principal : string) (now_ms : Z)
| TakeAction (session_hash principal digest : string) (now_ms : Z)
| RevokeWindows (principal : string)
| RevokeForPasskey (passkey_id : string)
| Raise (r : StepUpRequest) (caps : StepUpRequestPendingCaps) (now_ms : Z)
| GetRequest (id : string)
| Begin (id confirmed_by confirmation_id : string) (now_ms : Z)
| Finish (id : string) (state : RequestState) (status : option Z) (summary : option string) (now_ms : Z)
| PendingInOrg (org : string) (now_ms : Z)
| Append (e : SecurityEvent)
| ListEvents (f : SecurityEventFilter)
| Limit (e : SecurityEvent)
| RunHandler (req : Request) (ctx : option HandlerCtx)
| RunRouter (authority : ReplayAuthority) (method uri : string) (body : string).

Definition answer (c : Call) : Type :=
  match c with
  | Now => Z
  | RandomBytes _ | RandomId => string
  | AskServer => Server
  | ListPasskeys _ => Result IdentityError (list Passkey)
  | GetByCredential _ => Result IdentityError (option Passkey)
  | UserHandle _ _ => Result IdentityError string
  | InsertPasskey _ => Result IdentityError unit
  | RecordUse _ _ _ _ _ => Result IdentityError PasskeyUse
  | MarkClone _ _ | RemovePasskey _ _ => Result IdentityError bool
  | RemoveAll _ => Result IdentityError N
  | PrincipalsWithPasskeys _ => Result IdentityError (gset string)
  | StoreChallenge _ => Result IdentityError unit
  | TakeChallenge _ _ _ => Result IdentityError (option WebauthnChallenge)
  | StoreConfirmation _ => Result IdentityError unit
  | LiveWindow _ _ _ => Result IdentityError (option (string * Z))
  | WindowExpiry _ _ _ => Result IdentityError (option Z)
  | TakeAction _ _ _ _ => Result IdentityError (option string)
  | RevokeWindows _ | RevokeForPasskey _ => Result IdentityError N
  | Raise _ _ _ => Result IdentityError StepUpRequestRaiseOutcome
  | GetRequest _ => Result IdentityError (option StepUpRequest)
  | Begin _ _ _ _ => Result IdentityError BeginExecution
  | Finish _ _ _ _ _ => Result IdentityError bool
  | PendingInOrg _ _ => Result IdentityError N
  | Append _ => Result IdentityError Z
  | ListEvents _ => Result IdentityError (list SecurityEvent)
  | Limit _ => list SecurityEvent
  | RunHandler _ _ => N * Ticket
  | RunRouter _ _ _ _ => N * string
  end.

(** How a call behaves: the environment answers; the process's own memory;
    a store, which may be out of reach; or code that may do anything. *)
Inductive Behaviour : Type -> Type :=
| Asked {A} : Behaviour A
| InMemory {A} (f : Shared -> A * Shared) : Behaviour A
| Stored {A} (f : Shared -> Result IdentityError A * Shared) : Behaviour (Result IdentityError A)
| Anything {A} : Behaviour A.

(** What the stores' code is parametric in: the order in which the limiter's
    hash map is iterated, who holds a binding in an Org, and
    [str::to_lowercase]. *)
Class Host := {
  limiter_entries : gmap StepUpRefusalKey StepUpRefusalBucket -> list (StepUpRefusalKey * StepUpRefusalBucket);
  org_members : string -> gset string;
  host_lowercase :: Lowercase;
}.

Section calls.
Context `{Host}.

Definition reading {A} (f : Shared -> A) : Behaviour (Result IdentityError A) := Stored (fun s => (Ok (f s), s)).
Definition on_passkeys {A} (f : PasskeysState -> A * PasskeysState) : Behaviour (Result IdentityError A) :=
  Stored (fun s => let '(a, p) := f (sh_passkeys s) in (Ok a, set_passkeys p s)).
Definition on_step_ups {A} (f : StepUpState -> A * StepUpState) : Behaviour (Result IdentityError A) :=
  Stored (fun s => let '(a, u) := f (sh_step_ups s) in (Ok a, set_step_ups u s)).
Definition on_step_ups_fallible {A} (f : StepUpState -> Result IdentityError A * StepUpState) : Behaviour (Result IdentityError A) :=
  Stored (fun s => let '(a, u) := f (sh_step_ups s) in (a, set_step_ups u s)).
Definition event_members (f : SecurityEventFilter) : gset string := match ef_org f with Some org => org_members org | None => ∅ end.

Definition behaviour (c : Call) : Behaviour (answer c) :=
  match c with
  | Now | RandomBytes _ | RandomId | AskServer => Asked
  | ListPasskeys p => reading (fun s => list_passkeys p (sh_passkeys s))
  | GetByCredential id => reading (fun s => get_by_credential id (sh_passkeys s))
  | UserHandle p fresh => on_passkeys (user_handle p fresh)
  | InsertPasskey p => Stored (fun s => let '(r, ps) := insert_passkey p (sh_passkeys s) in (r, set_passkeys ps s))
  | RecordUse id rc nc bs now => on_passkeys (record_use id rc nc bs now)
  | MarkClone id now => on_passkeys (mark_clone id now)
  | RemovePasskey p id => on_passkeys (remove_passkey p id)
  | RemoveAll p => on_passkeys (remove_all p)
  | PrincipalsWithPasskeys l => reading (fun s => principals_with_passkeys l (sh_passkeys s))
  | StoreChallenge c => Stored (fun s => let '(r, m) := put_challenge c (sh_challenges s) in (r, set_challenges m s))
  | TakeChallenge id sh now => Stored (fun s => let '(r, m) := consume_challenge id sh now (sh_challenges s) in (Ok r, set_challenges m s))
  | StoreConfirmation c => on_step_ups_fallible (put_confirmation c)
  | LiveWindow sh p now => reading (fun s => live_window sh p now (sh_step_ups s))
  | WindowExpiry sh p now => reading (fun s => window_expiry sh p now (sh_step_ups s))
  | TakeAction sh p d now => on_step_ups (consume_action sh p d now)
  | RevokeWindows p => on_step_ups (delete_windows_for p)
  | RevokeForPasskey id => on_step_ups_fallible (delete_for_passkey id)
  | Raise r caps now => on_step_ups_fallible (raise_request r caps now)
  | GetRequest id => reading (fun s => get_request id (sh_step_ups s))
  | Begin id by_ cid now => on_step_ups (begin_execution id by_ cid now)
  | Finish id st status summary now => on_step_ups_fallible (finish_request id st status summary now)
  | PendingInOrg org now => reading (fun s => pending_in_org org now (sh_step_ups s))
  | Append e => Stored (fun s => let '(r, l) := append_event e (sh_events s) in (r, set_events l s))
  | ListEvents f => reading (fun s => list_events (event_members f) f (sh_events s))
  | Limit e => InMemory (fun s => let '(out, l) := admit_refusal limiter_entries e (sh_limiter s) in (out, set_limiter l s))
  | RunHandler _ _ | RunRouter _ _ _ _ => Anything
  end.

(** What a call may answer, and leave. A store that fails may have done what
    it was asked, or not. *)
Definition allowed {A} (b : Behaviour A) : Shared -> A -> Shared -> Prop :=
  match b with
  | Asked => fun s _ s' => s' = s
  | InMemory f => fun s a s' => (a, s') = f s
  | Stored f => fun s a s' => (a, s') = f s \/ exists e, a = Err e /\ (s' = s \/ s' = (f s).2)
  | Anything => fun _ _ _ => True
  end.
Definition does (c : Call) : Shared -> answer c -> Shared -> Prop := allowed (behaviour c).

(** ** Programs *)

Inductive Prog (A : Type) : Type :=
| Ret (a : A)
| Do (c : Call) (k : answer c -> Prog A).
Arguments Ret {A} a.
Arguments Do {A} c k.

Fixpoint prog_bind_ {A B} (p : Prog A) (f : A -> Prog B) : Prog B :=
  match p with Ret a => f a | Do c k => Do c (fun a => prog_bind_ (k a) f) end.

(** One call of a trace. *)
Record Step := mkStep { sp_call : Call; sp_answer : answer sp_call; sp_before : Shared; sp_after : Shared }.

(** The traces of a program: complete ones, with their result, and those of a
    program dropped before its next call. *)
Fixpoint runs {A} (p : Prog A) (tr : list Step) (r : option A) : Prop :=
  match p with
  | Ret a => tr = [] /\ (r = Some a \/ r = None)
  | Do c k => tr = [] /\ r = None
      \/ exists a s s' tr', tr = mkStep c a s s' :: tr' /\ does c s a s' /\ runs (k a) tr' r
  end.

(** ** Running a program against a concrete environment *)

(** What happens at one call: what the others did before it, what an asked
    environment answers, and whether the store can be reached. *)
Record Turn := mkTurn {
  tn_others : Shared -> Shared;
  tn_answers : forall c, answer c;
  tn_fault : option IdentityError;
}.
Definition perform {A} (t : Turn) (b : Behaviour A) (asked : A) (s : Shared) : A * Shared :=
  match b in Behaviour A return A -> A * Shared with
  | Asked | Anything => fun asked => (asked, s)
  | InMemory f => fun _ => f s
  | Stored f => fun _ => match tn_fault t with Some e => (Err e, s) | None => f s end
  end asked.
Fixpoint run {A} (env : nat -> Turn) (n : nat) (p : Prog A) (s : Shared) : list Step * A * Shared :=
  match p with
  | Ret a => ([], a, s)
  | Do c k =>
      let t := env n in
      let s0 := tn_others t s in
      let '(a, s1) := perform t (behaviour c) (tn_answers t c) s0 in
      let '(tr, r, s2) := run env (S n) (k a) s1 in
      (mkStep c a s0 s1 :: tr, r, s2)
  end.

(** ** Lemmas *)

Lemma perform_allowed {A} t (b : Behaviour A) asked s : allowed b s (perform t b asked s).1 (perform t b asked s).2.
Proof.
  destruct b as [A|A f|A f|A]; cbn; try done; [by destruct (f s)|].
  destruct (tn_fault t) as [e|]; cbn; [right; eauto|left; by destruct (f s)].
Qed.
(** What the runner computes is a complete trace. *)
Lemma run_runs {A} env n (p : Prog A) s : runs p (run env n p s).1.1 (Some (run env n p s).1.2).
Proof.
  revert n s; induction p as [a|c k IH]; intros n s; cbn [run runs]; [by split; [|left]|].
  pose proof (perform_allowed (env n) (behaviour c) (tn_answers (env n) c) (tn_others (env n) s)) as Hp.
  destruct (perform _ _ _ _) as [a s1]. specialize (IH a (S n) s1). destruct (run env (S n) (k a) s1) as [[tr r] s2]. right. eauto 10.
Qed.

(** A trace of two programs in sequence. *)
Lemma runs_bind {A B} (p : Prog A) (f : A -> Prog B) tr r :
  runs (prog_bind_ p f) tr r <->
  runs p tr None /\ r = None \/ exists tr1 a tr2, tr = tr1 ++ tr2 /\ runs p tr1 (Some a) /\ runs (f a) tr2 r.
Proof.
  revert tr; induction p as [a|c k IH]; intros tr; cbn [prog_bind_ runs].
  - split.
    + intros Hr. right. exists [], a, tr. by split_and!; [| |left|].
    + intros [[[-> _] ->]|(tr1 & a' & tr2 & -> & [-> [[= ->]|?]] & Hr)]; [|done..]. destruct (f a); cbn; [split; [done|by right]|by left].
  - split.
    + intros [[-> ->]|(a & s & s' & tr' & -> & Hd & Hr)]; [by left; split; [left|]|].
      apply IH in Hr as [[Hr ->]|(tr1 & b & tr2 & -> & H1 & H2)]; [left; split; [right; eauto 10|done]|].
      right. exists (mkStep c a s s' :: tr1), b, tr2. split_and!; [done|right; eauto 10|done].
    + intros [[[[-> _]|(a & s & s' & tr' & -> & Hd & Hr)] ->]|(tr1 & b & tr2 & -> & [[_ ?]|(a & s & s' & tr' & -> & Hd & H1)] & H2)]; [by left| |done|].
      * right. exists a, s, s', tr'. split_and!; [done..|]. apply IH. by left.
      * right. exists a, s, s', (tr' ++ tr2). split_and!; [done..|]. apply IH. right. eauto 10.
Qed.

(** The calls a program may make. *)
Fixpoint makes {A} (P : Call -> Prop) (p : Prog A) : Prop :=
  match p with Ret _ => True | Do c k => P c /\ forall a, makes P (k a) end.
Lemma makes_bind {A B} P (p : Prog A) (f : A -> Prog B) : makes P p -> (forall a, makes P (f a)) -> makes P (prog_bind_ p f).
Proof. intros Hp Hf. induction p as [a|c k IH]; [apply Hf|]. destruct Hp as [Hc Hk]. split; [done|]. intros a. by apply IH. Qed.
Lemma makes_runs {A} P (p : Prog A) tr r : makes P p -> runs p tr r -> Forall (fun st => P (sp_call st)) tr.
Proof.
  revert tr; induction p as [a|c k IH]; intros tr; cbn; [by intros _ [-> _]|].
  intros [Hc Hk] [[-> _]|(a & s & s' & tr' & -> & _ & Hr)]; [done|]. constructor; [done|]. by eapply IH.
Qed.
Lemma makes_weaken {A} (P Q : Call -> Prop) (p : Prog A) : (forall c, P c -> Q c) -> makes P p -> makes Q p.
Proof. intros H0. induction p as [a|c k IH]; [done|]. intros [Hc Hk]. split; [auto|]. intros a. auto. Qed.

(** ** A logic of traces *)

(** Every call of [p], after the calls [pre] and whatever the stores are, meets
    [G] of the calls before it, and a result meets [Q] of the whole trace. *)
Fixpoint wp {A} (G : list Step -> Call -> Prop) (p : Prog A) (pre : list Step) (Q : list Step -> A -> Prop) : Prop :=
  match p with
  | Ret a => Q pre a
  | Do c k => G pre c /\ forall a s s', does c s a s' -> wp G (k a) (pre ++ [mkStep c a s s']) Q
  end.
Lemma wp_sound {A} G (p : Prog A) pre Q tr r : wp G p pre Q -> runs p tr r ->
  (forall tr1 st tr2, tr = tr1 ++ st :: tr2 -> G (pre ++ tr1) (sp_call st)) /\ (forall a, r = Some a -> Q (pre ++ tr) a).
Proof.
  revert pre tr; induction p as [a|c k IH]; intros pre tr; cbn [wp runs].
  - intros HQ [-> Hr]. rewrite app_nil_r. split; [by intros [|??] ?? ?|]. by intros a' ->; destruct Hr as [[= ->]|?].
  - intros [HG Hw] [[-> ->]|(a & s & s' & tr' & -> & Hd & Hr)]; [by split; [intros [|??] ?? ?|]|].
    destruct (IH a _ tr' (Hw a s s' Hd) Hr) as [H1 H2]. split.
    + intros [|st1 tr1] st tr2 [= E1 E2]; [by rewrite app_nil_r, <- E1|]. specialize (H1 _ _ _ E2). by rewrite <- app_assoc, E1 in H1.
    + intros b Hb. specialize (H2 b Hb). by rewrite <- app_assoc in H2.
Qed.
Lemma wp_bind {A B} G (p : Prog A) (f : A -> Prog B) pre Q : wp G (prog_bind_ p f) pre Q <-> wp G p pre (fun pre a => wp G (f a) pre Q).
Proof.
  revert pre; induction p as [a|c k IH]; intros pre; cbn; [done|]. split; intros [HG Hw]; (split; [done|]); intros a s s' Hd; apply IH; by apply Hw.
Qed.
Lemma wp_mono {A} G (p : Prog A) pre (Q R : list Step -> A -> Prop) : wp G p pre Q -> (forall tr a, Q (pre ++ tr) a -> R (pre ++ tr) a) -> wp G p pre R.
Proof.
  revert pre; induction p as [a|c k IH]; intros pre; cbn.
  - intros HQ HR. specialize (HR [] a). rewrite app_nil_r in HR. auto.
  - intros [HG Hw] HR. split; [done|]. intros a s s' Hd. apply IH; [auto|]. intros tr b. rewrite <- app_assoc. apply HR.
Qed.
(** A program none of whose calls matters. *)
Lemma wp_quiet {A} (P : Call -> Prop) G (p : Prog A) pre (Q : list Step -> A -> Prop) :
  makes P p -> (forall tr c, P c -> G tr c) -> (forall tr a, Q (pre ++ tr) a) -> wp G p pre Q.
Proof.
  revert pre; induction p as [a|c k IH]; intros pre; cbn.
  - intros _ _ HQ. specialize (HQ [] a). by rewrite app_nil_r in HQ.
  - intros [Hc Hk] HG HQ. split; [auto|]. intros a s s' _. apply IH; [done..|]. intros tr b. rewrite <- app_assoc. apply HQ.
Qed.

(** What a program may return. *)
Fixpoint leaves {A} (Q : A -> Prop) (p : Prog A) : Prop :=
  match p with Ret a => Q a | Do c k => forall a, leaves Q (k a) end.
Lemma leaves_bind {A B} (Q : A -> Prop) (R : B -> Prop) (p : Prog A) (f : A -> Prog B) :
  leaves Q p -> (forall a, Q a -> leaves R (f a)) -> leaves R (prog_bind_ p f).
Proof. intros Hp Hf. induction p as [a|c k IH]; cbn; [by apply Hf|]. intros a. apply IH, Hp. Qed.
Lemma leaves_true {A} (p : Prog A) : leaves (fun _ => True) p.
Proof. by induction p as [|c k IH]. Qed.
Lemma wp_leaves {A} G (p : Prog A) pre (Q : list Step -> A -> Prop) (R : A -> Prop) :
  wp G p pre Q -> leaves R p -> wp G p pre (fun tr a => Q tr a /\ R a).
Proof. revert pre; induction p as [a|c k IH]; intros pre; cbn; [done|]. intros [HG Hw] Hl. split; [done|]. intros a s s' Hd. by apply IH; [apply Hw|]. Qed.
End calls.

Arguments Ret {A} a.
Arguments Do {A} c k.
#[export] Instance prog_ret : MRet Prog := fun A a => Ret a.
#[export] Instance prog_bind : MBind Prog := fun A B f p => prog_bind_ p f.
Definition call (c : Call) : Prog (answer c) := Do c Ret.

Lemma makes_mbind {A B} P (p : Prog A) (f : A -> Prog B) : makes P p -> (forall a, makes P (f a)) -> makes P (p ≫= f).
Proof. apply makes_bind. Qed.
Lemma makes_call P c : P c -> makes P (call c).
Proof. by split. Qed.
Lemma makes_ret {A} P (a : A) : makes P (mret a).
Proof. done. Qed.
Lemma leaves_after {A B} (R : B -> Prop) (p : Prog A) (f : A -> Prog B) : (forall a, leaves R (f a)) -> leaves R (p ≫= f).
Proof. intros Hf. eapply leaves_bind; [apply leaves_true|auto]. Qed.
Lemma wp_mbind `{Host} {A B} G (p : Prog A) (f : A -> Prog B) pre Q : wp G (p ≫= f) pre Q <-> wp G p pre (fun pre a => wp G (f a) pre Q).
Proof. apply wp_bind. Qed.
Lemma wp_call `{Host} G c pre (Q : list Step -> answer c -> Prop) :
  G pre c -> (forall a s s', does c s a s' -> Q (pre ++ [mkStep c a s s']) a) -> wp G (call c) pre Q.
Proof. done. Qed.

(** Programs that call neither a handler nor the router. *)
Definition own_call (c : Call) : Prop := match c with RunHandler _ _ | RunRouter _ _ _ _ => False | _ => True end.
Abbreviation own p := (makes own_call p).
(** Programs that neither store a confirmation nor take a passkey away. *)
Definition steady (c : Call) : Prop :=
  match c with
  | StoreConfirmation _ | RemovePasskey _ _ | RemoveAll _ | MarkClone _ _ | RecordUse _ _ _ _ _ | RunHandler _ _ | RunRouter _ _ _ _ => False
  | _ => True
  end.
(** What holds of every such call. *)
Class QuietFor (P : Call -> Prop) := quiet_for : forall c, steady c -> P c.
#[export] Instance quiet_for_steady : QuietFor steady := fun c Hc => Hc.
#[export] Instance quiet_for_own : QuietFor own_call.
Proof. by intros []. Qed.
Create HintDb calls.
#[export] Hint Resolve quiet_for_steady quiet_for_own : calls.
#[export] Hint Resolve makes_ret : calls.
#[export] Hint Extern 1 (makes _ (mbind _ _)) => (apply makes_mbind; [|intros ?]) : calls.
#[export] Hint Extern 1 (makes _ (call _)) => (apply makes_call; first [exact I|apply quiet_for; exact I]) : calls.
#[export] Hint Extern 2 (makes _ (match ?x with _ => _ end)) => destruct x : calls.
#[export] Hint Extern 2 (makes _ (let '_ := ?x in _)) => destruct x : calls.
