(* ===== verification/Webauthn.v ===== *)
(** * The WebAuthn verifier (scarab-webauthn)

    A relying party's checks of a registration and of an assertion: the strict
    CBOR reader, COSE keys, the curve checks, authenticatorData,
    clientDataJSON and the two ceremonies. Bytes are lists of [ascii]; a
    [Strict] reader is the bytes it has not read yet, and its position how
    many it has. [minicbor], [ring], base64, SHA-256 and the serde parsers are
    parameters. *)

From S2P Require Import Prelude Text Values Identity Ops.

Inductive WebauthnError : Type :=
| MalformedResponse
| InputTooLarge
| CredentialTypeNotPublicKey
| CredentialIdMismatch
| CredentialIdTooLong
| UserHandleMismatch
| ClientDataMalformed
| ClientDataTypeMismatch
| ChallengeMismatch
| OriginMismatch
| CrossOrigin
| TokenBindingUnsupported
| CborMalformed
| CborIndefiniteLength
| CborTrailingBytes
| CborLimitExceeded
| CborDuplicateKey
| CborUnsupportedType
| AttestationObjectMalformed
| AuthDataMalformed
| AuthDataTrailingBytes
| RpIdHashMismatch
| UserNotPresent
| UserNotVerified
| AttestedCredentialDataMissing
| UnexpectedAttestedCredentialData
| BackupStateWithoutEligibility
| BackupEligibilityChanged
| CoseKeyMalformed
| UnsupportedAlgorithm
| CoseKeyTypeMismatch
| CoseKeyInvalidPoint
| RsaModulusTooSmall
| RsaModulusTooLarge
| RsaExponentInvalid
| StoredCredentialInconsistent
| SignatureInvalid
| CloneSuspected.
#[export] Instance WebauthnError_eq_dec : EqDecision WebauthnError.
Proof. solve_decision. Defined.
Definition show_webauthn_error (e : WebauthnError) : string :=
  match e with
  | MalformedResponse => "passkey response is malformed"
  | InputTooLarge => "passkey response field is too large"
  | CredentialTypeNotPublicKey => "credential type is not public-key"
  | CredentialIdMismatch => "credential id does not match"
  | CredentialIdTooLong => "credential id is too long"
  | UserHandleMismatch => "user handle does not match"
  | ClientDataMalformed => "client data is malformed"
  | ClientDataTypeMismatch => "client data type is wrong for this ceremony"
  | ChallengeMismatch => "challenge does not match"
  | OriginMismatch => "origin does not match"
  | CrossOrigin => "cross-origin ceremony refused"
  | TokenBindingUnsupported => "token binding is not supported"
  | CborMalformed => "CBOR is malformed"
  | CborIndefiniteLength => "CBOR uses an indefinite length"
  | CborTrailingBytes => "CBOR has trailing bytes"
  | CborLimitExceeded => "CBOR exceeds a size or depth limit"
  | CborDuplicateKey => "CBOR map has a duplicate key"
  | CborUnsupportedType => "CBOR uses an unsupported type"
  | AttestationObjectMalformed => "attestation object is malformed"
  | AuthDataMalformed => "authenticator data is malformed"
  | AuthDataTrailingBytes => "authenticator data has trailing bytes"
  | RpIdHashMismatch => "relying party id hash does not match"
  | UserNotPresent => "user presence flag is not set"
  | UserNotVerified => "user verification flag is not set"
  | AttestedCredentialDataMissing => "attested credential data is missing"
  | UnexpectedAttestedCredentialData => "unexpected attested credential data in an assertion"
  | BackupStateWithoutEligibility => "backup state is set without backup eligibility"
  | BackupEligibilityChanged => "backup eligibility changed since registration"
  | CoseKeyMalformed => "credential public key is malformed"
  | UnsupportedAlgorithm => "credential algorithm is not supported"
  | CoseKeyTypeMismatch => "credential key type does not match its algorithm"
  | CoseKeyInvalidPoint => "credential public key is not a valid curve point"
  | RsaModulusTooSmall => "RSA key is shorter than 2048 bits"
  | RsaModulusTooLarge => "RSA key is longer than 8192 bits"
  | RsaExponentInvalid => "RSA public exponent is invalid"
  | StoredCredentialInconsistent => "stored credential is inconsistent"
  | SignatureInvalid => "signature is invalid"
  | CloneSuspected => "signature counter did not increase; the passkey may be cloned"
  end.
Definition error_code (e : WebauthnError) : string :=
  match e with
  | MalformedResponse => "malformed_response"
  | InputTooLarge => "input_too_large"
  | CredentialTypeNotPublicKey => "credential_type_not_public_key"
  | CredentialIdMismatch => "credential_id_mismatch"
  | CredentialIdTooLong => "credential_id_too_long"
  | UserHandleMismatch => "user_handle_mismatch"
  | ClientDataMalformed => "client_data_malformed"
  | ClientDataTypeMismatch => "client_data_type_mismatch"
  | ChallengeMismatch => "challenge_mismatch"
  | OriginMismatch => "origin_mismatch"
  | CrossOrigin => "cross_origin"
  | TokenBindingUnsupported => "token_binding_unsupported"
  | CborMalformed => "cbor_malformed"
  | CborIndefiniteLength => "cbor_indefinite_length"
  | CborTrailingBytes => "cbor_trailing_bytes"
  | CborLimitExceeded => "cbor_limit_exceeded"
  | CborDuplicateKey => "cbor_duplicate_key"
  | CborUnsupportedType => "cbor_unsupported_type"
  | AttestationObjectMalformed => "attestation_object_malformed"
  | AuthDataMalformed => "auth_data_malformed"
  | AuthDataTrailingBytes => "auth_data_trailing_bytes"
  | RpIdHashMismatch => "rp_id_hash_mismatch"
  | UserNotPresent => "user_not_present"
  | UserNotVerified => "user_not_verified"
  | AttestedCredentialDataMissing => "attested_credential_data_missing"
  | UnexpectedAttestedCredentialData => "unexpected_attested_credential_data"
  | BackupStateWithoutEligibility => "backup_state_without_eligibility"
  | BackupEligibilityChanged => "backup_eligibility_changed"
  | CoseKeyMalformed => "cose_key_malformed"
  | UnsupportedAlgorithm => "unsupported_algorithm"
  | CoseKeyTypeMismatch => "cose_key_type_mismatch"
  | CoseKeyInvalidPoint => "cose_key_invalid_point"
  | RsaModulusTooSmall => "rsa_modulus_too_small"
  | RsaModulusTooLarge => "rsa_modulus_too_large"
  | RsaExponentInvalid => "rsa_exponent_invalid"
  | StoredCredentialInconsistent => "stored_credential_inconsistent"
  | SignatureInvalid => "signature_invalid"
  | CloneSuspected => "clone_suspected"
  end.

(** ** The relying party *)

Record RelyingParty := mkRp { rp_id : string; rp_origin : string; rp_name : string }.
Inductive PublicUrlError : Type := BadPublicUrl (why : string).
Definition is_v6_char (c : ascii) : bool := is_hexdigit c || Ascii.eqb c ":" || Ascii.eqb c ".".
Definition is_ldh (c : ascii) : bool := is_lower c || is_digit c || Ascii.eqb c "-" || Ascii.eqb c ".".
Definition ends_with_char (c : ascii) (s : string) : bool :=
  match String.get (String.length s - 1) s with Some d => Ascii.eqb c d | None => false end.
Definition split_scheme (url : string) : option (string * string) :=
  i ← find_str "://" url; Some (take_str i url, drop_str (i + 3) url).
(** The host and the port's text, from an authority. *)
Definition host_and_port (authority : string) : Result PublicUrlError (string * option string) :=
  match strip_char "[" authority with
  | Some v6 =>
      match split_once "]" v6 with
      | None => Err (BadPublicUrl "unterminated IPv6 literal")
      | Some (inner, after) =>
          if String.eqb inner "" || negb (all_bytes is_v6_char inner) then Err (BadPublicUrl "invalid IPv6 literal")
          else if String.eqb after "" then Ok (to_ascii_lowercase inner, None)
          else match strip_char ":" after with
               | Some p => Ok (to_ascii_lowercase inner, Some p)
               | None => Err (BadPublicUrl "invalid port")
               end
      end
  | None =>
      let '(h, p) := match split_once ":" authority with Some (h, p) => (h, Some p) | None => (authority, None) end in
      let h := to_ascii_lowercase h in
      if String.eqb h "" || negb (all_bytes is_ldh h) || starts_with "." h || ends_with_char "." h || contains ".." h
      then Err (BadPublicUrl "invalid host")
      else Ok (h, p)
  end.
(** [p.parse::<u16>()] of digits. *)
Definition parse_u16 : string -> option N := parse_unsigned 65535.
Definition port_of (default_port : N) (port : option string) : Result PublicUrlError (option N) :=
  match port with
  | None => Ok None
  | Some p =>
      if String.eqb p "" || negb (all_bytes is_digit p) then Err (BadPublicUrl "invalid port")
      else match parse_u16 p with
           | None | Some 0%N => Err (BadPublicUrl "invalid port")
           | Some n => if (n =? default_port)%N then Ok None else Ok (Some n)
           end
  end.
Definition from_public_url (public_url rp_name : string) : Result PublicUrlError RelyingParty :=
  match split_scheme public_url with
  | None => Err (BadPublicUrl "missing scheme")
  | Some (scheme, rest) =>
      let scheme := to_ascii_lowercase scheme in
      match (if String.eqb scheme "https" then Some 443%N else if String.eqb scheme "http" then Some 80%N else None) with
      | None => Err (BadPublicUrl "scheme must be http or https")
      | Some default_port =>
          let authority := take_until ends_authority rest in
          if has_char "@" authority then Err (BadPublicUrl "userinfo is not allowed")
          else
            '(host, port) ← host_and_port authority;
            port ← port_of default_port port;
            let host_in_origin := if has_char ":" host then "[" +:+ host +:+ "]" else host in
            Ok (mkRp host (match port with
                           | Some p => scheme +:+ "://" +:+ host_in_origin +:+ ":" +:+ pretty p
                           | None => scheme +:+ "://" +:+ host_in_origin
                           end) rp_name)
      end
  end.

(** ** Strict CBOR (cbor.rs) *)

Definition MAX_DEPTH : nat := 8.
Definition MAX_CONTAINER_LEN : N := 64.
Abbreviation bytes := (list ascii).
Definition Reader (A : Type) : Type := bytes -> Result WebauthnError (A * bytes).
#[export] Instance reader_ret : MRet Reader := fun A x rest => Ok (x, rest).
#[export] Instance reader_bind : MBind Reader := fun A B f r rest => match r rest with Ok (x, rest) => f x rest | Err e => Err e end.
Definition refuse {A} (e : WebauthnError) : Reader A := fun _ => Err e.

(** [minicbor::Decoder]'s reads, from the bytes at its position: the value
    and how many bytes it took. *)
Class Minicbor := {
  mc_map : bytes -> option (option N * nat);
  mc_array : bytes -> option (option N * nat);
  mc_bytes : bytes -> option (bytes * nat);
  mc_str : bytes -> option (string * nat);
  mc_i64 : bytes -> option (Z * nat);
  mc_i128 : bytes -> option (Z * nat);
}.

Inductive Kind : Type := KInt | KBytes | KText | KArray | KMap | KSimple.
#[export] Instance Kind_eq_dec : EqDecision Kind.
Proof. solve_decision. Defined.

(** The head byte's kind, by its major type and its low five bits. *)
Definition kind_of_head (b : N) : Result WebauthnError Kind :=
  let major := N.shiftr b 5 in
  let info := N.land b 0x1f in
  if (info =? 31)%N
  then Err (if (2 <=? major)%N && (major <=? 5)%N then CborIndefiniteLength else CborMalformed)
  else if (28 <=? info)%N && (info <=? 30)%N then Err CborMalformed
  else match major with
       | 0 | 1 => Ok KInt
       | 2 => Ok KBytes
       | 3 => Ok KText
       | 4 => Ok KArray
       | 5 => Ok KMap
       | 6 => Err CborUnsupportedType
       | 7 => if (b =? 0xf4)%N || (b =? 0xf5)%N || (b =? 0xf6)%N then Ok KSimple else Err CborUnsupportedType
       | _ => Err CborMalformed
       end%N.
Definition peek : Reader Kind := fun rest =>
  match rest with
  | [] => Err CborMalformed
  | b :: _ => match kind_of_head (byte_of b) with Ok k => Ok (k, rest) | Err e => Err e end
  end.
Definition expect (want : Kind) : Reader unit := k ← peek; if bool_decide (k = want) then mret tt else refuse CborMalformed.
(** One of the decoder's reads, its error mapped to [CborMalformed]. *)
Definition decoded {A} (f : bytes -> option (A * nat)) : Reader A := fun rest =>
  match f rest with Some (x, n) => Ok (x, drop n rest) | None => Err CborMalformed end.

Section reader.
Context {M : Minicbor}.

Definition container_len (want : Kind) (f : bytes -> option (option N * nat)) : Reader N :=
  _ ← expect want;
  n ← decoded f;
  match n with
  | None => refuse CborIndefiniteLength
  | Some n => if (MAX_CONTAINER_LEN <? n)%N then refuse CborLimitExceeded else mret n
  end.
Definition map_len : Reader N := container_len KMap mc_map.
Definition array_len : Reader N := container_len KArray mc_array.
Definition read_bytes : Reader bytes := _ ← expect KBytes; decoded mc_bytes.
Definition read_text : Reader string := _ ← expect KText; decoded mc_str.
Definition read_int : Reader Z := _ ← expect KInt; decoded mc_i64.
Fixpoint times (n : nat) (r : Reader unit) : Reader unit := match n with 0 => mret tt | S n => _ ← r; times n r end.
(** [set_position(position() + 1)], past the byte just peeked. *)
Definition next_byte : Reader unit := fun rest => match rest with _ :: rest => Ok (tt, rest) | [] => Err CborMalformed end.
(** [skip], by how many levels it may still go down: [skip(depth)] is
    [skip_item (MAX_DEPTH + 1 - depth)]. *)
Fixpoint skip_item (levels : nat) : Reader unit :=
  match levels with
  | 0 => refuse CborLimitExceeded
  | S levels =>
      k ← peek;
      match k with
      | KInt => _ ← decoded mc_i128; mret tt
      | KBytes => _ ← read_bytes; mret tt
      | KText => _ ← read_text; mret tt
      | KSimple => next_byte
      | KArray => n ← array_len; times (N.to_nat n) (skip_item levels)
      | KMap => n ← map_len; times (N.to_nat n) (_ ← skip_item levels; skip_item levels)
      end
  end.
Definition skip (depth : nat) : Reader unit := skip_item (MAX_DEPTH + 1 - depth).
Definition finish (rest : bytes) : Result WebauthnError unit := match rest with [] => Ok tt | _ => Err CborTrailingBytes end.
End reader.

(** ** Curve points (curve.rs) *)

(** [BigUint::from_bytes_be] and [from_bytes_le]. *)
Definition from_bytes_be (b : bytes) : Z := foldl (fun acc c => 256 * acc + Z.of_N (byte_of c))%Z 0%Z b.
Definition from_bytes_le (b : bytes) : Z := from_bytes_be (reverse b).
Definition P256_P : Z := 0xffffffff00000001000000000000000000000000ffffffffffffffffffffffff.
Definition P256_B : Z := 0x5ac635d8aa3a93e7b3ebbd55769886bc651d06b0cc53b0f63bce3c3e27d2604b.
Definition ED25519_D : Z := 37095705934669439343138083508754565189542113879843219016388785533085940283555.
Definition p256_point_is_valid (x y : bytes) : bool :=
  (let p := P256_P in
  let x := from_bytes_be x in
  let y := from_bytes_be y in
  if (x =? 0)%Z && (y =? 0)%Z then false
  else if (p <=? x)%Z || (p <=? y)%Z then false
  else
    let lhs := (y * y) mod p in
    let x3 := (x * x mod p) * x mod p in
    let three_x := 3 * x mod p in
    let rhs := (x3 + p - three_x + P256_B) mod p in
    (lhs =? rhs)%Z)%Z.
(** [BigUint::modpow], by repeated squaring. *)
Fixpoint modpow_pos (b : Z) (e : positive) (m : Z) : Z :=
  (match e with
  | xH => b mod m
  | xO e => let h := modpow_pos b e m in h * h mod m
  | xI e => let h := modpow_pos b e m in (h * h mod m) * b mod m
  end)%Z.
Definition modpow (b e m : Z) : Z :=
  (match e with Zpos e => modpow_pos b e m | _ => 1 mod m end)%Z.
Definition ed25519_double (x y p d : Z) : Z * Z :=
  (let inv z := modpow z (p - 2) p in
  let x2 := x * x mod p in
  let y2 := y * y mod p in
  let dx2y2 := d * x2 mod p * y2 mod p in
  let x3 := 2 * x mod p * y mod p * inv ((1 + dx2y2) mod p) mod p in
  let y3 := (y2 + x2) mod p * inv ((1 + p - dx2y2) mod p) mod p in
  (x3, y3))%Z.
(** Bit 255 of the encoding cleared: it is the sign of x. *)
Definition clear_sign (encoding : bytes) : bytes :=
  match reverse encoding with c :: l => reverse (ascii_of_N (N.land (byte_of c) 0x7f) :: l) | [] => [] end.
Definition sign_bit (encoding : bytes) : N := match reverse encoding with c :: _ => N.shiftr (byte_of c) 7 | [] => 0 end.
(** The square root of [u / v], if it has one. *)
Definition ed25519_root (u v p : Z) : option Z :=
  (let v3 := v * v mod p * v mod p in
  let v7 := v3 * v3 mod p * v mod p in
  let e := Z.shiftr (p - 5) 3 in
  let x := u * v3 mod p * modpow (u * v7 mod p) e p mod p in
  let vx2 := v * x mod p * x mod p in
  let neg_u := (p - u) mod p in
  if (vx2 =? u)%Z then Some x
  else if (vx2 =? neg_u)%Z then Some (x * modpow 2 (Z.shiftr (p - 1) 2) p mod p)
  else None)%Z.
Definition ed25519_point_is_valid (encoding : bytes) : bool :=
  (let p := (2 ^ 255 - 19)%Z in
  let x_0 := sign_bit encoding in
  let y := from_bytes_le (clear_sign encoding) in
  if (p <=? y)%Z then false
  else
    let y2 := y * y mod p in
    let u := (y2 + p - 1) mod p in
    let v := (ED25519_D * y2 + 1) mod p in
    match ed25519_root u v p with
    | None => false
    | Some x =>
        if (x =? 0)%Z && (x_0 =? 1)%N then false
        else
          let x := if negb (Bool.eqb (Z.testbit x 0) (x_0 =? 1)%N) then (p - x) mod p else x in
          let '(px, py) := Nat.iter 3 (fun q => ed25519_double q.1 q.2 p ED25519_D) (x, y) in
          negb ((px =? 0)%Z && (py =? 1)%Z)
    end)%Z.
(** ** COSE keys (cose.rs) *)

Definition RSA_MIN_MODULUS_BITS : N := 2048.
Definition RSA_MAX_MODULUS_BITS : N := 8192.
Definition MAX_COSE_LABELS : N := 16.
Inductive CoseAlgorithm : Type := Es256 | EdDsa | Rs256.
#[export] Instance CoseAlgorithm_eq_dec : EqDecision CoseAlgorithm.
Proof. solve_decision. Defined.
Definition ALL_ALGORITHMS : list CoseAlgorithm := [Es256; EdDsa; Rs256].
Definition alg_id (a : CoseAlgorithm) : Z := match a with Es256 => -7 | EdDsa => -8 | Rs256 => -257 end.
Definition alg_from_id (id : Z) : option CoseAlgorithm :=
  if (id =? -7)%Z then Some Es256 else if (id =? -8)%Z then Some EdDsa else if (id =? -257)%Z then Some Rs256 else None.
Definition alg_kty (a : CoseAlgorithm) : Z := match a with Es256 => 2 | EdDsa => 1 | Rs256 => 3 end.

Inductive PublicKey : Type := P256 (point : bytes) | Ed25519 (x : bytes) | Rsa (n e : bytes).
Record CoseKey := mkCose { ck_alg : CoseAlgorithm; ck_key : PublicKey }.
Inductive Param : Type := PInt (z : Z) | PBytes (b : bytes).

Definition bit_len (be : bytes) : N :=
  match be with [] => 0 | top :: _ => (N.of_nat (length be) - 1) * 8 + N.size (byte_of top) end.
Definition first_is_zero (b : bytes) : bool := match b with c :: _ => (byte_of c =? 0)%N | [] => true end.
Definition last_is_even (b : bytes) : bool := match last b with Some c => (N.land (byte_of c) 1 =? 0)%N | None => true end.
Definition check_rsa (n e : bytes) : Result WebauthnError unit :=
  if first_is_zero n then Err CoseKeyMalformed
  else if (bit_len n <? RSA_MIN_MODULUS_BITS)%N then Err RsaModulusTooSmall
  else if (RSA_MAX_MODULUS_BITS <? bit_len n)%N then Err RsaModulusTooLarge
  else if last_is_even n then Err CoseKeyMalformed
  else if first_is_zero e || (5 <? length e) then Err RsaExponentInvalid
  else
    let value := from_bytes_be e in
    if (value <? 3)%Z || (2 ^ 33 <=? value)%Z || Z.even value then Err RsaExponentInvalid else Ok tt.
Definition bytes_of_len (n : nat) (p : option Param) : Result WebauthnError bytes :=
  match p with Some (PBytes b) => if length b =? n then Ok b else Err CoseKeyMalformed | _ => Err CoseKeyMalformed end.

(** The labels read so far, and the parameters among them. *)
Record CoseParams := mkParams { cp_seen : list Z; cp_kty : option Z; cp_alg : option Z; cp_p1 : option Param; cp_p2 : option Param; cp_p3 : option Param }.
Definition no_params : CoseParams := mkParams [] None None None None None.

Section cose.
Context {M : Minicbor}.

Definition read_param : Reader Param :=
  k ← peek; match k with KInt => z ← read_int; mret (PInt z) | KBytes => b ← read_bytes; mret (PBytes b) | _ => refuse CoseKeyMalformed end.
Definition read_int_param : Reader Z := k ← peek; match k with KInt => read_int | _ => refuse CoseKeyMalformed end.
Definition cose_entry (c : CoseParams) : Reader CoseParams :=
  k ← peek;
  label ← match k with KInt => read_int | _ => refuse CoseKeyMalformed end;
  if existsb (Z.eqb label) (cp_seen c) then refuse CborDuplicateKey
  else
    let seen := cp_seen c ++ [label] in
    if (label =? 1)%Z then v ← read_int_param; mret (mkParams seen (Some v) (cp_alg c) (cp_p1 c) (cp_p2 c) (cp_p3 c))
    else if (label =? 3)%Z then v ← read_int_param; mret (mkParams seen (cp_kty c) (Some v) (cp_p1 c) (cp_p2 c) (cp_p3 c))
    else if (label =? -1)%Z then v ← read_param; mret (mkParams seen (cp_kty c) (cp_alg c) (Some v) (cp_p2 c) (cp_p3 c))
    else if (label =? -2)%Z then v ← read_param; mret (mkParams seen (cp_kty c) (cp_alg c) (cp_p1 c) (Some v) (cp_p3 c))
    else if (label =? -3)%Z then v ← read_param; mret (mkParams seen (cp_kty c) (cp_alg c) (cp_p1 c) (cp_p2 c) (Some v))
    else _ ← skip 1; mret (mkParams seen (cp_kty c) (cp_alg c) (cp_p1 c) (cp_p2 c) (cp_p3 c)).
Fixpoint cose_entries (n : nat) (c : CoseParams) : Reader CoseParams :=
  match n with 0 => mret c | S n => c ← cose_entry c; cose_entries n c end.

(** The curve an EC2 or OKP key names. *)
Definition check_crv (crv : Z) (p : option Param) : Result WebauthnError unit :=
  match p with
  | Some (PInt c) => if (c =? crv)%Z then Ok tt else Err CoseKeyTypeMismatch
  | _ => Err CoseKeyMalformed
  end.
Definition cose_key_of (alg : CoseAlgorithm) (c : CoseParams) : Result WebauthnError PublicKey :=
  match alg with
  | Es256 =>
      _ ← check_crv 1 (cp_p1 c);
      x ← bytes_of_len 32 (cp_p2 c);
      y ← bytes_of_len 32 (cp_p3 c);
      if p256_point_is_valid x y then Ok (P256 (ascii_of_N 4 :: x ++ y)) else Err CoseKeyInvalidPoint
  | EdDsa =>
      _ ← check_crv 6 (cp_p1 c);
      match cp_p3 c with
      | Some _ => Err CoseKeyMalformed
      | None => x ← bytes_of_len 32 (cp_p2 c); if ed25519_point_is_valid x then Ok (Ed25519 x) else Err CoseKeyInvalidPoint
      end
  | Rs256 =>
      match cp_p1 c, cp_p2 c, cp_p3 c with
      | Some (PBytes n), Some (PBytes e), None => _ ← check_rsa n e; Ok (Rsa n e)
      | _, _, _ => Err CoseKeyMalformed
      end
  end.
Definition cose_of_params (c : CoseParams) : Result WebauthnError CoseKey :=
  match cp_alg c with
  | None => Err CoseKeyMalformed
  | Some id =>
      match alg_from_id id with
      | None => Err UnsupportedAlgorithm
      | Some alg =>
          match cp_kty c with
          | None => Err CoseKeyMalformed
          | Some kty => if negb (kty =? alg_kty alg)%Z then Err CoseKeyTypeMismatch else mkCose alg <$> cose_key_of alg c
          end
      end
  end.
Definition lift_result {A} (r : Result WebauthnError A) : Reader A := fun rest => match r with Ok x => Ok (x, rest) | Err e => Err e end.
Definition cose_parse : Reader CoseKey :=
  k ← peek;
  n ← match k with KMap => map_len | _ => refuse CoseKeyMalformed end;
  if (n =? 0)%N || (MAX_COSE_LABELS <? n)%N then refuse CoseKeyMalformed
  else c ← cose_entries (N.to_nat n) no_params; lift_result (cose_of_params c).
Definition parse_stored (b : bytes) : Result WebauthnError CoseKey :=
  match cose_parse b with Ok (key, rest) => _ ← finish rest; Ok key | Err e => Err e end.
End cose.

(** [ring]'s verification, by the verifier the key's shape names. *)
Class Ring := ring_verify : PublicKey -> bytes -> bytes -> bool.
Definition cose_verify `{Ring} (k : CoseKey) (msg sig : bytes) : Result WebauthnError unit :=
  if ring_verify (ck_key k) msg sig then Ok tt else Err SignatureInvalid.

(** ** authenticatorData (authdata.rs) *)

Definition MAX_CREDENTIAL_ID_LEN : N := 1023.
Definition HEADER_LEN : nat := 37.
Definition UP : N := 0x01.
Definition UV : N := 0x04.
Definition BE : N := 0x08.
Definition BS : N := 0x10.
Definition AT : N := 0x40.
Definition ED : N := 0x80.
Record AttestedCredential := mkAttested { ac_aaguid : bytes; ac_credential_id : bytes; ac_public_key : CoseKey; ac_public_key_cose : bytes }.
Record AuthData := mkAuthData { ad_rp_id_hash : bytes; ad_flags : N; ad_sign_count : N; ad_attested : option AttestedCredential }.
Definition has_flag (flags bit : N) : bool := negb (N.land flags bit =? 0)%N.
(** [u32::from_be_bytes], [u16::from_be_bytes]. *)
Definition be_value (b : bytes) : N := Z.to_N (from_bytes_be b).

Section authdata.
Context {M : Minicbor}.

Definition parse_attested : Reader AttestedCredential := fun rest =>
  if length rest <? 18 then Err AuthDataMalformed
  else
    let aaguid := take 16 rest in
    let id_len := be_value (take 2 (drop 16 rest)) in
    let rest := drop 18 rest in
    if (MAX_CREDENTIAL_ID_LEN <? id_len)%N then Err CredentialIdTooLong
    else if (id_len =? 0)%N || (N.of_nat (length rest) <? id_len)%N then Err AuthDataMalformed
    else
      let credential_id := take (N.to_nat id_len) rest in
      let rest := drop (N.to_nat id_len) rest in
      match cose_parse rest with
      | Err e => Err e
      | Ok (key, unread) => Ok (mkAttested aaguid credential_id key (take (length rest - length unread) rest), unread)
      end.
Definition parse_extensions : Reader unit :=
  k ← peek; match k with KMap => skip 0 | _ => refuse AuthDataMalformed end.
(** What the flags say follows the header. *)
Definition attested_part (flags : N) : Reader (option AttestedCredential) :=
  if has_flag flags AT then a ← parse_attested; mret (Some a) else mret None.
Definition extensions_part (flags : N) : Reader unit := if has_flag flags ED then parse_extensions else mret tt.
Definition authdata_parse (b : bytes) : Result WebauthnError AuthData :=
  if length b <? HEADER_LEN then Err AuthDataMalformed
  else
    let rp_id_hash := take 32 b in
    let flags := be_value (take 1 (drop 32 b)) in
    let sign_count := be_value (take 4 (drop 33 b)) in
    match (attested ← attested_part flags; _ ← extensions_part flags; mret attested) (drop HEADER_LEN b) with
    | Err e => Err e
    | Ok (attested, []) => Ok (mkAuthData rp_id_hash flags sign_count attested)
    | Ok _ => Err AuthDataTrailingBytes
    end.
End authdata.

(** ** clientDataJSON (client_data.rs) *)

Definition TYPE_CREATE : string := "webauthn.create".
Definition TYPE_GET : string := "webauthn.get".
Record CollectedClientData := mkClientData {
  cd_type : string;
  cd_challenge : string;
  cd_origin : string;
  cd_cross_origin : option bool;
  cd_top_origin : option string;
  cd_token_binding : option string;
}.
(** The serde parser of [CollectedClientData], a token binding as its status;
    base64url without padding. *)
Class ClientDataParser := parse_client_data : bytes -> option CollectedClientData.
Class Base64 := { b64_decode : string -> option bytes; b64_encode : bytes -> string }.
(** [ct_eq]: the bytes' differences, or-ed together. *)
Fixpoint xor_diff (a b : bytes) (acc : N) : N :=
  match a, b with x :: a, y :: b => xor_diff a b (N.lor acc (N.lxor (byte_of x) (byte_of y))) | _, _ => acc end.
Definition bytes_ct_eq (a b : bytes) : bool := if length a =? length b then (xor_diff a b 0 =? 0)%N else false.

Section ceremonies.
Context {M : Minicbor} {R : Ring} {P : ClientDataParser} {B : Base64} {H : Sha256}.

Definition client_data_verify (client_data_json : bytes) (expected_type : string) (expected_challenge : bytes) (rp : RelyingParty)
    : Result WebauthnError unit :=
  match parse_client_data client_data_json with
  | None => Err ClientDataMalformed
  | Some c =>
      if negb (String.eqb (cd_type c) expected_type) then Err ClientDataTypeMismatch
      else match b64_decode (cd_challenge c) with
           | None => Err ChallengeMismatch
           | Some challenge =>
               if negb (bytes_ct_eq challenge expected_challenge) then Err ChallengeMismatch
               else if negb (String.eqb (cd_origin c) (rp_origin rp)) then Err OriginMismatch
               else if bool_decide (cd_cross_origin c = Some true) || bool_decide (is_Some (cd_top_origin c)) then Err CrossOrigin
               else if bool_decide (cd_token_binding c = Some "present") then Err TokenBindingUnsupported
               else Ok tt
           end
  end.

(** ** Ceremonies (lib.rs) *)

Definition CEREMONY_TIMEOUT_MS : Z := 120000.
Definition MAX_CLIENT_DATA_JSON_LEN : N := 16 * 1024.
Definition MAX_ATTESTATION_OBJECT_LEN : N := 64 * 1024.
Definition MAX_AUTHENTICATOR_DATA_LEN : N := 16 * 1024.
Definition MAX_SIGNATURE_LEN : N := 1024.
Definition MAX_USER_HANDLE_LEN : N := 64.
Definition ACTION_CHALLENGE_DOMAIN : string := "scarab-step-up/v1" +:+ String (ascii_of_N 0) "".
Definition KNOWN_TRANSPORTS : list string := ["ble"; "hybrid"; "internal"; "nfc"; "smart-card"; "usb"].

Record CredentialDescriptor := mkDescriptor { cde_id : bytes; cde_transports : list string }.
Definition descriptors_json (l : list CredentialDescriptor) : Json :=
  JArr (map (fun c => JObj [("id", JStr (b64_encode (cde_id c)));
                            ("transports", JArr (map JStr (List.filter (fun t => existsb (String.eqb t) KNOWN_TRANSPORTS) (cde_transports c))));
                            ("type", JStr "public-key")]) l).
Definition creation_options (rp : RelyingParty) (user_handle : bytes) (user_name user_display_name : string) (challenge : bytes)
    (exclude : list CredentialDescriptor) : Json :=
  JObj [("attestation", JStr "none");
        ("authenticatorSelection", JObj [("requireResidentKey", JBool false); ("residentKey", JStr "preferred"); ("userVerification", JStr "required")]);
        ("challenge", JStr (b64_encode challenge));
        ("excludeCredentials", descriptors_json exclude);
        ("pubKeyCredParams", JArr (map (fun a => JObj [("alg", JInt (alg_id a)); ("type", JStr "public-key")]) ALL_ALGORITHMS));
        ("rp", JObj [("id", JStr (rp_id rp)); ("name", JStr (rp_name rp))]);
        ("timeout", JInt CEREMONY_TIMEOUT_MS);
        ("user", JObj [("displayName", JStr user_display_name); ("id", JStr (b64_encode user_handle)); ("name", JStr user_name)])].
Definition request_options (rp : RelyingParty) (challenge : bytes) (allow : list CredentialDescriptor) : Json :=
  JObj [("allowCredentials", descriptors_json allow); ("challenge", JStr (b64_encode challenge)); ("rpId", JStr (rp_id rp));
        ("timeout", JInt CEREMONY_TIMEOUT_MS); ("userVerification", JStr "required")].
Definition zero_digest : bytes := List.repeat (ascii_of_N 0) 32.
Definition action_challenge (nonce : bytes) (digest : option bytes) : bytes :=
  sha256 (ACTION_CHALLENGE_DOMAIN +:+ String.string_of_list_ascii (nonce ++ default zero_digest digest)).

Record RegistrationResponse := mkRegistration {
  rr_id : string; rr_raw_id : string; rr_type : string;
  rr_client_data_json : string; rr_attestation_object : string; rr_transports : list string;
}.
Record AuthenticationResponse := mkAuthentication {
  ar_id : string; ar_raw_id : string; ar_type : string;
  ar_client_data_json : string; ar_authenticator_data : string; ar_signature : string; ar_user_handle : option string;
}.
Record NewCredential := mkNewCredential {
  nc_credential_id : bytes; nc_public_key_cose : bytes; nc_alg : CoseAlgorithm; nc_sign_count : N; nc_transports : list string;
  nc_aaguid : bytes; nc_backup_eligible : bool; nc_backup_state : bool;
}.
Record StoredCredential := mkStored { sc_credential_id : bytes; sc_public_key_cose : bytes; sc_alg : CoseAlgorithm; sc_sign_count : N; sc_backup_eligible : bool }.
Record AssertionOk := mkAssertionOk { ao_new_count : N; ao_backup_state : bool; ao_counter_regressed : bool }.

Definition decode_field (text : string) (max : N) (too_large : WebauthnError) : Result WebauthnError bytes :=
  if ((max + 2) / 3 * 4 <? N.of_nat (String.length text))%N then Err too_large
  else match b64_decode text with
       | None => Err MalformedResponse
       | Some b => if (max <? N.of_nat (length b))%N then Err too_large else Ok b
       end.
Definition credential_id (id raw_id : string) : Result WebauthnError bytes :=
  raw ← decode_field raw_id MAX_CREDENTIAL_ID_LEN CredentialIdTooLong;
  id ← decode_field id MAX_CREDENTIAL_ID_LEN CredentialIdTooLong;
  if bool_decide (raw = []) || negb (bool_decide (raw = id)) then Err CredentialIdMismatch else Ok raw.
Definition rp_id_hash (rp : RelyingParty) : bytes := sha256 (rp_id rp).
Definition check_auth_data_common (ad : AuthData) (rp : RelyingParty) : Result WebauthnError unit :=
  if negb (bool_decide (ad_rp_id_hash ad = rp_id_hash rp)) then Err RpIdHashMismatch
  else if negb (has_flag (ad_flags ad) UP) then Err UserNotPresent
  else if negb (has_flag (ad_flags ad) UV) then Err UserNotVerified
  else if has_flag (ad_flags ad) BS && negb (has_flag (ad_flags ad) BE) then Err BackupStateWithoutEligibility
  else Ok tt.

(** What has been read of an attestation object. *)
Record Attestation := mkAttestation { at_fmt : option string; at_stmt_empty : option bool; at_auth_data : option bytes }.
Definition attestation_entry (a : Attestation) : Reader Attestation :=
  k ← peek;
  key ← match k with KText => read_text | _ => refuse AttestationObjectMalformed end;
  if String.eqb key "fmt" then
    k ← peek;
    v ← match k with KText => read_text | _ => refuse AttestationObjectMalformed end;
    if bool_decide (is_Some (at_fmt a)) then refuse CborDuplicateKey else mret (mkAttestation (Some v) (at_stmt_empty a) (at_auth_data a))
  else if String.eqb key "attStmt" then
    k ← peek;
    match k with
    | KMap => fun rest =>
        match skip 1 rest with
        | Err e => Err e
        | Ok (_, rest') =>
            if bool_decide (is_Some (at_stmt_empty a)) then Err CborDuplicateKey
            else Ok (mkAttestation (at_fmt a) (Some (length rest - length rest' =? 1)) (at_auth_data a), rest')
        end
    | _ => refuse AttestationObjectMalformed
    end
  else if String.eqb key "authData" then
    k ← peek;
    v ← match k with KBytes => read_bytes | _ => refuse AttestationObjectMalformed end;
    if bool_decide (is_Some (at_auth_data a)) then refuse CborDuplicateKey else mret (mkAttestation (at_fmt a) (at_stmt_empty a) (Some v))
  else refuse AttestationObjectMalformed.
Fixpoint attestation_entries (n : nat) (a : Attestation) : Reader Attestation :=
  match n with 0 => mret a | S n => a ← attestation_entry a; attestation_entries n a end.
Definition parse_attestation_object (b : bytes) : Result WebauthnError bytes :=
  '(a, rest) ← (n ← map_len; if (n =? 3)%N then attestation_entries 3 (mkAttestation None None None) else refuse AttestationObjectMalformed) b;
  _ ← finish rest;
  match at_fmt a, at_stmt_empty a, at_auth_data a with
  | Some fmt, Some att_stmt_empty, Some auth_data =>
      if String.eqb fmt "none" && negb att_stmt_empty then Err AttestationObjectMalformed else Ok auth_data
  | _, _, _ => Err AttestationObjectMalformed
  end.
Definition sanitize_transports (raw : list string) : list string :=
  foldl (fun out t => if existsb (String.eqb t) KNOWN_TRANSPORTS && negb (existsb (String.eqb t) out) then out ++ [t] else out) [] raw.

Definition verify_registration (rp : RelyingParty) (expected_challenge : bytes) (resp : RegistrationResponse) : Result WebauthnError NewCredential :=
  if negb (String.eqb (rr_type resp) "public-key") then Err CredentialTypeNotPublicKey
  else
    raw_id ← credential_id (rr_id resp) (rr_raw_id resp);
    client_data_json ← decode_field (rr_client_data_json resp) MAX_CLIENT_DATA_JSON_LEN InputTooLarge;
    attestation_object ← decode_field (rr_attestation_object resp) MAX_ATTESTATION_OBJECT_LEN InputTooLarge;
    _ ← client_data_verify client_data_json TYPE_CREATE expected_challenge rp;
    auth_data_bytes ← parse_attestation_object attestation_object;
    ad ← authdata_parse auth_data_bytes;
    _ ← check_auth_data_common ad rp;
    match ad_attested ad with
    | None => Err AttestedCredentialDataMissing
    | Some attested =>
        if negb (bool_decide (ac_credential_id attested = raw_id)) then Err CredentialIdMismatch
        else Ok (mkNewCredential raw_id (ac_public_key_cose attested) (ck_alg (ac_public_key attested)) (ad_sign_count ad)
                   (sanitize_transports (rr_transports resp)) (ac_aaguid attested) (has_flag (ad_flags ad) BE) (has_flag (ad_flags ad) BS))
    end.

(** The counter rule. *)
Definition counter_rule (stored : StoredCredential) (ad : AuthData) : Result WebauthnError AssertionOk :=
  let both_zero := (ad_sign_count ad =? 0)%N && (sc_sign_count stored =? 0)%N in
  let counter_regressed := negb both_zero && (ad_sign_count ad <=? sc_sign_count stored)%N in
  if counter_regressed && negb (sc_backup_eligible stored) then Err CloneSuspected
  else Ok (mkAssertionOk (ad_sign_count ad) (has_flag (ad_flags ad) BS) counter_regressed).
Definition verify_assertion (rp : RelyingParty) (expected_challenge : bytes) (stored : StoredCredential) (user_handle : bytes)
    (resp : AuthenticationResponse) : Result WebauthnError AssertionOk :=
  if negb (String.eqb (ar_type resp) "public-key") then Err CredentialTypeNotPublicKey
  else
    raw_id ← credential_id (ar_id resp) (ar_raw_id resp);
    if negb (bool_decide (raw_id = sc_credential_id stored)) then Err CredentialIdMismatch
    else
      _ ← match ar_user_handle resp with
          | None => Ok tt
          | Some uh =>
              uh ← decode_field uh MAX_USER_HANDLE_LEN UserHandleMismatch;
              if bool_decide (uh = user_handle) then Ok tt else Err UserHandleMismatch
          end;
      client_data_json ← decode_field (ar_client_data_json resp) MAX_CLIENT_DATA_JSON_LEN InputTooLarge;
      auth_data_bytes ← decode_field (ar_authenticator_data resp) MAX_AUTHENTICATOR_DATA_LEN InputTooLarge;
      signature ← decode_field (ar_signature resp) MAX_SIGNATURE_LEN InputTooLarge;
      _ ← client_data_verify client_data_json TYPE_GET expected_challenge rp;
      ad ← authdata_parse auth_data_bytes;
      _ ← check_auth_data_common ad rp;
      if bool_decide (is_Some (ad_attested ad)) then Err UnexpectedAttestedCredentialData
      else if negb (Bool.eqb (has_flag (ad_flags ad) BE) (sc_backup_eligible stored)) then Err BackupEligibilityChanged
      else
        key ← parse_stored (sc_public_key_cose stored);
        if negb (bool_decide (ck_alg key = sc_alg stored)) then Err StoredCredentialInconsistent
        else
          _ ← cose_verify key (auth_data_bytes ++ sha256 (String.string_of_list_ascii client_data_json)) signature;
          counter_rule stored ad.
End ceremonies.

(** ** Locality: what a reader does depends only on what it reads *)

(** A decoder's read takes some of the bytes, and only those matter. *)
Definition item_local {A} (f : bytes -> option (A * nat)) : Prop :=
  forall b x n, f b = Some (x, n) -> 0 < n <= length b /\ forall tail, f (take n b ++ tail) = Some (x, n).
Class MinicborLaws (M : Minicbor) : Prop := {
  map_local : item_local mc_map;
  array_local : item_local mc_array;
  bytes_local : item_local mc_bytes;
  str_local : item_local mc_str;
  i64_local : item_local mc_i64;
  i128_local : item_local mc_i128;
}.
Definition Local {A} (r : Reader A) : Prop :=
  forall b x rest, r b = Ok (x, rest) -> exists used, b = used ++ rest /\ forall tail, r (used ++ tail) = Ok (x, tail).
(** And it reads something. *)
Definition Consumes {A} (r : Reader A) : Prop :=
  forall b x rest, r b = Ok (x, rest) -> exists used, used <> [] /\ b = used ++ rest /\ forall tail, r (used ++ tail) = Ok (x, tail).

Create HintDb readers discriminated.
Lemma consumes_local {A} (r : Reader A) : Consumes r -> Local r.
Proof. intros H b x rest E. destruct (H b x rest E) as (used & _ & ?). by exists used. Qed.
Lemma local_ret {A} (x : A) : Local (mret x).
Proof. intros b y rest [= <- <-]. by exists []. Qed.
Lemma consumes_refuse {A} e : Consumes (refuse e : Reader A).
Proof. intros b x rest E. discriminate E. Qed.
Lemma local_bind {A B} (r : Reader A) (f : A -> Reader B) : Local r -> (forall x, Local (f x)) -> Local (r ≫= f).
Proof.
  intros Hr Hf b y rest E. unfold mbind, reader_bind in E. destruct (r b) as [[x mid]|] eqn:Er; [|done].
  destruct (Hr _ _ _ Er) as (u & -> & Hu), (Hf x _ _ _ E) as (v & -> & Hv). exists (u ++ v). split; [by rewrite app_assoc|].
  intros tail. unfold mbind, reader_bind. by rewrite <- app_assoc, Hu, Hv.
Qed.
Lemma consumes_bind {A B} (r : Reader A) (f : A -> Reader B) : Consumes r -> (forall x, Local (f x)) -> Consumes (r ≫= f).
Proof.
  intros Hr Hf b y rest E. unfold mbind, reader_bind in E. destruct (r b) as [[x mid]|] eqn:Er; [|done].
  destruct (Hr _ _ _ Er) as (u & Hne & -> & Hu), (Hf x _ _ _ E) as (v & -> & Hv). exists (u ++ v). split_and!; [by destruct u|by rewrite app_assoc|].
  intros tail. unfold mbind, reader_bind. by rewrite <- app_assoc, Hu, Hv.
Qed.
Lemma peek_bind {B} (f : Kind -> Reader B) b :
  (peek ≫= f) b = match b with [] => Err CborMalformed | c :: _ => match kind_of_head (byte_of c) with Ok k => f k b | Err e => Err e end end.
Proof. destruct b as [|c b]; [done|]. unfold mbind, reader_bind, peek. by destruct (kind_of_head _). Qed.
Lemma consumes_peek {B} (f : Kind -> Reader B) : (forall k, Consumes (f k)) -> Consumes (peek ≫= f).
Proof.
  intros Hf b y rest E. rewrite peek_bind in E. destruct b as [|c b]; [done|]. destruct (kind_of_head (byte_of c)) as [k|] eqn:Ek; [|done].
  destruct (Hf k _ _ _ E) as (u & Hne & Hb & Hu). exists u. split_and!; [done|done|]. intros tail. destruct u as [|c' u]; [done|].
  injection Hb as <- _. rewrite peek_bind. cbn [app]. rewrite Ek. apply Hu.
Qed.
Lemma consumes_expect {B} k (f : Reader B) : Consumes f -> Consumes (expect k ≫= fun _ => f).
Proof.
  intros Hf. assert (Consumes (peek ≫= fun k' => if bool_decide (k' = k) then f else refuse CborMalformed)) as H.
  { apply consumes_peek. intros k'. destruct (bool_decide _); [done|apply consumes_refuse]. }
  assert (forall b, (expect k ≫= fun _ => f) b = (peek ≫= fun k' => if bool_decide (k' = k) then f else refuse CborMalformed) b) as E.
  { intros b. unfold expect, mbind, reader_bind. destruct (peek b) as [[k' rest]|]; [|done]. by destruct (bool_decide _). }
  intros b y rest Eb. rewrite E in Eb. destruct (H _ _ _ Eb) as (u & ? & ? & Hu). exists u. split_and!; [done..|]. intros tail. by rewrite E.
Qed.
Lemma consumes_decoded {A} (f : bytes -> option (A * nat)) : item_local f -> Consumes (decoded f).
Proof.
  intros Hf b x rest E. unfold decoded in E. destruct (f b) as [[y n]|] eqn:Ef; [|done]. injection E as -> <-.
  destruct (Hf _ _ _ Ef) as [Hn Hl]. exists (take n b). split_and!; [intros H; apply (f_equal length) in H; rewrite length_take in H; cbn in H; lia|by rewrite take_drop|].
  intros tail. unfold decoded. rewrite Hl. do 2 f_equal. rewrite drop_app_ge; rewrite length_take, Nat.min_l by lia; [by rewrite Nat.sub_diag|lia].
Qed.

Section locality.
Context {M : Minicbor} {L : MinicborLaws M}.
#[local] Hint Resolve consumes_local local_ret consumes_refuse local_bind consumes_bind consumes_peek consumes_expect consumes_decoded : readers.
#[local] Hint Resolve map_local array_local bytes_local str_local i64_local i128_local : readers.

Lemma consumes_container k f : item_local f -> Consumes (container_len k f).
Proof.
  intros Hf. apply consumes_expect, consumes_bind; [by apply consumes_decoded|]. intros [n|]; [destruct (_ <? _)%N|]; auto with readers.
Qed.
Lemma consumes_map_len : Consumes map_len.
Proof. apply consumes_container, map_local. Qed.
Lemma consumes_array_len : Consumes array_len.
Proof. apply consumes_container, array_local. Qed.
Lemma consumes_bytes : Consumes read_bytes.
Proof. apply consumes_expect, consumes_decoded, bytes_local. Qed.
Lemma consumes_text : Consumes read_text.
Proof. apply consumes_expect, consumes_decoded, str_local. Qed.
Lemma consumes_int : Consumes read_int.
Proof. apply consumes_expect, consumes_decoded, i64_local. Qed.
#[local] Hint Resolve consumes_map_len consumes_array_len consumes_bytes consumes_text consumes_int : readers.
Lemma local_times n r : Local r -> Local (times n r).
Proof. intros Hr. induction n as [|n IH]; cbn [times]; [apply local_ret|]. by apply local_bind. Qed.
Lemma consumes_next_byte : Consumes next_byte.
Proof. intros [|c b] y rest E; [done|]. injection E as <- <-. by exists [c]. Qed.
#[local] Hint Resolve consumes_next_byte local_times : readers.
Lemma consumes_skip_item levels : Consumes (skip_item levels).
Proof.
  induction levels as [|levels IH]; cbn [skip_item]; [apply consumes_refuse|]. apply consumes_peek.
  intros []; eauto 6 using consumes_bind, local_times, consumes_local, local_bind with readers.
Qed.
#[local] Hint Resolve consumes_skip_item : readers.
Lemma consumes_param : Consumes read_param.
Proof. apply consumes_peek. intros []; eauto using consumes_bind with readers. Qed.
Lemma consumes_int_param : Consumes read_int_param.
Proof. apply consumes_peek. intros []; auto with readers. Qed.
#[local] Hint Resolve consumes_param consumes_int_param : readers.
Lemma consumes_cose_entry c : Consumes (cose_entry c).
Proof.
  apply consumes_peek. intros k. apply consumes_bind; [destruct k; auto with readers|]. intros label.
  destruct (existsb _ _); [auto with readers|]. repeat (destruct (_ =? _)%Z); apply local_bind; unfold skip; auto with readers.
Qed.
Lemma local_cose_entries n c : Local (cose_entries n c).
Proof.
  revert c; induction n as [|n IH]; intros c; cbn [cose_entries]; [apply local_ret|]. apply local_bind; [apply consumes_local, consumes_cose_entry|apply IH].
Qed.
Lemma local_lift {A} (r : Result WebauthnError A) : Local (lift_result r).
Proof. intros b x rest E. unfold lift_result in E. destruct r as [y|]; [|done]. injection E as -> ->. by exists []. Qed.
Lemma consumes_cose_parse : Consumes cose_parse.
Proof.
  apply consumes_peek. intros k. apply consumes_bind; [destruct k; auto with readers|]. intros n.
  destruct (_ || _); [auto with readers|]. apply local_bind; [apply local_cose_entries|intros c; apply local_lift].
Qed.

(** The bytes of a COSE key, as attested, are one key and nothing more. *)
Lemma attested_key_stored rest a unread :
  parse_attested rest = Ok (a, unread) -> parse_stored (ac_public_key_cose a) = Ok (ac_public_key a).
Proof.
  unfold parse_attested. destruct (_ <? 18); [done|]. set (id_len := be_value _). destruct (_ <? _)%N; [done|]. destruct (_ || _); [done|].
  set (after := drop (N.to_nat id_len) _). destruct (cose_parse after) as [[key unread']|] eqn:E; [|done]. intros [= <- ->]. cbn [ac_public_key_cose ac_public_key].
  destruct (consumes_cose_parse _ _ _ E) as (used & _ & Hb & Hu). rewrite Hb, length_app.
  replace (length used + length unread - length unread) with (length used) by lia. rewrite take_app_length. unfold parse_stored.
  specialize (Hu []). rewrite app_nil_r in Hu. by rewrite Hu.
Qed.
End locality.

(** ** A concrete decoder: definite heads *)

(** The major type, the argument and how many bytes the head takes. *)
Definition cbor_head (b : bytes) : option (N * N * nat) :=
  match b with
  | [] => None
  | c :: r =>
      let major := N.shiftr (byte_of c) 5 in
      let info := N.land (byte_of c) 0x1f in
      let arg k := if k <=? length r then Some (major, be_value (take k r), S k) else None in
      if (info <? 24)%N then Some (major, info, 1)
      else if (info =? 24)%N then arg 1 else if (info =? 25)%N then arg 2 else if (info =? 26)%N then arg 4
      else if (info =? 27)%N then arg 8 else None
  end.
Definition cbor_container (want : N) (b : bytes) : option (option N * nat) :=
  '(major, n, used) ← cbor_head b; if (major =? want)%N then Some (Some n, used) else None.
Definition cbor_string (want : N) (b : bytes) : option (bytes * nat) :=
  '(major, n, used) ← cbor_head b;
  if (major =? want)%N && (used + N.to_nat n <=? length b) then Some (take (N.to_nat n) (drop used b), used + N.to_nat n) else None.
Definition cbor_int (bound : N) (b : bytes) : option (Z * nat) :=
  '(major, n, used) ← cbor_head b;
  if (bound <=? n)%N then None
  else if (major =? 0)%N then Some (Z.of_N n, used) else if (major =? 1)%N then Some (-1 - Z.of_N n, used)%Z else None.
Definition plain_cbor : Minicbor := {|
  mc_map := cbor_container 5; mc_array := cbor_container 4; mc_bytes := cbor_string 2;
  mc_str b := (fun p => (String.string_of_list_ascii p.1, p.2)) <$> cbor_string 3 b;
  mc_i64 := cbor_int (2 ^ 63); mc_i128 := cbor_int (2 ^ 64);
|}.
Lemma cbor_head_local : item_local cbor_head.
Proof.
  intros [|c r] x n; [done|]. unfold cbor_head. intros H.
  assert (forall k y m, (if k <=? length r then Some (N.shiftr (byte_of c) 5, be_value (take k r), S k) else None) = Some (y, m) ->
    0 < m <= length (c :: r) /\ forall tail, (let r' := take k r ++ tail in if k <=? length r' then Some (N.shiftr (byte_of c) 5, be_value (take k r'), S k) else None) = Some (y, m) /\ take m (c :: r) = c :: take k r) as Harg.
  { intros k y m E. destruct (Nat.leb_spec k (length r)) as [Hk|]; [|done]. injection E as <- <-. split; [cbn; lia|]. intros tail. cbv zeta.
    rewrite length_app, length_take, Nat.min_l by done. destruct (Nat.leb_spec k (k + length tail)); [|lia].
    rewrite take_app_le, take_take, Nat.min_id by (rewrite length_take; lia). done. }
  destruct (_ <? 24)%N eqn:E0; [injection H as <- <-; split; [cbn; lia|]; intros tail; cbn [take app]; by rewrite E0|].
  destruct (_ =? 24)%N eqn:E1; [|destruct (_ =? 25)%N eqn:E2; [|destruct (_ =? 26)%N eqn:E3; [|destruct (_ =? 27)%N eqn:E4; [|done]]]];
    destruct (Harg _ _ _ H) as [Hn Ht]; (split; [done|]); intros tail; destruct (Ht tail) as [Hv ->]; cbn [app]; rewrite E0, ?E1, ?E2, ?E3, ?E4; exact Hv.
Qed.
Lemma item_local_more (b : bytes) n m : 0 < n <= length b -> m <= n -> forall tail : bytes, take m (take n b ++ tail) = take m b.
Proof. intros Hn Hm tail. rewrite take_app_le by (rewrite length_take; lia). by rewrite take_take, Nat.min_l. Qed.
Lemma cbor_string_local want : item_local (cbor_string want).
Proof.
  intros b x n. unfold cbor_string. destruct (cbor_head b) as [[[major k] used]|] eqn:E; [|done]. cbn [mbind option_bind].
  destruct (cbor_head_local b (major, k) used E) as [Hu Hl]. destruct (_ && _) eqn:Ec; [|done]. intros [= <- <-]. apply andb_true_iff in Ec as [Em Hk%Nat.leb_le].
  split; [lia|]. intros tail. assert (cbor_head (take (used + N.to_nat k) b ++ tail) = Some (major, k, used)) as ->.
  { rewrite <- (Hl (drop used (take (used + N.to_nat k) b ++ tail))). rewrite <- (item_local_more b (used + N.to_nat k) used) with (tail := tail) by lia. by rewrite take_drop. }
  cbn [mbind option_bind]. rewrite Em, length_app, length_take, Nat.min_l by lia. cbn [andb].
  destruct (Nat.leb_spec (used + N.to_nat k) (used + N.to_nat k + length tail)); [|lia]. do 2 f_equal.
  rewrite !take_drop_commute. by rewrite (item_local_more b (used + N.to_nat k) (used + N.to_nat k)) by lia.
Qed.
Lemma cbor_of_head_local {A} (g : N -> N -> option A) : item_local (fun b => '(major, n, used) ← cbor_head b; (fun y => (y, used)) <$> g major n).
Proof.
  intros b x n H. destruct (cbor_head b) as [[[major k] used]|] eqn:E; [|done]. cbn [mbind option_bind] in H. destruct (g major k) as [y|] eqn:Eg; [|done].
  injection H as <- <-. destruct (cbor_head_local b (major, k) used E) as [Hu Hl]. split; [done|]. intros tail. rewrite Hl. cbn [mbind option_bind]. by rewrite Eg.
Qed.
Lemma item_local_ext {A} (f g : bytes -> option (A * nat)) : (forall b, f b = g b) -> item_local f -> item_local g.
Proof. intros E Hf b x n H. rewrite <- E in H. destruct (Hf _ _ _ H) as [Hn Hl]. split; [done|]. intros tail. by rewrite <- E. Qed.
#[export] Instance plain_cbor_laws : MinicborLaws plain_cbor.
Proof.
  assert (forall want, item_local (cbor_container want)) as Hc.
  { intros want. eapply item_local_ext, (cbor_of_head_local (fun major n => if (major =? want)%N then Some (Some n) else None)). intros b. unfold cbor_container.
    destruct (cbor_head b) as [[[major n] used]|]; [|done]. cbn. by destruct (_ =? _)%N. }
  assert (forall bound, item_local (cbor_int bound)) as Hi.
  { intros bound. eapply item_local_ext, (cbor_of_head_local (fun major n => if (bound <=? n)%N then None else if (major =? 0)%N then Some (Z.of_N n) else if (major =? 1)%N then Some (-1 - Z.of_N n)%Z else None)).
    intros b. unfold cbor_int. destruct (cbor_head b) as [[[major n] used]|]; [|done]. cbn. destruct (_ <=? _)%N; [done|]. destruct (_ =? 0)%N; [done|]. by destruct (_ =? 1)%N. }
  split; cbn; [apply Hc|apply Hc|apply cbor_string_local| |apply Hi|apply Hi].
  intros b x n H. destruct (cbor_string 3 b) as [[y m]|] eqn:E; [|done]. cbn in H. injection H as <- <-. destruct (cbor_string_local 3 b y m E) as [Hn Hl].
  split; [done|]. intros tail. by rewrite Hl.
Qed.

(** ** Only the counter says a passkey is cloned *)

Definition never_clone {A} (r : Result WebauthnError A) : Prop := r <> Err CloneSuspected.
Definition Clean {A} (r : Reader A) : Prop := forall b, never_clone (r b).
Create HintDb clean discriminated.
Lemma clean_ret {A} (x : A) : Clean (mret x).
Proof. done. Qed.
Lemma clean_refuse {A} e : e <> CloneSuspected -> Clean (refuse e : Reader A).
Proof. intros He b [= H]. done. Qed.
Lemma clean_bind {A B} (r : Reader A) (f : A -> Reader B) : Clean r -> (forall x, Clean (f x)) -> Clean (r ≫= f).
Proof.
  intros Hr Hf b. specialize (Hr b). unfold never_clone in *. unfold mbind, reader_bind. destruct (r b) as [[x rest]|e]; [apply Hf|congruence].
Qed.
Lemma clean_peek : Clean peek.
Proof.
  intros [|c b]; [done|]. unfold never_clone, peek, kind_of_head. repeat case_match; simplify_eq; done.
Qed.
Lemma clean_decoded {A} (f : bytes -> option (A * nat)) : Clean (decoded f).
Proof. intros b. unfold never_clone, decoded. by destruct (f b) as [[]|]. Qed.
#[export] Hint Resolve clean_ret clean_refuse clean_bind clean_peek clean_decoded : clean.
#[export] Hint Extern 1 (_ <> CloneSuspected) => discriminate : clean.

Section clean.
Context {M : Minicbor}.
Lemma clean_expect k : Clean (expect k).
Proof. apply clean_bind; [apply clean_peek|]. intros k'. destruct (bool_decide _); auto with clean. Qed.
#[local] Hint Resolve clean_expect : clean.
Lemma clean_container k f : Clean (container_len k f).
Proof. apply clean_bind; [auto with clean|]. intros _. apply clean_bind; [auto with clean|]. intros [n|]; [destruct (_ <? _)%N|]; auto with clean. Qed.
Lemma clean_reads : Clean map_len /\ Clean array_len /\ Clean read_bytes /\ Clean read_text /\ Clean read_int.
Proof. split_and!; [apply clean_container..| | |]; apply clean_bind; auto with clean. Qed.
Lemma clean_times n r : Clean r -> Clean (times n r).
Proof. intros Hr. induction n as [|n IH]; cbn [times]; auto with clean. Qed.
Lemma clean_skip levels : Clean (skip_item levels).
Proof.
  destruct clean_reads as (H1 & H2 & H3 & H4 & _). induction levels as [|levels IH]; cbn [skip_item]; [by apply clean_refuse|].
  apply clean_bind; [apply clean_peek|]. intros []; eauto using clean_times with clean.
  intros [|c b]; done.
Qed.
Lemma clean_cose : Clean cose_parse.
Proof.
  destruct clean_reads as (H1 & H2 & H3 & H4 & H5).
  assert (Clean read_int_param) as Hi by (apply clean_bind; [apply clean_peek|]; intros []; auto with clean).
  assert (Clean read_param) as Hp by (apply clean_bind; [apply clean_peek|]; intros []; eauto with clean).
  assert (forall c, Clean (cose_entry c)) as He.
  { intros c. apply clean_bind; [apply clean_peek|]. intros k. apply clean_bind; [destruct k; auto with clean|]. intros label.
    destruct (existsb _ _); [by apply clean_refuse|]. repeat (destruct (_ =? _)%Z); apply clean_bind; unfold skip; auto using clean_skip with clean. }
  assert (forall n c, Clean (cose_entries n c)) as Hn by (induction n as [|n IH]; intros c; cbn [cose_entries]; auto with clean).
  apply clean_bind; [apply clean_peek|]. intros k. apply clean_bind; [destruct k; auto with clean|]. intros n. destruct (_ || _); [by apply clean_refuse|].
  apply clean_bind; [auto|]. intros c b. unfold never_clone, lift_result. destruct (cose_of_params c) as [|e] eqn:E; [done|]. intros [= ->]. revert E.
  unfold cose_of_params, cose_key_of, check_crv, bytes_of_len, check_rsa, mbind, result_bind, fmap, result_fmap. repeat case_match; simplify_eq; done.
Qed.
End clean.

(** ** Ceremonies *)

(** Accepted, or refused by the counter alone. *)
Definition past {A} (r : Result WebauthnError A) : Prop := (exists x, r = Ok x) \/ r = Err CloneSuspected.
Lemma past_bind {A B} (r : Result WebauthnError A) (f : A -> Result WebauthnError B) :
  past (r ≫= f) -> never_clone r -> exists x, r = Ok x /\ past (f x) /\ r ≫= f = f x.
Proof. destruct r as [x|e]; [intros H _; by exists x|]. intros [[? [=]]|[= ->]] []. done. Qed.
Lemma past_if {A} (b : bool) e (r : Result WebauthnError A) : past (if b then Err e else r) -> e <> CloneSuspected -> b = false /\ past r /\ (if b then Err e else r) = r.
Proof. destruct b; [|done]. intros [[? [=]]|[= ->]] []. done. Qed.
(** One step of a ceremony passed: open [H : past _]. *)
Ltac pass H :=
  let E := fresh "E" in let x := fresh "x" in
  match type of H with
  | past (_ ≫= _) => apply past_bind in H as (x & E & H & ->)
  | past (if _ then Err _ else _) => apply past_if in H as (E & H & ->); [|discriminate]
  end.

Section checks.
Context {M : Minicbor} {R : Ring} {P : ClientDataParser} {B : Base64} {H : Sha256}.

Lemma decode_field_clean text max e : e <> CloneSuspected -> never_clone (decode_field text max e).
Proof. intros He [= E]. unfold decode_field in E. repeat case_match; simplify_eq; done. Qed.
Lemma decode_field_ok text max e b : decode_field text max e = Ok b -> b64_decode text = Some b /\ (N.of_nat (length b) <= max)%N.
Proof.
  unfold decode_field. destruct (_ <? _)%N; [done|]. destruct (b64_decode text) as [b'|]; [|done]. destruct (N.ltb_spec max (N.of_nat (length b'))); [done|].
  by intros [= <-].
Qed.
Lemma credential_id_clean id raw_id : never_clone (credential_id id raw_id).
Proof.
  unfold credential_id. intros E. assert (past (raw ← decode_field raw_id MAX_CREDENTIAL_ID_LEN CredentialIdTooLong;
    id ← decode_field id MAX_CREDENTIAL_ID_LEN CredentialIdTooLong; if bool_decide (raw = []) || negb (bool_decide (raw = id)) then Err CredentialIdMismatch else Ok raw)) as Hp by by right.
  revert E. pass Hp; [|by apply decode_field_clean]. pass Hp; [|by apply decode_field_clean]. by pass Hp.
Qed.
Lemma credential_id_ok id raw_id b : credential_id id raw_id = Ok b -> b64_decode raw_id = Some b /\ b64_decode id = Some b /\ 0 < length b <= N.to_nat MAX_CREDENTIAL_ID_LEN.
Proof.
  unfold credential_id. destruct (decode_field raw_id _ _) as [raw|] eqn:E1; [|done]. cbn [mbind result_bind]. destruct (decode_field id _ _) as [id'|] eqn:E2; [|done]. cbn [mbind result_bind].
  apply decode_field_ok in E1 as [E1 Hl], E2 as [E2 _]. case_bool_decide as Hn; [done|]. cbn. case_bool_decide as He; [|done]. intros [= <-]. subst id'.
  split_and!; [done|done|destruct raw; [done|cbn; lia]|lia].
Qed.
Lemma client_data_clean json ty ch rp : never_clone (client_data_verify json ty ch rp).
Proof. unfold never_clone, client_data_verify. repeat case_match; done. Qed.
Lemma xor_diff_zero a b acc : xor_diff a b acc = 0%N -> length a = length b -> acc = 0%N /\ a = b.
Proof.
  revert b acc; induction a as [|x a IH]; intros [|y b] acc Hx Hl; cbn in *; [done..|]. apply IH in Hx as [Hx ->]; [|lia].
  apply N.lor_eq_0_iff in Hx as [-> Hx]. apply N.lxor_eq in Hx. split; [done|]. f_equal. apply (f_equal ascii_of_N) in Hx. unfold byte_of in Hx. by rewrite !ascii_N_embedding in Hx.
Qed.
Lemma bytes_ct_eq_spec a b : bytes_ct_eq a b = true -> a = b.
Proof. unfold bytes_ct_eq. destruct (Nat.eqb_spec (length a) (length b)); [|done]. intros E%N.eqb_eq. by apply xor_diff_zero in E as [_ ?]. Qed.
(** What client data says, accepted. *)
Definition client_data_of (json : bytes) (ty : string) (ch : bytes) (rp : RelyingParty) : Prop :=
  exists c, parse_client_data json = Some c /\ cd_type c = ty /\ b64_decode (cd_challenge c) = Some ch /\ cd_origin c = rp_origin rp /\
    cd_cross_origin c <> Some true /\ cd_top_origin c = None /\ cd_token_binding c <> Some "present".
Lemma client_data_ok json ty ch rp : client_data_verify json ty ch rp = Ok tt -> client_data_of json ty ch rp.
Proof.
  unfold client_data_verify, client_data_of. destruct (parse_client_data json) as [c|]; [|done]. intros E. exists c. split; [done|].
  destruct (String.eqb_spec (cd_type c) ty); [|done]. destruct (b64_decode (cd_challenge c)) as [ch'|]; [|done]. cbn [negb] in E.
  destruct (bytes_ct_eq ch' ch) eqn:Ech; [|done]. apply bytes_ct_eq_spec in Ech as ->. cbn [negb] in E. destruct (String.eqb_spec (cd_origin c) (rp_origin rp)); [|done]. cbn [negb] in E.
  case_bool_decide; [done|]. cbn [orb] in E. case_bool_decide as Ht; [done|]. case_bool_decide; [done|]. split_and!; try done. by apply eq_None_not_Some.
Qed.
Lemma authdata_clean b : never_clone (authdata_parse b).
Proof.
  assert (Clean parse_attested) as Ha.
  { intros rest. unfold never_clone, parse_attested. destruct (_ <? 18); [done|]. destruct (_ <? _)%N; [done|]. destruct (_ || _); [done|].
    set (after := drop _ _). pose proof (clean_cose after) as Hc. unfold never_clone in Hc. destruct (cose_parse after) as [[]|e]; [done|congruence]. }
  assert (Clean parse_extensions) as He by (apply clean_bind; [apply clean_peek|]; intros []; unfold skip; auto using clean_skip with clean).
  unfold authdata_parse. destruct (_ <? HEADER_LEN); [done|]. set (flags := be_value _).
  assert (Clean (attested ← attested_part flags; _ ← extensions_part flags; mret attested)) as Hp.
  { unfold attested_part, extensions_part. apply clean_bind; [destruct (has_flag _ _); auto with clean|]. intros x. apply clean_bind; [destruct (has_flag _ _)|]; auto with clean. }
  unfold never_clone in *. specialize (Hp (drop HEADER_LEN b)). unfold never_clone in Hp. destruct ((attested_part flags ≫= _) (drop HEADER_LEN b)) as [[a [|]]|e]; [done..|congruence].
Qed.
Lemma parse_stored_clean b : never_clone (parse_stored b).
Proof. unfold never_clone, parse_stored. pose proof (clean_cose b) as Hc. unfold never_clone in Hc. destruct (cose_parse b) as [[key [|c rest]]|e]; [done..|]. congruence. Qed.

(** What [check_auth_data_common] asks of authenticator data. *)
Definition verified_user (ad : AuthData) (rp : RelyingParty) : Prop :=
  ad_rp_id_hash ad = sha256 (rp_id rp) /\ has_flag (ad_flags ad) UP = true /\ has_flag (ad_flags ad) UV = true /\
  (has_flag (ad_flags ad) BS = true -> has_flag (ad_flags ad) BE = true).
Lemma auth_data_common_ok ad rp : check_auth_data_common ad rp = Ok tt -> verified_user ad rp.
Proof.
  unfold check_auth_data_common, verified_user. case_bool_decide; [|done]. cbn [negb]. destruct (has_flag _ UP); [|done]. destruct (has_flag _ UV); [|done].
  destruct (has_flag _ BS), (has_flag _ BE); done.
Qed.
Lemma auth_data_common_clean ad rp : never_clone (check_auth_data_common ad rp).
Proof. unfold never_clone, check_auth_data_common. repeat case_match; done. Qed.
End checks.

(** C11: an assertion counts only if this passkey signed it, here, now, for
    this. Whenever a ceremony is accepted, and whenever it is refused because
    the counter says the passkey is cloned, the response named the stored
    credential; its client data is an assertion's, of the challenge sent,
    from this origin and no other; its authenticator data is for this relying
    party, with the user present and verified; and the stored key verified
    the signature over both. The counter rule alone then decides. So no
    forged response gets a passkey flagged. *)
Theorem assertion_signed `{Minicbor, Ring, ClientDataParser, Base64, Sha256} rp challenge stored handle resp :
  let v := verify_assertion rp challenge stored handle resp in
  (exists ok, v = Ok ok) \/ v = Err CloneSuspected ->
  b64_decode (ar_raw_id resp) = Some (sc_credential_id stored) /\
  exists client_data auth_data signature ad key,
    b64_decode (ar_client_data_json resp) = Some client_data /\ b64_decode (ar_authenticator_data resp) = Some auth_data /\
    b64_decode (ar_signature resp) = Some signature /\
    client_data_of client_data TYPE_GET challenge rp /\
    authdata_parse auth_data = Ok ad /\ verified_user ad rp /\ ad_attested ad = None /\
    has_flag (ad_flags ad) BE = sc_backup_eligible stored /\
    parse_stored (sc_public_key_cose stored) = Ok key /\ ck_alg key = sc_alg stored /\
    ring_verify (ck_key key) (auth_data ++ sha256 (String.string_of_list_ascii client_data)) signature = true /\
    v = counter_rule stored ad.
Proof.
  cbv zeta. intros Hp. change (past (verify_assertion rp challenge stored handle resp)) in Hp. unfold verify_assertion in *.
  pass Hp. pass Hp; [|apply credential_id_clean]. apply credential_id_ok in E0 as (Eraw & _). pass Hp. apply negb_false_iff, bool_decide_eq_true in E0 as ->.
  pass Hp. 2: { destruct (ar_user_handle resp) as [uh|]; [|done]. intros E1. assert (past (uh ← decode_field uh MAX_USER_HANDLE_LEN UserHandleMismatch;
    if bool_decide (uh = handle) then Ok tt else Err UserHandleMismatch)) as Hq by by right. revert E1. pass Hq; [|by apply decode_field_clean]. by case_bool_decide. }
  pass Hp; [|by apply decode_field_clean]. apply decode_field_ok in E1 as [Ecd _]. pass Hp; [|by apply decode_field_clean]. apply decode_field_ok in E1 as [Ead _].
  pass Hp; [|by apply decode_field_clean]. apply decode_field_ok in E1 as [Esig _]. pass Hp; [|apply client_data_clean]. destruct x3. apply client_data_ok in E1.
  pass Hp; [|apply authdata_clean]. pass Hp; [|apply auth_data_common_clean]. destruct x4. apply auth_data_common_ok in E3.
  pass Hp. apply bool_decide_eq_false in E4. pass Hp. apply negb_false_iff, Bool.eqb_prop in E5. pass Hp; [|apply parse_stored_clean].
  pass Hp. apply negb_false_iff, bool_decide_eq_true in E7. pass Hp; [|unfold never_clone, cose_verify; by destruct (ring_verify _ _ _)].
  split; [done|]. do 5 eexists. split_and!; try done; [by apply eq_None_not_Some|]. revert E8. unfold cose_verify. by destruct (ring_verify _ _ _).
Qed.

(** ** A passkey in full: P-256's base point, attested and then used *)

Definition some_passkey_cose : bytes := map ascii_of_N
  [0xa5; 0x01; 0x02; 0x03; 0x26; 0x20; 0x01; 0x21; 0x58; 0x20;
   0x6b; 0x17; 0xd1; 0xf2; 0xe1; 0x2c; 0x42; 0x47; 0xf8; 0xbc; 0xe6; 0xe5; 0x63; 0xa4; 0x40; 0xf2; 0x77; 0x03; 0x7d; 0x81; 0x2d; 0xeb; 0x33; 0xa0; 0xf4; 0xa1; 0x39; 0x45; 0xd8; 0x98; 0xc2; 0x96;
   0x22; 0x58; 0x20;
   0x4f; 0xe3; 0x42; 0xe2; 0xfe; 0x1a; 0x7f; 0x9b; 0x8e; 0xe7; 0xeb; 0x4a; 0x7c; 0x0f; 0x9e; 0x16; 0x2b; 0xce; 0x33; 0x57; 0x6b; 0x31; 0x5e; 0xce; 0xcb; 0xb6; 0x40; 0x68; 0x37; 0xbf; 0x51; 0xf5]%N.
Definition some_rp : RelyingParty := mkRp "ci.example" "https://ci.example" "Scarab".
(** Digests padded to their width, text as its bytes, client data as three
    fields between bars, and a verifier that wants the message itself. *)
Definition padded_digests : Sha256 := fun s => take 32 (String.list_ascii_of_string s ++ List.repeat (ascii_of_N 0) 32).
Definition plain_base64 : Base64 := {| b64_decode s := Some (String.list_ascii_of_string s); b64_encode b := String.string_of_list_ascii b |}.
Definition barred_client_data : ClientDataParser := fun b =>
  match Text.split "|" (String.string_of_list_ascii b) with
  | [ty; ch; origin] => Some (mkClientData ty ch origin None None None)
  | _ => None
  end.
Definition echo_ring : Ring := fun _ msg sig => bool_decide (sig = msg).
Definition auth_data_with (flags count : N) (tail : bytes) : bytes :=
  @rp_id_hash padded_digests some_rp ++ map ascii_of_N [flags; 0; 0; 0; count]%N ++ tail.
Definition some_attested : bytes := List.repeat (ascii_of_N 7) 16 ++ map ascii_of_N [0; 4]%N ++ String.list_ascii_of_string "key1" ++ some_passkey_cose.
Definition some_attestation : bytes :=
  let auth_data := auth_data_with 0x45 0 some_attested in
  ascii_of_N 0xa3 :: ascii_of_N 0x63 :: String.list_ascii_of_string "fmt" ++ ascii_of_N 0x64 :: String.list_ascii_of_string "none" ++
  ascii_of_N 0x67 :: String.list_ascii_of_string "attStmt" ++ ascii_of_N 0xa0 :: ascii_of_N 0x68 :: String.list_ascii_of_string "authData" ++
  ascii_of_N 0x58 :: ascii_of_N (N.of_nat (length auth_data)) :: auth_data.
Definition some_registration : RegistrationResponse :=
  mkRegistration "key1" "key1" "public-key" "webauthn.create|nonce|https://ci.example" (String.string_of_list_ascii some_attestation) ["usb"; "carrier-pigeon"; "usb"].
Definition some_stored : StoredCredential := mkStored (String.list_ascii_of_string "key1") some_passkey_cose Es256 4 false.
Definition some_assertion (count : N) : AuthenticationResponse :=
  let auth_data := auth_data_with 0x05 count [] in
  let client_data := "webauthn.get|nonce|https://ci.example" in
  mkAuthentication "key1" "key1" "public-key" client_data (String.string_of_list_ascii auth_data)
    (String.string_of_list_ascii (auth_data ++ padded_digests client_data)) None.
Definition some_nonce : bytes := String.list_ascii_of_string "nonce".
Definition run_assertion : N -> Result WebauthnError AssertionOk := fun count =>
  @verify_assertion plain_cbor echo_ring barred_client_data plain_base64 padded_digests some_rp some_nonce some_stored [] (some_assertion count).
Definition run_registration : Result WebauthnError NewCredential :=
  @verify_registration plain_cbor barred_client_data plain_base64 padded_digests some_rp some_nonce some_registration.
Example some_assertion_accepted : run_assertion 5 = Ok (mkAssertionOk 5 false false).
Proof. by vm_compute. Qed.
Example some_assertion_stale : run_assertion 4 = Err CloneSuspected.
Proof. by vm_compute. Qed.
Example some_registration_accepted : nc_transports <$> run_registration = Ok ["usb"].
Proof. by vm_compute. Qed.

Lemma assertion_signed_witness :
  run_assertion 5 = Ok (mkAssertionOk 5 false false) /\
  exists ad, verified_user (H := padded_digests) ad some_rp /\ ad_attested ad = None /\ run_assertion 5 = counter_rule some_stored ad.
Proof.
  assert (run_assertion 5 = Ok (mkAssertionOk 5 false false)) as E by (vm_compute; reflexivity). split; [exact E|].
  destruct (@assertion_signed plain_cbor echo_ring barred_client_data plain_base64 padded_digests some_rp some_nonce some_stored [] (some_assertion 5)
    (or_introl (ex_intro _ _ E))) as (_ & cd & adb & sg & ad & key & _ & _ & _ & _ & _ & Hu & Ha & _ & _ & _ & _ & Hv).
  exists ad. split; [exact Hu|]. split; [exact Ha|exact Hv].
Defined.

(** Accepted, a registration's credential: what the response's parts were. *)
Lemma registration_parts `{Minicbor, ClientDataParser, Base64, Sha256} rp challenge resp cred :
  verify_registration rp challenge resp = Ok cred ->
  exists client_data att auth_data ad a,
    b64_decode (rr_raw_id resp) = Some (nc_credential_id cred) /\ 0 < length (nc_credential_id cred) <= N.to_nat MAX_CREDENTIAL_ID_LEN /\
    b64_decode (rr_client_data_json resp) = Some client_data /\ client_data_of client_data TYPE_CREATE challenge rp /\
    parse_attestation_object att = Ok auth_data /\ authdata_parse auth_data = Ok ad /\ verified_user ad rp /\
    ad_attested ad = Some a /\ ac_credential_id a = nc_credential_id cred /\
    nc_public_key_cose cred = ac_public_key_cose a /\ nc_alg cred = ck_alg (ac_public_key a) /\ nc_sign_count cred = ad_sign_count ad /\
    nc_backup_eligible cred = has_flag (ad_flags ad) BE /\ nc_backup_state cred = has_flag (ad_flags ad) BS.
Proof.
  unfold verify_registration. destruct (negb _); [done|]. destruct (credential_id _ _) as [raw|] eqn:Eraw; [|done]. cbn [mbind result_bind].
  destruct (decode_field (rr_client_data_json _) _ _) as [cd|] eqn:Ecd; [|done]. cbn [mbind result_bind]. destruct (decode_field (rr_attestation_object _) _ _) as [att|]; [|done]. cbn [mbind result_bind].
  destruct (client_data_verify _ _ _ _) as [[]|] eqn:Ecv; [|done]. cbn [mbind result_bind]. destruct (parse_attestation_object att) as [adb|] eqn:Eatt; [|done]. cbn [mbind result_bind].
  destruct (authdata_parse adb) as [ad|] eqn:Ead; [|done]. cbn [mbind result_bind]. destruct (check_auth_data_common ad rp) as [[]|] eqn:Ec; [|done]. cbn [mbind result_bind].
  destruct (ad_attested ad) as [a|] eqn:Ea; [|done]. case_bool_decide as Hid; [|done]. intros [= <-]. cbn. apply credential_id_ok in Eraw as (Eraw & _ & Hl).
  apply decode_field_ok in Ecd as [Ecd _]. apply client_data_ok in Ecv. apply auth_data_common_ok in Ec. exists cd, att, adb, ad, a. naive_solver.
Qed.
Lemma authdata_attested `{Minicbor} b ad a : authdata_parse b = Ok ad -> ad_attested ad = Some a ->
  exists rest unread, parse_attested rest = Ok (a, unread).
Proof.
  unfold authdata_parse. destruct (_ <? HEADER_LEN); [done|]. unfold attested_part, mbind, reader_bind.
  destruct (has_flag _ AT).
  - destruct (parse_attested (drop HEADER_LEN b)) as [[a' unread]|] eqn:E; [|done]. unfold mret, reader_ret.
    destruct (extensions_part _ _) as [[? [|]]|]; try done. intros [= <-]. cbn. intros [= <-]. by eexists _, _.
  - unfold mret, reader_ret. destruct (extensions_part _ _) as [[? [|]]|]; try done. by intros [= <-].
Qed.

(** A registered passkey can be used. Whatever a registration accepts is
    the id the response sent, of 1 to 1023 bytes, from a client that answered
    this challenge for this origin with the user verified; and the public key
    it stores, a copy of bytes inside the authenticator data, is one whole
    COSE key of the algorithm stored beside it. So no assertion of it is ever
    refused over the stored key: not as CBOR, not as inconsistent. *)
Theorem registered_passkey_loads `{Minicbor, !MinicborLaws _, ClientDataParser, Base64, Sha256} rp challenge resp cred :
  verify_registration rp challenge resp = Ok cred ->
  b64_decode (rr_raw_id resp) = Some (nc_credential_id cred) /\ 0 < length (nc_credential_id cred) <= N.to_nat MAX_CREDENTIAL_ID_LEN /\
  (exists client_data ad, b64_decode (rr_client_data_json resp) = Some client_data /\ client_data_of client_data TYPE_CREATE challenge rp /\
     verified_user ad rp /\ nc_sign_count cred = ad_sign_count ad) /\
  (nc_backup_state cred = true -> nc_backup_eligible cred = true) /\
  exists key, parse_stored (nc_public_key_cose cred) = Ok key /\ ck_alg key = nc_alg cred.
Proof.
  intros Hv. destruct (registration_parts _ _ _ _ Hv) as (cd & att & adb & ad & a & ? & [? ?] & ? & ? & _ & Ead & Hu & Ea & _ & Hk & Halg & ? & Hbe & Hbs).
  split_and!; [done|lia|lia|by exists cd, ad|rewrite Hbe, Hbs; apply Hu|]. destruct (authdata_attested _ _ _ Ead Ea) as (rest & unread & Ha).
  exists (ac_public_key a). rewrite Hk, Halg. split; [|done]. by eapply attested_key_stored.
Qed.
Lemma registered_passkey_loads_witness :
  exists cred key, run_registration = Ok cred /\ parse_stored (M := plain_cbor) (nc_public_key_cose cred) = Ok key /\ ck_alg key = nc_alg cred.
Proof.
  assert (exists cred, run_registration = Ok cred) as (cred & E) by (eexists; vm_compute; reflexivity).
  destruct (@registered_passkey_loads plain_cbor plain_cbor_laws barred_client_data plain_base64 padded_digests some_rp some_nonce some_registration cred E)
    as (_ & _ & _ & _ & key & Hk & Ha).
  exists cred, key. split; [exact E|]. split; [exact Hk|exact Ha].
Defined.
