(* ===== verification/Confirm.v ===== *)
(** * The step-up decision (scarab-server/src/step_up/mod.rs, requests.rs)

    Whether a governed request may run: the window or action confirmation it
    is asked for, the challenge its refusal carries, and the request a machine
    raises for its human instead. [authorise] records before it allows. *)

From S2P Require Import Prelude Text Values Identity Auth StepUp Refusals Ops Guard Calls Webauthn.

(** ** Errors and refusals *)

Definition ENROLL_URL : string := "/settings/security?enroll=1".
Definition MSG_CONFIRM : string := "This needs a step-up confirmation: confirm with your passkey.".
Definition MSG_ENROLL : string :=
  "This needs a step-up confirmation, and you have no passkey yet: enroll one first (from a browser login made in the last 5 minutes).".
Definition MSG_FLAGGED_RESET : string :=
  "This needs a step-up confirmation, and every passkey you had is flagged as possibly cloned. Ask an Owner of your Org to reset your passkeys, then enroll a new one.".
Definition MSG_MACHINE : string :=
  "This needs a step-up confirmation by a human with a passkey. An API token or a session presented as Bearer can never give one.".
Definition MSG_REPLAY_MISMATCH : string :=
  "This is not the operation that was confirmed: a confirmed request runs exactly once, exactly as it was raised.".
Definition MSG_PLUGIN : string :=
  "This needs a step-up confirmation by a human with a passkey; a plugin has no human and cannot raise one.".
Definition MSG_REQUEST : string :=
  "This needs a step-up confirmation by a human with a passkey. A confirmation request was raised: open `confirmation_url` in a browser signed in as the human this credential acts for, and confirm it with a passkey within 5 minutes. It then runs once, exactly as sent.".
Definition PLUGIN_PRINCIPAL_PREFIX : string := "plugin:".

Record WebauthnChallengeDto := mkChallengeDto { cd_id : string; cd_public_key : Json; cd_expires_at : Z }.
Record StepUpRefusal := mkRefusal {
  rf_message : string;
  rf_mode : string;
  rf_op : string;
  rf_summary : OpSummary;
  rf_challenge : option WebauthnChallengeDto;
  rf_enroll_url : option string;
  rf_fresh_login_until : option Z;
  rf_confirmation_url : option string;
  rf_request_id : option string;
  rf_expires_at : option Z;
}.
(** The variants of [ApiError] the step-up code answers with, beside [Auth]'s. *)
Inductive StepUpError : Type :=
| SeApi (e : ApiError)
| SeConflict (m : string)
| SeGone (m : string)
| SeDenied (m : string)
| SeTooManyRequests (m : string)
| SeUnavailable (m : string)
| SeFreshLoginRequired (login_url : string)
| SeCeremony (status : N) (code message : string)
| SeStepUpRequired (r : StepUpRefusal).
Definition store_err (e : IdentityError) : StepUpError := SeApi (AeDb ("step-up store: " +:+ show_identity_error e)).

(** ** A program that may fail *)

Abbreviation Act A := (Prog (Result StepUpError A)).
Definition act_bind {A B} (m : Act A) (f : A -> Act B) : Act B :=
  r ← m; match r with Ok a => f a | Err e => mret (Err e) end.
Definition done {A} (a : A) : Act A := mret (Ok a).
Definition refused {A} (e : StepUpError) : Act A := mret (Err e).
(** [store.op().await.map_err(store_err)]. *)
Definition stored {A} (m : Prog (Result IdentityError A)) : Act A := r ← m; mret (map_err store_err r).
Definition lift_api {A} (r : Result ApiError A) : Act A := mret (map_err SeApi r).
Notation "'let?' x := m 'in' k" := (act_bind m (fun x => k)) (at level 10, x pattern, m at level 100, k at level 200).

(** ** The service *)

(** The KEK's sealer, HMAC-SHA256, standard base64 and serde's reading of a
    sealed request, all third-party code. *)
Class Sealer := {
  seal : string -> string -> Result string string;
  open_sealed : string -> string -> Result string string;
  derive_key : string -> string;
}.
Class Hmac := hmac_sha256 : string -> string -> string.
Class SealedCodec := {
  std_encode : string -> string;
  std_decode : string -> Result string string;
  parse_sealed : string -> Result string (string * option string);
}.

Definition DIGEST_KEY_LABEL : string := "scarab-step-up-digest/v1".
Definition LINK_KEY_LABEL : string := "scarab-identity-link/v1".
Record StepUpService := mkService { svc_rp : RelyingParty; svc_digest_key : string; svc_link_key : string }.
Definition new_service `{Sealer} (rp : RelyingParty) : StepUpService := mkService rp (derive_key DIGEST_KEY_LABEL) (derive_key LINK_KEY_LABEL).
Inductive StepUpPolicy : Type := PolicyOff | Enforce (svc : StepUpService).
Definition policy_service (p : StepUpPolicy) : option StepUpService := match p with Enforce svc => Some svc | PolicyOff => None end.
Definition is_enforced (p : StepUpPolicy) : bool := match p with Enforce _ => true | PolicyOff => false end.

Definition digest_of `{Hmac} (svc : StepUpService) (canonical : string) : string := hmac_sha256 (svc_digest_key svc) canonical.
(** [(len as u32).to_be_bytes()], and a part after its length. *)
Definition u32_be (n : N) : string :=
  let b i := ascii_of_N ((n / 256 ^ i) mod 256) in String (b 3%N) (String (b 2%N) (String (b 1%N) (String (b 0%N) ""))).
Definition link_part (part : string) : string := u32_be (N.of_nat (String.length part)) +:+ part.
Definition hex_02 (c : ascii) : string := String (hex_char (byte_of c / 16)) (String (hex_char (byte_of c mod 16)) "").
Definition link_message (state session_hash provider : string) (expires_at : Z) (moves_passkeys : bool) : string :=
  concat_chars (map link_part ([state; session_hash; provider; pretty expires_at] ++ (if moves_passkeys then ["passkeys:move"] else []))).
Definition link_binding `{Hmac} (svc : StepUpService) (state session_hash provider : string) (expires_at : Z) (moves_passkeys : bool) : string :=
  concat_chars (map hex_02 (String.list_ascii_of_string (hmac_sha256 (svc_link_key svc) (link_message state session_hash provider expires_at moves_passkeys)))).

(** Outside the dev escape hatch, a wired login means enforced step-up. *)
Definition check_step_up_composition (dev_insecure oauth_configured enforced : bool) : Result string unit :=
  if negb dev_insecure && oauth_configured && negb enforced
  then Err "OAuth login is wired without step-up enforcement outside SCARAB_DEV_INSECURE; refusing to start (ADR-0073 §8)"
  else Ok tt.

(** Bytes of the stores and of the verifier. *)
Definition to_bytes (s : string) : bytes := String.list_ascii_of_string s.
Definition of_bytes (b : bytes) : string := String.string_of_list_ascii b.

Definition is_usable (p : Passkey) : bool := bool_decide (pk_clone_suspected_at p = None).
Definition descriptors (l : list Passkey) : list CredentialDescriptor :=
  map (fun p => mkDescriptor (to_bytes (pk_credential_id p)) (pk_transports p)) l.
(** The challenge that was sent for a stored row. *)
Definition sent_challenge `{Sha256} (row : WebauthnChallenge) : option bytes :=
  if negb (String.length (wc_nonce row) =? 32) then None
  else match wc_action_digest row with
       | Some d => if negb (String.length d =? 32) then None else Some (action_challenge (to_bytes (wc_nonce row)) (Some (to_bytes d)))
       | None => Some (action_challenge (to_bytes (wc_nonce row)) None)
       end.
Definition summary_json (s : OpSummary) : Json :=
  JObj [("operation", JStr (os_operation s)); ("target", JStr (os_target s)); ("changes", JArr (map JStr (os_changes s)))].
Definition opt_str (o : option string) : Json := match o with Some s => JStr s | None => JNull end.

(** ** Events *)

Section decision.
Context `{Sha256, Sealer, Hmac, SealedCodec, Base64}.
(** The request being replayed on this task, if any. *)
Context (replay : option ReplayAuthority).

Definition random_id : Prog string := call RandomId.
(** A fresh event row, linked to the request being replayed. *)
Definition event (kind subject caller : string) (org : option string) (now : Z) : Prog SecurityEvent :=
  id ← random_id; mret (mkEvent 0 id org now kind subject caller None None None (ra_request_id <$> replay) None None (JObj [])).
(** The links its caller fills in; a request already linked stays unless
    another is given. *)
Definition fill (op target confirmation request passkey session : option string) (detail : Json) (e : SecurityEvent) : SecurityEvent :=
  mkEvent (sv_seq e) (sv_id e) (sv_org e) (sv_at e) (sv_kind e) (sv_subject e) (sv_caller e) op target confirmation
    (match request with Some _ => request | None => sv_request_id e end) passkey session detail.
Definition session_hash_of (c : Caller) : option string := sf_id_hash <$> ca_session c.
Definition subject_of (c : Caller) : string := pn_subject (ca_principal c).

Definition record (e : SecurityEvent) : Prog unit := _ ← call (Append e); mret tt.
Fixpoint record_each (l : list SecurityEvent) : Prog unit :=
  match l with [] => mret tt | e :: l => _ ← record e; record_each l end.
Definition record_refusal (e : SecurityEvent) : Prog unit := rows ← call (Limit e); record_each rows.

(** ** Passkeys and challenges *)

Definition usable_passkeys (principal : string) : Act (list Passkey) :=
  let? l := stored (call (ListPasskeys principal)) in done (List.filter is_usable l).
Definition mint_challenge (principal session_hash : string) (purpose : ChallengePurpose) (digest request_id label : option string) (summary : option Json)
    (now : Z) : Act (WebauthnChallenge * bytes) :=
  nonce ← call (RandomBytes 32);
  id ← random_id;
  let row := mkChallenge id principal session_hash purpose nonce digest request_id label summary now (now + WEBAUTHN_CHALLENGE_TTL_MS) None in
  let? _ := stored (call (StoreChallenge row)) in
  done (row, action_challenge (to_bytes nonce) (to_bytes <$> digest)).

(** ** The request as the guard prepared it *)

Record Prepared := mkPrepared {
  pp_svc : StepUpService;
  pp_caller : Caller;
  pp_org : option string;
  pp_requested_scope : option Scope;
  pp_summary : OpSummary;
  pp_digest : string;
  pp_method : string;
  pp_path : string;
  pp_query : string;
  pp_body : string;
}.
Record GuardCtx := mkGuardCtx { gc_op : Op; gc_prepared : option Prepared; gc_ticket : Ticket }.
Definition ctx_off (o : Op) : GuardCtx := mkGuardCtx o None Unresolved.
Definition with_ticket (t : Ticket) (c : GuardCtx) : GuardCtx := mkGuardCtx (gc_op c) (gc_prepared c) t.
Definition confirmation_id (c : GuardCtx) : option string := match gc_ticket c with Authorised id => id | _ => None end.

(** ** Refusing *)

Definition op_event (o : Op) (p : Prepared) (kind target : string) (confirmation : option string) (detail : Json) (now : Z) : Prog SecurityEvent :=
  ev ← event kind (subject_of (pp_caller p)) (event_label (pp_caller p)) (pp_org p) now;
  mret (fill (Some (op_id o)) (Some target) confirmation None None (session_hash_of (pp_caller p)) detail ev).
Definition linked_to (request : string) (e : SecurityEvent) : SecurityEvent :=
  fill (sv_op e) (sv_target e) (sv_confirmation_id e) (Some request) (sv_passkey_id e) (sv_session_hash e) (sv_detail e) e.
Definition refuse_with {A} (o : Op) (p : Prepared) (r : StepUpRefusal) (reason : string) (request_id : option string) : Act A :=
  now ← call Now;
  ev ← op_event o p "step_up.refused" (os_target (rf_summary r)) None (JObj [("mode", JStr (rf_mode r)); ("reason", JStr reason)]) now;
  _ ← match request_id with
      | Some id => record (linked_to id ev)
      | None => record_refusal ev
      end;
  refused (SeStepUpRequired r).
Definition refuse_as {A} (o : Op) (p : Prepared) (r : StepUpRefusal) (reason : string) : Act A := refuse_with o p r reason None.

(** ** A machine's request for its human (requests.rs) *)

Definition requester_of (c : Caller) : option StepUpRequester :=
  match ca_grant c with
  | Some token => Some (ByApiToken (at_id token))
  | None =>
      match ca_via c, ca_session c with
      | Some Bearer, Some s => Some (ByBearerSession (sf_id_hash s))
      | _, _ => None
      end
  end.

Inductive Unrequestable : Type := UnrequestableBrowserOnly | UnrequestableByToken | OutsideTokenScope.
Definition unrequestable_code (u : Unrequestable) : string :=
  match u with
  | UnrequestableBrowserOnly => "browser_session_required"
  | UnrequestableByToken => "not_by_api_token"
  | OutsideTokenScope => "outside_token_scope"
  end.
Definition unrequestable_message (u : Unrequestable) (o : Op) : string :=
  match u with
  | UnrequestableBrowserOnly => op_label o +:+ " can only be done by a human in a signed-in browser — never with an API token or a session presented as Bearer — so no confirmation request was raised"
  | UnrequestableByToken => op_label o +:+ " can never be done with an API token, so no confirmation request was raised"
  | OutsideTokenScope => op_label o +:+ " acts outside this API token's scope, so it could never run with it and no confirmation request was raised"
  end.
Definition names_no_org (o : OrgOf) : bool := match o with OrgNone => true | _ => false end.
Definition requestable (o : Op) (p : Prepared) : Result Unrequestable unit :=
  if bool_decide (op_machine o = BrowserOnly) then Err UnrequestableBrowserOnly
  else match ca_grant (pp_caller p) with
       | None => Ok tt
       | Some token =>
           if bool_decide (op_machine o = NotByToken) then Err UnrequestableByToken
           else if negb (names_no_org (op_org_of o)) && negb (match pp_requested_scope p with Some scope => covers token scope | None => false end)
           then Err OutsideTokenScope
           else Ok tt
       end.
Definition refuse_unrequestable {A} (o : Op) (p : Prepared) (mode : Mode) (why : Unrequestable) : Act A :=
  now ← call Now;
  ev ← op_event o p "step_up.refused" (os_target (pp_summary p)) None
         (JObj [("mode", JStr (mode_as_str mode)); ("reason", JStr (unrequestable_code why))]) now;
  _ ← record_refusal ev;
  refused (SeCeremony 403 (unrequestable_code why) (unrequestable_message why o)).

Definition aad (id : string) : string := "step-up-request:" +:+ id.
Definition sealed_text (body : string) (session_id : option string) : string :=
  json_text (JObj (("body", JStr (std_encode body)) :: match session_id with Some s => [("session_id", JStr s)] | None => [] end)).
Definition requester_label (c : Caller) : string :=
  match ca_grant c with
  | Some t => "API token “" +:+ at_name t +:+ "” (" +:+ at_id t +:+ ")"
  | None => "a CLI session (Bearer)"
  end.
Definition sealed_session (requester : StepUpRequester) (c : Caller) : option string :=
  match requester with ByBearerSession _ => sf_id <$> ca_session c | ByApiToken _ => None end.
Definition request_summary (s : OpSummary) (label : string) : Json :=
  JObj [("operation", JStr (os_operation s)); ("target", JStr (os_target s)); ("changes", JArr (map JStr (os_changes s))); ("requester", JStr label)].
(** The row that is raised. *)
Definition request_row (o : Op) (p : Prepared) (s : OpSummary) (requester : StepUpRequester) (id sealed : string) (now : Z) : StepUpRequest :=
  mkRequest id (pp_org p) (op_id o) (pp_method p) (pp_path p) (pp_query p) (Some sealed) (pp_digest p) (request_summary s (requester_label (pp_caller p)))
    (subject_of (pp_caller p)) requester
    (match requester with ByBearerSession _ => max_role_of (pn_roles (ca_principal (pp_caller p))) | ByApiToken _ => None end)
    now (now + STEP_UP_REQUEST_TTL_MS) RsPending None None None None None None.
Definition pending_text (n : N) (rest : string) : string := pretty n +:+ rest.
(** Why a request could not wait, once the caps are full. *)
Definition raise_full (human : string) (outcome : StepUpRequestRaiseOutcome) : option (N * string * string) :=
  match outcome with
  | Raised => None
  | RequesterFull pending =>
      Some (pending, "too many pending confirmation requests",
            pending_text pending (" step-up confirmation requests from this credential are already waiting for " +:+ human
                                  +:+ "; confirm them, or let them expire (5 minutes), first"))
  | HumanFull pending =>
      Some (pending, "too many pending confirmation requests for this human",
            pending_text pending (" step-up confirmation requests are already waiting for " +:+ human
                                  +:+ "; confirm them, or let them expire (5 minutes), first"))
  end.
Definition refuse_too_large {A} (o : Op) (p : Prepared) (s : OpSummary) (mode : string) (now : Z) : Act A :=
  let size := N.of_nat (String.length (pp_body p)) in
  ev ← op_event o p "step_up.refused" (os_target s) None
         (JObj [("mode", JStr mode); ("reason", JStr "request body too large"); ("bytes", JInt (Z.of_N size)); ("limit", JInt (Z.of_N (op_max_request_body o)))]) now;
  _ ← record_refusal ev;
  refused (SeCeremony 413 "request_body_too_large"
             ("the body (" +:+ pretty size +:+ " bytes) is larger than a confirmation request for " +:+ op_label o +:+ " may carry ("
              +:+ pretty (op_max_request_body o) +:+ " bytes), so none was raised; do it from a signed-in browser instead")).
Definition raise {A} (o : Op) (p : Prepared) (s : OpSummary) (requester : StepUpRequester) (r : StepUpRefusal) : Act A :=
  let human := subject_of (pp_caller p) in
  now ← call Now;
  if (op_max_request_body o <? N.of_nat (String.length (pp_body p)))%N then refuse_too_large o p s (rf_mode r) now
  else
    id ← random_id;
    match seal (sealed_text (pp_body p) (sealed_session requester (pp_caller p))) (aad id) with
    | Err e => refused (SeUnavailable ("could not seal the confirmation request, so none was raised: " +:+ e))
    | Ok sealed =>
        let row := request_row o p s requester id sealed now in
        let? outcome := stored (call (Raise row DEFAULT_CAPS now)) in
        match raise_full human outcome with
        | Some (pending, reason, message) =>
            ev ← op_event o p "step_up.refused" (os_target s) None
                   (JObj [("mode", JStr (rf_mode r)); ("reason", JStr reason); ("pending", JInt (Z.of_N pending))]) now;
            _ ← record_refusal ev;
            refused (SeTooManyRequests message)
        | None =>
            ev ← op_event o p "request.raised" (os_target s) None
                   (JObj [("requested_via", JStr (requester_via requester)); ("requested_by", JStr (requester_label (pp_caller p)));
                          ("expires_at", JInt (rq_expires_at row)); ("summary", summary_json s)]) now;
            _ ← record (linked_to id ev);
            server ← call AskServer;
            refuse_with o p
              (mkRefusal MSG_REQUEST (rf_mode r) (rf_op r) (rf_summary r) (rf_challenge r) (rf_enroll_url r) (rf_fresh_login_until r)
                 (Some (srv_ui_url server +:+ "/security/confirm/" +:+ id)) (Some id) (Some (rq_expires_at row)))
              "confirmation request raised" (Some id)
        end
    end.

(** ** The decision *)

Definition plain_refusal_of (o : Op) (s : OpSummary) (message mode : string) : StepUpRefusal :=
  mkRefusal message mode (op_id o) s None None None None None None.
(** A replay satisfies the one operation and digest its human confirmed, and
    no change it was not shown. *)
Definition replay_matches (a : ReplayAuthority) (o : Op) (p : Prepared) (s : OpSummary) : bool :=
  String.eqb (ra_op_id a) (op_id o) && String.eqb (ra_digest a) (pp_digest p)
  && forallb (fun c => existsb (String.eqb c) (ra_changes a)) (os_changes s).
Definition require_machine {A} (o : Op) (p : Prepared) (s : OpSummary) (mode : Mode) : Act A :=
  let refusal m := plain_refusal_of o s m (mode_as_str mode) in
  if starts_with PLUGIN_PRINCIPAL_PREFIX (subject_of (pp_caller p)) then refuse_as o p (refusal MSG_PLUGIN) "plugin"
  else match requester_of (pp_caller p) with
       | Some requester =>
           match requestable o p with
           | Err why => refuse_unrequestable o p mode why
           | Ok _ => raise o p s requester (refusal MSG_MACHINE)
           end
       | None => refuse_as o p (refusal MSG_MACHINE) "machine"
       end.
(** No usable passkey: a reset if there are flagged ones, else an enrolment. *)
Definition require_enrolled {A} (o : Op) (p : Prepared) (s : OpSummary) (facts : SessionFacts) (now : Z) : Act A :=
  let? all := stored (call (ListPasskeys (subject_of (pp_caller p)))) in
  if negb (bool_decide (all = [])) then refuse_as o p (plain_refusal_of o s MSG_FLAGGED_RESET "enroll") "passkeys flagged"
  else
    let fresh := match sf_fresh_login_until facts with Some t => if (now <? t)%Z then Some t else None | None => None end in
    refuse_as o p (mkRefusal MSG_ENROLL "enroll" (op_id o) s None (Some ENROLL_URL) fresh None None None) "no passkey".
(** The confirmation a browser session has already made, if any. *)
Definition standing (o : Op) (p : Prepared) (mode : Mode) (facts : SessionFacts) (now : Z) : Act (option string) :=
  let subject := subject_of (pp_caller p) in
  match mode with
  | Window => let? found := stored (call (LiveWindow (sf_id_hash facts) subject now)) in done (fst <$> found)
  | AlwaysAsk => stored (call (TakeAction (sf_id_hash facts) subject (pp_digest p) now))
  end.
Definition require_browser (o : Op) (p : Prepared) (s : OpSummary) (mode : Mode) (facts : SessionFacts) (now : Z) : Act (option string) :=
  let subject := subject_of (pp_caller p) in
  let? passkeys := usable_passkeys subject in
  if bool_decide (passkeys = []) then require_enrolled o p s facts now
  else
    let? found := standing o p mode facts now in
    match found with
    | Some id => done (Some id)
    | None =>
        let '(purpose, digest) := match mode with Window => (PurposeWindow, None) | AlwaysAsk => (PurposeAction, Some (pp_digest p)) end in
        let? (row, sent) := mint_challenge subject (sf_id_hash facts) purpose digest None None
                               (Some (JObj [("op", JStr (op_id o)); ("org", opt_str (pp_org p)); ("summary", summary_json s)])) now in
        let dto := mkChallengeDto (wc_id row) (request_options (svc_rp (pp_svc p)) sent (descriptors passkeys)) (wc_expires_at row) in
        refuse_as o p (mkRefusal MSG_CONFIRM (mode_as_str mode) (op_id o) s (Some dto) None None None None None) "not confirmed"
    end.
Definition mode_of (o : Op) : Mode := default Window (class_mode (op_class o)).
Definition browser_facts (c : Caller) : option SessionFacts := if is_browser_session c then ca_session c else None.
Definition require (o : Op) (p : Prepared) (s : OpSummary) : Act (option string) :=
  let mode := mode_of o in
  now ← call Now;
  match replay with
  | Some authority =>
      if replay_matches authority o p s then done (Some (ra_confirmation_id authority))
      else refuse_as o p (plain_refusal_of o s MSG_REPLAY_MISMATCH (mode_as_str mode)) "replay does not match the confirmed request"
  | None =>
      match browser_facts (pp_caller p) with
      | None => require_machine o p s mode
      | Some facts => require_browser o p s mode facts now
      end
  end.

(** Satisfied, and recorded before the operation may run. *)
Definition authorise (o : Op) (p : Prepared) (s : OpSummary) : Act (option string) :=
  let? confirmation := require o p s in
  now ← call Now;
  ev ← op_event o p "op.authorised" (os_target s) confirmation (JObj [("summary", summary_json s)]) now;
  logged ← call (Append ev);
  match logged with
  | Err _ => refused (SeUnavailable "the security event log is unavailable, so this operation was not performed")
  | Ok _ => done confirmation
  end.

(** [GuardCtx::require] and [exempt], with the ticket they leave. *)
Definition ctx_require (ctx : GuardCtx) (loosenings : list string) : Act GuardCtx :=
  match gc_prepared ctx with
  | None => done (with_ticket (ExemptTicket "step-up is off") ctx)
  | Some p =>
      let s := pp_summary p in
      let summary := if bool_decide (loosenings = []) then s else mkOpSummary (os_operation s) (os_target s) loosenings in
      let? confirmation := authorise (gc_op ctx) p summary in
      done (with_ticket (Authorised confirmation) ctx)
  end.
Definition ctx_exempt (ctx : GuardCtx) (why : string) : GuardCtx := with_ticket (ExemptTicket why) ctx.
Definition authenticate_now (headers : HeaderMap) (action : Action) : Prog (Result ApiError Caller) :=
  server ← call AskServer; mret (authenticate (srv_state server) replay headers action no_uses).1.
(** [service(&st)?]. *)
Definition service (policy : StepUpPolicy) : Act StepUpService := match policy_service policy with Some svc => done svc | None => refused (SeApi AeNotFound) end.
End decision.

(** * Theorems *)

Lemma makes_act_bind {A B} P (m : Act A) (f : A -> Act B) : makes P m -> (forall a, makes P (f a)) -> makes P (act_bind m f).
Proof. intros Hm Hf. apply makes_mbind; [done|]. intros [a|e]; [apply Hf|done]. Qed.
Lemma makes_stored {A} P (m : Prog (Result IdentityError A)) : makes P m -> makes P (stored m).
Proof. intros Hm. apply makes_mbind; [done|]. auto with calls. Qed.
#[export] Hint Extern 1 (makes _ (act_bind _ _)) => (apply makes_act_bind; [|intros ?]) : calls.
Lemma makes_refused {A} P e : makes P (refused (A:=A) e).
Proof. done. Qed.
Lemma makes_done {A} P (a : A) : makes P (done a).
Proof. done. Qed.
#[export] Hint Resolve makes_stored makes_refused makes_done : calls.
(** A program that never succeeds. *)
Abbreviation refuses p := (leaves (fun r => is_ok r = false) p).
Lemma refuses_act_bind {A B} (m : Act A) (f : A -> Act B) : (forall a, refuses (f a)) -> refuses (act_bind m f).
Proof. intros Hf. apply leaves_after. intros [a|e]; [apply Hf|done]. Qed.
#[export] Hint Extern 1 (leaves _ (mbind _ _)) => (apply leaves_after; intros ?) : calls.
#[export] Hint Extern 1 (leaves _ (act_bind _ _)) => (apply refuses_act_bind; intros ?) : calls.
#[export] Hint Extern 2 (leaves _ (match ?x with _ => _ end)) => destruct x : calls.
#[export] Hint Extern 3 (leaves _ (refused _)) => reflexivity : calls.
Ltac quiet_call := intros; auto 30 with calls.

Lemma wp_refuses `{Host} {A} G (p : Act A) pre (Q : list Step -> Result StepUpError A -> Prop) :
  (forall tr c, own_call c -> G tr c) -> own p -> refuses p -> (forall tr e, Q tr (Err e)) -> wp G p pre Q.
Proof.
  intros HG Ho Hr HQ. eapply wp_mono; [apply wp_leaves; [by apply (wp_quiet own_call G p pre (fun _ _ => True))|exact Hr]|].
  intros tr [a|e] [_ He]; [done|apply HQ].
Qed.
Lemma wp_act_bind `{Host} {A B} G (m : Act A) (f : A -> Act B) pre Q :
  wp G (act_bind m f) pre Q <-> wp G m pre (fun pre r => match r with Ok a => wp G (f a) pre Q | Err e => Q pre (Err e) end).
Proof. unfold act_bind. rewrite wp_mbind. split; intros Hw; (eapply wp_mono; [exact Hw|]); by intros tr [a|e]. Qed.

(** *** A step past a program that calls no handler *)

Section past.
Context `{Host} (G : list Step -> Call -> Prop) (HG : forall tr c, own_call c -> G tr c).
(** None of these calls is of a handler or the router. *)
Definition unrun (tr : list Step) : Prop := Forall (fun st => own_call (sp_call st)) tr.
Record follows (pre tr : list Step) : Prop := { follows_sub : pre ⊆ tr; follows_unrun : unrun pre -> unrun tr }.
Lemma follows_refl pre : follows pre pre.
Proof. by split. Qed.
Lemma follows_trans p q r : follows p q -> follows q r -> follows p r.
Proof. intros [] []. split; [by etransitivity|auto]. Qed.
Lemma follows_snoc pre st : own_call (sp_call st) -> follows pre (pre ++ [st]).
Proof. intros Ho. split; [set_solver|]. intros Hu. by apply Forall_app; split; [|apply Forall_singleton]. Qed.
Lemma wp_follows {A} (p : Prog A) pre Q : own p -> wp G p pre Q -> wp G p pre (fun tr a => follows pre tr /\ Q tr a).
Proof.
  intros Ho. assert (forall pre', follows pre pre' -> wp G p pre' Q -> wp G p pre' (fun tr a => follows pre tr /\ Q tr a)) as Hg; [|by apply Hg, follows_refl].
  induction p as [a|c k IH]; intros pre' Hf; [by split|]. destruct Ho as [Hc Hk]. intros [HGc Hw]. split; [done|]. intros a s s' Hd. apply IH; [done| |by apply Hw].
  eapply follows_trans; [done|by apply follows_snoc].
Qed.
Lemma wp_own {A} (p : Prog A) pre : own p -> wp G p pre (fun _ _ => True).
Proof. intros Ho. by apply (wp_quiet own_call). Qed.
Lemma wp_past {A B} (R : list Step -> A -> Prop) (p : Prog A) (f : A -> Prog B) pre Q : own p -> wp G p pre R ->
  (forall tr a, follows pre tr -> R tr a -> wp G (f a) tr Q) -> wp G (p ≫= f) pre Q.
Proof. intros Ho Hp Hf. apply wp_mbind. eapply wp_mono; [by apply wp_follows|]. intros tr a []. by apply Hf. Qed.
Lemma wp_past_act {A B} (R : list Step -> A -> Prop) (m : Act A) (f : A -> Act B) pre Q : own m -> wp G m pre (fun tr r => forall a, r = Ok a -> R tr a) ->
  (forall tr a, follows pre tr -> R tr a -> wp G (f a) tr Q) -> (forall tr e, Q tr (Err e)) -> wp G (act_bind m f) pre Q.
Proof. intros Ho Hm Hf He. apply wp_act_bind. eapply wp_mono; [by apply wp_follows|]. intros tr [a|e] [Ht Ha]; [by apply Hf; [|apply Ha]|apply He]. Qed.
Lemma wp_past_own {A B} (p : Prog A) (f : A -> Prog B) pre Q : own p -> (forall tr a, follows pre tr -> wp G (f a) tr Q) -> wp G (p ≫= f) pre Q.
Proof. intros Ho Hf. eapply (wp_past (fun _ _ => True)); [done|by apply wp_own|]. intros tr a Ht _. by apply Hf. Qed.
Lemma wp_past_own_act {A B} (m : Act A) (f : A -> Act B) pre Q : own m -> (forall tr a, follows pre tr -> wp G (f a) tr Q) -> (forall tr e, Q tr (Err e)) ->
  wp G (act_bind m f) pre Q.
Proof. intros Ho Hf He. eapply (wp_past_act (fun _ _ => True)); [done| |intros tr a Ht _; by apply Hf|done]. eapply wp_mono; [by apply wp_own|done]. Qed.
(** What one call answered is in the trace. *)
Lemma wp_answered c pre : own_call c -> wp G (call c) pre (fun tr a => exists s s', mkStep c a s s' ∈ tr /\ does c s a s').
Proof. intros Ho. apply wp_call; [by apply HG|]. intros a s s' Hd. exists s, s'. split; [|done]. apply elem_of_app. right. by apply list_elem_of_singleton. Qed.
End past.

Section quiet.
Context `{Sha256, Sealer, Hmac, SealedCodec, Base64}.
Context (replay : option ReplayAuthority) (P : Call -> Prop) {HP : QuietFor P}.
Lemma quiet_event k s c o n : makes P (event replay k s c o n).
Proof. unfold event, random_id. quiet_call. Qed.
Lemma quiet_record e : makes P (record e).
Proof. unfold record. quiet_call. Qed.
Lemma quiet_record_each l : makes P (record_each l).
Proof. induction l as [|e l IH]; [done|]. apply makes_mbind; [apply quiet_record|done]. Qed.
Lemma quiet_record_refusal e : makes P (record_refusal e).
Proof. apply makes_mbind; [quiet_call|]. intros l. apply quiet_record_each. Qed.
#[local] Hint Resolve quiet_event quiet_record quiet_record_refusal : calls.
Lemma quiet_op_event o p k t c d n : makes P (op_event replay o p k t c d n).
Proof. unfold op_event. quiet_call. Qed.
#[local] Hint Resolve quiet_op_event : calls.
Lemma quiet_refuse_with {A} o p r reason id : makes P (refuse_with replay (A:=A) o p r reason id).
Proof. unfold refuse_with. quiet_call. Qed.
#[local] Hint Resolve quiet_refuse_with : calls.
Lemma refuses_refuse_with {A} o p r reason id : refuses (refuse_with replay (A:=A) o p r reason id).
Proof. unfold refuse_with. quiet_call. Qed.
#[local] Hint Resolve refuses_refuse_with : calls.
Lemma quiet_refuse_as {A} o p r reason : makes P (refuse_as replay (A:=A) o p r reason).
Proof. apply quiet_refuse_with. Qed.
Lemma refuses_refuse_as {A} o p r reason : refuses (refuse_as replay (A:=A) o p r reason).
Proof. apply refuses_refuse_with. Qed.
#[local] Hint Resolve quiet_refuse_as refuses_refuse_as : calls.
Lemma quiet_raise {A} o p s rq r : makes P (raise replay (A:=A) o p s rq r).
Proof. unfold raise, refuse_too_large, random_id. quiet_call. Qed.
Lemma refuses_raise {A} o p s rq r : refuses (raise replay (A:=A) o p s rq r).
Proof. unfold raise, refuse_too_large. quiet_call. Qed.
#[local] Hint Resolve quiet_raise refuses_raise : calls.
Lemma quiet_require_machine {A} o p s m : makes P (require_machine replay (A:=A) o p s m).
Proof. unfold require_machine, refuse_unrequestable. quiet_call. Qed.
Lemma refuses_require_machine {A} o p s m : refuses (require_machine replay (A:=A) o p s m).
Proof. unfold require_machine, refuse_unrequestable. quiet_call. Qed.
Lemma quiet_require_enrolled {A} o p s f n : makes P (require_enrolled replay (A:=A) o p s f n).
Proof. unfold require_enrolled. quiet_call. Qed.
Lemma refuses_require_enrolled {A} o p s f n : refuses (require_enrolled replay (A:=A) o p s f n).
Proof. unfold require_enrolled. quiet_call. Qed.
Lemma quiet_usable_passkeys p : makes P (usable_passkeys p).
Proof. unfold usable_passkeys. quiet_call. Qed.
Lemma quiet_mint_challenge p sh pu d rq l s n : makes P (mint_challenge p sh pu d rq l s n).
Proof. unfold mint_challenge, random_id. quiet_call. Qed.
Lemma quiet_standing o p m f n : makes P (standing o p m f n).
Proof. unfold standing. quiet_call. Qed.
End quiet.
#[export] Hint Resolve quiet_event quiet_record quiet_record_refusal quiet_op_event quiet_refuse_with quiet_refuse_as quiet_raise quiet_require_machine
  quiet_require_enrolled quiet_usable_passkeys quiet_mint_challenge quiet_standing : calls.
#[export] Hint Resolve refuses_refuse_with refuses_refuse_as refuses_raise refuses_require_machine refuses_require_enrolled : calls.
Lemma quiet_require `{Sha256, Sealer, Hmac, SealedCodec, Base64} P {HP : QuietFor P} replay o p s : makes P (require replay o p s).
Proof. unfold require, require_browser. quiet_call. Qed.
#[export] Hint Resolve quiet_require : calls.
Lemma quiet_authorise `{Sha256, Sealer, Hmac, SealedCodec, Base64} P {HP : QuietFor P} replay o p s : makes P (authorise replay o p s).
Proof. unfold authorise. quiet_call. Qed.
#[export] Hint Resolve quiet_authorise : calls.

(** ** What satisfies the decision *)

Section evidence.
Context `{Host, Sha256, Sealer, Hmac, SealedCodec, Base64}.
Context (replay : option ReplayAuthority).

(** The caller held a usable passkey when asked. *)
Definition holds_passkey (p : Prepared) (tr : list Step) : Prop :=
  exists l k s, mkStep (ListPasskeys (subject_of (pp_caller p))) (Ok l) s s ∈ tr /\ k ∈ l /\ is_usable k = true.
(** A confirmation that satisfies [o], found by the calls [tr]: the replayed
    request's, a live window of this browser session, or an unconsumed action
    confirmation of exactly this digest, which the call consumed. *)
Inductive satisfied (o : Op) (p : Prepared) (s : OpSummary) (tr : list Step) : option string -> Prop :=
| by_replay a : replay = Some a -> ra_op_id a = op_id o -> ra_digest a = pp_digest p -> (forall c, c ∈ os_changes s -> c ∈ ra_changes a) ->
    satisfied o p s tr (Some (ra_confirmation_id a))
| by_window facts now c s0 : replay = None -> browser_facts (pp_caller p) = Some facts -> mode_of o = Window -> holds_passkey p tr ->
    mkStep (LiveWindow (sf_id_hash facts) (subject_of (pp_caller p)) now) (Ok (Some (cf_id c, cf_expires_at c))) s0 s0 ∈ tr ->
    c ∈ su_confirmations (sh_step_ups s0) -> is_live_window (sf_id_hash facts) (subject_of (pp_caller p)) now c = true ->
    satisfied o p s tr (Some (cf_id c))
| by_action facts now c s0 s1 : replay = None -> browser_facts (pp_caller p) = Some facts -> mode_of o = AlwaysAsk -> holds_passkey p tr ->
    mkStep (TakeAction (sf_id_hash facts) (subject_of (pp_caller p)) (pp_digest p) now) (Ok (Some (cf_id c))) s0 s1 ∈ tr ->
    c ∈ su_confirmations (sh_step_ups s0) -> is_live_action (sf_id_hash facts) (subject_of (pp_caller p)) (pp_digest p) now c = true ->
    (forall d, d ∈ su_confirmations (sh_step_ups s1) -> cf_id d = cf_id c -> is_Some (cf_consumed_at d)) ->
    satisfied o p s tr (Some (cf_id c)).
(** [op.authorised] is in the log, with that confirmation. *)
Definition authorised_logged (o : Op) (p : Prepared) (confirmation : option string) (tr : list Step) : Prop :=
  exists ev seq s0 s1, mkStep (Append ev) (Ok seq) s0 s1 ∈ tr /\ with_seq seq ev ∈ el_events (sh_events s1) /\
    sv_kind ev = "op.authorised" /\ sv_op ev = Some (op_id o) /\ sv_subject ev = subject_of (pp_caller p) /\ sv_org ev = pp_org p /\
    sv_confirmation_id ev = confirmation.

Lemma holds_passkey_app p tr tr' : holds_passkey p tr -> holds_passkey p (tr ++ tr').
Proof. intros (l & k & s & Hs & ?). exists l, k, s. split; [apply elem_of_app; by left|done]. Qed.
Lemma satisfied_app o p s tr tr' c : satisfied o p s tr c -> satisfied o p s (tr ++ tr') c.
Proof.
  intros [a ? ? ? ?|facts now d s0 ? ? ? Hk Hs ? ?|facts now d s0 s1 ? ? ? Hk Hs ? ? ?].
  - by eapply by_replay.
  - eapply by_window; eauto using holds_passkey_app. apply elem_of_app. by left.
  - eapply by_action; eauto using holds_passkey_app. apply elem_of_app. by left.
Qed.

Lemma max_by_in {A} (le : A -> A -> bool) l x : max_by le l = Some x -> x ∈ l.
Proof.
  unfold max_by. assert (forall acc, foldl (fun acc x => match acc with Some a => if le a x then Some x else Some a | None => Some x end) acc l = Some x -> acc = Some x \/ x ∈ l) as Hg.
  { induction l as [|y l IH]; intros acc; cbn [foldl]; [by left|]. intros [Hx|Hx]%IH; [|by right; right].
    destruct acc as [a|]; [destruct (le a y)|]; (by left) || (injection Hx as ->; right; by left). }
  intros [?|?]%Hg; done.
Qed.
Lemma live_window_some sh p now st id e : live_window sh p now st = Some (id, e) ->
  exists c, c ∈ su_confirmations st /\ is_live_window sh p now c = true /\ cf_id c = id /\ cf_expires_at c = e.
Proof.
  unfold live_window. destruct (max_by _ _) as [c|] eqn:E; [|done]. intros [= <- <-]. apply max_by_in, list_elem_of_In, filter_In in E as [Hin Hl].
  exists c. split_and!; [by apply list_elem_of_In|done..].
Qed.
Lemma does_live_window sh p now a s s' : does (LiveWindow sh p now) s (Ok a) s' -> s' = s /\ a = live_window sh p now (sh_step_ups s).
Proof. intros [[= -> ->]|(e & [=] & _)]. done. Qed.
Lemma does_list_passkeys p l s s' : does (ListPasskeys p) s (Ok l) s' -> s' = s /\ l = list_passkeys p (sh_passkeys s).
Proof. intros [[= -> ->]|(e & [=] & _)]. done. Qed.
Lemma does_take_action sh p d now id s s' : does (TakeAction sh p d now) s (Ok (Some id)) s' ->
  exists c, c ∈ su_confirmations (sh_step_ups s) /\ cf_id c = id /\ is_live_action sh p d now c = true /\
    forall d', d' ∈ su_confirmations (sh_step_ups s') -> cf_id d' = id -> is_Some (cf_consumed_at d').
Proof.
  intros [Hd|(e & [=] & _)]. cbn in Hd. destruct (consume_action sh p d now (sh_step_ups s)) as [r u] eqn:E. injection Hd as <- ->.
  apply consume_action_some in E as (c & Hc & Hid & Hl & ->). exists c. split_and!; [done..|]. cbn [sh_step_ups set_step_ups su_confirmations set_confirmations].
  intros d' (d0 & -> & _)%list_elem_of_fmap. destruct (String.eqb_spec (cf_id d0) id); [by intros _; eexists|done].
Qed.
Lemma does_append e seq s s' : does (Append e) s (Ok seq) s' -> with_seq seq e ∈ el_events (sh_events s').
Proof.
  intros [Hd|(err & [=] & _)]. cbn in Hd. unfold append_event in Hd. destruct (el_failing _); [by injection Hd|]. destruct (existsb _ _); [by injection Hd|].
  injection Hd as -> ->. cbn. apply elem_of_app. right. by apply list_elem_of_singleton.
Qed.
End evidence.

Section decided.
Context `{Host, Sha256, Sealer, Hmac, SealedCodec, Base64}.
Context (G : list Step -> Call -> Prop) (HG : forall tr c, own_call c -> G tr c).

Lemma wp_usable_passkeys replay o p s pre (k : list Passkey -> Act (option string)) :
  (forall tr l, (l <> [] -> holds_passkey p tr) -> wp G (k l) tr (fun tr r => forall c, r = Ok c -> satisfied replay o p s tr c)) ->
  wp G (act_bind (usable_passkeys (subject_of (pp_caller p))) k) pre (fun tr r => forall c, r = Ok c -> satisfied replay o p s tr c).
Proof.
  intros Hk. apply wp_act_bind. unfold usable_passkeys. apply wp_act_bind, wp_mbind, wp_call; [by apply HG|].
  intros [l|e] st st' Hd; [|done]. cbn [mret prog_ret wp map_err]. apply Hk. intros Hl.
  apply does_list_passkeys in Hd as [-> ->]. destruct (List.filter is_usable _) as [|k0 l0] eqn:E; [done|].
  assert (In k0 (List.filter is_usable (list_passkeys (subject_of (pp_caller p)) (sh_passkeys st)))) as [Hi Hu]%filter_In by (rewrite E; by left).
  exists (list_passkeys (subject_of (pp_caller p)) (sh_passkeys st)), k0, st. split_and!; [apply elem_of_app; right; by apply list_elem_of_singleton|by apply list_elem_of_In|done].
Qed.
Lemma wp_require_browser o p s facts now pre : browser_facts (pp_caller p) = Some facts ->
  wp G (require_browser None o p s (mode_of o) facts now) pre (fun tr r => forall c, r = Ok c -> satisfied None o p s tr c).
Proof.
  intros Hf. unfold require_browser. apply wp_usable_passkeys. intros tr l Hl. case_bool_decide as Hn; [apply wp_refuses; auto with calls; done|].
  specialize (Hl Hn). apply wp_act_bind. unfold standing. destruct (mode_of o) eqn:Hm.
  - apply wp_act_bind, wp_mbind, wp_call; [by apply HG|]. intros [f|e] st st' Hd; [|done]. cbn [mret prog_ret wp map_err done].
    apply does_live_window in Hd as [-> ->]. destruct (live_window _ _ _ _) as [[id e]|] eqn:E; cbn [fmap option_fmap option_map fst].
    + intros c' [= <-]. pose proof (live_window_some _ _ _ _ _ _ E) as (c & Hc & Hw & <- & <-). eapply by_window; try done; [by apply holds_passkey_app|].
      apply elem_of_app. right. by apply list_elem_of_singleton.
    + apply wp_refuses; [done|quiet_call|quiet_call|done].
  - apply wp_mbind, wp_call; [by apply HG|]. intros [[id|]|e] st st' Hd; cbn [mret prog_ret wp map_err]; [|apply wp_refuses; [done|quiet_call|quiet_call|done]|done].
    intros c' [= <-]. apply does_take_action in Hd as (c & Hc & <- & Hl' & Hs). eapply by_action; try done; [by apply holds_passkey_app|].
    apply elem_of_app. right. by apply list_elem_of_singleton.
Qed.
Lemma wp_require replay o p s pre : wp G (require replay o p s) pre (fun tr r => forall c, r = Ok c -> satisfied replay o p s tr c).
Proof.
  unfold require. apply wp_mbind, wp_call; [by apply HG|]. intros now st st' _. destruct replay as [a|].
  - destruct (replay_matches a o p s) eqn:E; [|apply wp_refuses; auto with calls; done]. intros c [= <-].
    apply andb_true_iff in E as [[E1%String.eqb_eq E2%String.eqb_eq]%andb_true_iff E3]. apply by_replay; [done..|].
    intros c Hc%list_elem_of_In. apply (proj1 (forallb_forall _ _) E3), existsb_exists in Hc as (c' & Hin & ->%String.eqb_eq). by apply list_elem_of_In.
  - destruct (browser_facts (pp_caller p)) as [facts|] eqn:E; [by apply wp_require_browser|]. apply wp_refuses; auto with calls; done.
Qed.
Lemma wp_authorise replay o p s pre :
  wp G (authorise replay o p s) pre (fun tr r => forall c, r = Ok c -> satisfied replay o p s tr c /\ authorised_logged o p c tr).
Proof.
  unfold authorise. apply wp_act_bind. eapply wp_mono; [apply wp_require|]. intros tr [c|e] Hs; [|done]. specialize (Hs c eq_refl).
  apply wp_mbind, wp_call; [by apply HG|]. intros now st st' _. apply wp_mbind. unfold op_event, event, random_id.
  apply wp_mbind, wp_mbind, wp_call; [by apply HG|]. intros id st1 st1' _. apply wp_mbind, wp_call; [by apply HG|].
  intros [seq|e] st2 st2' Hd; [|done]. intros c' [= <-]. split; [by do 3 apply satisfied_app|].
  eexists _, seq, st2, st2'. split_and!; [apply elem_of_app; right; by apply list_elem_of_singleton|by apply does_append in Hd|done..].
Qed.
End decided.

(** ** Concrete instances, for examples *)

Definition plain_host : Host := {| limiter_entries := map_to_list; org_members _ := ∅; host_lowercase s := s |}.
Definition plain_sealer : Sealer := {| seal text a := Ok (a +:+ text); open_sealed sealed a := match strip_prefix a sealed with Some t => Ok t | None => Err "not sealed" end; derive_key l := l |}.
Definition plain_hmac : Hmac := fun key m => key +:+ m.
Definition amys_cookie : HeaderMap := fun name =>
  if String.eqb name "cookie" then Some "scarab_session=s1" else if String.eqb name "x-csrf-token" then Some "t" else None.
Definition amys_browser : string -> Result IdentityError (option Session) :=
  fun sid => Ok (if String.eqb sid "s1" then Some (mkSession "s1" amy 1000 (@csrf_hash plain_digests "t") 1 LOGIN_KIND_BROWSER) else None).
Definition amys_server : Server :=
  let st := shop_ports Admin in
  mkServer (mkAppState (Some amys_browser) (st_api_tokens st) (st_rbac st) None [] (fun _ => None) 10)
    (fun _ => None) None None None [] None "https://ci.example" (fun _ => "/login").
Definition amys_passkey : Passkey := mkPasskey "k1" "amy" "cred" "cose" (-7) 0 "laptop" [] None false false 1 "s1" None None None.
Definition amys_window : StepUpConfirmation :=
  mkConfirmation "w1" "amy" (@session_id_hash plain_digests "s1") "k1" KindWindow None None 5 (5 + STEP_UP_WINDOW_MS) None.
Definition amys_stores : Shared :=
  mkShared (mkPasskeys {["k1" := amys_passkey]} ∅) ∅ (mkStepUp [amys_window] ∅ false) (mkEventLog [] false) new_limiter.
(** What a quiet environment answers: its clock, fresh ids, one server. *)
Definition quiet_answers (now : Z) (n : nat) (c : Call) : answer c :=
  match c return answer c with
  | Now => now
  | RandomBytes k => String.string_of_list_ascii (List.repeat (ascii_of_nat n) k)
  | RandomId => "id" +:+ pretty (N.of_nat n)
  | AskServer => amys_server
  | ListPasskeys _ | GetByCredential _ | UserHandle _ _ | InsertPasskey _ | RecordUse _ _ _ _ _ | MarkClone _ _ | RemovePasskey _ _ | RemoveAll _
  | PrincipalsWithPasskeys _ | StoreChallenge _ | TakeChallenge _ _ _ | StoreConfirmation _ | LiveWindow _ _ _ | WindowExpiry _ _ _
  | TakeAction _ _ _ _ | RevokeWindows _ | RevokeForPasskey _ | Raise _ _ _ | GetRequest _ | Begin _ _ _ _ | Finish _ _ _ _ _
  | PendingInOrg _ _ | Append _ | ListEvents _ => Err IeDenied
  | Limit _ => []
  | RunHandler _ _ => (200%N, Unresolved)
  | RunRouter _ _ _ _ => (200%N, "done")
  end.
Definition quiet_env (now : Z) (n : nat) : Turn := mkTurn (fun s => s) (quiet_answers now n) None.
