(* ===== verification/GuardRun.v ===== *)
(** * The step-up guard (scarab-server/src/step_up/guard.rs)

    The middleware on every route: it finds the route's operation, reads the
    request, and lets a crown jewel's handler run only once [authorise] has
    allowed it. A handler is a call that may do anything. *)

From S2P Require Import Prelude Text Values Identity Auth StepUp Refusals Ops Guard Calls OpTable Webauthn Confirm.

(** [serde_json::from_slice] of a body, as a [Value]. *)
Class JsonParser := parse_json : string -> Result string Json.

Inductive GuardResponse : Type :=
| Handled (status : N)
| UnclassifiedRoute
| BodyTooLarge
| UnreadableBody (why : string)
| Failed (e : StepUpError)
| Panicked.

Definition method_of (m : string) : Method :=
  if String.eqb m "GET" then GET else if String.eqb m "HEAD" then HEAD else if String.eqb m "OPTIONS" then OPTIONS
  else if String.eqb m "POST" then POST else if String.eqb m "PUT" then PUT else if String.eqb m "DELETE" then DELETE else OtherMethod m.
Definition is_read_method (m : Method) : bool := match m with GET | HEAD | OPTIONS => true | _ => false end.
Definition is_crown_jewel (c : Class_) : bool := match c with CrownJewel _ => true | _ => false end.
Definition is_conditional (c : Class_) : bool := match c with Conditional _ _ => true | _ => false end.
Definition is_success (status : N) : bool := (200 <=? status)%N && (status <? 300)%N.
Definition has_key (name : string) (kv : string * string) : bool := String.eqb kv.1 name.
Definition lookup_pair (name : string) (l : list (string * string)) : option string := snd <$> List.find (has_key name) l.

Section guard.
Context `{Sha256, Sealer, Hmac, SealedCodec, Base64, UrlParser, JsonParser}.
(** Whether this is a debug build, whose tripwire panics. *)
Context (debug_assertions : bool) (replay : option ReplayAuthority) (policy : StepUpPolicy).

(** A read passes, except a GET registered as a crown jewel. *)
Definition governed_read (table : list RouteEntry) (m : Method) (matched : option string) : bool :=
  negb (bool_decide (m = OPTIONS))
  && match matched with
     | Some path => existsb (fun e => bool_decide (re_method e = GET) && String.eqb (re_path e) path && is_crown_jewel (op_class (re_op e))) table
     | None => false
     end.
Definition find_entry (table : list RouteEntry) (m : Method) (matched : option string) : option RouteEntry :=
  let lookup := match m with HEAD => GET | m => m end in
  path ← matched; List.find (fun e => bool_decide (re_method e = lookup) && String.eqb (re_path e) path) table.

(** The next service, unless it was told of a confirmation. *)
Definition run_next (req : Request) (ctx : option GuardCtx) : Prog (N * Ticket) :=
  call (RunHandler req ((fun c => mkHandlerCtx (op_id (gc_op c)) (gc_ticket c)) <$> ctx)).
Definition pass (req : Request) : Prog GuardResponse := answered ← run_next req None; mret (Handled (answered.1)).

(** *** Events after the handler *)

Definition completed (o : Op) (p : Prepared) (confirmation : option string) (status : N) : Prog unit :=
  now ← call Now;
  ev ← op_event replay o p "op.completed" (os_target (pp_summary p)) confirmation (JObj [("status", JInt (Z.of_N status))]) now;
  record ev.
(** [None] when a debug build panics. *)
Definition tripwire (ctx : GuardCtx) (p : option Prepared) (status : N) : Prog (option unit) :=
  if negb (is_success status) || negb (bool_decide (gc_ticket ctx = Unresolved)) then mret (Some tt)
  else if debug_assertions then mret None
  else match p with
       | None => mret (Some tt)
       | Some p =>
           now ← call Now;
           ev ← op_event replay (gc_op ctx) p "guard.not_consulted" (os_target (pp_summary p)) None (JObj [("status", JInt (Z.of_N status))]) now;
           _ ← record ev;
           mret (Some tt)
       end.

(** *** Reading the request *)

Definition op_org (o : Op) (server : Server) (param query_param body_str : string -> option string) : option Scope :=
  match op_org_of o with
  | OrgRun => param "id" ≫= srv_run_scope server
  | OrgConnection =>
      match param "id", srv_connections server with
      | Some id, Some get => match get id with Ok (Some (Some org)) => Some (Org org) | _ => None end
      | _, _ => None
      end
  | OrgPath name => Org <$> param name
  | OrgQuery name => Org <$> query_param name
  | OrgBody ptr => Org <$> body_str ptr
  | OrgNone => None
  end.
Definition op_project (o : Op) (param query_param body_str : string -> option string) : option string :=
  match op_project_of o with
  | ProjectNone => None
  | ProjectPath name => param name
  | ProjectQuery name => query_param name
  | ProjectBody ptr => body_str ptr
  end.
Definition requested_scope (o : Op) (server : Server) (param query_param body_str : string -> option string) : option Scope :=
  scope ← op_org o server param query_param body_str;
  match scope with
  | Project _ _ => Some scope
  | Org org =>
      if String.eqb org "" then None
      else Some (match op_project o param query_param body_str with Some name => Project org name | None => Org org end)
  end.

(** The body as JSON: absent, parsed, or unreadable. *)
Definition body_json (body : string) : Result string (option Json) :=
  if String.eqb body "" then Ok None else match parse_json body with Ok v => Ok (Some v) | Err e => Err e end.
Definition request_digest (svc : StepUpService) (method path raw_query body : string) (json : option Json) : string :=
  digest_of svc (canonical_form method path (sorted_query raw_query) body json).
Definition org_for (caller : Caller) (server : Server) (org : string) : option string :=
  if holds_role_in (srv_state server) caller org then Some org else None.
Definition prepare (svc : StepUpService) (o : Op) (req : Request) (caller : Caller) (body : string) (json : option Json) : Prog Prepared :=
  let pattern := default "" (hr_matched req) in
  let raw_query := default "" (hr_query req) in
  let params := path_params pattern (hr_path req) in
  let query := sorted_query raw_query in
  let body_view := default JNull json in
  let param name := lookup_pair name params in
  let query_param name := lookup_pair name query in
  let body_str ptr := pointer body_view ptr ≫= json_as_str in
  server ← call AskServer;
  let requested := requested_scope o server param query_param body_str in
  org ← match scope_org <$> requested with
        | Some org => if String.eqb org "" then mret None else server ← call AskServer; mret (org_for caller server org)
        | None => mret None
        end;
  let summary := op_summary o (mkOpInput (hr_method req) (hr_path req) params query (redact body_view (op_redact o))) in
  mret (mkPrepared svc caller org requested summary (request_digest svc (hr_method req) (hr_path req) raw_query body json)
          (hr_method req) (hr_path req) raw_query body).

(** *** The middleware *)

Definition guard_conditional (o : Op) (req : Request) (p : option Prepared) : Prog GuardResponse :=
  let ctx := mkGuardCtx o p Unresolved in
  answered ← run_next req (Some ctx);
  let '(status, ticket) := answered in
  tripped ← tripwire (with_ticket ticket ctx) p status;
  match tripped with
  | None => mret Panicked
  | Some _ =>
      _ ← match p, ticket with
          | Some p, Authorised confirmation => completed o p confirmation status
          | _, _ => mret tt
          end;
      mret (Handled status)
  end.
Definition guard_crown_jewel (o : Op) (req : Request) (p : Prepared) : Prog GuardResponse :=
  allowed ← authorise replay o p (pp_summary p);
  match allowed with
  | Err e => mret (Failed e)
  | Ok confirmation =>
      answered ← run_next req (Some (mkGuardCtx o (Some p) (Authorised confirmation)));
      _ ← completed o p confirmation answered.1;
      mret (Handled answered.1)
  end.
(** A body the guard cannot read is refused before anything is asked. *)
Definition guard_prepared (svc : StepUpService) (o : Op) (req : Request) (caller : Caller) (body : string) (next : Prepared -> Prog GuardResponse)
    : Prog GuardResponse :=
  match body_json body with
  | Err e => mret (UnreadableBody e)
  | Ok json => p ← prepare svc o req caller body json; next p
  end.
Definition guard_governed (svc : StepUpService) (o : Op) (req : Request) : Prog GuardResponse :=
  match hr_body req with
  | None => mret BodyTooLarge
  | Some body =>
      if (GUARD_BODY_LIMIT <? N.of_nat (String.length body))%N then mret BodyTooLarge
      else
        authenticated ← authenticate_now replay (hr_headers req) Write;
        match authenticated with
        | Err e => mret (Failed (SeApi e))
        | Ok caller =>
            if is_conditional (op_class o) then guard_prepared svc o req caller body (fun p => guard_conditional o req (Some p))
            else
              server ← call AskServer;
              if negb (reaches_min_role (srv_state server) caller (op_min_role o)) then pass req
              else guard_prepared svc o req caller body (guard_crown_jewel o req)
        end
  end.
Definition guard_with (table : list RouteEntry) (req : Request) : Prog GuardResponse :=
  let m := method_of (hr_method req) in
  if is_read_method m && negb (governed_read table m (hr_matched req)) then pass req
  else match find_entry table m (hr_matched req) with
       | None => mret UnclassifiedRoute
       | Some entry =>
           let o := re_op entry in
           if negb (is_crown_jewel (op_class o) || is_conditional (op_class o)) then pass req
           else match policy_service policy with
                | None => if is_conditional (op_class o) then guard_conditional o req None else pass req
                | Some svc => guard_governed svc o req
                end
       end.
Definition guard (req : Request) : Prog GuardResponse := guard_with route_table req.
End guard.

(** * Theorems *)

Section guarded.
Context `{Host, Sha256, Sealer, Hmac, SealedCodec, Base64, UrlParser, JsonParser}.
Context (debug_assertions : bool) (replay : option ReplayAuthority).

Lemma own_completed o p c st : own (completed replay o p c st).
Proof. unfold completed. quiet_call. Qed.

(** The caller is who the request's credentials say, or the replayed
    requester. *)
Definition authenticated_as (req : Request) (tr : list Step) (c : Caller) : Prop :=
  exists server s s', mkStep AskServer server s s' ∈ tr /\ (authenticate (srv_state server) replay (hr_headers req) Write no_uses).1 = Ok c.
(** Why a crown jewel's handler was run: its caller's role is one the handler
    refuses, or the request, as the guard read it, was confirmed and the
    confirmation recorded. *)
Inductive may_run (svc : StepUpService) (o : Op) (req : Request) (tr : list Step) : option HandlerCtx -> Prop :=
| role_refused c server s s' : authenticated_as req tr c -> mkStep AskServer server s s' ∈ tr ->
    reaches_min_role (srv_state server) c (op_min_role o) = false -> may_run svc o req tr None
| confirmed p body json confirmation :
    authenticated_as req tr (pp_caller p) -> hr_body req = Some body -> body_json body = Ok json ->
    pp_digest p = request_digest svc (hr_method req) (hr_path req) (default "" (hr_query req)) body json ->
    satisfied replay o p (pp_summary p) tr confirmation -> authorised_logged o p confirmation tr ->
    may_run svc o req tr (Some (mkHandlerCtx (op_id o) (Authorised confirmation))).
Definition handlers_confirmed (svc : StepUpService) (o : Op) (req : Request) (tr : list Step) (c : Call) : Prop :=
  match c with
  | RunHandler req' ctx => req' = req /\ may_run svc o req tr ctx
  | RunRouter _ _ _ _ => False
  | _ => True
  end.
Lemma own_confirmed svc o req tr c : own_call c -> handlers_confirmed svc o req tr c.
Proof. by destruct c. Qed.
Lemma authenticated_app req tr tr' c : authenticated_as req tr c -> authenticated_as req (tr ++ tr') c.
Proof. intros (server & s & s' & Hs & ?). exists server, s, s'. split; [apply elem_of_app; by left|done]. Qed.

Lemma wp_prepare svc o req caller body json G pre Q :
  (forall tr c, own_call c -> G tr c) ->
  (forall tr p, pp_caller p = caller -> pp_digest p = request_digest svc (hr_method req) (hr_path req) (default "" (hr_query req)) body json -> Q (pre ++ tr) p) ->
  wp G (prepare svc o req caller body json) pre Q.
Proof.
  intros HG HQ. unfold prepare. apply wp_mbind, wp_call; [by apply HG|]. intros server s s' _. apply wp_mbind.
  eapply (wp_quiet own_call); [quiet_call|done|]. intros tr org. rewrite <- app_assoc. by apply HQ.
Qed.
Lemma wp_crown_jewel svc o req p body json pre :
  authenticated_as req pre (pp_caller p) -> hr_body req = Some body -> body_json body = Ok json ->
  pp_digest p = request_digest svc (hr_method req) (hr_path req) (default "" (hr_query req)) body json ->
  wp (handlers_confirmed svc o req) (guard_crown_jewel replay o req p) pre (fun _ _ => True).
Proof.
  intros Ha Hb Hj Hd. unfold guard_crown_jewel. apply wp_mbind. eapply wp_mono; [apply wp_authorise, own_confirmed|].
  intros tr [c|e] Hs; [|done]. destruct (Hs c eq_refl) as [Hs1 Hs2]. apply wp_mbind, wp_call.
  - split; [done|]. eapply confirmed; eauto using authenticated_app.
  - intros a s s' _. apply wp_mbind. eapply (wp_quiet own_call); [apply own_completed|apply own_confirmed|done].
Qed.
Lemma wp_guard_governed svc o req pre : is_crown_jewel (op_class o) = true ->
  wp (handlers_confirmed svc o req) (guard_governed debug_assertions replay svc o req) pre (fun _ _ => True).
Proof.
  intros Hc. unfold guard_governed. destruct (hr_body req) as [body|] eqn:Hb; [|done]. destruct (_ <? _)%N; [done|].
  assert (is_conditional (op_class o) = false) as -> by by destruct (op_class o).
  apply wp_mbind. unfold authenticate_now. apply wp_mbind, wp_call; [done|]. intros server s s' _. cbn [mret prog_ret wp].
  destruct (authenticate _ _ _ _ _).1 as [caller|e] eqn:Ea; [|done].
  assert (authenticated_as req (pre ++ [mkStep AskServer server s s']) caller) as Hau.
  { exists server, s, s'. split; [apply elem_of_app; right; by apply list_elem_of_singleton|done]. }
  apply wp_mbind, wp_call; [done|]. intros server2 s2 s2' _. destruct (reaches_min_role _ _ _) eqn:Hr; cbn [negb].
  - unfold guard_prepared. destruct (body_json body) as [json|e] eqn:Hj; [|done]. apply wp_mbind, wp_prepare; [apply own_confirmed|].
    intros tr p <- Hd. eapply wp_crown_jewel; [|done..]. by do 2 apply authenticated_app.
  - apply wp_mbind, wp_call; [|done]. split; [done|]. eapply role_refused; [by apply authenticated_app| |done].
    apply elem_of_app. right. by apply list_elem_of_singleton.
Qed.

(** C2: no crown jewel runs unconfirmed. With step-up enforced, in every trace
    of the guard on a request whose route is a crown jewel, whatever the
    stores hold and the other requests do between its calls and wherever it
    is dropped, a handler is run only on this request and only after: its
    caller was authenticated and holds too little a role for the handler to
    do anything; or the guard read its body and digest, found a confirmation
    for it (a live window of this browser session, an unconsumed action
    confirmation of exactly this digest, which it consumed, or the replayed
    request that was confirmed for this operation, this digest and no other
    change) and appended [op.authorised] with it to the log. *)
Theorem crown_jewel_confirmed svc table req entry tr r :
  method_of (hr_method req) <> OPTIONS ->
  find_entry table (method_of (hr_method req)) (hr_matched req) = Some entry ->
  is_crown_jewel (op_class (re_op entry)) = true ->
  runs (guard_with debug_assertions replay (Enforce svc) table req) tr r ->
  forall tr1 req' ctx a s s' tr2, tr = tr1 ++ mkStep (RunHandler req' ctx) a s s' :: tr2 ->
    req' = req /\ may_run svc (re_op entry) req tr1 ctx.
Proof.
  intros Hm Hf Hc Hr. assert (governed_read table (method_of (hr_method req)) (hr_matched req) = true \/ is_read_method (method_of (hr_method req)) = false) as Hg.
  { destruct (is_read_method _) eqn:Hi; [left|by right]. unfold governed_read, find_entry in *. destruct (hr_matched req) as [path|]; [|done].
    apply find_some in Hf as [Hin [He1%bool_decide_eq_true He2]%andb_true_iff]. rewrite bool_decide_eq_false_2 by done. cbn [negb andb].
    apply existsb_exists. exists entry. split; [done|]. rewrite He2, Hc, !andb_true_r. apply bool_decide_eq_true. rewrite He1. by destruct (method_of _). }
  assert (is_read_method (method_of (hr_method req)) && negb (governed_read table (method_of (hr_method req)) (hr_matched req)) = false) as Hn.
  { destruct Hg as [->| ->]; [apply andb_false_r|done]. }
  unfold guard_with in Hr. rewrite Hn, Hf in Hr. rewrite Hc in Hr. cbn [negb orb policy_service] in Hr.
  intros tr1 req' ctx a s s' tr2 ->. eapply (wp_sound _ _ [] _ _ _ (wp_guard_governed svc _ req [] Hc)) in Hr as [Hr _].
  exact (Hr tr1 _ tr2 eq_refl).
Qed.
End guarded.

(** ** Witness *)

Definition plain_json : JsonParser := fun s => if String.eqb s "{}" then Ok (JObj []) else Err "not JSON".
Definition bare_codec : SealedCodec := {| std_encode s := s; std_decode s := Ok s; parse_sealed s := Ok (s, None) |}.
Definition some_service : StepUpService := mkService some_rp "digest-key" "link-key".
Definition put_secret : Request := mkHttp "POST" (Some "/v1/secrets") "/v1/secrets" None amys_cookie (Some "{}").
Definition guarded_put : list Step * GuardResponse * Shared :=
  @run plain_host _ (quiet_env 20) 0
    (@guard_with plain_digests plain_sealer plain_hmac bare_codec plain_base64 no_urls plain_json false None (Enforce some_service) route_table put_secret) amys_stores.
Lemma crown_jewel_confirmed_witness :
  guarded_put.1.2 = Handled 200 /\
  @may_run plain_digests plain_hmac plain_json None some_service SECRET_PUT put_secret (take 9 guarded_put.1.1)
    (Some (mkHandlerCtx "secret.put" (Authorised (Some "w1")))).
Proof.
  split; [vm_compute; reflexivity|].
  assert (sp_call <$> guarded_put.1.1 !! 9 = Some (RunHandler put_secret (Some (mkHandlerCtx "secret.put" (Authorised (Some "w1")))))) as Hc by (vm_compute; reflexivity).
  destruct (guarded_put.1.1 !! 9) as [[c a s s']|] eqn:E; [|discriminate Hc]. injection Hc as ->.
  eapply (@crown_jewel_confirmed plain_host plain_digests plain_sealer plain_hmac bare_codec plain_base64 no_urls plain_json
            false None some_service route_table put_secret (mkRoute POST "/v1/secrets" SECRET_PUT) guarded_put.1.1 (Some guarded_put.1.2)).
  - vm_compute. discriminate.
  - vm_compute. reflexivity.
  - reflexivity.
  - exact (@run_runs plain_host _ (quiet_env 20) 0 _ amys_stores).
  - symmetry. exact (take_drop_middle _ _ _ E).
Defined.
