(* ===== verification/Ceremony.v ===== *)
(** * The passkey and step-up ceremonies (scarab-server/src/step_up/ceremony.rs)

    Enrolling, removing and using a passkey, each in a browser session: a
    challenge is minted, consumed by its first answer, the answer verified, and
    what it confirms recorded before it is stored. *)

From S2P Require Import Prelude Text Values Protection Identity Auth StepUp Refusals Ops Guard Calls Webauthn Confirm.

Definition MAX_LABEL_LEN : nat := 64.

Record PasskeyDto := mkPasskeyDto {
  pd_id : string; pd_label : string; pd_created_at : Z; pd_last_used_at : option Z; pd_backup_eligible : bool; pd_backup_state : bool;
  pd_clone_suspected : bool; pd_transports : list string;
}.
Definition passkey_dto (p : Passkey) : PasskeyDto :=
  mkPasskeyDto (pk_id p) (pk_label p) (pk_created_at p) (pk_last_used_at p) (pk_backup_eligible p) (pk_backup_state p)
    (bool_decide (is_Some (pk_clone_suspected_at p))) (pk_transports p).
Record MeSecurityResponse := mkMeSecurity {
  ms_subject : string; ms_step_up : string; ms_has_passkey : bool; ms_usable_passkey_count : N; ms_passkeys : list PasskeyDto;
  ms_passkeys_hidden : bool; ms_window_expires_at : option Z; ms_can_enroll_first : bool; ms_fresh_login_until : option Z; ms_fresh_login_url : string;
}.
Record StepUpConfirmRequest := mkConfirmRequest { cr_challenge_id : string; cr_credential : Json }.
Record StepUpConfirmResponse := mkConfirmResponse { cs_confirmation_id : string; cs_kind : string; cs_confirmed_at : Z; cs_expires_at : Z }.

(** serde's reading of a credential's JSON. *)
Class CredentialParser := {
  parse_registration_response : Json -> option RegistrationResponse;
  parse_authentication_response : Json -> option AuthenticationResponse;
}.

Definition webauthn_refused (e : WebauthnError) : StepUpError := SeCeremony 400 (error_code e) (show_webauthn_error e).
Definition challenge_invalid : StepUpError :=
  SeCeremony 400 "challenge_invalid" "the challenge is unknown, already used, expired, or from another session".
Definition unknown_credential : StepUpError := SeCeremony 400 "unknown_credential" "that passkey is not one of yours".
Definition clone_refused : StepUpError :=
  SeCeremony 403 "clone_suspected"
    "this passkey's signature counter went backwards, so it may have been cloned; it is refused from now on — use another passkey or ask an Owner to reset yours".
Definition passkey_unusable : StepUpError :=
  SeCeremony 403 "passkey_unusable" "that passkey was removed or flagged while it was being used; nothing was confirmed".
Definition no_passkey : StepUpError := SeCeremony 400 "no_passkey" "you have no passkey; enroll one first".

Section ceremonies.
Context `{Sha256, Sealer, Hmac, SealedCodec, Base64, Minicbor, Ring, ClientDataParser, CredentialParser}.
Context (replay : option ReplayAuthority) (policy : StepUpPolicy).

(** ** What the ceremonies share *)

Definition ceremony_refusal (c : Caller) (reason : string) (request_id : option string) (now : Z) : Prog SecurityEvent :=
  ev ← event replay "step_up.refused" (subject_of c) (event_label c) None now;
  mret (fill None None None request_id None (session_hash_of c) (JObj [("mode", JStr "ceremony"); ("reason", JStr reason)]) ev).
Definition record_ceremony_refusal (c : Caller) (reason : string) (request_id : option string) (now : Z) : Prog unit :=
  ev ← ceremony_refusal c reason request_id now; record_refusal ev.
Definition browser_session (headers : HeaderMap) (action : Action) : Act (Caller * SessionFacts) :=
  authenticated ← authenticate_now replay headers action;
  let? caller := lift_api authenticated in
  match browser_facts caller with
  | Some facts => done (caller, facts)
  | None =>
      _ ← match policy_service policy with
          | Some _ => now ← call Now; record_ceremony_refusal caller "browser_session_required" None now
          | None => mret tt
          end;
      refused (SeCeremony 403 "browser_session_required" "passkeys and step-up confirmations are made in a signed-in browser")
  end.
(** Consume a challenge in this session, for this principal and one of
    [purposes]. *)
Definition consume (id : string) (c : Caller) (facts : SessionFacts) (purposes : list ChallengePurpose) (now : Z) : Act (WebauthnChallenge * bytes) :=
  let? taken := stored (call (TakeChallenge id (sf_id_hash facts) now)) in
  match taken with
  | None => refused challenge_invalid
  | Some row =>
      if negb (String.eqb (wc_principal row) (subject_of c)) || negb (existsb (fun p => bool_decide (p = wc_purpose row)) purposes) then refused challenge_invalid
      else match sent_challenge row with Some sent => done (row, sent) | None => refused challenge_invalid end
  end.

(** ** The caller's passkeys *)

Definition me_security (headers : HeaderMap) : Act MeSecurityResponse :=
  authenticated ← authenticate_now replay headers Read;
  let? caller := lift_api authenticated in
  now ← call Now;
  let subject := subject_of caller in
  let facts := browser_facts caller in
  let fresh := facts ≫= sf_fresh_login_until in
  server ← call AskServer;
  let url := srv_fresh_login_url server subject in
  match policy_service policy with
  | None => done (mkMeSecurity subject "off" false 0 [] false None false fresh url)
  | Some _ =>
      let? passkeys := stored (call (ListPasskeys subject)) in
      let usable := N.of_nat (length (List.filter is_usable passkeys)) in
      let hidden := bool_decide (is_Some (ca_grant caller)) in
      let? window := match facts with
                     | Some s => stored (call (WindowExpiry (sf_id_hash s) subject now))
                     | None => done None
                     end in
      done (mkMeSecurity subject "enforce" (0 <? usable)%N usable (if hidden then [] else map passkey_dto passkeys) hidden window
              (bool_decide (passkeys = []) && match fresh with Some t => (now <? t)%Z | None => false end) fresh url)
  end.

(** ** Enrolling *)

Definition label_of (asked : option string) : string :=
  match asked with
  | Some l => let l := trim l in if String.eqb l "" then "Passkey" else l
  | None => "Passkey"
  end.
Definition refuse_enrolment (ctx : GuardCtx) (subject : string) (c : Caller) (facts : SessionFacts) (label reason : string) (now : Z) : Prog unit :=
  ev ← event replay "step_up.refused" subject (event_label c) None now;
  record_refusal (fill (Some (op_id (gc_op ctx))) (Some label) None None None (Some (sf_id_hash facts))
                    (JObj [("mode", JStr "enroll"); ("reason", JStr reason)]) ev).
(** A first passkey needs a fresh login, a later one a step-up, and one after
    nothing but flagged ones a reset. *)
Definition enrolment_allowed (ctx : GuardCtx) (c : Caller) (facts : SessionFacts) (label : string) (all : list Passkey) (now : Z) : Act GuardCtx :=
  let subject := subject_of c in
  if negb (bool_decide (all = [])) && forallb (fun p => negb (is_usable p)) all then
    _ ← refuse_enrolment ctx subject c facts label "passkeys flagged" now;
    refused (SeCeremony 403 "passkey_reset_required" MSG_FLAGGED_RESET)
  else if bool_decide (all = []) then
    if match sf_fresh_login_until facts with Some t => (now <? t)%Z | None => false end
    then done (ctx_exempt ctx "first passkey: gated by a fresh browser login instead")
    else
      _ ← refuse_enrolment ctx subject c facts label "fresh login required" now;
      server ← call AskServer;
      refused (SeFreshLoginRequired (srv_fresh_login_url server subject))
  else ctx_require replay ctx ["add passkey `" +:+ label +:+ "`"].
Definition passkey_registration_options (ctx : GuardCtx) (headers : HeaderMap) (asked_label : option string) : Act (WebauthnChallengeDto * GuardCtx) :=
  let? svc := service policy in
  let? (caller, facts) := browser_session headers Write in
  now ← call Now;
  let subject := subject_of caller in
  let label := label_of asked_label in
  if negb (bool_decide (length (chars label) <= MAX_LABEL_LEN)) || existsb is_control (chars label)
  then refused (SeApi (AeBadRequest ("a passkey label is at most " +:+ pretty (N.of_nat MAX_LABEL_LEN) +:+ " printable characters")))
  else
    let? all := stored (call (ListPasskeys subject)) in
    let? ctx := enrolment_allowed ctx caller facts label all now in
    let? (row, sent) := mint_challenge subject (sf_id_hash facts) PurposeRegister None None (Some label) None now in
    fresh ← call (RandomBytes 32);
    let? handle := stored (call (UserHandle subject fresh)) in
    let display := default subject (pn_display_name (ca_principal caller)) in
    done (mkChallengeDto (wc_id row) (creation_options (svc_rp svc) (to_bytes handle) subject display sent (descriptors all)) (wc_expires_at row), ctx).

Definition already_registered : StepUpError := SeConflict "this passkey is already registered".
Definition new_passkey (id subject : string) (cred : NewCredential) (label : option string) (session_hash : string) (now : Z) : Passkey :=
  mkPasskey id subject (of_bytes (nc_credential_id cred)) (of_bytes (nc_public_key_cose cred)) (alg_id (nc_alg cred)) (nc_sign_count cred)
    (default "Passkey" label) (nc_transports cred) (Some (of_bytes (nc_aaguid cred))) (nc_backup_eligible cred) (nc_backup_state cred) now session_hash
    None None None.
Definition insert_err (e : IdentityError) : StepUpError := match e with IeConflict _ => already_registered | e => store_err e end.
Definition passkey_registration (headers : HeaderMap) (req : StepUpConfirmRequest) : Act PasskeyDto :=
  let? svc := service policy in
  let? (caller, facts) := browser_session headers Write in
  now ← call Now;
  let? (row, sent) := consume (cr_challenge_id req) caller facts [PurposeRegister] now in
  match parse_registration_response (cr_credential req) with
  | None => refused (webauthn_refused MalformedResponse)
  | Some resp =>
      let? cred := mret (map_err webauthn_refused (verify_registration (svc_rp svc) sent resp)) in
      let? known := stored (call (GetByCredential (of_bytes (nc_credential_id cred)))) in
      if bool_decide (is_Some known) then refused already_registered
      else
        let subject := subject_of caller in
        let? usable := usable_passkeys subject in
        let first := bool_decide (usable = []) in
        id ← random_id;
        let passkey := new_passkey id subject cred (wc_label row) (sf_id_hash facts) now in
        inserted ← call (InsertPasskey passkey);
        let? _ := mret (map_err insert_err inserted) in
        ev ← event replay "passkey.enrolled" subject (event_label caller) None now;
        logged ← call (Append (fill None (Some (pk_label passkey)) None None (Some (pk_id passkey)) (Some (sf_id_hash facts))
                   (JObj [("label", JStr (pk_label passkey)); ("first", JBool first); ("alg", JInt (pk_alg passkey)); ("backup_eligible", JBool (pk_backup_eligible passkey))]) ev));
        match logged with
        | Err _ =>
            _ ← call (RemovePasskey subject (pk_id passkey));
            refused (SeUnavailable "the security event log is unavailable, so the passkey was not enrolled")
        | Ok _ => done (passkey_dto passkey)
        end
  end.

(** ** Removing *)

Definition remove_passkey_h (confirmation : option string) (headers : HeaderMap) (id : string) : Act unit :=
  let? _ := service policy in
  authenticated ← authenticate_now replay headers Write;
  let? caller := lift_api authenticated in
  let subject := subject_of caller in
  let? owned := stored (call (ListPasskeys subject)) in
  if negb (existsb (fun p => String.eqb (pk_id p) id) owned) then refused (SeApi AeNotFound)
  else
    let? revoked := stored (call (RevokeForPasskey id)) in
    let? removed := stored (call (RemovePasskey subject id)) in
    if negb removed then refused (SeApi AeNotFound)
    else
      late ← call (RevokeForPasskey id);
      let revoked := (revoked + match late with Ok n => n | Err _ => 0 end)%N in
      now ← call Now;
      ev ← event replay "passkey.removed" subject (event_label caller) None now;
      _ ← record (fill None None confirmation None (Some id) (session_hash_of caller) (JObj [("confirmations_revoked", JInt (Z.of_N revoked))]) ev);
      let? _ := mret (map_err store_err late) in
      done tt.

(** ** Answering a challenge *)

Definition step_up_options (headers : HeaderMap) : Act WebauthnChallengeDto :=
  let? svc := service policy in
  let? (caller, facts) := browser_session headers Write in
  now ← call Now;
  let subject := subject_of caller in
  let? passkeys := usable_passkeys subject in
  if bool_decide (passkeys = []) then refused no_passkey
  else
    let? (row, sent) := mint_challenge subject (sf_id_hash facts) PurposeWindow None None None None now in
    done (mkChallengeDto (wc_id row) (request_options (svc_rp svc) sent (descriptors passkeys)) (wc_expires_at row)).

Definition passkey_event (kind : string) (k : Passkey) (c : Caller) (facts : SessionFacts) (detail : Json) (now : Z) : Prog SecurityEvent :=
  ev ← event replay kind (subject_of c) (event_label c) None now;
  mret (fill None None None None (Some (pk_id k)) (Some (sf_id_hash facts)) detail ev).
(** The passkey's handle: the one it was created under, if a merge moved it. *)
Definition handle_of (k : Passkey) (subject : string) : Act string :=
  match pk_user_handle k with
  | Some h => if String.length h =? 32 then done h else refused (webauthn_refused StoredCredentialInconsistent)
  | None => fresh ← call (RandomBytes 32); stored (call (UserHandle subject fresh))
  end.
Definition stored_credential (k : Passkey) (alg : CoseAlgorithm) : StoredCredential :=
  mkStored (to_bytes (pk_credential_id k)) (to_bytes (pk_public_key_cose k)) alg (pk_sign_count k) (pk_backup_eligible k).
(** A suspected clone: its confirmations go, and it is recorded. *)
Definition revoke_clone {A} (k : Passkey) (c : Caller) (facts : SessionFacts) (presented : option N) (now : Z) : Act A :=
  let? revoked := stored (call (RevokeForPasskey (pk_id k))) in
  ev ← passkey_event "passkey.clone_suspected" k c facts
         (JObj (("stored_count", JInt (Z.of_N (pk_sign_count k))) :: match presented with Some n => [("presented_count", JInt (Z.of_N n))] | None => [] end
                ++ [("confirmations_revoked", JInt (Z.of_N revoked))])) now;
  _ ← record ev;
  refused clone_refused.
(** The counter an assertion presented, accepted or not. *)
Definition accept_count (k : Passkey) (ok : AssertionOk) (c : Caller) (facts : SessionFacts) (now : Z) : Act Passkey :=
  _ ← (if ao_counter_regressed ok
       then ev ← passkey_event "passkey.counter_regressed" k c facts
                   (JObj [("stored_count", JInt (Z.of_N (pk_sign_count k))); ("presented_count", JInt (Z.of_N (ao_new_count ok))); ("backup_eligible", JBool true)]) now;
            record ev
       else mret tt);
  let? used := stored (call (RecordUse (pk_id k) (pk_sign_count k) (ao_new_count ok) (ao_backup_state ok) now)) in
  match used with
  | Recorded => done k
  | StepUp.CloneSuspected => revoke_clone k c facts (Some (ao_new_count ok)) now
  | NotFound => refused unknown_credential
  end.
(** One passkey's assertion, once it is known to be the caller's. *)
Definition verify_with (svc : StepUpService) (c : Caller) (facts : SessionFacts) (sent : bytes) (resp : AuthenticationResponse) (k : Passkey) (now : Z) : Act Passkey :=
  if negb (is_usable k) then
    ev ← ceremony_refusal c "clone_suspected" None now;
    _ ← record_refusal (fill (sv_op ev) (sv_target ev) (sv_confirmation_id ev) None (Some (pk_id k)) (sv_session_hash ev) (sv_detail ev) ev);
    refused clone_refused
  else match alg_from_id (pk_alg k) with
       | None => refused (webauthn_refused StoredCredentialInconsistent)
       | Some alg =>
           let? handle := handle_of k (subject_of c) in
           match Webauthn.verify_assertion (svc_rp svc) sent (stored_credential k alg) (to_bytes handle) resp with
           | Ok ok => accept_count k ok c facts now
           | Err CloneSuspected =>
               let? _ := stored (call (MarkClone (pk_id k) now)) in
               revoke_clone k c facts None now
           | Err e => refused (webauthn_refused e)
           end
       end.
Definition verify_assertion_once (svc : StepUpService) (c : Caller) (facts : SessionFacts) (sent : bytes) (credential : Json) (now : Z) : Act Passkey :=
  match parse_authentication_response credential with
  | None => refused (webauthn_refused MalformedResponse)
  | Some resp =>
      match b64_decode (ar_raw_id resp) with
      | None => refused (webauthn_refused MalformedResponse)
      | Some raw_id =>
          let? found := stored (call (GetByCredential (of_bytes raw_id))) in
          match found with
          | Some k => if String.eqb (pk_principal k) (subject_of c) then verify_with svc c facts sent resp k now else refused unknown_credential
          | None => refused unknown_credential
          end
      end
  end.
Definition verify_assertion (svc : StepUpService) (c : Caller) (facts : SessionFacts) (sent : bytes) (credential : Json) (now : Z) : Act Passkey :=
  verified ← verify_assertion_once svc c facts sent credential now;
  _ ← match verified with
      | Err (SeCeremony _ code _) => if String.eqb code "clone_suspected" then mret tt else record_ceremony_refusal c code None now
      | _ => mret tt
      end;
  mret verified.

(** Stored only while the passkey that signed it is still usable. *)
Definition still_usable (c : StepUpConfirmation) (k : Passkey) (found : option Passkey) : bool :=
  match found with
  | Some p => String.eqb (pk_id p) (pk_id k) && String.eqb (pk_principal p) (cf_principal c) && is_usable p
  | None => false
  end.
Definition put_confirmation_while_usable (c : StepUpConfirmation) (k : Passkey) : Act unit :=
  let? _ := stored (call (StoreConfirmation c)) in
  let? found := stored (call (GetByCredential (pk_credential_id k))) in
  if still_usable c k found then done tt
  else
    let? _ := stored (call (RevokeForPasskey (pk_id k))) in
    refused passkey_unusable.

Definition summary_str (row : WebauthnChallenge) (ptr : string) : option string := wc_summary row ≫= fun s => pointer s ptr ≫= json_as_str.
Definition kind_of_purpose (p : ChallengePurpose) : ConfirmationKind := match p with PurposeAction => KindAction | _ => KindWindow end.
Definition step_up_confirm (headers : HeaderMap) (req : StepUpConfirmRequest) : Act StepUpConfirmResponse :=
  let? svc := service policy in
  let? (caller, facts) := browser_session headers Write in
  now ← call Now;
  let subject := subject_of caller in
  let? (row, sent) := consume (cr_challenge_id req) caller facts [PurposeWindow; PurposeAction] now in
  let? passkey := verify_assertion svc caller facts sent (cr_credential req) now in
  let kind := kind_of_purpose (wc_purpose row) in
  id ← random_id;
  let confirmation := mkConfirmation id subject (sf_id_hash facts) (pk_id passkey) kind (wc_action_digest row) None now (now + STEP_UP_WINDOW_MS) None in
  ev ← event replay "step_up.confirmed" subject (event_label caller) (summary_str row "/org") now;
  logged ← call (Append (fill (summary_str row "/op") (summary_str row "/summary/target") (Some id) None (Some (pk_id passkey)) (Some (sf_id_hash facts))
             (JObj [("kind", JStr (kind_as_str kind)); ("expires_at", JInt (cf_expires_at confirmation));
                    ("summary", default JNull (wc_summary row ≫= fun s => json_get s "summary"))]) ev));
  match logged with
  | Err _ => refused (SeUnavailable "the security event log is unavailable, so the step-up was not recorded")
  | Ok _ =>
      let? _ := put_confirmation_while_usable confirmation passkey in
      done (mkConfirmResponse id (kind_as_str kind) now (cf_expires_at confirmation))
  end.
End ceremonies.

(** * Calls the ceremonies make *)

Section quiet.
Context `{Sha256, Sealer, Hmac, SealedCodec, Base64, Minicbor, Ring, ClientDataParser, CredentialParser}.
Context (replay : option ReplayAuthority) (policy : StepUpPolicy) (P : Call -> Prop) {HP : QuietFor P}.

Lemma quiet_random_id : makes P random_id.
Proof. unfold random_id. quiet_call. Qed.
Lemma quiet_authenticate_now h a : makes P (authenticate_now replay h a).
Proof. unfold authenticate_now. quiet_call. Qed.
Lemma quiet_lift_api {A} (r : Result ApiError A) : makes P (lift_api r).
Proof. unfold lift_api. quiet_call. Qed.
Lemma quiet_service : makes P (service policy).
Proof. unfold service. quiet_call. Qed.
#[local] Hint Resolve quiet_random_id quiet_authenticate_now quiet_lift_api quiet_service : calls.
Lemma quiet_ceremony_refusal c r i n : makes P (ceremony_refusal replay c r i n).
Proof. unfold ceremony_refusal. quiet_call. Qed.
#[local] Hint Resolve quiet_ceremony_refusal : calls.
Lemma quiet_record_ceremony c r i n : makes P (record_ceremony_refusal replay c r i n).
Proof. unfold record_ceremony_refusal. quiet_call. Qed.
#[local] Hint Resolve quiet_record_ceremony : calls.
Lemma quiet_browser_session h a : makes P (browser_session replay policy h a).
Proof. unfold browser_session. quiet_call. Qed.
Lemma quiet_consume id c f p n : makes P (consume id c f p n).
Proof. unfold consume. quiet_call. Qed.
#[local] Hint Resolve quiet_browser_session quiet_consume : calls.
Lemma quiet_passkey_event kind k c facts d n : makes P (passkey_event replay kind k c facts d n).
Proof. unfold passkey_event. quiet_call. Qed.
Lemma quiet_handle_of k subject : makes P (handle_of k subject).
Proof. unfold handle_of. quiet_call. Qed.
#[local] Hint Resolve quiet_passkey_event quiet_handle_of : calls.
Lemma quiet_revoke_clone {A} k c facts pr n : makes P (revoke_clone replay (A:=A) k c facts pr n).
Proof. unfold revoke_clone. quiet_call. Qed.
Lemma quiet_me_security h : makes P (me_security replay policy h).
Proof. unfold me_security. quiet_call. Qed.
Lemma quiet_step_up_options h : makes P (step_up_options replay policy h).
Proof. unfold step_up_options. quiet_call. Qed.
Lemma quiet_registration_options ctx h l : makes P (passkey_registration_options replay policy ctx h l).
Proof. unfold passkey_registration_options, enrolment_allowed, refuse_enrolment, ctx_require. quiet_call. Qed.
End quiet.
#[export] Hint Resolve quiet_random_id quiet_authenticate_now quiet_lift_api quiet_service quiet_ceremony_refusal quiet_record_ceremony quiet_browser_session
  quiet_consume quiet_passkey_event quiet_handle_of quiet_revoke_clone quiet_me_security quiet_step_up_options quiet_registration_options : calls.

(** Verifying an assertion calls neither a handler nor the router. *)
Section own.
Context `{Sha256, Sealer, Hmac, SealedCodec, Base64, Minicbor, Ring, ClientDataParser, CredentialParser}.
Lemma own_accept_count replay k ok c facts n : own (accept_count replay k ok c facts n).
Proof. unfold accept_count. quiet_call. Qed.
#[local] Hint Resolve own_accept_count : calls.
Lemma own_verify_with replay svc c facts sent resp k n : own (verify_with replay svc c facts sent resp k n).
Proof. unfold verify_with. quiet_call. Qed.
#[local] Hint Resolve own_verify_with : calls.
Lemma own_verify_assertion replay svc c facts sent cred n : own (verify_assertion replay svc c facts sent cred n).
Proof. unfold verify_assertion, verify_assertion_once. quiet_call. Qed.
End own.
#[export] Hint Resolve own_accept_count own_verify_with own_verify_assertion : calls.
