(* ===== verification/Requests.v ===== *)
(** * Confirming a machine's request (scarab-server/src/step_up/requests.rs)

    A request a credential raised waits for its human, who sees it, answers a
    challenge minted for it, and has it run: once, as it was raised, through
    the server's own router. The sealed body is opened only after the
    confirmation is recorded. *)

From S2P Require Import Prelude Text Values Cel Identity Auth StepUp Refusals Ops Guard Calls OpTable Webauthn Confirm GuardRun Ceremony.

Definition MAX_RESULT_BODY : nat := 1024 * 1024.
Definition MAX_RESULT_SUMMARY : nat := 200.

(** ** What a caller sees *)

Record StepUpRequestDto := mkRequestDto {
  qd_id : string; qd_op : string; qd_summary : OpSummary; qd_requested_by : string; qd_requested_via : string; qd_for_human : string;
  qd_org : option string; qd_method : string; qd_path : string; qd_query : string; qd_state : string; qd_created_at : Z; qd_expires_at : Z;
  qd_confirmed_by : option string; qd_confirmed_at : option Z; qd_executed_at : option Z; qd_result_status : option Z;
}.
Definition summary_text (s : Json) (k : string) : string := default "" (json_get s k ≫= json_as_str).
Definition summary_changes (s : Json) : list string := match json_get s "changes" ≫= json_as_array with Some l => omap json_as_str l | None => [] end.
Definition request_dto (r : StepUpRequest) (now : Z) : StepUpRequestDto :=
  mkRequestDto (rq_id r) (rq_op r)
    (mkOpSummary (summary_text (rq_summary r) "operation") (summary_text (rq_summary r) "target") (summary_changes (rq_summary r)))
    (summary_text (rq_summary r) "requester") (requester_via (rq_requester r)) (rq_for_human r) (rq_org r) (rq_method r) (rq_path r) (rq_query r)
    (state_label r now) (rq_created_at r) (rq_expires_at r) (rq_confirmed_by r) (rq_confirmed_at r) (rq_executed_at r) (rq_result_status r).
Record StepUpRequestResultDto := mkResultDto {
  qr_request_id : string; qr_state : string; qr_result_status : option Z; qr_result_body : Json;
}.

(** 410 once expired, 409 once confirmed. *)
Definition confirmable (r : StepUpRequest) (now : Z) : Result StepUpError unit :=
  if is_expired r now then Err (SeGone "this confirmation request expired (5 minutes); run the operation again to raise a new one")
  else if negb (bool_decide (rq_state r = RsPending))
  then Err (SeConflict ("this confirmation request was already confirmed (it is " +:+ state_as_str (rq_state r) +:+ ")"))
  else Ok tt.
(** At most [max] bytes, cut at a character. *)
Definition cut (s : string) (max : nat) : string :=
  if String.length s <=? max then s else take_str (boundary max s) s +:+ "…".

(** The http crate's check of a method and a URI. *)
Class HttpBuilder := malformed : string -> string -> option string.

Section requests.
Context `{Sha256, Sealer, Hmac, SealedCodec, Base64, Minicbor, Ring, ClientDataParser, CredentialParser, JsonParser, HttpBuilder}.
Context (replay : option ReplayAuthority) (policy : StepUpPolicy).

(** ** Whose request it is *)

(** [subject] is the human, or the Principal it was merged into. *)
Definition answers_for (server : Server) (subject for_human : string) : bool :=
  match st_aliases (srv_state server) with
  | Some aliases_of => existsb (String.eqb for_human) (match aliases_of subject with Ok l => l | Err _ => [] end)
  | None => false
  end.
Definition is_for_human (subject for_human : string) : Prog bool :=
  if String.eqb subject for_human then mret true else server ← call AskServer; mret (answers_for server subject for_human).
(** The 404, recorded in the prober's log, and in the owner's if there is one. *)
Definition probe_refused {A} (id : string) (c : Caller) (found : option StepUpRequest) : Act A :=
  now ← call Now;
  _ ← record_ceremony_refusal replay c "request_not_found" (Some id) now;
  _ ← match found with
      | Some r =>
          ev ← event replay "step_up.refused" (rq_for_human r) (event_label c) (rq_org r) now;
          record_refusal (fill (Some (rq_op r)) None None (Some id) None None
                            (JObj [("mode", JStr "ceremony"); ("reason", JStr "request_not_found"); ("probed_by", JStr (subject_of c))]) ev)
      | None => mret tt
      end;
  refused (SeApi AeNotFound).
Definition load_as_human (id : string) (c : Caller) : Act StepUpRequest :=
  let? found := stored (call (GetRequest id)) in
  match found with
  | Some r =>
      mine ← is_for_human (subject_of c) (rq_for_human r);
      if (mine : bool) then done r else probe_refused id c (Some r)
  | None => probe_refused id c None
  end.
Definition get_request_h (headers : HeaderMap) (id : string) : Act StepUpRequestDto :=
  let? _ := service policy in
  authenticated ← authenticate_now replay headers Read;
  let? caller := lift_api authenticated in
  let? found := stored (call (GetRequest id)) in
  match found with
  | None => probe_refused id caller None
  | Some r =>
      is_human ← (if is_browser_session caller then is_for_human (subject_of caller) (rq_for_human r) else mret false);
      let is_requester := bool_decide (requester_of caller = Some (rq_requester r)) in
      if negb (is_human || is_requester) then probe_refused id caller (Some r)
      else now ← call Now; done (request_dto r now)
  end.

(** ** The challenge *)

Definition digest_32 (r : StepUpRequest) : Result StepUpError string :=
  if String.length (rq_action_digest r) =? 32 then Ok (rq_action_digest r) else Err (SeConflict "the stored request is unreadable").
Definition request_options_h (headers : HeaderMap) (id : string) : Act WebauthnChallengeDto :=
  let? svc := service policy in
  let? (caller, facts) := browser_session replay policy headers Write in
  let? r := load_as_human id caller in
  now ← call Now;
  let? _ := mret (confirmable r now) in
  let? passkeys := usable_passkeys (subject_of caller) in
  if bool_decide (passkeys = []) then refused no_passkey
  else
    let? digest := mret (digest_32 r) in
    let? (row, sent) := mint_challenge (subject_of caller) (sf_id_hash facts) PurposeRequest (Some digest) (Some (rq_id r)) None
                          (Some (JObj [("op", JStr (rq_op r)); ("summary", rq_summary r); ("request_id", JStr (rq_id r))])) now in
    done (mkChallengeDto (wc_id row) (request_options (svc_rp svc) sent (descriptors passkeys)) (wc_expires_at row)).

(** ** Opening and replaying *)

(** The body and the requester a request was sealed with. *)
Definition opened (id : string) (r : StepUpRequest) : Result string (string * ReplayRequester) :=
  match rq_sealed r with
  | None => Err "the request has no sealed body"
  | Some sealed =>
      match open_sealed sealed (aad id) with
      | Err e => Err ("the sealed request could not be opened: " +:+ e)
      | Ok plain =>
          match parse_sealed plain with
          | Err e => Err ("the sealed request is unreadable: " +:+ e)
          | Ok (body, session) =>
              match std_decode body with
              | Err e => Err ("the sealed request is unreadable: " +:+ e)
              | Ok body =>
                  match rq_requester r, session with
                  | ByApiToken token, _ => Ok (body, ReplayToken token)
                  | ByBearerSession _, Some s => Ok (body, ReplaySession s)
                  | ByBearerSession _, None => Err "the sealed request lost its session"
                  end
              end
          end
      end
  end.
Definition authority_of (id : string) (r : StepUpRequest) (confirmation human : string) (requester : ReplayRequester) : ReplayAuthority :=
  mkReplay id confirmation (rq_op r) (rq_action_digest r) (summary_changes (rq_summary r)) requester human (rq_session_role_cap r).
Definition request_uri (r : StepUpRequest) : string := if String.eqb (rq_query r) "" then rq_path r else rq_path r +:+ "?" +:+ rq_query r.
(** The stored request through the router, and its answer's body, if short
    enough to keep. *)
Definition replay_request (authority : ReplayAuthority) (r : StepUpRequest) (body : string) : Prog (N * string) :=
  match malformed (rq_method r) (request_uri r) with
  | Some e => mret (500%N, "the stored request is malformed: " +:+ e)
  | None =>
      answered ← call (RunRouter authority (rq_method r) (request_uri r) body);
      mret (answered.1, if String.length answered.2 <=? MAX_RESULT_BODY then answered.2 else "")
  end.
(** The status, the body shown, and why it failed. *)
Definition outcome_of (answered : N * string) : option N * Json * option string :=
  let text := from_utf8_lossy answered.2 in
  (Some answered.1, match parse_json answered.2 with Ok v => v | Err _ => JStr text end, if is_success answered.1 then None else Some text).
Definition run_opened (id : string) (r : StepUpRequest) (confirmation human : string) (logged : Result string unit) : Prog (option N * Json * option string) :=
  match logged with
  | Err why => mret (None, JStr why, Some why)
  | Ok _ =>
      match opened id r with
      | Err why => mret (None, JStr why, Some why)
      | Ok (body, requester) => answered ← replay_request (authority_of id r confirmation human requester) r body; mret (outcome_of answered)
      end
  end.
Definition state_of_run (failure : option string) : RequestState := match failure with None => RsExecuted | Some _ => RsFailed end.
Definition result_summary (status : option N) (failure : option string) : string :=
  match status, failure with
  | Some s, None => "HTTP " +:+ pretty s
  | Some s, Some text => "HTTP " +:+ pretty s +:+ ": " +:+ cut text MAX_RESULT_SUMMARY
  | None, Some text => cut text MAX_RESULT_SUMMARY
  | None, None => ""
  end.

(** ** Confirming *)

(** The challenge was minted for this request and its digest. *)
Definition minted_for (row : WebauthnChallenge) (id : string) (r : StepUpRequest) : bool :=
  bool_decide (wc_request_id row = Some id) && bool_decide (wc_action_digest row = Some (rq_action_digest r)).
Definition begun_or_refused (b : BeginExecution) : Result StepUpError StepUpRequest :=
  match b with
  | Begun r => Ok r
  | BeNotFound => Err (SeApi AeNotFound)
  | BeExpired => Err (SeGone "this confirmation request expired (5 minutes)")
  | NotPending s => Err (SeConflict ("this confirmation request was already confirmed (it is " +:+ state_as_str s +:+ ")"))
  end.
Definition request_confirmation (id confirmation human : string) (facts : SessionFacts) (k : Passkey) (r : StepUpRequest) (now : Z) : StepUpConfirmation :=
  mkConfirmation confirmation human (sf_id_hash facts) (pk_id k) KindRequest (Some (rq_action_digest r)) (Some id) now (now + STEP_UP_WINDOW_MS) (Some now).
Definition target_of (r : StepUpRequest) : option string := json_get (rq_summary r) "target" ≫= json_as_str.
(** The confirmation's two events; whether the first was recorded. *)
Definition record_confirmed (c : Caller) (facts : SessionFacts) (id confirmation : string) (k : Passkey) (r : StepUpRequest) (now : Z) : Prog (Result string unit) :=
  let human := subject_of c in
  ev ← event replay "step_up.confirmed" human (event_label c) (rq_org r) now;
  appended ← call (Append (fill (Some (rq_op r)) (target_of r) (Some confirmation) (Some id) (Some (pk_id k)) (Some (sf_id_hash facts))
                             (JObj [("kind", JStr (kind_as_str KindRequest)); ("summary", rq_summary r)]) ev));
  ev ← event replay "request.confirmed" human (event_label c) (rq_org r) now;
  _ ← record (fill (Some (rq_op r)) (target_of r) (Some confirmation) (Some id) (Some (pk_id k)) (Some (sf_id_hash facts))
                (JObj [("requested_via", JStr (requester_via (rq_requester r))); ("requested_by", JStr (summary_text (rq_summary r) "requester"));
                       ("confirmed_by", JStr human)]) ev);
  mret (match appended with Ok _ => Ok tt | Err _ => Err "the security event log is unavailable, so the request was not run" end).
(** What ran, into the store and the log. *)
Definition settle (c : Caller) (id confirmation : string) (r : StepUpRequest) (ran : option N * Json * option string) : Act StepUpRequestResultDto :=
  let '(status, result_body, failure) := ran in
  let state := state_of_run failure in
  let result_status := Z.of_N <$> status in
  let summary := result_summary status failure in
  finished_at ← call Now;
  let? _ := stored (call (Finish id state result_status (Some summary) finished_at)) in
  ev ← event replay (if bool_decide (state = RsExecuted) then "request.executed" else "request.failed") (rq_for_human r) (event_label c) (rq_org r) finished_at;
  _ ← record (fill (Some (rq_op r)) (target_of r) (Some confirmation) (Some id) None None
                (JObj [("status", match result_status with Some s => JInt s | None => JNull end); ("result", JStr summary);
                       ("requested_by", JStr (summary_text (rq_summary r) "requester")); ("confirmed_by", JStr (subject_of c))]) ev);
  done (mkResultDto id (state_as_str state) result_status result_body).
(** After the assertion: begun once, recorded, run, settled. *)
Definition execute (c : Caller) (facts : SessionFacts) (id : string) (k : Passkey) (now : Z) : Act StepUpRequestResultDto :=
  confirmation ← random_id;
  let human := subject_of c in
  let? begun := stored (call (Begin id human confirmation now)) in
  let? r := mret (begun_or_refused begun) in
  let? _ := stored (call (StoreConfirmation (request_confirmation id confirmation human facts k r now))) in
  logged ← record_confirmed c facts id confirmation k r now;
  ran ← run_opened id r confirmation human logged;
  settle c id confirmation r ran.
Definition confirm_request (headers : HeaderMap) (id : string) (req : StepUpConfirmRequest) : Act StepUpRequestResultDto :=
  let? svc := service policy in
  let? (caller, facts) := browser_session replay policy headers Write in
  let? r := load_as_human id caller in
  now ← call Now;
  let? _ := mret (confirmable r now) in
  let? (row, sent) := consume (cr_challenge_id req) caller facts [PurposeRequest] now in
  if negb (minted_for row id r) then refused challenge_invalid
  else
    let? k := verify_assertion replay svc caller facts sent (cr_credential req) now in
    execute caller facts id k now.
End requests.

(** * Theorems *)

Section calls.
Context `{Sha256, Sealer, Hmac, SealedCodec, Base64, Minicbor, Ring, ClientDataParser, CredentialParser, JsonParser, HttpBuilder}.
Context (replay : option ReplayAuthority) (policy : StepUpPolicy).
Section quiet.
Context (P : Call -> Prop) {HP : QuietFor P}.
Lemma quiet_is_for_human s h : makes P (is_for_human s h).
Proof. unfold is_for_human. quiet_call. Qed.
Lemma quiet_probe_refused {A} id c f : makes P (probe_refused replay (A:=A) id c f).
Proof. unfold probe_refused. quiet_call. Qed.
#[local] Hint Resolve quiet_is_for_human quiet_probe_refused : calls.
Lemma quiet_load_as_human id c : makes P (load_as_human replay id c).
Proof. unfold load_as_human. quiet_call. Qed.
Lemma quiet_get_request h id : makes P (get_request_h replay policy h id).
Proof. unfold get_request_h. quiet_call. Qed.
#[local] Hint Resolve quiet_load_as_human : calls.
Lemma quiet_request_options h id : makes P (request_options_h replay policy h id).
Proof. unfold request_options_h. quiet_call. Qed.
Lemma quiet_record_confirmed c facts id cf k r n : makes P (record_confirmed replay c facts id cf k r n).
Proof. unfold record_confirmed. quiet_call. Qed.
Lemma quiet_settle c id cf r ran : makes P (settle replay c id cf r ran).
Proof. unfold settle. destruct ran as [[st body] failure]. quiet_call. Qed.
End quiet.
End calls.
#[export] Hint Resolve quiet_is_for_human quiet_probe_refused quiet_load_as_human quiet_get_request quiet_request_options quiet_record_confirmed quiet_settle : calls.

(** ** What a replay rests on *)

Section replayed.
Context `{Host, Sha256, Sealer, Hmac, SealedCodec, Base64, Minicbor, Ring, ClientDataParser, CredentialParser, JsonParser, HttpBuilder}.
Context (replay : option ReplayAuthority) (svc : StepUpService) (headers : HeaderMap) (id : string) (req : StepUpConfirmRequest).

(** The call was made and answered so. *)
Definition answered_in (tr : list Step) (c : Call) (a : answer c) : Prop := exists s s', mkStep c a s s' ∈ tr /\ does c s a s'.
Definition by_browser (c : Caller) (facts : SessionFacts) (tr : list Step) : Prop :=
  browser_facts c = Some facts /\
  exists server, answered_in tr AskServer server /\ (authenticate (srv_state server) replay headers Write no_uses).1 = Ok c.
Definition its_human (subject human : string) (tr : list Step) : Prop :=
  subject = human \/ exists server, answered_in tr AskServer server /\ answers_for server subject human = true.
(** The challenge was minted in this session for this request and digest, and
    is consumed. *)
Definition challenged (c : Caller) (facts : SessionFacts) (r : StepUpRequest) (sent : bytes) (tr : list Step) : Prop :=
  exists row now, answered_in tr (TakeChallenge (cr_challenge_id req) (sf_id_hash facts) now) (Ok (Some row)) /\ wc_principal row = subject_of c /\
    wc_purpose row = PurposeRequest /\ sent_challenge row = Some sent /\ wc_request_id row = Some id /\ wc_action_digest row = Some (rq_action_digest r).
(** One of the caller's usable passkeys signed it, and its use is recorded. *)
Definition verified_by (c : Caller) (sent : bytes) (k : Passkey) (tr : list Step) : Prop :=
  is_usable k = true /\ pk_principal k = subject_of c /\
  exists alg handle resp ok now, Webauthn.verify_assertion (svc_rp svc) sent (stored_credential k alg) handle resp = Ok ok /\
    answered_in tr (RecordUse (pk_id k) (pk_sign_count k) (ao_new_count ok) (ao_backup_state ok) now) (Ok Recorded).
Definition confirmation_logged (c : Caller) (confirmation : string) (k : Passkey) (tr : list Step) : Prop :=
  exists ev seq, answered_in tr (Append ev) (Ok seq) /\ sv_kind ev = "step_up.confirmed" /\ sv_subject ev = subject_of c /\
    sv_request_id ev = Some id /\ sv_confirmation_id ev = Some confirmation /\ sv_passkey_id ev = Some (pk_id k).
(** [r] was waiting and unexpired, and became executing. *)
Definition begun (c : Caller) (confirmation : string) (r : StepUpRequest) (tr : list Step) : Prop :=
  exists now s s' r0, mkStep (Begin id (subject_of c) confirmation now) (Ok (Begun r)) s s' ∈ tr /\ su_requests (sh_step_ups s) !! id = Some r0 /\
    rq_state r0 = RsPending /\ (now < rq_expires_at r0)%Z /\ r = executing (subject_of c) confirmation now r0.

Inductive may_replay (tr : list Step) (a : ReplayAuthority) (method uri body : string) : Prop :=
| replayed c facts r0 sent k confirmation r requester :
    unrun tr ->
    by_browser c facts tr -> answered_in tr (GetRequest id) (Ok (Some r0)) -> its_human (subject_of c) (rq_for_human r0) tr ->
    challenged c facts r0 sent tr -> verified_by c sent k tr -> begun c confirmation r tr -> confirmation_logged c confirmation k tr ->
    opened id r = Ok (body, requester) -> a = authority_of id r confirmation (subject_of c) requester -> method = rq_method r -> uri = request_uri r ->
    may_replay tr a method uri body.
Definition replays (tr : list Step) (c : Call) : Prop :=
  match c with RunRouter a m uri body => may_replay tr a m uri body | RunHandler _ _ => False | _ => True end.

Lemma own_replays tr c : own_call c -> replays tr c.
Proof. by destruct c. Qed.
Lemma answered_sub tr tr' c a : follows tr tr' -> answered_in tr c a -> answered_in tr' c a.
Proof. intros [Hs _] (s & s' & Hi & Hd). exists s, s'. split; [by apply Hs|done]. Qed.
Lemma wp_asked c pre : own_call c -> wp replays (call c) pre (fun tr a => answered_in tr c a).
Proof. apply wp_answered, own_replays. Qed.
Lemma snoc_answered pre c a s s' : does c s a s' -> answered_in (pre ++ [mkStep c a s s']) c a.
Proof. intros Hd. exists s, s'. split; [apply elem_of_app; right; by apply list_elem_of_singleton|done]. Qed.

Lemma wp_authenticated pre action :
  wp replays (authenticate_now replay headers action) pre
    (fun tr r => exists server, answered_in tr AskServer server /\ (authenticate (srv_state server) replay headers action no_uses).1 = r).
Proof. unfold authenticate_now. apply wp_mbind, wp_call; [done|]. intros server s s' Hd. exists server. split; [by apply snoc_answered|done]. Qed.
Lemma wp_browser policy pre :
  wp replays (browser_session replay policy headers Write) pre (fun tr r => forall p, r = Ok p -> by_browser p.1 p.2 tr).
Proof.
  unfold browser_session. eapply wp_past; [apply own_replays|auto with calls|apply wp_authenticated|]. intros tr au Ht (server & Hs & Ha).
  destruct au as [c|e]; [|done]. cbn [lift_api map_err act_bind mret prog_ret mbind prog_bind prog_bind_].
  destruct (browser_facts c) as [facts|] eqn:Ef.
  - intros p [= <-]. split; [done|]. by exists server.
  - apply wp_refuses; [apply own_replays|quiet_call|quiet_call|done].
Qed.
Lemma wp_human s h pre : wp replays (is_for_human s h) pre (fun tr b => b = true -> its_human s h tr).
Proof.
  unfold is_for_human. destruct (String.eqb_spec s h) as [->|]; [by left|]. apply wp_mbind, wp_call; [done|]. intros server st st' Hd Hb.
  right. exists server. split; [by apply snoc_answered|done].
Qed.
Lemma refuses_probe {A} c found : refuses (probe_refused replay (A:=A) id c found).
Proof. unfold probe_refused. quiet_call. Qed.
Lemma wp_load c pre :
  wp replays (load_as_human replay id c) pre
    (fun tr r => forall q, r = Ok q -> answered_in tr (GetRequest id) (Ok (Some q)) /\ its_human (subject_of c) (rq_for_human q) tr).
Proof.
  unfold load_as_human. apply wp_act_bind, wp_mbind, wp_call; [done|]. intros [[q|]|e] s s' Hd; [| |done]; cbn [mret prog_ret wp map_err].
  - eapply wp_past; [apply own_replays|auto with calls|apply wp_human|]. intros tr b Ht Hb. destruct b; [|apply wp_refuses; [apply own_replays|quiet_call|apply refuses_probe|done]].
    intros q' [= <-]. split; [|by apply Hb]. eapply answered_sub; [exact Ht|by apply snoc_answered].
  - apply wp_refuses; [apply own_replays|quiet_call|apply refuses_probe|done].
Qed.

Definition taken (c : Caller) (facts : SessionFacts) (row : WebauthnChallenge) (sent : bytes) (tr : list Step) : Prop :=
  exists now, answered_in tr (TakeChallenge (cr_challenge_id req) (sf_id_hash facts) now) (Ok (Some row)) /\ wc_principal row = subject_of c /\
    wc_purpose row = PurposeRequest /\ sent_challenge row = Some sent.
Lemma wp_consume c facts now pre :
  wp replays (consume (cr_challenge_id req) c facts [PurposeRequest] now) pre (fun tr r => forall p, r = Ok p -> taken c facts p.1 p.2 tr).
Proof.
  unfold consume. apply wp_act_bind, wp_mbind, wp_call; [done|]. intros [[row|]|e] s s' Hd; [|done..]. cbn [mret prog_ret wp map_err].
  destruct (String.eqb_spec (wc_principal row) (subject_of c)) as [Hp|]; [|done]. cbn [existsb negb orb]. case_bool_decide as Hq; [|done]. cbn [orb negb].
  destruct (sent_challenge row) as [sent|] eqn:Es; [|done]. intros p [= <-]. exists now. split; [by apply snoc_answered|done].
Qed.
Lemma wp_refused_own {A} (m : Act A) pre (Q : list Step -> A -> Prop) : own m -> refuses m -> wp replays m pre (fun tr r => forall a, r = Ok a -> Q tr a).
Proof. intros Ho Hr. apply wp_refuses; [apply own_replays|done..]. Qed.
Lemma refuses_revoke_clone {A} k c facts pr n : refuses (revoke_clone replay (A:=A) k c facts pr n).
Proof. unfold revoke_clone. quiet_call. Qed.
Lemma wp_accept_count k ok c facts n pre :
  wp replays (accept_count replay k ok c facts n) pre (fun tr r => forall k', r = Ok k' ->
    k' = k /\ exists now, answered_in tr (RecordUse (pk_id k) (pk_sign_count k) (ao_new_count ok) (ao_backup_state ok) now) (Ok Recorded)).
Proof.
  unfold accept_count. apply wp_past_own; [apply own_replays|quiet_call|]. intros tr _ _. apply wp_act_bind, wp_mbind, wp_call; [done|].
  intros [[]|e] s s' Hd; cbn [mret prog_ret wp map_err]; [|apply wp_refused_own; [quiet_call|apply refuses_revoke_clone]|done..].
  intros k' [= <-]. split; [done|]. exists n. by apply snoc_answered.
Qed.
Lemma wp_verify_with c facts sent resp k n pre : pk_principal k = subject_of c ->
  wp replays (verify_with replay svc c facts sent resp k n) pre (fun tr r => forall k', r = Ok k' -> verified_by c sent k' tr).
Proof.
  intros Hp. unfold verify_with. destruct (is_usable k) eqn:Hu; cbn [negb]; [|apply wp_refused_own; quiet_call].
  destruct (alg_from_id (pk_alg k)) as [alg|]; [|done]. apply wp_past_own_act; [apply own_replays|auto with calls| |done]. intros tr handle _.
  destruct (Webauthn.verify_assertion _ _ _ _ _) as [ok|e] eqn:Ev.
  - eapply wp_mono; [apply wp_accept_count|]. intros tr' r Hr k' Hk. destruct (Hr k' Hk) as [-> (now & Ha)]. split_and!; [done..|]. by exists alg, (to_bytes handle), resp, ok, now.
  - destruct e; try done. apply wp_refused_own; [quiet_call|]. apply refuses_act_bind. intros _. apply refuses_revoke_clone.
Qed.
Lemma wp_verify c facts sent cred n pre :
  wp replays (verify_assertion replay svc c facts sent cred n) pre (fun tr r => forall k, r = Ok k -> verified_by c sent k tr).
Proof.
  unfold verify_assertion. eapply (wp_past replays own_replays (fun tr r => forall k, r = Ok k -> verified_by c sent k tr)); [unfold verify_assertion_once; quiet_call| |].
  - unfold verify_assertion_once. destruct (parse_authentication_response cred) as [resp|]; [|done]. destruct (b64_decode _); [|done].
    apply wp_past_own_act; [apply own_replays|quiet_call| |done]. intros tr [k|] _; [|done]. destruct (String.eqb_spec (pk_principal k) (subject_of c)); [by apply wp_verify_with|done].
  - intros tr r Ht Hr. eapply wp_past_own; [apply own_replays|quiet_call|]. intros tr' _ Ht' k Hk. destruct (Hr k Hk) as (? & ? & alg & h & resp & ok & now & ? & Ha).
    split_and!; [done..|]. exists alg, h, resp, ok, now. split; [done|]. by eapply answered_sub.
Qed.

Lemma wp_record_confirmed c facts confirmation k r n pre :
  wp replays (record_confirmed replay c facts id confirmation k r n) pre (fun tr logged => logged = Ok tt -> confirmation_logged c confirmation k tr).
Proof.
  unfold record_confirmed, event. apply wp_mbind, wp_mbind. unfold random_id at 1. apply wp_call; [done|]. intros ev s s' _. cbn [mret prog_ret wp].
  apply wp_mbind, wp_call; [done|]. intros appended s1 s1' Hd. apply wp_past_own; [apply own_replays|unfold random_id; quiet_call|]. intros tr ev2 Ht.
  apply wp_past_own; [apply own_replays|quiet_call|]. intros tr' _ Ht'. destruct appended as [seq|e]; [|done]. intros _.
  eexists _, seq. split; [eapply answered_sub; [exact Ht'|]; eapply answered_sub; [exact Ht|by apply snoc_answered]|done].
Qed.
Lemma does_begin by_ cf now r s s' : does (Begin id by_ cf now) s (Ok (Begun r)) s' ->
  exists r0, su_requests (sh_step_ups s) !! id = Some r0 /\ rq_state r0 = RsPending /\ (now < rq_expires_at r0)%Z /\ r = executing by_ cf now r0.
Proof.
  intros [Hd|(e & [=] & _)]. cbn in Hd. destruct (begin_execution_cases id by_ cf now (sh_step_ups s)) as [(b & E & Hb)|(r0 & E & Hr)]; rewrite E in Hd.
  - injection Hd as <- _. by destruct (Hb r).
  - injection Hd as -> _. exists r0. destruct Hr as (? & ? & ?). done.
Qed.
Lemma wp_begin c confirmation now pre :
  wp replays (stored (call (Begin id (subject_of c) confirmation now))) pre (fun tr b => forall r, b = Ok (Begun r) -> begun c confirmation r tr).
Proof.
  apply wp_mbind, wp_call; [done|]. intros [b|e] s s' Hd; [|done]. intros r [= ->]. pose proof (does_begin _ _ _ _ _ _ Hd) as (r0 & Hr).
  exists now, s, s', r0. split; [apply elem_of_app; right; by apply list_elem_of_singleton|done].
Qed.
Lemma begun_sub c cf r tr tr' : follows tr tr' -> begun c cf r tr -> begun c cf r tr'.
Proof. intros [Hs _] (now & s & s' & r0 & Hi & ?). exists now, s, s', r0. split; [by apply Hs|done]. Qed.
Lemma wp_run_opened c confirmation r logged pre :
  (forall body requester, logged = Ok tt -> opened id r = Ok (body, requester) ->
     may_replay pre (authority_of id r confirmation (subject_of c) requester) (rq_method r) (request_uri r) body) ->
  wp replays (run_opened id r confirmation (subject_of c) logged) pre (fun _ _ => True).
Proof.
  intros Hm. unfold run_opened. destruct logged as [[]|why]; [|done]. destruct (opened id r) as [[body requester]|why]; [|done].
  unfold replay_request. destruct (malformed _ _); [done|]. split; [by apply Hm|]. done.
Qed.
Lemma by_browser_sub c facts tr tr' : follows tr tr' -> by_browser c facts tr -> by_browser c facts tr'.
Proof. intros Ht (? & server & ? & ?). split; [done|]. exists server. split; [by eapply answered_sub|done]. Qed.
Lemma its_human_sub a b tr tr' : follows tr tr' -> its_human a b tr -> its_human a b tr'.
Proof. intros Ht [?|(server & ? & ?)]; [by left|right]. exists server. split; [by eapply answered_sub|done]. Qed.
Lemma challenged_sub c facts r sent tr tr' : follows tr tr' -> challenged c facts r sent tr -> challenged c facts r sent tr'.
Proof. intros Ht (row & now & ? & ?). exists row, now. split; [by eapply answered_sub|done]. Qed.
Lemma verified_sub c sent k tr tr' : follows tr tr' -> verified_by c sent k tr -> verified_by c sent k tr'.
Proof. intros Ht (? & ? & alg & h & resp & ok & now & ? & ?). split_and!; [done..|]. exists alg, h, resp, ok, now. split; [done|by eapply answered_sub]. Qed.
Lemma wp_execute c facts r0 sent k now pre :
  unrun pre -> by_browser c facts pre -> answered_in pre (GetRequest id) (Ok (Some r0)) -> its_human (subject_of c) (rq_for_human r0) pre ->
  challenged c facts r0 sent pre -> verified_by c sent k pre ->
  wp replays (execute replay c facts id k now) pre (fun _ _ => True).
Proof.
  intros Hu Hb Hg Hh Hc Hv. unfold execute. apply wp_past_own; [apply own_replays|auto with calls|]. intros tr1 confirmation F1'.
  eapply (wp_past_act replays own_replays (fun tr b => forall r, b = Begun r -> begun c confirmation r tr)); [auto with calls| | |done].
  { eapply wp_mono; [apply wp_begin|]. intros tr a Ha b Ea r Er. apply Ha. congruence. }
  intros tr2 b F2' Hr. destruct b as [r| | |]; [|done..]. specialize (Hr r eq_refl). cbn [begun_or_refused act_bind mret prog_ret mbind prog_bind prog_bind_].
  apply wp_past_own_act; [apply own_replays|quiet_call| |done]. intros tr3 _ F3'.
  eapply (wp_past replays own_replays (fun tr l => l = Ok tt -> confirmation_logged c confirmation k tr)); [auto with calls|apply wp_record_confirmed|].
  intros tr4 logged F4' Hl. apply wp_mbind. eapply wp_mono; [apply wp_run_opened|intros tr' ran _; apply (wp_own _ own_replays); auto with calls].
  assert (follows pre tr4) as Ht by (repeat (eapply follows_trans; [eassumption|]); apply follows_refl).
  assert (follows tr2 tr4) as Ht2 by (repeat (eapply follows_trans; [eassumption|]); apply follows_refl).
  intros body requester Hlog Ho. eapply replayed; [by apply Ht|exact (by_browser_sub _ _ _ _ Ht Hb)|exact (answered_sub _ _ _ _ Ht Hg)|exact (its_human_sub _ _ _ _ Ht Hh)
    |exact (challenged_sub _ _ _ _ _ _ Ht Hc)|exact (verified_sub _ _ _ _ _ Ht Hv)|exact (begun_sub _ _ _ _ _ Ht2 Hr)|by apply Hl|done..].
Qed.

Lemma wp_confirm_request : wp replays (confirm_request replay (Enforce svc) headers id req) [] (fun _ _ => True).
Proof.
  unfold confirm_request. cbn [service policy_service done act_bind mret prog_ret mbind prog_bind prog_bind_].
  eapply (wp_past_act replays own_replays (fun tr p => by_browser p.1 p.2 tr)); [auto with calls|apply wp_browser| |done]. intros tr1 [c facts] F1' Hb.
  eapply (wp_past_act replays own_replays (fun tr q => answered_in tr (GetRequest id) (Ok (Some q)) /\ its_human (subject_of c) (rq_for_human q) tr));
    [auto with calls|apply wp_load| |done]. intros tr2 r0 F2' [Hg Hh].
  apply wp_past_own; [apply own_replays|auto with calls|]. intros tr3 now F3'.
  destruct (confirmable r0 now) as [[]|]; [|done]. cbn [act_bind mret prog_ret mbind prog_bind prog_bind_].
  eapply (wp_past_act replays own_replays (fun tr p => taken c facts p.1 p.2 tr)); [auto with calls|apply wp_consume| |done]. intros tr5 [row sent] F5' Htk.
  destruct (minted_for row id r0) eqn:Em; cbn [negb]; [|done]. apply andb_true_iff in Em as [Er%bool_decide_eq_true Ed%bool_decide_eq_true].
  assert (challenged c facts r0 sent tr5) as Hc by (destruct Htk as (n & ? & ? & ? & ?); by exists row, n).
  eapply (wp_past_act replays own_replays (fun tr k => verified_by c sent k tr)); [auto with calls|apply wp_verify| |done]. intros tr6 k F6' Hv.
  assert (follows [] tr6 /\ follows tr1 tr6 /\ follows tr2 tr6) as (F0 & F1 & F2).
  { split_and!; repeat (eapply follows_trans; [eassumption|]); apply follows_refl. }
  eapply wp_execute; [apply (follows_unrun _ _ F0); constructor|exact (by_browser_sub _ _ _ _ F1 Hb)|exact (answered_sub _ _ _ _ F2 Hg)|exact (its_human_sub _ _ _ _ F2 Hh)
    |exact (challenged_sub _ _ _ _ _ _ F6' Hc)|done].
Qed.
End replayed.

(** C6: a confirmed request is run for its human, once, as it was begun. With
    step-up enforced, in every trace of [confirm_request], whatever the stores
    hold and the other requests do between its calls and wherever it is
    dropped, the router is called at most once, and only after: a signed-in
    browser session whose Principal is the request's human (or was merged
    with them); a challenge minted in that session for this request and its
    digest, consumed; an assertion on it by one of that Principal's usable
    passkeys, its counter recorded; the request found waiting and unexpired
    and made executing; and [step_up.confirmed], with that confirmation, in
    the log. What is run is the request's method and URI, the body its sealed
    text opens to, and an authority of its operation, its digest, the changes
    it showed, its requester and the role its session held. *)
Theorem confirmed_request_runs `{Host, Sha256, Sealer, Hmac, SealedCodec, Base64, Minicbor, Ring, ClientDataParser, CredentialParser, JsonParser, HttpBuilder}
    replay svc headers id req tr r :
  runs (confirm_request replay (Enforce svc) headers id req) tr r ->
  forall tr1 authority method uri body a s s' tr2, tr = tr1 ++ mkStep (RunRouter authority method uri body) a s s' :: tr2 ->
    may_replay replay svc headers id req tr1 authority method uri body.
Proof.
  intros Hr tr1 authority method uri body a s s' tr2 ->. eapply (wp_sound _ _ [] _ _ _ (wp_confirm_request replay svc headers id req)) in Hr as [Hr _].
  exact (Hr tr1 _ tr2 eq_refl).
Qed.

(** ** From the raise to the run *)

Section roundtrip.
Context `{Host, Sha256, Sealer, Hmac, SealedCodec, Base64}.
Context (replay : option ReplayAuthority) (o : Op) (p : Prepared) (s : OpSummary) (requester : StepUpRequester).

(** The row [raise] makes of the request, sealed. *)
Definition raised_row (row : StepUpRequest) : Prop :=
  exists id sealed now, seal (sealed_text (pp_body p) (sealed_session requester (pp_caller p))) (aad id) = Ok sealed /\ row = request_row o p s requester id sealed now.
Definition raises_it (c : Call) : Prop := match c with Raise row _ _ => raised_row row | _ => True end.
Lemma raises_record_each l : makes raises_it (record_each l).
Proof. induction l as [|e l IH]; [done|]. apply makes_mbind; [unfold record; quiet_call|done]. Qed.
#[local] Hint Resolve raises_record_each : calls.
Lemma raises_only {A} r : makes raises_it (raise replay (A:=A) o p s requester r).
Proof.
  unfold raise, refuse_too_large, refuse_with, op_event, event, record_refusal, record, random_id. apply makes_mbind; [quiet_call|]. intros now.
  destruct (_ <? _)%N; [quiet_call|]. apply makes_mbind; [quiet_call|]. intros id. destruct (seal _ _) as [sealed|] eqn:Es; [|quiet_call].
  apply makes_act_bind; [|quiet_call]. apply makes_stored, makes_call. by exists id, sealed, now.
Qed.
(** The changes a summary shows are those it was made with. *)
Lemma shown_changes : summary_changes (request_summary s (requester_label (pp_caller p))) = os_changes s.
Proof. unfold summary_changes, request_summary. cbn [json_get List.find fst snd String.eqb Ascii.eqb Bool.eqb andb]. cbn. induction (os_changes s) as [|c l IH]; [done|]. cbn. by rewrite IH. Qed.
(** Whom the replay is to run as: the credential that asked. *)
Definition requester_now (c : Caller) : option ReplayRequester :=
  match ca_grant c with
  | Some token => Some (ReplayToken (at_id token))
  | None => (fun f => ReplaySession (sf_id f)) <$> ca_session c
  end.
Lemma opened_as_sealed row by_ cf now :
  (forall text a sealed, seal text a = Ok sealed -> open_sealed sealed a = Ok text) -> (forall b, std_decode (std_encode b) = Ok b) ->
  (let session := sealed_session requester (pp_caller p) in parse_sealed (sealed_text (pp_body p) session) = Ok (std_encode (pp_body p), session)) ->
  requester_of (pp_caller p) = Some requester -> raised_row row ->
  exists q, opened (rq_id row) (executing by_ cf now row) = Ok (pp_body p, q) /\ requester_now (pp_caller p) = Some q.
Proof.
  intros Hs Hb Hj Hq (id & sealed & t & Es & ->). unfold opened. cbn [executing request_row rq_sealed rq_id rq_requester]. rewrite (Hs _ _ _ Es), Hj, Hb.
  unfold requester_of in Hq. unfold requester_now. destruct (ca_grant (pp_caller p)) as [token|]; [injection Hq as <-; by eexists|].
  destruct (ca_via (pp_caller p)) as [[]|]; try done. destruct (ca_session (pp_caller p)) as [f|] eqn:Ef; [|done]. injection Hq as <-. cbn. rewrite Ef. by eexists.
Qed.
Lemma authority_matches row by_ cf now human q : raised_row row -> replay_matches (authority_of (rq_id row) (executing by_ cf now row) cf human q) o p s = true.
Proof.
  intros (id & sealed & t & _ & ->). unfold replay_matches. cbn [authority_of executing request_row rq_op rq_action_digest rq_summary ra_op_id ra_digest ra_changes].
  rewrite !String.eqb_refl, shown_changes. cbn [andb]. apply forallb_forall. intros c Hc. apply existsb_exists. exists c. split; [done|apply String.eqb_refl].
Qed.
End roundtrip.

(** C8: what a credential sent is what runs. Take any request [raise] stored,
    and any trace in which its human confirms it and it is still the row that
    was stored when it is made executing. If the router is called, it is with
    the method, path, query and body the credential sent, as that credential
    (its token, or its session), and under an authority that satisfies the
    guard's check for this operation, this digest and these changes. The KEK
    opens what it sealed, base64 decodes what it encoded, and serde reads the
    sealed text back. *)
Theorem raised_request_runs_as_sent `{Host, Sha256, Sealer, Hmac, SealedCodec, Base64, Minicbor, Ring, ClientDataParser, CredentialParser, JsonParser, HttpBuilder}
    replay o p s requester refusal replay' svc headers req row caps t out s0 s0' tr0 (r0 : option (Result StepUpError (option string)))
    tr r tr1 authority method uri body a s1 s1' tr2 :
  (forall text a sealed, seal text a = Ok sealed -> open_sealed sealed a = Ok text) -> (forall b, std_decode (std_encode b) = Ok b) ->
  (let session := sealed_session requester (pp_caller p) in parse_sealed (sealed_text (pp_body p) session) = Ok (std_encode (pp_body p), session)) ->
  requester_of (pp_caller p) = Some requester ->
  runs (raise replay o p s requester refusal) tr0 r0 -> mkStep (Raise row caps t) out s0 s0' ∈ tr0 ->
  runs (confirm_request replay' (Enforce svc) headers (rq_id row) req) tr r ->
  tr = tr1 ++ mkStep (RunRouter authority method uri body) a s1 s1' :: tr2 ->
  (forall by_ cf now b s s', mkStep (Begin (rq_id row) by_ cf now) b s s' ∈ tr1 -> su_requests (sh_step_ups s) !! rq_id row = Some row) ->
  method = pp_method p /\ uri = (if String.eqb (pp_query p) "" then pp_path p else pp_path p +:+ "?" +:+ pp_query p) /\ body = pp_body p /\
  Some (ra_requester authority) = requester_now (pp_caller p) /\ replay_matches authority o p s = true.
Proof.
  intros Hs Hb Hj Hq Hr0 Hin Hr -> Hrow. pose proof (makes_runs _ _ _ _ (raises_only replay o p s requester refusal) Hr0) as Hall.
  rewrite Forall_forall in Hall. pose proof (Hall _ Hin) as Hraised. cbn in Hraised.
  eapply (wp_sound _ _ [] _ _ _ (wp_confirm_request replay' svc headers (rq_id row) req)) in Hr as [Hr _].
  destruct (Hr tr1 _ tr2 eq_refl) as [c facts r1 sent k cf r2 q _ _ _ _ _ _ (now & s2 & s2' & r3 & Hi & Hl & _ & _ & ->) _ Ho -> -> ->].
  apply Hrow in Hi. rewrite Hi in Hl. injection Hl as <-.
  destruct (opened_as_sealed o p s requester row (subject_of c) cf now Hs Hb Hj Hq Hraised) as (q' & Ho' & ->). cbn in Ho. rewrite Ho' in Ho. injection Ho as <- <-.
  pose proof (authority_matches o p s requester row (subject_of c) cf now (subject_of c) q' Hraised). destruct Hraised as (id & sealed & t' & _ & ->). done.
Qed.

(** ** Witnesses *)

Definition cis_body : string := "{}".
Definition cis_caller : Caller := mkCaller (mkPrincipal "amy" None [Admin]) (Some ci_token) (Some Bearer) None.
Definition cis_prepared : Prepared :=
  mkPrepared some_service cis_caller (Some "acme") (Some (Project "acme" "shop")) (mkOpSummary "Set a secret" "acme/shop/KEY" ["set KEY"])
    "0123456789abcdef0123456789abcdef" "POST" "/v1/secrets" "" cis_body.
Definition one_body : SealedCodec :=
  {| std_encode b := b; std_decode b := Ok b;
     parse_sealed t := if String.eqb t (json_text (JObj [("body", JStr cis_body)])) then Ok (cis_body, None) else Err "not a sealed request" |}.
(** The token's request is raised. *)
Definition cis_raise : list Step * Result StepUpError (option string) * Shared :=
  @run plain_host _ (quiet_env 20) 0
    (@raise plain_sealer one_body None _ SECRET_PUT cis_prepared (pp_summary cis_prepared) (ByApiToken (at_id ci_token)) (plain_refusal_of SECRET_PUT (pp_summary cis_prepared) MSG_MACHINE "window"))
    empty_stores.
(** Amy confirms it, in her browser, with her passkey. *)
Definition amys_hash : string := @session_id_hash padded_digests "s1".
Definition confirming_server : Server :=
  mkServer (mkAppState (Some (fun sid => Ok (if String.eqb sid "s1" then Some (mkSession "s1" amy 1000 (@csrf_hash padded_digests "t") 1 LOGIN_KIND_BROWSER) else None)))
              None None None [] (fun _ => None) 20)
    (fun _ => None) None None None [] None "https://ci.example" (fun _ => "/login").
Definition confirming_env (n : nat) : Turn :=
  mkTurn (fun s => s) (fun c => match c return answer c with AskServer => confirming_server | c => quiet_answers 20 n c end) None.
Definition amys_key1 : Passkey :=
  mkPasskey "k1" "amy" "key1" (of_bytes some_passkey_cose) (-7) 4 "laptop" [] None false false 1 amys_hash None None (Some "0123456789abcdef0123456789abcdef").
Definition amys_challenge : WebauthnChallenge :=
  mkChallenge "ch1" "amy" amys_hash PurposeRequest "0123456789abcdef0123456789abcdef" (Some (pp_digest cis_prepared)) (Some "id1") None None 20 1000 None.
Definition waiting_stores : Shared :=
  mkShared (mkPasskeys {["k1" := amys_key1]} ∅) {["ch1" := amys_challenge]} (sh_step_ups cis_raise.2) (sh_events cis_raise.2) new_limiter.
Definition signed_by_key1 (row : WebauthnChallenge) : AuthenticationResponse :=
  let auth_data := auth_data_with 0x05 5 [] in
  let client_data := "webauthn.get|" +:+ of_bytes (default [] (@sent_challenge padded_digests row)) +:+ "|https://ci.example" in
  mkAuthentication "key1" "key1" "public-key" client_data (of_bytes auth_data) (of_bytes (auth_data ++ padded_digests client_data)) None.
Definition reads_key1 (row : WebauthnChallenge) : CredentialParser :=
  {| parse_registration_response _ := None; parse_authentication_response j := match j with JNull => None | _ => Some (signed_by_key1 row) end |}.
Definition well_formed_http : HttpBuilder := fun m uri => if starts_with "/" uri then None else Some "not a path".
Definition amy_confirms : Act StepUpRequestResultDto :=
  @confirm_request padded_digests plain_sealer one_body plain_base64 plain_cbor echo_ring barred_client_data (reads_key1 amys_challenge) plain_json well_formed_http
    None (Enforce some_service) amys_cookie "id1" (mkConfirmRequest "ch1" (JObj [])).
Definition confirming : list Step * Result StepUpError StepUpRequestResultDto * Shared := @run plain_host _ confirming_env 0 amy_confirms waiting_stores.
Lemma confirmed_request_runs_witness :
  qr_state <$> confirming.1.2 = Ok "executed" /\
  exists authority, @may_replay plain_host padded_digests plain_sealer one_body plain_base64 plain_cbor echo_ring barred_client_data None some_service amys_cookie "id1"
    (mkConfirmRequest "ch1" (JObj [])) (take 13 confirming.1.1) authority "POST" "/v1/secrets" cis_body.
Proof.
  split; [vm_compute; reflexivity|].
  assert (exists a, sp_call <$> confirming.1.1 !! 13 = Some (RunRouter a "POST" "/v1/secrets" cis_body)) as [au Hc] by (eexists; vm_compute; reflexivity).
  exists au. destruct (confirming.1.1 !! 13) as [[c a s s']|] eqn:E; [|discriminate Hc]. injection Hc as ->.
  eapply (@confirmed_request_runs plain_host padded_digests plain_sealer plain_hmac one_body plain_base64 plain_cbor echo_ring barred_client_data (reads_key1 amys_challenge) plain_json
            well_formed_http None some_service amys_cookie "id1" (mkConfirmRequest "ch1" (JObj [])) confirming.1.1 (Some confirming.1.2)).
  - exact (@run_runs plain_host _ confirming_env 0 amy_confirms waiting_stores).
  - symmetry. exact (take_drop_middle _ _ _ E).
Defined.
Definition cis_row : StepUpRequest :=
  @request_row SECRET_PUT cis_prepared (pp_summary cis_prepared) (ByApiToken "t1") "id1" (aad "id1" +:+ @sealed_text one_body cis_body None) 20.
(** The row a call is about to make executing. *)
Definition row_begun (st : Step) : option (option StepUpRequest) :=
  match sp_call st with Begin id _ _ _ => Some (su_requests (sh_step_ups (sp_before st)) !! id) | _ => None end.
Lemma strip_prefix_app a t : strip_prefix a (a +:+ t) = Some t.
Proof.
  unfold strip_prefix, starts_with. by rewrite str_prefix_app, drop_str_app.
Qed.
Lemma raised_request_runs_as_sent_witness :
  exists authority, sp_call <$> confirming.1.1 !! 13 = Some (RunRouter authority "POST" "/v1/secrets" cis_body) /\
    Some (ra_requester authority) = requester_now cis_caller /\ replay_matches authority SECRET_PUT cis_prepared (pp_summary cis_prepared) = true.
Proof.
  assert (exists a, sp_call <$> confirming.1.1 !! 13 = Some (RunRouter a "POST" "/v1/secrets" cis_body)) as [au Hc] by (eexists; vm_compute; reflexivity).
  exists au. split; [exact Hc|]. destruct (confirming.1.1 !! 13) as [[c a s s']|] eqn:E; [|discriminate Hc]. injection Hc as ->.
  assert (sp_call <$> cis_raise.1.1 !! 2 = Some (Raise cis_row DEFAULT_CAPS 20)) as Hr by (vm_compute; reflexivity).
  destruct (cis_raise.1.1 !! 2) as [[c2 a2 s2 s2']|] eqn:E2; [|discriminate Hr]. injection Hr as ->.
  assert (omap row_begun (take 13 confirming.1.1) = [Some cis_row]) as Hb by (vm_compute; reflexivity).
  eapply (@raised_request_runs_as_sent plain_host padded_digests plain_sealer plain_hmac one_body plain_base64 plain_cbor echo_ring barred_client_data (reads_key1 amys_challenge) plain_json
            well_formed_http None SECRET_PUT cis_prepared (pp_summary cis_prepared) (ByApiToken "t1") (plain_refusal_of SECRET_PUT (pp_summary cis_prepared) MSG_MACHINE "window")
            None some_service amys_cookie (mkConfirmRequest "ch1" (JObj [])) cis_row DEFAULT_CAPS 20 a2 s2 s2' cis_raise.1.1 (Some cis_raise.1.2)
            confirming.1.1 (Some confirming.1.2) (take 13 confirming.1.1) au "POST" "/v1/secrets" cis_body a s s').
  - intros text ad sealed [= <-]. unfold open_sealed, plain_sealer. by rewrite strip_prefix_app.
  - done.
  - vm_compute. reflexivity.
  - reflexivity.
  - exact (@run_runs plain_host _ (quiet_env 20) 0 _ empty_stores).
  - by eapply list_elem_of_lookup_2.
  - exact (@run_runs plain_host _ confirming_env 0 amy_confirms waiting_stores).
  - symmetry. exact (take_drop_middle _ _ _ E).
  - intros by_ cf now b t t' Hi. refine (proj1 (list_elem_of_singleton _ _) _). rewrite <- Hb.
    refine (proj2 (list_elem_of_omap _ _ _) _). exists (mkStep (Begin (rq_id cis_row) by_ cf now) b t t'). split; [exact Hi|reflexivity].
Defined.
