(* ===== verification/Admin.v ===== *)
(** * Passkey resets (scarab-server/src/step_up/admin.rs)

    An Owner's reset of a member's passkeys, and the operator's break-glass:
    every passkey goes, then every standing confirmation. *)

From S2P Require Import Prelude Text Values Identity Auth StepUp Refusals Ops Guard Calls Webauthn Confirm.

Definition BREAK_GLASS_MIN_SCHEMA : Z := 62.
Definition BREAK_GLASS_CALLER : string := "operator:break-glass".
Record PasskeyResetDto := mkReset { pr_subject : string; pr_removed : N; pr_windows_revoked : N }.
Record OperatorInfo := mkOperator { oi_host : string; oi_os_user : string }.

(** ** The owners matcher (oauth.rs) *)

Definition owner_entry_email (entry : string) : option string * string :=
  match split_once ":" entry with Some (provider, addr) => (Some provider, addr) | None => (None, entry) end.
Definition is_email_owner_entry (entry : string) : bool := contains "@" (owner_entry_email entry).2.
Definition eq_ignore_ascii_case (a b : string) : bool := String.eqb (to_ascii_lowercase a) (to_ascii_lowercase b).
Definition owner_entry_matches (provider_id : string) (verified_email : option string) (entry : string) : bool :=
  match verified_email with
  | None => false
  | Some email =>
      let '(provider, addr) := owner_entry_email entry in
      match provider with Some p => String.eqb p provider_id | None => true end && eq_ignore_ascii_case addr email
  end.
Definition matches_owner (provider : string * list string) (subject : string) (verified_email : option string) : bool :=
  existsb (fun o => String.eqb o subject || owner_entry_matches provider.1 verified_email o) provider.2.

Section admin.
Context `{Sha256, Sealer, Hmac, SealedCodec, Base64}.
Context (replay : option ReplayAuthority) (policy : StepUpPolicy).

(** ** An Owner's reset *)

(** The live Principal a path names. *)
Definition live_subject (subject : string) : Act string :=
  server ← call AskServer;
  match srv_resolve server with
  | None => done subject
  | Some resolve =>
      match resolve subject with
      | Err e => refused (SeUnavailable ("could not resolve `" +:+ subject +:+ "` to its Principal, so nothing was reset: " +:+ show_identity_error e))
      | Ok found => done (default subject found)
      end
  end.
Definition owner_by_email (server : Server) (subject : string) (i : ProviderIdentity) : bool :=
  if pi_email_verified i
  then match pi_email i with
       | Some email => existsb (fun p => String.eqb p.1 (pi_provider i) && matches_owner p subject (Some email)) (srv_providers server)
       | None => false
       end
  else false.
Definition is_install_owner (subject : string) : Act bool :=
  server ← call AskServer;
  if negb (bool_decide (token_owner_roles (srv_state server) subject = [])) then done true
  else match srv_identities server with
       | None => done false
       | Some identities_of =>
           match identities_of subject with
           | Err e => refused (SeUnavailable ("could not read `" +:+ subject +:+ "`'s identities to tell whether they are an install-wide owner, so nothing was reset: "
                                              +:+ show_identity_error e))
           | Ok identities => done (existsb (owner_by_email server subject) identities)
           end
       end.
Definition caller_role (c : Caller) (scope : Scope) : Act (option Role) := server ← call AskServer; lift_api (role_in (srv_state server) c scope).
(** Owner of every one of [orgs], asked one by one. *)
Fixpoint owns_all (c : Caller) (subject : string) (orgs : list string) : Act unit :=
  match orgs with
  | [] => done tt
  | o :: orgs =>
      let? role := caller_role c (Org o) in
      if bool_decide (role = Some Owner) then owns_all c subject orgs
      else refused (SeDenied ("`" +:+ subject +:+ "` also belongs to an Org you do not own: a passkey is not Org-scoped, so only an Owner of every Org they belong to (or a bootstrap owner) can reset theirs"))
  end.
Definition member_orgs (subject : string) : Act (list string) :=
  server ← call AskServer;
  match st_rbac (srv_state server) with
  | None => refused (SeApi AeNotFound)
  | Some rbac => mret (map_err store_err (rp_orgs_of rbac subject))
  end.
Definition is_bootstrap (c : Caller) : Prog bool :=
  if bool_decide (is_Some (ca_grant c)) then mret false
  else server ← call AskServer; mret (existsb (fun r => bool_decide (r = Owner)) (token_owner_roles (srv_state server) (subject_of c))).
(** Who may reset [subject]'s passkeys. *)
Definition reset_allowed (c : Caller) (org subject : string) : Act unit :=
  let? orgs := member_orgs subject in
  if negb (existsb (String.eqb org) orgs) then refused (SeApi AeNotFound)
  else
    bootstrap ← is_bootstrap c;
    if (bootstrap : bool) then done tt
    else
      let? install := is_install_owner subject in
      if install then refused (SeDenied ("`" +:+ subject +:+ "` is an install-wide owner: only a bootstrap owner can reset their passkeys"))
      else owns_all c subject orgs.
Definition reset_member_passkeys (confirmation : option string) (headers : HeaderMap) (org subject : string) : Act PasskeyResetDto :=
  let? _ := service policy in
  authenticated ← authenticate_now replay headers Administer;
  let? caller := lift_api authenticated in
  let? role := caller_role caller (Org org) in
  if negb (bool_decide (role = Some Owner)) then refused (SeApi AeForbidden)
  else
    let? subject := live_subject subject in
    let? _ := reset_allowed caller org subject in
    let? removed := stored (call (RemoveAll subject)) in
    let? revoked := stored (call (RevokeWindows subject)) in
    now ← call Now;
    ev ← event replay "passkey.reset" subject (event_label caller) (Some org) now;
    _ ← record (fill (Some "passkey.reset") (Some (org +:+ "/" +:+ subject)) confirmation None None (session_hash_of caller)
                 (JObj [("reset_by", JStr (subject_of caller)); ("removed", JInt (Z.of_N removed)); ("windows_revoked", JInt (Z.of_N revoked))]) ev);
    done (mkReset subject removed revoked).

(** ** The operator's break-glass *)

(** A failure's text, as the command prints it. *)
Definition or_text {A} (prefix : string) (r : Result IdentityError A) : Result string A := map_err (fun e => prefix +:+ show_identity_error e) r.
Definition schema_ready (version : Result string (option Z)) : Result string unit :=
  match version with
  | Err e => Err ("could not read the schema version: " +:+ e)
  | Ok (Some v) =>
      if (BREAK_GLASS_MIN_SCHEMA <=? v)%Z then Ok tt
      else Err ("the database schema is at migration " +:+ pretty v +:+ ", older than " +:+ pretty BREAK_GLASS_MIN_SCHEMA
                +:+ " (the security event log); upgrade the server first — this command never migrates")
  | Ok None => Err "the database has never been migrated; this command never migrates"
  end.
Definition resolved_or_none (principal : string) (found : Result IdentityError (option string)) : Result string string :=
  match found with
  | Err e => Err ("could not resolve `" +:+ principal +:+ "`: " +:+ show_identity_error e)
  | Ok None => Err ("no principal `" +:+ principal +:+ "` exists")
  | Ok (Some s) => Ok s
  end.
(** The command fails with a text. *)
Definition cmd_bind {A B} (m : Prog (Result string A)) (f : A -> Prog (Result string B)) : Prog (Result string B) :=
  r ← m; match r with Ok a => f a | Err e => mret (Err e) end.
Definition reset_passkeys (version : Result string (option Z)) (found : Result IdentityError (option string)) (principal : string) (reason : option string)
    (operator : OperatorInfo) (now_ms : Z) : Prog (Result string PasskeyResetDto) :=
  cmd_bind (mret (schema_ready version)) (fun _ =>
  cmd_bind (mret (resolved_or_none principal found)) (fun subject =>
  cmd_bind (held ← call (ListPasskeys subject); mret (or_text ("could not list the passkeys of `" +:+ subject +:+ "`: ") held)) (fun held =>
  ev ← event replay "passkey.break_glass_reset" subject BREAK_GLASS_CALLER None now_ms;
  cmd_bind (logged ← call (Append (fill (Some "passkey.break_glass_reset") (Some subject) None None None None
              (JObj [("requested", JStr principal); ("reason", opt_str reason); ("host", JStr (oi_host operator)); ("os_user", JStr (oi_os_user operator));
                     ("removed", JInt (Z.of_nat (length held)))]) ev));
            mret (or_text "the reset could not be recorded in the security event log, so nothing was removed: " logged)) (fun _ =>
  cmd_bind (removed ← call (RemoveAll subject); mret (or_text ("could not remove the passkeys of `" +:+ subject +:+ "`: ") removed)) (fun removed =>
  cmd_bind (revoked ← call (RevokeWindows subject); mret (or_text ("could not revoke the step-ups of `" +:+ subject +:+ "`: ") revoked)) (fun revoked =>
  mret (Ok (mkReset subject removed revoked)))))))).
End admin.

(** * Calls a reset makes *)

Section quiet.
Context `{Sha256, Sealer, Hmac, SealedCodec, Base64}.
Context (P : Call -> Prop) {HP : QuietFor P}.

Lemma quiet_caller_role c scope : makes P (caller_role c scope).
Proof. unfold caller_role, lift_api. quiet_call. Qed.
#[local] Hint Resolve quiet_caller_role : calls.
Lemma quiet_owns_all c subject l : makes P (owns_all c subject l).
Proof. induction l as [|o l IH]; [done|]. apply makes_act_bind; [apply quiet_caller_role|]. intros role. by destruct (bool_decide _). Qed.
Lemma quiet_live_subject subject : makes P (live_subject subject).
Proof. unfold live_subject. quiet_call. Qed.
Lemma quiet_install_owner subject : makes P (is_install_owner subject).
Proof. unfold is_install_owner. quiet_call. Qed.
#[local] Hint Resolve quiet_owns_all quiet_live_subject quiet_install_owner : calls.
Lemma quiet_reset_allowed c org subject : makes P (reset_allowed c org subject).
Proof. unfold reset_allowed, member_orgs, is_bootstrap. quiet_call. Qed.
#[local] Hint Resolve quiet_reset_allowed : calls.
End quiet.
#[export] Hint Resolve quiet_caller_role quiet_live_subject quiet_reset_allowed : calls.
