(* ===== verification/Events.v ===== *)
(** * The security event log's API (scarab-server/src/step_up/events.rs)

    Reading the log, an Org's, one's own or the install's, newest first and
    page by page; what a row leaves out for whom; and an Org's step-up
    posture. *)

From S2P Require Import Prelude Text Values Identity Auth StepUp Refusals Ops Guard Calls Webauthn Confirm GuardRun Ceremony Requests Admin.

Definition DEFAULT_EVENT_LIMIT : N := 50.
Definition MAX_EVENT_LIMIT : N := 200.
Definition RECENT_REFUSALS : N := 20.
Definition RECENT_REFUSALS_WINDOW_MS : Z := 24 * 60 * 60 * 1000.
Definition CURSOR_PREFIX : string := "seq:".

Record EventsQuery := mkQuery {
  eq_kind : option string; eq_actor : option string; eq_target : option string; eq_from : option Z; eq_to : option Z;
  eq_cursor : option string; eq_before : option Z; eq_limit : option N;
}.
(** A row has an event's fields. *)
Abbreviation SecurityEventDto := SecurityEvent.
Record SecurityEventsResponse := mkEvents { er_events : list SecurityEventDto; er_next_cursor : option string; er_next_before : option Z }.
Record OrgSecuritySummary := mkSecuritySummary {
  os_enforced : bool; os_caller_role : option string; os_admins_without_passkey : list string; os_admins_total : N;
  os_unresolved_owner_entries : N; os_recent_refusals : list SecurityEventDto; os_pending_requests : N;
}.

(** ** Cursors and filters *)

Definition is_utf8 (s : string) : bool := String.eqb (from_utf8_lossy s) s.
Definition encode_cursor `{Base64} (seq : Z) : string := b64_encode (to_bytes (CURSOR_PREFIX +:+ pretty seq)).
Definition decode_cursor `{Base64} (cursor : string) : option Z :=
  bytes ← b64_decode (trim cursor);
  let text := of_bytes bytes in
  if is_utf8 text then strip_prefix CURSOR_PREFIX text ≫= parse_i64 else None.
(** A query text parameter: trimmed, and absent when empty. *)
Definition text_param (v : option string) : option string := t ← trim <$> v; if String.eqb t "" then None else Some t.
Definition kinds_of (kind : option string) : list string :=
  List.filter (fun k => negb (String.eqb k "")) (map trim (split "," (default "" kind))).
Definition before_of `{Base64} (q : EventsQuery) : Result StepUpError (option Z) :=
  match text_param (eq_cursor q), eq_before q with
  | Some _, Some _ => Err (SeApi (AeBadRequest "pass `cursor` or `before`, not both"))
  | Some c, None => match decode_cursor c with Some seq => Ok (Some seq) | None => Err (SeApi (AeBadRequest "`cursor` is not one this server issued")) end
  | None, before => Ok before
  end.
Definition filter_of `{Base64} (q : EventsQuery) : Result StepUpError SecurityEventFilter :=
  before ← before_of q;
  Ok (mkFilter None (text_param (eq_actor q)) (kinds_of (eq_kind q)) (eq_from q) (eq_to q) (text_param (eq_target q)) before
        (N.min MAX_EVENT_LIMIT (N.max 1 (default DEFAULT_EVENT_LIMIT (eq_limit q))))).
Definition with_org (org : string) (f : SecurityEventFilter) : SecurityEventFilter :=
  mkFilter (Some org) (ef_subject f) (ef_kinds f) (ef_from_at f) (ef_to_at f) (ef_target_contains f) (ef_before_seq f) (ef_limit f).
Definition about (subject : string) (f : SecurityEventFilter) : SecurityEventFilter :=
  mkFilter (ef_org f) (Some subject) (ef_kinds f) (ef_from_at f) (ef_to_at f) (ef_target_contains f) (ef_before_seq f) (ef_limit f).
Definition with_limit (n : N) (f : SecurityEventFilter) : SecurityEventFilter :=
  mkFilter (ef_org f) (ef_subject f) (ef_kinds f) (ef_from_at f) (ef_to_at f) (ef_target_contains f) (ef_before_seq f) n.

(** ** A page *)

(** Of the rows listed, one more than the limit, the page and where the next
    one begins. *)
Definition page_of (limit : nat) (listed : list SecurityEvent) : list SecurityEvent * option Z :=
  let events := take limit listed in
  (events, if limit <? length listed then sv_seq <$> last events else None).

(** ** What a row leaves out *)

Definition starts_passkey (kind : string) : bool := starts_with "passkey." kind.
Definition without_label (d : Json) : Json := match d with JObj m => JObj (List.filter (fun kv => negb (String.eqb kv.1 "label")) m) | d => d end.
Definition with_refs (op target passkey : option string) (detail : Json) (e : SecurityEvent) : SecurityEvent :=
  mkEvent (sv_seq e) (sv_id e) (sv_org e) (sv_at e) (sv_kind e) (sv_subject e) (sv_caller e) op target (sv_confirmation_id e) (sv_request_id e) passkey
    (sv_session_hash e) detail.
(** For an API token: not which passkey. *)
Definition redact_passkey (e : SecurityEventDto) : SecurityEventDto :=
  if negb (starts_passkey (sv_kind e)) then with_refs (sv_op e) (sv_target e) None (sv_detail e) e
  else
    let names_member := String.eqb (sv_kind e) "passkey.reset" || String.eqb (sv_kind e) "passkey.break_glass_reset" in
    with_refs (sv_op e) (if names_member then sv_target e else None) None (without_label (sv_detail e)) e.
(** For an Org: not what an Org-less confirmation was for. *)
Definition redact_orgless_confirmation (e : SecurityEventDto) : SecurityEventDto :=
  if bool_decide (is_Some (sv_org e)) || negb (String.eqb (sv_kind e) "step_up.confirmed") then e
  else with_refs None None (sv_passkey_id e) (json_object (list_to_map (omap (fun k => (fun v => (k, v)) <$> json_get (sv_detail e) k) ["kind"; "expires_at"]))) e.
Definition org_view (token : bool) (e : SecurityEventDto) : SecurityEventDto :=
  let e := redact_orgless_confirmation e in if token then redact_passkey e else e.

Section events.
Context `{Sha256, Base64}.
Context (replay : option ReplayAuthority) (policy : StepUpPolicy).

Definition page (f : SecurityEventFilter) : Act SecurityEventsResponse :=
  match policy_service policy with
  | None => done (mkEvents [] None None)
  | Some _ =>
      let limit := N.max 1 (ef_limit f) in
      let? listed := stored (call (ListEvents (with_limit (limit + 1) f))) in
      let '(events, next) := page_of (N.to_nat limit) listed in
      done (mkEvents events (encode_cursor <$> next) next)
  end.

(** ** The three logs *)

Definition org_security_events (headers : HeaderMap) (org : string) (q : EventsQuery) : Act SecurityEventsResponse :=
  authenticated ← authenticate_now replay headers Administer;
  let? c := lift_api authenticated in
  let? allowed :=
    (if may_globally c Administer then done true else server ← call AskServer; lift_api (may (srv_state server) c Administer (Org org))) in
  if negb allowed then refused (SeApi AeForbidden)
  else
    let? f := mret (filter_of q) in
    let? p := page (with_org org f) in
    done (mkEvents (map (org_view (bool_decide (is_Some (ca_grant c)))) (er_events p)) (er_next_cursor p) (er_next_before p)).
Definition my_security_events (headers : HeaderMap) (q : EventsQuery) : Act SecurityEventsResponse :=
  authenticated ← authenticate_now replay headers Read;
  let? c := lift_api authenticated in
  if bool_decide (is_Some (ca_grant c)) then refused (SeDenied "an API token cannot read its owner's security events; use a signed-in session")
  else
    let? f := mret (filter_of q) in
    page (about (subject_of c) f).
Definition security_events (headers : HeaderMap) (q : EventsQuery) : Act SecurityEventsResponse :=
  authenticated ← authenticate_now replay headers Read;
  let? c := lift_api authenticated in
  if negb (may_globally c Administer) then refused (SeApi AeForbidden)
  else let? f := mret (filter_of q) in page f.

(** ** An Org's posture *)

Definition role_name (r : Role) : string :=
  match r with Viewer => "viewer" | Member => "member" | Admin => "admin" | Owner => "owner" end.
Record BootstrapOwnerEntries := mkOwnerEntries { bo_principals : gset string; bo_email_matchers : list string }.
(** The bootstrap owners entries: the Principals they name, and those that
    only match an email. *)
Definition owner_entry (resolve : option (string -> Result IdentityError (option string))) (out : BootstrapOwnerEntries) (entry : string) : BootstrapOwnerEntries :=
  let resolved := match resolve with
                  | Some f => match f entry with Ok found => found | Err _ => Some entry end
                  | None => None
                  end in
  match resolved with
  | Some p => mkOwnerEntries ({[p]} ∪ bo_principals out) (bo_email_matchers out)
  | None => if is_email_owner_entry entry then mkOwnerEntries (bo_principals out) (bo_email_matchers out ++ [entry])
            else mkOwnerEntries ({[entry]} ∪ bo_principals out) (bo_email_matchers out)
  end.
Definition resolve_owner_entries (resolve : option (string -> Result IdentityError (option string))) (entries : list string) : BootstrapOwnerEntries :=
  foldl (owner_entry resolve) (mkOwnerEntries ∅ []) entries.
Definition is_org_admin (org : string) (b : Binding) : bool := bool_decide (bn_scope b = Org org) && role_le Admin (bn_role b).
Definition org_admins (server : Server) (org : string) (include_owners : bool) : Result StepUpError (gset string * N) :=
  bound ← match srv_bindings server with
          | None => Ok []
          | Some bindings => map_err store_err (bindings org)
          end;
  let admins : gset string := list_to_set (map bn_subject (List.filter (is_org_admin org) bound)) in
  Ok (if include_owners
      then let owners := resolve_owner_entries (srv_resolve server) (concat (map snd (srv_providers server))) in
           (admins ∪ bo_principals owners, N.of_nat (length (bo_email_matchers owners)))
      else (admins, 0%N)).
Definition sorted_set (s : gset string) : list string := merge_sort str_le (elements s).
Definition admins_without_passkey (admins : list string) : Act (list string) :=
  let? with_ := stored (call (PrincipalsWithPasskeys admins)) in done (List.filter (fun a => negb (bool_decide (a ∈ with_))) admins).
Definition recent_refusals_filter (org : string) : SecurityEventFilter := mkFilter (Some org) None ["step_up.refused"] None None None None RECENT_REFUSALS.
Definition org_security_summary (headers : HeaderMap) (org : string) : Act OrgSecuritySummary :=
  authenticated ← authenticate_now replay headers Read;
  let? c := lift_api authenticated in
  server ← call AskServer;
  let? role := lift_api (role_in (srv_state server) c (Org org)) in
  let global := may_globally c Administer in
  if negb (global || match role with Some r => allows r Administer | None => false end) then refused (SeApi AeForbidden)
  else
    server ← call AskServer;
    let? (admins, unresolved) := mret (org_admins server org global) in
    let total := N.of_nat (size admins) in
    match policy_service policy with
    | None => done (mkSecuritySummary false (role_name <$> role) [] total unresolved [] 0)
    | Some _ =>
        let? without := admins_without_passkey (sorted_set admins) in
        now ← call Now;
        let? listed := stored (call (ListEvents (recent_refusals_filter org))) in
        let recent := List.filter (fun e => (now - RECENT_REFUSALS_WINDOW_MS <=? sv_at e)%Z) listed in
        let? pending := stored (call (PendingInOrg org now)) in
        done (mkSecuritySummary true (role_name <$> role) without total unresolved recent pending)
    end.
End events.

(** The boot log's lines. *)
Definition step_up_owner_matchers_line (email_matchers : N) : option string :=
  if (0 <? email_matchers)%N
  then Some ("step-up: " +:+ pretty email_matchers +:+ " owners entries match by verified email only and are not counted above (a passkey is held by the Principal the human signs in as)")
  else None.
Definition step_up_boot_line (admins_without_passkey : N) : string := "step-up enforced; " +:+ pretty admins_without_passkey +:+ " admins have no passkey".

(** * Theorems *)

(** ** Cursors *)

Definition ascii_text (s : string) : Prop := Forall (fun c => (byte_of c < 128)%N) (String.list_ascii_of_string s).
Lemma lossy_ascii s : ascii_text s -> from_utf8_lossy s = s.
Proof.
  unfold from_utf8_lossy. induction s as [|c s IH]; intros Hs; [done|]. apply Forall_cons in Hs as [Hc Hs]. cbn [lossy_from]. unfold utf8_chunk.
  change (byte_at 0 (String c s)) with (byte_of c). rewrite (proj2 (N.ltb_lt _ _) Hc). cbn. by rewrite IH.
Qed.
Lemma digits_ascii s acc n : parse_digits acc s = Some n -> ascii_text s.
Proof.
  revert acc; induction s as [|c s IH]; intros acc; [constructor|]. cbn [parse_digits]. unfold digit_of. destruct (decide _) as [Hc|]; [|done].
  intros Hp. constructor; [unfold byte_of; lia|by eapply IH].
Qed.
Lemma pretty_positive z : (0 <= z)%Z -> pretty z = pretty (Z.to_N z).
Proof. by destruct z. Qed.
Lemma pretty_negative z : (z < 0)%Z -> pretty z = "-" +:+ pretty (Z.to_N (- z)).
Proof. by destruct z. Qed.
Lemma pretty_ascii (z : Z) : ascii_text (pretty z).
Proof.
  destruct (Z.lt_ge_cases z 0); [rewrite pretty_negative by done; constructor; [by vm_compute|]|rewrite pretty_positive by done]; eapply digits_ascii, parse_digits_pretty.
Qed.
Lemma parse_i64_pretty z : in_i64 z -> parse_i64 (pretty z) = Some z.
Proof.
  unfold in_i64, i64_min, i64_max. intros Hz. destruct (Z.lt_ge_cases z 0) as [Hn|Hp].
  - rewrite pretty_negative by done. destruct (pretty_head (Z.to_N (- z))) as (d & r & Hd & E). pose proof (parse_digits_pretty (Z.to_N (- z))) as HP. rewrite E in *.
    change (parse_i64 ("-" +:+ String (pretty_N_char d) r)) with (n ← parse_digits 0 (String (pretty_N_char d) r); if decide (n <= 2^63)%N then Some (- Z.of_N n)%Z else None).
    rewrite HP. cbn [mbind option_bind]. rewrite decide_True by lia. f_equal. lia.
  - rewrite pretty_positive by done. destruct (pretty_head (Z.to_N z)) as (d & r & Hd & E). pose proof (parse_digits_pretty (Z.to_N z)) as HP. rewrite E in *.
    assert (parse_i64 (String (pretty_N_char d) r) = Z.of_N <$> parse_unsigned (Z.to_N i64_max) (String (pretty_N_char d) r)) as ->.
    { assert (pretty_N_char d <> "-"%char) as Hm by (intros Hm; apply digit_of_pretty in Hd; by rewrite Hm in Hd).
      revert Hm. clear. unfold parse_i64. by destruct (pretty_N_char d) as [[] [] [] [] [] [] [] []]. }
    unfold parse_unsigned, unsigned_body. destruct (Ascii.eqb_spec (pretty_N_char d) "+"%char) as [Hc|_]; [by destruct (pretty_N_char_not_plus d Hd)|].
    rewrite HP. cbn [mbind option_bind]. rewrite decide_True by (unfold i64_max; lia). cbn [fmap option_fmap option_map]. f_equal. lia.
Qed.
(** A cursor stands for the position it was made from, whatever it is. *)
Lemma cursor_roundtrip `{Base64} seq : in_i64 seq ->
  (let text := to_bytes (CURSOR_PREFIX +:+ pretty seq) in b64_decode (trim (b64_encode text)) = Some text) ->
  decode_cursor (encode_cursor seq) = Some seq.
Proof.
  intros Hs Hb. unfold decode_cursor, encode_cursor. cbv zeta in Hb. rewrite Hb. cbn [mbind option_bind]. unfold of_bytes, to_bytes. rewrite String.string_of_list_ascii_of_string.
  unfold is_utf8. rewrite lossy_ascii, String.eqb_refl by (do 4 (constructor; [by vm_compute|]); apply pretty_ascii). rewrite strip_prefix_app. by apply parse_i64_pretty.
Qed.

(** ** Reading page after page, while the log grows *)

Definition before_seq (b : Z) (f : SecurityEventFilter) : SecurityEventFilter :=
  mkFilter (ef_org f) (ef_subject f) (ef_kinds f) (ef_from_at f) (ef_to_at f) (ef_target_contains f) (Some b) (ef_limit f).
Inductive appended (log : EventLog) : EventLog -> Prop :=
| appended_none : appended log log
| appended_more e log' : appended log log' -> appended log (append_event e log').2.
(** Events are numbered from 1, in the order they were appended. *)
Definition numbered (log : EventLog) : Prop := forall i e, el_events log !! i = Some e -> sv_seq e = (Z.of_nat i + 1)%Z.
Definition later (a b : SecurityEvent) : Prop := (sv_seq b < sv_seq a)%Z.

Lemma append_cases e log : (append_event e log).2 = log \/
  (append_event e log).2 = mkEventLog (el_events log ++ [with_seq (Z.of_nat (length (el_events log)) + 1) e]) (el_failing log).
Proof. unfold append_event. destruct (el_failing log) eqn:E; [by left|]. destruct (existsb _ _); [by left|by right]. Qed.
Lemma appended_spec log log' : numbered log -> appended log log' -> numbered log' /\ exists new, el_events log' = el_events log ++ new.
Proof.
  intros Hn. induction 1 as [|e log' _ [IH [new Hnew]]]; [split; [done|]; exists []; by rewrite app_nil_r|].
  destruct (append_cases e log') as [->| ->]; [by split; [|exists new]|]. cbn [el_events]. split.
  - intros i x [Hx|[Hi Hx]]%lookup_app_Some; [by apply IH|]. apply list_lookup_singleton_Some in Hx as [Hz <-]. cbn [sv_seq with_seq]. lia.
  - eexists. rewrite Hnew at 1. by rewrite <- app_assoc.
Qed.
Lemma numbered_sorted log : numbered log -> StronglySorted later (reverse (el_events log)).
Proof.
  destruct log as [l b]. unfold numbered. cbn [el_events]. intros Hn. induction l as [|x l IH] using rev_ind; [constructor|].
  rewrite reverse_snoc. constructor; [apply IH; intros i e He; apply Hn; by apply lookup_app_l_Some|].
  apply Forall_forall. intros e He. rewrite elem_of_reverse in He. apply list_elem_of_lookup in He as [i Hi]. unfold later.
  pose proof (Hn (length l) x (list_lookup_middle l [] x _ eq_refl)). pose proof (Hn i e (lookup_app_l_Some _ _ _ _ Hi)). apply lookup_lt_Some in Hi. lia.
Qed.
Lemma sorted_filter (p : SecurityEvent -> bool) l : StronglySorted later l -> StronglySorted later (List.filter p l).
Proof.
  induction 1 as [|x l Hs IH Hx]; [constructor|]. cbn [List.filter]. destruct (p x); [|done]. constructor; [done|].
  rewrite Forall_forall in *. intros y [Hy _]%list_elem_of_In%filter_In. by apply Hx, list_elem_of_In.
Qed.
Lemma filter_app_bool {A} (p : A -> bool) l k : List.filter p (l ++ k) = List.filter p l ++ List.filter p k.
Proof. induction l as [|x l IH]; [done|]. cbn. rewrite IH. by destruct (p x). Qed.
Lemma filter_kept {A} (p : A -> bool) l : Forall (fun x => p x = true) l -> List.filter p l = l.
Proof. induction 1 as [|x l Hx _ IH]; [done|]. cbn. by rewrite Hx, IH. Qed.
Lemma filter_nothing {A} (p : A -> bool) l : Forall (fun x => p x = false) l -> List.filter p l = [].
Proof. induction 1 as [|x l Hx _ IH]; [done|]. cbn. by rewrite Hx. Qed.
(** What comes after the [n]th of a decreasing list is what is below it. *)
Lemma below_last n l e : StronglySorted later l -> last (take n l) = Some e -> List.filter (fun x => (sv_seq x <? sv_seq e)%Z) l = drop n l.
Proof.
  intros Hs. revert n; induction Hs as [|x l Hs IH Hx]; intros n Hl; [by rewrite take_nil in Hl|]. destruct n as [|n]; [done|]. cbn [take drop] in *.
  destruct (take n l) as [|y k] eqn:E.
  - cbn in Hl. injection Hl as ->. cbn [List.filter]. rewrite Z.ltb_irrefl. rewrite filter_kept.
    + destruct n as [|n]; [done|]. by destruct l.
    + eapply Forall_impl; [done|]. intros z Hz. by apply Z.ltb_lt.
  - rewrite last_cons_cons, <- E in Hl. cbn [List.filter]. rewrite (IH n Hl). destruct (Z.ltb_spec (sv_seq x) (sv_seq e)) as [Hlt|]; [exfalso|done].
    rewrite Forall_forall in Hx. assert (e ∈ l) as Hin by (rewrite <- (take_drop n l); apply elem_of_app; left; by apply last_Some_elem_of). specialize (Hx e Hin). unfold later in Hx. lia.
Qed.
Section paging.
Context `{Lowercase} (members : gset string).
Abbreviation matching f log := (List.filter (in_filter members f) (reverse (el_events log))).

Lemma before_narrows b f x : match ef_before_seq f with Some o => (b <= o)%Z | None => True end ->
  in_filter members (before_seq b f) x = in_filter members f x && (sv_seq x <? b)%Z.
Proof.
  intros Hb. unfold in_filter, before_seq. cbn [ef_org ef_subject ef_kinds ef_from_at ef_to_at ef_target_contains ef_before_seq].
  change (in_org_view members (mkFilter (ef_org f) (ef_subject f) (ef_kinds f) (ef_from_at f) (ef_to_at f) (ef_target_contains f) (Some b) (ef_limit f)) x) with (in_org_view members f x).
  destruct (Z.ltb_spec (sv_seq x) b) as [Hlt|]; [|by rewrite !andb_false_r].
  assert (match ef_before_seq f with Some o => (sv_seq x <? o)%Z | None => true end = true) as ->; [|symmetry; apply andb_true_r].
  destruct (ef_before_seq f) as [o|]; [|done]. apply Z.ltb_lt. lia.
Qed.
Lemma filter_twice {A} (p q : A -> bool) l : List.filter q (List.filter p l) = List.filter (fun x => p x && q x) l.
Proof. induction l as [|x l IH]; [done|]. cbn. destruct (p x); cbn; [destruct (q x)|]; by rewrite IH. Qed.
(** The next read's events are what this page left. *)
Lemma next_events f log log' n b : numbered log -> appended log log' -> sv_seq <$> last (take n (matching f log)) = Some b ->
  matching (before_seq b f) log' = drop n (matching f log).
Proof.
  intros Hn Ha Hl. destruct (last _) as [e|] eqn:El; [|done]. injection Hl as <-.
  assert (e ∈ matching f log) as Hin by (rewrite <- (take_drop n (matching f log)); apply elem_of_app; left; by apply last_Some_elem_of).
  apply list_elem_of_In, filter_In in Hin as [Hin Hf]. apply list_elem_of_In in Hin. rewrite elem_of_reverse in Hin. apply list_elem_of_lookup in Hin as [j Hj].
  destruct (appended_spec log log' Hn Ha) as [Hn' [new Enew]].
  rewrite <- (below_last n _ e (sorted_filter _ _ (numbered_sorted log Hn)) El), filter_twice, Enew, reverse_app, filter_app_bool.
  assert (forall x, in_filter members (before_seq (sv_seq e) f) x = in_filter members f x && (sv_seq x <? sv_seq e)%Z) as Hbx.
  { intros x. apply before_narrows. unfold in_filter in Hf. destruct (ef_before_seq f) as [o|]; [|done].
    destruct (Z.ltb_spec (sv_seq e) o); [lia|]. by rewrite andb_false_r, !andb_false_l in Hf. }
  rewrite (filter_nothing _ (reverse new)).
  - cbn [app]. apply filter_ext. intros x. apply Hbx.
  - apply Forall_forall. intros x Hx. rewrite elem_of_reverse in Hx. apply list_elem_of_lookup in Hx as [k Hk]. rewrite Hbx.
    pose proof (Hn j e Hj). apply lookup_lt_Some in Hj. pose proof (Hn' (length (el_events log) + k) x) as Hq.
    rewrite Enew, lookup_app_r, Nat.add_comm, Nat.add_sub in Hq by lia. specialize (Hq Hk). destruct (Z.ltb_spec (sv_seq x) (sv_seq e)); [lia|]. apply andb_false_r.
Qed.
End paging.

Section reading.
Context `{Host, Base64} (policy : StepUpPolicy) (view : SecurityEventFilter -> SecurityEventFilter) (stores : nat -> Shared).

(** [page] answered [r], the store being [stores i]. *)
Definition served_page (f : SecurityEventFilter) (i : nat) (r : SecurityEventsResponse) : Prop :=
  exists tr, runs (page policy f) tr (Some (Ok r)) /\ Forall (fun st => sp_before st = stores i) tr.
(** The query for the page after: the cursor the answer carried. *)
Definition next_query (cursor : string) (q : EventsQuery) : EventsQuery :=
  mkQuery (eq_kind q) (eq_actor q) (eq_target q) (eq_from q) (eq_to q) (Some cursor) None (eq_limit q).
(** From the [i]th request on, a reader asks for page after page, sending back
    each answer's cursor, until an answer carries none: [n] requests, and the
    events they gave. *)
Inductive read_pages (q : EventsQuery) (i : nat) : nat -> list SecurityEvent -> Prop :=
| last_page f r : filter_of q = Ok f -> served_page (view f) i r -> er_next_cursor r = None -> read_pages q i 1 (er_events r)
| another_page f r cursor n rest : filter_of q = Ok f -> served_page (view f) i r -> er_next_cursor r = Some cursor ->
    read_pages (next_query cursor q) (S i) n rest -> read_pages q i (S n) (er_events r ++ rest).
(** What an events handler narrows the query's filter to: an Org's log, one's
    own, or the install's. *)
Definition is_view : Prop := (exists org, view = with_org org) \/ (exists subject, view = about subject) \/ view = id.

Abbreviation matching f log := (List.filter (in_filter (event_members f) f) (reverse (el_events log))).
Definition page_size (f : SecurityEventFilter) : nat := N.to_nat (N.max 1 (ef_limit f)).

Lemma page_served f i r svc : policy_service policy = Some svc ->
  served_page f i r <-> (let m := matching f (sh_events (stores i)) in let n := page_size f in
    let next := if n <? length m then sv_seq <$> last (take n m) else None in r = mkEvents (take n m) (encode_cursor <$> next) next).
Proof.
  intros Hp. cbv zeta. set (m := matching f _). set (n := page_size f).
  assert (list_events (event_members (with_limit (N.max 1 (ef_limit f) + 1) f)) (with_limit (N.max 1 (ef_limit f) + 1) f) (sh_events (stores i)) = take (S n) m) as El.
  { unfold list_events. cbn [with_limit ef_limit]. change (in_filter (event_members (with_limit ?x f)) (with_limit ?x f)) with (in_filter (event_members f) f).
    unfold m, n, page_size. f_equal; lia. }
  assert (page_of n (take (S n) m) = (take n m, if n <? length m then sv_seq <$> last (take n m) else None)) as Ep.
  { unfold page_of. rewrite take_take, Nat.min_l, length_take by lia. f_equal.
    destruct (Nat.ltb_spec n (S n `min` length m)), (Nat.ltb_spec n (length m)); done || lia. }
  set (F := with_limit (N.max 1 (ef_limit f) + 1) f) in *.
  assert (exists k, page policy f = Do (ListEvents F) k
    /\ (forall l, k (Ok l) = Ret (Ok (let '(events, next) := page_of n l in mkEvents events (encode_cursor <$> next) next)))
    /\ (forall e, k (Err e) = Ret (Err (store_err e)))) as (k & Ek & Hok & Herr).
  { eexists. split; [unfold page; rewrite Hp; reflexivity|]. by split. }
  unfold served_page. rewrite Ek. cbn [runs]. split.
  - intros (tr & [[_ ?]|(a & s & s' & tr' & -> & Hd & Hr)] & Hf); [done|]. apply Forall_cons in Hf as [Hs _]. cbn [sp_before] in Hs. subst s.
    destruct Hd as [Hd|(e & -> & _)]; [|rewrite Herr in Hr; destruct Hr as [_ [Hr|Hr]]; by simplify_eq]. injection Hd as -> _.
    rewrite El, Hok, Ep in Hr. destruct Hr as [_ [Hr|Hr]]; by simplify_eq.
  - intros ->. exists [mkStep (ListEvents F) (Ok (take (S n) m)) (stores i) (stores i)]. split; [|by repeat constructor]. right.
    eexists _, _, _, []. split; [reflexivity|]. split; [left; cbn [behaviour reading]; by rewrite El|]. rewrite Hok, Ep. by split; [|left].
Qed.
(** What the base64 the cursors are written in must do with one of them: read
    back as written, hold no space at its ends, and not be empty. *)
Definition cursor_kept (seq : Z) : Prop :=
  let text := to_bytes (CURSOR_PREFIX +:+ pretty seq) in
  b64_encode text <> "" /\ trim (b64_encode text) = b64_encode text /\ b64_decode (b64_encode text) = Some text.
Lemma next_filter q f b : filter_of q = Ok f -> in_i64 b -> cursor_kept b -> filter_of (next_query (encode_cursor b) q) = Ok (before_seq b f).
Proof.
  intros Hf Hb (Hne & Htrim & Hdec). unfold filter_of in *. destruct (before_of q) as [before|]; [|done]. cbn [mbind result_bind] in Hf. injection Hf as <-.
  assert (before_of (next_query (encode_cursor b) q) = Ok (Some b)) as ->; [|done].
  unfold before_of, text_param. cbn [eq_cursor eq_before next_query fmap option_fmap option_map mbind option_bind].
  assert (trim (encode_cursor b) = encode_cursor b) as -> by exact Htrim. apply String.eqb_neq in Hne.
  assert (String.eqb (encode_cursor b) "" = false) as -> by exact Hne. rewrite cursor_roundtrip; [done..|]. cbv zeta. by rewrite Htrim.
Qed.
Lemma view_before f b : is_view -> view (before_seq b f) = before_seq b (view f).
Proof. by intros [[org ->]|[[s ->]| ->]]. Qed.

Lemma reads_matching svc fuel : policy_service policy = Some svc -> is_view ->
  (forall i, appended (sh_events (stores i)) (sh_events (stores (S i)))) ->
  forall i q f, let m := matching (view f) (sh_events (stores i)) in
  filter_of q = Ok f -> numbered (sh_events (stores i)) -> length m <= fuel ->
  (forall e, e ∈ m -> in_i64 (sv_seq e) /\ cursor_kept (sv_seq e)) ->
  (forall n es, read_pages q i n es -> es = m) /\ exists n, n <= Nat.max 1 (length m) /\ read_pages q i n m.
Proof.
  intros Hp Hv Ha. induction fuel as [|fuel IH]; intros i q f m Hf Hn Hl Hc.
  all: pose proof (fun r => page_served (view f) i r svc Hp) as Hpage; cbv zeta in Hpage; fold m in Hpage; set (k := page_size (view f)) in Hpage.
  all: assert (0 < k) as Hk by (unfold k, page_size; lia).
  all: assert (k >= length m -> (forall n es, read_pages q i n es -> es = m) /\ exists n, n <= Nat.max 1 (length m) /\ read_pages q i n m) as Hlast.
  1,3: intros Hge; rewrite (proj2 (Nat.ltb_ge k (length m)) Hge), (take_ge m k) in Hpage by lia; split;
    [intros n es Hr; inversion Hr as [f' r Hf' Hs Hz|f' r c n' rest Hf' Hs Hz]; subst; (assert (f' = f) as -> by congruence); apply Hpage in Hs as ->; [done|discriminate]
    |exists 1; split; [lia|]; apply (last_page q i f (mkEvents m None None)); [done|by apply Hpage|done]].
  { apply Hlast. lia. }
  destruct (Nat.lt_ge_cases k (length m)) as [Hlt|Hge]; [clear Hlast|by apply Hlast].
  rewrite (proj2 (Nat.ltb_lt k (length m)) Hlt) in Hpage.
  destruct (last (take k m)) as [e|] eqn:El; [|apply last_None, (f_equal length) in El; rewrite length_take in El; cbn in El; lia].
  cbn [fmap option_fmap option_map] in Hpage. destruct (Hc e) as [He Hke]; [rewrite <- (take_drop k m); apply elem_of_app; left; by apply last_Some_elem_of|].
  pose proof (next_filter q f (sv_seq e) Hf He Hke) as Hf'.
  assert (matching (view (before_seq (sv_seq e) f)) (sh_events (stores (S i))) = drop k m) as Em.
  { rewrite (view_before _ _ Hv). apply (next_events (event_members (view f)) (view f) (sh_events (stores i)) (sh_events (stores (S i))) k (sv_seq e) Hn (Ha i)). fold m. by rewrite El. }
  destruct (IH (S i) (next_query (encode_cursor (sv_seq e)) q) (before_seq (sv_seq e) f)) as [IH1 (n & Hle & IH2)].
  { done. } { by apply (appended_spec (sh_events (stores i))). } { rewrite Em, length_drop. lia. }
  { rewrite Em. intros x Hx. apply Hc. rewrite <- (take_drop k m). apply elem_of_app. by right. }
  rewrite Em in IH1, IH2, Hle. rewrite length_drop in Hle. split.
  - intros n' es Hr. inversion Hr as [f' r Hf2 Hs Hz|f' r c n'' rest Hf2 Hs Hz Hrest]; subst; (assert (f' = f) as -> by congruence); apply Hpage in Hs as ->; [discriminate|].
    injection Hz as <-. rewrite (IH1 _ _ Hrest). apply take_drop.
  - exists (S n). split; [lia|]. rewrite <- (take_drop k m) at 1.
    apply (another_page q i f (mkEvents (take k m) (Some (encode_cursor (sv_seq e))) (Some (sv_seq e))) (encode_cursor (sv_seq e)));
      [done|by apply Hpage|done|exact IH2].
Qed.

(** C37: Reading the log page by page through [page], each page asked for with
    the cursor the one before was answered with, gives every event that
    matched when the first page was read, once and newest first, whatever was
    appended between the reads, and whichever log is read (an Org's, one's
    own, the install's). The reading ends, in at most one request per event,
    and every reading to the end gives the same. It relies on the base64 crate
    for the cursors' texts alone. *)
Theorem pages_are_the_log svc q f :
  policy_service policy = Some svc -> is_view -> filter_of q = Ok f ->
  (forall i, appended (sh_events (stores i)) (sh_events (stores (S i)))) -> numbered (sh_events (stores 0)) ->
  (forall e, e ∈ el_events (sh_events (stores 0)) -> in_i64 (sv_seq e) /\ cursor_kept (sv_seq e)) ->
  let matched := List.filter (in_filter (event_members (view f)) (view f)) (reverse (el_events (sh_events (stores 0)))) in
  (forall n es, read_pages q 0 n es -> es = matched) /\ exists n, n <= Nat.max 1 (length matched) /\ read_pages q 0 n matched.
Proof.
  intros Hp Hv Hf Ha Hn Hc. apply (reads_matching svc (length (matching (view f) (sh_events (stores 0)))) Hp Hv Ha 0 q f Hf Hn); [done|].
  intros e [He _]%list_elem_of_In%filter_In. apply Hc. apply list_elem_of_In in He. by rewrite elem_of_reverse in He.
Qed.
End reading.

Definition logged_event (kind : string) (at_ : Z) : SecurityEvent := mkEvent 0 kind (Some "acme") at_ kind "amy" "session:cookie" None None None None None None (JObj []).
Definition log_of (kinds : list string) : EventLog := foldl (fun log k => (append_event (logged_event k 1) log).2) (mkEventLog [] false) kinds.
Definition growing_log (i : nat) : EventLog := match i with 0 => log_of ["a"; "b"; "c"; "d"; "e"] | 1 => log_of ["a"; "b"; "c"; "d"; "e"; "f"] | _ => log_of ["a"; "b"; "c"; "d"; "e"; "f"; "g"] end.
Definition two_at_a_time : EventsQuery := mkQuery None None None None None None None (Some 2%N).
Definition reading_policy : StepUpPolicy := Enforce (mkService (mkRp "scarab.example" "https://scarab.example" "Scarab") "" "").
Definition growing_stores (i : nat) : Shared := set_events (growing_log i) empty_stores.
(** Five events, two more appended while they are read. *)
Lemma pages_are_the_log_witness :
  let view := with_org "acme" in
  let first := reverse (drop 3 (el_events (growing_log 0))) in
  @served_page plain_host plain_base64 reading_policy growing_stores (view (mkFilter None None [] None None None None 2)) 0
    (mkEvents first (Some "seq:4") (Some 4%Z))
  /\ exists n es, n <= 5 /\ @read_pages plain_host plain_base64 reading_policy view growing_stores two_at_a_time 0 n es
       /\ map sv_kind es = ["e"; "d"; "c"; "b"; "a"].
Proof.
  cbv zeta. assert (forall i, appended (growing_log i) (growing_log (S i))) as Ha.
  { intros [|[|i]]; [exact (appended_more _ (logged_event "f" 1) _ (appended_none _))|exact (appended_more _ (logged_event "g" 1) _ (appended_none _))|apply appended_none]. }
  assert (numbered (growing_log 0)) as Hn.
  { intros i e Hi. do 5 (destruct i as [|i]; [injection Hi as <-; vm_compute; reflexivity|]). discriminate Hi. }
  split.
  - eapply (@page_served plain_host plain_base64); [reflexivity|]. vm_compute. reflexivity.
  - destruct (@pages_are_the_log plain_host plain_base64 reading_policy (with_org "acme") growing_stores _ two_at_a_time _
      eq_refl (or_introl (ex_intro _ "acme" eq_refl)) eq_refl Ha Hn) as [_ (n & Hle & Hr)].
    + intros e He. apply (proj1 (Forall_forall (fun e => in_i64 (sv_seq e) /\ @cursor_kept plain_base64 (sv_seq e)) (el_events (growing_log 0)))); [|exact He].
      repeat (apply List.Forall_cons; [split; [vm_compute; split; discriminate|split; [vm_compute; discriminate|vm_compute; split; reflexivity]]|]). constructor.
    + eexists n, _. split; [exact Hle|]. split; [exact Hr|]. vm_compute. reflexivity.
Defined.

