(* ===== verification/Standing.v ===== *)
(** * No confirmation outlives its passkey

    Removing a passkey, flagging it as a clone and resetting a member's
    passkeys each revoke what the passkey signed after they change it; storing
    a confirmation re-reads its passkey afterwards and revokes it if it is gone
    (scarab-server/src/step_up/ceremony.rs, admin.rs). Here: any number of
    these requests, interleaved call by call, leave no window or unconsumed
    action confirmation of a passkey that is gone or flagged, once all have
    finished. The hypothesis is that the stores answer; a store that fails
    between the change and the revoke does leave one. *)

From S2P Require Import Prelude Text Values Identity Auth StepUp Refusals Ops Guard Calls Webauthn Confirm GuardRun Ceremony Requests Admin.

(** ** Usable and standing *)

Definition usable_as (k p : string) (x : Passkey) : bool := String.eqb (pk_id x) k && String.eqb (pk_principal x) p && is_usable x.
(** Passkey [k] is enrolled, unflagged, and [p]'s. *)
Definition usable_in (m : gmap string Passkey) (k p : string) : Prop := map_Exists (fun _ x => usable_as k p x = true) m.
Definition usable (s : Shared) (k p : string) : Prop := usable_in (ps_passkeys (sh_passkeys s)) k p.
#[export] Instance usable_dec s k p : Decision (usable s k p).
Proof. unfold usable, usable_in. apply _. Defined.
(** A standing confirmation was signed by [k] for [p]. *)
Definition stands_in (u : StepUpState) (k p : string) : Prop :=
  exists c, c ∈ su_confirmations u /\ is_standing c = true /\ cf_passkey_id c = k /\ cf_principal c = p.
Definition stands (s : Shared) (k p : string) : Prop := stands_in (sh_step_ups s) k p.
(** Passkeys are kept under their ids. *)
Definition keyed (s : Shared) : Prop := forall key x, ps_passkeys (sh_passkeys s) !! key = Some x -> pk_id x = key.

(** ** Calls on stores that answer *)

Definition answers_ok (c : Call) : answer c -> Prop :=
  match c with Append _ => fun a => is_ok a = true | RevokeForPasskey _ => fun a => is_ok a = true | _ => fun _ => True end.
Definition calm_of {A} (b : Behaviour A) : Shared -> A -> Shared -> Prop :=
  match b with
  | Asked => fun s _ s' => s' = s
  | InMemory f => fun s a s' => (a, s') = f s
  | Stored f => fun s a s' => (a, s') = f s
  | Anything => fun _ _ _ => False
  end.
Definition answered `{Host} (c : Call) (s : Shared) (a : answer c) (s' : Shared) : Prop := calm_of (behaviour c) s a s' /\ answers_ok c a.
Definition calmly `{Host} (c : Call) (s : Shared) (a : answer c) (s' : Shared) : Prop := keyed s /\ answered c s a s'.

(** The call makes [k]'s and [p]'s confirmations stand without a usable
    passkey: it stores one, or takes the passkey away. *)
Definition breaks (c : Call) (a : answer c) (s s' : Shared) (k p : string) : Prop :=
  match c return answer c -> Prop with
  | StoreConfirmation cf => fun a => is_ok a = true /\ is_standing cf = true /\ cf_passkey_id cf = k /\ cf_principal cf = p
  | _ => fun _ => False
  end a \/ usable s k p /\ ~ usable s' k p.
(** The call settles them: it revokes them, or finds the passkey usable. *)
Definition closes (c : Call) (s : Shared) (k p : string) : Prop :=
  match c with
  | RevokeForPasskey id => id = k
  | RevokeWindows q => q = p
  | GetByCredential _ => usable s k p
  | _ => False
  end.

Section threads.
Context `{Host}.

(** Whatever happens, [p] will settle them. *)
Fixpoint owes {A} (p : Prog A) (k q : string) : Prop :=
  match p with
  | Ret _ => False
  | Do c f => forall a s s', calmly c s a s' -> closes c s k q \/ owes (f a) k q
  end.
(** Whenever [p] breaks something, it will settle it. *)
Fixpoint good {A} (p : Prog A) : Prop :=
  match p with
  | Ret _ => True
  | Do c f => forall a s s', calmly c s a s' -> good (f a) /\ (forall k q, breaks c a s s' k q -> owes (f a) k q)
  end.

Inductive Thread : Type :=
| thread (A : Type) (p : Prog A).
Arguments thread {A} p.
Definition good_thread (t : Thread) : Prop := match t with thread p => good p end.
Definition owing (t : Thread) (k q : string) : Prop := match t with thread p => owes p k q end.
Definition finished_thread (t : Thread) : Prop := match t with thread (Ret _) => True | _ => False end.
(** Any thread makes its next call. *)
Inductive interleave : list Thread * Shared -> list Thread * Shared -> Prop :=
| interleave_call {A} pre post c (f : answer c -> Prog A) a s s' : answered c s a s' ->
    interleave (pre ++ thread (Do c f) :: post, s) (pre ++ thread (f a) :: post, s').

(** *** What one call changes *)

Lemma stands_same u u' k p : su_confirmations u' = su_confirmations u -> stands_in u' k p -> stands_in u k p.
Proof. unfold stands_in. by intros ->. Qed.
Lemma stands_put c r u u' k p : put_confirmation c u = (r, u') -> stands_in u' k p ->
  stands_in u k p \/ is_ok r = true /\ is_standing c = true /\ cf_passkey_id c = k /\ cf_principal c = p.
Proof.
  unfold put_confirmation. destruct (existsb _ _); intros [= <- <-]; [by left|].
  intros (d & [Hd| ->%list_elem_of_singleton]%elem_of_app & Hr); [left; by exists d|by right].
Qed.
Lemma stands_consumed sh q d now r u u' k p : consume_action sh q d now u = (r, u') -> stands_in u' k p -> stands_in u k p.
Proof.
  unfold consume_action. destruct (min_by _ _) as [pick|]; intros [= <- <-]; [|done].
  intros (c & (c0 & -> & Hc0)%list_elem_of_fmap & Hs & <- & <-). exists c0. destruct (String.eqb (cf_id c0) (cf_id pick)); [|done].
  split_and!; try done. unfold is_standing in *. cbn in Hs. destruct (cf_kind c0); [done| |done]. cbn in Hs. by rewrite bool_decide_eq_false_2 in Hs.
Qed.
Lemma stands_retain f u k p : stands_in (retain_confirmations f u).2 k p ->
  stands_in u k p /\ exists c, f c = true /\ is_standing c = true /\ cf_passkey_id c = k /\ cf_principal c = p.
Proof.
  intros (c & Hc & ? & ? & ?). cbn in Hc. apply list_elem_of_In, filter_In in Hc as [Hc Hf]. split; exists c; split_and!; try done. by apply list_elem_of_In.
Qed.
Lemma stands_revoked_windows q r u u' k p : delete_windows_for q u = (r, u') -> stands_in u' k p -> stands_in u k p /\ q <> p.
Proof.
  intros E Hs. assert (u' = (delete_windows_for q u).2) as -> by by rewrite E. apply stands_retain in Hs as [Hs (c & Hf & Hst & _ & <-)].
  split; [done|]. rewrite Hst, andb_true_r in Hf. intros ->. by rewrite String.eqb_refl in Hf.
Qed.
Lemma stands_revoked_passkey id n u u' k p : delete_for_passkey id u = (Ok n, u') -> stands_in u' k p -> stands_in u k p /\ id <> k.
Proof.
  unfold delete_for_passkey. destruct (su_failing_passkey_revokes u); [done|]. intros [= <- <-] Hs. apply stands_retain in Hs as [Hs (c & Hf & Hst & <- & _)].
  split; [done|]. rewrite Hst, andb_true_r in Hf. intros ->. by rewrite String.eqb_refl in Hf.
Qed.
Lemma raise_confirmations r caps now u o u' : raise_request r caps now u = (o, u') -> su_confirmations u' = su_confirmations u.
Proof. unfold raise_request. repeat case_match; by intros [= <- <-]. Qed.
Lemma begin_confirmations id b c now u o u' : begin_execution id b c now u = (o, u') -> su_confirmations u' = su_confirmations u.
Proof. unfold begin_execution. repeat case_match; by intros [= <- <-]. Qed.
Lemma finish_confirmations id st status m now u o u' : finish_request id st status m now u = (o, u') -> su_confirmations u' = su_confirmations u.
Proof. unfold finish_request. repeat case_match; by intros [= <- <-]. Qed.

(** What stands after a call stood before it, or was stored by it; and a
    revoking call leaves nothing of what it revokes. *)
Lemma calm_stands c s a s' k p : calmly c s a s' -> stands s' k p ->
  match c return answer c -> Prop with
  | StoreConfirmation cf => fun a => stands s k p \/ is_ok a = true /\ is_standing cf = true /\ cf_passkey_id cf = k /\ cf_principal cf = p
  | RevokeForPasskey id => fun _ => stands s k p /\ id <> k
  | RevokeWindows q => fun _ => stands s k p /\ q <> p
  | _ => fun _ => stands s k p
  end a.
Proof.
  intros (_ & Hd & Hok) Hs. revert Hd Hok Hs. destruct c; cbn [behaviour calm_of reading on_passkeys on_step_ups on_step_ups_fallible answers_ok]; intros Hd Hok Hs;
    try (by subst s'); try (by injection Hd as -> ->); try done;
    repeat match type of Hd with context [let '(_, _) := ?x in _] => destruct x eqn:?E end; injection Hd as -> ->; try exact Hs.
  - by eapply stands_put.
  - by eapply stands_consumed.
  - by eapply stands_revoked_windows.
  - destruct r as [n|]; [|done]. by eapply stands_revoked_passkey.
  - eapply stands_same; [by eapply raise_confirmations|exact Hs].
  - eapply stands_same; [by eapply begin_confirmations|exact Hs].
  - eapply stands_same; [by eapply finish_confirmations|exact Hs].
Qed.

(** *** Passkeys *)

Lemma insert_passkey_some x st r st' : insert_passkey x st = (r, st') ->
  ps_passkeys st' = ps_passkeys st \/ ps_passkeys st !! pk_id x = None /\ ps_passkeys st' = <[pk_id x := x]> (ps_passkeys st).
Proof.
  unfold insert_passkey. destruct (bool_decide _) eqn:E; cbn [orb]; [intros [= <- <-]; by left|]. destruct (existsb _ _); intros [= <- <-]; [by left|right].
  apply bool_decide_eq_false in E. split; [|done]. by destruct (_ !! _); [destruct E|].
Qed.
Lemma usable_insert m x key k p : m !! key = None -> usable_in m k p -> usable_in (<[key := x]> m) k p.
Proof. intros Hn (key' & y & Hy & Hu). exists key', y. split; [|done]. rewrite lookup_insert_ne; [done|congruence]. Qed.
Lemma steady_usable c s a s' k p : steady c -> calmly c s a s' -> usable s k p -> usable s' k p.
Proof.
  intros Hst (_ & Hd & _) Hu. revert Hst Hd Hu. unfold usable.
  destruct c; cbn [behaviour calm_of reading on_passkeys on_step_ups on_step_ups_fallible steady]; intros Hst Hd Hu; try done;
    try (by subst s'); try (by injection Hd as -> ->);
    repeat match type of Hd with context [let '(_, _) := ?x in _] => destruct x eqn:?E end; injection Hd as -> ->; cbn [sh_passkeys set_passkeys set_challenges set_step_ups set_events set_limiter] in *; try exact Hu.
  - unfold user_handle in E. destruct (_ !! _); by injection E as <- <-.
  - apply insert_passkey_some in E as [->|[Hn ->]]; [done|]. by apply usable_insert.
Qed.
Definition same_ids (m m' : gmap string Passkey) : Prop := (forall key x, m !! key = Some x -> pk_id x = key) -> forall key x, m' !! key = Some x -> pk_id x = key.
Lemma ids_alter f m id x : (forall y, pk_id (f y) = pk_id y) -> m !! id = Some x -> same_ids m (<[id := f x]> m).
Proof.
  intros Hf Hx Hm key y Hy. destruct (decide (key = id)) as [->|Hne]; [|rewrite lookup_insert_ne in Hy by done; by apply Hm].
  rewrite lookup_insert_eq in Hy. injection Hy as <-. rewrite Hf. by apply Hm.
Qed.
Lemma calm_keyed c s a s' : calmly c s a s' -> keyed s'.
Proof.
  intros (Hk & Hd & _). revert Hd. change (keyed s) with (forall key x, ps_passkeys (sh_passkeys s) !! key = Some x -> pk_id x = key) in Hk. unfold keyed.
  destruct c; cbn [behaviour calm_of reading on_passkeys on_step_ups on_step_ups_fallible]; intros Hd; try done;
    try (by subst s'); try (by injection Hd as -> ->);
    repeat match type of Hd with context [let '(_, _) := ?x in _] => destruct x eqn:?E end; injection Hd as -> ->; cbn [sh_passkeys set_passkeys set_challenges set_step_ups set_events set_limiter] in *; try exact Hk.
  - unfold user_handle in E. destruct (_ !! _); by injection E as <- <-.
  - apply insert_passkey_some in E as [->|[Hn ->]]; [done|]. intros key x. destruct (decide (key = pk_id p)) as [->|Hne]; [rewrite lookup_insert_eq|rewrite lookup_insert_ne by done; apply Hk].
    by intros [= <-].
  - unfold record_use in E. destruct (_ !! id) as [x|] eqn:Ex; [|by injection E as <- <-].
    destruct (accepts_count _ _ _); injection E as <- <-; [apply (ids_alter (used new_count backup_state now_ms))|apply (ids_alter (flagged now_ms))]; done.
  - unfold mark_clone in E. destruct (_ !! id) as [x|] eqn:Ex; [|by injection E as <- <-]. injection E as <- <-. by apply (ids_alter (flagged now_ms)).
  - unfold remove_passkey in E. destruct (_ !! id) as [x|]; [|by injection E as <- <-]. destruct (String.eqb _ _); injection E as <- <-; [|done].
    intros key y Hy. cbn in Hy. apply lookup_delete_Some in Hy as [_ Hy]. by apply Hk.
  - unfold remove_all in E. injection E as <- <-. intros key y Hy. cbn in Hy. apply map_lookup_filter_Some in Hy as [Hy _]. by apply Hk.
Qed.

(** *** Programs that keep their word *)

Lemma owes_bind {A B} (p : Prog A) (f : A -> Prog B) k q : owes p k q -> owes (p ≫= f) k q.
Proof. induction p as [a|c g IH]; [done|]. intros Ho a s s' Hc. destruct (Ho a s s' Hc) as [|Hr]; [by left|right; by apply IH]. Qed.
Lemma good_mbind {A B} (p : Prog A) (f : A -> Prog B) : good p -> (forall a, good (f a)) -> good (p ≫= f).
Proof.
  intros Hp Hf. induction p as [a|c g IH]; [apply Hf|]. intros a s s' Hc. destruct (Hp a s s' Hc) as [Hg Hb]. split; [by apply IH|].
  intros k q Hk. by apply (owes_bind (g a) f), Hb.
Qed.
Lemma good_ret {A} (a : A) : good (mret a).
Proof. done. Qed.
Lemma good_steady {A} (p : Prog A) : makes steady p -> good p.
Proof.
  induction p as [a|c f IH]; [done|]. intros [Hc Hf] a s s' Hd. split; [by apply IH|]. intros k q Hb. exfalso.
  pose proof (steady_usable c s a s' k q Hc Hd) as Hu. destruct Hb as [Hb|[H1 H2]]; [by destruct c|]. by apply H2, Hu.
Qed.
Lemma good_act_bind {A B} (m : Act A) (f : A -> Act B) : good m -> (forall a, good (f a)) -> good (act_bind m f).
Proof. intros Hm Hf. apply good_mbind; [done|]. intros [a|e]; [apply Hf|done]. Qed.
Lemma owes_act_bind {A B} (m : Act A) (f : A -> Act B) k q : owes m k q -> owes (act_bind m f) k q.
Proof. apply owes_bind. Qed.

(** *** The invariant of interleaved threads *)

Record settled (ts : list Thread) (s : Shared) : Prop := {
  settled_keyed : keyed s;
  settled_good : Forall good_thread ts;
  settled_owed : forall k p, stands s k p -> usable s k p \/ exists t, t ∈ ts /\ owing t k p;
}.
Lemma interleave_settled ts s ts' s' : interleave (ts, s) (ts', s') -> settled ts s -> settled ts' s'.
Proof.
  inversion 1 as [A pre post c f a s1 s2 Hans]; subst. intros [Hkey Hg Ho]. assert (calmly c s a s') as Hc by done. apply Forall_app in Hg as [Hpre [Ht Hpost]%Forall_cons]. destruct (Ht a s s' Hc) as [Ht' Hb].
  split; [by eapply calm_keyed|apply Forall_app; split; [done|]; by apply Forall_cons|].
  intros k p Hs. pose proof (calm_stands c s a s' k p Hc Hs) as Hst. destruct (decide (usable s' k p)) as [|Hn]; [by left|right].
  assert (owes (f a) k p -> exists t, t ∈ pre ++ thread (f a) :: post /\ owing t k p) as Hf.
  { intros Hof. exists (thread (f a)). split; [apply elem_of_app; right; by left|done]. }
  assert (stands s k p -> exists t, t ∈ pre ++ thread (f a) :: post /\ owing t k p) as Hold.
  { intros Hs0. destruct (Ho k p Hs0) as [Hu|(t & Hin & Hot)].
    - apply Hf, Hb. by right.
    - apply elem_of_app in Hin as [Hin|[->|Hin]%elem_of_cons]; [exists t; split; [apply elem_of_app; by left|done]| |exists t; split; [apply elem_of_app; right; by right|done]].
      destruct (Hot a s s' Hc) as [Hcl|?]; [|by apply Hf]. exfalso.
      destruct c; try done; [|by destruct Hst as [_ []]..]. destruct Hc as (_ & Hd & _). cbn in Hd. by injection Hd as -> ->. }
  destruct c; try (by apply Hold); [|by apply Hold; destruct Hst..].
  destruct Hst as [Hs0|Hst]; [by apply Hold|]. by apply Hf, Hb; left.
Qed.

(** *** What breaks, and for whom *)

Lemma broken_at m m' id k p : (forall key x, m !! key = Some x -> pk_id x = key) -> (forall key, key <> id -> m' !! key = m !! key) ->
  usable_in m k p -> ~ usable_in m' k p -> k = id.
Proof.
  intros Hm Hs (key & x & Hx & Hu) Hn. destruct (decide (key = id)) as [->|Hne].
  - apply Hm in Hx as <-. unfold usable_as in Hu. by apply andb_true_iff in Hu as [[Hu%String.eqb_eq _]%andb_true_iff _].
  - destruct Hn. exists key, x. by rewrite Hs.
Qed.
Lemma set_passkey_ne x id st key : key <> id -> ps_passkeys (set_passkey x id st) !! key = ps_passkeys st !! key.
Proof. intros Hne. unfold set_passkey. cbn [ps_passkeys]. by rewrite lookup_insert_ne. Qed.
Lemma mark_breaks id now s a s' k p : calmly (MarkClone id now) s a s' -> breaks (MarkClone id now) a s s' k p -> k = id.
Proof.
  intros (Hk & Hd & _) [[]|[Hu Hn]]. cbn in Hd. destruct (mark_clone _ _ _) as [b st] eqn:E. injection Hd as -> ->. apply (broken_at _ _ id k p Hk) in Hn; [done| |done].
  intros key Hne. cbn [sh_passkeys set_passkeys]. unfold mark_clone in E. destruct (_ !! id); injection E as <- <-; [by apply set_passkey_ne|done].
Qed.
Lemma record_breaks id rc nc bs now s a s' k p : calmly (RecordUse id rc nc bs now) s a s' -> breaks (RecordUse id rc nc bs now) a s s' k p ->
  k = id /\ a = Ok StepUp.CloneSuspected.
Proof.
  intros (Hk & Hd & _) [[]|[Hu Hn]]. cbn in Hd. destruct (record_use _ _ _ _ _ _) as [r st] eqn:E. injection Hd as -> ->. change (~ usable_in (ps_passkeys st) k p) in Hn. unfold record_use in E.
  destruct (ps_passkeys (sh_passkeys s) !! id) as [x|] eqn:Ex; [|by injection E as <- <-]. destruct (accepts_count _ _ _); injection E as <- <-.
  - destruct Hn. destruct Hu as (key & y & Hy & Hu). destruct (decide (key = id)) as [->|Hne]; [|exists key, y; by rewrite set_passkey_ne].
    exists id, (used nc bs now x). split; [apply lookup_insert_eq|]. rewrite Ex in Hy. by injection Hy as <-.
  - split; [|done]. apply (broken_at _ _ id k p Hk) in Hn; [done| |done]. intros key Hne. by apply set_passkey_ne.
Qed.
Lemma remove_breaks q id s a s' k p : calmly (RemovePasskey q id) s a s' -> breaks (RemovePasskey q id) a s s' k p -> k = id /\ a = Ok true.
Proof.
  intros (Hk & Hd & _) [[]|[Hu Hn]]. cbn in Hd. destruct (remove_passkey _ _ _) as [b st] eqn:E. injection Hd as -> ->. change (~ usable_in (ps_passkeys st) k p) in Hn. unfold remove_passkey in E.
  destruct (ps_passkeys (sh_passkeys s) !! id) as [x|]; [|by injection E as <- <-]. destruct (String.eqb _ _); injection E as <- <-; [|done].
  split; [|done]. apply (broken_at _ _ id k p Hk) in Hn; [done| |done]. intros key Hne. cbn [ps_passkeys]. by rewrite lookup_delete_ne.
Qed.
Lemma remove_all_breaks q s a s' k p : calmly (RemoveAll q) s a s' -> breaks (RemoveAll q) a s s' k p -> p = q.
Proof.
  intros (Hk & Hd & _) [[]|[Hu Hn]]. cbn in Hd. unfold remove_all in Hd. injection Hd as -> ->. destruct (decide (p = q)) as [|Hne]; [done|]. destruct Hn.
  destruct Hu as (key & y & Hy & Hu). exists key, y. split; [|done]. cbn. apply map_lookup_filter_Some. split; [done|]. cbn. intros Hq.
  unfold usable_as in Hu. apply andb_true_iff in Hu as [[_ Hp%String.eqb_eq]%andb_true_iff _]. congruence.
Qed.
Lemma store_breaks cf s a s' k p : calmly (StoreConfirmation cf) s a s' -> breaks (StoreConfirmation cf) a s s' k p -> a = Ok tt /\ cf_passkey_id cf = k /\ cf_principal cf = p.
Proof.
  intros (_ & Hd & _) [(Ha & _ & Hk & Hp)|[Hu Hn]]; [destruct a as [[]|]; done|]. destruct Hn. cbn in Hd. destruct (put_confirmation _ _). by injection Hd as -> ->.
Qed.
Lemma owes_revoke id q : owes (call (RevokeForPasskey id)) id q.
Proof. intros a s s' _. by left. Qed.
Lemma owes_revoke_windows k q : owes (call (RevokeWindows q)) k q.
Proof. intros a s s' _. by left. Qed.
Lemma owes_stored {A} (m : Prog (Result IdentityError A)) k q : owes m k q -> owes (stored m) k q.
Proof. apply owes_bind. Qed.
(** A breaking call and what is owed for it. *)
Lemma good_call_then {A} c (f : answer c -> Prog A) :
  (forall a, good (f a)) -> (forall a s s' k q, calmly c s a s' -> breaks c a s s' k q -> owes (f a) k q) -> good (call c ≫= f).
Proof. intros Hg Hb a s s' Hc. split; [apply Hg|]. intros k q. by apply Hb. Qed.
End threads.
Arguments thread {A} p.
#[export] Hint Resolve owes_revoke owes_revoke_windows : calls.

(** ** The handlers keep their word *)

#[export] Hint Extern 1 (good (mbind _ _)) => (apply good_mbind; [|intros ?]) : calls.
#[export] Hint Extern 1 (good (act_bind _ _)) => (apply good_act_bind; [|intros ?]) : calls.
#[export] Hint Extern 2 (good (match ?x with _ => _ end)) => destruct x : calls.
#[export] Hint Resolve good_ret : calls.
#[export] Hint Extern 4 (good _) => (apply good_steady; solve [auto 12 with calls]) : calls.

(** Past a call that breaks nothing. *)
Ltac past := refine (good_act_bind _ _ _ _) || refine (good_mbind _ _ _ _); [solve [auto 12 with calls]|].

Section handlers.
Context `{Host, Sha256, Sealer, Hmac, SealedCodec, Base64, Minicbor, Ring, ClientDataParser, CredentialParser}.

(** *** Storing a confirmation *)

Lemma found_usable k p st cid x : get_by_credential cid st = Some x -> usable_as k p x = true -> usable_in (ps_passkeys st) k p.
Proof.
  unfold get_by_credential, passkeys. intros [Hin _]%find_some Hu. apply in_map_iff in Hin as ([key y] & <- & Hin). apply list_elem_of_In, elem_of_btree_list in Hin.
  by exists key, y.
Qed.
Lemma still_usable_spec c k st cid : cf_passkey_id c = pk_id k -> still_usable c k (get_by_credential cid st) = true ->
  usable_in (ps_passkeys st) (cf_passkey_id c) (cf_principal c).
Proof.
  intros Hk. destruct (get_by_credential cid st) as [x|] eqn:E; [|done]. cbn [still_usable]. rewrite <- Hk. by eapply found_usable.
Qed.
Lemma owes_check c k (f : bool -> Act unit) : cf_passkey_id c = pk_id k -> (forall k' q, k' = pk_id k -> owes (f false) k' q) ->
  owes (act_bind (stored (call (GetByCredential (pk_credential_id k)))) (fun found => f (still_usable c k found))) (cf_passkey_id c) (cf_principal c).
Proof.
  intros Hk Hf a s s' (_ & Hd & _). injection Hd as -> ->. cbn. destruct (still_usable c k _) eqn:E; [left|right; by apply Hf].
  by apply still_usable_spec in E.
Qed.
Lemma owes_call {A} c (f : answer c -> Prog A) k q : (forall a s s', calmly c s a s' -> closes c s k q \/ owes (f a) k q) -> owes (call c ≫= f) k q.
Proof. done. Qed.
Lemma owes_revoke_first {A} id (f : N -> Act A) q : owes (act_bind (stored (call (RevokeForPasskey id))) f) id q.
Proof. apply owes_act_bind, owes_stored, owes_revoke. Qed.
Lemma good_stored {A} (m : Prog (Result IdentityError A)) : good m -> good (stored m).
Proof. intros Hm. apply good_mbind; [done|]. by intros []. Qed.
Lemma good_put_while_usable c k : cf_passkey_id c = pk_id k -> good (put_confirmation_while_usable c k).
Proof.
  intros Hk. unfold put_confirmation_while_usable. intros a s s' Hc. split.
  - destruct a as [u|e]; [|done]. apply good_act_bind; [by apply good_steady|]. intros found. destruct (still_usable c k found); [done|].
    apply good_act_bind; [by apply good_steady|done].
  - intros k' p' Hb. destruct (store_breaks c s a s' k' p' Hc Hb) as (-> & <- & <-).
    apply (owes_check c k (fun b : bool => if b then done tt else act_bind (stored (call (RevokeForPasskey (pk_id k)))) (fun _ => refused passkey_unusable))); [done|].
    intros k' q ->. apply owes_revoke_first.
Qed.
#[local] Hint Resolve good_stored : calls.

(** *** The ceremonies *)

Lemma good_append {A} e (f : Result IdentityError Z -> Prog A) : (forall z, good (f (Ok z))) -> good (call (Append e) ≫= f).
Proof.
  intros Hf a s s' Hc. assert (exists z, a = Ok z) as [z ->] by (destruct Hc as (_ & _ & Ha); cbn in Ha; destruct a; [eauto|done]).
  split; [apply Hf|]. intros k q [[]|[Hu []]]. by eapply (steady_usable (Append e)).
Qed.
Section requests.
Context (replay : option ReplayAuthority) (policy : StepUpPolicy).

Lemma good_revoke_clone {A} k c facts pr n : good (revoke_clone replay (A:=A) k c facts pr n).
Proof. unfold revoke_clone. apply good_steady. quiet_call. Qed.
#[local] Hint Resolve good_revoke_clone : calls.
Lemma good_accept_count k ok c facts n : good (accept_count replay k ok c facts n).
Proof.
  unfold accept_count. apply good_mbind; [apply good_steady; destruct (ao_counter_regressed ok); quiet_call|]. intros _ a s s' Hc. split.
  - destruct a as [[]|]; [done|apply good_revoke_clone|done|done].
  - intros k' q Hb. destruct (record_breaks _ _ _ _ _ _ _ _ _ _ Hc Hb) as [-> ->]. apply owes_revoke_first.
Qed.
#[local] Hint Resolve good_accept_count : calls.
Lemma good_verify_with svc c facts sent resp k n : good (verify_with replay svc c facts sent resp k n).
Proof.
  unfold verify_with. destruct (negb _); [apply good_steady; quiet_call|]. destruct (alg_from_id _); [|done]. apply good_act_bind; [auto with calls|]. intros handle.
  destruct (Webauthn.verify_assertion _ _ _ _ _) as [ok|e]; [auto with calls|]. destruct e; try done. intros a s s' Hc. split; [destruct a; [apply good_revoke_clone|done]|].
  intros k' q Hb. pose proof (mark_breaks _ _ _ _ _ _ _ Hc Hb) as ->. destruct a as [b|e]; [apply owes_revoke_first|].
  destruct Hc as (_ & Hd & _). cbn in Hd. by destruct (mark_clone _ _ _).
Qed.
#[local] Hint Resolve good_verify_with : calls.
Lemma good_verify_assertion svc c facts sent cred n : good (verify_assertion replay svc c facts sent cred n).
Proof.
  unfold verify_assertion, verify_assertion_once. apply good_mbind; [|intros r; apply good_steady; quiet_call].
  destruct (parse_authentication_response cred) as [resp|]; [|done]. destruct (b64_decode _); [|done]. apply good_act_bind; [auto with calls|]. intros [k|]; [|done].
  destruct (String.eqb _ _); [auto with calls|done].
Qed.
#[local] Hint Resolve good_verify_assertion good_put_while_usable : calls.

Lemma good_step_up_confirm h req : good (step_up_confirm replay policy h req).
Proof.
  unfold step_up_confirm. past. intros svc. past. intros [caller facts].
  past. intros now. past. intros [row sent].
  past. intros k.
  past. intros id. past. intros ev. apply good_append. intros z.
  apply good_act_bind; [by apply good_put_while_usable|done].
Qed.
Lemma good_registration h req : good (passkey_registration replay policy h req).
Proof.
  unfold passkey_registration. past. intros svc. past. intros [caller facts].
  past. intros now. past. intros [row sent].
  destruct (parse_registration_response _) as [resp|]; [|done]. past. intros cred.
  past. intros known. destruct (bool_decide _); [done|].
  past. intros usable. past. intros id. past. intros ins.
  past. intros []. past. intros ev. by apply good_append.
Qed.
Lemma good_remove confirmation h id : good (remove_passkey_h replay policy confirmation h id).
Proof.
  unfold remove_passkey_h. past. intros svc. apply good_mbind; [apply good_steady; unfold authenticate_now; quiet_call|]. intros au.
  apply good_act_bind; [apply good_steady; unfold lift_api; quiet_call|]. intros caller. past. intros owned. destruct (negb _); [done|].
  past. intros revoked. intros a s s' Hc. split.
  - destruct a as [[]|]; [|done..]. cbn [negb]. apply (good_mbind (call (RevokeForPasskey id))); [auto with calls|]. intros late. apply good_steady. quiet_call.
  - intros k q Hb. destruct (remove_breaks _ _ _ _ _ _ _ Hc Hb) as [-> ->]. apply (owes_bind (call (RevokeForPasskey id))), owes_revoke.
Qed.
Lemma good_reset confirmation h org subject : good (reset_member_passkeys replay policy confirmation h org subject).
Proof.
  unfold reset_member_passkeys. past. intros svc. past. intros au.
  past. intros caller. past. intros role. destruct (negb _); [done|].
  past. intros sub. past. intros u. intros a s s' Hc. split.
  - destruct a as [n|]; [|done]. past. intros revoked. apply good_steady. quiet_call.
  - intros k q Hb. pose proof (remove_all_breaks _ _ _ _ _ _ Hc Hb) as ->. destruct a as [n|e]; [apply owes_act_bind, owes_stored, owes_revoke_windows|].
    destruct Hc as (_ & Hd & _). discriminate Hd.
Qed.
Lemma good_cmd_bind {A B} (m : Prog (Result string A)) (f : A -> Prog (Result string B)) : good m -> (forall a, good (f a)) -> good (cmd_bind m f).
Proof. intros Hm Hf. apply good_mbind; [done|]. intros [a|e]; [apply Hf|done]. Qed.
Lemma good_break_glass version found principal reason operator now : good (reset_passkeys replay version found principal reason operator now).
Proof.
  unfold reset_passkeys. refine (good_cmd_bind _ _ _ _); [done|]. intros []. refine (good_cmd_bind _ _ _ _); [done|]. intros subject.
  refine (good_cmd_bind _ _ _ _); [apply good_steady; quiet_call|]. intros held. past. intros ev. refine (good_cmd_bind _ _ _ _); [apply good_steady; quiet_call|]. intros logged.
  intros a s s' Hc. split.
  - destruct a as [n|]; [|done]. apply good_steady. split; [done|by intros []].
  - intros k q Hb. pose proof (remove_all_breaks _ _ _ _ _ _ Hc Hb) as ->. destruct a as [n|e]; [intros r t t' _; by left|].
    destruct Hc as (_ & Hd & _). discriminate Hd.
Qed.
End requests.
End handlers.

(** ** Any interleaving of them *)

Section requests.
Context `{Host, Sha256, Sealer, Hmac, SealedCodec, Base64, Minicbor, Ring, ClientDataParser, CredentialParser}.

(** The requests that read, make or end confirmations and passkeys, each as a
    thread; the last two are the guard's check of another request, and the
    operator's command. *)
Inductive served : Thread -> Prop :=
| serve_me replay policy h : served (thread (me_security replay policy h))
| serve_registration_options replay policy ctx h l : served (thread (passkey_registration_options replay policy ctx h l))
| serve_registration replay policy h req : served (thread (passkey_registration replay policy h req))
| serve_removal replay policy confirmation h id : served (thread (remove_passkey_h replay policy confirmation h id))
| serve_options replay policy h : served (thread (step_up_options replay policy h))
| serve_confirm replay policy h req : served (thread (step_up_confirm replay policy h req))
| serve_reset replay policy confirmation h org subject : served (thread (reset_member_passkeys replay policy confirmation h org subject))
| serve_get_request replay policy h id : served (thread (get_request_h replay policy h id))
| serve_request_options replay policy h id : served (thread (request_options_h replay policy h id))
| serve_authorise replay o p s : served (thread (authorise replay o p s))
| serve_break_glass replay version found principal reason operator now : served (thread (reset_passkeys replay version found principal reason operator now)).
Lemma served_good t : served t -> good_thread t.
Proof.
  intros []; cbn [good_thread]; auto using good_registration, good_remove, good_step_up_confirm, good_reset, good_break_glass;
    apply good_steady; auto with calls.
Qed.
Lemma rtc_settled c c' : rtc interleave c c' -> settled c.1 c.2 -> settled c'.1 c'.2.
Proof. induction 1 as [|[ts s] [ts1 s1] c2 Hs _ IH]; [done|]. intros Hi. apply IH. by eapply interleave_settled. Qed.
Lemma finished_owes t k p : finished_thread t -> owing t k p -> False.
Proof. destruct t as [A [a|c f]]; by cbn. Qed.

(** C7: no confirmation outlives its passkey. Let any number of requests
    (enrolments, removals, resets by an Owner or the operator, step-ups,
    authorisations) run on stores that answer, their calls interleaved in any
    order, from stores where every window and unconsumed action confirmation
    is of a usable passkey of its Principal. Once all have finished, it is so
    again: none was left by a removal, a reset or a suspected clone that
    raced with the request that stored it. *)
Theorem no_confirmation_outlives_its_passkey ts s ts' s' :
  Forall served ts -> keyed s -> (forall k p, stands s k p -> usable s k p) ->
  rtc interleave (ts, s) (ts', s') -> Forall finished_thread ts' ->
  forall k p, stands s' k p -> usable s' k p.
Proof.
  intros Hts Hk Hs Hr Hf k p Hst. apply rtc_settled in Hr as [_ _ Ho].
  - destruct (Ho k p Hst) as [|(t & Hin & Hot)]; [done|]. rewrite Forall_forall in Hf. by destruct (finished_owes t k p (Hf t Hin)).
  - split; [done|eapply Forall_impl; [done|apply served_good]|]. intros k' p' Hst'. left. by apply Hs.
Qed.
End requests.

(** ** A race, for the witness *)

Section scheduler.
Context `{Host} (env : nat -> Turn) (calm : forall n, tn_fault (env n) = None).
Definition callable (c : Call) : bool := match c with RunHandler _ _ | RunRouter _ _ _ _ => false | _ => true end.
Definition ok_answer (c : Call) : answer c -> bool :=
  match c with Append _ => fun a => is_ok a | RevokeForPasskey _ => fun a => is_ok a | _ => fun _ => true end.
(** The thread's next call, on stores that answer. *)
Definition next_call (n : nat) (t : Thread) (s : Shared) : option (Thread * Shared) :=
  match t with
  | thread (Do c f) =>
      let '(a, s') := perform (env n) (behaviour c) (tn_answers (env n) c) s in
      if callable c && ok_answer c a then Some (thread (f a), s') else None
  | _ => None
  end.
(** The threads in turn, by their positions. *)
Fixpoint schedule (n : nat) (order : list nat) (ts : list Thread) (s : Shared) : option (list Thread * Shared) :=
  match order with
  | [] => Some (ts, s)
  | i :: order => t ← ts !! i; '(t, s) ← next_call n t s; schedule (S n) order (<[i := t]> ts) s
  end.
Lemma next_call_interleaves n pre post t s t' s' : next_call n t s = Some (t', s') -> interleave (pre ++ t :: post, s) (pre ++ t' :: post, s').
Proof using calm.
  destruct t as [A [a|c f]]; cbn [next_call]; [done|]. pose proof (perform_allowed (env n) (behaviour c) (tn_answers (env n) c) s) as Hp.
  destruct (perform _ _ _ _) as [a s1] eqn:E. destruct (callable c) eqn:Hc; [|done]. destruct (ok_answer c a) eqn:Ho; [|done]. intros [= <- <-].
  apply interleave_call. split; [|by destruct c].
  assert (forall T (b : Behaviour T) asked x y, match b with Anything => False | _ => True end -> perform (env n) b asked s = (x, y) -> calm_of b s x y) as Hg.
  { intros T b asked x y. destruct b; cbn; rewrite ?calm; try done; by intros _ [= <- <-]. }
  eapply Hg; [|exact E]. by destruct c.
Qed.
Lemma schedule_interleaves n order ts s ts' s' : schedule n order ts s = Some (ts', s') -> rtc interleave (ts, s) (ts', s').
Proof using calm.
  revert n ts s; induction order as [|i order IH]; intros n ts s; cbn [schedule]; [by intros [= <- <-]|].
  destruct (ts !! i) as [t|] eqn:Ei; [|done]. cbn. destruct (next_call n t s) as [[t1 s1]|] eqn:En; [|done]. intros Hs%IH.
  eapply rtc_l; [|exact Hs]. rewrite <- (take_drop_middle ts i t Ei) at 1. rewrite insert_take_drop by (by eapply lookup_lt_Some). by eapply next_call_interleaves.
Qed.
End scheduler.

(** Amy steps up with a passkey while she removes it. *)
Definition window_challenge : WebauthnChallenge :=
  mkChallenge "ch1" "amy" amys_hash PurposeWindow "0123456789abcdef0123456789abcdef" None None None None 20 1000 None.
Definition racing_stores : Shared := mkShared (mkPasskeys {["k1" := amys_key1]} ∅) {["ch1" := window_challenge]} no_step_ups (mkEventLog [] false) new_limiter.
Definition racing_threads : list Thread :=
  [thread (@step_up_confirm padded_digests plain_base64 plain_cbor echo_ring barred_client_data (reads_key1 window_challenge) None (Enforce some_service) amys_cookie
             (mkConfirmRequest "ch1" (JObj [])));
   thread (@remove_passkey_h padded_digests None (Enforce some_service) None amys_cookie "k1")].
Definition race (order : list nat) : option (list Thread * Shared) := @schedule plain_host confirming_env 0 order racing_threads racing_stores.
(** The removal finishes just before the confirmation is stored. *)
Definition removed_first : list nat := List.repeat 0 8 ++ List.repeat 1 8 ++ [0].
Lemma no_confirmation_outlives_its_passkey_witness :
  ((fun p => length (su_confirmations (sh_step_ups p.2))) <$> race removed_first) = Some 1 /\
  exists ts s, race (removed_first ++ [0; 0]) = Some (ts, s) /\ (forall k p, stands s k p -> usable s k p).
Proof.
  split; [vm_compute; reflexivity|].
  assert (is_Some (race (removed_first ++ [0; 0]))) as [[ts s] E] by (vm_compute; eauto). exists ts, s. split; [exact E|].
  assert (from_option (fun q => Forall finished_thread q.1) False (race (removed_first ++ [0; 0]))) as Hf by (vm_compute; repeat constructor).
  rewrite E in Hf. cbn in Hf.
  eapply (@no_confirmation_outlives_its_passkey plain_host padded_digests plain_sealer plain_hmac bare_codec plain_base64 plain_cbor echo_ring barred_client_data
            (reads_key1 window_challenge) racing_threads racing_stores ts s).
  - unfold racing_threads. repeat constructor.
  - intros key x. unfold racing_stores. cbn. intros Hx. apply lookup_singleton_Some in Hx as [<- <-]. reflexivity.
  - intros k p (c & Hc & _). cbn in Hc. inversion Hc.
  - eapply (@schedule_interleaves plain_host confirming_env); [reflexivity|exact E].
  - exact Hf.
Defined.

(** ** When the revoke fails

    A passkey whose counter went backwards is flagged, and then the store
    refuses to revoke: the window it signed still stands, and the next use of
    the passkey is refused before it revokes anything. *)
Definition stale_key1 : Passkey :=
  mkPasskey "k1" "amy" "key1" (of_bytes some_passkey_cose) (-7) 9 "laptop" [] None false false 1 amys_hash None None (Some "0123456789abcdef0123456789abcdef").
Definition key1_window : StepUpConfirmation := mkConfirmation "w1" "amy" amys_hash "k1" KindWindow None None 5 (5 + STEP_UP_WINDOW_MS) None.
Definition stale_stores : Shared :=
  mkShared (mkPasskeys {["k1" := stale_key1]} ∅) {["ch1" := window_challenge]} (mkStepUp [key1_window] ∅ true) (mkEventLog [] false) new_limiter.
Definition stale_use (s : Shared) : list Step * Result StepUpError StepUpConfirmResponse * Shared :=
  @run plain_host _ confirming_env 0
    (@step_up_confirm padded_digests plain_base64 plain_cbor echo_ring barred_client_data (reads_key1 window_challenge) None (Enforce some_service) amys_cookie
       (mkConfirmRequest "ch1" (JObj []))) s.
Definition revoking (st : Step) : bool := match sp_call st with RevokeForPasskey _ => true | _ => false end.
Example failed_revoke_leaves_window :
  let s1 := (stale_use stale_stores).2 in
  let again := stale_use (set_challenges {["ch1" := window_challenge]} s1) in
  ~ usable s1 "k1" "amy" /\ stands s1 "k1" "amy" /\ existsb revoking again.1.1 = false /\ stands again.2 "k1" "amy".
Proof.
  cbv zeta. split; [|split; [|split; [by vm_compute|]]].
  - apply (bool_decide_unpack (~ usable (stale_use stale_stores).2 "k1" "amy")). by vm_compute.
  - exists key1_window. split; [|by vm_compute]. vm_compute. by left.
  - exists key1_window. split; [|by vm_compute]. vm_compute. by left.
Qed.
