(* ===== verification/Domain.v ===== *)
(** * The engine's domain: statuses, aggregates, events and the pure state
    machine ([crates/scarab-engine/src/lib.rs]).

    Newtypes over [String] ([RunId], [StepId], [AttemptId]) are [string];
    [Timestamp(i64)] is [Z]. Methods of a status are named
    [run_...]/[step_...]. *)

From S2P Require Import Prelude.

Abbreviation RunId := string.
Abbreviation StepId := string.
Abbreviation AttemptId := string.
Abbreviation Timestamp := Z.

Definition EVENT_VERSION : N := 1.

(** ** Statuses *)

Inductive RunStatus : Set :=
| RunPending | RunRunning | RunSuspended
| RunSucceeded | RunFailed | RunCancelled | RunDeadLettered.

Inductive StepStatus : Set :=
| StepPending | StepReady | StepRunning
| StepSucceeded | StepFailed | StepSkipped | StepCancelled.

Inductive ConcurrencyPolicy : Set := Queue | CancelInProgress.

Inductive FailureKind : Set :=
| FInfra (never_started : bool)
| FStep | FTimeout | FLost | FConfig | FMissingInputs | FGate.

Inductive AttemptOutcome : Set :=
| ORunning | OSucceeded | OFailed | OSuperseded | OCancelled.

Inductive ServiceStatus : Set :=
| SvcStarting | SvcReady | SvcRunning | SvcTornDown | SvcFailed.

#[export] Instance RunStatus_eq_dec : EqDecision RunStatus.
Proof. solve_decision. Defined.
#[export] Instance StepStatus_eq_dec : EqDecision StepStatus.
Proof. solve_decision. Defined.
#[export] Instance ConcurrencyPolicy_eq_dec : EqDecision ConcurrencyPolicy.
Proof. solve_decision. Defined.
#[export] Instance FailureKind_eq_dec : EqDecision FailureKind.
Proof. solve_decision. Defined.
#[export] Instance AttemptOutcome_eq_dec : EqDecision AttemptOutcome.
Proof. solve_decision. Defined.
#[export] Instance ServiceStatus_eq_dec : EqDecision ServiceStatus.
Proof. solve_decision. Defined.

(** Wire tokens. *)

Definition policy_as_str (p : ConcurrencyPolicy) : string :=
  match p with Queue => "queue" | CancelInProgress => "cancel-in-progress" end.
Definition policy_from_wire (s : string) : ConcurrencyPolicy :=
  if String.eqb s "cancel-in-progress" then CancelInProgress else Queue.

Definition outcome_as_str (o : AttemptOutcome) : string :=
  match o with
  | ORunning => "running"
  | OSucceeded => "succeeded"
  | OFailed => "failed"
  | OSuperseded => "superseded"
  | OCancelled => "cancelled"
  end.
Definition outcome_from_str (s : string) : option AttemptOutcome :=
  if String.eqb s "running" then Some ORunning
  else if String.eqb s "succeeded" then Some OSucceeded
  else if String.eqb s "failed" then Some OFailed
  else if String.eqb s "superseded" then Some OSuperseded
  else if String.eqb s "cancelled" then Some OCancelled
  else None.

Definition service_as_str (o : ServiceStatus) : string :=
  match o with
  | SvcStarting => "starting"
  | SvcReady => "ready"
  | SvcRunning => "running"
  | SvcTornDown => "torn-down"
  | SvcFailed => "failed"
  end.
Definition service_from_str (s : string) : option ServiceStatus :=
  if String.eqb s "starting" then Some SvcStarting
  else if String.eqb s "ready" then Some SvcReady
  else if String.eqb s "running" then Some SvcRunning
  else if String.eqb s "torn-down" then Some SvcTornDown
  else if String.eqb s "failed" then Some SvcFailed
  else None.
Definition service_is_terminal (s : ServiceStatus) : bool :=
  match s with SvcTornDown | SvcFailed => true | _ => false end.

(** [{:?}] of a [RunStatus]. *)
Definition run_status_debug (s : RunStatus) : string :=
  match s with
  | RunPending => "Pending" | RunRunning => "Running" | RunSuspended => "Suspended"
  | RunSucceeded => "Succeeded" | RunFailed => "Failed" | RunCancelled => "Cancelled"
  | RunDeadLettered => "DeadLettered"
  end.

(** [{:?}] of a [StepStatus]. *)
Definition step_status_debug (s : StepStatus) : string :=
  match s with
  | StepPending => "Pending" | StepReady => "Ready" | StepRunning => "Running"
  | StepSucceeded => "Succeeded" | StepFailed => "Failed" | StepSkipped => "Skipped"
  | StepCancelled => "Cancelled"
  end.

Definition run_is_terminal (s : RunStatus) : bool :=
  match s with
  | RunSucceeded | RunFailed | RunCancelled | RunDeadLettered => true
  | _ => false
  end.

Definition run_can_transition_to (s to : RunStatus) : bool :=
  match s, to with
  | RunPending, RunRunning
  | RunPending, RunCancelled
  | RunRunning, RunSuspended
  | RunRunning, RunSucceeded
  | RunRunning, RunFailed
  | RunRunning, RunCancelled
  | RunRunning, RunDeadLettered
  | RunSuspended, RunRunning
  | RunSuspended, RunCancelled => true
  | _, _ => false
  end.

Definition step_is_terminal (s : StepStatus) : bool :=
  match s with
  | StepSucceeded | StepFailed | StepSkipped | StepCancelled => true
  | _ => false
  end.

(** ** Aggregates *)

Record Attempt := mkAttempt {
  att_id : AttemptId;
  att_started_at : Timestamp;
  att_failure : option FailureKind;
  att_failure_detail : option string;
  att_outcome : AttemptOutcome;
}.
#[export] Instance Attempt_eq_dec : EqDecision Attempt.
Proof. solve_decision. Defined.

Record StepRun := mkStepRun {
  sr_run : RunId;
  sr_step : StepId;
  sr_status : StepStatus;
  sr_attempts : list Attempt;
  sr_needs : list StepId;
  sr_gate_kind : option string;
}.
#[export] Instance StepRun_eq_dec : EqDecision StepRun.
Proof. solve_decision. Defined.

Record Run := mkRun {
  run_id : RunId;
  run_status : RunStatus;
  run_created_at : Timestamp;
}.

Record WorkspaceCollision := mkCollision {
  wc_path : string;
  wc_winner : StepId;
  wc_loser : StepId;
}.

Inductive EventPayload : Type :=
| RunCreated
| RunTransitioned (from to : RunStatus)
| StepTransitioned (step : StepId) (from to : StepStatus)
| AttemptStarted (step : StepId) (attempt : AttemptId)
| AttemptFinished (step : StepId) (attempt : AttemptId)
    (failure : option FailureKind) (cause : option string)
| GateApproved (step : StepId) (by_ : string)
| GateReleased (step : StepId)
| EnvironmentApprovalMet (step : StepId) (approvers : list string)
    (required : option N) (release_at : Z)
| StepSkippedEv (step : StepId) (reason : string)
| RunDeadLetteredEv (reason : string)
| RunCreationFailed (reason : string)
| RunCancelRequested (by_ : option string)
| GateExpired (step : StepId)
| GateResolved (step : StepId) (attempt : AttemptId) (passed : bool)
    (reason : option string) (deployment : option N) (by_ : option string)
| RunRerunRequested (target : StepId) (invalidated : list StepId)
    (by_ : option string) (widened : list StepId)
| StepRetryRequested (target : StepId) (invalidated : list StepId)
    (by_ : option string) (widened : list StepId)
| AttemptReadopted (step : StepId) (attempt : AttemptId)
| AttemptSuperseded (step : StepId) (attempt : AttemptId) (by_ : option string)
| RunBudgetExhausted (active_ms budget_ms : Z)
| StepServicesUnready (step : StepId) (reason : string)
| RunSnapshotsPinned (by_ : option string)
| RunSnapshotsUnpinned (by_ : option string)
| WorkspaceInputCollisions (step : StepId) (attempt : AttemptId) (count : N)
    (sample : list WorkspaceCollision)
| StepInfraCondition (step : StepId) (attempt : AttemptId) (reason : string)
    (message : option string) (held_ms : option Z) (observations : option N)
| RawEvent (v : Json).

Record EventKind := mkEvent {
  ev_version : N;
  ev_run : RunId;
  ev_kind : EventPayload;
  ev_at : Timestamp;
}.

(** Build an event stamped with the current [EVENT_VERSION]. *)
Definition event (run : RunId) (kind : EventPayload) (at_ : Timestamp) : EventKind :=
  mkEvent EVENT_VERSION run kind at_.

(** What a won step transition stamps on an Attempt. *)
Inductive AttemptStamp : Type :=
| StampOutcome (o : AttemptOutcome)
| StampFailure (kind : FailureKind) (detail : option string).

(** What a step transition's CAS requires of the step's latest Attempt. *)
Inductive AttemptFrontier : Type :=
| FrontierAny
| FrontierIs (a : option AttemptId).

(** How one gate wait ends. *)
Record GateResolution := mkGateResolution {
  gr_passed : bool;
  gr_reason : string;
  gr_expired : bool;
  gr_by : option string;
  gr_fence : option AttemptId;
  gr_legacy_started_at : Timestamp;
  gr_at : Timestamp;
  gr_outputs : option (gmap string Json);
}.

Definition attempt_detail (res : GateResolution) : option string :=
  if gr_passed res then None
  else Some (match gr_by res with
             | Some by_ => "rejected by " +:+ by_ +:+ ": " +:+ gr_reason res
             | None => gr_reason res
             end).

(** The events one gate resolution journals, in order. *)
Definition gate_resolution_events (step : StepId) (attempt : AttemptId)
    (minted : bool) (res : GateResolution) : list EventPayload :=
  let failure := if gr_passed res then None else Some FGate in
  (if minted then [AttemptStarted step attempt] else [])
  ++ [AttemptFinished step attempt failure (attempt_detail res)]
  ++ (if gr_passed res then [GateReleased step]
      else if gr_expired res then [GateExpired step] else [])
  ++ [StepTransitioned step StepPending
        (if gr_passed res then StepSucceeded else StepFailed)]
  ++ [GateResolved step attempt (gr_passed res) (Some (gr_reason res)) None (gr_by res)].

(** ** Cache scopes *)

Record CacheScope := mkCacheScope { cs_own : string; cs_fallback : option string }.

Definition environment_scope (environment git_ref : option string) (pull_request : bool)
  : option string :=
  let pull_request_ref :=
    match git_ref with
    | Some r => starts_with "refs/pull/" r || starts_with "refs/merge-requests/" r
    | None => false
    end in
  match environment with
  | Some e => if negb pull_request && negb pull_request_ref then Some e else None
  | None => None
  end.

Definition for_run (environment git_ref default_branch : option string)
    (pull_request : bool) : option CacheScope :=
  match environment_scope environment git_ref pull_request with
  | Some env => Some (mkCacheScope ("env:" +:+ env) None)
  | None =>
      own ← (match git_ref with
             | Some r => if starts_with "refs/" r then Some r else None
             | None => None
             end);
      let fallback :=
        match default_branch with
        | Some b =>
            if String.eqb b "" then None
            else let f := "refs/heads/" +:+ b in
                 if String.eqb f own then None else Some f
        | None => None
        end in
      Some (mkCacheScope own fallback)
  end.

(** ** Consumption: what a step reads from its needs *)

Definition consumed (needs : list StepId) (inputs : option (list StepId)) : list StepId :=
  default needs inputs.

Definition workspace_input_steps (needs : list StepId) (inputs : option (list StepId))
    (output_of : gmap StepId string) : list StepId :=
  List.filter (fun n => bool_decide (is_Some (output_of !! n))) (consumed needs inputs).

(** [expect]: every step kept by the filter has an output, see
    [workspace_inputs_total]. *)
Definition workspace_inputs (needs : list StepId) (inputs : option (list StepId))
    (output_of : gmap StepId string) : list string :=
  omap (fun n => output_of !! n) (workspace_input_steps needs inputs output_of).

Definition input_signature (needs : list StepId) (inputs : option (list StepId))
    (output_of : gmap StepId string) : string :=
  let parts := map (fun n => n +:+ "=" +:+ default "" (output_of !! n)) (consumed needs inputs) in
  "v2:" +:+ join ";" parts.

(** ** The invalidation set *)

(** One [for s in steps] pass of the fixpoint loop. *)
Definition invalidation_pass (invalid : gset StepId) (steps : list StepRun)
  : gset StepId * bool :=
  foldl (fun acc s =>
    let '(inv, changed) := acc in
    if bool_decide (sr_step s ∉ inv) && existsb (fun n => bool_decide (n ∈ inv)) (sr_needs s)
    then ({[sr_step s]} ∪ inv, true)
    else acc) (invalid, false) steps.

(** [while changed]: each pass but the last adds a step, so [length steps]
    passes are enough (see [invalidation_loop_stable]). *)
Fixpoint invalidation_loop (fuel : nat) (invalid : gset StepId) (steps : list StepRun)
  : gset StepId :=
  match fuel with
  | O => invalid
  | S fuel' =>
      let '(invalid', changed) := invalidation_pass invalid steps in
      if changed then invalidation_loop fuel' invalid' steps else invalid'
  end.

Definition invalidation_set (target : StepId) (steps : list StepRun) : gset StepId :=
  invalidation_loop (S (length steps)) {[target]} steps.

(** ** The run state machine *)

Inductive TransitionError : Type :=
| IllegalRun (from to : RunStatus)
| IllegalStep (from to : StepStatus)
| RunTerminal (s : RunStatus)
| StepTerminal (s : StepStatus)
| NoAttempt.

(** [Run::new]. *)
Definition run_new (id : RunId) (created_at : Timestamp) : Run * EventKind :=
  (mkRun id RunPending created_at, event id RunCreated created_at).

(** [Run::transition]: the mutated run and the event, or the error with the
    run untouched. *)
Definition run_transition (r : Run) (to : RunStatus) (at_ : Timestamp)
  : Result TransitionError (Run * EventKind) :=
  let from := run_status r in
  if run_is_terminal from then Err (RunTerminal from)
  else if negb (run_can_transition_to from to) then Err (IllegalRun from to)
  else Ok (mkRun (run_id r) to (run_created_at r),
           event (run_id r) (RunTransitioned from to) at_).

(** ** The step state machine *)

(** [StepRun::new]. *)
Definition step_new (run : RunId) (step : StepId) : StepRun :=
  mkStepRun run step StepPending [] [] None.

Definition is_gate (s : StepRun) : bool :=
  match sr_gate_kind s with Some _ => true | None => false end.

Definition with_status (s : StepRun) (st : StepStatus) : StepRun :=
  mkStepRun (sr_run s) (sr_step s) st (sr_attempts s) (sr_needs s) (sr_gate_kind s).
Definition with_attempts (s : StepRun) (l : list Attempt) : StepRun :=
  mkStepRun (sr_run s) (sr_step s) (sr_status s) l (sr_needs s) (sr_gate_kind s).

(** [StepRun::step_transition]: the event of a status change. *)
Definition step_transition (s : StepRun) (from to : StepStatus) (at_ : Timestamp) : EventKind :=
  event (sr_run s) (StepTransitioned (sr_step s) from to) at_.

Definition mark_ready (s : StepRun) (at_ : Timestamp)
  : Result TransitionError (StepRun * EventKind) :=
  let from := sr_status s in
  if decide (from = StepPending)
  then Ok (with_status s StepReady, step_transition s from StepReady at_)
  else Err (IllegalStep from StepReady).

Definition start_attempt (s : StepRun) (attempt : AttemptId) (at_ : Timestamp)
  : Result TransitionError (StepRun * list EventKind) :=
  let from := sr_status s in
  match from with
  | StepPending | StepReady =>
      let s' := with_attempts (with_status s StepRunning)
                  (sr_attempts s ++ [mkAttempt attempt at_ None None ORunning]) in
      Ok (s', [step_transition s from StepRunning at_;
               event (sr_run s) (AttemptStarted (sr_step s) attempt) at_])
  | other =>
      if step_is_terminal other then Err (StepTerminal other)
      else Err (IllegalStep other StepRunning)
  end.

(** Where [finish_attempt] sends the step: [attempts] is [self.attempts.len()],
    compared as a [u32]. *)
Definition finish_target (failure : option FailureKind) (attempts : nat) (max_attempts : N)
  : StepStatus :=
  match failure with
  | None => StepSucceeded
  | Some (FStep | FTimeout | FConfig | FMissingInputs | FGate) => StepFailed
  | Some (FInfra true) =>
      if decide (wrap_u 32 (N.of_nat attempts) < max_attempts)%N then StepReady else StepFailed
  | Some (FInfra false | FLost) => StepFailed
  end.

Definition set_failure (failure : option FailureKind) (a : Attempt) : Attempt :=
  mkAttempt (att_id a) (att_started_at a) failure (att_failure_detail a) (att_outcome a).

(** Apply [f] to the last element in place ([last_mut]). *)
Fixpoint map_last {A} (f : A -> A) (l : list A) : list A :=
  match l with
  | [] => []
  | [x] => [f x]
  | x :: l' => x :: map_last f l'
  end.

Definition finish_attempt (s : StepRun) (failure : option FailureKind) (max_attempts : N)
    (at_ : Timestamp) : Result TransitionError (StepRun * list EventKind) :=
  if decide (sr_status s = StepRunning) then
    match last (sr_attempts s) with
    | None => Err NoAttempt
    | Some a =>
        let to := finish_target failure (length (sr_attempts s)) max_attempts in
        let s' := with_status (with_attempts s (map_last (set_failure failure) (sr_attempts s))) to in
        Ok (s', [event (sr_run s) (AttemptFinished (sr_step s) (att_id a) failure None) at_;
                 step_transition s StepRunning to at_])
    end
  else Err (IllegalStep (sr_status s) StepSucceeded).

(** [StepRun::cancel]. *)
Definition step_cancel (s : StepRun) (at_ : Timestamp)
  : Result TransitionError (StepRun * EventKind) :=
  let from := sr_status s in
  if step_is_terminal from then Err (StepTerminal from)
  else Ok (with_status s StepCancelled, step_transition s from StepCancelled at_).

(** * Theorems *)

(** ** Wire tokens *)

Lemma outcome_token_roundtrip o : outcome_from_str (outcome_as_str o) = Some o.
Proof. by destruct o. Qed.
Lemma service_token_roundtrip s : service_from_str (service_as_str s) = Some s.
Proof. by destruct s. Qed.
Lemma policy_token_roundtrip p : policy_from_wire (policy_as_str p) = p.
Proof. by destruct p. Qed.

(** ** The run machine and its event log *)

(** Apply a list of requested transitions in order, keeping the events of the
    accepted ones and ignoring the refused (what a crashed worker's replay
    does). *)
Fixpoint run_drive (r : Run) (reqs : list (RunStatus * Timestamp)) : Run * list EventKind :=
  match reqs with
  | [] => (r, [])
  | (to, at_) :: reqs' =>
      match run_transition r to at_ with
      | Ok (r', e) => let '(r'', l) := run_drive r' reqs' in (r'', e :: l)
      | Err _ => run_drive r reqs'
      end
  end.

(** Replay the [RunTransitioned] facts of a log from a status; [None] when a
    fact does not start where the previous one ended, or is no declared edge. *)
Fixpoint replay (s : RunStatus) (log : list EventKind) : option RunStatus :=
  match log with
  | [] => Some s
  | e :: log' =>
      match ev_kind e with
      | RunTransitioned from to =>
          if decide (from = s) then
            if run_can_transition_to from to then replay to log' else None
          else None
      | _ => None
      end
  end.

Lemma can_transition_not_terminal s to : run_can_transition_to s to = true -> run_is_terminal s = false.
Proof. by destruct s, to. Qed.

Lemma run_transition_ok r to at_ r' e :
  run_transition r to at_ = Ok (r', e) ->
  run_can_transition_to (run_status r) to = true
  /\ r' = mkRun (run_id r) to (run_created_at r)
  /\ e = event (run_id r) (RunTransitioned (run_status r) to) at_.
Proof.
  unfold run_transition. destruct (run_is_terminal _); [done|].
  destruct (run_can_transition_to _ _) eqn:E; [|done]. cbn. intros H. by simplify_eq.
Qed.

Lemma run_transition_terminal r to at_ :
  run_is_terminal (run_status r) = true -> run_transition r to at_ = Err (RunTerminal (run_status r)).
Proof. intros H. unfold run_transition. by rewrite H. Qed.

(** Whatever sequence of transitions is requested of a run, its log is a
    faithful record: replaying the emitted [RunTransitioned] facts from the
    run's first status succeeds along declared edges only and ends in the
    run's current status; and a run that was already terminal moves nowhere
    and journals nothing. *)
Theorem run_log_faithful r reqs r' log :
  run_drive r reqs = (r', log) ->
  replay (run_status r) log = Some (run_status r')
  /\ (run_is_terminal (run_status r) = true -> r' = r /\ log = [])
  /\ run_id r' = run_id r.
Proof.
  revert r r' log; induction reqs as [|[to at_] reqs IH]; intros r r' log; cbn.
  { intros H; by simplify_eq. }
  destruct (run_transition r to at_) as [[r1 e]|err] eqn:E; [|by apply IH].
  destruct (run_drive r1 reqs) as [r2 l] eqn:E2. intros H; simplify_eq.
  apply run_transition_ok in E as (Hc & -> & ->).
  destruct (IH _ _ _ E2) as (Hr & _ & Hid). cbn in *.
  rewrite decide_True, Hc by done. split; [done|]. split; [|done].
  apply can_transition_not_terminal in Hc. intros Ht. congruence.
Qed.

Lemma run_log_faithful_witness :
  let r := fst (run_new "r1" 5) in
  let reqs := [(RunRunning, 6); (RunPending, 7); (RunSuspended, 8); (RunRunning, 9);
               (RunFailed, 10); (RunSucceeded, 11)]%Z in
  let d := run_drive r reqs in
  replay RunPending (snd d) = Some RunFailed /\ length (snd d) = 4.
Proof.
  cbn zeta. split; [|reflexivity].
  exact (proj1 (run_log_faithful (fst (run_new "r1" 5))
    [(RunRunning, 6); (RunPending, 7); (RunSuspended, 8); (RunRunning, 9);
     (RunFailed, 10); (RunSucceeded, 11)]%Z _ _ eq_refl)).
Defined.

(** ** Bounded retry *)

(** [n] rounds of admission and a never-started infrastructure failure,
    stopping at the first refusal. *)
Fixpoint infra_rounds (n : nat) (max_attempts : N) (s : StepRun) : StepRun :=
  match n with
  | O => s
  | S n' =>
      match start_attempt s ("a" +:+ pretty (N.of_nat (S (length (sr_attempts s))))) 0 with
      | Ok (s1, _) =>
          match finish_attempt s1 (Some (FInfra true)) max_attempts 0 with
          | Ok (s2, _) => infra_rounds n' max_attempts s2
          | Err _ => s1
          end
      | Err _ => s
      end
  end.

Lemma map_last_snoc {A} (f : A -> A) l x : map_last f (l ++ [x]) = l ++ [f x].
Proof. induction l as [|y l IH]; [done|]. cbn. rewrite IH. by destruct (l ++ [x]) eqn:E; destruct l. Qed.

Lemma infra_round s id max_attempts :
  sr_status s = StepPending \/ sr_status s = StepReady ->
  exists s1 e1 s2 e2,
    start_attempt s id 0 = Ok (s1, e1)
    /\ finish_attempt s1 (Some (FInfra true)) max_attempts 0 = Ok (s2, e2)
    /\ length (sr_attempts s2) = S (length (sr_attempts s))
    /\ sr_status s2 = (if decide (wrap_u 32 (N.of_nat (S (length (sr_attempts s)))) < max_attempts)%N
                       then StepReady else StepFailed).
Proof.
  intros Hs. destruct s as [r st stt at_ nd g]; cbn in *.
  assert (Hst : exists s1 e1, start_attempt (mkStepRun r st stt at_ nd g) id 0 = Ok (s1, e1)
     /\ s1 = mkStepRun r st StepRunning (at_ ++ [mkAttempt id 0 None None ORunning]) nd g).
  { destruct Hs as [-> | ->]; cbn; eauto. }
  destruct Hst as (s1 & e1 & -> & ->). do 4 eexists. split; [done|].
  unfold finish_attempt. cbn. rewrite last_snoc. split; [done|]. cbn.
  rewrite map_last_snoc, !length_app. cbn. by rewrite Nat.add_1_r.
Qed.

Lemma infra_rounds_below n max_attempts s :
  sr_status s = StepPending \/ sr_status s = StepReady ->
  (N.of_nat (length (sr_attempts s) + n) < max_attempts)%N -> (max_attempts < 2 ^ 32)%N ->
  let s' := infra_rounds n max_attempts s in
  (sr_status s' = StepPending \/ sr_status s' = StepReady)
  /\ length (sr_attempts s') = length (sr_attempts s) + n.
Proof.
  revert s; induction n as [|n IH]; intros s Hs Hn Hm; cbn zeta.
  { cbn. split; [done|lia]. }
  destruct (infra_round s ("a" +:+ pretty (N.of_nat (S (length (sr_attempts s))))) max_attempts Hs)
    as (s1 & e1 & s2 & e2 & E1 & E2 & Hl & Hst).
  cbn [infra_rounds]. rewrite E1, E2.
  rewrite decide_True in Hst.
  2:{ unfold wrap_u. rewrite N.mod_small; lia. }
  destruct (IH s2) as [H1 H2]; [by right|rewrite Hl; lia|done|]. split; [done|]. rewrite H2, Hl. lia.
Qed.

(** C40: A step the platform keeps failing before it starts is retried exactly
    up to its attempt budget and then fails for good: with a budget of
    [max_attempts] (at least one, a [u32]), a fresh step is still admissible
    after every round before the last, and after round [max_attempts] it is
    [Failed] with exactly [max_attempts] attempts; further rounds change
    nothing. This is the bounded retry that guarantees forward progress. *)
Theorem bounded_retry run step (max_attempts : nat) :
  (1 <= max_attempts)%nat -> (N.of_nat max_attempts < 2 ^ 32)%N ->
  (forall n, (n < max_attempts)%nat ->
     let s := infra_rounds n (N.of_nat max_attempts) (step_new run step) in
     step_is_terminal (sr_status s) = false /\ length (sr_attempts s) = n)
  /\ (forall k,
     let s := infra_rounds (max_attempts + k) (N.of_nat max_attempts) (step_new run step) in
     sr_status s = StepFailed /\ length (sr_attempts s) = max_attempts).
Proof.
  intros H1 Hm.
  assert (Hlow : forall n, (n < max_attempts)%nat ->
     let s := infra_rounds n (N.of_nat max_attempts) (step_new run step) in
     (sr_status s = StepPending \/ sr_status s = StepReady) /\ length (sr_attempts s) = n).
  { intros n Hn. destruct (infra_rounds_below n (N.of_nat max_attempts) (step_new run step));
      cbn; [by left|lia|done|]. by split. }
  split.
  - intros n Hn. destruct (Hlow n Hn) as [[E|E] Hl]; cbn zeta; rewrite E; split; done.
  - assert (Hsplit : forall a b max s, infra_rounds a max s = infra_rounds a max s ->
      (sr_status (infra_rounds a max s) = StepPending \/ sr_status (infra_rounds a max s) = StepReady) ->
      infra_rounds (a + b) max s = infra_rounds b max (infra_rounds a max s)).
    { induction a as [|a IH]; intros b max s _ Hs; [done|]. cbn [infra_rounds Nat.add] in *.
      destruct (start_attempt s _ 0) as [[s1 e1]|] eqn:E1.
      - destruct (finish_attempt s1 _ max 0) as [[s2 e2]|] eqn:E2; [by apply IH|].
        assert (sr_status s1 = StepRunning) as Es1.
        { destruct s as [r st stt at_ nd g]; destruct stt; cbn in E1; simplify_eq; done. }
        destruct Hs; congruence.
      - destruct s as [r st stt at_ nd g]; destruct stt; cbn in *; destruct Hs; congruence. }
    intros k. destruct max_attempts as [|m]; [lia|].
    destruct (Hlow m ltac:(lia)) as [Hs Hl].
    replace (S m + k)%nat with (m + S k)%nat by lia.
    rewrite (Hsplit m (S k)) by done.
    set (s := infra_rounds m (N.of_nat (S m)) (step_new run step)) in *.
    destruct (infra_round s ("a" +:+ pretty (N.of_nat (S (length (sr_attempts s))))) (N.of_nat (S m)) Hs)
      as (s1 & e1 & s2 & e2 & E1 & E2 & Hl2 & Hst).
    cbn zeta. cbn [infra_rounds]. rewrite E1, E2.
    rewrite decide_False in Hst by (unfold wrap_u; rewrite N.mod_small; lia).
    assert (infra_rounds k (N.of_nat (S m)) s2 = s2) as ->.
    { destruct k; [done|]. cbn [infra_rounds]. unfold start_attempt. by rewrite Hst. }
    split; [done|lia].
Qed.

Lemma bounded_retry_witness :
  sr_status (infra_rounds 5 3 (step_new "r" "build")) = StepFailed
  /\ length (sr_attempts (infra_rounds 5 3 (step_new "r" "build"))) = 3.
Proof.
  apply (proj2 (bounded_retry "r" "build" 3 ltac:(lia) ltac:(vm_compute; reflexivity)) 2).
Defined.

(** ** The invalidation set is reverse reachability *)

(** [x] is [target] or transitively needs it. *)
Inductive reaches (steps : list StepRun) (target : StepId) : StepId -> Prop :=
| reaches_target : reaches steps target target
| reaches_need s n : s ∈ steps -> n ∈ sr_needs s -> reaches steps target n ->
    reaches steps target (sr_step s).

Section Invalidation.
Variable steps0 : list StepRun.

(** Closed under [needs] over [steps]: a step with a need inside is inside. *)
Definition closed (steps : list StepRun) (inv : gset StepId) : Prop :=
  forall s n, s ∈ steps -> n ∈ sr_needs s -> n ∈ inv -> sr_step s ∈ inv.

(** Steps whose id is still outside, the measure of the loop. *)
Definition missing (inv : gset StepId) (steps : list StepRun) : nat :=
  length (List.filter (fun s => bool_decide (sr_step s ∉ inv)) steps).

Definition pass_step (acc : gset StepId * bool) (s : StepRun) : gset StepId * bool :=
  let '(inv, changed) := acc in
  if bool_decide (sr_step s ∉ inv) && existsb (fun n => bool_decide (n ∈ inv)) (sr_needs s)
  then ({[sr_step s]} ∪ inv, true)
  else acc.

Lemma pass_step_grows acc s : (acc.1 ⊆ (pass_step acc s).1).
Proof. destruct acc as [inv c]. cbn. case_match; set_solver. Qed.

Lemma pass_grows steps acc : (acc.1 ⊆ (foldl pass_step acc steps).1).
Proof.
  revert acc; induction steps as [|s l IH]; intros acc; cbn; [done|].
  etrans; [apply pass_step_grows|apply IH].
Qed.

Lemma pass_sound target steps acc :
  (forall s, s ∈ steps -> s ∈ steps0) ->
  (forall x, x ∈ acc.1 -> reaches steps0 target x) ->
  forall x, x ∈ (foldl pass_step acc steps).1 -> reaches steps0 target x.
Proof.
  revert acc; induction steps as [|s l IH]; intros acc Hin Hacc; cbn; [done|].
  apply IH; [set_solver|]. destruct acc as [inv c]. cbn. case_match eqn:E; [|done].
  apply andb_true_iff in E as [_ E]. apply existsb_bool_decide in E as (n & Hn & Hni).
  intros x Hx. cbn in Hx. apply elem_of_union in Hx as [->%elem_of_singleton|Hx]; [|by apply Hacc].
  eapply reaches_need; [apply Hin; left|done|by apply Hacc].
Qed.

Lemma pass_flag_mono steps acc : acc.2 = true -> (foldl pass_step acc steps).2 = true.
Proof.
  revert acc; induction steps as [|s l IH]; intros [inv c] H; cbn in *; [done|].
  apply IH. by case_match.
Qed.

Lemma pass_unchanged steps inv :
  (foldl pass_step (inv, false) steps).2 = false ->
  (foldl pass_step (inv, false) steps).1 = inv /\ closed steps inv.
Proof.
  induction steps as [|s l IH]; cbn; intros H.
  { split; [done|]. intros s n Hs. by apply elem_of_nil in Hs. }
  destruct (_ && _) eqn:E.
  { rewrite pass_flag_mono in H by done. done. }
  destruct (IH H) as [H1 H2]. split; [done|].
  intros s' n Hs Hn Hni. apply elem_of_cons in Hs as [->|Hs]; [|by eapply H2].
  apply andb_false_iff in E as [E|E].
  - apply bool_decide_eq_false in E. by apply dec_stable.
  - exfalso. assert (existsb (fun n => bool_decide (n ∈ inv)) (sr_needs s) = true) as E2.
    { apply existsb_bool_decide. eauto. } congruence.
Qed.

Lemma filter_length_mono {A} (f g : A -> bool) l :
  (forall x, x ∈ l -> f x = true -> g x = true) ->
  length (List.filter f l) <= length (List.filter g l).
Proof.
  induction l as [|x l IH]; intros H; cbn; [done|].
  assert (length (List.filter f l) <= length (List.filter g l)).
  { apply IH. intros y Hy. apply H. by right. }
  destruct (f x) eqn:Ef; [rewrite (H x) by (done || constructor); cbn; lia|].
  case_match; cbn; lia.
Qed.

Lemma filter_length_lt {A} (f g : A -> bool) l x :
  (forall x, x ∈ l -> f x = true -> g x = true) ->
  x ∈ l -> f x = false -> g x = true ->
  length (List.filter f l) < length (List.filter g l).
Proof.
  induction l as [|y l IH]; intros H Hx Hf Hg; [by apply elem_of_nil in Hx|]. cbn.
  apply elem_of_cons in Hx as [<-|Hx].
  - rewrite Hf, Hg. cbn. assert (length (List.filter f l) <= length (List.filter g l)); [|lia].
    apply filter_length_mono. intros z Hz. apply H. by right.
  - assert (length (List.filter f l) < length (List.filter g l)).
    { apply IH; [|done..]. intros z Hz. apply H. by right. }
    destruct (f y) eqn:Ef; [rewrite (H y) by (done || constructor); cbn; lia|].
    case_match; cbn; lia.
Qed.

Lemma missing_lt steps inv inv' s :
  inv ⊆ inv' -> s ∈ steps -> sr_step s ∉ inv -> sr_step s ∈ inv' ->
  missing inv' steps < missing inv steps.
Proof.
  intros Hsub Hs Hn Hi. apply (filter_length_lt _ _ _ s); [|done|by apply bool_decide_eq_false; intros []|by apply bool_decide_eq_true].
  intros x _ Hx. apply bool_decide_eq_true. apply bool_decide_eq_true in Hx. set_solver.
Qed.

Lemma pass_changed steps acc :
  acc.2 = false -> (foldl pass_step acc steps).2 = true ->
  exists s, s ∈ steps /\ (sr_step s ∉ acc.1) /\ sr_step s ∈ (foldl pass_step acc steps).1.
Proof.
  revert acc; induction steps as [|s l IH]; intros [inv c] Hc Ht; cbn in *; [congruence|].
  destruct (_ && _) eqn:E.
  - apply andb_true_iff in E as [E _]. apply bool_decide_eq_true in E.
    exists s. split; [left|]. split; [done|].
    apply (pass_grows l ({[sr_step s]} ∪ inv, true)). cbn. set_solver.
  - destruct (IH (inv, c) Hc Ht) as (s' & H1 & H2 & H3). exists s'. split; [by right|done].
Qed.

Lemma invalidation_pass_foldl inv steps : invalidation_pass inv steps = foldl pass_step (inv, false) steps.
Proof. done. Qed.

Lemma invalidation_loop_correct target fuel inv :
  missing inv steps0 < fuel ->
  (forall x, x ∈ inv -> reaches steps0 target x) ->
  let out := invalidation_loop fuel inv steps0 in
  inv ⊆ out /\ closed steps0 out /\ (forall x, x ∈ out -> reaches steps0 target x).
Proof.
  revert inv; induction fuel as [|fuel IH]; intros inv Hf Hr; [lia|]. cbn zeta.
  cbn [invalidation_loop]. rewrite invalidation_pass_foldl.
  destruct (foldl pass_step (inv, false) steps0) as [inv' ch] eqn:E.
  pose proof (pass_grows steps0 (inv, false)) as Hg. rewrite E in Hg. cbn in Hg.
  pose proof (pass_sound target steps0 (inv, false) ltac:(done) Hr) as Hs. rewrite E in Hs. cbn in Hs.
  destruct ch.
  - destruct (pass_changed steps0 (inv, false)) as (s & H1 & H2 & H3); [done|by rewrite E|].
    rewrite E in H3. cbn in *.
    destruct (IH inv') as (I1 & I2 & I3); [|done|].
    { pose proof (missing_lt steps0 inv inv' s Hg H1 H2 H3). lia. }
    split; [set_solver|done].
  - destruct (pass_unchanged steps0 inv) as [H1 H2]; [by rewrite E|].
    rewrite E in H1. cbn in H1. subst inv'. done.
Qed.

Lemma missing_le inv steps : missing inv steps <= length steps.
Proof. unfold missing. induction steps as [|s l IH]; cbn; [done|]. case_match; cbn; lia. Qed.

End Invalidation.

Lemma closed_reaches steps target inv :
  target ∈ inv -> closed steps inv -> forall x, reaches steps target x -> x ∈ inv.
Proof. intros Ht Hc x. induction 1; [done|]. eauto. Qed.

Lemma invalidation_set_spec target steps x :
  x ∈ invalidation_set target steps <-> reaches steps target x.
Proof.
  destruct (invalidation_loop_correct steps target (S (length steps)) {[target]}) as (H1 & H2 & H3).
  - pose proof (missing_le {[target]} steps). lia.
  - intros y ->%elem_of_singleton. constructor.
  - fold (invalidation_set target steps) in *. split; [apply H3|].
    apply closed_reaches; [set_solver|done].
Qed.

Lemma invalidation_set_target target steps : target ∈ invalidation_set target steps.
Proof. apply invalidation_set_spec. constructor. Qed.

Lemma invalidation_set_closed target steps : closed steps (invalidation_set target steps).
Proof.
  intros s n Hs Hn Hi. apply invalidation_set_spec. apply invalidation_set_spec in Hi.
  by eapply reaches_need.
Qed.

(** The invalidation set of a rerun is exactly the target together with
    the steps that transitively need it: the fixpoint loop terminates within
    its fuel (one pass per step is enough), adds nothing that does not depend
    on the target and misses nothing that does. *)
Theorem invalidation_set_reaches target steps x :
  x ∈ invalidation_set target steps <-> reaches steps target x.
Proof. apply invalidation_set_spec. Qed.

(** ** The input signature decides "unchanged" exactly *)

Definition no_semi (s : string) : Prop := has_char ";" s = false.

Definition sig_part (output_of : gmap StepId string) (n : StepId) : string :=
  n +:+ "=" +:+ default "" (output_of !! n).

Lemma join_parts_inj needs (o o' : gmap StepId string) :
  (forall n, n ∈ needs -> no_semi n /\ no_semi (default "" (o !! n)) /\ no_semi (default "" (o' !! n))) ->
  join ";" (map (sig_part o) needs) = join ";" (map (sig_part o') needs) ->
  forall n, n ∈ needs -> default "" (o !! n) = default "" (o' !! n).
Proof.
  assert (Hpart : forall n (m : gmap StepId string), no_semi n -> no_semi (default "" (m !! n)) ->
    has_char ";" (sig_part m n) = false).
  { intros n m H1 H2. unfold sig_part. rewrite !has_char_app. unfold no_semi in *. by rewrite H1, H2. }
  assert (Hval : forall n, sig_part o n = sig_part o' n -> default "" (o !! n) = default "" (o' !! n)).
  { intros n E. unfold sig_part in E. by repeat apply (inj (String.append _)) in E. }
  induction needs as [|n l IH]; intros Hs E m Hm; [by apply elem_of_nil in Hm|].
  destruct (Hs n) as (Hn & Ho & Ho'); [constructor|].
  destruct l as [|n2 l].
  { cbn in E. apply list_elem_of_singleton in Hm as ->. by apply Hval. }
  cbn [map] in E. cbn [join] in E. rewrite !string_app_cons in E.
  apply split_at_char in E as [E1 E2]; [|by apply Hpart..].
  apply elem_of_cons in Hm as [->|Hm]; [by apply Hval|].
  apply IH; [|done|done]. intros k Hk. apply Hs. by constructor.
Qed.

Lemma sig_part_map o needs :
  map (fun n => n +:+ "=" +:+ default "" (o !! n)) needs = map (sig_part o) needs.
Proof. done. Qed.

(** Skip-if-unchanged compares exactly what a step consumes. For one
    step (fixed [needs]/[inputs], ids and content identities without [;]),
    two input signatures are equal if and only if every consumed need has the
    same recorded output in both (no output and an empty one count the same);
    so a change in a need the step does not consume never forces a re-run,
    and a change in one it consumes always does. *)
Theorem input_signature_unchanged needs inputs (o o' : gmap StepId string) :
  (forall n, n ∈ consumed needs inputs ->
     no_semi n /\ no_semi (default "" (o !! n)) /\ no_semi (default "" (o' !! n))) ->
  input_signature needs inputs o = input_signature needs inputs o' <->
  (forall n, n ∈ consumed needs inputs -> default "" (o !! n) = default "" (o' !! n)).
Proof.
  intros Hs. unfold input_signature. rewrite !sig_part_map. split.
  - intros E. apply (inj (String.append _)) in E. by apply join_parts_inj.
  - intros H. do 2 f_equal. apply map_ext_in. intros n Hn. unfold sig_part.
    rewrite H; [done|]. by apply list_elem_of_In.
Qed.

Lemma input_signature_unchanged_witness :
  input_signature ["build"; "lint"] (Some ["build"]) {["build" := "t1"; "lint" := "t2"]}
  = input_signature ["build"; "lint"] (Some ["build"]) {["build" := "t1"; "lint" := "t9"]}.
Proof.
  apply (input_signature_unchanged ["build"; "lint"] (Some ["build"])
    {["build" := "t1"; "lint" := "t2"]} {["build" := "t1"; "lint" := "t9"]}).
  - intros n Hn. apply list_elem_of_singleton in Hn as ->. vm_compute. done.
  - intros n Hn. apply list_elem_of_singleton in Hn as ->. vm_compute. done.
Defined.

(** The order of the consumed needs is part of the signature (v2). *)
Example input_signature_order :
  input_signature ["a"; "b"] None {["a" := "x"; "b" := "y"]}
  <> input_signature ["b"; "a"] None {["a" := "x"; "b" := "y"]}.
Proof. vm_compute. congruence. Qed.

(** The [expect] of [workspace_inputs] never fires: its result is in
    bijection with [workspace_input_steps], the index space of the roots. *)
Lemma workspace_inputs_total needs inputs o :
  length (workspace_inputs needs inputs o) = length (workspace_input_steps needs inputs o)
  /\ forall i n, workspace_input_steps needs inputs o !! i = Some n ->
       workspace_inputs needs inputs o !! i = o !! n.
Proof.
  assert (Hall : forall n, n ∈ workspace_input_steps needs inputs o -> is_Some (o !! n)).
  { intros n Hn. apply list_elem_of_In, filter_In in Hn as [_ Hn].
    by apply bool_decide_eq_true in Hn. }
  unfold workspace_inputs. revert Hall. generalize (workspace_input_steps needs inputs o) as l.
  induction l as [|n l IH]; intros Hall; [done|].
  destruct (Hall n) as [r Hr]; [constructor|].
  destruct IH as [IH1 IH2]. { intros m Hm. apply Hall. by constructor. }
  cbn. rewrite Hr. cbn. split; [by rewrite IH1|].
  intros [|i] m Hm; cbn in *; [by simplify_eq|]. by apply IH2.
Qed.

(** ** Cache scopes never let a pull request write what a deploy restores *)

Lemma prefix_app p s : starts_with p s = true -> exists r, s = p +:+ r.
Proof.
  revert s; induction p as [|c p IH]; intros s H; [by exists s|].
  destruct s as [|d s]; [done|]. unfold starts_with in *. cbn in H.
  destruct (Ascii.ascii_dec c d) as [->|]; [|done].
  destruct (IH s H) as [r ->]. by exists r.
Qed.

Lemma starts_with_app p s : starts_with p (p +:+ s) = true.
Proof.
  unfold starts_with. induction p as [|c p IH]; [by destruct s|].
  rewrite string_app_cons. cbn. by destruct (Ascii.ascii_dec c c).
Qed.

Lemma branch_not_env b e : "refs/heads/" +:+ b <> "env:" +:+ e.
Proof. done. Qed.

(** A Run without an Environment scope uses its full ref and, for a fallback,
    a branch other than that ref. *)
Lemma for_run_ref env ref def pr c :
  environment_scope env ref pr = None -> for_run env ref def pr = Some c ->
  (exists x, cs_own c = "refs/" +:+ x)
  /\ (forall f, cs_fallback c = Some f -> f <> cs_own c /\ exists b, f = "refs/heads/" +:+ b).
Proof.
  intros Hne Hc. unfold for_run in Hc. rewrite Hne in Hc.
  destruct ref as [r|]; [|discriminate Hc]. destruct (starts_with "refs/" r) eqn:Er; [|discriminate Hc].
  apply prefix_app in Er as [x ->]. cbn [mbind option_bind] in Hc.
  apply (inj Some) in Hc as <-. cbn [cs_own cs_fallback]. split; [by exists x|].
  intros f. destruct def as [b|]; [|done]. destruct (String.eqb b ""); [done|].
  destruct (String.eqb ("refs/heads/" +:+ b) ("refs/" +:+ x)) eqn:Ef; [done|].
  apply String.eqb_neq in Ef. intros Hf%(inj Some). subst f. eauto.
Qed.

(** The Cache of an Environment-governed Run is out of every pull
    request's reach: whatever the two Runs' environments, refs and default
    branches are, a pull request (by event, or by a ref under [refs/pull/] or
    [refs/merge-requests/]) neither writes nor reads the scope of a Run that
    is scoped by its Environment; an Environment scope has no fallback; and a
    ref-scoped Run's fallback is a branch other than its own scope. *)
Theorem cache_scope_isolated env ref def pr env' ref' def' c c' :
  pr = true \/ (exists r, ref = Some r /\
    (starts_with "refs/pull/" r = true \/ starts_with "refs/merge-requests/" r = true)) ->
  for_run env ref def pr = Some c ->
  environment_scope (Some env') ref' false = Some env' ->
  for_run (Some env') ref' def' false = Some c' ->
  cs_fallback c' = None
  /\ cs_own c <> cs_own c' /\ cs_fallback c <> Some (cs_own c')
  /\ (forall f, cs_fallback c = Some f -> f <> cs_own c /\ starts_with "refs/heads/" f = true).
Proof.
  intros Hpr Hc Henv Hc'.
  assert (environment_scope env ref pr = None) as Hne.
  { unfold environment_scope. destruct env; [|done]. destruct Hpr as [->|(r & -> & H)]; [done|].
    destruct H as [-> | ->]; rewrite ?orb_true_r; cbn; by rewrite andb_false_r. }
  unfold for_run in Hc'. rewrite Henv in Hc'. apply (inj Some) in Hc' as <-.
  cbn [cs_own cs_fallback]. destruct (for_run_ref _ _ _ _ _ Hne Hc) as [[x ->] Hf].
  split; [reflexivity|]. split; [intros E; discriminate E|]. split.
  - intros E. destruct (Hf _ E) as (_ & b & Eb). by apply eq_sym, branch_not_env in Eb.
  - intros f E. destruct (Hf _ E) as (Hn & b & ->).
    split; [exact Hn|apply starts_with_app].
Qed.

Lemma cache_scope_isolated_witness :
  cs_own (mkCacheScope "refs/pull/7/head" (Some "refs/heads/main"))
  <> cs_own (mkCacheScope "env:production" None).
Proof.
  apply (cache_scope_isolated (Some "production") (Some "refs/pull/7/head") (Some "main") false
    "production" (Some "refs/heads/main") (Some "main")); try reflexivity.
  right. exists "refs/pull/7/head". split; [reflexivity|left; reflexivity].
Defined.
