(* ===== verification/Meta.v ===== *)
(** * Run metadata ([crates/scarab-testkit/src/lib.rs], [InMemoryState])

    What the store keeps of a Run beside its lifecycle: its launch parameters
    and event facts, its tenant, its number, where it came from, its deploy
    context, its log index, and the refusals recorded in place of a Run. No
    transition reads them; launch rendering, the list queries and the
    retention sweeps do. *)

From S2P Require Import Prelude Values Domain.

Record DeployContext := mkDeployContext {
  dc_org : string;
  dc_project : string;
  dc_environment : string;
  dc_git_ref : string;
  dc_locked_out : bool;
}.

(** The trigger facts stamped at creation. *)
Record RunOrigin := mkRunOrigin {
  or_trigger_kind : string;
  or_actor : option string;
  or_git_ref : option string;
  or_sha : option string;
  or_pr_number : option Z;
  or_pr_base : option string;
}.

Record RefusedRun := mkRefusedRun {
  rf_id : Z;
  rf_org : string;
  rf_project : string;
  rf_pipeline : string;
  rf_trigger_kind : string;
  rf_actor : option string;
  rf_git_ref : option string;
  rf_sha : option string;
  rf_title : option string;
  rf_reason_kind : string;
  rf_message : string;
  rf_errors : Json;
  rf_created_at : Timestamp;
}.
Definition refused_with_id (id : Z) (r : RefusedRun) : RefusedRun :=
  mkRefusedRun id (rf_org r) (rf_project r) (rf_pipeline r) (rf_trigger_kind r) (rf_actor r) (rf_git_ref r)
    (rf_sha r) (rf_title r) (rf_reason_kind r) (rf_message r) (rf_errors r) (rf_created_at r).

Record LogChunkMeta := mkLogChunk {
  lc_seq : N;
  lc_byte_offset : N;
  lc_len : N;
  lc_object_key : string;
}.

Record RunMeta := mkRunMeta {
  (** Resolved launch parameters per run. *)
  rm_params : gmap RunId (gmap string Json);
  rm_event_facts : gmap RunId (gmap string Json);
  (** Per-run deploy context; set only for deploy runs. *)
  rm_deploy : gmap RunId DeployContext;
  (** Deploy Runs to their Steps marked [deploy: true]. *)
  rm_deploy_runs : gmap RunId (list StepId);
  rm_tenant : gmap RunId (string * string);
  (** Per-run number, and the per-repo counter that hands them out. *)
  rm_number : gmap RunId Z;
  rm_counters : gmap (string * string) Z;
  rm_origin : gmap RunId RunOrigin;
  rm_pipeline : gmap RunId string;
  rm_trigger_title : gmap RunId string;
  rm_refused : list RefusedRun;
  (** Per-(run, step, attempt) log-chunk index. *)
  rm_logs : gmap (RunId * StepId * AttemptId) (list LogChunkMeta);
}.
Definition meta_empty : RunMeta := mkRunMeta ∅ ∅ ∅ ∅ ∅ ∅ ∅ ∅ ∅ ∅ [] ∅.

Definition meta_params (x : gmap RunId (gmap string Json)) (v : RunMeta) : RunMeta :=
  mkRunMeta x (rm_event_facts v) (rm_deploy v) (rm_deploy_runs v) (rm_tenant v) (rm_number v)
    (rm_counters v) (rm_origin v) (rm_pipeline v) (rm_trigger_title v) (rm_refused v) (rm_logs v).
Definition meta_event_facts (x : gmap RunId (gmap string Json)) (v : RunMeta) : RunMeta :=
  mkRunMeta (rm_params v) x (rm_deploy v) (rm_deploy_runs v) (rm_tenant v) (rm_number v)
    (rm_counters v) (rm_origin v) (rm_pipeline v) (rm_trigger_title v) (rm_refused v) (rm_logs v).
Definition meta_deploy (x : gmap RunId DeployContext) (v : RunMeta) : RunMeta :=
  mkRunMeta (rm_params v) (rm_event_facts v) x (rm_deploy_runs v) (rm_tenant v) (rm_number v)
    (rm_counters v) (rm_origin v) (rm_pipeline v) (rm_trigger_title v) (rm_refused v) (rm_logs v).
Definition meta_deploy_runs (x : gmap RunId (list StepId)) (v : RunMeta) : RunMeta :=
  mkRunMeta (rm_params v) (rm_event_facts v) (rm_deploy v) x (rm_tenant v) (rm_number v)
    (rm_counters v) (rm_origin v) (rm_pipeline v) (rm_trigger_title v) (rm_refused v) (rm_logs v).
Definition meta_tenant (x : gmap RunId (string * string)) (v : RunMeta) : RunMeta :=
  mkRunMeta (rm_params v) (rm_event_facts v) (rm_deploy v) (rm_deploy_runs v) x (rm_number v)
    (rm_counters v) (rm_origin v) (rm_pipeline v) (rm_trigger_title v) (rm_refused v) (rm_logs v).
Definition meta_number (x : gmap RunId Z) (v : RunMeta) : RunMeta :=
  mkRunMeta (rm_params v) (rm_event_facts v) (rm_deploy v) (rm_deploy_runs v) (rm_tenant v) x
    (rm_counters v) (rm_origin v) (rm_pipeline v) (rm_trigger_title v) (rm_refused v) (rm_logs v).
Definition meta_counters (x : gmap (string * string) Z) (v : RunMeta) : RunMeta :=
  mkRunMeta (rm_params v) (rm_event_facts v) (rm_deploy v) (rm_deploy_runs v) (rm_tenant v)
    (rm_number v) x (rm_origin v) (rm_pipeline v) (rm_trigger_title v) (rm_refused v) (rm_logs v).
Definition meta_origin (x : gmap RunId RunOrigin) (v : RunMeta) : RunMeta :=
  mkRunMeta (rm_params v) (rm_event_facts v) (rm_deploy v) (rm_deploy_runs v) (rm_tenant v)
    (rm_number v) (rm_counters v) x (rm_pipeline v) (rm_trigger_title v) (rm_refused v) (rm_logs v).
Definition meta_pipeline (x : gmap RunId string) (v : RunMeta) : RunMeta :=
  mkRunMeta (rm_params v) (rm_event_facts v) (rm_deploy v) (rm_deploy_runs v) (rm_tenant v)
    (rm_number v) (rm_counters v) (rm_origin v) x (rm_trigger_title v) (rm_refused v) (rm_logs v).
Definition meta_trigger_title (x : gmap RunId string) (v : RunMeta) : RunMeta :=
  mkRunMeta (rm_params v) (rm_event_facts v) (rm_deploy v) (rm_deploy_runs v) (rm_tenant v)
    (rm_number v) (rm_counters v) (rm_origin v) (rm_pipeline v) x (rm_refused v) (rm_logs v).
Definition meta_refused (x : list RefusedRun) (v : RunMeta) : RunMeta :=
  mkRunMeta (rm_params v) (rm_event_facts v) (rm_deploy v) (rm_deploy_runs v) (rm_tenant v)
    (rm_number v) (rm_counters v) (rm_origin v) (rm_pipeline v) (rm_trigger_title v) x (rm_logs v).
Definition meta_logs (x : gmap (RunId * StepId * AttemptId) (list LogChunkMeta)) (v : RunMeta) : RunMeta :=
  mkRunMeta (rm_params v) (rm_event_facts v) (rm_deploy v) (rm_deploy_runs v) (rm_tenant v)
    (rm_number v) (rm_counters v) (rm_origin v) (rm_pipeline v) (rm_trigger_title v) (rm_refused v)
    x.
