(* ===== verification/Store.v ===== *)
(** * The durable store ([crates/scarab-testkit/src/lib.rs], [InMemoryDb])

    The in-process [Db] the engine is driven with: state tables with guarded
    (compare-and-set) transitions, an append-only event log, a transactional
    outbox, leases with terms, concurrency slots. One Rust method under one
    [state.lock()] is one [Op]: a function from the state to a result and the
    state after it. [Instant]s are integers (milliseconds), passed in by the
    caller where the code reads the wall clock. *)

From S2P Require Import Prelude Values Scopes Domain Meta.

(** ** Errors, leases, messages *)

Inductive DbError : Type :=
| DbUnavailable | DbConflict | DbNotLeader | DbFenceTimeout | DbOther (msg : string).
#[export] Instance DbError_eq_dec : EqDecision DbError.
Proof. solve_decision. Defined.

Record LeaderTerm := mkLeaderTerm { lt_resource : string; lt_owner : string; lt_term : Z }.
Record Lease := mkLease { lease_owner : string; lease_expires_at : Timestamp; lease_term : Z }.

(** [Lease::held_by]. *)
Definition held_by (l : Lease) (resource owner : string) : option LeaderTerm :=
  if String.eqb (lease_owner l) owner
  then Some (mkLeaderTerm resource owner (lease_term l)) else None.

(** One attempt whose unit the driver should tear down. *)
Record TeardownAttempt := mkTeardown { td_step : string; td_attempt : string }.

(** The JSON payloads the scheduler writes, by message kind, and the [null]
    an older binary's [cancel_run] carries. *)
Inductive OutboxPayload : Type :=
| PNull
| PLaunchIntent (run step attempt : string)
| PAttemptTeardown (attempts : list TeardownAttempt)
| PCancelServices (through_take : Z)
| PRunStatus (to : RunStatus) (generation : N).

Record OutboxMessage := mkMsg {
  msg_id : Z;
  msg_run : RunId;
  msg_kind : string;
  msg_payload : OutboxPayload;
  msg_key : string;
  msg_at : Timestamp;
}.

Record OutboxEntry := mkEntry {
  oe_msg : OutboxMessage;
  oe_claimed_until : option Z;
  oe_claimed_by : option string;
  oe_dispatched : bool;
  oe_delivery_attempts : N;
  oe_dead_lettered : bool;
}.

(** The fields of [StepSpec] the engine's own decisions read, and those its
    renderer reads and writes; the rest of the spec is handed to the executor
    unread. *)
Record CacheConfig := mkCacheConfig {
  cc_dirs : list string;
  cc_key_files : list string;
  cc_key : option string;
  cc_restore : list (string * string);
  cc_fallback_key : option string;
}.

Record StepSpec := mkStepSpec {
  spec_image : string;
  spec_command : list string;
  spec_env : list (string * string);
  spec_matrix_values : gmap string string;
  spec_scope : option Scope;
  spec_build : option Json;
  spec_uses : list string;
  spec_timeout_seconds : option N;
  spec_workspace_inputs : list string;
  spec_cache : option CacheConfig;
  spec_rest : Json;
}.

(** A spec that runs [image] and asks for nothing else. *)
Definition image_spec (image : string) : StepSpec :=
  mkStepSpec image [] [] ∅ None None [] None [] None JNull.

Record StepRec := mkStepRec {
  rec_status : option StepStatus;
  rec_spec : option StepSpec;
  rec_needs : list StepId;
  rec_attempts : list Attempt;
  rec_output : option string;
  rec_output_identity : option string;
  rec_results : gmap string Json;
  rec_input : option string;
  rec_gate_kind : option string;
  rec_gate_timer_seconds : option Z;
  rec_gate_releaser : option string;
  rec_explicit_inputs : option (list StepId);
  rec_evidence_attempt : option AttemptId;
}.

(** [StepRec::default()]. *)
Definition step_rec_default : StepRec :=
  mkStepRec None None [] [] None None ∅ None None None None None None.

Record AttemptEvidenceRec := mkEvidence {
  evd_output : option string;
  evd_results : gmap string Json;
  evd_consumed : gmap string string;
  evd_workspace_input_steps : option (list StepId);
}.
Definition evidence_default : AttemptEvidenceRec := mkEvidence None ∅ ∅ None.
Definition evd_with_output (o : option string) (e : AttemptEvidenceRec) : AttemptEvidenceRec :=
  mkEvidence o (evd_results e) (evd_consumed e) (evd_workspace_input_steps e).
Definition evd_with_results (r : gmap string Json) (e : AttemptEvidenceRec) : AttemptEvidenceRec :=
  mkEvidence (evd_output e) r (evd_consumed e) (evd_workspace_input_steps e).
Definition evd_with_consumed (c : gmap string string) (e : AttemptEvidenceRec) : AttemptEvidenceRec :=
  mkEvidence (evd_output e) (evd_results e) c (evd_workspace_input_steps e).
Definition evd_with_input_steps (l : option (list StepId)) (e : AttemptEvidenceRec) : AttemptEvidenceRec :=
  mkEvidence (evd_output e) (evd_results e) (evd_consumed e) l.

Record ArtifactMeta := mkArtifactMeta {
  am_name : string; am_size : N; am_content_type : string; am_object_key : string;
}.
Record ArtifactRecord := mkArtifactRecord {
  ar_meta : ArtifactMeta; ar_step : StepId; ar_attempt : AttemptId;
  ar_succeeded : bool; ar_created_at : Timestamp;
}.

Record InMemoryState := mkState {
  (** The append-only event log. *)
  st_events : list EventKind;
  (** Current run statuses. *)
  st_runs : gmap RunId RunStatus;
  (** Per-run reopen generation; absent = 0. *)
  st_reopen_generations : gmap RunId N;
  (** Compiled IR stored per run. *)
  st_run_ir : gmap RunId Json;
  (** Per-(run, step) rows. *)
  st_steps : gmap (RunId * StepId) StepRec;
  (** The transactional outbox. *)
  st_outbox : list OutboxEntry;
  (** Launch handles. *)
  st_attempt_handles : gmap (RunId * StepId * AttemptId) string;
  (** Per-run concurrency group and policy. *)
  st_concurrency : gmap RunId (string * ConcurrencyPolicy);
  (** The single slot holder per concurrency group. *)
  st_slots : gmap string RunId;
  (** Per-run creation time. *)
  st_run_created : gmap RunId Timestamp;
  (** Runs whose creation has not finished. *)
  st_creating : gset RunId;
  (** Workspace-Snapshot pins. *)
  st_snapshot_pins : gmap RunId (option string * Timestamp);
  (** Per-run supersede key. *)
  st_supersede_keys : gmap RunId string;
  (** Per-run project. *)
  st_run_project : gmap RunId string;
  (** Per-run admission priority. *)
  st_run_priority : gmap RunId Z;
  (** Lease table: resource to (owner, expiry instant, term). *)
  st_leases : gmap string (string * Z * Z);
  (** Per-attempt evidence. *)
  st_attempt_evidence : gmap (RunId * StepId * AttemptId) AttemptEvidenceRec;
  (** A plugin gate wait's rendered inputs. *)
  st_gate_inputs : gmap (RunId * StepId * AttemptId) Json;
  (** Shared services. *)
  st_run_services : gmap (RunId * Z * string) (ServiceStatus * option string * Timestamp);
  (** One-shot race injector. *)
  st_toctou_race : option (StepId * AttemptId);
  (** Runs whose per-run reads fail. *)
  st_poisoned_runs : gset RunId;
  (** One-shot crash injector. *)
  st_event_append_failure : option (EventPayload -> bool);
  (** One-shot gate-resolution injector. *)
  st_gate_resolve_race : option (StepId * Timestamp);
  (** Keyed-cache rows: (project, key, dir) to (tree root, recorded at, provenance). *)
  st_cache_entries : gmap (string * string * string) (string * Timestamp * RunId * StepId * AttemptId);
  (** Per-run cache scope. *)
  st_run_cache_scope : gmap RunId CacheScope;
  (** Artifact versions. *)
  st_artifacts : gmap (RunId * string * StepId * AttemptId) ArtifactRecord;
  (** What no transition reads. *)
  st_meta : RunMeta;
}.

Definition set_events (x : list EventKind) (st : InMemoryState) : InMemoryState :=
  mkState x (st_runs st) (st_reopen_generations st) (st_run_ir st) (st_steps st) (st_outbox st)
    (st_attempt_handles st) (st_concurrency st) (st_slots st) (st_run_created st) (st_creating st)
    (st_snapshot_pins st) (st_supersede_keys st) (st_run_project st) (st_run_priority st)
    (st_leases st) (st_attempt_evidence st) (st_gate_inputs st) (st_run_services st)
    (st_toctou_race st) (st_poisoned_runs st) (st_event_append_failure st) (st_gate_resolve_race
    st) (st_cache_entries st) (st_run_cache_scope st) (st_artifacts st)
    (st_meta st).
Definition set_runs (x : gmap RunId RunStatus) (st : InMemoryState) : InMemoryState :=
  mkState (st_events st) x (st_reopen_generations st) (st_run_ir st) (st_steps st) (st_outbox st)
    (st_attempt_handles st) (st_concurrency st) (st_slots st) (st_run_created st) (st_creating st)
    (st_snapshot_pins st) (st_supersede_keys st) (st_run_project st) (st_run_priority st)
    (st_leases st) (st_attempt_evidence st) (st_gate_inputs st) (st_run_services st)
    (st_toctou_race st) (st_poisoned_runs st) (st_event_append_failure st) (st_gate_resolve_race
    st) (st_cache_entries st) (st_run_cache_scope st) (st_artifacts st)
    (st_meta st).
Definition set_reopen_generations (x : gmap RunId N) (st : InMemoryState) : InMemoryState :=
  mkState (st_events st) (st_runs st) x (st_run_ir st) (st_steps st) (st_outbox st)
    (st_attempt_handles st) (st_concurrency st) (st_slots st) (st_run_created st) (st_creating st)
    (st_snapshot_pins st) (st_supersede_keys st) (st_run_project st) (st_run_priority st)
    (st_leases st) (st_attempt_evidence st) (st_gate_inputs st) (st_run_services st)
    (st_toctou_race st) (st_poisoned_runs st) (st_event_append_failure st) (st_gate_resolve_race
    st) (st_cache_entries st) (st_run_cache_scope st) (st_artifacts st)
    (st_meta st).
Definition set_run_ir (x : gmap RunId Json) (st : InMemoryState) : InMemoryState :=
  mkState (st_events st) (st_runs st) (st_reopen_generations st) x (st_steps st) (st_outbox st)
    (st_attempt_handles st) (st_concurrency st) (st_slots st) (st_run_created st) (st_creating st)
    (st_snapshot_pins st) (st_supersede_keys st) (st_run_project st) (st_run_priority st)
    (st_leases st) (st_attempt_evidence st) (st_gate_inputs st) (st_run_services st)
    (st_toctou_race st) (st_poisoned_runs st) (st_event_append_failure st) (st_gate_resolve_race
    st) (st_cache_entries st) (st_run_cache_scope st) (st_artifacts st)
    (st_meta st).
Definition set_steps (x : gmap (RunId * StepId) StepRec) (st : InMemoryState) : InMemoryState :=
  mkState (st_events st) (st_runs st) (st_reopen_generations st) (st_run_ir st) x (st_outbox st)
    (st_attempt_handles st) (st_concurrency st) (st_slots st) (st_run_created st) (st_creating st)
    (st_snapshot_pins st) (st_supersede_keys st) (st_run_project st) (st_run_priority st)
    (st_leases st) (st_attempt_evidence st) (st_gate_inputs st) (st_run_services st)
    (st_toctou_race st) (st_poisoned_runs st) (st_event_append_failure st) (st_gate_resolve_race
    st) (st_cache_entries st) (st_run_cache_scope st) (st_artifacts st)
    (st_meta st).
Definition set_outbox (x : list OutboxEntry) (st : InMemoryState) : InMemoryState :=
  mkState (st_events st) (st_runs st) (st_reopen_generations st) (st_run_ir st) (st_steps st) x
    (st_attempt_handles st) (st_concurrency st) (st_slots st) (st_run_created st) (st_creating st)
    (st_snapshot_pins st) (st_supersede_keys st) (st_run_project st) (st_run_priority st)
    (st_leases st) (st_attempt_evidence st) (st_gate_inputs st) (st_run_services st)
    (st_toctou_race st) (st_poisoned_runs st) (st_event_append_failure st) (st_gate_resolve_race
    st) (st_cache_entries st) (st_run_cache_scope st) (st_artifacts st)
    (st_meta st).
Definition set_attempt_handles (x : gmap (RunId * StepId * AttemptId) string) (st : InMemoryState) :
    InMemoryState :=
  mkState (st_events st) (st_runs st) (st_reopen_generations st) (st_run_ir st) (st_steps st)
    (st_outbox st) x (st_concurrency st) (st_slots st) (st_run_created st) (st_creating st)
    (st_snapshot_pins st) (st_supersede_keys st) (st_run_project st) (st_run_priority st)
    (st_leases st) (st_attempt_evidence st) (st_gate_inputs st) (st_run_services st)
    (st_toctou_race st) (st_poisoned_runs st) (st_event_append_failure st) (st_gate_resolve_race
    st) (st_cache_entries st) (st_run_cache_scope st) (st_artifacts st)
    (st_meta st).
Definition set_concurrency (x : gmap RunId (string * ConcurrencyPolicy)) (st : InMemoryState) :
    InMemoryState :=
  mkState (st_events st) (st_runs st) (st_reopen_generations st) (st_run_ir st) (st_steps st)
    (st_outbox st) (st_attempt_handles st) x (st_slots st) (st_run_created st) (st_creating st)
    (st_snapshot_pins st) (st_supersede_keys st) (st_run_project st) (st_run_priority st)
    (st_leases st) (st_attempt_evidence st) (st_gate_inputs st) (st_run_services st)
    (st_toctou_race st) (st_poisoned_runs st) (st_event_append_failure st) (st_gate_resolve_race
    st) (st_cache_entries st) (st_run_cache_scope st) (st_artifacts st)
    (st_meta st).
Definition set_slots (x : gmap string RunId) (st : InMemoryState) : InMemoryState :=
  mkState (st_events st) (st_runs st) (st_reopen_generations st) (st_run_ir st) (st_steps st)
    (st_outbox st) (st_attempt_handles st) (st_concurrency st) x (st_run_created st) (st_creating
    st) (st_snapshot_pins st) (st_supersede_keys st) (st_run_project st) (st_run_priority st)
    (st_leases st) (st_attempt_evidence st) (st_gate_inputs st) (st_run_services st)
    (st_toctou_race st) (st_poisoned_runs st) (st_event_append_failure st) (st_gate_resolve_race
    st) (st_cache_entries st) (st_run_cache_scope st) (st_artifacts st)
    (st_meta st).
Definition set_run_created (x : gmap RunId Timestamp) (st : InMemoryState) : InMemoryState :=
  mkState (st_events st) (st_runs st) (st_reopen_generations st) (st_run_ir st) (st_steps st)
    (st_outbox st) (st_attempt_handles st) (st_concurrency st) (st_slots st) x (st_creating st)
    (st_snapshot_pins st) (st_supersede_keys st) (st_run_project st) (st_run_priority st)
    (st_leases st) (st_attempt_evidence st) (st_gate_inputs st) (st_run_services st)
    (st_toctou_race st) (st_poisoned_runs st) (st_event_append_failure st) (st_gate_resolve_race
    st) (st_cache_entries st) (st_run_cache_scope st) (st_artifacts st)
    (st_meta st).
Definition set_creating (x : gset RunId) (st : InMemoryState) : InMemoryState :=
  mkState (st_events st) (st_runs st) (st_reopen_generations st) (st_run_ir st) (st_steps st)
    (st_outbox st) (st_attempt_handles st) (st_concurrency st) (st_slots st) (st_run_created st) x
    (st_snapshot_pins st) (st_supersede_keys st) (st_run_project st) (st_run_priority st)
    (st_leases st) (st_attempt_evidence st) (st_gate_inputs st) (st_run_services st)
    (st_toctou_race st) (st_poisoned_runs st) (st_event_append_failure st) (st_gate_resolve_race
    st) (st_cache_entries st) (st_run_cache_scope st) (st_artifacts st)
    (st_meta st).
Definition set_snapshot_pins (x : gmap RunId (option string * Timestamp)) (st : InMemoryState) :
    InMemoryState :=
  mkState (st_events st) (st_runs st) (st_reopen_generations st) (st_run_ir st) (st_steps st)
    (st_outbox st) (st_attempt_handles st) (st_concurrency st) (st_slots st) (st_run_created st)
    (st_creating st) x (st_supersede_keys st) (st_run_project st) (st_run_priority st) (st_leases
    st) (st_attempt_evidence st) (st_gate_inputs st) (st_run_services st) (st_toctou_race st)
    (st_poisoned_runs st) (st_event_append_failure st) (st_gate_resolve_race st) (st_cache_entries
    st) (st_run_cache_scope st) (st_artifacts st)
    (st_meta st).
Definition set_supersede_keys (x : gmap RunId string) (st : InMemoryState) : InMemoryState :=
  mkState (st_events st) (st_runs st) (st_reopen_generations st) (st_run_ir st) (st_steps st)
    (st_outbox st) (st_attempt_handles st) (st_concurrency st) (st_slots st) (st_run_created st)
    (st_creating st) (st_snapshot_pins st) x (st_run_project st) (st_run_priority st) (st_leases
    st) (st_attempt_evidence st) (st_gate_inputs st) (st_run_services st) (st_toctou_race st)
    (st_poisoned_runs st) (st_event_append_failure st) (st_gate_resolve_race st) (st_cache_entries
    st) (st_run_cache_scope st) (st_artifacts st)
    (st_meta st).
Definition set_run_project (x : gmap RunId string) (st : InMemoryState) : InMemoryState :=
  mkState (st_events st) (st_runs st) (st_reopen_generations st) (st_run_ir st) (st_steps st)
    (st_outbox st) (st_attempt_handles st) (st_concurrency st) (st_slots st) (st_run_created st)
    (st_creating st) (st_snapshot_pins st) (st_supersede_keys st) x (st_run_priority st)
    (st_leases st) (st_attempt_evidence st) (st_gate_inputs st) (st_run_services st)
    (st_toctou_race st) (st_poisoned_runs st) (st_event_append_failure st) (st_gate_resolve_race
    st) (st_cache_entries st) (st_run_cache_scope st) (st_artifacts st)
    (st_meta st).
Definition set_run_priority (x : gmap RunId Z) (st : InMemoryState) : InMemoryState :=
  mkState (st_events st) (st_runs st) (st_reopen_generations st) (st_run_ir st) (st_steps st)
    (st_outbox st) (st_attempt_handles st) (st_concurrency st) (st_slots st) (st_run_created st)
    (st_creating st) (st_snapshot_pins st) (st_supersede_keys st) (st_run_project st) x (st_leases
    st) (st_attempt_evidence st) (st_gate_inputs st) (st_run_services st) (st_toctou_race st)
    (st_poisoned_runs st) (st_event_append_failure st) (st_gate_resolve_race st) (st_cache_entries
    st) (st_run_cache_scope st) (st_artifacts st)
    (st_meta st).
Definition set_leases (x : gmap string (string * Z * Z)) (st : InMemoryState) : InMemoryState :=
  mkState (st_events st) (st_runs st) (st_reopen_generations st) (st_run_ir st) (st_steps st)
    (st_outbox st) (st_attempt_handles st) (st_concurrency st) (st_slots st) (st_run_created st)
    (st_creating st) (st_snapshot_pins st) (st_supersede_keys st) (st_run_project st)
    (st_run_priority st) x (st_attempt_evidence st) (st_gate_inputs st) (st_run_services st)
    (st_toctou_race st) (st_poisoned_runs st) (st_event_append_failure st) (st_gate_resolve_race
    st) (st_cache_entries st) (st_run_cache_scope st) (st_artifacts st)
    (st_meta st).
Definition set_attempt_evidence (x : gmap (RunId * StepId * AttemptId) AttemptEvidenceRec) (st :
    InMemoryState) : InMemoryState :=
  mkState (st_events st) (st_runs st) (st_reopen_generations st) (st_run_ir st) (st_steps st)
    (st_outbox st) (st_attempt_handles st) (st_concurrency st) (st_slots st) (st_run_created st)
    (st_creating st) (st_snapshot_pins st) (st_supersede_keys st) (st_run_project st)
    (st_run_priority st) (st_leases st) x (st_gate_inputs st) (st_run_services st) (st_toctou_race
    st) (st_poisoned_runs st) (st_event_append_failure st) (st_gate_resolve_race st)
    (st_cache_entries st) (st_run_cache_scope st) (st_artifacts st)
    (st_meta st).
Definition set_gate_inputs (x : gmap (RunId * StepId * AttemptId) Json) (st : InMemoryState) :
    InMemoryState :=
  mkState (st_events st) (st_runs st) (st_reopen_generations st) (st_run_ir st) (st_steps st)
    (st_outbox st) (st_attempt_handles st) (st_concurrency st) (st_slots st) (st_run_created st)
    (st_creating st) (st_snapshot_pins st) (st_supersede_keys st) (st_run_project st)
    (st_run_priority st) (st_leases st) (st_attempt_evidence st) x (st_run_services st)
    (st_toctou_race st) (st_poisoned_runs st) (st_event_append_failure st) (st_gate_resolve_race
    st) (st_cache_entries st) (st_run_cache_scope st) (st_artifacts st)
    (st_meta st).
Definition set_run_services (x : gmap (RunId * Z * string) (ServiceStatus * option string *
    Timestamp)) (st : InMemoryState) : InMemoryState :=
  mkState (st_events st) (st_runs st) (st_reopen_generations st) (st_run_ir st) (st_steps st)
    (st_outbox st) (st_attempt_handles st) (st_concurrency st) (st_slots st) (st_run_created st)
    (st_creating st) (st_snapshot_pins st) (st_supersede_keys st) (st_run_project st)
    (st_run_priority st) (st_leases st) (st_attempt_evidence st) (st_gate_inputs st) x
    (st_toctou_race st) (st_poisoned_runs st) (st_event_append_failure st) (st_gate_resolve_race
    st) (st_cache_entries st) (st_run_cache_scope st) (st_artifacts st)
    (st_meta st).
Definition set_toctou_race (x : option (StepId * AttemptId)) (st : InMemoryState) : InMemoryState :=
  mkState (st_events st) (st_runs st) (st_reopen_generations st) (st_run_ir st) (st_steps st)
    (st_outbox st) (st_attempt_handles st) (st_concurrency st) (st_slots st) (st_run_created st)
    (st_creating st) (st_snapshot_pins st) (st_supersede_keys st) (st_run_project st)
    (st_run_priority st) (st_leases st) (st_attempt_evidence st) (st_gate_inputs st)
    (st_run_services st) x (st_poisoned_runs st) (st_event_append_failure st)
    (st_gate_resolve_race st) (st_cache_entries st) (st_run_cache_scope st) (st_artifacts st)
    (st_meta st).
Definition set_poisoned_runs (x : gset RunId) (st : InMemoryState) : InMemoryState :=
  mkState (st_events st) (st_runs st) (st_reopen_generations st) (st_run_ir st) (st_steps st)
    (st_outbox st) (st_attempt_handles st) (st_concurrency st) (st_slots st) (st_run_created st)
    (st_creating st) (st_snapshot_pins st) (st_supersede_keys st) (st_run_project st)
    (st_run_priority st) (st_leases st) (st_attempt_evidence st) (st_gate_inputs st)
    (st_run_services st) (st_toctou_race st) x (st_event_append_failure st) (st_gate_resolve_race
    st) (st_cache_entries st) (st_run_cache_scope st) (st_artifacts st)
    (st_meta st).
Definition set_event_append_failure (x : option (EventPayload -> bool)) (st : InMemoryState) :
    InMemoryState :=
  mkState (st_events st) (st_runs st) (st_reopen_generations st) (st_run_ir st) (st_steps st)
    (st_outbox st) (st_attempt_handles st) (st_concurrency st) (st_slots st) (st_run_created st)
    (st_creating st) (st_snapshot_pins st) (st_supersede_keys st) (st_run_project st)
    (st_run_priority st) (st_leases st) (st_attempt_evidence st) (st_gate_inputs st)
    (st_run_services st) (st_toctou_race st) (st_poisoned_runs st) x (st_gate_resolve_race st)
    (st_cache_entries st) (st_run_cache_scope st) (st_artifacts st)
    (st_meta st).
Definition set_gate_resolve_race (x : option (StepId * Timestamp)) (st : InMemoryState) :
    InMemoryState :=
  mkState (st_events st) (st_runs st) (st_reopen_generations st) (st_run_ir st) (st_steps st)
    (st_outbox st) (st_attempt_handles st) (st_concurrency st) (st_slots st) (st_run_created st)
    (st_creating st) (st_snapshot_pins st) (st_supersede_keys st) (st_run_project st)
    (st_run_priority st) (st_leases st) (st_attempt_evidence st) (st_gate_inputs st)
    (st_run_services st) (st_toctou_race st) (st_poisoned_runs st) (st_event_append_failure st) x
    (st_cache_entries st) (st_run_cache_scope st) (st_artifacts st)
    (st_meta st).
Definition set_cache_entries (x : gmap (string * string * string) (string * Timestamp * RunId *
    StepId * AttemptId)) (st : InMemoryState) : InMemoryState :=
  mkState (st_events st) (st_runs st) (st_reopen_generations st) (st_run_ir st) (st_steps st)
    (st_outbox st) (st_attempt_handles st) (st_concurrency st) (st_slots st) (st_run_created st)
    (st_creating st) (st_snapshot_pins st) (st_supersede_keys st) (st_run_project st)
    (st_run_priority st) (st_leases st) (st_attempt_evidence st) (st_gate_inputs st)
    (st_run_services st) (st_toctou_race st) (st_poisoned_runs st) (st_event_append_failure st)
    (st_gate_resolve_race st) x (st_run_cache_scope st) (st_artifacts st)
    (st_meta st).
Definition set_run_cache_scope (x : gmap RunId CacheScope) (st : InMemoryState) : InMemoryState :=
  mkState (st_events st) (st_runs st) (st_reopen_generations st) (st_run_ir st) (st_steps st)
    (st_outbox st) (st_attempt_handles st) (st_concurrency st) (st_slots st) (st_run_created st)
    (st_creating st) (st_snapshot_pins st) (st_supersede_keys st) (st_run_project st)
    (st_run_priority st) (st_leases st) (st_attempt_evidence st) (st_gate_inputs st)
    (st_run_services st) (st_toctou_race st) (st_poisoned_runs st) (st_event_append_failure st)
    (st_gate_resolve_race st) (st_cache_entries st) x (st_artifacts st)
    (st_meta st).
Definition set_artifacts (x : gmap (RunId * string * StepId * AttemptId) ArtifactRecord) (st :
    InMemoryState) : InMemoryState :=
  mkState (st_events st) (st_runs st) (st_reopen_generations st) (st_run_ir st) (st_steps st)
    (st_outbox st) (st_attempt_handles st) (st_concurrency st) (st_slots st) (st_run_created st)
    (st_creating st) (st_snapshot_pins st) (st_supersede_keys st) (st_run_project st)
    (st_run_priority st) (st_leases st) (st_attempt_evidence st) (st_gate_inputs st)
    (st_run_services st) (st_toctou_race st) (st_poisoned_runs st) (st_event_append_failure st)
    (st_gate_resolve_race st) (st_cache_entries st) (st_run_cache_scope st) x
    (st_meta st).
Definition set_meta (x : RunMeta) (st : InMemoryState) : InMemoryState :=
  mkState (st_events st) (st_runs st) (st_reopen_generations st) (st_run_ir st) (st_steps st)
    (st_outbox st) (st_attempt_handles st) (st_concurrency st) (st_slots st) (st_run_created st)
    (st_creating st) (st_snapshot_pins st) (st_supersede_keys st) (st_run_project st)
    (st_run_priority st) (st_leases st) (st_attempt_evidence st) (st_gate_inputs st)
    (st_run_services st) (st_toctou_race st) (st_poisoned_runs st) (st_event_append_failure st)
    (st_gate_resolve_race st) (st_cache_entries st) (st_run_cache_scope st) (st_artifacts st) x.

Definition rec_with_status (s : option StepStatus) (r : StepRec) : StepRec :=
  mkStepRec s (rec_spec r) (rec_needs r) (rec_attempts r) (rec_output r) (rec_output_identity r)
    (rec_results r) (rec_input r) (rec_gate_kind r) (rec_gate_timer_seconds r)
    (rec_gate_releaser r) (rec_explicit_inputs r) (rec_evidence_attempt r).
Definition rec_with_attempts (l : list Attempt) (r : StepRec) : StepRec :=
  mkStepRec (rec_status r) (rec_spec r) (rec_needs r) l (rec_output r) (rec_output_identity r)
    (rec_results r) (rec_input r) (rec_gate_kind r) (rec_gate_timer_seconds r)
    (rec_gate_releaser r) (rec_explicit_inputs r) (rec_evidence_attempt r).
Definition rec_with_input (i : option string) (r : StepRec) : StepRec :=
  mkStepRec (rec_status r) (rec_spec r) (rec_needs r) (rec_attempts r) (rec_output r)
    (rec_output_identity r) (rec_results r) i (rec_gate_kind r) (rec_gate_timer_seconds r)
    (rec_gate_releaser r) (rec_explicit_inputs r) (rec_evidence_attempt r).
Definition rec_with_output (o i : option string) (e : option AttemptId) (r : StepRec) : StepRec :=
  mkStepRec (rec_status r) (rec_spec r) (rec_needs r) (rec_attempts r) o i
    (rec_results r) (rec_input r) (rec_gate_kind r) (rec_gate_timer_seconds r)
    (rec_gate_releaser r) (rec_explicit_inputs r) e.
Definition rec_with_results (o : gmap string Json) (e : option AttemptId) (r : StepRec) : StepRec :=
  mkStepRec (rec_status r) (rec_spec r) (rec_needs r) (rec_attempts r) (rec_output r)
    (rec_output_identity r) o (rec_input r) (rec_gate_kind r) (rec_gate_timer_seconds r)
    (rec_gate_releaser r) (rec_explicit_inputs r) e.

(** [InMemoryState::default()]. *)
Definition state_empty : InMemoryState :=
  mkState [] ∅ ∅ ∅ ∅ [] ∅ ∅ ∅ ∅ ∅ ∅ ∅ ∅ ∅ ∅ ∅ ∅ ∅ None ∅ None None ∅ ∅ ∅ meta_empty.

(** ** Operations: one call under the store's lock *)

Definition Op (A : Type) : Type := InMemoryState -> Result DbError A * InMemoryState.

Definition op_ret {A} (a : A) : Op A := fun st => (Ok a, st).
Definition op_fail {A} (e : DbError) : Op A := fun st => (Err e, st).
Definition op_bind {A B} (m : Op A) (f : A -> Op B) : Op B :=
  fun st => match m st with
            | (Ok a, st') => f a st'
            | (Err e, st') => (Err e, st')
            end.
Definition op_read {A} (f : InMemoryState -> A) : Op A := fun st => (Ok (f st), st).
Definition op_modify (f : InMemoryState -> InMemoryState) : Op unit := fun st => (Ok tt, f st).
Notation "'let!' x := m 'in' k" := (op_bind m (fun x => k))
  (at level 10, x name, m at level 100, k at level 200).

(** ** Attempt ordering *)

(** Stable insertion sort ([slice::sort_by_key]). *)
Section StableSort.
Context {A : Type} (leb : A -> A -> bool).
Fixpoint ins (x : A) (l : list A) : list A :=
  match l with
  | [] => [x]
  | y :: l' => if leb x y then x :: l else y :: ins x l'
  end.
Definition sort_stable (l : list A) : list A := foldr ins [] l.
End StableSort.

(** The numeric suffix of an attempt id [a{n}] (0 for any other shape). *)
Definition attempt_number (a : Attempt) : N :=
  default 0%N (s ← strip_char "a" (att_id a); parse_u64 s).

(** Mint order by the numeric id suffix alone. *)
Definition attempt_order_key (a : Attempt) : N :=
  default u64_max (s ← strip_char "a" (att_id a); parse_u64 s).

Definition sort_attempts (l : list Attempt) : list Attempt :=
  sort_stable (fun a b => (attempt_order_key a <=? attempt_order_key b)%N) l.

(** [iter().max_by_key(attempt_order_key)]: the last of the maxima. *)
Definition max_by_order (l : list Attempt) : option Attempt :=
  foldl (fun acc a => match acc with
                      | None => Some a
                      | Some b => if (attempt_order_key b <=? attempt_order_key a)%N
                                  then Some a else acc
                      end) None l.

(** [map(attempt_number).max().unwrap_or(0) + 1]; the [u64] addition is left
    unbounded: it overflows only past [u64::MAX] attempts of one step, which
    [atts_wf] below names. *)
Definition next_attempt_number (l : list Attempt) : N :=
  (foldr (fun a m => N.max (attempt_number a) m) 0 l + 1)%N.
Definition attempt_name (n : N) : AttemptId := "a" +:+ pretty n.

(** [iter_mut().find(p)] then a write: replace the first match. *)
Fixpoint update_first {A} (p : A -> bool) (f : A -> A) (l : list A) : list A :=
  match l with
  | [] => []
  | x :: l' => if p x then f x :: l' else x :: update_first p f l'
  end.

(** ** The leader fence and the lease *)

Definition holds_leader_term (leader : LeaderTerm) : Op unit := fun st =>
  match st_leases st !! lt_resource leader with
  | Some (owner, _, term) =>
      if String.eqb owner (lt_owner leader) && (term =? lt_term leader)%Z
      then (Ok tt, st) else (Err DbNotLeader, st)
  | None => (Err DbNotLeader, st)
  end.
Definition holds_leader_term_if (leader : option LeaderTerm) : Op unit :=
  match leader with None => op_ret tt | Some l => holds_leader_term l end.

(** [now] is [Instant::now()]. *)
Definition lease (now : Z) (resource owner : string) (ttl_ms : Z) : Op Lease := fun st =>
  let ttl := Z.max ttl_ms 0 in
  let take holder term :=
    (Ok (mkLease holder ttl_ms term),
     set_leases (<[resource := (holder, now + ttl, term)%Z]> (st_leases st)) st) in
  match st_leases st !! resource with
  | None => take owner 1%Z
  | Some (holder, expires, term) =>
      if String.eqb holder owner then take holder term
      else if (now <? expires)%Z then (Ok (mkLease holder ttl_ms term), st)
      else take owner (term + 1)%Z
  end.

(** ** The crash injector, the reopen bump, the outbox append *)

Definition take_event_append_failure (events : list EventKind) : Op unit := fun st =>
  match st_event_append_failure st with
  | Some matches =>
      if existsb (fun e => matches (ev_kind e)) events
      then (Err (DbOther "injected: event append failed (crash between CAS and journal)"),
            set_event_append_failure None st)
      else (Ok tt, st)
  | None => (Ok tt, st)
  end.

Definition bump_reopen_generation_locked (run : RunId) (from : RunStatus) (st : InMemoryState)
  : InMemoryState :=
  if run_is_terminal from
  then set_reopen_generations
         (<[run := (default 0 (st_reopen_generations st !! run) + 1)%N]> (st_reopen_generations st)) st
  else st.

Definition msg_with_id (id : Z) (m : OutboxMessage) : OutboxMessage :=
  mkMsg id (msg_run m) (msg_kind m) (msg_payload m) (msg_key m) (msg_at m).

Definition enqueue_outbox_locked (msg : OutboxMessage) (st : InMemoryState) : InMemoryState :=
  if existsb (fun e => String.eqb (msg_key (oe_msg e)) (msg_key msg)) (st_outbox st) then st
  else
    let id := (Z.of_nat (length (st_outbox st)) + 1)%Z in
    set_outbox (st_outbox st ++ [mkEntry (msg_with_id id msg) None None false 0 false]) st.
Definition enqueue_all (msgs : list OutboxMessage) (st : InMemoryState) : InMemoryState :=
  foldl (fun st m => enqueue_outbox_locked m st) st msgs.

Definition push_events (es : list EventKind) (st : InMemoryState) : InMemoryState :=
  set_events (st_events st ++ es) st.

(** [get_mut(&key)] and a write; nothing when the row is absent. *)
Definition update_step (key : RunId * StepId) (f : StepRec -> StepRec) (st : InMemoryState)
  : InMemoryState := set_steps (alter f key (st_steps st)) st.

(** ** Attempt stamps *)

Definition terminal_by_intent (o : AttemptOutcome) : bool :=
  match o with OSuperseded | OCancelled => true | _ => false end.

Definition stamp_attempt (stamp : AttemptStamp) (a : Attempt) : Attempt :=
  if terminal_by_intent (att_outcome a) then a
  else match stamp with
       | StampOutcome o => mkAttempt (att_id a) (att_started_at a) (att_failure a) (att_failure_detail a) o
       | StampFailure kind detail => mkAttempt (att_id a) (att_started_at a) (Some kind) detail OFailed
       end.

Definition stamp_attempt_locked (run : RunId) (step : StepId) (attempt : AttemptId)
    (stamp : AttemptStamp) (st : InMemoryState) : InMemoryState :=
  update_step (run, step) (fun r => rec_with_attempts
    (update_first (fun a => String.eqb (att_id a) attempt) (stamp_attempt stamp) (rec_attempts r)) r) st.

(** ** Step transitions *)

Definition check_step_transition_locked (run : RunId) (step : StepId) (from : StepStatus)
  : Op unit := fun st =>
  match st_toctou_race st with
  | Some (s, attempt) =>
      if String.eqb s step then
        (Err DbConflict,
         update_step (run, step) (fun r => rec_with_attempts
            (rec_attempts r ++ [mkAttempt attempt 0 None None ORunning])
            (rec_with_status (Some StepRunning) r)) (set_toctou_race None st))
      else match st_steps st !! (run, step) with
           | Some r => if decide (rec_status r = Some from) then (Ok tt, st) else (Err DbConflict, st)
           | None => (Err DbConflict, st)
           end
  | None =>
      match st_steps st !! (run, step) with
      | Some r => if decide (rec_status r = Some from) then (Ok tt, st) else (Err DbConflict, st)
      | None => (Err DbConflict, st)
      end
  end.

Definition record_step_transition (run : RunId) (step : StepId) (from to : StepStatus) : Op unit :=
  let! _ := check_step_transition_locked run step from in
  op_modify (update_step (run, step) (rec_with_status (Some to))).

Definition check_frontier (run : RunId) (step : StepId) (frontier : AttemptFrontier) : Op unit :=
  fun st =>
  match frontier with
  | FrontierAny => (Ok tt, st)
  | FrontierIs expected =>
      let latest := r ← st_steps st !! (run, step); a ← max_by_order (rec_attempts r); Some (att_id a) in
      if decide (latest = expected) then (Ok tt, st) else (Err DbConflict, st)
  end.

Definition commit_step_transition (run : RunId) (step : StepId) (from to : StepStatus)
    (frontier : AttemptFrontier) (stamp : option (AttemptId * AttemptStamp))
    (events : list EventKind) (outbox : list OutboxMessage) : Op unit :=
  let! _ := check_step_transition_locked run step from in
  let! _ := check_frontier run step frontier in
  let! _ := take_event_append_failure events in
  op_modify (fun st =>
    let st := update_step (run, step) (rec_with_status (Some to)) st in
    let st := match stamp with
              | Some (a, s) => stamp_attempt_locked run step a s st
              | None => st
              end in
    enqueue_all outbox (push_events events st)).

Definition promote_step (leader : LeaderTerm) (run : RunId) (step : StepId) (signature : string)
    (events : list EventKind) : Op unit :=
  let! _ := holds_leader_term leader in
  let! _ := check_step_transition_locked run step StepPending in
  let! _ := take_event_append_failure events in
  op_modify (fun st => push_events events
    (update_step (run, step)
       (fun r => rec_with_input (Some signature) (rec_with_status (Some StepReady) r)) st)).

(** ** Run transitions *)

Definition record_transition (run : RunId) (from to : RunStatus) : Op unit := fun st =>
  let current := default RunPending (st_runs st !! run) in
  if decide (current = from)
  then (Ok tt, bump_reopen_generation_locked run from (set_runs (<[run := to]> (st_runs st)) st))
  else (Err DbConflict, st).

Definition run_reopen_generation (run : RunId) (st : InMemoryState) : N :=
  default 0%N (st_reopen_generations st !! run).

Definition commit_run_transition (leader : option LeaderTerm) (run : RunId) (from to : RunStatus)
    (generation : N) (events : list EventKind) (outbox : list OutboxMessage) : Op unit :=
  let! _ := holds_leader_term_if leader in
  let! _ := (fun st =>
    let current := default RunPending (st_runs st !! run) in
    if decide (current = from /\ run_reopen_generation run st = generation)
    then (Ok tt, st) else (Err DbConflict, st)) in
  let! _ := take_event_append_failure events in
  op_modify (fun st => enqueue_all outbox (push_events events
    (bump_reopen_generation_locked run from (set_runs (<[run := to]> (st_runs st)) st)))).

Definition append_event (e : EventKind) : Op unit :=
  let! _ := take_event_append_failure [e] in
  op_modify (push_events [e]).

(** ** Runs and steps *)

Definition create_run (run : RunId) (at_ : Timestamp) : Op unit :=
  op_modify (fun st => set_run_created (<[run := at_]> (st_run_created st))
    (set_runs (<[run := RunPending]> (st_runs st)) st)).

Definition begin_run_creation (run : RunId) (at_ : Timestamp) : Op unit :=
  op_modify (fun st => set_creating ({[run]} ∪ st_creating st)
    (set_run_created (<[run := at_]> (st_run_created st))
    (set_runs (<[run := RunPending]> (st_runs st)) st))).

Definition finish_run_creation (run : RunId) : Op unit :=
  op_modify (fun st => set_creating (st_creating st ∖ {[run]}) st).

Definition run_creation_unfinished (run : RunId) : Op bool :=
  op_read (fun st => bool_decide (run ∈ st_creating st)).

Definition unfinished_creations_before (created_before : Timestamp) : Op (list RunId) :=
  op_read (fun st =>
    let stale := omap (fun r =>
      if decide (st_runs st !! r = Some RunPending) then
        at_ ← st_run_created st !! r;
        if decide (at_ < created_before)%Z then Some (at_, r) else None
      else None) (elements (st_creating st)) in
    map snd (sort_stable (fun a b => (a.1 <? b.1)%Z || ((a.1 =? b.1)%Z && String.leb a.2 b.2)) stale)).

Definition create_step_run (run : RunId) (step : StepId) (spec : option StepSpec)
    (needs : list StepId) : Op unit :=
  op_modify (fun st => set_steps (<[(run, step) :=
    mkStepRec (Some StepPending) spec needs [] None None ∅ None None None None None None]>
    (st_steps st)) st).

Definition step_run_of (run : RunId) (step : StepId) (r : StepRec) : option StepRun :=
  status ← rec_status r;
  Some (mkStepRun run step status (sort_attempts (rec_attempts r)) (rec_needs r) (rec_gate_kind r)).

(** The rows of [run] ordered by step id. *)
Definition step_rows (run : RunId) (st : InMemoryState) : list StepRun :=
  sort_stable (fun a b => String.leb (sr_step a) (sr_step b))
    (omap (fun kv => if decide (kv.1.1 = run) then step_run_of kv.1.1 kv.1.2 kv.2 else None)
       (map_to_list (st_steps st))).

Definition steps_of_run (run : RunId) : Op (list StepRun) := fun st =>
  if decide (run ∈ st_poisoned_runs st)
  then (Err (DbOther ("injected: run " +:+ run +:+ " is poisoned (advance leg)")), st)
  else (Ok (step_rows run st), st).

Definition attempts_of_step (run : RunId) (step : StepId) : Op (list Attempt) :=
  op_read (fun st => sort_attempts (default [] (rec_attempts <$> st_steps st !! (run, step)))).

Definition run_status_of (run : RunId) : Op (option RunStatus) :=
  op_read (fun st => st_runs st !! run).
Definition events_of (run : RunId) : Op (list EventKind) :=
  op_read (fun st => List.filter (fun e => String.eqb (ev_run e) run) (st_events st)).

Definition active_runs : Op (list RunId) :=
  op_read (fun st =>
    let out := omap (fun kv => if negb (run_is_terminal kv.2) && bool_decide (kv.1 ∉ st_creating st)
                               then Some kv.1 else None) (map_to_list (st_runs st)) in
    let pri r := default 0%Z (st_run_priority st !! r) in
    let cre r := default 0%Z (st_run_created st !! r) in
    sort_stable (fun a b =>
      (pri b <? pri a)%Z
      || ((pri a =? pri b)%Z && ((cre a <? cre b)%Z || ((cre a =? cre b)%Z && String.leb a b)))) out).

Definition set_step_output (run : RunId) (step : StepId) (attempt : AttemptId) (snapshot : string)
    (identity : option string) : Op unit := fun st =>
  match st_steps st !! (run, step) with
  | None => (Err DbConflict, st)
  | Some _ =>
      let st := update_step (run, step) (rec_with_output (Some snapshot) identity (Some attempt)) st in
      let k := (run, step, attempt) in
      let e := default evidence_default (st_attempt_evidence st !! k) in
      (Ok tt, set_attempt_evidence (<[k := evd_with_output (Some snapshot) e]>
                (st_attempt_evidence st)) st)
  end.
(** [entry(key).or_default()] and a write. *)
Definition update_evidence (k : RunId * StepId * AttemptId)
    (f : AttemptEvidenceRec -> AttemptEvidenceRec) (st : InMemoryState) : InMemoryState :=
  set_attempt_evidence (<[k := f (default evidence_default (st_attempt_evidence st !! k))]>
    (st_attempt_evidence st)) st.

Definition set_step_results (run : RunId) (step : StepId) (attempt : AttemptId)
    (results : gmap string Json) : Op unit := fun st =>
  match st_steps st !! (run, step) with
  | None => (Err DbConflict, st)
  | Some _ =>
      let st := update_step (run, step) (rec_with_results results (Some attempt)) st in
      (Ok tt, update_evidence (run, step, attempt) (evd_with_results results) st)
  end.
Definition ingest_attempt_results (run : RunId) (step : StepId) (attempt : AttemptId)
    (results : gmap string Json) : Op unit := fun st =>
  match st_steps st !! (run, step) with
  | None => (Err DbConflict, st)
  | Some r =>
      if decide (rec_status r = Some StepRunning
                 /\ att_id <$> max_by_order (rec_attempts r) = Some attempt) then
        let st := update_step (run, step) (rec_with_results results (Some attempt)) st in
        (Ok tt, update_evidence (run, step, attempt) (evd_with_results results) st)
      else (Err DbConflict, st)
  end.
Definition step_evidence_attempt (run : RunId) (step : StepId) : Op (option AttemptId) :=
  op_read (fun st => r ← st_steps st !! (run, step); rec_evidence_attempt r).
Definition set_attempt_consumed (run : RunId) (step : StepId) (attempt : AttemptId)
    (consumed_ : gmap string string) : Op unit :=
  op_modify (update_evidence (run, step, attempt) (evd_with_consumed consumed_)).
Definition set_attempt_workspace_input_steps (run : RunId) (step : StepId) (attempt : AttemptId)
    (steps : list StepId) : Op unit :=
  op_modify (update_evidence (run, step, attempt) (evd_with_input_steps (Some steps))).
Definition attempt_workspace_input_steps (run : RunId) (step : StepId) (attempt : AttemptId)
  : Op (option (list StepId)) :=
  op_read (fun st => e ← st_attempt_evidence st !! (run, step, attempt); evd_workspace_input_steps e).

Definition put_artifacts (run : RunId) (step : StepId) (attempt : AttemptId) (succeeded_ : bool)
    (artifacts : list ArtifactMeta) (at_ : Timestamp) : Op unit :=
  op_modify (fun st => set_artifacts (foldl (fun m a =>
    <[(run, am_name a, step, attempt) := mkArtifactRecord a step attempt succeeded_ at_]> m)
    (st_artifacts st) artifacts) st).

Definition cache_record (project key dir tree_root : string) (run : RunId) (step : StepId)
    (attempt : AttemptId) (now : Timestamp) : Op unit :=
  op_modify (fun st => set_cache_entries
    (<[(project, key, dir) := (tree_root, now, run, step, attempt)]> (st_cache_entries st)) st).
Definition cache_lookup (project key : string) : Op (list (string * string)) :=
  op_read (fun st =>
    let rows := omap (fun kv => if decide (kv.1.1 = (project, key))
                                then Some (kv.1.2, kv.2.1.1.1.1) else None)
                  (map_to_list (st_cache_entries st)) in
    sort_stable (fun a b => match String.compare a.1 b.1 with
                            | Lt => true | Gt => false | Eq => String.leb a.2 b.2 end) rows).
Definition run_cache_scope (run : RunId) : Op (option CacheScope) :=
  op_read (fun st => st_run_cache_scope st !! run).

Definition step_output (run : RunId) (step : StepId) : Op (option string) :=
  op_read (fun st => r ← st_steps st !! (run, step); rec_output r).
Definition step_output_identity (run : RunId) (step : StepId) : Op (option string) :=
  op_read (fun st => r ← st_steps st !! (run, step);
                     match rec_output_identity r with Some i => Some i | None => rec_output r end).
Definition step_inputs (run : RunId) (step : StepId) : Op (option (list StepId)) :=
  op_read (fun st => r ← st_steps st !! (run, step); rec_explicit_inputs r).
Definition step_input (run : RunId) (step : StepId) : Op (option string) :=
  op_read (fun st => r ← st_steps st !! (run, step); rec_input r).
Definition set_step_input (run : RunId) (step : StepId) (signature : option string) : Op unit :=
  op_modify (update_step (run, step) (rec_with_input signature)).
Definition step_spec (run : RunId) (step : StepId) : Op (option StepSpec) :=
  op_read (fun st => r ← st_steps st !! (run, step); rec_spec r).
Definition gate_releaser (run : RunId) (step : StepId) : Op (option string) :=
  op_read (fun st => r ← st_steps st !! (run, step); rec_gate_releaser r).
Definition gate_timer_seconds (run : RunId) (step : StepId) : Op (option Z) :=
  op_read (fun st => r ← st_steps st !! (run, step); rec_gate_timer_seconds r).

Definition record_attempt (run : RunId) (step : StepId) (attempt : Attempt) : Op unit :=
  op_modify (fun st =>
    let r := default step_rec_default (st_steps st !! (run, step)) in
    let r := if existsb (fun a => String.eqb (att_id a) (att_id attempt)) (rec_attempts r)
             then r else rec_with_attempts (rec_attempts r ++ [attempt]) r in
    set_steps (<[(run, step) := r]> (st_steps st)) st).

Definition set_attempt_handle (run : RunId) (step : StepId) (attempt : AttemptId) (handle : string)
  : Op unit :=
  op_modify (fun st => set_attempt_handles (<[(run, step, attempt) := handle]> (st_attempt_handles st)) st).
Definition attempt_handle (run : RunId) (step : StepId) (attempt : AttemptId) : Op (option string) :=
  op_read (fun st => st_attempt_handles st !! (run, step, attempt)).
Definition set_attempt_failure (run : RunId) (step : StepId) (attempt : AttemptId)
    (failure : FailureKind) (detail : option string) : Op unit :=
  op_modify (stamp_attempt_locked run step attempt (StampFailure failure detail)).
Definition set_attempt_outcome (run : RunId) (step : StepId) (attempt : AttemptId)
    (outcome : AttemptOutcome) : Op unit :=
  op_modify (stamp_attempt_locked run step attempt (StampOutcome outcome)).

Definition step_results (run : RunId) (step : StepId) : Op (gmap string Json) :=
  op_read (fun st => default ∅ (rec_results <$> st_steps st !! (run, step))).

(** ** What Run creation writes *)

Definition store_run_ir (run : RunId) (ir : Json) : Op unit :=
  op_modify (fun st => set_run_ir (<[run := ir]> (st_run_ir st)) st).
Definition set_step_inputs (run : RunId) (step : StepId) (inputs : list StepId) : Op unit :=
  op_modify (update_step (run, step) (fun r =>
    mkStepRec (rec_status r) (rec_spec r) (rec_needs r) (rec_attempts r) (rec_output r) (rec_output_identity r)
      (rec_results r) (rec_input r) (rec_gate_kind r) (rec_gate_timer_seconds r) (rec_gate_releaser r)
      (Some inputs) (rec_evidence_attempt r))).
Definition set_step_gate (run : RunId) (step : StepId) (kind : string) (timer_seconds : option Z) : Op unit :=
  op_modify (update_step (run, step) (fun r =>
    mkStepRec (rec_status r) (rec_spec r) (rec_needs r) (rec_attempts r) (rec_output r) (rec_output_identity r)
      (rec_results r) (rec_input r) (Some kind) timer_seconds (rec_gate_releaser r)
      (rec_explicit_inputs r) (rec_evidence_attempt r))).
Definition set_gate_releaser (run : RunId) (step : StepId) (releaser : string) : Op unit :=
  op_modify (update_step (run, step) (fun r =>
    mkStepRec (rec_status r) (rec_spec r) (rec_needs r) (rec_attempts r) (rec_output r) (rec_output_identity r)
      (rec_results r) (rec_input r) (rec_gate_kind r) (rec_gate_timer_seconds r) (Some releaser)
      (rec_explicit_inputs r) (rec_evidence_attempt r))).
Definition set_supersede_key (run : RunId) (key : string) : Op unit :=
  op_modify (fun st => set_supersede_keys (<[run := key]> (st_supersede_keys st)) st).
Definition set_run_scheduling (run : RunId) (project : string) (priority : Z) : Op unit :=
  op_modify (fun st => set_run_priority (<[run := priority]> (st_run_priority st))
    (set_run_project (<[run := project]> (st_run_project st)) st)).
Definition record_run_cache_scope (run : RunId) (scope : CacheScope) : Op unit :=
  op_modify (fun st => set_run_cache_scope (<[run := scope]> (st_run_cache_scope st)) st).

(** ** Run metadata *)

Definition meta_write (f : RunMeta -> RunMeta) : Op unit := op_modify (fun st => set_meta (f (st_meta st)) st).
Definition meta_read {A} (f : RunMeta -> A) : Op A := op_read (fun st => f (st_meta st)).

Definition set_run_params (run : RunId) (params : gmap string Json) : Op unit :=
  meta_write (fun v => meta_params (<[run := params]> (rm_params v)) v).
Definition run_params (run : RunId) : Op (gmap string Json) := meta_read (fun v => default ∅ (rm_params v !! run)).
Definition set_run_event_facts (run : RunId) (facts : gmap string Json) : Op unit :=
  meta_write (fun v => meta_event_facts (<[run := facts]> (rm_event_facts v)) v).
Definition run_event_facts (run : RunId) : Op (gmap string Json) :=
  meta_read (fun v => default ∅ (rm_event_facts v !! run)).
Definition set_run_deploy_context (run : RunId) (ctx : DeployContext) : Op unit :=
  meta_write (fun v => meta_deploy (<[run := ctx]> (rm_deploy v)) v).
Definition run_deploy_context (run : RunId) : Op (option DeployContext) := meta_read (fun v => rm_deploy v !! run).
Definition mark_deploy_run (run : RunId) (steps : list StepId) : Op unit :=
  meta_write (fun v => meta_deploy_runs (<[run := steps]> (rm_deploy_runs v)) v).
Definition deploy_steps_of_run (run : RunId) : Op (list StepId) :=
  meta_read (fun v => default [] (rm_deploy_runs v !! run)).
Definition set_run_tenant (run : RunId) (org project : string) : Op unit :=
  meta_write (fun v => meta_tenant (<[run := (org, project)]> (rm_tenant v)) v).
Definition run_tenant (run : RunId) : Op (option (string * string)) := meta_read (fun v => rm_tenant v !! run).
(** [i64] addition, left unbounded: it overflows only past [i64::MAX] Runs of
    one repository. *)
Definition allocate_run_number (run : RunId) (org project : string) : Op Z := fun st =>
  let v := st_meta st in
  let n := (default 0 (rm_counters v !! (org, project)) + 1)%Z in
  (Ok n, set_meta (meta_number (<[run := n]> (rm_number v))
           (meta_counters (<[(org, project) := n]> (rm_counters v)) v)) st).
Definition run_number (run : RunId) : Op (option Z) := meta_read (fun v => rm_number v !! run).
Definition set_run_origin (run : RunId) (origin : RunOrigin) : Op unit :=
  meta_write (fun v => meta_origin (<[run := origin]> (rm_origin v)) v).
Definition run_pr_base (run : RunId) : Op (option string) :=
  meta_read (fun v => o ← rm_origin v !! run; or_pr_base o).
Definition set_run_pipeline (run : RunId) (pipeline : string) : Op unit :=
  meta_write (fun v => meta_pipeline (<[run := pipeline]> (rm_pipeline v)) v).
Definition run_pipeline (run : RunId) : Op (option string) := meta_read (fun v => rm_pipeline v !! run).
Definition set_run_trigger_title (run : RunId) (title : string) : Op unit :=
  meta_write (fun v => meta_trigger_title (<[run := title]> (rm_trigger_title v)) v).
Definition run_trigger_title (run : RunId) : Op (option string) := meta_read (fun v => rm_trigger_title v !! run).
Definition record_refused_run (r : RefusedRun) : Op unit :=
  meta_write (fun v => meta_refused
    (rm_refused v ++ [refused_with_id (Z.of_nat (length (rm_refused v)) + 1) r]) v).

(** Idempotent on [seq]. *)
Definition append_log_chunk (run : RunId) (step : StepId) (attempt : AttemptId) (meta : LogChunkMeta) : Op unit :=
  meta_write (fun v =>
    let chunks := default [] (rm_logs v !! (run, step, attempt)) in
    let chunks := if existsb (fun c => (lc_seq c =? lc_seq meta)%N) chunks then chunks
                  else sort_stable (fun a b => (lc_seq a <=? lc_seq b)%N) (chunks ++ [meta]) in
    meta_logs (<[(run, step, attempt) := chunks]> (rm_logs v)) v).
Definition log_chunks (run : RunId) (step : StepId) (attempt : AttemptId) : Op (list LogChunkMeta) :=
  meta_read (fun v => default [] (rm_logs v !! (run, step, attempt))).
Definition delete_log_index_of_run (run : RunId) : Op unit :=
  meta_write (fun v => meta_logs (filter (fun kv => kv.1.1.1 <> run) (rm_logs v)) v).

(** ** Retention *)

Definition delete_artifacts_of_run (run : RunId) : Op unit :=
  op_modify (fun st => set_artifacts (filter (fun kv => kv.1.1.1.1 <> run) (st_artifacts st)) st).

(** The rows whose recorded root is [root], and the store with it cleared. *)
Definition forget_root (root : string) (o : option string) : option string :=
  if decide (o = Some root) then None else o.
Definition forget_workspace_root (root : string) : Op N := fun st =>
  let steps := filter (fun kv => rec_output kv.2 = Some root) (st_steps st) in
  let evidence := filter (fun kv => evd_output kv.2 = Some root) (st_attempt_evidence st) in
  (Ok (N.of_nat (size steps + size evidence)),
   set_attempt_evidence ((fun e => evd_with_output (forget_root root (evd_output e)) e) <$> st_attempt_evidence st)
     (set_steps ((fun r => rec_with_output (forget_root root (rec_output r)) (rec_output_identity r)
                             (rec_evidence_attempt r) r) <$> st_steps st) st)).

(** ** Claiming ready steps *)

Record StepLaunch := mkLaunch {
  la_attempt : Attempt;
  la_events : list EventKind;
  la_outbox : list OutboxMessage;
}.

(** The ready rows, in (run, step) order, as [Running] steps to mint for. *)
Definition ready_steps (st : InMemoryState) : list StepRun :=
  let keys := omap (fun kv => if decide (rec_status kv.2 = Some StepReady) then Some kv else None)
                (map_to_list (st_steps st)) in
  let sorted := sort_stable (fun a b =>
     match String.compare a.1.1 b.1.1 with
     | Lt => true | Gt => false | Eq => String.leb a.1.2 b.1.2 end) keys in
  map (fun kv => mkStepRun kv.1.1 kv.1.2 StepRunning (sort_attempts (rec_attempts kv.2))
                   (rec_needs kv.2) (rec_gate_kind kv.2)) sorted.

Fixpoint mint_all (mint : StepRun -> Result DbError StepLaunch) (l : list StepRun)
  : Result DbError (list (StepRun * StepLaunch)) :=
  match l with
  | [] => Ok []
  | s :: l' => la ← mint s; rest ← mint_all mint l'; Ok ((s, la) :: rest)
  end.

Definition commit_launch (p : StepRun * StepLaunch) (st : InMemoryState) : InMemoryState :=
  let '(step, la) := p in
  let st := update_step (sr_run step, sr_step step) (fun r =>
    let r := rec_with_status (Some StepRunning) r in
    if existsb (fun a => String.eqb (att_id a) (att_id (la_attempt la))) (rec_attempts r) then r
    else rec_with_attempts (rec_attempts r ++ [la_attempt la]) r) st in
  enqueue_all (la_outbox la) (push_events (la_events la) st).

Definition claim_ready_steps (leader : LeaderTerm) (limit : N)
    (mint : StepRun -> Result DbError StepLaunch) : Op (list StepRun) :=
  let! _ := holds_leader_term leader in
  fun st =>
  match mint_all mint (take (N.to_nat limit) (ready_steps st)) with
  | Err e => (Err e, st)
  | Ok claimed =>
      match take_event_append_failure (concat (map (fun p => la_events p.2) claimed)) st with
      | (Err e, st') => (Err e, st')
      | (Ok _, st') => (Ok (map fst claimed), foldl (fun st p => commit_launch p st) st' claimed)
      end
  end.

(** ** Gate waits *)

Definition open_gate_wait (leader : LeaderTerm) (run : RunId) (step : StepId)
    (started_at at_ : Timestamp) : Op (option Attempt) :=
  let! _ := holds_leader_term leader in
  fun st =>
  match st_steps st !! (run, step) with
  | None => (Ok None, st)
  | Some r =>
      if decide (rec_status r = Some StepPending) then
        let sorted := sort_attempts (rec_attempts r) in
        let st := update_step (run, step) (rec_with_attempts sorted) st in
        let mint :=
          let attempt := mkAttempt (attempt_name (next_attempt_number sorted))
                           (Z.min started_at at_) None None ORunning in
          (Ok (Some attempt),
           push_events [event run (AttemptStarted step (att_id attempt)) at_]
             (update_step (run, step) (rec_with_attempts (sorted ++ [attempt])) st)) in
        match last sorted with
        | Some o => if decide (att_outcome o = ORunning) then (Ok (Some o), st) else mint
        | None => mint
        end
      else (Ok None, st)
  end.

Definition close_gate_attempt (res : GateResolution) (a : Attempt) : Attempt :=
  if gr_passed res
  then mkAttempt (att_id a) (att_started_at a) None (attempt_detail res) OSucceeded
  else mkAttempt (att_id a) (att_started_at a) (Some FGate) (attempt_detail res) OFailed.

(** Which attempt the verdict closes, whether it was minted closed, and the
    attempts after it; [None] when the fence is not an open wait. *)
Definition resolve_attempts (res : GateResolution) (sorted : list Attempt)
  : option (AttemptId * bool * list Attempt) :=
  match gr_fence res with
  | Some f =>
      let is_fence a := String.eqb (att_id a) f && bool_decide (att_outcome a = ORunning) in
      if existsb is_fence sorted
      then Some (f, false, update_first is_fence (close_gate_attempt res) sorted)
      else None
  | None =>
      let mint :=
        let id := attempt_name (next_attempt_number sorted) in
        Some (id, true, sorted ++ [close_gate_attempt res
               (mkAttempt id (Z.min (gr_legacy_started_at res) (gr_at res)) None None ORunning)]) in
      match last sorted with
      | Some a => if decide (att_outcome a = ORunning)
                  then Some (att_id a, false, map_last (close_gate_attempt res) sorted) else mint
      | None => mint
      end
  end.

Definition resolve_gate_wait_locked (run : RunId) (step : StepId) (res : GateResolution)
    (st : InMemoryState) : option AttemptId * InMemoryState :=
  match st_steps st !! (run, step) with
  | None => (None, st)
  | Some r =>
      if decide (rec_status r = Some StepPending) then
        let sorted := sort_attempts (rec_attempts r) in
        match resolve_attempts res sorted with
        | None => (None, update_step (run, step) (rec_with_attempts sorted) st)
        | Some (attempt, minted, attempts) =>
            let status := Some (if gr_passed res then StepSucceeded else StepFailed) in
            let st := update_step (run, step)
                        (fun r => rec_with_status status (rec_with_attempts attempts r)) st in
            let st := match gr_passed res, gr_outputs res with
              | true, Some outputs =>
                  let st := update_step (run, step) (rec_with_results outputs (Some attempt)) st in
                  let k := (run, step, attempt) in
                  let e := default evidence_default (st_attempt_evidence st !! k) in
                  set_attempt_evidence (<[k := evd_with_results outputs e]>
                    (st_attempt_evidence st)) st
              | _, _ => st
              end in
            (Some attempt,
             push_events (map (fun kind => event run kind (gr_at res))
                            (gate_resolution_events step attempt minted res)) st)
        end
      else (None, st)
  end.

Definition resolve_gate_wait (run : RunId) (step : StepId) (res : GateResolution)
  : Op (option AttemptId) := fun st =>
  let '(a, st') := resolve_gate_wait_locked run step res st in (Ok a, st').

Definition close_running_attempt (run : RunId) (step : StepId) (attempt : AttemptId)
    (outcome : AttemptOutcome) (ev : option EventKind) : Op bool := fun st =>
  let st := match st_gate_resolve_race st with
    | Some (s, at_) =>
        if String.eqb s step then
          (resolve_gate_wait_locked run step
             (mkGateResolution true "released" false None None at_ at_ None)
             (set_gate_resolve_race None st)).2
        else st
    | None => st
    end in
  let named a := String.eqb (att_id a) attempt in
  match r ← st_steps st !! (run, step); List.find named (rec_attempts r) with
  | Some a =>
      if decide (att_outcome a = ORunning) then
        let st := update_step (run, step) (fun r => rec_with_attempts (update_first named
          (fun a => mkAttempt (att_id a) (att_started_at a) (att_failure a) (att_failure_detail a) outcome)
          (rec_attempts r)) r) st in
        (Ok true, match ev with Some e => push_events [e] st | None => st end)
      else (Ok false, st)
  | None => (Ok false, st)
  end.

Definition set_gate_wait_inputs (leader : LeaderTerm) (run : RunId) (step : StepId)
    (attempt : AttemptId) (inputs : Json) : Op bool :=
  let! _ := holds_leader_term leader in
  fun st =>
  let running := match r ← st_steps st !! (run, step);
                       List.find (fun a => String.eqb (att_id a) attempt) (rec_attempts r) with
                 | Some a => bool_decide (att_outcome a = ORunning)
                 | None => false
                 end in
  let key := (run, step, attempt) in
  if negb running || bool_decide (is_Some (st_gate_inputs st !! key)) then (Ok false, st)
  else (Ok true, set_gate_inputs (<[key := inputs]> (st_gate_inputs st)) st).
Definition gate_wait_inputs (run : RunId) (step : StepId) (attempt : AttemptId) : Op (option Json) :=
  op_read (fun st => st_gate_inputs st !! (run, step, attempt)).

(** ** The outbox *)

Definition enqueue_outbox (msg : OutboxMessage) : Op unit := op_modify (enqueue_outbox_locked msg).

Fixpoint claim_entries (now : Z) (owner : string) (kind : option string) (visibility_ms : Z)
    (limit : nat) (l : list OutboxEntry) : list OutboxMessage * list OutboxEntry :=
  match limit, l with
  | O, _ | _, [] => ([], l)
  | S limit', e :: l' =>
      let kind_ok := match kind with None => true | Some k => String.eqb (msg_kind (oe_msg e)) k end in
      let claim_free := match oe_claimed_until e with None => true | Some until => (until <=? now)%Z end in
      if negb (oe_dispatched e) && negb (oe_dead_lettered e) && claim_free && kind_ok then
        let '(out, rest) := claim_entries now owner kind visibility_ms limit' l' in
        (oe_msg e :: out,
         mkEntry (oe_msg e) (Some (now + Z.max visibility_ms 0)%Z) (Some owner) (oe_dispatched e)
           (oe_delivery_attempts e) (oe_dead_lettered e) :: rest)
      else
        let '(out, rest) := claim_entries now owner kind visibility_ms limit l' in (out, e :: rest)
  end.

Definition claim_outbox (now : Z) (owner : string) (kind : option string) (limit : N)
    (visibility_ms : Z) : Op (list OutboxMessage) := fun st =>
  let '(out, entries) := claim_entries now owner kind visibility_ms (N.to_nat limit) (st_outbox st) in
  (Ok out, set_outbox entries st).

Definition named_entry (id : Z) (e : OutboxEntry) : bool := (msg_id (oe_msg e) =? id)%Z.

Definition renew_outbox_claim (now : Z) (id : Z) (owner : string) (visibility_ms : Z) : Op bool :=
  fun st =>
  match List.find (named_entry id) (st_outbox st) with
  | None => (Ok false, st)
  | Some e =>
      if oe_dispatched e || oe_dead_lettered e || negb (bool_decide (oe_claimed_by e = Some owner))
      then (Ok false, st)
      else (Ok true, set_outbox (update_first (named_entry id) (fun e =>
              mkEntry (oe_msg e) (Some (now + Z.max visibility_ms 0)%Z) (oe_claimed_by e)
                (oe_dispatched e) (oe_delivery_attempts e) (oe_dead_lettered e)) (st_outbox st)) st)
  end.

Definition mark_dispatched (id : Z) : Op unit :=
  op_modify (fun st => set_outbox (update_first (named_entry id) (fun e =>
    mkEntry (oe_msg e) (oe_claimed_until e) (oe_claimed_by e) true (oe_delivery_attempts e)
      (oe_dead_lettered e)) (st_outbox st)) st).

Definition outbox_key_pending (key : string) : Op bool :=
  op_read (fun st => existsb (fun e => String.eqb (msg_key (oe_msg e)) key
    && negb (oe_dispatched e) && negb (oe_dead_lettered e)) (st_outbox st)).

Definition record_outbox_failure (id : Z) : Op N := fun st =>
  match List.find (named_entry id) (st_outbox st) with
  | None => (Ok 0%N, st)
  | Some e =>
      (Ok (oe_delivery_attempts e + 1)%N,
       set_outbox (update_first (named_entry id) (fun e =>
         mkEntry (oe_msg e) (oe_claimed_until e) (oe_claimed_by e) (oe_dispatched e)
           (oe_delivery_attempts e + 1)%N (oe_dead_lettered e)) (st_outbox st)) st)
  end.

Definition dead_letter_outbox (id : Z) : Op unit :=
  op_modify (fun st => set_outbox (update_first (named_entry id) (fun e =>
    mkEntry (oe_msg e) (oe_claimed_until e) (oe_claimed_by e) (oe_dispatched e)
      (oe_delivery_attempts e) true) (st_outbox st)) st).

(** ** Concurrency slots, supersession, fairness counts *)

Definition run_concurrency (run : RunId) : Op (option (string * ConcurrencyPolicy)) :=
  op_read (fun st => st_concurrency st !! run).
Definition set_run_concurrency (run : RunId) (group : string) (policy : ConcurrencyPolicy) : Op unit :=
  op_modify (fun st => set_concurrency (<[run := (group, policy)]> (st_concurrency st)) st).

Definition acquire_slot (leader : LeaderTerm) (group : string) (run : RunId) : Op (option RunId) :=
  let! _ := holds_leader_term leader in
  fun st =>
  let take := (Ok None, set_slots (<[group := run]> (st_slots st)) st) in
  match st_slots st !! group with
  | None => take
  | Some h =>
      if String.eqb h run then (Ok None, st)
      else
        let terminal := match st_runs st !! h with Some s => run_is_terminal s | None => true end in
        if terminal then take else (Ok (Some h), st)
  end.

Definition release_slot (group : string) (run : RunId) : Op unit := fun st =>
  if decide (st_slots st !! group = Some run)
  then (Ok tt, set_slots (delete group (st_slots st)) st) else (Ok tt, st).

Definition superseded_by (run : RunId) : Op (list RunId) := fun st =>
  if decide (run ∈ st_poisoned_runs st)
  then (Err (DbOther ("injected: run " +:+ run +:+ " is poisoned (admit leg)")), st)
  else match st_supersede_keys st !! run with
  | None => (Ok [], st)
  | Some key =>
      let created r := default 0%Z (st_run_created st !! r) in
      let older := omap (fun kv =>
        if negb (String.eqb kv.1 run) && String.eqb kv.2 key && (created kv.1 <? created run)%Z
           && match st_runs st !! kv.1 with Some s => negb (run_is_terminal s) | None => false end
        then Some kv.1 else None) (map_to_list (st_supersede_keys st)) in
      (Ok (sort_stable String.leb older), st)
  end.

Definition run_project (run : RunId) : Op (option string) := op_read (fun st => st_run_project st !! run).

Definition count_in_flight_runs (project : option string) : Op N :=
  op_read (fun st => N.of_nat (length (List.filter (fun kv =>
    match kv.2 with RunRunning | RunSuspended => true | _ => false end
    && match project with None => true | Some p => bool_decide (st_run_project st !! kv.1 = Some p) end)
    (map_to_list (st_runs st))))).
Definition count_running_runs (project : string) : Op N :=
  op_read (fun st => N.of_nat (length (List.filter (fun kv =>
    match kv.2 with RunRunning => true | _ => false end
    && bool_decide (st_run_project st !! kv.1 = Some project)) (map_to_list (st_runs st))))).

(** ** Shared services, snapshot pins *)

Record RunService := mkRunService {
  rs_run : RunId; rs_take : Z; rs_name : string;
  rs_status : ServiceStatus; rs_handle : option string; rs_created_at : Timestamp;
}.

Definition create_run_service (leader : option LeaderTerm) (run : RunId) (take_ : Z) (name : string)
    (at_ : Timestamp) : Op unit :=
  let! _ := holds_leader_term_if leader in
  op_modify (fun st =>
    match st_run_services st !! (run, take_, name) with
    | Some _ => st
    | None => set_run_services (<[(run, take_, name) := (SvcStarting, None, at_)]> (st_run_services st)) st
    end).

Definition set_run_service (leader : option LeaderTerm) (run : RunId) (take_ : Z) (name : string)
    (status : ServiceStatus) (handle : option string) : Op unit :=
  let! _ := holds_leader_term_if leader in
  op_modify (fun st => set_run_services (alter (fun rec =>
      let '(_, h, at_) := rec in
      (status, match handle with Some x => Some x | None => h end, at_))
    (run, take_, name) (st_run_services st)) st).

Definition run_services (run : RunId) : Op (list RunService) :=
  op_read (fun st =>
    let rows := omap (fun kv => let '(r, t, n, (s, h, c)) := kv in
      if decide (r = run) then Some (mkRunService r t n s h c) else None)
      (map_to_list (st_run_services st)) in
    sort_stable (fun a b =>
      match String.compare (rs_name a) (rs_name b) with
      | Lt => true | Gt => false | Eq => (rs_take a <=? rs_take b)%Z end) rows).

Definition pin_run_snapshots_db (run : RunId) (by_ : option string) (at_ : Timestamp) : Op bool :=
  fun st => match st_runs st !! run with
            | None => (Ok false, st)
            | Some _ => (Ok true, set_snapshot_pins (<[run := (by_, at_)]> (st_snapshot_pins st)) st)
            end.
Definition unpin_run_snapshots_db (run : RunId) : Op bool :=
  fun st => match st_runs st !! run with
            | None => (Ok false, st)
            | Some _ => (Ok true, set_snapshot_pins (delete run (st_snapshot_pins st)) st)
            end.
Definition run_ir (run : RunId) : Op (option Json) := op_read (fun st => st_run_ir st !! run).

(** * Theorems *)

(** ** Sorting attempts *)

Section StableSortFacts.
Context {A : Type} (leb : A -> A -> bool).
Lemma ins_perm x l : ins leb x l ≡ₚ x :: l.
Proof.
  induction l as [|y l IH]; [done|]. cbn. destruct (leb x y); [done|].
  rewrite IH. constructor.
Qed.
Lemma sort_stable_perm l : sort_stable leb l ≡ₚ l.
Proof. induction l as [|x l IH]; [done|]. cbn. rewrite ins_perm. by constructor. Qed.
Lemma elem_of_sort_stable x l : x ∈ sort_stable leb l <-> x ∈ l.
Proof. by rewrite sort_stable_perm. Qed.
Lemma sort_stable_length l : length (sort_stable leb l) = length l.
Proof. by rewrite sort_stable_perm. Qed.

(** Under a total order the sorted list depends on the elements alone. *)
Section Order.
Context {Ht : Transitive (fun a b => leb a b = true)}
  {Htot : Total (fun a b => leb a b = true)} {Ha : AntiSymm (=) (fun a b => leb a b = true)}.
Lemma sort_stable_sorted l : StronglySorted (fun a b => leb a b = true) (sort_stable leb l).
Proof.
  induction l as [|x l IH]; [constructor|]. unfold sort_stable in *. cbn [foldr].
  induction IH as [|y l' Hs IH' Hy]; cbn; [repeat constructor|].
  destruct (leb x y) eqn:E; constructor; try constructor; [done|done|done|by eapply Forall_impl; [|intros z; apply (Ht x y z E)]|done|].
  rewrite ins_perm. constructor; [|done].
  destruct (Htot x y) as [H|H]; [congruence|done].
Qed.
Lemma sort_stable_canonical l l' : l ≡ₚ l' -> sort_stable leb l = sort_stable leb l'.
Proof.
  intros H. apply (StronglySorted_unique (fun a b => leb a b = true));
    [apply sort_stable_sorted..|]. by rewrite !sort_stable_perm.
Qed.
End Order.
End StableSortFacts.

Lemma elem_of_sort_attempts a l : a ∈ sort_attempts l <-> a ∈ l.
Proof. apply elem_of_sort_stable. Qed.

Lemma sort_attempts_ids l : map att_id (sort_attempts l) ≡ₚ map att_id l.
Proof. apply Permutation_map, sort_stable_perm. Qed.

(** ** Minted attempt ids are fresh *)

Lemma attempt_number_name n : (n <= u64_max)%N ->
  forall a, att_id a = attempt_name n -> attempt_number a = n /\ attempt_order_key a = n.
Proof.
  intros Hn a Ha. unfold attempt_number, attempt_order_key. rewrite Ha. unfold attempt_name.
  cbn [strip_char]. rewrite string_app_cons, string_app_nil_l. cbn [strip_char Ascii.eqb].
  cbn. by rewrite parse_u64_pretty.
Qed.

Lemma next_attempt_number_above l a : a ∈ l -> (attempt_number a < next_attempt_number l)%N.
Proof.
  unfold next_attempt_number. induction l as [|b l IH]; intros Ha; [by apply elem_of_nil in Ha|].
  cbn. apply elem_of_cons in Ha as [->|Ha]; [lia|]. specialize (IH Ha). lia.
Qed.

Lemma next_attempt_fresh l : (next_attempt_number l <= u64_max)%N ->
  attempt_name (next_attempt_number l) ∉ map att_id l.
Proof.
  intros Hn Hin. apply list_elem_of_fmap in Hin as (a & Ha & Hin).
  destruct (attempt_number_name _ Hn a (eq_sym Ha)) as [E _].
  pose proof (next_attempt_number_above l a Hin). lia.
Qed.

(** ** The update helpers *)

Lemma update_first_ids (p : Attempt -> bool) f l :
  (forall a, att_id (f a) = att_id a) -> map att_id (update_first p f l) = map att_id l.
Proof. intros Hf. induction l as [|a l IH]; cbn; [done|]. case_match; cbn; congruence. Qed.

Lemma map_last_ids f (l : list Attempt) :
  (forall a, att_id (f a) = att_id a) -> map att_id (map_last f l) = map att_id l.
Proof.
  intros Hf. induction l as [|a l IH]; cbn; [done|].
  destruct l; cbn; [by rewrite Hf|]. f_equal. apply IH.
Qed.

Lemma stamp_attempt_id s a : att_id (stamp_attempt s a) = att_id a.
Proof. unfold stamp_attempt. destruct (terminal_by_intent _); [done|]. by destruct s. Qed.
Lemma close_gate_attempt_id r a : att_id (close_gate_attempt r a) = att_id a.
Proof. unfold close_gate_attempt. by destruct (gr_passed r). Qed.
#[export] Hint Resolve stamp_attempt_id close_gate_attempt_id : core.

(** ** What survives every write: attempts *)

(** [a'] is a later version of [a]: same identity and start, and an outcome
    the system chose ([Superseded], [Cancelled]) is final. *)
Definition att_le (a a' : Attempt) : Prop :=
  att_id a' = att_id a /\ att_started_at a' = att_started_at a
  /\ (terminal_by_intent (att_outcome a) = true -> a' = a).

#[export] Instance att_le_preorder : PreOrder att_le.
Proof.
  split.
  - intros a. by split.
  - intros a b c (H1 & H2 & H3) (H4 & H5 & H6). split; [congruence|]. split; [congruence|].
    intros H. specialize (H3 H). subst b. auto.
Qed.

Lemma att_le_stamp s a : att_le a (stamp_attempt s a).
Proof.
  unfold att_le, stamp_attempt. destruct (terminal_by_intent (att_outcome a)) eqn:E; [done|].
  destruct s; cbn; done.
Qed.
Lemma att_le_close r a : att_outcome a = ORunning -> att_le a (close_gate_attempt r a).
Proof.
  intros H. unfold att_le, close_gate_attempt. destruct (gr_passed r); cbn; rewrite H; done.
Qed.

(** Every attempt of [l] has a later version in [l']. *)
Definition atts_le (l l' : list Attempt) : Prop := forall a, a ∈ l -> exists a', a' ∈ l' /\ att_le a a'.

#[export] Instance atts_le_preorder : PreOrder atts_le.
Proof.
  split.
  - intros l a Ha. by exists a.
  - intros l m n H1 H2 a Ha. destruct (H1 a Ha) as (b & Hb & L1). destruct (H2 b Hb) as (c & Hc & L2).
    exists c. split; [done|]. by etrans.
Qed.

Lemma atts_le_app l m : atts_le l (l ++ m).
Proof. intros a Ha. exists a. split; [apply elem_of_app; by left|done]. Qed.
Lemma atts_le_sort l : atts_le l (sort_attempts l).
Proof. intros a Ha. exists a. split; [by apply elem_of_sort_attempts|done]. Qed.
Lemma atts_le_update p f l : (forall a, p a = true -> a ∈ l -> att_le a (f a)) -> atts_le l (update_first p f l).
Proof.
  induction l as [|x l IH]; intros Hf a Ha; [by apply elem_of_nil in Ha|]. cbn.
  destruct (p x) eqn:Hp.
  - apply elem_of_cons in Ha as [->|Ha].
    + exists (f x). split; [constructor|]. apply Hf; [done|constructor].
    + exists a. split; [by constructor|done].
  - apply elem_of_cons in Ha as [->|Ha]; [exists x; split; [constructor|done]|].
    destruct (IH) with (a := a) as (a' & H1 & H2); [|done|exists a'; split; [by constructor|done]].
    intros b Hb Hin. apply Hf; [done|by constructor].
Qed.
Lemma atts_le_map_last f l :
  (forall a, last l = Some a -> att_le a (f a)) -> atts_le l (map_last f l).
Proof.
  intros Hf. destruct (decide (l = [])) as [->|Hn]; [done|].
  destruct (exists_last Hn) as (m & x & ->). rewrite map_last_snoc.
  rewrite last_snoc in Hf. intros a Ha. apply elem_of_app in Ha as [Ha|Ha].
  - exists a. split; [apply elem_of_app; by left|done].
  - apply list_elem_of_singleton in Ha as ->. exists (f x). split; [|by apply Hf].
    apply elem_of_app. right. constructor.
Qed.

(** ** What survives every write: the outbox *)

Definition entry_le (e e' : OutboxEntry) : Prop :=
  oe_msg e' = oe_msg e
  /\ (oe_dispatched e = true -> oe_dispatched e' = true)
  /\ (oe_dead_lettered e = true -> oe_dead_lettered e' = true)
  /\ (oe_delivery_attempts e <= oe_delivery_attempts e')%N.

#[export] Instance entry_le_preorder : PreOrder entry_le.
Proof.
  split.
  - intros e. by repeat split.
  - intros a b c (H1 & H2 & H3 & H4) (H5 & H6 & H7 & H8).
    repeat split; [congruence|auto|auto|lia].
Qed.

Definition outbox_le (l l' : list OutboxEntry) : Prop :=
  exists m n, l' = m ++ n /\ Forall2 entry_le l m.

Lemma Forall2_entry_refl l : Forall2 entry_le l l.
Proof. induction l; by constructor. Qed.

#[export] Instance outbox_le_preorder : PreOrder outbox_le.
Proof.
  split.
  - intros l. exists l, []. split; [by rewrite app_nil_r|apply Forall2_entry_refl].
  - intros a b c (m & n & -> & H1) (m' & n' & -> & H2).
    apply Forall2_app_inv_l in H2 as (m1 & m2 & H3 & H4 & ->).
    exists m1, (m2 ++ n'). split; [by rewrite app_assoc|]. by etrans.
Qed.

Lemma outbox_le_app l m : outbox_le l (l ++ m).
Proof. exists l, m. split; [done|apply Forall2_entry_refl]. Qed.
Lemma outbox_le_update p f l : (forall e, entry_le e (f e)) -> outbox_le l (update_first p f l).
Proof.
  intros Hf. exists (update_first p f l), []. split; [by rewrite app_nil_r|].
  induction l as [|e l IH]; cbn; [constructor|].
  destruct (p e); constructor; [apply Hf|apply Forall2_entry_refl|done|done].
Qed.
Lemma claim_entries_le now owner kind vis limit l :
  Forall2 entry_le l (claim_entries now owner kind vis limit l).2.
Proof.
  revert limit; induction l as [|e l IH]; intros [|limit]; cbn; try apply Forall2_entry_refl.
  destruct (_ && _).
  - destruct (claim_entries now owner kind vis limit l) as [out rest] eqn:E. cbn.
    constructor; [by repeat split|]. specialize (IH limit). by rewrite E in IH.
  - destruct (claim_entries now owner kind vis (S limit) l) as [out rest] eqn:E. cbn.
    constructor; [done|]. specialize (IH (S limit)). by rewrite E in IH.
Qed.

(** ** The history order on states *)

Definition lease_le (m m' : gmap string (string * Z * Z)) : Prop :=
  forall r o e t, m !! r = Some (o, e, t) ->
    exists o' e' t', m' !! r = Some (o', e', t') /\ (t <= t')%Z /\ (t = t' -> o = o').

#[export] Instance lease_le_preorder : PreOrder lease_le.
Proof.
  split.
  - intros m r o e t H. exists o, e, t. repeat split; [done|lia].
  - intros a b c H1 H2 r o e t H. destruct (H1 _ _ _ _ H) as (o' & e' & t' & H' & L1 & E1).
    destruct (H2 _ _ _ _ H') as (o'' & e'' & t'' & H'' & L2 & E2).
    exists o'', e'', t''. split; [done|]. split; [lia|]. intros ->.
    assert (t'' = t') as -> by lia. rewrite E1 by done. auto.
Qed.

Definition steps_le (m m' : gmap (RunId * StepId) StepRec) : Prop :=
  forall k r, m !! k = Some r -> exists r', m' !! k = Some r' /\ atts_le (rec_attempts r) (rec_attempts r').

#[export] Instance steps_le_preorder : PreOrder steps_le.
Proof.
  split.
  - intros m k r H. by exists r.
  - intros a b c H1 H2 k r H. destruct (H1 _ _ H) as (r' & H' & L1).
    destruct (H2 _ _ H') as (r'' & H'' & L2). exists r''. split; [done|by etrans].
Qed.

Definition gen_le (m m' : gmap RunId N) : Prop :=
  forall r, (default 0 (m !! r) <= default 0 (m' !! r))%N.
#[export] Instance gen_le_preorder : PreOrder gen_le.
Proof. split; [intros m r; lia|intros a b c H1 H2 r; specialize (H1 r); specialize (H2 r); lia]. Qed.

(** [st'] is a possible future of [st]: the log and the outbox only grow, a
    retired or poisoned message stays so, an Attempt keeps its identity, its
    start and an outcome chosen by the system, the reopen generation and the
    lease terms never go back. *)
Record extends (st st' : InMemoryState) : Prop := mkExtends {
  ext_events : st_events st `prefix_of` st_events st';
  ext_outbox : outbox_le (st_outbox st) (st_outbox st');
  ext_steps : steps_le (st_steps st) (st_steps st');
  ext_gen : gen_le (st_reopen_generations st) (st_reopen_generations st');
  ext_leases : lease_le (st_leases st) (st_leases st');
}.

#[export] Instance extends_preorder : PreOrder extends.
Proof.
  split.
  - intros st. by split.
  - intros a b c [] []. split; by etrans.
Qed.

(** One-field writes. *)
Lemma steps_le_alter f k m :
  (forall r, m !! k = Some r -> atts_le (rec_attempts r) (rec_attempts (f r))) -> steps_le m (alter f k m).
Proof.
  intros Hf k' r H. destruct (decide (k = k')) as [->|Hn].
  - exists (f r). rewrite lookup_alter_eq, H. split; [done|auto].
  - exists r. by rewrite lookup_alter_ne.
Qed.
Lemma steps_le_insert k r' m :
  (forall r, m !! k = Some r -> atts_le (rec_attempts r) (rec_attempts r')) -> steps_le m (<[k := r']> m).
Proof.
  intros Hf k' r H. destruct (decide (k = k')) as [->|Hn].
  - exists r'. rewrite lookup_insert_eq. split; [done|auto].
  - exists r. by rewrite lookup_insert_ne.
Qed.

Lemma extends_update_step k f st :
  (forall r, st_steps st !! k = Some r -> atts_le (rec_attempts r) (rec_attempts (f r))) ->
  extends st (update_step k f st).
Proof. intros Hf. split; try done. by apply steps_le_alter. Qed.

Lemma extends_push es st : extends st (push_events es st).
Proof. split; try done. by apply prefix_app_r. Qed.

Lemma extends_enqueue m st : extends st (enqueue_outbox_locked m st).
Proof.
  unfold enqueue_outbox_locked. case_match; [done|]. split; try done. apply outbox_le_app.
Qed.
Lemma extends_enqueue_all ms st : extends st (enqueue_all ms st).
Proof.
  revert st; induction ms as [|m ms IH]; intros st; [done|].
  etrans; [apply extends_enqueue|apply IH].
Qed.
Lemma extends_bump run from st : extends st (bump_reopen_generation_locked run from st).
Proof.
  unfold bump_reopen_generation_locked. case_match; [|done]. split; try done.
  intros r. destruct (decide (run = r)) as [->|Hn]; cbn.
  - rewrite lookup_insert_eq. cbn. lia.
  - by rewrite lookup_insert_ne.
Qed.
Lemma extends_stamp run step a s st : extends st (stamp_attempt_locked run step a s st).
Proof.
  apply extends_update_step. intros r _. apply atts_le_update. intros x _ _. apply att_le_stamp.
Qed.
Lemma extends_set_outbox_update p f st :
  (forall e, entry_le e (f e)) -> extends st (set_outbox (update_first p f (st_outbox st)) st).
Proof. intros Hf. split; try done. by apply outbox_le_update. Qed.
#[export] Hint Resolve extends_push extends_enqueue extends_enqueue_all extends_bump extends_stamp : core.

(** ** Well-formed stores *)

(** Attempt ids of one step never repeat, up to the exhaustion of [u64]
    (an attempt numbered [u64::MAX] exists). *)
Definition id_number (id : AttemptId) : N := default 0%N (s ← strip_char "a" id; parse_u64 s).
Definition atts_wf (ids : list AttemptId) : Prop :=
  NoDup ids \/ exists id, id ∈ ids /\ (u64_max <= id_number id)%N.

#[export] Instance atts_wf_proper : Proper ((≡ₚ) ==> iff) atts_wf.
Proof.
  intros l l' H. unfold atts_wf. setoid_rewrite H. done.
Qed.
Lemma atts_wf_snoc ids id : atts_wf ids -> id ∉ ids -> atts_wf (ids ++ [id]).
Proof.
  intros [H|(i & Hi & Hn)] Hid; [left|right].
  - apply NoDup_app. split; [done|]. split; [|apply NoDup_singleton].
    intros x Hx Hx'. apply list_elem_of_singleton in Hx' as ->. done.
  - exists i. split; [apply elem_of_app; by left|done].
Qed.
Lemma atts_wf_mint l :
  atts_wf (map att_id l) -> atts_wf (map att_id l ++ [attempt_name (next_attempt_number l)]).
Proof.
  intros H. destruct (decide (next_attempt_number l <= u64_max)%N) as [Hn|Hn].
  - apply atts_wf_snoc; [done|]. by apply next_attempt_fresh.
  - right. unfold next_attempt_number in Hn.
    assert (exists a, a ∈ l /\ (u64_max <= attempt_number a)%N) as (a & Ha & Hm).
    { clear H. induction l as [|a l IH]; cbn in Hn; [unfold u64_max in Hn; lia|].
      destruct (decide (u64_max <= attempt_number a)%N); [exists a; split; [constructor|done]|].
      destruct IH as (b & Hb & Hb'); [lia|]. exists b. split; [by constructor|done]. }
    exists (att_id a). split; [|done]. apply elem_of_app. left. by apply list_elem_of_fmap_2.
Qed.

Record wf (st : InMemoryState) : Prop := mkWf {
  wf_msg_ids : forall i e, st_outbox st !! i = Some e -> msg_id (oe_msg e) = (Z.of_nat i + 1)%Z;
  wf_msg_keys : NoDup (map (fun e => msg_key (oe_msg e)) (st_outbox st));
  wf_attempts : forall k r, st_steps st !! k = Some r -> atts_wf (map att_id (rec_attempts r));
}.

Lemma wf_empty : wf state_empty.
Proof. split; [done|constructor|]. intros k r. unfold state_empty; cbn. by rewrite lookup_empty. Qed.

(** Only the three fields matter. *)
Lemma wf_ext st st' :
  st_outbox st' = st_outbox st -> st_steps st' = st_steps st -> wf st -> wf st'.
Proof. intros E1 E2 []. split; rewrite ?E1, ?E2; done. Qed.

Lemma wf_enqueue m st : wf st -> wf (enqueue_outbox_locked m st).
Proof.
  intros W. unfold enqueue_outbox_locked. case_match eqn:E; [done|]. destruct W as [H1 H2 H3].
  split; cbn; [| |done].
  - intros i e. rewrite lookup_app. destruct (st_outbox st !! i) eqn:Ei; cbn.
    + intros [= <-]. by apply H1.
    + intros Hi. apply lookup_ge_None in Ei.
      apply list_lookup_singleton_Some in Hi as [Hi <-]. cbn. lia.
  - rewrite map_app. cbn. apply NoDup_app. split; [done|]. split; [|apply NoDup_singleton].
    intros k Hk Hk'. apply list_elem_of_singleton in Hk' as ->.
    apply list_elem_of_fmap in Hk as (e & Hk & He).
    assert (existsb (fun e => String.eqb (msg_key (oe_msg e)) (msg_key m)) (st_outbox st) = true); [|congruence].
    apply existsb_exists. exists e. split; [by apply list_elem_of_In|]. apply String.eqb_eq. done.
Qed.
Lemma wf_enqueue_all ms st : wf st -> wf (enqueue_all ms st).
Proof. revert st; induction ms as [|m ms IH]; intros st W; [done|]. apply IH. by apply wf_enqueue. Qed.

Lemma wf_update_step k f st :
  (forall r, st_steps st !! k = Some r -> atts_wf (map att_id (rec_attempts r)) ->
     atts_wf (map att_id (rec_attempts (f r)))) ->
  wf st -> wf (update_step k f st).
Proof.
  intros Hf [H1 H2 H3]. split; cbn; [done|done|]. intros k' r.
  destruct (decide (k = k')) as [->|Hn].
  - rewrite lookup_alter_eq. destruct (st_steps st !! k') eqn:E; cbn; [|done].
    intros [= <-]. apply Hf; [done|]. by eapply H3.
  - rewrite lookup_alter_ne by done. apply H3.
Qed.
Lemma wf_push es st : wf st -> wf (push_events es st).
Proof. by apply wf_ext. Qed.
Lemma wf_stamp run step a s st : wf st -> wf (stamp_attempt_locked run step a s st).
Proof. apply wf_update_step. intros r _ H. cbn. by rewrite update_first_ids. Qed.
Lemma wf_bump run from st : wf st -> wf (bump_reopen_generation_locked run from st).
Proof. unfold bump_reopen_generation_locked. case_match; [by apply wf_ext|done]. Qed.

(** An outbox rewritten entry by entry without touching the messages. *)
Lemma wf_set_outbox l st :
  Forall2 (fun e e' => oe_msg e' = oe_msg e) (st_outbox st) l -> wf st -> wf (set_outbox l st).
Proof.
  intros HF [H1 H2 H3]. split; cbn; [| |done].
  - intros i e' Hi. destruct (Forall2_lookup_r _ _ _ _ _ HF Hi) as (e & He & Em). rewrite Em. by apply H1.
  - replace (map (fun e => msg_key (oe_msg e)) l)
      with (map (fun e => msg_key (oe_msg e)) (st_outbox st)); [done|].
    clear -HF. induction HF as [|e e' l l' E _ IH]; [done|]. cbn. by rewrite E, IH.
Qed.
Lemma update_first_msgs p f l :
  (forall e, oe_msg (f e) = oe_msg e) -> Forall2 (fun e e' => oe_msg e' = oe_msg e) l (update_first p f l).
Proof.
  intros Hf. induction l as [|e l IH]; cbn; [constructor|].
  assert (Forall2 (fun e e' : OutboxEntry => oe_msg e' = oe_msg e) l l) by (clear; by induction l; constructor).
  case_match; by constructor.
Qed.
#[export] Hint Resolve wf_enqueue wf_enqueue_all wf_push wf_stamp wf_bump : core.

(** ** Safe operations *)

(** The test seams of the store are not armed. *)
Definition unarmed (st : InMemoryState) : Prop :=
  st_toctou_race st = None /\ st_gate_resolve_race st = None.

(** [st'] is a future of [st] that keeps it well formed. *)
Definition step_ok (st st' : InMemoryState) : Prop :=
  wf st -> unarmed st -> wf st' /\ unarmed st' /\ extends st st'.

#[export] Instance step_ok_preorder : PreOrder step_ok.
Proof.
  split.
  - intros st. by split.
  - intros a b c H1 H2 W U. destruct (H1 W U) as (W1 & U1 & E1). destruct (H2 W1 U1) as (W2 & U2 & E2).
    split; [done|]. split; [done|]. by etrans.
Qed.

Definition safe {A} (op : Op A) : Prop := forall st, step_ok st (op st).2.

Lemma safe_ret {A} (a : A) : safe (op_ret a).
Proof. by intros st. Qed.
Lemma safe_read {A} (f : InMemoryState -> A) : safe (op_read f).
Proof. by intros st. Qed.
Lemma safe_bind {A B} (m : Op A) (f : A -> Op B) : safe m -> (forall a, safe (f a)) -> safe (op_bind m f).
Proof.
  intros Hm Hf st. unfold op_bind. specialize (Hm st). destruct (m st) as [[a|e] st']; [|done].
  cbn in *. etrans; [exact Hm|apply Hf].
Qed.
Lemma safe_modify f : (forall st, step_ok st (f st)) -> safe (op_modify f).
Proof. intros H st. apply H. Qed.
Create HintDb safe.
#[export] Hint Resolve safe_ret safe_read safe_bind safe_modify : safe.

Lemma step_ok_intro st st' :
  (wf st -> wf st') -> st_toctou_race st' = st_toctou_race st ->
  st_gate_resolve_race st' = st_gate_resolve_race st -> extends st st' -> step_ok st st'.
Proof. intros H1 H2 H3 H4 W [U1 U2]. split; [auto|]. split; [|done]. split; congruence. Qed.

(** A write that touches none of the ordered or checked fields. *)
Lemma step_ok_other st st' :
  st_outbox st' = st_outbox st -> st_steps st' = st_steps st -> st_events st' = st_events st ->
  st_reopen_generations st' = st_reopen_generations st -> st_leases st' = st_leases st ->
  st_toctou_race st' = st_toctou_race st -> st_gate_resolve_race st' = st_gate_resolve_race st ->
  step_ok st st'.
Proof.
  intros E1 E2 E3 E4 E5 E6 E7. apply step_ok_intro; [by apply wf_ext|done|done|].
  split; rewrite ?E1, ?E2, ?E3, ?E4, ?E5; done.
Qed.
Ltac other := by apply step_ok_other.

Lemma step_ok_push es st : step_ok st (push_events es st).
Proof. apply step_ok_intro; auto. Qed.
Lemma enqueue_seams ms st :
  st_toctou_race (enqueue_all ms st) = st_toctou_race st
  /\ st_gate_resolve_race (enqueue_all ms st) = st_gate_resolve_race st.
Proof.
  revert st; induction ms as [|m ms IH]; intros st; [done|].
  change (enqueue_all (m :: ms) st) with (enqueue_all ms (enqueue_outbox_locked m st)).
  destruct (IH (enqueue_outbox_locked m st)) as [-> ->].
  unfold enqueue_outbox_locked. by case_match.
Qed.
Lemma step_ok_enqueue_all ms st : step_ok st (enqueue_all ms st).
Proof. destruct (enqueue_seams ms st). apply step_ok_intro; auto. Qed.
Lemma step_ok_stamp run step a s st : step_ok st (stamp_attempt_locked run step a s st).
Proof. apply step_ok_intro; auto. Qed.
Lemma step_ok_update k f st :
  (forall r, st_steps st !! k = Some r ->
     atts_le (rec_attempts r) (rec_attempts (f r))
     /\ (atts_wf (map att_id (rec_attempts r)) -> atts_wf (map att_id (rec_attempts (f r))))) ->
  step_ok st (update_step k f st).
Proof.
  intros Hf. apply step_ok_intro; [|done|done|].
  - apply wf_update_step. intros r Hr. by apply Hf.
  - apply extends_update_step. intros r Hr. by apply Hf.
Qed.
(** A row write that leaves the attempts alone. *)
Lemma step_ok_update_same k f st :
  (forall r, rec_attempts (f r) = rec_attempts r) -> step_ok st (update_step k f st).
Proof. intros Hf. apply step_ok_update. intros r _. by rewrite Hf. Qed.
Lemma step_ok_bump run from st : step_ok st (bump_reopen_generation_locked run from st).
Proof. apply step_ok_intro; auto; unfold bump_reopen_generation_locked; by case_match. Qed.
Lemma step_ok_set_runs x st : step_ok st (set_runs x st).
Proof. other. Qed.
Lemma step_ok_outbox_update p f st :
  (forall e, entry_le e (f e)) -> step_ok st (set_outbox (update_first p f (st_outbox st)) st).
Proof.
  intros Hf. apply step_ok_intro; [|done|done|by apply extends_set_outbox_update].
  apply wf_set_outbox, update_first_msgs. intros e. apply Hf.
Qed.
#[export] Hint Resolve step_ok_push step_ok_enqueue_all step_ok_stamp step_ok_bump step_ok_set_runs : safe.

(** The same, after earlier writes of the same operation. *)
Lemma post_push es st st' : step_ok st st' -> step_ok st (push_events es st').
Proof. intros H. etrans; [exact H|apply step_ok_push]. Qed.
Lemma post_enqueue_all ms st st' : step_ok st st' -> step_ok st (enqueue_all ms st').
Proof. intros H. etrans; [exact H|apply step_ok_enqueue_all]. Qed.
Lemma post_stamp run step a s st st' : step_ok st st' -> step_ok st (stamp_attempt_locked run step a s st').
Proof. intros H. etrans; [exact H|apply step_ok_stamp]. Qed.
Lemma post_bump run from st st' : step_ok st st' -> step_ok st (bump_reopen_generation_locked run from st').
Proof. intros H. etrans; [exact H|apply step_ok_bump]. Qed.
Lemma post_update_same k f st st' :
  (forall r, rec_attempts (f r) = rec_attempts r) -> step_ok st st' -> step_ok st (update_step k f st').
Proof. intros Hf H. etrans; [exact H|by apply step_ok_update_same]. Qed.
#[export] Hint Resolve post_push post_enqueue_all post_stamp post_bump post_update_same : safe.

Lemma safe_holds_leader_term l : safe (holds_leader_term l).
Proof. intros st. unfold holds_leader_term. repeat case_match; done. Qed.
Lemma safe_holds_leader_term_if l : safe (holds_leader_term_if l).
Proof. destruct l; [apply safe_holds_leader_term|apply safe_ret]. Qed.
Lemma safe_take_failure es : safe (take_event_append_failure es).
Proof. intros st. unfold take_event_append_failure. repeat case_match; try done. other. Qed.
Lemma safe_check_step run step from : safe (check_step_transition_locked run step from).
Proof.
  intros st W U. pose proof U as [U1 _]. unfold check_step_transition_locked. rewrite U1.
  repeat case_match; exact (conj W (conj U (reflexivity st))).
Qed.
Lemma safe_check_frontier run step fr : safe (check_frontier run step fr).
Proof. intros st. unfold check_frontier. repeat case_match; done. Qed.
#[export] Hint Resolve safe_holds_leader_term safe_holds_leader_term_if safe_take_failure
  safe_check_step safe_check_frontier : safe.

Lemma safe_record_step_transition run step from to : safe (record_step_transition run step from to).
Proof. apply safe_bind; [auto with safe|intros _]. apply safe_modify. intros st. by apply step_ok_update_same. Qed.

Lemma safe_commit_step_transition run step from to fr stamp es ms :
  safe (commit_step_transition run step from to fr stamp es ms).
Proof.
  unfold commit_step_transition. do 3 (apply safe_bind; [auto with safe|intros _]).
  apply safe_modify. intros st. apply post_enqueue_all, post_push.
  assert (step_ok st (update_step (run, step) (rec_with_status (Some to)) st)) as H
    by by apply step_ok_update_same.
  destruct stamp as [[a s]|]; [by apply post_stamp|done].
Qed.

Lemma safe_promote_step l run step sig es : safe (promote_step l run step sig es).
Proof.
  unfold promote_step. do 3 (apply safe_bind; [auto with safe|intros _]).
  apply safe_modify. intros st. apply post_push. by apply step_ok_update_same.
Qed.

Lemma safe_record_transition run from to : safe (record_transition run from to).
Proof.
  intros st. unfold record_transition. case_match; [|done]. apply post_bump, step_ok_set_runs.
Qed.

Lemma safe_commit_run_transition l run from to g es ms :
  safe (commit_run_transition l run from to g es ms).
Proof.
  unfold commit_run_transition. apply safe_bind; [auto with safe|intros _].
  apply safe_bind; [intros st; case_match; done|intros _].
  apply safe_bind; [auto with safe|intros _]. apply safe_modify. intros st.
  apply post_enqueue_all, post_push, post_bump, step_ok_set_runs.
Qed.

Lemma safe_append_event e : safe (append_event e).
Proof. apply safe_bind; [auto with safe|intros _]. apply safe_modify. auto with safe. Qed.

Lemma safe_create_run run at_ : safe (create_run run at_).
Proof. apply safe_modify. intros st. other. Qed.
Lemma safe_begin_run_creation run at_ : safe (begin_run_creation run at_).
Proof. apply safe_modify. intros st. other. Qed.
Lemma safe_finish_run_creation run : safe (finish_run_creation run).
Proof. apply safe_modify. intros st. other. Qed.
Lemma safe_steps_of_run run : safe (steps_of_run run).
Proof. intros st. unfold steps_of_run. by case_match. Qed.
Lemma safe_superseded_by run : safe (superseded_by run).
Proof. intros st. unfold superseded_by. repeat case_match; done. Qed.
Lemma safe_set_step_input run step sig : safe (set_step_input run step sig).
Proof. apply safe_modify. intros st. by apply step_ok_update_same. Qed.
Lemma safe_set_step_output run step a o i : safe (set_step_output run step a o i).
Proof.
  intros st. unfold set_step_output. case_match; [|done]. cbn.
  etrans; [by apply (step_ok_update_same (run, step) (rec_with_output (Some o) i (Some a)))|other].
Qed.
Lemma safe_set_step_results run step a m : safe (set_step_results run step a m).
Proof.
  intros st. unfold set_step_results. case_match; [|done]. cbn.
  etrans; [by apply (step_ok_update_same (run, step) (rec_with_results m (Some a)))|other].
Qed.
Lemma safe_ingest run step a m : safe (ingest_attempt_results run step a m).
Proof.
  intros st. unfold ingest_attempt_results. case_match; [|done]. case_decide; [|done]. cbn.
  etrans; [by apply (step_ok_update_same (run, step) (rec_with_results m (Some a)))|other].
Qed.
Lemma safe_set_attempt_consumed run step a c : safe (set_attempt_consumed run step a c).
Proof. apply safe_modify. intros st. other. Qed.
Lemma safe_set_input_steps run step a l : safe (set_attempt_workspace_input_steps run step a l).
Proof. apply safe_modify. intros st. other. Qed.
Lemma safe_put_artifacts run step a b l t : safe (put_artifacts run step a b l t).
Proof. apply safe_modify. intros st. other. Qed.
Lemma safe_cache_record p k d r run step a t : safe (cache_record p k d r run step a t).
Proof. apply safe_modify. intros st. other. Qed.
Lemma safe_set_attempt_handle run step a h : safe (set_attempt_handle run step a h).
Proof. apply safe_modify. intros st. other. Qed.
Lemma safe_set_attempt_failure run step a f d : safe (set_attempt_failure run step a f d).
Proof. apply safe_modify. auto with safe. Qed.
Lemma safe_set_attempt_outcome run step a o : safe (set_attempt_outcome run step a o).
Proof. apply safe_modify. auto with safe. Qed.

Lemma safe_record_attempt run step a : safe (record_attempt run step a).
Proof.
  apply safe_modify. intros st.
  set (r0 := default step_rec_default (st_steps st !! (run, step))).
  assert (Hids : forall r, st_steps st !! (run, step) = Some r -> r0 = r) by (intros r Hr; unfold r0; by rewrite Hr).
  apply step_ok_intro; [|done|done|].
  - intros [H1 H2 H3]. split; [done|done|]. intros k r. cbn.
    assert (atts_wf (map att_id (rec_attempts r0))) as H0.
    { unfold r0. destruct (st_steps st !! (run, step)) eqn:E; cbn; [by eapply H3|left; constructor]. }
    destruct (decide ((run, step) = k)) as [<-|Hn]; [|rewrite lookup_insert_ne by done; apply H3].
    rewrite lookup_insert_eq. intros Hr. injection Hr as <-.
    destruct (existsb _ _) eqn:E; [done|]. cbn. rewrite map_app. apply atts_wf_snoc; [done|].
    intros Hin. apply list_elem_of_fmap in Hin as (b & Hb & Hin).
    assert (existsb (fun b => String.eqb (att_id b) (att_id a)) (rec_attempts r0) = true); [|congruence].
    apply existsb_exists. exists b. split; [by apply list_elem_of_In|]. by apply String.eqb_eq.
  - split; try done. cbn. apply steps_le_insert. intros r Hr. fold r0. rewrite (Hids r Hr).
    case_match; [done|]. apply atts_le_app.
Qed.

Lemma safe_open_gate_wait l run step s a : safe (open_gate_wait l run step s a).
Proof.
  unfold open_gate_wait. apply safe_bind; [auto with safe|intros _]. intros st.
  destruct (st_steps st !! (run, step)) as [r|] eqn:Er; [|done].
  case_decide; [|done].
  set (sorted := sort_attempts (rec_attempts r)).
  assert (Hs : step_ok st (update_step (run, step) (rec_with_attempts sorted) st)).
  { apply step_ok_update. intros r' Hr'. simplify_eq. cbn. split; [apply atts_le_sort|].
    unfold sorted. by rewrite sort_attempts_ids. }
  assert (Hm : forall att, att_id att = attempt_name (next_attempt_number sorted) ->
    step_ok st (push_events [event run (AttemptStarted step (att_id att)) a]
      (update_step (run, step) (rec_with_attempts (sorted ++ [att]))
        (update_step (run, step) (rec_with_attempts sorted) st)))).
  { intros att Hatt. apply post_push. etrans; [exact Hs|]. apply step_ok_update.
    intros r' Hr'. cbn in Hr'. rewrite lookup_alter_eq, Er in Hr'. cbn in Hr'. simplify_eq. cbn.
    split; [apply atts_le_app|]. rewrite map_app. cbn. rewrite Hatt. apply atts_wf_mint. }
  repeat case_match; cbn; first [exact Hs|by apply Hm].
Qed.

Lemma resolve_attempts_ok res l id minted l' :
  resolve_attempts res l = Some (id, minted, l') ->
  atts_le l l' /\ (atts_wf (map att_id l) -> atts_wf (map att_id l')).
Proof.
  unfold resolve_attempts. destruct (gr_fence res) as [f|].
  - case_match; [|done]. intros Hr; injection Hr as <- <- <-. split.
    + apply atts_le_update. intros a Ha _. apply att_le_close.
      apply andb_true_iff in Ha as [_ Ha]. by apply bool_decide_eq_true in Ha.
    + by rewrite update_first_ids.
  - assert (Hmint : forall a, att_id a = attempt_name (next_attempt_number l) ->
      atts_le l (l ++ [a]) /\ (atts_wf (map att_id l) -> atts_wf (map att_id (l ++ [a])))).
    { intros a Ha. split; [apply atts_le_app|]. rewrite map_app. cbn. rewrite Ha. apply atts_wf_mint. }
    destruct (last l) as [a|] eqn:El.
    + case_decide as Ho; intros Hr; injection Hr as <- <- <-.
      * split; [|by rewrite map_last_ids]. apply atts_le_map_last. intros b Hb.
        rewrite El in Hb. simplify_eq. by apply att_le_close.
      * apply Hmint. by rewrite close_gate_attempt_id.
    + intros Hr; injection Hr as <- <- <-. apply Hmint. by rewrite close_gate_attempt_id.
Qed.

Lemma step_ok_resolve run step res st : step_ok st (resolve_gate_wait_locked run step res st).2.
Proof.
  unfold resolve_gate_wait_locked.
  destruct (st_steps st !! (run, step)) as [r|] eqn:Er; [|done]. case_decide; [|done].
  destruct (resolve_attempts _ _) as [[[id minted] l']|] eqn:Ha.
  - apply resolve_attempts_ok in Ha as [H1 H2].
    set (st1 := update_step (run, step) _ st).
    assert (step_ok st st1) as Hs.
    { apply step_ok_update. intros r' Hr'. simplify_eq. cbn. split.
      - etrans; [apply atts_le_sort|done].
      - intros Hw. apply H2. by rewrite sort_attempts_ids. }
    apply post_push. destruct (gr_passed res), (gr_outputs res); try done.
    etrans; [exact Hs|].
    etrans; [by apply (step_ok_update_same (run, step) (rec_with_results g (Some id)))|other].
  - apply step_ok_update. intros r' Hr'. simplify_eq. cbn. split; [apply atts_le_sort|].
    by rewrite sort_attempts_ids.
Qed.

Lemma safe_resolve_gate_wait run step res : safe (resolve_gate_wait run step res).
Proof.
  intros st. unfold resolve_gate_wait. pose proof (step_ok_resolve run step res st).
  by destruct (resolve_gate_wait_locked run step res st).
Qed.

Lemma safe_close_running_attempt run step a o ev : safe (close_running_attempt run step a o ev).
Proof.
  intros st W U. pose proof U as [_ U2]. revert W U. unfold close_running_attempt. rewrite U2.
  destruct (r ← st_steps st !! (run, step); _) as [x|] eqn:Ex; [|done].
  case_decide as Ho; [|done].
  destruct (st_steps st !! (run, step)) as [r|] eqn:Er; [|done]. cbn in Ex.
  assert (forall f, (forall a, att_id (f a) = att_id a) -> (forall b, att_outcome b = ORunning -> att_le b (f b)) ->
    step_ok st (update_step (run, step) (fun r => rec_with_attempts
      (update_first (fun b => String.eqb (att_id b) a) f (rec_attempts r)) r) st)) as Hu.
  { intros f Hf Hl. apply step_ok_update. intros r' Hr'. assert (r' = r) as -> by congruence.
    cbn. split; [|by rewrite update_first_ids].
    clear -Ex Ho Hl. revert Ex. generalize (rec_attempts r) as l. induction l as [|y l IH]; cbn; [done|].
    destruct (String.eqb (att_id y) a) eqn:Ey.
    - intros [= ->]. intros z Hz. apply elem_of_cons in Hz as [->|Hz].
      + exists (f x). split; [constructor|auto].
      + exists z. split; [by constructor|done].
    - intros E z Hz. apply elem_of_cons in Hz as [->|Hz].
      + exists y. split; [constructor|done].
      + destruct (IH E z Hz) as (z' & H1 & H2). exists z'. split; [by constructor|done]. }
  specialize (Hu (fun a => mkAttempt (att_id a) (att_started_at a) (att_failure a)
    (att_failure_detail a) o) ltac:(done)).
  apply (fun K H => K (Hu H)).
  2:{ intros b Hb. unfold att_le. rewrite Hb. split_and!; [reflexivity|reflexivity|intros K; discriminate K]. }
  intros H.
  destruct ev; cbn; [by apply post_push|done].
Qed.

Lemma safe_set_gate_wait_inputs l run step a i : safe (set_gate_wait_inputs l run step a i).
Proof.
  apply safe_bind; [auto with safe|intros _]. intros st.
  cbv zeta. match goal with |- context [if ?b then _ else _] => destruct b end; [reflexivity|other].
Qed.
Lemma safe_enqueue_outbox m : safe (enqueue_outbox m).
Proof. apply safe_modify. intros st. apply (step_ok_enqueue_all [m]). Qed.
Lemma claim_entries_msgs now owner kind vis limit l :
  Forall2 (fun e e' => oe_msg e' = oe_msg e) l (claim_entries now owner kind vis limit l).2.
Proof.
  eapply Forall2_impl; [apply claim_entries_le|]. intros e e' H. apply H.
Qed.
Lemma safe_claim_outbox now owner kind limit vis : safe (claim_outbox now owner kind limit vis).
Proof.
  intros st. unfold claim_outbox.
  pose proof (claim_entries_le now owner kind vis (N.to_nat limit) (st_outbox st)) as H1.
  pose proof (claim_entries_msgs now owner kind vis (N.to_nat limit) (st_outbox st)) as H2.
  destruct (claim_entries _ _ _ _ _ _) as [out entries]. cbn in *.
  apply step_ok_intro; [by apply wf_set_outbox|done|done|].
  split; try done. cbn. exists entries, []. by rewrite app_nil_r.
Qed.
Lemma safe_renew_outbox_claim now id owner vis : safe (renew_outbox_claim now id owner vis).
Proof.
  intros st. unfold renew_outbox_claim. repeat case_match; try done. cbn.
  apply step_ok_outbox_update. intros e. by repeat split.
Qed.
Lemma safe_mark_dispatched id : safe (mark_dispatched id).
Proof. apply safe_modify. intros st. apply step_ok_outbox_update. intros e. by repeat split. Qed.
Lemma safe_record_outbox_failure id : safe (record_outbox_failure id).
Proof.
  intros st. unfold record_outbox_failure. case_match; [|done]. cbn.
  apply step_ok_outbox_update. intros e. repeat split; cbn; try done. lia.
Qed.
Lemma safe_dead_letter_outbox id : safe (dead_letter_outbox id).
Proof. apply safe_modify. intros st. apply step_ok_outbox_update. intros e. by repeat split. Qed.
Lemma safe_set_run_concurrency run g p : safe (set_run_concurrency run g p).
Proof. apply safe_modify. intros st. other. Qed.
Lemma safe_acquire_slot l g run : safe (acquire_slot l g run).
Proof.
  apply safe_bind; [auto with safe|intros _]. intros st. cbv zeta.
  assert (step_ok st (set_slots (<[g := run]> (st_slots st)) st)) by other.
  destruct (st_slots st !! g) as [h|]; [|done]. destruct (String.eqb h run); [done|].
  match goal with |- context [if ?b then _ else _] => destruct b end; done.
Qed.
Lemma safe_release_slot g run : safe (release_slot g run).
Proof. intros st. unfold release_slot. case_match; cbn; first [done|other]. Qed.
Lemma safe_create_run_service l run t n a : safe (create_run_service l run t n a).
Proof.
  apply safe_bind; [auto with safe|intros _]. apply safe_modify. intros st. case_match; [done|other].
Qed.
Lemma safe_set_run_service l run t n s h : safe (set_run_service l run t n s h).
Proof. apply safe_bind; [auto with safe|intros _]. apply safe_modify. intros st. other. Qed.
Lemma safe_pin run b a : safe (pin_run_snapshots_db run b a).
Proof. intros st. unfold pin_run_snapshots_db. case_match; cbn; first [done|other]. Qed.
Lemma safe_unpin run : safe (unpin_run_snapshots_db run).
Proof. intros st. unfold unpin_run_snapshots_db. case_match; cbn; first [done|other]. Qed.

Lemma safe_lease now resource owner ttl : safe (lease now resource owner ttl).
Proof.
  intros st. unfold lease. destruct (st_leases st !! resource) as [[[h e] t]|] eqn:El.
  2:{ cbn. apply step_ok_intro; [by apply wf_ext|done|done|]. split; try done. cbn.
      intros r o e t Hr. assert (resource <> r) by congruence.
      exists o, e, t. rewrite lookup_insert_ne by done. repeat split; [done|lia]. }
  assert (Htake : forall o e' t', (t <= t')%Z -> (t = t' -> h = o) ->
    step_ok st (set_leases (<[resource := (o, e', t')]> (st_leases st)) st)).
  { intros o e' t' Ht Ho. apply step_ok_intro; [by apply wf_ext|done|done|]. split; try done. cbn.
    intros r ow ex tm Hr. destruct (decide (resource = r)) as [<-|Hn].
    - simplify_eq. exists o, e', t'. rewrite lookup_insert_eq. auto.
    - exists ow, ex, tm. rewrite lookup_insert_ne by done. repeat split; [done|lia]. }
  destruct (String.eqb h owner) eqn:Eo; [cbn; apply Htake; [lia|done]|].
  case_match; [done|]. cbn. apply Htake; lia.
Qed.

Lemma safe_commit_launch_all l st : step_ok st (foldl (fun st p => commit_launch p st) st l).
Proof.
  revert st; induction l as [|[step la] l IH]; intros st; [done|]. cbn.
  etrans; [|apply IH]. apply post_enqueue_all, post_push. apply step_ok_update.
  intros r _. cbn. case_match eqn:E; cbn; [done|]. split; [apply atts_le_app|].
  rewrite map_app. cbn. intros Hw. apply atts_wf_snoc; [done|]. intros Hin.
  apply list_elem_of_fmap in Hin as (b & Hb & Hin).
  assert (existsb (fun b => String.eqb (att_id b) (att_id (la_attempt la))) (rec_attempts r) = true);
    [|congruence].
  apply existsb_exists. exists b. split; [by apply list_elem_of_In|]. by apply String.eqb_eq.
Qed.

Lemma safe_claim_ready_steps l limit mint : safe (claim_ready_steps l limit mint).
Proof.
  apply safe_bind; [auto with safe|intros _]. intros st.
  destruct (mint_all mint _) as [claimed|e]; [|done].
  pose proof (safe_take_failure (concat (map (fun p => la_events p.2) claimed)) st) as Ht.
  destruct (take_event_append_failure _ st) as [[u|e] st']; cbn in *; [|done].
  etrans; [exact Ht|apply safe_commit_launch_all].
Qed.

#[export] Hint Resolve safe_record_step_transition safe_commit_step_transition safe_promote_step
  safe_record_transition safe_commit_run_transition safe_append_event safe_create_run
  safe_begin_run_creation safe_finish_run_creation safe_steps_of_run safe_superseded_by
  safe_set_step_results safe_ingest safe_set_attempt_consumed safe_set_input_steps
  safe_put_artifacts safe_cache_record safe_set_step_input safe_set_step_output safe_set_attempt_handle safe_set_attempt_failure
  safe_set_attempt_outcome safe_record_attempt safe_open_gate_wait safe_resolve_gate_wait
  safe_close_running_attempt safe_set_gate_wait_inputs safe_enqueue_outbox safe_claim_outbox
  safe_renew_outbox_claim safe_mark_dispatched safe_record_outbox_failure safe_dead_letter_outbox
  safe_set_run_concurrency safe_acquire_slot safe_release_slot safe_create_run_service
  safe_set_run_service safe_pin safe_unpin safe_lease safe_claim_ready_steps : safe.

(** ** Every interleaving of store calls *)

Lemma step_ok_map_steps f st :
  (forall r, rec_attempts (f r) = rec_attempts r) -> step_ok st (set_steps (f <$> st_steps st) st).
Proof.
  intros Hf. apply step_ok_intro; [|done|done|].
  - intros [H1 H2 H3]. split; [done|done|]. intros k r. cbn. rewrite lookup_fmap_Some.
    intros (r' & <- & Hr). rewrite Hf. by apply (H3 k).
  - split; try done. intros k r Hr. exists (f r). cbn. by rewrite lookup_fmap, Hr, Hf.
Qed.

Lemma safe_store_run_ir run ir : safe (store_run_ir run ir).
Proof. apply safe_modify. intros st. other. Qed.
Lemma safe_set_step_inputs run step l : safe (set_step_inputs run step l).
Proof. apply safe_modify. intros st. by apply step_ok_update_same. Qed.
Lemma safe_set_step_gate run step k t : safe (set_step_gate run step k t).
Proof. apply safe_modify. intros st. by apply step_ok_update_same. Qed.
Lemma safe_set_gate_releaser run step r : safe (set_gate_releaser run step r).
Proof. apply safe_modify. intros st. by apply step_ok_update_same. Qed.
Lemma safe_set_supersede_key run k : safe (set_supersede_key run k).
Proof. apply safe_modify. intros st. other. Qed.
Lemma safe_set_run_scheduling run p n : safe (set_run_scheduling run p n).
Proof. apply safe_modify. intros st. other. Qed.
Lemma safe_record_run_cache_scope run s : safe (record_run_cache_scope run s).
Proof. apply safe_modify. intros st. other. Qed.
Lemma safe_delete_artifacts_of_run run : safe (delete_artifacts_of_run run).
Proof. apply safe_modify. intros st. other. Qed.
Lemma safe_forget_workspace_root root : safe (forget_workspace_root root).
Proof.
  intros st. unfold forget_workspace_root. cbn [snd].
  set (f := fun r : StepRec => rec_with_output _ _ _ r). transitivity (set_steps (f <$> st_steps st) st); [|other].
  by apply step_ok_map_steps.
Qed.
Lemma safe_meta_write f : safe (meta_write f).
Proof. apply safe_modify. intros st. other. Qed.
#[export] Hint Resolve safe_store_run_ir safe_set_step_inputs safe_set_step_gate safe_set_gate_releaser
  safe_set_supersede_key safe_set_run_scheduling safe_record_run_cache_scope safe_delete_artifacts_of_run
  safe_forget_workspace_root safe_meta_write : safe.

(** One call of any client. A [create_step_run] is a step only for a row that
    does not exist yet: on an existing one the in-memory store resets the row
    and the Postgres one refuses. *)
Inductive db_step : InMemoryState -> InMemoryState -> Prop :=
| S_create_run st run a : db_step st (create_run run a st).2
| S_begin_run_creation st run a : db_step st (begin_run_creation run a st).2
| S_finish_run_creation st run : db_step st (finish_run_creation run st).2
| S_create_step_run st run step spec needs :
    st_steps st !! (run, step) = None -> db_step st (create_step_run run step spec needs st).2
| S_record_step_transition st run step f t : db_step st (record_step_transition run step f t st).2
| S_commit_step_transition st run step f t fr s es ms :
    db_step st (commit_step_transition run step f t fr s es ms st).2
| S_promote_step st l run step sig es : db_step st (promote_step l run step sig es st).2
| S_record_transition st run f t : db_step st (record_transition run f t st).2
| S_commit_run_transition st l run f t g es ms :
    db_step st (commit_run_transition l run f t g es ms st).2
| S_append_event st e : db_step st (append_event e st).2
| S_set_step_input st run step sig : db_step st (set_step_input run step sig st).2
| S_set_step_output st run step a o i : db_step st (set_step_output run step a o i st).2
| S_set_step_results st run step a m : db_step st (set_step_results run step a m st).2
| S_ingest_attempt_results st run step a m : db_step st (ingest_attempt_results run step a m st).2
| S_set_attempt_consumed st run step a c : db_step st (set_attempt_consumed run step a c st).2
| S_set_attempt_workspace_input_steps st run step a l :
    db_step st (set_attempt_workspace_input_steps run step a l st).2
| S_put_artifacts st run step a b l t : db_step st (put_artifacts run step a b l t st).2
| S_cache_record st p k d r run step a t : db_step st (cache_record p k d r run step a t st).2
| S_record_attempt st run step a : db_step st (record_attempt run step a st).2
| S_set_attempt_handle st run step a h : db_step st (set_attempt_handle run step a h st).2
| S_set_attempt_failure st run step a f d : db_step st (set_attempt_failure run step a f d st).2
| S_set_attempt_outcome st run step a o : db_step st (set_attempt_outcome run step a o st).2
| S_claim_ready_steps st l n mint : db_step st (claim_ready_steps l n mint st).2
| S_open_gate_wait st l run step s a : db_step st (open_gate_wait l run step s a st).2
| S_resolve_gate_wait st run step res : db_step st (resolve_gate_wait run step res st).2
| S_close_running_attempt st run step a o ev : db_step st (close_running_attempt run step a o ev st).2
| S_set_gate_wait_inputs st l run step a i : db_step st (set_gate_wait_inputs l run step a i st).2
| S_enqueue_outbox st m : db_step st (enqueue_outbox m st).2
| S_claim_outbox st now o k n v : db_step st (claim_outbox now o k n v st).2
| S_renew_outbox_claim st now i o v : db_step st (renew_outbox_claim now i o v st).2
| S_mark_dispatched st i : db_step st (mark_dispatched i st).2
| S_record_outbox_failure st i : db_step st (record_outbox_failure i st).2
| S_dead_letter_outbox st i : db_step st (dead_letter_outbox i st).2
| S_set_run_concurrency st run g p : db_step st (set_run_concurrency run g p st).2
| S_acquire_slot st l g run : db_step st (acquire_slot l g run st).2
| S_release_slot st g run : db_step st (release_slot g run st).2
| S_create_run_service st l run t n a : db_step st (create_run_service l run t n a st).2
| S_set_run_service st l run t n s h : db_step st (set_run_service l run t n s h st).2
| S_pin st run b a : db_step st (pin_run_snapshots_db run b a st).2
| S_unpin st run : db_step st (unpin_run_snapshots_db run st).2
| S_lease st now r o ttl : db_step st (lease now r o ttl st).2
| S_store_run_ir st run ir : db_step st (store_run_ir run ir st).2
| S_set_step_inputs st run step l : db_step st (set_step_inputs run step l st).2
| S_set_step_gate st run step k t : db_step st (set_step_gate run step k t st).2
| S_set_gate_releaser st run step r : db_step st (set_gate_releaser run step r st).2
| S_set_supersede_key st run k : db_step st (set_supersede_key run k st).2
| S_set_run_scheduling st run p n : db_step st (set_run_scheduling run p n st).2
| S_record_run_cache_scope st run s : db_step st (record_run_cache_scope run s st).2
| S_delete_artifacts_of_run st run : db_step st (delete_artifacts_of_run run st).2
| S_forget_workspace_root st root : db_step st (forget_workspace_root root st).2
(** Every operation on the Run metadata. *)
| S_meta st f : db_step st (meta_write f st).2.

Lemma create_step_run_ok run step spec needs st :
  st_steps st !! (run, step) = None -> step_ok st (create_step_run run step spec needs st).2.
Proof.
  intros Hn. apply step_ok_intro; [|done|done|].
  - intros [H1 H2 H3]. split; [done|done|]. intros k r. cbn.
    destruct (decide ((run, step) = k)) as [<-|Hk]; [|rewrite lookup_insert_ne by done; apply H3].
    rewrite lookup_insert_eq. intros Hr; injection Hr as <-. left. constructor.
  - split; try done. cbn. apply steps_le_insert. intros r Hr. congruence.
Qed.

Lemma db_step_ok st st' : db_step st st' -> step_ok st st'.
Proof.
  destruct 1;
    match goal with
    | |- step_ok _ (create_step_run _ _ _ _ _).2 => by apply create_step_run_ok
    | |- step_ok ?s (?op ?s).2 => assert (safe op) as Hs by auto with safe; apply Hs
    end.
Qed.

Lemma db_steps_ok st st' : rtc db_step st st' -> step_ok st st'.
Proof. induction 1 as [|a b c H _ IH]; [done|]. etrans; [by apply db_step_ok|done]. Qed.



(** Creating a Step a second time loses its Attempts. *)
Example create_step_run_resets :
  let s1 := (create_step_run "r" "s" None [] state_empty).2 in
  let s2 := (record_attempt "r" "s" (mkAttempt "a1" 3 None None ORunning) s1).2 in
  (rec_attempts <$> (st_steps s2 !! ("r", "s")) = Some [mkAttempt "a1" 3 None None ORunning])
  /\ (rec_attempts <$> (st_steps (create_step_run "r" "s" None [] s2).2 !! ("r", "s")) = Some []).
Proof. split; vm_compute; reflexivity. Qed.

(** ** Leader fencing *)

Definition fence_ok (l : LeaderTerm) (st : InMemoryState) : Prop :=
  exists e, st_leases st !! lt_resource l = Some (lt_owner l, e, lt_term l).

Lemma fence_ok_spec l st : holds_leader_term l st = (if decide (fst (holds_leader_term l st) = Ok tt) then Ok tt else Err DbNotLeader, st)
  /\ (fst (holds_leader_term l st) = Ok tt <-> fence_ok l st).
Proof.
  unfold holds_leader_term, fence_ok. destruct (st_leases st !! lt_resource l) as [[[o e] t]|] eqn:E.
  - destruct (String.eqb o (lt_owner l) && (t =? lt_term l)%Z) eqn:Eq; cbn.
    + split; [done|]. split; [|done]. intros _. apply andb_true_iff in Eq as [E1 E2].
      apply String.eqb_eq in E1 as ->. apply Z.eqb_eq in E2 as ->. by exists e.
    + split; [done|]. split; [done|]. intros (e' & [= -> -> ->]).
      rewrite String.eqb_refl, Z.eqb_refl in Eq. done.
  - split; [done|]. split; [done|]. by intros (e & ?).
Qed.

Lemma fence_lost l st : ~ fence_ok l st -> holds_leader_term l st = (Err DbNotLeader, st).
Proof.
  intros H. destruct (fence_ok_spec l st) as [E1 E2]. rewrite E1. rewrite decide_False; [done|].
  by rewrite E2.
Qed.

(** The fence guards an operation: not the leader, nothing written. *)
Definition fenced {A} (l : LeaderTerm) (op : Op A) : Prop :=
  forall st, ~ fence_ok l st -> op st = (Err DbNotLeader, st).

Lemma fenced_bind {A} l (k : Op A) : fenced l (op_bind (holds_leader_term l) (fun _ => k)).
Proof. intros st H. unfold op_bind. by rewrite fence_lost. Qed.

(** C16: A deposed leader never writes again. Once a leader that held its
    lease term has lost it (a peer took the expired lease over, which starts
    a later term), then in every later state, whatever happens in between
    (even if it leases again), each of the fenced writes it could still issue
    under its old term (claiming ready steps, promoting a step, taking a
    concurrency slot, opening a gate wait or storing its inputs, run
    transitions, shared-service rows) is refused with [NotLeader] and changes
    nothing. *)
Theorem deposed_leader_never_writes l st st1 st2 :
  wf st -> unarmed st -> rtc db_step st st1 -> rtc db_step st1 st2 ->
  fence_ok l st -> ~ fence_ok l st1 ->
  (forall n mint, claim_ready_steps l n mint st2 = (Err DbNotLeader, st2))
  /\ (forall run step sig es, promote_step l run step sig es st2 = (Err DbNotLeader, st2))
  /\ (forall g run, acquire_slot l g run st2 = (Err DbNotLeader, st2))
  /\ (forall run step s a, open_gate_wait l run step s a st2 = (Err DbNotLeader, st2))
  /\ (forall run step a i, set_gate_wait_inputs l run step a i st2 = (Err DbNotLeader, st2))
  /\ (forall run f t g es ms,
        commit_run_transition (Some l) run f t g es ms st2 = (Err DbNotLeader, st2))
  /\ (forall run t n a, create_run_service (Some l) run t n a st2 = (Err DbNotLeader, st2))
  /\ (forall run t n s h, set_run_service (Some l) run t n s h st2 = (Err DbNotLeader, st2)).
Proof.
  intros W U H1 H2 [e0 Hf] Hn.
  destruct (db_steps_ok _ _ H1 W U) as (W1 & U1 & X1).
  destruct (db_steps_ok _ _ H2 W1 U1) as (_ & _ & X2).
  assert (~ fence_ok l st2) as Hn2.
  { intros [e2 Hf2]. apply Hn.
    destruct (ext_leases _ _ X1 _ _ _ _ Hf) as (o1 & e1 & t1 & Hl1 & Ht1 & Ho1).
    destruct (ext_leases _ _ X2 _ _ _ _ Hl1) as (o2 & e2' & t2 & Hl2 & Ht2 & Ho2).
    rewrite Hf2 in Hl2. simplify_eq. assert (t1 = lt_term l) as -> by lia.
    rewrite <- Ho1 in Hl1 by done. by exists e1. }
  split_and!; intros; by apply fenced_bind.
Qed.

Lemma deposed_leader_never_writes_witness :
  let s0 := (lease 0 "scheduler" "A" 30 state_empty).2 in
  let s1 := (lease 31 "scheduler" "B" 30 s0).2 in
  let s2 := (lease 99 "scheduler" "A" 30 s1).2 in
  acquire_slot (mkLeaderTerm "scheduler" "A" 1) "deploy" "r1" s2 = (Err DbNotLeader, s2).
Proof.
  cbn zeta.
  set (s0 := (lease 0 "scheduler" "A" 30 state_empty).2).
  set (s1 := (lease 31 "scheduler" "B" 30 s0).2).
  destruct (db_steps_ok state_empty s0) as (W & U & _);
    [apply rtc_once, S_lease|apply wf_empty|split; reflexivity|].
  apply (deposed_leader_never_writes (mkLeaderTerm "scheduler" "A" 1) s0 s1); [exact W|exact U| | | |].
  - apply rtc_once, S_lease.
  - apply rtc_once, S_lease.
  - exists 30%Z. vm_compute. reflexivity.
  - intros [e He]. vm_compute in He. discriminate He.
Defined.
