(* ===== verification/Retention.v ===== *)
(** * What the store lists: histories, pages and the retention sweeps

    The queries of [InMemoryDb] (scarab-testkit/src/lib.rs) that the list
    views, the plugin broker and the retention sweepers read. None writes. *)

From S2P Require Import Prelude Values Scopes Domain Meta Store.

(** ** One attempt's evidence *)

Definition evidence_of {A} (f : AttemptEvidenceRec -> A) (d : A) (run : RunId) (step : StepId) (attempt : AttemptId)
  : Op A := op_read (fun st => from_option f d (st_attempt_evidence st !! (run, step, attempt))).
Definition attempt_output : RunId -> StepId -> AttemptId -> Op (option string) := evidence_of evd_output None.
Definition attempt_results : RunId -> StepId -> AttemptId -> Op (gmap string Json) := evidence_of evd_results ∅.
Definition attempt_consumed : RunId -> StepId -> AttemptId -> Op (gmap string string) := evidence_of evd_consumed ∅.

(** ** Run lists *)

Record RunSummary := mkSummary {
  su_run : RunId;
  su_status : RunStatus;
  su_created_at : Timestamp;
  su_updated_at : Timestamp;
  su_tenant : option (string * string);
  su_trigger_kind : option string;
  su_actor : option string;
  su_git_ref : option string;
  su_sha : option string;
  su_pr_number : option Z;
  su_pr_base : option string;
  su_run_number : option Z;
  su_pipeline : option string;
  su_trigger_title : option string;
  su_environment : option string;
  su_deploy : bool;
}.
Record RunListFilter := mkFilter { fl_environment : option string; fl_deploy : option bool }.

Definition created_at (st : InMemoryState) (run : RunId) : Timestamp := default 0%Z (st_run_created st !! run).

Definition run_summary (st : InMemoryState) (run : RunId) (status : RunStatus) : RunSummary :=
  let v := st_meta st in
  let created := created_at st run in
  let origin := rm_origin v !! run in
  mkSummary run status created created (rm_tenant v !! run) (or_trigger_kind <$> origin) (origin ≫= or_actor)
    (origin ≫= or_git_ref) (origin ≫= or_sha) (origin ≫= or_pr_number) (origin ≫= or_pr_base)
    (rm_number v !! run) (rm_pipeline v !! run) (rm_trigger_title v !! run)
    (dc_environment <$> rm_deploy v !! run) (bool_decide (is_Some (rm_deploy_runs v !! run))).

(** Newest first, then id. *)
Definition newer_first (a b : RunSummary) : bool :=
  if (su_created_at a =? su_created_at b)%Z then negb (String.ltb (su_run a) (su_run b))
  else (su_created_at b <? su_created_at a)%Z.
Definition summaries (st : InMemoryState) : list RunSummary :=
  map (fun kv => run_summary st kv.1 kv.2) (map_to_list (st_runs st)).
Definition list_runs (limit : N) : Op (list RunSummary) :=
  op_read (fun st => take (N.to_nat limit) (sort_stable newer_first (summaries st))).
Definition matches_filter (f : RunListFilter) (s : RunSummary) : bool :=
  match fl_environment f with Some e => bool_decide (su_environment s = Some e) | None => true end
  && match fl_deploy f with Some d => Bool.eqb (su_deploy s) d | None => true end.
Definition list_runs_for_tenant (org project : string) (f : RunListFilter) (limit : N) : Op (list RunSummary) :=
  op_read (fun st =>
    let of_tenant s := bool_decide (su_tenant s = Some (org, project)) && matches_filter f s in
    take (N.to_nat limit) (sort_stable newer_first (List.filter of_tenant (summaries st)))).
Definition run_tenants (runs : list RunId) : Op (gmap RunId (string * string)) :=
  op_read (fun st => foldl (fun m run => match rm_tenant (st_meta st) !! run with
                                         | Some t => <[run := t]> m
                                         | None => m
                                         end) ∅ runs).
Definition projects_with_runs_in (org environment : string) : Op (list string) :=
  op_read (fun st =>
    dedup_adjacent (sort_stable String.leb (omap (fun kv =>
      if decide (dc_org kv.2 = org /\ dc_environment kv.2 = environment) then Some (dc_project kv.2) else None)
      (map_to_list (rm_deploy (st_meta st)))))).
Definition refused_before (a b : RefusedRun) : bool :=
  if (rf_created_at a =? rf_created_at b)%Z then (rf_id b <=? rf_id a)%Z else (rf_created_at b <? rf_created_at a)%Z.
Definition refused_runs_for_tenant (org project : string) (limit : N) : Op (list RefusedRun) :=
  meta_read (fun v => take (N.to_nat limit) (sort_stable refused_before
    (List.filter (fun r => String.eqb (rf_org r) org && String.eqb (rf_project r) project) (rm_refused v)))).
Fixpoint steps_of_runs (runs : list RunId) : Op (gmap RunId (list StepRun)) :=
  match runs with
  | [] => op_ret ∅
  | run :: rest =>
      let! steps := steps_of_run run in
      let! out := steps_of_runs rest in
      op_ret (if decide (steps = []) then out else <[run := steps]> out)
  end.
Definition outbox_depth : Op N :=
  op_read (fun st => N.of_nat (length (List.filter (fun e => negb (oe_dispatched e) && negb (oe_dead_lettered e))
                                        (st_outbox st)))).

(** ** Open plugin gates, a page at a time *)

Record PendingGateWait := mkWait {
  pw_run : RunId;
  pw_step : StepId;
  pw_attempt : AttemptId;
  pw_started_at : Timestamp;
  pw_inputs : Json;
}.
Definition PendingGateKey : Type := string * string * string.
Definition wait_key (w : PendingGateWait) : PendingGateKey := (pw_run w, pw_step w, pw_attempt w).
Definition key_lt (a b : PendingGateKey) : bool :=
  match String.compare a.1.1 b.1.1 with
  | Lt => true
  | Gt => false
  | Eq => match String.compare a.1.2 b.1.2 with
          | Lt => true
          | Gt => false
          | Eq => String.ltb a.2 b.2
          end
  end.
Definition waits_for (st : InMemoryState) (org releaser : string) : list PendingGateWait :=
  concat (map (fun kv : RunId * StepId * StepRec =>
    let '((run, step), rec) := kv in
    if decide (fst <$> rm_tenant (st_meta st) !! run = Some org /\ rec_gate_kind rec = Some "plugin"
               /\ rec_gate_releaser rec = Some releaser /\ rec_status rec = Some StepPending)
    then omap (fun a => inputs ← (if decide (att_outcome a = ORunning)
                                  then st_gate_inputs st !! (run, step, att_id a) else None);
                        Some (mkWait run step (att_id a) (att_started_at a) inputs)) (rec_attempts rec)
    else []) (map_to_list (st_steps st))).
Definition pending_plugin_gates (org releaser : string) (after : option PendingGateKey) (limit : N)
  : Op (list PendingGateWait) :=
  op_read (fun st =>
    let sorted := sort_stable (fun a b => negb (key_lt (wait_key b) (wait_key a))) (waits_for st org releaser) in
    take (N.to_nat limit)
      (List.filter (fun w => match after with Some k => key_lt k (wait_key w) | None => true end) sorted)).

(** ** The retention sweeps *)

Definition artifact_le (a b : ArtifactRecord) : bool :=
  match String.compare (am_name (ar_meta a)) (am_name (ar_meta b)) with
  | Lt => true
  | Gt => false
  | Eq => if (ar_created_at a =? ar_created_at b)%Z then String.leb (ar_attempt a) (ar_attempt b)
          else (ar_created_at a <? ar_created_at b)%Z
  end.
Definition artifacts_of_run (run : RunId) : Op (list ArtifactRecord) :=
  op_read (fun st => sort_stable artifact_le
    (omap (fun kv => if decide (kv.1.1.1.1 = run) then Some kv.2 else None) (map_to_list (st_artifacts st)))).

(** The terminal Runs created before [cutoff] for which [has] finds rows. *)
Definition prunable (has : InMemoryState -> RunId -> bool) (cutoff : Timestamp) (limit : N) : Op (list RunId) :=
  op_read (fun st => take (N.to_nat limit) (sort_stable String.leb
    (omap (fun kv : RunId * RunStatus =>
       if run_is_terminal kv.2 && (created_at st kv.1 <? cutoff)%Z && has st kv.1 then Some kv.1 else None)
       (map_to_list (st_runs st))))).
Definition prunable_artifact_runs : Timestamp -> N -> Op (list RunId) :=
  prunable (fun st run => existsb (fun kv => String.eqb kv.1.1.1.1 run) (map_to_list (st_artifacts st))).
Definition prunable_log_runs : Timestamp -> N -> Op (list RunId) :=
  prunable (fun st run => existsb (fun kv => String.eqb kv.1.1.1 run) (map_to_list (rm_logs (st_meta st)))).
Definition log_object_keys_of_run (run : RunId) : Op (list string) :=
  meta_read (fun v => concat (omap (fun kv => if decide (kv.1.1.1 = run) then Some (map lc_object_key kv.2) else None)
                                (map_to_list (rm_logs v)))).

(** A Run whose workspace roots the sweep must keep. *)
Definition run_live_at (st : InMemoryState) (cutoff : Timestamp) (run : RunId) : bool :=
  match st_runs st !! run with
  | Some status => negb (run_is_terminal status) || (cutoff <=? created_at st run)%Z
                   || bool_decide (is_Some (st_snapshot_pins st !! run))
  | None => false
  end.
(** The earliest recording of a root wins. *)
Definition note_root (roots : gmap string Timestamp) (r : string * Timestamp) : gmap string Timestamp :=
  match roots !! r.1 with
  | Some t => if (r.2 <? t)%Z then <[r.1 := r.2]> roots else roots
  | None => <[r.1 := r.2]> roots
  end.
Definition live_root (st : InMemoryState) (cutoff : Timestamp) (run : RunId) (root : option string)
  : option (string * Timestamp) :=
  root ← root; if run_live_at st cutoff run then Some (root, created_at st run) else None.
Definition recorded_roots (st : InMemoryState) (cutoff : Timestamp) : list (string * Timestamp) :=
  omap (fun kv => live_root st cutoff kv.1.1 (rec_output kv.2)) (map_to_list (st_steps st))
  ++ omap (fun kv => live_root st cutoff kv.1.1.1 (evd_output kv.2)) (map_to_list (st_attempt_evidence st)).
Definition gc_workspace_roots (terminal_cutoff : Timestamp) : Op (list (string * Timestamp)) :=
  op_read (fun st => btree_list (foldl note_root ∅ (recorded_roots st terminal_cutoff))).

Record SnapshotRetention := mkRetention {
  sr_terminal : bool;
  sr_settled_at : Timestamp;
  sr_pinned_at : option Timestamp;
  sr_pinned_by : option string;
}.
Definition run_snapshot_retention (run : RunId) : Op (option SnapshotRetention) :=
  op_read (fun st =>
    status ← st_runs st !! run;
    let pin := st_snapshot_pins st !! run in
    Some (mkRetention (run_is_terminal status) (created_at st run) (snd <$> pin) (pin ≫= fst))).

(** * Theorems *)

(** ** What the snapshot sweep keeps *)

(** [run] recorded [root]: as a step's latest output, or as any attempt's. *)
Definition records (st : InMemoryState) (run : RunId) (root : string) : Prop :=
  (exists step r, st_steps st !! (run, step) = Some r /\ rec_output r = Some root)
  \/ exists step attempt e, st_attempt_evidence st !! (run, step, attempt) = Some e /\ evd_output e = Some root.
(** A Run that has not ended, that started within the window, or that is pinned. *)
Definition kept (st : InMemoryState) (cutoff : Timestamp) (run : RunId) : Prop :=
  exists status, st_runs st !! run = Some status
    /\ (run_is_terminal status = false \/ (cutoff <= created_at st run)%Z \/ is_Some (st_snapshot_pins st !! run)).

Lemma run_live_spec st cutoff run : run_live_at st cutoff run = true <-> kept st cutoff run.
Proof.
  unfold run_live_at, kept. destruct (st_runs st !! run) as [status|]; [|split; [done|by intros (? & ? & _)]].
  rewrite !orb_true_iff, negb_true_iff, Z.leb_le, bool_decide_eq_true. split; [|intros (? & [= <-] & H); tauto].
  intros H. exists status. tauto.
Qed.

Lemma live_root_spec st cutoff run o root t :
  live_root st cutoff run o = Some (root, t) <-> o = Some root /\ kept st cutoff run /\ t = created_at st run.
Proof.
  unfold live_root. rewrite <- run_live_spec. destruct o as [root'|]; cbn; [|naive_solver].
  destruct (run_live_at st cutoff run); naive_solver.
Qed.

Lemma elem_of_recorded st cutoff root t :
  (root, t) ∈ recorded_roots st cutoff <-> exists run, records st run root /\ kept st cutoff run /\ t = created_at st run.
Proof.
  unfold recorded_roots, records. rewrite elem_of_app, !list_elem_of_omap. split.
  - intros [([[run step] r] & H & E)|([[[run step] a] e] & H & E)]; apply elem_of_map_to_list in H;
      apply live_root_spec in E as (E & Hk & ->); exists run; (split; [|done]); [left|right]; eauto.
  - intros (run & [(step & r & H & E)|(step & a & e & H & E)] & Hk & ->); [left|right];
      (eexists; split; [by apply elem_of_map_to_list|]; by apply live_root_spec).
Qed.

Lemma least_time (l : list (string * Timestamp)) root t0 :
  (root, t0) ∈ l -> exists t1, (root, t1) ∈ l /\ forall t', (root, t') ∈ l -> (t1 <= t')%Z.
Proof.
  revert t0. induction l as [|[k v] l IH]; intros t0 H; [by apply not_elem_of_nil in H|].
  destruct (decide (Exists (fun p => p.1 = root) l)) as [He|Hne].
  - apply Exists_exists in He as ([k2 t2] & H2 & Hk2). cbn in Hk2. subst k2. destruct (IH t2 H2) as (t1 & H1 & Hm).
    destruct (decide (k = root /\ (v < t1)%Z)) as [[-> Hlt]|Hge].
    + exists v. split; [by left|]. intros t' [[= ->]|H']%elem_of_cons; [lia|]. specialize (Hm _ H'). lia.
    + exists t1. split; [by right|]. intros t' [H'|H']%elem_of_cons; [|auto]. injection H' as -> ->.
      destruct (decide (v < t1)%Z) as [?|?]; [by destruct Hge|lia].
  - apply elem_of_cons in H as [[= <- <-]|H]; [|destruct Hne; apply Exists_exists; by exists (root, t0)].
    exists t0. split; [by left|]. intros t' [[= ->]|H']%elem_of_cons; [lia|].
    destruct Hne. apply Exists_exists. by exists (root, t').
Qed.

(** The least time of each root. *)
Lemma note_roots_spec l root t :
  foldl note_root ∅ l !! root = Some t <-> (root, t) ∈ l /\ forall t', (root, t') ∈ l -> (t <= t')%Z.
Proof.
  revert t. induction l as [|[k u] l IH] using rev_ind; intros t; cbn.
  { rewrite lookup_empty. split; [done|]. by intros [H%not_elem_of_nil _]. }
  rewrite foldl_app. cbn. set (m := foldl note_root ∅ l) in *. setoid_rewrite elem_of_app.
  setoid_rewrite list_elem_of_singleton. unfold note_root. cbn [fst snd].
  destruct (decide (k = root)) as [->|Hk].
  2:{ assert (forall t0, (root, t0) ∈ l \/ (root, t0) = (k, u) <-> (root, t0) ∈ l) as E
      by (intros t0; split; [intros [?|Hx]; [done|injection Hx; congruence]|by left]).
      setoid_rewrite E. rewrite <- IH. destruct (m !! k); [case_match|]; by rewrite ?lookup_insert_ne. }
  destruct (m !! root) as [s|] eqn:Em.
  - destruct (proj1 (IH s) eq_refl) as [Hs Hmin]. destruct (Z.ltb_spec u s) as [Hlt|Hge].
    + rewrite lookup_insert_eq. split; [intros [= <-]|].
      * split; [by right|]. intros t' [H|[= ->]]; [apply Hmin in H|]; lia.
      * intros [[H|[= ->]] Ht]; [|done]. apply Hmin in H. specialize (Ht u (or_intror eq_refl)). lia.
    + rewrite Em, IH. split.
      * intros [H1 H2]. split; [by left|]. intros t' [H|[= ->]]; [auto|]. apply H2 in Hs. lia.
      * intros [[H|[= ->]] Ht]; [split; [done|auto]|]. split; [|auto].
        specialize (Ht s (or_introl Hs)). replace u with s by lia. done.
  - rewrite lookup_insert_eq.
    assert (forall t0, (root, t0) ∉ l) as Hn.
    { intros t0 H. destruct (least_time l root t0 H) as (t1 & H1). by apply (IH t1) in H1. }
    split; [intros [= <-]; split; [by right|]; intros t' [H|[= ->]]; [by destruct (Hn t')|lia]|].
    intros [[H|[= ->]] _]; [by destruct (Hn t)|done].
Qed.

(** The snapshot sweep keeps what a Run may still need. It marks each root
    once, and exactly the roots recorded (as a step's latest output or as any
    attempt's, so an older Take's too) by a Run that has not ended (however
    long it has been suspended), that was created within the window, or that is
    pinned; each with the time of the earliest such recording. *)
Theorem gc_keeps_live_roots st cutoff :
  exists roots, gc_workspace_roots cutoff st = (Ok roots, st)
    /\ NoDup roots.*1
    /\ forall root t, (root, t) ∈ roots <->
         (exists run, records st run root /\ kept st cutoff run /\ t = created_at st run)
         /\ forall run, records st run root -> kept st cutoff run -> (t <= created_at st run)%Z.
Proof.
  eexists. split; [done|]. split; [apply btree_list_nodup|]. intros root t.
  rewrite elem_of_btree_list, note_roots_spec, elem_of_recorded. split; intros [H Hm]; (split; [done|]).
  - intros run Hr Hk. apply Hm, elem_of_recorded. eauto.
  - intros t' (run & Hr & Hk & ->)%elem_of_recorded. by apply Hm.
Qed.
