(* ===== verification/Outbox.v ===== *)
(** * The durable outbox: exactly-once effects

    Properties of the store of [Store] that its clients rely on: a side effect
    named by an idempotency key exists once for ever and is handed to one
    drain at a time; a retired message is never delivered again. *)

From S2P Require Import Prelude Domain Store.

(** ** Rows of the outbox *)

Definition key_of (e : OutboxEntry) : string := msg_key (oe_msg e).

Lemma outbox_le_lookup l l' i e :
  outbox_le l l' -> l !! i = Some e -> exists e', l' !! i = Some e' /\ entry_le e e'.
Proof.
  intros (m & n & -> & H) Hi. destruct (Forall2_lookup_l _ _ _ _ _ H Hi) as (e' & He & Hle).
  exists e'. split; [|done]. by apply lookup_app_l_Some.
Qed.

Lemma key_unique st i j e e' :
  wf st -> st_outbox st !! i = Some e -> st_outbox st !! j = Some e' -> key_of e = key_of e' -> i = j.
Proof.
  intros W Hi Hj Hk. eapply (NoDup_lookup _ i j (key_of e) (wf_msg_keys _ W));
    rewrite list_lookup_fmap; [by rewrite Hi|]. rewrite Hj. cbn. f_equal. exact (eq_sym Hk).
Qed.

Lemma enqueue_absorbed m st e :
  e ∈ st_outbox st -> key_of e = msg_key m -> enqueue_outbox_locked m st = st.
Proof.
  intros He Hk. unfold enqueue_outbox_locked.
  assert (existsb (fun e => String.eqb (msg_key (oe_msg e)) (msg_key m)) (st_outbox st) = true) as ->;
    [|done].
  apply existsb_exists. exists e. split; [by apply list_elem_of_In|]. by apply String.eqb_eq.
Qed.

Lemma enqueue_has_key m st :
  exists i e, st_outbox (enqueue_outbox_locked m st) !! i = Some e /\ key_of e = msg_key m.
Proof.
  unfold enqueue_outbox_locked. case_match eqn:E.
  - apply existsb_exists in E as (e & He & Hk). apply list_elem_of_In, list_elem_of_lookup in He as [i Hi].
    exists i, e. split; [done|]. by apply String.eqb_eq.
  - eexists (length (st_outbox st)), _. cbn. rewrite list_lookup_middle by done. done.
Qed.

Definition retired (e : OutboxEntry) : bool := oe_dispatched e || oe_dead_lettered e.

Lemma entry_le_retired e e' : entry_le e e' -> retired e = true -> retired e' = true.
Proof.
  intros (_ & H1 & H2 & _) H. unfold retired in *. apply orb_true_iff in H as [H|H].
  - by rewrite (H1 H).
  - rewrite (H2 H). apply orb_true_r.
Qed.

(** What one claim hands out, row by row. *)
Definition claimable (now : Z) (kind : option string) (e : OutboxEntry) : bool :=
  negb (oe_dispatched e) && negb (oe_dead_lettered e)
  && match oe_claimed_until e with None => true | Some until => (until <=? now)%Z end
  && match kind with None => true | Some k => String.eqb (msg_kind (oe_msg e)) k end.

Lemma claim_entries_spec now owner kind vis limit l :
  let '(out, l') := claim_entries now owner kind vis limit l in
  length out <= limit
  /\ (forall m, m ∈ out -> exists i e e', l !! i = Some e /\ oe_msg e = m /\ claimable now kind e = true
        /\ l' !! i = Some e' /\ oe_msg e' = m
        /\ oe_dispatched e' = oe_dispatched e /\ oe_dead_lettered e' = oe_dead_lettered e
        /\ oe_claimed_by e' = Some owner
        /\ oe_claimed_until e' = Some (now + Z.max vis 0)%Z)
  /\ map oe_msg l' = map oe_msg l.
Proof.
  revert limit; induction l as [|e l IH]; intros [|limit]; cbn [claim_entries].
  1-3: split_and!; [cbn; lia|intros m Hm; by apply elem_of_nil in Hm|done].
  destruct (_ && _) eqn:C.
  - specialize (IH limit). destruct (claim_entries _ _ _ _ _ _) as [out l'].
    destruct IH as (L & S & M). split_and!; [cbn; lia| |cbn; by rewrite M].
    intros m Hm. apply elem_of_cons in Hm as [->|Hm].
    + exists 0. do 2 eexists. cbn. split_and!; done.
    + destruct (S m Hm) as (i & e1 & e2 & H). by exists (Datatypes.S i), e1, e2.
  - specialize (IH (Datatypes.S limit)). destruct (claim_entries _ _ _ _ _ _) as [out l'].
    destruct IH as (L & S & M). split_and!; [cbn in *; lia| |cbn; by rewrite M].
    intros m Hm. destruct (S m Hm) as (i & e1 & e2 & H). by exists (Datatypes.S i), e1, e2.
Qed.

Lemma claim_outbox_row now o kind limit vis st out m :
  (claim_outbox now o kind limit vis st).1 = Ok out -> m ∈ out ->
  exists i e, st_outbox st !! i = Some e /\ oe_msg e = m /\ claimable now kind e = true.
Proof.
  unfold claim_outbox. pose proof (claim_entries_spec now o kind vis (N.to_nat limit) (st_outbox st)) as H.
  destruct (claim_entries _ _ _ _ _ _) as [out' l']. cbn. intros [= <-] Hm.
  destruct H as (_ & S & _). destruct (S m Hm) as (i & e & _ & H1 & H2 & H3 & _). eauto.
Qed.

(** C24: A side effect exists exactly once per idempotency key. After [m] is
    enqueued, then in every later state, whatever the store's clients do in
    between: one row, and only one, carries [m]'s key, and it still carries
    the same message; enqueueing anything under that key again (a crashed
    tick retried, a second server) writes nothing; and once the row has been
    dispatched or dead-lettered, no claim by any drain ever hands it out
    again. *)
Theorem outbox_exactly_once m st st2 :
  wf st -> unarmed st -> rtc db_step (enqueue_outbox m st).2 st2 ->
  exists i e,
    st_outbox st2 !! i = Some e /\ key_of e = msg_key m
    /\ (forall j e', st_outbox st2 !! j = Some e' -> key_of e' = msg_key m -> j = i)
    /\ (forall e0, st_outbox (enqueue_outbox m st).2 !! i = Some e0 -> oe_msg e = oe_msg e0)
    /\ (forall m', msg_key m' = msg_key m -> enqueue_outbox m' st2 = (Ok tt, st2))
    /\ (forall st3 now o kind limit vis out, retired e = true -> rtc db_step st2 st3 ->
          (claim_outbox now o kind limit vis st3).1 = Ok out ->
          forall x, x ∈ out -> msg_key x <> msg_key m).
Proof.
  intros W U H.
  destruct (db_step_ok _ _ (S_enqueue_outbox st m) W U) as (W1 & U1 & _).
  destruct (db_steps_ok _ _ H W1 U1) as (W2 & U2 & X).
  destruct (enqueue_has_key m st) as (i & e0 & Hi & Hk).
  destruct (outbox_le_lookup _ _ i e0 (ext_outbox _ _ X) Hi) as (e & He & Hle).
  assert (key_of e = msg_key m) as Hke by (unfold key_of; rewrite (proj1 Hle); apply Hk).
  exists i, e. split_and!; [done|done| | | |].
  - intros j e' Hj Hk'. eapply key_unique; [exact W2|done|done|congruence].
  - intros e0' H0. cbn in H0. rewrite Hi in H0. injection H0 as <-. apply Hle.
  - intros m' Hm. unfold enqueue_outbox, op_modify. f_equal. eapply enqueue_absorbed.
    + by eapply list_elem_of_lookup_2.
    + congruence.
  - intros st3 now o kind limit vis out Hr H3 Hc x Hx Hxk.
    destruct (db_steps_ok _ _ H3 W2 U2) as (W3 & U3 & X3).
    destruct (outbox_le_lookup _ _ i e (ext_outbox _ _ X3) He) as (e3 & He3 & Hle3).
    destruct (claim_outbox_row _ _ _ _ _ _ _ _ Hc Hx) as (j & ej & Hj & Hm & Hcl).
    assert (j = i) as ->.
    { eapply key_unique; [exact W3|done|done|]. unfold key_of. rewrite Hm, (proj1 Hle3). by rewrite Hxk. }
    rewrite He3 in Hj. injection Hj as <-.
    pose proof (entry_le_retired _ _ Hle3 Hr) as Hr3. unfold retired in Hr3. unfold claimable in Hcl.
    destruct (oe_dispatched e3), (oe_dead_lettered e3); done.
Qed.

Lemma outbox_exactly_once_witness :
  let m := mkMsg 0 "r" "launch_step" (PLaunchIntent "r" "s" "a1") "launch:r:s:a1" 5 in
  let st1 := (enqueue_outbox m state_empty).2 in
  let st2 := (mark_dispatched 1 st1).2 in
  (exists i e, st_outbox st2 !! i = Some e /\ key_of e = "launch:r:s:a1" /\ retired e = true)
  /\ enqueue_outbox m st2 = (Ok tt, st2).
Proof.
  cbn zeta.
  set (m := mkMsg 0 "r" "launch_step" (PLaunchIntent "r" "s" "a1") "launch:r:s:a1" 5).
  set (st2 := (mark_dispatched 1 (enqueue_outbox m state_empty).2).2).
  destruct (outbox_exactly_once m state_empty st2) as (i & e & H1 & H2 & H3 & _ & H5 & _).
  - apply wf_empty.
  - split; reflexivity.
  - apply rtc_once. apply S_mark_dispatched.
  - split; [|apply H5; reflexivity]. exists i, e. split; [exact H1|]. split; [exact H2|].
    assert (i = 0) as -> by (destruct i as [|[|i]]; [reflexivity|vm_compute in H1; discriminate H1|
                              vm_compute in H1; discriminate H1]).
    vm_compute in H1. injection H1 as <-. reflexivity.
Defined.

(** ** One drain at a time *)

Lemma claim_entries_mark now owner kind vis limit l m :
  NoDup (map (fun e => msg_key (oe_msg e)) l) ->
  m ∈ (claim_entries now owner kind vis limit l).1 ->
  forall i e', (claim_entries now owner kind vis limit l).2 !! i = Some e' -> oe_msg e' = m ->
  oe_claimed_until e' = Some (now + Z.max vis 0)%Z /\ oe_claimed_by e' = Some owner.
Proof.
  intros Hnd Hm i e' Hi He. pose proof (claim_entries_spec now owner kind vis limit l) as H.
  destruct (claim_entries _ _ _ _ _ _) as [out l']. cbn in *. destruct H as (_ & S & M).
  destruct (S m Hm) as (j & e1 & e2 & _ & _ & _ & Hj & Hm2 & _ & _ & Hb & Hu).
  assert (i = j) as ->; [|by rewrite Hi in Hj; simplify_eq].
  assert (NoDup (map (fun e => msg_key (oe_msg e)) l')) as Hnd'.
  { rewrite <- (map_map oe_msg msg_key l'). rewrite M, map_map. done. }
  eapply (NoDup_lookup _ i j (msg_key m) Hnd'); rewrite list_lookup_fmap;
    [rewrite Hi|rewrite Hj]; cbn; by rewrite ?He, ?Hm2.
Qed.

(** One drain delivers a message at a time. A claim takes at most [limit]
    messages, only of the asked kind, none of them dispatched, dead-lettered
    or claimed by a drain whose visibility window is still open, and until
    the window it opens has run out no other claim, by any drain and of any
    kind, hands out a message it took; once the window has run out, an
    undelivered message can be claimed again (a crashed drain loses nothing). *)
Theorem claim_excludes_peers st now o kind limit vis out :
  wf st -> (claim_outbox now o kind limit vis st).1 = Ok out ->
  let st' := (claim_outbox now o kind limit vis st).2 in
  length out <= N.to_nat limit
  /\ (forall m, m ∈ out -> exists e, e ∈ st_outbox st /\ oe_msg e = m /\ retired e = false
        /\ (forall k, kind = Some k -> msg_kind m = k)
        /\ (forall until, oe_claimed_until e = Some until -> (until <= now)%Z))
  /\ (forall now' o' kind' limit' vis' out', (now' < now + Z.max vis 0)%Z ->
        (claim_outbox now' o' kind' limit' vis' st').1 = Ok out' ->
        forall m, m ∈ out -> m ∉ out')
  /\ (forall now' m, (now + Z.max vis 0 <= now')%Z -> m ∈ out ->
        exists e', e' ∈ st_outbox st' /\ oe_msg e' = m /\ claimable now' kind e' = true).
Proof.
  intros W Hc. pose proof (claim_entries_spec now o kind vis (N.to_nat limit) (st_outbox st)) as H.
  pose proof (claim_entries_le now o kind vis (N.to_nat limit) (st_outbox st)) as Hle.
  pose proof (claim_entries_mark now o kind vis (N.to_nat limit) (st_outbox st)) as Hmark.
  unfold claim_outbox in Hc |- *.
  destruct (claim_entries _ _ _ _ _ _) as [out0 l']. cbn in *. injection Hc as ->.
  destruct H as (L & S & _). split_and!; [done| | |].
  - intros m Hm. destruct (S m Hm) as (i & e & _ & Hi & He & Hcl & _). exists e.
    unfold claimable in Hcl. unfold retired.
    destruct (oe_dispatched e), (oe_dead_lettered e); try done.
    split_and!; [by eapply list_elem_of_lookup_2|done|done| |].
    + intros k ->. apply andb_true_iff in Hcl as [_ Hk]. apply String.eqb_eq in Hk. by subst.
    + intros u Hu. rewrite Hu in Hcl. apply andb_true_iff in Hcl as [Hu' _]. cbn in Hu'. lia.
  - intros now' o' kind' limit' vis' out' Hlt Hc' m Hm Hm'.
    destruct (claim_outbox_row _ _ _ _ _ (set_outbox l' st) out' m Hc' Hm') as (i & e & Hi & He & Hcl).
    destruct (Hmark m (wf_msg_keys _ W) Hm i e Hi He) as [Hu _].
    unfold claimable in Hcl. rewrite Hu in Hcl.
    destruct (negb (oe_dispatched e) && negb (oe_dead_lettered e)); [|done].
    apply andb_true_iff in Hcl as [Hcl _]. cbn in Hcl. lia.
  - intros now' m Hge Hm. destruct (S m Hm) as (i & e & e' & Hi & He & Hcl & Hi' & He' & Hd & Hdl & _ & Hu).
    exists e'. split; [by eapply list_elem_of_lookup_2|]. split; [done|].
    unfold claimable in *. rewrite Hu, He', Hd, Hdl. rewrite He in Hcl.
    destruct (negb (oe_dispatched e) && negb (oe_dead_lettered e)); [|done].
    apply andb_true_iff in Hcl as [_ ->]. by rewrite (proj2 (Z.leb_le _ _) Hge).
Qed.

Lemma claim_excludes_peers_witness :
  let st := (enqueue_outbox (mkMsg 0 "r" "launch_step" (PLaunchIntent "r" "s" "a1") "k" 5) state_empty).2 in
  let st' := (claim_outbox 100 "A" None 10 30 st).2 in
  exists out', (claim_outbox 129 "B" None 10 30 st').1 = Ok out'
    /\ mkMsg 1 "r" "launch_step" (PLaunchIntent "r" "s" "a1") "k" 5 ∉ out'.
Proof.
  cbn zeta.
  set (st := (enqueue_outbox (mkMsg 0 "r" "launch_step" (PLaunchIntent "r" "s" "a1") "k" 5) state_empty).2).
  destruct (claim_excludes_peers st 100 "A" None 10 30
              [mkMsg 1 "r" "launch_step" (PLaunchIntent "r" "s" "a1") "k" 5]) as (_ & _ & H & _).
  - apply wf_enqueue, wf_empty.
  - vm_compute. reflexivity.
  - eexists. split; [vm_compute; reflexivity|].
    apply (H 129%Z "B" None 10%N 30%Z); [vm_compute; reflexivity|vm_compute; reflexivity|]. constructor.
Defined.
