(* ===== verification/Commits.v ===== *)
(** * The store's compare-and-sets: one winner, all or nothing

    What each guarded write of [Store] promises the scheduler: the exact
    condition under which it lands, everything it writes when it does, that it
    writes nothing when it does not, and that of two writers racing from the
    same reading only one wins. *)

From S2P Require Import Prelude Domain Store Outbox.

(** ** The fields a batch of journal and outbox writes leaves alone *)

Lemma enqueue_locked_fields m st :
  st_events (enqueue_outbox_locked m st) = st_events st
  /\ st_steps (enqueue_outbox_locked m st) = st_steps st
  /\ st_runs (enqueue_outbox_locked m st) = st_runs st
  /\ st_reopen_generations (enqueue_outbox_locked m st) = st_reopen_generations st
  /\ st_toctou_race (enqueue_outbox_locked m st) = st_toctou_race st.
Proof. unfold enqueue_outbox_locked. by case_match. Qed.

Lemma enqueue_all_cons m ms st : enqueue_all (m :: ms) st = enqueue_all ms (enqueue_outbox_locked m st).
Proof. done. Qed.

Lemma enqueue_all_fields ms st :
  st_events (enqueue_all ms st) = st_events st
  /\ st_steps (enqueue_all ms st) = st_steps st
  /\ st_runs (enqueue_all ms st) = st_runs st
  /\ st_reopen_generations (enqueue_all ms st) = st_reopen_generations st
  /\ st_toctou_race (enqueue_all ms st) = st_toctou_race st.
Proof.
  revert st; induction ms as [|m ms IH]; intros st; [done|].
  destruct (IH (enqueue_outbox_locked m st)) as (E1 & E2 & E3 & E4 & E5).
  rewrite enqueue_all_cons, E1, E2, E3, E4, E5. apply enqueue_locked_fields.
Qed.

Definition has_key (k : string) (st : InMemoryState) : Prop :=
  exists e, e ∈ st_outbox st /\ key_of e = k.

Lemma enqueue_locked_keeps m st e : e ∈ st_outbox st -> e ∈ st_outbox (enqueue_outbox_locked m st).
Proof.
  intros He. unfold enqueue_outbox_locked. case_match; [done|]. apply elem_of_app. by left.
Qed.

Lemma enqueue_all_keeps ms st e : e ∈ st_outbox st -> e ∈ st_outbox (enqueue_all ms st).
Proof.
  revert st; induction ms as [|m ms IH]; intros st He; [done|]. rewrite enqueue_all_cons.
  by apply IH, enqueue_locked_keeps.
Qed.

Lemma enqueue_all_has ms st m : m ∈ ms -> has_key (msg_key m) (enqueue_all ms st).
Proof.
  revert st; induction ms as [|x ms IH]; intros st Hm; [by apply elem_of_nil in Hm|].
  rewrite enqueue_all_cons. apply elem_of_cons in Hm as [->|Hm]; [|by apply IH].
  destruct (enqueue_has_key x st) as (i & e & Hi & He). exists e. split; [|done].
  apply enqueue_all_keeps. by eapply list_elem_of_lookup_2.
Qed.

(** What enqueueing [m] does to the rows under its key: with none there, one
    row carrying exactly [m], not yet claimed, dispatched or given up on; with
    one there already, nothing. *)
Definition fresh_row (m : OutboxMessage) (e : OutboxEntry) : Prop :=
  exists id, e = mkEntry (msg_with_id id m) None None false 0 false.
Definition posts (m : OutboxMessage) (st st' : InMemoryState) : Prop :=
  (~ has_key (msg_key m) st -> exists e, fresh_row m e /\ forall x, key_of x = msg_key m -> (x ∈ st_outbox st' <-> x = e))
  /\ (has_key (msg_key m) st -> forall x, key_of x = msg_key m -> (x ∈ st_outbox st' <-> x ∈ st_outbox st)).

Lemma has_key_dec k st : has_key k st \/ ~ has_key k st.
Proof.
  destruct (existsb (fun e => String.eqb (key_of e) k) (st_outbox st)) eqn:E.
  - left. apply existsb_exists in E as (e & He & Hk). exists e. split; [by apply list_elem_of_In|by apply String.eqb_eq].
  - right. intros (e & He & Hk). apply not_true_iff_false in E. apply E, existsb_exists. exists e.
    split; [by apply list_elem_of_In|by apply String.eqb_eq].
Qed.
Lemma enqueue_locked_new m st : ~ has_key (msg_key m) st ->
  exists e, fresh_row m e /\ st_outbox (enqueue_outbox_locked m st) = st_outbox st ++ [e].
Proof.
  intros Hn. unfold enqueue_outbox_locked. case_match eqn:E; [|eexists; split; [by eexists|done]].
  destruct Hn. apply existsb_exists in E as (e & He & Hk). exists e. split; [by apply list_elem_of_In|by apply String.eqb_eq].
Qed.
(** A row under another key is neither added nor removed. *)
Lemma enqueue_locked_other m st x : key_of x <> msg_key m -> x ∈ st_outbox (enqueue_outbox_locked m st) <-> x ∈ st_outbox st.
Proof.
  intros Hx. destruct (has_key_dec (msg_key m) st) as [(e & He & Hk)|Hn]; [by rewrite (enqueue_absorbed _ _ _ He Hk)|].
  destruct (enqueue_locked_new m st Hn) as (e & [id ->] & ->). rewrite elem_of_app, list_elem_of_singleton. naive_solver.
Qed.
Lemma enqueue_all_other ms st x : (forall m, m ∈ ms -> key_of x <> msg_key m) ->
  x ∈ st_outbox (enqueue_all ms st) <-> x ∈ st_outbox st.
Proof.
  revert st; induction ms as [|m ms IH]; intros st H; [done|]. rewrite enqueue_all_cons, IH.
  - apply enqueue_locked_other, H. by left.
  - intros m' Hm'. apply H. by right.
Qed.
Lemma enqueue_all_posts ms st m :
  m ∈ ms -> (forall m', m' ∈ ms -> msg_key m' = msg_key m -> m' = m) -> posts m st (enqueue_all ms st).
Proof.
  revert st; induction ms as [|m0 ms IH]; intros st Hin Hu; [by apply elem_of_nil in Hin|]. rewrite enqueue_all_cons.
  destruct (decide (msg_key m ∈ map msg_key ms)) as [Hm|Hm].
  - apply list_elem_of_fmap in Hm as (m1 & Ek & Hm). assert (m1 = m) as -> by (apply Hu; [by right|done]). clear Ek.
    destruct (IH (enqueue_outbox_locked m0 st) Hm) as [H1 H2]; [intros m' ?; apply Hu; by right|].
    destruct (decide (msg_key m0 = msg_key m)) as [E|E].
    + assert (m0 = m) as -> by (apply Hu; [by left|done]).
      assert (has_key (msg_key m) (enqueue_outbox_locked m st)) as Hk.
      { destruct (enqueue_has_key m st) as (i & e & Hi & He). exists e. split; [by eapply list_elem_of_lookup_2|done]. }
      split.
      * intros Hn. destruct (enqueue_locked_new m st Hn) as (e & Hf & Ho). exists e. split; [done|]. intros x Hx.
        rewrite (H2 Hk x Hx), Ho, elem_of_app, list_elem_of_singleton. split; [|by right].
        intros [Hx'|?]; [|done]. destruct Hn. by exists x.
      * intros (e & He & Hek) x Hx. rewrite (H2 Hk x Hx). by rewrite (enqueue_absorbed _ _ _ He Hek).
    + assert (forall x, key_of x = msg_key m -> x ∈ st_outbox (enqueue_outbox_locked m0 st) <-> x ∈ st_outbox st) as Ho
        by (intros x Hx; apply enqueue_locked_other; congruence).
      assert (has_key (msg_key m) (enqueue_outbox_locked m0 st) <-> has_key (msg_key m) st) as Hk
        by (split; intros (e & He & Hek); exists e; (split; [by apply Ho|done])).
      split; [by rewrite <- Hk|]. intros Hh x Hx. rewrite (H2 (proj2 Hk Hh) x Hx). by apply Ho.
  - apply elem_of_cons in Hin as [->|?]; [|destruct Hm; by apply list_elem_of_fmap_2].
    assert (forall x, key_of x = msg_key m0 -> x ∈ st_outbox (enqueue_all ms (enqueue_outbox_locked m0 st)) <-> x ∈ st_outbox (enqueue_outbox_locked m0 st)) as Ho.
    { intros x Hx. apply enqueue_all_other. intros m' Hm' E. apply Hm. rewrite <- Hx, E. by apply list_elem_of_fmap_2. }
    split.
    + intros Hn. destruct (enqueue_locked_new m0 st Hn) as (e & Hf & He). exists e. split; [done|]. intros x Hx.
      rewrite (Ho x Hx), He, elem_of_app, list_elem_of_singleton. split; [|by right]. intros [Hx'|?]; [|done]. destruct Hn. by exists x.
    + intros (e & He & Hek) x Hx. rewrite (Ho x Hx). by rewrite (enqueue_absorbed _ _ _ He Hek).
Qed.
(** The outbox a batch leaves depends on nothing but the outbox it found. *)
Lemma enqueue_all_outbox ms st st2 : st_outbox st = st_outbox st2 -> st_outbox (enqueue_all ms st) = st_outbox (enqueue_all ms st2).
Proof.
  revert st st2; induction ms as [|m ms IH]; intros st st2 E; [done|]. rewrite !enqueue_all_cons. apply IH.
  unfold enqueue_outbox_locked. rewrite E. by case_match.
Qed.
Lemma enqueue_all_app ms ms' st : enqueue_all (ms ++ ms') st = enqueue_all ms' (enqueue_all ms st).
Proof. unfold enqueue_all. by rewrite foldl_app. Qed.

(** ** Steps: the transition compare-and-set *)

Definition latest_attempt (run : RunId) (step : StepId) (st : InMemoryState) : option AttemptId :=
  r ← st_steps st !! (run, step); a ← max_by_order (rec_attempts r); Some (att_id a).

(** The precondition the transition is conditional on. *)
Definition step_cas_holds (run : RunId) (step : StepId) (from : StepStatus)
    (frontier : AttemptFrontier) (st : InMemoryState) : Prop :=
  (exists r, st_steps st !! (run, step) = Some r /\ rec_status r = Some from)
  /\ match frontier with
     | FrontierAny => True
     | FrontierIs expected => latest_attempt run step st = expected
     end.

(** What the winner writes on the step's row. *)
Definition step_row_after (to : StepStatus) (stamp : option (AttemptId * AttemptStamp)) (r : StepRec)
  : StepRec :=
  let r := rec_with_status (Some to) r in
  match stamp with
  | Some (a, s) => rec_with_attempts
      (update_first (fun x => String.eqb (att_id x) a) (stamp_attempt s) (rec_attempts r)) r
  | None => r
  end.

Lemma check_step_unarmed run step from st :
  st_toctou_race st = None ->
  check_step_transition_locked run step from st =
    match st_steps st !! (run, step) with
    | Some r => if decide (rec_status r = Some from) then (Ok tt, st) else (Err DbConflict, st)
    | None => (Err DbConflict, st)
    end.
Proof. intros H. unfold check_step_transition_locked. by rewrite H. Qed.

(** A failed append is the crash between the guard and the journal: the
    transaction is lost whole (only the injector is spent). *)
Definition no_crash (st : InMemoryState) : Prop := st_event_append_failure st = None.

Lemma take_failure_none es st : no_crash st -> take_event_append_failure es st = (Ok tt, st).
Proof. unfold no_crash, take_event_append_failure. by intros ->. Qed.

Lemma take_failure_cases es st :
  take_event_append_failure es st = (Ok tt, st)
  \/ exists e, take_event_append_failure es st = (Err e, set_event_append_failure None st).
Proof.
  unfold take_event_append_failure. destruct (st_event_append_failure st); [|by left].
  case_match; [right; by eexists|by left].
Qed.

(** Nothing durable differs. *)
Definition same_data (st st' : InMemoryState) : Prop :=
  st' = st \/ st' = set_event_append_failure None st.

Lemma check_frontier_cases run step frontier st :
  (check_frontier run step frontier st = (Ok tt, st)
   /\ match frontier with FrontierAny => True | FrontierIs x => latest_attempt run step st = x end)
  \/ (check_frontier run step frontier st = (Err DbConflict, st)
      /\ ~ match frontier with FrontierAny => True | FrontierIs x => latest_attempt run step st = x end).
Proof.
  unfold check_frontier, latest_attempt. destruct frontier as [|x]; [by left|].
  cbv zeta. case_decide; [by left|by right].
Qed.

Definition step_commit_writes (run : RunId) (step : StepId) (to : StepStatus)
    (stamp : option (AttemptId * AttemptStamp)) (es : list EventKind) (ms : list OutboxMessage)
    (st : InMemoryState) : InMemoryState :=
  let st := update_step (run, step) (rec_with_status (Some to)) st in
  let st := match stamp with Some (a, s) => stamp_attempt_locked run step a s st | None => st end in
  enqueue_all ms (push_events es st).

Lemma alter_some {A} (f : A -> A) (k : RunId * StepId) (m : gmap (RunId * StepId) A) r :
  m !! k = Some r -> alter f k m = <[k := f r]> m.
Proof.
  intros H. apply map_eq. intros k'. destruct (decide (k = k')) as [<-|Hn].
  - by rewrite lookup_alter_eq, lookup_insert_eq, H.
  - by rewrite lookup_alter_ne, lookup_insert_ne.
Qed.

Lemma step_commit_steps run step to stamp es ms st r :
  st_steps st !! (run, step) = Some r ->
  st_steps (step_commit_writes run step to stamp es ms st)
    = <[(run, step) := step_row_after to stamp r]> (st_steps st).
Proof.
  intros Hr. unfold step_commit_writes. cbv zeta.
  destruct (enqueue_all_fields ms (push_events es
    (match stamp with
     | Some (a, s) => stamp_attempt_locked run step a s (update_step (run, step) (rec_with_status (Some to)) st)
     | None => update_step (run, step) (rec_with_status (Some to)) st end))) as (_ & -> & _).
  destruct stamp as [[a s]|]; cbn.
  - rewrite (alter_some _ _ _ r Hr). rewrite (alter_some _ _ _ (rec_with_status (Some to) r)).
    + by rewrite insert_insert_eq.
    + by rewrite lookup_insert_eq.
  - by rewrite (alter_some _ _ _ r Hr).
Qed.

Lemma step_commit_effects run step from to frontier stamp es ms st r :
  st_toctou_race st = None -> st_steps st !! (run, step) = Some r ->
  step_cas_holds run step from frontier st ->
  let st' := step_commit_writes run step to stamp es ms st in
  step_cas_holds run step from frontier st
  /\ (exists r, st_steps st !! (run, step) = Some r
        /\ st_steps st' = <[(run, step) := step_row_after to stamp r]> (st_steps st))
  /\ st_events st' = st_events st ++ es
  /\ (forall m, m ∈ ms -> has_key (msg_key m) st')
  /\ outbox_le (st_outbox st) (st_outbox st')
  /\ st_runs st' = st_runs st
  /\ (to <> from -> forall to2 frontier2 stamp2 es2 ms2,
        commit_step_transition run step from to2 frontier2 stamp2 es2 ms2 st' = (Err DbConflict, st')).
Proof.
  intros Hrace Hr Hcas st'. pose proof (step_commit_steps run step to stamp es ms st r Hr) as Hst.
  fold st' in Hst. split; [done|]. split; [by exists r|].
  unfold st', step_commit_writes in *. cbv zeta in *.
  set (s1 := match stamp with Some (a, s) => _ | None => _ end) in *.
  assert (st_events s1 = st_events st /\ st_runs s1 = st_runs st /\ st_outbox s1 = st_outbox st
          /\ st_toctou_race s1 = st_toctou_race st) as (F1 & F2 & F3 & F4)
    by (unfold s1; by destruct stamp as [[]|]).
  destruct (enqueue_all_fields ms (push_events es s1)) as (E1 & _ & E3 & _ & E5).
  split; [by rewrite E1; cbn; rewrite F1|]. split; [intros m; apply enqueue_all_has|].
  split; [pose proof (ext_outbox _ _ (extends_enqueue_all ms (push_events es s1))) as O;
          cbn in O; by rewrite F3 in O|].
  split; [by rewrite E3|]. intros Hne to2 fr2 st2 es2 ms2. unfold commit_step_transition.
  unfold op_bind at 1. unfold check_step_transition_locked. rewrite E5. cbn. rewrite F4, Hrace.
  rewrite Hst, lookup_insert_eq. rewrite decide_False; [done|].
  unfold step_row_after. destruct stamp as [[]|]; cbn; congruence.
Qed.

(** C35: a step transition is one atomic compare-and-set. It lands exactly
    when the step's status is still the one the caller read and, if the caller
    named the attempt it acted on, that attempt is still the step's latest
    (or there is still none); it then writes the new status and the stamp on
    that one row, appends exactly its events to the log and leaves a row in
    the outbox for each of its messages; every other step and every Run
    status stays. Any refusal (or a crash before the journal append) leaves
    the data as it was, so a transition is never half applied; and of two
    callers that read the same status and want to leave it, the second is
    refused with [Conflict]. *)
Theorem commit_step_transition_atomic run step from to frontier stamp es ms st :
  unarmed st ->
  let '(res, st') := commit_step_transition run step from to frontier stamp es ms st in
  match res with
  | Ok _ =>
      step_cas_holds run step from frontier st
      /\ (exists r, st_steps st !! (run, step) = Some r
            /\ st_steps st' = <[(run, step) := step_row_after to stamp r]> (st_steps st))
      /\ st_events st' = st_events st ++ es
      /\ (forall m, m ∈ ms -> has_key (msg_key m) st')
      /\ outbox_le (st_outbox st) (st_outbox st')
      /\ st_runs st' = st_runs st
      /\ (to <> from -> forall to2 frontier2 stamp2 es2 ms2,
            commit_step_transition run step from to2 frontier2 stamp2 es2 ms2 st' = (Err DbConflict, st'))
  | Err e =>
      same_data st st'
      /\ (no_crash st -> e = DbConflict /\ ~ step_cas_holds run step from frontier st)
  end.
Proof.
  intros [U _]. unfold commit_step_transition at 1. unfold op_bind at 1.
  rewrite check_step_unarmed by done.
  destruct (st_steps st !! (run, step)) as [r|] eqn:Er; cycle 1.
  { split; [by left|]. intros _. split; [done|]. intros [(r & Hr & _) _]. congruence. }
  destruct (decide (rec_status r = Some from)) as [Hs|Hs]; cycle 1.
  { split; [by left|]. intros _. split; [done|]. intros [(r' & Hr & Hs') _]. congruence. }
  unfold op_bind at 1. destruct (check_frontier_cases run step frontier st) as [[-> Hf]|[-> Hf]]; cycle 1.
  { split; [by left|]. intros _. split; [done|]. by intros [_ ?]. }
  unfold op_bind at 1. destruct (take_failure_cases es st) as [E|[e E]]; rewrite E; cycle 1.
  { split; [by right|]. intros Hn. rewrite take_failure_none in E; done. }
  assert (step_cas_holds run step from frontier st) as Hc by (split; [by exists r|done]).
  pose proof (step_commit_effects run step from to frontier stamp es ms st r U Er Hc) as F.
  cbv zeta in F. rewrite Er in F. exact F.
Qed.

Lemma commit_step_transition_atomic_witness :
  let st := (claim_ready_steps (mkLeaderTerm "scheduler" "A" 1) 5
               (fun s => Ok (mkLaunch (mkAttempt "a1" 7 None None ORunning) [] []))
               (update_step ("r", "s") (rec_with_status (Some StepReady))
                  (create_step_run "r" "s" None [] (lease 0 "scheduler" "A" 30 state_empty).2).2)).2 in
  let st' := (commit_step_transition "r" "s" StepRunning StepSucceeded (FrontierIs (Some "a1"))
                (Some ("a1", StampOutcome OSucceeded)) [] [] st).2 in
  commit_step_transition "r" "s" StepRunning StepFailed FrontierAny
    (Some ("a1", StampFailure FLost None)) [] [] st' = (Err DbConflict, st').
Proof.
  cbn zeta.
  set (st := (claim_ready_steps _ _ _ _).2).
  pose proof (commit_step_transition_atomic "r" "s" StepRunning StepSucceeded (FrontierIs (Some "a1"))
                (Some ("a1", StampOutcome OSucceeded)) [] [] st) as H.
  assert ((commit_step_transition "r" "s" StepRunning StepSucceeded (FrontierIs (Some "a1"))
             (Some ("a1", StampOutcome OSucceeded)) [] [] st).1 = Ok tt) as E
    by (vm_compute; reflexivity).
  destruct (commit_step_transition "r" "s" StepRunning StepSucceeded _ _ _ _ st) as [res st'].
  cbn in E. subst res. destruct H as (_ & _ & _ & _ & _ & _ & H); [split; reflexivity|].
  apply H. discriminate.
Defined.

(** ** Runs: the generation guard *)

Lemma commit_run_effects leader run from to g es ms st :
  (commit_run_transition leader run from to g es ms st).1 = Ok tt ->
  default RunPending (st_runs st !! run) = from /\ run_reopen_generation run st = g
  /\ (forall l, leader = Some l -> fence_ok l st)
  /\ (commit_run_transition leader run from to g es ms st).2
       = enqueue_all ms (push_events es
           (bump_reopen_generation_locked run from (set_runs (<[run := to]> (st_runs st)) st))).
Proof.
  unfold commit_run_transition, op_bind.
  assert (holds_leader_term_if leader st = (Ok tt, st) /\ (forall l, leader = Some l -> fence_ok l st)
          \/ exists e, holds_leader_term_if leader st = (Err e, st)) as [[E Hf]|[e E]].
  { destruct leader as [l|]; cbn; [|left; split; [done|intros ? [=]]].
    destruct (fence_ok_spec l st) as [E1 E2]. rewrite E1. case_decide as Hd; [left|right; by eexists].
    split; [done|]. intros l' [= <-]. by apply E2. }
  - rewrite E. case_decide as Hd; [|done]. destruct Hd as [Hd1 Hd2].
    destruct (take_failure_cases es st) as [E2|[e E2]]; rewrite E2; [|done]. intros _. by split_and!.
  - by rewrite E.
Qed.

Lemma reopen_bumps leader run from to g es ms st :
  (commit_run_transition leader run from to g es ms st).1 = Ok tt -> run_is_terminal from = true ->
  default 0%N (st_reopen_generations (commit_run_transition leader run from to g es ms st).2 !! run)
    = (run_reopen_generation run st + 1)%N.
Proof.
  intros Hok Ht. destruct (commit_run_effects _ _ _ _ _ _ _ _ Hok) as (_ & _ & _ & ->).
  set (s1 := push_events _ _). destruct (enqueue_all_fields ms s1) as (_ & _ & _ & -> & _).
  unfold s1, bump_reopen_generation_locked. rewrite Ht. cbn. by rewrite lookup_insert_eq.
Qed.

(** A Run decision never lands on a later life of the Run. A Run
    transition lands only if the Run still has the status and the reopen
    generation its caller read. A Run that is terminal is left only by a
    transition that starts a new generation (a rerun, a Reopen), so every
    caller that read an earlier one, however it is delayed and whatever happens
    in between, is refused with [Conflict] and writes nothing, even if the Run
    has come back to the very status it read (the ABA of a status-only
    check). *)
Theorem stale_run_decision_refused leader run from to es ms st st1 :
  wf st -> unarmed st -> run_is_terminal from = true ->
  let g := run_reopen_generation run st in
  (commit_run_transition leader run from to g es ms st).1 = Ok tt ->
  rtc db_step (commit_run_transition leader run from to g es ms st).2 st1 ->
  forall g' from' to' es' ms',
    (g' <= g)%N ->
    commit_run_transition None run from' to' g' es' ms' st1 = (Err DbConflict, st1).
Proof.
  intros W U Ht g Hok H g' from' to' es' ms' Hg.
  destruct (db_step_ok _ _ (S_commit_run_transition st leader run from to g es ms) W U) as (W1 & U1 & _).
  destruct (db_steps_ok _ _ H W1 U1) as (_ & _ & X).
  assert (g < run_reopen_generation run st1)%N as Hlt.
  { eapply N.lt_le_trans; [|apply (ext_gen _ _ X run)].
    rewrite (reopen_bumps leader run from to g es ms st Hok Ht). unfold g, run_reopen_generation. lia. }
  unfold commit_run_transition, holds_leader_term_if, op_bind, op_ret.
  rewrite decide_False; [done|]. lia.
Qed.

Lemma stale_run_decision_refused_witness :
  let st := set_runs (<["r" := RunSucceeded]> ∅) state_empty in
  let st1 := (commit_run_transition None "r" RunSucceeded RunRunning 0 [] [] st).2 in
  commit_run_transition None "r" RunRunning RunFailed 0 [] [] st1 = (Err DbConflict, st1).
Proof.
  cbn zeta.
  apply (stale_run_decision_refused None "r" RunSucceeded RunRunning [] []
           (set_runs (<["r" := RunSucceeded]> ∅) state_empty)).
  - eapply wf_ext; [| |apply wf_empty]; reflexivity.
  - split; reflexivity.
  - reflexivity.
  - vm_compute. reflexivity.
  - apply rtc_refl.
  - vm_compute. discriminate.
Defined.

(** ** Leases: one leader per term *)

(** One leader per term. At any moment one (owner, term) holds a resource,
    and over the whole history a term names a single owner: two servers that
    both pass the fence under the same term are the same server. A live
    lease is not taken: until it expires every other server is told who
    holds it, and changes nothing; when it has expired the taker starts the
    next term; the holder's own renewal keeps its term. *)
Theorem one_leader_per_term l l' st st' :
  wf st -> unarmed st -> rtc db_step st st' ->
  fence_ok l st -> fence_ok l' st' -> lt_resource l = lt_resource l' ->
  (lt_term l <= lt_term l')%Z
  /\ (lt_term l = lt_term l' -> lt_owner l = lt_owner l')
  /\ (forall now owner ttl e, st_leases st' !! lt_resource l' = Some (lt_owner l', e, lt_term l') ->
        (now < e)%Z -> owner <> lt_owner l' ->
        lease now (lt_resource l') owner ttl st'
          = (Ok (mkLease (lt_owner l') ttl (lt_term l')), st'))
  /\ (forall now owner ttl le,
        (lease now (lt_resource l') owner ttl st').1 = Ok le -> lease_owner le = owner ->
        fence_ok (mkLeaderTerm (lt_resource l') owner (lease_term le)) (lease now (lt_resource l') owner ttl st').2
        /\ lease_term le = (if decide (owner = lt_owner l') then lt_term l' else lt_term l' + 1)%Z).
Proof.
  intros W U H [e Hf] [e' Hf'] Hr.
  destruct (db_steps_ok _ _ H W U) as (_ & _ & X).
  destruct (ext_leases _ _ X _ _ _ _ Hf) as (o1 & e1 & t1 & Hl & Ht & Ho).
  rewrite Hr, Hf' in Hl. injection Hl as <- <- <-. split; [done|]. split; [done|]. split.
  - intros now owner ttl e2 He2 Hlt Hne. unfold lease. rewrite He2.
    destruct (String.eqb_spec (lt_owner l') owner) as [E|_]; [congruence|].
    rewrite (proj2 (Z.ltb_lt _ _) Hlt). reflexivity.
  - intros now owner ttl le. unfold lease, fence_ok. rewrite Hf'.
    destruct (String.eqb_spec (lt_owner l') owner) as [<-|Hne].
    + cbn. intros [= <-] _. cbn. rewrite lookup_insert_eq. rewrite decide_True by done.
      split; [by exists (now + Z.max ttl 0)%Z|done].
    + destruct (now <? e')%Z; cbn; intros [= <-]; cbn; intros Ho'; [congruence|].
      rewrite lookup_insert_eq. rewrite decide_False by congruence. split; [by eexists|done].
Qed.

Lemma one_leader_per_term_witness :
  let st := (lease 0 "scheduler" "A" 30 state_empty).2 in
  lease 10 "scheduler" "B" 30 st = (Ok (mkLease "A" 30 1), st).
Proof.
  cbn zeta. set (st := (lease 0 "scheduler" "A" 30 state_empty).2).
  destruct (db_step_ok _ _ (S_lease state_empty 0 "scheduler" "A" 30) wf_empty) as (W & U & _);
    [split; reflexivity|].
  assert (fence_ok (mkLeaderTerm "scheduler" "A" 1) st) as F by (exists 30%Z; vm_compute; reflexivity).
  destruct (one_leader_per_term (mkLeaderTerm "scheduler" "A" 1) (mkLeaderTerm "scheduler" "A" 1) st st)
    as (_ & _ & H & _); [exact W|exact U|apply rtc_refl|exact F|exact F|reflexivity|].
  apply (H 10%Z "B" 30%Z 30%Z); [vm_compute; reflexivity|lia|discriminate].
Defined.

(** ** Steps: the claim *)

Definition step_key (s : StepRun) : RunId * StepId := (sr_run s, sr_step s).

Lemma ready_steps_ready st s :
  s ∈ ready_steps st ->
  exists r, st_steps st !! step_key s = Some r /\ rec_status r = Some StepReady.
Proof.
  unfold ready_steps. intros Hs. apply list_elem_of_fmap in Hs as ([[run step] r] & -> & Hs).
  apply elem_of_sort_stable, list_elem_of_omap in Hs as (kv & Hkv & Hd).
  case_decide as Hst; [|done]. injection Hd as ->. exists r. cbn in *. split; [|done].
  by apply elem_of_map_to_list in Hkv.
Qed.

Lemma ready_steps_nodup st : NoDup (map step_key (ready_steps st)).
Proof.
  unfold ready_steps. rewrite map_map. cbn.
  match goal with |- NoDup (map _ (sort_stable ?le ?l)) => set (leb := le); set (keys := l) end.
  assert (map (fun kv : (RunId * StepId) * StepRec => step_key (mkStepRun kv.1.1 kv.1.2 StepRunning
            (sort_attempts (rec_attempts kv.2)) (rec_needs kv.2) (rec_gate_kind kv.2)))
            (sort_stable leb keys) ≡ₚ map fst keys) as ->.
  { rewrite sort_stable_perm. apply reflexive_eq. apply map_ext. by intros [[] ]. }
  unfold keys. clear. pose proof (NoDup_fst_map_to_list (st_steps st)) as H.
  induction (map_to_list (st_steps st)) as [|kv l IH]; [constructor|].
  cbn in H. apply NoDup_cons in H as [Hn H]. cbn. case_decide; [|by apply IH].
  cbn. apply NoDup_cons. split; [|by apply IH].
  intros Hin. apply Hn. apply list_elem_of_fmap in Hin as (kv' & E & Hin).
  apply list_elem_of_omap in Hin as (kv2 & Hkv2 & Hd). case_decide; [|done]. injection Hd as <-.
  rewrite E. by apply list_elem_of_fmap_2.
Qed.

(** What a claim writes on the row of a step it takes. *)
Definition launched_row (la : StepLaunch) (r : StepRec) : StepRec :=
  let r := rec_with_status (Some StepRunning) r in
  if existsb (fun a => String.eqb (att_id a) (att_id (la_attempt la))) (rec_attempts r) then r
  else rec_with_attempts (rec_attempts r ++ [la_attempt la]) r.

Lemma launched_row_has la r :
  rec_status (launched_row la r) = Some StepRunning
  /\ att_id (la_attempt la) ∈ map att_id (rec_attempts (launched_row la r)).
Proof.
  unfold launched_row. cbv zeta. case_match eqn:E; split; try done.
  - apply existsb_exists in E as (a & Ha & He). apply String.eqb_eq in He as <-.
    apply list_elem_of_fmap_2. cbn in *. by apply list_elem_of_In.
  - cbn. rewrite map_app. apply elem_of_app. right. constructor.
Qed.

Lemma commit_launch_steps s la st k :
  st_steps (commit_launch (s, la) st) !! k
    = if decide (step_key s = k) then launched_row la <$> st_steps st !! k else st_steps st !! k.
Proof.
  unfold commit_launch. cbv zeta.
  match goal with |- context [enqueue_all _ ?x] =>
    destruct (enqueue_all_fields (la_outbox la) x) as (_ & -> & _) end.
  cbn. unfold step_key. case_decide as Hk; [subst k; by rewrite lookup_alter_eq|by rewrite lookup_alter_ne].
Qed.

Lemma commit_launch_rest s la st :
  st_events (commit_launch (s, la) st) = st_events st ++ la_events la
  /\ (forall e, e ∈ st_outbox st -> e ∈ st_outbox (commit_launch (s, la) st))
  /\ (forall m, m ∈ la_outbox la -> has_key (msg_key m) (commit_launch (s, la) st)).
Proof.
  unfold commit_launch. cbv zeta.
  match goal with |- context [enqueue_all _ ?x] => set (s1 := x) end.
  destruct (enqueue_all_fields (la_outbox la) s1) as (-> & _).
  split; [done|]. split; [|intros m; apply enqueue_all_has].
  intros e He. by apply enqueue_all_keeps.
Qed.

Definition commit_launches (l : list (StepRun * StepLaunch)) (st : InMemoryState) : InMemoryState :=
  foldl (fun st p => commit_launch p st) st l.

Lemma commit_launches_spec l st :
  NoDup (map (fun p => step_key p.1) l) ->
  st_events (commit_launches l st) = st_events st ++ concat (map (fun p => la_events p.2) l)
  /\ (forall e, e ∈ st_outbox st -> e ∈ st_outbox (commit_launches l st))
  /\ (forall k, k ∉ map (fun p => step_key p.1) l ->
        st_steps (commit_launches l st) !! k = st_steps st !! k)
  /\ (forall s la, (s, la) ∈ l ->
        st_steps (commit_launches l st) !! step_key s = launched_row la <$> st_steps st !! step_key s
        /\ forall m, m ∈ la_outbox la -> has_key (msg_key m) (commit_launches l st)).
Proof.
  revert st; induction l as [|[s la] l IH]; intros st Hnd.
  { cbn. rewrite app_nil_r. split_and!; try done. intros s la H. by apply elem_of_nil in H. }
  cbn [map] in Hnd. apply NoDup_cons in Hnd as [Hn Hnd].
  change (commit_launches ((s, la) :: l) st) with (commit_launches l (commit_launch (s, la) st)).
  destruct (IH (commit_launch (s, la) st) Hnd) as (I1 & I2 & I3 & I4).
  destruct (commit_launch_rest s la st) as (R1 & R2 & R3).
  split; [rewrite I1, R1; cbn; by rewrite app_assoc|]. split; [auto|]. split.
  - intros k Hk. cbn in Hk. apply not_elem_of_cons in Hk as [Hk Hk'].
    rewrite (I3 k Hk'), commit_launch_steps. by rewrite decide_False.
  - intros s' la' Hin. apply elem_of_cons in Hin as [[= -> ->]|Hin].
    + rewrite (I3 (step_key s) Hn), commit_launch_steps. rewrite decide_True by done. split; [done|].
      intros m Hm. destruct (R3 m Hm) as (e & He & Hk). exists e. split; [by apply I2|done].
    + destruct (I4 s' la' Hin) as [-> H4]. split; [|done].
      rewrite commit_launch_steps, decide_False; [done|]. cbn. intros E. apply Hn. cbn. rewrite E.
      change (step_key s') with ((fun p : StepRun * StepLaunch => step_key p.1) (s', la')).
      by apply list_elem_of_fmap_2.
Qed.

Lemma mint_all_map mint l r : mint_all mint l = Ok r -> map fst r = l /\ forall s la, (s, la) ∈ r -> mint s = Ok la.
Proof.
  revert r; induction l as [|s l IH]; cbn; intros r.
  - intros [= <-]. split; [done|]. intros s la H. by apply elem_of_nil in H.
  - destruct (mint s) as [la|] eqn:E; cbn; [|done].
    destruct (mint_all mint l) as [rest|]; cbn; [|done]. intros [= <-].
    destruct (IH rest eq_refl) as [<- H2]. split; [done|].
    intros s' la' Hin. apply elem_of_cons in Hin as [[= -> ->]|Hin]; auto.
Qed.

Lemma claim_cases leader limit mint st res st' :
  claim_ready_steps leader limit mint st = (res, st') ->
  match res with
  | Ok claimed => fence_ok leader st /\ exists l,
      mint_all mint (take (N.to_nat limit) (ready_steps st)) = Ok l
      /\ claimed = map fst l /\ st' = commit_launches l st
  | Err _ => same_data st st'
  end.
Proof.
  unfold claim_ready_steps, op_bind. destruct (fence_ok_spec leader st) as [E1 E2]. rewrite E1.
  case_decide as Hd; [|intros [= <- <-]; by left].
  destruct (mint_all _ _) as [l|e]; [|intros [= <- <-]; by left].
  destruct (take_failure_cases (concat (map (fun p => la_events p.2) l)) st) as [E|[e E]];
    rewrite E; intros [= <- <-]; [|by right].
  split; [by apply E2|]. by exists l.
Qed.

Lemma claimed_elem (l : list (StepRun * StepLaunch)) s : s ∈ map fst l -> exists la, (s, la) ∈ l.
Proof. intros H. apply list_elem_of_fmap in H as ([s' la] & -> & H). by exists la. Qed.

(** A ready step is claimed by one leader, whole. A claim takes at most
    [limit] steps, each of them [Ready] and none twice; in the same write each
    becomes [Running], has the minted Attempt among its attempts, has its
    minted messages in the outbox and its events appended to the log (so no
    step is ever [Running] without its launch intent), and no other step
    changes. A later claim, by any leader, takes none of the same steps
    unless something makes them [Ready] again; and a claim that fails (fence
    lost, a mint that errs, a crash before the journal) leaves the data as it
    was. *)
Theorem claim_ready_steps_once leader limit mint st :
  let '(res, st') := claim_ready_steps leader limit mint st in
  match res with
  | Err _ => same_data st st'
  | Ok claimed =>
      fence_ok leader st
      /\ length claimed <= N.to_nat limit
      /\ NoDup (map step_key claimed)
      /\ (forall s, s ∈ claimed -> exists r la,
            st_steps st !! step_key s = Some r /\ rec_status r = Some StepReady
            /\ mint s = Ok la
            /\ st_steps st' !! step_key s = Some (launched_row la r)
            /\ (forall m, m ∈ la_outbox la -> has_key (msg_key m) st')
            /\ (forall e, e ∈ la_events la -> e ∈ st_events st'))
      /\ st_events st `prefix_of` st_events st'
      /\ (forall k, k ∉ map step_key claimed -> st_steps st' !! k = st_steps st !! k)
      /\ (forall leader2 limit2 mint2 claimed2,
            (claim_ready_steps leader2 limit2 mint2 st').1 = Ok claimed2 ->
            forall s, s ∈ claimed -> step_key s ∉ map step_key claimed2)
  end.
Proof.
  destruct (claim_ready_steps leader limit mint st) as [res st'] eqn:E.
  pose proof (claim_cases _ _ _ _ _ _ E) as H. destruct res as [claimed|e]; [|done].
  destruct H as (Hf & l & Hm & -> & ->). destruct (mint_all_map _ _ _ Hm) as [Hfst Hmint].
  assert (NoDup (map step_key (map fst l))) as Hnd.
  { rewrite Hfst, <- firstn_map.
    eapply sublist_NoDup; [apply ready_steps_nodup|apply sublist_take]. }
  pose proof Hnd as Hnd'. rewrite map_map in Hnd'.
  destruct (commit_launches_spec l st Hnd') as (S1 & S2 & S3 & S4).
  assert (forall s la, (s, la) ∈ l -> exists r, st_steps st !! step_key s = Some r
            /\ rec_status r = Some StepReady) as Hready.
  { intros s la Hin. apply ready_steps_ready. eapply subseteq_take. rewrite <- Hfst.
    change s with (fst (s, la)). by apply list_elem_of_fmap_2. }
  split; [done|]. split; [rewrite Hfst; apply firstn_le_length|]. split; [done|]. split.
  { intros s Hs. destruct (claimed_elem l s Hs) as [la Hin]. destruct (Hready _ _ Hin) as (r & Hr & Hst).
    exists r, la. destruct (S4 _ _ Hin) as [Hrow Hmsg]. rewrite Hrow, Hr. split_and!; auto.
    intros e He. rewrite S1. apply elem_of_app. right. apply list_elem_of_In, in_concat.
    exists (la_events la). split; [|by apply list_elem_of_In].
    apply (in_map (fun p => la_events p.2) l (s, la)). by apply list_elem_of_In. }
  split; [rewrite S1; by apply prefix_app_r|].
  split; [intros k Hk; apply S3; by rewrite map_map in Hk|].
  intros leader2 limit2 mint2 claimed2 H2 s Hs Hin.
  destruct (claim_ready_steps leader2 limit2 mint2 _) as [res2 st2] eqn:E2. cbn in H2. subst res2.
  destruct (claim_cases _ _ _ _ _ _ E2) as (_ & l2 & Hm2 & -> & _).
  destruct (mint_all_map _ _ _ Hm2) as [Hfst2 _].
  apply list_elem_of_fmap in Hin as (s2 & Hk & Hs2). rewrite Hfst2 in Hs2.
  apply subseteq_take, ready_steps_ready in Hs2 as (r2 & Hr2 & Hst2).
  destruct (claimed_elem l s Hs) as [la Hin]. destruct (S4 _ _ Hin) as [Hrow _].
  rewrite <- Hk, Hrow in Hr2. destruct (Hready _ _ Hin) as (r & Hr & _). rewrite Hr in Hr2.
  injection Hr2 as <-. by rewrite (proj1 (launched_row_has la r)) in Hst2.
Qed.

(** ** Gate waits: one verdict *)

Lemma update_first_elem {A} (p : A -> bool) f l :
  existsb p l = true -> exists x, x ∈ l /\ p x = true /\ f x ∈ update_first p f l.
Proof.
  induction l as [|y l IH]; cbn; [done|]. destruct (p y) eqn:E; intros H.
  - exists y. split_and!; [constructor|done|constructor].
  - destruct (IH H) as (x & Hx & Hp & Hf). exists x. split_and!; [by constructor|done|by constructor].
Qed.

Lemma resolve_attempts_spec res sorted a minted l :
  resolve_attempts res sorted = Some (a, minted, l) ->
  (exists y, att_id y = a /\ close_gate_attempt res y ∈ l)
  /\ (forall f, gr_fence res = Some f -> a = f
        /\ exists x, x ∈ sorted /\ att_id x = f /\ att_outcome x = ORunning).
Proof.
  unfold resolve_attempts. destruct (gr_fence res) as [f|].
  - cbv zeta. case_match eqn:E; [|done]. intros [= <- <- <-].
    destruct (update_first_elem _ (close_gate_attempt res) _ E) as (x & Hx & Hp & Hf).
    apply andb_true_iff in Hp as [Hid Hrun]. apply String.eqb_eq in Hid.
    apply bool_decide_eq_true in Hrun. split; [by exists x|].
    intros f' [= <-]. split; [done|]. by exists x.
  - cbv zeta. intros H. split; [|done].
    assert (forall id y, att_id y = id -> exists y0, att_id y0 = id
              /\ close_gate_attempt res y0 ∈ sorted ++ [close_gate_attempt res y]) as Hmint.
    { intros id y Hy. exists y. split; [done|]. apply elem_of_app. right. constructor. }
    destruct (last sorted) as [o|] eqn:E; [case_decide|].
    + injection H as <- <- <-. exists o. split; [done|].
      apply last_Some in E as [l' ->]. rewrite map_last_snoc. apply elem_of_app. right. constructor.
    + injection H as <- <- <-. by apply Hmint.
    + injection H as <- <- <-. by apply Hmint.
Qed.

Lemma close_gate_attempt_closes res a :
  att_outcome (close_gate_attempt res a) = (if gr_passed res then OSucceeded else OFailed)
  /\ att_failure (close_gate_attempt res a) = (if gr_passed res then None else Some FGate).
Proof. unfold close_gate_attempt. by destruct (gr_passed res). Qed.

(** A resolved (or otherwise settled) step takes no verdict. *)
Lemma resolve_not_pending run step res st r :
  st_steps st !! (run, step) = Some r -> rec_status r <> Some StepPending ->
  resolve_gate_wait run step res st = (Ok None, st).
Proof.
  intros Hr Hs. unfold resolve_gate_wait, resolve_gate_wait_locked. rewrite Hr. by rewrite decide_False.
Qed.

(** A gate wait ends once, whole. A verdict lands only on a gate step
    that is still [Pending] (and, when it names the attempt it read, only while
    that attempt is an open wait of the step); it then closes exactly one
    attempt, [Succeeded] for a pass and [Failed] as a gate failure otherwise,
    moves the step to [Succeeded] or [Failed] to match, and appends the
    verdict's events; no other step changes. Any other verdict on that step,
    whoever sends it, is then a no-op until the step is rearmed; and a verdict
    that does not land appends no event, changes no status and closes no
    attempt. *)
Theorem gate_wait_resolved_once run step res st :
  let '(r, st') := resolve_gate_wait run step res st in
  exists out, r = Ok out /\
  match out with
  | Some a =>
      exists row row', st_steps st !! (run, step) = Some row
        /\ rec_status row = Some StepPending
        /\ st_steps st' = <[(run, step) := row']> (st_steps st)
        /\ rec_status row' = Some (if gr_passed res then StepSucceeded else StepFailed)
        /\ (exists x, x ∈ rec_attempts row' /\ att_id x = a
              /\ att_outcome x = (if gr_passed res then OSucceeded else OFailed)
              /\ att_failure x = (if gr_passed res then None else Some FGate))
        /\ (forall f, gr_fence res = Some f -> a = f
              /\ exists x, x ∈ rec_attempts row /\ att_id x = f /\ att_outcome x = ORunning)
        /\ (exists minted, st_events st' = st_events st
              ++ map (fun kind => event run kind (gr_at res)) (gate_resolution_events step a minted res))
        /\ st_outbox st' = st_outbox st
        /\ (forall res2, resolve_gate_wait run step res2 st' = (Ok None, st'))
  | None =>
      st_events st' = st_events st /\ st_outbox st' = st_outbox st
      /\ forall k r', st_steps st' !! k = Some r' -> exists r0, st_steps st !! k = Some r0
           /\ rec_status r' = rec_status r0 /\ rec_attempts r' ≡ₚ rec_attempts r0
  end.
Proof.
  destruct (resolve_gate_wait run step res st) as [r st'] eqn:E.
  unfold resolve_gate_wait in E. destruct (resolve_gate_wait_locked run step res st) as [out st1] eqn:L.
  injection E as <- <-. exists out. split; [done|]. unfold resolve_gate_wait_locked in L.
  destruct (st_steps st !! (run, step)) as [row|] eqn:Er; cycle 1.
  { injection L as <- <-. split_and!; [done|done|]. intros k r' Hk. by exists r'. }
  case_decide as Hp; cycle 1.
  { injection L as <- <-. split_and!; [done|done|]. intros k r' Hk. by exists r'. }
  cbv zeta in L. destruct (resolve_attempts res _) as [[[a minted] l]|] eqn:R; cycle 1.
  { injection L as <- <-. split_and!; [done|done|]. intros k r'. cbn.
    destruct (decide ((run, step) = k)) as [<-|Hk]; [|rewrite lookup_alter_ne by done; by exists r'].
    rewrite lookup_alter_eq, Er. intros [= <-]. exists row. split_and!; [done|done|].
    apply sort_stable_perm. }
  destruct (resolve_attempts_spec _ _ _ _ _ R) as [(y & Hy & Hin) Hfence].
  destruct (close_gate_attempt_closes res y) as [Ho Hfa].
  set (status := Some (if gr_passed res then StepSucceeded else StepFailed)) in *.
  set (s0 := update_step (run, step) (fun r => rec_with_status status (rec_with_attempts l r)) st) in *.
  assert (st_steps s0 = <[(run, step) := rec_with_status status (rec_with_attempts l row)]> (st_steps st))
    as Hs0 by exact (alter_some (fun r => rec_with_status status (rec_with_attempts l r)) _ _ row Er).
  injection L as <- <-.
  match goal with |- context [push_events _ ?x] => set (s1 := x) end.
  assert (exists row', st_steps s1 = <[(run, step) := row']> (st_steps st)
            /\ rec_status row' = status /\ rec_attempts row' = l
            /\ st_events s1 = st_events st /\ st_outbox s1 = st_outbox st)
    as (row' & H1 & H2 & H3 & H4 & H5).
  { unfold s1. clear s1. destruct (gr_passed res); [destruct (gr_outputs res) as [o|]|];
      try (eexists; split; [exact Hs0|]; by split_and!).
    eexists. split; [cbn [st_steps set_attempt_evidence]|split_and!; [..|reflexivity|reflexivity]].
    - unfold update_step. cbn [st_steps set_steps]. fold s0. rewrite Hs0.
      erewrite alter_some by (by rewrite lookup_insert_eq). by rewrite insert_insert_eq.
    - done.
    - done. }
  exists row, row'. split; [done|]. split; [done|]. split; [done|]. split; [done|]. split.
  { exists (close_gate_attempt res y). rewrite H3. split_and!; [done| |done|done].
    by rewrite close_gate_attempt_id. }
  split.
  { intros f Hf. destruct (Hfence f Hf) as (-> & x & Hx & ?). split; [done|].
    exists x. split; [by apply elem_of_sort_attempts|done]. }
  split; [exists minted; cbn; by rewrite H4|]. split; [done|].
  intros res2. eapply resolve_not_pending; [cbn; rewrite H1; by rewrite lookup_insert_eq|].
  rewrite H2. unfold status. by destruct (gr_passed res).
Qed.
