(* ===== verification/Gates.v ===== *)
(** * Gate waits, read from the log and the step rows

    The pure part of the scheduler's gates (scarab-engine/src/scheduler.rs):
    when a gate is reached, which attempt is its open wait, what re-arms it,
    who approved its current wait, when its clock started, and whether a Run
    has nothing left but gate waits. *)

From S2P Require Import Prelude Domain.

(** ** The gate's state *)

Definition succeeded_in (steps : list StepRun) (n : StepId) : bool :=
  existsb (fun s => String.eqb (sr_step s) n && bool_decide (sr_status s = StepSucceeded)) steps.

Definition gate_reached (gate : StepRun) (steps : list StepRun) : bool :=
  forallb (succeeded_in steps) (sr_needs gate).

Definition open_gate_attempt (step : StepRun) : option Attempt :=
  if is_gate step then
    match last (sr_attempts step) with
    | Some a => if decide (att_outcome a = ORunning) then Some a else None
    | None => None
    end
  else None.

Definition contains_step (l : list StepId) (s : StepId) : bool := existsb (String.eqb s) l.

(** The boundary between two wait episodes of gate [step]. *)
Definition is_gate_rearm (kind : EventPayload) (step : StepId) : bool :=
  match kind with
  | StepTransitioned s _ StepPending => String.eqb s step
  | AttemptSuperseded s _ _ => String.eqb s step
  | RunRerunRequested _ invalidated _ _ => contains_step invalidated step
  | _ => false
  end.

(** [&events[from..]] where [from] is just past the last re-arm
    ([rposition]): the events of the current episode. *)
Fixpoint since_last {A} (p : A -> bool) (l : list A) : list A :=
  match l with
  | [] => []
  | x :: l' => if existsb p l' then since_last p l' else if p x then l' else l
  end.
Definition current_wait (events : list EventKind) (step : StepId) : list EventKind :=
  since_last (fun e => is_gate_rearm (ev_kind e) step) events.

Definition approval_of (step : StepId) (e : EventKind) : option string :=
  match ev_kind e with
  | GateApproved s by_ => if String.eqb s step then Some by_ else None
  | _ => None
  end.

Definition gate_approvers (events : list EventKind) (step : StepId) : list string :=
  foldl (fun seen e => match approval_of step e with
                       | Some by_ => if existsb (String.eqb by_) seen then seen else seen ++ [by_]
                       | None => seen
                       end) [] (current_wait events step).

Record EnvironmentApproval := mkEnvApproval {
  ea_approvers : list string;
  ea_required : option N;
  ea_release_at : Z;
}.

(** [iter().rev().find_map(f)]. *)
Fixpoint find_map_last {A B} (f : A -> option B) (l : list A) : option B :=
  match l with
  | [] => None
  | x :: l' => match find_map_last f l' with Some b => Some b | None => f x end
  end.

Definition environment_approval_met (events : list EventKind) (step : StepId)
  : option EnvironmentApproval :=
  find_map_last (fun e => match ev_kind e with
    | EnvironmentApprovalMet s approvers required release_at =>
        if String.eqb s step then Some (mkEnvApproval approvers required release_at) else None
    | _ => None
    end) (current_wait events step).

Definition gate_released_at (events : list EventKind) (step : StepId) : option Timestamp :=
  find_map_last (fun e => match ev_kind e with
    | GateResolved s _ true _ _ _ | GateReleased s =>
        if String.eqb s step then Some (ev_at e) else None
    | _ => None
    end) events.

(** ** The gate's clock *)

(** Which step's finish, or return to [Pending], an event records. *)
Definition finish_of (kind : EventPayload) : option StepId :=
  match kind with
  | StepTransitioned step _ StepSucceeded | GateReleased step | GateResolved step _ true _ _ _ => Some step
  | _ => None
  end.
Definition pending_of (kind : EventPayload) : option StepId :=
  match kind with StepTransitioned step _ StepPending => Some step | _ => None end.
Definition is_first_running (kind : EventPayload) : bool :=
  match kind with RunTransitioned _ RunRunning => true | _ => false end.

Definition max_opt (o : option Z) (z : Z) : option Z :=
  Some (match o with Some l => Z.max l z | None => z end).

Record WaitScan := mkScan {
  ws_first_running : option Z;
  ws_rearmed : option Z;
  ws_finished : gmap StepId (option Z);
}.

(** One event of [wait_began_at]'s loop. *)
Definition wait_scan_step (gate : StepRun) (w : WaitScan) (e : EventKind) : WaitScan :=
  let kind := ev_kind e in
  let first := if is_first_running kind
               then Some (default (ev_at e) (ws_first_running w)) else ws_first_running w in
  let finished :=
    match finish_of kind with
    | Some s => alter (fun f => max_opt f (ev_at e)) s (ws_finished w)
    | None => match pending_of kind with
              | Some s => alter (fun _ => None) s (ws_finished w)
              | None => ws_finished w
              end
    end in
  let rearmed := if is_gate_rearm kind (sr_step gate)
                 then max_opt (ws_rearmed w) (ev_at e) else ws_rearmed w in
  mkScan first rearmed finished.

Definition wait_scan (events : list EventKind) (gate : StepRun) : WaitScan :=
  foldl (wait_scan_step gate)
    (mkScan None None (list_to_map (map (fun n => (n, None)) (sr_needs gate)))) events.

Definition max_of (l : list Z) : option Z := foldl max_opt None l.

Definition wait_began_at (events : list EventKind) (gate : StepRun) (now : Timestamp) : Timestamp :=
  let w := wait_scan events gate in
  let values := map snd (map_to_list (ws_finished w)) in
  let needs_finished :=
    match sr_needs gate with
    | [] => ws_first_running w
    | _ => if existsb (fun o => negb (bool_decide (is_Some o))) values then Some now
           else max_of (omap id values)
    end in
  let start := match needs_finished, ws_rearmed w with
               | Some f, Some r => Z.max f r
               | Some t, None | None, Some t => t
               | None, None => now
               end in
  Z.min start now.

(** ** The skip of a gate no dependent needs any more *)

Definition GATE_NO_LONGER_NEEDED : string :=
  "no longer needed: every step that needs it has finished".

(** The loop over [events.iter().rev()]; the argument is already reversed. *)
Fixpoint skip_scan (step : StepId) (skipped_without_reason : bool) (rev_events : list EventKind)
  : bool :=
  match rev_events with
  | [] => false
  | e :: rest =>
      match ev_kind e with
      | StepSkippedEv s reason =>
          if String.eqb s step then String.eqb reason GATE_NO_LONGER_NEEDED
          else skip_scan step skipped_without_reason rest
      | StepTransitioned s _ to =>
          if String.eqb s step then
            if skipped_without_reason || negb (bool_decide (to = StepSkipped)) then false
            else skip_scan step true rest
          else skip_scan step skipped_without_reason rest
      | RunRerunRequested _ invalidated _ _ =>
          if contains_step invalidated step then false
          else skip_scan step skipped_without_reason rest
      | _ => skip_scan step skipped_without_reason rest
      end
  end.
Definition skipped_as_unneeded (events : list EventKind) (step : StepId) : bool :=
  skip_scan step false (rev events).

(** ** Only gate waits outstanding *)

(** [steps.iter().map(|s| (&s.step, s)).collect()]: a later row wins. *)
Definition by_step (steps : list StepRun) : gmap StepId StepRun :=
  foldl (fun m s => <[sr_step s := s]> m) ∅ steps.

Definition succeeded (by_id : gmap StepId StepRun) (id : StepId) : bool :=
  bool_decide (sr_status <$> by_id !! id = Some StepSucceeded).

Definition is_waiting (by_id : gmap StepId StepRun) (s : StepRun) : bool :=
  bool_decide (sr_status s = StepPending) && forallb (succeeded by_id) (sr_needs s) && is_gate s.

Definition waiting_set (by_id : gmap StepId StepRun) (steps : list StepRun) : gset StepId :=
  list_to_set (map sr_step (filter (fun s => is_waiting by_id s = true) steps)).

(** [needs.iter().any(..)] over the memo: stops at the first hit. *)
Section AnyNeed.
Variable recurse : StepId -> gmap StepId bool -> bool * gmap StepId bool.
Variable by_id : gmap StepId StepRun.
Variable waiting : gset StepId.
Fixpoint any_need (needs : list StepId) (memo : gmap StepId bool) : bool * gmap StepId bool :=
  match needs with
  | [] => (false, memo)
  | n :: rest =>
      if decide (n ∈ waiting) then (true, memo)
      else match by_id !! n with
           | Some ns =>
               if step_is_terminal (sr_status ns) then any_need rest memo
               else let '(b, memo') := recurse (sr_step ns) memo in
                    if b then (true, memo') else any_need rest memo'
           | None => any_need rest memo
           end
  end.
End AnyNeed.

Fixpoint behind_waiting_gate (fuel : nat) (by_id : gmap StepId StepRun) (waiting : gset StepId)
    (id : StepId) (memo : gmap StepId bool) : bool * gmap StepId bool :=
  match memo !! id with
  | Some b => (b, memo)
  | None =>
      match fuel with
      | O => (false, memo)
      | S fuel' =>
          let memo := <[id := false]> memo in
          match by_id !! id with
          | None => (false, memo)
          | Some step =>
              let '(behind, memo) :=
                any_need (behind_waiting_gate fuel' by_id waiting) by_id waiting (sr_needs step) memo in
              (behind, <[id := behind]> memo)
          end
      end
  end.

(** The loop of [only_waits_outstanding]. *)
Fixpoint outstanding_loop (fuel : nat) (by_id : gmap StepId StepRun) (waiting : gset StepId)
    (steps : list StepRun) (memo : gmap StepId bool) : bool :=
  match steps with
  | [] => true
  | s :: rest =>
      if step_is_terminal (sr_status s) || bool_decide (sr_step s ∈ waiting)
      then outstanding_loop fuel by_id waiting rest memo
      else if negb (bool_decide (sr_status s = StepPending)) then false
      else let '(b, memo) := behind_waiting_gate fuel by_id waiting (sr_step s) memo in
           if b then outstanding_loop fuel by_id waiting rest memo else false
  end.

(** The recursion inserts a fresh id into the memo at each level, and only the
    outermost id may be absent from [by_id]: one more level than there are
    rows is enough ([behind_correct] below does not depend on it being more). *)
Definition only_waits_outstanding (steps : list StepRun) : bool :=
  let by_id := by_step steps in
  let waiting := waiting_set by_id steps in
  if decide (waiting = ∅) then false
  else outstanding_loop (S (length steps)) by_id waiting steps ∅.

(** * Theorems *)

(** ** Current wait *)

Lemma since_last_spec {A} (p : A -> bool) l :
  exists pre, l = pre ++ since_last p l
    /\ existsb p (since_last p l) = false
    /\ (pre = [] \/ exists pre' x, pre = pre' ++ [x] /\ p x = true).
Proof.
  induction l as [|x l IH]; cbn; [exists []; by split_and!; [..|left]|].
  destruct IH as (pre & E & Hn & Hp). destruct (existsb p l) eqn:El.
  - exists (x :: pre). split; [cbn; congruence|]. split; [done|]. right.
    destruct Hp as [->|(pre' & y & -> & Hy)]; [|by exists (x :: pre'), y].
    cbn in E. rewrite E, Hn in El. done.
  - destruct (p x) eqn:Ex.
    + exists [x]. split; [done|]. split; [done|]. right. by exists [], x.
    + exists []. cbn. rewrite Ex, El. split_and!; [done|done|by left].
Qed.

Lemma since_last_app {A} (p : A -> bool) l x m :
  p x = true -> existsb p m = false -> since_last p (l ++ x :: m) = m.
Proof.
  intros Hx Hm. induction l as [|y l IH]; cbn; [by rewrite Hm, Hx|].
  rewrite existsb_app. cbn. rewrite Hx. cbn. by rewrite orb_true_r.
Qed.

Lemma since_last_none {A} (p : A -> bool) l : existsb p l = false -> since_last p l = l.
Proof.
  destruct l as [|x l]; cbn; [done|]. intros H. apply orb_false_iff in H as [-> ->]. done.
Qed.

Lemma since_last_snoc {A} (p : A -> bool) l x :
  p x = false -> since_last p (l ++ [x]) = since_last p l ++ [x].
Proof.
  intros Hx. induction l as [|y l IH]; cbn; [by rewrite Hx|].
  rewrite existsb_app. cbn. rewrite Hx, IH, !orb_false_r. by repeat case_match.
Qed.

(** An event of the current wait: it is in the log with no re-arm after it. *)
Lemma since_last_elem {A} (p : A -> bool) l e :
  e ∈ since_last p l <-> exists pre post, l = pre ++ e :: post /\ existsb p (e :: post) = false.
Proof.
  destruct (since_last_spec p l) as (pre & E & Hn & Hp). split.
  - intros He. apply list_elem_of_split in He as (a & b & Hab). exists (pre ++ a), b.
    rewrite E at 1. rewrite Hab, <- app_assoc. split; [done|].
    rewrite Hab, existsb_app in Hn. by apply orb_false_iff in Hn as [_ ?].
  - intros (a & b & -> & Hb). clear E Hn Hp pre. induction a as [|x a IH].
    + rewrite app_nil_l, since_last_none by done. constructor.
    + change ((x :: a) ++ e :: b) with (x :: (a ++ e :: b)). cbn [since_last].
      case_match; [done|]. case_match; [|constructor 2].
      * apply elem_of_app. right. constructor.
      * apply elem_of_app. right. constructor.
Qed.

(** ** Approvals of the current wait *)

Definition add_approval (step : StepId) (seen : list string) (e : EventKind) : list string :=
  match approval_of step e with
  | Some by_ => if existsb (String.eqb by_) seen then seen else seen ++ [by_]
  | None => seen
  end.

Lemma contains_step_spec l s : contains_step l s = true <-> s ∈ l.
Proof.
  unfold contains_step. rewrite existsb_exists. setoid_rewrite list_elem_of_In.
  split; [intros (x & Hx & E); by apply String.eqb_eq in E as ->|].
  intros H. exists s. split; [done|apply String.eqb_refl].
Qed.

Lemma add_approvals_spec step l acc :
  NoDup acc ->
  NoDup (foldl (add_approval step) acc l)
  /\ forall p, p ∈ foldl (add_approval step) acc l
       <-> p ∈ acc \/ exists e, e ∈ l /\ approval_of step e = Some p.
Proof.
  revert acc; induction l as [|e l IH]; intros acc Hnd.
  { split; [done|]. intros p. split; [by left|]. intros [?|(e & He & _)]; [done|by apply elem_of_nil in He]. }
  assert (NoDup (add_approval step acc e)
          /\ forall p, p ∈ add_approval step acc e <-> p ∈ acc \/ approval_of step e = Some p) as [H1 H2].
  { unfold add_approval. destruct (approval_of step e) as [b|]; [|split; [done|]; intros p; split;
      [by left|by intros [?|?]]].
    destruct (existsb (String.eqb b) acc) eqn:E.
    - apply contains_step_spec in E. split; [done|]. intros p. split; [by left|]. by intros [?|[= ->]].
    - assert (b ∉ acc) as Hb by (intros H; apply contains_step_spec in H; unfold contains_step in H; congruence).
      split.
      + apply NoDup_app. split; [done|]. split; [|apply NoDup_singleton].
        intros x Hx Hx'. apply list_elem_of_singleton in Hx' as ->. done.
      + intros p. rewrite elem_of_app, list_elem_of_singleton. naive_solver. }
  destruct (IH _ H1) as [I1 I2]. split; [done|]. intros p. cbn. rewrite I2, H2.
  setoid_rewrite elem_of_cons. naive_solver.
Qed.

Lemma approval_of_spec step e p : approval_of step e = Some p <-> ev_kind e = GateApproved step p.
Proof.
  unfold approval_of. destruct (ev_kind e); try done.
  destruct (String.eqb_spec step0 step) as [->|Hn]; split; intros H; try done; try congruence.
Qed.

(** Who approved a gate's current wait. The list of approvers holds no
    principal twice, and holds exactly those whose approval of this gate has
    no re-arm of the gate after it in the log; a re-arm empties it (an
    approval given to a wait that was rejected or superseded does not carry
    over), a first approval is appended in order, and a repeated one changes
    nothing, so one principal never counts twice towards a quorum. *)
Theorem gate_approvers_current_wait events step :
  NoDup (gate_approvers events step)
  /\ (forall p, p ∈ gate_approvers events step <->
        exists pre e post, events = pre ++ e :: post /\ ev_kind e = GateApproved step p
          /\ existsb (fun x => is_gate_rearm (ev_kind x) step) post = false)
  /\ (forall e, is_gate_rearm (ev_kind e) step = true -> gate_approvers (events ++ [e]) step = [])
  /\ (forall e p, ev_kind e = GateApproved step p ->
        gate_approvers (events ++ [e]) step
          = if decide (p ∈ gate_approvers events step)
            then gate_approvers events step else gate_approvers events step ++ [p]).
Proof.
  pose proof (add_approvals_spec step (current_wait events step) [] NoDup_nil_2) as [H1 H2].
  split; [exact H1|]. split.
  { intros p. rewrite (H2 p). unfold current_wait. setoid_rewrite since_last_elem.
    setoid_rewrite approval_of_spec. split.
    - intros [Hn|(e & (pre & post & -> & Hp) & He)]; [by apply elem_of_nil in Hn|].
      cbn in Hp. apply orb_false_iff in Hp as [_ Hp]. by exists pre, e, post.
    - intros (pre & e & post & -> & He & Hp). right. exists e. split; [|done].
      exists pre, post. cbn. by rewrite He, Hp. }
  split.
  { intros e He. unfold gate_approvers, current_wait. by rewrite since_last_app. }
  intros e p He. unfold gate_approvers at 1, current_wait.
  rewrite (since_last_snoc _ events e) by (by rewrite He).
  rewrite foldl_app. cbn. rewrite (proj2 (approval_of_spec step e p) He).
  fold (current_wait events step). fold (gate_approvers events step).
  pose proof (contains_step_spec (gate_approvers events step) p) as Hc. unfold contains_step in Hc.
  destruct (existsb _ _); case_decide as Hd; try done.
  - destruct Hd. by apply Hc.
  - by apply Hc in Hd.
Qed.

(** ** The clock of a wait *)

(** A need's latest finish since its own latest return to [Pending]. *)
Definition need_finish (events : list EventKind) (n : StepId) : option Z :=
  max_of (omap (fun e => if bool_decide (finish_of (ev_kind e) = Some n) then Some (ev_at e) else None)
    (since_last (fun e => bool_decide (pending_of (ev_kind e) = Some n)) events)).

(** The latest re-arm of the gate, the first time the run ran. *)
Definition gate_rearmed (events : list EventKind) (gate : StepId) : option Z :=
  max_of (omap (fun e => if is_gate_rearm (ev_kind e) gate then Some (ev_at e) else None) events).
Definition first_running (events : list EventKind) : option Z :=
  ev_at <$> List.find (fun e => is_first_running (ev_kind e)) events.

Lemma max_of_snoc l z : max_of (l ++ [z]) = max_opt (max_of l) z.
Proof. unfold max_of. by rewrite foldl_app. Qed.

Lemma max_of_spec l :
  match max_of l with
  | Some m => m ∈ l /\ forall y, y ∈ l -> (y <= m)%Z
  | None => l = []
  end.
Proof.
  induction l as [|z l IH] using rev_ind; [done|]. rewrite max_of_snoc. unfold max_opt.
  destruct (max_of l) as [m|].
  - destruct IH as [Hm Hle]. split.
    + apply elem_of_app. destruct (Z.max_spec m z) as [[_ ->]|[_ ->]]; [right; constructor|by left].
    + intros y Hy. apply elem_of_app in Hy as [Hy|Hy]; [specialize (Hle y Hy); lia|].
      apply list_elem_of_singleton in Hy as ->. lia.
  - subst l. split; [constructor|]. intros y Hy. apply list_elem_of_singleton in Hy as ->. lia.
Qed.

Lemma finish_not_pending kind n : finish_of kind = Some n -> pending_of kind = None.
Proof. destruct kind; try done. by destruct to. Qed.

Lemma need_finish_snoc events e n :
  need_finish (events ++ [e]) n =
    if bool_decide (pending_of (ev_kind e) = Some n) then None
    else if bool_decide (finish_of (ev_kind e) = Some n)
         then max_opt (need_finish events n) (ev_at e) else need_finish events n.
Proof.
  unfold need_finish. case_bool_decide as Hp.
  - rewrite since_last_app; [done|by apply bool_decide_eq_true|done].
  - rewrite since_last_snoc by by apply bool_decide_eq_false.
    rewrite omap_app. cbn. case_bool_decide; [apply max_of_snoc|by rewrite app_nil_r].
Qed.

Lemma gate_rearmed_snoc events e g :
  gate_rearmed (events ++ [e]) g =
    if is_gate_rearm (ev_kind e) g then max_opt (gate_rearmed events g) (ev_at e) else gate_rearmed events g.
Proof.
  unfold gate_rearmed. rewrite omap_app. cbn.
  destruct (is_gate_rearm (ev_kind e) g); [apply max_of_snoc|by rewrite app_nil_r].
Qed.

Lemma first_running_snoc events e :
  first_running (events ++ [e]) =
    if is_first_running (ev_kind e) then Some (default (ev_at e) (first_running events))
    else first_running events.
Proof.
  unfold first_running. induction events as [|x events IH]; cbn.
  - by destruct (is_first_running _).
  - destruct (is_first_running (ev_kind x)); [|exact IH]. cbn. by case_match.
Qed.

(** The loop computes the three clocks. *)
Lemma wait_scan_spec events gate :
  ws_first_running (wait_scan events gate) = first_running events
  /\ ws_rearmed (wait_scan events gate) = gate_rearmed events (sr_step gate)
  /\ forall n, ws_finished (wait_scan events gate) !! n
       = if decide (n ∈ sr_needs gate) then Some (need_finish events n) else None.
Proof.
  induction events as [|e events IH] using rev_ind.
  { unfold wait_scan. cbn. split; [done|]. split; [done|]. intros n. case_decide as Hn.
    - apply elem_of_list_to_map_1'.
      + intros y Hy. apply list_elem_of_fmap in Hy as (? & [= -> ->] & _). done.
      + apply list_elem_of_fmap. by exists n.
    - apply not_elem_of_list_to_map_1. rewrite <- list_fmap_compose. intros Hin.
      apply list_elem_of_fmap in Hin as (? & -> & ?). done. }
  destruct IH as (I1 & I2 & I3). unfold wait_scan in *. rewrite foldl_app. cbn [foldl].
  set (w := foldl _ _ events) in *. unfold wait_scan_step. cbv zeta. cbn [ws_first_running ws_rearmed ws_finished].
  rewrite first_running_snoc, gate_rearmed_snoc, I1, I2. split; [done|]. split; [done|].
  intros n. rewrite need_finish_snoc. destruct (finish_of (ev_kind e)) as [s|] eqn:Ef.
  - rewrite (finish_not_pending _ _ Ef). rewrite bool_decide_eq_false_2 by done.
    destruct (decide (s = n)) as [->|Hn].
    + rewrite lookup_alter_eq, I3, bool_decide_eq_true_2 by done. by case_decide.
    + rewrite lookup_alter_ne by done. rewrite I3. rewrite bool_decide_eq_false_2 by congruence. done.
  - rewrite (bool_decide_eq_false_2 (None = Some n)) by done.
    destruct (pending_of (ev_kind e)) as [s|].
    + destruct (decide (s = n)) as [->|Hn].
      * rewrite lookup_alter_eq, I3, bool_decide_eq_true_2 by done. by case_decide.
      * rewrite lookup_alter_ne by done. rewrite I3. rewrite bool_decide_eq_false_2 by congruence. done.
    + by rewrite I3, bool_decide_eq_false_2.
Qed.

Lemma wait_values events gate o :
  o ∈ map snd (map_to_list (ws_finished (wait_scan events gate)))
  <-> exists n, n ∈ sr_needs gate /\ need_finish events n = o.
Proof.
  destruct (wait_scan_spec events gate) as (_ & _ & H). rewrite list_elem_of_fmap. split.
  - intros ([n o'] & -> & Hn). apply elem_of_map_to_list in Hn. rewrite H in Hn. case_decide; [|done].
    exists n. split; [done|]. cbn. congruence.
  - intros (n & Hn & <-). exists (n, need_finish events n). split; [done|].
    apply elem_of_map_to_list. rewrite H. by rewrite decide_True.
Qed.

(** What the needs contribute to the clock. *)
Definition needs_clock (events : list EventKind) (gate : StepRun) (now : Timestamp) : option Z :=
  let w := wait_scan events gate in
  let values := map snd (map_to_list (ws_finished w)) in
  match sr_needs gate with
  | [] => ws_first_running w
  | _ => if existsb (fun o => negb (bool_decide (is_Some o))) values then Some now
         else max_of (omap id values)
  end.

Lemma needs_clock_spec events gate now n :
  n ∈ sr_needs gate ->
  exists t, needs_clock events gate now = Some t
    /\ match need_finish events n with
       | None => t = now
       | Some f => t = now \/ (f <= t)%Z
       end
    /\ (t = now \/ exists n', n' ∈ sr_needs gate /\ need_finish events n' = Some t).
Proof.
  intros Hn. unfold needs_clock. cbv zeta.
  destruct (sr_needs gate) as [|n0 ns] eqn:En; [by apply elem_of_nil in Hn|]. rewrite <- En in *.
  set (values := map snd _).
  assert (forall o, o ∈ values <-> exists n, n ∈ sr_needs gate /\ need_finish events n = o) as Hv
    by (intros o; apply wait_values).
  destruct (existsb _ values) eqn:E.
  - exists now. split; [done|]. split; [destruct (need_finish events n); by try left|by left].
  - assert (forall n, n ∈ sr_needs gate -> is_Some (need_finish events n)) as Hall.
    { intros m Hm. destruct (need_finish events m) eqn:Em; [done|]. exfalso.
      assert (existsb (fun o : option Z => negb (bool_decide (is_Some o))) values = true); [|congruence].
      apply existsb_exists. exists None. split; [|done]. apply list_elem_of_In, Hv. by exists m. }
    pose proof (max_of_spec (omap id values)) as Hm. destruct (Hall n Hn) as [f Hf].
    assert (f ∈ omap id values) as Hin.
    { apply list_elem_of_omap. exists (Some f). split; [|done]. apply Hv. by exists n. }
    destruct (max_of (omap id values)) as [t|]; [|rewrite Hm in Hin; by apply elem_of_nil in Hin].
    destruct Hm as [Ht Hle]. exists t. split; [done|]. rewrite Hf. split; [right; by apply Hle|]. right.
    apply list_elem_of_omap in Ht as (o & Ho & Hid). cbn in Hid. subst o. by apply Hv.
Qed.

(** A gate's clock never starts early. Whatever the log holds, the wait of
    a gate begins no later than [now]; it begins no earlier than the latest
    re-arm of the gate, nor than any of its needs' latest finish since that
    need's own last return to [Pending]; a need whose finish is missing from
    the log makes it begin [now], and a gate without needs begins no earlier
    than the Run first ran. Nor is it later than it has to be: unless it is
    [now], it is the time of one of those events. *)
Theorem wait_never_shortened events gate now :
  let start := wait_began_at events gate now in
  (start <= now)%Z
  /\ (forall r, gate_rearmed events (sr_step gate) = Some r -> (Z.min r now <= start)%Z)
  /\ (forall n, n ∈ sr_needs gate ->
        match need_finish events n with
        | Some f => (Z.min f now <= start)%Z
        | None => start = now
        end)
  /\ (forall t, sr_needs gate = [] -> first_running events = Some t -> (Z.min t now <= start)%Z)
  /\ (start = now \/ gate_rearmed events (sr_step gate) = Some start
      \/ (sr_needs gate = [] /\ first_running events = Some start)
      \/ exists n, n ∈ sr_needs gate /\ need_finish events n = Some start).
Proof.
  destruct (wait_scan_spec events gate) as (H1 & H2 & _).
  set (base := needs_clock events gate now).
  assert (wait_began_at events gate now
    = Z.min (match base, gate_rearmed events (sr_step gate) with
             | Some f, Some r => Z.max f r
             | Some t, None | None, Some t => t
             | None, None => now
             end) now) as Eq by (unfold wait_began_at; rewrite H2; done).
  cbv zeta. rewrite Eq. set (rearm := gate_rearmed events (sr_step gate)).
  split; [lia|]. split; [intros r Hr; rewrite Hr; destruct base; lia|]. split.
  { intros n Hn. destruct (needs_clock_spec events gate now n Hn) as (t & Ht & Hf & _).
    fold base in Ht. rewrite Ht. destruct (need_finish events n), rearm; lia. }
  split.
  { intros t Hne Ht. unfold base, needs_clock. rewrite Hne, H1, Ht. destruct rearm; lia. }
  assert (forall t, base = Some t -> t = now \/ (sr_needs gate = [] /\ first_running events = Some t)
            \/ exists n, n ∈ sr_needs gate /\ need_finish events n = Some t) as Hbase.
  { intros t Ht. destruct (sr_needs gate) as [|n0 ns] eqn:En.
    - right; left. split; [done|]. unfold base, needs_clock in Ht. rewrite En, H1 in Ht. done.
    - destruct (needs_clock_spec events gate now n0) as (t' & Ht' & _ & Hc); [rewrite En; constructor|].
      unfold base in Ht. rewrite Ht' in Ht. injection Ht as ->. rewrite <- En. naive_solver. }
  destruct base as [t|], rearm as [r|].
  - destruct (Z.min_spec (Z.max t r) now) as [[_ ->]|[_ ->]]; [|by left].
    destruct (Z.max_spec t r) as [[_ ->]|[_ ->]]; [by right; left|].
    destruct (Hbase t eq_refl) as [->|[?|?]]; auto.
  - destruct (Z.min_spec t now) as [[_ ->]|[_ ->]]; [|by left].
    destruct (Hbase t eq_refl) as [->|[?|?]]; auto.
  - destruct (Z.min_spec r now) as [[_ ->]|[_ ->]]; auto.
  - left. lia.
Qed.

(** ** When a Run may suspend *)

(** Transitively behind a waiting gate, through steps that are not done. *)
Inductive behind (by_id : gmap StepId StepRun) (waiting : gset StepId) : StepId -> Prop :=
| behind_need id s n :
    by_id !! id = Some s -> n ∈ sr_needs s -> n ∈ waiting -> behind by_id waiting id
| behind_step id s n ns :
    by_id !! id = Some s -> n ∈ sr_needs s -> by_id !! n = Some ns ->
    step_is_terminal (sr_status ns) = false -> behind by_id waiting n -> behind by_id waiting id.

Section Behind.
Context (by_id : gmap StepId StepRun) (waiting : gset StepId).
(** The rows are keyed by their own step, and the needs form a DAG. *)
Hypothesis keyed : forall id s, by_id !! id = Some s -> sr_step s = id.
Variable rank : StepId -> nat.
Hypothesis acyclic : forall id s n ns,
  by_id !! id = Some s -> n ∈ sr_needs s -> by_id !! n = Some ns -> rank n < rank id.

(** Entries of rank below [r] are final answers. *)
Definition memo_ok (r : nat) (memo : gmap StepId bool) : Prop :=
  forall j b, rank j < r -> memo !! j = Some b -> (b = true <-> behind by_id waiting j).

(** Rows whose id has not been visited. *)
Definition unvisited (memo : gmap StepId bool) : nat :=
  size (dom by_id ∖ dom memo).

Definition memo_grows (r : nat) (memo memo' : gmap StepId bool) : Prop :=
  dom memo ⊆ dom memo' /\ (forall j, r <= rank j -> memo' !! j = memo !! j) /\ memo_ok r memo'.

Lemma unvisited_mono memo memo' : dom memo ⊆ dom memo' -> unvisited memo' <= unvisited memo.
Proof. intros H. unfold unvisited. apply subseteq_size. set_solver. Qed.

Lemma unvisited_visit memo id s :
  by_id !! id = Some s -> memo !! id = None -> unvisited (<[id := false]> memo) < unvisited memo.
Proof.
  intros Hs Hm. unfold unvisited. apply subset_size. rewrite dom_insert_L.
  assert (id ∈ dom by_id) by (apply elem_of_dom; by eexists).
  assert (id ∉ dom memo) by by apply not_elem_of_dom.
  split; set_solver.
Qed.

Lemma memo_grows_refl r memo : memo_ok r memo -> memo_grows r memo memo.
Proof. intros H. split; [done|split; [done|exact H]]. Qed.

Lemma memo_grows_trans r m1 m2 m3 : memo_grows r m1 m2 -> memo_grows r m2 m3 -> memo_grows r m1 m3.
Proof.
  intros (A1 & A2 & A3) (B1 & B2 & B3). split_and!; [set_solver| |done].
  intros j Hj. by rewrite B2, A2.
Qed.

Lemma memo_grows_lift r r' memo memo' :
  r <= r' -> memo_ok r' memo -> memo_grows r memo memo' -> memo_grows r' memo memo'.
Proof.
  intros Hr Hok (A1 & A2 & A3). split_and!; [done| |].
  - intros j Hj. apply A2. lia.
  - intros j b Hj Hb. destruct (decide (rank j < r)); [by apply A3|].
    rewrite A2 in Hb by lia. by apply Hok.
Qed.

(** What the recursion promises on the needs it visits. *)
Definition recurse_ok (fuel : nat) (recurse : StepId -> gmap StepId bool -> bool * gmap StepId bool)
    (n : StepId) : Prop :=
  forall memo, memo_ok (S (rank n)) memo -> unvisited memo < fuel ->
    let '(b, memo') := recurse n memo in
    (b = true <-> behind by_id waiting n) /\ memo_grows (S (rank n)) memo memo'.

Definition need_behind (n : StepId) : Prop :=
  n ∈ waiting \/ exists ns, by_id !! n = Some ns
    /\ step_is_terminal (sr_status ns) = false /\ behind by_id waiting n.

Lemma any_need_spec fuel recurse r needs memo :
  (forall n ns, n ∈ needs -> by_id !! n = Some ns -> rank n < r /\ recurse_ok fuel recurse n) ->
  memo_ok r memo -> unvisited memo < fuel ->
  let '(b, memo') := any_need recurse by_id waiting needs memo in
  (b = true <-> exists n, n ∈ needs /\ need_behind n) /\ memo_grows r memo memo'.
Proof.
  revert memo; induction needs as [|n rest IH]; intros memo Hrec Hok Hf; cbn [any_need].
  { split; [|by apply memo_grows_refl]. split; [done|]. intros (n & Hn & _). by apply elem_of_nil in Hn. }
  assert (forall n ns, n ∈ rest -> by_id !! n = Some ns -> rank n < r /\ recurse_ok fuel recurse n)
    as Hrest by (intros m ms Hm; apply Hrec; by constructor).
  assert (forall P : Prop, (exists m, m ∈ n :: rest /\ need_behind m)
            <-> need_behind n \/ exists m, m ∈ rest /\ need_behind m) as Hcons.
  { intros _. setoid_rewrite elem_of_cons. split; [intros (m & [->|Hm] & H); eauto|].
    intros [H|(m & Hm & H)]; eauto. }
  case_decide as Hw.
  { split; [|by apply memo_grows_refl]. split; [|done]. intros _. exists n. split; [constructor|by left]. }
  destruct (by_id !! n) as [ns|] eqn:En; cycle 1.
  { assert (~ need_behind n) as Hno by (intros [?|(? & E & _)]; congruence).
    specialize (IH memo Hrest Hok Hf). destruct (any_need _ _ _ rest memo) as [b memo'].
    rewrite (Hcons True). naive_solver. }
  destruct (step_is_terminal (sr_status ns)) eqn:Et.
  { assert (~ need_behind n) as Hno by (intros [?|(? & E & ? & _)]; congruence).
    specialize (IH memo Hrest Hok Hf). destruct (any_need _ _ _ rest memo) as [b memo'].
    rewrite (Hcons True). naive_solver. }
  destruct (Hrec n ns) as [Hr Hro]; [constructor|done|]. rewrite (keyed _ _ En).
  assert (memo_ok (S (rank n)) memo) as Hok' by (intros j b Hj; apply Hok; lia).
  specialize (Hro memo Hok' Hf). destruct (recurse n memo) as [b memo1]. destruct Hro as [Hb Hg].
  pose proof (memo_grows_lift (S (rank n)) r memo memo1 Hr Hok Hg) as Hg1.
  assert (need_behind n <-> behind by_id waiting n) as Hnb.
  { split; [intros [?|(? & ? & ? & ?)]; done|]. intros H. right. by exists ns. }
  destruct b.
  - split; [|done]. split; [|done]. intros _. exists n. split; [constructor|]. by apply Hnb, Hb.
  - assert (unvisited memo1 < fuel) as Hf1.
    { pose proof (unvisited_mono memo memo1 (proj1 Hg1)). lia. }
    specialize (IH memo1 Hrest (proj2 (proj2 Hg1)) Hf1).
    destruct (any_need _ _ _ rest memo1) as [b memo2]. destruct IH as [I1 I2].
    split; [|by eapply memo_grows_trans]. rewrite (Hcons True), I1, Hnb, <- Hb.
    split; [by right|]. by intros [?|?].
Qed.

Lemma behind_needs id s :
  by_id !! id = Some s -> (behind by_id waiting id <-> exists n, n ∈ sr_needs s /\ need_behind n).
Proof.
  intros Hs. split.
  - destruct 1 as [id s' n H1 H2 H3|id s' n ns H1 H2 H3 H4 H5]; rewrite Hs in H1; injection H1 as <-;
      exists n; (split; [done|]); [by left|right; by exists ns].
  - intros (n & Hn & [Hw|(ns & H1 & H2 & H3)]); [by eapply behind_need|by eapply behind_step].
Qed.

Lemma behind_correct fuel id : recurse_ok fuel (behind_waiting_gate fuel by_id waiting) id.
Proof.
  revert id; induction fuel as [|fuel IH]; intros id memo Hok Hf; [lia|].
  cbn [behind_waiting_gate]. destruct (memo !! id) as [b|] eqn:Em.
  { split; [apply (Hok id b); [lia|done]|by apply memo_grows_refl]. }
  destruct (by_id !! id) as [s|] eqn:Es; cycle 1.
  { split.
    - split; [done|]. destruct 1; congruence.
    - split_and!; [set_solver| |].
      + intros j Hj. rewrite lookup_insert_ne; [done|]. intros ->. lia.
      + intros j b Hj. destruct (decide (id = j)) as [<-|Hn].
        * rewrite lookup_insert_eq. intros [= <-]. split; [done|]. destruct 1; congruence.
        * rewrite lookup_insert_ne by done. by apply Hok. }
  set (memo1 := <[id := false]> memo).
  assert (memo_ok (rank id) memo1) as Hok1.
  { intros j b Hj Hb. unfold memo1 in Hb. rewrite lookup_insert_ne in Hb by (intros ->; lia).
    apply Hok; [lia|done]. }
  pose proof (unvisited_visit memo id s Es Em) as Hv.
  pose proof (any_need_spec fuel (behind_waiting_gate fuel by_id waiting) (rank id) (sr_needs s) memo1) as H.
  destruct (any_need _ _ _ _ memo1) as [b memo2].
  destruct H as [Hb (G1 & G2 & G3)]; [|exact Hok1|fold memo1 in Hv; lia|].
  { intros n ns Hn Hns. split; [by eapply acyclic|apply IH]. }
  rewrite <- (behind_needs id s Es) in Hb. split; [done|]. split_and!.
  - unfold memo1 in G1. rewrite dom_insert_L in *. set_solver.
  - intros j Hj. rewrite lookup_insert_ne by (intros ->; lia). rewrite G2 by lia.
    unfold memo1. by rewrite lookup_insert_ne by (intros ->; lia).
  - intros j b' Hj. destruct (decide (id = j)) as [<-|Hn].
    + rewrite lookup_insert_eq. by intros [= <-].
    + rewrite lookup_insert_ne by done. intros Hb'.
      destruct (decide (rank j < rank id)); [by apply G3|].
      rewrite G2 in Hb' by lia. unfold memo1 in Hb'. rewrite lookup_insert_ne in Hb' by done.
      by apply Hok.
Qed.

(** Real work is not what is outstanding: each step is done, waiting, or
    [Pending] behind a wait. *)
Definition step_parked (s : StepRun) : Prop :=
  step_is_terminal (sr_status s) = true \/ sr_step s ∈ waiting
  \/ (sr_status s = StepPending /\ behind by_id waiting (sr_step s)).

Lemma outstanding_loop_spec fuel steps memo :
  (forall j b, memo !! j = Some b -> (b = true <-> behind by_id waiting j)) ->
  unvisited memo < fuel ->
  outstanding_loop fuel by_id waiting steps memo = true <-> Forall step_parked steps.
Proof.
  revert memo; induction steps as [|s rest IH]; intros memo Hok Hf; cbn [outstanding_loop]; [done|].
  rewrite Forall_cons. unfold step_parked at 1.
  destruct (step_is_terminal (sr_status s)) eqn:Et; cbn; [rewrite (IH memo) by done; naive_solver|].
  case_bool_decide as Hw; cbn; [rewrite (IH memo) by done; naive_solver|].
  case_bool_decide as Hp; cbn; [|split; [done|naive_solver]].
  pose proof (behind_correct fuel (sr_step s) memo) as H.
  destruct (behind_waiting_gate _ _ _ _ memo) as [b memo'].
  destruct H as [Hb (G1 & G2 & G3)]; [intros j b' _; by apply Hok|done|].
  destruct b.
  - rewrite (IH memo'); [naive_solver| |].
    + intros j b' Hj. destruct (decide (rank j < S (rank (sr_step s)))); [by apply G3|].
      rewrite G2 in Hj by lia. by apply Hok.
    + pose proof (unvisited_mono memo memo' G1). lia.
  - split; [done|]. intros [[?|[?|[_ Hbe]]] _]; [done|done|]. by apply Hb in Hbe.
Qed.
End Behind.

Lemma by_step_snoc steps s : by_step (steps ++ [s]) = <[sr_step s := s]> (by_step steps).
Proof. unfold by_step. by rewrite foldl_app. Qed.

Lemma by_step_keyed steps id s : by_step steps !! id = Some s -> s ∈ steps /\ sr_step s = id.
Proof.
  induction steps as [|x steps IH] using rev_ind; [unfold by_step; cbn; by rewrite lookup_empty|].
  rewrite by_step_snoc. destruct (decide (sr_step x = id)) as [<-|Hn].
  - rewrite lookup_insert_eq. intros [= <-]. split; [|done]. apply elem_of_app. right. constructor.
  - rewrite lookup_insert_ne by done. intros H. destruct (IH H). split; [|done]. apply elem_of_app. by left.
Qed.

Lemma by_step_lookup steps s :
  NoDup (map sr_step steps) -> s ∈ steps -> by_step steps !! sr_step s = Some s.
Proof.
  induction steps as [|x steps IH] using rev_ind; intros Hnd Hs; [by apply elem_of_nil in Hs|].
  rewrite map_app in Hnd. apply NoDup_app in Hnd as (Hnd & Hx & _). rewrite by_step_snoc.
  apply elem_of_app in Hs as [Hs|Hs].
  - rewrite lookup_insert_ne; [by apply IH|]. intros E.
    apply (Hx (sr_step s)); [by apply list_elem_of_fmap_2|]. rewrite <- E. constructor.
  - apply list_elem_of_singleton in Hs as ->. by rewrite lookup_insert_eq.
Qed.

Lemma by_step_size steps : size (dom (by_step steps)) <= length steps.
Proof.
  induction steps as [|x steps IH] using rev_ind; [unfold by_step; cbn; by rewrite dom_empty_L, size_empty|].
  rewrite by_step_snoc, length_app, dom_insert_L. cbn.
  rewrite size_union_alt, size_singleton.
  assert (size (dom (by_step steps) ∖ {[sr_step x]}) <= size (dom (by_step steps)))
    by (apply subseteq_size; set_solver). lia.
Qed.

(** A gate of the Run that waits: reached, and not resolved yet. *)
Definition waits (steps : list StepRun) (g : StepRun) : Prop :=
  g ∈ steps /\ is_gate g = true /\ sr_status g = StepPending /\ gate_reached g steps = true.

Inductive behind_wait (steps : list StepRun) : StepRun -> Prop :=
| bw_gate s g : waits steps g -> sr_step g ∈ sr_needs s -> behind_wait steps s
| bw_step s s' :
    s' ∈ steps -> sr_step s' ∈ sr_needs s -> step_is_terminal (sr_status s') = false ->
    behind_wait steps s' -> behind_wait steps s.

Section Suspend.
Context (steps : list StepRun).
Hypothesis distinct : NoDup (map sr_step steps).

Lemma succeeded_by_id n : succeeded (by_step steps) n = succeeded_in steps n.
Proof.
  unfold succeeded. apply eq_iff_eq_true. rewrite bool_decide_eq_true. unfold succeeded_in.
  rewrite existsb_exists. setoid_rewrite andb_true_iff. setoid_rewrite bool_decide_eq_true.
  split.
  - destruct (by_step steps !! n) as [s|] eqn:E; [|done]. cbn. intros [= Hs].
    apply by_step_keyed in E as [Hin <-]. exists s. split; [by apply list_elem_of_In|].
    by rewrite String.eqb_refl.
  - intros (s & Hin & He & Hs). apply list_elem_of_In in Hin. apply String.eqb_eq in He as <-.
    rewrite by_step_lookup by done. cbn. by rewrite Hs.
Qed.

Lemma is_waiting_spec g : g ∈ steps -> (is_waiting (by_step steps) g = true <-> waits steps g).
Proof.
  intros Hg. unfold is_waiting, waits, gate_reached. rewrite !andb_true_iff, bool_decide_eq_true.
  assert (forallb (succeeded (by_step steps)) (sr_needs g) = forallb (succeeded_in steps) (sr_needs g)) as ->.
  { induction (sr_needs g); cbn; [done|]. by rewrite succeeded_by_id, IHl. }
  naive_solver.
Qed.

Lemma elem_of_waiting_set n :
  n ∈ waiting_set (by_step steps) steps <-> exists g, waits steps g /\ sr_step g = n.
Proof.
  unfold waiting_set. rewrite elem_of_list_to_set, list_elem_of_fmap. split.
  - intros (g & -> & Hg). apply list_elem_of_filter in Hg as [Hw Hg]. exists g. by rewrite <- is_waiting_spec.
  - intros (g & Hw & <-). exists g. split; [done|]. apply list_elem_of_filter.
    split; [|apply Hw]. apply is_waiting_spec; [apply Hw|done].
Qed.

Lemma behind_wait_spec s :
  s ∈ steps ->
  behind (by_step steps) (waiting_set (by_step steps) steps) (sr_step s) <-> behind_wait steps s.
Proof.
  intros Hs. split.
  - intros H. remember (sr_step s) as id eqn:Eid. revert s Hs Eid.
    induction H as [id s0 n H1 H2 H3|id s0 n ns H1 H2 H3 H4 H5 IH]; intros s Hs ->;
      rewrite by_step_lookup in H1 by done; injection H1 as <-.
    + apply elem_of_waiting_set in H3 as (g & Hg & <-). by eapply bw_gate.
    + apply by_step_keyed in H3 as [Hns <-]. eapply bw_step; [exact Hns|done|done|]. by apply IH.
  - intros H. induction H as [s g Hw Hn|s s' H1 H2 H3 H4 IH].
    + eapply behind_need; [by apply by_step_lookup|done|]. apply elem_of_waiting_set. by exists g.
    + eapply behind_step; [by apply by_step_lookup|done|by apply by_step_lookup|done|by apply IH].
Qed.
End Suspend.

(** When a Run may suspend. Over the steps of a Run (distinct ids, needs
    that form a DAG), the predicate is true exactly when some gate waits (every
    need of it succeeded, no verdict yet) and every other step is either
    terminal, or a waiting gate itself, or [Pending] with a chain of
    unfinished needs that leads to a waiting gate: nothing is [Ready] or
    [Running], and nothing [Pending] could be started or skipped without a
    verdict. The memoised search always ends with that answer. *)
Theorem suspends_iff_only_waits (rank : StepId -> nat) steps :
  NoDup (map sr_step steps) ->
  (forall s s', s ∈ steps -> s' ∈ steps -> sr_step s' ∈ sr_needs s -> rank (sr_step s') < rank (sr_step s)) ->
  only_waits_outstanding steps = true <->
  (exists g, waits steps g)
  /\ (forall s, s ∈ steps ->
        step_is_terminal (sr_status s) = true \/ waits steps s
        \/ (sr_status s = StepPending /\ behind_wait steps s)).
Proof.
  intros Hnd Hdag. unfold only_waits_outstanding. cbv zeta.
  set (by_id := by_step steps). set (waiting := waiting_set by_id steps).
  assert ((exists g, waits steps g) <-> waiting <> ∅) as Hex.
  { split.
    - intros [g Hg] E. assert (sr_step g ∈ waiting) by (apply elem_of_waiting_set; eauto). set_solver.
    - intros Hne. apply set_choose_L in Hne as [n Hn]. apply elem_of_waiting_set in Hn as (g & Hg & _); eauto. }
  case_decide as Hw; [split; [done|]; intros [He _]; by apply Hex in He|].
  rewrite (outstanding_loop_spec by_id waiting) with (rank := rank).
  - rewrite Hex, Forall_forall. split.
    + intros H. split; [done|]. intros s Hs. destruct (H s Hs) as [?|[Hin|[Hp Hb]]]; [by left| |].
      * right; left. apply elem_of_waiting_set in Hin as (g & Hg & E); [|done].
        assert (by_step steps !! sr_step g = Some s) as Eg.
        { rewrite E. by apply by_step_lookup. }
        rewrite by_step_lookup in Eg by (done || apply Hg). injection Eg as ->. done.
      * right; right. split; [done|]. by apply behind_wait_spec.
    + intros [_ H] s Hs. destruct (H s Hs) as [?|[Hin|[Hp Hb]]]; [by left| |].
      * right; left. apply elem_of_waiting_set; eauto.
      * right; right. split; [done|]. by apply behind_wait_spec.
  - intros id s E. exact (proj2 (by_step_keyed _ _ _ E)).
  - intros id s n ns E Hn En. apply by_step_keyed in E as [Hs <-]. apply by_step_keyed in En as [Hns <-].
    by apply Hdag.
  - intros j b. by rewrite lookup_empty.
  - unfold unvisited. pose proof (by_step_size steps). rewrite dom_empty_L, difference_empty_L. unfold by_id. lia.
Qed.

Lemma suspends_iff_only_waits_witness :
  let steps := [mkStepRun "r" "build" StepSucceeded [] [] None;
                mkStepRun "r" "approve" StepPending [] ["build"] (Some "manual");
                mkStepRun "r" "deploy" StepPending [] ["approve"] None] in
  (exists g, waits steps g) /\ only_waits_outstanding steps = true.
Proof.
  cbn zeta.
  set (steps := [_; _; _]).
  set (rank := fun s : StepId => if String.eqb s "build" then 0 else if String.eqb s "approve" then 1 else 2).
  assert (only_waits_outstanding steps = true) as H by (vm_compute; reflexivity).
  split; [|exact H].
  apply (suspends_iff_only_waits rank steps); [| |exact H].
  - apply (bool_decide_unpack _). vm_compute. exact I.
  - intros s s' Hs _ Hn.
    repeat (apply elem_of_cons in Hs as [->|Hs];
      [repeat (apply elem_of_cons in Hn as [Hn|Hn]; [rewrite Hn; vm_compute; lia|]);
       apply elem_of_nil in Hn; contradiction|]).
    apply elem_of_nil in Hs; contradiction.
Defined.
