(* ===== verification/Program.v ===== *)
(** * Programs over the store, interleaved with everyone else

    The scheduler's and the API's operations (scarab-engine/src/scheduler.rs)
    are sequences of store calls with other servers' calls, and time, in
    between. A program runs in a [World]: the store, the clock, and what the
    rest of the world does before each of the program's own calls, one
    [Interference] per call. A statement for every list of interferences is a
    statement about every interleaving. A program may also be dropped at one
    of its calls (a crash, a cancelled request, a lost claim): from there on it
    has no effect and its result is discarded. *)

From S2P Require Import Prelude Domain Store.

(** What happens before one call: other clients' writes, the passage of time,
    the nonce a call that wants one draws, and whether a droppable program is
    dropped there. *)
Record Interference := mkInterference {
  if_store : InMemoryState -> InMemoryState;
  if_ticks : Z;
  if_nonce : N;
  if_drop : bool;
}.

(** Whether the running program can be dropped, or has been. *)
Inductive Driver : Set := Kept | Droppable | Dropped.

(** The memory of this process, shared by its programs: the attempts it has
    launched or polled ([Supervision]), and since when each Run's tick work
    has been failing ([TickHealth]). *)
Record Memory := mkMemory {
  mem_seen : gset string;
  mem_health : gmap RunId Timestamp;
}.
Definition memory_empty : Memory := mkMemory ∅ ∅.

Record World := mkWorld {
  w_st : InMemoryState;
  w_now : Timestamp;
  w_env : list Interference;
  w_driver : Driver;
  w_mem : Memory;
}.
Definition with_driver (d : Driver) (w : World) : World :=
  mkWorld (w_st w) (w_now w) (w_env w) d (w_mem w).

Definition Prog (E A : Type) : Type := World -> Result E A * World.

Definition ret {E A} (a : A) : Prog E A := fun w => (Ok a, w).
Definition fail {E A} (e : E) : Prog E A := fun w => (Err e, w).
Definition bind {E A B} (m : Prog E A) (f : A -> Prog E B) : Prog E B :=
  fun w => match m w with
           | (Ok a, w') => f a w'
           | (Err e, w') => (Err e, w')
           end.
Notation "'let*' x := m 'in' k" := (bind m (fun x => k))
  (at level 10, x pattern, m at level 100, k at level 200).
Notation "m ';;;' k" := (bind m (fun _ => k)) (at level 99, right associativity).

(** [match op.await { .. }]: look at the outcome instead of propagating it. *)
Definition attempt_ {E F A} (m : Prog E A) : Prog F (Result E A) :=
  fun w => let '(r, w') := m w in (Ok r, w').
(** [?] into an outer error type. *)
Definition into {E F A} (f : E -> F) (m : Prog E A) : Prog F A :=
  fun w => let '(r, w') := m w in (map_err f r, w').

(** The rest of the world moves once; returns the nonce it brought. *)
Definition interfere (w : World) : World * N :=
  match w_driver w, w_env w with
  | Dropped, _ | _, [] => (w, 0%N)
  | d, i :: env =>
      (mkWorld (if_store i (w_st w)) (w_now w + if_ticks i)%Z env
         (match d, if_drop i with Droppable, true => Dropped | _, _ => d end) (w_mem w), if_nonce i)
  end.

(** One atomic store call that reads the store's own clock. A dropped program
    makes none. *)
Definition call_at {A} (op : Timestamp -> Op A) : Prog DbError A :=
  fun w => let w := (interfere w).1 in
           match w_driver w with
           | Dropped => (Err DbUnavailable, w)
           | d => let '(r, st) := op (w_now w) (w_st w) in (r, mkWorld st (w_now w) (w_env w) d (w_mem w))
           end.
(** One atomic store call. *)
Definition call {A} (op : Op A) : Prog DbError A := call_at (fun _ => op).
(** [clock.now()]. *)
Definition now_ {E} : Prog E Timestamp :=
  fun w => let w := (interfere w).1 in (Ok (w_now w), w).
(** A random draw. *)
Definition draw {E} : Prog E N := fun w => let '(w, n) := interfere w in (Ok n, w).

(** One locked access to the process's memory. *)
Definition memory {E A} (f : Memory -> A * Memory) : Prog E A :=
  fun w => let '(a, m) := f (w_mem w) in
           (Ok a, match w_driver w with
                  | Dropped => w
                  | d => mkWorld (w_st w) (w_now w) (w_env w) d m
                  end).

(** [Supervision::first_contact]: track [key]; whether it is new. *)
Definition first_contact {E} (key : string) : Prog E bool :=
  memory (fun m => (bool_decide (key ∉ mem_seen m), mkMemory ({[key]} ∪ mem_seen m) (mem_health m))).

(** Run [m] where it may be dropped: [None] when it was. *)
Definition droppable {E F A} (m : Prog E A) : Prog F (option (Result E A)) :=
  fun w => let '(r, w') := m (with_driver (match w_driver w with Dropped => Dropped | _ => Droppable end) w) in
           (Ok (match w_driver w' with Dropped => None | _ => Some r end), with_driver (w_driver w) w').

Fixpoint for_each {E A} (f : A -> Prog E unit) (l : list A) : Prog E unit :=
  match l with
  | [] => ret tt
  | x :: l' => f x ;;; for_each f l'
  end.
(** A loop that carries its local variables [s]. *)
Fixpoint fold_each {E A S} (f : S -> A -> Prog E S) (s : S) (l : list A) : Prog E S :=
  match l with
  | [] => ret s
  | x :: l' => let* s' := f s x in fold_each f s' l'
  end.
Fixpoint map_each {E A B} (f : A -> Prog E B) (l : list A) : Prog E (list B) :=
  match l with
  | [] => ret []
  | x :: l' => let* y := f x in let* r := map_each f l' in ret (y :: r)
  end.

(** * Theorems *)

(** ** Every program is a sequence of store calls *)

(** The others only make store calls too. *)
Definition calls_only (i : Interference) : Prop := forall st, rtc db_step st (if_store i st).

(** Whatever is interleaved, the program takes the store along store calls,
    and once dropped it stays so. *)
Definition well_behaved {E A} (p : Prog E A) : Prop :=
  forall w, Forall calls_only (w_env w) ->
    rtc db_step (w_st w) (w_st (p w).2) /\ Forall calls_only (w_env (p w).2)
    /\ (w_driver w = Dropped -> w_driver (p w).2 = Dropped).

Create HintDb prog.

Lemma wb_interfere w :
  Forall calls_only (w_env w) ->
  rtc db_step (w_st w) (w_st (interfere w).1) /\ Forall calls_only (w_env (interfere w).1).
Proof.
  intros H. unfold interfere. destruct (w_driver w), (w_env w) as [|i env] eqn:E; cbn;
    rewrite ?E; try (split; [apply rtc_refl|done]); apply Forall_cons in H as [Hi H];
    (split; [apply Hi|done]).
Qed.
Lemma interfere_dropped w : w_driver w = Dropped -> (interfere w).1 = w.
Proof. unfold interfere. by intros ->. Qed.

Lemma wb_ret {E A} (a : A) : well_behaved (E:=E) (ret a).
Proof. intros w H. split; [apply rtc_refl|done]. Qed.
Lemma wb_fail {E A} (e : E) : well_behaved (A:=A) (fail e).
Proof. intros w H. split; [apply rtc_refl|done]. Qed.
Lemma wb_bind {E A B} (m : Prog E A) (f : A -> Prog E B) :
  well_behaved m -> (forall a, well_behaved (f a)) -> well_behaved (bind m f).
Proof.
  intros Hm Hf w H. unfold bind. specialize (Hm w H). destruct (m w) as [[a|e] w1]; [|done].
  destruct Hm as (H1 & H2 & H3). destruct (Hf a w1 H2) as (H4 & H5 & H6).
  split; [by etrans|]. split; [done|]. auto.
Qed.
Lemma wb_call_at {A} (op : Timestamp -> Op A) :
  (forall now st, (op now st).2 = st \/ db_step st (op now st).2) -> well_behaved (call_at op).
Proof.
  intros Hop w H. unfold call_at. destruct (wb_interfere w H) as [H1 H2].
  pose proof (interfere_dropped w) as Hd.
  set (w1 := (interfere w).1) in *. specialize (Hop (w_now w1) (w_st w1)).
  destruct (w_driver w1) eqn:E1; [..|done]; destruct (op (w_now w1) (w_st w1)) as [r st]; cbn in *;
    (split; [|split; [done|intros Hw; rewrite (Hd Hw) in E1; congruence]]);
    (destruct Hop as [->|Hs]; [done|]); eapply rtc_r; eauto.
Qed.
Lemma wb_call {A} (op : Op A) :
  (forall st, (op st).2 = st \/ db_step st (op st).2) -> well_behaved (call op).
Proof. intros Hop. apply wb_call_at. auto. Qed.
Lemma wb_now {E} : well_behaved (E:=E) now_.
Proof.
  intros w H. destruct (wb_interfere w H). split_and!; try done.
  intros Hd. cbn. by rewrite (interfere_dropped w Hd).
Qed.
Lemma wb_draw {E} : well_behaved (E:=E) draw.
Proof.
  intros w H. destruct (wb_interfere w H) as [H1 H2]. pose proof (interfere_dropped w) as Hd.
  unfold draw. destruct (interfere w). cbn in *. split_and!; try done. intros Hw. by rewrite (Hd Hw).
Qed.
Lemma wb_memory {E A} (f : Memory -> A * Memory) : well_behaved (E:=E) (memory f).
Proof.
  intros w H. unfold memory. destruct (f (w_mem w)), (w_driver w) eqn:Ed; cbn; (split; [apply rtc_refl|done]).
Qed.
Lemma wb_first_contact {E} key : well_behaved (E:=E) (first_contact key).
Proof. apply wb_memory. Qed.
#[export] Hint Resolve wb_ret wb_fail wb_bind wb_now wb_draw wb_memory wb_first_contact : prog.
Lemma wb_attempt {E F A} (m : Prog E A) : well_behaved m -> well_behaved (E:=F) (attempt_ m).
Proof. intros Hm w H. unfold attempt_. specialize (Hm w H). by destruct (m w). Qed.
Lemma wb_into {E F A} (f : E -> F) (m : Prog E A) : well_behaved m -> well_behaved (into f m).
Proof. intros Hm w H. unfold into. specialize (Hm w H). by destruct (m w). Qed.
Lemma wb_droppable {E F A} (m : Prog E A) : well_behaved m -> well_behaved (E:=F) (droppable m).
Proof.
  intros Hm w H. unfold droppable.
  match goal with |- context [m ?x] => pose proof (Hm x H) as Hx; destruct (m x) end.
  destruct Hx as (H1 & H2 & _). by split_and!.
Qed.
Lemma wb_for_each {E A} (f : A -> Prog E unit) l :
  (forall x, well_behaved (f x)) -> well_behaved (for_each f l).
Proof. intros Hf. induction l; cbn; auto with prog. Qed.
Lemma wb_fold_each {E A S} (f : S -> A -> Prog E S) l s :
  (forall s x, well_behaved (f s x)) -> well_behaved (fold_each f s l).
Proof. intros Hf. revert s; induction l; intros s; cbn; auto with prog. Qed.
Lemma wb_map_each {E A B} (f : A -> Prog E B) l :
  (forall x, well_behaved (f x)) -> well_behaved (map_each f l).
Proof.
  intros Hf. induction l; cbn; [auto with prog|]. apply wb_bind; [done|]. intros y.
  apply wb_bind; [done|]. auto with prog.
Qed.
#[export] Hint Resolve wb_attempt wb_into wb_droppable wb_for_each wb_fold_each wb_map_each : prog.

(** A read changes nothing; a write is a [db_step]. *)
Lemma wb_read {A} (f : InMemoryState -> A) : well_behaved (call (op_read f)).
Proof. apply wb_call. by left. Qed.
Lemma wb_reads {A} (op : Op A) : (forall st, (op st).2 = st) -> well_behaved (call op).
Proof. intros H. apply wb_call. by left. Qed.
Ltac wb_write := apply wb_call; intros st; right; constructor.
Ltac wb_write_at := apply wb_call_at; intros now st; right; constructor.
