(* ===== verification/Transitions.v ===== *)
(** * Run transitions and cancellation

    The commits that move a Run (scarab-engine/src/scheduler.rs,
    [commit_run_transition_after] and its callers) and the cancel path: every
    in-flight attempt a cancel stops is stamped and given its teardown intent
    in the very commit that stops it. *)

From S2P Require Import Prelude Domain Store Outbox Commits Gates Program.

Definition LAUNCH_STEP : string := "launch_step".
Definition RUN_STATUS_CHANGED : string := "run_status_changed".
Definition RUN_FINISHED : string := "run_finished".
Definition CANCEL_RUN : string := "cancel_run".
Definition CANCEL_ATTEMPT : string := "cancel_attempt".
Definition SUPERSEDE_TEARDOWN : string := "supersede_teardown".

Definition launch_key (run : RunId) (step : StepId) (attempt : AttemptId) : string :=
  "launch:" +:+ run +:+ "/" +:+ step +:+ "/" +:+ attempt.

Inductive ExecError : Type :=
| ExLaunch (msg : string) | ExRefused (reason : string) | ExUnavailable | ExOther (msg : string).

Inductive SchedulerError : Type :=
| SeDb (e : DbError)
| SeExec (e : ExecError)
| SeTransition (e : TransitionError)
| SeRunNotFound (run : RunId)
| SeMissingSpec (step : StepId)
| SeBadPayload (what : string).

Inductive RerunError : Type :=
| ReDb (e : DbError)
| ReStepNotFound (step : StepId)
| ReDependencyNotSatisfied (step blocker : StepId)
| ReNotFailed (step : StepId) (status : StepStatus)
| ReNotAManualGate (step : StepId)
| ReGateNotPending (step : StepId) (status : StepStatus)
| ReGateNotReached (step : StepId)
| ReNotARejectableGate (step : StepId)
| ReCreationUnfinished.

(** ** Run transitions *)

Definition run_status_post_key (run : RunId) (generation : N) (to : RunStatus) : string :=
  "status:" +:+ run +:+ ":g" +:+ pretty generation +:+ ":" +:+ run_status_debug to.

Definition run_finished_key (run : RunId) (generation : N) (to : RunStatus) : string :=
  "finished:" +:+ run +:+ ":g" +:+ pretty generation +:+ ":" +:+ run_status_debug to.

(** The generation a transition out of [from] leaves the run in. *)
Definition posted_generation (generation : N) (from : RunStatus) : N :=
  (generation + if run_is_terminal from then 1 else 0)%N.

(** The messages owed to outside observers. *)
Definition transition_posts (run : RunId) (from to : RunStatus) (now : Timestamp) (generation : N)
  : list OutboxMessage :=
  let posted := posted_generation generation from in
  mkMsg 0 run RUN_STATUS_CHANGED (PRunStatus to posted) (run_status_post_key run posted to) now
  :: (if (match to with RunSucceeded | RunFailed => true | _ => false end)
          && negb (bool_decide (from = RunPending))
      then [mkMsg 0 run RUN_FINISHED (PRunStatus to posted) (run_finished_key run posted to) now]
      else []).

Definition commit_run_transition_after (leader : option LeaderTerm) (run : RunId)
    (from to : RunStatus) (now : Timestamp) (notify : bool) (intents : list OutboxMessage)
    (journal : list EventKind) : Prog DbError unit :=
  let events := journal ++ [event run (RunTransitioned from to) now] in
  let* generation := call (op_read (run_reopen_generation run)) in
  let outbox := intents ++ (if notify then transition_posts run from to now generation else []) in
  call (Store.commit_run_transition leader run from to generation events outbox).

Definition commit_run_transition (leader : option LeaderTerm) (run : RunId) (from to : RunStatus)
    (now : Timestamp) (notify : bool) (intents : list OutboxMessage) : Prog DbError unit :=
  commit_run_transition_after leader run from to now notify intents [].

Definition fail_run_creation_as (leader : option LeaderTerm) (run : RunId) (reason : string)
    (now : Timestamp) : Prog DbError unit :=
  commit_run_transition_after leader run RunPending RunFailed now true []
    [event run (RunCreationFailed reason) now].
Definition fail_run_creation (run : RunId) (reason : string) (now : Timestamp) : Prog DbError unit :=
  fail_run_creation_as None run reason now.

(** [Ok(()) | Err(Conflict) => Ok(()), Err(e) => Err(e)]. *)
Definition benign_conflict {E} (f : DbError -> E) (p : Prog DbError unit) : Prog E unit :=
  let* r := attempt_ p in
  match r with
  | Ok _ | Err DbConflict => ret tt
  | Err e => fail (f e)
  end.

Definition reopen (run : RunId) (from to : RunStatus) : Prog RerunError unit :=
  let* now := now_ in
  let notify := run_is_terminal from in
  benign_conflict ReDb (commit_run_transition None run from to now notify []).

Definition reopen_if_runnable (run : RunId) : Prog RerunError unit :=
  let* status := into ReDb (call (run_status_of run)) in
  if decide (status = Some RunSuspended) then
    let* steps := into ReDb (call (steps_of_run run)) in
    if only_waits_outstanding steps then ret tt else reopen run RunSuspended RunRunning
  else ret tt.

(** ** Cancel *)

(** The attempt of a [Running] step whose unit may be alive. *)
Definition in_flight_attempt (s : StepRun) : option Attempt :=
  match last (sr_attempts s) with
  | Some a => if decide (att_outcome a = ORunning) then Some a else None
  | None => None
  end.

Definition cancel_key (run : RunId) (step : StepId) (attempt : AttemptId) : string :=
  "cancel:" +:+ run +:+ ":" +:+ step +:+ "/" +:+ attempt.

Definition cancel_attempt_intent (run : RunId) (step : StepId) (attempt : AttemptId)
    (now : Timestamp) : OutboxMessage :=
  mkMsg 0 run CANCEL_ATTEMPT (PAttemptTeardown [mkTeardown step attempt])
    (cancel_key run step attempt) now.

(** The current Take of a run's shared services. *)
Definition current_service_take (rows : list RunService) : Z :=
  default 1%Z (max_of (map rs_take rows)).

(** [{:016x}]. *)
Definition hex_digit (n : N) : ascii :=
  if (n <? 10)%N then ascii_of_N (48 + n) else ascii_of_N (87 + n).
Fixpoint hex_pad (width : nat) (n : N) : string :=
  match width with
  | O => ""
  | S w => hex_pad w (n / 16)%N +:+ String (hex_digit (n mod 16)) ""
  end.

Definition cancel_services_intent_through (run : RunId) (through_take : Z) (now : Timestamp)
    (nonce : N) : OutboxMessage :=
  mkMsg 0 run CANCEL_RUN (PCancelServices through_take)
    ("cancel:" +:+ run +:+ ":services:" +:+ hex_pad 16 nonce) now.

Definition cancel_services_intent (run : RunId) (now : Timestamp) : Prog DbError OutboxMessage :=
  let* rows := call (run_services run) in
  let* nonce := draw in
  ret (cancel_services_intent_through run (current_service_take rows) now nonce).

Definition cancel_open_gate_attempt (run : RunId) (step : StepRun) : Prog DbError unit :=
  if is_gate step then
    let* attempts := call (attempts_of_step run (sr_step step)) in
    match last attempts with
    | Some a =>
        if decide (att_outcome a = ORunning) then
          let* _ := call (close_running_attempt run (sr_step step) (att_id a) OCancelled None) in ret tt
        else ret tt
    | None => ret tt
    end
  else ret tt.

(** The commit of one cancelled step. *)
Definition commit_cancel (run : RunId) (step : StepRun) (now : Timestamp) : Prog DbError unit :=
  let '(frontier, live) :=
    if decide (sr_status step = StepRunning)
    then (FrontierIs (att_id <$> last (sr_attempts step)), in_flight_attempt step)
    else (FrontierAny, None) in
  let intent := match live with
                | Some a => [cancel_attempt_intent run (sr_step step) (att_id a) now]
                | None => []
                end in
  call (commit_step_transition run (sr_step step) (sr_status step) StepCancelled frontier
          ((fun a => (att_id a, StampOutcome OCancelled)) <$> live)
          [event run (StepTransitioned (sr_step step) (sr_status step) StepCancelled) now]
          intent).

Definition find_step (id : StepId) (steps : list StepRun) : option StepRun :=
  List.find (fun s => String.eqb (sr_step s) id) steps.

(** [for _ in 0..8]: [tries] passes are left. *)
Fixpoint cancel_step_tries (tries : nat) (run : RunId) (step : StepRun) (now : Timestamp)
  : Prog DbError unit :=
  match tries with
  | O => ret tt
  | S tries' =>
      if step_is_terminal (sr_status step) then ret tt
      else
        let* r := attempt_ (commit_cancel run step now) in
        match r with
        | Ok _ => cancel_open_gate_attempt run step
        | Err DbConflict =>
            let* live := call (steps_of_run run) in
            match find_step (sr_step step) live with
            | Some s => cancel_step_tries tries' run s now
            | None => ret tt
            end
        | Err e => fail e
        end
  end.
Definition cancel_step (run : RunId) (step : StepRun) (now : Timestamp) : Prog DbError unit :=
  cancel_step_tries 8 run step now.

Definition cancel_run_request (run : RunId) (by_ : option string) : Prog SchedulerError bool :=
  let* status := into SeDb (call (run_status_of run)) in
  match status with
  | None => ret false
  | Some current =>
      if run_is_terminal current then ret false
      else
        let* now := now_ in
        into SeDb (call (append_event (event run (RunCancelRequested by_) now))) ;;;
        let* steps := into SeDb (call (steps_of_run run)) in
        into SeDb (for_each (fun s => cancel_step run s now) steps) ;;;
        let* intent := into SeDb (cancel_services_intent run now) in
        benign_conflict SeDb (commit_run_transition None run current RunCancelled now true [intent]) ;;;
        let* conc := into SeDb (call (run_concurrency run)) in
        match conc with
        | Some (group, _) => into SeDb (call (release_slot group run)) ;;; ret true
        | None => ret true
        end
  end.

(** * Theorems *)

(** ** Programs make store calls only *)

Lemma wb_steps_of_run run : well_behaved (call (steps_of_run run)).
Proof. apply wb_reads. intros st. unfold steps_of_run. by case_decide. Qed.
#[export] Hint Resolve wb_steps_of_run : prog.
#[export] Hint Extern 1 (well_behaved (call (op_read _))) => apply wb_read : prog.
#[export] Hint Extern 1 (well_behaved (call (run_status_of _))) => apply wb_read : prog.
#[export] Hint Extern 1 (well_behaved (call (run_services _))) => apply wb_read : prog.
#[export] Hint Extern 1 (well_behaved (call (attempts_of_step _ _))) => apply wb_read : prog.
#[export] Hint Extern 1 (well_behaved (call (run_concurrency _))) => apply wb_read : prog.
#[export] Hint Extern 1 (well_behaved (call (events_of _))) => apply wb_read : prog.
#[export] Hint Extern 2 (well_behaved (call _)) => wb_write : prog.
#[export] Hint Extern 2 (well_behaved (call_at _)) => wb_write_at : prog.
(** Case splits of a program. *)
#[export] Hint Extern 3 (well_behaved (match ?x with _ => _ end)) => destruct x : prog.

Lemma wb_commit_run_transition_after l run f t now n i j :
  well_behaved (commit_run_transition_after l run f t now n i j).
Proof. unfold commit_run_transition_after. auto with prog. Qed.
#[export] Hint Resolve wb_commit_run_transition_after : prog.
Lemma wb_commit_run_transition l run f t now n i :
  well_behaved (commit_run_transition l run f t now n i).
Proof. apply wb_commit_run_transition_after. Qed.
#[export] Hint Resolve wb_commit_run_transition : prog.
Lemma wb_fail_run_creation run reason now : well_behaved (fail_run_creation run reason now).
Proof. apply wb_commit_run_transition_after. Qed.
Lemma wb_benign {E} (f : DbError -> E) p : well_behaved p -> well_behaved (benign_conflict f p).
Proof. intros H. unfold benign_conflict. auto 8 with prog. Qed.
#[export] Hint Resolve wb_benign wb_fail_run_creation : prog.
Lemma wb_reopen run f t : well_behaved (reopen run f t).
Proof. unfold reopen. auto with prog. Qed.
#[export] Hint Resolve wb_reopen : prog.
Lemma wb_reopen_if_runnable run : well_behaved (reopen_if_runnable run).
Proof. unfold reopen_if_runnable. auto 10 with prog. Qed.
Lemma wb_cancel_services_intent run now : well_behaved (cancel_services_intent run now).
Proof. unfold cancel_services_intent. auto 10 with prog. Qed.
Lemma wb_cancel_open_gate_attempt run s : well_behaved (cancel_open_gate_attempt run s).
Proof. unfold cancel_open_gate_attempt. auto 10 with prog. Qed.
Lemma wb_commit_cancel run s now : well_behaved (commit_cancel run s now).
Proof. unfold commit_cancel. auto 10 with prog. Qed.
#[export] Hint Resolve wb_reopen_if_runnable wb_cancel_services_intent wb_cancel_open_gate_attempt
  wb_commit_cancel : prog.
Lemma wb_cancel_step run s now : well_behaved (cancel_step run s now).
Proof.
  unfold cancel_step. generalize 8. intros n. revert s. induction n as [|n IH]; intros s; cbn;
    auto 12 with prog.
Qed.
#[export] Hint Resolve wb_cancel_step : prog.
Lemma wb_cancel_run_request run by_ : well_behaved (cancel_run_request run by_).
Proof. unfold cancel_run_request. auto 20 with prog. Qed.
#[export] Hint Resolve wb_cancel_run_request : prog.

(** ** Posts of a run transition *)

Lemma run_status_debug_inj a b : run_status_debug a = run_status_debug b -> a = b.
Proof. by destruct a, b. Qed.

Lemma run_status_post_key_inj run g g' to to' :
  run_status_post_key run g to = run_status_post_key run g' to' -> g = g' /\ to = to'.
Proof.
  unfold run_status_post_key. intros E. do 2 apply (inj _) in E.
  rewrite !string_app_cons, !string_app_nil_l in E. injection E as E.
  apply split_at_char in E as [E1 E2];
    [|eapply parse_digits_no_colon, parse_digits_pretty..].
  split; [|by apply run_status_debug_inj].
  pose proof (parse_digits_pretty g) as P. rewrite E1, parse_digits_pretty in P. congruence.
Qed.

(** A call either ran on the store it found, or was dropped. *)
Lemma call_inv {A} (op : Op A) w r w' :
  call op w = (r, w') ->
  let w1 := (interfere w).1 in
  (w_driver w1 = Dropped /\ r = Err DbUnavailable /\ w' = w1)
  \/ (w_driver w1 <> Dropped /\ r = (op (w_st w1)).1
      /\ w' = mkWorld (op (w_st w1)).2 (w_now w1) (w_env w1) (w_driver w1) (w_mem w1)).
Proof.
  unfold call, call_at. cbv zeta. destruct (w_driver (interfere w).1) eqn:E.
  1,2: destruct (op (w_st (interfere w).1)) as [x st]; intros H; injection H as <- <-; by right.
  intros H. injection H as <- <-. by left.
Qed.

Lemma call_ok {A} (op : Op A) w a w' :
  call op w = (Ok a, w') ->
  let w1 := (interfere w).1 in
  (op (w_st w1)).1 = Ok a /\ w' = mkWorld (op (w_st w1)).2 (w_now w1) (w_env w1) (w_driver w1) (w_mem w1).
Proof. intros H. apply call_inv in H as [(_ & ? & _)|(_ & H1 & H2)]; done. Qed.

Lemma commit_run_gen leader run from to g es ms st :
  (Store.commit_run_transition leader run from to g es ms st).1 = Ok tt ->
  let st' := (Store.commit_run_transition leader run from to g es ms st).2 in
  st_runs st' !! run = Some to
  /\ run_reopen_generation run st' = posted_generation (run_reopen_generation run st) from
  /\ run_reopen_generation run st = g
  /\ st_events st' = st_events st ++ es
  /\ st_outbox st' = st_outbox (enqueue_all ms st).
Proof.
  intros Hok. destruct (commit_run_effects _ _ _ _ _ _ _ _ Hok) as (_ & Hg & _ & ->).
  match goal with |- context [enqueue_all ms ?x] => set (s1 := x) end. cbv zeta.
  destruct (enqueue_all_fields ms s1) as (E1 & _ & E3 & E4 & _).
  unfold run_reopen_generation at 1. rewrite E1, E3, E4. unfold s1, posted_generation.
  unfold bump_reopen_generation_locked, run_reopen_generation in *.
  destruct (run_is_terminal from); cbn; rewrite ?lookup_insert_eq; split_and!;
    try done; try lia; by apply enqueue_all_outbox.
Qed.

(** The messages a landed transition owes in generation [g]. *)
Definition owed (run : RunId) (from to : RunStatus) (now : Timestamp) (notify : bool) (g : N) : list OutboxMessage :=
  (if notify then [mkMsg 0 run RUN_STATUS_CHANGED (PRunStatus to g) (run_status_post_key run g to) now] else [])
  ++ (if notify && negb (bool_decide (from = RunPending)) && (bool_decide (to = RunSucceeded) || bool_decide (to = RunFailed))
      then [mkMsg 0 run RUN_FINISHED (PRunStatus to g) (run_finished_key run g to) now] else []).
Lemma posts_are_owed run from to now (notify : bool) g :
  (if notify then transition_posts run from to now g else []) = owed run from to now notify (posted_generation g from).
Proof. unfold owed, transition_posts. by destruct notify, from, to. Qed.
Lemma owed_keys run from to now notify g m m' : m ∈ owed run from to now notify g -> m' ∈ owed run from to now notify g -> msg_key m = msg_key m' -> m = m'.
Proof.
  assert (run_status_post_key run g to <> run_finished_key run g to) as Hk by done.
  unfold owed. destruct notify; cbn [andb app]; [|by intros ?%elem_of_nil]. rewrite !elem_of_cons.
  destruct (_ && _); rewrite ?list_elem_of_singleton, ?elem_of_nil; naive_solver.
Qed.

(** C36: The world hears of every state a Run comes to, in each of its lives.
    Whatever other clients do between its two calls, a transition that lands
    writes, onto the store its commit finds, its journal, then its
    [RunTransitioned], and in that same commit enqueues the intents it was
    given and, when it notifies, the status post naming the status it moved to
    and the reopen generation the store is left in (a reopening opens, and
    names, the next one), and for a Run that ran and ended its finish message.
    A post enqueued is a new undelivered row carrying exactly that message,
    unless the outbox already has its key: then the state was posted before in
    this very life of the Run ([run_status_post_key_inj]), and nothing is
    written. *)
Theorem run_transition_notifies leader run from to now notify intents journal w w' :
  wf (w_st w) -> unarmed (w_st w) -> Forall calls_only (w_env w) ->
  commit_run_transition_after leader run from to now notify intents journal w = (Ok tt, w') ->
  let before := w_st (interfere (interfere w).1).1 in
  let g := run_reopen_generation run (w_st w') in
  let ms := intents ++ owed run from to now notify g in
  rtc db_step (w_st w) before
  /\ st_runs (w_st w') !! run = Some to
  /\ g = (run_reopen_generation run before + if run_is_terminal from then 1 else 0)%N
  /\ st_events (w_st w') = st_events before ++ journal ++ [event run (RunTransitioned from to) now]
  /\ st_outbox (w_st w') = st_outbox (enqueue_all ms before)
  /\ (forall m, m ∈ ms -> (forall m', m' ∈ ms -> msg_key m' = msg_key m -> m' = m) -> posts m before (w_st w'))
  /\ (forall m, m ∈ owed run from to now notify g -> (forall i, i ∈ intents -> msg_key i <> msg_key m) -> posts m before (w_st w'))
  /\ (forall g2 to2, run_status_post_key run g2 to2 = run_status_post_key run g to -> g2 = g /\ to2 = to).
Proof.
  intros W U HE. unfold commit_run_transition_after, bind.
  destruct (call (op_read (run_reopen_generation run)) w) as [[g|e] w1'] eqn:Eg; [|done].
  apply call_ok in Eg as [Eg ->]. cbn [op_read fst snd] in *. injection Eg as Eg.
  destruct (wb_interfere w HE) as [S1 HE1]. set (w1 := (interfere w).1) in *.
  assert (mkWorld (w_st w1) (w_now w1) (w_env w1) (w_driver w1) (w_mem w1) = w1) as -> by by destruct w1.
  destruct (wb_interfere w1 HE1) as [S2 _]. set (w3 := (interfere w1).1) in *. rewrite posts_are_owed.
  set (es := journal ++ _). intros Heq. apply call_ok in Heq as [Hok ->]. fold w3 in Hok |- *. cbv zeta. cbn [w_st].
  destruct (commit_run_gen _ _ _ _ _ _ _ _ Hok) as (R1 & R2 & R3 & R4 & R5).
  set (st' := (Store.commit_run_transition _ _ _ _ _ _ _ _).2) in *.
  assert (posted_generation g from = run_reopen_generation run st') as Hg by (by rewrite R2, R3).
  rewrite Hg in R5. set (ms := intents ++ owed run from to now notify (run_reopen_generation run st')) in *.
  assert (forall m, m ∈ ms -> (forall m', m' ∈ ms -> msg_key m' = msg_key m -> m' = m) -> posts m (w_st w3) st') as HP.
  { intros m Hm Hu. destruct (enqueue_all_posts ms (w_st w3) m Hm Hu) as [P1 P2]. unfold posts. by rewrite R5. }
  split_and!; try done.
  - by etrans.
  - intros m Hm Hi. apply HP; [apply elem_of_app; by right|]. intros m' [Hm'|Hm']%elem_of_app E; [destruct (Hi m' Hm' E)|exact (owed_keys _ _ _ _ _ _ _ _ Hm' Hm E)].
  - intros g2 to2 E. by apply (run_status_post_key_inj run).
Qed.

(** A Run reopened in its first rerun: the post of the new life is written. *)
Lemma run_transition_notifies_witness :
  let st := set_runs (<["r" := RunSucceeded]> ∅) state_empty in
  let w' := (commit_run_transition_after None "r" RunSucceeded RunRunning 7 true [] [] (mkWorld st 7 [] Kept memory_empty)).2 in
  let m := mkMsg 0 "r" RUN_STATUS_CHANGED (PRunStatus RunRunning 1) "status:r:g1:Running" 7 in
  exists e, fresh_row m e /\ e ∈ st_outbox (w_st w').
Proof.
  cbn zeta.
  set (w := mkWorld (set_runs (<["r" := RunSucceeded]> ∅) state_empty) 7 [] Kept memory_empty).
  destruct (run_transition_notifies None "r" RunSucceeded RunRunning 7 true [] [] w
    (commit_run_transition_after None "r" RunSucceeded RunRunning 7 true [] [] w).2) as (_ & _ & _ & _ & _ & _ & H & _).
  - eapply wf_ext; [| |apply wf_empty]; reflexivity.
  - split; reflexivity.
  - constructor.
  - vm_compute. reflexivity.
  - destruct (H (mkMsg 0 "r" RUN_STATUS_CHANGED (PRunStatus RunRunning 1) "status:r:g1:Running" 7)) as [Hnew _].
    + vm_compute. left.
    + intros i Hi. by apply elem_of_nil in Hi.
    + destruct Hnew as (e & He & Hrow); [intros (x & Hx & _); by apply elem_of_nil in Hx|].
      exists e. split; [exact He|]. apply (Hrow e); [destruct He as [id ->]; reflexivity|reflexivity].
Defined.
(** Suspended, resumed and suspended again in one life: the second suspension
    is in the log, and posts nothing. *)
Example second_suspension_posts_nothing :
  let go from to := commit_run_transition None "r" from to 7 true [] in
  let w := mkWorld (set_runs (<["r" := RunRunning]> ∅) state_empty) 7 [] Kept memory_empty in
  let once := (go RunRunning RunSuspended w).2 in
  let twice := (go RunRunning RunSuspended (go RunSuspended RunRunning once).2).2 in
  length (st_events (w_st once)) = 1%nat /\ length (st_events (w_st twice)) = 3%nat
  /\ map key_of (st_outbox (w_st once)) = ["status:r:g0:Suspended"]
  /\ map key_of (st_outbox (w_st twice)) = ["status:r:g0:Suspended"; "status:r:g0:Running"].
Proof. vm_compute. split_and!; reflexivity. Qed.
