(* ===== verification/StepAdmit.v ===== *)
(** * Admission of a Step's launch (scarab-server/src/secret_executor.rs, scarab-policy/src/step_admit.rs)

    Before any credential is used: the Environment must still exist and admit
    the Project, its approval gates must still cover the Step, and no
    [step.admit] Policy may deny it. *)

From S2P Require Import Prelude Text Domain Meta Gates Transitions Globs Values Protection Cel Params Scopes Render Ir Approvals Schema RunCreate Policies PolicyStore EnvironmentRules.

Record StepAdmission := mkAdmission { ad_before_approval : bool }.
Definition default_admission : StepAdmission := mkAdmission false.

(** What one admission reads, each read failing with the port's message. *)
Record LaunchReads := mkLaunchReads {
  rd_run_deploy_context : Result string (option DeployContext);
  rd_run_tenant : Result string (option (string * string));
  rd_deploy_governance : string -> string -> string -> Result string (option DeployGovernance);
  rd_run_ir : Result string (option Json);
  rd_events : Result string (list EventKind);
  rd_policy_thread : option string;
  rd_blocking : Result string unit;
  rd_uuid : string;
}.
Definition show_store_error (e : PolicyStoreError) : string :=
  match e with
  | PsNotFound => "no such policy"
  | PsConflict => "the policy changed since it was read"
  | PsNameTaken n => "a policy named `" +:+ n +:+ "` already exists here"
  | PsInvalid m => "invalid: " +:+ m
  | PsStore m => "policy store: " +:+ m
  end.
Definition Governed : Type := DeployContext * EffectiveProtection.

(** ** The input *)

Record UpstreamApproval := mkUpstreamApproval {
  ua_gate : string;
  ua_released_at : option Z;
  ua_approvers : list string;
  ua_required : option N;
}.

Section Admission.
Context {P : PolicyPorts} {R : Rfc3339}.
(** chrono's range of times, and serde's reader of a stored Pipeline. *)
Context (in_time_range : Z -> bool) (decode_ir : Json -> Result string PipelineIr).

Definition time_of (ms : Z) : Result string Z :=
  if in_time_range ms then Ok ms else Err ("the time " +:+ pretty ms +:+ " is out of range").
Definition upstream_approval (g : UpstreamGateFacts) : Result string UpstreamApproval :=
  let '(approvers, required) := default ([], None) (uf_met g) in
  released ← match uf_released_at g with None => Ok None | Some ms => t ← time_of ms; Ok (Some t) end;
  if (MAX_APPROVERS <? N.of_nat (length approvers))%N then Err ("gate `" +:+ uf_gate g +:+ "` lists too many approvers")
  else Ok (mkUpstreamApproval (uf_gate g) released approvers required).

Definition num_json (n : N) : Json := JInt (Z.of_N n).
Definition upstream_approval_json (a : UpstreamApproval) : Json :=
  JObj [("gate", JStr (ua_gate a)); ("released_at", match ua_released_at a with Some t => JStr (show_rfc3339 t) | None => JNull end);
        ("approvers", strs_json (ua_approvers a)); ("required", match ua_required a with Some n => num_json n | None => JNull end)].
Definition environment_now_json (ctx : DeployContext) (p : EffectiveProtection) : Json :=
  JObj [("has_approvers", JBool (negb (is_nil (ep_approvers p)))); ("ref_allowed", JBool (ref_allowed p (dc_git_ref ctx)));
        ("max_approval_age_s", num_json (ag_max_approval_age_s (ep_approval_gate p)))].
Definition admitted_step_json (ir : PipelineIr) (s : StepSpec) (secrets : list string) (origin : list Origin) : Json :=
  JObj [("id", JStr (st_id s)); ("image", JStr (st_image s)); ("deploy", JBool (st_deploy s || ir_deploy ir));
        ("secrets", strs_json secrets); ("forge_token", opt_json (forge_token_as_str <$> st_forge_token s));
        ("uses_environment_authority", JBool (uses_environment_authority ir s)); ("origin", JArr (map origin_json origin))].

Definition step_admit_input (tenant : string * string) (governed : option Governed) (step : StepRun)
    (spec : option (PipelineIr * StepSpec)) (gates : list UpstreamGateFacts) (now_ms : Z) : Result string Json :=
  match spec with
  | None => Err ("step `" +:+ sr_step step +:+ "` is not in the Run's stored pipeline, so a step.admit Policy cannot check it")
  | Some (ir, s) =>
      let what := "Step `" +:+ st_id s +:+ "`" in
      approvals ← traverse upstream_approval gates;
      secrets ← capped MAX_SECRETS (map sr_name (st_secrets s)) what "secrets";
      origin ← origin_of (st_origin s) what;
      approvals ← (if (MAX_GATES <? N.of_nat (length approvals))%N then Err "too many approval gates upstream" else Ok approvals);
      now ← time_of now_ms;
      let value :=
        JObj [("org", named_json tenant.1); ("project", named_json tenant.2);
              ("step", admitted_step_json ir s secrets origin);
              ("attempt", num_json (N.of_nat (length (sr_attempts step))));
              ("run", JObj [("id", JStr (sr_run step)); ("ref", opt_json ((fun g => dc_git_ref g.1) <$> governed));
                            ("environment", opt_json ((fun g => dc_environment g.1) <$> governed))]);
              ("environment", match governed with Some (ctx, p) => environment_now_json ctx p | None => JNull end);
              ("approvals", JArr (map upstream_approval_json approvals)); ("time", JStr (show_rfc3339 now))] in
      match check_string_lengths step_admit_schema value with
      | Some (Err e) => Err ("`" +:+ tl_path e +:+ "` is " +:+ pretty (tl_len e) +:+ " bytes, more than the " +:+ pretty (tl_max e)
                             +:+ " a step.admit Policy can check")
      | _ => Ok value
      end
  end.

(** ** The decision *)

Definition stored_pipeline (reads : LaunchReads) : Result ExecError (option PipelineIr) :=
  match rd_run_ir reads with
  | Err e => Err (ExOther e)
  | Ok None => Ok None
  | Ok (Some ir) =>
      match decode_ir ir with
      | Ok ir => Ok (Some ir)
      | Err e => Err (ExRefused ("the Run's stored pipeline cannot be read (" +:+ e +:+ "), so whether this step may use its "
                                 +:+ "Environment's authority cannot be checked"))
      end
  end.
Definition gate_facts (events : list EventKind) (g : StepSpec) : UpstreamGateFacts :=
  mkUpstreamFacts (st_id g) (gate_released_at events (st_id g))
    ((fun m => (ea_approvers m, ea_required m)) <$> environment_approval_met events (st_id g)).
Definition upstream_facts (reads : LaunchReads) (governed : bool) (ir : option PipelineIr) (step : string) : Result ExecError (list UpstreamGateFacts) :=
  match (if governed then ir else None) with
  | None => Ok []
  | Some ir =>
      let gates := upstream_approval_gates ir step in
      events ← (if is_nil gates then Ok [] else map_err ExOther (rd_events reads));
      Ok (map (gate_facts events) gates)
  end.
Definition spec_of (ir : option PipelineIr) (step : string) : option (PipelineIr * StepSpec) :=
  ir ← ir; pair ir <$> List.find (fun s => String.eqb (st_id s) step) (ir_steps ir).
Definition launch_check (governed : option Governed) (step : string) (spec : option (PipelineIr * StepSpec))
    (gates : list UpstreamGateFacts) (now_ms : Z) : LaunchCheck :=
  match governed with
  | Some (ctx, p) =>
      launch_recheck (mkLaunchFacts (dc_environment ctx) (dc_git_ref ctx) p step
                        ((fun x => uses_environment_authority x.1 x.2) <$> spec) gates now_ms)
  | None => mkLaunchCheck None None false
  end.

(** The policy store as the decision uses it. *)
Context {S : Type} (effective_policies : string -> option string -> Checkpoint -> S -> Result PolicyStoreError (list StoredPolicy) * S)
  (record : DecisionRecord -> S -> Result PolicyStoreError string * S).

Definition store_failed (e : PolicyStoreError) : ExecError := ExOther ("policy store: " +:+ show_store_error e).
Definition step_decision (reads : LaunchReads) (tenant : string * string) (governed : option Governed) (step : StepRun)
    (spec : option (PipelineIr * StepSpec)) (gates : list UpstreamGateFacts) (stored : list StoredPolicy)
    (builtins : list PolicyResult) (now_ms : Z) : PolicyDecision :=
  evaluate_with_builtins (rd_policy_thread reads) StepAdmit STEP_ADMIT_SCHEMA_VERSION
    (step_admit_input tenant governed step spec gates now_ms) None
    (mkMatchContext tenant.2 ((fun g => dc_environment g.1) <$> governed) TkManual) stored builtins.
Definition decision_record (reads : LaunchReads) (tenant : string * string) (step : StepRun) (d : PolicyDecision) (now_ms : Z) : DecisionRecord :=
  mkDecisionRecord (rd_uuid reads) tenant.1 (Some tenant.2) (Some (sr_run step)) (Some (sr_step step))
    (Some (N.of_nat (length (sr_attempts step)) mod 2 ^ 32)%N) d now_ms.

Definition conclude (check : LaunchCheck) (denied : option (list string)) : Result ExecError StepAdmission :=
  match lc_refusal check, denied with
  | Some r, _ => Err (ExRefused r)
  | None, Some messages => Err (ExRefused (join "; " messages))
  | None, None => Ok (mkAdmission (lc_before_approval check))
  end.
Definition step_admit (reads : LaunchReads) (wired : bool) (tenant : string * string) (governed : option Governed)
    (step : StepRun) (now_ms : Z) (st : S) : Result ExecError StepAdmission * S :=
  let '(read, st) := if wired then effective_policies tenant.1 (Some tenant.2) StepAdmit st else (Ok [], st) in
  match read with
  | Err e => (Err (store_failed e), st)
  | Ok stored =>
      let has_approvers := match governed with Some (_, p) => negb (is_nil (ep_approvers p)) | None => false end in
      if negb has_approvers && is_nil stored then (Ok default_admission, st)
      else
        match (ir ← stored_pipeline reads; gates ← upstream_facts reads (is_some governed) ir (sr_step step); Ok (ir, gates)) with
        | Err e => (Err e, st)
        | Ok (ir, gates) =>
            let spec := spec_of ir (sr_step step) in
            let check := launch_check governed (sr_step step) spec gates now_ms in
            if negb wired || (negb (is_some (lc_result check)) && is_nil stored) then (conclude check None, st)
            else
              match rd_blocking reads with
              | Err e => (Err (ExOther e), st)
              | Ok _ =>
                  let d := step_decision reads tenant governed step spec gates stored
                             (match lc_result check with Some r => [r] | None => [] end) now_ms in
                  match record (decision_record reads tenant step d now_ms) st with
                  | (Ok _, st) | (Err PsConflict, st) => (conclude check (if is_denied d then Some (attributed_messages d) else None), st)
                  | (Err e, st) => (Err (store_failed e), st)
                  end
              end
        end
  end.

Definition ensure_deploy_still_admitted (reads : LaunchReads) (wired : bool) (step : StepRun) (now_ms : Z) (st : S)
  : Result ExecError StepAdmission * S :=
  match rd_run_deploy_context reads with
  | Err e => (Err (ExOther e), st)
  | Ok None =>
      if negb wired then (Ok default_admission, st)
      else match rd_run_tenant reads with
           | Err e => (Err (ExOther e), st)
           | Ok None => (Ok default_admission, st)
           | Ok (Some tenant) => step_admit reads true tenant None step now_ms st
           end
  | Ok (Some ctx) =>
      match rd_deploy_governance reads (dc_org ctx) (dc_project ctx) (dc_environment ctx) with
      | Err e => (Err (ExOther ("environment governance store: " +:+ e)), st)
      | Ok (Some g) =>
          if dg_eligible g then step_admit reads wired (dc_org ctx, dc_project ctx) (Some (ctx, governance_protection g)) step now_ms st
          else (Err (ExRefused ("project `" +:+ dc_project ctx +:+ "` is no longer eligible to deploy to environment `" +:+ dc_environment ctx
                                +:+ "` in org `" +:+ dc_org ctx +:+ "`; its credentials are not released (ADR-0071)")), st)
      | Ok None => (Err (ExRefused ("environment `" +:+ dc_environment ctx +:+ "` no longer exists in org `" +:+ dc_org ctx
                                    +:+ "`; its credentials are not released (ADR-0071)")), st)
      end
  end.

(** ** What an admission means *)

Lemma plugin_gates_unread thread c version input gates ctx stored builtins :
  c <> RunCreate ->
  evaluate_with_builtins thread c version input gates ctx stored builtins
  = evaluate_with_builtins thread c version input (Some []) ctx stored builtins.
Proof. intros Hc. unfold evaluate_with_builtins. by rewrite bool_decide_eq_false_2. Qed.

Lemma concluded check denied a : conclude check denied = Ok a -> lc_refusal check = None /\ denied = None /\ a = mkAdmission (lc_before_approval check).
Proof. unfold conclude. destruct (lc_refusal check), denied; try done. by intros [= <-]. Qed.

(** The decision of an admitted launch: nothing refused it and no stored
    Policy objected. *)
Record launch_allowed (reads : LaunchReads) (tenant : string * string) (governed : option Governed) (step : StepRun)
    (now_ms : Z) (stored : list StoredPolicy) (a : StepAdmission) (ir : option PipelineIr) (gates : list UpstreamGateFacts) : Prop := {
  la_pipeline : stored_pipeline reads = Ok ir;
  la_gates : upstream_facts reads (is_some governed) ir (sr_step step) = Ok gates;
  la_check : lc_refusal (launch_check governed (sr_step step) (spec_of ir (sr_step step)) gates now_ms) = None;
  la_subject : ad_before_approval a = lc_before_approval (launch_check governed (sr_step step) (spec_of ir (sr_step step)) gates now_ms);
  la_policies : forall p,
    ~ objects (rd_policy_thread reads) StepAdmit STEP_ADMIT_SCHEMA_VERSION
        (step_admit_input tenant governed step (spec_of ir (sr_step step)) gates now_ms)
        (mkMatchContext tenant.2 ((fun g => dc_environment g.1) <$> governed) TkManual) stored p;
}.
Lemma step_admit_ok reads (wired : bool) tenant governed step now_ms st a st' :
  step_admit reads wired tenant governed step now_ms st = (Ok a, st') ->
  let '(read, _) := if wired then effective_policies tenant.1 (Some tenant.2) StepAdmit st else (Ok [], st) in
  exists stored, read = Ok stored /\
    ((stored = [] /\ (forall ctx p, governed = Some (ctx, p) -> ep_approvers p = []) /\ a = default_admission)
     \/ exists ir gates, launch_allowed reads tenant governed step now_ms stored a ir gates).
Proof.
  assert (forall tenant' input ctx stored p thread, stored = [] -> ~ objects thread StepAdmit tenant' input ctx stored p) as Hnone.
  { intros ????? ? -> [Hp _]. by apply not_elem_of_nil in Hp. }
  unfold step_admit.
  assert (forall r st1, (if wired then effective_policies tenant.1 (Some tenant.2) StepAdmit st else (Ok [], st)) = (r, st1) ->
            wired = false -> r = Ok []) as Hunwired by (by intros r st1 H ->; injection H).
  destruct (if wired then _ else _) as [[stored|e] st1]; [|done].
  specialize (Hunwired _ _ eq_refl). destruct (negb _ && is_nil stored) eqn:En.
  { intros [= <- <-]. exists stored. split; [done|left]. apply andb_true_iff in En as [Ha Hs].
    split_and!; [by destruct stored| |done]. intros ctx p ->. destruct (ep_approvers p); [done|discriminate Ha]. }
  destruct (stored_pipeline reads) as [ir|] eqn:Ei; [|done]. cbn [mbind result_bind].
  destruct (upstream_facts reads (is_some governed) ir (sr_step step)) as [gates|] eqn:Eg; [|done]. cbn [mbind result_bind].
  intros H. exists stored. split; [done|right]. exists ir, gates. revert H. destruct (negb wired || _) eqn:Eskip.
  - intros [= H%concluded <-]. destruct H as (Hr & _ & ->). split; try done. intros p. apply Hnone.
    apply orb_true_iff in Eskip as [Hw|[_ Hs]%andb_true_iff]; [|by destruct stored].
    destruct wired; [done|]. by injection (Hunwired eq_refl).
  - destruct (rd_blocking reads); [|done]. destruct (record _ st1) as [[u|[]] st2]; try done;
      (intros [= H%concluded <-]; destruct H as (Hr & Hd & ->)); (split; [done..|]); intros p Ho;
      (destruct (is_denied _) eqn:Ed; [done|]); apply not_true_iff_false in Ed; apply Ed; unfold step_decision;
      rewrite plugin_gates_unread by done; apply decision_denies; right; left; by exists p.
Qed.

(** The gate facts of an admitted launch are read from the Run's log. *)
Lemma upstream_facts_ok reads governed ir step gates :
  upstream_facts reads governed ir step = Ok gates ->
  forall f, f ∈ gates -> exists i events g, ir = Some i /\ rd_events reads = Ok events /\ g ∈ upstream_approval_gates i step /\ f = gate_facts events g.
Proof.
  unfold upstream_facts. destruct (if governed then ir else None) as [i|] eqn:Ei; [|intros [= <-] f Hf; by apply not_elem_of_nil in Hf].
  assert (ir = Some i) as -> by (by destruct governed). destruct (is_nil _) eqn:En.
  - destruct (upstream_approval_gates i step); [|done]. cbn. intros [= <-] f Hf. by apply not_elem_of_nil in Hf.
  - destruct (rd_events reads) as [events|]; [|done]. cbn. intros [= <-] f (g & -> & Hg)%list_elem_of_fmap. by exists i, events, g.
Qed.
End Admission.

Lemma find_map_last_some {A B} (f : A -> option B) l b : find_map_last f l = Some b -> exists x, x ∈ l /\ f x = Some b.
Proof.
  induction l as [|x l IH]; [done|]. cbn. destruct (find_map_last f l).
  - intros [= ->]. destruct (IH eq_refl) as (y & ? & ?). exists y. split; [by right|done].
  - intros H. exists x. split; [by left|done].
Qed.
Definition releases (gate : string) (k : EventPayload) : bool :=
  match k with GateResolved s _ true _ _ _ | GateReleased s => String.eqb s gate | _ => false end.
Lemma released_in_log events gate t :
  gate_released_at events gate = Some t -> exists e, e ∈ events /\ ev_at e = t /\ releases gate (ev_kind e) = true.
Proof.
  intros (e & He & H)%find_map_last_some. exists e. split; [done|]. unfold releases.
  destruct (ev_kind e); try discriminate H;
    repeat case_match; try discriminate H; by injection H as <-.
Qed.

(** ** Theorem *)

(** C4: no Step launches on the Environment's authority without a current
    approval. An admitted launch of a Run under a deploy context is into an
    Environment that exists and still admits the Project. If the Environment
    has approvers and the Step uses its authority, the Run's ref is still
    allowed and the Run's log holds the release of a manual gate before the
    Step, no longer ago than the maximum approval age, that met the approver
    set the Environment has now (or recorded none). And no enforced Policy in
    force at [step.admit] objects to the launch. *)
Theorem authority_launch_approved {P : PolicyPorts} {R : Rfc3339} in_time_range decode_ir {S : Type} effective_policies record
    reads (wired : bool) step now_ms (st st' : S) a ctx :
  ensure_deploy_still_admitted in_time_range decode_ir effective_policies record reads wired step now_ms st = (Ok a, st') ->
  rd_run_deploy_context reads = Ok (Some ctx) ->
  exists g, rd_deploy_governance reads (dc_org ctx) (dc_project ctx) (dc_environment ctx) = Ok (Some g) /\ dg_eligible g = true /\
    let p := governance_protection g in
    (forall j ir s, ep_approvers p <> [] -> rd_run_ir reads = Ok (Some j) -> decode_ir j = Ok ir -> well_formed ir ->
       List.find (fun s => String.eqb (st_id s) (sr_step step)) (ir_steps ir) = Some s -> uses_environment_authority ir s = true ->
       ad_before_approval a = false /\ ref_allowed p (dc_git_ref ctx) = true /\
       exists gate events e, rd_events reads = Ok events /\
         gate ∈ ir_steps ir /\ is_manual_gate gate = true /\ before (ir_steps ir) (st_id gate) (sr_step step) /\
         e ∈ events /\ releases (st_id gate) (ev_kind e) = true /\ (sat_sub now_ms (ev_at e) <= max_age_ms p)%Z /\
         (environment_approval_met events (st_id gate) = None
          \/ exists m, environment_approval_met events (st_id gate) = Some m /\ (ea_approvers m, ea_required m) = approver_set p)) /\
    (forall stored st1 pol, wired = true -> effective_policies (dc_org ctx) (Some (dc_project ctx)) StepAdmit st = (Ok stored, st1) -> pol ∈ stored ->
       exists ir gates, stored_pipeline decode_ir reads = Ok ir /\ upstream_facts reads true ir (sr_step step) = Ok gates /\
         ~ objects (rd_policy_thread reads) StepAdmit STEP_ADMIT_SCHEMA_VERSION
             (step_admit_input in_time_range (dc_org ctx, dc_project ctx) (Some (ctx, p)) step (spec_of ir (sr_step step)) gates now_ms)
             (mkMatchContext (dc_project ctx) (Some (dc_environment ctx)) TkManual) stored pol).
Proof.
  unfold ensure_deploy_still_admitted. intros H Hc. rewrite Hc in H.
  destruct (rd_deploy_governance reads _ _ _) as [[g|]|]; [|done..]. exists g. split; [done|].
  destruct (dg_eligible g); [|done]. split; [done|]. apply step_admit_ok in H. cbn [fst snd] in H. cbv zeta.
  destruct (if wired then _ else _) as [read st0] eqn:Er.
  destruct H as (stored & -> & H). split.
  - intros j ir s Hp Hj Hir Hwf Hs Hu. destruct H as [(_ & Hna & _)|(oir & gates & [Hpipe Hgates Hcheck Hsubj _])].
    { by destruct (Hp (Hna _ _ eq_refl)). }
    unfold stored_pipeline in Hpipe. rewrite Hj, Hir in Hpipe. injection Hpipe as <-.
    unfold spec_of in Hcheck, Hsubj. cbn [mbind option_bind] in Hcheck, Hsubj. rewrite Hs in Hcheck, Hsubj.
    cbn [launch_check fmap option_fmap option_map fst snd] in Hcheck, Hsubj.
    set (f := mkLaunchFacts _ _ _ _ _ _ _) in Hcheck, Hsubj. destruct (launch_recheck_approves f) as [Hb Hr].
    assert (lc_before_approval (launch_recheck f) = false) as Hba.
    { apply not_true_iff_false. intros Ht. apply (proj2 Hr); [|done]. split; [done|]. cbn. by rewrite Hu. }
    split; [congruence|]. apply Hb in Hba as [?|(Href & ug & Hug & released & Hrel & Hage & Hmet)]; [done|]. split; [done|].
    apply (upstream_facts_ok reads _ _ _ _ Hgates) in Hug as (i & events & gate & [= <-] & Hev & Hgate & ->).
    apply (upstream_approval_gates_spec _ _ _ Hwf) in Hgate as (Hin & Hman & Hbef).
    apply released_in_log in Hrel as (e & He & <- & Hk). exists gate, events, e. split_and!; try done.
    cbn in Hmet. destruct (environment_approval_met events (st_id gate)) as [m|]; [right|by left]. exists m. split; [done|].
    destruct Hmet as [Hmet|Hmet]; [discriminate Hmet|]. cbn in Hmet. congruence.
  - intros stored' st1 pol -> He Hpol. rewrite He in Er. injection Er as -> _.
    destruct H as [(-> & _)|(oir & gates & [Hpipe Hgates _ _ Hpol'])]; [by apply not_elem_of_nil in Hpol|].
    exists oir, gates. split_and!; [done..|apply Hpol'].
Qed.

(** ** Witness *)

Definition shop_context : DeployContext := mkDeployContext "acme" "shop" "prod" "refs/heads/main" false.
Definition guarded_environment : OrgEnvironment :=
  mkOrgEnvironment "acme" "prod" None "" (mkRules ["ana"] ["refs/heads/main"] 0 false (mkGateRules MgRefuse None None 60)) AllProjects 0 0 "ana".
Definition released_log : list EventKind :=
  [event "r1" (EnvironmentApprovalMet "approve" ["ana"] None 10) 10; event "r1" (GateReleased "approve") 20].
Definition shop_reads : LaunchReads :=
  mkLaunchReads (Ok (Some shop_context)) (Ok (Some ("acme", "shop")))
    (fun _ _ _ => Ok (Some (governance_new guarded_environment "shop" None None)))
    (Ok (Some JNull)) (Ok released_log) None (Ok tt) "d1".
Definition publish_run : StepRun := step_new "r1" "publish".
Definition admit_publish (now_ms : Z) : Result ExecError StepAdmission * PolicyState :=
  ensure_deploy_still_admitted (P := plain_ports) (R := stroke_clock) (fun _ => true) (fun _ => Ok guarded_pipeline)
    effective record_decision shop_reads true publish_run now_ms no_policies.
Lemma authority_launch_approved_witness :
  (exists a st, admit_publish 50 = (Ok a, st) /\ ad_before_approval a = false) /\
  (exists why, (admit_publish 60021).1 = Err (ExRefused why)).
Proof.
  split; [|eexists; vm_compute; reflexivity].
  destruct (admit_publish 50) as [[a|e] st] eqn:E.
  - exists a, st. split; [reflexivity|].
    destruct (authority_launch_approved (P := plain_ports) (R := stroke_clock) (fun _ => true) (fun _ => Ok guarded_pipeline)
                effective record_decision shop_reads true publish_run 50 no_policies st a shop_context E eq_refl) as (g & Hg & _ & H & _).
    injection Hg as <-.
    destruct (H JNull guarded_pipeline (with_token (needing "publish" ["approve"])) ltac:(discriminate) eq_refl eq_refl guarded_well_formed
                eq_refl eq_refl) as [Ha _].
    exact Ha.
  - assert (is_ok (admit_publish 50).1 = true) as Hv by (vm_compute; reflexivity). rewrite E in Hv. discriminate Hv.
Defined.
