(* ===== verification/LaunchSpec.v ===== *)
(** * What a launch runs ([crates/scarab-engine/src/render.rs])

    Gathering what a Step's templates read from the store and handing it to
    the renderer of [Render]; the same for a plugin gate's inputs. The class
    [Codecs] collects what the programs use from outside the repository's own
    code: serde's derived decoders, error texts, SHA-256, and the expression
    language of [Cel]. *)

From S2P Require Import Prelude Text Values Cel Oci Params Scopes Render Domain Meta Store Outbox Commits Gates Program Transitions.

Class Codecs := {
  codecs_cel :: Cel;
  codecs_floats :: Floats;
  codecs_chars :: CharTables;
  (** [serde_json::from_value::<Retry>]'s [max]. *)
  retry_max_of : Json -> option N;
  (** [ServiceSpec::deserialize] succeeds. *)
  service_spec_ok : Json -> bool;
  (** [serde_json::from_value::<Vec<ParamSpec>>]. *)
  param_specs_of : Json -> option (list ParamSpec);
  (** [serde_json::from_value::<Scope>], or its error's text. *)
  scope_of : Json -> Result string Scope;
  (** [serde_json::from_value::<PluginGateSpec>]'s [outputs]. *)
  gate_outputs_of : Json -> option (list OutputSpec);
  (** [{e}]. *)
  show_error : SchedulerError -> string;
  show_rerun_error : RerunError -> string;
  (** Why a payload does not decode. *)
  show_bad_payload : OutboxPayload -> string;
  (** SHA-256 of a text, in hexadecimal. *)
  sha256_hex : string -> string;
}.

Definition IR_VERSION_MAX : N := 3.

(** The Run's IR is one this server renders. *)
Definition known_ir_version (ir : option Json) : Result string unit :=
  match ir ≫= fun ir => json_get ir "ir_version" with
  | None => Ok tt
  | Some v =>
      match value_u64 v with
      | Some n =>
          if (n <=? IR_VERSION_MAX)%N then Ok tt
          else Err ("this Run was compiled for IR version " +:+ pretty n
                    +:+ "; this server understands versions up to " +:+ pretty IR_VERSION_MAX)
      | None => Err ("this Run's IR version `" +:+ json_text v
                     +:+ "` is not a whole number; this server understands versions up to "
                     +:+ pretty IR_VERSION_MAX)
      end
  end.

(** The compiled IR entry of [step]. *)
Definition ir_step (ir : Json) (step : StepId) : option Json :=
  steps ← json_get ir "steps";
  steps ← json_as_array steps;
  List.find (fun s => bool_decide (json_get s "id" ≫= json_as_str = Some step)) steps.

Section WithCodecs.
Context {K : Codecs}.

Definition clone_reason : string :=
  "this Step has no image to run: it was stored as a `clone` Step, a kind this "
  +:+ "server no longer runs (ADR-0076 §9); start a new Run, which checks out with "
  +:+ "`invoke: lib:thulasi-ram/clone`".

(** The Run's declared inputs. *)
Definition declared_inputs (ir : option Json) : list ParamSpec :=
  default [] (ir ← ir; interface ← json_get ir "interface"; inputs ← json_get interface "inputs";
              param_specs_of inputs).

Definition spec_has_template (spec : StepSpec) : bool :=
  contains "${{" (spec_image spec) || existsb (contains "${{") (spec_command spec)
  || existsb (fun kv => contains "${{" kv.2) (spec_env spec).

(** The results of [needs], those that have any. *)
Definition gather_results (run : RunId) (needs : list StepId) : Prog DbError Results :=
  fold_each (fun (results : Results) need =>
    let* r := call (step_results run need) in
    ret (if decide (r = ∅) then results else <[need := r]> results)) ∅ needs.

Definition spec_rendered (r : Rendered) (spec : StepSpec) : StepSpec :=
  mkStepSpec (rn_image r) (rn_command r) (rn_env r) (spec_matrix_values spec) (spec_scope spec) (spec_build spec)
    (spec_uses spec) (spec_timeout_seconds spec) (spec_workspace_inputs spec) (spec_cache spec) (spec_rest spec).

Definition render_launch_spec (run : RunId) (step : StepId) (spec : StepSpec)
  : Prog DbError (Result string StepSpec) :=
  let* ir := call (run_ir run) in
  match known_ir_version ir with
  | Err why => ret (Err why)
  | Ok _ =>
      if String.eqb (spec_image spec) "" && bool_decide (spec_build spec = None) then ret (Err clone_reason)
      else
        let* params := call (run_params run) in
        let* event := call (run_event_facts run) in
        let declared := declared_inputs ir in
        let* results :=
          if spec_has_template spec || bool_decide (is_Some (spec_scope spec)) then
            let* steps := call (steps_of_run run) in
            gather_results run (default [] (sr_needs <$> find_step step steps))
          else ret ∅ in
        let rendered := render (mkTemplates (spec_image spec) (spec_command spec) (spec_env spec)) (spec_scope spec)
                          (spec_matrix_values spec) (FLaunch params declared results event) in
        ret (r ← rendered; Ok (spec_rendered r spec))
  end.

Definition render_gate_inputs (run : RunId) (step : StepId) (needs : list StepId)
  : Prog DbError (Result string Json) :=
  let* ir := call (run_ir run) in
  match known_ir_version ir with
  | Err why => ret (Err why)
  | Ok _ =>
      match ir ≫= fun ir => s ← ir_step ir step; json_get s "scope" with
      | None => ret (Err "its inputs are not in the Run's Pipeline")
      | Some raw =>
          match scope_of raw with
          | Err e => ret (Err ("its inputs cannot be read: " +:+ e))
          | Ok scope =>
              let* params := call (run_params run) in
              let* event := call (run_event_facts run) in
              let* results := gather_results run needs in
              ret (inputs ← render_inputs scope params results event; Ok (json_object inputs))
          end
      end
  end.

Definition gate_declared_outputs (run : RunId) (step : StepId) : Prog DbError (option (list OutputSpec)) :=
  let* ir := call (run_ir run) in
  ret (ir ← ir; s ← ir_step ir step; g ← json_get s "plugin_gate"; gate_outputs_of g).

(** * Theorems *)

(** Rendering only reads the store. *)
#[local] Hint Extern 1 (well_behaved (call (run_ir _))) => apply wb_read : prog.
#[local] Hint Extern 1 (well_behaved (call (run_params _))) => apply wb_read : prog.
#[local] Hint Extern 1 (well_behaved (call (run_event_facts _))) => apply wb_read : prog.
#[local] Hint Extern 1 (well_behaved (call (step_results _ _))) => apply wb_read : prog.

Lemma wb_gather_results run needs : well_behaved (gather_results run needs).
Proof. apply wb_fold_each. intros results need. auto 10 with prog. Qed.
#[local] Hint Resolve wb_gather_results : prog.
Lemma wb_render_launch_spec run step spec : well_behaved (render_launch_spec run step spec).
Proof.
  unfold render_launch_spec. apply wb_bind; [auto with prog|intros ir].
  destruct (known_ir_version ir); [|auto with prog]. destruct (_ && _); [auto with prog|].
  do 2 (apply wb_bind; [auto with prog|intros ?]). apply wb_bind; [|auto with prog].
  destruct (_ || _); auto 10 with prog.
Qed.
Lemma wb_render_gate_inputs run step needs : well_behaved (render_gate_inputs run step needs).
Proof. unfold render_gate_inputs. repeat (auto 10 with prog; case_match || (apply wb_bind; [auto with prog|intros ?])). Qed.
Lemma wb_gate_declared_outputs run step : well_behaved (gate_declared_outputs run step).
Proof. unfold gate_declared_outputs. auto 10 with prog. Qed.
(** ** What was admitted is what launches *)

(** What Run creation recorded for the Run's templates to read. *)
Definition run_facts (run : RunId) (st : InMemoryState) : gmap string Json * gmap string Json :=
  (default ∅ (rm_params (st_meta st) !! run), default ∅ (rm_event_facts (st_meta st) !! run)).
(** It is written once: the others leave it alone. *)
Definition keeps_facts (run : RunId) (i : Interference) : Prop :=
  forall st, run_facts run (if_store i st) = run_facts run st.

Lemma read_with_facts {A} run (op : Op A) w a w1 :
  Forall (keeps_facts run) (w_env w) -> (forall st, (op st).2 = st) -> call op w = (Ok a, w1) ->
  (op (w_st w1)).1 = Ok a /\ run_facts run (w_st w1) = run_facts run (w_st w) /\ Forall (keeps_facts run) (w_env w1).
Proof.
  intros He Hop. unfold call, call_at.
  assert (run_facts run (w_st (interfere w).1) = run_facts run (w_st w) /\ Forall (keeps_facts run) (w_env (interfere w).1)) as [H1 H2].
  { unfold interfere. destruct (w_driver w), (w_env w) as [|i env] eqn:Ee; cbn; rewrite ?Ee; try (by split);
      apply Forall_cons in He as [Hi He]; split; [apply Hi|done|apply Hi|done]. }
  specialize (Hop (w_st (interfere w).1)). destruct (w_driver (interfere w).1); [| |done];
    destruct (op (w_st (interfere w).1)) as [r st] eqn:Eo; cbn in *; subst st; intros [= -> <-]; cbn; by rewrite Eo.
Qed.

Context {CL : CelLaws codecs_cel}.

(** C20: What is admitted is what runs. Take the image a Policy and privilege
    admission see at Run creation: the preview of the Step's image over the
    launch parameters and event facts recorded for the Run. If it has no [${{]
    left in it, then whenever a launch of the Step renders, whatever other
    servers do in between (but rewrite what Run creation recorded) and whatever
    the results of the Steps before it, the launched spec runs exactly that
    image, which is empty or an image reference (no whitespace, no quote, no
    leading dash), and nothing of the spec but its image, command and
    environment has changed. *)
Theorem launched_image_admitted run step spec w spec' w' :
  Forall (keeps_facts run) (w_env w) ->
  render_launch_spec run step spec w = (Ok (Ok spec'), w') ->
  let '(params, event) := run_facts run (w_st w) in
  let image := preview_image (spec_image spec) (spec_scope spec) (spec_matrix_values spec) params event in
  contains "${{" image = false ->
  spec_image spec' = image
  /\ (image = "" \/ all_bytes reference_byte image = true /\ first_byte (fun c => negb (Ascii.eqb c "-")) image = true)
  /\ exists r, spec' = spec_rendered r spec.
Proof.
  intros He. unfold render_launch_spec, bind at 1.
  destruct (call (run_ir run) w) as [[ir|e] w1] eqn:E1; [|done].
  apply (read_with_facts run) in E1 as (_ & F1 & He1); [|done..].
  destruct (known_ir_version ir); [|done]. destruct (_ && _); [done|]. unfold bind at 1.
  destruct (call (run_params run) w1) as [[params|e] w2] eqn:E2; [|done].
  apply (read_with_facts run) in E2 as (V2 & F2 & He2); [|done..]. injection V2 as V2. unfold bind at 1.
  destruct (call (run_event_facts run) w2) as [[event|e] w3] eqn:E3; [|done].
  apply (read_with_facts run) in E3 as (V3 & F3 & _); [|done..]. injection V3 as V3.
  unfold bind at 1.
  match goal with |- context [match (if ?b then ?x else ?y) w3 with _ => _ end] =>
    destruct ((if b then x else y) w3) as [[results|e] w4]; [|done] end.
  destruct (render _ _ _ (FLaunch params _ results event)) as [r|] eqn:Er; [|done]. intros [= <- <-].
  assert (run_facts run (w_st w) = (params, event)) as ->.
  { unfold run_facts in *. rewrite <- F1. f_equal; [rewrite <- V2|rewrite <- V3]; congruence. }
  cbv zeta. intros Hc. destruct (previewed_image _ _ _ _ _ _ _ _ Er Hc) as [Hi Hs].
  split_and!; [exact Hi|exact Hs|by exists r].
Qed.
End WithCodecs.
#[export] Hint Resolve wb_render_launch_spec wb_render_gate_inputs wb_gate_declared_outputs : prog.

(** ** A concrete instance *)

(** The decoders read nothing but a Retry's [max]; a CEL expression is a dotted
    path. *)
Definition plain_codecs : Codecs := {|
  codecs_cel := dotted_cel; codecs_floats := no_floats; codecs_chars := ascii_tables;
  param_specs_of _ := None; scope_of _ := Err "unreadable"; gate_outputs_of _ := None;
  retry_max_of v := z ← json_get v "max"; value_u64 z;
  service_spec_ok _ := true;
  show_error _ := "error"; show_rerun_error _ := "error"; show_bad_payload _ := "malformed"; sha256_hex s := s |}.

(** A library Step whose image its caller's parameter completes, launched
    while its Run is being cancelled. *)
Definition library_spec : StepSpec :=
  mkStepSpec (tp_image library_step) (tp_command library_step) (tp_env library_step) ∅ (Some library_scope) None
    [] None [] None JNull.
Definition library_run : InMemoryState :=
  let s1 := (create_step_run "r" "deploy" (Some library_spec) [] state_empty).2 in
  let s2 := (set_run_params "r" (region_params "eu") s1).2 in
  (set_run_event_facts "r" (sha_event sha_a) s2).2.

Lemma launched_image_admitted_witness :
  let w := mkWorld library_run 5 (repeat (mkInterference (fun st => (record_transition "r" RunPending RunCancelled st).2) 1 0 false) 4)
             Kept memory_empty in
  exists spec' w', @render_launch_spec plain_codecs "r" "deploy" library_spec w = (Ok (Ok spec'), w')
    /\ spec_image spec' = "ghcr.io/acme/deploy:eu".
Proof.
  cbv zeta. set (w := mkWorld _ _ _ _ _).
  destruct (@render_launch_spec plain_codecs "r" "deploy" library_spec w) as [[[spec'|]|] w'] eqn:E;
    [|vm_compute in E; discriminate E..].
  exists spec', w'. split; [reflexivity|].
  assert (Forall (keeps_facts "r") (w_env w)) as He.
  { apply Forall_forall. intros i Hi. apply list_elem_of_In, repeat_spec in Hi as ->. intros st. cbn.
    unfold record_transition, bump_reopen_generation_locked. by repeat case_match. }
  pose proof (@launched_image_admitted plain_codecs dotted_laws "r" "deploy" library_spec w spec' w' He E) as H.
  change (run_facts "r" (w_st w)) with (region_params "eu", sha_event sha_a) in H. cbv zeta in H.
  destruct H as [-> _]; vm_compute; reflexivity.
Defined.
