(* ===== verification/Logic.v ===== *)
(** * Assertions that survive everyone else

    What is carried from one call of a program of [Program] to the next, over
    whatever the other servers do in between: an assertion stable under their
    store calls, or one of the outbox that they are asked to preserve. *)

From S2P Require Import Prelude Domain Store Outbox Commits Gates Program Transitions.

Abbreviation assertion := (InMemoryState -> Prop).

(** No call of any client falsifies [P]. *)
Definition stable (P : assertion) : Prop :=
  forall st st', wf st -> unarmed st -> P st -> rtc db_step st st' -> P st'.

(** * Theorems *)

(** ** Assertions of the outbox, kept by whoever writes nothing there *)

Section Preserves.
Context (I : assertion).
Hypothesis of_outbox : forall st st', st_outbox st' = st_outbox st -> I st -> I st'.

(** The others preserve it too. *)
Definition others_preserve (i : Interference) : Prop := forall st, I st -> I (if_store i st).
Definition preserves {E A} (p : Prog E A) : Prop := forall w,
  Forall others_preserve (w_env w) -> I (w_st w) -> Forall others_preserve (w_env (p w).2) /\ I (w_st (p w).2).

Lemma preserves_interfere w : Forall others_preserve (w_env w) -> I (w_st w) ->
  Forall others_preserve (w_env (interfere w).1) /\ I (w_st (interfere w).1).
Proof.
  intros He Hw. unfold interfere. destruct (w_driver w), (w_env w) as [|i env] eqn:E; cbn; rewrite ?E; try done;
    apply Forall_cons in He as [Hi He]; (split; [done|by apply Hi]).
Qed.
Lemma preserves_ret {E A} (a : A) : preserves (E:=E) (ret a).
Proof. by split. Qed.
Lemma preserves_fail {E A} (e : E) : preserves (A:=A) (fail e).
Proof. by split. Qed.
Lemma preserves_bind {E A B} (m : Prog E A) (f : A -> Prog E B) : preserves m -> (forall a, preserves (f a)) -> preserves (bind m f).
Proof.
  intros Hm Hf w He Hw. unfold bind. specialize (Hm w He Hw). destruct (m w) as [[a|e] w1]; [|done].
  destruct Hm. by apply Hf.
Qed.
Lemma preserves_attempt {E F A} (m : Prog E A) : preserves m -> preserves (E:=F) (attempt_ m).
Proof. intros Hm w He Hw. unfold attempt_. specialize (Hm w He Hw). by destruct (m w). Qed.
Lemma preserves_into {E F A} (f : E -> F) (m : Prog E A) : preserves m -> preserves (into f m).
Proof. intros Hm w He Hw. unfold into. specialize (Hm w He Hw). by destruct (m w). Qed.
Lemma preserves_now {E} : preserves (E:=E) now_.
Proof. intros w He Hw. by apply preserves_interfere. Qed.
Lemma preserves_draw {E} : preserves (E:=E) draw.
Proof. intros w He Hw. unfold draw. destruct (preserves_interfere w He Hw). by destruct (interfere w). Qed.
Lemma preserves_call {A} (op : Op A) : (forall st, st_outbox (op st).2 = st_outbox st) -> preserves (call op).
Proof.
  intros Hop w He Hw. destruct (preserves_interfere w He Hw) as [He1 Hw1]. unfold call, call_at.
  destruct (w_driver (interfere w).1); [..|done]; pose proof (Hop (w_st (interfere w).1)) as Ho;
    destruct (op (w_st (interfere w).1)) as [r st]; (split; [done|]); by eapply of_outbox.
Qed.
Lemma preserves_fold_each {E A S} (f : S -> A -> Prog E S) l s : (forall s x, preserves (f s x)) -> preserves (fold_each f s l).
Proof. intros Hf. revert s; induction l; intros s; cbn; [apply preserves_ret|by apply preserves_bind]. Qed.
End Preserves.
Create HintDb preserve.
#[export] Hint Resolve preserves_ret preserves_fail preserves_bind preserves_attempt preserves_into preserves_now preserves_draw preserves_fold_each : preserve.
#[export] Hint Extern 3 (preserves _ (match ?x with _ => _ end)) => destruct x : preserve.

(** A success of a sequence went through both. *)
Lemma bind_ok {E A B} (m : Prog E A) (f : A -> Prog E B) w b w' :
  bind m f w = (Ok b, w') -> exists a w1, m w = (Ok a, w1) /\ f a w1 = (Ok b, w').
Proof. unfold bind. destruct (m w) as [[a|e] w1]; [eauto|done]. Qed.
Lemma into_ok_inv {E F A} (f : E -> F) (m : Prog E A) w a w' : into f m w = (Ok a, w') -> m w = (Ok a, w').
Proof. unfold into. destruct (m w) as [[]]; cbn; intros; by simplify_eq. Qed.
