(* ===== verification/Cancel.v ===== *)
(** * Cancelling a Run stops everything it runs

    The functional correctness of [Transitions.cancel_run_request]
    (scarab-engine/src/scheduler.rs) when no other client interferes, and
    what one step's cancel commit promises under any interference. *)

From S2P Require Import Prelude Domain Store Outbox Commits Gates Program Transitions.

(** ** The latest attempt: rows are read sorted, the frontier is checked raw *)

Lemma max_by_order_snoc l a :
  max_by_order (l ++ [a]) = match max_by_order l with
                            | None => Some a
                            | Some b => if (attempt_order_key b <=? attempt_order_key a)%N
                                        then Some a else Some b
                            end.
Proof. unfold max_by_order. rewrite foldl_app. cbn. by destruct (foldl _ _ l). Qed.

Lemma max_by_order_cons x l :
  max_by_order (x :: l) = match max_by_order l with
                          | None => Some x
                          | Some m => if (attempt_order_key x <=? attempt_order_key m)%N
                                      then Some m else Some x
                          end.
Proof.
  induction l as [|a l IH] using rev_ind; [done|].
  change (x :: l ++ [a]) with ((x :: l) ++ [a]). rewrite !max_by_order_snoc, IH.
  destruct (max_by_order l) as [m|]; [|done].
  destruct (N.leb_spec (attempt_order_key x) (attempt_order_key m)) as [H1|H1];
    destruct (N.leb_spec (attempt_order_key m) (attempt_order_key a)) as [H2|H2];
    rewrite ?(proj2 (N.leb_le _ _) H2), ?(proj2 (N.leb_gt _ _) H2); try done.
  - by rewrite (proj2 (N.leb_le _ _) (N.le_trans _ _ _ H1 H2)).
  - by rewrite (proj2 (N.leb_le _ _) H1).
  - by rewrite (proj2 (N.leb_gt _ _) H1), (proj2 (N.leb_gt _ _) (N.lt_trans _ _ _ H2 H1)).
Qed.

Lemma max_by_order_max l m :
  max_by_order l = Some m -> m ∈ l /\ forall a, a ∈ l -> (attempt_order_key a <= attempt_order_key m)%N.
Proof.
  revert m; induction l as [|x l IH]; intros m; [done|]. rewrite max_by_order_cons.
  destruct (max_by_order l) as [b|] eqn:E.
  - destruct (IH b eq_refl) as [Hb Hle]. destruct (N.leb_spec (attempt_order_key x) (attempt_order_key b));
      intros [= <-]; split; try constructor; try done;
      intros a Ha; apply elem_of_cons in Ha as [->|Ha]; try specialize (Hle a Ha); lia.
  - destruct l as [|y l]; [|rewrite max_by_order_cons in E; by repeat case_match].
    intros [= <-]. split; [constructor|]. intros a Ha. apply list_elem_of_singleton in Ha as ->. lia.
Qed.

Lemma max_by_order_none l : max_by_order l = None -> l = [].
Proof. destruct l; [done|]. rewrite max_by_order_cons. by repeat case_match. Qed.

Lemma last_ins x l :
  last (ins (fun a b => (attempt_order_key a <=? attempt_order_key b)%N) x l)
    = if existsb (fun y => (attempt_order_key x <=? attempt_order_key y)%N) l then last l else Some x.
Proof.
  induction l as [|y l IH]; [done|]. cbn [ins existsb].
  destruct (attempt_order_key x <=? attempt_order_key y)%N; cbn [orb]; [done|].
  rewrite !last_cons, IH. destruct (existsb _ l) eqn:E; [|done].
  by destruct l.
Qed.

Lemma latest_is_last l : last (sort_attempts l) = max_by_order l.
Proof.
  induction l as [|x l IH]; [done|]. unfold sort_attempts, sort_stable in *. cbn [foldr].
  rewrite last_ins, max_by_order_cons, IH.
  destruct (max_by_order l) as [m|] eqn:E; cycle 1.
  { apply max_by_order_none in E as ->. done. }
  destruct (max_by_order_max _ _ E) as [Hm Hle].
  destruct (existsb _ _) eqn:Ex.
  - apply existsb_exists in Ex as (y & Hy & Hk). apply list_elem_of_In in Hy.
    apply (elem_of_sort_stable (fun a b => (attempt_order_key a <=? attempt_order_key b)%N) y l) in Hy.
    specialize (Hle y Hy). apply N.leb_le in Hk.
    by rewrite (proj2 (N.leb_le _ _) (N.le_trans _ _ _ Hk Hle)).
  - destruct (N.leb_spec (attempt_order_key x) (attempt_order_key m)) as [H|H]; [|done].
    assert (existsb (fun y => (attempt_order_key x <=? attempt_order_key y)%N)
      (foldr (ins (fun a b => (attempt_order_key a <=? attempt_order_key b)%N)) [] l) = true) as Ht;
      [|congruence].
    apply existsb_exists. exists m. split; [|by apply N.leb_le]. apply list_elem_of_In.
    by apply (elem_of_sort_stable (fun a b => (attempt_order_key a <=? attempt_order_key b)%N) m l).
Qed.

(** ** Alone in the world *)

Definition alone (st : InMemoryState) (now : Timestamp) : World := mkWorld st now [] Kept memory_empty.

(** No armed injector. *)
Definition quiet (st : InMemoryState) : Prop := unarmed st /\ no_crash st.

Lemma call_alone {A} (op : Op A) st now : call op (alone st now) = ((op st).1, alone (op st).2 now).
Proof. unfold call, call_at. cbn. by destruct (op st). Qed.

(** What a step's cancel leaves alone. *)
Record step_frame (key : RunId * StepId) (st st' : InMemoryState) : Prop := mkFrame {
  fr_rows : forall k, k <> key -> st_steps st' !! k = st_steps st !! k;
  fr_runs : st_runs st' = st_runs st;
  fr_gens : st_reopen_generations st' = st_reopen_generations st;
  fr_conc : st_concurrency st' = st_concurrency st;
  fr_slots : st_slots st' = st_slots st;
  fr_services : st_run_services st' = st_run_services st;
  fr_poison : st_poisoned_runs st' = st_poisoned_runs st;
  fr_leases : st_leases st' = st_leases st;
  fr_quiet : quiet st -> quiet st';
  fr_keys : forall k, has_key k st -> has_key k st';
  fr_log : st_events st `prefix_of` st_events st';
}.

Lemma step_frame_refl key st : step_frame key st st.
Proof. by split. Qed.
Lemma step_frame_trans key st1 st2 st3 :
  step_frame key st1 st2 -> step_frame key st2 st3 -> step_frame key st1 st3.
Proof.
  intros [] []. split; try congruence; auto; [|by etrans].
  intros k Hk. rewrite fr_rows1, fr_rows0; done.
Qed.

Lemma enqueue_all_frame ms st :
  st_concurrency (enqueue_all ms st) = st_concurrency st
  /\ st_slots (enqueue_all ms st) = st_slots st
  /\ st_run_services (enqueue_all ms st) = st_run_services st
  /\ st_poisoned_runs (enqueue_all ms st) = st_poisoned_runs st
  /\ st_gate_resolve_race (enqueue_all ms st) = st_gate_resolve_race st
  /\ st_event_append_failure (enqueue_all ms st) = st_event_append_failure st
  /\ st_leases (enqueue_all ms st) = st_leases st.
Proof.
  revert st; induction ms as [|m ms IH]; intros st; [done|]. rewrite enqueue_all_cons.
  destruct (IH (enqueue_outbox_locked m st)) as (-> & -> & -> & -> & -> & -> & ->).
  unfold enqueue_outbox_locked. by case_match.
Qed.

Lemma enqueue_all_keys ms st k : has_key k st -> has_key k (enqueue_all ms st).
Proof. intros (e & He & Hk). exists e. split; [by apply enqueue_all_keeps|done]. Qed.

Lemma step_commit_frame run step to stamp es ms st :
  step_frame (run, step) st (step_commit_writes run step to stamp es ms st).
Proof.
  unfold step_commit_writes. cbv zeta. set (s1 := match stamp with Some (a, s) => _ | None => _ end).
  assert (step_frame (run, step) st s1) as F.
  { unfold s1. destruct stamp as [[a s]|]; split; try done;
      intros k Hk; cbn; by rewrite !lookup_alter_ne by done. }
  eapply step_frame_trans; [exact F|]. clearbody s1. clear F.
  destruct (enqueue_all_fields ms (push_events es s1)) as (E1 & E2 & E3 & E4 & E5).
  destruct (enqueue_all_frame ms (push_events es s1)) as (F1 & F2 & F3 & F4 & F5 & F6 & F7).
  split; try done.
  - intros k _. by rewrite E2.
  - intros [[Q1 Q2] Q3]. unfold quiet, unarmed, no_crash. by rewrite E5, F5, F6.
  - intros k Hk. by apply enqueue_all_keys.
  - rewrite E1. by apply prefix_app_r.
Qed.

Lemma commit_step_ok run step from to frontier stamp es ms st :
  quiet st -> step_cas_holds run step from frontier st ->
  commit_step_transition run step from to frontier stamp es ms st
    = (Ok tt, step_commit_writes run step to stamp es ms st).
Proof.
  intros [[U _] Hn] [(r & Hr & Hs) Hf]. unfold commit_step_transition, op_bind at 1.
  rewrite check_step_unarmed, Hr by done. rewrite decide_True by done. unfold op_bind at 1.
  destruct (check_frontier_cases run step frontier st) as [[-> _]|[_ Hno]]; [|done].
  unfold op_bind at 1. by rewrite take_failure_none.
Qed.

(** The row a snapshot was read from. *)
Definition read_from (run : RunId) (st : InMemoryState) (s : StepRun) (r : StepRec) : Prop :=
  st_steps st !! (run, sr_step s) = Some r /\ step_run_of run (sr_step s) r = Some s.

Lemma read_from_spec run st s r :
  read_from run st s r ->
  st_steps st !! (run, sr_step s) = Some r /\ rec_status r = Some (sr_status s)
  /\ last (sr_attempts s) = max_by_order (rec_attempts r) /\ sr_gate_kind s = rec_gate_kind r.
Proof.
  intros [Hr Hs]. unfold step_run_of in Hs. destruct (rec_status r) as [status|]; [|done].
  cbn in Hs. injection Hs as <-. cbn. by rewrite latest_is_last.
Qed.

(** The live attempt a cancel of [s] must stop: the latest, if it runs, of a
    [Running] step or of a waiting gate. *)
Definition live_attempt (s : StepRun) (a : Attempt) : Prop :=
  last (sr_attempts s) = Some a /\ att_outcome a = ORunning
  /\ (sr_status s = StepRunning \/ is_gate s = true).

(** What cancelling [s] (read from row [r]) leaves in the store. *)
Definition cancelled (run : RunId) (s : StepRun) (r : StepRec) (st' : InMemoryState) : Prop :=
  if step_is_terminal (sr_status s) then st_steps st' !! (run, sr_step s) = Some r
  else exists r', st_steps st' !! (run, sr_step s) = Some r'
    /\ rec_status r' = Some StepCancelled
    /\ (forall a, live_attempt s a ->
          exists a', a' ∈ rec_attempts r' /\ att_id a' = att_id a /\ att_outcome a' = OCancelled)
    /\ (forall a, live_attempt s a -> sr_status s = StepRunning ->
          has_key (cancel_key run (sr_step s) (att_id a)) st').

Lemma update_first_by_id f (l : list Attempt) a :
  NoDup (map att_id l) -> a ∈ l ->
  f a ∈ update_first (fun x => String.eqb (att_id x) (att_id a)) f l.
Proof.
  induction l as [|x l IH]; intros Hnd Ha; [by apply elem_of_nil in Ha|].
  cbn in Hnd. apply NoDup_cons in Hnd as [Hn Hnd]. cbn [update_first].
  destruct (String.eqb_spec (att_id x) (att_id a)) as [E|E].
  - apply elem_of_cons in Ha as [->|Ha]; [constructor|]. destruct Hn. rewrite E.
    by apply list_elem_of_fmap_2.
  - apply elem_of_cons in Ha as [->|Ha]; [done|]. constructor. by apply IH.
Qed.

Lemma find_by_id (l : list Attempt) a :
  NoDup (map att_id l) -> a ∈ l -> List.find (fun x => String.eqb (att_id x) (att_id a)) l = Some a.
Proof.
  induction l as [|x l IH]; intros Hnd Ha; [by apply elem_of_nil in Ha|].
  cbn in Hnd. apply NoDup_cons in Hnd as [Hn Hnd]. cbn [List.find].
  destruct (String.eqb_spec (att_id x) (att_id a)) as [E|E].
  - apply elem_of_cons in Ha as [->|Ha]; [done|]. destruct Hn. rewrite E.
    by apply list_elem_of_fmap_2.
  - apply elem_of_cons in Ha as [->|Ha]; [done|]. by apply IH.
Qed.

(** The open wait of a gate just cancelled. *)
Lemma cancel_gate_alone run s r st now :
  quiet st -> st_steps st !! (run, sr_step s) = Some r -> NoDup (map att_id (rec_attempts r)) ->
  exists st', cancel_open_gate_attempt run s (alone st now) = (Ok tt, alone st' now)
    /\ step_frame (run, sr_step s) st st' /\ st_outbox st' = st_outbox st
    /\ exists r', st_steps st' !! (run, sr_step s) = Some r' /\ rec_status r' = rec_status r
         /\ (forall x, x ∈ rec_attempts r -> att_outcome x = OCancelled -> x ∈ rec_attempts r')
         /\ (is_gate s = true -> forall a, max_by_order (rec_attempts r) = Some a ->
               att_outcome a = ORunning ->
               exists a', a' ∈ rec_attempts r' /\ att_id a' = att_id a /\ att_outcome a' = OCancelled).
Proof.
  intros Q Hr Hnd. unfold cancel_open_gate_attempt.
  destruct (is_gate s) eqn:Eg; cycle 1.
  { exists st. split; [done|]. split; [apply step_frame_refl|]. split; [done|]. exists r. by split_and!. }
  unfold bind at 1. unfold attempts_of_step. rewrite call_alone. cbn [op_read fst snd].
  rewrite Hr. cbn [fmap option_fmap option_map default id]. rewrite latest_is_last.
  destruct (max_by_order (rec_attempts r)) as [a|] eqn:Em; cycle 1.
  { exists st. split; [done|]. split; [apply step_frame_refl|]. split; [done|]. exists r. split_and!; try done. }
  case_decide as Ho; cycle 1.
  { exists st. split; [done|]. split; [apply step_frame_refl|]. split; [done|]. exists r. split_and!; try done.
    intros _ a' [= ->]. done. }
  destruct (max_by_order_max _ _ Em) as [Ha _].
  unfold bind. rewrite call_alone. unfold close_running_attempt.
  destruct Q as [[_ Q] _]. rewrite Q. cbv zeta. rewrite Hr. cbn [mbind option_bind].
  rewrite find_by_id by done. rewrite decide_True by done. cbn [fst snd].
  eexists. split; [reflexivity|]. split.
  { split; try done. intros k Hk. cbn. by rewrite lookup_alter_ne. }
  split; [done|]. eexists. split; [cbn; rewrite lookup_alter_eq, Hr; reflexivity|]. split; [done|]. cbn [rec_attempts rec_with_attempts].
  split.
  - intros x Hx Hc. clear -Hx Hc Ho Ha Hnd. induction (rec_attempts r) as [|y l IH]; [by apply elem_of_nil in Hx|].
    cbn in Hnd. apply NoDup_cons in Hnd as [Hn Hnd]. cbn [update_first].
    destruct (String.eqb_spec (att_id y) (att_id a)) as [E|E].
    + apply elem_of_cons in Hx as [->|Hx]; [|by constructor].
      apply elem_of_cons in Ha as [->|Ha]; [congruence|]. destruct Hn. rewrite E. by apply list_elem_of_fmap_2.
    + apply elem_of_cons in Ha as [->|Ha]; [done|]. apply elem_of_cons in Hx as [->|Hx]; [constructor|].
      constructor. by apply IH.
  - intros _ a' [= <-] _. eexists. split; [apply (update_first_by_id _ _ a Hnd Ha)|]. done.
Qed.

(** The teardown owed to the unit of a step a cancel stops: it names that
    step's running attempt and no other. *)
Definition stop_messages (run : RunId) (now : Timestamp) (s : StepRun) : list OutboxMessage :=
  match sr_status s, last (sr_attempts s) with
  | StepRunning, Some a =>
      if bool_decide (att_outcome a = ORunning)
      then [mkMsg 0 run CANCEL_ATTEMPT (PAttemptTeardown [mkTeardown (sr_step s) (att_id a)])
              ("cancel:" +:+ run +:+ ":" +:+ sr_step s +:+ "/" +:+ att_id a) now]
      else []
  | _, _ => []
  end.

Lemma step_commit_outbox run step to stamp es ms st :
  st_outbox (step_commit_writes run step to stamp es ms st) = st_outbox (enqueue_all ms st).
Proof. unfold step_commit_writes. cbv zeta. apply enqueue_all_outbox. by destruct stamp as [[]|]. Qed.

Lemma cancel_step_alone run s r st now :
  quiet st -> read_from run st s r -> NoDup (map att_id (rec_attempts r)) ->
  exists st', cancel_step run s now (alone st now) = (Ok tt, alone st' now)
    /\ step_frame (run, sr_step s) st st' /\ cancelled run s r st'
    /\ st_outbox st' = st_outbox (enqueue_all (stop_messages run now s) st).
Proof.
  intros Q Hread Hnd. destruct (read_from_spec _ _ _ _ Hread) as (Hr & Hst & Hlast & Hgk).
  unfold cancel_step, cancelled. cbn [cancel_step_tries].
  destruct (step_is_terminal (sr_status s)) eqn:Et.
  { exists st. split; [done|]. split; [apply step_frame_refl|]. split; [done|]. unfold stop_messages. by destruct (sr_status s). }
  set (live := if decide (sr_status s = StepRunning) then in_flight_attempt s else None).
  set (stamp := (fun a => (att_id a, StampOutcome OCancelled)) <$> live).
  set (es := [event run (StepTransitioned (sr_step s) (sr_status s) StepCancelled) now]).
  set (ms := match live with Some a => [cancel_attempt_intent run (sr_step s) (att_id a) now] | None => [] end).
  set (st1 := step_commit_writes run (sr_step s) StepCancelled stamp es ms st).
  assert (commit_cancel run s now (alone st now) = (Ok tt, alone st1 now)) as Hc.
  { unfold commit_cancel. case_decide as Hrun; rewrite call_alone; rewrite commit_step_ok; try done.
    - split; [by exists r|]. unfold latest_attempt. rewrite Hr, Hlast. cbn.
      by destruct (max_by_order _).
    - split; [by exists r|done]. }
  unfold bind at 1, attempt_. rewrite Hc.
  pose proof (step_commit_steps run (sr_step s) StepCancelled stamp es ms st r Hr) as Hrows.
  fold st1 in Hrows. pose proof (step_commit_frame run (sr_step s) StepCancelled stamp es ms st) as F1.
  fold st1 in F1. set (r1 := step_row_after StepCancelled stamp r) in *.
  assert (st_steps st1 !! (run, sr_step s) = Some r1) as Hr1 by (rewrite Hrows; apply lookup_insert_eq).
  assert (map att_id (rec_attempts r1) = map att_id (rec_attempts r)) as Hids.
  { unfold r1, step_row_after. destruct stamp as [[]|]; cbn; [|done]. by apply update_first_ids. }
  destruct (cancel_gate_alone run s r1 st1 now) as (st2 & Hg & F2 & O2 & r2 & Hr2 & Hs2 & Hkeep & Hgate);
    [by apply (fr_quiet _ _ _ F1)|done|by rewrite Hids|].
  exists st2. split; [exact Hg|]. split; [by eapply step_frame_trans|]. split; cycle 1.
  { rewrite O2. unfold st1. rewrite step_commit_outbox. f_equal. f_equal. unfold ms, live, in_flight_attempt, stop_messages.
    destruct (sr_status s); try done. rewrite decide_True by done.
    destruct (last (sr_attempts s)) as [a|]; [|done]. rewrite bool_decide_decide. by case_decide. }
  exists r2. split; [done|].
  assert (rec_status r1 = Some StepCancelled) as Hs1 by (unfold r1, step_row_after; by destruct stamp as [[]|]).
  split; [congruence|].
  assert (forall a, live_attempt s a -> sr_status s = StepRunning -> live = Some a) as Hlive.
  { intros a (Hl & Ho & _) Hrun. unfold live, in_flight_attempt. rewrite decide_True by done.
    rewrite Hl. by rewrite decide_True. }
  split.
  - intros a Ha. destruct (decide (sr_status s = StepRunning)) as [Hrun|Hrun].
    + pose proof (Hlive a Ha Hrun) as El. destruct Ha as (Hl & Ho & _).
      exists (stamp_attempt (StampOutcome OCancelled) a). split; [apply Hkeep|].
      * unfold r1, step_row_after, stamp. rewrite El. cbn. apply update_first_by_id; [done|].
        rewrite Hlast in Hl. by apply max_by_order_max in Hl as [? _].
      * unfold stamp_attempt. by rewrite Ho.
      * unfold stamp_attempt. by rewrite Ho.
    + destruct Ha as (Hl & Ho & [?|Hgt]); [done|]. apply Hgate; [done| |done].
      change (max_by_order (rec_attempts r) = Some a). by rewrite <- Hlast.
  - intros a Ha Hrun. apply (fr_keys _ _ _ F2). unfold st1, step_commit_writes. cbv zeta.
    refine (enqueue_all_has ms _ (cancel_attempt_intent run (sr_step s) (att_id a) now) _).
    unfold ms. rewrite (Hlive a Ha Hrun). constructor.
Qed.

(** ** The whole Run *)

Lemma step_rows_spec run st s :
  s ∈ step_rows run st <-> exists r, read_from run st s r.
Proof.
  unfold step_rows. rewrite elem_of_sort_stable, list_elem_of_omap. split.
  - intros ([[run' id] r] & Hin & Hs). cbn in Hs. case_decide as E; [|done]. cbn in E. subst run'.
    apply elem_of_map_to_list in Hin. exists r.
    assert (sr_step s = id) as E by (unfold step_run_of in Hs; destruct (rec_status r); by simplify_eq/=).
    unfold read_from. by rewrite E.
  - intros (r & Hr & Hs). exists (run, sr_step s, r). cbn. rewrite decide_True by done.
    split; [by apply elem_of_map_to_list|done].
Qed.

Lemma step_rows_nodup run st : NoDup (map sr_step (step_rows run st)).
Proof.
  unfold step_rows. set (rows := omap _ _).
  assert (map sr_step (sort_stable (fun a b => String.leb (sr_step a) (sr_step b)) rows) ≡ₚ map sr_step rows)
    as -> by apply Permutation_map, sort_stable_perm.
  unfold rows. clear. pose proof (NoDup_fst_map_to_list (st_steps st)) as H.
  induction (map_to_list (st_steps st)) as [|kv l IH]; [constructor|].
  cbn in H. apply NoDup_cons in H as [Hn H]. cbn [omap list_omap].
  case_decide as E; [|by apply IH]. destruct kv as [[run' id] r]. cbn in E. subst run'. cbn [fst snd].
  unfold step_run_of at 1. destruct (rec_status r) as [status|]; [|by apply IH]. cbn.
  apply NoDup_cons. split; [|by apply IH]. intros Hin.
  apply list_elem_of_fmap in Hin as (s & Es & Hs). apply list_elem_of_omap in Hs as ([[run2 id2] r2] & Hkv & Hs).
  cbn in Hs. case_decide as E2; [|done]. cbn in E2. subst run2.
  assert (sr_step s = id2) as E3 by (unfold step_run_of in Hs; destruct (rec_status r2); by simplify_eq/=).
  apply Hn. rewrite Es, E3. by apply (list_elem_of_fmap_2 fst _ (run, id2, r2)).
Qed.

(** What cancelling all the steps of a Run leaves alone. *)
Record run_frame (st st' : InMemoryState) : Prop := mkRunFrame {
  rf_runs : st_runs st' = st_runs st;
  rf_gens : st_reopen_generations st' = st_reopen_generations st;
  rf_conc : st_concurrency st' = st_concurrency st;
  rf_slots : st_slots st' = st_slots st;
  rf_services : st_run_services st' = st_run_services st;
  rf_poison : st_poisoned_runs st' = st_poisoned_runs st;
  rf_leases : st_leases st' = st_leases st;
  rf_quiet : quiet st -> quiet st';
  rf_log : st_events st `prefix_of` st_events st';
}.

Lemma step_frame_run key st st' : step_frame key st st' -> run_frame st st'.
Proof. by intros []. Qed.
Lemma run_frame_trans a b c : run_frame a b -> run_frame b c -> run_frame a c.
Proof. intros [] []. split; try congruence; auto. by etrans. Qed.

Lemma cancelled_frame run s r st st' id :
  id <> sr_step s -> step_frame (run, id) st st' -> cancelled run s r st -> cancelled run s r st'.
Proof.
  intros Hn F. unfold cancelled. rewrite (fr_rows _ _ _ F) by congruence. case_match; [done|].
  intros (r' & H1 & H2 & H3 & H4). exists r'. split_and!; auto.
  intros a Ha Hrun. apply (fr_keys _ _ _ F). auto.
Qed.

(** A loop over the rows of a Run, each pass of which only touches its own
    step, establishes its post-condition for every row. *)
Section ForSteps.
Context {E : Type} (run : RunId) (now : Timestamp) (f : StepRun -> Prog E unit).
Context (post : StepRun -> StepRec -> InMemoryState -> Prop) (sent : StepRun -> list OutboxMessage).
Hypothesis pass_alone : forall s r st,
  quiet st -> read_from run st s r -> NoDup (map att_id (rec_attempts r)) ->
  exists st', f s (alone st now) = (Ok tt, alone st' now) /\ step_frame (run, sr_step s) st st' /\ post s r st'
    /\ st_outbox st' = st_outbox (enqueue_all (sent s) st).
Hypothesis post_frame : forall s r st st' id,
  id <> sr_step s -> step_frame (run, id) st st' -> post s r st -> post s r st'.

Lemma for_steps_alone l st :
  quiet st -> NoDup (map sr_step l) ->
  (forall s, s ∈ l -> exists r, read_from run st s r /\ NoDup (map att_id (rec_attempts r))) ->
  exists st', for_each f l (alone st now) = (Ok tt, alone st' now)
    /\ run_frame st st' /\ st_outbox st' = st_outbox (enqueue_all (flat_map sent l) st)
    /\ (forall s r, s ∈ l -> read_from run st s r -> post s r st')
    /\ (forall s r, sr_step s ∉ map sr_step l -> post s r st -> post s r st').
Proof.
  revert st; induction l as [|s l IH]; intros st Q Hnd Hrows.
  { exists st. split; [done|]. split; [by split|]. split; [done|]. split; [|done].
    intros s r Hs. by apply elem_of_nil in Hs. }
  cbn [map] in Hnd. apply NoDup_cons in Hnd as [Hn Hnd].
  destruct (Hrows s) as (r & Hr & Hids); [constructor|].
  destruct (pass_alone s r st Q Hr Hids) as (st1 & E1 & F1 & C1 & O1).
  assert (forall s', s' ∈ l -> sr_step s <> sr_step s') as Hne.
  { intros s' Hs' Es. apply Hn. rewrite Es. by apply list_elem_of_fmap_2. }
  assert (forall s' r', s' ∈ l -> read_from run st s' r' <-> read_from run st1 s' r') as Hsame.
  { intros s' r' Hs'. unfold read_from. rewrite (fr_rows _ _ _ F1); [done|].
    intros [= Es]. by apply (Hne s' Hs'). }
  destruct (IH st1) as (st2 & E2 & F2 & O2 & C2 & C3); [by apply (fr_quiet _ _ _ F1)|done| |].
  { intros s' Hs'. destruct (Hrows s') as (r' & Hr' & ?); [by constructor|].
    exists r'. split; [by apply Hsame|done]. }
  exists st2. split; [cbn [for_each]; unfold bind; rewrite E1; exact E2|].
  split; [eapply run_frame_trans; [by eapply step_frame_run|done]|].
  split; [rewrite O2; cbn [flat_map]; rewrite enqueue_all_app; by apply enqueue_all_outbox|]. split.
  - intros s' r' Hs' Hr'. apply elem_of_cons in Hs' as [->|Hs'].
    + assert (r' = r) as -> by (destruct Hr as [Ha _], Hr' as [Hb _]; congruence).
      by apply C3.
    + apply C2; [done|]. by apply Hsame.
  - intros s' r' Hs' HC. cbn in Hs'. apply not_elem_of_cons in Hs' as [Hs1 Hs2].
    apply C3; [done|]. eapply post_frame; [|exact F1|done]. congruence.
Qed.
End ForSteps.

Lemma commit_run_ok run from to g es ms st :
  quiet st -> default RunPending (st_runs st !! run) = from -> run_reopen_generation run st = g ->
  Store.commit_run_transition None run from to g es ms st
    = (Ok tt, enqueue_all ms (push_events es
        (bump_reopen_generation_locked run from (set_runs (<[run := to]> (st_runs st)) st)))).
Proof.
  intros [_ Hn] Hf Hg. unfold Store.commit_run_transition, op_bind, holds_leader_term_if, op_ret.
  rewrite decide_True by done. by rewrite take_failure_none.
Qed.

(** The Run's own transition, once its steps are cancelled. *)
Lemma cancel_transition_alone run st now current intent :
  quiet st -> st_runs st !! run = Some current -> run_is_terminal current = false ->
  exists st', benign_conflict SeDb (commit_run_transition None run current RunCancelled now true [intent])
                (alone st now) = (Ok tt, alone st' now)
    /\ st_runs st' !! run = Some RunCancelled /\ st_steps st' = st_steps st
    /\ st_concurrency st' = st_concurrency st
    /\ st_events st `prefix_of` st_events st'
    /\ st_outbox st' = st_outbox (enqueue_all [intent; mkMsg 0 run RUN_STATUS_CHANGED
         (PRunStatus RunCancelled (run_reopen_generation run st))
         (run_status_post_key run (run_reopen_generation run st) RunCancelled) now] st).
Proof.
  intros Q Hrun Hlive.
  unfold benign_conflict, bind at 1, attempt_, commit_run_transition, commit_run_transition_after.
  unfold bind at 1. rewrite call_alone. cbn [op_read fst snd]. rewrite call_alone.
  rewrite commit_run_ok; [|done|by rewrite Hrun|done]. cbn [fst snd ret].
  unfold bump_reopen_generation_locked. rewrite Hlive.
  match goal with |- context [enqueue_all ?m ?x] => set (ms := m); set (s3 := x) end.
  destruct (enqueue_all_fields ms s3) as (E1 & E3 & E4 & _).
  destruct (enqueue_all_frame ms s3) as (G1 & _).
  exists (enqueue_all ms s3). split; [done|]. rewrite E1, E3, E4, G1.
  split; [apply lookup_insert_eq|]. split; [done|]. split; [done|]. split; [by apply prefix_app_r|].
  unfold ms, transition_posts, posted_generation. rewrite Hlive, N.add_0_r. by apply enqueue_all_outbox.
Qed.

Lemma cancel_services_intent_alone run st now :
  exists rows, run_services run st = (Ok rows, st)
    /\ cancel_services_intent run now (alone st now)
       = (Ok (mkMsg 0 run CANCEL_RUN (PCancelServices (current_service_take rows))
                ("cancel:" +:+ run +:+ ":services:0000000000000000") now), alone st now).
Proof. unfold cancel_services_intent, bind at 1, run_services. rewrite call_alone. cbn [op_read fst snd]. by eexists. Qed.

Lemma release_alone run st now :
  exists st', (let* conc := into SeDb (call (run_concurrency run)) in
     match conc with
     | Some (group, _) => into SeDb (call (release_slot group run)) ;;; ret true
     | None => ret true
     end) (alone st now) = (Ok true, alone st' now)
    /\ st_runs st' = st_runs st /\ st_steps st' = st_steps st /\ st_events st' = st_events st
    /\ st_outbox st' = st_outbox st
    /\ (forall group policy, st_concurrency st !! run = Some (group, policy) ->
          st_slots st' !! group <> Some run).
Proof.
  unfold bind at 1, into at 1, run_concurrency. rewrite call_alone. cbn [op_read fst snd map_err].
  destruct (st_concurrency st !! run) as [[group policy]|]; [|by exists st].
  unfold bind, into. rewrite call_alone. unfold release_slot. case_decide as Hs; cbn [fst snd map_err].
  - eexists. split; [reflexivity|]. split_and!; try done. cbn. intros g p [= <- _].
    by rewrite lookup_delete_eq.
  - exists st. split_and!; try done. intros g p [= <- _]. done.
Qed.

(** C25: A cancel stops everything the Run runs, and forgets none of it. On a
    live Run, with no other client in between, [cancel_run_request] succeeds
    and leaves: the Run [Cancelled], its request in the log before anything
    it caused; every step that was not already terminal [Cancelled], with
    its live attempt (a [Running] step's, or a gate's open wait) stamped
    [Cancelled]; every terminal step as it was; and the Run's concurrency slot
    free. To the outbox it enqueues exactly, in this order: for each running
    attempt a [CANCEL_ATTEMPT] naming that step and that attempt; one
    [CANCEL_RUN] for the shared services, through their current Take (its key
    carries the nonce drawn, 0 in a world that brings none); and the status
    post of the life cancelled. Each of them whose key is its own is a new
    undelivered row carrying exactly that message, unless a row already had
    that key. *)
Theorem cancel_run_request_complete run by_ st now current services :
  quiet st -> run ∉ st_poisoned_runs st ->
  st_runs st !! run = Some current -> run_is_terminal current = false ->
  (forall id r, st_steps st !! (run, id) = Some r -> NoDup (map att_id (rec_attempts r))) ->
  run_services run st = (Ok services, st) ->
  let g := run_reopen_generation run st in
  let ms := flat_map (stop_messages run now) (step_rows run st)
    ++ [mkMsg 0 run CANCEL_RUN (PCancelServices (current_service_take services)) ("cancel:" +:+ run +:+ ":services:0000000000000000") now;
        mkMsg 0 run RUN_STATUS_CHANGED (PRunStatus RunCancelled g) (run_status_post_key run g RunCancelled) now] in
  exists st', cancel_run_request run by_ (alone st now) = (Ok true, alone st' now)
    /\ st_runs st' !! run = Some RunCancelled
    /\ (st_events st ++ [event run (RunCancelRequested by_) now]) `prefix_of` st_events st'
    /\ (forall s r, read_from run st s r -> cancelled run s r st')
    /\ st_outbox st' = st_outbox (enqueue_all ms st)
    /\ (forall m, m ∈ ms -> (forall m', m' ∈ ms -> msg_key m' = msg_key m -> m' = m) -> posts m st st')
    /\ (forall group policy, st_concurrency st !! run = Some (group, policy) ->
          st_slots st' !! group <> Some run).
Proof.
  intros Q Hpo Hrun Hlive Hids Hsvc g ms. unfold cancel_run_request.
  unfold bind at 1, into at 1, run_status_of. rewrite call_alone. cbn [op_read fst snd map_err].
  rewrite Hrun, Hlive. unfold bind at 1. change (now_ (alone st now)) with (Ok (E:=SchedulerError) now, alone st now).
  cbv beta iota. unfold bind at 1, into at 1. rewrite call_alone.
  set (st1 := push_events [event run (RunCancelRequested by_) now] st).
  assert (append_event (event run (RunCancelRequested by_) now) st = (Ok tt, st1)) as ->
    by (unfold append_event, op_bind; by rewrite take_failure_none by apply Q).
  cbn [fst snd map_err]. unfold bind at 1, into at 1. rewrite call_alone. unfold steps_of_run.
  rewrite decide_False by done. cbn [fst snd map_err]. unfold bind at 1, into at 1.
  destruct (for_steps_alone run now (fun s => cancel_step run s now) (cancelled run) (stop_messages run now)
    (fun s r st => cancel_step_alone run s r st now) (cancelled_frame run)
    (step_rows run st1) st1 Q (step_rows_nodup run st1)) as (st2 & E2 & F2 & O2 & C2 & _).
  { intros s Hs. apply step_rows_spec in Hs as (r & Hr). exists r. split; [done|].
    destruct Hr as [Hr _]. by apply (Hids (sr_step s)). }
  rewrite E2. cbn [map_err]. unfold bind at 1, into at 1.
  destruct (cancel_services_intent_alone run st2 now) as (rows & Hrows & ->). cbn [map_err].
  assert (rows = services) as ->.
  { unfold run_services, op_read in *. rewrite (rf_services _ _ F2) in Hrows. cbn [st_run_services st1 push_events set_events] in Hrows.
    injection Hrows as <-. by injection Hsvc. }
  assert (run_reopen_generation run st2 = g) as Hg2 by (unfold g, run_reopen_generation; by rewrite (rf_gens _ _ F2)).
  match goal with |- context [commit_run_transition None run current RunCancelled now true [?i]] =>
    destruct (cancel_transition_alone run st2 now current i) as (st3 & E3 & H31 & H32 & H33 & H34 & H35);
      [by apply (rf_quiet _ _ F2)|by rewrite (rf_runs _ _ F2)|done|] end.
  unfold bind at 1. rewrite E3.
  destruct (release_alone run st3 now) as (st4 & E4 & H41 & H42 & H43 & H44 & H45).
  assert (st_outbox st4 = st_outbox (enqueue_all ms st)) as Hout.
  { unfold ms. rewrite H44, H35, Hg2, enqueue_all_app. apply enqueue_all_outbox. rewrite O2. by apply enqueue_all_outbox. }
  exists st4. split; [exact E4|]. rewrite H41, H43. split; [done|].
  split; [by etrans; [apply (rf_log _ _ F2)|]|]. split_and!.
  - intros s r Hr. assert (cancelled run s r st2) as C by (apply C2; [apply step_rows_spec; by exists r|done]).
    unfold cancelled in *. rewrite H42, H32. case_match; [done|].
    destruct C as (r' & ? & ? & ? & Hk). exists r'. split_and!; auto. intros a Ha Hst.
    destruct (Hk a Ha Hst) as (e & He & Hek). exists e. split; [|done]. rewrite H44, H35. by apply enqueue_all_keeps.
  - done.
  - intros m Hm Hu. unfold posts. rewrite Hout. exact (enqueue_all_posts ms st m Hm Hu).
  - intros group policy Hgp. apply (H45 group policy). rewrite H33, (rf_conc _ _ F2). done.
Qed.

Lemma cancel_run_request_complete_witness :
  let st := set_runs (<["r" := RunRunning]> ∅)
    (update_step ("r", "s") (rec_with_status (Some StepRunning))
      (record_attempt "r" "s" (mkAttempt "a1" 3 None None ORunning)
        (create_step_run "r" "s" None [] state_empty).2).2) in
  exists st', cancel_run_request "r" (Some "ann") (alone st 9) = (Ok true, alone st' 9)
    /\ st_runs st' !! "r" = Some RunCancelled
    /\ map oe_msg (st_outbox st')
       = [mkMsg 1 "r" CANCEL_ATTEMPT (PAttemptTeardown [mkTeardown "s" "a1"]) "cancel:r:s/a1" 9;
          mkMsg 2 "r" CANCEL_RUN (PCancelServices 1) "cancel:r:services:0000000000000000" 9;
          mkMsg 3 "r" RUN_STATUS_CHANGED (PRunStatus RunCancelled 0) "status:r:g0:Cancelled" 9].
Proof.
  cbn zeta. set (st := set_runs _ _).
  destruct (cancel_run_request_complete "r" (Some "ann") st 9 RunRunning []) as (st' & H1 & H2 & _ & _ & H3 & _).
  - split; [split; reflexivity|reflexivity].
  - apply not_elem_of_empty.
  - reflexivity.
  - reflexivity.
  - intros id r H. destruct (decide (id = "s")) as [->|Hn].
    + vm_compute in H. injection H as <-. apply NoDup_singleton.
    + exfalso. cbn in H. rewrite !lookup_alter_ne in H by congruence.
      rewrite !lookup_insert_ne in H by congruence. rewrite lookup_empty in H. discriminate.
  - reflexivity.
  - exists st'. split; [exact H1|]. split; [exact H2|]. rewrite H3. vm_compute. reflexivity.
Defined.
