(* ===== verification/Plan.v ===== *)
(** * What a rerun will execute

    The planner behind rerun and retry (scarab-engine/src/scheduler.rs,
    [plan_rerun_over], [planned_steps], [blocking_dep]): the invalidation set
    of the target, widened upstream until every Workspace Snapshot the set
    consumes from outside is still there, and listed in execution order. The
    snapshot oracle (a port, [WorkspaceSnapshots]) is a parameter. *)

From S2P Require Import Prelude Domain Store Gates.

Record ExpiredInput := mkExpired {
  ei_consumer : StepId;
  ei_produced_by : StepId;
  ei_root : string;
}.

Inductive PlanReason : Set := PrTarget | PrCascade | PrRegenerate | PrRegenerateCascade.

Record PlannedStep := mkPlanned {
  pl_step : StepId;
  pl_reason : PlanReason;
  pl_because_of : option StepId;
  pl_is_gate : bool;
}.

Record RerunPlan := mkPlan {
  rp_target : StepId;
  rp_invalidated : list StepId;
  rp_widened : list StepId;
  rp_expired : list ExpiredInput;
  rp_starts_from : list StepId;
  rp_steps : list PlannedStep;
}.

Definition is_widened (p : RerunPlan) : bool :=
  match rp_widened p with [] => false | _ => true end.

(** The first need that did not end well. *)
Definition blocking_dep (step : StepRun) (steps : list StepRun) : option StepId :=
  List.find (fun d =>
    match sr_status <$> List.find (fun s => String.eqb (sr_step s) d) steps with
    | Some StepSucceeded | Some StepSkipped => false
    | _ => true
    end) (sr_needs step).

(** ** Widening *)

Definition sort_ids (l : list string) : list string := merge_sort str_le l.

(** A use of a snapshot the rerun will not regenerate: who consumes it, who
    produced it, its root. *)
Definition Boundary : Type := StepId * StepId * string.

Definition boundary_leb (a b : Boundary) : bool :=
  match String.compare a.1.1 b.1.1 with
  | Lt => true | Gt => false
  | Eq => match String.compare a.1.2 b.1.2 with
          | Lt => true | Gt => false
          | Eq => String.leb a.2 b.2
          end
  end.

(** [Vec::dedup]. *)
Fixpoint dedup (l : list Boundary) : list Boundary :=
  match l with
  | [] => []
  | x :: l' => match l' with
               | y :: _ => if decide (x = y) then dedup l' else x :: dedup l'
               | [] => [x]
               end
  end.

Section Widen.
Variable oracle : string -> bool.
Variable steps : list StepRun.
Variable consumed_of : gmap StepId (list StepId).
Variable output_of : gmap StepId string.

Definition boundary (invalid : gset StepId) : list Boundary :=
  concat (map (fun s =>
    if decide (sr_step s ∈ invalid) then
      omap (fun p => if decide (p ∈ invalid) then None
                     else (fun root => (sr_step s, p, root)) <$> output_of !! p)
        (default [] (consumed_of !! sr_step s))
    else []) steps).

(** One round's accumulator: the answers so far, the expired inputs, the new
    invalidation roots. *)
Record Probe := mkProbe {
  pr_present : gmap string bool;
  pr_expired : list ExpiredInput;
  pr_new_roots : list StepId;
}.

Definition probe (acc : Probe) (b : Boundary) : Probe :=
  let '(consumer, producer, root) := b in
  let '(ok, present) :=
    match pr_present acc !! root with
    | Some ok => (ok, pr_present acc)
    | None => let ok := oracle root in (ok, <[root := ok]> (pr_present acc))
    end in
  if negb ok && negb (contains_step (pr_new_roots acc) producer)
  then mkProbe present (pr_expired acc ++ [mkExpired consumer producer root])
         (pr_new_roots acc ++ [producer])
  else mkProbe present (pr_expired acc) (pr_new_roots acc).

Definition probe_round (invalid : gset StepId) (present : gmap string bool)
    (expired : list ExpiredInput) : Probe :=
  foldl probe (mkProbe present expired []) (dedup (sort_stable boundary_leb (boundary invalid))).

(** The fixpoint loop; a round that goes on adds a step of the Run to the set,
    so one round per step and a last one are enough. *)
Fixpoint widen_loop (fuel : nat) (invalid : gset StepId) (present : gmap string bool)
    (expired : list ExpiredInput) : gset StepId * list ExpiredInput :=
  match fuel with
  | O => (invalid, expired)
  | S fuel' =>
      let r := probe_round invalid present expired in
      match pr_new_roots r with
      | [] => (invalid, pr_expired r)
      | new_roots =>
          widen_loop fuel' (foldl (fun inv root => inv ∪ invalidation_set root steps) invalid new_roots)
            (pr_present r) (pr_expired r)
      end
  end.
End Widen.

(** ** The disclosed order *)

(** A [BTreeMap]'s keys, in order. *)
Definition btree_keys {A} (m : gmap string A) : list string := sort_ids (elements (dom m)).

(** [min_by(cmp)] over ids. *)
Definition min_id (l : list StepId) : option StepId :=
  foldl (fun acc n => match acc with
                      | None => Some n
                      | Some m => if decide (str_le m n) then Some m else Some n
                      end) None l.

Section Planned.
Variable target : StepId.
Variable steps : list StepRun.
Variable invalid base : gset StepId.
Variable expired : list ExpiredInput.

(** [entry(..).or_insert(..)]: the first expired input of a producer. *)
Definition consumer_of : gmap StepId StepId :=
  foldl (fun m e => match m !! ei_produced_by e with
                    | Some _ => m
                    | None => <[ei_produced_by e := ei_consumer e]> m
                    end) ∅ expired.

Definition reason_of (s : StepRun) : PlanReason * option StepId :=
  if decide (sr_step s = target) then (PrTarget, None)
  else match consumer_of !! sr_step s with
       | Some consumer => (PrRegenerate, Some consumer)
       | None =>
           let parent := min_id (filter (fun n => n ∈ invalid) (sr_needs s)) in
           if decide (sr_step s ∈ base) then (PrCascade, parent) else (PrRegenerateCascade, parent)
       end.

Definition planned_of (s : StepRun) : PlannedStep :=
  let '(reason, because_of) := reason_of s in mkPlanned (sr_step s) reason because_of (is_gate s).

Definition is_ready (emitted : gset StepId) (s : StepRun) : bool :=
  forallb (fun n => bool_decide (n ∉ invalid) || bool_decide (n ∈ emitted)) (sr_needs s).

(** Kahn's algorithm. A round that emits nothing (a cycle) emits the rest in
    id order and ends; a round that emits something shortens [remaining]. *)
Fixpoint kahn_loop (fuel : nat) (remaining : gmap string StepRun) (emitted : gset StepId)
    (out : list PlannedStep) : list PlannedStep :=
  match fuel with
  | O => out
  | S fuel' =>
      if decide (remaining = ∅) then out
      else
        let keys := btree_keys remaining in
        let ready := filter (fun id => is_ready emitted <$> remaining !! id = Some true) keys in
        match ready with
        | [] => out ++ map planned_of (omap (fun id => remaining !! id) keys)
        | _ =>
            kahn_loop fuel' (foldl (fun m id => delete id m) remaining ready)
              (foldl (fun em id => {[id]} ∪ em) emitted ready)
              (out ++ map planned_of (omap (fun id => remaining !! id) ready))
        end
  end.

Definition planned_steps : list PlannedStep :=
  let remaining := by_step (filter (fun s => sr_step s ∈ invalid) steps) in
  kahn_loop (S (size remaining)) remaining ∅ [].
End Planned.

(** ** The plan, over the rows and the recorded outputs *)

Definition plan_over (oracle : option (string -> bool)) (target : StepId) (steps : list StepRun)
    (consumed_of : gmap StepId (list StepId)) (output_of : gmap StepId string) : RerunPlan :=
  let base := invalidation_set target steps in
  let '(invalid, expired) :=
    match oracle with
    | None => (base, [])
    | Some oracle => widen_loop oracle steps consumed_of output_of (S (length steps)) base ∅ []
    end in
  mkPlan target (sort_ids (elements invalid)) (sort_ids (elements (invalid ∖ base))) expired
    (sort_ids (map sr_step (filter (fun s => sr_step s ∈ invalid
        /\ existsb (fun n => bool_decide (n ∈ invalid)) (sr_needs s) = false) steps)))
    (planned_steps target steps invalid base expired).

(** * Theorems *)

(** ** Widening is complete and honest *)

Lemma elem_of_dedup x l : x ∈ dedup l <-> x ∈ l.
Proof.
  induction l as [|y l IH]; [done|]. destruct l as [|z l]; [done|].
  change (dedup (y :: z :: l)) with (if decide (y = z) then dedup (z :: l) else y :: dedup (z :: l)).
  case_decide as E.
  - subst z. rewrite IH, !elem_of_cons. naive_solver.
  - rewrite (elem_of_cons (dedup (z :: l))), (elem_of_cons (z :: l)). by rewrite IH.
Qed.

Lemma size_ids_le (l : list StepId) : size (list_to_set l : gset StepId) <= length l.
Proof.
  induction l as [|x l IH]; [cbn; by rewrite size_empty|]. cbn [list_to_set length].
  rewrite size_union_alt, size_singleton.
  assert (size (list_to_set l ∖ {[x]} : gset StepId) <= size (list_to_set l : gset StepId))
    by (apply subseteq_size; set_solver). lia.
Qed.

Section WidenFacts.
Variable oracle : string -> bool.
Variable steps : list StepRun.
Variable consumed_of : gmap StepId (list StepId).
Variable output_of : gmap StepId string.

(** [c] (re-running) consumes the snapshot [r] of [p] (not re-running). *)
Definition uses (invalid : gset StepId) (c p : StepId) (r : string) : Prop :=
  (exists s, s ∈ steps /\ sr_step s = c) /\ c ∈ invalid /\ (p ∉ invalid)
  /\ p ∈ default [] (consumed_of !! c) /\ output_of !! p = Some r.

Lemma elem_of_boundary invalid c p r :
  (c, p, r) ∈ boundary steps consumed_of output_of invalid <-> uses invalid c p r.
Proof.
  unfold uses, boundary. split.
  - intros Hin. apply list_elem_of_In, in_concat in Hin as (l & Hl & Hin). apply in_map_iff in Hl as (s & <- & Hs).
    apply list_elem_of_In in Hs, Hin.
    case_decide as Hi; [|by apply elem_of_nil in Hin].
    apply list_elem_of_omap in Hin as (p' & Hp & Hr). case_decide as Hp'; [done|].
    destruct (output_of !! p') eqn:Eo; [|done]. cbn in Hr. injection Hr as <- <- <-.
    split_and!; try done. by exists s.
  - intros ((s & Hs & <-) & Hc & Hp & Hin & Ho). apply list_elem_of_In, in_concat. eexists. split.
    + apply in_map_iff. exists s. split; [reflexivity|]. by apply list_elem_of_In.
    + rewrite decide_True by done. apply list_elem_of_In, list_elem_of_omap. exists p. split; [done|].
      rewrite decide_False by done. by rewrite Ho.
Qed.

Definition coherent (present : gmap string bool) : Prop :=
  forall r b, present !! r = Some b -> b = oracle r.

Lemma probe_one acc c p r :
  coherent (pr_present acc) ->
  let acc' := probe oracle acc (c, p, r) in
  coherent (pr_present acc')
  /\ exists ex, pr_expired acc' = pr_expired acc ++ ex
       /\ pr_new_roots acc' = pr_new_roots acc ++ map ei_produced_by ex
       /\ (forall e, e ∈ ex -> e = mkExpired c p r /\ oracle r = false)
       /\ (oracle r = false -> p ∈ pr_new_roots acc').
Proof.
  intros Hco. unfold probe. cbv zeta.
  set (res := match pr_present acc !! r with Some _ => _ | None => _ end).
  assert (res.1 = oracle r /\ coherent res.2) as [H1 H2].
  { unfold res. destruct (pr_present acc !! r) eqn:E; cbn; [by split; [apply Hco|]|]. split; [done|].
    intros r' b. destruct (decide (r = r')) as [<-|Hn]; [rewrite lookup_insert_eq; congruence|].
    rewrite lookup_insert_ne by done. apply Hco. }
  clearbody res. destruct res as [ok present]. cbn in H1, H2. subst ok.
  destruct (oracle r) eqn:Eo; cbn [negb andb].
  - split; [done|]. exists []. cbn. rewrite !app_nil_r. split_and!; try done.
    intros e He. by apply elem_of_nil in He.
  - destruct (contains_step (pr_new_roots acc) p) eqn:Ec; cbn; split; try done.
    + exists []. cbn. rewrite !app_nil_r. split_and!; try done.
      * intros e He. by apply elem_of_nil in He.
      * intros _. by apply contains_step_spec.
    + exists [mkExpired c p r]. split_and!; try done.
      * intros e He. by apply list_elem_of_singleton in He as ->.
      * intros _. apply elem_of_app. right. constructor.
Qed.

Lemma probe_all bs acc :
  coherent (pr_present acc) ->
  let acc' := foldl (probe oracle) acc bs in
  coherent (pr_present acc')
  /\ exists ex, pr_expired acc' = pr_expired acc ++ ex
       /\ pr_new_roots acc' = pr_new_roots acc ++ map ei_produced_by ex
       /\ (forall e, e ∈ ex -> (ei_consumer e, ei_produced_by e, ei_root e) ∈ bs /\ oracle (ei_root e) = false)
       /\ (forall c p r, (c, p, r) ∈ bs -> oracle r = false -> p ∈ pr_new_roots acc').
Proof.
  revert acc; induction bs as [|[[c p] r] bs IH]; intros acc Hco; cbn [foldl].
  { split; [done|]. exists []. cbn. rewrite !app_nil_r. split_and!; try done.
    - intros e He. by apply elem_of_nil in He.
    - intros c p r H. by apply elem_of_nil in H. }
  destruct (probe_one acc c p r Hco) as (Hco1 & ex1 & E1 & N1 & X1 & C1).
  destruct (IH _ Hco1) as (Hco2 & ex2 & E2 & N2 & X2 & C2).
  split; [done|]. exists (ex1 ++ ex2). rewrite E2, N2, E1, N1, map_app, <- !app_assoc.
  split_and!; try done.
  - intros e He. apply elem_of_app in He as [He|He].
    + destruct (X1 e He) as [-> Ho]. split; [constructor|done].
    + destruct (X2 e He). split; [by constructor|done].
  - intros c' p' r' Hin Ho. apply elem_of_cons in Hin as [[= -> -> ->]|Hin].
    + specialize (C1 Ho). rewrite N1 in C1. rewrite app_assoc. apply elem_of_app. by left.
    + specialize (C2 _ _ _ Hin Ho). by rewrite N2, N1, <- app_assoc in C2.
Qed.

Lemma probe_round_spec invalid present expired :
  coherent present ->
  let r := probe_round oracle steps consumed_of output_of invalid present expired in
  coherent (pr_present r)
  /\ exists ex, pr_expired r = expired ++ ex /\ pr_new_roots r = map ei_produced_by ex
       /\ (forall e, e ∈ ex -> uses invalid (ei_consumer e) (ei_produced_by e) (ei_root e)
             /\ oracle (ei_root e) = false)
       /\ (forall c p root, uses invalid c p root -> oracle root = false -> p ∈ pr_new_roots r).
Proof.
  intros Hco r. unfold r, probe_round.
  destruct (probe_all (dedup (sort_stable boundary_leb (boundary steps consumed_of output_of invalid)))
    (mkProbe present expired []) Hco) as (H1 & ex & H2 & H3 & H4 & H5).
  split; [done|]. exists ex. split; [done|]. split; [done|].
  setoid_rewrite elem_of_dedup in H4. setoid_rewrite elem_of_sort_stable in H4.
  setoid_rewrite elem_of_boundary in H4.
  split; [done|]. intros c p root Hu Ho. apply (H5 c p root); [|done].
  by apply elem_of_dedup, elem_of_sort_stable, elem_of_boundary.
Qed.

Lemma elem_of_roots roots inv x :
  x ∈ foldl (fun inv root => inv ∪ invalidation_set root steps) inv roots
  <-> x ∈ inv \/ exists r, r ∈ roots /\ reaches steps r x.
Proof.
  revert inv; induction roots as [|r roots IH]; intros inv; cbn [foldl].
  - split; [by left|]. intros [?|(r & Hr & _)]; [done|by apply elem_of_nil in Hr].
  - rewrite IH, elem_of_union, invalidation_set_spec. setoid_rewrite elem_of_cons. naive_solver.
Qed.

(** An expired input: consumed by a member, produced by a step that was
    dragged in for it, and really gone. *)
Definition honest (invalid : gset StepId) (e : ExpiredInput) : Prop :=
  (exists s, s ∈ steps /\ sr_step s = ei_consumer e) /\ ei_consumer e ∈ invalid
  /\ ei_produced_by e ∈ invalid
  /\ ei_produced_by e ∈ default [] (consumed_of !! ei_consumer e)
  /\ output_of !! ei_produced_by e = Some (ei_root e) /\ oracle (ei_root e) = false.

Record widen_inv (target : StepId) (invalid : gset StepId) (expired : list ExpiredInput) : Prop := mkWidenInv {
  wi_target : target ∈ invalid;
  wi_closed : closed steps invalid;
  wi_sound : forall x, x ∈ invalid -> reaches steps target x
    \/ exists e, e ∈ expired /\ reaches steps (ei_produced_by e) x;
  wi_honest : forall e, e ∈ expired -> honest invalid e;
}.

Definition to_add (invalid : gset StepId) : nat :=
  size ((list_to_set (map sr_step steps) : gset StepId) ∖ invalid).

Lemma to_add_lt invalid invalid' p :
  invalid ⊆ invalid' -> p ∈ map sr_step steps -> (p ∉ invalid) -> p ∈ invalid' ->
  to_add invalid' < to_add invalid.
Proof.
  intros Hs Hp Hn Hi. unfold to_add. apply subset_size.
  assert (p ∈ (list_to_set (map sr_step steps) : gset StepId)) by by apply elem_of_list_to_set.
  split; set_solver.
Qed.

Lemma honest_mono invalid invalid' e : invalid ⊆ invalid' -> honest invalid e -> honest invalid' e.
Proof. intros Hs (H1 & H2 & H3 & H4 & H5 & H6). split_and!; auto. Qed.

(** One round that goes on keeps the invariant. *)
Lemma widen_round target invalid expired ex roots :
  widen_inv target invalid expired ->
  roots = map ei_produced_by ex ->
  (forall e, e ∈ ex -> uses invalid (ei_consumer e) (ei_produced_by e) (ei_root e)
     /\ oracle (ei_root e) = false) ->
  let invalid' := foldl (fun inv root => inv ∪ invalidation_set root steps) invalid roots in
  invalid ⊆ invalid' /\ widen_inv target invalid' (expired ++ ex).
Proof.
  intros [I1 I2 I3 I4] -> Hex invalid'.
  assert (forall x, x ∈ invalid' <-> x ∈ invalid \/ exists e, e ∈ ex /\ reaches steps (ei_produced_by e) x)
    as Hin.
  { intros x. unfold invalid'. rewrite elem_of_roots. setoid_rewrite list_elem_of_fmap. naive_solver. }
  assert (invalid ⊆ invalid') as Hsub by (intros x Hx; apply Hin; by left).
  split; [done|]. split.
  - by apply Hsub.
  - intros s n Hs Hn Hi. apply Hin in Hi as [Hi|(e & He & Hr)]; apply Hin; [left; by eapply I2|].
    right. exists e. split; [done|]. by eapply reaches_need.
  - intros x Hx. apply Hin in Hx as [Hx|(e & He & Hr)].
    + destruct (I3 x Hx) as [?|(e & He & Hr)]; [by left|]. right. exists e. split; [|done].
      apply elem_of_app. by left.
    + right. exists e. split; [|done]. apply elem_of_app. by right.
  - intros e He. apply elem_of_app in He as [He|He]; [by eapply honest_mono, I4|].
    destruct (Hex e He) as ((H1 & H2 & H3 & H4 & H5) & Ho). split_and!; auto.
    apply Hin. right. exists e. split; [done|constructor].
Qed.

Lemma to_add_le invalid : to_add invalid <= length steps.
Proof.
  unfold to_add. transitivity (size (list_to_set (map sr_step steps) : gset StepId)).
  - apply subseteq_size. set_solver.
  - rewrite <- (length_map sr_step steps). apply size_ids_le.
Qed.

Hypothesis outputs_of_steps : forall p r, output_of !! p = Some r -> p ∈ map sr_step steps.

Lemma widen_correct fuel target invalid present expired :
  to_add invalid < fuel -> coherent present -> widen_inv target invalid expired ->
  let '(invalid', expired') := widen_loop oracle steps consumed_of output_of fuel invalid present expired in
  invalid ⊆ invalid' /\ widen_inv target invalid' expired'
  /\ (forall c p r, uses invalid' c p r -> oracle r = true).
Proof.
  revert invalid present expired; induction fuel as [|fuel IH]; intros invalid present expired Hf Hco I; [lia|].
  cbn [widen_loop]. destruct (probe_round_spec invalid present expired Hco) as (Hco' & ex & E1 & E2 & E3 & E4).
  set (rd := probe_round _ _ _ _ _ _ _) in *. destruct (pr_new_roots rd) as [|p roots] eqn:En.
  - destruct ex; [|done]. rewrite E1, app_nil_r. split; [done|]. split; [done|].
    intros c p r Hu. destruct (oracle r) eqn:Eo; [done|]. specialize (E4 _ _ _ Hu Eo). by apply elem_of_nil in E4.
  - destruct (widen_round target invalid expired ex (p :: roots) I E2 E3) as [Hsub I'].
    set (invalid' := foldl _ _ _) in *.
    assert (to_add invalid' < to_add invalid) as Hlt.
    { destruct ex as [|e ex]; [done|]. injection E2 as -> _.
      destruct (E3 e) as ((H1 & H2 & H3 & H4 & H5) & Ho); [constructor|].
      eapply to_add_lt; [done|by eapply outputs_of_steps|done|]. apply (wi_honest _ _ _ I').
      apply elem_of_app. right. constructor. }
    rewrite E1. specialize (IH invalid' (pr_present rd) (expired ++ ex)).
    destruct (widen_loop _ _ _ _ fuel _ _ _) as [inv2 exp2].
    destruct IH as (J1 & J2 & J3); [lia|done|done|]. split; [by etrans|done].
Qed.

End WidenFacts.

(** C27: A widened rerun is complete, and no larger than it must be. For the
    plan of a rerun of [target] (the recorded outputs are of steps of the
    Run), whatever snapshots the store still holds: the set contains the
    target and everything downstream of any of its members; every snapshot a
    member would consume from a step that is not re-run is still there, so
    nothing in the set can be dispatched without its data; each member is the
    target, a descendant of it, or a descendant of a step whose snapshot a
    member needed and the store had lost; each reported expiry is real (that
    consumer, that producer, that root, and the store denies it) and its
    producer re-runs; and the reported widening is exactly what the target's
    own cascade does not contain. The loop always reaches this fixpoint. *)
Theorem rerun_plan_complete oracle target steps consumed_of output_of :
  (forall p r, output_of !! p = Some r -> p ∈ map sr_step steps) ->
  let plan := plan_over (Some oracle) target steps consumed_of output_of in
  let member x := x ∈ rp_invalidated plan in
  member target
  /\ (forall s n, s ∈ steps -> n ∈ sr_needs s -> member n -> member (sr_step s))
  /\ (forall s p root, s ∈ steps -> member (sr_step s) -> ~ member p ->
        p ∈ default [] (consumed_of !! sr_step s) -> output_of !! p = Some root -> oracle root = true)
  /\ (forall x, member x -> reaches steps target x
        \/ exists e, e ∈ rp_expired plan /\ reaches steps (ei_produced_by e) x)
  /\ (forall e, e ∈ rp_expired plan ->
        member (ei_consumer e) /\ member (ei_produced_by e)
        /\ ei_produced_by e ∈ default [] (consumed_of !! ei_consumer e)
        /\ output_of !! ei_produced_by e = Some (ei_root e) /\ oracle (ei_root e) = false)
  /\ (forall x, x ∈ rp_widened plan <-> member x /\ ~ reaches steps target x).
Proof.
  intros Hout. unfold plan_over. cbv zeta.
  pose proof (widen_correct oracle steps consumed_of output_of Hout (S (length steps)) target
    (invalidation_set target steps) ∅ []) as H.
  destruct (widen_loop _ _ _ _ _ _ _ _) as [invalid expired]. cbn [rp_invalidated rp_widened rp_expired].
  destruct H as (Hsub & [I1 I2 I3 I4] & Hb).
  - pose proof (to_add_le steps (invalidation_set target steps)). lia.
  - intros r b. by rewrite lookup_empty.
  - split; [apply invalidation_set_target|apply invalidation_set_closed| |].
    + intros x Hx. left. by apply invalidation_set_spec.
    + intros e He. by apply elem_of_nil in He.
  - assert (forall x, x ∈ sort_ids (elements invalid) <-> x ∈ invalid) as Hm.
    { intros x. unfold sort_ids. rewrite merge_sort_Permutation. apply elem_of_elements. }
    setoid_rewrite Hm. split; [done|]. split; [done|]. split.
    { intros s p root Hs Hi Hp Hc Ho. apply (Hb (sr_step s) p root). split_and!; try done. by exists s. }
    split; [done|]. split.
    { intros e He. destruct (I4 e He) as (_ & H). by split_and!; apply H. }
    intros x. unfold sort_ids. rewrite merge_sort_Permutation, elem_of_elements, elem_of_difference.
    by rewrite invalidation_set_spec.
Qed.

Lemma rerun_plan_complete_witness :
  let steps := [mkStepRun "r" "clone" StepSucceeded [] [] None;
                mkStepRun "r" "build" StepSucceeded [] ["clone"] None;
                mkStepRun "r" "test" StepFailed [] ["build"] None] in
  let consumed_of := list_to_map [("clone", []); ("build", ["clone"]); ("test", ["build"])] in
  let output_of := list_to_map [("clone", "c0"); ("build", "b0")] in
  let plan := plan_over (Some (fun root => String.eqb root "c0")) "test" steps consumed_of output_of in
  rp_invalidated plan = ["build"; "test"] /\ rp_widened plan = ["build"]
  /\ (forall e, e ∈ rp_expired plan -> ei_produced_by e ∈ rp_invalidated plan).
Proof.
  cbn zeta. set (steps := [_; _; _]).
  set (output_of := list_to_map [("clone", "c0"); ("build", "b0")]).
  split; [vm_compute; reflexivity|]. split; [vm_compute; reflexivity|].
  destruct (rerun_plan_complete (fun root => String.eqb root "c0") "test" steps
    (list_to_map [("clone", []); ("build", ["clone"]); ("test", ["build"])]) output_of)
    as (_ & _ & _ & _ & H & _).
  - intros p r Hp. unfold output_of in Hp. apply elem_of_list_to_map_2 in Hp.
    repeat (apply elem_of_cons in Hp as [[= -> ->]|Hp]; [unfold steps; cbn [map sr_step]; set_solver|]).
    apply elem_of_nil in Hp. contradiction.
  - intros e He. exact (proj1 (proj2 (H e He))).
Defined.

(** ** The disclosed list is the set, in execution order *)

Lemma btree_keys_spec {A} (m : gmap string A) id : id ∈ btree_keys m <-> id ∈ dom m.
Proof. unfold btree_keys, sort_ids. rewrite merge_sort_Permutation. apply elem_of_elements. Qed.
Lemma btree_keys_nodup {A} (m : gmap string A) : NoDup (btree_keys m).
Proof. unfold btree_keys, sort_ids. rewrite merge_sort_Permutation. apply NoDup_elements. Qed.

Lemma foldl_delete_lookup {A} (l : list string) (m : gmap string A) id :
  foldl (fun m id => delete id m) m l !! id = if decide (id ∈ l) then None else m !! id.
Proof.
  revert m; induction l as [|x l IH]; intros m; cbn [foldl].
  - by rewrite decide_False by apply not_elem_of_nil.
  - rewrite IH. destruct (decide (id ∈ l)) as [Hl|Hl].
    + by rewrite decide_True by (by constructor).
    + destruct (decide (id = x)) as [->|Hn].
      * rewrite decide_True by constructor. by rewrite lookup_delete_eq.
      * rewrite lookup_delete_ne by done. rewrite decide_False; [done|].
        intros [->|?]%elem_of_cons; done.
Qed.

Lemma foldl_union_elem (l : list string) (em : gset string) id :
  id ∈ foldl (fun em id => {[id]} ∪ em) em l <-> id ∈ em \/ id ∈ l.
Proof.
  revert em; induction l as [|x l IH]; intros em; cbn [foldl].
  - split; [by left|]. intros [?|H]; [done|by apply elem_of_nil in H].
  - rewrite IH, elem_of_cons. set_solver.
Qed.

Section PlannedFacts.
Variable target : StepId.
Variable invalid base : gset StepId.
Variable expired : list ExpiredInput.
Abbreviation planned_of := (planned_of target invalid base expired).

Definition keyed_rows (m : gmap string StepRun) : Prop := forall id s, m !! id = Some s -> sr_step s = id.

Lemma planned_step s : pl_step (planned_of s) = sr_step s.
Proof. unfold Plan.planned_of. by destruct (reason_of _ _ _ _ _). Qed.

(** Emitting a list of present keys. *)
Lemma emit_keys (m : gmap string StepRun) keys :
  keyed_rows m -> (forall id, id ∈ keys -> id ∈ dom m) ->
  map pl_step (map planned_of (omap (fun id => m !! id) keys)) = keys.
Proof.
  intros Hk. induction keys as [|id keys IH]; intros Hd; [done|]. cbn.
  destruct (m !! id) as [s|] eqn:E.
  - cbn. rewrite planned_step, (Hk _ _ E), IH; [done|]. intros x Hx. apply Hd. by constructor.
  - exfalso. apply not_elem_of_dom in E. apply E, Hd. constructor.
Qed.

Lemma emit_of (m : gmap string StepRun) keys p :
  keyed_rows m -> p ∈ map planned_of (omap (fun id => m !! id) keys) ->
  exists s, m !! pl_step p = Some s /\ p = planned_of s /\ pl_step p ∈ keys.
Proof.
  intros Hk Hp. apply list_elem_of_fmap in Hp as (s & -> & Hs). apply list_elem_of_omap in Hs as (id & Hid & E).
  rewrite planned_step, (Hk _ _ E). by exists s.
Qed.

Section Order.
Variable rank : StepId -> nat.

(** The dependencies of what remains are emitted or remain, and descend. *)
Definition ordered (rem : gmap string StepRun) (emitted : gset StepId) : Prop :=
  forall id s n, rem !! id = Some s -> n ∈ sr_needs s -> n ∈ invalid ->
    n ∈ emitted \/ (n ∈ dom rem /\ rank n < rank id).

Lemma is_ready_spec emitted s :
  is_ready invalid emitted s = true <-> forall n, n ∈ sr_needs s -> n ∈ invalid -> n ∈ emitted.
Proof.
  unfold is_ready. rewrite forallb_forall. setoid_rewrite orb_true_iff.
  setoid_rewrite bool_decide_eq_true. setoid_rewrite <- list_elem_of_In. split.
  - intros H n Hn Hi. by destruct (H n Hn).
  - intros H n Hn. destruct (decide (n ∈ invalid)); [right; auto|by left].
Qed.

Lemma progress rem emitted id s :
  ordered rem emitted -> rem !! id = Some s ->
  exists id' s', rem !! id' = Some s' /\ is_ready invalid emitted s' = true.
Proof.
  intros Ho. remember (rank id) as r eqn:Er. revert id s Er.
  induction (lt_wf r) as [r _ IH]. intros id s -> Hs.
  destruct (is_ready invalid emitted s) eqn:E; [by exists id, s|].
  assert (Exists (fun n => n ∈ invalid /\ (n ∉ emitted)) (sr_needs s)) as Hex.
  { unfold is_ready in E. apply not_true_iff_false in E. rewrite forallb_forall in E.
    apply dec_stable. intros Hno. apply E. intros n Hn. apply orb_true_iff. rewrite !bool_decide_eq_true.
    destruct (decide (n ∈ invalid)); [|by left]. destruct (decide (n ∈ emitted)); [by right|].
    exfalso. apply Hno, Exists_exists. exists n. split; [by apply list_elem_of_In|done]. }
  apply Exists_exists in Hex as (n & Hn & Hi & He).
  destruct (Ho id s n Hs Hn Hi) as [?|[Hd Hr]]; [done|].
  apply elem_of_dom in Hd as [s' Hs']. by eapply (IH (rank n)).
Qed.

(** Each element comes after its needs in the set. *)
Definition in_order (rem : gmap string StepRun) (done_ : list StepId) (ext : list PlannedStep) : Prop :=
  forall pre p post s n, ext = pre ++ p :: post -> rem !! pl_step p = Some s ->
    n ∈ sr_needs s -> n ∈ invalid -> n ∈ done_ \/ n ∈ map pl_step pre.

Lemma in_order_app rem rem' done_ e1 e2 :
  in_order rem done_ e1 ->
  (forall p, p ∈ e2 -> rem' !! pl_step p = rem !! pl_step p) ->
  in_order rem' (done_ ++ map pl_step e1) e2 -> in_order rem done_ (e1 ++ e2).
Proof.
  intros H1 Hr H2 pre p post s n E Hs Hn Hi.
  destruct (decide (length pre < length e1)) as [Hl|Hl].
  - assert (exists post1, e1 = pre ++ p :: post1) as [post1 ->].
    { apply app_eq_inv in E as [(k & E1 & E2)|(k & -> & E2)].
      - destruct k as [|x k]; [rewrite app_nil_r in E1; subst; lia|].
        injection E2 as -> ->. by exists k.
      - rewrite length_app in Hl. lia. }
    by eapply H1.
  - assert (exists pre2, pre = e1 ++ pre2 /\ e2 = pre2 ++ p :: post) as (pre2 & -> & ->).
    { apply app_eq_inv in E as [(k & -> & E2)|(k & -> & E2)]; [|by exists k].
      destruct k as [|x k]; [exists []; by rewrite !app_nil_r in *|]. rewrite length_app in Hl. cbn in Hl. lia. }
    assert (rem' !! pl_step p = Some s) as Hs'.
    { rewrite Hr; [done|]. apply elem_of_app. right. constructor. }
    rewrite map_app, elem_of_app.
    destruct (H2 pre2 p post s n eq_refl Hs' Hn Hi) as [H|H]; [|by right; right].
    apply elem_of_app in H as [?|?]; [by left|by right; left].
Qed.

(** One round: the ready keys, emitted. *)
Lemma kahn_round rem emitted ready :
  keyed_rows rem ->
  ready = filter (fun id => is_ready invalid emitted <$> rem !! id = Some true) (btree_keys rem) ->
  let ext := map planned_of (omap (fun id => rem !! id) ready) in
  map pl_step ext = ready /\ NoDup ready /\ (forall id, id ∈ ready -> id ∈ dom rem)
  /\ (forall p, p ∈ ext -> exists s, rem !! pl_step p = Some s /\ p = planned_of s)
  /\ (forall done_, (forall id, id ∈ emitted -> id ∈ done_) -> in_order rem done_ ext).
Proof.
  intros Hk -> ext. set (ready := filter _ _) in *.
  assert (forall id, id ∈ ready -> id ∈ dom rem) as Hdom.
  { intros id Hid. apply list_elem_of_filter in Hid as [_ Hid]. by apply btree_keys_spec. }
  split; [by apply emit_keys|]. split; [apply NoDup_filter, btree_keys_nodup|]. split; [done|]. split.
  - intros p Hp. destruct (emit_of _ _ _ Hk Hp) as (s & H1 & H2 & _). by exists s.
  - intros done_ Hd pre p post s n E Hs Hn Hi. left. apply Hd.
    assert (p ∈ ext) as Hp by (rewrite E; apply elem_of_app; right; constructor).
    destruct (emit_of _ _ _ Hk Hp) as (_ & _ & _ & Hr). apply list_elem_of_filter in Hr as [Hr _].
    rewrite Hs in Hr. injection Hr as Hr. by eapply is_ready_spec.
Qed.

Lemma kahn_spec fuel rem emitted out :
  size rem < fuel -> keyed_rows rem ->
  (forall id, id ∈ emitted <-> id ∈ map pl_step out) ->
  exists ext, kahn_loop target invalid base expired fuel rem emitted out = out ++ ext
    /\ NoDup (map pl_step ext)
    /\ (forall id, id ∈ map pl_step ext <-> id ∈ dom rem)
    /\ (forall p, p ∈ ext -> exists s, rem !! pl_step p = Some s /\ p = planned_of s)
    /\ (ordered rem emitted -> in_order rem (map pl_step out) ext).
Proof.
  revert rem emitted out; induction fuel as [|fuel IH]; intros rem emitted out Hf Hk He; [lia|].
  cbn [kahn_loop]. case_decide as Hr.
  { exists []. subst rem. rewrite app_nil_r. split; [done|]. split; [constructor|]. split.
    - intros id. split; intros H; [by apply elem_of_nil in H|set_solver].
    - split; [intros p Hp; by apply elem_of_nil in Hp|]. intros _ pre p post s n E. by destruct pre. }
  cbv zeta. set (ready := filter _ _).
  destruct (kahn_round rem emitted ready Hk eq_refl) as (R1 & R2 & R3 & R4 & R5).
  set (ext1 := map planned_of (omap (fun id => rem !! id) ready)) in *.
  destruct ready as [|k0 ready'] eqn:Er; rewrite <- ?Er in *.
  - exists (map planned_of (omap (fun id => rem !! id) (btree_keys rem))). split; [done|].
    rewrite emit_keys by (done || (intros id; apply btree_keys_spec)).
    split; [apply btree_keys_nodup|]. split; [apply btree_keys_spec|]. split.
    + intros p Hp. destruct (emit_of _ _ _ Hk Hp) as (s & H1 & H2 & _). by exists s.
    + intros Ho. exfalso. apply map_choose in Hr as (id & s & Hs).
      destruct (progress rem emitted id s Ho Hs) as (id' & s' & Hs' & Hready).
      assert (id' ∈ ready) as Hin; [|rewrite Er in Hin; by apply elem_of_nil in Hin].
      unfold ready. apply list_elem_of_filter. rewrite Hs'. cbn. split; [congruence|].
      apply btree_keys_spec, elem_of_dom. by exists s'.
  - set (rem' := foldl _ rem ready). set (em' := foldl _ emitted ready).
    assert (forall id, rem' !! id = if decide (id ∈ ready) then None else rem !! id) as Hrem
      by (intros; apply foldl_delete_lookup).
    assert (forall id, id ∈ em' <-> id ∈ emitted \/ id ∈ ready) as Hem by (intros; apply foldl_union_elem).
    destruct (IH rem' em' (out ++ ext1)) as (ext2 & E & N & D & P & O).
    + assert (dom rem' ⊂ dom rem) as Hsub; [|apply subset_size in Hsub; rewrite !size_dom in Hsub; lia].
      assert (k0 ∈ ready) as Hk0 by (rewrite Er; constructor). split.
      * intros id Hid. apply elem_of_dom in Hid as [x Hx]. rewrite Hrem in Hx. case_decide; [done|].
        apply elem_of_dom. by exists x.
      * intros Hall. specialize (Hall k0 (R3 k0 Hk0)). apply elem_of_dom in Hall as [x Hx].
        rewrite Hrem, decide_True in Hx; done.
    + intros id s. rewrite Hrem. case_decide; [done|apply Hk].
    + intros id. rewrite Hem, He, map_app, elem_of_app, R1. done.
    + exists (ext1 ++ ext2). rewrite E, app_assoc. split; [done|].
      assert (forall id, id ∈ dom rem' <-> id ∈ dom rem /\ (id ∉ ready)) as Hdom.
      { intros id. rewrite !elem_of_dom, Hrem. case_decide; [|naive_solver].
        split; [by intros [? ?]|by intros [_ ?]]. }
      assert (forall p, p ∈ ext2 -> rem' !! pl_step p = rem !! pl_step p) as Hsame.
      { intros p Hp. destruct (P p Hp) as (s & Hs & _). rewrite Hs. rewrite Hrem in Hs.
        case_decide; [done|]. by rewrite Hs. }
      split_and!.
      * rewrite map_app, R1. apply NoDup_app. split; [done|]. split; [|done].
        intros x Hx Hx2. apply D, Hdom in Hx2 as [_ ?]. done.
      * intros id. rewrite map_app, elem_of_app, R1, D, Hdom.
        destruct (decide (id ∈ ready)); [|naive_solver]. split; [intros _; by apply R3|by left].
      * intros p Hp. apply elem_of_app in Hp as [Hp|Hp]; [by apply R4|].
        destruct (P p Hp) as (s & Hs & ->). exists s. by rewrite <- Hsame.
      * intros Ho. apply (in_order_app rem rem'); [apply R5; intros id; apply He|done|].
        rewrite <- map_app. apply O. intros id s n Hs Hn Hi. rewrite Hrem in Hs. case_decide; [done|].
        rewrite Hem, Hdom. destruct (Ho id s n Hs Hn Hi) as [?|[Hd Hrk]]; [by left; left|].
        destruct (decide (n ∈ ready)); [by left; right|by right].
Qed.
End Order.
End PlannedFacts.

Lemma min_id_elem l m : min_id l = Some m -> m ∈ l.
Proof.
  unfold min_id. assert (forall acc, foldl (fun acc n => match acc with
      | None => Some n | Some m => if decide (str_le m n) then Some m else Some n end) acc l = Some m ->
      acc = Some m \/ m ∈ l) as H.
  { induction l as [|x l IH]; intros acc; cbn [foldl]; [by left|]. intros E. apply IH in E as [E|E].
    - destruct acc as [a|]; [case_decide|]; injection E as <-; [by left|right; constructor..].
    - right. by constructor. }
  intros E. by destruct (H _ E).
Qed.

Lemma consumer_of_spec expired x c :
  consumer_of expired !! x = Some c -> exists e, e ∈ expired /\ ei_produced_by e = x /\ ei_consumer e = c.
Proof.
  induction expired as [|e l IH] using rev_ind;
    [unfold consumer_of; cbn; by rewrite lookup_empty|].
  unfold consumer_of in *. rewrite foldl_app. cbn [foldl].
  set (m := foldl _ ∅ l) in *. setoid_rewrite elem_of_app.
  destruct (m !! ei_produced_by e) eqn:E; [intros H; destruct (IH H) as (e' & He & ?); eauto|].
  destruct (decide (ei_produced_by e = x)) as [<-|Hn].
  - rewrite lookup_insert_eq. intros [= <-]. exists e. split_and!; try done. right. constructor.
  - rewrite lookup_insert_ne by done. intros H; destruct (IH H) as (e' & He & ?); eauto.
Qed.

Lemma by_step_planned steps (invalid : gset StepId) :
  NoDup (map sr_step steps) -> (forall x, x ∈ invalid -> x ∈ map sr_step steps) ->
  let rem := by_step (filter (fun s => sr_step s ∈ invalid) steps) in
  keyed_rows rem /\ (forall x, x ∈ dom rem <-> x ∈ invalid)
  /\ (forall s, s ∈ steps -> sr_step s ∈ invalid -> rem !! sr_step s = Some s).
Proof.
  intros Hnd Hin rem. set (l := filter _ steps) in *.
  assert (NoDup (map sr_step l)) as Hl.
  { eapply sublist_NoDup; [exact Hnd|]. apply (fmap_sublist sr_step), sublist_filter. }
  assert (forall s, s ∈ steps -> sr_step s ∈ invalid -> rem !! sr_step s = Some s) as Hlook.
  { intros s Hs Hi. apply by_step_lookup; [done|]. by apply list_elem_of_filter. }
  split; [|split; [|done]].
  - intros id s Hs. by apply by_step_keyed in Hs as [_ ?].
  - intros x. split.
    + intros Hx. apply elem_of_dom in Hx as [s Hs]. apply by_step_keyed in Hs as [Hs <-].
      by apply list_elem_of_filter in Hs as [? _].
    + intros Hx. destruct (proj1 (list_elem_of_fmap _ _ _) (Hin x Hx)) as (s & -> & Hs).
      apply elem_of_dom. exists s. by apply Hlook.
Qed.

(** A rerun plan discloses exactly what will run, in an order it can run
    in, and why. The disclosed steps are the members of the set, each once
    (even on a cycle); on a DAG every member comes after the members it needs;
    the step the human chose, and it alone, is marked as the target; a step
    marked [Regenerate] names the consumer of an expired input it produced;
    [Cascade] members are of the target's own cascade, [RegenerateCascade]
    members are not; and a step disclosed because of another names one of its
    own needs in the set, which the list has shown before it. *)
Theorem planned_steps_in_order target steps (invalid base : gset StepId) expired :
  NoDup (map sr_step steps) -> (forall x, x ∈ invalid -> x ∈ map sr_step steps) ->
  let out := planned_steps target steps invalid base expired in
  NoDup (map pl_step out)
  /\ (forall x, x ∈ map pl_step out <-> x ∈ invalid)
  /\ (forall p, p ∈ out -> exists s, s ∈ steps /\ sr_step s = pl_step p /\ pl_is_gate p = is_gate s
        /\ (pl_reason p = PrTarget <-> pl_step p = target)
        /\ match pl_reason p with
           | PrTarget => pl_because_of p = None
           | PrRegenerate => exists e, e ∈ expired /\ ei_produced_by e = pl_step p
                               /\ pl_because_of p = Some (ei_consumer e)
           | PrCascade => pl_step p ∈ base
           | PrRegenerateCascade => pl_step p ∉ base
           end)
  /\ (forall rank : StepId -> nat,
        (forall s n, s ∈ steps -> n ∈ sr_needs s -> n ∈ map sr_step steps -> rank n < rank (sr_step s)) ->
        forall pre p post s n, out = pre ++ p :: post -> s ∈ steps -> sr_step s = pl_step p ->
          n ∈ invalid -> n ∈ sr_needs s
            \/ (pl_because_of p = Some n /\ (pl_reason p = PrCascade \/ pl_reason p = PrRegenerateCascade)) ->
          n ∈ map pl_step pre).
Proof.
  intros Hnd Hin out. destruct (by_step_planned steps invalid Hnd Hin) as (Hk & Hd & Hl).
  unfold out, planned_steps. cbv zeta. set (rem := by_step _) in *.
  assert (forall rank, exists ext, kahn_loop target invalid base expired (S (size rem)) rem ∅ [] = [] ++ ext
    /\ NoDup (map pl_step ext) /\ (forall id, id ∈ map pl_step ext <-> id ∈ dom rem)
    /\ (forall p, p ∈ ext -> exists s, rem !! pl_step p = Some s
          /\ p = planned_of target invalid base expired s)
    /\ (ordered invalid rank rem ∅ -> in_order invalid rem (map pl_step []) ext)) as H.
  { intros rank. apply kahn_spec; [lia|done|]. intros id. cbn. set_solver. }
  destruct (H (fun _ => 0)) as (ext & E & N & D & P & _). rewrite app_nil_l in E. rewrite E.
  split; [done|]. split; [intros x; by rewrite D, Hd|].
  assert (forall p, p ∈ ext -> exists s, s ∈ steps /\ sr_step s = pl_step p /\ rem !! pl_step p = Some s
            /\ p = planned_of target invalid base expired s) as P'.
  { intros p Hp. destruct (P p Hp) as (s & Hs & Ep). exists s. pose proof (by_step_keyed _ _ _ Hs) as [Hs' ?].
    apply list_elem_of_filter in Hs' as [_ ?]. by split_and!. }
  split.
  - intros p Hp. destruct (P' p Hp) as (s & Hs & Hid & _ & ->). exists s. split; [done|]. split; [done|].
    unfold planned_of, reason_of. case_decide as Ht; [by split_and!|].
    destruct (consumer_of expired !! sr_step s) as [c|] eqn:Ec; [|case_decide]; cbn; split_and!; try done.
    apply consumer_of_spec in Ec as (e & He & <- & <-). by exists e.
  - intros rank Hr pre p post s n Eo Hs Hid Hi Hn.
    destruct (H rank) as (ext' & E' & _ & _ & _ & O). rewrite app_nil_l, E in E'. subst ext'.
    assert (p ∈ ext) as Hp by (rewrite Eo; apply elem_of_app; right; constructor).
    destruct (P' p Hp) as (s' & Hs' & Hid' & Hrow & Ep).
    assert (s' = s) as -> by (specialize (Hl s Hs); rewrite Hid, Hrow in Hl; 
      assert (pl_step p ∈ invalid) by (apply Hd, elem_of_dom; by exists s'); naive_solver).
    assert (n ∈ sr_needs s) as Hneed.
    { destruct Hn as [?|[Hb Hre]]; [done|]. rewrite Ep in Hb, Hre. unfold planned_of, reason_of in Hb, Hre.
      case_decide; [by destruct Hre|]. destruct (consumer_of expired !! _); [by destruct Hre|].
      case_decide; cbn in Hb; apply min_id_elem, list_elem_of_filter in Hb as [_ ?]; done. }
    destruct (O ltac:(
      intros id s0 m Hs0 Hm Hmi; right; split; [by apply Hd|];
      pose proof (by_step_keyed _ _ _ Hs0) as [Hs0' <-];
      apply list_elem_of_filter in Hs0' as [_ ?]; apply Hr; auto) pre p post s n Eo Hrow Hneed Hi) as [Hx|Hx];
      [by apply elem_of_nil in Hx|done].
Qed.

Lemma planned_steps_in_order_witness :
  let steps := [mkStepRun "r" "test" StepFailed [] ["build"] None;
                mkStepRun "r" "build" StepSucceeded [] ["clone"] None;
                mkStepRun "r" "clone" StepSucceeded [] [] None] in
  let invalid : gset StepId := {["build"; "test"]} in
  let out := planned_steps "test" steps invalid {["test"]} [mkExpired "test" "build" "b0"] in
  map pl_step out = ["build"; "test"] /\ NoDup (map pl_step out).
Proof.
  cbn zeta. split; [vm_compute; reflexivity|].
  apply (planned_steps_in_order "test"
    [mkStepRun "r" "test" StepFailed [] ["build"] None;
     mkStepRun "r" "build" StepSucceeded [] ["clone"] None;
     mkStepRun "r" "clone" StepSucceeded [] [] None] {["build"; "test"]} {["test"]}).
  - apply (bool_decide_unpack _). vm_compute. exact I.
  - intros x Hx. cbn [map sr_step]. set_solver.
Defined.
