(* ===== verification/Rerun.v ===== *)
(** * Rerun, retry and the gate verdicts of the API

    The operations an API replica calls without an executor
    (scarab-engine/src/scheduler.rs): rerun and retry a step, release, reject
    or approve a gate, pin a Run's snapshots. Each is a program of [Program];
    the snapshot oracle is a parameter. *)

From S2P Require Import Prelude Text Values Cel Params Scopes Render Domain Meta Store Outbox Commits Gates Program Transitions LaunchSpec Cancel Plan.

Definition ensure_creation_finished (run : RunId) : Prog RerunError unit :=
  let* unfinished := into ReDb (call (run_creation_unfinished run)) in
  if unfinished then fail ReCreationUnfinished else ret tt.

(** ** Planning over the store *)

(** The consumption set and the output of one step. *)
Definition read_snapshot_use (run : RunId) (s : StepRun)
  : Prog DbError (StepId * list StepId * option string) :=
  let* explicit := call (step_inputs run (sr_step s)) in
  let* out := call (step_output run (sr_step s)) in
  ret (sr_step s, default (sr_needs s) explicit, out).

Definition consumed_map (uses : list (StepId * list StepId * option string)) : gmap StepId (list StepId) :=
  foldl (fun m u => <[u.1.1 := u.1.2]> m) ∅ uses.
Definition output_map (uses : list (StepId * list StepId * option string)) : gmap StepId string :=
  foldl (fun m u => match u.2 with Some o => <[u.1.1 := o]> m | None => m end) ∅ uses.

Definition plan_rerun_over (oracle : option (string -> bool)) (run : RunId) (target : StepId)
    (steps : list StepRun) : Prog RerunError RerunPlan :=
  match oracle with
  | None => ret (plan_over None target steps ∅ ∅)
  | Some _ =>
      let* uses := into ReDb (map_each (read_snapshot_use run) steps) in
      ret (plan_over oracle target steps (consumed_map uses) (output_map uses))
  end.

Definition plan_rerun (oracle : option (string -> bool)) (run : RunId) (target : StepId)
  : Prog RerunError RerunPlan :=
  let* steps := into ReDb (call (steps_of_run run)) in
  match find_step target steps with
  | None => fail (ReStepNotFound target)
  | Some _ => plan_rerun_over oracle run target steps
  end.

(** ** Re-arming *)

Definition supersede_key (run : RunId) (target step : StepId) (attempt : AttemptId) : string :=
  "supersede:" +:+ run +:+ ":" +:+ target +:+ ":" +:+ step +:+ "/" +:+ attempt.

Definition supersede_teardown_intent (run : RunId) (target : StepId) (superseded : TeardownAttempt)
    (now : Timestamp) : OutboxMessage :=
  mkMsg 0 run SUPERSEDE_TEARDOWN (PAttemptTeardown [superseded])
    (supersede_key run target (td_step superseded) (td_attempt superseded)) now.

Definition supersede_gate_attempt (run : RunId) (step : StepId) (attempt : AttemptId)
    (by_ : option string) : Prog DbError bool :=
  let* now := now_ in
  call (close_running_attempt run step attempt OSuperseded
          (Some (event run (AttemptSuperseded step attempt by_) now))).

Definition commit_rearm (run : RunId) (target : StepId) (s : StepRun) (by_ : option string)
  : Prog DbError unit :=
  let* now := now_ in
  let '(frontier, live) :=
    if decide (sr_status s = StepRunning)
    then (FrontierIs (att_id <$> last (sr_attempts s)), in_flight_attempt s)
    else (FrontierAny, None) in
  call (commit_step_transition run (sr_step s) (sr_status s) StepPending frontier
    ((fun a => (att_id a, StampOutcome OSuperseded)) <$> live)
    (event run (StepTransitioned (sr_step s) (sr_status s) StepPending) now
       :: match live with
          | Some a => [event run (AttemptSuperseded (sr_step s) (att_id a) by_) now]
          | None => []
          end)
    (match live with
     | Some a => [supersede_teardown_intent run target (mkTeardown (sr_step s) (att_id a)) now]
     | None => []
     end)).

(** [for _ in 0..8]. *)
Fixpoint rearm_raced_tries (tries : nat) (run : RunId) (target step : StepId) (by_ : option string)
  : Prog RerunError unit :=
  match tries with
  | O => ret tt
  | S tries' =>
      let* live := into ReDb (call (steps_of_run run)) in
      match find_step step live with
      | None => ret tt
      | Some s =>
          if decide (sr_status s = StepPending) then ret tt
          else
            let* r := attempt_ (commit_rearm run target s by_) in
            match r with
            | Ok _ => ret tt
            | Err DbConflict => rearm_raced_tries tries' run target step by_
            | Err e => fail (ReDb e)
            end
      end
  end.
Definition rearm_raced_step (run : RunId) (target step : StepId) (by_ : option string)
  : Prog RerunError unit := rearm_raced_tries 8 run target step by_.

(** The body of [rearm_invalidation_set]'s loop. *)
Definition rearm_one (run : RunId) (target : StepId) (invalid : list StepId) (by_ : option string)
    (s : StepRun) : Prog RerunError unit :=
  (if contains_step invalid (sr_step s) && bool_decide (sr_status s = StepPending) then
     match open_gate_attempt s with
     | Some a =>
         let* closed := into ReDb (supersede_gate_attempt run (sr_step s) (att_id a) by_) in
         if closed then ret tt else rearm_raced_step run target (sr_step s) by_
     | None => ret tt
     end
   else ret tt) ;;;
  (if contains_step invalid (sr_step s) && negb (bool_decide (sr_status s = StepPending)) then
     let* r := attempt_ (commit_rearm run target s by_) in
     match r with
     | Ok _ => ret tt
     | Err DbConflict => rearm_raced_step run target (sr_step s) by_
     | Err e => fail (ReDb e)
     end
   else ret tt).

Definition rearm_invalidation_set (run : RunId) (target : StepId) (plan : RerunPlan)
    (steps : list StepRun) (by_ : option string) : Prog RerunError unit :=
  into ReDb (call (set_step_input run target None)) ;;;
  into ReDb (for_each (fun w => call (set_step_input run w None)) (rp_widened plan)) ;;;
  let* status := into ReDb (call (run_status_of run)) in
  (match status with
   | Some current => if run_is_terminal current then reopen run current RunRunning else ret tt
   | None => ret tt
   end) ;;;
  for_each (rearm_one run target (rp_invalidated plan) by_) steps.

(** ** Rerun and retry *)

(** A fresh generation of every shared service of the current Take. *)
Definition birth_services (run : RunId) (now : Timestamp) : Prog RerunError unit :=
  let* rows := into ReDb (call (run_services run)) in
  match max_of (map rs_take rows) with
  | None => ret tt
  | Some cur =>
      let names := sort_ids (elements (list_to_set (map rs_name
                     (filter (fun r => rs_take r = cur) rows)) : gset string)) in
      for_each (fun name => into ReDb (call (create_run_service None run (cur + 1)%Z name now))) names
  end.

Definition rerun_step_widened (oracle : option (string -> bool)) (run : RunId) (target : StepId)
    (by_ : option string) : Prog RerunError RerunPlan :=
  ensure_creation_finished run ;;;
  let* steps := into ReDb (call (steps_of_run run)) in
  match find_step target steps with
  | None => fail (ReStepNotFound target)
  | Some target_step =>
      match blocking_dep target_step steps with
      | Some blocker => fail (ReDependencyNotSatisfied target blocker)
      | None =>
          let* plan := plan_rerun_over oracle run target steps in
          let* now := now_ in
          into ReDb (call (append_event (event run
            (RunRerunRequested target (rp_invalidated plan) by_ (rp_widened plan)) now))) ;;;
          birth_services run now ;;;
          rearm_invalidation_set run target plan steps by_ ;;;
          ret plan
      end
  end.
Definition rerun_step (run : RunId) (target : StepId) (by_ : option string) : Prog RerunError unit :=
  let* _ := rerun_step_widened None run target by_ in ret tt.

Definition retry_step_widened (oracle : option (string -> bool)) (run : RunId) (target : StepId)
    (by_ : option string) : Prog RerunError RerunPlan :=
  ensure_creation_finished run ;;;
  let* steps := into ReDb (call (steps_of_run run)) in
  match find_step target steps with
  | None => fail (ReStepNotFound target)
  | Some target_step =>
      if decide (sr_status target_step = StepFailed) then
        match blocking_dep target_step steps with
        | Some blocker => fail (ReDependencyNotSatisfied target blocker)
        | None =>
            let* plan := plan_rerun_over oracle run target steps in
            let* now := now_ in
            into ReDb (call (append_event (event run
              (StepRetryRequested target (rp_invalidated plan) by_ (rp_widened plan)) now))) ;;;
            rearm_invalidation_set run target plan steps by_ ;;;
            ret plan
        end
      else fail (ReNotFailed target (sr_status target_step))
  end.
Definition retry_step (run : RunId) (target : StepId) (by_ : option string) : Prog RerunError unit :=
  let* _ := retry_step_widened None run target by_ in ret tt.

(** ** Gate verdicts *)

Record GateVerdict := mkVerdict { gv_passed : bool; gv_reason : string; gv_expired : bool }.

Definition resolve_gate (run : RunId) (gate : StepRun) (verdict : GateVerdict)
    (by_ : option string) (fence : option AttemptId) : Prog DbError bool :=
  let* now := now_ in
  let* legacy_started_at :=
    match fence with
    | Some _ => ret now
    | None => let* events := call (events_of run) in ret (wait_began_at events gate now)
    end in
  let* resolved := call (resolve_gate_wait run (sr_step gate)
    (mkGateResolution (gv_passed verdict) (gv_reason verdict) (gv_expired verdict) by_ fence
       legacy_started_at now None)) in
  ret (bool_decide (is_Some resolved)).

Definition release_gate (run : RunId) (step : StepId) : Prog RerunError unit :=
  ensure_creation_finished run ;;;
  let* steps := into ReDb (call (steps_of_run run)) in
  match List.find (fun s => String.eqb (sr_step s) step && is_gate s) steps with
  | None => fail (ReStepNotFound step)
  | Some gate =>
      if bool_decide (sr_status gate = StepPending) && negb (gate_reached gate steps)
      then fail (ReGateNotReached step)
      else
        let* resolved := into ReDb (resolve_gate run gate (mkVerdict true "released" false) None None) in
        if resolved then reopen_if_runnable run else ret tt
  end.

Definition is_rejectable_kind (kind : option string) : bool :=
  match kind with
  | Some k => contains_step ["manual"; "timer"; "external"; "plugin"] k
  | None => false
  end.

Definition reject_gate (run : RunId) (step : StepId) (by_ reason : string) : Prog RerunError bool :=
  ensure_creation_finished run ;;;
  let* steps := into ReDb (call (steps_of_run run)) in
  match find_step step steps with
  | None => fail (ReStepNotFound step)
  | Some gate =>
      if negb (is_rejectable_kind (sr_gate_kind gate)) then fail (ReNotARejectableGate step)
      else if negb (bool_decide (sr_status gate = StepPending))
      then fail (ReGateNotPending step (sr_status gate))
      else if negb (gate_reached gate steps) then fail (ReGateNotReached step)
      else
        let* resolved := into ReDb (resolve_gate run gate (mkVerdict false reason false) (Some by_) None) in
        (if resolved then reopen_if_runnable run else ret tt) ;;;
        ret resolved
  end.

Definition releases_plugin_gate (run : RunId) (step : StepId) (releaser : string) : Prog DbError bool :=
  let* steps := call (steps_of_run run) in
  if existsb (fun s => String.eqb (sr_step s) step && bool_decide (sr_gate_kind s = Some "plugin")) steps
  then let* r := call (gate_releaser run step) in ret (bool_decide (r = Some releaser))
  else ret false.

(** ** A plugin's answer to one of its gates *)

Record PluginGateVerdict := mkPluginVerdict {
  pv_passed : bool;
  pv_reason : option string;
  pv_outputs : gmap string Json;
}.
Inductive PluginGateError : Type :=
| PgNotFound
| PgNotWaiting (why : string)
| PgExpired (secs : Z)
| PgInvalid (why : string)
| PgDb (e : DbError).

Definition MAX_GATE_OUTPUT_BYTES : nat := 64 * 1024.
Definition param_type_name (t : ParamType) : string :=
  match t with PtString => "string" | PtBoolean => "boolean" | PtNumber => "number" | PtChoice => "choice" end.
Definition json_kind (v : Json) : string :=
  match v with
  | JNull => "null" | JBool _ => "boolean" | JInt _ | JFloat _ => "number" | JStr _ => "string"
  | JArr _ => "array" | JObj _ => "object"
  end.
Definition NUL : string := String (Ascii.ascii_of_nat 0) "".
Definition has_type (t : ParamType) (v : Json) : bool :=
  match t, v with
  | PtString, JStr _ | PtBoolean, JBool _ | PtNumber, (JInt _ | JFloat _) => true
  | _, _ => false
  end.

Section PluginOutputs.
Context {T : CharTables}.

(** One declared output. *)
Definition check_gate_output (names : string) (got : gmap string Json) (o : OutputSpec) : Result string Json :=
  match got !! ou_name o with
  | None => Err ("output `" +:+ ou_name o +:+ "` is missing; a release returns every output the gate declares (["
                 +:+ names +:+ "])")
  | Some v =>
      if negb (has_type (ou_type o) v) then
        Err ("output `" +:+ ou_name o +:+ "` must be a " +:+ param_type_name (ou_type o) +:+ ", got `"
             +:+ json_kind v +:+ "`")
      else if match v with JStr s => contains NUL s | _ => false end then
        Err ("output `" +:+ ou_name o +:+ "` contains a NUL character")
      else Ok v
  end.
Fixpoint check_gate_each (names : string) (declared : list OutputSpec) (got out : gmap string Json)
  : Result string (gmap string Json) :=
  match declared with
  | [] => Ok out
  | o :: rest => v ← check_gate_output names got o; check_gate_each names rest got (<[ou_name o := v]> out)
  end.
Definition check_gate_outputs (declared : list OutputSpec) (got : gmap string Json)
  : Result string (gmap string Json) :=
  let size := String.length (json_text (json_object got)) in
  let names := join ", " (map ou_name declared) in
  let keys := map fst (btree_list got) in
  if (MAX_GATE_OUTPUT_BYTES <? size)%nat then
    Err ("the outputs are " +:+ pretty (N.of_nat size) +:+ " bytes; at most "
         +:+ pretty (N.of_nat MAX_GATE_OUTPUT_BYTES) +:+ " are kept")
  else
    match List.find (contains NUL) keys with
    | Some k => Err ("output name `" +:+ escape_debug k +:+ "` contains a NUL character")
    | None =>
        match List.find (fun k => negb (bool_decide (k ∈ map ou_name declared))) keys with
        | Some extra => Err ("output `" +:+ escape_debug extra +:+ "` is not one the gate declares (it declares: ["
                             +:+ names +:+ "])")
        | None => check_gate_each names declared got ∅
        end
    end.
End PluginOutputs.

(** [gate_expires_after] of the step's IR entry. *)
Definition plugin_expiry (ir : option Json) (step : StepId) : option Z :=
  ir ← ir; s ← ir_step ir step; t ← json_get s "gate_expires_after"; json_as_i64 t.

Definition reopen_after_plugin `{Codecs} (run : RunId) : Prog PluginGateError unit :=
  into (fun e => match e with ReDb e => PgDb e | other => PgNotWaiting (show_rerun_error other) end)
    (reopen_if_runnable run).

(** The reason and the outputs the verdict is recorded with. *)
Definition plugin_answer `{Codecs} (run : RunId) (step : StepId) (releaser : string) (verdict : PluginGateVerdict)
  : Prog PluginGateError (string * option (gmap string Json)) :=
  if pv_passed verdict then
    let* declared := into PgDb (gate_declared_outputs run step) in
    match declared with
    | None => fail PgNotFound
    | Some declared =>
        match check_gate_outputs declared (pv_outputs verdict) with
        | Ok outputs => ret ("released by " +:+ releaser, Some outputs)
        | Err why => fail (PgInvalid why)
        end
    end
  else
    match pv_reason verdict with
    | Some reason => if String.eqb (trim reason) "" then fail (PgInvalid "a fail needs a reason") else ret (reason, None)
    | None => fail (PgInvalid "a fail needs a reason")
    end.

Definition resolve_plugin_gate `{Codecs} (run : RunId) (step : StepId) (releaser : string) (attempt : AttemptId)
    (verdict : PluginGateVerdict) : Prog PluginGateError bool :=
  let* steps := into PgDb (call (steps_of_run run)) in
  match List.find (fun s => String.eqb (sr_step s) step && bool_decide (sr_gate_kind s = Some "plugin")) steps with
  | None => fail PgNotFound
  | Some gate =>
      let* its := into PgDb (releases_plugin_gate run step releaser) in
      if negb its then fail PgNotFound
      else if negb (bool_decide (sr_status gate = StepPending))
      then fail (PgNotWaiting ("it is " +:+ step_status_debug (sr_status gate)))
      else if negb (gate_reached gate steps) then fail (PgNotWaiting "it is not reached yet")
      else
        match open_gate_attempt gate with
        | None => fail (PgNotWaiting "it has no open wait")
        | Some open =>
            if negb (String.eqb (att_id open) attempt)
            then fail (PgNotWaiting ("its open wait is `" +:+ att_id open +:+ "`, not `" +:+ attempt +:+ "`"))
            else
              let* now := now_ in
              let* ir := into PgDb (call (run_ir run)) in
              let expired := match plugin_expiry ir step with
                | Some secs => if decide (sat_add (att_started_at open) (sat_mul secs 1000) <= now)%Z
                               then Some secs else None
                | None => None
                end in
              match expired with
              | Some secs => fail (PgExpired secs)
              | None =>
                  let* answer := plugin_answer run step releaser verdict in
                  let* resolved := into PgDb (call (resolve_gate_wait run step
                    (mkGateResolution (pv_passed verdict) answer.1 false (Some releaser) (Some attempt)
                       now now answer.2))) in
                  if bool_decide (is_Some resolved) then reopen_after_plugin run ;;; ret true else ret false
              end
        end
  end.

Definition record_gate_approval (run : RunId) (step : StepId) (by_ : string) : Prog RerunError unit :=
  ensure_creation_finished run ;;;
  let* steps := into ReDb (call (steps_of_run run)) in
  match find_step step steps with
  | None => fail (ReStepNotFound step)
  | Some gate =>
      if negb (bool_decide (sr_gate_kind gate = Some "manual")) then fail (ReNotAManualGate step)
      else if negb (bool_decide (sr_status gate = StepPending))
      then fail (ReGateNotPending step (sr_status gate))
      else if negb (gate_reached gate steps) then fail (ReGateNotReached step)
      else
        let* events := into ReDb (call (events_of run)) in
        if contains_step (gate_approvers events step) by_ then ret tt
        else
          let* now := now_ in
          into ReDb (call (append_event (event run (GateApproved step by_) now)))
  end.

(** ** Snapshot pins *)

Definition pin_run_snapshots (run : RunId) (by_ : option string) : Prog DbError bool :=
  let* now := now_ in
  let* found := call (pin_run_snapshots_db run by_ now) in
  if found then call (append_event (event run (RunSnapshotsPinned by_) now)) ;;; ret true
  else ret false.

Definition unpin_run_snapshots (run : RunId) (by_ : option string) : Prog DbError bool :=
  let* found := call (unpin_run_snapshots_db run) in
  if found then
    let* now := now_ in
    call (append_event (event run (RunSnapshotsUnpinned by_) now)) ;;; ret true
  else ret false.

(** ** What an API replica can be asked *)

Inductive ApiRequest : Type :=
| ApiRerun (oracle : option (string -> bool)) (run : RunId) (target : StepId) (by_ : option string)
| ApiRetry (oracle : option (string -> bool)) (run : RunId) (target : StepId) (by_ : option string)
| ApiCancel (run : RunId) (by_ : option string)
| ApiFailCreation (run : RunId) (reason : string) (at_ : Timestamp)
| ApiReleaseGate (run : RunId) (step : StepId)
| ApiRejectGate (run : RunId) (step : StepId) (by_ reason : string)
| ApiApprove (run : RunId) (step : StepId) (by_ : string)
| ApiPin (run : RunId) (by_ : option string)
| ApiUnpin (run : RunId) (by_ : option string)
| ApiPluginGate (run : RunId) (step : StepId) (releaser : string) (attempt : AttemptId) (verdict : PluginGateVerdict).

(** A request is served until it ends or is dropped (its client left, its
    replica died). *)
Definition served {E A} (m : Prog E A) (w : World) : World := (droppable (F:=E) m w).2.

Definition serve `{Codecs} (r : ApiRequest) (w : World) : World :=
  match r with
  | ApiRerun o run t b => served (rerun_step_widened o run t b) w
  | ApiRetry o run t b => served (retry_step_widened o run t b) w
  | ApiCancel run b => served (cancel_run_request run b) w
  | ApiFailCreation run reason at_ => served (fail_run_creation run reason at_) w
  | ApiReleaseGate run s => served (release_gate run s) w
  | ApiRejectGate run s b reason => served (reject_gate run s b reason) w
  | ApiApprove run s b => served (record_gate_approval run s b) w
  | ApiPin run b => served (pin_run_snapshots run b) w
  | ApiUnpin run b => served (unpin_run_snapshots run b) w
  | ApiPluginGate run s r a v => served (resolve_plugin_gate run s r a v) w
  end.

(** * Theorems *)

(** ** Whatever is interleaved, an API request is a sequence of store calls *)

#[export] Hint Extern 1 (well_behaved (call (run_creation_unfinished _))) => apply wb_read : prog.
#[export] Hint Extern 1 (well_behaved (call (step_inputs _ _))) => apply wb_read : prog.
#[export] Hint Extern 1 (well_behaved (call (step_output _ _))) => apply wb_read : prog.
#[export] Hint Extern 1 (well_behaved (call (gate_releaser _ _))) => apply wb_read : prog.

Lemma wb_ensure run : well_behaved (ensure_creation_finished run).
Proof. unfold ensure_creation_finished. auto 10 with prog. Qed.
Lemma wb_plan_over o run t s : well_behaved (plan_rerun_over o run t s).
Proof. unfold plan_rerun_over, read_snapshot_use. destruct o; auto 12 with prog. Qed.
Lemma wb_supersede_gate run s a b : well_behaved (supersede_gate_attempt run s a b).
Proof. unfold supersede_gate_attempt. auto with prog. Qed.
Lemma wb_commit_rearm run t s b : well_behaved (commit_rearm run t s b).
Proof. unfold commit_rearm. auto 10 with prog. Qed.
#[export] Hint Resolve wb_ensure wb_plan_over wb_supersede_gate wb_commit_rearm : prog.
Lemma wb_rearm_raced run t s b : well_behaved (rearm_raced_step run t s b).
Proof.
  unfold rearm_raced_step. generalize 8. intros n. induction n as [|n IH]; cbn; auto 12 with prog.
Qed.
#[export] Hint Resolve wb_rearm_raced : prog.
Lemma wb_rearm_one run t inv b s : well_behaved (rearm_one run t inv b s).
Proof. unfold rearm_one. auto 14 with prog. Qed.
#[export] Hint Resolve wb_rearm_one : prog.
Lemma wb_rearm_set run t p s b : well_behaved (rearm_invalidation_set run t p s b).
Proof. unfold rearm_invalidation_set. auto 14 with prog. Qed.
Lemma wb_birth run now : well_behaved (birth_services run now).
Proof. unfold birth_services. auto 14 with prog. Qed.
#[export] Hint Resolve wb_rearm_set wb_birth : prog.
Lemma wb_rerun o run t b : well_behaved (rerun_step_widened o run t b).
Proof. unfold rerun_step_widened. auto 20 with prog. Qed.
Lemma wb_retry o run t b : well_behaved (retry_step_widened o run t b).
Proof. unfold retry_step_widened. auto 20 with prog. Qed.
Lemma wb_resolve_gate run g v b f : well_behaved (resolve_gate run g v b f).
Proof. unfold resolve_gate. auto 12 with prog. Qed.
#[export] Hint Resolve wb_rerun wb_retry wb_resolve_gate : prog.
Lemma wb_release run s : well_behaved (release_gate run s).
Proof. unfold release_gate. auto 14 with prog. Qed.
Lemma wb_reject run s b r : well_behaved (reject_gate run s b r).
Proof. unfold reject_gate. auto 18 with prog. Qed.
Lemma wb_approve run s b : well_behaved (record_gate_approval run s b).
Proof. unfold record_gate_approval. auto 18 with prog. Qed.
Lemma wb_pin run b : well_behaved (pin_run_snapshots run b).
Proof. unfold pin_run_snapshots. auto 14 with prog. Qed.
Lemma wb_unpin run b : well_behaved (unpin_run_snapshots run b).
Proof. unfold unpin_run_snapshots. auto 14 with prog. Qed.

Lemma served_well_behaved {E A} (m : Prog E A) w :
  well_behaved m -> Forall calls_only (w_env w) ->
  rtc db_step (w_st w) (w_st (served m w)) /\ Forall calls_only (w_env (served m w)).
Proof. intros Hm H. destruct (wb_droppable (F:=E) m Hm w H) as (H1 & H2 & _). done. Qed.

Lemma wb_plugin_answer `{Codecs} run step releaser verdict : well_behaved (plugin_answer run step releaser verdict).
Proof.
  unfold plugin_answer. destruct (pv_passed verdict); [|repeat case_match; auto with prog].
  apply wb_bind; [auto with prog|intros [declared|]; [|auto with prog]]. case_match; auto with prog.
Qed.
Lemma wb_releases_plugin_gate run step releaser : well_behaved (releases_plugin_gate run step releaser).
Proof. unfold releases_plugin_gate. apply wb_bind; [auto with prog|intros steps]. case_match; auto 10 with prog. Qed.
#[local] Hint Resolve wb_plugin_answer wb_releases_plugin_gate : prog.
#[local] Hint Extern 1 (well_behaved (call (run_ir _))) => apply wb_read : prog.
Lemma wb_resolve_plugin_gate `{Codecs} run step releaser attempt verdict :
  well_behaved (resolve_plugin_gate run step releaser attempt verdict).
Proof.
  unfold resolve_plugin_gate, reopen_after_plugin.
  apply wb_bind; [auto with prog|intros steps]. case_match; [|auto with prog].
  apply wb_bind; [auto with prog|intros its]. repeat (case_match; [solve [auto with prog]|]).
  destruct (open_gate_attempt _); [|auto with prog]. case_match; [auto with prog|].
  do 2 (apply wb_bind; [auto with prog|intros ?]). case_match; [auto with prog|].
  do 2 (apply wb_bind; [auto with prog|intros ?]). case_match; auto 10 with prog.
Qed.

Lemma serve_well_behaved `{Codecs} r w :
  Forall calls_only (w_env w) ->
  rtc db_step (w_st w) (w_st (serve r w)) /\ Forall calls_only (w_env (serve r w)).
Proof.
  destruct r; apply served_well_behaved; [apply wb_rerun|apply wb_retry|apply wb_cancel_run_request
    |apply wb_fail_run_creation|apply wb_release|apply wb_reject|apply wb_approve|apply wb_pin|apply wb_unpin
    |apply wb_resolve_plugin_gate].
Qed.

(** ** A rerun, alone *)

Lemma close_running_ok run step a outcome ev st r :
  quiet st -> st_steps st !! (run, step) = Some r -> NoDup (map att_id (rec_attempts r)) ->
  a ∈ rec_attempts r -> att_outcome a = ORunning ->
  exists st', close_running_attempt run step (att_id a) outcome (Some ev) st = (Ok true, st')
    /\ step_frame (run, step) st st' /\ st_outbox st' = st_outbox st
    /\ exists r', st_steps st' !! (run, step) = Some r' /\ rec_status r' = rec_status r
         /\ rec_input r' = rec_input r
         /\ exists a', a' ∈ rec_attempts r' /\ att_id a' = att_id a /\ att_outcome a' = outcome.
Proof.
  intros [[_ Q] _] Hr Hnd Ha Ho. unfold close_running_attempt. rewrite Q. cbv zeta. rewrite Hr.
  cbn [mbind option_bind]. rewrite find_by_id by done. rewrite decide_True by done.
  eexists. split; [reflexivity|]. split.
  { split; try done; [intros k Hk; cbn; by rewrite lookup_alter_ne|by apply prefix_app_r]. }
  split; [done|]. eexists. split; [cbn; rewrite lookup_alter_eq, Hr; reflexivity|]. split; [done|]. split; [done|].
  eexists. split; [apply (update_first_by_id _ _ a Hnd Ha)|]. done.
Qed.

(** The attempt a re-arm of [s] must supersede. *)
Definition superseded_attempt (s : StepRun) (a : Attempt) : Prop :=
  last (sr_attempts s) = Some a /\ att_outcome a = ORunning
  /\ (sr_status s = StepRunning \/ (is_gate s = true /\ sr_status s = StepPending)).

(** The teardown owed to the unit of a step re-armed for a rerun of [target]:
    it names that step's running attempt and no other. *)
Definition supersede_messages (run : RunId) (target : StepId) (invalid : list StepId) (now : Timestamp) (s : StepRun)
  : list OutboxMessage :=
  match sr_status s, last (sr_attempts s) with
  | StepRunning, Some a =>
      if bool_decide (sr_step s ∈ invalid) && bool_decide (att_outcome a = ORunning)
      then [mkMsg 0 run SUPERSEDE_TEARDOWN (PAttemptTeardown [mkTeardown (sr_step s) (att_id a)])
              ("supersede:" +:+ run +:+ ":" +:+ target +:+ ":" +:+ sr_step s +:+ "/" +:+ att_id a) now]
      else []
  | _, _ => []
  end.

(** What re-arming [s] (read from row [r]) leaves in the store. *)
Definition rearmed (run : RunId) (invalid : list StepId) (s : StepRun) (r : StepRec)
    (st' : InMemoryState) : Prop :=
  if contains_step invalid (sr_step s) then
    exists r', st_steps st' !! (run, sr_step s) = Some r'
      /\ rec_status r' = Some StepPending /\ rec_input r' = rec_input r
      /\ (forall a, superseded_attempt s a ->
            exists a', a' ∈ rec_attempts r' /\ att_id a' = att_id a /\ att_outcome a' = OSuperseded)
  else st_steps st' !! (run, sr_step s) = Some r.

Lemma commit_rearm_alone run target s r st now by_ :
  quiet st -> read_from run st s r -> NoDup (map att_id (rec_attempts r)) -> sr_status s <> StepPending ->
  exists st', commit_rearm run target s by_ (alone st now) = (Ok tt, alone st' now)
    /\ step_frame (run, sr_step s) st st'
    /\ (exists r', st_steps st' !! (run, sr_step s) = Some r'
      /\ rec_status r' = Some StepPending /\ rec_input r' = rec_input r
      /\ (forall a, superseded_attempt s a ->
            exists a', a' ∈ rec_attempts r' /\ att_id a' = att_id a /\ att_outcome a' = OSuperseded))
    /\ forall invalid, sr_step s ∈ invalid -> st_outbox st' = st_outbox (enqueue_all (supersede_messages run target invalid now s) st).
Proof.
  intros Q Hread Hnd Hp. destruct (read_from_spec _ _ _ _ Hread) as (Hr & Hst & Hlast & _).
  set (live := if decide (sr_status s = StepRunning) then in_flight_attempt s else None).
  set (stamp := (fun a => (att_id a, StampOutcome OSuperseded)) <$> live).
  set (ms := match live with
             | Some a => [supersede_teardown_intent run target (mkTeardown (sr_step s) (att_id a)) now]
             | None => [] end).
  set (es := event run (StepTransitioned (sr_step s) (sr_status s) StepPending) now
    :: match live with Some a => [event run (AttemptSuperseded (sr_step s) (att_id a) by_) now] | None => [] end).
  set (st1 := step_commit_writes run (sr_step s) StepPending stamp es ms st).
  assert (commit_rearm run target s by_ (alone st now) = (Ok tt, alone st1 now)) as E.
  { unfold commit_rearm, bind, now_. cbn [interfere alone w_driver w_env fst w_now].
    unfold st1, es, stamp, ms, live. case_decide; rewrite (call_alone _ st now), commit_step_ok; try done.
    - split; [by exists r|]. unfold latest_attempt. rewrite Hr, Hlast. cbn. by destruct (max_by_order _).
    - split; [by exists r|done]. }
  exists st1. split; [exact E|]. split; [apply step_commit_frame|]. split; cycle 1.
  { intros invalid Hin. unfold st1. rewrite step_commit_outbox. f_equal. f_equal. unfold ms, live, in_flight_attempt, supersede_messages.
    destruct (sr_status s); try done. rewrite decide_True by done. rewrite (bool_decide_eq_true_2 _ Hin). cbn [andb].
    destruct (last (sr_attempts s)) as [a|]; [|done]. rewrite bool_decide_decide. by case_decide. }
  exists (step_row_after StepPending stamp r).
  split; [unfold st1; rewrite (step_commit_steps _ _ _ _ _ _ _ _ Hr); apply lookup_insert_eq|].
  split; [unfold step_row_after; by destruct stamp as [[]|]|].
  split; [unfold step_row_after; by destruct stamp as [[]|]|].
  assert (forall a, superseded_attempt s a -> sr_status s = StepRunning /\ live = Some a) as Hlive.
  { intros a (Hl & Ho & [Hrun|[_ ?]]); [|done]. split; [done|]. unfold live, in_flight_attempt.
    rewrite decide_True by done. rewrite Hl. by rewrite decide_True. }
  intros a Ha. destruct (Hlive a Ha) as [_ El]. destruct Ha as (Hl & Ho & _).
  exists (stamp_attempt (StampOutcome OSuperseded) a). unfold step_row_after, stamp. rewrite El. split.
  - apply update_first_by_id; [done|]. rewrite Hlast in Hl. by apply max_by_order_max in Hl as [? _].
  - unfold stamp_attempt. by rewrite Ho.
Qed.

Lemma rearm_one_alone run target invalid by_ now s r st :
  quiet st -> read_from run st s r -> NoDup (map att_id (rec_attempts r)) ->
  exists st', rearm_one run target invalid by_ s (alone st now) = (Ok tt, alone st' now)
    /\ step_frame (run, sr_step s) st st' /\ rearmed run invalid s r st'
    /\ st_outbox st' = st_outbox (enqueue_all (supersede_messages run target invalid now s) st).
Proof.
  intros Q Hread Hnd. destruct (read_from_spec _ _ _ _ Hread) as (Hr & Hst & Hlast & _).
  unfold rearm_one, rearmed. destruct (contains_step invalid (sr_step s)) eqn:Ec; cbn [andb]; cycle 1.
  { exists st. split; [done|]. split; [apply step_frame_refl|]. split; [done|]. unfold supersede_messages.
    rewrite bool_decide_eq_false_2 by (intros ?%contains_step_spec; congruence). by repeat case_match. }
  apply contains_step_spec in Ec. case_bool_decide as Hp; cbn [negb]; cycle 1.
  { destruct (commit_rearm_alone run target s r st now by_ Q Hread Hnd Hp) as (st' & E & F & C & O).
    exists st'. split; [|by auto]. unfold bind, attempt_. cbn [ret]. by rewrite E. }
  destruct (open_gate_attempt s) as [a|] eqn:Eo; cycle 1.
  { exists st. split; [done|]. split; [apply step_frame_refl|]. split; [|unfold supersede_messages; by rewrite Hp]. exists r.
    split; [done|]. split; [congruence|]. split; [done|].
    assert (forall a, ~ superseded_attempt s a) as Hno.
    { intros a (Hl & Ho & [?|[Hg _]]); [congruence|]. unfold open_gate_attempt in Eo.
      rewrite Hg, Hl, decide_True in Eo; done. }
    intros a Ha; by apply Hno in Ha. }
  assert (last (sr_attempts s) = Some a /\ att_outcome a = ORunning) as [Hl Ho].
  { unfold open_gate_attempt in Eo. destruct (is_gate s); [|done].
    destruct (last (sr_attempts s)); [|done]. case_decide; by simplify_eq. }
  assert (a ∈ rec_attempts r) as Ha by (rewrite Hlast in Hl; by apply max_by_order_max in Hl as [? _]).
  destruct (close_running_ok run (sr_step s) a OSuperseded
    (event run (AttemptSuperseded (sr_step s) (att_id a) by_) now) st r Q Hr Hnd Ha Ho)
    as (st' & E & F & O & r' & H1 & H2 & H3 & H4).
  exists st'. split.
  { unfold bind, into, supersede_gate_attempt, bind, now_. cbn [interfere alone w_driver w_env fst w_now].
    by rewrite (call_alone _ st now), E. }
  split; [done|]. split; [|unfold supersede_messages; by rewrite Hp]. exists r'. split; [done|]. split; [congruence|]. split; [done|].
  intros a' (Hl' & _). rewrite Hl in Hl'. by injection Hl' as <-.
Qed.

Lemma rearmed_frame run invalid s r st st' id :
  id <> sr_step s -> step_frame (run, id) st st' ->
  rearmed run invalid s r st -> rearmed run invalid s r st'.
Proof.
  intros Hn F. unfold rearmed. by rewrite (fr_rows _ _ _ F) by congruence.
Qed.

(** The plan a rerun makes of the store it reads. *)
Definition snapshot_use (run : RunId) (st : InMemoryState) (s : StepRun)
  : StepId * list StepId * option string :=
  (sr_step s, default (sr_needs s) (r ← st_steps st !! (run, sr_step s); rec_explicit_inputs r),
   r ← st_steps st !! (run, sr_step s); rec_output r).
Definition plan_of_store (oracle : option (string -> bool)) (run : RunId) (target : StepId)
    (st : InMemoryState) : RerunPlan :=
  let rows := step_rows run st in
  match oracle with
  | None => plan_over None target rows ∅ ∅
  | Some _ => let uses := map (snapshot_use run st) rows in
              plan_over oracle target rows (consumed_map uses) (output_map uses)
  end.

Lemma map_each_alone {E A B} (f : A -> Prog E B) (g : A -> B) l st now :
  (forall x, f x (alone st now) = (Ok (g x), alone st now)) ->
  map_each f l (alone st now) = (Ok (map g l), alone st now).
Proof. intros Hf. induction l as [|x l IH]; [done|]. cbn. unfold bind. by rewrite Hf, IH. Qed.

Lemma plan_rerun_over_alone oracle run target st now :
  plan_rerun_over oracle run target (step_rows run st) (alone st now)
    = (Ok (plan_of_store oracle run target st), alone st now).
Proof.
  unfold plan_rerun_over, plan_of_store. destruct oracle; [|done]. unfold bind, into.
  rewrite (map_each_alone _ (snapshot_use run st)); [done|]. intros s.
  unfold read_snapshot_use, bind, step_inputs, step_output. by rewrite !call_alone.
Qed.

Lemma birth_services_alone run now st :
  exists X, birth_services run now (alone st now) = (Ok tt, alone (set_run_services X st) now).
Proof.
  unfold birth_services, bind at 1, into at 1, run_services. rewrite call_alone. cbn [op_read fst snd map_err].
  destruct (max_of _) as [cur|]; [|by exists (st_run_services st); destruct st].
  generalize (sort_ids (elements (list_to_set (map rs_name (filter (fun r => rs_take r = cur)
    (sort_stable (fun a b => match String.compare (rs_name a) (rs_name b) with
       | Lt => true | Gt => false | Eq => (rs_take a <=? rs_take b)%Z end)
      (omap (fun kv => let '(r, t, n, (s, h, c)) := kv in
         if decide (r = run) then Some (mkRunService r t n s h c) else None)
        (map_to_list (st_run_services st)))))) : gset string))).
  intros names. revert st. induction names as [|n names IH]; intros st; [by exists (st_run_services st); destruct st|].
  cbn [for_each]. unfold bind at 1, into at 1. rewrite call_alone.
  assert (create_run_service None run (cur + 1)%Z n now st = (Ok tt,
    match st_run_services st !! (run, (cur + 1)%Z, n) with
    | Some _ => st
    | None => set_run_services (<[(run, (cur + 1)%Z, n) := (SvcStarting, None, now)]> (st_run_services st)) st
    end)) as -> by reflexivity. cbn [fst snd map_err].
  destruct (st_run_services st !! (run, (cur + 1)%Z, n)); [apply IH|].
  match goal with |- context [alone (set_run_services ?y st) now] =>
    destruct (IH (set_run_services y st)) as [X E]; exists X; rewrite E; by destruct st end.
Qed.

(** The stored input signatures of [ids], cleared. *)
Definition cleared (run : RunId) (ids : list StepId) (st st' : InMemoryState) : Prop :=
  (forall id, st_steps st' !! (run, id)
     = (if decide (id ∈ ids) then rec_with_input None <$> st_steps st !! (run, id)
        else st_steps st !! (run, id)))
  /\ st' = set_steps (st_steps st') st.

Lemma clear_alone run l st now :
  exists st', for_each (fun w => call (set_step_input run w None)) l (alone st now) = (Ok tt, alone st' now)
    /\ cleared run l st st'.
Proof.
  revert st; induction l as [|w l IH]; intros st.
  { exists st. split; [done|]. split; [intros id; by rewrite decide_False by apply not_elem_of_nil|by destruct st]. }
  cbn [for_each]. unfold bind. rewrite call_alone. unfold set_step_input, op_modify. cbn [fst snd].
  destruct (IH (update_step (run, w) (rec_with_input None) st)) as (st' & E & H1 & H2).
  exists st'. split; [exact E|]. split; [|rewrite H2; by destruct st].
  intros id. rewrite H1. cbn. destruct (decide (id = w)) as [->|Hn].
  - rewrite lookup_alter_eq. rewrite (decide_True (P := w ∈ w :: l)) by constructor.
    case_decide; [|done]. by destruct (st_steps st !! (run, w)).
  - rewrite lookup_alter_ne by congruence.
    destruct (decide (id ∈ l)), (decide (id ∈ w :: l)) as [Hd|Hd]; try done.
    + by destruct Hd; constructor.
    + apply elem_of_cons in Hd as [?|?]; done.
Qed.

(** The status post of the life a rerun of a settled Run opens. *)
Definition reopen_messages (run : RunId) (current : RunStatus) (now : Timestamp) (st : InMemoryState) : list OutboxMessage :=
  let g := (run_reopen_generation run st + 1)%N in
  if run_is_terminal current then [mkMsg 0 run RUN_STATUS_CHANGED (PRunStatus RunRunning g) (run_status_post_key run g RunRunning) now] else [].

Lemma reopen_alone run st now current :
  quiet st -> st_runs st !! run = Some current ->
  exists st', (if run_is_terminal current then reopen run current RunRunning else ret tt) (alone st now)
                = (Ok tt, alone st' now)
    /\ quiet st' /\ st_steps st' = st_steps st /\ st_events st `prefix_of` st_events st'
    /\ st_runs st' !! run = Some (if run_is_terminal current then RunRunning else current)
    /\ run_reopen_generation run st' = posted_generation (run_reopen_generation run st) current
    /\ st_outbox st' = st_outbox (enqueue_all (reopen_messages run current now st) st).
Proof.
  intros Q Hrun. unfold reopen_messages, posted_generation. destruct (run_is_terminal current) eqn:Et; cycle 1.
  { exists st. split; [done|]. split; [done|]. split; [done|]. split; [done|]. split; [done|].
    split; [lia|done]. }
  unfold reopen, bind at 1, now_. cbn [interfere alone w_driver w_env fst w_now]. rewrite Et.
  unfold benign_conflict, bind at 1, attempt_, commit_run_transition, commit_run_transition_after, bind at 1.
  rewrite (call_alone _ st now). cbn [op_read fst snd]. rewrite (call_alone _ st now).
  rewrite commit_run_ok; [|done|by rewrite Hrun|done]. cbn [fst snd ret].
  unfold bump_reopen_generation_locked. rewrite Et.
  match goal with |- context [enqueue_all ?m ?x] => set (ms := m); set (s3 := x) end.
  destruct (enqueue_all_fields ms s3) as (E1 & E3 & E4 & E5 & E6).
  destruct (enqueue_all_frame ms s3) as (_ & _ & _ & _ & G5 & G6 & _).
  exists (enqueue_all ms s3). split; [done|].
  assert (run_reopen_generation run (enqueue_all ms s3) = (run_reopen_generation run st + 1)%N) as Hg.
  { unfold run_reopen_generation. rewrite E5. cbn. by rewrite lookup_insert_eq. }
  split; [destruct Q as [[Q1 Q2] Q3]; unfold quiet, unarmed, no_crash; by rewrite E6, G5, G6|].
  rewrite E1, E3, E4, Hg. split; [done|]. split; [by apply prefix_app_r|].
  split; [apply lookup_insert_eq|]. split; [done|].
  unfold ms, transition_posts, posted_generation. rewrite Et. by apply enqueue_all_outbox.
Qed.

(** The rows the loop finds, once the signatures are cleared. *)
Definition row_cleared (ids : list StepId) (s : StepRun) (r : StepRec) : StepRec :=
  if decide (sr_step s ∈ ids) then rec_with_input None r else r.

Lemma read_from_cleared run ids st st' s r :
  (forall id, st_steps st' !! (run, id)
     = (if decide (id ∈ ids) then rec_with_input None <$> st_steps st !! (run, id)
        else st_steps st !! (run, id))) ->
  read_from run st s r -> read_from run st' s (row_cleared ids s r).
Proof.
  intros H [Hr Hs]. unfold read_from, row_cleared. rewrite H. case_decide; rewrite Hr; [|done]. by split.
Qed.

Lemma cleared_app run a b st1 st2 st3 :
  cleared run a st1 st2 -> cleared run b st2 st3 -> cleared run (a ++ b) st1 st3.
Proof.
  intros [H1 H2] [H3 H4]. split; [|rewrite H4, H2; by destruct st1]. intros id. rewrite H3, H1.
  destruct (decide (id ∈ a)) as [Ha|Ha], (decide (id ∈ b)) as [Hb|Hb];
    destruct (decide (id ∈ a ++ b)) as [Hab|Hab]; try done;
    rewrite elem_of_app in Hab; try (exfalso; tauto).
  by destruct (st_steps st1 !! (run, id)).
Qed.

Lemma rearm_set_alone run target plan by_ st0 st now current :
  quiet st -> st_runs st !! run = Some current -> st_steps st = st_steps st0 ->
  (forall id r, st_steps st !! (run, id) = Some r -> NoDup (map att_id (rec_attempts r))) ->
  exists st', rearm_invalidation_set run target plan (step_rows run st0) by_ (alone st now)
      = (Ok tt, alone st' now)
    /\ (forall s r, read_from run st0 s r ->
          rearmed run (rp_invalidated plan) s (row_cleared (target :: rp_widened plan) s r) st')
    /\ st_runs st' !! run = Some (if run_is_terminal current then RunRunning else current)
    /\ run_reopen_generation run st' = posted_generation (run_reopen_generation run st) current
    /\ st_events st `prefix_of` st_events st'
    /\ st_outbox st' = st_outbox (enqueue_all (reopen_messages run current now st
         ++ flat_map (supersede_messages run target (rp_invalidated plan) now) (step_rows run st0)) st).
Proof.
  intros Q Hrun Hsteps Hids. unfold rearm_invalidation_set.
  unfold bind at 1, into at 1.
  destruct (clear_alone run [target] st now) as (s1 & E1 & C1). cbn [for_each] in E1.
  unfold bind at 1 in E1. destruct (call (set_step_input run target None) (alone st now)) as [[[]|] w1];
    [|done]. cbn [ret] in E1. injection E1 as ->. cbn [map_err]. unfold bind at 1, into at 1.
  destruct (clear_alone run (rp_widened plan) s1 now) as (s2 & E2 & C2). rewrite E2. cbn [map_err].
  pose proof (cleared_app run [target] (rp_widened plan) st s1 s2 C1 C2) as [Hrows Heq].
  change ([target] ++ rp_widened plan) with (target :: rp_widened plan) in Hrows.
  assert (quiet s2) as Q2 by (rewrite Heq; exact Q).
  assert (st_runs s2 !! run = Some current) as Hrun2 by (rewrite Heq; exact Hrun).
  assert (run_reopen_generation run s2 = run_reopen_generation run st) as Hg2 by (rewrite Heq; done).
  assert (st_events s2 = st_events st) as Hl2 by (rewrite Heq; done).
  unfold bind at 1, into at 1, run_status_of. rewrite call_alone. cbn [op_read fst snd map_err].
  rewrite Hrun2. destruct (reopen_alone run s2 now current Q2 Hrun2) as (s3 & E3 & Q3 & H31 & H32 & H33 & H34 & H35).
  unfold bind at 1. rewrite E3.
  assert (forall s r, read_from run st0 s r -> read_from run s3 s (row_cleared (target :: rp_widened plan) s r)) as Hread.
  { intros s r Hr. apply (read_from_cleared run (target :: rp_widened plan) st); [by rewrite H31|].
    unfold read_from in *. by rewrite Hsteps. }
  destruct (for_steps_alone run now (rearm_one run target (rp_invalidated plan) by_)
    (rearmed run (rp_invalidated plan)) (supersede_messages run target (rp_invalidated plan) now)
    (fun s r st => rearm_one_alone run target (rp_invalidated plan) by_ now s r st)
    (rearmed_frame run (rp_invalidated plan)) (step_rows run st0) s3 Q3 (step_rows_nodup run st0))
    as (s4 & E4 & F4 & O4 & C4 & _).
  { intros s Hs. apply step_rows_spec in Hs as (r & Hr). exists (row_cleared (target :: rp_widened plan) s r).
    split; [by apply Hread|]. assert (st_steps st !! (run, sr_step s) = Some r) as Hr'
      by (rewrite Hsteps; apply Hr). unfold row_cleared. case_decide; exact (Hids _ _ Hr'). }
  exists s4. split; [exact E4|]. split.
  { intros s r Hr. apply C4; [apply step_rows_spec; by exists r|by apply Hread]. }
  rewrite (rf_runs _ _ F4). split; [done|]. split.
  { unfold run_reopen_generation in *. rewrite (rf_gens _ _ F4). congruence. }
  split; [rewrite <- Hl2; etrans; [exact H32|apply (rf_log _ _ F4)]|].
  rewrite O4, enqueue_all_app. apply enqueue_all_outbox. rewrite H35. unfold reopen_messages. rewrite Hg2.
  apply enqueue_all_outbox. by rewrite Heq.
Qed.

(** C26: A rerun re-arms exactly what it planned and forgets nothing it stops.
    With no other client in between, on a Run whose creation finished and a
    target none of whose needs failed, [rerun_step_widened] succeeds with the
    plan of the store it read, and leaves: the rerun request first in the log;
    every step of the plan [Pending], with the input signature of the target
    and of each widened step cleared and the other signatures kept; each
    attempt that was running, or open on a waiting gate, stamped
    [Superseded]; every other step exactly as it was; and a settled Run
    [Running] again in the next reopen generation (a live one unchanged). To
    the outbox it enqueues exactly the status post of the life it opens, if it
    opens one, and for each running attempt of the plan a [SUPERSEDE_TEARDOWN]
    naming that step and that attempt. Each of them whose key is its own is a
    new undelivered row carrying exactly that message, unless a row already
    had that key. *)
Theorem rerun_rearms_plan oracle run target by_ st now current ts :
  quiet st -> run ∉ st_poisoned_runs st -> run ∉ st_creating st ->
  st_runs st !! run = Some current ->
  (forall id r, st_steps st !! (run, id) = Some r -> NoDup (map att_id (rec_attempts r))) ->
  find_step target (step_rows run st) = Some ts -> blocking_dep ts (step_rows run st) = None ->
  let plan := plan_of_store oracle run target st in
  let ms := reopen_messages run current now st
    ++ flat_map (supersede_messages run target (rp_invalidated plan) now) (step_rows run st) in
  exists st', rerun_step_widened oracle run target by_ (alone st now) = (Ok plan, alone st' now)
    /\ (st_events st ++ [event run (RunRerunRequested target (rp_invalidated plan) by_ (rp_widened plan)) now])
         `prefix_of` st_events st'
    /\ (forall s r, read_from run st s r ->
          rearmed run (rp_invalidated plan) s (row_cleared (target :: rp_widened plan) s r) st')
    /\ st_runs st' !! run = Some (if run_is_terminal current then RunRunning else current)
    /\ run_reopen_generation run st' = posted_generation (run_reopen_generation run st) current
    /\ st_outbox st' = st_outbox (enqueue_all ms st)
    /\ (forall m, m ∈ ms -> (forall m', m' ∈ ms -> msg_key m' = msg_key m -> m' = m) -> posts m st st').
Proof.
  intros Q Hpo Hcr Hrun Hids Hfind Hblock plan ms. unfold rerun_step_widened.
  unfold bind at 1, ensure_creation_finished, bind at 1, into at 1, run_creation_unfinished.
  rewrite call_alone. cbn [op_read fst snd map_err]. rewrite bool_decide_eq_false_2 by done. cbn [ret].
  unfold bind at 1, into at 1. rewrite call_alone. unfold steps_of_run. rewrite decide_False by done.
  cbn [fst snd map_err]. rewrite Hfind, Hblock. unfold bind at 1. rewrite plan_rerun_over_alone. fold plan.
  unfold bind at 1, now_ at 1. cbn [interfere alone w_driver w_env fst w_now].
  unfold bind at 1, into at 1. fold (alone st now). rewrite call_alone.
  set (ev := event run _ now).
  assert (append_event ev st = (Ok tt, push_events [ev] st)) as ->
    by (unfold append_event, op_bind; by rewrite take_failure_none by apply Q).
  cbn [fst snd map_err]. destruct (birth_services_alone run now (push_events [ev] st)) as [X EX].
  unfold bind at 1. rewrite EX. set (st1 := set_run_services X (push_events [ev] st)).
  destruct (rearm_set_alone run target plan by_ st st1 now current) as (st' & E & H1 & H2 & H3 & H4 & H5);
    [exact Q|exact Hrun|reflexivity|exact Hids|].
  assert (st_outbox st' = st_outbox (enqueue_all ms st)) as Hout by (rewrite H5; by apply enqueue_all_outbox).
  exists st'. split; [unfold bind; by rewrite E|]. split_and!; try done.
  intros m Hm Hu. unfold posts. rewrite Hout. exact (enqueue_all_posts ms st m Hm Hu).
Qed.

Lemma rerun_rearms_plan_witness :
  let s1 := (create_step_run "r" "build" None [] state_empty).2 in
  let s2 := (create_step_run "r" "test" None ["build"] s1).2 in
  let s3 := (record_step_transition "r" "build" StepPending StepSucceeded s2).2 in
  let s4 := (record_attempt "r" "test" (mkAttempt "a1" 3 None None ORunning) s3).2 in
  let s5 := (record_step_transition "r" "test" StepPending StepRunning s4).2 in
  let st := (record_transition "r" RunPending RunFailed s5).2 in
  let plan := plan_of_store None "r" "build" st in
  rp_invalidated plan = ["build"; "test"]
  /\ exists st', rerun_step_widened None "r" "build" None (alone st 9) = (Ok plan, alone st' 9)
       /\ st_runs st' !! "r" = Some RunRunning
       /\ map oe_msg (st_outbox st')
          = [mkMsg 1 "r" RUN_STATUS_CHANGED (PRunStatus RunRunning 1) "status:r:g1:Running" 9;
             mkMsg 2 "r" SUPERSEDE_TEARDOWN (PAttemptTeardown [mkTeardown "test" "a1"]) "supersede:r:build:test/a1" 9].
Proof.
  cbn zeta. split; [vm_compute; reflexivity|]. set (st := (record_transition _ _ _ _).2).
  destruct (rerun_rearms_plan None "r" "build" None st 9 RunFailed
    (mkStepRun "r" "build" StepSucceeded [] [] None)) as (st' & H1 & _ & _ & H3 & _ & H4 & _).
  - split; [split; reflexivity|reflexivity].
  - intros H. vm_compute in H. discriminate H.
  - intros H. vm_compute in H. discriminate H.
  - reflexivity.
  - assert (map_Forall (fun (_ : RunId * StepId) r => NoDup (map att_id (rec_attempts r))) (st_steps st)) as H.
    { apply (bool_decide_unpack _). vm_compute. exact I. }
    intros id r Hr. exact (H _ _ Hr).
  - vm_compute. reflexivity.
  - vm_compute. reflexivity.
  - exists st'. split; [exact H1|]. split; [exact H3|]. rewrite H4. vm_compute. reflexivity.
Defined.
