(* ===== verification/Verdicts.v ===== *)
(** * The scheduler's decisions

    The pure part of what the leader decides each pass
    (scarab-engine/src/scheduler.rs): a waiting gate's verdict at an instant,
    the active time a budget bills, how many attempts a Take may use, how a
    settled Run ends, which service readiness holds a step, and how long a
    Run may fail before it is dead-lettered. *)

From S2P Require Import Prelude Domain Store Gates Transitions LaunchSpec Rerun.

(** ** Reading a Run's stored IR *)

(** [Value::as_u64]. *)
Definition json_as_u64 (v : Json) : option N :=
  match v with
  | JInt z => if decide (0 <= z < 2^64)%Z then Some (Z.to_N z) else None
  | _ => None
  end.
(** [x as i64] of a [u64]. *)
Definition u64_as_i64 (n : N) : Z :=
  if decide (n < 2^63)%N then Z.of_N n else (Z.of_N n - 2^64)%Z.

Definition ir_steps (ir : Json) : list Json :=
  default [] (s ← json_get ir "steps"; json_as_array s).
Definition json_id (s : Json) : option string := i ← json_get s "id"; json_as_str i.
(** [.find(|s| s.get("id").and_then(as_str) == Some(step))]. *)
Definition ir_step (ir : Json) (step : StepId) : option Json :=
  List.find (fun s => bool_decide (json_id s = Some step)) (ir_steps ir).

Record GateSettings := mkGateSettings {
  gs_expires_after_secs : option Z;
  gs_environment_approval : bool;
}.
Definition gate_settings_default : GateSettings := mkGateSettings None false.

Definition gate_settings_of (s : Json) : GateSettings :=
  mkGateSettings
    (t ← json_get s "gate_expires_after"; u64_as_i64 <$> json_as_u64 t)
    (bool_decide ((g ← json_get s "gate"; json_as_str g) = Some "manual")
     && negb (bool_decide ((m ← json_get s "environment_approval_gate"; json_as_bool m) = Some false))).

(** The collected map: a later entry of the same id wins. *)
Definition gate_settings_of_ir (ir : Json) : gmap string GateSettings :=
  foldl (fun m s => match json_id s with Some id => <[id := gate_settings_of s]> m | None => m end)
    ∅ (ir_steps ir).

Definition run_budget_of_ir (ir : Json) : option Z :=
  b ← json_get ir "budget"; u64_as_i64 <$> json_as_u64 b.

Definition step_timeout_of_ir (ir : option Json) (step : StepId) (default_ms : Z) : Z :=
  match (ir ← ir; s ← ir_step ir step; t ← json_get s "timeout"; json_as_u64 t) with
  | Some secs => sat_mul (u64_as_i64 secs) 1000
  | None => default_ms
  end.

(** ** A waiting gate's verdict *)

(** The end of [gate_verdict]: expiry, for any kind with a bound. *)
Definition gate_expiry (settings : GateSettings) (started : Z) (now : Timestamp)
  : option GateVerdict :=
  match gs_expires_after_secs settings with
  | Some expiry_secs =>
      if decide (sat_add started (sat_mul expiry_secs 1000) <= now)%Z
      then Some (mkVerdict false
             ("not released within " +:+ pretty expiry_secs +:+ "s of its needs finishing") true)
      else None
  | None => None
  end.

(** The kind's own verdict. [timer] is the gate's stored [gate_after]
    (seconds), read for a [timer] gate only. *)
Definition gate_own_verdict (timer : option Z) (gate : StepRun) (started : Z)
    (approval_release_at : option Z) (now : Timestamp) : option GateVerdict :=
  match sr_gate_kind gate with
  | Some kind =>
      if String.eqb kind "manual" then
        match approval_release_at with
        | Some at_ =>
            if decide (at_ <= now)%Z
            then Some (mkVerdict true "approved; the Environment's wait timer ran out" false)
            else None
        | None => None
        end
      else if String.eqb kind "timer" then
        match timer with
        | Some wait_secs =>
            if decide (sat_add started (sat_mul wait_secs 1000) <= now)%Z
            then Some (mkVerdict true
                   ("timer elapsed (" +:+ pretty wait_secs +:+ "s after its needs finished)") false)
            else None
        | None => None
        end
      else if String.eqb kind "deployment" then
        Some (mkVerdict false
          ("this gate waited on the Deployment record, which Scarab no "
           +:+ "longer keeps (ADR-0074); wait for your CD tool in a step instead") false)
      else None
  | None => None
  end.

Definition gate_verdict_at (timer : option Z) (gate : StepRun) (attempt : Attempt)
    (settings : GateSettings) (approval_release_at : option Z) (now : Timestamp)
  : option GateVerdict :=
  let started := att_started_at attempt in
  match gate_own_verdict timer gate started approval_release_at now with
  | Some v => Some v
  | None => gate_expiry settings started now
  end.

(** ** The active time a budget bills *)

Record Billing := mkBilling { bl_active_ms : Z; bl_entered_running : option Z }.

(** One event of [enforce_run_budget]'s loop; the [i64] additions are left
    unbounded. *)
Definition bill (b : Billing) (e : EventKind) : Billing :=
  match ev_kind e with
  | RunRerunRequested _ _ _ _ => mkBilling 0 None
  | RunTransitioned _ to =>
      match to with
      | RunRunning => mkBilling (bl_active_ms b) (Some (default (ev_at e) (bl_entered_running b)))
      | _ => match bl_entered_running b with
             | Some start => mkBilling (bl_active_ms b + (ev_at e - start))%Z None
             | None => b
             end
      end
  | _ => b
  end.

Definition active_ms (events : list EventKind) (now : Timestamp) : Z :=
  let b := foldl bill (mkBilling 0 None) events in
  match bl_entered_running b with
  | Some start => (bl_active_ms b + (now - start))%Z
  | None => bl_active_ms b
  end.

(** ** The attempts of one Take *)

Definition NEVER_STARTED_AUTO_ATTEMPTS : N := 3.

(** Attempts of [step] started since the last Rerun that re-armed it. *)
Definition count_used (step : StepId) (used : N) (e : EventKind) : N :=
  match ev_kind e with
  | RunRerunRequested _ invalidated _ _ => if contains_step invalidated step then 0%N else used
  | AttemptStarted s _ => if String.eqb s step then (used + 1)%N else used
  | _ => used
  end.
Definition used_attempts (step : StepId) (events : list EventKind) : N :=
  foldl (count_used step) 0%N events.

(** [configured] is [1 + retry.max]. *)
Definition allowed_attempts (kind : FailureKind) (configured : option N) : N :=
  match kind with
  | FInfra true => N.max (default 0%N configured) NEVER_STARTED_AUTO_ATTEMPTS
  | FConfig | FMissingInputs | FGate => 1%N
  | _ => default 1%N configured
  end.

(** Whether the observation of [attempt] is a verdict on the step at all. *)
Definition is_verdict (attempts : list Attempt) (attempt : AttemptId) : bool :=
  bool_decide (att_id <$> last attempts = Some attempt)
  && negb (match List.find (fun a => String.eqb (att_id a) attempt) attempts with
           | Some a => terminal_by_intent (att_outcome a)
           | None => false
           end).

(** ** How a settled Run ends *)

(** [{failure:?}]. *)
Definition failure_debug (k : FailureKind) : string :=
  match k with
  | FInfra b => "Infra { never_started: " +:+ (if b then "true" else "false") +:+ " }"
  | FStep => "Step" | FTimeout => "Timeout" | FLost => "Lost" | FConfig => "Config"
  | FMissingInputs => "MissingInputs" | FGate => "Gate"
  end.

Definition verdictless (k : FailureKind) : bool :=
  match k with FInfra _ | FLost => true | _ => false end.

Definition dead_reason (s : StepRun) : option string :=
  if decide (sr_status s = StepFailed) then
    a ← last (sr_attempts s);
    failure ← att_failure a;
    if verdictless failure then
      Some (match att_failure_detail a with
            | Some detail => "step `" +:+ sr_step s +:+ "`: " +:+ detail +:+ " (" +:+ failure_debug failure
                             +:+ " — retries exhausted without a verdict)"
            | None => "step `" +:+ sr_step s +:+ "`: " +:+ failure_debug failure
                      +:+ " — retries exhausted without a verdict"
            end)
    else None
  else None.

Definition all_terminal (steps : list StepRun) : bool :=
  forallb (fun s => step_is_terminal (sr_status s)) steps.

Definition dead_reasons (steps : list StepRun) : list string := omap dead_reason steps.

(** [advance]'s outcome. *)
Definition run_outcome (steps : list StepRun) : RunStatus :=
  let failed := existsb (fun s => match sr_status s with
                                  | StepFailed | StepCancelled => true | _ => false end) steps in
  match dead_reasons steps with
  | _ :: _ => RunDeadLettered
  | [] => if failed then RunFailed else RunSucceeded
  end.

(** ** Dependencies and service readiness *)

Definition status_in (steps : list StepRun) (id : StepId) : option StepStatus :=
  sr_status <$> by_step steps !! id.

Definition deps_satisfied (steps : list StepRun) (step : StepRun) : bool :=
  forallb (fun d => bool_decide (status_in steps d = Some StepSucceeded)) (sr_needs step).

Definition dep_dead (steps : list StepRun) (step : StepRun) : bool :=
  existsb (fun d => let s := default StepPending (status_in steps d) in
                    step_is_terminal s && negb (bool_decide (s = StepSucceeded))) (sr_needs step).

(** The current Take's service statuses, by name. *)
Definition service_status_of (rows : list RunService) : gmap string ServiceStatus :=
  foldl (fun m r => if decide (rs_take r = current_service_take rows)
                    then <[rs_name r := rs_status r]> m else m) ∅ rows.

Inductive Readiness : Type :=
| ServicesFailed (reason : string)
| ServicesHeld
| ServicesReady.

Definition readiness (status : gmap string ServiceStatus) (uses : list string) : Readiness :=
  match List.filter (fun n => bool_decide (status !! n = Some SvcFailed)) uses with
  | (_ :: _) as failed =>
      ServicesFailed ("unbound dependency: shared service(s) "
        +:+ join ", " (map (fun s => "`" +:+ s +:+ "`") failed) +:+ " never became ready")
  | [] =>
      if forallb (fun n => match status !! n with
                           | Some SvcReady | Some SvcRunning => true | _ => false end) uses
      then ServicesReady else ServicesHeld
  end.

(** ** A gate no dependent needs any more *)

Definition dependents (steps : list StepRun) (id : StepId) : list StepRun :=
  List.filter (fun s => contains_step (sr_needs s) id) steps.

(** * Theorems *)

(** ** Gate verdicts *)

(** The instant a wait of [secs] seconds from [started] is over. *)
Definition due (started secs now : Z) : Prop := (sat_add started (sat_mul secs 1000) <= now)%Z.

Definition passes_at (timer : option Z) (gate : StepRun) (attempt : Attempt)
    (approval_release_at : option Z) (now : Timestamp) : Prop :=
  (sr_gate_kind gate = Some "manual" /\ exists at_, approval_release_at = Some at_ /\ (at_ <= now)%Z)
  \/ (sr_gate_kind gate = Some "timer" /\ exists w, timer = Some w /\ due (att_started_at attempt) w now).

Definition expires_at (gate : StepRun) (attempt : Attempt) (settings : GateSettings)
    (now : Timestamp) : Prop :=
  sr_gate_kind gate <> Some "deployment"
  /\ exists s, gs_expires_after_secs settings = Some s /\ due (att_started_at attempt) s now.

Lemma gate_expiry_spec settings started now :
  match gate_expiry settings started now with
  | Some x => gv_passed x = false /\ gv_expired x = true
      /\ exists s, gs_expires_after_secs settings = Some s /\ due started s now
  | None => ~ exists s, gs_expires_after_secs settings = Some s /\ due started s now
  end.
Proof.
  unfold gate_expiry, due. destruct (gs_expires_after_secs settings) as [s|]; [|naive_solver].
  case_decide; naive_solver.
Qed.

Lemma gate_expiry_mono settings started now later :
  (now <= later)%Z -> gate_expiry settings started now <> None ->
  gate_expiry settings started later <> None.
Proof.
  unfold gate_expiry. destruct (gs_expires_after_secs settings); [|done].
  intros ?. repeat case_decide; done || lia.
Qed.

Lemma gate_own_spec timer gate attempt approval now :
  match gate_own_verdict timer gate (att_started_at attempt) approval now with
  | Some x => gv_expired x = false
      /\ if gv_passed x then passes_at timer gate attempt approval now
         else sr_gate_kind gate = Some "deployment"
  | None => ~ passes_at timer gate attempt approval now /\ sr_gate_kind gate <> Some "deployment"
  end.
Proof.
  unfold gate_own_verdict, passes_at, due. destruct (sr_gate_kind gate) as [kind|]; [|naive_solver].
  destruct (String.eqb_spec kind "manual") as [->|Hm];
    [|destruct (String.eqb_spec kind "timer") as [->|Ht];
      [|destruct (String.eqb_spec kind "deployment") as [->|Hd]; [done|naive_solver]]].
  - destruct approval; [case_decide|]; naive_solver.
  - destruct timer; [case_decide|]; naive_solver.
Qed.

Lemma gate_own_mono timer gate started approval now later :
  (now <= later)%Z -> gate_own_verdict timer gate started approval now <> None ->
  gate_own_verdict timer gate started approval later <> None.
Proof.
  unfold gate_own_verdict. intros Hle. destruct (sr_gate_kind gate); [|done].
  repeat case_match; try done; lia.
Qed.

(** What a waiting gate's verdict is, at every instant. It passes exactly
    when a [manual] gate's met approval reached its release time, or a
    [timer] gate's own wait, counted from the frozen start of this Attempt,
    is over; so never early, and a pass due at the same instant as the expiry
    wins. It fails as expired exactly when no pass is due and the expiry,
    counted from the same start, is over. A [deployment] gate always fails,
    without expiring. Otherwise it keeps waiting. Once anything is due it
    stays so: a later pass never finds the gate undecided again. *)
Theorem gate_verdict_decides timer gate attempt settings approval now :
  let v t := gate_verdict_at timer gate attempt settings approval t in
  ((exists x, v now = Some x /\ gv_passed x = true) <-> passes_at timer gate attempt approval now)
  /\ ((exists x, v now = Some x /\ gv_expired x = true)
        <-> ~ passes_at timer gate attempt approval now /\ expires_at gate attempt settings now)
  /\ (forall x, v now = Some x -> gv_passed x = false -> gv_expired x = false ->
        sr_gate_kind gate = Some "deployment")
  /\ (sr_gate_kind gate = Some "deployment" -> exists x, v now = Some x /\ gv_passed x = false)
  /\ (forall later, (now <= later)%Z -> v now <> None -> v later <> None).
Proof.
  cbv zeta. unfold gate_verdict_at.
  pose proof (gate_own_spec timer gate attempt approval now) as Ho.
  pose proof (gate_expiry_spec settings (att_started_at attempt) now) as He.
  assert (Hp : passes_at timer gate attempt approval now -> sr_gate_kind gate <> Some "deployment")
    by (unfold passes_at; naive_solver).
  pose proof (fun later => gate_own_mono timer gate (att_started_at attempt) approval now later) as Hm.
  pose proof (fun later => gate_expiry_mono settings (att_started_at attempt) now later) as Hx.
  unfold expires_at.
  destruct (gate_own_verdict _ _ _ _ now) as [x|].
  - destruct Ho as [E1 E2]. assert (gv_passed x = true -> passes_at timer gate attempt approval now) as E3
      by (intros E; by rewrite E in E2).
    split_and!.
    + split; [intros (y & [= <-] & E); auto|]. intros P. exists x. split; [done|].
      destruct (gv_passed x); [done|]. by destruct (Hp P).
    + split; [intros (y & [= <-] & E); congruence|]. intros (P & D & _). destruct (gv_passed x); [done|]. by destruct D.
    + intros y [= <-] E _. by rewrite E in E2.
    + intros D. exists x. split; [done|]. destruct (gv_passed x); [|done]. by destruct (Hp (E3 eq_refl)).
    + intros later Hle _. specialize (Hm later Hle). by destruct (gate_own_verdict _ _ _ _ later); [|destruct Hm].
  - destruct Ho as [E1 E2]. split_and!.
    + split; [|done]. intros (x & Ex & Ep). rewrite Ex in He. destruct He as [He _]. congruence.
    + destruct (gate_expiry _ _ now) as [x|]; split; naive_solver.
    + intros x Ex _ E. rewrite Ex in He. destruct He as (_ & He & _). congruence.
    + done.
    + intros later Hle E. specialize (Hx later Hle E). by destruct (gate_own_verdict _ _ _ _ later).
Qed.

(** ** The budget bills the time spent [Running] in the Take *)

Definition run_moved_to (e : EventKind) : option RunStatus :=
  match ev_kind e with RunTransitioned _ to => Some to | _ => None end.
Definition is_rerun (e : EventKind) : bool :=
  match ev_kind e with RunRerunRequested _ _ _ _ => true | _ => false end.

(** The current Take's events. *)
Definition take_events (events : list EventKind) : list EventKind := since_last is_rerun events.

(** Whether the Run is [Running] at instant [t]: its last transition of the
    Take at or before [t] entered [Running]. *)
Definition running_at (take_ : list EventKind) (t : Z) : bool :=
  bool_decide (find_map_last (fun e => if decide (ev_at e <= t)%Z then run_moved_to e else None) take_
               = Some RunRunning).

(** Milliseconds of [lo, hi) at which [p] holds. *)
Definition count_ms (p : Z -> bool) (lo hi : Z) : Z :=
  Z.of_nat (length (List.filter p (seqZ lo (hi - lo)))).

Lemma count_ms_split p lo mid hi :
  (lo <= mid <= hi)%Z -> count_ms p lo hi = (count_ms p lo mid + count_ms p mid hi)%Z.
Proof.
  intros H. unfold count_ms. replace (hi - lo)%Z with ((mid - lo) + (hi - mid))%Z by lia.
  rewrite seqZ_app, List.filter_app, length_app by lia. replace (lo + (mid - lo))%Z with mid by lia. lia.
Qed.

Lemma count_ms_ext p q lo hi :
  (forall t, (lo <= t < hi)%Z -> p t = q t) -> count_ms p lo hi = count_ms q lo hi.
Proof.
  intros H. unfold count_ms. do 2 f_equal. apply List.filter_ext_in.
  intros t Ht. apply list_elem_of_In, elem_of_seqZ in Ht. apply H. lia.
Qed.

Lemma count_ms_const b lo hi :
  (lo <= hi)%Z -> count_ms (fun _ => b) lo hi = if b then (hi - lo)%Z else 0%Z.
Proof.
  intros H. unfold count_ms.
  assert (forall l : list Z, List.filter (fun _ => b) l = if b then l else []) as ->.
  { induction l as [|x l IH]; cbn; [by destruct b|]. rewrite IH. by destruct b. }
  destruct b; [rewrite length_seqZ; lia|done].
Qed.

Lemma find_map_last_snoc {A B} (f : A -> option B) l x :
  find_map_last f (l ++ [x]) = match f x with Some b => Some b | None => find_map_last f l end.
Proof. induction l as [|y l IH]; cbn; [by destruct (f x)|]. rewrite IH. by destruct (f x). Qed.

Lemma find_map_last_ext {A B} (f g : A -> option B) l :
  (forall x, x ∈ l -> f x = g x) -> find_map_last f l = find_map_last g l.
Proof.
  induction l as [|y l IH]; cbn; [done|]. intros H. rewrite IH, (H y); [done|constructor|].
  intros x Hx. apply H. by constructor.
Qed.

(** Where the Take leaves the Run. *)
Definition running_after (take_ : list EventKind) : bool :=
  bool_decide (find_map_last run_moved_to take_ = Some RunRunning).

Lemma running_at_end take_ t :
  (forall e, e ∈ take_ -> (ev_at e <= t)%Z) -> running_at take_ t = running_after take_.
Proof.
  intros H. unfold running_at, running_after. erewrite find_map_last_ext; [done|].
  intros e He. cbn. by rewrite decide_True by auto.
Qed.

Lemma foldl_bill_take events b :
  existsb is_rerun events = true -> foldl bill b events = foldl bill (mkBilling 0 None) (take_events events).
Proof.
  revert b; induction events as [|e es IH]; intros b; [done|]. cbn [existsb foldl].
  unfold take_events. cbn [since_last]. destruct (existsb is_rerun es) eqn:E.
  - intros _. by apply IH.
  - rewrite orb_false_r. intros He. rewrite He. f_equal. unfold is_rerun, bill in *. by case_match.
Qed.

Lemma active_ms_take events now : active_ms events now = active_ms (take_events events) now.
Proof.
  unfold active_ms. destruct (existsb is_rerun events) eqn:E.
  - by rewrite (foldl_bill_take _ _ E).
  - unfold take_events. by rewrite since_last_none.
Qed.

(** [lo], the events and [now] in time order. *)
Definition in_time_order (lo : Z) (es : list EventKind) (now : Z) : Prop :=
  StronglySorted Z.le (lo :: map ev_at es ++ [now]).

Lemma in_time_order_snoc lo es e now :
  in_time_order lo (es ++ [e]) now ->
  in_time_order lo es (ev_at e) /\ (lo <= ev_at e <= now)%Z
  /\ (forall x, x ∈ es -> (ev_at x <= ev_at e)%Z).
Proof.
  unfold in_time_order. rewrite map_app. change ([lo] ++ map ev_at es ++ [ev_at e] ++ []) with
    ([lo] ++ map ev_at es ++ [ev_at e]).
  change (lo :: (map ev_at es ++ map ev_at [e]) ++ [now]) with ((lo :: map ev_at es ++ [ev_at e]) ++ [now]).
  intros H. split; [by apply StronglySorted_app_1_l in H|].
  pose proof (StronglySorted_app_1_elem_of _ _ _ (ev_at e) now H) as H1.
  apply StronglySorted_app_1_l in H. change (lo :: map ev_at es ++ [ev_at e])
    with ((lo :: map ev_at es) ++ [ev_at e]) in H.
  split; [split; [|apply H1; set_solver]|].
  - apply (StronglySorted_app_1_elem_of _ _ _ lo (ev_at e) H); set_solver.
  - intros x Hx. apply (StronglySorted_app_1_elem_of _ _ _ _ _ H); [|set_solver].
    apply elem_of_cons. right. by apply list_elem_of_fmap_2.
Qed.

Lemma billing_spec lo es now :
  existsb is_rerun es = false -> in_time_order lo es now ->
  active_ms es now = count_ms (running_at es) lo now
  /\ bool_decide (is_Some (bl_entered_running (foldl bill (mkBilling 0 None) es))) = running_after es.
Proof.
  revert now; induction es as [|e es IH] using rev_ind; intros now Hr Ht.
  { cbn. split; [|done]. unfold running_at. cbn. rewrite count_ms_const; [done|].
    unfold in_time_order in Ht. cbn in Ht. apply StronglySorted_inv in Ht as [_ Ht].
    by apply Forall_inv in Ht. }
  rewrite existsb_app in Hr. apply orb_false_iff in Hr as [Hr He]. cbn in He. rewrite orb_false_r in He.
  destruct (in_time_order_snoc _ _ _ _ Ht) as (Ho & Hlo & Hle). destruct (IH (ev_at e) Hr Ho) as [IHa IHs].
  rewrite (count_ms_split _ lo (ev_at e) now) by lia.
  rewrite (count_ms_ext _ (running_at es) lo (ev_at e)).
  2: { intros t Htt. unfold running_at. rewrite find_map_last_snoc, decide_False by lia. done. }
  rewrite (count_ms_ext _ (fun _ => running_after (es ++ [e])) (ev_at e) now).
  2: { intros t Htt. apply running_at_end. intros x Hx. apply elem_of_app in Hx as [Hx|Hx].
       - specialize (Hle x Hx). lia.
       - apply list_elem_of_singleton in Hx as ->. lia. }
  rewrite count_ms_const, <- IHa by lia. clear IHa Ht Ho Hle.
  unfold active_ms, running_after in *. rewrite foldl_app, find_map_last_snoc. cbn [foldl].
  destruct (foldl bill (mkBilling 0 None) es) as [A [s|]]; cbn in IHs |- *; symmetry in IHs;
    apply bool_decide_eq_true in IHs || apply bool_decide_eq_false in IHs;
    unfold bill, run_moved_to, is_rerun in *; cbn;
    destruct (ev_kind e); try done; try destruct to; cbn;
    (split; [|try done; try (by rewrite bool_decide_eq_true_2); by rewrite bool_decide_eq_false_2]);
    try (rewrite bool_decide_eq_true_2 by done); try (rewrite bool_decide_eq_false_2 by done); lia.
Qed.

(** A Run's budget bills exactly the milliseconds it spent [Running] in
    the current Take. For a Take whose events are in time order, starting at
    [lo], the accumulator the scheduler compares with the budget equals the
    number of milliseconds between [lo] and [now] at which the Take's last
    run transition had entered [Running]: a queued, suspended, failed or
    previous-Take millisecond is never billed, and no [Running] one is
    missed or billed twice. *)
Theorem budget_bills_running_time events lo now :
  in_time_order lo (take_events events) now ->
  active_ms events now = count_ms (running_at (take_events events)) lo now.
Proof.
  intros H. rewrite active_ms_take. apply billing_spec; [|done].
  destruct (since_last_spec is_rerun events) as (_ & _ & ? & _). done.
Qed.

Lemma budget_bills_running_time_witness :
  let ev k t := event "r" k t in
  let log := [ev (RunTransitioned RunPending RunRunning) 10; ev (RunTransitioned RunRunning RunFailed) 50;
              ev (RunRerunRequested "s" ["s"] None []) 100;
              ev (RunTransitioned RunFailed RunRunning) 101; ev (RunTransitioned RunRunning RunSuspended) 104;
              ev (RunTransitioned RunSuspended RunRunning) 200]%Z in
  active_ms log 207 = count_ms (running_at (take_events log)) 100 207
  /\ active_ms log 207 = 10%Z.
Proof.
  cbn zeta. split; [|vm_compute; reflexivity]. apply budget_bills_running_time.
  unfold in_time_order. repeat constructor; vm_compute; congruence.
Defined.

(** The budget does not cover a Take opened by a Rerun of a Run that is
    still [Running]. Such a Rerun commits no run transition, so the Take's
    open interval has no start: until the Run next enters [Running] again, the
    accumulator compared with the budget stays 0 however long the Take runs. *)
Theorem live_rerun_bills_nothing events run target invalidated by_ widened at_ later now :
  (forall e, e ∈ later -> run_moved_to e <> Some RunRunning) ->
  active_ms (events ++ event run (RunRerunRequested target invalidated by_ widened) at_ :: later) now = 0%Z.
Proof.
  intros H. unfold active_ms. rewrite foldl_app. cbn [foldl bill event ev_kind].
  assert (foldl bill (mkBilling 0 None) later = mkBilling 0 None) as ->; [|done].
  induction later as [|e l IH]; [done|]. cbn [foldl].
  assert (bill (mkBilling 0 None) e = mkBilling 0 None) as ->.
  { specialize (H e ltac:(constructor)). unfold bill, run_moved_to in *.
    repeat case_match; try done; congruence. }
  apply IH. intros x Hx. apply H. by constructor.
Qed.

(** Ten hours into the Take, nothing is billed. *)
Lemma live_rerun_bills_nothing_witness :
  let ev k t := event "r" k t in
  let log := [ev (RunTransitioned RunPending RunRunning) 10%Z;
              ev (StepTransitioned "s" StepRunning StepFailed) 20%Z] in
  active_ms (log ++ ev (RunRerunRequested "s" ["s"] None []) 100%Z
               :: [ev (StepTransitioned "s" StepFailed StepPending) 100%Z]) 36000100 = 0%Z.
Proof.
  cbn zeta. apply live_rerun_bills_nothing.
  intros e He. apply list_elem_of_singleton in He as ->. discriminate.
Defined.
