(* ===== verification/Backend.v ===== *)
(** * What the scheduler runs on: its configuration and its backend

    The [Executor] port (scarab-engine/src/ports.rs) is implemented outside
    the engine; the scheduler's programs are parametric in it. Every answer of the executor
    takes the nonce of one [draw]: it may answer anything, differently each
    time, while the rest of the world moves. *)

From S2P Require Import Prelude Text Values Cel Params Scopes Render Domain Meta Store Gates Program Transitions LaunchSpec Verdicts.

(** ** Configuration *)

Record Config := mkConfig {
  cfg_lease_ttl_ms : Z;
  cfg_outbox_batch : N;
  cfg_outbox_visibility_ms : Z;
  cfg_project_run_cap : option N;
  cfg_global_run_cap : N;
  cfg_default_step_timeout_ms : Z;
  cfg_service_ready_timeout_ms : Z;
  cfg_tick_failure_deadline_ms : Z;
  cfg_unfinished_creation_bound_ms : Z;
}.

(** [Scheduler::new]. *)
Definition config_default : Config :=
  mkConfig 30000 16 30000 None (2^32 - 1) 3600000 300000 300000 600000.

Definition SCHEDULER_LEASE : string := "scheduler".
Definition MAX_DELIVERY_ATTEMPTS : N := 10.
Definition TIMEOUT_BACKSTOP_GRACE_MS : Z := 60000.
Definition UNFINISHED_CREATION_REASON : string := "the server stopped while creating this Run".

(** ** The ports *)

Inductive FailureClass : Type :=
| ClInfra (never_started : bool) | ClStep | ClTimeout | ClConfig | ClMissingInputs.

Inductive ExecState : Type :=
| XPending | XRunning | XSucceeded
| XFailed (exit_code : option Z) (class : FailureClass) (cause : option string)
| XLost.

(** A shared service of the Run's IR: its name, and the rest of its spec. *)
Record SharedServiceSpec := mkSharedService { ss_name : string; ss_spec : Json }.

Record ProvisioningCollision := mkProvCollision { pc_path : string; pc_winner : N; pc_loser : N }.
Record ProvisioningReport := mkProvReport {
  pr_collisions : N;
  pr_sample : list ProvisioningCollision;
}.
Record CacheSaves := mkCacheSaves { sv_key : string; sv_roots : gmap string string }.

Class Executor := {
  x_launch : StepRun -> StepSpec -> N -> Result ExecError string;
  x_poll : string -> N -> Result ExecError ExecState;
  (** [unit_handle]: pure. *)
  x_unit_handle : StepRun -> option string;
  x_output : string -> N -> Result ExecError (option string);
  x_output_identity : string -> N -> Result ExecError (option string);
  x_results : string -> N -> Result ExecError (gmap string Json);
  x_artifacts : string -> N -> Result ExecError (list ArtifactMeta);
  x_cache_saves : string -> N -> Result ExecError (option CacheSaves);
  x_workspace_provisioning : string -> N -> Result ExecError (option ProvisioningReport);
  x_cancel : string -> N -> Result ExecError unit;
  x_torn_down : string -> N -> Result ExecError bool;
  x_gate_refusal : StepRun -> N -> Result ExecError (option string);
  x_launch_service : RunId -> Z -> SharedServiceSpec -> N -> Result ExecError string;
  x_service_ready : string -> N -> Result ExecError bool;
  x_teardown_service : string -> N -> Result ExecError unit;
}.

(** The workspace-snapshot oracle: one root's blob hash of a path, absent, or
    a transient failure. *)
Abbreviation SnapshotOracle := (string -> string -> N -> Result string (option string)).

(** One call of the backend. *)
Definition ask {E F A} (f : F -> E) (op : N -> Result F A) : Prog E A :=
  let* n := draw in
  match op n with Ok a => ret a | Err e => fail (f e) end.

(** [let _ = self.executor.cancel(..).await]. *)
Definition try_ask {E F A} (op : N -> Result F A) : Prog E unit :=
  let* n := draw in match op n with Ok _ | Err _ => ret tt end.

Lemma wb_ask {E F A} (f : F -> E) (op : N -> Result F A) : well_behaved (ask f op).
Proof. unfold ask. auto 10 with prog. Qed.
Lemma wb_try_ask {E F A} (op : N -> Result F A) : well_behaved (E:=E) (try_ask op).
Proof. unfold try_ask. auto 10 with prog. Qed.
#[export] Hint Resolve wb_ask wb_try_ask : prog.

(** ** Decoding a shared service *)

Definition remove_key (k : string) (m : list (string * Json)) : list (string * Json) :=
  List.filter (fun p => negb (String.eqb p.1 k)) m.

(** [SharedServiceSpec::deserialize]. *)
Definition shared_service_of `{Codecs} (v : Json) : option SharedServiceSpec :=
  match v with
  | JObj m =>
      name ← match json_get v "name" with
             | None | Some JNull => Some ""
             | Some (JStr s) => Some s
             | Some _ => None
             end;
      let rest := JObj (remove_key "name" m) in
      if service_spec_ok rest then Some (mkSharedService name rest) else None
  | _ => None
  end.

(** [pipeline_services] over the stored IR. *)
Definition services_of_ir `{Codecs} (ir : option Json) : list SharedServiceSpec :=
  match ir with
  | None => []
  | Some ir => match s ← json_get ir "services"; json_as_array s with
               | Some arr => omap shared_service_of arr
               | None => []
               end
  end.

(** [step_retry]: [1 + r.max], a [u32]. *)
Definition configured_attempts `{Codecs} (ir : option Json) (step : StepId) : option N :=
  (fun max => wrap_u 32 (1 + max)) <$>
    (ir ← ir; s ← ir_step ir step; r ← json_get s "retry"; retry_max_of r).

(** ** A concrete backend, for the witnesses

    Every unit it launches has succeeded, with one output, when polled. *)

Definition prompt_executor : Executor := {|
  x_launch _ _ _ := Ok "unit"; x_poll _ _ := Ok XSucceeded; x_unit_handle _ := Some "unit";
  x_output _ _ := Ok (Some "root"); x_output_identity _ _ := Ok None; x_results _ _ := Ok ∅;
  x_artifacts _ _ := Ok []; x_cache_saves _ _ := Ok None; x_workspace_provisioning _ _ := Ok None;
  x_cancel _ _ := Ok tt; x_torn_down _ _ := Ok true; x_gate_refusal _ _ := Ok None;
  x_launch_service _ _ _ _ := Ok "service"; x_service_ready _ _ := Ok true;
  x_teardown_service _ _ := Ok tt |}.
