(* ===== verification/Scheduler.v ===== *)
(** * The scheduler's passes

    The leader's admission pass, the gates it evaluates, the budget it
    enforces, shared services, and how attempts and Runs settle
    (scarab-engine/src/scheduler.rs, [impl Scheduler]). Each method is a
    program of [Program]: a statement about it for every world is a statement
    about every interleaving with other replicas. [self.leader] is the
    argument [leader]. *)

From S2P Require Import Prelude Text Values Cel Params Scopes Render Domain Store Outbox Commits Gates Program Transitions LaunchSpec Cancel Plan Rerun Verdicts Backend.

(** How a leader leg ended. *)
Inductive Leg : Set := LegDone | LegDeferred.

Definition leader_leg (m : Prog SchedulerError unit) : Prog SchedulerError Leg :=
  let* r := attempt_ m in
  match r with
  | Ok _ | Err (SeDb DbNotLeader) => ret LegDone
  | Err (SeDb DbFenceTimeout) => ret LegDeferred
  | Err e => fail e
  end.

(** ** Guarded transitions *)

Definition transition_run (leader : option LeaderTerm) (run : RunId) (from to : RunStatus)
  : Prog SchedulerError unit :=
  let* now := now_ in
  benign_conflict SeDb (commit_run_transition leader run from to now true []).

Definition transition_step_with (run : RunId) (step : StepId) (from to : StepStatus)
    (preceding : list EventPayload) : Prog SchedulerError unit :=
  let* now := now_ in
  let events := map (fun kind => event run kind now) (preceding ++ [StepTransitioned step from to]) in
  benign_conflict SeDb (call (commit_step_transition run step from to FrontierAny None events [])).

Definition transition_step (run : RunId) (step : StepId) (from to : StepStatus)
  : Prog SchedulerError unit := transition_step_with run step from to [].

Definition append (run : RunId) (kind : EventPayload) (at_ : Timestamp) : Prog SchedulerError unit :=
  into SeDb (call (append_event (event run kind at_))).

Definition release_slot_of (run : RunId) : Prog SchedulerError unit :=
  let* conc := into SeDb (call (run_concurrency run)) in
  match conc with
  | Some (group, _) => into SeDb (call (release_slot group run))
  | None => ret tt
  end.

Definition skip_unchanged (run : RunId) (step : StepId) : Prog SchedulerError unit :=
  transition_step_with run step StepPending StepSucceeded [StepSkippedEv step "inputs unchanged"].

(** ** Settling an attempt *)

Definition finalize_stamp (to : StepStatus) (failure : option FailureKind) (cause : option string)
  : option AttemptStamp :=
  match to, failure with
  | StepSucceeded, _ => Some (StampOutcome OSucceeded)
  | StepFailed, Some kind => Some (StampFailure kind cause)
  | StepFailed, None => Some (StampOutcome OFailed)
  | _, _ => None
  end.

(** [finalize_events]; [at_] is the instant it reads. *)
Definition finalize_events (run : RunId) (step : StepId) (attempt : AttemptId) (to : StepStatus)
    (failure : option FailureKind) (cause : option string) (at_ : Timestamp) : list EventKind :=
  map (fun kind => event run kind at_)
    [AttemptFinished step attempt failure cause; StepTransitioned step StepRunning to].

Definition finalize_step (run : RunId) (step : StepId) (attempt : AttemptId) (to : StepStatus)
    (failure : option FailureKind) (cause : option string) : Prog SchedulerError unit :=
  let* at_ := now_ in
  benign_conflict SeDb (call (commit_step_transition run step StepRunning to
    (FrontierIs (Some attempt)) ((fun s => (attempt, s)) <$> finalize_stamp to failure cause)
    (finalize_events run step attempt to failure cause at_) [])).

Definition rearm_step (run : RunId) (step : StepId) (attempt : AttemptId) (kind : FailureKind)
    (cause : option string) : Prog SchedulerError unit :=
  let* now := now_ in
  benign_conflict SeDb (call (commit_step_transition run step StepRunning StepReady
    (FrontierIs (Some attempt)) None
    (finalize_events run step attempt StepReady (Some kind) cause now) [])).

Definition succeed_step (run : RunId) (step : StepId) (attempt : AttemptId)
  : Prog SchedulerError unit :=
  let* attempts := into SeDb (call (attempts_of_step run step)) in
  if is_verdict attempts attempt
  then finalize_step run step attempt StepSucceeded None None
  else ret tt.

(** ** Tick health *)

Definition failing_since {E} (run : RunId) (now : Timestamp) : Prog E Timestamp :=
  memory (fun m => match mem_health m !! run with
                   | Some t => (t, m)
                   | None => (now, mkMemory (mem_seen m) (<[run := now]> (mem_health m)))
                   end).
Definition healthy {E} (run : RunId) : Prog E unit :=
  memory (fun m => (tt, mkMemory (mem_seen m) (delete run (mem_health m)))).
Definition retain_active {E} (active : list RunId) : Prog E unit :=
  memory (fun m => (tt, mkMemory (mem_seen m) (filter (fun kv => kv.1 ∈ active) (mem_health m)))).

Section WithPorts.
Context (cfg : Config) (owner : string) {X : Executor} {K : Codecs}.

Definition step_retry (run : RunId) (step : StepId) : Prog SchedulerError (option N) :=
  let* ir := into SeDb (call (run_ir run)) in ret (configured_attempts ir step).

Definition step_timeout_ms (run : RunId) (step : StepId) : Prog SchedulerError Z :=
  let* ir := into SeDb (call (run_ir run)) in
  ret (step_timeout_of_ir ir step (cfg_default_step_timeout_ms cfg)).

Definition settle_failed_attempt (run : RunId) (step : StepId) (attempt : AttemptId)
    (kind : FailureKind) (cause : option string) : Prog SchedulerError unit :=
  let* attempts := into SeDb (call (attempts_of_step run step)) in
  if negb (is_verdict attempts attempt) then ret tt
  else
    into SeDb (call (set_attempt_failure run step attempt kind cause)) ;;;
    let* events := into SeDb (call (events_of run)) in
    let used := used_attempts step events in
    let* configured := step_retry run step in
    if (used <? allowed_attempts kind configured)%N
    then rearm_step run step attempt kind cause
    else finalize_step run step attempt StepFailed (Some kind) cause.

(** ** Leadership *)

Definition leader_term : Prog SchedulerError (option LeaderTerm) :=
  let* l := into SeDb (call_at (fun now => lease now SCHEDULER_LEASE owner (cfg_lease_ttl_ms cfg))) in
  ret (held_by l SCHEDULER_LEASE owner).

Definition as_leader (f : LeaderTerm -> Prog SchedulerError unit) : Prog SchedulerError Leg :=
  let* term := leader_term in
  match term with
  | None => ret LegDone
  | Some t => leader_leg (f t)
  end.

(** ** Shared services *)

Definition pipeline_services (run : RunId) : Prog SchedulerError (list SharedServiceSpec) :=
  let* ir := into SeDb (call (run_ir run)) in ret (services_of_ir ir).

Definition teardown_service_row (leader : option LeaderTerm) (run : RunId) (r : RunService)
  : Prog SchedulerError unit :=
  (match rs_handle r with
   | Some h => ask SeExec (x_teardown_service h)
   | None => ret tt
   end) ;;;
  into SeDb (call (set_run_service leader run (rs_take r) (rs_name r) SvcTornDown None)).

Definition teardown_services (leader : option LeaderTerm) (run : RunId) : Prog SchedulerError unit :=
  let* rows := into SeDb (call (run_services run)) in
  for_each (fun r => if service_is_terminal (rs_status r) then ret tt
                     else teardown_service_row leader run r) rows.

Definition launch_service_bounded (leader : option LeaderTerm) (run : RunId) (take_ : Z)
    (svc : SharedServiceSpec) (created_at now : Timestamp) : Prog SchedulerError (option string) :=
  let* r := attempt_ (ask id (x_launch_service run take_ svc)) in
  match r with
  | Ok handle =>
      into SeDb (call (set_run_service leader run take_ (ss_name svc) SvcStarting (Some handle))) ;;;
      ret (Some handle)
  | Err _ =>
      if (cfg_service_ready_timeout_ms cfg <? now - created_at)%Z then
        into SeDb (call (set_run_service leader run take_ (ss_name svc) SvcFailed None)) ;;; ret None
      else ret None
  end.

(** The loop over the declared services of the current Take. *)
Definition reconcile_service (leader : option LeaderTerm) (run : RunId) (take_ : Z)
    (rows : list RunService) (now : Timestamp) (svc : SharedServiceSpec) : Prog SchedulerError unit :=
  let set status := into SeDb (call (set_run_service leader run take_ (ss_name svc) status None)) in
  match List.find (fun r => (rs_take r =? take_)%Z && String.eqb (rs_name r) (ss_name svc)) rows with
  | None =>
      into SeDb (call (create_run_service leader run take_ (ss_name svc) now)) ;;;
      let* _ := launch_service_bounded leader run take_ svc now now in ret tt
  | Some r =>
      match rs_status r with
      | SvcStarting =>
          let* handle := match rs_handle r with
                         | Some h => ret (Some h)
                         | None => launch_service_bounded leader run take_ svc (rs_created_at r) now
                         end in
          match handle with
          | None => ret tt
          | Some h =>
              let* ready := ask SeExec (x_service_ready h) in
              if ready then set SvcReady
              else if (cfg_service_ready_timeout_ms cfg <? now - rs_created_at r)%Z then set SvcFailed
              else ret tt
          end
      | SvcReady | SvcRunning =>
          match rs_handle r with
          | Some h => let* ready := ask SeExec (x_service_ready h) in
                      if ready then ret tt else set SvcFailed
          | None => ret tt
          end
      | _ => ret tt
      end
  end.

Definition reconcile_services_as_leader (leader : LeaderTerm) (run : RunId)
  : Prog SchedulerError unit :=
  let* services := pipeline_services run in
  match services with
  | [] => ret tt
  | _ =>
      let* status := into SeDb (call (run_status_of run)) in
      match status with
      | None => fail (SeRunNotFound run)
      | Some status =>
          if run_is_terminal status then teardown_services (Some leader) run
          else
            let* rows := into SeDb (call (run_services run)) in
            let take_ := current_service_take rows in
            let* now := now_ in
            for_each (fun r => if (rs_take r <? take_)%Z && negb (service_is_terminal (rs_status r))
                               then teardown_service_row (Some leader) run r else ret tt) rows ;;;
            for_each (reconcile_service (Some leader) run take_ rows now) services
      end
  end.

Definition reconcile_services_leg (run : RunId) : Prog SchedulerError Leg :=
  as_leader (fun t => reconcile_services_as_leader t run).

(** ** Cancelling a Run *)

Definition cancel_live_step (run : RunId) (now : Timestamp) (step : StepRun)
  : Prog SchedulerError unit :=
  if step_is_terminal (sr_status step) then ret tt
  else
    (match in_flight_attempt step with
     | Some a =>
         let* h := into SeDb (call (attempt_handle run (sr_step step) (att_id a))) in
         match h with
         | Some h => try_ask (x_cancel h)
         | None => ret tt
         end
     | None => ret tt
     end) ;;;
    into SeDb (cancel_step run step now).

Definition cancel_live_steps (run : RunId) (now : Timestamp) : Prog SchedulerError unit :=
  let* steps := into SeDb (call (steps_of_run run)) in
  for_each (cancel_live_step run now) steps.

Definition cancel_run (leader : option LeaderTerm) (run : RunId) : Prog SchedulerError unit :=
  let* now := now_ in
  cancel_live_steps run now ;;;
  let* status := into SeDb (call (run_status_of run)) in
  (match status with
   | Some current =>
       if run_is_terminal current then ret tt
       else
         let* intent := into SeDb (cancel_services_intent run now) in
         benign_conflict SeDb (commit_run_transition leader run current RunCancelled now true [intent])
   | None => ret tt
   end) ;;;
  teardown_services leader run ;;;
  release_slot_of run.

(** ** Waiting gates *)

Definition gate_settings (run : RunId) : Prog SchedulerError (gmap string GateSettings) :=
  let* ir := into SeDb (call (run_ir run)) in
  ret (match ir with Some ir => gate_settings_of_ir ir | None => ∅ end).

Definition gate_verdict (run : RunId) (gate : StepRun) (attempt : Attempt) (settings : GateSettings)
    (approval_release_at : option Z) (now : Timestamp) : Prog SchedulerError (option GateVerdict) :=
  let* timer := match sr_gate_kind gate with
                | Some kind => if String.eqb kind "timer"
                               then into SeDb (call (gate_timer_seconds run (sr_step gate)))
                               else ret None
                | None => ret None
                end in
  ret (gate_verdict_at timer gate attempt settings approval_release_at now).

(** The log, read at most once per pass. *)
Definition memo_events (run : RunId) (memo : option (list EventKind))
  : Prog SchedulerError (list EventKind) :=
  match memo with
  | Some events => ret events
  | None => into SeDb (call (events_of run))
  end.
Definition memo_settings (run : RunId) (memo : option (gmap string GateSettings))
  : Prog SchedulerError (gmap string GateSettings) :=
  match memo with
  | Some m => ret m
  | None => gate_settings run
  end.

Record GateMemo := mkMemo {
  gm_events : option (list EventKind);
  gm_settings : option (gmap string GateSettings);
}.

(** The open wait of a reached gate, minting it when there is none. *)
Definition ensure_gate_wait (leader : LeaderTerm) (run : RunId) (gate : StepRun) (memo : GateMemo)
  : Prog SchedulerError (option Attempt * GateMemo) :=
  match open_gate_attempt gate with
  | Some a => ret (Some a, memo)
  | None =>
      let* events := memo_events run (gm_events memo) in
      let memo := mkMemo (Some events) (gm_settings memo) in
      let* now := now_ in
      let started := wait_began_at events gate now in
      let* a := into SeDb (call (open_gate_wait leader run (sr_step gate) started now)) in
      ret (a, memo)
  end.

(** Render a plugin gate's inputs once; [false] when the gate failed on it. *)
Definition ensure_gate_inputs (leader : LeaderTerm) (run : RunId) (gate : StepRun) (attempt : Attempt)
  : Prog SchedulerError bool :=
  if bool_decide (sr_gate_kind gate = Some "plugin") then
    let* stored := into SeDb (call (gate_wait_inputs run (sr_step gate) (att_id attempt))) in
    match stored with
    | Some _ => ret true
    | None =>
        let* rendered := into SeDb (render_gate_inputs run (sr_step gate) (sr_needs gate)) in
        match rendered with
        | Ok inputs =>
            let* _ := into SeDb (call (set_gate_wait_inputs leader run (sr_step gate) (att_id attempt) inputs)) in
            ret true
        | Err reason =>
            let* _ := into SeDb (resolve_gate run gate
                        (mkVerdict false ("its inputs do not render: " +:+ reason) false)
                        None (Some (att_id attempt))) in
            ret false
        end
    end
  else ret true.

Definition judge_gate (run : RunId) (gate : StepRun) (attempt : Attempt) (memo : GateMemo)
  : Prog SchedulerError GateMemo :=
  let* settings := memo_settings run (gm_settings memo) in
  let memo := mkMemo (gm_events memo) (Some settings) in
  let mine := default gate_settings_default (settings !! sr_step gate) in
  let* release_memo :=
    if gs_environment_approval mine then
      let* events := memo_events run (gm_events memo) in
      ret (ea_release_at <$> environment_approval_met events (sr_step gate),
           mkMemo (Some events) (gm_settings memo))
    else ret (None, memo) in
  let '(approval_release_at, memo) := release_memo in
  let* now := now_ in
  let* verdict := gate_verdict run gate attempt mine approval_release_at now in
  match verdict with
  | None => ret memo
  | Some verdict =>
      let* verdict :=
        if gv_passed verdict then
          let* refusal := ask SeExec (x_gate_refusal gate) in
          ret (match refusal with
               | Some refusal => mkVerdict false ("the gate cannot release: " +:+ refusal) false
               | None => verdict
               end)
        else ret verdict in
      let* _ := into SeDb (resolve_gate run gate verdict None (Some (att_id attempt))) in
      ret memo
  end.

Definition is_pending_gate (s : StepRun) : bool :=
  is_gate s && bool_decide (sr_status s = StepPending).

Definition evaluate_gate (leader : LeaderTerm) (run : RunId) (steps : list StepRun) (memo : GateMemo)
    (gate : StepRun) : Prog SchedulerError GateMemo :=
  if deps_satisfied steps gate then
    let* waited := ensure_gate_wait leader run gate memo in
    let '(attempt, memo) := waited in
    match attempt with
    | None => ret memo
    | Some attempt =>
        let* go := ensure_gate_inputs leader run gate attempt in
        if go then judge_gate run gate attempt memo else ret memo
    end
  else
    match open_gate_attempt gate with
    | Some a =>
        let* _ := into SeDb (supersede_gate_attempt run (sr_step gate) (att_id a) None) in ret memo
    | None => ret memo
    end.

Definition evaluate_waiting_gates (leader : LeaderTerm) (run : RunId) : Prog SchedulerError unit :=
  let* steps := into SeDb (call (steps_of_run run)) in
  if existsb is_pending_gate steps then
    let* _ := fold_each (evaluate_gate leader run steps) (mkMemo None None)
                (List.filter is_pending_gate steps) in ret tt
  else ret tt.

(** ** Gates no dependent needs any more *)

Definition skip_unneeded_gate (run : RunId) (gate : StepRun) : Prog SchedulerError unit :=
  let* now := now_ in
  let stamp := (fun a => (att_id a, StampOutcome OCancelled)) <$> open_gate_attempt gate in
  let journal := map (fun kind => event run kind now)
    [StepSkippedEv (sr_step gate) GATE_NO_LONGER_NEEDED;
     StepTransitioned (sr_step gate) StepPending StepSkipped] in
  benign_conflict SeDb (call (commit_step_transition run (sr_step gate) StepPending StepSkipped
    (FrontierIs (att_id <$> last (sr_attempts gate))) stamp journal [])).

Definition settle_unneeded_gate (run : RunId) (steps : list StepRun) (memo : option (list EventKind))
    (gate : StepRun) : Prog SchedulerError (option (list EventKind)) :=
  match dependents steps (sr_step gate) with
  | [] => ret memo
  | deps =>
      let all_finished := forallb (fun d => step_is_terminal (sr_status d)) deps in
      match sr_status gate with
      | StepPending => if all_finished then skip_unneeded_gate run gate ;;; ret memo else ret memo
      | StepSkipped =>
          if all_finished then ret memo
          else
            let* events := memo_events run memo in
            (if skipped_as_unneeded events (sr_step gate)
             then transition_step run (sr_step gate) StepSkipped StepPending else ret tt) ;;;
            ret (Some events)
      | _ => ret memo
      end
  end.

Definition settle_unneeded_gates (run : RunId) : Prog SchedulerError unit :=
  let* steps := into SeDb (call (steps_of_run run)) in
  if existsb is_gate steps then
    let* _ := fold_each (settle_unneeded_gate run steps) None (List.filter is_gate steps) in ret tt
  else ret tt.

(** ** The run budget *)

Definition run_budget_secs (run : RunId) : Prog SchedulerError (option Z) :=
  let* ir := into SeDb (call (run_ir run)) in ret (ir ← ir; run_budget_of_ir ir).

Definition enforce_run_budget (leader : option LeaderTerm) (run : RunId) : Prog SchedulerError bool :=
  let* status := into SeDb (call (run_status_of run)) in
  if bool_decide (status = Some RunRunning) then
    let* budget := run_budget_secs run in
    match budget with
    | None => ret false
    | Some budget_secs =>
        let* events := into SeDb (call (events_of run)) in
        let* now := now_ in
        let active := active_ms events now in
        let budget_ms := sat_mul budget_secs 1000 in
        if (active <? budget_ms)%Z then ret false
        else
          cancel_live_steps run now ;;;
          benign_conflict SeDb (commit_run_transition_after leader run RunRunning RunFailed now true []
            [event run (RunBudgetExhausted active budget_ms) now]) ;;;
          release_slot_of run ;;;
          ret true
    end
  else ret false.

(** ** Admission *)

(** The entry of a [Pending] run: [false] when it has to wait. *)
Definition start_pending (leader : LeaderTerm) (run : RunId) : Prog SchedulerError bool :=
  let* older := into SeDb (call (superseded_by run)) in
  for_each (cancel_run (Some leader)) older ;;;
  let* in_flight := into SeDb (call (count_in_flight_runs None)) in
  if (cfg_global_run_cap cfg <=? in_flight)%N then ret false
  else
    let* over :=
      match cfg_project_run_cap cfg with
      | Some cap =>
          let* project := into SeDb (call (run_project run)) in
          match project with
          | Some project =>
              let* running := into SeDb (call (count_running_runs project)) in
              ret (cap <=? running)%N
          | None => ret false
          end
      | None => ret false
      end in
    if (over : bool) then ret false
    else
      let* conc := into SeDb (call (run_concurrency run)) in
      let* busy :=
        match conc with
        | Some (group, policy) =>
            let* holder := into SeDb (call (acquire_slot leader group run)) in
            match holder with
            | Some holder =>
                (match policy with
                 | CancelInProgress => cancel_run (Some leader) holder
                 | Queue => ret tt
                 end) ;;; ret true
            | None => ret false
            end
        | None => ret false
        end in
      if (busy : bool) then ret false
      else transition_run (Some leader) run RunPending RunRunning ;;; ret true.

(** The content identities recorded so far. *)
Definition read_identity (run : RunId) (m : gmap StepId string) (s : StepRun)
  : Prog SchedulerError (gmap StepId string) :=
  let* id := into SeDb (call (step_output_identity run (sr_step s))) in
  ret (match id with Some id => <[sr_step s := id]> m | None => m end).

Definition skip_dead_gate (run : RunId) (steps : list StepRun) (step : StepRun)
  : Prog SchedulerError unit :=
  if is_pending_gate step && dep_dead steps step
  then transition_step run (sr_step step) StepPending StepSkipped
  else ret tt.

(** Promote or skip one step whose needs have all succeeded. *)
Definition promote_or_skip (leader : LeaderTerm) (run : RunId) (step : StepRun)
    (signature_of : gmap StepId string) : Prog SchedulerError unit :=
  let* explicit := into SeDb (call (step_inputs run (sr_step step))) in
  let cur := input_signature (sr_needs step) explicit signature_of in
  let* prev := into SeDb (call (step_input run (sr_step step))) in
  let unchanged := bool_decide (is_Some (signature_of !! sr_step step))
                   && bool_decide (prev = Some cur) in
  if unchanged then skip_unchanged run (sr_step step)
  else
    let* now := now_ in
    benign_conflict SeDb (call (promote_step leader run (sr_step step) cur
      [event run (StepTransitioned (sr_step step) StepPending StepReady) now])).

(** The loop over the non-gate steps. *)
Definition admit_step (leader : LeaderTerm) (run : RunId) (steps : list StepRun)
    (signature_of : gmap StepId string) (service_status : gmap string ServiceStatus) (step : StepRun)
  : Prog SchedulerError unit :=
  if negb (bool_decide (sr_status step = StepPending)) || is_gate step then ret tt
  else if deps_satisfied steps step then
    let* spec := into SeDb (call (step_spec run (sr_step step))) in
    match readiness service_status (default [] (spec_uses <$> spec)) with
    | ServicesFailed reason =>
        transition_step_with run (sr_step step) StepPending StepFailed
          [StepServicesUnready (sr_step step) reason]
    | ServicesHeld => ret tt
    | ServicesReady => promote_or_skip leader run step signature_of
    end
  else if dep_dead steps step then transition_step run (sr_step step) StepPending StepSkipped
  else ret tt.

(** What a claimed step launches with. *)
Definition mint (now : Timestamp) (claimed : StepRun) : Result DbError StepLaunch :=
  let attempt := attempt_name (N.of_nat (length (sr_attempts claimed)) + 1) in
  Ok (mkLaunch (mkAttempt attempt now None None ORunning)
    [event (sr_run claimed) (AttemptStarted (sr_step claimed) attempt) now]
    [mkMsg 0 (sr_run claimed) LAUNCH_STEP (PLaunchIntent (sr_run claimed) (sr_step claimed) attempt)
       (launch_key (sr_run claimed) (sr_step claimed) attempt) now]).

(** Promotion, the claim, and the suspend check. *)
Definition admit_ready (leader : LeaderTerm) (run : RunId) : Prog SchedulerError unit :=
  let* steps := into SeDb (call (steps_of_run run)) in
  for_each (skip_dead_gate run steps) steps ;;;
  let* signature_of := fold_each (read_identity run) ∅ steps in
  let* service_rows := into SeDb (call (run_services run)) in
  for_each (admit_step leader run steps signature_of (service_status_of service_rows)) steps ;;;
  let* now := now_ in
  let* _ := into SeDb (call (claim_ready_steps leader (cfg_outbox_batch cfg) (mint now))) in
  if existsb is_pending_gate steps then
    let* after := into SeDb (call (steps_of_run run)) in
    if only_waits_outstanding after
    then transition_run (Some leader) run RunRunning RunSuspended else ret tt
  else ret tt.

Definition admit_as_leader (leader : LeaderTerm) (run : RunId) : Prog SchedulerError unit :=
  let* status := into SeDb (call (run_status_of run)) in
  match status with
  | None => fail (SeRunNotFound run)
  | Some status =>
      if run_is_terminal status then ret tt
      else
        let* started := if bool_decide (status = RunPending) then start_pending leader run
                        else ret true in
        if negb started then ret tt
        else
          evaluate_waiting_gates leader run ;;;
          settle_unneeded_gates run ;;;
          let* resumed :=
            if bool_decide (status = RunSuspended) then
              let* steps := into SeDb (call (steps_of_run run)) in
              if only_waits_outstanding steps then ret false
              else transition_run (Some leader) run RunSuspended RunRunning ;;; ret true
            else ret true in
          if negb resumed then ret tt
          else
            let* exhausted := enforce_run_budget (Some leader) run in
            if (exhausted : bool) then ret tt else admit_ready leader run
  end.

Definition admit_leg (run : RunId) : Prog SchedulerError Leg := as_leader (fun t => admit_as_leader t run).

(** ** Settling a Run *)

Definition advance (leader : option LeaderTerm) (run : RunId) : Prog SchedulerError unit :=
  let* steps := into SeDb (call (steps_of_run run)) in
  if bool_decide (steps = []) || negb (all_terminal steps) then ret tt
  else
    let outcome := run_outcome steps in
    let* status := into SeDb (call (run_status_of run)) in
    match status with
    | None => ret tt
    | Some current =>
        if run_is_terminal current then ret tt
        else
          (if bool_decide (outcome = RunDeadLettered) then
             let* now := now_ in append run (RunDeadLetteredEv (join "; " (dead_reasons steps))) now
           else ret tt) ;;;
          transition_run leader run current outcome ;;;
          teardown_services leader run ;;;
          release_slot_of run
    end.

Definition dead_letter_run (leader : option LeaderTerm) (run : RunId) (reason : string)
  : Prog SchedulerError unit :=
  let* status := into SeDb (call (run_status_of run)) in
  match status with
  | None => ret tt
  | Some current =>
      if run_is_terminal current then ret tt
      else
        let* now := now_ in
        let* cleanup := attempt_ (E:=SchedulerError)
                          (cancel_live_steps run now ;;; teardown_services leader run) in
        let reason := match cleanup with
          | Ok _ => reason
          | Err e => reason +:+ (" (cleanup also failed, step rows may be left non-terminal and "
                     +:+ "shared-service Pods may be orphaned: " +:+ show_error e +:+ ")")
          end in
        append run (RunDeadLetteredEv reason) now ;;;
        transition_run leader run current RunDeadLettered ;;;
        release_slot_of run
  end.

(** ** The tick *)

Definition tick_failure_reason (failing_ms : Z) (e : SchedulerError) : string :=
  "scheduler tick failed continuously for " +:+ pretty failing_ms +:+ "ms (bound: "
  +:+ pretty (cfg_tick_failure_deadline_ms cfg) +:+ "ms, ADR-0059) — "
  +:+ "this run cannot be driven forward; last error: " +:+ show_error e.

(** The error to log, or [None] when the run was dead-lettered instead. *)
Definition isolate_run_failure (run : RunId) (e : SchedulerError)
  : Prog SchedulerError (option SchedulerError) :=
  let* now := now_ in
  let* since := failing_since run now in
  let failing_ms := (now - since)%Z in
  if (failing_ms <? cfg_tick_failure_deadline_ms cfg)%Z then ret (Some e)
  else
    let* r := attempt_ (dead_letter_run None run (tick_failure_reason failing_ms e)) in
    match r with
    | Ok _ => healthy run ;;; ret None
    | Err dl => ret (Some dl)
    end.

(** [for run in ..] with its [break]. *)
Fixpoint sweep_runs (term : LeaderTerm) (now : Timestamp) (runs : list RunId)
    (isolated : list (RunId * SchedulerError)) : Prog SchedulerError (list (RunId * SchedulerError)) :=
  match runs with
  | [] => ret isolated
  | run :: rest =>
      let* r := attempt_ (fail_run_creation_as (Some term) run UNFINISHED_CREATION_REASON now) in
      match r with
      | Ok _ | Err DbConflict => sweep_runs term now rest isolated
      | Err DbNotLeader | Err DbFenceTimeout => ret isolated
      | Err e => sweep_runs term now rest (isolated ++ [(run, SeDb e)])
      end
  end.

Definition sweep_unfinished_creations : Prog SchedulerError (list (RunId * SchedulerError)) :=
  let* term := leader_term in
  match term with
  | None => ret []
  | Some term =>
      let* now := now_ in
      let cutoff := (now - cfg_unfinished_creation_bound_ms cfg)%Z in
      let* runs := into SeDb (call (unfinished_creations_before cutoff)) in
      sweep_runs term now runs []
  end.

(** The local variables of [tick_all]. *)
Record TickState := mkTick {
  tk_isolated : list (RunId * SchedulerError);
  tk_stuck : gset RunId;
  tk_deferred : gset RunId;
}.

Definition isolate (run : RunId) (e : SchedulerError) (t : TickState) : Prog SchedulerError TickState :=
  let* e := isolate_run_failure run e in
  ret (mkTick (match e with Some e => tk_isolated t ++ [(run, e)] | None => tk_isolated t end)
         (tk_stuck t) (tk_deferred t)).

Definition tick_lead (t : TickState) (run : RunId) : Prog SchedulerError TickState :=
  let* leg := attempt_ (
    let* services := reconcile_services_leg run in
    let* admission := admit_leg run in
    ret (match services, admission with LegDone, LegDone => false | _, _ => true end)) in
  match leg with
  | Ok true => ret (mkTick (tk_isolated t) (tk_stuck t) ({[run]} ∪ tk_deferred t))
  | Ok false => ret t
  | Err e =>
      let* t := isolate run e t in
      ret (mkTick (tk_isolated t) ({[run]} ∪ tk_stuck t) (tk_deferred t))
  end.

Definition tick_advance (t : TickState) (run : RunId) : Prog SchedulerError TickState :=
  if bool_decide (run ∈ tk_stuck t) then ret t
  else
    let* r := attempt_ (advance None run) in
    match r with
    | Ok _ => if bool_decide (run ∈ tk_deferred t) then ret t else healthy run ;;; ret t
    | Err e => isolate run e t
    end.

(** * Theorems *)

(** ** Every pass is a sequence of store calls *)

Lemma wb_leader_leg m : well_behaved m -> well_behaved (leader_leg m).
Proof. intros H. unfold leader_leg. auto 10 with prog. Qed.
Lemma wb_leader_term : well_behaved leader_term.
Proof. unfold leader_term. auto 10 with prog. Qed.
Hint Resolve wb_leader_leg wb_leader_term : prog.
Lemma wb_as_leader f : (forall t, well_behaved (f t)) -> well_behaved (as_leader f).
Proof. intros H. unfold as_leader. auto 10 with prog. Qed.
Lemma wb_transition_run l run f t : well_behaved (transition_run l run f t).
Proof. unfold transition_run. auto 10 with prog. Qed.
Lemma wb_transition_step_with run s f t p : well_behaved (transition_step_with run s f t p).
Proof. unfold transition_step_with. auto 10 with prog. Qed.
Lemma wb_append run k a : well_behaved (append run k a).
Proof. unfold append. auto 10 with prog. Qed.
Lemma wb_release_slot_of run : well_behaved (release_slot_of run).
Proof. unfold release_slot_of. auto 10 with prog. Qed.
Hint Resolve wb_as_leader wb_transition_run wb_transition_step_with wb_append wb_release_slot_of : prog.
Lemma wb_transition_step run s f t : well_behaved (transition_step run s f t).
Proof. apply wb_transition_step_with. Qed.
Lemma wb_skip_unchanged run s : well_behaved (skip_unchanged run s).
Proof. apply wb_transition_step_with. Qed.
Lemma wb_finalize run s a t f c : well_behaved (finalize_step run s a t f c).
Proof. unfold finalize_step. auto 10 with prog. Qed.
Lemma wb_rearm_step run s a k c : well_behaved (rearm_step run s a k c).
Proof. unfold rearm_step. auto 10 with prog. Qed.
Hint Resolve wb_transition_step wb_skip_unchanged wb_finalize wb_rearm_step : prog.
Hint Extern 1 (well_behaved (call (run_ir _))) => apply wb_read : prog.
Hint Extern 1 (well_behaved (call (step_spec _ _))) => apply wb_read : prog.
Hint Extern 1 (well_behaved (call (step_input _ _))) => apply wb_read : prog.
Hint Extern 1 (well_behaved (call (step_output_identity _ _))) => apply wb_read : prog.
Hint Extern 1 (well_behaved (call (gate_timer_seconds _ _))) => apply wb_read : prog.
Hint Extern 1 (well_behaved (call (gate_wait_inputs _ _ _))) => apply wb_read : prog.
Hint Extern 1 (well_behaved (call (attempt_handle _ _ _))) => apply wb_read : prog.
Hint Extern 1 (well_behaved (call (run_project _))) => apply wb_read : prog.
Hint Extern 1 (well_behaved (call (count_in_flight_runs _))) => apply wb_read : prog.
Hint Extern 1 (well_behaved (call (count_running_runs _))) => apply wb_read : prog.
Hint Extern 1 (well_behaved (call (unfinished_creations_before _))) => apply wb_read : prog.
Hint Extern 1 (well_behaved (call active_runs)) => apply wb_read : prog.
Lemma wb_superseded_by run : well_behaved (call (superseded_by run)).
Proof. apply wb_reads. intros st. unfold superseded_by. by repeat case_match. Qed.
Hint Resolve wb_superseded_by : prog.
Lemma wb_step_retry run s : well_behaved (step_retry run s).
Proof. unfold step_retry. auto 10 with prog. Qed.
Lemma wb_succeed run s a : well_behaved (succeed_step run s a).
Proof. unfold succeed_step. auto 10 with prog. Qed.
Hint Resolve wb_step_retry wb_succeed : prog.
Lemma wb_settle_failed run s a k c : well_behaved (settle_failed_attempt run s a k c).
Proof. unfold settle_failed_attempt. auto 14 with prog. Qed.
Lemma wb_teardown_row l run r : well_behaved (teardown_service_row l run r).
Proof. unfold teardown_service_row. auto 10 with prog. Qed.
Hint Resolve wb_settle_failed wb_teardown_row : prog.
Lemma wb_teardown l run : well_behaved (teardown_services l run).
Proof. unfold teardown_services. auto 12 with prog. Qed.
Lemma wb_launch_service l run t s c n : well_behaved (launch_service_bounded l run t s c n).
Proof. unfold launch_service_bounded. auto 14 with prog. Qed.
Hint Resolve wb_teardown wb_launch_service : prog.
Lemma wb_reconcile_service l run t rows n s : well_behaved (reconcile_service l run t rows n s).
Proof. unfold reconcile_service. cbv zeta. auto 14 with prog. Qed.
Lemma wb_pipeline_services run : well_behaved (pipeline_services run).
Proof. unfold pipeline_services. auto 10 with prog. Qed.
Hint Resolve wb_reconcile_service wb_pipeline_services : prog.
Lemma wb_reconcile_services l run : well_behaved (reconcile_services_as_leader l run).
Proof. unfold reconcile_services_as_leader. auto 20 with prog. Qed.
Hint Resolve wb_reconcile_services : prog.
Lemma wb_services_leg run : well_behaved (reconcile_services_leg run).
Proof. unfold reconcile_services_leg. auto with prog. Qed.
Lemma wb_cancel_live_step run n s : well_behaved (cancel_live_step run n s).
Proof. unfold cancel_live_step. auto 14 with prog. Qed.
Hint Resolve wb_services_leg wb_cancel_live_step : prog.
Lemma wb_cancel_live_steps run n : well_behaved (cancel_live_steps run n).
Proof. unfold cancel_live_steps. auto 10 with prog. Qed.
Hint Resolve wb_cancel_live_steps : prog.
Lemma wb_cancel_run l run : well_behaved (cancel_run l run).
Proof. unfold cancel_run. auto 16 with prog. Qed.
Hint Resolve wb_cancel_run : prog.
Lemma wb_memo_events run m : well_behaved (memo_events run m).
Proof. unfold memo_events. auto 10 with prog. Qed.
Lemma wb_memo_settings run m : well_behaved (memo_settings run m).
Proof. unfold memo_settings, gate_settings. auto 10 with prog. Qed.
Lemma wb_gate_verdict run g a s r n : well_behaved (gate_verdict run g a s r n).
Proof. unfold gate_verdict. auto 12 with prog. Qed.
Hint Resolve wb_memo_events wb_memo_settings wb_gate_verdict : prog.
Lemma wb_ensure_wait l run g m : well_behaved (ensure_gate_wait l run g m).
Proof. unfold ensure_gate_wait. cbv zeta. auto 14 with prog. Qed.
Lemma wb_ensure_inputs l run g a : well_behaved (ensure_gate_inputs l run g a).
Proof. unfold ensure_gate_inputs. auto 16 with prog. Qed.
Lemma wb_judge run g a m : well_behaved (judge_gate run g a m).
Proof. unfold judge_gate. cbv zeta. auto 20 with prog. Qed.
Hint Resolve wb_ensure_wait wb_ensure_inputs wb_judge : prog.
Lemma wb_evaluate_gate l run s m g : well_behaved (evaluate_gate l run s m g).
Proof. unfold evaluate_gate. auto 16 with prog. Qed.
Hint Resolve wb_evaluate_gate : prog.
Lemma wb_evaluate_gates l run : well_behaved (evaluate_waiting_gates l run).
Proof. unfold evaluate_waiting_gates. auto 12 with prog. Qed.
Lemma wb_skip_unneeded run g : well_behaved (skip_unneeded_gate run g).
Proof. unfold skip_unneeded_gate. cbv zeta. auto 10 with prog. Qed.
Hint Resolve wb_evaluate_gates wb_skip_unneeded : prog.
Lemma wb_settle_unneeded_gate run s m g : well_behaved (settle_unneeded_gate run s m g).
Proof. unfold settle_unneeded_gate. cbv zeta. auto 14 with prog. Qed.
Hint Resolve wb_settle_unneeded_gate : prog.
Lemma wb_settle_unneeded run : well_behaved (settle_unneeded_gates run).
Proof. unfold settle_unneeded_gates. auto 12 with prog. Qed.
Lemma wb_budget l run : well_behaved (enforce_run_budget l run).
Proof. unfold enforce_run_budget, run_budget_secs. cbv zeta. auto 20 with prog. Qed.
Lemma wb_start_pending l run : well_behaved (start_pending l run).
Proof. unfold start_pending. auto 24 with prog. Qed.
Lemma wb_read_identity run m s : well_behaved (read_identity run m s).
Proof. unfold read_identity. auto 10 with prog. Qed.
Lemma wb_skip_dead_gate run s g : well_behaved (skip_dead_gate run s g).
Proof. unfold skip_dead_gate. auto 10 with prog. Qed.
Lemma wb_promote l run s m : well_behaved (promote_or_skip l run s m).
Proof. unfold promote_or_skip. cbv zeta. auto 14 with prog. Qed.
Hint Resolve wb_settle_unneeded wb_budget wb_start_pending wb_read_identity wb_skip_dead_gate
  wb_promote : prog.
Lemma wb_admit_step l run ss m sv s : well_behaved (admit_step l run ss m sv s).
Proof. unfold admit_step. auto 14 with prog. Qed.
Hint Resolve wb_admit_step : prog.
Lemma wb_admit_ready l run : well_behaved (admit_ready l run).
Proof. unfold admit_ready. auto 24 with prog. Qed.
Hint Resolve wb_admit_ready : prog.
Lemma wb_admit_as_leader l run : well_behaved (admit_as_leader l run).
Proof. unfold admit_as_leader. auto 24 with prog. Qed.
Hint Resolve wb_admit_as_leader : prog.
Lemma wb_admit_leg run : well_behaved (admit_leg run).
Proof. unfold admit_leg. auto with prog. Qed.
Lemma wb_advance l run : well_behaved (advance l run).
Proof. unfold advance. cbv zeta. auto 20 with prog. Qed.
Lemma wb_dead_letter l run r : well_behaved (dead_letter_run l run r).
Proof. unfold dead_letter_run. cbv zeta. auto 20 with prog. Qed.
Hint Resolve wb_admit_leg wb_advance wb_dead_letter : prog.
Lemma wb_isolate_failure run e : well_behaved (isolate_run_failure run e).
Proof. unfold isolate_run_failure, failing_since, healthy. auto 16 with prog. Qed.
Hint Resolve wb_isolate_failure : prog.
Lemma wb_fail_creation_as l run r n : well_behaved (fail_run_creation_as l run r n).
Proof. apply wb_commit_run_transition_after. Qed.
Hint Resolve wb_fail_creation_as : prog.
Lemma wb_sweep_runs t n runs i : well_behaved (sweep_runs t n runs i).
Proof. revert i; induction runs as [|r runs IH]; intros i; cbn [sweep_runs]; auto 12 with prog. Qed.
Hint Resolve wb_sweep_runs : prog.
Lemma wb_sweep : well_behaved sweep_unfinished_creations.
Proof. unfold sweep_unfinished_creations. cbv zeta. auto 14 with prog. Qed.
Lemma wb_isolate run e t : well_behaved (isolate run e t).
Proof. unfold isolate. auto 10 with prog. Qed.
Hint Resolve wb_isolate : prog.
Lemma wb_tick_lead t run : well_behaved (tick_lead t run).
Proof. unfold tick_lead. auto 16 with prog. Qed.
Lemma wb_tick_advance t run : well_behaved (tick_advance t run).
Proof. unfold tick_advance, healthy. auto 16 with prog. Qed.
End WithPorts.

#[export] Hint Resolve wb_transition_run wb_transition_step_with wb_append wb_release_slot_of
  wb_finalize wb_succeed wb_step_retry wb_settle_failed wb_teardown wb_services_leg wb_admit_leg
  wb_advance wb_dead_letter wb_sweep wb_isolate wb_tick_lead wb_tick_advance wb_cancel_run : prog.
#[export] Hint Extern 1 (well_behaved (call (run_ir _))) => apply wb_read : prog.
#[export] Hint Extern 1 (well_behaved (call (step_spec _ _))) => apply wb_read : prog.
#[export] Hint Extern 1 (well_behaved (call (attempt_handle _ _ _))) => apply wb_read : prog.
#[export] Hint Extern 1 (well_behaved (call (run_project _))) => apply wb_read : prog.
#[export] Hint Extern 1 (well_behaved (call active_runs)) => apply wb_read : prog.
