(* ===== verification/Settle.v ===== *)
(** * How attempts and Runs settle

    What [settle_failed_attempt], [advance] and the tick's failure isolation
    (scarab-engine/src/scheduler.rs) decide: whether a failed attempt is
    retried, how a finished Run ends, and when a Run that cannot be driven is
    dead-lettered. *)

From S2P Require Import Prelude Text Values Cel Params Scopes Render Domain Store Outbox Commits Gates Program Transitions LaunchSpec Cancel Plan Rerun Verdicts Backend Scheduler.

(** Every attempt named [attempt] failed with [kind] and [cause]; the others as
    they were. *)
Definition fail_attempt (attempt : AttemptId) (kind : FailureKind) (cause : option string)
    (l : list Attempt) : list Attempt :=
  map (fun a => if String.eqb (att_id a) attempt
                then mkAttempt (att_id a) (att_started_at a) (Some kind) cause OFailed else a) l.

(** A Rerun that re-arms [step], and the start of one of its attempts. *)
Definition rearms (step : StepId) (e : EventKind) : bool :=
  match ev_kind e with
  | RunRerunRequested _ invalidated _ _ => contains_step invalidated step
  | _ => false
  end.
Definition starts (step : StepId) (e : EventKind) : bool :=
  match ev_kind e with AttemptStarted s _ => String.eqb s step | _ => false end.

(** The attempts of the current Take. *)
Definition take_attempts (run : RunId) (step : StepId) (st : InMemoryState) : N :=
  N.of_nat (length (List.filter (starts step)
    (since_last (rearms step) (List.filter (fun e => String.eqb (ev_run e) run) (st_events st))))).

(** * Theorems *)

(** ** Running alone *)

Lemma read_alone {E A B} (f : DbError -> E) (g : InMemoryState -> A) (k : A -> Prog E B) st now :
  bind (into f (call (op_read g))) k (alone st now) = k (g st) (alone st now).
Proof. done. Qed.
Lemma modify_alone {E B} (f : DbError -> E) g (k : unit -> Prog E B) st now :
  bind (into f (call (op_modify g))) k (alone st now) = k tt (alone (g st) now).
Proof. done. Qed.
Lemma now_alone {E B} (k : Timestamp -> Prog E B) st now :
  bind now_ k (alone st now) = k now (alone st now).
Proof. done. Qed.
Lemma call_bind_alone {E A B} (f : DbError -> E) (op : Op A) a st' (k : A -> Prog E B) st now :
  op st = (Ok a, st') -> bind (into f (call op)) k (alone st now) = k a (alone st' now).
Proof. intros H. unfold bind, into. rewrite call_alone, H. done. Qed.
Lemma ask_alone {E F A B} (f : F -> E) (op : N -> Result F A) (k : A -> Prog E B) st now :
  bind (ask f op) k (alone st now)
    = match op 0%N with Ok a => k a (alone st now) | Err e => (Err (f e), alone st now) end.
Proof. unfold ask, bind. cbn. by destruct (op 0%N). Qed.
Lemma benign_alone {E} (f : DbError -> E) (op : Op unit) st' st now :
  op st = (Ok tt, st') -> benign_conflict f (call op) (alone st now) = (Ok tt, alone st' now).
Proof. intros H. unfold benign_conflict, bind, attempt_. by rewrite call_alone, H. Qed.

(** ** A failed attempt *)

Lemma used_attempts_spec step events :
  used_attempts step events
    = N.of_nat (length (List.filter (starts step) (since_last (rearms step) events))).
Proof.
  unfold used_attempts. induction events as [|e l IH] using rev_ind; [done|].
  rewrite foldl_app, IH. cbn [foldl]. clear IH.
  destruct (rearms step e) eqn:Er.
  - change (since_last (rearms step) (l ++ [e])) with (since_last (rearms step) (l ++ e :: [])).
    rewrite since_last_app by done. unfold count_used, rearms in *. destruct (ev_kind e); try done.
    by rewrite Er.
  - rewrite since_last_snoc by done. rewrite List.filter_app, length_app. cbn [List.filter].
    unfold count_used, rearms, starts in *. destruct (ev_kind e); cbn; rewrite ?Er; try (f_equal; lia); try lia.
    case_match; cbn; lia.
Qed.

Lemma update_first_map (attempt : AttemptId) f (l : list Attempt) :
  NoDup (map att_id l) ->
  update_first (fun a => String.eqb (att_id a) attempt) f l
    = map (fun a => if String.eqb (att_id a) attempt then f a else a) l.
Proof.
  induction l as [|x l IH]; [done|]. cbn. intros H. apply NoDup_cons in H as [Hn H].
  destruct (String.eqb_spec (att_id x) attempt) as [<-|E]; [|by rewrite IH].
  f_equal. rewrite <- (map_id l) at 1. apply map_ext_in. intros y Hy.
  destruct (String.eqb_spec (att_id y) (att_id x)) as [E|]; [|done].
  destruct Hn. rewrite <- E. apply list_elem_of_fmap_2. by apply list_elem_of_In.
Qed.

(** Stamping the failure of an attempt whose observation is a verdict. *)
Lemma stamp_fail_attempt attempt kind cause l :
  NoDup (map att_id l) -> is_verdict (sort_attempts l) attempt = true ->
  update_first (fun a => String.eqb (att_id a) attempt) (stamp_attempt (StampFailure kind cause)) l
    = fail_attempt attempt kind cause l.
Proof.
  intros Hnd Hv. rewrite update_first_map by done. apply map_ext_in. intros a Ha.
  apply list_elem_of_In in Ha. destruct (String.eqb_spec (att_id a) attempt) as [<-|]; [|done].
  unfold is_verdict in Hv. apply andb_true_iff in Hv as [_ Hv].
  rewrite (find_by_id (sort_attempts l) a) in Hv;
    [|by rewrite sort_attempts_ids|by apply elem_of_sort_attempts].
  unfold stamp_attempt. by apply negb_true_iff in Hv as ->.
Qed.

Lemma fail_attempt_ids attempt kind cause l :
  map att_id (fail_attempt attempt kind cause l) = map att_id l.
Proof. unfold fail_attempt. rewrite map_map. apply map_ext. intros a. by case_match. Qed.

Lemma fail_attempt_twice attempt kind cause l :
  NoDup (map att_id l) ->
  update_first (fun a => String.eqb (att_id a) attempt) (stamp_attempt (StampFailure kind cause))
    (fail_attempt attempt kind cause l) = fail_attempt attempt kind cause l.
Proof.
  intros H. rewrite update_first_map by (by rewrite fail_attempt_ids).
  unfold fail_attempt. rewrite map_map. apply map_ext. intros a.
  destruct (String.eqb (att_id a) attempt) eqn:E; by rewrite ?E; cbn; rewrite ?E.
Qed.

Lemma max_by_order_ids l l' :
  map att_id l = map att_id l' -> att_id <$> max_by_order l = att_id <$> max_by_order l'.
Proof.
  revert l'; induction l as [|a l IH] using rev_ind; intros l' E.
  - by destruct l'.
  - destruct l' as [|b l' _] using rev_ind; [by destruct l|].
    rewrite !map_app in E. apply app_inj_2 in E as [El Ea]; [|done]. injection Ea as Ea.
    rewrite !max_by_order_snoc. specialize (IH l' El).
    destruct (max_by_order l) as [x|], (max_by_order l') as [y|]; try done; cbn in *; [|congruence].
    injection IH as Ex. unfold attempt_order_key. rewrite Ex, Ea. by case_match; cbn; congruence.
Qed.

Section WithPorts.
Context {K : Codecs}.

(** Whether a failed attempt of [step] is retried. *)
Definition retried (run : RunId) (step : StepId) (kind : FailureKind) (st : InMemoryState) : bool :=
  (take_attempts run step st
     <? allowed_attempts kind (configured_attempts (st_run_ir st !! run) step))%N.

Lemma verdict_frontier attempt l :
  is_verdict (sort_attempts l) attempt = true -> att_id <$> max_by_order l = Some attempt.
Proof.
  intros H. apply andb_true_iff in H as [H _]. apply bool_decide_eq_true in H.
  by rewrite latest_is_last in H.
Qed.

(** The failure stamped and the step moved, once the observation is a verdict. *)
Lemma settle_commit_alone run step attempt kind cause to stamp now r st :
  quiet st -> st_steps st !! (run, step) = Some r -> rec_status r = Some StepRunning ->
  NoDup (map att_id (rec_attempts r)) -> is_verdict (sort_attempts (rec_attempts r)) attempt = true ->
  stamp = None \/ stamp = Some (attempt, StampFailure kind cause) ->
  let st1 := stamp_attempt_locked run step attempt (StampFailure kind cause) st in
  let es := finalize_events run step attempt to (Some kind) cause now in
  exists st', benign_conflict SeDb (call (commit_step_transition run step StepRunning to
      (FrontierIs (Some attempt)) stamp es [])) (alone st1 now) = (Ok (E:=SchedulerError) tt, alone st' now)
    /\ st_steps st' !! (run, step)
         = Some (rec_with_attempts (fail_attempt attempt kind cause (rec_attempts r))
                   (rec_with_status (Some to) r))
    /\ st_events st' = st_events st ++ es /\ st_outbox st' = st_outbox st
    /\ step_frame (run, step) st st'.
Proof.
  intros Q Hr Hs Hnd Hv Hstamp. cbv zeta.
  set (st1 := stamp_attempt_locked _ _ _ _ st). set (es := finalize_events _ _ _ _ _ _ _).
  set (r1 := rec_with_attempts (fail_attempt attempt kind cause (rec_attempts r)) r).
  assert (st_steps st1 !! (run, step) = Some r1) as Hr1.
  { unfold st1, r1. cbn. by rewrite lookup_alter_eq, Hr, <- (stamp_fail_attempt attempt). }
  exists (step_commit_writes run step to stamp es [] st1). split_and!.
  - apply benign_alone, commit_step_ok; [exact Q|]. split; [by exists r1|].
    unfold latest_attempt. rewrite Hr1. cbn [mbind option_bind rec_attempts r1 rec_with_attempts].
    pose proof (max_by_order_ids _ _ (fail_attempt_ids attempt kind cause (rec_attempts r))) as E.
    rewrite (verdict_frontier _ _ Hv) in E. by destruct (max_by_order (fail_attempt _ _ _ _)).
  - rewrite (step_commit_steps _ _ _ _ _ _ _ _ Hr1), lookup_insert_eq. f_equal.
    unfold step_row_after. destruct Hstamp as [-> | ->]; [done|]. cbn. by rewrite fail_attempt_twice.
  - by destruct Hstamp as [-> | ->].
  - by destruct Hstamp as [-> | ->].
  - eapply step_frame_trans; [|apply step_commit_frame]. split; try done.
    intros k Hk. cbn. by rewrite lookup_alter_ne by done.
Qed.

(** A failed attempt is retried exactly as often as its failure allows, and
    never on stale evidence. On a [Running] step, with no other client in
    between: the failure of an attempt that is not the step's latest, or that
    a rerun or a cancel already stopped, changes nothing at all. Otherwise the
    attempt is stamped with the failure's kind and cause, every other attempt
    and every other step is untouched, [AttemptFinished] and the step's
    transition are logged, and the step is re-armed ([Ready]) if and only if
    the attempts started since the last Rerun that re-armed it are fewer than
    the failure's class allows; else it is finally [Failed]. *)
Theorem settle_failed_decides run step attempt kind cause st now r :
  quiet st -> st_steps st !! (run, step) = Some r -> rec_status r = Some StepRunning ->
  NoDup (map att_id (rec_attempts r)) ->
  exists st', settle_failed_attempt run step attempt kind cause (alone st now) = (Ok tt, alone st' now)
    /\ if is_verdict (sort_attempts (rec_attempts r)) attempt then
         let to := if retried run step kind st then StepReady else StepFailed in
         st_steps st' !! (run, step)
           = Some (rec_with_attempts (fail_attempt attempt kind cause (rec_attempts r))
                     (rec_with_status (Some to) r))
         /\ st_events st' = st_events st
              ++ [event run (AttemptFinished step attempt (Some kind) cause) now;
                  event run (StepTransitioned step StepRunning to) now]
         /\ st_outbox st' = st_outbox st /\ step_frame (run, step) st st'
       else st' = st.
Proof.
  intros Q Hr Hs Hnd. unfold settle_failed_attempt, attempts_of_step. rewrite read_alone, Hr.
  cbn [fmap option_fmap option_map default id].
  destruct (is_verdict (sort_attempts (rec_attempts r)) attempt) eqn:Hv; [|by exists st].
  cbn [negb]. unfold set_attempt_failure. rewrite modify_alone. unfold events_of. rewrite read_alone.
  set (st1 := stamp_attempt_locked _ _ _ _ st). unfold step_retry, bind at 1. 
  change ((let* ir := into SeDb (call (run_ir run)) in ret (configured_attempts ir step)) (alone st1 now))
    with (Ok (E:=SchedulerError) (configured_attempts (st_run_ir st !! run) step), alone st1 now).
  cbv iota beta. rewrite used_attempts_spec.
  change (N.of_nat _) with (take_attempts run step st) at 1.
  change (take_attempts run step st <? _)%N with (retried run step kind st).
  destruct (retried run step kind st); unfold rearm_step, finalize_step; rewrite now_alone.
  - apply (settle_commit_alone run step attempt kind cause StepReady None now r st); auto.
  - apply (settle_commit_alone run step attempt kind cause StepFailed
      (Some (attempt, StampFailure kind cause)) now r st); auto.
Qed.
End WithPorts.

(** Two infra failures before the container started are retried; the third
    attempt's is final. A stale report changes nothing. *)
Lemma settle_failed_decides_witness :
  let row n := rec_with_attempts [mkAttempt (attempt_name n) 5 None None ORunning]
                 (rec_with_status (Some StepRunning) step_rec_default) in
  let started i := event "r" (AttemptStarted "s" (attempt_name i)) 5%Z in
  let st n := set_steps {[("r", "s") := row n]} (push_events (map started (firstn (N.to_nat n) [1; 2; 3]%N)) state_empty) in
  (exists st', @settle_failed_attempt plain_codecs "r" "s" "a2" (FInfra true) None (alone (st 2%N) 9) = (Ok tt, alone st' 9)
     /\ (st_steps st' !! ("r", "s") ≫= rec_status) = Some StepReady)
  /\ (exists st', @settle_failed_attempt plain_codecs "r" "s" "a3" (FInfra true) None (alone (st 3%N) 9) = (Ok tt, alone st' 9)
     /\ (st_steps st' !! ("r", "s") ≫= rec_status) = Some StepFailed).
Proof.
  cbn zeta. split.
  - edestruct (@settle_failed_decides plain_codecs "r" "s" "a2" (FInfra true) None) as (st' & E & H);
      [| | | |exists st'; split; [exact E|]]; [split; [split|]; reflexivity|reflexivity|reflexivity|apply NoDup_singleton|].
    match type of H with if ?b then _ else _ => replace b with true in H by (vm_compute; reflexivity) end.
    destruct H as (-> & _). vm_compute. reflexivity.
  - edestruct (@settle_failed_decides plain_codecs "r" "s" "a3" (FInfra true) None) as (st' & E & H);
      [| | | |exists st'; split; [exact E|]]; [split; [split|]; reflexivity|reflexivity|reflexivity|apply NoDup_singleton|].
    match type of H with if ?b then _ else _ => replace b with true in H by (vm_compute; reflexivity) end.
    destruct H as (-> & _). vm_compute. reflexivity.
Defined.

(** ** Tearing down the shared services *)

(** [m'] is [m] with some of [run]'s rows torn down. *)
Definition torn_from (run : RunId) (m m' : gmap (RunId * Z * string) (ServiceStatus * option string * Timestamp))
  : Prop :=
  forall k, m' !! k = m !! k
    \/ k.1.1 = run /\ exists s h c, m !! k = Some (s, h, c) /\ m' !! k = Some (SvcTornDown, h, c).

Lemma torn_from_refl run m : torn_from run m m.
Proof. intros k. by left. Qed.
Lemma torn_from_trans run m1 m2 m3 : torn_from run m1 m2 -> torn_from run m2 m3 -> torn_from run m1 m3.
Proof.
  intros H1 H2 k. destruct (H1 k) as [E1|(Hk & s & h & c & E1 & E2)], (H2 k) as [E3|(Hk3 & s3 & h3 & c3 & E3 & E4)].
  - left. congruence.
  - right. split; [done|]. exists s3, h3, c3. split; congruence.
  - right. split; [done|]. exists s, h, c. split; congruence.
  - right. split; [done|]. exists s, h, c. split; congruence.
Qed.

Definition svc_key (r : RunService) : RunId * Z * string := (rs_run r, rs_take r, rs_name r).

Lemma nodup_omap_keys {A B C} (f : A * B -> option C) (g : C -> A) (l : list (A * B)) :
  NoDup (map fst l) -> (forall kv y, f kv = Some y -> g y = kv.1) -> NoDup (map g (omap f l)).
Proof.
  intros Hnd Hg. induction l as [|kv l IH]; [constructor|].
  cbn in Hnd. apply NoDup_cons in Hnd as [Hn Hnd]. cbn [omap list_omap].
  destruct (f kv) as [y|] eqn:Ey; [|by apply IH]. cbn. apply NoDup_cons. split; [|by apply IH].
  rewrite (Hg _ _ Ey). intros Hin. apply list_elem_of_fmap in Hin as (z & Ez & Hz).
  apply list_elem_of_omap in Hz as (kv' & Hkv' & Hz). apply Hn. rewrite Ez, (Hg _ _ Hz).
  by apply list_elem_of_fmap_2.
Qed.

(** The row [r] was read from. *)
Definition svc_row (m : gmap (RunId * Z * string) (ServiceStatus * option string * Timestamp)) (r : RunService) : Prop :=
  m !! svc_key r = Some (rs_status r, rs_handle r, rs_created_at r).

Definition service_rows (run : RunId) (st : InMemoryState) : list RunService :=
  match (run_services run st).1 with Ok l => l | Err _ => [] end.

Lemma service_rows_spec run st r :
  r ∈ service_rows run st <-> rs_run r = run /\ svc_row (st_run_services st) r.
Proof.
  unfold service_rows, svc_row. cbn. rewrite elem_of_sort_stable, list_elem_of_omap. split.
  - intros ([[[run' t] n] [[s h] c]] & Hin & Hr). apply elem_of_map_to_list in Hin.
    case_decide; [|done]. subst. by injection Hr as <-.
  - intros [<- H]. exists (svc_key r, (rs_status r, rs_handle r, rs_created_at r)).
    split; [by apply elem_of_map_to_list|]. cbn. rewrite decide_True by done. by destruct r.
Qed.

Lemma service_rows_nodup run st : NoDup (map svc_key (service_rows run st)).
Proof.
  unfold service_rows. cbn. match goal with |- NoDup (map _ (sort_stable ?le ?l)) => set (rows := l); set (leb := le) end.
  rewrite (Permutation_map svc_key (sort_stable_perm leb rows)).
  apply nodup_omap_keys; [apply NoDup_fst_map_to_list|].
  intros [[[run' t] n] [[s h] c]] y. case_decide; [|done]. by intros [= <-].
Qed.

Section Teardown.
Context {X : Executor}.

(** A row whose unit the backend refused to tear down. *)
Definition refused_row (run : RunId) (e : ExecError) (m : gmap (RunId * Z * string) (ServiceStatus * option string * Timestamp))
  : Prop :=
  exists t n s h c, m !! (run, t, n) = Some (s, Some h, c) /\ service_is_terminal s = false
    /\ x_teardown_service h 0 = Err e.

Definition all_torn (run : RunId) (m : gmap (RunId * Z * string) (ServiceStatus * option string * Timestamp)) : Prop :=
  forall t n s h c, m !! (run, t, n) = Some (s, h, c) -> service_is_terminal s = true.

Lemma teardown_row_alone run r st now :
  rs_run r = run -> svc_row (st_run_services st) r ->
  (exists m, teardown_service_row None run r (alone st now)
              = (Ok tt, alone (set_run_services m st) now)
     /\ torn_from run (st_run_services st) m
     /\ (forall k, k <> svc_key r -> m !! k = st_run_services st !! k)
     /\ m !! svc_key r = Some (SvcTornDown, rs_handle r, rs_created_at r))
  \/ exists e h, teardown_service_row None run r (alone st now) = (Err (SeExec e), alone st now)
       /\ rs_handle r = Some h /\ x_teardown_service h 0 = Err e.
Proof.
  intros <- Hs. unfold teardown_service_row.
  set (m := alter (fun rec : ServiceStatus * option string * Timestamp =>
    let '(_, h, c) := rec in (SvcTornDown, h, c)) (svc_key r) (st_run_services st)).
  assert (m !! svc_key r = Some (SvcTornDown, rs_handle r, rs_created_at r)) as Hm
    by (unfold m; by rewrite lookup_alter_eq, Hs).
  assert (forall k, k <> svc_key r -> m !! k = st_run_services st !! k) as Hk
    by (intros k Hk; by apply lookup_alter_ne).
  assert (torn_from (rs_run r) (st_run_services st) m) as T.
  { intros k. destruct (decide (k = svc_key r)) as [->|]; [right|left; by apply Hk].
    split; [done|]. by eexists _, _, _. }
  destruct (rs_handle r) as [h|] eqn:Eh; [|left; by exists m].
  rewrite ask_alone. destruct (x_teardown_service h 0) as [[]|e] eqn:Ex; [left|right].
  - by exists m.
  - by exists e, h.
Qed.

Lemma teardown_loop_alone run l st now :
  NoDup (map svc_key l) -> Forall (fun r => rs_run r = run /\ svc_row (st_run_services st) r) l ->
  exists res m, for_each (fun r => if service_is_terminal (rs_status r) then ret tt
                                   else teardown_service_row None run r) l (alone st now)
                  = (res, alone (set_run_services m st) now)
    /\ torn_from run (st_run_services st) m
    /\ ((res = Ok tt /\ (forall r, r ∈ l -> exists s h c, m !! svc_key r = Some (s, h, c) /\ service_is_terminal s = true))
        \/ exists e, res = Err (SeExec e) /\ refused_row run e m)
    /\ forall k, k ∉ map svc_key l -> m !! k = st_run_services st !! k.
Proof.
  revert st; induction l as [|r l IH]; intros st Hnd Hl.
  { exists (Ok tt), (st_run_services st). split; [by destruct st|]. split; [apply torn_from_refl|].
    split; [|done]. left. split; [done|]. intros r Hr. by apply elem_of_nil in Hr. }
  apply Forall_cons in Hl as [[Hr Hrow] Hl]. cbn in Hnd. apply NoDup_cons in Hnd as [Hn Hnd].
  assert (forall m, torn_from run (st_run_services st) m ->
    (forall k, k <> svc_key r -> m !! k = st_run_services st !! k) ->
    (exists s h c, m !! svc_key r = Some (s, h, c) /\ service_is_terminal s = true) ->
    exists res m', for_each (fun r => if service_is_terminal (rs_status r) then ret tt
                                   else teardown_service_row None run r) l (alone (set_run_services m st) now)
                  = (res, alone (set_run_services m' st) now)
    /\ torn_from run (st_run_services st) m'
    /\ ((res = Ok tt /\ forall r', r' ∈ r :: l -> exists s h c, m' !! svc_key r' = Some (s, h, c) /\ service_is_terminal s = true)
        \/ exists e, res = Err (SeExec e) /\ refused_row run e m')
    /\ forall k, k ∉ map svc_key (r :: l) -> m' !! k = st_run_services st !! k) as Hrest.
  { intros m Hm Ho Hk. destruct (IH (set_run_services m st) Hnd) as (res & m' & E & T & Hres & Hf).
    { apply Forall_forall. intros x Hx. destruct (proj1 (Forall_forall _ _) Hl x Hx) as [Hx1 Hx2].
      split; [done|]. unfold svc_row. cbn. rewrite Ho; [done|]. intros E. apply Hn. rewrite <- E.
      by apply list_elem_of_fmap_2. }
    exists res, m'. split; [exact E|]. cbn in T, Hf. split; [by eapply torn_from_trans|]. split.
    - destruct Hres as [[-> Hres]|He]; [left|by right]. split; [done|]. intros r' Hr'.
      apply elem_of_cons in Hr' as [->|Hr']; [by rewrite Hf|by apply Hres].
    - cbn [map]. intros k Hkl. apply not_elem_of_cons in Hkl as [Hk1 Hk2]. by rewrite Hf, Ho. }
  cbn [for_each]. unfold bind. destruct (service_is_terminal (rs_status r)) eqn:Et.
  - destruct (Hrest (st_run_services st)) as (res & m & E & H); [apply torn_from_refl|done|eauto 6|].
    exists res, m. split; [|done]. cbn [ret]. rewrite <- E. by destruct st.
  - destruct (teardown_row_alone run r st now Hr Hrow) as [(m & E & T & Ho & Hk)|(e & h & E & Hh & He)];
      rewrite E; [apply Hrest; eauto 6|].
    exists (Err (SeExec e)), (st_run_services st). split; [by destruct st|].
    split; [apply torn_from_refl|]. split; [|done]. right. exists e. split; [done|]. subst run.
    exists (rs_take r), (rs_name r), (rs_status r), h, (rs_created_at r).
    by rewrite <- Hh.
Qed.

(** Alone, a teardown pass leaves every row torn down, or stops at the first
    unit the backend refuses. *)
Lemma teardown_services_alone run st now :
  exists res m, teardown_services None run (alone st now) = (res, alone (set_run_services m st) now)
    /\ torn_from run (st_run_services st) m
    /\ ((res = Ok tt /\ all_torn run m) \/ exists e, res = Err (SeExec e) /\ refused_row run e m).
Proof.
  destruct (teardown_loop_alone run (service_rows run st) st now) as (res & m & E & T & H & _).
  { apply service_rows_nodup. }
  { apply Forall_forall. intros r Hr. by apply service_rows_spec in Hr. }
  exists res, m. split; [exact E|]. split; [done|]. destruct H as [[-> H]|H]; [left|by right].
  split; [done|]. intros t n s h c Hk.
  destruct (T (run, t, n)) as [E1|(_ & s' & h' & c' & _ & E2)]; [|rewrite E2 in Hk; by injection Hk as <- _ _].
  destruct (H (mkRunService run t n s h c)) as (s2 & h2 & c2 & E2 & Ht).
  - apply service_rows_spec. split; [done|]. unfold svc_row, svc_key. cbn [rs_run rs_take rs_name rs_status rs_handle rs_created_at].
    by rewrite <- E1.
  - unfold svc_key in E2. cbn in E2. congruence.
Qed.
End Teardown.

(** ** How a settled Run ends *)

Lemma dead_reasons_spec steps :
  dead_reasons steps <> [] <->
  exists s a k, s ∈ steps /\ sr_status s = StepFailed /\ last (sr_attempts s) = Some a
    /\ att_failure a = Some k /\ verdictless k = true.
Proof.
  unfold dead_reasons. split.
  - intros H. destruct (omap dead_reason steps) as [|x l] eqn:E; [done|].
    assert (x ∈ omap dead_reason steps) as Hx by (rewrite E; constructor).
    apply list_elem_of_omap in Hx as (s & Hs & Hd). unfold dead_reason in Hd. case_decide; [|done].
    destruct (last (sr_attempts s)) as [a|] eqn:Ea; [|done]. cbn in Hd.
    destruct (att_failure a) as [k|] eqn:Ek; [|done]. cbn in Hd.
    destruct (verdictless k) eqn:Ev; [|done]. by exists s, a, k.
  - intros (s & a & k & Hs & Hf & Ha & Hk & Hv) E.
    assert (exists x, dead_reason s = Some x) as (x & Hx).
    { unfold dead_reason. rewrite decide_True, Ha by done. cbn. rewrite Hk. cbn. rewrite Hv. eauto. }
    assert (x ∈ omap dead_reason steps) as Hin by (apply list_elem_of_omap; eauto).
    rewrite E in Hin. by apply elem_of_nil in Hin.
Qed.

Lemma run_outcome_spec steps :
  all_terminal steps = true ->
  (run_outcome steps = RunDeadLettered <-> dead_reasons steps <> [])
  /\ (run_outcome steps = RunSucceeded <->
        forall s, s ∈ steps -> sr_status s = StepSucceeded \/ sr_status s = StepSkipped)
  /\ (run_outcome steps = RunFailed \/ run_outcome steps = RunSucceeded \/ run_outcome steps = RunDeadLettered).
Proof.
  intros Ht. unfold run_outcome. pose proof (dead_reasons_spec steps) as [Hd _].
  assert (forall s, s ∈ steps -> step_is_terminal (sr_status s) = true) as Hall.
  { unfold all_terminal in Ht. rewrite forallb_forall in Ht. intros s Hs. apply Ht. by apply list_elem_of_In. }
  set (bad := existsb _ steps).
  assert (bad = false <-> forall s, s ∈ steps -> sr_status s = StepSucceeded \/ sr_status s = StepSkipped) as Hb.
  { unfold bad. rewrite <- not_true_iff_false, existsb_exists. split.
    - intros Hn s Hs. specialize (Hall s Hs). destruct (sr_status s) eqn:Es; try done; auto;
        destruct Hn; exists s; (split; [by apply list_elem_of_In|by rewrite Es]).
    - intros H (s & Hs & Hx). apply list_elem_of_In in Hs. by destruct (H s Hs) as [E|E]; rewrite E in Hx. }
  destruct (dead_reasons steps) as [|x l] eqn:E; [destruct bad|]; split_and!; try done; auto.
  - split; [done|]. intros H. by apply Hb in H.
  - split; [|done]. intros _. by apply Hb.
  - split; [done|]. intros H. destruct Hd as (s & a & k & Hs & Hf & _); [done|].
    by destruct (H s Hs) as [E2|E2]; rewrite E2 in Hf.
Qed.

Lemma enqueue_all_kinds ms st e :
  e ∈ st_outbox (enqueue_all ms st) ->
  e ∈ st_outbox st \/ exists m, m ∈ ms /\ msg_kind (oe_msg e) = msg_kind m.
Proof.
  revert st; induction ms as [|m ms IH]; intros st; [by left|]. rewrite enqueue_all_cons. intros H.
  destruct (IH _ H) as [H1|(m' & Hm & Hk)]; [|right; exists m'; split; [by constructor|done]].
  unfold enqueue_outbox_locked in H1. case_match; [by left|]. cbn in H1.
  apply elem_of_app in H1 as [H1|H1]; [by left|]. apply list_elem_of_singleton in H1 as ->.
  right. exists m. split; [constructor|done].
Qed.

(** Only notices of the Run's new status were posted. *)
Definition only_posts (st st' : InMemoryState) : Prop :=
  forall e, e ∈ st_outbox st' ->
    e ∈ st_outbox st \/ msg_kind (oe_msg e) = RUN_STATUS_CHANGED \/ msg_kind (oe_msg e) = RUN_FINISHED.

Lemma transition_run_alone run from to st now :
  quiet st -> st_runs st !! run = Some from -> run_is_terminal from = false ->
  exists st', transition_run None run from to (alone st now) = (Ok tt, alone st' now)
    /\ st_runs st' = <[run := to]> (st_runs st) /\ st_steps st' = st_steps st
    /\ st_run_services st' = st_run_services st
    /\ st_concurrency st' = st_concurrency st
    /\ st_events st' = st_events st ++ [event run (RunTransitioned from to) now]
    /\ only_posts st st'
    /\ has_key (run_status_post_key run (run_reopen_generation run st) to) st'
    /\ (to = RunSucceeded \/ to = RunFailed -> from <> RunPending ->
          has_key (run_finished_key run (run_reopen_generation run st) to) st')
    /\ (forall k, has_key k st -> has_key k st').
Proof.
  intros Q Hrun Hlive. unfold transition_run. rewrite now_alone.
  unfold benign_conflict, bind at 1, attempt_, commit_run_transition, commit_run_transition_after.
  unfold bind at 1. rewrite call_alone. cbn [op_read fst snd]. rewrite call_alone.
  rewrite commit_run_ok; [|done|by rewrite Hrun|done]. cbn [fst snd ret app].
  unfold bump_reopen_generation_locked. rewrite Hlive.
  match goal with |- context [enqueue_all ?m ?x] => set (ms := m); set (s3 := x) end.
  destruct (enqueue_all_fields ms s3) as (E1 & E3 & E4 & _).
  destruct (enqueue_all_frame ms s3) as (G1 & _ & G3 & _).
  exists (enqueue_all ms s3). rewrite E1, E3, E4, G1, G3. split_and!; try done.
  - intros e He. apply enqueue_all_kinds in He as [He|(m & Hm & ->)]; [by left|right].
    unfold ms, transition_posts in Hm. apply elem_of_cons in Hm as [->|Hm]; [by left|right].
    case_match; [|by apply elem_of_nil in Hm]. by apply list_elem_of_singleton in Hm as ->.
  - refine (enqueue_all_has ms s3 (mkMsg 0 run RUN_STATUS_CHANGED _ _ now) _).
    unfold ms, transition_posts, posted_generation. rewrite Hlive, N.add_0_r. constructor.
  - intros Ht Hp. refine (enqueue_all_has ms s3 (mkMsg 0 run RUN_FINISHED _ _ now) _).
    unfold ms, transition_posts, posted_generation. rewrite Hlive, N.add_0_r.
    rewrite (bool_decide_eq_false_2 (from = RunPending)) by done.
    destruct Ht as [-> | ->]; right; constructor.
  - intros k Hk. by apply enqueue_all_keys.
Qed.

Lemma release_slot_alone run st now :
  exists m, release_slot_of run (alone st now) = (Ok tt, alone (set_slots m st) now)
    /\ forall group policy, st_concurrency st !! run = Some (group, policy) -> m !! group <> Some run.
Proof.
  unfold release_slot_of, run_concurrency. rewrite read_alone.
  destruct (st_concurrency st !! run) as [[group policy]|]; [|exists (st_slots st); split; [by destruct st|done]].
  unfold into. rewrite call_alone. unfold release_slot. case_decide as Hs; cbn [fst snd map_err].
  - eexists. split; [reflexivity|]. intros g p [= <- _]. by rewrite lookup_delete_eq.
  - exists (st_slots st). split; [by destruct st|]. by intros g p [= <- _].
Qed.

(** The event of a Run whose steps died without a verdict. *)
Definition dead_events (run : RunId) (steps : list StepRun) (now : Timestamp) : list EventKind :=
  match dead_reasons steps with
  | [] => []
  | reasons => [event run (RunDeadLetteredEv (join "; " reasons)) now]
  end.

Definition owes_posts (run : RunId) (from to : RunStatus) (g : N) (st : InMemoryState) : Prop :=
  has_key (run_status_post_key run g to) st
  /\ (to = RunSucceeded \/ to = RunFailed -> from <> RunPending -> has_key (run_finished_key run g to) st).

Section Advance.
Context {X : Executor}.

Lemma advance_alone run st now current :
  quiet st -> run ∉ st_poisoned_runs st ->
  st_runs st !! run = Some current -> run_is_terminal current = false ->
  let steps := step_rows run st in
  let outcome := run_outcome steps in
  steps <> [] -> all_terminal steps = true ->
  exists res st', advance None run (alone st now) = (res, alone st' now)
    /\ st_runs st' = <[run := outcome]> (st_runs st) /\ st_steps st' = st_steps st
    /\ st_events st' = st_events st ++ dead_events run steps now ++ [event run (RunTransitioned current outcome) now]
    /\ only_posts st st' /\ owes_posts run current outcome (run_reopen_generation run st) st'
    /\ torn_from run (st_run_services st) (st_run_services st')
    /\ ((res = Ok tt /\ all_torn run (st_run_services st')
         /\ forall group policy, st_concurrency st !! run = Some (group, policy) -> st_slots st' !! group <> Some run)
        \/ exists e, res = Err (SeExec e) /\ refused_row run e (st_run_services st')).
Proof.
  intros Q Hpo Hrun Hlive steps outcome Hne Hall. unfold advance.
  erewrite call_bind_alone by (unfold steps_of_run; by rewrite decide_False). fold steps.
  rewrite bool_decide_eq_false_2, Hall by done. cbn [orb negb].
  unfold run_status_of. rewrite read_alone, Hrun, Hlive. fold outcome.
  set (st1 := push_events (dead_events run steps now) st).
  assert (forall k : unit -> Prog SchedulerError unit, bind (if bool_decide (outcome = RunDeadLettered)
     then let* now := now_ in append run (RunDeadLetteredEv (join "; " (dead_reasons steps))) now
     else ret tt) k (alone st now) = k tt (alone st1 now)) as ->.
  { intros k. pose proof (run_outcome_spec steps Hall) as (Hd & _). fold outcome in Hd.
    unfold st1, dead_events. case_bool_decide as Ho.
    - apply Hd in Ho. destruct (dead_reasons steps) as [|x l]; [done|].
      unfold bind at 1. rewrite now_alone. unfold append, into. rewrite call_alone.
      unfold append_event, op_bind. rewrite take_failure_none by apply Q. done.
    - destruct (dead_reasons steps) as [|x l]; [|destruct Ho; by apply Hd].
      unfold bind, ret. f_equal. destruct st. unfold alone, push_events, set_events. cbn. by rewrite app_nil_r. }
  destruct (transition_run_alone run current outcome st1 now) as (st2 & E2 & R1 & R2 & R3 & R4 & R5 & R6 & R7 & R8 & _);
    [exact Q|exact Hrun|exact Hlive|].
  unfold bind at 1. rewrite E2.
  destruct (teardown_services_alone run st2 now) as (res & m & E3 & T & Hres). unfold bind at 1. rewrite E3.
  assert (st_events st1 ++ [event run (RunTransitioned current outcome) now]
    = st_events st ++ dead_events run steps now ++ [event run (RunTransitioned current outcome) now]) as Hev
    by (cbn; by rewrite app_assoc).
  rewrite R3 in T. rewrite Hev in R5.
  destruct Hres as [[-> Ht]|(e & -> & Hf)].
  - destruct (release_slot_alone run (set_run_services m st2) now) as (sl & E4 & Hsl). rewrite E4.
    exists (Ok tt), (set_slots sl (set_run_services m st2)).
    split_and!; try done. left. split_and!; try done. intros group policy Hg. apply (Hsl group policy).
    cbn. by rewrite R4.
  - exists (Err (SeExec e)), (set_run_services m st2). split_and!; try done. right. by exists e.
Qed.

(** C38: A Run whose every step has finished ends, in the way its steps say, and
    the world is told. With no other client in between, [advance] on a live
    Run all of whose steps are terminal ends it: [Succeeded] exactly when every
    step succeeded or was skipped; [DeadLettered], with the reasons logged
    first, exactly when some [Failed] step's last attempt ended in infra or
    lost, with no verdict on the code; [Failed] otherwise. The status post (and
    for a started Run's verdict the finished post) is left in the outbox of
    the same generation, the steps are untouched and, unless the backend
    refuses a teardown, no shared service outlives the Run and its concurrency
    slot is free. *)
Theorem advance_settles run st now current :
  quiet st -> run ∉ st_poisoned_runs st ->
  st_runs st !! run = Some current -> run_is_terminal current = false ->
  let steps := step_rows run st in
  steps <> [] -> all_terminal steps = true ->
  exists res st' outcome, advance None run (alone st now) = (res, alone st' now)
    /\ st_runs st' !! run = Some outcome /\ st_steps st' = st_steps st
    /\ (outcome = RunSucceeded <->
          forall s, s ∈ steps -> sr_status s = StepSucceeded \/ sr_status s = StepSkipped)
    /\ (outcome = RunDeadLettered <->
          exists s a k, s ∈ steps /\ sr_status s = StepFailed /\ last (sr_attempts s) = Some a
            /\ att_failure a = Some k /\ verdictless k = true)
    /\ (outcome = RunFailed \/ outcome = RunSucceeded \/ outcome = RunDeadLettered)
    /\ st_events st' = st_events st ++ dead_events run steps now ++ [event run (RunTransitioned current outcome) now]
    /\ owes_posts run current outcome (run_reopen_generation run st) st'
    /\ ((forall h n, x_teardown_service h n = Ok tt) ->
          res = Ok tt /\ all_torn run (st_run_services st')
          /\ forall group policy, st_concurrency st !! run = Some (group, policy) -> st_slots st' !! group <> Some run).
Proof.
  cbv zeta. intros Q Hpo Hrun Hlive Hne Hall.
  destruct (advance_alone run st now current Q Hpo Hrun Hlive Hne Hall)
    as (res & st' & E & R1 & R2 & R3 & _ & R5 & _ & R7).
  destruct (run_outcome_spec _ Hall) as (O1 & O2 & O3).
  exists res, st', (run_outcome (step_rows run st)). split_and!; try done.
  - rewrite R1. apply lookup_insert_eq.
  - by rewrite O1, dead_reasons_spec.
  - intros Hx. destruct R7 as [R7|(e & _ & t & n & s & h & c & _ & _ & He)]; [done|]. by rewrite Hx in He.
Qed.

(** A shared service whose teardown is refused as its Run settles is
    forgotten. [advance] ends the Run first and then tears its services down;
    when the backend refuses one, [advance] fails with the Run already
    terminal: the service's row is still live with its unit, no teardown is
    owed in the outbox, and the Run is no longer among those a tick visits,
    so no later tick tries again. *)
Theorem refused_teardown_orphans_service run st now current e st' :
  quiet st -> run ∉ st_poisoned_runs st ->
  st_runs st !! run = Some current -> run_is_terminal current = false ->
  step_rows run st <> [] -> all_terminal (step_rows run st) = true ->
  advance None run (alone st now) = (Err e, alone st' now) ->
  (exists t n s h c, st_run_services st' !! (run, t, n) = Some (s, Some h, c) /\ service_is_terminal s = false)
  /\ only_posts st st'
  /\ exists outcome runs, st_runs st' !! run = Some outcome /\ run_is_terminal outcome = true
       /\ (active_runs st').1 = Ok runs /\ run ∉ runs.
Proof.
  intros Q Hpo Hrun Hlive Hne Hall E.
  destruct (advance_alone run st now current Q Hpo Hrun Hlive Hne Hall)
    as (res & st2 & E2 & R1 & R2 & R3 & R4 & _ & _ & R7).
  rewrite E in E2. injection E2 as <- ->. destruct R7 as [[? _]|(x & _ & t & n & s & h & c & H1 & H2 & _)]; [done|].
  split; [by exists t, n, s, h, c|]. split; [done|].
  destruct (run_outcome_spec _ Hall) as (_ & _ & O3).
  exists (run_outcome (step_rows run st)). eexists.
  assert (run_is_terminal (run_outcome (step_rows run st)) = true) as Ht by (by destruct O3 as [-> |[-> | ->]]).
  split; [rewrite R1; apply lookup_insert_eq|]. split; [done|]. split; [reflexivity|].
  rewrite elem_of_sort_stable, list_elem_of_omap. intros ([r0 s0] & Hin & Hx). cbn in Hx.
  apply elem_of_map_to_list in Hin. destruct (negb (run_is_terminal s0)) eqn:En; cbn in Hx; [|done].
  case_bool_decide; [|done]. injection Hx as ->. rewrite R1, lookup_insert_eq in Hin. injection Hin as <-.
  by rewrite Ht in En.
Qed.
End Advance.

(** A started Run whose one step failed for good in infra. *)
Definition dead_run : InMemoryState :=
  set_concurrency {["r" := ("deploy", Queue)]} (set_slots {["deploy" := "r"]}
  (set_run_services {[("r", 1%Z, "db") := (SvcReady, Some "db-unit", 3%Z)]}
  (set_steps {[("r", "s") := rec_with_attempts [mkAttempt "a1" 5 (Some (FInfra false)) None OFailed]
                (rec_with_status (Some StepFailed) step_rec_default)]}
  (set_runs {["r" := RunRunning]} state_empty)))).

Lemma advance_settles_witness :
  exists res st', @advance prompt_executor None "r" (alone dead_run 9) = (res, alone st' 9)
    /\ st_runs st' !! "r" = Some RunDeadLettered /\ res = Ok tt /\ st_slots st' !! "deploy" <> Some "r".
Proof.
  destruct (@advance_settles prompt_executor "r" dead_run 9 RunRunning)
    as (res & st' & outcome & E & R1 & _ & _ & R4 & _ & _ & _ & R8).
  - split; [split|]; reflexivity.
  - apply not_elem_of_empty.
  - reflexivity.
  - reflexivity.
  - vm_compute. discriminate.
  - reflexivity.
  - destruct R8 as (-> & _ & Hsl); [done|]. exists (Ok tt), st'. split; [exact E|].
    assert (outcome = RunDeadLettered) as ->.
    { apply R4. eexists _, _, _. split; [vm_compute; constructor|]. split; [reflexivity|].
      split; [reflexivity|]. split; reflexivity. }
    split; [exact R1|]. split; [reflexivity|]. exact (Hsl "deploy" Queue eq_refl).
Defined.

(** A backend that refuses every service teardown. *)
Definition stubborn_executor : Executor := {|
  x_launch := @x_launch prompt_executor; x_poll := @x_poll prompt_executor;
  x_unit_handle := @x_unit_handle prompt_executor; x_output := @x_output prompt_executor;
  x_output_identity := @x_output_identity prompt_executor; x_results := @x_results prompt_executor;
  x_artifacts := @x_artifacts prompt_executor; x_cache_saves := @x_cache_saves prompt_executor;
  x_workspace_provisioning := @x_workspace_provisioning prompt_executor;
  x_cancel := @x_cancel prompt_executor; x_torn_down := @x_torn_down prompt_executor;
  x_gate_refusal := @x_gate_refusal prompt_executor; x_launch_service := @x_launch_service prompt_executor;
  x_service_ready := @x_service_ready prompt_executor;
  x_teardown_service _ _ := Err ExUnavailable |}.

Lemma refused_teardown_orphans_service_witness :
  let st' := w_st (@advance stubborn_executor None "r" (alone dead_run 9)).2 in
  (exists t n s h c, st_run_services st' !! ("r", t, n) = Some (s, Some h, c) /\ service_is_terminal s = false)
  /\ exists outcome runs, st_runs st' !! "r" = Some outcome /\ run_is_terminal outcome = true
       /\ (active_runs st').1 = Ok runs /\ "r" ∉ runs.
Proof.
  cbn zeta. set (st' := w_st _).
  destruct (@refused_teardown_orphans_service stubborn_executor "r" dead_run 9 RunRunning (SeExec ExUnavailable) st')
    as (H1 & _ & H3).
  - split; [split|]; reflexivity.
  - apply not_elem_of_empty.
  - reflexivity.
  - reflexivity.
  - vm_compute. discriminate.
  - reflexivity.
  - vm_compute. reflexivity.
  - split; [exact H1|exact H3].
Defined.

(** ** Dead-lettering a Run that cannot be driven *)

Section DeadLetter.
Context {X : Executor} {K : Codecs}.

Lemma into_ok {E F A} (f : E -> F) (m : Prog E A) a w w' : m w = (Ok a, w') -> into f m w = (Ok a, w').
Proof. intros H. unfold into. by rewrite H. Qed.

Lemma cancel_live_step_alone run s r st now :
  quiet st -> read_from run st s r -> NoDup (map att_id (rec_attempts r)) ->
  exists st', cancel_live_step run now s (alone st now) = (Ok tt, alone st' now)
    /\ step_frame (run, sr_step s) st st' /\ cancelled run s r st'
    /\ st_outbox st' = st_outbox (enqueue_all (stop_messages run now s) st).
Proof.
  intros Q Hr Hnd. destruct (cancel_step_alone run s r st now Q Hr Hnd) as (st' & E & F & C).
  exists st'. split; [|done]. unfold cancel_live_step.
  destruct (step_is_terminal (sr_status s)) eqn:Et.
  { unfold cancel_step in E. cbn [cancel_step_tries] in E. rewrite Et in E. cbn in E. by injection E as <-. }
  assert (forall p : Prog SchedulerError unit, p (alone st now) = (Ok tt, alone st now) ->
    (p ;;; into SeDb (cancel_step run s now)) (alone st now) = (Ok tt, alone st' now)) as Hp.
  { intros p Hp. unfold bind. rewrite Hp. by apply into_ok. }
  apply Hp. destruct (in_flight_attempt s); [|done]. unfold attempt_handle. rewrite read_alone.
  destruct (st_attempt_handles st !! _); [|done]. unfold try_ask, bind. cbn.
  by destruct (x_cancel _ _).
Qed.

(** Every step of [run] that was not terminal is cancelled. *)
Definition all_cancelled (run : RunId) (st st' : InMemoryState) : Prop :=
  forall s r, read_from run st s r -> cancelled run s r st'.

Lemma cancel_live_steps_alone run st now :
  quiet st ->
  (forall id r, st_steps st !! (run, id) = Some r -> NoDup (map att_id (rec_attempts r))) ->
  exists res st', cancel_live_steps run now (alone st now) = (res, alone st' now)
    /\ run_frame st st' /\ (run ∉ st_poisoned_runs st -> res = Ok tt /\ all_cancelled run st st').
Proof.
  intros Q Hids. unfold cancel_live_steps.
  destruct (decide (run ∈ st_poisoned_runs st)) as [Hp|Hp].
  { unfold bind, into. rewrite call_alone. unfold steps_of_run. rewrite decide_True by done.
    cbn [fst snd map_err]. eexists _, st. split; [reflexivity|]. by split. }
  erewrite call_bind_alone by (unfold steps_of_run; by rewrite decide_False).
  destruct (for_steps_alone run now (cancel_live_step run now) (cancelled run) (stop_messages run now)
    (fun s r st => cancel_live_step_alone run s r st now) (cancelled_frame run)
    (step_rows run st) st Q (step_rows_nodup run st)) as (st2 & E2 & F2 & _ & C2 & _).
  { intros s Hs. apply step_rows_spec in Hs as (r & Hr). exists r. split; [done|].
    destruct Hr as [Hr _]. by apply (Hids (sr_step s)). }
  exists (Ok tt), st2. split; [exact E2|]. split; [done|]. intros _. split; [done|].
  intros s r Hr. apply C2; [apply step_rows_spec; by exists r|done].
Qed.

(** Dead-lettering always lands. Whatever the backend answers, and even when
    the Run's own rows cannot be read (the fault being escaped), with no other
    client in between [dead_letter_run] ends a live Run [DeadLettered]: its
    diagnosis is logged, starting with the reason given, the status post is
    owed, and its concurrency slot is free. When its rows can be read, every
    step that was not terminal is [Cancelled] with its live attempt, and each
    running attempt's teardown is owed. *)
Theorem dead_letter_lands run reason st now current :
  quiet st -> st_runs st !! run = Some current -> run_is_terminal current = false ->
  (forall id r, st_steps st !! (run, id) = Some r -> NoDup (map att_id (rec_attempts r))) ->
  exists st' more, dead_letter_run None run reason (alone st now) = (Ok tt, alone st' now)
    /\ st_runs st' !! run = Some RunDeadLettered
    /\ event run (RunDeadLetteredEv (reason +:+ more)) now ∈ st_events st'
    /\ has_key (run_status_post_key run (run_reopen_generation run st) RunDeadLettered) st'
    /\ (forall group policy, st_concurrency st !! run = Some (group, policy) -> st_slots st' !! group <> Some run)
    /\ (run ∉ st_poisoned_runs st -> all_cancelled run st st').
Proof.
  intros Q Hrun Hlive Hids. unfold dead_letter_run, run_status_of. rewrite read_alone, Hrun, Hlive, now_alone.
  destruct (cancel_live_steps_alone run st now Q Hids) as (res1 & st1 & E1 & F1 & C1).
  assert (exists res m, attempt_ (E:=SchedulerError) (F:=SchedulerError) (cancel_live_steps run now ;;; teardown_services None run)
    (alone st now) = (Ok res, alone (set_run_services m st1) now)) as (res & m & E2).
  { unfold attempt_, bind. rewrite E1. destruct res1 as [[]|e]; [|exists (Err e), (st_run_services st1); by destruct st1].
    destruct (teardown_services_alone run st1 now) as (res & m & -> & _). by exists res, m. }
  unfold bind at 1. rewrite E2. set (st2 := set_run_services m st1).
  assert (exists more, match res with
    | Ok _ => reason
    | Err e => reason +:+ (" (cleanup also failed, step rows may be left non-terminal and "
                     +:+ "shared-service Pods may be orphaned: " +:+ show_error e +:+ ")")
    end = reason +:+ more) as (more' & ->).
  { destruct res; [exists ""; by rewrite string_app_nil_r|by eexists]. }
  set (reason' := reason +:+ more').
  set (st3 := push_events [event run (RunDeadLetteredEv reason') now] st2).
  unfold bind at 1. assert (append run (RunDeadLetteredEv reason') now (alone st2 now) = (Ok tt, alone st3 now)) as ->.
  { unfold append, into. rewrite call_alone. unfold append_event, op_bind.
    rewrite take_failure_none by apply (rf_quiet _ _ F1 Q). done. }
  destruct (transition_run_alone run current RunDeadLettered st3 now)
    as (st4 & E4 & R1 & R2 & R3 & R4 & R5 & R6 & R7 & _ & R9);
    [apply (rf_quiet _ _ F1 Q)|cbn; by rewrite (rf_runs _ _ F1)|done|].
  unfold bind. rewrite E4. destruct (release_slot_alone run st4 now) as (sl & E5 & Hsl). rewrite E5.
  exists (set_slots sl st4), more'. split_and!; try done.
  - cbn. rewrite R1. apply lookup_insert_eq.
  - cbn. rewrite R5. apply elem_of_app. left. cbn. apply elem_of_app. right. constructor.
  - unfold run_reopen_generation in *. cbn in R7. by rewrite (rf_gens _ _ F1) in R7.
  - intros group policy Hg. apply (Hsl group policy). rewrite R4. cbn. by rewrite (rf_conc _ _ F1).
  - intros Hp. destruct (C1 Hp) as [_ C]. intros s r Hr. specialize (C s r Hr).
    assert (forall k, has_key k st1 -> has_key k (set_slots sl st4)) as Hk.
    { intros k Hk. exact (R9 k Hk). }
    unfold cancelled in *. cbn [st_steps set_slots]. rewrite R2. cbn. case_match; [done|].
    destruct C as (r' & H1 & H2 & H3 & H4). exists r'. split_and!; auto.
Qed.
End DeadLetter.

(** A [Running] step in a Run whose rows cannot be read. *)
Definition poisoned_run : InMemoryState :=
  set_poisoned_runs {["r"]} (set_concurrency {["r" := ("deploy", Queue)]} (set_slots {["deploy" := "r"]}
  (set_steps {[("r", "s") := rec_with_attempts [mkAttempt "a1" 5 None None ORunning]
                (rec_with_status (Some StepRunning) step_rec_default)]}
  (set_runs {["r" := RunRunning]} state_empty)))).

Lemma dead_letter_lands_witness :
  exists st', @dead_letter_run stubborn_executor plain_codecs None "r" "poison" (alone poisoned_run 9) = (Ok tt, alone st' 9)
    /\ st_runs st' !! "r" = Some RunDeadLettered /\ st_slots st' !! "deploy" <> Some "r".
Proof.
  destruct (@dead_letter_lands stubborn_executor plain_codecs "r" "poison" poisoned_run 9 RunRunning)
    as (st' & more & E & R1 & _ & _ & R4 & _).
  - split; [split|]; reflexivity.
  - reflexivity.
  - reflexivity.
  - intros id r H. unfold poisoned_run in H. cbn in H. apply lookup_singleton_Some in H as [_ <-].
    apply NoDup_singleton.
  - exists st'. split; [exact E|]. split; [exact R1|]. exact (R4 "deploy" Queue eq_refl).
Defined.

(** ** How long a Run may fail before that *)

(** What a driver's passes report on Runs. *)
Inductive HealthReport : Type :=
| HrFailed (run : RunId) (at_ : Timestamp)
| HrClean (run : RunId)
| HrActive (active : list RunId).

Definition report (r : HealthReport) : Prog SchedulerError unit :=
  match r with
  | HrFailed run at_ => let* _ := failing_since run at_ in ret tt
  | HrClean run => healthy run
  | HrActive active => retain_active active
  end.
Definition after_reports (rs : list HealthReport) (w : World) : World :=
  foldl (fun w r => (report r w).2) w rs.

(** A report that ends [run]'s streak of failures. *)
Definition ends_streak (run : RunId) (r : HealthReport) : bool :=
  match r with
  | HrFailed _ _ => false
  | HrClean x => String.eqb x run
  | HrActive active => negb (bool_decide (run ∈ active))
  end.
Definition failed_at (run : RunId) (r : HealthReport) : option Timestamp :=
  match r with HrFailed x t => if String.eqb x run then Some t else None | _ => None end.

(** The first failure of [run] since its last clean pass, or since it was last
    not active. *)
Definition streak_start (run : RunId) (rs : list HealthReport) : option Timestamp :=
  head (omap (failed_at run) (since_last (ends_streak run) rs)).

Lemma report_frame r w :
  w_driver w <> Dropped ->
  w_st (report r w).2 = w_st w /\ w_now (report r w).2 = w_now w /\ w_env (report r w).2 = w_env w
  /\ w_driver (report r w).2 = w_driver w.
Proof.
  intros Hd. destruct r as [x t|x|active]; cbn; unfold failing_since, healthy, retain_active, bind, memory;
    [destruct (mem_health (w_mem w) !! x)| |]; destruct (w_driver w) eqn:E; cbn; rewrite ?E; done.
Qed.

Lemma report_health r w run :
  w_driver w <> Dropped ->
  mem_health (w_mem (report r w).2) !! run
    = match mem_health (w_mem w) !! run with
      | Some t => if ends_streak run r then None else Some t
      | None => failed_at run r
      end.
Proof.
  intros Hd. destruct r as [x t|x|active]; cbn; unfold failing_since, healthy, retain_active, bind, memory.
  - destruct (String.eqb_spec x run) as [->|Hx].
    + destruct (mem_health (w_mem w) !! run) eqn:E; destruct (w_driver w); cbn; rewrite ?E, ?lookup_insert_eq; done.
    + destruct (mem_health (w_mem w) !! x) eqn:E; destruct (w_driver w); cbn;
        rewrite ?(lookup_insert_ne _ x run) by done; by destruct (mem_health (w_mem w) !! run).
  - destruct (w_driver w); cbn; try done;
      (destruct (String.eqb_spec x run) as [->|Hx]; [rewrite lookup_delete_eq|rewrite lookup_delete_ne by done];
       by destruct (mem_health (w_mem w) !! run)).
  - destruct (w_driver w); cbn; try done;
      (destruct (mem_health (w_mem w) !! run) as [t|] eqn:E;
       [case_bool_decide; cbn; [by apply map_lookup_filter_Some|
          apply map_lookup_filter_None; right; intros y Hy; done]
       |apply map_lookup_filter_None; by left]).
Qed.

Lemma streak_start_snoc run rs r :
  streak_start run (rs ++ [r])
    = match streak_start run rs with
      | Some t => if ends_streak run r then None else Some t
      | None => failed_at run r
      end.
Proof.
  unfold streak_start. destruct (ends_streak run r) eqn:Er.
  - change (rs ++ [r]) with (rs ++ r :: []). rewrite since_last_app by done. cbn.
    destruct (head _); [done|]. by destruct r.
  - rewrite since_last_snoc by done. rewrite omap_app. cbn.
    destruct (omap (failed_at run) (since_last _ rs)); [|done]. cbn. by destruct (failed_at run r).
Qed.

Lemma reports_replay rs w run :
  w_driver w <> Dropped -> mem_health (w_mem w) = ∅ ->
  mem_health (w_mem (after_reports rs w)) !! run = streak_start run rs
  /\ w_st (after_reports rs w) = w_st w /\ w_driver (after_reports rs w) = w_driver w.
Proof.
  intros Hd Hm. induction rs as [|r rs IH] using rev_ind.
  { cbn. by rewrite Hm, lookup_empty. }
  unfold after_reports in *. rewrite foldl_app. cbn [foldl]. destruct IH as (IH1 & IH2 & IH3).
  set (w1 := foldl _ w rs) in *.
  destruct (report_frame r w1) as (F1 & _ & _ & F2); [by rewrite IH3|].
  rewrite report_health by (by rewrite IH3). rewrite IH1, streak_start_snoc. split_and!; congruence.
Qed.

(** A Run is dead-lettered by the tick only after it failed without a break
    for the whole bound, and then it is. Take any sequence of reports a driver's
    passes made, starting from a fresh process: when the next pass fails, the
    error is only passed on to be logged, and nothing is written, as long as
    the time since the first failure of the current streak (no clean pass and
    no absence from the active Runs since) is below the bound; a first failure
    is never enough under a positive bound. At the bound the Run's dead-letter
    is tried, whatever other clients do: if it lands no error is reported and
    the streak is forgotten, else its own failure is reported and the streak
    stands, to be tried again. *)
Theorem tick_failure_bound `{Executor, Codecs} cfg run e rs w0 :
  w_driver w0 = Kept -> mem_health (w_mem w0) = ∅ ->
  let w := after_reports rs w0 in
  let now := w_now (interfere w).1 in
  let failing := (now - default now (streak_start run rs))%Z in
  let '(answer, w') := isolate_run_failure cfg run e w in
  if (failing <? cfg_tick_failure_deadline_ms cfg)%Z then
    answer = Ok (Some e) /\ w_st w' = w_st (interfere w).1
  else
    exists w1, w_st w1 = w_st (interfere w).1
      /\ mem_health (w_mem w1) !! run = Some (default now (streak_start run rs))
      /\ match dead_letter_run None run (tick_failure_reason cfg failing e) w1 with
         | (Ok _, w2) => answer = Ok None /\ w' = (healthy (E:=SchedulerError) run w2).2
         | (Err dl, w2) => answer = Ok (Some dl) /\ w' = w2
         end.
Proof.
  intros Hd Hm. cbv zeta. set (w := after_reports rs w0).
  destruct (reports_replay rs w0 run) as (Hh & _ & Hk); [by rewrite Hd|done|]. fold w in Hh, Hk.
  assert (w_driver (interfere w).1 = Kept /\ w_mem (interfere w).1 = w_mem w) as [Hk1 Hm1].
  { unfold interfere. rewrite Hk, Hd. destruct (w_env w); cbn; split; congruence. }
  unfold isolate_run_failure. unfold bind at 1. unfold now_ at 1. cbn [fst].
  set (w1 := (interfere w).1) in *. set (now := w_now w1).
  assert (exists w2, failing_since (E:=SchedulerError) run now w1 = (Ok (default now (streak_start run rs)), w2)
    /\ w_st w2 = w_st w1 /\ mem_health (w_mem w2) !! run = Some (default now (streak_start run rs))) as (w2 & E & Hst & Hmem).
  { unfold failing_since, memory. rewrite Hm1, Hh, Hk1. destruct (streak_start run rs) as [t|] eqn:Et; cbn.
    - eexists. split; [reflexivity|]. split; [done|]. cbn. by rewrite Hh.
    - eexists. split; [reflexivity|]. split; [done|]. cbn. by rewrite lookup_insert_eq. }
  unfold bind at 1. rewrite E. set (failing := (now - _)%Z).
  destruct (failing <? cfg_tick_failure_deadline_ms cfg)%Z eqn:Ef; [by split|].
  unfold bind at 1, attempt_.
  destruct (dead_letter_run None run (tick_failure_reason cfg failing e) w2) as [[[]|dl] w3] eqn:Ed;
    unfold bind, healthy, memory, ret; cbn; exists w2; rewrite Ed; cbn; by split_and!.
Qed.

(** With a bound of 100 ms: two failures 60 ms apart only report; a clean pass
    in between restarts the clock; 120 ms of failures dead-letter the Run. *)
Lemma tick_failure_bound_witness :
  let cfg := mkConfig 30000 16 30000 None 10 3600000 300000 100 600000 in
  let st := set_runs {["r" := RunRunning]} state_empty in
  let w t := mkWorld st t [] Kept memory_empty in
  let after rs t := @isolate_run_failure cfg stubborn_executor plain_codecs "r" (SeMissingSpec "s") (after_reports rs (w t)) in
  (after [HrFailed "r" 1000%Z] 1060%Z).1 = Ok (Some (SeMissingSpec "s"))
  /\ (after [HrFailed "r" 1000%Z; HrClean "r"; HrFailed "r" 1090%Z] 1120%Z).1 = Ok (Some (SeMissingSpec "s"))
  /\ (after [HrFailed "r" 1000%Z; HrFailed "r" 1060%Z] 1120%Z).1 = Ok None.
Proof.
  cbn zeta. set (cfg := mkConfig _ _ _ _ _ _ _ _ _). set (st := set_runs _ _). split_and!.
  - generalize (@tick_failure_bound stubborn_executor plain_codecs cfg "r" (SeMissingSpec "s")
      [HrFailed "r" 1000%Z] (mkWorld st 1060%Z [] Kept memory_empty) eq_refl eq_refl).
    cbv zeta. destruct (isolate_run_failure _ _ _ _) as [a w']. intros [H _]. exact H.
  - vm_compute. reflexivity.
  - vm_compute. reflexivity.
Defined.
