(* ===== verification/Races.v ===== *)
(** * A rerun against the settlement of its Run

    [Scheduler::advance] (scarab-engine/src/scheduler.rs) reads the steps, and
    settles the Run by a compare-and-swap on the Run's status alone. A Rerun
    served between the two re-arms steps of a Run that is still [Running], so it
    reopens nothing, and the swap cannot see it. *)

From S2P Require Import Prelude Text Values Cel Params Scopes Render Domain Store Outbox Commits Gates Program Transitions LaunchSpec Cancel Plan Rerun Verdicts Backend Scheduler.

(** A [Running] Run whose only step has just succeeded. *)
Definition finished_run : InMemoryState :=
  let s1 := (create_run "r" 0 state_empty).2 in
  let s2 := (create_step_run "r" "build" (Some (image_spec "alpine")) [] s1).2 in
  let s3 := (record_transition "r" RunPending RunRunning s2).2 in
  let s4 := (record_step_transition "r" "build" StepPending StepReady s3).2 in
  let s5 := (record_step_transition "r" "build" StepReady StepRunning s4).2 in
  let s6 := (record_attempt "r" "build" (mkAttempt "a1" 3 None None ORunning) s5).2 in
  let s7 := (set_attempt_outcome "r" "build" "a1" OSucceeded s6).2 in
  (record_step_transition "r" "build" StepRunning StepSucceeded s7).2.

(** The API request that arrives, and its answer at the instant it is served. *)
Definition rerun_request (st : InMemoryState) : Result RerunError RerunPlan * World :=
  rerun_step_widened None "r" "build" (Some "alice") (alone st 9).
Definition rerun_arrives : Interference :=
  mkInterference (fun st => w_st (serve (H:=plain_codecs) (ApiRerun None "r" "build" (Some "alice")) (alone st 9))) 1 0 false.

(** A Rerun can be accepted and never run. With one Rerun request served
    between [advance]'s read of the steps and its settlement of the Run, the
    request is answered with its plan, [advance] succeeds, and the Run is
    [Succeeded] with the re-armed step [Pending]: no Run is active, so no tick
    will admit the step again. The same request served before the read is not
    lost: the Run stays active. *)
Theorem rerun_lost_to_settlement {X : Executor} :
  let settle env := advance None "r" (mkWorld finished_run 8 env Kept memory_empty) in
  let idle := mkInterference id 1 0 false in
  calls_only rerun_arrives
  /\ (exists plan, (rerun_request finished_run).1 = Ok plan /\ rp_invalidated plan = ["build"])
  /\ (let late := w_st (settle [idle; rerun_arrives]).2 in
      (settle [idle; rerun_arrives]).1 = Ok tt
      /\ st_runs late !! "r" = Some RunSucceeded
      /\ rec_status <$> (st_steps late !! ("r", "build")) = Some (Some StepPending)
      /\ (active_runs late).1 = Ok [])
  /\ (let early := w_st (settle [rerun_arrives]).2 in
      st_runs early !! "r" = Some RunRunning
      /\ rec_status <$> (st_steps early !! ("r", "build")) = Some (Some StepPending)
      /\ (active_runs early).1 = Ok ["r"]).
Proof.
  cbn zeta. split; [|split; [|split]].
  - intros st. apply (serve_well_behaved (H:=plain_codecs) (ApiRerun None "r" "build" (Some "alice")) (alone st 9)). constructor.
  - eexists. split; vm_compute; reflexivity.
  - vm_compute. done.
  - vm_compute. done.
Qed.
