(* ===== verification/Launch.v ===== *)
(** * Launching, polling and settling one attempt

    The work behind one launch intent (scarab-engine/src/scheduler.rs,
    [process_launch_intent]): refuse an attempt no longer wanted, gather its
    inputs, resolve its cache, launch or adopt its unit, poll it, record its
    evidence and settle it. *)

From S2P Require Import Prelude Text Values Cel Params Scopes Render Domain Store Outbox Commits Gates Program Transitions LaunchSpec Cancel Plan Rerun Verdicts Backend Scheduler.

Abbreviation db op := (into SeDb (call op)).

(** ** The cache key *)

Definition pair_leb (a b : string * string) : bool :=
  match String.compare a.1 b.1 with
  | Lt => true
  | Gt => false
  | Eq => String.leb a.2 b.2
  end.

(** What is hashed, in order. *)
Definition cache_key_input (project scope : string) (resolved : list (string * string)) : string :=
  foldl (fun acc p => acc +:+ framed p.1 +:+ framed p.2) (framed project +:+ framed scope)
    (sort_stable pair_leb resolved).

Section WithPorts.
Context (cfg : Config) (owner : string) (oracle : option SnapshotOracle) {X : Executor} {K : Codecs}.

Definition cache_key (project scope : string) (resolved : list (string * string)) : string :=
  sha256_hex (cache_key_input project scope resolved).

(** ** Cache enrichment *)

(** The reversed input roots, probed for one file: its hash, absent, or a
    transient failure. *)
Fixpoint probe_roots (hash_of : SnapshotOracle) (path : string) (rev_roots : list string)
  : Prog SchedulerError (Result unit (option string)) :=
  match rev_roots with
  | [] => ret (Ok None)
  | root :: rest =>
      let* n := draw in
      match hash_of root path n with
      | Ok (Some hash) => ret (Ok (Some hash))
      | Ok None => probe_roots hash_of path rest
      | Err _ => ret (Err tt)
      end
  end.

(** ['files: for path in &cache.key_files]; [None] disables the cache. *)
Fixpoint resolve_files (hash_of : SnapshotOracle) (rev_roots files : list string)
    (resolved : list (string * string)) : Prog SchedulerError (option (list (string * string))) :=
  match files with
  | [] => ret (Some resolved)
  | path :: rest =>
      let* r := probe_roots hash_of path rev_roots in
      match r with
      | Ok (Some hash) => resolve_files hash_of rev_roots rest (resolved ++ [(path, hash)])
      | _ => ret None
      end
  end.

Definition restore_of (dirs : list string) (rows : list (string * string)) : list (string * string) :=
  omap (fun dir => match List.find (fun r => String.eqb r.1 dir) rows with
                   | Some r => Some (dir, r.2)
                   | None => None
                   end) dirs.

(** The first candidate key with any row, and whether it is not the first. *)
Fixpoint lookup_restore (project : string) (dirs : list string) (first : bool) (candidates : list string)
  : Prog SchedulerError (list (string * string) * option string) :=
  match candidates with
  | [] => ret ([], None)
  | candidate :: rest =>
      let* r := attempt_ (call (cache_lookup project candidate)) in
      let restore := restore_of dirs (match r with Ok rows => rows | Err _ => [] end) in
      match restore with
      | [] => lookup_restore project dirs false rest
      | _ => ret (restore, if first then None else Some candidate)
      end
  end.

Definition with_cache (spec : StepSpec) (c : option CacheConfig) : StepSpec :=
  mkStepSpec (spec_image spec) (spec_command spec) (spec_env spec) (spec_matrix_values spec) (spec_scope spec) (spec_build spec)
    (spec_uses spec) (spec_timeout_seconds spec) (spec_workspace_inputs spec) c (spec_rest spec).

Definition enrich_cache (run : RunId) (spec : StepSpec) : Prog SchedulerError StepSpec :=
  match spec_cache spec with
  | None => ret spec
  | Some cache =>
      if bool_decide (cc_dirs cache = []) || bool_decide (cc_key_files cache = []) then ret spec
      else
        match oracle with
        | None => ret spec
        | Some hash_of =>
            let* project := attempt_ (call (run_project run)) in
            match project with
            | Ok (Some project) =>
                if String.eqb project "" then ret spec
                else
                  let* scope := attempt_ (call (run_cache_scope run)) in
                  match scope with
                  | Ok (Some scope) =>
                      let* resolved := resolve_files hash_of (rev (spec_workspace_inputs spec))
                                         (cc_key_files cache) [] in
                      match resolved with
                      | None => ret spec
                      | Some resolved =>
                          let key := cache_key project (cs_own scope) resolved in
                          let candidates := key :: match cs_fallback scope with
                            | Some f => [cache_key project f resolved]
                            | None => []
                            end in
                          let* found := lookup_restore project (cc_dirs cache) true candidates in
                          let '(restore, fallback_key) := found in
                          ret (with_cache spec (Some (mkCacheConfig (cc_dirs cache) (cc_key_files cache)
                                 (Some key) restore fallback_key)))
                      end
                  | _ => ret spec
                  end
            | _ => ret spec
            end
        end
  end.

(** ** Is the attempt still the unit to launch? *)

Definition launch_still_wanted (run : RunId) (step : StepId) (attempt : AttemptId)
  : Prog SchedulerError bool :=
  let* steps := db (steps_of_run run) in
  let wanted := match find_step step steps with
    | Some s => bool_decide (sr_status s = StepRunning)
        && match last (sr_attempts s) with
           | Some a => String.eqb (att_id a) attempt && bool_decide (att_outcome a = ORunning)
           | None => false
           end
    | None => false
    end in
  if negb wanted then ret false
  else
    let* status := db (run_status_of run) in
    ret (match status with Some s => negb (run_is_terminal s) | None => false end).

Definition enqueue_late_launch_teardown (run : RunId) (step : StepId) (attempt : AttemptId)
  : Prog SchedulerError unit :=
  let* now := now_ in
  let m := cancel_attempt_intent run step attempt now in
  db (enqueue_outbox (mkMsg (msg_id m) (msg_run m) (msg_kind m) (msg_payload m)
                        (msg_key m +:+ ":launch") (msg_at m))).

(** The fenced [StepRun] handed to the executor. *)
Definition fenced_step (run : RunId) (step : StepId) (attempt : AttemptId) (at_ : Timestamp) : StepRun :=
  mkStepRun run step StepRunning [mkAttempt attempt at_ None None ORunning] [] None.

Definition adopt_unit_of_refused_launch (run : RunId) (step : StepId) (attempt : AttemptId)
  : Prog SchedulerError unit :=
  match x_unit_handle (fenced_step run step attempt 0) with
  | None => ret tt
  | Some handle =>
      db (set_attempt_handle run step attempt handle) ;;;
      enqueue_late_launch_teardown run step attempt
  end.

(** ** Gathering the inputs *)

(** [Vec::dedup] of sorted ids. *)
Fixpoint dedup_ids (l : list string) : list string :=
  match l with
  | [] => []
  | x :: l' => match dedup_ids l' with
               | y :: r => if String.eqb x y then y :: r else x :: y :: r
               | [] => [x]
               end
  end.

Definition read_output (run : RunId) (m : gmap StepId string) (s : StepRun)
  : Prog SchedulerError (gmap StepId string) :=
  let* o := db (step_output run (sr_step s)) in
  ret (match o with Some o => <[sr_step s := o]> m | None => m end).

Definition read_upstream_attempt (run : RunId) (m : gmap string string) (up : StepId)
  : Prog SchedulerError (gmap string string) :=
  let* a := db (step_evidence_attempt run up) in
  ret (match a with Some a => <[up := a]> m | None => m end).

Definition with_workspace_inputs (spec : StepSpec) (l : list string) : StepSpec :=
  mkStepSpec (spec_image spec) (spec_command spec) (spec_env spec) (spec_matrix_values spec) (spec_scope spec) (spec_build spec)
    (spec_uses spec) (spec_timeout_seconds spec) l (spec_cache spec) (spec_rest spec).

Definition gather_inputs (run : RunId) (step : StepId) (attempt : AttemptId) (spec : StepSpec)
  : Prog SchedulerError StepSpec :=
  let* all := db (steps_of_run run) in
  match find_step step all with
  | None => ret spec
  | Some me =>
      let* explicit := db (step_inputs run step) in
      let consumed_ := default (sr_needs me) explicit in
      let* output_of := fold_each (read_output run) ∅ all in
      let spec := with_workspace_inputs spec (workspace_inputs (sr_needs me) explicit output_of) in
      let input_steps := workspace_input_steps (sr_needs me) explicit output_of in
      (if bool_decide (input_steps = []) then ret tt
       else db (set_attempt_workspace_input_steps run step attempt input_steps)) ;;;
      let upstream := dedup_ids (sort_stable String.leb (consumed_ ++ sr_needs me)) in
      let* consumed_attempts := fold_each (read_upstream_attempt run) ∅ upstream in
      (if bool_decide (consumed_attempts = ∅) then ret tt
       else db (set_attempt_consumed run step attempt consumed_attempts)) ;;;
      ret spec
  end.

(** ** Launch *)

(** A failed step and its retired intent. *)
Definition refuse_launch (run : RunId) (step : StepId) (attempt : AttemptId) (msg : Z) (reason : string)
  : Prog SchedulerError unit :=
  finalize_step run step attempt StepFailed (Some FConfig) (Some reason) ;;;
  db (mark_dispatched msg).

Definition supervision_key (run : RunId) (step : StepId) (attempt : AttemptId) : string :=
  run +:+ ":" +:+ step +:+ ":" +:+ attempt.

(** The spec the unit is launched with: the stored one, its Workspace inputs,
    its cache and its values filled in; [Err]: why they cannot be. *)
Definition prepare_launch (run : RunId) (step : StepId) (attempt : AttemptId)
  : Prog SchedulerError (Result string StepSpec) :=
  let* spec := db (step_spec run step) in
  match spec with
  | None => fail (SeMissingSpec step)
  | Some spec =>
      let* spec := gather_inputs run step attempt spec in
      let* spec := enrich_cache run spec in
      into SeDb (render_launch_spec run step spec)
  end.

(** The launch arm up to the handle it records; [None] when the intent was
    settled with no unit. *)
Definition start_unit (run : RunId) (step : StepId) (attempt : AttemptId) (msg : Z)
  : Prog SchedulerError (option string) :=
  let* wanted := launch_still_wanted run step attempt in
  if negb wanted then
    adopt_unit_of_refused_launch run step attempt ;;; db (mark_dispatched msg) ;;; ret None
  else
    let* rendered := prepare_launch run step attempt in
    match rendered with
    | Err reason => refuse_launch run step attempt msg reason ;;; ret None
    | Ok spec =>
        let* at_ := now_ in
        let* launched := attempt_ (ask id (x_launch (fenced_step run step attempt at_) spec)) in
        match launched with
        | Err (ExRefused reason) => refuse_launch run step attempt msg reason ;;; ret None
        | Err e => fail (SeExec e)
        | Ok handle => db (set_attempt_handle run step attempt handle) ;;; ret (Some handle)
        end
    end.

(** The launch arm; [None] when the intent was settled instead. *)
Definition launch_unit (run : RunId) (step : StepId) (attempt : AttemptId) (msg : Z)
  : Prog SchedulerError (option string) :=
  let* started := start_unit run step attempt msg in
  match started with
  | None => ret None
  | Some handle =>
      let* wanted := launch_still_wanted run step attempt in
      if negb wanted then
        enqueue_late_launch_teardown run step attempt ;;; db (mark_dispatched msg) ;;; ret None
      else
        let* _ := first_contact (supervision_key run step attempt) in
        ret (Some handle)
  end.

(** ** Evidence *)

Definition index_of (l : list StepId) (n : N) : option StepId := l !! N.to_nat n.

Definition collision_of (ordered : list StepId) (c : ProvisioningCollision) : option WorkspaceCollision :=
  winner ← index_of ordered (pc_winner c);
  loser ← index_of ordered (pc_loser c);
  Some (mkCollision (pc_path c) winner loser).

(** The launch-time input steps of an attempt with no stamp, re-derived; any
    failure ends it ([None]). *)
Definition rederive_input_steps (run : RunId) (step : StepId) : Prog SchedulerError (option (list StepId)) :=
  let* r := attempt_ (
    let* all := db (steps_of_run run) in
    match find_step step all with
    | None => ret None
    | Some me =>
        let* explicit := db (step_inputs run step) in
        let* output_of := fold_each (read_output run) ∅ all in
        ret (Some (workspace_input_steps (sr_needs me) explicit output_of))
    end) in
  ret (match r with Ok o => o | Err _ => None end).

Definition record_workspace_collisions (run : RunId) (step : StepId) (attempt : AttemptId)
    (handle : string) : Prog SchedulerError unit :=
  let* report := attempt_ (ask SeExec (x_workspace_provisioning handle)) in
  match report with
  | Ok (Some report) =>
      if (0 <? pr_collisions report)%N then
        let* launched := attempt_ (db (attempt_workspace_input_steps run step attempt)) in
        let* ordered := match launched with
                        | Ok (Some l) => ret (Some l)
                        | Ok None => rederive_input_steps run step
                        | Err _ => ret None
                        end in
        match ordered with
        | None => ret tt
        | Some ordered =>
            let* now := now_ in
            let* _ := attempt_ (E:=SchedulerError) (append run (WorkspaceInputCollisions step attempt
              (pr_collisions report) (omap (collision_of ordered) (pr_sample report))) now) in ret tt
        end
      else ret tt
  | _ => ret tt
  end.

Definition record_cache_saves (run : RunId) (step : StepId) (attempt : AttemptId) (handle : string)
  : Prog SchedulerError unit :=
  let* saves := attempt_ (ask SeExec (x_cache_saves handle)) in
  match saves with
  | Ok (Some saves) =>
      if String.eqb (sv_key saves) "" || bool_decide (sv_roots saves = ∅) then ret tt
      else
        let* project := attempt_ (db (run_project run)) in
        match project with
        | Ok (Some project) =>
            if String.eqb project "" then ret tt
            else
              let* now := now_ in
              for_each (fun dr =>
                let* _ := attempt_ (E:=SchedulerError)
                            (db (cache_record project (sv_key saves) dr.1 dr.2 run step attempt now)) in
                ret tt) (sort_stable pair_leb (map_to_list (sv_roots saves)))
        | _ => ret tt
        end
  | _ => ret tt
  end.

Definition record_artifacts (run : RunId) (step : StepId) (attempt : AttemptId) (handle : string)
    (succeeded_ : bool) : Prog SchedulerError unit :=
  let* artifacts := ask SeExec (x_artifacts handle) in
  match artifacts with
  | [] => ret tt
  | _ =>
      let* now := now_ in
      db (put_artifacts run step attempt succeeded_ artifacts now)
  end.

(** ** Settling what the poll saw *)

Definition settle_success (run : RunId) (step : StepId) (attempt : AttemptId) (handle : string)
    (msg : Z) : Prog SchedulerError unit :=
  let* output := ask SeExec (x_output handle) in
  (match output with
   | Some output =>
       let* identity := ask SeExec (x_output_identity handle) in
       db (set_step_output run step attempt output identity)
   | None => ret tt
   end) ;;;
  let* results := ask SeExec (x_results handle) in
  (if bool_decide (results = ∅) then ret tt else db (set_step_results run step attempt results)) ;;;
  record_artifacts run step attempt handle true ;;;
  record_cache_saves run step attempt handle ;;;
  record_workspace_collisions run step attempt handle ;;;
  succeed_step run step attempt ;;;
  db (mark_dispatched msg).

Definition kind_of_class (c : FailureClass) : FailureKind :=
  match c with
  | ClInfra never_started => FInfra never_started
  | ClStep => FStep
  | ClTimeout => FTimeout
  | ClConfig => FConfig
  | ClMissingInputs => FMissingInputs
  end.

Definition settle_failure (run : RunId) (step : StepId) (attempt : AttemptId) (handle : string)
    (class : FailureClass) (cause : option string) (msg : Z) : Prog SchedulerError unit :=
  record_artifacts run step attempt handle false ;;;
  (match class with
   | ClStep => record_workspace_collisions run step attempt handle
   | _ => ret tt
   end) ;;;
  settle_failed_attempt run step attempt (kind_of_class class) cause ;;;
  db (mark_dispatched msg).

(** A unit still pending or running: the engine-side timeout backstop. *)
Definition enforce_timeout (run : RunId) (step : StepId) (attempt : AttemptId) (handle : string)
    (msg : Z) : Prog SchedulerError unit :=
  let* attempts := db (attempts_of_step run step) in
  match List.find (fun a => String.eqb (att_id a) attempt) attempts with
  | None => ret tt
  | Some a =>
      let* timeout_ms := step_timeout_ms cfg run step in
      let* now := now_ in
      if (att_started_at a + timeout_ms + TIMEOUT_BACKSTOP_GRACE_MS <=? now)%Z then
        try_ask (x_cancel handle) ;;;
        settle_failed_attempt run step attempt FTimeout None ;;;
        db (mark_dispatched msg)
      else ret tt
  end.

Definition settle_poll (run : RunId) (step : StepId) (attempt : AttemptId) (handle : string) (msg : Z)
  : Prog SchedulerError unit :=
  let* state := ask SeExec (x_poll handle) in
  match state with
  | XSucceeded => settle_success run step attempt handle msg
  | XFailed _ class cause => settle_failure run step attempt handle class cause msg
  | XLost => settle_failed_attempt run step attempt FLost None ;;; db (mark_dispatched msg)
  | XPending | XRunning => enforce_timeout run step attempt handle msg
  end.

(** ** One launch intent *)

Definition process_launch_intent (msg : OutboxMessage) : Prog SchedulerError unit :=
  match msg_payload msg with
  | PLaunchIntent run step attempt =>
      let* stored := db (attempt_handle run step attempt) in
      let* handle :=
        match stored with
        | Some h =>
            let* first := first_contact (supervision_key run step attempt) in
            (if first : bool then
               let* now := now_ in append run (AttemptReadopted step attempt) now
             else ret tt) ;;;
            ret (Some h)
        | None => launch_unit run step attempt (msg_id msg)
        end in
      match handle with
      | Some h => settle_poll run step attempt h (msg_id msg)
      | None => ret tt
      end
  | p => fail (SeBadPayload (show_bad_payload p))
  end.

(** ** Driving claimed messages *)

(** The race of [work] with the renewals of its claim: [work] is dropped at a
    call of the world's choosing (a renewal that failed), and the renewals
    that succeed are among the interferences. *)
Definition while_claimed {A} (msg : OutboxMessage) (work : Prog SchedulerError A)
  : Prog SchedulerError (option (Result SchedulerError A)) :=
  let window := cfg_outbox_visibility_ms cfg in
  if (window <=? 0)%Z then let* r := attempt_ work in ret (Some r)
  else
    let* renewed := into SeDb (call_at (fun now => renew_outbox_claim now (msg_id msg) owner window)) in
    if (renewed : bool) then droppable work else ret None.

Definition claim_messages (kind : string) : Prog SchedulerError (list OutboxMessage) :=
  into SeDb (call_at (fun now =>
    claim_outbox now owner (Some kind) (cfg_outbox_batch cfg) (cfg_outbox_visibility_ms cfg))).

Definition poison_reason (msg : OutboxMessage) (e : SchedulerError) : string :=
  "outbox message `" +:+ msg_kind msg +:+ "` (id " +:+ pretty (msg_id msg) +:+ ") exceeded "
  +:+ pretty MAX_DELIVERY_ATTEMPTS +:+ " failed deliveries — poison; last error: " +:+ show_error e.

Definition reconcile_message (msg : OutboxMessage) : Prog SchedulerError unit :=
  let* outcome := while_claimed msg (process_launch_intent msg) in
  match outcome with
  | None | Some (Ok _) => ret tt
  | Some (Err e) =>
      let* failures := db (record_outbox_failure (msg_id msg)) in
      if (MAX_DELIVERY_ATTEMPTS <=? failures)%N then
        db (dead_letter_outbox (msg_id msg)) ;;;
        dead_letter_run None (msg_run msg) (poison_reason msg e)
      else ret tt
  end.

Definition reconcile : Prog SchedulerError unit :=
  let* msgs := claim_messages LAUNCH_STEP in
  for_each reconcile_message msgs.
End WithPorts.

(** * Theorems *)

(** ** Every launch is a sequence of store calls *)

#[export] Hint Extern 1 (well_behaved (call (cache_lookup _ _))) => apply wb_read : prog.
#[export] Hint Extern 1 (well_behaved (call (run_cache_scope _))) => apply wb_read : prog.
#[export] Hint Extern 1 (well_behaved (call (step_evidence_attempt _ _))) => apply wb_read : prog.
#[export] Hint Extern 1 (well_behaved (call (attempt_workspace_input_steps _ _ _))) => apply wb_read : prog.
#[export] Hint Extern 1 (well_behaved (call (outbox_key_pending _))) => apply wb_read : prog.

Section WellBehaved.
Context (cfg : Config) (owner : string) (oracle : option SnapshotOracle) {X : Executor} {K : Codecs}.

Lemma wb_probe_roots h p l : well_behaved (probe_roots h p l).
Proof. induction l as [|r l IH]; cbn [probe_roots]; auto 10 with prog. Qed.
Hint Resolve wb_probe_roots : prog.
Lemma wb_resolve_files h r l acc : well_behaved (resolve_files h r l acc).
Proof. revert acc; induction l as [|f l IH]; intros acc; cbn [resolve_files]; auto 10 with prog. Qed.
Lemma wb_lookup_restore p d b l : well_behaved (lookup_restore p d b l).
Proof. revert b; induction l as [|f l IH]; intros b; cbn [lookup_restore]; cbv zeta; auto 10 with prog. Qed.
Hint Resolve wb_resolve_files wb_lookup_restore : prog.
Lemma wb_enrich_cache run spec : well_behaved (enrich_cache oracle run spec).
Proof. unfold enrich_cache. cbv zeta. auto 30 with prog. Qed.
Lemma wb_still_wanted run s a : well_behaved (launch_still_wanted run s a).
Proof. unfold launch_still_wanted. cbv zeta. auto 14 with prog. Qed.
Lemma wb_late_teardown run s a : well_behaved (enqueue_late_launch_teardown run s a).
Proof. unfold enqueue_late_launch_teardown. cbv zeta. auto 14 with prog. Qed.
Hint Resolve wb_enrich_cache wb_still_wanted wb_late_teardown : prog.
Lemma wb_adopt run s a : well_behaved (adopt_unit_of_refused_launch run s a).
Proof. unfold adopt_unit_of_refused_launch. auto 14 with prog. Qed.
Lemma wb_read_output run m s : well_behaved (read_output run m s).
Proof. unfold read_output. auto 14 with prog. Qed.
Lemma wb_read_upstream run m s : well_behaved (read_upstream_attempt run m s).
Proof. unfold read_upstream_attempt. auto 14 with prog. Qed.
Hint Resolve wb_adopt wb_read_output wb_read_upstream : prog.
Lemma wb_gather run s a spec : well_behaved (gather_inputs run s a spec).
Proof. unfold gather_inputs. cbv zeta. auto 24 with prog. Qed.
Lemma wb_refuse run s a m r : well_behaved (refuse_launch run s a m r).
Proof. unfold refuse_launch. auto 14 with prog. Qed.
Hint Resolve wb_gather wb_refuse : prog.
Lemma wb_prepare run s a : well_behaved (prepare_launch oracle run s a).
Proof. unfold prepare_launch. auto 14 with prog. Qed.
Hint Resolve wb_prepare : prog.
Lemma wb_start_unit run s a m : well_behaved (start_unit oracle run s a m).
Proof. unfold start_unit. auto 24 with prog. Qed.
Hint Resolve wb_start_unit : prog.
Lemma wb_launch_unit run s a m : well_behaved (launch_unit oracle run s a m).
Proof. unfold launch_unit. auto 20 with prog. Qed.
Lemma wb_rederive run s : well_behaved (rederive_input_steps run s).
Proof. unfold rederive_input_steps. auto 20 with prog. Qed.
Hint Resolve wb_launch_unit wb_rederive : prog.
Lemma wb_collisions run s a h : well_behaved (record_workspace_collisions run s a h).
Proof. unfold record_workspace_collisions. auto 24 with prog. Qed.
Lemma wb_cache_saves run s a h : well_behaved (record_cache_saves run s a h).
Proof. unfold record_cache_saves. auto 30 with prog. Qed.
Lemma wb_artifacts run s a h b : well_behaved (record_artifacts run s a h b).
Proof. unfold record_artifacts. auto 24 with prog. Qed.
Hint Resolve wb_collisions wb_cache_saves wb_artifacts : prog.
Lemma wb_settle_success run s a h m : well_behaved (settle_success run s a h m).
Proof. unfold settle_success. auto 24 with prog. Qed.
Lemma wb_settle_failure run s a h c w m : well_behaved (settle_failure run s a h c w m).
Proof. unfold settle_failure. auto 24 with prog. Qed.
Lemma wb_enforce_timeout run s a h m : well_behaved (enforce_timeout cfg run s a h m).
Proof. unfold enforce_timeout, step_timeout_ms. auto 24 with prog. Qed.
Hint Resolve wb_settle_success wb_settle_failure wb_enforce_timeout : prog.
Lemma wb_settle_poll run s a h m : well_behaved (settle_poll cfg run s a h m).
Proof. unfold settle_poll. auto 24 with prog. Qed.
Hint Resolve wb_settle_poll : prog.
Lemma wb_process msg : well_behaved (process_launch_intent cfg oracle msg).
Proof. unfold process_launch_intent. auto 30 with prog. Qed.
Lemma wb_while_claimed {A} msg (work : Prog SchedulerError A) :
  well_behaved work -> well_behaved (while_claimed cfg owner msg work).
Proof. intros H. unfold while_claimed. cbv zeta. auto 14 with prog. Qed.
Hint Resolve wb_process wb_while_claimed : prog.
Lemma wb_reconcile_message msg : well_behaved (reconcile_message cfg owner oracle msg).
Proof. unfold reconcile_message. auto 20 with prog. Qed.
Lemma wb_claim_messages kind : well_behaved (claim_messages cfg owner kind).
Proof. unfold claim_messages. auto 20 with prog. Qed.
Hint Resolve wb_reconcile_message wb_claim_messages : prog.
Lemma wb_reconcile : well_behaved (reconcile cfg owner oracle).
Proof. unfold reconcile. auto 20 with prog. Qed.
End WellBehaved.
#[export] Hint Resolve wb_claim_messages wb_reconcile wb_still_wanted wb_late_teardown wb_adopt wb_gather
  wb_enrich_cache wb_refuse wb_prepare wb_start_unit wb_launch_unit wb_settle_poll wb_process : prog.

(** ** The cache key's input decodes *)

Definition framed_pairs (l : list (string * string)) : string :=
  foldr (fun p acc => framed p.1 +:+ framed p.2 +:+ acc) "" l.

Lemma framed_pairs_inj l l' : framed_pairs l = framed_pairs l' -> l = l'.
Proof.
  revert l'; induction l as [|[p h] l IH]; intros [|[p' h'] l']; cbn; [done|..].
  - intros E. symmetry in E. by apply framed_nonempty in E.
  - intros E. by apply framed_nonempty in E.
  - intros E. apply framed_split in E as [-> E]. apply framed_split in E as [-> E].
    by rewrite (IH _ E).
Qed.

Lemma cache_key_input_eq project scope resolved :
  cache_key_input project scope resolved
    = framed project +:+ framed scope +:+ framed_pairs (sort_stable pair_leb resolved).
Proof.
  unfold cache_key_input. rewrite <- string_app_assoc. generalize (framed project +:+ framed scope).
  induction (sort_stable pair_leb resolved) as [|p l IH]; intros acc; cbn [foldl framed_pairs foldr].
  - by rewrite string_app_nil_r.
  - by rewrite IH, !string_app_assoc.
Qed.

#[export] Instance pair_leb_trans : Transitive (fun a b => pair_leb a b = true).
Proof.
  intros [a x] [b y] [c z]. unfold pair_leb. cbn.
  destruct (String.compare a b) eqn:Hab; [|destruct (String.compare b c) eqn:Hbc|done]; try done.
  - apply String.compare_eq_iff in Hab as <-. destruct (String.compare a c); try done.
    apply str_le_trans.
  - apply String.compare_eq_iff in Hbc as <-. by rewrite Hab.
  - by rewrite (string_compare_lt_trans _ _ _ Hab Hbc).
Qed.

#[export] Instance pair_leb_total : Total (fun a b => pair_leb a b = true).
Proof.
  intros [a x] [b y]. unfold pair_leb. cbn.
  rewrite (String.compare_antisym b a). destruct (String.compare a b); cbn; auto.
  apply (str_le_total x y).
Qed.

#[export] Instance pair_leb_antisymm : AntiSymm (=) (fun a b => pair_leb a b = true).
Proof.
  intros [a x] [b y]. unfold pair_leb. cbn. rewrite (String.compare_antisym b a).
  destruct (String.compare a b) eqn:E; cbn; try done.
  apply String.compare_eq_iff in E as <-. intros H1 H2. f_equal. by apply str_le_antisymm.
Qed.

(** Two caches share a key exactly when they are the same cache. Under a
    collision-free digest, two cache keys are equal if and only if the
    project, the cache scope and the set of key files with their blob hashes
    are equal, in whatever order the files were listed: no choice of project,
    scope, path or hash, crafted to imitate the framing or not, ever reads or
    writes another scope's entries, and re-listing the files never misses. *)
Theorem cache_key_injective `{Codecs} project scope resolved project' scope' resolved' :
  (forall a b, sha256_hex a = sha256_hex b -> a = b) ->
  cache_key project scope resolved = cache_key project' scope' resolved' <->
  project = project' /\ scope = scope' /\ resolved ≡ₚ resolved'.
Proof.
  intros Hd. unfold cache_key. split.
  - intros E. apply Hd in E. rewrite !cache_key_input_eq in E.
    apply framed_split in E as [-> E]. apply framed_split in E as [-> E].
    apply framed_pairs_inj in E. split; [done|]. split; [done|].
    by rewrite <- (sort_stable_perm pair_leb resolved), E, sort_stable_perm.
  - intros (-> & -> & Hp). by rewrite !cache_key_input_eq, (sort_stable_canonical pair_leb _ _ Hp).
Qed.

Lemma cache_key_injective_witness :
  (@cache_key plain_codecs "p" "own" [("b", "2"); ("a", "1")]
     = @cache_key plain_codecs "p" "own" [("a", "1"); ("b", "2")]) /\
  ~ "p" = "p2".
Proof.
  split; [|done].
  apply (@cache_key_injective plain_codecs "p" "own" [("b", "2"); ("a", "1")] "p" "own"
           [("a", "1"); ("b", "2")]).
  - intros a b H. exact H.
  - split; [reflexivity|]. split; [reflexivity|]. apply perm_swap.
Defined.
