(* ===== verification/Launches.v ===== *)
(** * Every launched unit is supervised or torn down

    What [process_launch_intent] (scarab-engine/src/scheduler.rs) promises of
    the unit it launches while a cancel, a rerun or another replica may commit
    between any two of its calls. *)

From S2P Require Import Prelude Text Values Cel Params Scopes Render Domain Store Outbox Commits Gates Program Transitions LaunchSpec Logic Cancel Plan Rerun Verdicts Backend Scheduler Launch.

(** The attempt is the running latest one of a [Running] step. *)
Definition step_wanted (run : RunId) (step : StepId) (attempt : AttemptId) : assertion := fun st =>
  exists s a, find_step step (step_rows run st) = Some s /\ sr_status s = StepRunning
    /\ last (sr_attempts s) = Some a /\ att_id a = attempt /\ att_outcome a = ORunning.

Definition run_live (run : RunId) : assertion := fun st =>
  exists s, st_runs st !! run = Some s /\ run_is_terminal s = false.

Definition recorded (run : RunId) (step : StepId) (attempt : AttemptId) (h : string) : assertion := fun st =>
  st_attempt_handles st !! (run, step, attempt) = Some h.

(** The teardown a refused or late launch enqueues for itself names that
    attempt and no other. *)
Definition late_key (run : RunId) (step : StepId) (attempt : AttemptId) : string :=
  "cancel:" +:+ run +:+ ":" +:+ step +:+ "/" +:+ attempt +:+ ":launch".
Definition tears_down (run : RunId) (step : StepId) (attempt : AttemptId) (m : OutboxMessage) : Prop :=
  msg_run m = run /\ msg_kind m = CANCEL_ATTEMPT /\ msg_payload m = PAttemptTeardown [mkTeardown step attempt].
Definition teardown_enqueued (run : RunId) (step : StepId) (attempt : AttemptId) : assertion := fun st =>
  exists e, e ∈ st_outbox st /\ key_of e = late_key run step attempt /\ tears_down run step attempt (oe_msg e).
(** Whoever wrote under that key wrote that teardown. *)
Definition key_honest (run : RunId) (step : StepId) (attempt : AttemptId) : assertion := fun st =>
  forall e, e ∈ st_outbox st -> key_of e = late_key run step attempt -> tears_down run step attempt (oe_msg e).

(** The store a program's next call finds, and the one its second call finds
    when the first is a read. *)
Definition next_store (w : World) : InMemoryState := w_st (interfere w).1.
Definition second_store (w : World) : InMemoryState := w_st (interfere (interfere w).1).1.

(** * Theorems *)

Lemma key_honest_outbox run step attempt st st' : st_outbox st' = st_outbox st -> key_honest run step attempt st -> key_honest run step attempt st'.
Proof. unfold key_honest. by intros ->. Qed.
Lemma enqueued_honest run step attempt m st : msg_key m = late_key run step attempt -> tears_down run step attempt m ->
  key_honest run step attempt st -> teardown_enqueued run step attempt (enqueue_outbox m st).2.
Proof.
  intros Hk Hm Hh. unfold enqueue_outbox, op_modify. cbn [snd]. destruct (has_key_dec (msg_key m) st) as [(e & He & Hek)|Hn].
  - rewrite (enqueue_absorbed _ _ _ He Hek). exists e. split; [done|]. split; [congruence|]. apply Hh; [done|congruence].
  - destruct (enqueue_locked_new m st Hn) as (e & [id ->] & Ho). eexists. rewrite Ho. split; [apply elem_of_app; right; by left|]. by split.
Qed.
Lemma stable_enqueued run step attempt : stable (teardown_enqueued run step attempt).
Proof.
  intros st st' W U (e & He & Hk & Hm) T. destruct (db_steps_ok _ _ T W U) as (_ & _ & X). apply list_elem_of_lookup in He as (i & Hi).
  destruct (outbox_le_lookup _ _ _ _ (ext_outbox _ _ X) Hi) as (e' & Hi' & Em & _). exists e'. unfold key_of in *. rewrite Em.
  split; [by eapply list_elem_of_lookup_2|done].
Qed.

Section WithPorts.
Context (oracle : option SnapshotOracle) {X : Executor} {K : Codecs} (run : RunId) (step : StepId) (attempt : AttemptId).
Abbreviation honest := (key_honest run step attempt).

(** ** What writes nothing to the outbox *)

#[local] Hint Extern 1 (preserves _ (call _)) =>
  apply preserves_call; [apply key_honest_outbox|intros ?; cbn; repeat case_match; reflexivity] : preserve.
Lemma preserves_ask {E F A} (f : F -> E) (op : N -> Result F A) : preserves honest (ask f op).
Proof. unfold ask. apply preserves_bind; [apply preserves_draw|]. intros n. destruct (op n); auto with preserve. Qed.
Lemma preserves_still_wanted : preserves honest (launch_still_wanted run step attempt).
Proof. unfold launch_still_wanted, steps_of_run. cbv zeta. auto 12 with preserve. Qed.
Lemma preserves_gather spec : preserves honest (gather_inputs run step attempt spec).
Proof. unfold gather_inputs, steps_of_run, read_output, read_upstream_attempt. cbv zeta. auto 30 with preserve. Qed.
Lemma preserves_probe hash_of path roots : preserves honest (probe_roots hash_of path roots).
Proof. induction roots as [|r roots IH]; cbn [probe_roots]; auto 12 with preserve. Qed.
Hint Resolve preserves_ask preserves_probe : preserve.
Lemma preserves_resolve hash_of inputs l acc : preserves honest (resolve_files hash_of inputs l acc).
Proof. revert acc. induction l as [|x l IH]; intros acc; cbn [resolve_files]; auto 12 with preserve. Qed.
Lemma preserves_lookup project dirs first l : preserves honest (lookup_restore project dirs first l).
Proof. revert first. induction l as [|x l IH]; intros first; cbn [lookup_restore]; cbv zeta; auto 12 with preserve. Qed.
Hint Resolve preserves_still_wanted preserves_gather preserves_resolve preserves_lookup : preserve.
Lemma preserves_enrich spec : preserves honest (enrich_cache oracle run spec).
Proof. unfold enrich_cache. cbv zeta. auto 30 with preserve. Qed.
Lemma preserves_render spec : preserves honest (render_launch_spec run step spec).
Proof. unfold render_launch_spec, gather_results, steps_of_run. cbv zeta. auto 30 with preserve. Qed.
Hint Resolve preserves_enrich preserves_render : preserve.
Lemma preserves_prepare : preserves honest (prepare_launch oracle run step attempt).
Proof. unfold prepare_launch. auto 12 with preserve. Qed.
Hint Resolve preserves_prepare : preserve.

(** ** The steps of a launch *)

(** What the check saw: the step at the first of its two reads, the Run at the
    second. *)
Lemma still_wanted_at w (b : bool) w' : launch_still_wanted run step attempt w = (Ok b, w') ->
  if b then step_wanted run step attempt (next_store w) /\ run_live run (second_store w)
  else ~ step_wanted run step attempt (next_store w) \/ ~ run_live run (second_store w).
Proof.
  unfold launch_still_wanted. intros (steps & w1 & E1 & E)%bind_ok. apply into_ok_inv, call_ok in E1 as [E1 ->]. revert E. cbv zeta.
  assert ((steps_of_run run (w_st (interfere w).1)).2 = w_st (interfere w).1) as -> by (unfold steps_of_run; by case_decide).
  assert (mkWorld (w_st (interfere w).1) (w_now (interfere w).1) (w_env (interfere w).1) (w_driver (interfere w).1) (w_mem (interfere w).1)
          = (interfere w).1) as -> by by destruct (interfere w).1.
  unfold steps_of_run in E1. case_decide; [done|]. cbn in E1. injection E1 as <-. fold (next_store w).
  unfold step_wanted. destruct (find_step step (step_rows run (next_store w))) as [x|]; cbn [negb]; [|intros [= <- _]; left; by intros (? & ? & [=] & _)].
  destruct (decide (sr_status x = StepRunning)) as [Hx|Hx]; [rewrite bool_decide_eq_true_2 by done|rewrite bool_decide_eq_false_2 by done]; cbn [andb negb];
    [|intros [= <- _]; left; by intros (? & ? & [= <-] & ? & _)].
  destruct (last (sr_attempts x)) as [a|] eqn:El; cbn [negb]; [|intros [= <- _]; left; intros (? & ? & [= <-] & _ & E2 & _); congruence].
  destruct (String.eqb_spec (att_id a) attempt) as [Ha|Ha]; cbn [andb negb];
    [|intros [= <- _]; left; intros (? & ? & [= <-] & _ & E2 & ? & _); congruence].
  case_bool_decide as Ho; cbn [negb]; [|intros [= <- _]; left; intros (? & ? & [= <-] & _ & E2 & _ & ?); congruence].
  intros (status & w2 & E2 & E)%bind_ok. apply into_ok_inv, call_ok in E2 as [E2 _]. cbn in E2. injection E2 as <-.
  injection E as <- _. unfold run_live. fold (second_store w).
  destruct (st_runs (second_store w) !! run) as [status|]; [destruct (run_is_terminal status) eqn:Et|]; cbn [negb];
    [right; intros (? & [= <-] & ?); congruence|split; [by exists x, a|by exists status]|right; by intros (? & [=] & _)].
Qed.
(** The environment of a program that ran. *)
Lemma after {F A} (p : Prog F A) w r w' : well_behaved p -> p w = (r, w') -> Forall calls_only (w_env w) -> wf (w_st w) -> unarmed (w_st w) ->
  rtc db_step (w_st w) (w_st w') /\ Forall calls_only (w_env w') /\ wf (w_st w') /\ unarmed (w_st w').
Proof.
  intros Hp E He W U. destruct (Hp w He) as (T & He' & _). rewrite E in T, He'. destruct (db_steps_ok _ _ T W U) as (? & ? & _). done.
Qed.
Lemma kept {F A} (p : Prog F A) w r w' : preserves honest p -> p w = (r, w') -> Forall (others_preserve honest) (w_env w) -> honest (w_st w) ->
  Forall (others_preserve honest) (w_env w') /\ honest (w_st w').
Proof. intros Hp E He Hh. specialize (Hp w He Hh). by rewrite E in Hp. Qed.
(** Enqueued by this program, the teardown is there for good. *)
Lemma late_teardown_enqueues w w' : enqueue_late_launch_teardown run step attempt w = (Ok tt, w') ->
  Forall (others_preserve honest) (w_env w) -> honest (w_st w) -> teardown_enqueued run step attempt (w_st w').
Proof.
  unfold enqueue_late_launch_teardown. intros (now & w1 & E1 & E)%bind_ok He Hh. destruct (kept _ _ _ _ (preserves_now _) E1 He Hh) as [He1 Hh1].
  apply into_ok_inv, call_ok in E as [_ ->]. cbn [w_st]. destruct (preserves_interfere _ w1 He1 Hh1) as [_ Hh2].
  apply enqueued_honest; [|by split|done]. cbn. unfold late_key, cancel_key. by rewrite !string_app_assoc.
Qed.
Lemma retired_enqueued msg w w' : db (mark_dispatched msg) w = (Ok tt, w') -> Forall calls_only (w_env w) -> wf (w_st w) -> unarmed (w_st w) ->
  teardown_enqueued run step attempt (w_st w) -> teardown_enqueued run step attempt (w_st w').
Proof.
  intros E He W U Ht. destruct (after (db (mark_dispatched msg)) w _ _ ltac:(auto with prog) E He W U) as (T & _). by eapply stable_enqueued.
Qed.

(** Why this launch, found wanted and gone on to [w], started no unit: its spec
    could not be rendered, or the executor refused it; and [w'], where the
    step was failed for that reason. *)
Definition refused (msg : Z) (w w' : World) : Prop := exists reason w1,
  w' = (refuse_launch run step attempt msg reason w1).2
  /\ (prepare_launch oracle run step attempt w = (Ok (Err reason), w1)
      \/ exists spec w2 at_ w3, prepare_launch oracle run step attempt w = (Ok (Ok spec), w2) /\ now_ (E:=SchedulerError) w2 = (Ok at_, w3)
           /\ attempt_ (F:=SchedulerError) (ask id (x_launch (fenced_step run step attempt at_) spec)) w3 = (Ok (Err (ExRefused reason)), w1)).

(** A unit recorded by this launch. *)
Lemma started_some msg w h w' : start_unit oracle run step attempt msg w = (Ok (Some h), w') ->
  Forall (others_preserve honest) (w_env w) -> honest (w_st w) ->
  recorded run step attempt h (w_st w') /\ Forall (others_preserve honest) (w_env w') /\ honest (w_st w').
Proof.
  unfold start_unit. intros (wanted & w1 & E1 & E)%bind_ok He Hh. destruct (kept _ _ _ _ preserves_still_wanted E1 He Hh) as [He1 Hh1].
  destruct wanted; cbn [negb] in E; [|by repeat (apply bind_ok in E as (? & ? & _ & E)); injection E].
  apply bind_ok in E as (rendered & w2 & E2 & E). destruct (kept _ _ _ _ preserves_prepare E2 He1 Hh1) as [He2 Hh2].
  destruct rendered as [spec|reason]; [|by repeat (apply bind_ok in E as (? & ? & _ & E)); injection E].
  apply bind_ok in E as (at_ & w3 & E3 & E). destruct (kept _ _ _ _ (preserves_now _) E3 He2 Hh2) as [He3 Hh3].
  apply bind_ok in E as (launched & w4 & E4 & E). destruct (kept _ _ _ _ (preserves_attempt _ _ (preserves_ask _ _)) E4 He3 Hh3) as [He4 Hh4].
  destruct launched as [handle|[]]; try done; [|by repeat (apply bind_ok in E as (? & ? & _ & E)); injection E].
  apply bind_ok in E as ([] & w5 & E5 & E). injection E as <- <-.
  assert (preserves honest (db (set_attempt_handle run step attempt handle))) as Hk by auto with preserve.
  destruct (kept _ _ _ _ Hk E5 He4 Hh4) as [He5 Hh5]. split_and!; try done.
  apply into_ok_inv, call_ok in E5 as [_ ->]. cbn. apply lookup_insert_eq.
Qed.
(** A launch that recorded no unit. *)
Lemma started_none msg w w' : start_unit oracle run step attempt msg w = (Ok None, w') ->
  Forall calls_only (w_env w) -> Forall (others_preserve honest) (w_env w) -> honest (w_st w) -> wf (w_st w) -> unarmed (w_st w) ->
  ((~ step_wanted run step attempt (next_store w) \/ ~ run_live run (second_store w))
     /\ (x_unit_handle (fenced_step run step attempt 0) = None \/ teardown_enqueued run step attempt (w_st w')))
  \/ exists w1, launch_still_wanted run step attempt w = (Ok true, w1) /\ refused msg w1 w'.
Proof.
  unfold start_unit. intros (wanted & w1 & E1 & E)%bind_ok Hc He Hh W U. destruct wanted; cbn [negb] in E.
  - right. exists w1. split; [done|]. apply bind_ok in E as (rendered & w2 & E2 & E). destruct rendered as [spec|reason].
    + apply bind_ok in E as (at_ & w3 & E3 & E). apply bind_ok in E as (launched & w4 & E4 & E).
      destruct launched as [handle|[]]; try done; [by apply bind_ok in E as (? & ? & _ & E); injection E|].
      apply bind_ok in E as ([] & w5 & E5 & E). injection E as <-. exists reason, w4. split; [by rewrite E5|]. right. by exists spec, w2, at_, w3.
    + apply bind_ok in E as ([] & w3 & E3 & E). injection E as <-. exists reason, w2. split; [by rewrite E3|by left].
  - left. apply (still_wanted_at w false) in E1 as Hw. split; [exact Hw|]. destruct (kept _ _ _ _ preserves_still_wanted E1 He Hh) as [He1 Hh1].
    destruct (after (launch_still_wanted run step attempt) w _ _ ltac:(auto with prog) E1 Hc W U) as (_ & Hc1 & W1 & U1).
    apply bind_ok in E as ([] & w2 & E2 & E). apply bind_ok in E as ([] & w3 & E3 & E). injection E as <-.
    destruct (after (adopt_unit_of_refused_launch run step attempt) w1 _ _ ltac:(auto with prog) E2 Hc1 W1 U1) as (_ & Hc2 & W2 & U2).
    unfold adopt_unit_of_refused_launch in E2. destruct (x_unit_handle _) as [h|]; [right|by left].
    apply bind_ok in E2 as ([] & w4 & E4 & E5). assert (preserves honest (db (set_attempt_handle run step attempt h))) as Hk by auto with preserve.
    destruct (kept _ _ _ _ Hk E4 He1 Hh1) as [He4 Hh4]. eapply retired_enqueued; [exact E3|done..|]. by eapply late_teardown_enqueues.
Qed.

End WithPorts.

(** A [Running] Run with one attempt just claimed. *)
Definition claimed_run : InMemoryState :=
  let s1 := (create_run "r" 0 state_empty).2 in
  let s2 := (create_step_run "r" "build" (Some (image_spec "alpine")) [] s1).2 in
  let s3 := (record_transition "r" RunPending RunRunning s2).2 in
  let s4 := (record_step_transition "r" "build" StepPending StepReady s3).2 in
  let s5 := (record_step_transition "r" "build" StepReady StepRunning s4).2 in
  (record_attempt "r" "build" (mkAttempt "a1" 3 None None ORunning) s5).2.

Lemma claimed_run_steps : rtc db_step state_empty claimed_run.
Proof.
  unfold claimed_run. eapply rtc_l; [apply (S_create_run state_empty "r" 0)|].
  eapply rtc_l; [eapply (S_create_step_run _ "r" "build"); vm_compute; reflexivity|].
  eapply rtc_l; [apply S_record_transition|]. eapply rtc_l; [apply S_record_step_transition|].
  eapply rtc_l; [apply S_record_step_transition|]. apply rtc_once, S_record_attempt.
Qed.

