(* ===== verification/Drain.v ===== *)
(** * Teardown messages

    Draining the teardown intents a cancel or a rerun left in the outbox
    (scarab-engine/src/scheduler.rs, [reconcile_cancellations],
    [reconcile_supersessions]): each names the units to stop, and is retired
    only once they are gone. *)

From S2P Require Import Prelude Text Values Cel Params Scopes Render Domain Store Outbox Commits Gates Program Transitions LaunchSpec Cancel Plan Rerun Verdicts Backend Scheduler Launch.

(** ** What one pass over a message's units reached *)

Inductive TeardownPass : Type :=
| TpGone
| TpStillTerminating (handle : string)
| TpLaunching (launch : string)
| TpFailed (e : ExecError).

Definition absorb (p : TeardownPass) (unit_ : Result ExecError bool) (handle : string) : TeardownPass :=
  match unit_ with
  | Ok true => p
  | Ok false => match p with TpGone => TpStillTerminating handle | _ => p end
  | Err e => TpFailed e
  end.

Definition launching (p : TeardownPass) (launch : string) : TeardownPass :=
  match p with TpGone => TpLaunching launch | _ => p end.

Section WithPorts.
Context (cfg : Config) (owner : string) {X : Executor} {K : Codecs}.

Definition cancel_until_gone (handle : string) : Prog SchedulerError (Result ExecError bool) :=
  attempt_ (ask id (x_cancel handle) ;;; ask id (x_torn_down handle)).

(** The event of an abandoned teardown. *)
Definition teardown_abandoned (msg : OutboxMessage) (reason : string) : EventPayload :=
  RawEvent (JObj [("event", JStr "TeardownAbandoned"); ("outbox_kind", JStr (msg_kind msg));
                  ("outbox_id", JInt (msg_id msg)); ("reason", JStr reason)]).

(** Count one failed delivery; at the ceiling, retire the message as poison. *)
Definition count_failure (msg : OutboxMessage) (reason : string) : Prog SchedulerError unit :=
  let* failures := db (record_outbox_failure (msg_id msg)) in
  if (MAX_DELIVERY_ATTEMPTS <=? failures)%N then
    db (dead_letter_outbox (msg_id msg)) ;;;
    let* now := now_ in
    append (msg_run msg) (teardown_abandoned msg reason) now
  else ret tt.

Definition abandon_poison_message (msg : OutboxMessage) (e : SchedulerError) : Prog SchedulerError unit :=
  count_failure msg ("teardown message could not be processed " +:+ pretty MAX_DELIVERY_ATTEMPTS
    +:+ " times and was abandoned; the backend unit may be orphaned (fencing keeps run "
    +:+ "state correct): " +:+ show_error e).

Definition show_exec_error (e : ExecError) : string := show_error (SeExec e).

Definition teardown_reason (p : TeardownPass) : string :=
  match p with
  | TpGone => ""
  | TpStillTerminating handle =>
      "`" +:+ handle +:+ "` was still terminating after " +:+ pretty MAX_DELIVERY_ATTEMPTS
      +:+ " checks — every cancel was accepted, but the backend never reported the unit gone (a "
      +:+ "termination grace longer than the retry window, or an unreachable node); "
      +:+ "the teardown is abandoned, so the unit may still be running (fencing keeps run state correct)"
  | TpLaunching launch =>
      "`" +:+ launch +:+ "` was still pending after " +:+ pretty MAX_DELIVERY_ATTEMPTS
      +:+ " checks — an attempt to tear down had no unit recorded while its launch could still create one; "
      +:+ "the teardown is abandoned, so a unit that launch creates may run on (fencing keeps run state correct)"
  | TpFailed e =>
      "Pod teardown failed " +:+ pretty MAX_DELIVERY_ATTEMPTS +:+ " times and was abandoned; the "
      +:+ "backend unit may be orphaned (fencing keeps run state correct): " +:+ show_exec_error e
  end.

Definition settle_teardown (msg : OutboxMessage) (outcome : TeardownPass) : Prog SchedulerError unit :=
  match outcome with
  | TpGone => db (mark_dispatched (msg_id msg))
  | p => count_failure msg (teardown_reason p)
  end.

(** ** Attempt-scoped teardowns *)

Definition teardown_attempt (run : RunId) (p : TeardownPass) (item : TeardownAttempt)
  : Prog SchedulerError TeardownPass :=
  let* h := db (attempt_handle run (td_step item) (td_attempt item)) in
  match h with
  | Some h =>
      let* gone := cancel_until_gone h in ret (absorb p gone h)
  | None =>
      let launch := launch_key run (td_step item) (td_attempt item) in
      let* pending := db (outbox_key_pending launch) in
      ret (if pending : bool then launching p launch else p)
  end.

Definition process_attempt_teardown (msg : OutboxMessage) : Prog SchedulerError unit :=
  match msg_payload msg with
  | PAttemptTeardown attempts =>
      let* outcome := fold_each (teardown_attempt (msg_run msg)) TpGone attempts in
      settle_teardown msg outcome
  | p => fail (SeBadPayload (show_bad_payload p))
  end.

(** Per-message isolation. *)
Definition isolated (body : OutboxMessage -> Prog SchedulerError unit) (msg : OutboxMessage)
  : Prog SchedulerError unit :=
  let* r := attempt_ (body msg) in
  match r with
  | Ok _ => ret tt
  | Err e => abandon_poison_message msg e
  end.

Definition drain_attempt_teardowns (kind : string) : Prog SchedulerError unit :=
  let* msgs := claim_messages cfg owner kind in
  for_each (isolated process_attempt_teardown) msgs.

Definition reconcile_supersessions : Prog SchedulerError unit := drain_attempt_teardowns SUPERSEDE_TEARDOWN.

(** ** Run-scoped teardowns: shared services *)

(** An older binary's [cancel_run]: its cancelled attempts' units. *)
Definition teardown_cancelled_attempts (run : RunId) (p : TeardownPass) (step : StepRun)
  : Prog SchedulerError TeardownPass :=
  fold_each (fun p a =>
    let* h := db (attempt_handle run (sr_step step) (att_id a)) in
    match h with
    | Some h => let* gone := cancel_until_gone h in ret (absorb p gone h)
    | None => ret p
    end) p (List.filter (fun a => bool_decide (att_outcome a = OCancelled)) (sr_attempts step)).

Definition teardown_one_service (run : RunId) (p : TeardownPass) (svc : RunService)
  : Prog SchedulerError TeardownPass :=
  let mark := db (set_run_service None run (rs_take svc) (rs_name svc) SvcTornDown None) in
  match rs_handle svc with
  | Some h =>
      let* r := attempt_ (ask id (x_teardown_service h)) in
      match r with
      | Err e => ret (absorb p (Err e) h)
      | Ok _ => mark ;;; ret p
      end
  | None => mark ;;; ret p
  end.

Definition through_take (payload : OutboxPayload) : option Z :=
  match payload with PCancelServices t => Some t | _ => None end.

Definition process_run_teardown (msg : OutboxMessage) : Prog SchedulerError unit :=
  let run := msg_run msg in
  let* outcome :=
    match msg_payload msg with
    | PNull =>
        let* steps := db (steps_of_run run) in
        fold_each (teardown_cancelled_attempts run) TpGone steps
    | _ => ret TpGone
    end in
  let* status := db (run_status_of run) in
  let reopened := match status with Some s => negb (run_is_terminal s) | None => false end in
  let* services := db (run_services run) in
  let* outcome := fold_each (fun p svc =>
      if service_is_terminal (rs_status svc) then ret p
      else if reopened && match through_take (msg_payload msg) with
                          | Some t => (t <? rs_take svc)%Z | None => false end then ret p
      else teardown_one_service run p svc) outcome services in
  settle_teardown msg outcome.

Definition reconcile_cancellations : Prog SchedulerError unit :=
  drain_attempt_teardowns CANCEL_ATTEMPT ;;;
  let* msgs := claim_messages cfg owner CANCEL_RUN in
  for_each (isolated process_run_teardown) msgs.
End WithPorts.

(** * Theorems *)

Section WellBehaved.
Context (cfg : Config) (owner : string) {X : Executor} {K : Codecs}.

Lemma wb_cancel_until_gone h : well_behaved (cancel_until_gone h).
Proof. unfold cancel_until_gone. auto 10 with prog. Qed.
Lemma wb_count_failure m r : well_behaved (count_failure m r).
Proof. unfold count_failure. auto 14 with prog. Qed.
Hint Resolve wb_cancel_until_gone wb_count_failure : prog.
Lemma wb_settle_teardown m p : well_behaved (settle_teardown m p).
Proof. unfold settle_teardown. auto 14 with prog. Qed.
Lemma wb_teardown_attempt run p i : well_behaved (teardown_attempt run p i).
Proof. unfold teardown_attempt. cbv zeta. auto 14 with prog. Qed.
Hint Resolve wb_settle_teardown wb_teardown_attempt : prog.
Lemma wb_process_attempt_teardown m : well_behaved (process_attempt_teardown m).
Proof. unfold process_attempt_teardown. auto 14 with prog. Qed.
Lemma wb_isolated body m : (forall m, well_behaved (body m)) -> well_behaved (isolated body m).
Proof. intros H. unfold isolated, abandon_poison_message. auto 14 with prog. Qed.
Hint Resolve wb_process_attempt_teardown wb_isolated : prog.
Lemma wb_drain kind : well_behaved (drain_attempt_teardowns cfg owner kind).
Proof. unfold drain_attempt_teardowns. auto 14 with prog. Qed.
Lemma wb_teardown_cancelled run p s : well_behaved (teardown_cancelled_attempts run p s).
Proof. unfold teardown_cancelled_attempts. auto 14 with prog. Qed.
Lemma wb_teardown_one run p s : well_behaved (teardown_one_service run p s).
Proof. unfold teardown_one_service. cbv zeta. auto 14 with prog. Qed.
Hint Resolve wb_drain wb_teardown_cancelled wb_teardown_one : prog.
Lemma wb_process_run_teardown m : well_behaved (process_run_teardown m).
Proof. unfold process_run_teardown. cbv zeta. auto 24 with prog. Qed.
Hint Resolve wb_process_run_teardown : prog.
Lemma wb_reconcile_cancellations : well_behaved (reconcile_cancellations cfg owner).
Proof. unfold reconcile_cancellations. auto 24 with prog. Qed.
Lemma wb_reconcile_supersessions : well_behaved (reconcile_supersessions cfg owner).
Proof. apply wb_drain. Qed.
End WellBehaved.
#[export] Hint Resolve wb_reconcile_cancellations wb_reconcile_supersessions : prog.
