(* ===== verification/Teardowns.v ===== *)
(** * Teardown messages are retired only when their units are gone

    What one delivery of a teardown intent promises
    (scarab-engine/src/scheduler.rs, [drain_attempt_teardowns],
    [settle_teardown], [abandon_poison_message]). *)

From S2P Require Import Prelude Text Values Cel Params Scopes Render Domain Store Outbox Commits Gates Program Transitions LaunchSpec Cancel Plan Rerun Verdicts Backend Scheduler Settle Launch Drain.

(** One delivery of a message: retired, or one more failed delivery and, at the
    ceiling, abandoned. *)
Definition delivered (gone : bool) (e : OutboxEntry) : OutboxEntry :=
  if gone then mkEntry (oe_msg e) (oe_claimed_until e) (oe_claimed_by e) true (oe_delivery_attempts e)
                 (oe_dead_lettered e)
  else let n := (oe_delivery_attempts e + 1)%N in
       mkEntry (oe_msg e) (oe_claimed_until e) (oe_claimed_by e) (oe_dispatched e) n
         (if (MAX_DELIVERY_ATTEMPTS <=? n)%N then true else oe_dead_lettered e).

(** * Theorems *)

Lemma update_first_twice {A} (p : A -> bool) f g l :
  (forall x, p (f x) = p x) -> update_first p g (update_first p f l) = update_first p (fun x => g (f x)) l.
Proof.
  intros H. induction l as [|x l IH]; [done|]. cbn. destruct (p x) eqn:E; cbn; [by rewrite H, E|by rewrite E, IH].
Qed.

(** Only the first such entry matters. *)
Lemma update_first_found {A} (p : A -> bool) f g l e :
  List.find p l = Some e -> f e = g e -> update_first p f l = update_first p g l.
Proof.
  intros H E. induction l as [|x l IH]; [done|]. cbn in *. destruct (p x); [by injection H as ->; rewrite E|].
  by rewrite IH.
Qed.

Section WithPorts.
Context {X : Executor} {K : Codecs}.

(** The unit of [item] is gone: its cancel and its absence are confirmed, or it
    has none and no launch can still create one. *)
Definition unit_gone (run : RunId) (st : InMemoryState) (item : TeardownAttempt) : bool :=
  match st_attempt_handles st !! (run, td_step item, td_attempt item) with
  | Some h => match x_cancel h 0, x_torn_down h 0 with Ok tt, Ok true => true | _, _ => false end
  | None => negb (existsb (fun e => String.eqb (msg_key (oe_msg e)) (launch_key run (td_step item) (td_attempt item))
                             && negb (oe_dispatched e) && negb (oe_dead_lettered e)) (st_outbox st))
  end.

Definition is_gone (p : TeardownPass) : bool := match p with TpGone => true | _ => false end.

Lemma teardown_attempt_alone run p item st now :
  exists p', teardown_attempt run p item (alone st now) = (Ok p', alone st now)
    /\ is_gone p' = is_gone p && unit_gone run st item.
Proof.
  unfold teardown_attempt, unit_gone, attempt_handle. rewrite read_alone.
  destruct (st_attempt_handles st !! _) as [h|].
  - unfold bind at 1, cancel_until_gone, attempt_. rewrite ask_alone.
    destruct (x_cancel h 0) as [[]|e].
    + unfold ask, bind. cbn. destruct (x_torn_down h 0) as [[]|e]; cbn;
        eexists; (split; [reflexivity|]); destruct p; done.
    + eexists. split; [reflexivity|]. by rewrite andb_false_r.
  - unfold outbox_key_pending. rewrite read_alone. set (b := existsb _ _).
    exists (if b then launching p (launch_key run (td_step item) (td_attempt item)) else p).
    split; [by destruct b|]. destruct b, p; done.
Qed.

Lemma teardown_fold_alone run p items st now :
  exists p', fold_each (teardown_attempt run) p items (alone st now) = (Ok p', alone st now)
    /\ is_gone p' = is_gone p && forallb (unit_gone run st) items.
Proof.
  revert p; induction items as [|i l IH]; intros p; [exists p; by rewrite andb_true_r|].
  cbn [fold_each forallb]. destruct (teardown_attempt_alone run p i st now) as (p1 & E1 & G1).
  destruct (IH p1) as (p2 & E2 & G2). exists p2. unfold bind. rewrite E1. split; [exact E2|].
  by rewrite G2, G1, andb_assoc.
Qed.

Lemma count_failure_alone msg reason st now e :
  quiet st -> List.find (named_entry (msg_id msg)) (st_outbox st) = Some e ->
  exists st', count_failure msg reason (alone st now) = (Ok tt, alone st' now)
    /\ st_outbox st' = update_first (named_entry (msg_id msg)) (delivered false) (st_outbox st)
    /\ st_events st' = st_events st
         ++ (if (MAX_DELIVERY_ATTEMPTS <=? oe_delivery_attempts e + 1)%N
             then [event (msg_run msg) (teardown_abandoned msg reason) now] else [])
    /\ st_steps st' = st_steps st /\ st_runs st' = st_runs st.
Proof.
  intros Q He. unfold count_failure.
  erewrite call_bind_alone by (unfold record_outbox_failure; rewrite He; reflexivity).
  destruct (MAX_DELIVERY_ATTEMPTS <=? oe_delivery_attempts e + 1)%N eqn:Em.
  - unfold dead_letter_outbox. rewrite modify_alone, now_alone. unfold append, into. rewrite call_alone.
    unfold append_event, op_bind. rewrite take_failure_none by apply Q. cbn [fst snd map_err op_modify].
    eexists. split; [reflexivity|]. cbn. split_and!; try done. rewrite update_first_twice by done.
    eapply update_first_found; [exact He|]. unfold delivered. by rewrite Em.
  - eexists. split; [reflexivity|]. cbn. rewrite app_nil_r. split_and!; try done.
    eapply update_first_found; [exact He|]. unfold delivered. by rewrite Em.
Qed.

(** C39: A teardown is never forgotten, and never tried forever. One delivery of
    a teardown intent, with no other client in between, retires the message
    exactly when every attempt it names is gone: its unit's cancel was accepted
    and its absence confirmed, or it never had a unit and no launch still
    pending can create one. Otherwise the delivery counts as failed and the
    message stays to be claimed again; at the tenth failure it is retired as
    poison and the abandoned teardown is logged for the operator. Other
    messages, the Runs and their steps are untouched either way. *)
Theorem teardown_retired_iff_gone msg attempts e st now :
  quiet st -> msg_payload msg = PAttemptTeardown attempts ->
  List.find (named_entry (msg_id msg)) (st_outbox st) = Some e ->
  let gone := forallb (unit_gone (msg_run msg) st) attempts in
  exists st' logged, isolated process_attempt_teardown msg (alone st now) = (Ok tt, alone st' now)
    /\ st_outbox st' = update_first (named_entry (msg_id msg)) (delivered gone) (st_outbox st)
    /\ st_events st' = st_events st ++ logged
    /\ (logged = [] <-> gone = true \/ (oe_delivery_attempts e + 1 < MAX_DELIVERY_ATTEMPTS)%N)
    /\ st_steps st' = st_steps st /\ st_runs st' = st_runs st.
Proof.
  intros Q Hp He. cbv zeta. set (gone := forallb _ _).
  destruct (teardown_fold_alone (msg_run msg) TpGone attempts st now) as (p & E & G). fold gone in G. cbn in G.
  assert (forall st', process_attempt_teardown msg (alone st now) = (Ok tt, alone st' now) ->
    isolated process_attempt_teardown msg (alone st now) = (Ok tt, alone st' now)) as Hi.
  { intros st' H. unfold isolated, bind, attempt_. by rewrite H. }
  assert (process_attempt_teardown msg (alone st now) = settle_teardown msg p (alone st now)) as Es.
  { unfold process_attempt_teardown. rewrite Hp. unfold bind. by rewrite E. }
  destruct gone.
  - destruct p; try done. eexists. exists []. split; [apply Hi; rewrite Es; reflexivity|].
    cbn. rewrite app_nil_r. split_and!; try done. split; [by left|done].
  - destruct (count_failure_alone msg (teardown_reason p) st now e Q He) as (st' & E1 & H1 & H2 & H3 & H4).
    exists st'. eexists. split; [apply Hi; rewrite Es; by destruct p|]. split_and!; try done; [].
    destruct (N.leb_spec MAX_DELIVERY_ATTEMPTS (oe_delivery_attempts e + 1)) as [Hl|Hl].
    + split; [done|]. intros [|]; [done|lia].
    + split; [by right|done].
Qed.
End WithPorts.

(** A cancelled attempt whose unit the backend keeps reporting alive: nine
    failed deliveries stay claimable, the tenth abandons it. *)
Lemma teardown_retired_iff_gone_witness :
  let msg := mkMsg 0 "r" CANCEL_ATTEMPT (PAttemptTeardown [mkTeardown "s" "a1"]) "k" 1 in
  let st handles n := set_attempt_handles handles (set_outbox [mkEntry msg None None false n false] state_empty) in
  (exists st' logged, @isolated plain_codecs (@process_attempt_teardown prompt_executor plain_codecs) msg
       (alone (st {[("r", "s", "a1") := "unit"]} 3%N) 9) = (Ok tt, alone st' 9)
     /\ st_outbox st' = [mkEntry msg None None true 3 false] /\ st_events st' = logged /\ logged = [])
  /\ exists st' logged, @isolated plain_codecs (@process_attempt_teardown stubborn_executor plain_codecs) msg
       (alone (set_outbox (st_outbox (st ∅ 9%N) ++ [mkEntry (mkMsg 1 "r" LAUNCH_STEP PNull (launch_key "r" "s" "a1") 1) None None false 0 false]) (st ∅ 9%N)) 9)
       = (Ok tt, alone st' 9)
     /\ head (st_outbox st') = Some (mkEntry msg None None false 10 true) /\ st_events st' = logged /\ logged <> [].
Proof.
  cbn zeta. set (msg := mkMsg 0 _ _ _ _ _). split.
  - edestruct (@teardown_retired_iff_gone prompt_executor plain_codecs msg [mkTeardown "s" "a1"])
      as (st' & logged & E & H1 & H2 & H3 & _); [| | |exists st', logged; split; [exact E|]].
    + split; [split|]; reflexivity.
    + reflexivity.
    + reflexivity.
    + split; [rewrite H1; vm_compute; reflexivity|]. split; [exact H2|]. apply H3. left. vm_compute. reflexivity.
  - edestruct (@teardown_retired_iff_gone stubborn_executor plain_codecs msg [mkTeardown "s" "a1"])
      as (st' & logged & E & H1 & H2 & H3 & _); [| | |exists st', logged; split; [exact E|]].
    + split; [split|]; reflexivity.
    + reflexivity.
    + reflexivity.
    + split; [rewrite H1; vm_compute; reflexivity|]. split; [exact H2|]. intros ->.
      destruct H3 as [H3 _]. destruct (H3 eq_refl) as [H|H]; vm_compute in H; discriminate.
Defined.
