(* ===== verification/Tick.v ===== *)
(** * The driver's tick, and everything a server does

    [Scheduler::tick_all] (scarab-engine/src/scheduler.rs) composes the
    passes; a server runs ticks and serves API requests, any of them possibly
    dropped half way. *)

From S2P Require Import Prelude Text Values Cel Params Scopes Render Domain Store Outbox Commits Gates Program Transitions LaunchSpec Cancel Plan Rerun Verdicts Backend Scheduler Launch Drain.

Section WithPorts.
Context (cfg : Config) (owner : string) (oracle : option SnapshotOracle) {X : Executor} {K : Codecs}.

(** One full cycle for a run. *)
Definition tick (run : RunId) : Prog SchedulerError unit :=
  let* _ := reconcile_services_leg cfg owner run in
  let* _ := admit_leg cfg owner run in
  reconcile cfg owner oracle ;;;
  advance None run.

Definition tick_all : Prog SchedulerError (list (RunId * SchedulerError)) :=
  let* isolated := sweep_unfinished_creations cfg owner in
  let* runs := into SeDb (call active_runs) in
  retain_active runs ;;;
  let* t := fold_each (tick_lead cfg owner) (mkTick isolated ∅ ∅) runs in
  reconcile cfg owner oracle ;;;
  reconcile_cancellations cfg owner ;;;
  reconcile_supersessions cfg owner ;;;
  let* t := fold_each (tick_advance cfg) t runs in
  ret (tk_isolated t).

(** What a server can be doing. *)
Inductive ServerWork : Type :=
| WorkTickAll
| WorkTick (run : RunId)
| WorkRequest (r : ApiRequest).

Definition work (k : ServerWork) (w : World) : World :=
  match k with
  | WorkTickAll => served tick_all w
  | WorkTick run => served (tick run) w
  | WorkRequest r => serve r w
  end.

(** * Theorems *)

Lemma wb_tick run : well_behaved (tick run).
Proof. unfold tick. auto 14 with prog. Qed.
Lemma wb_tick_all : well_behaved tick_all.
Proof. unfold tick_all, retain_active. auto 24 with prog. Qed.

Lemma work_well_behaved k w :
  Forall calls_only (w_env w) ->
  rtc db_step (w_st w) (w_st (work k w)) /\ Forall calls_only (w_env (work k w)).
Proof.
  destruct k; [apply served_well_behaved, wb_tick_all|apply served_well_behaved, wb_tick|apply serve_well_behaved].
Qed.

Lemma works_well_behaved ks w :
  Forall calls_only (w_env w) ->
  rtc db_step (w_st w) (w_st (foldl (fun w k => work k w) w ks)).
Proof.
  revert w; induction ks as [|k ks IH]; intros w H; [apply rtc_refl|]. cbn [foldl].
  destruct (work_well_behaved k w H) as [H1 H2]. etrans; [exact H1|]. by apply IH.
Qed.

(** Whatever a server does is a sequence of store calls, so it keeps what any
    client keeps ([Store.store_history_safe]): let it run any sequence of ticks
    and API requests, whatever its executor, snapshot oracle and renderers
    answer, with other servers' store calls between any two of its own, and
    each piece of work possibly dropped at any call. *)
Lemma servers_keep_history ks w :
  wf (w_st w) -> unarmed (w_st w) -> Forall calls_only (w_env w) ->
  let w' := foldl (fun w k => work k w) w ks in
  wf (w_st w') /\ unarmed (w_st w') /\ extends (w_st w) (w_st w').
Proof. intros W U H. apply db_steps_ok; [by apply works_well_behaved|done|done]. Qed.
End WithPorts.

(** A two-step Run. The first tick is dropped while it holds the first launch;
    once its claim lapses, later ticks drive it and finish the Run, each step
    launched once. *)
Lemma servers_keep_history_witness :
  let spec := image_spec "alpine" in
  let s1 := (create_run "r" 0 state_empty).2 in
  let s2 := (create_step_run "r" "build" (Some spec) [] s1).2 in
  let st := (create_step_run "r" "test" (Some spec) ["build"] s2).2 in
  let idle := mkInterference id 1 0 false in
  let w := mkWorld st 1000 (repeat idle 32 ++ [mkInterference id 40000 0 true]) Kept memory_empty in
  let works n := foldl (fun w k => @work config_default "A" None prompt_executor plain_codecs k w) w
                   (repeat WorkTickAll n) in
  map (fun e => (msg_key (oe_msg e), oe_dispatched e)) (st_outbox (w_st (works 1)))
    = [("status:r:g0:Running", false); ("launch:r/build/a1", false)]
  /\ extends st (w_st (works 3))
  /\ st_runs (w_st (works 3)) !! "r" = Some RunSucceeded
  /\ map (fun e => (msg_key (oe_msg e), oe_dispatched e)) (st_outbox (w_st (works 3)))
       = [("status:r:g0:Running", false); ("launch:r/build/a1", true); ("launch:r/test/a1", true);
          ("status:r:g0:Succeeded", false); ("finished:r:g0:Succeeded", false)].
Proof.
  cbn zeta. set (s1 := (create_run _ _ _).2). set (s2 := (create_step_run "r" "build" _ _ _).2).
  set (st := (create_step_run _ _ _ _ _).2). set (w := mkWorld st _ _ _ _).
  split; [vm_compute; reflexivity|]. split; [|split; vm_compute; reflexivity].
  assert (rtc db_step state_empty st) as H.
  { eapply rtc_l; [apply (S_create_run state_empty)|].
    eapply rtc_l; [apply (S_create_step_run s1 "r" "build" (Some (image_spec "alpine")) []); vm_compute; reflexivity|].
    apply rtc_once. apply (S_create_step_run s2 "r" "test" (Some (image_spec "alpine")) ["build"]); vm_compute; reflexivity. }
  destruct (db_steps_ok _ _ H wf_empty) as (W & U & _); [split; reflexivity|].
  apply (@servers_keep_history config_default "A" None prompt_executor plain_codecs
    (repeat WorkTickAll 3) w W U).
  apply Forall_app. split; [|apply Forall_singleton; intros x; apply rtc_refl].
  apply Forall_forall. intros i Hi. apply list_elem_of_In in Hi.
  apply repeat_spec in Hi as ->. intros x. apply rtc_refl.
Defined.
