(* ===== verification/ForgeEvent.v ===== *)
(** * Forge events (scarab-forge/src/lib.rs)

    The events every trigger is normalized into, and what is read off one: its
    kind, its repository and ref, who caused it, the Run's headline, and the
    values that conditions ([context]) and templates ([template_fields]) may
    read. *)

From S2P Require Import Prelude Text Values Ir RunCreate.

(** ** Data *)

Record RepoRef := mkRepo { rp_owner : string; rp_name : string }.
#[export] Instance RepoRef_eq_dec : EqDecision RepoRef.
Proof. solve_decision. Defined.
Record Commit := mkCommit { co_sha : string; co_message : string }.

Inductive StatusState : Set := StPending | StSuccess | StFailure | StError.
#[export] Instance StatusState_eq_dec : EqDecision StatusState.
Proof. solve_decision. Defined.
Definition status_as_wire (s : StatusState) : string :=
  match s with StPending => "pending" | StSuccess => "success" | StFailure => "failure" | StError => "error" end.
Definition status_from_wire (s : string) : option StatusState :=
  if String.eqb s "pending" then Some StPending
  else if String.eqb s "success" then Some StSuccess
  else if String.eqb s "failure" then Some StFailure
  else if String.eqb s "error" then Some StError
  else None.
Definition status_is_terminal (s : StatusState) : bool := match s with StPending => false | _ => true end.

Inductive ForgeError : Type :=
| FeApi (m : string) | FeBadSignature | FeUnsupportedEvent (m : string) | FeMalformed (m : string)
| FeUnsupported (m : string) | FeNotFound (m : string) | FeRateLimited (retry_after_secs : option N) (detail : string).
Definition show_forge_error (e : ForgeError) : string :=
  match e with
  | FeApi m => "forge api error: " +:+ m
  | FeBadSignature => "webhook signature verification failed"
  | FeUnsupportedEvent m => "unsupported event: " +:+ m
  | FeMalformed m => "malformed webhook payload: " +:+ m
  | FeUnsupported m => "unsupported by this forge adapter: " +:+ m
  | FeNotFound m => "not found: " +:+ m
  | FeRateLimited _ detail => "forge rate limit reached: " +:+ detail
  end.

Inductive Event : Type :=
| EvPush (actor actor_id : string) (repo : RepoRef) (ref after message : string)
| EvPullRequest (actor actor_id : string) (repo : RepoRef) (number : N) (head title base : string) (fork : bool)
| EvTag (actor actor_id : string) (repo : RepoRef) (tag : string)
| EvRelease (actor actor_id : string) (repo : RepoRef) (tag : string)
| EvComment (actor actor_id : string) (repo : RepoRef) (issue : N) (body : string)
| EvCron (repo : RepoRef) (ref sha schedule : string)
| EvManual (actor : string) (repo : RepoRef) (ref sha : string) (reason : option string)
| EvApi (actor : string) (repo : RepoRef) (ref sha : string) (reason : option string)
| EvUpstream (repo : RepoRef) (run : string) (generation : N) (pipeline status ref sha actor : string) (chain : list string).

(** ** Names and headlines *)

Definition TRIGGER_TITLE_MAX : nat := 200.
(** The first [max] scalar values. *)
Definition truncate_on_char_boundary (s : string) (max : nat) : string := concat_chars (take max (chars s)).
Definition NUL : ascii := ascii_of_N 0.
Fixpoint without_nul (s : string) : string :=
  match s with
  | EmptyString => EmptyString
  | String c r => if Ascii.eqb c NUL then without_nul r else String c (without_nul r)
  end.
Definition cap_trigger_title (raw : string) : option string :=
  let raw := if has_char NUL raw then without_nul raw else raw in
  let trimmed := trim raw in
  if String.eqb trimmed "" then None else Some (truncate_on_char_boundary trimmed TRIGGER_TITLE_MAX).

Definition is_commit_sha (s : string) : bool :=
  (4 <=? String.length s) && (String.length s <=? 64) && all_bytes (fun b => is_digit b || in_range 97 102 b) s.

Definition is_unreserved (b : ascii) : bool := is_alphanumeric b || has_char b "-._~".
Definition upper_hex (n : N) : ascii := ascii_of_N (if (n <? 10)%N then 48 + n else 55 + n).
Fixpoint encode_url_component (s : string) : string :=
  match s with
  | EmptyString => EmptyString
  | String b r =>
      (if is_unreserved b then String b EmptyString
       else String "%" (String (upper_hex (byte_of b / 16)) (String (upper_hex (byte_of b mod 16)) EmptyString)))
      +:+ encode_url_component r
  end.

(** [lines().next().unwrap_or_default()]. *)
Definition LF : ascii := ascii_of_N 10.
Definition CR : ascii := ascii_of_N 13.
Fixpoint first_line (s : string) : string :=
  match s with
  | EmptyString => EmptyString
  | String c r =>
      if Ascii.eqb c LF then EmptyString
      else match r with
           | String d _ => if Ascii.eqb c CR && Ascii.eqb d LF then EmptyString else String c (first_line r)
           | EmptyString => String c EmptyString
           end
  end.

(** ** What is read off an event *)

Definition trigger_kind (e : Event) : TriggerKind :=
  match e with
  | EvPush _ _ _ _ _ _ => TkPush
  | EvPullRequest _ _ _ _ _ _ _ _ => TkPullRequest
  | EvTag _ _ _ _ => TkTag
  | EvRelease _ _ _ _ => TkRelease
  | EvComment _ _ _ _ _ => TkComment
  | EvCron _ _ _ _ => TkCron
  | EvManual _ _ _ _ _ => TkManual
  | EvApi _ _ _ _ _ => TkApi
  | EvUpstream _ _ _ _ _ _ _ _ _ => TkUpstream
  end.
Definition is_fork_pr (e : Event) : bool := match e with EvPullRequest _ _ _ _ _ _ _ fork => fork | _ => false end.
Definition protection_ref (e : Event) : option string :=
  match e with
  | EvPush _ _ _ ref _ _ => Some ref
  | EvTag _ _ _ tag | EvRelease _ _ _ tag => Some ("refs/tags/" +:+ tag)
  | EvPullRequest _ _ _ number _ _ _ _ => Some ("refs/pull/" +:+ pretty number +:+ "/head")
  | EvManual _ _ ref _ _ | EvApi _ _ ref _ _ => Some ref
  | EvCron _ ref _ _ => Some ref
  | EvUpstream _ _ _ _ _ ref _ _ _ => if String.eqb ref "" then None else Some ref
  | EvComment _ _ _ _ _ => None
  end.
Definition non_empty (s : string) : option string := if String.eqb s "" then None else Some s.
Definition actor (e : Event) : option string :=
  non_empty match e with
            | EvPush a _ _ _ _ _ | EvPullRequest a _ _ _ _ _ _ _ | EvTag a _ _ _ | EvRelease a _ _ _
            | EvComment a _ _ _ _ | EvManual a _ _ _ _ | EvApi a _ _ _ _ | EvUpstream _ _ _ _ _ _ _ a _ => a
            | EvCron _ _ _ _ => ""
            end.
Definition actor_id (e : Event) : option string :=
  non_empty match e with
            | EvPush _ i _ _ _ _ | EvPullRequest _ i _ _ _ _ _ _ | EvTag _ i _ _ | EvRelease _ i _ _
            | EvComment _ i _ _ _ => i
            | _ => ""
            end.
Definition trigger_title (e : Event) : option string :=
  match e with
  | EvUpstream _ _ _ pipeline status _ _ _ _ =>
      if String.eqb pipeline "" then None else cap_trigger_title (pipeline +:+ " " +:+ status)
  | EvPush _ _ _ _ _ message => cap_trigger_title (first_line message)
  | EvPullRequest _ _ _ _ _ title _ _ => cap_trigger_title title
  | EvManual _ _ _ _ reason | EvApi _ _ _ _ reason => cap_trigger_title (default "" reason)
  | EvCron _ _ _ schedule => cap_trigger_title schedule
  | _ => cap_trigger_title ""
  end.
Definition repo_of (e : Event) : RepoRef :=
  match e with
  | EvPush _ _ r _ _ _ | EvPullRequest _ _ r _ _ _ _ _ | EvTag _ _ r _ | EvRelease _ _ r _ | EvComment _ _ r _ _
  | EvManual _ r _ _ _ | EvApi _ r _ _ _ | EvUpstream r _ _ _ _ _ _ _ _ | EvCron r _ _ _ => r
  end.
(** Every kind carries a repository. *)
Definition repo (e : Event) : option RepoRef := Some (repo_of e).

(** [ref.strip_prefix("refs/heads/").unwrap_or(ref)]. *)
Definition strip_prefix (p s : string) : option string :=
  if starts_with p s then Some (drop_str (String.length p) s) else None.
Definition branch_of (ref : string) : string := default ref (strip_prefix "refs/heads/" ref).
Definition repo_json (r : RepoRef) : Json := JObj [("name", JStr (rp_name r)); ("owner", JStr (rp_owner r))].
Definition number_json (n : N) : Json := JInt (Z.of_N n).
Definition ref_fields (ref sha : string) : list (string * Json) :=
  [("ref", JStr ref); ("branch", JStr (branch_of ref)); ("sha", JStr sha)].
Definition base_fields (e : Event) : list (string * Json) :=
  [("kind", JStr (trigger_kind_wire (trigger_kind e))); ("repo", repo_json (repo_of e))].

Definition template_fields (e : Event) : gmap string Json :=
  list_to_map (base_fields e ++
    match e with
    | EvPush _ _ _ ref after _ => ref_fields ref after
    | EvPullRequest _ _ _ number head _ _ fork => [("number", number_json number); ("sha", JStr head); ("fork", JBool fork)]
    | EvTag _ _ _ tag => [("tag", JStr tag); ("ref", JStr ("refs/tags/" +:+ tag))]
    | EvRelease _ _ _ tag => [("tag", JStr tag)]
    | EvComment _ _ _ issue _ => [("issue", number_json issue)]
    | EvManual _ _ ref sha _ | EvApi _ _ ref sha _ | EvCron _ ref sha _ => ref_fields ref sha
    | EvUpstream _ run _ _ _ ref sha _ _ =>
        ("run", JStr run) :: (if String.eqb ref "" then [] else [("ref", JStr ref); ("branch", JStr (branch_of ref))])
        ++ [("sha", JStr sha)]
    end).

(** The object under [event]. *)
Definition context_fields (e : Event) : gmap string Json :=
  list_to_map (base_fields e ++
    match e with
    | EvPush _ _ _ ref after _ => ref_fields ref after
    | EvTag _ _ _ tag => [("tag", JStr tag); ("ref", JStr ("refs/tags/" +:+ tag))]
    | EvPullRequest _ _ _ number head _ _ fork => [("number", number_json number); ("sha", JStr head); ("fork", JBool fork)]
    | EvRelease _ _ _ tag => [("tag", JStr tag)]
    | EvComment _ _ _ issue body => [("issue", number_json issue); ("body", JStr body)]
    | EvCron _ ref sha schedule => ("schedule", JStr schedule) :: ref_fields ref sha
    | EvManual actor _ ref sha _ | EvApi actor _ ref sha _ => ("actor", JStr actor) :: ref_fields ref sha
    | EvUpstream _ run _ pipeline status ref sha _ chain =>
        [("run", JStr run); ("pipeline", JStr pipeline); ("status", JStr status)] ++ ref_fields ref sha
        ++ [("chain", strs_json chain)]
    end).
Definition context (e : Event) : Json := JObj [("event", json_object (context_fields e))].

(** * Theorems *)

(** ** What an outsider writes stays out of conditions and templates *)

(** The event without its headline: a commit message, a pull request's title
    and base branch, a dispatch's reason. *)
Definition without_headline (e : Event) : Event :=
  match e with
  | EvPush a i r ref after _ => EvPush a i r ref after ""
  | EvPullRequest a i r n head _ _ fork => EvPullRequest a i r n head "" "" fork
  | EvManual a r ref sha _ => EvManual a r ref sha None
  | EvApi a r ref sha _ => EvApi a r ref sha None
  | _ => e
  end.
(** What is left for a template: also without the actor, a comment's body, a
    schedule, and the Run it follows. *)
Definition for_template (e : Event) : Event :=
  match e with
  | EvPush _ _ r ref after _ => EvPush "" "" r ref after ""
  | EvPullRequest _ _ r n head _ _ fork => EvPullRequest "" "" r n head "" "" fork
  | EvTag _ _ r tag => EvTag "" "" r tag
  | EvRelease _ _ r tag => EvRelease "" "" r tag
  | EvComment _ _ r issue _ => EvComment "" "" r issue ""
  | EvCron r ref sha _ => EvCron r ref sha ""
  | EvManual _ r ref sha _ => EvManual "" r ref sha None
  | EvApi _ r ref sha _ => EvApi "" r ref sha None
  | EvUpstream r run _ _ _ ref sha _ _ => EvUpstream r run 0 "" "" ref sha "" []
  end.
Lemma context_without_headline e : context (without_headline e) = context e.
Proof. by destruct e. Qed.
Lemma template_fields_for_template e : template_fields (for_template e) = template_fields e.
Proof. by destruct e. Qed.

(** ** Headlines *)

Lemma chars_nonempty s ch : ch ∈ chars s -> ch <> "".
Proof.
  induction s as [|c s IH]; [by intros ?%elem_of_nil|]. cbn [chars].
  destruct (chars s) as [|[|d r] l]; [by intros ->%list_elem_of_singleton|by intros [->|Hin]%elem_of_cons; [|apply IH]|].
  destruct (is_continuation d).
  - intros [->|Hin]%elem_of_cons; [done|]. apply IH. by right.
  - intros [->|Hin]%elem_of_cons; [done|]. by apply IH.
Qed.
Lemma chars_take s n : chars (concat_chars (take n (chars s))) = take n (chars s).
Proof.
  revert n; induction s as [|c s IH]; intros [|n]; [done..|]. cbn [chars].
  destruct (chars s) as [|[|d r] l] eqn:E; [by destruct n|..].
  - by destruct (chars_nonempty s ""); [rewrite E; left|].
  - destruct (is_continuation d) eqn:Hd; cbn [take concat_chars].
    + specialize (IH (S n)). cbn [take concat_chars] in IH. rewrite (string_app_cons c). cbn [chars]. by rewrite IH, Hd.
    + rewrite string_app_cons, string_app_nil_l. cbn [chars]. rewrite IH. destruct n; cbn; [done|]. by rewrite Hd.
Qed.
Lemma has_char_concat c l : has_char c (concat_chars l) = existsb (has_char c) l.
Proof. induction l as [|x l IH]; [done|]. cbn. by rewrite has_char_app, IH. Qed.
Lemma existsb_drop_while {A} (p q : A -> bool) l : existsb q l = false -> existsb q (drop_while p l) = false.
Proof. induction l as [|x l IH]; [done|]. cbn. intros [Hx Hl]%orb_false_iff. destruct (p x); [auto|]. cbn. by rewrite Hx. Qed.
Lemma existsb_reverse {A} (q : A -> bool) l : existsb q (reverse l) = existsb q l.
Proof.
  apply eq_true_iff_eq. rewrite !existsb_exists. split; intros (x & Hin & Hq); exists x; (split; [|done]);
    apply list_elem_of_In; apply list_elem_of_In in Hin; by rewrite ?elem_of_reverse in *.
Qed.
Lemma has_char_trim c s : has_char c s = false -> has_char c (trim s) = false.
Proof.
  intros H. unfold trim. rewrite has_char_concat, existsb_reverse. apply existsb_drop_while.
  rewrite existsb_reverse. apply existsb_drop_while. by rewrite <- has_char_concat, concat_chars_chars.
Qed.
Lemma without_nul_none s : has_char NUL (without_nul s) = false.
Proof.
  induction s as [|c s IH]; [done|]. cbn [without_nul]. destruct (Ascii.eqb c NUL) eqn:E; [done|].
  cbn [has_char]. by rewrite Ascii.eqb_sym, E.
Qed.
Lemma existsb_take {A} (q : A -> bool) n l : existsb q l = false -> existsb q (take n l) = false.
Proof. revert n; induction l as [|x l IH]; intros [|n]; cbn; [done..|]. intros [Hx Hl]%orb_false_iff. by rewrite Hx, IH. Qed.

(** A headline fits the column: at most [TRIGGER_TITLE_MAX] scalar values, no
    NUL, and never empty. *)
Lemma trigger_title_stored e t : trigger_title e = Some t ->
  length (chars t) <= TRIGGER_TITLE_MAX /\ has_char NUL t = false /\ t <> "".
Proof.
  assert (forall raw, cap_trigger_title raw = Some t ->
            length (chars t) <= TRIGGER_TITLE_MAX /\ has_char NUL t = false /\ t <> "") as Hcap.
  { intros raw. unfold cap_trigger_title. cbv zeta.
    set (clean := if has_char NUL raw then without_nul raw else raw).
    assert (has_char NUL clean = false) as Hc.
    { unfold clean. destruct (has_char NUL raw) eqn:E; [apply without_nul_none|done]. }
    destruct (String.eqb (trim clean) "") eqn:E; [done|]. intros [= <-].
    unfold truncate_on_char_boundary. split_and!.
    - rewrite chars_take, length_take. lia.
    - rewrite has_char_concat. apply existsb_take. rewrite <- has_char_concat, concat_chars_chars. by apply has_char_trim.
    - destruct (chars (trim clean)) as [|ch l] eqn:Ech.
      + rewrite <- (concat_chars_chars (trim clean)), Ech in E. done.
      + cbn. destruct ch; [|by intros [=]]. by destruct (chars_nonempty (trim clean) ""); [rewrite Ech; left|]. }
  destruct e; cbn [trigger_title]; try apply Hcap. case_match; [done|apply Hcap].
Qed.

(** ** A component of a URL is read back as it was written *)

Definition hex_value (c : ascii) : option N :=
  if is_digit c then Some (byte_of c - 48)%N
  else if in_range 65 70 c then Some (byte_of c - 55)%N
  else None.
(** RFC 3986 percent-decoding. *)
Fixpoint decode_url_component (s : string) : option string :=
  match s with
  | EmptyString => Some EmptyString
  | String "%" (String h (String l r)) =>
      a ← hex_value h; b ← hex_value l; t ← decode_url_component r; Some (String (ascii_of_N (16 * a + b)) t)
  | String "%" _ => None
  | String c r => t ← decode_url_component r; Some (String c t)
  end.
Lemma hex_value_upper n : (n < 16)%N -> hex_value (upper_hex n) = Some n.
Proof.
  intros H. assert (n ∈ (N.of_nat <$> seq 0 16)) as Hin.
  { apply list_elem_of_fmap. exists (N.to_nat n). split; [lia|]. apply elem_of_seq. lia. }
  clear H. cbn in Hin. repeat (apply elem_of_cons in Hin as [->|Hin]; [done|]). by apply not_elem_of_nil in Hin.
Qed.
Lemma byte_bound c : (byte_of c < 256)%N.
Proof. apply N_ascii_bounded. Qed.
Lemma encode_decode s : decode_url_component (encode_url_component s) = Some s.
Proof.
  induction s as [|b s IH]; [done|]. cbn [encode_url_component].
  destruct (is_unreserved b) eqn:Hb.
  - rewrite string_app_cons, string_app_nil_l.
    assert (b <> "%"%char) as Hne by (intros ->; done).
    destruct b as [[] [] [] [] [] [] [] []]; try done; cbn; by rewrite IH.
  - rewrite !string_app_cons, string_app_nil_l. cbn [decode_url_component].
    pose proof (byte_bound b) as Hlt.
    rewrite (hex_value_upper (byte_of b / 16)) by (apply N.Div0.div_lt_upper_bound; lia).
    rewrite (hex_value_upper (byte_of b mod 16)) by by apply N.mod_lt.
    cbn [mbind option_bind]. rewrite IH. cbn [mbind option_bind]. rewrite <- N.div_mod by lia. unfold byte_of. by rewrite ascii_N_embedding.
Qed.
(** No byte of it ends a path segment or starts a query. *)
Lemma encode_plain s c : has_char c (encode_url_component s) = true -> is_unreserved c = true \/ c = "%"%char.
Proof.
  induction s as [|b s IH]; [done|]. cbn [encode_url_component]. rewrite has_char_app. intros [H|H]%orb_true_iff; [|auto].
  destruct (is_unreserved b) eqn:Hb; cbn [has_char] in H.
  - rewrite orb_false_r in H. apply Ascii.eqb_eq in H as ->. auto.
  - assert (forall n, (n < 16)%N -> is_unreserved (upper_hex n) = true) as Hhex.
    { intros n Hn. assert (n ∈ (N.of_nat <$> seq 0 16)) as Hin.
      { apply list_elem_of_fmap. exists (N.to_nat n). split; [lia|]. apply elem_of_seq. lia. }
      clear Hn H. cbn in Hin. repeat (apply elem_of_cons in Hin as [->|Hin]; [done|]). by apply not_elem_of_nil in Hin. }
    pose proof (byte_bound b).
    repeat (apply orb_true_iff in H as [H|H]); try done; apply Ascii.eqb_eq in H as ->; [by right|left; apply Hhex..].
    + apply N.Div0.div_lt_upper_bound. lia.
    + apply N.mod_lt. lia.
Qed.

(** ** A pull request's ref is never a branch *)

Lemma pull_request_not_a_branch a i r n head title base fork ref :
  protection_ref (EvPullRequest a i r n head title base fork) = Some ref -> starts_with "refs/heads/" ref = false.
Proof. cbn. by intros [= <-]. Qed.

Example headline_of_a_push :
  trigger_title (EvPush "ann" "7" (mkRepo "acme" "shop") "refs/heads/main" "abcd" (" fix it " +:+ String LF "body"))
  = Some "fix it".
Proof. reflexivity. Qed.
