(* ===== verification/Libraries.v ===== *)
(** * Action libraries (scarab-policy/src/library.rs, and the [LibraryStore] of
    scarab-testkit/src/libraries.rs)

    What an org has fetched, installed, yanked and trusted, one store method
    one operation, and the yank check that no Policy can lift. *)

From S2P Require Import Prelude Text Values Ir RunCreate PolicyStore.

(** ** Data *)

Record LibraryVersion := mkLibVersion {
  lv_org : string;
  lv_content_hash : string;
  lv_content : string;
  lv_source : string;
  lv_publisher : string;
  lv_name : string;
  lv_first_party : bool;
  lv_fetched_by : string;
  lv_fetched_at : Z;
}.
Record LibraryInstallation := mkInstallation {
  li_org : string;
  li_publisher : string;
  li_name : string;
  li_content_hash : string;
  li_source : string;
  li_first_party : bool;
  li_installed_by : string;
  li_installed_at : Z;
  li_step_up_ref : option string;
}.
Definition qualified_name (i : LibraryInstallation) : string := li_publisher i +:+ "/" +:+ li_name i.
Record NewInstallation := mkNewInstallation {
  ni_org : string;
  ni_publisher : string;
  ni_name : string;
  ni_content_hash : string;
  ni_installed_by : string;
  ni_installed_at : Z;
  ni_step_up_ref : option string;
}.
Inductive Replaces : Type := ReplacesNothing | ReplacesVersion (hash : string).
Record LibraryYank := mkYank { yk_org : string; yk_content_hash : string; yk_reason : string; yk_yanked_by : string; yk_yanked_at : Z }.
Inductive DefaultsState : Set := DsOffered | DsPending | DsInstalled | DsMissing.
#[export] Instance DefaultsState_eq_dec : EqDecision DefaultsState.
Proof. solve_decision. Defined.
Definition defaults_as_str (d : DefaultsState) : string :=
  match d with DsOffered => "offered" | DsPending => "pending" | DsInstalled => "installed" | DsMissing => "missing" end.
Definition defaults_parse (s : string) : option DefaultsState :=
  if String.eqb s "offered" then Some DsOffered
  else if String.eqb s "pending" then Some DsPending
  else if String.eqb s "installed" then Some DsInstalled
  else if String.eqb s "missing" then Some DsMissing
  else None.
Record MissingDefault := mkMissingDefault { md_publisher : string; md_name : string; md_error : string }.
Record OrgLibraryDefaults := mkDefaults {
  ld_org : string;
  ld_state : DefaultsState;
  ld_missing : list MissingDefault;
  ld_mirror : option string;
  ld_updated_at : Z;
}.
Record TrustedSource := mkTrusted { ts_org : string; ts_source : string; ts_trusted_by : string; ts_trusted_at : Z; ts_step_up_ref : option string }.
Inductive LibraryStoreError : Type := LeUnknownVersion (hash : string) | LeConflict | LeInvalid (m : string) | LeStore (m : string).
Definition show_library_error (e : LibraryStoreError) : string :=
  match e with
  | LeUnknownVersion h => "no version " +:+ h +:+ " has been fetched in this org"
  | LeConflict => "the installation changed since it was read"
  | LeInvalid m => "invalid: " +:+ m
  | LeStore m => "library store: " +:+ m
  end.
Record InstalledLibrary := mkInstalled { il_content : string; il_source : string }.

(** ** Trust and yanks, pure *)

Definition trust_key (source : string) : string :=
  match rsplit_once "@" source with
  | Some (path, commit) => if has_char "/" commit then source else path
  | None => source
  end.
Definition FIRST_PARTY_CLONE : string * string := ("thulasi-ram", "clone").
Definition is_first_party_clone (v : LibraryVersion) : bool :=
  lv_first_party v && bool_decide ((lv_publisher v, lv_name v) = FIRST_PARTY_CLONE).

Definition is_library_link (o : OriginEntry) : bool := bool_decide (og_kind o = OkLibrary).
Definition library_hashes (origin : list OriginEntry) : list string := map og_content_hash (List.filter is_library_link origin).
(** [content_hash.get(..12).unwrap_or(content_hash)]. *)
Definition short_hash (h : string) : string :=
  if (12 <=? String.length h)%nat then
    match drop_str 12 h with String c _ => if is_continuation c then h else take_str 12 h | EmptyString => take_str 12 h end
  else h.
Definition yank_message (what library content_hash reason : string) : string :=
  what +:+ " uses `lib:" +:+ library +:+ "` version " +:+ short_hash content_hash +:+ ", which an org admin yanked: " +:+ reason.
Definition push_message (out : list string) (m : string) : list string := if bool_decide (m ∈ out) then out else out ++ [m].
Definition yank_of (yanks : list LibraryYank) (hash : string) : option LibraryYank :=
  List.find (fun y => String.eqb (yk_content_hash y) hash) yanks.
Definition yank_refusals (what : string) (origin : list OriginEntry) (yanks : list LibraryYank) : list string :=
  foldl (fun out link =>
    match yank_of yanks (og_content_hash link) with
    | Some y => push_message out (yank_message what (og_name link) (yk_content_hash y) (yk_reason y))
    | None => out
    end) [] (List.filter is_library_link origin).

Definition valid_segment (s : string) : bool :=
  negb (String.eqb s "") && (String.length s <=? 100)%nat && negb (starts_with "." s || starts_with "-" s)
  && all_bytes (fun b => is_alphanumeric b || has_char b "._-") s.

(** ** The store *)

Record LibraryState := mkLibraries {
  lb_versions : gmap (string * string) LibraryVersion;
  lb_installations : gmap (string * string * string) NewInstallation;
  lb_yanks : gmap (string * string) LibraryYank;
  lb_installed_once : gset (string * string);
  lb_defaults : gmap string OrgLibraryDefaults;
  lb_trusted : gmap (string * string) TrustedSource;
}.
Definition no_libraries : LibraryState := mkLibraries ∅ ∅ ∅ ∅ ∅ ∅.
Definition set_versions x st := mkLibraries x (lb_installations st) (lb_yanks st) (lb_installed_once st) (lb_defaults st) (lb_trusted st).
Definition set_yanks x st := mkLibraries (lb_versions st) (lb_installations st) x (lb_installed_once st) (lb_defaults st) (lb_trusted st).
Definition set_installed i o st := mkLibraries (lb_versions st) i (lb_yanks st) o (lb_defaults st) (lb_trusted st).
Definition set_defaults_map x st := mkLibraries (lb_versions st) (lb_installations st) (lb_yanks st) (lb_installed_once st) x (lb_trusted st).
Definition set_trusted x st := mkLibraries (lb_versions st) (lb_installations st) (lb_yanks st) (lb_installed_once st) (lb_defaults st) x.

(** [None] is the panic of [self.versions[..]]. *)
Definition full (st : LibraryState) (i : NewInstallation) : option LibraryInstallation :=
  v ← lb_versions st !! (ni_org i, ni_content_hash i);
  Some (mkInstallation (ni_org i) (ni_publisher i) (ni_name i) (ni_content_hash i) (lv_source v) (lv_first_party v)
          (ni_installed_by i) (ni_installed_at i) (ni_step_up_ref i)).

(** One method: the answer and the state left; [None] a panic. *)
Definition LibOp (A : Type) : Type := LibraryState -> option (Result LibraryStoreError A) * LibraryState.
Definition answer {A} (a : A) : option (Result LibraryStoreError A) := Some (Ok a).

(** [entry(k).or_insert_with(v)]. *)
Definition or_insert {K V} `{Countable K} (k : K) (v : V) (m : gmap K V) : V * gmap K V :=
  match m !! k with Some old => (old, m) | None => (v, <[k := v]> m) end.

Definition put_version (v : LibraryVersion) : LibOp LibraryVersion := fun st =>
  let '(stored, m) := or_insert (lv_org v, lv_content_hash v) v (lb_versions st) in
  (answer stored, set_versions m st).
Definition version (org hash : string) : LibOp (option LibraryVersion) := fun st => (answer (lb_versions st !! (org, hash)), st).

Definition replaces_ok (r : Replaces) (current : option string) : bool :=
  match r with ReplacesNothing => bool_decide (current = None) | ReplacesVersion h => bool_decide (current = Some h) end.
Definition install (new : NewInstallation) (r : Replaces) : LibOp LibraryInstallation := fun st =>
  match lb_versions st !! (ni_org new, ni_content_hash new) with
  | None => (Some (Err (LeUnknownVersion (ni_content_hash new))), st)
  | Some _ =>
      let key := (ni_org new, ni_publisher new, ni_name new) in
      if negb (replaces_ok r (ni_content_hash <$> lb_installations st !! key)) then (Some (Err LeConflict), st)
      else
        let st' := set_installed (<[key := new]> (lb_installations st))
                     ({[(ni_org new, ni_content_hash new)]} ∪ lb_installed_once st) st in
        (Ok <$> full st' new, st')
  end.
Definition installation (org publisher name : string) : LibOp (option LibraryInstallation) := fun st =>
  (match lb_installations st !! (org, publisher, name) with
   | None => answer None
   | Some i => (fun f => Ok (Some f)) <$> full st i
   end, st).

(** A [BTreeMap] with such keys, in key order. *)
Definition key3_le (a b : string * string * string) : bool :=
  let '(x, y, z) := a in let '(x', y', z') := b in
  if String.eqb x x' then (if String.eqb y y' then String.leb z z' else String.leb y y') else String.leb x x'.
Definition key2_le (a b : string * string) : bool :=
  if String.eqb a.1 b.1 then String.leb a.2 b.2 else String.leb a.1 b.1.
Definition in_order2 {V} (m : gmap (string * string) V) : list ((string * string) * V) := sort_on fst key2_le (map_to_list m).
Definition installed_in (org : string) (st : LibraryState) : list NewInstallation :=
  map snd (List.filter (fun kv => String.eqb kv.1.1.1 org) (sort_on fst key3_le (map_to_list (lb_installations st)))).
Definition installations (org : string) : LibOp (list LibraryInstallation) := fun st =>
  (Ok <$> mapM (full st) (installed_in org st), st).
Definition compiled_as (st : LibraryState) (i : NewInstallation) : option (string * InstalledLibrary) :=
  v ← lb_versions st !! (ni_org i, ni_content_hash i);
  Some (ni_publisher i +:+ "/" +:+ ni_name i, mkInstalled (lv_content v) (lv_source v)).
(** [collect] into a map keeps the last of one key. *)
Definition installed_for_compile (org : string) : LibOp (gmap string InstalledLibrary) := fun st =>
  ((fun l => Ok (list_to_map (reverse l))) <$> mapM (compiled_as st) (installed_in org st), st).
Definition remove_installation (org publisher name : string) : LibOp (option LibraryInstallation) := fun st =>
  let key := (org, publisher, name) in
  let st' := set_installed (base.delete key (lb_installations st)) (lb_installed_once st) st in
  (match lb_installations st !! key with
   | None => answer None
   | Some i => (fun f => Ok (Some f)) <$> full st' i
   end, st').

Definition prunable (st : LibraryState) (org except : string) (k : string * string) : bool :=
  String.eqb k.1 org && negb (String.eqb k.2 except)
  && bool_decide (k ∉ lb_installed_once st) && bool_decide (lb_yanks st !! k = None).
(** Newest first. *)
Definition newer_le (a b : Z * string) : bool := if (a.1 =? b.1)%Z then String.leb b.2 a.2 else (b.1 <? a.1)%Z.
Definition doomed (org : string) (keep : nat) (except : string) (st : LibraryState) : list string :=
  map snd (drop keep (sort_on (fun x => x) newer_le
    (map (fun kv => (lv_fetched_at kv.2, kv.1.2))
       (List.filter (fun kv => prunable st org except kv.1) (map_to_list (lb_versions st)))))).
Definition prune_never_installed (org : string) (keep : nat) (except : string) : LibOp N := fun st =>
  let d := doomed org keep except st in
  (answer (N.of_nat (length d)), set_versions (foldr (fun h m => base.delete (org, h) m) (lb_versions st) d) st).

Definition yank (y : LibraryYank) : LibOp LibraryYank := fun st =>
  let key := (yk_org y, yk_content_hash y) in
  match lb_versions st !! key with
  | None => (Some (Err (LeUnknownVersion (yk_content_hash y))), st)
  | Some _ => let '(stored, m) := or_insert key y (lb_yanks st) in (answer stored, set_yanks m st)
  end.
Definition unyank (org hash : string) : LibOp (option LibraryYank) := fun st =>
  (answer (lb_yanks st !! (org, hash)), set_yanks (base.delete (org, hash) (lb_yanks st)) st).
Definition yanks_le (a b : LibraryYank) : bool :=
  if (yk_yanked_at a =? yk_yanked_at b)%Z then String.leb (yk_content_hash a) (yk_content_hash b)
  else (yk_yanked_at b <? yk_yanked_at a)%Z.
Definition yanks (org : string) : LibOp (list LibraryYank) := fun st =>
  (answer (sort_on (fun x => x) yanks_le (List.filter (fun y => String.eqb (yk_org y) org) (map snd (in_order2 (lb_yanks st))))), st).
Definition yanked_now (org : string) (hashes : list string) (st : LibraryState) : list LibraryYank :=
  List.filter (fun y => String.eqb (yk_org y) org && bool_decide (yk_content_hash y ∈ hashes)) (map snd (in_order2 (lb_yanks st))).
Definition yanked (org : string) (hashes : list string) : LibOp (list LibraryYank) := fun st => (answer (yanked_now org hashes st), st).

Definition claim_defaults (org : string) (at_ : Z) : LibOp bool := fun st =>
  match lb_defaults st !! org with
  | Some _ => (answer false, st)
  | None => (answer true, set_defaults_map (<[org := mkDefaults org DsPending [] None at_]> (lb_defaults st)) st)
  end.
Definition defaults (org : string) : LibOp (option OrgLibraryDefaults) := fun st => (answer (lb_defaults st !! org), st).
Definition set_defaults (d : OrgLibraryDefaults) : LibOp unit := fun st =>
  (answer tt, set_defaults_map (<[ld_org d := d]> (lb_defaults st)) st).
Definition trusted_sources (org : string) : LibOp (list TrustedSource) := fun st =>
  (answer (map snd (List.filter (fun kv => String.eqb kv.1.1 org) (in_order2 (lb_trusted st)))), st).
Definition trust_source (t : TrustedSource) : LibOp TrustedSource := fun st =>
  let '(stored, m) := or_insert (ts_org t, ts_source t) t (lb_trusted st) in (answer stored, set_trusted m st).
Definition untrust_source (org source : string) : LibOp (option TrustedSource) := fun st =>
  (answer (lb_trusted st !! (org, source)), set_trusted (base.delete (org, source) (lb_trusted st)) st).

(** ** The check a Run passes (scarab-server/src/libraries.rs) *)

Definition all_hashes (items : list (string * list OriginEntry)) : list string :=
  let hashes : gset string := list_to_set (mbind (fun i => library_hashes i.2) items) in
  merge_sort str_le (elements hashes).
(** Every message once, in order. *)
Definition yank_refusals_for {E} (yanked : list string -> Result E (list LibraryYank)) (items : list (string * list OriginEntry))
  : Result E (list string) :=
  match all_hashes items with
  | [] => Ok []
  | hashes =>
      y ← yanked hashes;
      match y with
      | [] => Ok []
      | _ => Ok (foldl (fun out i => foldl push_message out (yank_refusals i.1 i.2 y)) [] items)
      end
  end.

(** * Theorems *)

(** ** The store's invariant *)

Record lib_inv (st : LibraryState) : Prop := {
  li_keyed k v : lb_versions st !! k = Some v -> k = (lv_org v, lv_content_hash v);
  li_installed_keyed k i : lb_installations st !! k = Some i -> k = (ni_org i, ni_publisher i, ni_name i);
  li_installed_stored k i : lb_installations st !! k = Some i -> (ni_org i, ni_content_hash i) ∈ lb_installed_once st;
  li_once_stored k : k ∈ lb_installed_once st -> is_Some (lb_versions st !! k);
  li_yanked_stored k y : lb_yanks st !! k = Some y -> k = (yk_org y, yk_content_hash y) /\ is_Some (lb_versions st !! k);
  li_defaults_keyed org d : lb_defaults st !! org = Some d -> ld_org d = org;
}.

(** Every method of the port. *)
Inductive LibRequest : Type :=
| RqPut (v : LibraryVersion) | RqVersion (org hash : string)
| RqInstall (new : NewInstallation) (r : Replaces) | RqInstallation (org publisher name : string)
| RqInstallations (org : string) | RqForCompile (org : string) | RqRemove (org publisher name : string)
| RqPrune (org : string) (keep : nat) (except : string)
| RqYank (y : LibraryYank) | RqUnyank (org hash : string) | RqYanks (org : string) | RqYanked (org : string) (hashes : list string)
| RqClaim (org : string) (at_ : Z) | RqDefaults (org : string) | RqSetDefaults (d : OrgLibraryDefaults)
| RqTrusted (org : string) | RqTrust (t : TrustedSource) | RqUntrust (org source : string).

(** Whether the method answered (did not panic), and the state it left. *)
Definition outcome {A} (p : option (Result LibraryStoreError A) * LibraryState) : bool * LibraryState :=
  (bool_decide (is_Some p.1), p.2).
Definition serve (rq : LibRequest) (st : LibraryState) : bool * LibraryState :=
  match rq with
  | RqPut v => outcome (put_version v st)
  | RqVersion o h => outcome (version o h st)
  | RqInstall n r => outcome (install n r st)
  | RqInstallation o p n => outcome (installation o p n st)
  | RqInstallations o => outcome (installations o st)
  | RqForCompile o => outcome (installed_for_compile o st)
  | RqRemove o p n => outcome (remove_installation o p n st)
  | RqPrune o k e => outcome (prune_never_installed o k e st)
  | RqYank y => outcome (yank y st)
  | RqUnyank o h => outcome (unyank o h st)
  | RqYanks o => outcome (yanks o st)
  | RqYanked o h => outcome (yanked o h st)
  | RqClaim o a => outcome (claim_defaults o a st)
  | RqDefaults o => outcome (defaults o st)
  | RqSetDefaults d => outcome (set_defaults d st)
  | RqTrusted o => outcome (trusted_sources o st)
  | RqTrust t => outcome (trust_source t st)
  | RqUntrust o s => outcome (untrust_source o s st)
  end.
Definition served (rqs : list LibRequest) (st : LibraryState) : LibraryState := foldl (fun st rq => (serve rq st).2) st rqs.

Lemma elem_of_sort_on {A B} (key : A -> B) le l x : x ∈ sort_on key le l <-> x ∈ l.
Proof. unfold sort_on. by rewrite merge_sort_Permutation. Qed.
Lemma elem_of_list_filter {A} (p : A -> bool) l x : x ∈ List.filter p l <-> x ∈ l /\ p x = true.
Proof. rewrite !list_elem_of_In. apply filter_In. Qed.
Lemma elem_of_in_order2 {V} (m : gmap (string * string) V) k v : (k, v) ∈ in_order2 m <-> m !! k = Some v.
Proof. unfold in_order2. rewrite elem_of_sort_on. apply elem_of_map_to_list. Qed.

Lemma installed_in_stored st org i : lib_inv st -> i ∈ installed_in org st ->
  is_Some (lb_versions st !! (ni_org i, ni_content_hash i)).
Proof.
  intros Hi. unfold installed_in. rewrite list_elem_of_fmap. intros ([k i'] & -> & Hin).
  apply elem_of_list_filter in Hin as [Hin _]. apply elem_of_sort_on, elem_of_map_to_list in Hin.
  by eapply li_once_stored, li_installed_stored.
Qed.
Lemma full_some st i : is_Some (lb_versions st !! (ni_org i, ni_content_hash i)) -> is_Some (full st i).
Proof. unfold full. intros [v ->]. by eexists. Qed.
Lemma compiled_as_some st i : is_Some (lb_versions st !! (ni_org i, ni_content_hash i)) -> is_Some (compiled_as st i).
Proof. unfold compiled_as. intros [v ->]. by eexists. Qed.
Lemma mapM_some {A B} (f : A -> option B) l : (forall x, x ∈ l -> is_Some (f x)) -> is_Some (mapM f l).
Proof. intros H. apply mapM_is_Some_2, Forall_forall. done. Qed.

Lemma elem_of_doomed org keep except st h : h ∈ doomed org keep except st ->
  exists v, lb_versions st !! (org, h) = Some v /\ prunable st org except (org, h) = true.
Proof.
  unfold doomed. rewrite list_elem_of_fmap. intros ([at_ h'] & -> & Hin). cbn [snd].
  apply (subseteq_drop keep) in Hin. apply elem_of_sort_on, list_elem_of_fmap in Hin as ([[o h''] v] & [= -> ->] & Hin).
  apply elem_of_list_filter in Hin as [Hin Hp]. apply elem_of_map_to_list in Hin. cbn in Hp.
  assert (o = org) as ->. { unfold prunable in Hp. cbn in Hp. apply andb_true_iff in Hp as [[[?%String.eqb_eq _]%andb_true_iff _]%andb_true_iff _]. done. }
  by exists v.
Qed.
Lemma lookup_foldr_delete {V} (org : string) (hs : list string) (m : gmap (string * string) V) (k : string * string) :
  foldr (fun h m => base.delete (org, h) m) m hs !! k
  = if bool_decide (k.1 = org /\ k.2 ∈ hs) then None else m !! k.
Proof.
  induction hs as [|h hs IH]; cbn.
  - rewrite bool_decide_false; [done|]. intros [_ H]. by apply not_elem_of_nil in H.
  - destruct (decide (k = (org, h))) as [->|Hne].
    + rewrite lookup_delete_eq, bool_decide_true; [done|]. split; [done|by left].
    + rewrite lookup_delete_ne, IH by done. apply not_eq_sym in Hne.
      assert ((k.1 = org /\ k.2 ∈ h :: hs) <-> k.1 = org /\ k.2 ∈ hs) as Hiff.
      { rewrite elem_of_cons. destruct k as [o h']. cbn. split; [|tauto]. intros [-> [->|?]]; [done|done]. }
      by rewrite (bool_decide_ext _ _ Hiff).
Qed.
(** Pruning removes nothing that was installed, is yanked or is excepted. *)
Lemma lookup_pruned org keep except st k v :
  lb_versions (prune_never_installed org keep except st).2 !! k = Some v -> lb_versions st !! k = Some v.
Proof. cbn. rewrite lookup_foldr_delete. by case_bool_decide. Qed.
Lemma pruned_keeps org keep except st k :
  k ∈ lb_installed_once st \/ is_Some (lb_yanks st !! k) \/ k.2 = except ->
  lb_versions (prune_never_installed org keep except st).2 !! k = lb_versions st !! k.
Proof.
  intros H. cbn. rewrite lookup_foldr_delete. case_bool_decide as Hd; [|done]. destruct Hd as [Ho Hin].
  apply elem_of_doomed in Hin as (v & _ & Hp). destruct k as [o h]. cbn in *. subst o.
  unfold prunable in Hp. cbn in Hp. apply andb_true_iff in Hp as [[[_ Hx]%andb_true_iff Ho]%andb_true_iff Hy].
  apply bool_decide_eq_true in Ho, Hy. apply negb_true_iff, String.eqb_neq in Hx.
  destruct H as [?|[[y Hs]|?]]; congruence.
Qed.

Lemma or_insert_spec {K V} `{Countable K} (k : K) (v : V) (m : gmap K V) :
  (or_insert k v m).2 !! k = Some (or_insert k v m).1
  /\ (forall k' v', (or_insert k v m).2 !! k' = Some v' -> m !! k' = Some v' \/ k' = k /\ v' = v)
  /\ (forall k', is_Some (m !! k') -> (or_insert k v m).2 !! k' = m !! k').
Proof.
  unfold or_insert. destruct (m !! k) as [old|] eqn:E; cbn; (split_and!; [by rewrite ?lookup_insert_eq|..]); [auto|done| |].
  - intros k' v'. destruct (decide (k = k')) as [<-|]; [rewrite lookup_insert_eq|rewrite lookup_insert_ne by done]; naive_solver.
  - intros k' [x Hx]. rewrite lookup_insert_ne; [done|]. intros ->. congruence.
Qed.

(** [entry().or_insert_with] on the versions or yanks keeps the invariant. *)
Lemma inv_put_version v st : lib_inv st -> lib_inv (put_version v st).2.
Proof.
  intros Hi. unfold put_version.
  pose proof (or_insert_spec (lv_org v, lv_content_hash v) v (lb_versions st)) as (Hk & Hnew & Hkeep).
  destruct (or_insert _ v _) as [x m]. cbn in *. destruct Hi as [H1 H2 H3 H4 H5 H6]. split; cbn; [|done|done| | |done].
  - intros k w Hw. destruct (Hnew _ _ Hw) as [?|[-> ->]]; [by apply H1|done].
  - intros k Hin. rewrite Hkeep; by apply H4.
  - intros k y Hy. destruct (H5 _ _ Hy) as [-> Hs]. split; [done|]. by rewrite Hkeep.
Qed.
Lemma inv_yank y st : lib_inv st -> lib_inv (yank y st).2.
Proof.
  intros Hi. unfold yank. destruct (lb_versions st !! _) as [v|] eqn:E; [|done].
  pose proof (or_insert_spec (yk_org y, yk_content_hash y) y (lb_yanks st)) as (Hk & Hnew & Hkeep).
  destruct (or_insert _ y _) as [x m]. cbn in *. destruct Hi as [H1 H2 H3 H4 H5 H6]. split; cbn; [done..| |done].
  intros k w Hw. destruct (Hnew _ _ Hw) as [?|[-> ->]]; [by apply H5|]. by split; [|rewrite E].
Qed.
Lemma inv_install new r st : lib_inv st -> lib_inv (install new r st).2.
Proof.
  intros Hi. unfold install. destruct (lb_versions st !! _) as [v|] eqn:E; [|done].
  destruct (negb _); [done|]. cbn. destruct Hi as [H1 H2 H3 H4 H5 H6]. split; cbn; [done| | | |done..].
  - intros k i Hk. destruct (decide ((ni_org new, ni_publisher new, ni_name new) = k)) as [<-|];
      [rewrite lookup_insert_eq in Hk|rewrite lookup_insert_ne in Hk by done]; [by simplify_eq|by apply H2].
  - intros k i Hk. apply elem_of_union. destruct (decide ((ni_org new, ni_publisher new, ni_name new) = k)) as [<-|];
      [rewrite lookup_insert_eq in Hk|rewrite lookup_insert_ne in Hk by done]; simplify_eq; [left; set_solver|right; by eapply H3].
  - intros k [->%elem_of_singleton|Hin]%elem_of_union; [by rewrite E|by apply H4].
Qed.
Lemma inv_serve rq st : lib_inv st -> lib_inv (serve rq st).2.
Proof.
  intros Hi. destruct rq; cbn; try done.
  - by apply inv_put_version.
  - by apply inv_install.
  - unfold remove_installation. destruct Hi as [H1 H2 H3 H4 H5 H6]. split; cbn; [done| | |done..];
      intros k i [_ Hk]%lookup_delete_Some; [by apply H2|by eapply H3].
  - assert (forall k, k ∈ lb_installed_once st \/ is_Some (lb_yanks st !! k) ->
      lb_versions (prune_never_installed org keep except st).2 !! k = lb_versions st !! k) as Hk.
    { intros k H. apply pruned_keeps. naive_solver. }
    pose proof (lookup_pruned org keep except st) as Hp. cbn in Hk, Hp.
    destruct Hi as [H1 H2 H3 H4 H5 H6]. split; cbn; [|done..| | |done].
    + intros k v Hv. by eapply H1, Hp.
    + intros k Hin. rewrite Hk by auto. by apply H4.
    + intros k y Hy. destruct (H5 _ _ Hy) as [-> Hs]. split; [done|]. rewrite Hk by eauto. done.
  - by apply inv_yank.
  - destruct Hi as [H1 H2 H3 H4 H5 H6]. split; cbn; [done..| |done]. intros k y [_ Hk]%lookup_delete_Some. by apply H5.
  - unfold claim_defaults. destruct (lb_defaults st !! org) eqn:E; [done|]. cbn.
    destruct Hi as [H1 H2 H3 H4 H5 H6]. split; cbn; [done..|]. intros o d. rewrite lookup_insert_Some. naive_solver.
  - destruct Hi as [H1 H2 H3 H4 H5 H6]. split; cbn; [done..|]. intros o d'. rewrite lookup_insert_Some. naive_solver.
  - unfold trust_source. destruct (or_insert _ t _). cbn. by destruct Hi.
  - by destruct Hi.
Qed.
Lemma inv_empty : lib_inv no_libraries.
Proof. split; cbn; set_solver. Qed.
Lemma inv_served rqs st : lib_inv st -> lib_inv (served rqs st).
Proof. revert st; induction rqs as [|rq rqs IH]; [done|]. intros st Hi. by apply IH, inv_serve. Qed.

(** ** No method panics *)

Lemma serve_answers rq st : lib_inv st -> (serve rq st).1 = true.
Proof.
  intros Hi. pose proof (installed_in_stored st) as Hs.
  destruct rq; cbn; try done; apply bool_decide_eq_true.
  - unfold put_version. by destruct (or_insert _ _ _).
  - unfold install. destruct (lb_versions st !! _) as [v|] eqn:E; [|done]. destruct (negb _); [done|].
    apply fmap_is_Some. unfold full. cbn. by rewrite E.
  - unfold installation. cbn. destruct (lb_installations st !! _) as [i|] eqn:E; [|done].
    apply fmap_is_Some, full_some. by eapply li_once_stored, li_installed_stored.
  - unfold installations. cbn. apply fmap_is_Some, mapM_some. intros i Hin. by eapply full_some, Hs.
  - unfold installed_for_compile. cbn. apply fmap_is_Some, mapM_some. intros i Hin. by eapply compiled_as_some, Hs.
  - unfold remove_installation. cbn. destruct (lb_installations st !! _) as [i|] eqn:E; [|done].
    apply fmap_is_Some, full_some. cbn. by eapply li_once_stored, li_installed_stored.
  - unfold yank. destruct (lb_versions st !! _); [|done]. by destruct (or_insert _ _ _).
  - unfold claim_defaults. by destruct (lb_defaults st !! org).
  - unfold trust_source. by destruct (or_insert _ _ _).
Qed.
(** After any requests, every method answers: no installation refers to a
    version that is not stored. *)
Theorem library_store_total rqs rq : (serve rq (served rqs no_libraries)).1 = true.
Proof. apply serve_answers, inv_served, inv_empty. Qed.

(** ** What a Run used stays readable *)

Lemma serve_keeps_used rq st k : lib_inv st -> k ∈ lb_installed_once st ->
  k ∈ lb_installed_once (serve rq st).2 /\ lb_versions (serve rq st).2 !! k = lb_versions st !! k.
Proof.
  intros Hi Hk. pose proof (li_once_stored _ Hi _ Hk) as [v Hv].
  destruct rq; cbn; try done.
  - unfold put_version. pose proof (or_insert_spec (lv_org v0, lv_content_hash v0) v0 (lb_versions st)) as (_ & _ & Hkeep).
    destruct (or_insert _ _ _). cbn in *. split; [done|]. apply Hkeep. by eexists.
  - unfold install. destruct (lb_versions st !! (_, _)); [|done]. destruct (negb _); [done|]. cbn. split; [set_solver|done].
  - split; [done|]. apply (pruned_keeps org keep except). auto.
  - unfold yank. destruct (lb_versions st !! (_, _)); [|done]. by destruct (or_insert _ _ _).
  - unfold claim_defaults. by destruct (lb_defaults st !! org).
  - unfold trust_source. by destruct (or_insert _ _ _).
Qed.
(** A version that was ever installed keeps its record and its content. *)
Theorem used_version_kept rqs st k : lib_inv st -> k ∈ lb_installed_once st ->
  lb_versions (served rqs st) !! k = lb_versions st !! k.
Proof.
  intros Hi Hk. enough (k ∈ lb_installed_once (served rqs st) /\ lb_versions (served rqs st) !! k = lb_versions st !! k) by tauto.
  revert st Hi Hk. induction rqs as [|rq rqs IH]; [done|]. intros st Hi Hk. cbn.
  destruct (serve_keeps_used rq st k Hi Hk) as [Hk' <-]. apply IH; [by apply inv_serve|done].
Qed.

(** ** One caller installs an org's defaults *)

Lemma serve_keeps_defaults rq st org : is_Some (lb_defaults st !! org) -> is_Some (lb_defaults (serve rq st).2 !! org).
Proof.
  intros H. destruct rq; cbn; try done.
  - unfold put_version. by destruct (or_insert _ _ _).
  - unfold install. destruct (lb_versions st !! (_, _)); [|done]. by destruct (negb _).
  - unfold yank. destruct (lb_versions st !! (_, _)); [|done]. by destruct (or_insert _ _ _).
  - unfold claim_defaults. destruct (lb_defaults st !! org0) eqn:E; [done|]. cbn.
    destruct (decide (org0 = org)) as [->|]; by rewrite ?lookup_insert_eq, ?lookup_insert_ne by done.
  - destruct (decide (ld_org d = org)) as [->|]; by rewrite ?lookup_insert_eq, ?lookup_insert_ne by done.
  - unfold trust_source. by destruct (or_insert _ _ _).
Qed.
Theorem defaults_claimed_once rqs org at_ at' st : (claim_defaults org at_ st).1 = answer true ->
  (claim_defaults org at' (served rqs (claim_defaults org at_ st).2)).1 = answer false.
Proof.
  intros _. assert (is_Some (lb_defaults (claim_defaults org at_ st).2 !! org)) as Hd.
  { unfold claim_defaults. destruct (lb_defaults st !! org) eqn:E; cbn; [by rewrite E|by rewrite lookup_insert_eq]. }
  revert Hd. generalize (claim_defaults org at_ st).2 as s.
  induction rqs as [|rq rqs IH]; cbn; intros s Hd.
  - unfold claim_defaults. by destruct Hd as [d ->].
  - apply IH. by apply serve_keeps_defaults.
Qed.

(** ** The yank check *)

Lemma push_message_nil out m : push_message out m <> [].
Proof. unfold push_message. case_bool_decide as H; [destruct out; [by apply not_elem_of_nil in H|done]|by destruct out]. Qed.
Lemma foldl_push_grows l out : foldl push_message out l = [] -> out = [] /\ l = [].
Proof.
  revert out; induction l as [|m l IH]; [done|]. cbn. intros out H. apply IH in H as [H _]. by apply push_message_nil in H.
Qed.
Lemma yank_refusals_nil what origin yanks :
  yank_refusals what origin yanks = [] <-> forall o, o ∈ origin -> is_library_link o = true -> yank_of yanks (og_content_hash o) = None.
Proof.
  unfold yank_refusals. set (links := List.filter is_library_link origin).
  transitivity (forall o, o ∈ links -> yank_of yanks (og_content_hash o) = None).
  2:{ unfold links. setoid_rewrite elem_of_list_filter. naive_solver. }
  set (f := fun (out : list string) link => _).
  assert (forall l out, foldl f out l = [] <-> out = [] /\ forall o, o ∈ l -> yank_of yanks (og_content_hash o) = None) as H.
  { induction l as [|o l IH]; intros out; cbn.
    - split; [|tauto]. intros ->. split; [done|]. by intros o ?%elem_of_nil.
    - rewrite IH. unfold f at 1. destruct (yank_of yanks (og_content_hash o)) eqn:E.
      + split; [intros [H _]; by apply push_message_nil in H|]. intros [_ H]. rewrite H in E; [done|by left].
      + split; intros [-> H]; (split; [done|]); intros o' Hin; [apply elem_of_cons in Hin as [->|]; auto|apply H; by right]. }
  rewrite H. tauto.
Qed.
Lemma yank_of_now st org hashes h : lib_inv st -> h ∈ hashes ->
  yank_of (yanked_now org hashes st) h = None <-> lb_yanks st !! (org, h) = None.
Proof.
  intros Hi Hh. unfold yank_of. split.
  - intros Hf. apply eq_None_not_Some. intros [y Hy]. pose proof (proj1 (li_yanked_stored _ Hi _ _ Hy)) as [= -> ->].
    assert (y ∈ yanked_now (yk_org y) hashes st) as Hin.
    { unfold yanked_now. apply elem_of_list_filter. split.
      - apply list_elem_of_fmap. exists ((yk_org y, yk_content_hash y), y). split; [done|]. by apply elem_of_in_order2.
      - rewrite String.eqb_refl. cbn. by apply bool_decide_eq_true. }
    apply list_elem_of_In in Hin. pose proof (find_none _ _ Hf _ Hin) as E. cbn in E. by rewrite String.eqb_refl in E.
  - intros Hn. destruct (List.find _ _) as [y|] eqn:Hf; [|done]. apply find_some in Hf as [Hin Hy%String.eqb_eq].
    apply list_elem_of_In in Hin. unfold yanked_now in Hin. apply elem_of_list_filter in Hin as [Hin Hp].
    apply andb_true_iff in Hp as [Ho%String.eqb_eq _].
    apply list_elem_of_fmap in Hin as ([k y'] & -> & Hin). apply elem_of_in_order2 in Hin.
    pose proof (proj1 (li_yanked_stored _ Hi _ _ Hin)) as ->. cbn in *. congruence.
Qed.
Lemma elem_of_all_hashes items h :
  h ∈ all_hashes items <-> exists i o, i ∈ items /\ o ∈ i.2 /\ is_library_link o = true /\ og_content_hash o = h.
Proof.
  unfold all_hashes. rewrite merge_sort_Permutation, elem_of_elements, elem_of_list_to_set, list_elem_of_bind. unfold library_hashes.
  split.
  - intros (i & Hin & Hi). apply list_elem_of_fmap in Hin as (o & -> & Ho). apply elem_of_list_filter in Ho as [Ho Hl]. by exists i, o.
  - intros (i & o & Hi & Ho & Hl & <-). exists i. split; [|done]. apply list_elem_of_fmap. exists o. split; [done|]. by apply elem_of_list_filter.
Qed.

(** A Run is let past the check exactly when no link of any Step's origin is
    to a version yanked in its org. *)
Theorem yank_check_exact st org items (Hi : lib_inv st) :
  yank_refusals_for (E := string) (fun hashes => Ok (yanked_now org hashes st)) items = Ok []
  <-> (forall i o, i ∈ items -> o ∈ i.2 -> is_library_link o = true -> lb_yanks st !! (org, og_content_hash o) = None).
Proof.
  unfold yank_refusals_for. pose proof (elem_of_all_hashes items) as Hh. destruct (all_hashes items) as [|h0 hs].
  - split; [|done]. intros _ i o Hin Ho Hl. exfalso. apply (not_elem_of_nil (og_content_hash o)), Hh. by exists i, o.
  - set (hashes := h0 :: hs) in *. cbn [mbind result_bind].
    pose proof (fun h => yank_of_now st org hashes h Hi) as Hy. destruct (yanked_now org hashes st) as [|y0 ys].
    + split; [|done]. intros _ i o Hin Ho Hl. apply Hy; [|done]. apply Hh. by exists i, o.
    + set (ys' := y0 :: ys) in *.
      assert (forall l out, foldl (fun out i => foldl push_message out (yank_refusals i.1 i.2 ys')) out l = []
                <-> out = [] /\ forall i, i ∈ l -> yank_refusals i.1 i.2 ys' = []) as Hf.
      { induction l as [|i l IH]; intros out; cbn.
        - split; [|tauto]. intros ->. split; [done|]. by intros i ?%elem_of_nil.
        - rewrite IH. split.
          + intros [H1%foldl_push_grows H2]. split; [tauto|]. intros i' [->|]%elem_of_cons; [tauto|auto].
          + intros [-> H]. rewrite (H i) by by left. split; [done|]. intros i' ?. apply H. by right. }
      assert (forall l : list string, Ok (E := string) l = Ok [] <-> l = []) as -> by (intros; split; congruence).
      rewrite Hf. split.
      * intros [_ H] i o Hin Ho Hl. apply Hy; [apply Hh; by exists i, o|]. by apply (yank_refusals_nil i.1 i.2); [apply H|..].
      * intros H. split; [done|]. intros i Hin. apply yank_refusals_nil. intros o Ho Hl. apply Hy; [apply Hh; by exists i, o|]. by apply (H i o).
Qed.
