(* ===== verification/ForgeToken.v ===== *)
(** * Forge credentials for Steps (scarab-server/src/forge_token.rs)

    Which Steps may hold a forge credential is decided when the Run is created
    ([forge_token_refusals]) and again at every launch ([launch], the
    [ForgeCredentialExecutor] decorator), which mints the credential, hands it
    to the inner executor, and revokes it when its Attempt ends. *)

From S2P Require Import Prelude Text Values Domain Store Transitions Backend Cel Params Scopes Ir RunCreate ForgeEvent Libraries.

(** ** Clone URLs *)

Inductive ForgeKind : Set := GitHub | Forgejo.
#[export] Instance ForgeKind_eq_dec : EqDecision ForgeKind.
Proof. solve_decision. Defined.
Definition forge_kind_as_str (k : ForgeKind) : string := match k with GitHub => "github" | Forgejo => "forgejo" end.
Definition forge_kind_parse (s : string) : option ForgeKind :=
  if String.eqb s "github" then Some GitHub else if String.eqb s "forgejo" then Some Forgejo else None.

Definition ends_with (p s : string) : bool :=
  (String.length p <=? String.length s)%nat && String.eqb (drop_str (String.length s - String.length p) s) p.
(** [s.trim_end_matches(p)], [p] not empty: each turn drops at least a byte. *)
Fixpoint trim_end_turns (fuel : nat) (p s : string) : string :=
  match fuel with
  | 0 => s
  | S n => if ends_with p s then trim_end_turns n p (take_str (String.length s - String.length p) s) else s
  end.
Definition trim_end_matches (p s : string) : string := trim_end_turns (S (String.length s)) p s.

Definition clone_url (kind : ForgeKind) (base_url : string) (repo : RepoRef) : string :=
  let host :=
    match kind with
    | GitHub =>
        if String.eqb (trim_end_matches "/" base_url) "https://api.github.com" then "https://github.com"
        else trim_end_matches "/api/v3" (trim_end_matches "/" base_url)
    | Forgejo => trim_end_matches "/" base_url
    end in
  host +:+ "/" +:+ rp_owner repo +:+ "/" +:+ rp_name repo +:+ ".git".

(** [connections] is absent, or what resolving the repository answered: its
    connection's kind and base URL. *)
Definition repo_clone_url (event : Event) (connections : option (Result string (option (ForgeKind * string)))) : Result string (option string) :=
  match repo event with
  | None => Ok None
  | Some r =>
      resolved ← match connections with
                 | Some c => map_err (fun e => "forge connections: " +:+ e) c
                 | None => Ok None
                 end;
      Ok (Some (match resolved with
                | Some (kind, base_url) => clone_url kind base_url r
                | None => clone_url GitHub "https://api.github.com" r
                end))
  end.
Definition https (url : string) : bool := starts_with "https://" url.

(** ** The [event] values a Run's templates read (scarab-pipeline/src/event.rs) *)

Section WithPorts.
Context {C : Cel} {T : CharTables}.

Definition with_templates (b : string * Binding) : option (string * string) :=
  match bg_value b.2 with BvTemplate t => Some ("with." +:+ b.1, t) | _ => None end.
Definition indexed_texts (label : nat -> string) (l : list string) : list (string * string) := imap (fun i t => (label i, t)) l.
Definition step_templates (s : StepSpec) : list (string * string) :=
  [("image", st_image s)]
  ++ indexed_texts (fun i => "command[" +:+ pretty i +:+ "]") (st_command s)
  ++ indexed_texts (fun i => "env[" +:+ pretty i +:+ "][1]") (map snd (st_env s))
  ++ match st_scope s with
     | Some scope =>
         mbind (fun sc => match sc_inputs sc with SiBound bindings => omap with_templates (btree_list bindings) | SiRun => [] end) (chain scope)
     | None => []
     end.
Definition event_reads (ir : PipelineIr) : gset string :=
  list_to_set (mbind (fun s => mbind (fun t => (template_reads t.2).1) (step_templates s)) (ir_steps ir)
               ++ match ir_concurrency ir with Some c => (template_reads (cy_group c)).1 | None => [] end).

Definition event_facts (event : Event) (clone_url : option string) (ir : PipelineIr) : Result (list string) (gmap string Json) :=
  let fields := template_fields event in
  let fields :=
    match clone_url, fields !! "repo" with
    | Some url, Some (JObj r) => <["repo" := JObj (object_insert r "clone_url" (JStr url))]> fields
    | _, _ => fields
    end in
  facts fields (trigger_kind_wire (trigger_kind event)) (event_reads ir).
End WithPorts.

(** ** Run creation *)

(** The library store's answers to one admission or launch. *)
Record LibraryPort := mkLibraryPort {
  lp_version : string -> Result LibraryStoreError (option LibraryVersion);
  lp_trusted_sources : Result LibraryStoreError (list TrustedSource);
}.
Definition library_failed (e : LibraryStoreError) : string := "library store: " +:+ show_library_error e.
Definition trusted_now (l : LibraryPort) : Result string (list string) :=
  map_err library_failed (map ts_source <$> lp_trusted_sources l).
Definition trusts (sources : list string) (v : LibraryVersion) : bool :=
  is_first_party_clone v || bool_decide (trust_key (lv_source v) ∈ sources).
Definition library_trusted (l : LibraryPort) (hash : string) (sources : list string) : Result string bool :=
  v ← map_err library_failed (lp_version l hash);
  Ok (match v with Some v => trusts sources v | None => false end).
Definition trusted_library_step (s : StepSpec) (libraries : option LibraryPort) (sources : list string) : Result string (option string) :=
  match last (st_origin s) with
  | None => Ok None
  | Some link =>
      if negb (is_library_link link) then Ok None
      else match libraries with
           | None => Ok None
           | Some l => (t ← library_trusted l (og_content_hash link) sources; Ok (if (t : bool) then Some (og_content_hash link) else None))
           end
  end.

Record ForgeTokenAdmission := mkTokenAdmission { ta_refusals : list string; ta_trusted_only : gmap string string }.
Definition no_tokens : ForgeTokenAdmission := mkTokenAdmission [] ∅.
Definition refuse_token (m : string) (out : ForgeTokenAdmission) : ForgeTokenAdmission := mkTokenAdmission (ta_refusals out ++ [m]) (ta_trusted_only out).
Definition trust_only (id hash : string) (out : ForgeTokenAdmission) : ForgeTokenAdmission := mkTokenAdmission (ta_refusals out) (<[id := hash]> (ta_trusted_only out)).

Definition step_says (s : StepSpec) (rest : string) : string := "step `" +:+ st_id s +:+ "` asks for " +:+ rest.
Definition plain_http_refusal (s : StepSpec) (url : string) : string :=
  step_says s ("`forge_token`, and this repository's clone URL `" +:+ url +:+ "` is not `https://`; a forge token is never sent over plain HTTP, "
               +:+ "so set the forge connection's base URL to `https://`").
Definition long_lived_write_refusal (s : StepSpec) : string :=
  step_says s ("`forge_token: write`, and this repository's forge connection hands out one long-lived token, which cannot be narrowed to a "
               +:+ "write token for one Run; only a forge that mints tokens (GitHub App mode) can give one").
Definition untrusted_refusal (s : StepSpec) : string :=
  step_says s ("`forge_token`, and this repository's forge connection hands out one long-lived token, which only a Step from a library the org "
               +:+ "trusts may receive (the first-party `lib:thulasi-ram/clone`, or a source an org admin trusted); a repository's own Steps never receive it").
Definition unrestricted_write_refusal (s : StepSpec) : string :=
  step_says s ("`forge_token: write`, which is allowed only in a Run governed by an Environment that restricts the refs it deploys from "
               +:+ "(non-empty allowed refs)").

(** The trusted library a Step must be from: [Some None] where the forge
    mints, [None] a refusal. *)
Definition token_library (libraries : option LibraryPort) (mints : bool) (sources : list string) (s : StepSpec)
  : Result string (option (option string)) :=
  if mints then Ok (Some None) else fmap (M := Result string) (fmap Some) (trusted_library_step s libraries sources).
Definition admit_token_step (libraries : option LibraryPort) (mints fork restricts_refs : bool) (sources : list string)
    (out : ForgeTokenAdmission) (s : StepSpec) : Result string ForgeTokenAdmission :=
  let asked := default FtRead (st_forge_token s) in
  let access := if fork then FtRead else asked in
  let write := bool_decide (access = FtWrite) in
  if write && negb mints then Ok (refuse_token (long_lived_write_refusal s) out)
  else
    trusted ← token_library libraries mints sources s;
    match trusted with
    | None => Ok (refuse_token (untrusted_refusal s) out)
    | Some hash =>
        let out := match hash with Some h => trust_only (st_id s) h out | None => out end in
        Ok (if write && negb restricts_refs then refuse_token (unrestricted_write_refusal s) out else out)
    end.
Fixpoint admit_token_steps (libraries : option LibraryPort) (mints fork restricts_refs : bool) (sources : list string)
    (steps : list StepSpec) (out : ForgeTokenAdmission) : Result string ForgeTokenAdmission :=
  match steps with
  | [] => Ok out
  | s :: l =>
      out ← admit_token_step libraries mints fork restricts_refs sources out s;
      admit_token_steps libraries mints fork restricts_refs sources l out
  end.
(** [mints_repo_tokens(repo).await.unwrap_or(false)]. *)
Definition mints_now (answer : Result ForgeError bool) : bool := match answer with Ok b => b | Err _ => false end.
Definition asking_steps (ir : PipelineIr) : list StepSpec := List.filter (fun s => is_some (st_forge_token s)) (ir_steps ir).
Definition forge_token_refusals (mints_answer : Result ForgeError bool) (libraries : option LibraryPort) (clone_url : option string)
    (ir : PipelineIr) (fork restricts_refs : bool) : Result string ForgeTokenAdmission :=
  match asking_steps ir with
  | [] => Ok no_tokens
  | asking =>
      match (match clone_url with Some url => if https url then None else Some url | None => None end) with
      | Some url => Ok (mkTokenAdmission (map (fun s => plain_http_refusal s url) asking) ∅)
      | None =>
          let mints := mints_now mints_answer in
          sources ← match libraries with Some l => trusted_now l | None => Ok [] end;
          admit_token_steps libraries mints fork restricts_refs sources asking no_tokens
      end
  end.

(** ** At launch: a yanked version (scarab-server/src/libraries.rs) *)

(** What the check reads, each read failing with its message; [None]: no
    store is wired. *)
Record YankReads := mkYankReads {
  yr_run_tenant : Result string (option (string * string));
  yr_yanks : string -> Result string (list LibraryYank);
  yr_run_ir : Result string (option Json);
  (** serde's reader of the stored Steps and their origins, or its message. *)
  yr_origins : Json -> Result string (list (string * list OriginEntry));
  yr_yanked : string -> list string -> Result string (list LibraryYank);
}.
Definition stored_step_yank_refusal (reads : option YankReads) (run step : string) : Result string (option string) :=
  match reads with
  | None => Ok None
  | Some r =>
      tenant ← yr_run_tenant r;
      match tenant with
      | None => Ok None
      | Some (org, _) =>
          ys ← map_err (fun e => "library store: " +:+ e) (yr_yanks r org);
          if is_nil ys then Ok None
          else
            ir ← yr_run_ir r;
            match ir with
            | None => Ok None
            | Some ir =>
                steps ← map_err (fun e => "run " +:+ run +:+ ": the stored IR has no readable origin: " +:+ e) (yr_origins r ir);
                match List.find (fun s => String.eqb s.1 step) steps with
                | None => Ok None
                | Some s =>
                    refusals ← map_err (fun e => "library store: " +:+ e)
                                 (yank_refusals_for (yr_yanked r org) [("`" +:+ step +:+ "`", s.2)]);
                    Ok (if is_nil refusals then None else Some (join "; " refusals))
                end
            end
      end
  end.

(** ** At launch: the credential *)

Record ForgeCredential := mkCredential { fc_username : string; fc_token : string; fc_minted : bool }.
Record ForgeTokenConfig := mkTokenConfig {
  fg_access : ForgeToken;
  fg_owner : string;
  fg_name : string;
  fg_read_only : bool;
  fg_trusted_library : option string;
  fg_credential : option ForgeCredential;
}.
Record RegistryCredential := mkRegistryCredential { rg_registry : string; rg_username : string; rg_token : string }.
Record BuildConfig := mkBuildConfig {
  bc_context : string;
  bc_dockerfile : string;
  bc_image : string;
  bc_repo_owner : string;
  bc_repo_name : string;
  bc_push : bool;
  bc_insecure_push : bool;
  bc_registry_auth_json : option string;
  bc_derived_auth : option RegistryCredential;
}.
(** The fields of a launch's spec this decorator reads; the rest is handed on. *)
Record CredentialSpec := mkCredentialSpec { cs_build : option BuildConfig; cs_forge_token : option ForgeTokenConfig }.

(** What one launch is answered. *)
Record LaunchAnswers := mkAnswers {
  an_libraries : option (YankReads * LibraryPort);
  (** [ensure_deploy_still_admitted], when governance is wired. *)
  an_readmitted : option (Result ExecError unit);
  (** The [event.repo.clone_url] stored with the Run. *)
  an_clone_url : Result string (option string);
  (** [secrets.get(scope, "REGISTRY_AUTH")] for the repository, then the org:
      the value, when it is UTF-8; [None]: no provider. *)
  an_registry_secrets : option (option string * option string);
  an_registry_credential : Result ForgeError (option RegistryCredential);
  an_mints : Result ForgeError bool;
  an_checkout : bool -> Result ForgeError ForgeCredential;
  an_write : Result ForgeError ForgeCredential;
  an_inner : CredentialSpec -> Result ExecError string;
  an_revoke : RepoRef * string -> Result ForgeError unit;
}.

Definition ensure_not_yanked (a : LaunchAnswers) (step : StepRun) : Result ExecError unit :=
  match an_libraries a with
  | None => Ok tt
  | Some (yanks, _) =>
      match stored_step_yank_refusal (Some yanks) (sr_run step) (sr_step step) with
      | Ok None => Ok tt
      | Ok (Some refusal) => Err (ExRefused refusal)
      | Err e => Err (ExOther e)
      end
  end.
Definition ensure_https_clone_url (a : LaunchAnswers) : Result ExecError unit :=
  match an_libraries a with
  | None => Ok tt
  | Some _ =>
      match an_clone_url a with
      | Err e => Err (ExOther ("reading the Run's event values: " +:+ e))
      | Ok (Some url) =>
          if https url then Ok tt
          else Err (ExRefused ("the Run's clone URL `" +:+ url +:+ "` is not `https://`, and a forge token is never sent over plain HTTP; "
                               +:+ "nothing was minted"))
      | Ok None => Ok tt
      end
  end.
Definition LONG_LIVED_WRITE : string :=
  "the step asks for `forge_token: write`, and this repository's forge connection now hands out one long-lived token, "
  +:+ "which cannot be narrowed to a write token for one Run; nothing was minted".
Definition LONG_LIVED_UNTRUSTED : string :=
  "the step asks for `forge_token`, and this repository's forge connection now hands out one long-lived token, which only a Step from a "
  +:+ "library the org trusts may receive; this Step was admitted when the connection minted short-lived tokens, or is the repository's own; "
  +:+ "nothing was minted".
Definition LONG_LIVED_UNCHECKED : string :=
  "the step's forge token would be the connection's long-lived token, and this server has no library store to check that the org still "
  +:+ "trusts its library; nothing was minted".
Definition no_longer_trusted (org hash : string) : string :=
  "the step's forge token would be the connection's long-lived token, and the org `" +:+ org
  +:+ "` no longer trusts the library version it is from (" +:+ hash +:+ "); nothing was minted".
Definition trusted_at_launch (l : LibraryPort) (hash : string) : Result string bool :=
  sources ← trusted_now l; library_trusted l hash sources.
Definition long_lived_refusal (a : LaunchAnswers) (config : ForgeTokenConfig) (access : ForgeToken) : Result ExecError (option string) :=
  if bool_decide (access = FtWrite) then Ok (Some LONG_LIVED_WRITE)
  else match fg_trusted_library config with
       | None => Ok (Some LONG_LIVED_UNTRUSTED)
       | Some hash =>
           match an_libraries a with
           | None => Ok (Some LONG_LIVED_UNCHECKED)
           | Some (_, l) =>
               match trusted_at_launch l hash with
               | Err e => Err (ExOther e)
               | Ok t => Ok (if (t : bool) then None else Some (no_longer_trusted (fg_owner config) hash))
               end
           end
       end.

Definition registry_auth (a : LaunchAnswers) (b : BuildConfig) : option string * option RegistryCredential :=
  if String.eqb (bc_repo_owner b) "" then (None, None)
  else
    match (s ← an_registry_secrets a; match s.1 with Some v => Some v | None => s.2 end) with
    | Some v => (Some v, None)
    | None =>
        match an_registry_credential a with
        | Ok (Some c) => if starts_with (rg_registry c +:+ "/") (bc_image b) then (None, Some c) else (None, None)
        | _ => (None, None)
        end
    end.
Definition with_registry_auth (auth : option string * option RegistryCredential) (b : BuildConfig) : BuildConfig :=
  mkBuildConfig (bc_context b) (bc_dockerfile b) (bc_image b) (bc_repo_owner b) (bc_repo_name b) (bc_push b) (bc_insecure_push b) auth.1 auth.2.

(** A [revoke_credential] asked of the forge, and its answer. One that fails is
    logged: the token lives until it expires on its own. *)
Definition Revocation : Type := (RepoRef * string) * Result ForgeError unit.
Definition ask_revoke (forge : RepoRef * string -> Result ForgeError unit) (tokens : list (RepoRef * string)) : list Revocation :=
  map (fun t => (t, forge t)) tokens.

(** The tokens this process minted for each unit. *)
Abbreviation Minted := (gmap string (list (RepoRef * string))).
(** What a launch came to: its result, the credential the forge handed over,
    the spec the inner executor was given, and the tokens revoked; beside the
    map it leaves. *)
Record Launched := mkLaunched {
  la_result : Result ExecError string;
  la_obtained : option (RepoRef * ForgeCredential);
  la_given : option CredentialSpec;
  la_asked : list Revocation;
}.
Definition not_launched (e : ExecError) : Launched := mkLaunched (Err e) None None [].
Definition passed_on (a : LaunchAnswers) (spec : CredentialSpec) : Launched := mkLaunched (an_inner a spec) None (Some spec) [].

Definition credential_for (a : LaunchAnswers) (access : ForgeToken) : Result ExecError (option ForgeCredential) :=
  match access with
  | FtRead => Ok (match an_checkout a true with Ok c => Some c | Err _ => None end)
  | FtWrite => match an_write a with Ok c => Ok (Some c) | Err e => Err (ExLaunch ("minting a write forge token: " +:+ show_forge_error e)) end
  end.
Definition changed_during_launch (reason : string) : string :=
  reason +:+ " (the connection handed over a long-lived token although it said it mints short-lived ones; it changed during the launch)".
Definition enrich (config : ForgeTokenConfig) (access : ForgeToken) (c : option ForgeCredential) : ForgeTokenConfig :=
  mkTokenConfig access (fg_owner config) (fg_name config) (fg_read_only config) (fg_trusted_library config)
    (match c with Some c => Some c | None => fg_credential config end).
Definition config_repo (config : ForgeTokenConfig) : RepoRef := mkRepo (fg_owner config) (fg_name config).

(** The launch of a Step that asked for a credential, from [access] on. *)
Definition launch_with_token (a : LaunchAnswers) (spec : CredentialSpec) (config : ForgeTokenConfig) (m : Minted) : Launched * Minted :=
  let access := if fg_read_only config then FtRead else fg_access config in
  match ensure_https_clone_url a with
  | Err e => (not_launched e, m)
  | Ok _ =>
      match long_lived_refusal a config access with
      | Err e => (not_launched e, m)
      | Ok refusal =>
          match (match refusal with
                 | Some reason => if negb (mints_now (an_mints a)) then Some reason else None
                 | None => None
                 end) with
          | Some reason => (not_launched (ExRefused reason), m)
          | None =>
              match credential_for a access with
              | Err e => (not_launched e, m)
              | Ok credential =>
                  let obtained := pair (config_repo config) <$> credential in
                  match (match refusal, credential with
                         | Some reason, Some c => if fc_minted c then None else Some (changed_during_launch reason)
                         | _, _ => None
                         end) with
                  | Some reason => (mkLaunched (Err (ExRefused reason)) obtained None [], m)
                  | None =>
                      let given := mkCredentialSpec (cs_build spec) (Some (enrich config access credential)) in
                      let launched := an_inner a given in
                      match credential with
                      | Some c =>
                          if fc_minted c then
                            match launched with
                            | Ok handle =>
                                (mkLaunched launched obtained (Some given) (ask_revoke (an_revoke a) (default [] (m !! handle))),
                                 <[handle := [(config_repo config, fc_token c)]]> m)
                            | Err _ => (mkLaunched launched obtained (Some given) (ask_revoke (an_revoke a) [(config_repo config, fc_token c)]), m)
                            end
                          else (mkLaunched launched obtained (Some given) [], m)
                      | None => (mkLaunched launched obtained (Some given) [], m)
                      end
                  end
              end
          end
      end
  end.

Definition launch (a : LaunchAnswers) (step : StepRun) (spec : CredentialSpec) (m : Minted) : Launched * Minted :=
  let asks := is_some (cs_build spec) || is_some (cs_forge_token spec) in
  match (if asks then _ ← ensure_not_yanked a step; default (Ok tt) (an_readmitted a) else Ok tt) with
  | Err e => (not_launched e, m)
  | Ok _ =>
      match cs_build spec with
      | Some b => (passed_on a (mkCredentialSpec (Some (with_registry_auth (registry_auth a b) b)) (cs_forge_token spec)), m)
      | None =>
          match cs_forge_token spec with
          | None => (passed_on a spec, m)
          | Some config => launch_with_token a spec config m
          end
      end
  end.

(** ** The Attempt ends *)

(** [take_forge_credential]'s answer: the credential the unit held. *)
Record MountedForgeCredential := mkMounted { mf_owner : string; mf_name : string; mf_credential : ForgeCredential }.
Definition revoke (forge : RepoRef * string -> Result ForgeError unit) (held : Result ExecError (option MountedForgeCredential)) (handle : string) (m : Minted)
  : list Revocation * Minted :=
  let tokens := default [] (m !! handle) in
  (ask_revoke forge
     match held with
     | Ok (Some h) =>
         if fc_minted (mf_credential h) && negb (existsb (fun t => String.eqb t.2 (fc_token (mf_credential h))) tokens)
         then tokens ++ [(mkRepo (mf_owner h) (mf_name h), fc_token (mf_credential h))] else tokens
     | _ => tokens
     end, base.delete handle m).
Definition attempt_ended (s : ExecState) : bool :=
  match s with XSucceeded | XFailed _ _ _ | XLost => true | XPending | XRunning => false end.
(** [poll] and [cancel]: the inner executor's answer, the revocations asked,
    and the map left. *)
Definition poll (forge : RepoRef * string -> Result ForgeError unit) (inner : Result ExecError ExecState)
    (held : Result ExecError (option MountedForgeCredential)) (handle : string) (m : Minted) : Result ExecError ExecState * (list Revocation * Minted) :=
  (inner, match inner with
          | Ok st => if attempt_ended st then revoke forge held handle m else ([], m)
          | Err _ => ([], m)
          end).
Definition cancel (forge : RepoRef * string -> Result ForgeError unit) (inner : Result ExecError unit)
    (held : Result ExecError (option MountedForgeCredential)) (handle : string) (m : Minted) : Result ExecError unit * (list Revocation * Minted) :=
  (inner, revoke forge held handle m).

(** * Theorems *)

(** ** Who may hold a long-lived token *)

(** The org trusts the library version [hash], by what the store answers. *)
Definition org_trusts (l : LibraryPort) (hash : string) : Prop :=
  exists v sources, lp_version l hash = Ok (Some v) /\ lp_trusted_sources l = Ok sources
    /\ (is_first_party_clone v = true \/ trust_key (lv_source v) ∈ map ts_source sources).

Lemma library_trusted_true l hash sources :
  library_trusted l hash sources = Ok true <-> exists v, lp_version l hash = Ok (Some v) /\ trusts sources v = true.
Proof.
  unfold library_trusted. destruct (lp_version l hash) as [[v|]|e]; cbn; split; try done; try (intros (? & [=] & ?); congruence).
  intros [= H]. by exists v.
Qed.
Lemma trusted_now_ok l sources : trusted_now l = Ok sources <-> exists ts, lp_trusted_sources l = Ok ts /\ sources = map ts_source ts.
Proof. unfold trusted_now. destruct (lp_trusted_sources l) as [ts|e]; cbn; split; [intros [= <-]; by exists ts|intros (? & [=] & ->); by subst|done|by intros (? & [=] & ?)]. Qed.
Lemma trusts_spec l hash sources : trusted_now l = Ok sources -> library_trusted l hash sources = Ok true -> org_trusts l hash.
Proof.
  intros (ts & Ht & ->)%trusted_now_ok (v & Hv & H)%library_trusted_true. exists v, ts. split_and!; [done..|].
  unfold trusts in H. apply orb_true_iff in H as [H|H]; [by left|right]. by apply bool_decide_eq_true in H.
Qed.

(** What the inner executor of a launch was given: nothing, or a credential
    it may have. *)
Definition given_credential (r : Launched) : option (ForgeTokenConfig * ForgeCredential) :=
  given ← la_given r; config ← cs_forge_token given; c ← fg_credential config; Some (config, c).
(** A stored spec carries no credential. *)
Definition stored (spec : CredentialSpec) : Prop := forall config, cs_forge_token spec = Some config -> fg_credential config = None.

Lemma launch_given a step spec m config c : stored spec -> given_credential (launch a step spec m).1 = Some (config, c) ->
  exists config0 access refusal, cs_forge_token spec = Some config0 /\ cs_build spec = None
    /\ access = (if fg_read_only config0 then FtRead else fg_access config0)
    /\ config = enrich config0 access (Some c) /\ credential_for a access = Ok (Some c)
    /\ ensure_not_yanked a step = Ok tt /\ default (Ok tt) (an_readmitted a) = Ok tt /\ ensure_https_clone_url a = Ok tt
    /\ long_lived_refusal a config0 access = Ok refusal /\ (refusal = None \/ fc_minted c = true).
Proof.
  intros Hs. unfold launch, given_credential. destruct spec as [[b|] [config0|]]; cbn.
  - destruct (ensure_not_yanked a step) as [[]|]; [|done]. cbn. destruct (default _ _) as [[]|]; [|done]. cbn.
    by rewrite (Hs config0 eq_refl).
  - destruct (ensure_not_yanked a step) as [[]|]; [|done]. cbn. by destruct (default _ _).
  - destruct (ensure_not_yanked a step) as [[]|] eqn:Hy; [|done]. cbn. destruct (default _ _) as [[]|] eqn:Hr; [|done]. cbn.
    unfold launch_with_token. destruct (ensure_https_clone_url a) as [[]|] eqn:Hh; [|done].
    set (access := if fg_read_only config0 then FtRead else fg_access config0).
    destruct (long_lived_refusal a config0 access) as [refusal|] eqn:Hl; [|done].
    destruct (match refusal with Some _ => _ | None => None end) eqn:Hm; [done|].
    destruct (credential_for a access) as [cred|] eqn:Hc; [|done].
    destruct (match refusal with Some _ => _ | None => None end) eqn:Hk in |- *; [done|].
    intros Hg. exists config0, access, refusal.
    assert (exists c0, cred = Some c0 /\ config = enrich config0 access (Some c0) /\ c = c0) as (c0 & -> & -> & ->).
    { destruct cred as [c0|]; [exists c0|].
      - destruct (fc_minted c0); [destruct (an_inner a _)|]; cbn in Hg; by simplify_eq.
      - cbn in Hg. by rewrite (Hs config0 eq_refl) in Hg. }
    split_and!; try done. destruct refusal as [reason|]; [right|by left]. destruct (fc_minted c0); [done|discriminate Hk].
  - done.
Qed.

(** C21: A long-lived forge token reaches a Step only when the Step asks for
    [read] and comes from a library version the org trusts at the moment of
    the launch: every other Step is given a token minted for this repository,
    or none. *)
Theorem long_lived_only_trusted a step spec m config c (Hs : stored spec)
  (Hg : given_credential (launch a step spec m).1 = Some (config, c)) (Hc : fc_minted c = false) :
  fg_access config = FtRead /\ exists hash yanks l, fg_trusted_library config = Some hash
    /\ an_libraries a = Some (yanks, l) /\ org_trusts l hash.
Proof.
  destruct (launch_given _ _ _ _ _ _ Hs Hg) as (config0 & access & refusal & _ & _ & _ & -> & _ & _ & _ & _ & Hl & Hr).
  destruct Hr as [->|]; [|congruence]. cbn. unfold long_lived_refusal in Hl. case_bool_decide as Ha; [done|].
  split; [by destruct access|].
  destruct (fg_trusted_library config0) as [hash|]; [|done]. destruct (an_libraries a) as [[yanks l]|]; [|done].
  unfold trusted_at_launch in Hl. destruct (trusted_now l) as [sources|] eqn:Hn; cbn in Hl; [|done].
  destruct (library_trusted l hash sources) as [[]|] eqn:Ht; try done.
  exists hash, yanks, l. split_and!; [done..|]. by eapply trusts_spec.
Qed.
(** A Run locked to [read] is handed a checkout credential minted read-only,
    whatever its spec asks for. *)
Lemma read_only_never_writes a step spec m config c : stored spec ->
  given_credential (launch a step spec m).1 = Some (config, c) -> fg_read_only config = true ->
  fg_access config = FtRead /\ an_checkout a true = Ok c.
Proof.
  intros Hs Hg Hro. destruct (launch_given _ _ _ _ _ _ Hs Hg) as (config0 & access & refusal & _ & _ & -> & -> & Hc & _).
  cbn in *. rewrite Hro in *. split; [done|]. cbn in Hc. destruct (an_checkout a true); by simplify_eq.
Qed.
(** No token is sent to a stored clone URL that is not [https://]. *)
Lemma token_only_over_https a step spec m config c url : stored spec ->
  given_credential (launch a step spec m).1 = Some (config, c) -> is_some (an_libraries a) = true ->
  an_clone_url a = Ok (Some url) -> https url = true.
Proof.
  intros Hs Hg Hl Hu. destruct (launch_given _ _ _ _ _ _ Hs Hg) as (? & ? & ? & _ & _ & _ & _ & _ & _ & _ & Hh & _).
  revert Hh. unfold ensure_https_clone_url. destruct (an_libraries a); [|done]. rewrite Hu. by destruct (https url).
Qed.

(** ** Every minted token ends *)

(** What happens to this process's units: a launch or re-drive, a poll, a
    cancel. *)
Inductive TokenEvent : Type :=
| TeLaunch (a : LaunchAnswers) (step : StepRun) (spec : CredentialSpec)
| TePoll (forge : RepoRef * string -> Result ForgeError unit) (inner : Result ExecError ExecState)
    (held : Result ExecError (option MountedForgeCredential)) (handle : string)
| TeCancel (forge : RepoRef * string -> Result ForgeError unit) (inner : Result ExecError unit)
    (held : Result ExecError (option MountedForgeCredential)) (handle : string).
(** The minted tokens a launch obtained. *)
Definition obtained_minted (r : Launched) : list (RepoRef * string) :=
  match la_obtained r with Some (repo, c) => if fc_minted c then [(repo, fc_token c)] else [] | None => [] end.
(** The tokens minted so far, the revocations asked, and the map. *)
Record Ledger := mkLedger { lg_minted : list (RepoRef * string); lg_asked : list Revocation; lg_map : Minted }.
Definition token_event (e : TokenEvent) (l : Ledger) : Ledger :=
  match e with
  | TeLaunch a step spec =>
      let '(r, m) := launch a step spec (lg_map l) in mkLedger (lg_minted l ++ obtained_minted r) (lg_asked l ++ la_asked r) m
  | TePoll forge inner held handle => let '(_, (r, m)) := poll forge inner held handle (lg_map l) in mkLedger (lg_minted l) (lg_asked l ++ r) m
  | TeCancel forge inner held handle => let '(_, (r, m)) := cancel forge inner held handle (lg_map l) in mkLedger (lg_minted l) (lg_asked l ++ r) m
  end.
Definition no_ledger : Ledger := mkLedger [] [] ∅.
Definition token_events (es : list TokenEvent) : Ledger := foldl (fun l e => token_event e l) no_ledger es.

(** The events that end the Attempt of [handle]'s unit, and what the executor
    hands back of it. *)
Definition ends (e : TokenEvent) (handle : string) : option (Result ExecError (option MountedForgeCredential)) :=
  match e with
  | TeLaunch _ _ _ => None
  | TePoll _ (Ok (XSucceeded | XFailed _ _ _ | XLost)) held h => if String.eqb h handle then Some held else None
  | TePoll _ _ _ _ => None
  | TeCancel _ _ held h => if String.eqb h handle then Some held else None
  end.
Definition asked (t : RepoRef * string) (l : list Revocation) : Prop := exists answer, (t, answer) ∈ l.
Definition accounted (l : Ledger) : Prop := forall t, t ∈ lg_minted l ->
  asked t (lg_asked l) \/ exists handle ts, lg_map l !! handle = Some ts /\ t ∈ ts.

Lemma asked_revoke forge tokens t : t ∈ tokens -> asked t (ask_revoke forge tokens).
Proof. intros Ht. exists (forge t). apply list_elem_of_fmap. by exists t. Qed.
Lemma asked_app t l k : asked t (l ++ k) <-> asked t l \/ asked t k.
Proof. unfold asked. setoid_rewrite elem_of_app. naive_solver. Qed.
(** The insertion of a new unit's token, its old ones revoked. *)
Lemma tracked forge (m : Minted) handle (x : RepoRef * string) :
  (forall t, t ∈ [x] -> asked t (ask_revoke forge (default [] (m !! handle))) \/ exists h ts, <[handle := [x]]> m !! h = Some ts /\ t ∈ ts)
  /\ (forall h ts t, m !! h = Some ts -> t ∈ ts ->
        asked t (ask_revoke forge (default [] (m !! handle))) \/ exists ts', <[handle := [x]]> m !! h = Some ts' /\ t ∈ ts').
Proof.
  split.
  - intros t ->%list_elem_of_singleton. right. exists handle, [x]. rewrite lookup_insert_eq. split; [done|by left].
  - intros h ts t Hh Ht. destruct (decide (h = handle)) as [->|]; [left; apply asked_revoke; by rewrite Hh|right; exists ts; by rewrite lookup_insert_ne].
Qed.
(** One launch: what it minted is tracked or its revocation asked, and what it
    stops tracking it asks to revoke. *)
Definition launch_accounted (r : Launched) (m m' : Minted) : Prop :=
  (forall t, t ∈ obtained_minted r -> asked t (la_asked r) \/ exists handle ts, m' !! handle = Some ts /\ t ∈ ts)
  /\ (forall handle ts t, m !! handle = Some ts -> t ∈ ts -> asked t (la_asked r) \/ exists ts', m' !! handle = Some ts' /\ t ∈ ts').
Lemma launch_accounts a step spec m r m' : launch a step spec m = (r, m') -> launch_accounted r m m'.
Proof.
  assert (forall r0, (r0, m) = (r, m') -> obtained_minted r0 = [] -> launch_accounted r m m') as Hidle.
  { intros r0 [= <- <-] Hn. unfold launch_accounted. rewrite Hn. split; [by intros t ?%elem_of_nil|]. eauto. }
  unfold launch. destruct (if _ || _ then _ else _) as [[]|]; [|by intros H; eapply Hidle].
  destruct (cs_build spec) as [b|]; [by intros H; eapply Hidle|].
  destruct (cs_forge_token spec) as [config|]; [|by intros H; eapply Hidle].
  unfold launch_with_token. destruct (ensure_https_clone_url a) as [[]|]; [|by intros H; eapply Hidle].
  set (access := if fg_read_only config then _ else _).
  destruct (long_lived_refusal a config access) as [refusal|]; [|by intros H; eapply Hidle].
  destruct (match refusal with Some _ => _ | None => None end); [by intros H; eapply Hidle|].
  destruct (credential_for a access) as [[c|]|]; [| |by intros H; eapply Hidle].
  2:{ destruct refusal; intros H; (eapply Hidle; [exact H|done]). }
  cbn [fmap option_fmap option_map]. destruct (fc_minted c) eqn:Em.
  2:{ destruct refusal; intros H; (eapply Hidle; [exact H|]); unfold obtained_minted; cbn; by rewrite Em. }
  destruct refusal; cbn -[ask_revoke]; (destruct (an_inner a _) as [handle|e]; intros [= <- <-]; unfold launch_accounted, obtained_minted; cbn -[ask_revoke]; rewrite Em;
    [by apply tracked|split; [intros t ->%list_elem_of_singleton; left; eexists; by left|eauto]]).
Qed.
Lemma revoke_accounts forge held handle m t h ts : m !! h = Some ts -> t ∈ ts ->
  asked t (revoke forge held handle m).1 \/ exists ts', (revoke forge held handle m).2 !! h = Some ts' /\ t ∈ ts'.
Proof.
  intros Hh Ht. unfold revoke. cbn -[ask_revoke]. destruct (decide (h = handle)) as [->|].
  - left. apply asked_revoke. rewrite Hh. cbn. destruct held as [[hd|]|]; [|done..]. destruct (_ && _); [|done]. apply elem_of_app. by left.
  - right. exists ts. by rewrite lookup_delete_ne.
Qed.
Lemma revoke_held forge h handle m : fc_minted (mf_credential h) = true ->
  exists repo, asked (repo, fc_token (mf_credential h)) (revoke forge (Ok (Some h)) handle m).1.
Proof.
  intros Hm. unfold revoke. cbn -[ask_revoke]. rewrite Hm. cbn -[ask_revoke]. destruct (existsb _ (default [] (m !! handle))) eqn:E; cbn -[ask_revoke].
  - apply existsb_exists in E as ([repo tok] & Hin & He%String.eqb_eq). cbn in He. subst tok. exists repo. by apply asked_revoke, list_elem_of_In.
  - eexists. apply asked_revoke, elem_of_app. right. by left.
Qed.
(** Whatever an event asks to revoke and leaves in the map. *)
Lemma accounted_ended l r m' : accounted l -> (forall h ts t, lg_map l !! h = Some ts -> t ∈ ts -> asked t r \/ exists ts', m' !! h = Some ts' /\ t ∈ ts') ->
  accounted (mkLedger (lg_minted l) (lg_asked l ++ r) m').
Proof.
  intros Ha Hr t. cbn. rewrite asked_app. intros Ht. destruct (Ha t Ht) as [?|(h & ts & Hh & Hin)]; [tauto|].
  destruct (Hr _ _ _ Hh Hin) as [?|(ts' & ? & ?)]; [tauto|]. right. by exists h, ts'.
Qed.
Lemma accounted_step e l : accounted l -> accounted (token_event e l).
Proof.
  intros Ha. destruct e as [a step spec|forge inner held handle|forge inner held handle]; cbn [token_event].
  - destruct (launch a step spec (lg_map l)) as [r m'] eqn:E. apply launch_accounts in E as [Hnew Hold]. intros t. cbn.
    rewrite elem_of_app, asked_app. intros [Ht|Ht].
    + destruct (Ha t Ht) as [?|(h & ts & Hh & Hin)]; [tauto|]. destruct (Hold _ _ _ Hh Hin) as [?|(ts' & ? & ?)]; [tauto|]. right. by exists h, ts'.
    + destruct (Hnew t Ht) as [?|?]; [tauto|by right].
  - unfold poll. destruct inner as [s|]; [destruct (attempt_ended s)|].
    + destruct (revoke forge held handle (lg_map l)) as [r m'] eqn:E. apply accounted_ended; [done|]. intros h ts t Hh Ht.
      pose proof (revoke_accounts forge held handle _ _ _ _ Hh Ht) as Hr. by rewrite E in Hr.
    + apply accounted_ended; [done|]. eauto.
    + apply accounted_ended; [done|]. eauto.
  - unfold cancel. destruct (revoke forge held handle (lg_map l)) as [r m'] eqn:E. apply accounted_ended; [done|]. intros h ts t Hh Ht.
    pose proof (revoke_accounts forge held handle _ _ _ _ Hh Ht) as Hr. by rewrite E in Hr.
Qed.
Lemma ended_is_revoked e l handle held : ends e handle = Some held ->
  exists forge, lg_asked (token_event e l) = lg_asked l ++ (revoke forge held handle (lg_map l)).1
    /\ lg_map (token_event e l) = (revoke forge held handle (lg_map l)).2.
Proof.
  destruct e as [|forge inner held' h|forge inner held' h]; cbn [ends token_event]; [done| |].
  - assert (forall s, attempt_ended s = true -> (if String.eqb h handle then Some held' else None) = Some held ->
      exists f, lg_asked (token_event (TePoll forge (Ok s) held' h) l) = lg_asked l ++ (revoke f held handle (lg_map l)).1
        /\ lg_map (token_event (TePoll forge (Ok s) held' h) l) = (revoke f held handle (lg_map l)).2) as H.
    { intros s Hs. destruct (String.eqb_spec h handle) as [->|]; [|done]. intros [= ->]. exists forge.
      cbn [token_event]. unfold poll. rewrite Hs. by destruct (revoke _ _ _ _). }
    destruct inner as [[]|]; try done; by apply H.
  - destruct (String.eqb_spec h handle) as [->|]; [|done]. intros [= ->]. exists forge. unfold cancel. by destruct (revoke _ _ _ _).
Qed.

(** A forge that mints; its revocations fail. *)
Definition minting : LaunchAnswers :=
  mkAnswers None None (Ok None) None (Ok None) (Ok true) (fun _ => Ok (mkCredential "bot" "m1nted" true)) (Err (FeUnsupported "writing"))
    (fun _ => Ok "unit1") (fun _ => Ok tt).
Definition minted_step_run : StepRun := mkStepRun "run1" "push" StepReady [] [] None.
Definition minted_spec : CredentialSpec := mkCredentialSpec None (Some (mkTokenConfig FtRead "acme" "shop" false None None)).
Definition refusing : RepoRef * string -> Result ForgeError unit := fun _ => Err (FeUnsupported "revoking").

(** ** What Run creation decided *)

(** What a Step that asks must satisfy to keep its credential. *)
Definition token_allowed (mints : bool) (libraries : option LibraryPort) (fork restricts_refs : bool) (s : StepSpec) : Prop :=
  (mints = true \/ exists link l, last (st_origin s) = Some link /\ is_library_link link = true /\ libraries = Some l
                                  /\ org_trusts l (og_content_hash link))
  /\ (fork = false -> st_forge_token s = Some FtWrite -> mints = true /\ restricts_refs = true).
Definition sources_read (libraries : option LibraryPort) (sources : list string) : Prop :=
  match libraries with Some l => trusted_now l = Ok sources | None => sources = [] end.

Lemma trusted_step_spec s libraries sources hash : sources_read libraries sources ->
  trusted_library_step s libraries sources = Ok (Some hash) ->
  exists link l, last (st_origin s) = Some link /\ is_library_link link = true /\ libraries = Some l
    /\ hash = og_content_hash link /\ org_trusts l hash.
Proof.
  unfold trusted_library_step, sources_read. destruct (last (st_origin s)) as [link|]; [|done].
  destruct (is_library_link link) eqn:El; [|done]. cbn. destruct libraries as [l|]; [|done]. intros Hn.
  destruct (library_trusted l (og_content_hash link) sources) as [[]|] eqn:Et; cbn; try done.
  intros [= <-]. exists link, l. split_and!; [done..|]. by eapply trusts_spec.
Qed.
Lemma admit_token_step_ok libraries mints fork restricts sources out s out' : sources_read libraries sources ->
  admit_token_step libraries mints fork restricts sources out s = Ok out' -> ta_refusals out' = [] ->
  ta_refusals out = [] /\ (is_some (st_forge_token s) = true -> token_allowed mints libraries fork restricts s)
  /\ (mints = false -> is_Some (ta_trusted_only out' !! st_id s))
  /\ (forall id, is_Some (ta_trusted_only out !! id) -> is_Some (ta_trusted_only out' !! id)).
Proof.
  intros Hsrc. unfold admit_token_step. set (write := bool_decide _).
  assert (write = true <-> fork = false /\ st_forge_token s = Some FtWrite) as Hw.
  { unfold write. rewrite bool_decide_eq_true. destruct fork, (st_forge_token s) as [[]|]; cbn; naive_solver. }
  assert (forall m o, ta_refusals (refuse_token m o) = [] -> False) as Href by (intros m o H; cbn in H; by destruct (ta_refusals o)).
  destruct (write && negb mints) eqn:Ewm; [intros [= <-] H; by apply Href in H|].
  destruct (token_library libraries mints sources s) as [trusted|] eqn:Et; [|done]. cbn [mbind result_bind].
  destruct trusted as [hash|]; [|intros [= <-] H; by apply Href in H].
  destruct (write && negb restricts) eqn:Ewr; intros [= <-] H; [by apply Href in H|].
  assert (fork = false -> st_forge_token s = Some FtWrite -> mints = true /\ restricts = true) as Hwrite.
  { intros Hf Hs. rewrite (proj2 Hw (conj Hf Hs)) in Ewm, Ewr. by destruct mints, restricts. }
  unfold token_library in Et. destruct mints.
  - injection Et as <-. split_and!; [done| |done|done]. intros _. split; [by left|done].
  - destruct (trusted_library_step s libraries sources) as [t|] eqn:Ets; [|done]. cbn in Et. destruct t as [h|]; [|done].
    injection Et as <-. apply trusted_step_spec in Ets as (link & l & Hl & Hk & -> & -> & Ht); [|done]. split_and!.
    + done.
    + intros _. split; [|done]. right. by exists link, l.
    + intros _. cbn. by rewrite lookup_insert_eq.
    + intros id Hid. cbn. destruct (decide (st_id s = id)) as [->|]; by rewrite ?lookup_insert_eq, ?lookup_insert_ne by done.
Qed.
Lemma admit_token_steps_ok libraries mints fork restricts sources steps out out' : sources_read libraries sources ->
  admit_token_steps libraries mints fork restricts sources steps out = Ok out' -> ta_refusals out' = [] ->
  ta_refusals out = [] /\ (forall id, is_Some (ta_trusted_only out !! id) -> is_Some (ta_trusted_only out' !! id))
  /\ forall s, s ∈ steps -> (is_some (st_forge_token s) = true -> token_allowed mints libraries fork restricts s)
       /\ (mints = false -> is_Some (ta_trusted_only out' !! st_id s)).
Proof.
  intros Hsrc. revert out; induction steps as [|s steps IH]; cbn; intros out.
  - intros [= <-] H. split_and!; [done..|]. by intros s ?%elem_of_nil.
  - destruct (admit_token_step _ _ _ _ _ _ _) as [o|] eqn:E; [|done]. cbn [mbind result_bind]. intros H Hr.
    destruct (IH o H Hr) as (Ho & Hmono & Hall).
    destruct (admit_token_step_ok _ _ _ _ _ _ _ _ Hsrc E Ho) as (H1 & H2 & H3 & H4).
    split_and!; [done|auto|]. intros s' [->|Hin]%elem_of_cons; [split; [done|]; intros Hm; by apply Hmono, H3|by apply Hall].
Qed.

(** C17: A Run whose forge tokens are admitted asks for none it may not have:
    every Step that asks gets it over https only; where the forge hands out
    one long-lived token the Step is defined by a library the org trusts, and
    is recorded so that it consumes no Workspace; and a Step of a Run that is
    not a fork's is given [write] only by a forge that mints tokens, in a Run
    whose Environment restricts refs. *)
Theorem forge_tokens_admitted mints_answer libraries url ir fork restricts out s
  (Ho : forge_token_refusals mints_answer libraries url ir fork restricts = Ok out) (Hr : ta_refusals out = [])
  (Hs : s ∈ ir_steps ir) (Ha : is_some (st_forge_token s) = true) :
  (forall u, url = Some u -> https u = true)
  /\ token_allowed (mints_now mints_answer) libraries fork restricts s
  /\ (mints_now mints_answer = false -> is_Some (ta_trusted_only out !! st_id s)).
Proof.
  assert (s ∈ asking_steps ir) as Hin by by apply elem_of_list_filter.
  unfold forge_token_refusals in Ho. destruct (asking_steps ir) as [|s0 steps] eqn:E; [by apply elem_of_nil in Hin|]. rewrite <- E in *. clear E.
  assert (forall u, url = Some u -> https u = true) as Hu.
  { intros u ->. destruct (https u); [done|]. injection Ho as <-. cbn in Hr. apply map_eq_nil in Hr. rewrite Hr in Hin. by apply elem_of_nil in Hin. }
  split; [done|]. assert (match url with Some u => if https u then None else Some u | None => None end = None) as Hnone.
  { destruct url as [u|]; [|done]. by rewrite (Hu u eq_refl). }
  rewrite Hnone in Ho.
  destruct (match libraries with Some l => trusted_now l | None => Ok [] end) as [sources|] eqn:Esrc; [|done]. cbn [mbind result_bind] in Ho.
  assert (sources_read libraries sources) as Hsrc by (unfold sources_read; destruct libraries; [done|by injection Esrc as <-]).
  destruct (admit_token_steps_ok _ _ _ _ _ _ _ _ Hsrc Ho Hr) as (_ & _ & Hall). destruct (Hall s Hin) as [H1 H2]. split; [by apply H1|done].
Qed.

(** ** Concrete inputs *)

Definition clone_version : LibraryVersion :=
  mkLibVersion "acme" "h1" "kind: library" "github.com/thulasi-ram/clone//clone.yaml@c0ffee" "thulasi-ram" "clone" true "ann" 1.
Definition clone_port : LibraryPort :=
  mkLibraryPort (fun h => Ok (if String.eqb h "h1" then Some clone_version else None)) (Ok []).
Definition no_yanks : YankReads := mkYankReads (Ok None) (fun _ => Ok []) (Ok None) (fun _ => Ok []) (fun _ _ => Ok []).
(** A Forgejo connection: one long-lived token. *)
Definition long_lived : LaunchAnswers :=
  mkAnswers (Some (no_yanks, clone_port)) None (Ok (Some "https://forge.example/acme/shop.git")) None (Ok None) (Ok false)
    (fun _ => Ok (mkCredential "bot" "t0ken" false)) (Err (FeUnsupported "minting")) (fun _ => Ok "unit1") (fun _ => Ok tt).
Definition clone_config : ForgeTokenConfig := mkTokenConfig FtRead "acme" "shop" false (Some "h1") None.
Definition clone_step_run : StepRun := mkStepRun "run1" "clone" StepReady [] [] None.
Definition clone_spec : CredentialSpec := mkCredentialSpec None (Some clone_config).

Lemma long_lived_only_trusted_witness :
  let c := mkCredential "bot" "t0ken" false in
  let given := enrich clone_config FtRead (Some c) in
  stored clone_spec /\ given_credential (launch long_lived clone_step_run clone_spec ∅).1 = Some (given, c)
  /\ fg_access given = FtRead /\ exists hash yanks l, fg_trusted_library given = Some hash
       /\ an_libraries long_lived = Some (yanks, l) /\ org_trusts l hash.
Proof.
  assert (stored clone_spec) as Hs by (intros ? [= <-]; done).
  split; [exact Hs|]. split; [reflexivity|].
  exact (long_lived_only_trusted long_lived clone_step_run clone_spec ∅ _ (mkCredential "bot" "t0ken" false) Hs eq_refl eq_refl).
Defined.
(** The repository's own Step is refused that token. *)
Example own_step_refused :
  la_result (launch long_lived clone_step_run (mkCredentialSpec None (Some (mkTokenConfig FtRead "acme" "shop" false None None))) ∅).1
  = Err (ExRefused LONG_LIVED_UNTRUSTED).
Proof. reflexivity. Qed.

(** A Step of the clone library, and one of the Pipeline file's own. *)
Definition clone_link : OriginEntry := mkOrigin OkLibrary "thulasi-ram/clone" None "h1".
Definition asks_token (t : ForgeToken) (origin : list OriginEntry) (s : StepSpec) : StepSpec :=
  set_origin origin (mkStep (st_id s) (st_image s) (st_gate s) (st_deployment s) (st_clone s) (Some t) (st_build s) (st_invoke s) (st_with s)
    (st_gate_after s) (st_gate_expires_after s) (st_artifacts s) (st_deploy s) (st_command s) (st_env s) (st_secrets s) (st_security s) (st_needs s)
    (st_inputs s) (st_outputs s) (st_cache s) (st_timeout s) (st_retry s) (st_matrix s) (st_when s) (st_placement_profiles s) (st_resources s)
    (st_k8s_overlay s) (st_matrix_values s) (st_services s) (st_uses s) (st_results s) (st_deployment_requests s) (st_origin s) (st_scope s)
    (st_guards s) (st_plugin_gate s) (st_environment_approval_gate s)).
Definition cloning : StepSpec := asks_token FtRead [clone_link] (plain_step "clone" "alpine").
Definition pushing : StepSpec := asks_token FtWrite [] (plain_step "push" "alpine").

Lemma forge_tokens_admitted_witness :
  let ir := pipeline_of [cloning; plain_step "build" "alpine"] in
  let out := mkTokenAdmission [] {["clone" := "h1"]} in
  forge_token_refusals (Ok false) (Some clone_port) (Some "https://forge.example/acme/shop.git") ir false false = Ok out
  /\ (forall u, Some "https://forge.example/acme/shop.git" = Some u -> https u = true)
  /\ token_allowed false (Some clone_port) false false cloning
  /\ (false = false -> is_Some (ta_trusted_only out !! "clone")).
Proof.
  set (ir := pipeline_of _). set (out := mkTokenAdmission _ _).
  assert (forge_token_refusals (Ok false) (Some clone_port) (Some "https://forge.example/acme/shop.git") ir false false = Ok out) as Ho by reflexivity.
  split; [exact Ho|]. apply (forge_tokens_admitted (Ok false) (Some clone_port) _ ir false false out cloning Ho eq_refl); [by left|reflexivity].
Defined.
Example long_lived_write_refused :
  ta_refusals <$> (match forge_token_refusals (Ok false) (Some clone_port) None (pipeline_of [pushing]) false true with Ok o => Some o | Err _ => None end)
  = Some [long_lived_write_refusal pushing].
Proof. reflexivity. Qed.
(** A fork asking to write is given [read], which a minting forge may hand out. *)
Example fork_reads :
  forge_token_refusals (Ok true) None None (pipeline_of [pushing]) true false = Ok no_tokens.
Proof. reflexivity. Qed.
