(* ===== verification/Admission.v ===== *)
(** * Admission of a Run (scarab-server/src/lib.rs)

    From a compiled Pipeline and the event that triggered it to the Run that
    may begin: the Environment's governance, its approval gate, yanked
    libraries, the checked [event] values, forge tokens, the concurrency key
    and the [run.create] Policies. What each store and the forge answer is in
    [AdmissionReads]; the Policy store is a state the decision is recorded
    in. *)

From S2P Require Import Prelude Text Values Domain Meta Store Globs Protection Cel Params Scopes Render Ir Approvals Schema RunCreate Policies PolicyStore EnvironmentRules StepAdmit Identity ForgeEvent Libraries ForgeToken.

(** ** Errors and refusals *)

Inductive TriggerError : Type :=
| TeForge (e : ForgeError) | TePipeline (m : string) | TeNotUtf8 | TeReasonRequired (m : string) | TeDb (e : DbError).
Inductive AdmissionRefusal : Type :=
| RefNotAllowed
| UnknownEnvironment (environment : string)
| NotEligible (environment : string)
| PolicyDenied (decision_id : string) (messages : list string)
| LibraryYanked (messages : list string)
| EventField (messages : list string)
| ForgeTokenRefused (messages : list string)
| MissingApprovalGate (messages : list string).

Definition event_field_message (m : list string) : string := "this Run reads a trigger value it cannot use: " +:+ join "; " m.
Definition forge_token_message (m : list string) : string := "this Run asks for a forge credential it may not have: " +:+ join "; " m.
Definition library_yanked_message (m : list string) : string := "this Run uses a yanked library: " +:+ join "; " m.
Definition policy_denied_message (decision_id : string) (m : list string) : string :=
  "a run.create Policy refused this Run (decision " +:+ decision_id +:+ "): " +:+ join "; " m.
Definition unknown_environment_message (org project environment : string) : string :=
  "environment `" +:+ environment +:+ "` does not exist in org `" +:+ org +:+ "`: an org admin must create it and make `" +:+ project
  +:+ "` eligible for `" +:+ environment +:+ "` (ADR-0071)".
Definition not_eligible_message (org project environment : string) : string :=
  "project `" +:+ project +:+ "` may not deploy to environment `" +:+ environment +:+ "` in org `" +:+ org +:+ "`: an org admin must make `"
  +:+ project +:+ "` eligible for `" +:+ environment +:+ "` (ADR-0071)".
Definition admission_refusal_message (r : AdmissionRefusal) (org project : string) : string :=
  match r with
  | UnknownEnvironment e => unknown_environment_message org project e
  | NotEligible e => not_eligible_message org project e
  | RefNotAllowed => "the ref is not allowed to deploy to this environment"
  | PolicyDenied id m => policy_denied_message id m
  | LibraryYanked m => library_yanked_message m
  | EventField m => event_field_message m
  | ForgeTokenRefused m => forge_token_message m
  | MissingApprovalGate m => join "; " m
  end.

(** ** What the event says *)

Definition supersede_key (event : Event) (pipeline : string) : option string :=
  let key scope := rp_owner (repo_of event) +:+ "/" +:+ rp_name (repo_of event) +:+ ":" +:+ scope +:+ ":" +:+ pipeline in
  match event with
  | EvPush _ _ _ ref _ _ => Some (key ref)
  | EvPullRequest _ _ _ number _ _ _ _ => Some (key ("pr-" +:+ pretty number))
  | EvUpstream _ _ _ _ _ ref _ _ _ => if String.eqb ref "" then None else Some (key ref)
  | _ => None
  end.
Definition config_ref (event : Event) : string :=
  match event with
  | EvPush _ _ _ _ after _ => after
  | EvPullRequest _ _ _ _ head _ _ _ => head
  | EvTag _ _ _ tag | EvRelease _ _ _ tag => "refs/tags/" +:+ tag
  | EvManual _ _ _ sha _ | EvApi _ _ _ sha _ | EvCron _ _ sha _ => sha
  | EvUpstream _ _ _ _ _ _ sha _ _ => sha
  | EvComment _ _ _ _ _ => "HEAD"
  end.
Definition origin_sha (event : Event) : option string :=
  match event with
  | EvPush _ _ _ _ after _ => Some after
  | EvPullRequest _ _ _ _ head _ _ _ => Some head
  | EvManual _ _ _ sha _ | EvApi _ _ _ sha _ | EvCron _ _ sha _ | EvUpstream _ _ _ _ _ _ sha _ _ => Some sha
  | _ => None
  end.
(** [*number as i64]. *)
Definition origin_pr_number (event : Event) : option Z :=
  match event with
  | EvPullRequest _ _ _ number _ _ _ _ => Some (let n := Z.of_N number in if (n <? 2 ^ 63)%Z then n else (n - 2 ^ 64)%Z)
  | _ => None
  end.
Definition origin_pr_base (event : Event) : option string :=
  match event with EvPullRequest _ _ _ _ _ _ base _ => non_empty base | _ => None end.
(** [fork_policy]: whether secrets are locked out, and the OIDC subject's
    environment. *)
Definition fork_policy (event : Event) (target_env : string) : bool * string :=
  if is_fork_pr event then (true, "none") else (false, target_env).

(** The [uuid] crate: the time of a parsed id in seconds and nanoseconds, and
    the version 7 id of a time in milliseconds and ten bytes. *)
Class UuidPort := { uuid_time : string -> option (N * N); uuid_v7 : N -> list ascii -> string }.

Section RunIds.
Context {H : Sha256} {U : UuidPort}.
(** [fresh] is [new_run_id()]. *)
Definition run_id_for (fresh : string) (event : Event) (path : string) : string :=
  match event with
  | EvUpstream _ run generation _ status _ _ _ _ =>
      let digest := sha256 ("upstream:" +:+ run +:+ ":g" +:+ pretty generation +:+ ":" +:+ status +:+ ":" +:+ path) in
      let millis := match uuid_time run with Some (secs, nanos) => (secs * 1000 + nanos / 1000000)%N | None => 0%N end in
      uuid_v7 millis (take 10 digest)
  | _ => fresh
  end.
End RunIds.

(** ** Who caused it *)

(** What links a webhook actor to a Principal: the connection serving the
    repository (its base URL), the identities (who is pinned to an account,
    and which Principal that resolves to), and each login provider's forge URL
    and id. *)
Record ActorLinks := mkLinks {
  al_connections : option (Result string (option string));
  al_identities : option ((string -> string -> Result string (option string)) * (string -> Result string (option string)));
  al_providers : list (option string * string);
}.
Definition links_err (what e : string) : TriggerError :=
  TeDb (DbOther (what +:+ ": " +:+ e +:+ "; the Run was not created because its actor could not be resolved")).
Definition principal_of (links : ActorLinks) (event : Event) : Result TriggerError (option string) :=
  match actor_id event, al_connections links, al_identities links with
  | Some id, Some connection, Some (pinned, resolve) =>
      resolved ← map_err (links_err "forge connections") connection;
      match resolved with
      | None => Ok None
      | Some base =>
          match List.find (fun p => bool_decide (p.1 = Some (trim_end_matches "/" base))) (al_providers links) with
          | None => Ok None
          | Some p =>
              pin ← map_err (links_err "identities") (pinned p.2 id);
              match pin with
              | None => Ok None
              | Some who => map_err (links_err "identities") (resolve who)
              end
          end
      end
  | _, _, _ => Ok None
  end.

(** ** Governance *)

Inductive GovernedRules : Type :=
| Unwired
| Resolved (protection : EffectiveProtection) (privilege_grant : option EnvironmentProjectPrivilegeGrant).
Inductive RunGovernance : Type :=
| Ungoverned
| Governed (environment : string) (locked_out : bool) (rules : GovernedRules).
Definition protection (g : RunGovernance) : option EffectiveProtection :=
  match g with Governed _ _ (Resolved p _) => Some p | _ => None end.
Definition privilege_grant_scope (g : RunGovernance) : option (option EnvironmentProjectPrivilegeGrant) :=
  match g with Governed _ _ (Resolved _ grant) => Some grant | _ => None end.
Definition locked_out (g : RunGovernance) : bool := match g with Governed _ l _ => l | Ungoverned => false end.
Definition governed_environment (g : RunGovernance) : option string := match g with Governed e _ _ => Some e | Ungoverned => None end.

(** What one admission is answered. [None]: that store is not wired. *)
Record AdmissionReads := mkAdmissionReads {
  ap_governance : option (string -> string -> string -> Result string (option DeployGovernance));
  ap_libraries : option (LibraryPort * (list string -> Result LibraryStoreError (list LibraryYank)));
  ap_connections : option (Result string (option (ForgeKind * string)));
  ap_mints : Result ForgeError bool;
  ap_default_branch : Result ForgeError string;
  ap_links : ActorLinks;
  ap_new_run : string;
  ap_decision_id : string;
  ap_policy_thread : option string;
  (** The blocking task the Policies are evaluated on. *)
  ap_blocking : Result string unit;
  ap_now : Timestamp;
}.

Definition resolve_governance (reads : AdmissionReads) (event : Event) (ir : PipelineIr)
  : Result TriggerError (Result AdmissionRefusal RunGovernance) :=
  match ir_environment ir with
  | None => Ok (Ok Ungoverned)
  | Some env =>
      let governed rules := Ok (Ok (Governed env (fork_policy event env).1 rules)) in
      match ap_governance reads with
      | None => governed Unwired
      | Some deploy_governance =>
          match deploy_governance (rp_owner (repo_of event)) (rp_name (repo_of event)) env with
          | Err e => Err (TeDb (DbOther ("environment governance store: " +:+ e)))
          | Ok None => Ok (Err (UnknownEnvironment env))
          | Ok (Some g) =>
              if negb (dg_eligible g) then Ok (Err (NotEligible env))
              else governed (Resolved (governance_protection g) (dg_privilege_grant g))
          end
      end
  end.
Definition is_human_dispatch (event : Event) : bool := match trigger_kind event with TkManual | TkApi => true | _ => false end.
Definition admission_before_policies (reads : AdmissionReads) (event : Event) (ir : PipelineIr)
  : Result TriggerError (Result AdmissionRefusal RunGovernance) :=
  resolved ← resolve_governance reads event ir;
  match resolved with
  | Err r => Ok (Err r)
  | Ok gov =>
      match protection gov with
      | None => Ok (Ok gov)
      | Some p =>
          if negb (admits_protection_ref p (protection_ref event)) then Ok (Err RefNotAllowed)
          else match admits_reason p (is_human_dispatch event) (is_some (trigger_title event)) with
               | Err violations => Err (TeReasonRequired (join "; " violations))
               | Ok _ => Ok (Ok gov)
               end
      end
  end.

(** The Pipeline as a governed Run stores it, and the gate rule's result. *)
Definition environment_approval_ir (ir : PipelineIr) (gov : RunGovernance) (excluded : list string)
  : Result (AdmissionRefusal * PolicyResult) (PipelineIr * option PolicyResult) :=
  match gov with
  | Ungoverned => Ok (ir, None)
  | Governed environment _ _ =>
      let decided := gate_requirement ir environment (protection gov) excluded in
      match gr_refusal decided, gr_result decided with
      | Some message, Some result => Err (MissingApprovalGate [message], result)
      | _, result => Ok (gr_ir decided, result)
      end
  end.

(** ** The Run's cache and concurrency *)

Definition run_cache_scope (reads : AdmissionReads) (event : Event) (ir : PipelineIr) (gov : RunGovernance) : option CacheScope :=
  let pull_request := locked_out gov || bool_decide (trigger_kind event = TkPullRequest) in
  let git_ref := protection_ref event in
  let environment := environment_scope (governed_environment gov) git_ref pull_request in
  let default_branch :=
    if negb (is_some environment) && is_some git_ref && existsb (fun s => is_some (st_cache s)) (ir_steps ir)
    then match ap_default_branch reads with Ok b => Some b | Err _ => None end else None in
  for_run environment git_ref default_branch pull_request.

Section Consultation.
Context {P : PolicyPorts} {R : Rfc3339} {C : Cel} {F : Floats} {T : CharTables} {H : Sha256} {U : UuidPort}.
Context (in_time_range : Z -> bool).

Definition concurrency_group_key (ir : PipelineIr) (event : Event) (params : option (gmap string Json)) (facts : gmap string Json)
  : Result TriggerError (option string) :=
  match ir_concurrency ir with
  | None => Ok None
  | Some c =>
      let ctx := JObj [("event", json_object facts); ("inputs", json_object (default ∅ params))] in
      group ← map_err (fun e => TePipeline ("concurrency group `" +:+ cy_group c +:+ "`: " +:+ show_pipeline_error e)) (interpolate (cy_group c) ctx);
      Ok (Some (rp_owner (repo_of event) +:+ "/" +:+ rp_name (repo_of event) +:+ ":" +:+ group))
  end.

(** ** The run.create Policies *)

Definition dispatch_reason (reason : option string) : option string :=
  match reason with Some r => if String.eqb (trim r) "" then None else Some r | None => None end.
Definition trigger_sha (event : Event) : option string :=
  match event with
  | EvPush _ _ _ _ after _ => non_empty after
  | EvPullRequest _ _ _ _ head _ _ _ => non_empty head
  | EvManual _ _ _ sha _ | EvApi _ _ _ sha _ | EvUpstream _ _ _ _ _ _ sha _ _ => non_empty sha
  | _ => None
  end.
Definition run_create_trigger (event : Event) (linked : option string) : Trigger * option string :=
  let '(principal, reason) :=
    match event with
    | EvManual a _ _ _ reason | EvApi a _ _ _ reason => (non_empty a, dispatch_reason reason)
    | _ => (linked, None)
    end in
  (mkTrigger (trigger_kind event) (protection_ref event) (trigger_sha event) (is_fork_pr event) (actor event) principal reason, principal).
Definition run_create_facts (event : Event) (linked : option string) (path : string) (gov : RunGovernance) (now : Z)
    (params : option (gmap string Json)) : Result string RunCreateFacts * MatchContext :=
  let '(trigger, principal) := run_create_trigger event linked in
  (time ← time_of in_time_range now;
   Ok (mkFacts (rp_owner (repo_of event)) (rp_name (repo_of event)) trigger path (governed_environment gov) principal time (default ∅ params) ∅),
   mkMatchContext (rp_name (repo_of event)) (governed_environment gov) (tr_kind trigger)).
Definition with_event (event_facts : gmap string Json) (f : RunCreateFacts) : RunCreateFacts :=
  mkFacts (RunCreate.rf_org f) (RunCreate.rf_project f) (rf_trigger f) (rf_pipeline_path f) (rf_environment f) (rf_principal f) (rf_time f) (rf_params f) event_facts.
(** [None]: the walk of [input_value] ran out of turns, which it does for no
    well-formed Pipeline ([RunCreate.built_input_binds]). *)
Definition consult_input (ir : PipelineIr) (facts : Result string RunCreateFacts) : option (Result string Json) :=
  match facts with
  | Err e => Some (Err e)
  | Ok f => match check_run_caps ir with Err e => Some (Err e) | Ok _ => input_value ir f end
  end.
Definition policy_store_err (e : PolicyStoreError) : TriggerError :=
  TeDb (DbOther ("policy store: " +:+ show_store_error e +:+ "; the Run was not created because its Policies could not be checked")).

(** What a consultation decides about, and the decision. *)
Definition run_decision (reads : AdmissionReads) (event : Event) (linked : option string) (ir : PipelineIr) (path : string) (gov : RunGovernance)
    (params : option (gmap string Json)) (event_facts : gmap string Json) (stored : list StoredPolicy) (builtins : list PolicyResult)
  : Result PolicyStoreError PolicyDecision :=
  let '(facts, ctx) := run_create_facts event linked path gov (ap_now reads) params in
  match ap_blocking reads, consult_input ir (fmap (M := Result string) (with_event event_facts) facts) with
  | Err e, _ => Err (PsStore e)
  | Ok _, None => Err (PsStore "the Policies' input was not built")
  | Ok _, Some input =>
      Ok (evaluate_with_builtins (ap_policy_thread reads) RunCreate RUN_CREATE_SCHEMA_VERSION input (Some (plugin_gates ir)) ctx stored builtins)
  end.
Definition run_decision_record (reads : AdmissionReads) (event : Event) (run : string) (d : PolicyDecision) : DecisionRecord :=
  mkDecisionRecord (ap_decision_id reads) (rp_owner (repo_of event)) (Some (rp_name (repo_of event)))
    (if is_denied d then None else Some run) None None d (ap_now reads).

Context {S : Type} (effective_policies : string -> option string -> Checkpoint -> S -> Result PolicyStoreError (list StoredPolicy) * S)
  (record : DecisionRecord -> S -> Result PolicyStoreError string * S).

Definition consult_run_create (reads : AdmissionReads) (event : Event) (ir : PipelineIr) (path : string) (gov : RunGovernance) (run : string)
    (params : option (gmap string Json)) (event_facts : gmap string Json) (builtins : list PolicyResult) (st : S)
  : Result TriggerError (Result AdmissionRefusal unit) * S :=
  let '(read, st) := effective_policies (rp_owner (repo_of event)) (Some (rp_name (repo_of event))) RunCreate st in
  match read with
  | Err e => (Err (policy_store_err e), st)
  | Ok stored =>
      if is_nil stored && negb (has_plugin_gate ir) && is_nil builtins then (Ok (Ok tt), st)
      else
        match principal_of (ap_links reads) event with
        | Err e => (Err e, st)
        | Ok linked =>
            match run_decision reads event linked ir path gov params event_facts stored builtins with
            | Err e => (Err (policy_store_err e), st)
            | Ok d =>
                match record (run_decision_record reads event run d) st with
                | (Err e, st) => (Err (policy_store_err e), st)
                | (Ok id, st) => (Ok (if is_denied d then Err (PolicyDenied id (attributed_messages d)) else Ok tt), st)
                end
            end
        end
  end.

(** ** Admission *)

(** What the Run is created from. *)
Record AdmittedRun := mkAdmittedRun {
  am_run : string;
  am_ir : PipelineIr;
  am_gov : RunGovernance;
  am_event : gmap string Json;
  am_trusted_only : gmap string string;
  am_cache_scope : option CacheScope;
  am_concurrency_group : option string;
  am_now : Timestamp;
}.
Definition yank_items (ir : PipelineIr) : list (string * list OriginEntry) := map (fun s => (ticked (st_id s), st_origin s)) (ir_steps ir).
Definition yanked_messages (reads : AdmissionReads) (ir : PipelineIr) : Result TriggerError (list string) :=
  match ap_libraries reads with
  | None => Ok []
  | Some (_, yanked) => map_err (fun e => TeDb (DbOther ("library store: " +:+ show_library_error e))) (yank_refusals_for yanked (yank_items ir))
  end.
Definition restricts_refs (gov : RunGovernance) : bool :=
  match protection gov with Some p => negb (refs_unrestricted (ep_allowed_refs p)) | None => false end.
(** The fixed checks between the Environment's and the Policies': yanks, event
    values, forge tokens, and the concurrency key. *)
Definition fixed_checks (reads : AdmissionReads) (event : Event) (ir : PipelineIr) (path : string) (gov : RunGovernance)
    (params : option (gmap string Json)) : Result TriggerError (Result AdmissionRefusal AdmittedRun) :=
  yanked ← yanked_messages reads ir;
  if negb (is_nil yanked) then Ok (Err (LibraryYanked yanked))
  else
    clone_url ← map_err (fun e => TeDb (DbOther e)) (repo_clone_url event (ap_connections reads));
    match event_facts event clone_url ir with
    | Err messages => Ok (Err (EventField messages))
    | Ok facts =>
        tokens ← map_err (fun e => TeDb (DbOther e))
          (forge_token_refusals (ap_mints reads) (fst <$> ap_libraries reads) clone_url ir (is_fork_pr event || locked_out gov) (restricts_refs gov));
        if negb (is_nil (ta_refusals tokens)) then Ok (Err (ForgeTokenRefused (ta_refusals tokens)))
        else
          group ← concurrency_group_key ir event params facts;
          Ok (Ok (mkAdmittedRun (run_id_for (ap_new_run reads) event path) ir gov facts (ta_trusted_only tokens)
                    (run_cache_scope reads event ir gov) group (ap_now reads)))
    end.

(** [policies] says whether a Policy store is wired. *)
Definition admit_unrecorded (reads : AdmissionReads) (policies : bool) (event : Event) (ir : PipelineIr) (path : string)
    (excluded : list string) (params : option (gmap string Json)) (st : S) : Result TriggerError (Result AdmissionRefusal AdmittedRun) * S :=
  match admission_before_policies reads event ir with
  | Err e => (Err e, st)
  | Ok (Err refusal) => (Ok (Err refusal), st)
  | Ok (Ok gov) =>
      match environment_approval_ir ir gov excluded with
      | Err (refusal, result) =>
          if policies then
            match consult_run_create reads event ir path gov (run_id_for (ap_new_run reads) event path) params ∅ [result] st with
            | (Err e, st) => (Err e, st)
            | (Ok _, st) => (Ok (Err refusal), st)
            end
          else (Ok (Err refusal), st)
      | Ok (ir, gate_requirement) =>
          match fixed_checks reads event ir path gov params with
          | Err e => (Err e, st)
          | Ok (Err refusal) => (Ok (Err refusal), st)
          | Ok (Ok admitted) =>
              if policies then
                match consult_run_create reads event ir path gov (am_run admitted) params (am_event admitted)
                        (match gate_requirement with Some r => [r] | None => [] end) st with
                | (Err e, st) => (Err e, st)
                | (Ok (Err refusal), st) => (Ok (Err refusal), st)
                | (Ok (Ok _), st) => (Ok (Ok admitted), st)
                end
              else (Ok (Ok admitted), st)
          end
      end
  end.

(** ** The record of a refused Run *)

Definition other_error (message : string) : Json := JObj [("kind", JStr "other"); ("message", JStr message)].
Definition refused_run (event : Event) (pipeline reason_kind message : string) (errors : list string) (now : Timestamp) : RefusedRun :=
  mkRefusedRun 0 (rp_owner (repo_of event)) (rp_name (repo_of event)) pipeline (trigger_kind_wire (trigger_kind event)) (actor event)
    (protection_ref event) (origin_sha event) (trigger_title event) reason_kind message (JArr (map other_error errors)) now.
Definition refusal_kind (r : AdmissionRefusal) : option (string * list string) :=
  match r with
  | RefNotAllowed => None
  | UnknownEnvironment _ | NotEligible _ => Some ("environment", [])
  | PolicyDenied _ m => Some ("policy", m)
  | LibraryYanked m => Some ("yanked", m)
  | EventField m => Some ("event_field", m)
  | ForgeTokenRefused m => Some ("forge_token", m)
  | MissingApprovalGate m => Some ("approval_gate", m)
  end.
(** What [admit_and_create_run] records of a refusal; [None]: nothing. *)
Definition refusal_record (event : Event) (path : string) (r : AdmissionRefusal) (now : Timestamp) : option RefusedRun :=
  '(kind, messages) ← refusal_kind r;
  let message := admission_refusal_message r (rp_owner (repo_of event)) (rp_name (repo_of event)) in
  Some (refused_run event path kind message (if is_nil messages then [message] else messages) now).
End Consultation.

(** * Theorems *)

(** ** What lets a Run begin *)

(** The Environment the Pipeline names exists in the Org, admits the Project
    and the event's ref, and was given the reason it asks for. *)
Record environment_admits (reads : AdmissionReads) (event : Event) (ir : PipelineIr) (excluded : list string) (a : AdmittedRun)
    (get : string -> string -> string -> Result string (option DeployGovernance)) (env : string) (g : DeployGovernance) : Prop := {
  ea_exists : get (rp_owner (repo_of event)) (rp_name (repo_of event)) env = Ok (Some g);
  ea_eligible : dg_eligible g = true;
  ea_ref : admits_protection_ref (governance_protection g) (protection_ref event) = true;
  ea_reason : ep_require_reason (governance_protection g) = true -> is_human_dispatch event = true -> is_Some (trigger_title event);
  ea_gov : am_gov a = Governed env (is_fork_pr event) (Resolved (governance_protection g) (dg_privilege_grant g));
  ea_gated : ep_approvers (governance_protection g) <> [] -> well_formed ir -> (forall e, e ∈ excluded -> e ∈ ids (ir_steps ir)) ->
    gated (am_ir a) excluded;
}.
Definition environment_of (reads : AdmissionReads) (event : Event) (ir : PipelineIr) (excluded : list string) (a : AdmittedRun) : Prop :=
  match ir_environment ir, ap_governance reads with
  | None, _ => am_gov a = Ungoverned /\ am_ir a = ir
  | Some env, None => am_gov a = Governed env (is_fork_pr event) Unwired
  | Some env, Some get => exists g, environment_admits reads event ir excluded a get env g
  end.

Lemma fork_policy_fst event env : (fork_policy event env).1 = is_fork_pr event.
Proof. unfold fork_policy. by destruct (is_fork_pr event). Qed.

Lemma before_policies reads event ir gov : admission_before_policies reads event ir = Ok (Ok gov) ->
  match ir_environment ir, ap_governance reads with
  | None, _ => gov = Ungoverned
  | Some env, None => gov = Governed env (is_fork_pr event) Unwired
  | Some env, Some get => exists g, get (rp_owner (repo_of event)) (rp_name (repo_of event)) env = Ok (Some g) /\ dg_eligible g = true
      /\ admits_protection_ref (governance_protection g) (protection_ref event) = true
      /\ (ep_require_reason (governance_protection g) = true -> is_human_dispatch event = true -> is_Some (trigger_title event))
      /\ gov = Governed env (is_fork_pr event) (Resolved (governance_protection g) (dg_privilege_grant g))
  end.
Proof.
  unfold admission_before_policies, resolve_governance. destruct (ir_environment ir) as [env|]; [|by intros [= <-]].
  rewrite fork_policy_fst. destruct (ap_governance reads) as [get|]; [|by intros [= <-]].
  destruct (get _ _ env) as [[g|]|] eqn:Eg; [|done..]. destruct (dg_eligible g) eqn:Ee; [|done]. cbn [negb mbind result_bind protection].
  destruct (admits_protection_ref _ _) eqn:Er; [|done].
  destruct (admits_reason _ _ _) eqn:Ereason; [|done]. intros [= <-]. exists g. split_and!; try done.
  intros Hrr Hd. unfold admits_reason, reason_rule in Ereason. rewrite Hrr, Hd in Ereason. by destruct (trigger_title event).
Qed.
Lemma approval_ir ir gov excluded ir' result : environment_approval_ir ir gov excluded = Ok (ir', result) ->
  match gov with
  | Ungoverned => ir' = ir /\ result = None
  | Governed environment _ _ =>
      let decided := gate_requirement ir environment (protection gov) excluded in
      ir' = gr_ir decided /\ result = gr_result decided /\ (gr_refusal decided = None \/ gr_result decided = None)
  end.
Proof.
  unfold environment_approval_ir. destruct gov as [|environment l rules]; [by intros [= <- <-]|]. cbv zeta.
  destruct (gr_refusal _), (gr_result _); intros [= <- <-]; auto.
Qed.
(** A refusal of the gate rule comes with its result. *)
Lemma refusal_has_result ir environment p excluded :
  gr_result (gate_requirement ir environment p excluded) = None -> gr_refusal (gate_requirement ir environment p excluded) = None.
Proof.
  unfold gate_requirement. destruct p as [p|]; [|done]. destruct (is_nil _); [done|].
  destruct (add_environment_approval_gate _ _ _ _) as [? [?|]]; [|done]. by case_bool_decide.
Qed.

Section Checked.
Context {P : PolicyPorts} {R : Rfc3339} {C : Cel} {F : Floats} {T : CharTables} {H : Sha256} {U : UuidPort}.
Context (in_time_range : Z -> bool).
Context {S : Type} (effective_policies : string -> option string -> Checkpoint -> S -> Result PolicyStoreError (list StoredPolicy) * S)
  (record : DecisionRecord -> S -> Result PolicyStoreError string * S).

(** The fixed checks passed: nothing yanked, the event's values checked, and
    every forge token one the Step may have. *)
Record checks_passed (reads : AdmissionReads) (event : Event) (path : string) (params : option (gmap string Json)) (a : AdmittedRun)
    (url : option string) (tokens : ForgeTokenAdmission) : Prop := {
  cp_not_yanked : forall l yanked, ap_libraries reads = Some (l, yanked) -> yank_refusals_for yanked (yank_items (am_ir a)) = Ok [];
  cp_url : repo_clone_url event (ap_connections reads) = Ok url;
  cp_event : event_facts event url (am_ir a) = Ok (am_event a);
  cp_tokens : forge_token_refusals (ap_mints reads) (fst <$> ap_libraries reads) url (am_ir a)
      (is_fork_pr event || locked_out (am_gov a)) (restricts_refs (am_gov a)) = Ok tokens;
  cp_no_refusal : ta_refusals tokens = [];
  cp_trusted_only : am_trusted_only a = ta_trusted_only tokens;
  cp_group : concurrency_group_key (am_ir a) event params (am_event a) = Ok (am_concurrency_group a);
  cp_run : am_run a = run_id_for (ap_new_run reads) event path;
}.
Lemma map_err_ok {E E' A} (f : E -> E') (r : Result E A) a : map_err f r = Ok a -> r = Ok a.
Proof. by destruct r as [?|?]; [intros [= <-]|]. Qed.
Lemma fixed_checks_ok reads event ir path gov params a : fixed_checks reads event ir path gov params = Ok (Ok a) ->
  am_ir a = ir /\ am_gov a = gov /\ exists url tokens, checks_passed reads event path params a url tokens.
Proof.
  unfold fixed_checks, yanked_messages.
  destruct (match ap_libraries reads with None => _ | Some _ => _ end) as [yanked|] eqn:Ey; [|done]. cbn [mbind result_bind].
  destruct yanked; [|done]. cbn [is_nil negb].
  destruct (map_err _ (repo_clone_url _ _)) as [url|] eqn:Eu; [|done]. cbn [mbind result_bind].
  destruct (event_facts event url ir) as [facts|] eqn:Ef; [|done].
  destruct (map_err _ (forge_token_refusals _ _ _ _ _ _)) as [tokens|] eqn:Et; [|done]. cbn [mbind result_bind].
  destruct (ta_refusals tokens) eqn:Er; [|done]. cbn [is_nil negb].
  destruct (concurrency_group_key _ _ _ _) as [group|] eqn:Eg; [|done]. cbn [mbind result_bind]. intros [= <-].
  split_and!; [done..|]. exists url, tokens. apply map_err_ok in Eu, Et. split; try done.
  intros l y Hl. cbn. rewrite Hl in Ey. by apply map_err_ok in Ey.
Qed.

(** The Policies were read and, unless there was nothing to consult, their
    decision, which does not deny, was recorded with the Run's id. *)
Definition policies_allow (reads : AdmissionReads) (event : Event) (path : string) (params : option (gmap string Json)) (a : AdmittedRun)
    (builtins : list PolicyResult) (st st' : S) : Prop :=
  exists stored st1, effective_policies (rp_owner (repo_of event)) (Some (rp_name (repo_of event))) RunCreate st = (Ok stored, st1) /\
    (stored = [] /\ builtins = [] /\ has_plugin_gate (am_ir a) = false /\ st' = st1
     \/ exists linked d id, principal_of (ap_links reads) event = Ok linked
          /\ run_decision in_time_range reads event linked (am_ir a) path (am_gov a) params (am_event a) stored builtins = Ok d
          /\ is_denied d = false
          /\ record (mkDecisionRecord (ap_decision_id reads) (rp_owner (repo_of event)) (Some (rp_name (repo_of event)))
                       (Some (am_run a)) None None d (ap_now reads)) st1 = (Ok id, st')).
Lemma consult_allows reads event path params a builtins st st' :
  consult_run_create in_time_range effective_policies record reads event (am_ir a) path (am_gov a) (am_run a) params (am_event a) builtins st = (Ok (Ok tt), st') ->
  policies_allow reads event path params a builtins st st'.
Proof.
  unfold consult_run_create, policies_allow.
  destruct (effective_policies _ _ _ st) as [[stored|e] st1] eqn:Ee; [|done].
  destruct (is_nil stored && _ && _) eqn:En.
  - intros [= <-]. exists stored, st1. split; [done|]. left. apply andb_true_iff in En as [[H1 H2]%andb_true_iff H3].
    destruct stored, builtins; try done. split_and!; [done..| |done]. by apply negb_true_iff.
  - destruct (principal_of _ _) as [linked|] eqn:El; [|done].
    destruct (run_decision _ _ _ _ _ _ _ _ _ _ _) as [d|] eqn:Ed; [|done].
    unfold run_decision_record. destruct (is_denied d) eqn:Ei; (destruct (record _ st1) as [[id|e] st2] eqn:Er; [|done]); [done|].
    intros [= <-]. exists stored, st1. split; [done|]. right. exists linked, d, id. done.
Qed.

(** C3: a Run begins only if everything that may refuse it was asked and none
    did: the Environment its Pipeline names exists in the Org, admits the
    Project and the ref, and has the reason it requires, and where it has
    approvers every Step that uses its authority has an approval gate
    upstream; no Step comes from a yanked library version; every [event] value
    its templates read passed its check; every forge token asked for is
    admitted; and the [run.create] Policies, where there is anything to
    consult, made a decision that does not deny, recorded with the Run's id.
    A store that fails lets no Run begin. *)
Theorem admitted_run_checked reads policies event ir path excluded params st st' a
  (Ha : admit_unrecorded in_time_range effective_policies record reads policies event ir path excluded params st = (Ok (Ok a), st')) :
  environment_of reads event ir excluded a
  /\ (exists url tokens, checks_passed reads event path params a url tokens)
  /\ if policies then exists builtins, policies_allow reads event path params a builtins st st' else st' = st.
Proof.
  unfold admit_unrecorded in Ha. destruct (admission_before_policies reads event ir) as [[gov|]|] eqn:Eb; [|done..].
  destruct (environment_approval_ir ir gov excluded) as [[ir' result]|[refusal result]] eqn:Ei.
  2:{ destruct policies; [|done]. by destruct (consult_run_create _ _ _ _ _ _ _ _ _ _ _ _ _) as [[]]. }
  destruct (fixed_checks reads event ir' path gov params) as [[a0|]|] eqn:Ec; [|done..].
  apply fixed_checks_ok in Ec as (Hir & Hgov & Hc). subst ir' gov.
  assert (a = a0 /\ if policies then exists builtins, policies_allow reads event path params a0 builtins st st' else st' = st) as [-> Hpol].
  { destruct policies; [|by injection Ha as <- <-].
    destruct (consult_run_create _ _ _ _ _ _ _ _ _ _ _ _ _) as [[[[]|]|] st1] eqn:Ep; try done. injection Ha as <- <-.
    split; [done|]. eexists. by eapply consult_allows. }
  split; [|by split]. apply before_policies in Eb. unfold environment_of.
  destruct (ir_environment ir) as [env|] eqn:Eenv; [destruct (ap_governance reads) as [get|]; [|done]|].
  - destruct Eb as (g & H1 & H2 & H3 & H4 & H5). exists g. split; try done. intros Hap Hwf Hex.
    apply approval_ir in Ei. rewrite H5 in Ei. cbv zeta in Ei. destruct Ei as (-> & _ & Href).
    apply requirement_met; [done..|]. destruct Href as [?|Hn]; [done|]. by apply refusal_has_result.
  - apply approval_ir in Ei. rewrite Eb in Ei. by destruct Ei as [-> _].
Qed.

(** ** What a denied Run leaves *)

(** A Run a Policy denied leaves a decision that denies, and names no Run. *)
Lemma denied_run_recorded reads event ir path gov run params facts builtins st st' id messages :
  consult_run_create in_time_range effective_policies record reads event ir path gov run params facts builtins st = (Ok (Err (PolicyDenied id messages)), st') ->
  exists d st1, is_denied d = true /\ messages = attributed_messages d
    /\ record (mkDecisionRecord (ap_decision_id reads) (rp_owner (repo_of event)) (Some (rp_name (repo_of event))) None None None d (ap_now reads)) st1 = (Ok id, st').
Proof.
  unfold consult_run_create. destruct (effective_policies _ _ _ st) as [[stored|e] st1]; [|done].
  destruct (is_nil stored && _ && _); [done|]. destruct (principal_of _ _) as [linked|]; [|done].
  destruct (run_decision _ _ _ _ _ _ _ _ _ _ _) as [d|]; [|done].
  unfold run_decision_record. destruct (is_denied d) eqn:Ei; (destruct (record _ st1) as [[id'|e] st2] eqn:Er; [|done]); [|done].
  intros [= -> <- <-]. by exists d, st1.
Qed.
End Checked.

(** ** Witness *)

Definition plain_uuids : UuidPort := {| uuid_time _ := None; uuid_v7 _ l := String.string_of_list_ascii l |}.
Definition plain_sha : Sha256 := fun s => String.list_ascii_of_string s.
(** The Pipeline that publishes behind a gate, deploying to [prod]. *)
Definition deploying : PipelineIr :=
  mkIr 1 None (Some "deploy") ∅ None (Some "prod") false None interface_empty None [] (ir_steps guarded_pipeline).
Definition push_to_main : Event := EvPush "ana" "7" (mkRepo "acme" "shop") "refs/heads/main" "c0ffee" "ship it".
Definition admission_reads (eligible : bool) : AdmissionReads :=
  mkAdmissionReads
    (Some (fun _ _ _ => Ok (Some (mkGovernance guarded_environment eligible None None))))
    (Some (clone_port, fun _ => Ok []))
    None (Ok true) (Ok "main") (mkLinks None None []) "run1" "d1" None (Ok tt) 50.
Definition admit_deploy (eligible : bool) : Result TriggerError (Result AdmissionRefusal AdmittedRun) * PolicyState :=
  admit_unrecorded (P := plain_ports) (R := stroke_clock) (C := dotted_cel) (F := no_floats) (T := ascii_tables) (H := plain_sha) (U := plain_uuids)
    (fun _ => true) effective record_decision (admission_reads eligible) true push_to_main deploying ".scarab/deploy.yaml" [] None no_policies.
Lemma admitted_run_checked_witness :
  exists a st', admit_deploy true = (Ok (Ok a), st') /\ am_run a = "run1" /\ map dr_run_id (ps_decisions st') = [Some "run1"]
    /\ environment_of (admission_reads true) push_to_main deploying [] a.
Proof.
  destruct (admit_deploy true) as [[[a|r]|e] st'] eqn:E; [|exfalso; vm_compute in E; discriminate E..].
  exists a, st'. split; [reflexivity|].
  destruct (admitted_run_checked (P := plain_ports) (R := stroke_clock) (C := dotted_cel) (F := no_floats) (T := ascii_tables) (H := plain_sha)
    (U := plain_uuids) (fun _ => true) effective record_decision (admission_reads true) true push_to_main deploying ".scarab/deploy.yaml" [] None
    no_policies st' a E) as (Henv & (url & tokens & Hc) & _).
  split; [exact (cp_run _ _ _ _ _ _ _ Hc)|]. split; [|exact Henv].
  assert (map dr_run_id (ps_decisions (admit_deploy true).2) = [Some "run1"]) as Hd by (vm_compute; reflexivity).
  rewrite E in Hd. exact Hd.
Defined.
(** A Project the Environment does not admit starts no Run. *)
Example not_eligible_refused : (admit_deploy false).1 = Ok (Err (NotEligible "prod")).
Proof. vm_compute. reflexivity. Qed.
