(* ===== verification/Creation.v ===== *)
(** * Writing an admitted Run (scarab-server/src/lib.rs)

    [persist_run_from_ir]: the Run's row, what it was born from, its Steps and
    gates, in separate store calls, and last the write that makes it
    schedulable. A creation that fails partway ends the Run [Failed]. *)

From S2P Require Import Prelude Text Values Domain Meta Store Outbox Commits Gates Program Transitions Globs Protection Loosening Cel Params Scopes Render Ir Schema RunCreate Policies ForgeEvent Libraries ForgeToken Admission.

(** ** Errors as text *)

Definition show_db_error (e : DbError) : string :=
  match e with
  | DbUnavailable => "durable store unavailable"
  | DbConflict => "optimistic concurrency conflict"
  | DbNotLeader => "not the leader: the lease moved to another owner or a later term"
  | DbFenceTimeout => "a leader transaction hit its time bound and rolled back"
  | DbOther m => "db error: " +:+ m
  end.
Definition show_trigger_error (e : TriggerError) : string :=
  match e with
  | TeForge e => show_forge_error e
  | TePipeline m => "pipeline: " +:+ m
  | TeNotUtf8 => "config is not valid UTF-8"
  | TeReasonRequired m => m
  | TeDb e => show_db_error e
  end.

(** ** What a Step may have *)

Definition admit_step_grants (scope : option (option EnvironmentProjectPrivilegeGrant)) (security : option StepSecurity) (image : string)
    (locked_out : bool) : Result (list string) AdmittedGrants :=
  match security with
  | None => Ok (mkAdmitted false [] false)
  | Some sec =>
      if is_baseline sec then Ok (mkAdmitted false [] false)
      else
        let req := mkGrantRequest (se_run_as_root sec) (se_add_capabilities sec) (se_privileged sec) in
        match scope with
        | Some grant => admit_grants grant req image locked_out
        | None =>
            if gr_privileged req || negb (is_nil (gr_add_capabilities req))
            then Err ["governed grants (add-capabilities/privileged) require a target Environment"]
            else Ok (mkAdmitted (gr_run_as_root req) [] false)
        end
  end.

Definition K8S_OVERLAY_RESERVED_PREFIXES : list string := ["app.kubernetes.io/"; "scarab.io/"; "scarab.dev/"].
Definition K8S_OVERLAY_RESERVED_METADATA : list string := ["name"; "generateName"; "namespace"; "ownerReferences"; "finalizers"].
Definition k8s_overlay_reserved_prefix_list : string := join ", " (map ticked K8S_OVERLAY_RESERVED_PREFIXES).
Definition reserved_key (key : string) : bool := existsb (fun p => starts_with p key) K8S_OVERLAY_RESERVED_PREFIXES.
Definition object_has (m : list (string * Json)) (k : string) : bool := existsb (fun p => String.eqb p.1 k) m.
Definition reserved_in (metadata : list (string * Json)) (field : string) : list string :=
  match json_get (JObj metadata) field with
  | None => []
  | Some (JObj m) =>
      omap (fun kv => if reserved_key kv.1
                      then Some ("raw `k8s_overlay` may not set or delete the reserved `metadata." +:+ field +:+ "` key `" +:+ kv.1 +:+ "` (keys under "
                                 +:+ k8s_overlay_reserved_prefix_list +:+ " are Scarab's)")
                      else None) m
  | Some _ => ["raw `k8s_overlay` may not replace or delete `metadata." +:+ field +:+ "`: it holds the reserved " +:+ k8s_overlay_reserved_prefix_list +:+ " keys"]
  end.
Definition k8s_overlay_reserved_keys (overlay : Json) : list string :=
  match json_get overlay "metadata" with
  | None => []
  | Some (JObj metadata) =>
      omap (fun field => if object_has metadata field
                         then Some ("raw `k8s_overlay` may not set or delete `metadata." +:+ field +:+ "`: Scarab manages it") else None)
        K8S_OVERLAY_RESERVED_METADATA
      ++ reserved_in metadata "labels" ++ reserved_in metadata "annotations"
  | Some _ => ["raw `k8s_overlay` may not replace or delete `metadata`: it holds the Pod's name and its reserved " +:+ k8s_overlay_reserved_prefix_list
               +:+ " labels and annotations"]
  end.
Definition admit_k8s_overlay (scope : option (option EnvironmentProjectPrivilegeGrant)) (overlay : option Json) : Result (list string) (option Json) :=
  match overlay with
  | None => Ok None
  | Some o =>
      if permits_k8s_overlay (mjoin scope) then
        (if is_nil (k8s_overlay_reserved_keys o) then Ok (Some o) else Err (k8s_overlay_reserved_keys o))
      else Err ["raw `k8s_overlay` requires a target Environment that permits raw overlays for this project (an org admin sets `permit_k8s_overlay` in the project's privilege grant there)"]
  end.

(** ** A Step's launch spec *)

(** The fields of the engine's [StepSpec] that [Store.StepSpec] keeps as JSON. *)
Record SpecRest := mkSpecRest {
  sx_secrets : list SecretRef;
  sx_run_as_root : bool;
  sx_add_capabilities : list string;
  sx_privileged : bool;
  sx_workspace_outputs : list string;
  sx_forge_token : option ForgeTokenConfig;
  sx_artifacts : list string;
  sx_placement_profiles : list string;
  sx_resources : Resources;
  sx_k8s_overlay : option Json;
  sx_services : list ServiceSpec;
}.
(** serde's serializers of a build, of those fields, and of the Pipeline. *)
Class SpecCodec := { encode_build : BuildConfig -> Json; encode_rest : SpecRest -> Json; encode_ir : PipelineIr -> Json }.

Definition cache_config (s : StepSpec) : option CacheConfig :=
  (fun c => mkCacheConfig (ca_dirs c) (ca_key c) None [] None) <$> st_cache s.
Definition build_config (e : Event) (locked_out : bool) (b : BuildSpec) : BuildConfig :=
  mkBuildConfig (if String.eqb (bu_context b) "" then "." else bu_context b)
    (if String.eqb (bu_dockerfile b) "" then "Dockerfile" else bu_dockerfile b) (bu_image b)
    (rp_owner (repo_of e)) (rp_name (repo_of e)) (bu_push b && negb locked_out) false None None.
Definition forge_token_config (e : Event) (locked_out : bool) (trusted_library : option string) (asked : ForgeToken) : ForgeTokenConfig :=
  let read_only := locked_out || is_fork_pr e in
  mkTokenConfig (if read_only then FtRead else asked) (rp_owner (repo_of e)) (rp_name (repo_of e)) read_only trusted_library None.
(** [n as i64]. *)
Definition as_i64 (n : N) : Z := let z := Z.of_N n in if (z <? 2 ^ 63)%Z then z else (z - 2 ^ 64)%Z.

Definition concurrency_policy_from_wire (s : string) : ConcurrencyPolicy := if String.eqb s "cancel-in-progress" then CancelInProgress else Queue.
Definition CONFIG_DIR : string := ".scarab".
Definition strip_suffix (p s : string) : option string := if ends_with p s then Some (take_str (String.length s - String.length p) s) else None.
Definition bare_pipeline_name (path : string) : string :=
  let p := default path (strip_prefix (CONFIG_DIR +:+ "/") path) in
  match strip_suffix ".yaml" p with Some b => b | None => default p (strip_suffix ".yml" p) end.
Definition run_pipeline_name (ir : PipelineIr) (path : string) : string := default (bare_pipeline_name path) (ir_name ir).

(** ** The writes *)

Definition db {A} (op : Op A) : Prog TriggerError A := into TeDb (call op).
Definition of_result {E A} (r : Result E A) : Prog E A := match r with Ok a => ret a | Err e => fail e end.
Definition when_some {A} (o : option A) (f : A -> Prog TriggerError unit) : Prog TriggerError unit :=
  match o with Some a => f a | None => ret tt end.

Section Writing.
Context {C : Cel} {F : Floats} {T : CharTables} {K : SpecCodec}.
Context (a : AdmittedRun) (e : Event) (pipeline : string) (excluded : list string) (params : option (gmap string Json)).
#[local] Abbreviation run := (am_run a).
#[local] Abbreviation now := (am_now a).
#[local] Abbreviation ir := (am_ir a).

Definition step_image (s : StepSpec) : string :=
  preview_image (st_image s) (st_scope s) (st_matrix_values s) (default ∅ params) (am_event a).
Definition step_spec (s : StepSpec) : Result TriggerError Store.StepSpec :=
  let scope := privilege_grant_scope (am_gov a) in
  let locked := locked_out (am_gov a) in
  g ← map_err (fun v => TePipeline ("step `" +:+ st_id s +:+ "`: privilege request rejected: " +:+ join "; " v))
        (admit_step_grants scope (st_security s) (step_image s) locked);
  overlay ← map_err (fun v => TePipeline ("step `" +:+ st_id s +:+ "`: " +:+ join "; " v)) (admit_k8s_overlay scope (st_k8s_overlay s));
  Ok (mkStepSpec (st_image s) (st_command s) (st_env s) (st_matrix_values s) (st_scope s)
        (encode_build <$> (build_config e locked <$> st_build s)) (st_uses s) (st_timeout s) [] (cache_config s)
        (encode_rest (mkSpecRest (st_secrets s) (ad_run_as_root g) (ad_add_capabilities g) (ad_privileged g) (default [] (st_outputs s))
           (forge_token_config e locked (am_trusted_only a !! st_id s) <$> st_forge_token s) (st_artifacts s) (st_placement_profiles s)
           (st_resources s) overlay (st_services s)))).

Definition create_step (s : StepSpec) : Prog TriggerError unit :=
  match st_gate s with
  | Some kind =>
      db (create_step_run run (st_id s) None (st_needs s)) ;;;
      db (set_step_gate run (st_id s) kind (as_i64 <$> st_gate_after s)) ;;;
      when_some (st_plugin_gate s) (fun g => db (set_gate_releaser run (st_id s) (plugin_gate_releaser g)))
  | None =>
      let* spec := of_result (step_spec s) in
      db (create_step_run run (st_id s) (Some spec) (st_needs s))
  end ;;;
  (if is_some (am_trusted_only a !! st_id s) then db (set_step_inputs run (st_id s) [])
   else when_some (st_inputs s) (fun inputs => db (set_step_inputs run (st_id s) inputs))) ;;;
  if bool_decide (st_id s ∈ excluded)
  then db (commit_step_transition run (st_id s) StepPending StepSkipped FrontierAny None
             [event run (StepTransitioned (st_id s) StepPending StepSkipped) now] [])
  else ret tt.

Definition run_origin : RunOrigin :=
  mkRunOrigin (trigger_kind_wire (trigger_kind e)) (actor e) (protection_ref e) (origin_sha e) (origin_pr_number e) (origin_pr_base e).
Definition deploy_context (environment : string) : DeployContext :=
  mkDeployContext (rp_owner (repo_of e)) (rp_name (repo_of e)) environment (default (config_ref e) (protection_ref e)) (locked_out (am_gov a)).
(** Newest-wins cancel applies to a Run that targets no Environment and is not
    a deploy Run. *)
Definition cancellable : bool := match am_gov a with Ungoverned => negb (is_deploy ir) | Governed _ _ _ => false end.
Definition concurrency_of : option (string * ConcurrencyPolicy) :=
  c ← ir_concurrency ir; group ← am_concurrency_group a;
  Some (group, if cancellable then concurrency_policy_from_wire (cy_policy c) else Queue).
Definition supersede_of : option string := if cancellable then supersede_key e pipeline else None.
Definition trigger_record : Json :=
  match actor e with
  | Some who => JObj [("actor", JStr who); ("trigger", context e)]
  | None => JObj [("trigger", context e)]
  end.

Definition write_facts : Prog TriggerError unit :=
  when_some params (fun p => db (set_run_params run p)) ;;;
  db (set_run_tenant run (rp_owner (repo_of e)) (rp_name (repo_of e))) ;;;
  db (set_run_scheduling run (rp_owner (repo_of e) +:+ "/" +:+ rp_name (repo_of e)) 0) ;;;
  (let* _ := db (allocate_run_number run (rp_owner (repo_of e)) (rp_name (repo_of e))) in ret tt) ;;;
  db (set_run_origin run run_origin) ;;;
  db (set_run_pipeline run (run_pipeline_name ir pipeline)) ;;;
  when_some (trigger_title e) (fun t => db (set_run_trigger_title run t)) ;;;
  db (store_run_ir run (encode_ir ir)) ;;;
  db (set_run_event_facts run (am_event a)) ;;;
  when_some (am_cache_scope a) (fun s => db (record_run_cache_scope run s)) ;;;
  when_some (governed_environment (am_gov a)) (fun env => db (set_run_deploy_context run (deploy_context env))) ;;;
  (if is_deploy ir then db (mark_deploy_run run (deploy_steps ir)) else ret tt) ;;;
  when_some concurrency_of (fun c => db (set_run_concurrency run c.1 c.2)) ;;;
  when_some supersede_of (fun key => db (set_supersede_key run key)) ;;;
  db (append_event (event run RunCreated now)) ;;;
  db (append_event (event run (RawEvent trigger_record) now)).
Definition write_run_from_ir : Prog TriggerError unit := write_facts ;;; for_each create_step (ir_steps ir).

Definition end_run_creation (written : Result TriggerError unit) : Prog TriggerError unit :=
  let* ended := match written with
                | Ok _ => attempt_ (db (finish_run_creation run))
                | Err err => ret (Err err)
                end in
  match ended with
  | Ok _ => ret tt
  | Err err => (let* _ := attempt_ (fail_run_creation run (show_trigger_error err) now) in fail err)
  end.
Definition persist_run_from_ir : Prog TriggerError unit :=
  db (begin_run_creation run now) ;;;
  let* written := attempt_ write_run_from_ir in
  end_run_creation written.
End Writing.

(** * Theorems *)

(** ** What the store holds of one Run *)

Record View := mkView {
  vw_creating : bool;
  vw_rows : gmap StepId StepRec;
  vw_ir : option Json;
  vw_tenant : option (string * string);
  vw_params : option (gmap string Json);
  vw_event : option (gmap string Json);
  vw_cache_scope : option CacheScope;
  vw_deploy : option DeployContext;
  vw_deploy_steps : option (list StepId);
  vw_concurrency : option (string * ConcurrencyPolicy);
  vw_supersede : option string;
}.
Definition rows_of (run : RunId) (st : InMemoryState) : gmap StepId StepRec := default ∅ (map_curry (M1 := gmap RunId) (M2 := gmap StepId) (st_steps st) !! run).
Definition view (run : RunId) (st : InMemoryState) : View :=
  mkView (bool_decide (run ∈ st_creating st)) (rows_of run st) (st_run_ir st !! run) (rm_tenant (st_meta st) !! run)
    (rm_params (st_meta st) !! run) (rm_event_facts (st_meta st) !! run) (st_run_cache_scope st !! run) (rm_deploy (st_meta st) !! run)
    (rm_deploy_runs (st_meta st) !! run) (st_concurrency st !! run) (st_supersede_keys st !! run).
Definition with_rows (f : gmap StepId StepRec -> gmap StepId StepRec) (v : View) : View :=
  mkView (vw_creating v) (f (vw_rows v)) (vw_ir v) (vw_tenant v) (vw_params v) (vw_event v) (vw_cache_scope v) (vw_deploy v) (vw_deploy_steps v)
    (vw_concurrency v) (vw_supersede v).
Definition with_creating x v : View := mkView x (vw_rows v) (vw_ir v) (vw_tenant v) (vw_params v) (vw_event v) (vw_cache_scope v) (vw_deploy v) (vw_deploy_steps v) (vw_concurrency v) (vw_supersede v).
Definition with_ir x v : View := mkView (vw_creating v) (vw_rows v) x (vw_tenant v) (vw_params v) (vw_event v) (vw_cache_scope v) (vw_deploy v) (vw_deploy_steps v) (vw_concurrency v) (vw_supersede v).
Definition with_tenant x v : View := mkView (vw_creating v) (vw_rows v) (vw_ir v) x (vw_params v) (vw_event v) (vw_cache_scope v) (vw_deploy v) (vw_deploy_steps v) (vw_concurrency v) (vw_supersede v).
Definition with_params x v : View := mkView (vw_creating v) (vw_rows v) (vw_ir v) (vw_tenant v) x (vw_event v) (vw_cache_scope v) (vw_deploy v) (vw_deploy_steps v) (vw_concurrency v) (vw_supersede v).
Definition with_event x v : View := mkView (vw_creating v) (vw_rows v) (vw_ir v) (vw_tenant v) (vw_params v) x (vw_cache_scope v) (vw_deploy v) (vw_deploy_steps v) (vw_concurrency v) (vw_supersede v).
Definition with_cache_scope x v : View := mkView (vw_creating v) (vw_rows v) (vw_ir v) (vw_tenant v) (vw_params v) (vw_event v) x (vw_deploy v) (vw_deploy_steps v) (vw_concurrency v) (vw_supersede v).
Definition with_deploy x v : View := mkView (vw_creating v) (vw_rows v) (vw_ir v) (vw_tenant v) (vw_params v) (vw_event v) (vw_cache_scope v) x (vw_deploy_steps v) (vw_concurrency v) (vw_supersede v).
Definition with_deploy_steps x v : View := mkView (vw_creating v) (vw_rows v) (vw_ir v) (vw_tenant v) (vw_params v) (vw_event v) (vw_cache_scope v) (vw_deploy v) x (vw_concurrency v) (vw_supersede v).
Definition with_concurrency x v : View := mkView (vw_creating v) (vw_rows v) (vw_ir v) (vw_tenant v) (vw_params v) (vw_event v) (vw_cache_scope v) (vw_deploy v) (vw_deploy_steps v) x (vw_supersede v).
Definition with_supersede x v : View := mkView (vw_creating v) (vw_rows v) (vw_ir v) (vw_tenant v) (vw_params v) (vw_event v) (vw_cache_scope v) (vw_deploy v) (vw_deploy_steps v) (vw_concurrency v) x.

Lemma lookup_rows_of run st step : rows_of run st !! step = st_steps st !! (run, step).
Proof.
  unfold rows_of. rewrite <- (lookup_map_curry (M1 := gmap RunId) (M2 := gmap StepId) (st_steps st)). by destruct (map_curry (st_steps st) !! run).
Qed.
(** Nothing else writes a Run being created: its id is this call's own. Others
    may still move its status ([fail_run_creation] of the leader). *)
Definition leaves (run : RunId) (i : Interference) : Prop := forall st, view run (if_store i st) = view run st.

(** [p] takes what the store holds of [run] from [v] to some [v'] with
    [R v v'] when it succeeds, and never lets an unfinished Run be scheduled
    when it fails. *)
Definition effect {E A} (run : RunId) (p : Prog E A) (R : View -> View -> Prop) : Prop := forall w,
  Forall (leaves run) (w_env w) -> Forall (leaves run) (w_env (p w).2) /\
  match (p w).1 with
  | Ok _ => R (view run (w_st w)) (view run (w_st (p w).2))
  | Err _ => vw_creating (view run (w_st w)) = true -> vw_creating (view run (w_st (p w).2)) = true
  end.
(** Relations that keep an unfinished Run unfinished. *)
Definition keeps (R : View -> View -> Prop) : Prop := forall v v', R v v' -> vw_creating v = true -> vw_creating v' = true.

Lemma effect_ret {E A} run (a : A) : effect run (ret (E := E) a) eq.
Proof. intros w Hw. done. Qed.
Lemma effect_fail {E A} run (e : E) R : effect run (fail (A := A) e) R.
Proof. intros w Hw. cbn. auto. Qed.
Lemma effect_bind {E A B} run (m : Prog E A) (f : A -> Prog E B) R1 R2 : keeps R1 ->
  effect run m R1 -> (forall a, effect run (f a) R2) -> effect run (Program.bind m f) (fun v v' => exists u, R1 v u /\ R2 u v').
Proof.
  intros Hk Hm Hf w Hw. unfold Program.bind. specialize (Hm w Hw). destruct (m w) as [[x|e] w1]; cbn in Hm; [|done].
  destruct Hm as [Hw1 H1]. destruct (Hf x w1 Hw1) as [Hw2 H2]. split; [done|].
  destruct (f x w1) as [[b|e] w2]; cbn in *; [by eexists|]. intros Hc. apply H2, (Hk _ _ H1 Hc).
Qed.
Lemma effect_weaken {E A} run (m : Prog E A) (R R' : View -> View -> Prop) : (forall v v', R v v' -> R' v v') -> effect run m R -> effect run m R'.
Proof. intros H Hm w Hw. destruct (Hm w Hw) as [? H']. split; [done|]. destruct (m w) as [[]]; cbn in *; auto. Qed.
Lemma keeps_then R1 R2 : keeps R1 -> keeps R2 -> keeps (fun v v' => exists u, R1 v u /\ R2 u v').
Proof. intros H1 H2 v v' (u & ? & ?) ?. eauto. Qed.
Lemma keeps_fun f : (forall v, vw_creating (f v) = vw_creating v) -> keeps (fun v v' => v' = f v).
Proof. intros Hf v v' ->. by rewrite Hf. Qed.

Lemma interfere_leaves run w : Forall (leaves run) (w_env w) ->
  Forall (leaves run) (w_env (interfere w).1) /\ view run (w_st (interfere w).1) = view run (w_st w).
Proof.
  intros Hw. unfold interfere. destruct (w_driver w), (w_env w) as [|i env] eqn:E; cbn; rewrite ?E; try done;
    apply Forall_cons in Hw as [Hi Hw]; (split; [done|apply Hi]).
Qed.
(** A store call, from its effect on the state. *)
Lemma effect_call {A} run (op : Op A) (R : View -> View -> Prop) :
  (forall st, match (op st).1 with
              | Ok _ => R (view run st) (view run (op st).2)
              | Err _ => vw_creating (view run st) = true -> vw_creating (view run (op st).2) = true
              end) -> effect run (call op) R.
Proof.
  intros Hop w Hw. unfold call, call_at. destruct (interfere_leaves run w Hw) as [Hw1 Hv].
  set (w1 := (interfere w).1) in *. specialize (Hop (w_st w1)). rewrite Hv in Hop.
  destruct (w_driver w1); [| |split; [done|]; change (vw_creating (view run (w_st w)) = true -> vw_creating (view run (w_st w1)) = true); by rewrite Hv];
    destruct (op (w_st w1)) as [[x|er] st]; (split; [done|exact Hop]).
Qed.
Lemma effect_into {E E1 A} run (f : E -> E1) (m : Prog E A) R : effect run m R -> effect run (into f m) R.
Proof. intros Hm w Hw. unfold into. destruct (Hm w Hw) as [Hw' H]. destruct (m w) as [[x|er] w']; done. Qed.
Lemma effect_db {A} run (op : Op A) (R : View -> View -> Prop) :
  (forall st, match (op st).1 with
              | Ok _ => R (view run st) (view run (op st).2)
              | Err _ => vw_creating (view run st) = true -> vw_creating (view run (op st).2) = true
              end) -> effect run (db op) R.
Proof. intros Hop. by apply effect_into, effect_call. Qed.
Lemma effect_modify run g f : (forall st, view run (g st) = f (view run st)) -> effect run (db (op_modify g)) (fun v v' => v' = f v).
Proof. intros Hg. apply effect_db. intros st. cbn. apply Hg. Qed.
Lemma effect_when {A} run (o : option A) f (R : A -> View -> View -> Prop) : (forall a, effect run (f a) (R a)) ->
  effect run (when_some o f) (fun v v' => match o with Some a => R a v v' | None => v' = v end).
Proof. intros Hf. destruct o; [apply Hf|]. intros w Hw. done. Qed.
Lemma keeps_when {A} (o : option A) (R : A -> View -> View -> Prop) : (forall a, keeps (R a)) ->
  keeps (fun v v' => match o with Some a => R a v v' | None => v' = v end).
Proof. intros H. destruct o; [apply H|]. intros v v' -> ?. done. Qed.
Lemma effect_if {E A} run (b : bool) (p q : Prog E A) R1 R2 : effect run p R1 -> effect run q R2 ->
  effect run (if b then p else q) (fun v v' => if b then R1 v v' else R2 v v').
Proof. by destruct b. Qed.
Lemma keeps_if (b : bool) R1 R2 : keeps R1 -> keeps R2 -> keeps (fun v v' => if b then R1 v v' else R2 v v').
Proof. by destruct b. Qed.
Lemma keeps_eq : keeps eq.
Proof. by intros v v' ->. Qed.
Lemma effect_result {E A B} run (r : Result E A) (f : A -> Prog E B) R : keeps R -> (forall a, r = Ok a -> effect run (f a) R) ->
  effect run (Program.bind (of_result r) f) (fun v v' => (exists a, r = Ok a) /\ R v v').
Proof.
  intros Hk Hf. destruct r as [x|er]; cbn; [|apply effect_fail].
  apply effect_weaken with (R := R); [by eauto|]. by apply Hf.
Qed.

(** ** What each write does to it *)

(** The Run's row in a table of the store. *)
Ltac row := intros; unfold view, rows_of; cbn; by simplify_map_eq.

Lemma view_set_params run p : effect run (db (set_run_params run p)) (fun v v' => v' = with_params (Some p) v).
Proof. apply effect_modify. row. Qed.
Lemma view_set_tenant run o p : effect run (db (set_run_tenant run o p)) (fun v v' => v' = with_tenant (Some (o, p)) v).
Proof. apply effect_modify. row. Qed.
Lemma view_store_ir run j : effect run (db (store_run_ir run j)) (fun v v' => v' = with_ir (Some j) v).
Proof. apply effect_modify. row. Qed.
Lemma view_set_event run f : effect run (db (set_run_event_facts run f)) (fun v v' => v' = with_event (Some f) v).
Proof. apply effect_modify. row. Qed.
Lemma view_cache_scope run s : effect run (db (record_run_cache_scope run s)) (fun v v' => v' = with_cache_scope (Some s) v).
Proof. apply effect_modify. row. Qed.
Lemma view_deploy run c : effect run (db (set_run_deploy_context run c)) (fun v v' => v' = with_deploy (Some c) v).
Proof. apply effect_modify. row. Qed.
Lemma view_mark run l : effect run (db (mark_deploy_run run l)) (fun v v' => v' = with_deploy_steps (Some l) v).
Proof. apply effect_modify. row. Qed.
Lemma view_concurrency run g c : effect run (db (set_run_concurrency run g c)) (fun v v' => v' = with_concurrency (Some (g, c)) v).
Proof. apply effect_modify. row. Qed.
Lemma view_supersede run k : effect run (db (set_supersede_key run k)) (fun v v' => v' = with_supersede (Some k) v).
Proof. apply effect_modify. row. Qed.
Lemma view_begin run t : effect run (db (begin_run_creation run t)) (fun v v' => v' = with_creating true v).
Proof. apply effect_modify. intros st. unfold view, rows_of. cbn. rewrite bool_decide_eq_true_2 by set_solver. done. Qed.
Lemma view_finish run : effect run (db (finish_run_creation run)) (fun v v' => v' = with_creating false v).
Proof. apply effect_modify. intros st. unfold view, rows_of. cbn. rewrite bool_decide_eq_false_2 by set_solver. done. Qed.
Lemma view_scheduling run p n : effect run (db (set_run_scheduling run p n)) (fun v v' => v' = v).
Proof. by apply (effect_modify _ _ (fun v => v)). Qed.
Lemma view_number run o p : effect run (let* _ := db (allocate_run_number run o p) in ret tt) (fun v v' => v' = v).
Proof.
  eapply effect_weaken; [|apply (effect_bind _ _ _ (fun v v' => v' = v) eq); [by intros v v' ->|by apply effect_db|intros; apply effect_ret]].
  by intros v v' (u & -> & ->).
Qed.
Lemma view_origin run x : effect run (db (set_run_origin run x)) (fun v v' => v' = v).
Proof. by apply (effect_modify _ _ (fun v => v)). Qed.
Lemma view_pipeline run x : effect run (db (set_run_pipeline run x)) (fun v v' => v' = v).
Proof. by apply (effect_modify _ _ (fun v => v)). Qed.
Lemma view_title run x : effect run (db (set_run_trigger_title run x)) (fun v v' => v' = v).
Proof. by apply (effect_modify _ _ (fun v => v)). Qed.
Lemma view_append run e : effect run (db (append_event e)) (fun v v' => v' = v).
Proof.
  apply effect_db. intros st. unfold append_event, op_bind, take_event_append_failure.
  destruct (st_event_append_failure st) as [m|]; [|done]. destruct (existsb _ _); cbn; auto.
Qed.

Lemma rows_of_insert run id r st : rows_of run (Store.set_steps (<[(run, id) := r]> (st_steps st)) st) = <[id := r]> (rows_of run st).
Proof.
  apply map_eq. intros j. rewrite lookup_rows_of. cbn. destruct (decide (j = id)) as [->|Hj].
  - by rewrite !lookup_insert_eq.
  - by rewrite !lookup_insert_ne, lookup_rows_of by congruence.
Qed.
Lemma rows_of_alter run id f st : rows_of run (update_step (run, id) f st) = alter f id (rows_of run st).
Proof.
  apply map_eq. intros j. rewrite lookup_rows_of. cbn. destruct (decide (j = id)) as [->|Hj].
  - by rewrite !lookup_alter_eq, lookup_rows_of.
  - by rewrite !lookup_alter_ne, lookup_rows_of by congruence.
Qed.
Lemma with_rows_view run st st' f : rows_of run st' = f (rows_of run st) -> view run st' = mkView (bool_decide (run ∈ st_creating st'))
  (f (rows_of run st)) (st_run_ir st' !! run) (rm_tenant (st_meta st') !! run)
    (rm_params (st_meta st') !! run) (rm_event_facts (st_meta st') !! run) (st_run_cache_scope st' !! run) (rm_deploy (st_meta st') !! run)
    (rm_deploy_runs (st_meta st') !! run) (st_concurrency st' !! run) (st_supersede_keys st' !! run).
Proof. intros E. unfold view. by rewrite E. Qed.
Lemma view_create_step run id spec needs : effect run (db (create_step_run run id spec needs))
  (fun v v' => v' = with_rows <[id := mkStepRec (Some StepPending) spec needs [] None None ∅ None None None None None None]> v).
Proof. apply effect_modify. intros st. by rewrite (with_rows_view _ _ _ _ (rows_of_insert run id _ st)). Qed.
Lemma view_update_step run id f : effect run (db (op_modify (update_step (run, id) f))) (fun v v' => v' = with_rows (alter f id) v).
Proof. apply effect_modify. intros st. by rewrite (with_rows_view _ _ _ _ (rows_of_alter run id f st)). Qed.
Lemma view_skip run id es : effect run (db (commit_step_transition run id StepPending StepSkipped FrontierAny None es []))
  (fun v v' => v' = with_rows (alter (rec_with_status (Some StepSkipped)) id) v).
Proof.
  apply effect_db. intros st. unfold commit_step_transition, op_bind.
  assert (Hc : st_creating (check_step_transition_locked run id StepPending st).2 = st_creating st
    /\ forall u, (check_step_transition_locked run id StepPending st).1 = Ok u -> (check_step_transition_locked run id StepPending st).2 = st).
  { unfold check_step_transition_locked. repeat case_match; by split. }
  destruct (check_step_transition_locked _ _ _ st) as [[u|er] st1]; cbn in Hc; destruct Hc as [Hc Hu].
  2: { cbn. by rewrite Hc. }
  rewrite (Hu u eq_refl). unfold check_frontier, take_event_append_failure. cbn.
  destruct (st_event_append_failure st) as [m|]; [destruct (existsb _ es)|]; cbn; try by intros.
  all: exact (with_rows_view run st _ _ (rows_of_alter run id _ st)).
Qed.
(** ** What a creation must have written *)

Section Created.
Context {C : Cel} {F : Floats} {T : CharTables} {K : SpecCodec}.
Context (a : AdmittedRun) (e : Event) (pipeline : string) (excluded : list string) (params : option (gmap string Json)).

(** A Step's row: a gate has its kind, timer and releaser and no spec, any
    other Step the spec its admitted grants allow. *)
Definition step_row (s : StepSpec) : Result TriggerError StepRec :=
  spec ← (if is_some (st_gate s) then Ok None else spec ← step_spec a e params s; Ok (Some spec));
  Ok (mkStepRec (Some (if bool_decide (st_id s ∈ excluded) then StepSkipped else StepPending)) spec (st_needs s) [] None None ∅ None
        (st_gate s) (_ ← st_gate s; as_i64 <$> st_gate_after s) (_ ← st_gate s; plugin_gate_releaser <$> st_plugin_gate s)
        (if is_some (am_trusted_only a !! st_id s) then Some [] else st_inputs s) None).
Definition written_view (v : View) : View :=
  mkView (vw_creating v) (vw_rows v) (Some (encode_ir (am_ir a))) (Some (rp_owner (repo_of e), rp_name (repo_of e)))
    (match params with Some p => Some p | None => vw_params v end) (Some (am_event a))
    (match am_cache_scope a with Some s => Some s | None => vw_cache_scope v end)
    (match governed_environment (am_gov a) with Some env => Some (deploy_context a e env) | None => vw_deploy v end)
    (if is_deploy (am_ir a) then Some (deploy_steps (am_ir a)) else vw_deploy_steps v)
    (match concurrency_of a with Some c => Some c | None => vw_concurrency v end)
    (match supersede_of a e pipeline with Some k => Some k | None => vw_supersede v end).

Lemma view_facts : effect (am_run a) (write_facts a e pipeline params) (fun v v' => v' = written_view v).
Proof.
  eapply effect_weaken; cycle 1.
  { unfold write_facts. repeat first
      [ apply view_number | apply effect_bind; [| |intros ?] | apply effect_when; intros ? | apply effect_if
      | apply view_set_params | apply view_set_tenant | apply view_scheduling | apply view_origin
      | apply view_pipeline | apply view_title | apply view_store_ir | apply view_set_event | apply view_cache_scope | apply view_deploy
      | apply view_mark | apply view_concurrency | apply view_supersede | apply view_append | apply effect_ret ].
    all: intros v v' H Hc; cbn beta in H; repeat case_match; by subst. }
  intros v v' H. cbn beta in H. repeat (destruct H as (? & ? & H)). subst v'. unfold written_view.
  destruct params, (trigger_title e), (am_cache_scope a), (governed_environment (am_gov a)), (is_deploy (am_ir a)),
    (concurrency_of a) as [[]|], (supersede_of a e pipeline); by subst.
Qed.

(** An update of the Step's own row after its insert. *)
Lemma with_rows_alter id r f v : with_rows (alter f id) (with_rows <[id := r]> v) = with_rows <[id := f r]> v.
Proof. unfold with_rows. cbn. f_equal. apply map_eq. intros j. destruct (decide (j = id)) as [->|]; by simplify_map_eq. Qed.

Definition unit_row (s : StepSpec) (spec : option Store.StepSpec) : StepRec :=
  mkStepRec (Some StepPending) spec (st_needs s) [] None None ∅ None
    (st_gate s) (_ ← st_gate s; as_i64 <$> st_gate_after s) (_ ← st_gate s; plugin_gate_releaser <$> st_plugin_gate s) None None.
Definition unit_spec (s : StepSpec) : Result TriggerError (option Store.StepSpec) :=
  if is_some (st_gate s) then Ok None else spec ← step_spec a e params s; Ok (Some spec).
Definition own_inputs (s : StepSpec) (r : StepRec) : StepRec :=
  mkStepRec (rec_status r) (rec_spec r) (rec_needs r) (rec_attempts r) (rec_output r) (rec_output_identity r)
    (rec_results r) (rec_input r) (rec_gate_kind r) (rec_gate_timer_seconds r) (rec_gate_releaser r)
    (if is_some (am_trusted_only a !! st_id s) then Some [] else match st_inputs s with Some i => Some i | None => rec_explicit_inputs r end)
    (rec_evidence_attempt r).

Lemma view_unit s : effect (am_run a)
  (match st_gate s with
   | Some kind =>
       db (create_step_run (am_run a) (st_id s) None (st_needs s)) ;;;
       db (set_step_gate (am_run a) (st_id s) kind (as_i64 <$> st_gate_after s)) ;;;
       when_some (st_plugin_gate s) (fun g => db (set_gate_releaser (am_run a) (st_id s) (plugin_gate_releaser g)))
   | None => let* spec := of_result (step_spec a e params s) in db (create_step_run (am_run a) (st_id s) (Some spec) (st_needs s))
   end)
  (fun v v' => exists spec, unit_spec s = Ok spec /\ v' = with_rows <[st_id s := unit_row s spec]> v).
Proof.
  unfold unit_spec, unit_row. destruct (st_gate s) as [kind|].
  - eapply effect_weaken; cycle 1.
    { apply effect_bind; [|apply view_create_step|intros _; apply effect_bind; [|apply view_update_step|intros _]].
      1, 2: by intros v v' ->.
      apply effect_when. intros g. apply view_update_step. }
    cbn beta. intros v v' (u & -> & u' & -> & H). exists None. split; [done|].
    destruct (st_plugin_gate s); subst; cbn; by rewrite !with_rows_alter.
  - destruct (step_spec a e params s) as [spec|er]; [|apply effect_fail].
    eapply effect_weaken; [|apply view_create_step]. intros v v' ->. by exists (Some spec).
Qed.
Lemma view_inputs s : effect (am_run a)
  (if is_some (am_trusted_only a !! st_id s) then db (set_step_inputs (am_run a) (st_id s) [])
   else when_some (st_inputs s) (fun inputs => db (set_step_inputs (am_run a) (st_id s) inputs)))
  (fun v v' => v' = with_rows (alter (own_inputs s) (st_id s)) v).
Proof.
  unfold own_inputs. destruct (is_some (am_trusted_only a !! st_id s)); [apply view_update_step|].
  destruct (st_inputs s) as [inputs|]; [apply view_update_step|].
  intros w Hw. split; [done|]. cbn. generalize (view (am_run a) (w_st w)). intros [?????]. unfold with_rows; cbn. f_equal. symmetry.
  apply map_eq. intros j. destruct (decide (j = st_id s)) as [->|]; simplify_map_eq; [|done].
  destruct (_ !! st_id s) as [[]|]; done.
Qed.
Lemma view_create_row s : effect (am_run a) (create_step a e excluded params s)
  (fun v v' => exists r, step_row s = Ok r /\ v' = with_rows <[st_id s := r]> v).
Proof.
  eapply effect_weaken; cycle 1.
  { unfold create_step. apply effect_bind; [|apply view_unit|intros _; apply effect_bind; [|apply view_inputs|intros _]].
    - intros v v' (spec & _ & ->). done.
    - by intros v v' ->.
    - apply (effect_if _ _ _ _ _ eq (view_skip _ _ _) (effect_ret _ _)). }
  cbn beta. intros v v' (u & (spec & Hs & ->) & u' & -> & H). unfold step_row. fold (unit_spec s). rewrite Hs. eexists. split; [done|].
  rewrite with_rows_alter in H.
  assert (Hi : forall i : option (list StepId), match i with Some l => Some l | None => None end = i) by by intros [].
  destruct (bool_decide _); subst; rewrite ?with_rows_alter; unfold own_inputs, unit_row; cbn; by rewrite Hi.
Qed.

(** The Steps' rows, written in order. *)
Definition write_rows (rows : list (StepId * StepRec)) (m : gmap StepId StepRec) : gmap StepId StepRec :=
  foldl (fun m p => <[p.1 := p.2]> m) m rows.
Definition rows_written (steps : list StepSpec) (rows : list (StepId * StepRec)) : Prop :=
  Forall2 (fun s p => p.1 = st_id s /\ step_row s = Ok p.2) steps rows.

Lemma view_steps steps : effect (am_run a) (for_each (create_step a e excluded params) steps)
  (fun v v' => exists rows, rows_written steps rows /\ v' = with_rows (write_rows rows) v).
Proof.
  induction steps as [|s steps IH].
  - intros w Hw. split; [done|]. exists []. split; [constructor|]. cbn. done.
  - eapply effect_weaken; [|cbn; apply effect_bind; [|apply view_create_row|intros _; apply IH]].
    + cbn beta. intros v v' (u & (r & Hr & ->) & rows & Hrows & ->). exists ((st_id s, r) :: rows).
      split; [by constructor|done].
    + by intros v v' (r & _ & ->).
Qed.
Lemma write_rows_other rows m id : id ∉ rows.*1 -> write_rows rows m !! id = m !! id.
Proof.
  revert m. induction rows as [|[j r] rows IH]; intros m Hid; [done|]. apply not_elem_of_cons in Hid as [Hj Hid].
  change (write_rows rows (<[j := r]> m) !! id = m !! id). rewrite IH by done. by rewrite lookup_insert_ne.
Qed.
Lemma write_rows_mem rows m id r : NoDup rows.*1 -> (id, r) ∈ rows -> write_rows rows m !! id = Some r.
Proof.
  revert m. induction rows as [|[j x] rows IH]; intros m Hd Hr; [by apply elem_of_nil in Hr|]. apply NoDup_cons in Hd as [Hj Hd].
  apply elem_of_cons in Hr as [[= -> ->]|Hr]; [|by apply IH].
  change (write_rows rows (<[j := x]> m) !! j = Some x). rewrite write_rows_other by done. by rewrite lookup_insert_eq.
Qed.
Lemma rows_written_ids steps rows : rows_written steps rows -> rows.*1 = map st_id steps.
Proof. induction 1 as [|s p steps rows [Hp _] _ IH]; [done|]. cbn. by rewrite Hp, IH. Qed.

(** Whatever becomes of the call, an unfinished Run stays unfinished. *)
Definition unfinished (v v' : View) : Prop := vw_creating v = true -> vw_creating v' = true.
Lemma effect_unfinished {E1 A} run (m : Prog E1 A) w : effect run m unfinished -> Forall (leaves run) (w_env w) ->
  vw_creating (view run (w_st w)) = true -> vw_creating (view run (w_st (m w).2)) = true.
Proof. intros Hm Hw Hc. destruct (Hm w Hw) as [_ H]. destruct (m w) as [[x|er] w']; by apply H. Qed.
Lemma enqueue_all_creating ms st : st_creating (enqueue_all ms st) = st_creating st.
Proof.
  revert st. induction ms as [|m ms IH]; intros st; [done|]. rewrite enqueue_all_cons, IH. unfold enqueue_outbox_locked. by case_match.
Qed.
Lemma view_fail_creation run reason now : effect run (fail_run_creation run reason now) unfinished.
Proof.
  eapply effect_weaken; [|apply (effect_bind _ _ _ unfinished unfinished); [by intros v v' H|..]].
  - intros v v' (u & H1 & H2) Hc. by apply H2, H1.
  - apply effect_call. intros st. cbn. by intros Hc.
  - intros g. apply effect_call. intros st.
    match goal with |- context [?o st] => assert (Hc : st_creating (o st).2 = st_creating st) end.
    { unfold Store.commit_run_transition, op_bind, holds_leader_term_if, op_ret. case_decide; [|done].
      unfold take_event_append_failure. destruct (st_event_append_failure st) as [m|]; [destruct (existsb _ _); [done|]|];
        unfold op_modify; cbn [snd]; rewrite enqueue_all_creating; unfold bump_reopen_generation_locked; by case_match. }
    destruct (_ st).1; unfold unfinished, view; cbn [vw_creating]; by rewrite Hc.
Qed.

(** The failure path: mark the Run failed, report the first error. *)
Definition end_failed (er : TriggerError) : Prog TriggerError unit :=
  let* _ := attempt_ (fail_run_creation (am_run a) (show_trigger_error er) (am_now a)) in fail er.
Lemma end_failed_unfinished er w : Forall (leaves (am_run a)) (w_env w) -> vw_creating (view (am_run a) (w_st w)) = true ->
  (end_failed er w).1 = Err er /\ vw_creating (view (am_run a) (w_st (end_failed er w).2)) = true.
Proof.
  intros Hw Hc. unfold end_failed, Program.bind, attempt_, fail.
  pose proof (effect_unfinished _ _ w (view_fail_creation (am_run a) (show_trigger_error er) (am_now a)) Hw Hc) as H.
  destruct (fail_run_creation _ _ _ w) as [r w2]. split; [done|exact H].
Qed.
Lemma end_run_creation_eq written w : end_run_creation a written w =
  match written with
  | Ok _ => match db (finish_run_creation (am_run a)) w with
            | (Ok _, w1) => (Ok tt, w1)
            | (Err er, w1) => end_failed er w1
            end
  | Err er => end_failed er w
  end.
Proof.
  unfold end_run_creation. destruct written as [u|er]; [|done].
  unfold Program.bind at 1, attempt_ at 1. by destruct (db (finish_run_creation (am_run a)) w) as [[x|er] w1].
Qed.
Lemma view_end written w : Forall (leaves (am_run a)) (w_env w) -> vw_creating (view (am_run a) (w_st w)) = true ->
  match (end_run_creation a written w).1 with
  | Ok _ => is_ok written = true
      /\ view (am_run a) (w_st (end_run_creation a written w).2) = with_creating false (view (am_run a) (w_st w))
  | Err _ => vw_creating (view (am_run a) (w_st (end_run_creation a written w).2)) = true
  end.
Proof.
  intros Hw Hc. rewrite end_run_creation_eq. destruct written as [u|er].
  - destruct (view_finish (am_run a) w Hw) as [Hw1 H1].
    destruct (db (finish_run_creation (am_run a)) w) as [[x|er] w1]; [exact (conj eq_refl H1)|].
    destruct (end_failed_unfinished er w1 Hw1 (H1 Hc)) as [E H]. by rewrite E.
  - destruct (end_failed_unfinished er w Hw Hc) as [E H]. by rewrite E.
Qed.

(** ** A Step's spec holds nothing its Environment did not grant *)

Lemma admitted_covered scope security image locked g :
  admit_step_grants scope security image locked = Ok g -> ad_privileged g = true \/ ad_add_capabilities g <> [] ->
  locked = false /\ exists grant entry, scope = Some (Some grant) /\ entry_for (pg_privileged_images grant) image = Some entry
    /\ entry_covers (mkGrantRequest (ad_run_as_root g) (ad_add_capabilities g) (ad_privileged g)) entry.
Proof.
  unfold admit_step_grants. destruct security as [sec|]; [|by intros [= <-] [|]].
  destruct (is_baseline sec); [by intros [= <-] [|]|]. destruct scope as [grant|].
  - unfold admit_grants. rewrite admit_grants_spec. intros [-> Hg] G. destruct (Hg G) as [Hl (entry & He & Hc)]. split; [done|].
    destruct grant as [grant|]; [by exists grant, entry|]. unfold entry_for in He. cbn in He. by destruct (image_digest image).
  - case_match; [done|]. by intros [= <-] [|].
Qed.
(** C15: The spec a Step is written with is privileged, or has an added
    capability, only where its Environment's grant for the Project lists the
    image's digest with them and the Run is not locked out; a raw Pod overlay
    is there only where that grant permits one and names nothing Scarab
    reserves; and in a locked-out Run, or one from a fork's pull request, the
    forge token is read-only and the build, when locked out, does not push. *)
Theorem written_spec_authorized s sp : step_spec a e params s = Ok sp ->
  exists x b, spec_rest sp = encode_rest x /\ spec_build sp = encode_build <$> b
  /\ (sx_privileged x = true \/ sx_add_capabilities x <> [] ->
        locked_out (am_gov a) = false
        /\ exists grant entry, privilege_grant_scope (am_gov a) = Some (Some grant)
             /\ entry_for (pg_privileged_images grant) (step_image a params s) = Some entry
             /\ entry_covers (mkGrantRequest (sx_run_as_root x) (sx_add_capabilities x) (sx_privileged x)) entry)
  /\ (forall o, sx_k8s_overlay x = Some o ->
        permits_k8s_overlay (mjoin (privilege_grant_scope (am_gov a))) = true /\ k8s_overlay_reserved_keys o = [])
  /\ (forall t, sx_forge_token x = Some t -> locked_out (am_gov a) || is_fork_pr e = true -> fg_access t = FtRead /\ fg_read_only t = true)
  /\ (locked_out (am_gov a) = true -> forall c, b = Some c -> bc_push c = false).
Proof.
  unfold step_spec. cbv zeta. intros H.
  destruct (admit_step_grants _ _ _ _) as [g|v] eqn:Eg; [|done]. cbn in H.
  destruct (admit_k8s_overlay _ _) as [o|v] eqn:Eo; [|done]. injection H as <-.
  eexists _, (build_config e (locked_out (am_gov a)) <$> st_build s). split; [reflexivity|]. split; [done|]. cbn. split_and!.
  - intros G. by eapply admitted_covered.
  - intros o' ->. unfold admit_k8s_overlay in Eo. destruct (st_k8s_overlay s) as [o''|]; [|done].
    destruct (permits_k8s_overlay _); [|done]. destruct (is_nil (k8s_overlay_reserved_keys o'')) eqn:En; [|done].
    injection Eo as ->. by apply is_nil_spec in En.
  - intros t Ht Hro. destruct (st_forge_token s) as [asked|]; [|done]. injection Ht as <-. unfold forge_token_config. cbn. by rewrite Hro.
  - intros Hl c Hc. destruct (st_build s); [|done]. injection Hc as <-. unfold build_config. cbn. rewrite Hl. by destruct (bu_push _).
Qed.

(** ** The whole creation *)

(** What the store holds of an id no Run has used. *)
Definition nothing : View := mkView false ∅ None None None None None None None None None.

Lemma persist_run_from_ir_eq w : persist_run_from_ir a e pipeline excluded params w =
  match db (begin_run_creation (am_run a) (am_now a)) w with
  | (Ok _, w1) => let r := write_run_from_ir a e pipeline excluded params w1 in end_run_creation a r.1 r.2
  | (Err er, w1) => (Err er, w1)
  end.
Proof.
  unfold persist_run_from_ir. unfold Program.bind at 1. destruct (db (begin_run_creation (am_run a) (am_now a)) w) as [[x|er] w1]; [|done].
  unfold Program.bind, attempt_. by destruct (write_run_from_ir a e pipeline excluded params w1).
Qed.
Lemma view_creation w : Forall (leaves (am_run a)) (w_env w) -> view (am_run a) (w_st w) = nothing ->
  let out := persist_run_from_ir a e pipeline excluded params w in
  match out.1 with
  | Ok _ => exists rows, rows_written (ir_steps (am_ir a)) rows
      /\ view (am_run a) (w_st out.2) = with_creating false (with_rows (write_rows rows) (written_view (with_creating true nothing)))
  | Err _ => vw_creating (view (am_run a) (w_st out.2)) = true \/ view (am_run a) (w_st out.2) = nothing
  end.
Proof.
  intros Hw Hn. rewrite persist_run_from_ir_eq. cbv zeta.
  assert (Hbegin : forall er, (db (begin_run_creation (am_run a) (am_now a)) w).1 = Err er ->
    view (am_run a) (w_st (db (begin_run_creation (am_run a) (am_now a)) w).2) = nothing).
  { intros er. destruct (interfere_leaves _ w Hw) as [_ Hv]. unfold db, into, call, call_at.
    destruct (w_driver (interfere w).1); [done..|]. intros _. by rewrite <- Hn, <- Hv. }
  destruct (view_begin (am_run a) (am_now a) w Hw) as [Hw1 H1].
  destruct (db (begin_run_creation (am_run a) (am_now a)) w) as [[x|er] w1]; [|right; by eapply Hbegin].
  cbn [fst snd] in *. rewrite Hn in H1.
  assert (Hc : vw_creating (view (am_run a) (w_st w1)) = true) by by rewrite H1.
  assert (Hwrite : effect (am_run a) (write_run_from_ir a e pipeline excluded params)
    (fun v v' => exists rows, rows_written (ir_steps (am_ir a)) rows /\ v' = with_rows (write_rows rows) (written_view v))).
  { unfold write_run_from_ir. eapply effect_weaken; [|apply effect_bind; [|apply view_facts|intros _; apply view_steps]].
    - cbn beta. by intros v v' (u & -> & rows & Hr & ->); exists rows.
    - by intros v v' ->. }
  destruct (Hwrite w1 Hw1) as [Hw2 H2]. destruct (write_run_from_ir a e pipeline excluded params w1) as [written w2].
  cbn [fst snd] in *.
  assert (Hcr : vw_creating (view (am_run a) (w_st w2)) = true).
  { destruct written; [|by apply H2]. destruct H2 as (rows & _ & ->). done. }
  pose proof (view_end written w2 Hw2 Hcr) as H3. destruct (end_run_creation a written w2) as [[y|er] w3]; cbn [fst snd] in *; [|by left].
  destruct H3 as [Hok ->]. destruct written as [u|]; [|done]. destruct H2 as (rows & Hr & ->). exists rows. by rewrite H1.
Qed.

(** C5: Whatever other servers do to other Runs meanwhile, and wherever this
    one is dropped: a creation that succeeds leaves the Run schedulable with
    exactly the admitted Steps, each with the spec its grants allow (or its
    gate), [Skipped] when it was excluded, and with the IR, tenant, inputs,
    event facts, cache scope, deploy context, deploy Steps, concurrency group
    and supersede key it was admitted with; a governed Run waits in its group
    and nothing supersedes it. A creation that fails leaves a Run no tick takes
    up, or nothing at all. *)
Theorem run_created_as_admitted w :
  Forall (leaves (am_run a)) (w_env w) -> view (am_run a) (w_st w) = nothing -> NoDup (map st_id (ir_steps (am_ir a))) ->
  let out := persist_run_from_ir a e pipeline excluded params w in
  let st := w_st out.2 in
  match out.1 with
  | Ok _ =>
      (am_run a ∉ st_creating st)
      /\ (forall s, s ∈ ir_steps (am_ir a) -> exists r, step_row s = Ok r /\ st_steps st !! (am_run a, st_id s) = Some r)
      /\ (forall id, id ∉ map st_id (ir_steps (am_ir a)) -> st_steps st !! (am_run a, id) = None)
      /\ st_run_ir st !! am_run a = Some (encode_ir (am_ir a))
      /\ rm_tenant (st_meta st) !! am_run a = Some (rp_owner (repo_of e), rp_name (repo_of e))
      /\ rm_params (st_meta st) !! am_run a = params
      /\ rm_event_facts (st_meta st) !! am_run a = Some (am_event a)
      /\ st_run_cache_scope st !! am_run a = am_cache_scope a
      /\ rm_deploy (st_meta st) !! am_run a = deploy_context a e <$> governed_environment (am_gov a)
      /\ rm_deploy_runs (st_meta st) !! am_run a = (if is_deploy (am_ir a) then Some (deploy_steps (am_ir a)) else None)
      /\ st_concurrency st !! am_run a = concurrency_of a
      /\ st_supersede_keys st !! am_run a = supersede_of a e pipeline
      /\ (is_some (governed_environment (am_gov a)) = true ->
            st_supersede_keys st !! am_run a = None /\ forall group policy, st_concurrency st !! am_run a = Some (group, policy) -> policy = Queue)
  | Err _ => am_run a ∈ st_creating st \/ view (am_run a) st = nothing
  end.
Proof.
  intros Hw Hn Hd. cbv zeta. pose proof (view_creation w Hw Hn) as H. cbv zeta in H.
  destruct (persist_run_from_ir a e pipeline excluded params w) as [[u|er] w']; cbn [fst snd] in *.
  2:{ destruct H as [H|H]; [left|by right]. by apply bool_decide_eq_true in H. }
  destruct H as (rows & Hr & Hv). pose proof (rows_written_ids _ _ Hr) as Hids.
  assert (Hrow : forall id, st_steps (w_st w') !! (am_run a, id) = write_rows rows ∅ !! id).
  { intros id. rewrite <- lookup_rows_of. apply (f_equal vw_rows) in Hv. exact (f_equal (.!! id) Hv). }
  unfold view in Hv. injection Hv as Hc _ Hir Hte Hpa Hev Hca Hde Hds Hco Hsu. cbn in *.
  split; [by apply bool_decide_eq_false in Hc|]. split.
  { intros s Hs. apply list_elem_of_lookup in Hs as [i Hi]. destruct (Forall2_lookup_l _ _ _ _ _ Hr Hi) as ([id r] & Hir' & Hid & Hrow').
    cbn in Hid. subst id. exists r. split; [done|]. rewrite Hrow. apply write_rows_mem; [by rewrite Hids|]. by eapply list_elem_of_lookup_2. }
  split. { intros id Hid. rewrite Hrow, write_rows_other by by rewrite Hids. apply lookup_empty. }
  rewrite Hir, Hte, Hpa, Hev, Hca, Hde, Hds, Hco, Hsu. split_and!; try done;
    [by destruct params|by destruct (am_cache_scope a)|by destruct (concurrency_of a)|by destruct (supersede_of _ _ _)|].
  unfold concurrency_of, supersede_of, cancellable. destruct (am_gov a) as [|env locked governed]; [done|]. intros _.
  split; [done|]. intros g c. destruct (ir_concurrency _); [|done]. cbn. destruct (am_concurrency_group a); [|done]. cbn. by intros [= _ <-].
Qed.
End Created.

(** ** Witnesses *)

(** An image pinned to a digest that [prod] lets add a capability. *)
Definition pinned : string := "acme/build@sha256:c0ffee".
Definition prod_grant : EnvironmentProjectPrivilegeGrant := mkPrivilegeGrant "acme" "prod" "shop" [mkImageGrant "sha256:c0ffee" false ["NET_ADMIN"]] false.
Definition capable_step : StepSpec :=
  mkStep "net" pinned None None None (Some FtWrite) None None ∅ None None [] false [] [] [] (Some (mkSecurity false ["NET_ADMIN"] false)) [] None None
    None None None None None [] (mkResources None None) None ∅ [] [] [] None [] None [] None None.
Definition capable_pipeline : PipelineIr :=
  mkIr 1 None (Some "deploy") ∅ (Some (mkConcurrency "prod" "cancel-in-progress")) (Some "prod") false None interface_empty None []
    [set_needs ["net"] (bare_gate "approve" "manual"); capable_step; needing "extra" []].
Definition plain_codec : SpecCodec := {| encode_build _ := JNull; encode_rest x := JArr (map JStr (sx_add_capabilities x)); encode_ir _ := JNull |}.
Definition capable_run : AdmittedRun :=
  mkAdmittedRun "run1" capable_pipeline (Governed "prod" false (Resolved (effective_protection permissive_rules None) (Some prod_grant))) ∅ ∅
    None (Some "prod") 50.
(** Before every write of it another server creates another Run. *)
Definition busy_world : World :=
  mkWorld state_empty 50 (repeat (mkInterference (fun st => (begin_run_creation "other" 5 st).2) 1 0 false) 12) Kept memory_empty.
#[local] Abbreviation create_capable :=
  (persist_run_from_ir (C := dotted_cel) (F := no_floats) (T := ascii_tables) (K := plain_codec) capable_run push_to_main ".scarab/deploy.yaml" ["extra"] None busy_world).
Lemma busy_leaves : Forall (leaves "run1") (w_env busy_world).
Proof.
  apply Forall_forall. intros i Hi. apply list_elem_of_In, repeat_spec in Hi as ->. intros st. unfold view, rows_of. cbn.
  f_equal. apply bool_decide_ext. set_solver.
Qed.
Lemma run_created_as_admitted_witness :
  create_capable.1 = Ok tt
  /\ st_concurrency (w_st create_capable.2) !! "run1" = Some ("prod", Queue)
  /\ (exists r, st_steps (w_st create_capable.2) !! ("run1", "extra") = Some r /\ rec_status r = Some StepSkipped).
Proof.
  assert (map st_id (ir_steps capable_pipeline) = ["approve"; "net"; "extra"]) as Hids by reflexivity.
  pose proof (run_created_as_admitted (C := dotted_cel) (F := no_floats) (T := ascii_tables) (K := plain_codec) capable_run push_to_main
    ".scarab/deploy.yaml" ["extra"] None busy_world busy_leaves ltac:(vm_compute; reflexivity)
    ltac:(apply (bool_decide_unpack _); vm_compute; exact I)) as H.
  assert (create_capable.1 = Ok tt) as E by (vm_compute; reflexivity). cbv zeta in H. rewrite E in H.
  destruct H as (_ & Hs & _ & _ & _ & _ & _ & _ & _ & _ & Hc & _). split; [exact E|]. split; [etrans; [exact Hc|reflexivity]|].
  destruct (Hs (needing "extra" [])) as (r & Hr & Hl); [apply list_elem_of_In; right; right; left; reflexivity|].
  exists r. split; [exact Hl|]. unfold step_row in Hr. cbn in Hr. by injection Hr as <-.
Defined.
Lemma written_spec_authorized_witness :
  exists sp, step_spec (C := dotted_cel) (F := no_floats) (T := ascii_tables) (K := plain_codec) capable_run push_to_main None capable_step = Ok sp
    /\ spec_rest sp = JArr [JStr "NET_ADMIN"].
Proof.
  destruct (step_spec (C := dotted_cel) (F := no_floats) (T := ascii_tables) (K := plain_codec) capable_run push_to_main None capable_step)
    as [sp|er] eqn:E; [|exfalso; vm_compute in E; discriminate E].
  exists sp. split; [reflexivity|].
  destruct (written_spec_authorized (C := dotted_cel) (F := no_floats) (T := ascii_tables) (K := plain_codec) capable_run push_to_main None capable_step
    sp E) as (x & b & _ & _ & _). vm_compute in E. by injection E as <-.
Defined.
